(* ===== verification/_CoqProject ===== *)
-Q . S2P
Prelude.v
ByteIO.v
Types.v
Wire.v
Frame.v
FixedContainers.v
Crc32.v
Counter.v
Replay.v
GroupReplay.v
PeerState.v
Routing.v
RoutingProps.v
RoutingNet.v
Cobs.v
UsbFrame.v
UsbStream.v
ObjectAssembler.v
Congestion.v
JobList.v
Scheduler.v
SchedulerInv.v
SchedulerProps.v
SchedulerSelect.v
SchedulerLive.v
SchedulerRun.v
SchedulerDemo.v
LinkCost.v
LinkCostProps.v
LinkCostRun.v
LinkCostRoutes.v
LinkCostDemo.v
Dedup.v
DedupProps.v
DedupBounds.v
ReplyLeases.v
ReplyLeasesProps.v
ReplyLeasesRun.v
Transactions.v
TransactionsInv.v
TransactionsProps.v
TransactionsAdmit.v
TransactionsSweep.v
TransactionsRun.v
TransactionsLeases.v
SealedSlots.v
SealedSlotsProps.v
SealedSlotsRun.v
LocalRevocation.v
LocalRevocationProps.v
Membership.v
LocalRevocationRun.v
SealedSlotsDemo.v
SessionBank.v
SessionBankProps.v
SessionBankRun.v
SessionBankInstall.v
SessionBankWorld.v
SessionBankTime.v
SessionBankChannel.v
SessionBankDemo.v
SessionRtc.v
SessionRtcProps.v
SessionRtcPort.v
SessionRtcBank.v
SessionRtcRun.v
SessionRtcInv.v
SessionRtcSave.v
SessionRtcRestore.v
SessionRtcDraw.v
SessionRtcSafety.v
SessionRtcResume.v
SessionRtcDemo.v
SiteStore.v
SiteRecordProps.v
GroupKeys.v
GroupSecurity.v
GroupRun.v
GroupWindows.v
GroupDemo.v
