(* ===== verification/Prelude.v ===== *)
(** * RouteLoom: a verification development of the mesh core

    RouteLoom is a C++ library for ESP-NOW mesh networks.  This development
    models the parts of src/components/routeloom that carry its own protocol
    logic and proves the properties those parts promise.  Paths below are
    relative to src/components/routeloom.

    ** Parts of the program and files that model them

    - Prelude (this file): [Status] of status.hpp as the type [result];
      a member function that returns [Status] as a computation of [M], which
      keeps the state reached when it fails; fixed-width unsigned integers as
      [Z] with explicit wrap-around ([u8] to [u64]); big-endian byte strings;
      the case-analysis tactics and rewrite hints the other files share.
    - ByteIO: [ByteWriter] and [ByteReader] of byte_io.{hpp,cpp} over a buffer
      with a bounds check per access.  [emits], [consumes] and [parses] are
      the interface the codecs are proved against, with a hint database.
    - Types: identifiers, enumerations, group addresses (types.hpp,
      security.hpp, group.hpp, wire.hpp).
    - Wire: the 88-byte header, its validation, the end-to-end associated data
      and the security contexts (wire.cpp).
    - Frame: sealing, opening, forwarding and group frames of wire.cpp over
      the type class [SecurityProvider], whose laws [AeadLaws] say that what
      was sealed opens under the same context, counter and data.  The provider
      is outside the core; a concrete provider shows the laws can hold.
    - FixedContainers: [FixedQueue] and [FixedPool] of fixed_containers.hpp,
      refined to a bounded FIFO and to a list of optional slots.  The slot
      list ([Slots]) is what the tables below use.
    - Crc32: crc32.cpp, and that it tells apart messages that differ in a byte.
    - Counter: transmit counter leases and the checkpoint cache of
      counter_store.{hpp,cpp} over the class [CounterStore]; a commit may fail
      having landed or not.  [System] interleaves all operations with power
      cycles.
    - Replay: receive windows and epoch floors of replay.{hpp,cpp} over the
      class [ReplayStore], again with a [System] of interleaved operations.
    - GroupReplay: the table of group_replay.{hpp,cpp}.
    - PeerState: the capped stores of peer_state.{hpp,cpp}; they are instances
      of the store classes above, so the theorems of Counter and Replay hold
      through them.  [Budget] is the NVS arithmetic of peer_state.hpp.
    - Routing: the route table of routing.{hpp,cpp}; RoutingProps: eviction,
      lease sweep, damping of switches; RoutingNet: a network of tables and
      its loop freedom.
    - Cobs, UsbFrame, UsbStream: usb_codec.{hpp,cpp}.
    - ObjectAssembler: chunk reassembly of object_assembler.{hpp,cpp}, refined to
      a partial map from offsets to bytes.
    - Congestion: the arithmetic of congestion.hpp (classes, smoothing, link-cost
      base, penalties, slew).
    - JobList: the intrusive lists of node.hpp [JobList] and the removal loop of
      [TxScheduler::unlink], with [flow_next] links in a shared pool of nodes,
      refined to sequences.
    - Scheduler: [TxScheduler] of node.hpp and node_scheduler.cpp; the node it
      consults (windows, pause masks, deliveries) is the record [NodeView].
      SchedulerInv: its invariant; SchedulerProps: admission and settlement
      keep it; SchedulerSelect, SchedulerLive: one selection; SchedulerRun:
      runs of operations; SchedulerDemo: concrete runs.
    - LinkCost: the neighbour table of node.hpp and node_congestion.cpp, the
      samples of the transmit path, busy feedback, [refresh_neighbor_load] and
      the joins, departures and route records that move link costs.
      LinkCostProps: ranges; LinkCostRun: window rolls and recovery;
      LinkCostRoutes: the route table follows the costs; LinkCostDemo: runs.
    - Dedup: the duplicate table of node.hpp [DedupEntry], node.cpp and the
      receive handlers that admit frames to it; what the handlers get back from
      the scheduler, the reply leases and the end-to-end opening is an input
      ([Outside]).  DedupProps: survival of records and exactly-once delivery;
      DedupBounds: shares and refusals.
    - ReplyLeases: reply_peer_leases.{hpp,cpp}, the table of lease uses and
      bindings.  ReplyLeasesProps: its invariant and the probe;
      ReplyLeasesRun: the contract and the refinement.
    - Transactions: node_txn.cpp with the slots of node.hpp, over the class
      [ReplyPort] that stands for the owner's lease surface and states what
      the node relies on.  TransactionsInv: the invariant;
      TransactionsProps, TransactionsAdmit, TransactionsSweep: its
      preservation; TransactionsRun: runs; TransactionsLeases: the radio owner
      of espnow_runtime.cpp over the lease table as the port.
    - SealedSlots: [SealedSlotPair] of sdkv1_store.{hpp,cpp} over the class
      [RecordSlotStorage], whose laws say what a write that stops after any
      byte leaves behind.  SealedSlotsProps: record images, classification and
      torn writes; SealedSlotsRun: crash safety; SealedSlotsDemo: a storage
      with scripted faults and concrete power cuts.
    - LocalRevocation: the durable removal record of sdkv1_records.cpp and its
      store in sdkv1_membership.cpp.  LocalRevocationProps: the codec;
      LocalRevocationRun: runs of the store.  Membership: the hooks of
      sdkv1_membership.cpp that decide who is a member.
    - SessionBank: session_bank.{hpp,cpp}, over the class [AeadGcm].
      SessionBankProps: lookup and the operations that only drop contexts;
      SessionBankRun, SessionBankInstall: nonces and windows under traffic and
      installation; SessionBankWorld: every run; SessionBankTime: lifetimes;
      SessionBankChannel: two banks; SessionBankDemo: concrete runs.
    - SessionRtc: the session image a sleeping node keeps in RTC memory
      (sdkv1_session_rtc.{hpp,cpp}): record, one-shot wake, counter write-ahead;
      and the save and restore of sdkv1_security_coordinator.cpp.
      SessionRtcProps: the codec; SessionRtcPort: the contract of the port as
      the class [RtcSessionPortLaws], and the buffer port, which loses power
      after any byte, as its instance; SessionRtcBank: what the bank keeps over
      its operations; SessionRtcRun: runs with saves, sleeps and power cuts;
      SessionRtcInv, SessionRtcSave, SessionRtcRestore, SessionRtcDraw: the
      invariant over each step; SessionRtcSafety: every run;
      SessionRtcResume: the session that wakes; SessionRtcDemo: concrete
      sleeps.
    - SiteStore: the site record and its store (sdkv1_records.cpp,
      sdkv1_store.cpp), and what its operations leave; SiteRecordProps: its
      codec.  GroupKeys: the group part of the key schedule (key_schedule.cpp,
      kdf.cpp) and [GroupKeyState] of sdkv1_group_keys.{hpp,cpp}, and how its
      epochs move.  GroupSecurity: [GroupSecurityProvider] of
      sdkv1_group_security.cpp for the group scopes, and that what is sealed
      opens.  GroupRun: boots of store, keys and traffic, and their nonces;
      GroupWindows: their replay windows; GroupDemo: concrete runs.

    ** What the theorems show

    - Security state: no counter is issued twice (C1, C24) and no counter is
      accepted twice (C2, C35, [bounded_accepted_at_most_once]) whatever the stores lose and whenever
      power fails; over a store without faults the same operations do make
      progress ([group_accept_decides], [accept_complete], [issue_consecutive]); the cap holds ([commit_within_cap]).
    - Wire format: header and USB codecs are inverse in both directions where
      the format is canonical (C25, C26, [usb_frame_roundtrip]), damage is detected (C34),
      the stream decoder resynchronises (C27), and the
      in-place variants equal the plain ones ([cobs_inplace_equivalent], [encode_inplace_equivalent]).
    - Forwarding: a frame relayed over any number of hops opens at its
      destination as sent (C4) and its hop budget bounds the path ([hop_budget]).
    - Routing: selected next hops never loop (C3); load does not move a
      committed hop during its hold ([switch_hold_damps]).
    - Containers and credit refine their abstract models (C36, [pool_refinement], [queue_refinement]).
    - Reassembly refines a partial map (C37) and delivers the object (C38).
    - Scheduling: accepted work is kept (C28) in a
      consistent structure (C30, C39); a
      selection finds work when there is some ([select_work_conserving]), no
      class waits for more than 27 selections (C29), and
      admission keeps its reserves ([admission_keeps_reserves]).
      [bulk_flow_starves] shows that the same does not hold flow by flow.
      [drop_during_dispatch_leaves_ring] shows what a drop during a dispatch,
      which the node does not do, would leave.
    - Link costs: a link never looks better than nominal ([link_cost_bounds]), its
      cost returns to nominal after the load (C32) except when
      a dirty flag has no window to clear it ([dirty_window_latches]); stored
      routes carry the current costs (C31) except after
      a stale report ([stale_peer_keeps_old_price]) and after a live peer is
      added again ([readded_peer_keeps_old_price]).  [window_roll_equivalent]
      shows the computed window roll to be the loop it replaces.
    - Duplicates: a message is delivered once within its retention
      (C5), the table keeps its shares (C33) and
      refuses only when nothing may be evicted ([refusals_are_honest]).
    - Reply leases: the table refines its contract
      (C22) and passes its own audit
      ([reply_leases_audit_holds]), the probe predicts the acquire
      ([probe_matches_acquire]).  Node and table together leak no lease
      (C21), overdue transactions end
      (C23) and sleep takes nothing along
      ([quiesce_returns_every_lease]).
    - Persistent records: a slot pair keeps what it reported committed over
      torn writes and power cycles (C17); a removal, once
      committed, keeps the removed generation out (C18),
      a damaged one stays blocked (C19) until it is
      cleared ([clear_reopens_the_gate]).  The record codec is a round trip
      (C20) and the hooks agree with each other
      ([membership_answers_agree]).  [twin_commit_can_roll_back] and, on
      the site store, [activation_can_roll_back] are runs in which the commit
      of both slots does not give this guarantee.
    - Sessions: no nonce is used twice under a key (C6), no
      counter is accepted twice (C7), also over reboots
      and sleep images ([sleep_image_allowed]); lifetimes end when they should
      (C10); matching sessions carry frames
      (C11).  The hash of a slot decides nothing
      ([find_current_iff]) and its memo is exact ([hash_start_memo_ok]).
    - Deep sleep: over saves, wakes, aborted sleeps and power cuts no nonce is
      used twice (C8) and no frame accepted twice
      (C9); [unsaved_wake_replays] shows what the second
      needs of the reset cause.  A saved session is there again after the
      wake (C12), through a codec that is a round trip
      (C40).
    - Group traffic: no nonce is used twice in any number of boots and key
      rollovers (C13), no frame is accepted twice in a
      boot (C14), what is sealed opens at nodes with
      the same key (C15), and the site record that holds
      the keys is read back as it was written (C16).
      [commit_replaces_group_key] shows that a commit may change the key too.

    ** Modelling choices

    Functions that mutate an object take and return the record of its fields.
    Clocks are 64-bit unsigned milliseconds, chosen freely by each step.
    Loops over fixed arrays are structural recursions; the COBS decoder, whose
    index jumps, runs with one unit of fuel per input byte plus one, and
    [decode_loop_dec] shows that this never runs out.  The sweep of PeerState
    uses the pass limit the code itself has.  The selection loop of the
    scheduler has the eight rounds of the code: a job costs at most 344 units
    and eight rounds grant at least 512.  [drop_one_if] is run only while no
    job is selected, which is how the node calls it.  Link costs recover in 46
    refreshes: 29 halvings empty a 32-bit accept counter below the minimum of
    four, and 17 relax steps close any 16-bit excess.  A view is the list of its bytes,
    so refusals of null pointers do not appear except in ByteIO.

    The delivery theorem is about a clock that does not run backwards and
    stays below 2^63 ms.

    The loops of a sweep that drop the jobs of a transaction have as much fuel
    as there are jobs, and [drop_jobs_spec] shows that none is left.  A node in
    Transactions has its port attached; what a handler gets back from the
    scheduler is an input ([Gates], [Admission]).

    A slot pair starts from flash without a committed record.  The durability
    theorems are about commits to one slot and formats whose records fill their
    slot (the removal record does); SHA-256 is a parameter without hypotheses, since a write
    that reports success has landed.  Removals of another site after a
    completed one replace the record, and are excluded from the removal
    theorem.

    Power in a run over deep sleep fails inside a call on the RTC port: the
    call returns an error, the port is dead, and only a power cycle may follow,
    which clears the bank and everything else in RAM.  What callers owe
    ([may], [honest]): fresh keys at installation, no traffic between a save and
    the sleep or its abort, and, for the receive side, a reset cause that says
    deep sleep only after a save.

    A boot of the group traffic begins with a storage that holds anything;
    [gmay] and [boots_lawful] say what its owner owes: boot numbers that grow,
    a start with the number of its boot and not under an older epoch than the
    phase had, and end frames in sessions above those of earlier boots.
    Replay windows are in RAM, so the receive theorem is about one boot; it
    asks of link senders that a newer boot does not use an older epoch, which
    [in_order] states of the accepted frames.  The nonce theorem counts the
    input of the key derivation in place of the key.

    The loop-freedom theorem covers runs in which the origin's sequence
    numbers stay in a half window and no node forgets the feasible distance
    of the destination by collecting its tombstone; the code bounds both by
    time, which the model leaves free.

    ** Not modelled

    The MeshNode event loop, discovery, handshakes, the pairwise part of the
    key schedule, channel planning, configuration stores, the typed record
    stores other than the removal and the site store, the USB bridge above the framing, and the
    platform components (radio, NVS, bench).  Planned next: the node's
    origin deliveries and the remaining payload codecs. *)

From Stdlib Require Export ZArith Lia Bool.
From stdpp Require Export base list gmap strings option relations.

#[global] Open Scope Z_scope.
#[export] Set Warnings "-clear-no-such-hyp".

(** ** Status values and error-carrying computations *)

(** [StatusCode] of status.hpp, in the order of the enumeration. *)
Inductive StatusCode :=
  | InvalidArgument | InvalidState | NotFound | AlreadyExists | Unsupported
  | WouldBlock | NoCapacity | NoRoute | Expired | TimeUncertain
  | AuthenticationFailed | AuthorizationFailed | ReplayRejected
  | CounterExhausted | StorageFailure | RadioFailure | DriverResultUnknown
  | ProtocolError | IntegrityError | Conflict | Busy | InternalError
  | DiscoveryBudgetExhausted | AuthRequired | ApprovalRequired
  | BindingConflict | PeerCapacity | Congested | RemoteBusy
  | NoFeasibleAlternative | SurveyRequiresOutagePermission
  | LegacyParticipant | ClockUncertain | PlanNotCommitted
  | RecoveryRequired | AuthProfileUnavailable | NetworkRequired | TooLarge.

#[global] Instance StatusCode_eq_dec : EqDecision StatusCode.
Proof. solve_decision. Defined.

(** A call that returns [Status]: [Ok] with the values of its out-parameters,
    or the code and detail of [Status::error]. *)
Inductive result (A : Type) :=
  | Ok (a : A)
  | Err (code : StatusCode) (detail : string).
Arguments Ok {A} _.
Arguments Err {A} _ _%_string.

#[global] Instance result_ret : MRet result := λ A a, Ok a.
#[global] Instance result_bind : MBind result := λ A B f m,
  match m with Ok a => f a | Err c d => Err c d end.

#[global] Instance result_eq_dec {A} `{EqDecision A} : EqDecision (result A).
Proof. solve_decision. Defined.

Definition is_ok {A} (r : result A) : bool :=
  match r with Ok _ => true | Err _ _ => false end.

(** State with errors: a failing call keeps the state it has reached, as a
    C++ member function that returns early does. *)
Definition M (S A : Type) : Type := S → result A * S.

#[global] Instance M_ret {S} : MRet (M S) := λ A a s, (Ok a, s).
#[global] Instance M_bind {S} : MBind (M S) := λ A B f m s,
  match m s with
  | (Ok a, s') => f a s'
  | (Err c d, s') => (Err c d, s')
  end.

Definition throw {S A} (c : StatusCode) (d : string) : M S A := λ s, (Err c d, s).
Arguments throw {S A} _ _%_string _.
Definition getS {S} : M S S := λ s, (Ok s, s).
Definition putS {S} (s : S) : M S unit := λ _, (Ok tt, s).
Definition modifyS {S} (f : S → S) : M S unit := λ s, (Ok tt, f s).
Definition lift {S A} (r : result A) : M S A := λ s, (r, s).

(** [if (cond) return Status::error(c, d);] *)
Definition fail_if {S} (cond : bool) (c : StatusCode) (d : string) : M S unit :=
  if cond then throw c d else mret tt.
Arguments fail_if {S} _ _ _%_string _.
Definition guard_err (cond : bool) (c : StatusCode) (d : string) : result unit :=
  if cond then Err c d else Ok tt.
Arguments guard_err _ _ _%_string.

Lemma M_bind_ok {S A B} (m : M S A) (f : A → M S B) s a s' :
  m s = (Ok a, s') → (m ≫= f) s = f a s'.
Proof. by unfold mbind, M_bind; intros ->. Qed.

Lemma M_bind_err {S A B} (m : M S A) (f : A → M S B) s c d s' :
  m s = (Err c d, s') → (m ≫= f) s = (Err c d, s').
Proof. by unfold mbind, M_bind; intros ->. Qed.

Lemma M_bind_inv {S A B} (m : M S A) (f : A → M S B) s b s'' :
  (m ≫= f) s = (Ok b, s'') →
  ∃ a s', m s = (Ok a, s') ∧ f a s' = (Ok b, s'').
Proof. unfold mbind, M_bind. destruct (m s) as [[a|c d] s']; naive_solver. Qed.

Lemma fail_if_ok {S} (b : bool) c d (s : S) u s' :
  fail_if b c d s = (Ok u, s') → b = false ∧ s' = s.
Proof. unfold fail_if, throw, mret, M_ret. destruct b; by intros [=]. Qed.

Lemma result_bind_inv {A B} (m : result A) (f : A → result B) b :
  m ≫= f = Ok b → ∃ a, m = Ok a ∧ f a = Ok b.
Proof. destruct m; naive_solver. Qed.

Lemma guard_err_ok b c d u : guard_err b c d = Ok u → b = false.
Proof. unfold guard_err. by destruct b. Qed.

Lemma guard_err_bind {A} b c d (k : result A) a :
  (guard_err b c d;; k) = Ok a ↔ b = false ∧ k = Ok a.
Proof. unfold guard_err. destruct b; simpl; naive_solver. Qed.

Lemma guard_pass {A} b c d (k : result A) : b = false → (guard_err b c d;; k) = k.
Proof. by intros ->. Qed.

Lemma guard_stop {A} b c d (k : result A) : b = true → (guard_err b c d;; k) = Err c d.
Proof. by intros ->. Qed.

Lemma bind_Ok {A B} (a : A) (f : A → result B) : (Ok a ≫= f) = f a.
Proof. done. Qed.

Lemma guard_err_iff b c d : guard_err b c d = Ok tt ↔ b = false.
Proof. unfold guard_err. by destruct b. Qed.

(** Boolean tests of the code as propositions. *)
Create Rewrite HintDb bdec.
#[export] Hint Rewrite negb_false_iff negb_true_iff orb_false_iff orb_true_iff
  andb_false_iff andb_true_iff @bool_decide_eq_false @bool_decide_eq_true
  Nat.ltb_ge Nat.ltb_lt Nat.eqb_eq Nat.eqb_neq Nat.leb_le Nat.leb_gt : bdec.

Ltac bdec := repeat (autorewrite with bdec in *).

(** Case analysis on the innermost scrutinee of a hypothesis, which for an
    unfolded computation is the next condition the code tests. *)
Ltac break_scrutinee x :=
  match x with
  | context [match ?y with _ => _ end] => break_scrutinee y
  | _ => destruct x eqn:?
  end.
Ltac break_in H :=
  match type of H with
  | context [match ?y with _ => _ end] => break_scrutinee y
  end.
Ltac break_goal :=
  match goal with
  | |- context [match ?y with _ => _ end] => break_scrutinee y
  end.

(** ** Fixed-width unsigned integers *)

(** [static_cast] to an unsigned type of [w] bits. *)
Definition wrap (w x : Z) : Z := x mod 2 ^ w.
Abbreviation u8 := (wrap 8).
Abbreviation u16 := (wrap 16).
Abbreviation u32 := (wrap 32).
Abbreviation u64 := (wrap 64).

Definition in_range (w x : Z) : Prop := 0 ≤ x < 2 ^ w.
Abbreviation is_u8 := (in_range 8).
Abbreviation is_u16 := (in_range 16).
Abbreviation is_u32 := (in_range 32).
Abbreviation is_u64 := (in_range 64).

Definition UINT8_MAX : Z := 2 ^ 8 - 1.
Definition UINT16_MAX : Z := 2 ^ 16 - 1.
Definition UINT32_MAX : Z := 2 ^ 32 - 1.
Definition UINT64_MAX : Z := 2 ^ 64 - 1.

Lemma wrap_range w x : 0 ≤ w → in_range w (wrap w x).
Proof. intros. apply Z.mod_pos_bound. by apply Z.pow_pos_nonneg. Qed.

Lemma wrap_id w x : in_range w x → wrap w x = x.
Proof. intros. by apply Z.mod_small. Qed.

Lemma in_range_mono w w' x : 0 ≤ w ≤ w' → in_range w x → in_range w' x.
Proof.
  intros Hw [Hlo Hhi]. split; [done|].
  eapply Z.lt_le_trans; [done|]. apply Z.pow_le_mono_r; lia.
Qed.

#[global] Instance in_range_dec w x : Decision (in_range w x).
Proof. unfold in_range. apply _. Defined.

(** The mask test [(b & (1 << d)) == 0]. *)
Lemma mask_testbit b d : 0 ≤ d → Z.land b (Z.shiftl 1 d) = 0 ↔ Z.testbit b d = false.
Proof.
  intros Hd. rewrite Z.shiftl_1_l. split.
  - intros Hz. apply (f_equal (λ t, Z.testbit t d)) in Hz.
    by rewrite Z.land_spec, Z.pow2_bits_true, andb_true_r, Z.bits_0 in Hz.
  - intros Hf. apply Z.bits_inj'. intros i Hi. rewrite Z.land_spec, Z.bits_0.
    destruct (decide (i = d)) as [->|Hne]; [by rewrite Hf|].
    by rewrite Z.pow2_bits_false, andb_false_r.
Qed.

(** Bit operations stay in a width. *)
Lemma in_range_bits w x : 0 ≤ w → in_range w x ↔ 0 ≤ x ∧ ∀ i, w ≤ i → Z.testbit x i = false.
Proof.
  intros Hw. unfold in_range. split.
  - intros [H0 Hx]. split; [done|]. intros i Hi. rewrite <- (Z.mod_small x (2 ^ w)) by done. by apply Z.mod_pow2_bits_high.
  - intros [H0 Hb]. split; [done|]. assert (x = x mod 2 ^ w) as ->; [|by apply Z.mod_pos_bound, Z.pow_pos_nonneg].
    apply Z.bits_inj'. intros i Hi. destruct (decide (i < w)); [by rewrite Z.mod_pow2_bits_low|]. by rewrite Z.mod_pow2_bits_high, Hb by lia.
Qed.
Lemma lor_range w x y : 0 ≤ w → in_range w x → in_range w y → in_range w (Z.lor x y).
Proof.
  intros Hw [Hx Bx]%in_range_bits [Hy By]%in_range_bits; [|done..]. apply in_range_bits; [done|]. split; [by apply Z.lor_nonneg|]. intros i Hi. by rewrite Z.lor_spec, Bx, By.
Qed.
Lemma ldiff_range w x y : 0 ≤ w → in_range w x → in_range w (Z.ldiff x y).
Proof.
  intros Hw [Hx Bx]%in_range_bits; [|done]. apply in_range_bits; [done|]. split; [apply Z.ldiff_nonneg; by left|]. intros i Hi. by rewrite Z.ldiff_spec, Bx.
Qed.

Definition bytes_ok (bs : list Z) : Prop := Forall is_u8 bs.
#[global] Instance bytes_ok_dec bs : Decision (bytes_ok bs).
Proof. unfold bytes_ok. apply _. Defined.

(** ** Big-endian and little-endian byte strings *)

(** The shift loops of byte_io.cpp: [n] bytes, most significant first. *)
Fixpoint be_bytes (n : nat) (v : Z) : list Z :=
  match n with
  | O => []
  | S k => Z.land (Z.shiftr v (8 * Z.of_nat k)) 255 :: be_bytes k v
  end.

(** The accumulation [value = (value << 8) | byte] at width [w]. *)
Definition be_step (w acc b : Z) : Z := wrap w (Z.lor (Z.shiftl acc 8) b).
Definition be_value (w : Z) (bs : list Z) : Z := fold_left (be_step w) bs 0.

(** In-memory (little-endian) image of an [n]-byte unsigned field. *)
Fixpoint le_bytes (n : nat) (v : Z) : list Z :=
  match n with
  | O => []
  | S k => Z.land v 255 :: le_bytes k (Z.shiftr v 8)
  end.

Lemma land_255 v : Z.land v 255 = v mod 256.
Proof. change 255 with (Z.ones 8). by rewrite Z.land_ones. Qed.

Lemma length_be_bytes n v : length (be_bytes n v) = n.
Proof. induction n; simpl; congruence. Qed.

Lemma length_le_bytes n v : length (le_bytes n v) = n.
Proof. revert v; induction n; intros; simpl; f_equal; eauto. Qed.

Lemma be_bytes_ok n v : bytes_ok (be_bytes n v).
Proof.
  induction n; constructor; [|done]. rewrite land_255.
  unfold in_range. change (2 ^ 8) with 256. by apply Z.mod_pos_bound.
Qed.

Lemma lor_shift8 acc b : 0 ≤ acc → is_u8 b → Z.lor (Z.shiftl acc 8) b = acc * 256 + b.
Proof.
  intros Hacc [Hlo Hhi]. change (2 ^ 8) with 256 in Hhi.
  rewrite Z.shiftl_mul_pow2 by lia. change (2 ^ 8) with 256.
  rewrite <- Z.add_lor_land.
  assert (Z.land (acc * 256) b = 0) as ->; [|lia].
  apply Z.bits_inj'. intros i Hi. rewrite Z.land_spec, Z.bits_0.
  change 256 with (2 ^ 8).
  destruct (Z.lt_ge_cases i 8).
  - rewrite Z.mul_pow2_bits_low by lia. done.
  - assert (Z.testbit b i = false) as ->; [|apply andb_false_r].
    rewrite <- (Z.mod_small b (2 ^ 8)) by lia.
    apply Z.mod_pow2_bits_high. lia.
Qed.

Lemma be_step_arith w acc b :
  0 ≤ acc → is_u8 b → acc * 256 + b < 2 ^ w → be_step w acc b = acc * 256 + b.
Proof.
  intros Hacc Hb Hlt. unfold be_step. rewrite lor_shift8 by done.
  apply wrap_id. destruct Hb. split; lia.
Qed.

Lemma pow256 n : 2 ^ (8 * Z.of_nat n) = 256 ^ Z.of_nat n.
Proof. rewrite Z.pow_mul_r by lia. done. Qed.

Lemma fold_be_step w bs acc :
  0 ≤ acc → bytes_ok bs → (acc + 1) * 2 ^ (8 * Z.of_nat (length bs)) ≤ 2 ^ w →
  ∃ v, 0 ≤ v < 2 ^ (8 * Z.of_nat (length bs)) ∧
    fold_left (be_step w) bs acc = acc * 2 ^ (8 * Z.of_nat (length bs)) + v ∧
    be_bytes (length bs) v = bs ∧
    ∀ hi, be_bytes (length bs) (hi * 2 ^ (8 * Z.of_nat (length bs)) + v) = bs.
Proof.
  revert acc. induction bs as [|b bs IH]; intros acc Hacc Hok Hle; simpl length in *.
  { exists 0. simpl. repeat split; auto; lia. }
  apply Forall_cons_1 in Hok as [Hb Hok].
  set (P := 2 ^ (8 * Z.of_nat (length bs))) in *.
  assert (HP : 0 < P) by (apply Z.pow_pos_nonneg; lia).
  assert (HS : 2 ^ (8 * Z.of_nat (S (length bs))) = 256 * P).
  { unfold P. rewrite Nat2Z.inj_succ, Z.mul_succ_r, Z.pow_add_r by lia.
    change (2 ^ 8) with 256. lia. }
  rewrite HS in *. pose proof Hb as [Hb0 Hb1]. change (2 ^ 8) with 256 in Hb1.
  assert (Hstep : be_step w acc b = acc * 256 + b) by (apply be_step_arith; auto; nia).
  destruct (IH (acc * 256 + b)) as (v & Hv & Hfold & _ & Hbe); [lia|done|nia|].
  fold P in Hv, Hfold, Hbe.
  assert (Hgen : ∀ hi, be_bytes (S (length bs)) (hi * (256 * P) + (b * P + v)) = b :: bs).
  { intros hi. cbn [be_bytes].
    rewrite land_255, Z.shiftr_div_pow2 by lia. fold P. f_equal.
    - replace (hi * (256 * P) + (b * P + v)) with (v + (hi * 256 + b) * P) by ring.
      rewrite Z.div_add, Z.div_small by lia.
      rewrite Z.add_0_l, Z.add_comm, Z.mod_add by lia. apply Z.mod_small. lia.
    - rewrite <- (Hbe (hi * 256 + b)) at 2. f_equal. ring. }
  exists (b * P + v). split; [nia|]. split; [|split].
  - cbn [fold_left]. rewrite Hstep, Hfold. ring.
  - rewrite <- (Hgen 0). f_equal.
  - done.
Qed.

(** Decoding what the writers emit gives back the value. *)
Lemma be_value_be_bytes w n v :
  8 * Z.of_nat n ≤ w → 0 ≤ v < 2 ^ (8 * Z.of_nat n) → be_value w (be_bytes n v) = v.
Proof.
  intros Hw Hv.
  assert (Hmono : 2 ^ (8 * Z.of_nat n) ≤ 2 ^ w) by (apply Z.pow_le_mono_r; lia).
  destruct (fold_be_step w (be_bytes n v) 0) as (v' & Hv' & Hf & Hbe & _);
    rewrite ?length_be_bytes in *; [lia|apply be_bytes_ok|lia|].
  unfold be_value. rewrite Hf, Z.mul_0_l, Z.add_0_l.
  clear Hf Hmono Hw. revert v v' Hv Hv' Hbe.
  induction n as [|n IH]; intros v v' Hv Hv' Hbe; [simpl in *; lia|].
  cbn [be_bytes] in Hbe. rewrite !land_255, !Z.shiftr_div_pow2 in Hbe by lia.
  set (P := 2 ^ (8 * Z.of_nat n)) in *.
  assert (HP : 0 < P) by (apply Z.pow_pos_nonneg; lia).
  assert (HS : 2 ^ (8 * Z.of_nat (S n)) = 256 * P).
  { unfold P. rewrite Nat2Z.inj_succ, Z.mul_succ_r, Z.pow_add_r by lia.
    change (2 ^ 8) with 256. lia. }
  rewrite HS in *. injection Hbe as Hhd Htl.
  assert (Hdiv : ∀ x, 0 ≤ x < 256 * P → 0 ≤ x / P < 256).
  { intros x Hx. split; [apply Z.div_pos; lia|]. apply Z.div_lt_upper_bound; lia. }
  rewrite !Z.mod_small in Hhd by (apply Hdiv; lia).
  assert (Hmod : ∀ x, be_bytes n x = be_bytes n (x mod P)).
  { intros x. clear -HP. subst P.
    assert (Hgen : ∀ k, (k ≤ n)%nat → be_bytes k x = be_bytes k (x mod 2 ^ (8 * Z.of_nat n))).
    { induction k as [|k IHk]; intros Hk; [done|]. cbn [be_bytes]. f_equal; [|apply IHk; lia].
      apply Z.bits_inj'. intros i Hi. rewrite !Z.land_spec, !Z.shiftr_spec by lia.
      change 255 with (Z.ones 8). destruct (Z.lt_ge_cases i 8).
      - rewrite Z.mod_pow2_bits_low by lia. done.
      - rewrite Z.ones_spec_high by lia. by rewrite !andb_false_r. }
    by apply Hgen. }
  rewrite (Hmod v), (Hmod v') in Htl.
  apply IH in Htl; [|apply Z.mod_pos_bound; lia|apply Z.mod_pos_bound; lia].
  rewrite (Z.div_mod v P), (Z.div_mod v' P) by lia. congruence.
Qed.

(** Encoding what the readers return gives back the bytes. *)
Lemma be_bytes_be_value w bs :
  8 * Z.of_nat (length bs) ≤ w → bytes_ok bs →
  be_bytes (length bs) (be_value w bs) = bs ∧
  0 ≤ be_value w bs < 2 ^ (8 * Z.of_nat (length bs)).
Proof.
  intros Hw Hok.
  assert (Hmono : 2 ^ (8 * Z.of_nat (length bs)) ≤ 2 ^ w) by (apply Z.pow_le_mono_r; lia).
  destruct (fold_be_step w bs 0) as (v & Hv & Hf & Hbe & _); [lia|done|lia|].
  unfold be_value. rewrite Hf, Z.mul_0_l, Z.add_0_l. done.
Qed.

Lemma elem_of_concat {A} (x : A) (xss : list (list A)) : x ∈ concat xss ↔ ∃ xs, x ∈ xs ∧ xs ∈ xss.
Proof.
  induction xss as [|xs xss IH]; cbn [concat]; [set_solver|]. rewrite elem_of_app, IH.
  split; [intros [?|(ys & ? & ?)]; [exists xs|exists ys]; set_solver|].
  intros (ys & Hx & [->|?]%elem_of_cons); [by left|right; by exists ys].
Qed.

(** Replacing one block of a concatenation, up to order. *)
Lemma concat_insert_perm {A} (k : nat) (xs ys : list A) (xss : list (list A)) :
  xss !! k = Some xs →
  ∃ rest, concat xss ≡ₚ xs ++ rest ∧ concat (<[k := ys]> xss) ≡ₚ ys ++ rest.
Proof.
  intros Hk. exists (concat (take k xss) ++ concat (drop (S k) xss)). split.
  - rewrite <- (take_drop_middle xss k xs) at 1 by done. rewrite concat_app. cbn [concat]. solve_Permutation.
  - rewrite insert_take_drop by (by eapply lookup_lt_Some). rewrite concat_app. cbn [concat]. solve_Permutation.
Qed.
