(* ===== verification/ByteIO.v ===== *)
(** * Byte readers and writers (byte_io.hpp, byte_io.cpp)

    [ByteWriter] and [ByteReader] walk a caller-owned buffer with a bounds
    check before every access.  A [MutableByteView] whose pointer is null is
    [None]; otherwise it is the list of its bytes.  The two predicates
    [emits] and [consumes] are the interface every wire codec of the
    development is proved against. *)

From S2P Require Import Prelude.

Record ByteWriter := Writer { w_target : option (list Z); w_offset : nat }.
Record ByteReader := Reader { r_source : option (list Z); r_offset : nat }.

Module Writer.

Definition size (w : ByteWriter) : nat := w_offset w.

(** [ByteWriter::reserve] *)
Definition reserve (count : nat) : M ByteWriter unit := λ w,
  match w_target w with
  | None => (Err NoCapacity "byte writer overflow", w)
  | Some data =>
      if (length data <? w_offset w)%nat || (length data - w_offset w <? count)%nat
      then (Err NoCapacity "byte writer overflow", w)
      else (Ok tt, w)
  end.

(** [target_.data[offset_++] = value;] *)
Definition put (value : Z) : M ByteWriter unit :=
  modifyS (λ w, Writer (insert (w_offset w) value <$> w_target w) (S (w_offset w))).

(** The loops [for (shift = 8 * (n - 1); shift >= 0; shift -= 8)]. *)
Fixpoint put_be (n : nat) (value : Z) : M ByteWriter unit :=
  match n with
  | O => mret tt
  | S k => put (Z.land (Z.shiftr value (8 * Z.of_nat k)) 255);; put_be k value
  end.

Definition write_u8 (value : Z) : M ByteWriter unit := reserve 1;; put value.
Definition write_u16 (value : Z) : M ByteWriter unit := reserve 2;; put_be 2 value.
Definition write_u32 (value : Z) : M ByteWriter unit := reserve 4;; put_be 4 value.
Definition write_u64 (value : Z) : M ByteWriter unit := reserve 8;; put_be 8 value.

Definition write_u48 (value : Z) : M ByteWriter unit :=
  fail_if (bool_decide (0xFFFFFFFFFFFF < value)) InvalidArgument "value exceeds 48 bits";;
  reserve 6;; put_be 6 value.

Fixpoint put_all (bs : list Z) : M ByteWriter unit :=
  match bs with
  | [] => mret tt
  | b :: bs => put b;; put_all bs
  end.

(** [write_bytes] copies the source view; a null source of positive size is
    refused by the caller-visible check, so the view here is its bytes. *)
Definition write_bytes (value : list Z) : M ByteWriter unit :=
  reserve (length value);; put_all value.

End Writer.

Module Reader.

Definition remaining (r : ByteReader) : nat :=
  (default 0 (length <$> r_source r) - r_offset r)%nat.
Definition consumed (r : ByteReader) : nat := r_offset r.

(** [ByteReader::require] *)
Definition require (count : nat) : M ByteReader unit := λ r,
  match r_source r with
  | None => (Err ProtocolError "truncated input", r)
  | Some data =>
      if (length data <? r_offset r)%nat || (length data - r_offset r <? count)%nat
      then (Err ProtocolError "truncated input", r)
      else (Ok tt, r)
  end.

(** [source_.data[offset_++]] *)
Definition get : M ByteReader Z := λ r,
  (Ok (default 0 (r_source r ≫= (.!! r_offset r))), Reader (r_source r) (S (r_offset r))).

(** [for (i = 0; i < n; ++i) value = (value << 8U) | source_.data[offset_++];] *)
Fixpoint get_be (w : Z) (n : nat) (acc : Z) : M ByteReader Z :=
  match n with
  | O => mret acc
  | S k => b ← get; get_be w k (be_step w acc b)
  end.

Definition read_u8 : M ByteReader Z := require 1;; get.
Definition read_u16 : M ByteReader Z := require 2;; get_be 16 2 0.
Definition read_u32 : M ByteReader Z := require 4;; get_be 32 4 0.
Definition read_u64 : M ByteReader Z := require 8;; get_be 64 8 0.
Definition read_u48 : M ByteReader Z := require 6;; get_be 64 6 0.

Fixpoint get_all (n : nat) : M ByteReader (list Z) :=
  match n with
  | O => mret []
  | S k => b ← get; bs ← get_all k; mret (b :: bs)
  end.

(** [read_bytes] into a destination of [n] bytes. *)
Definition read_bytes (n : nat) : M ByteReader (list Z) := require n;; get_all n.

End Reader.

(** ** The codec interface *)

(** [emits m bs]: with room for [bs] at the cursor, [m] succeeds, overwrites
    exactly that room with [bs] and advances past it. *)
Definition emits (m : M ByteWriter unit) (bs : list Z) : Prop :=
  ∀ pre old rest, length old = length bs →
    m (Writer (Some (pre ++ old ++ rest)) (length pre)) =
    (Ok tt, Writer (Some (pre ++ bs ++ rest)) (length (pre ++ bs))).

(** [consumes m bs a]: at a cursor in front of [bs], [m] returns [a] and
    advances exactly past [bs]. *)
Definition consumes {A} (m : M ByteReader A) (bs : list Z) (a : A) : Prop :=
  ∀ pre rest,
    m (Reader (Some (pre ++ bs ++ rest)) (length pre)) =
    (Ok a, Reader (Some (pre ++ bs ++ rest)) (length (pre ++ bs))).

(** [parses m P]: whenever [m] succeeds on valid bytes, it read a block [bs]
    at the cursor that is related to its value by [P]. *)
Definition parses {A} (m : M ByteReader A) (P : A → list Z → Prop) : Prop :=
  ∀ pre rem a r', bytes_ok rem →
    m (Reader (Some (pre ++ rem)) (length pre)) = (Ok a, r') →
    ∃ bs rest, rem = bs ++ rest ∧ P a bs ∧
      r' = Reader (Some (pre ++ bs ++ rest)) (length (pre ++ bs)).

Create HintDb codec.

Section Rules.

Lemma emits_ret : emits (mret tt) [].
Proof. intros pre old rest Hlen. destruct old; [|done]. by rewrite app_nil_r. Qed.

Lemma emits_bind m bs k bs' :
  emits m bs → (∀ u, emits (k u) bs') → emits (m ≫= k) (bs ++ bs').
Proof.
  intros Hm Hk pre old rest Hlen. rewrite length_app in Hlen.
  rewrite <- (take_drop (length bs) old) at 1. rewrite <- app_assoc.
  erewrite M_bind_ok; [|apply Hm; rewrite length_take; lia].
  rewrite (app_assoc pre bs). rewrite Hk by (rewrite length_drop; lia).
  by rewrite <- !app_assoc.
Qed.

Lemma consumes_ret {A} (a : A) : consumes (mret a) [] a.
Proof. intros pre rest. by rewrite app_nil_r. Qed.

Lemma consumes_bind {A B} (m : M ByteReader A) (k : A → M ByteReader B) bs a bs' b :
  consumes m bs a → consumes (k a) bs' b → consumes (m ≫= k) (bs ++ bs') b.
Proof.
  intros Hm Hk pre rest. rewrite <- app_assoc.
  erewrite M_bind_ok; [|apply Hm]. rewrite (app_assoc pre bs), Hk.
  by rewrite <- !app_assoc.
Qed.

Lemma consumes_pass {A B} (m : M ByteReader A) (k : A → M ByteReader B) bs a b :
  consumes m [] a → consumes (k a) bs b → consumes (m ≫= k) bs b.
Proof. apply (consumes_bind m k []). Qed.

Lemma consumes_check b c d : b = false → consumes (fail_if b c d) [] tt.
Proof. intros ->. apply consumes_ret. Qed.

Lemma parses_bind {A B} (m : M ByteReader A) (k : A → M ByteReader B) P Q :
  parses m P → (∀ a, parses (k a) (Q a)) →
  parses (m ≫= k) (λ b bs, ∃ a bs1 bs2, bs = bs1 ++ bs2 ∧ P a bs1 ∧ Q a b bs2).
Proof.
  intros Hm Hk pre rem b r' Hok Hrun.
  apply M_bind_inv in Hrun as (a & r1 & H1 & H2).
  apply Hm in H1 as (bs1 & rest1 & -> & HP & ->); [|done].
  apply Forall_app in Hok as [Hok1 Hok2].
  rewrite (app_assoc pre bs1) in H2.
  apply Hk in H2 as (bs2 & rest2 & -> & HQ & ->); [|done].
  exists (bs1 ++ bs2), rest2. rewrite <- !app_assoc. split; [done|].
  split; [naive_solver|done].
Qed.

Lemma parses_ret {A} (a : A) : parses (mret a) (λ b bs, b = a ∧ bs = []).
Proof.
  intros pre rem b r' Hok [= <- <-]. exists [], rem.
  by rewrite app_nil_r.
Qed.

Lemma parses_check b c d : parses (fail_if b c d) (λ _ bs, bs = [] ∧ b = false).
Proof.
  intros pre rem a r' Hok Hrun. apply fail_if_ok in Hrun as [-> ->].
  exists [], rem. by rewrite app_nil_r.
Qed.

Lemma parses_impl {A} (m : M ByteReader A) (P Q : A → list Z → Prop) :
  parses m P → (∀ a bs, bytes_ok bs → P a bs → Q a bs) → parses m Q.
Proof.
  intros Hm HPQ pre rem a r' Hok Hrun.
  destruct (Hm _ _ _ _ Hok Hrun) as (bs & rest & -> & HP & ->).
  apply Forall_app in Hok as [Hok _]. eauto 10.
Qed.

End Rules.

#[export] Hint Resolve emits_ret consumes_ret : codec.

(** ** The primitive operations against the interface *)

Section Primitives.

Lemma reserve_ok pre old rest n :
  (n ≤ length old)%nat →
  Writer.reserve n (Writer (Some (pre ++ old ++ rest)) (length pre)) =
  (Ok tt, Writer (Some (pre ++ old ++ rest)) (length pre)).
Proof.
  intros Hn. unfold Writer.reserve. simpl. rewrite !length_app.
  destruct (Nat.ltb_spec (length pre + (length old + length rest)) (length pre)); [lia|].
  destruct (Nat.ltb_spec (length pre + (length old + length rest) - length pre) n); [lia|].
  done.
Qed.

Lemma emits_put b : emits (Writer.put b) [b].
Proof.
  intros pre old rest Hlen. destruct old as [|o [|]]; try done.
  unfold Writer.put, modifyS. simpl. rewrite insert_app_r_alt, Nat.sub_diag by lia.
  simpl. rewrite length_app. simpl. do 3 f_equal. lia.
Qed.

Lemma emits_put_be n v : emits (Writer.put_be n v) (be_bytes n v).
Proof.
  induction n; simpl; [apply emits_ret|].
  apply (emits_bind _ [_]); [apply emits_put|done].
Qed.

Lemma emits_put_all bs : emits (Writer.put_all bs) bs.
Proof.
  induction bs; simpl; [apply emits_ret|].
  apply (emits_bind _ [_]); [apply emits_put|done].
Qed.

Lemma emits_reserve n m bs :
  n = length bs → emits m bs → emits (Writer.reserve n;; m) bs.
Proof.
  intros -> Hm pre old rest Hlen.
  erewrite M_bind_ok; [|apply reserve_ok; lia]. by apply Hm.
Qed.

Lemma emits_u8 v : emits (Writer.write_u8 v) [v].
Proof. apply emits_reserve; [done|apply emits_put]. Qed.
Lemma emits_u16 v : emits (Writer.write_u16 v) (be_bytes 2 v).
Proof. apply emits_reserve; [done|apply emits_put_be]. Qed.
Lemma emits_u32 v : emits (Writer.write_u32 v) (be_bytes 4 v).
Proof. apply emits_reserve; [done|apply emits_put_be]. Qed.
Lemma emits_u64 v : emits (Writer.write_u64 v) (be_bytes 8 v).
Proof. apply emits_reserve; [done|apply emits_put_be]. Qed.
Lemma emits_u48 v : v ≤ 0xFFFFFFFFFFFF → emits (Writer.write_u48 v) (be_bytes 6 v).
Proof.
  intros Hv. unfold Writer.write_u48.
  rewrite bool_decide_eq_false_2 by lia.
  change (be_bytes 6 v) with ([] ++ be_bytes 6 v).
  apply emits_bind; [apply emits_ret|intros _].
  apply emits_reserve; [done|apply emits_put_be].
Qed.
Lemma emits_bytes bs : emits (Writer.write_bytes bs) bs.
Proof. apply emits_reserve; [done|apply emits_put_all]. Qed.

Lemma require_ok pre bs rest n :
  (n ≤ length bs)%nat →
  Reader.require n (Reader (Some (pre ++ bs ++ rest)) (length pre)) =
  (Ok tt, Reader (Some (pre ++ bs ++ rest)) (length pre)).
Proof.
  intros Hn. unfold Reader.require. simpl. rewrite !length_app.
  destruct (Nat.ltb_spec (length pre + (length bs + length rest)) (length pre)); [lia|].
  destruct (Nat.ltb_spec (length pre + (length bs + length rest) - length pre) n); [lia|].
  done.
Qed.

Lemma consumes_get b : consumes Reader.get [b] b.
Proof.
  intros pre rest. unfold Reader.get. simpl.
  rewrite lookup_app_r, Nat.sub_diag by lia. simpl.
  rewrite length_app. simpl. do 2 f_equal. lia.
Qed.

Lemma consumes_get_be w bs acc :
  consumes (Reader.get_be w (length bs) acc) bs (fold_left (be_step w) bs acc).
Proof.
  revert acc. induction bs as [|b bs IH]; intros acc; simpl; [apply consumes_ret|].
  apply (consumes_bind _ _ [b]) with (a := b); [apply consumes_get|apply IH].
Qed.

Lemma consumes_get_all bs : consumes (Reader.get_all (length bs)) bs bs.
Proof.
  induction bs as [|b bs IH]; simpl; [apply consumes_ret|].
  apply (consumes_bind _ _ [b]) with (a := b); [apply consumes_get|].
  rewrite <- (app_nil_r bs) at 2. eapply consumes_bind; [apply IH|apply consumes_ret].
Qed.

Lemma consumes_require {A} n (m : M ByteReader A) bs a :
  n = length bs → consumes m bs a → consumes (Reader.require n;; m) bs a.
Proof.
  intros -> Hm pre rest.
  erewrite M_bind_ok; [|apply require_ok; lia]. by apply Hm.
Qed.

Lemma consumes_be w n v :
  8 * Z.of_nat n ≤ w → 0 ≤ v < 2 ^ (8 * Z.of_nat n) →
  consumes (Reader.require n;; Reader.get_be w n 0) (be_bytes n v) v.
Proof.
  intros Hw Hv. apply consumes_require; [by rewrite length_be_bytes|].
  rewrite <- (be_value_be_bytes w n v) at 2 by done.
  rewrite <- (length_be_bytes n v) at 1. apply consumes_get_be.
Qed.

Lemma consumes_u8 v : consumes Reader.read_u8 [v] v.
Proof. apply consumes_require; [done|apply consumes_get]. Qed.
Lemma consumes_u16 v : is_u16 v → consumes Reader.read_u16 (be_bytes 2 v) v.
Proof. by apply (consumes_be 16 2). Qed.
Lemma consumes_u32 v : is_u32 v → consumes Reader.read_u32 (be_bytes 4 v) v.
Proof. by apply (consumes_be 32 4). Qed.
Lemma consumes_u64 v : is_u64 v → consumes Reader.read_u64 (be_bytes 8 v) v.
Proof. by apply (consumes_be 64 8). Qed.
Lemma consumes_u48 v : in_range 48 v → consumes Reader.read_u48 (be_bytes 6 v) v.
Proof. by apply (consumes_be 64 6). Qed.
Lemma consumes_bytes bs n : n = length bs → consumes (Reader.read_bytes n) bs bs.
Proof. intros ->. apply consumes_require; [done|apply consumes_get_all]. Qed.

(** Every successful read returned the block at the cursor. *)
Lemma parses_require {A} n (m : M ByteReader A) P :
  (∀ bs, length bs = n → bytes_ok bs → ∃ a, consumes m bs a ∧ P a bs) →
  parses (Reader.require n;; m) P.
Proof.
  intros Hm pre rem a r' Hok Hrun.
  apply M_bind_inv in Hrun as ([] & r1 & H1 & H2).
  unfold Reader.require in H1. simpl in H1. rewrite length_app in H1.
  destruct (Nat.ltb_spec (length pre + length rem) (length pre)); [lia|].
  destruct (Nat.ltb_spec (length pre + length rem - length pre) n); [done|].
  injection H1 as <-.
  rewrite <- (take_drop n rem) in H2, Hok.
  destruct (Hm (take n rem)) as (a' & Hc & HP).
  { rewrite length_take. lia. }
  { by apply Forall_app in Hok as [? _]. }
  rewrite Hc in H2. injection H2 as <- <-.
  exists (take n rem), (drop n rem). by rewrite take_drop.
Qed.

Lemma parses_be w n :
  8 * Z.of_nat n ≤ w →
  parses (Reader.require n;; Reader.get_be w n 0)
    (λ v bs, bs = be_bytes n v ∧ 0 ≤ v < 2 ^ (8 * Z.of_nat n)).
Proof.
  intros Hw. apply parses_require. intros bs <- Hok.
  exists (be_value w bs). split; [apply consumes_get_be|].
  destruct (be_bytes_be_value w bs) as [-> ?]; done.
Qed.

Lemma parses_u8 : parses Reader.read_u8 (λ v bs, bs = [v] ∧ is_u8 v).
Proof.
  apply parses_require. intros [|b [|]] Hlen Hok; try done.
  exists b. split; [apply consumes_get|]. by inversion Hok.
Qed.
Lemma parses_u16 : parses Reader.read_u16 (λ v bs, bs = be_bytes 2 v ∧ is_u16 v).
Proof. by apply (parses_be 16 2). Qed.
Lemma parses_u32 : parses Reader.read_u32 (λ v bs, bs = be_bytes 4 v ∧ is_u32 v).
Proof. by apply (parses_be 32 4). Qed.
Lemma parses_u64 : parses Reader.read_u64 (λ v bs, bs = be_bytes 8 v ∧ is_u64 v).
Proof. by apply (parses_be 64 8). Qed.
Lemma parses_u48 : parses Reader.read_u48 (λ v bs, bs = be_bytes 6 v ∧ in_range 48 v).
Proof. by apply (parses_be 64 6). Qed.
Lemma parses_bytes n :
  parses (Reader.read_bytes n) (λ v bs, bs = v ∧ length v = n ∧ bytes_ok v).
Proof.
  apply parses_require. intros bs <- Hok.
  exists bs. split; [apply consumes_get_all|done].
Qed.

End Primitives.

#[export] Hint Resolve emits_u8 emits_u16 emits_u32 emits_u64 emits_u48 emits_bytes
  consumes_u8 consumes_u16 consumes_u32 consumes_u64 consumes_u48 consumes_bytes
  parses_u8 parses_u16 parses_u32 parses_u64 parses_u48 parses_bytes
  parses_ret parses_check : codec.

(** ** Running a codec on a whole buffer *)

(** Writes into [buf] from offset 0; the bytes written so far and the buffer. *)
Definition run_writer (m : M ByteWriter unit) (buf : list Z) : result (nat * list Z) :=
  match m (Writer (Some buf) 0) with
  | (Ok _, w) => Ok (Writer.size w, default [] (w_target w))
  | (Err c d, _) => Err c d
  end.

Definition run_reader {A} (m : M ByteReader A) (buf : list Z) : result A :=
  fst (m (Reader (Some buf) 0)).

Lemma run_writer_emits m bs buf :
  emits m bs → (length bs ≤ length buf)%nat →
  run_writer m buf = Ok (length bs, bs ++ drop (length bs) buf).
Proof.
  intros Hm Hle. unfold run_writer.
  pose proof (Hm [] (take (length bs) buf) (drop (length bs) buf)) as Hrun.
  rewrite take_drop in Hrun. simpl in Hrun.
  rewrite Hrun by (rewrite length_take; lia). done.
Qed.

Lemma run_reader_consumes {A} (m : M ByteReader A) bs rest a :
  consumes m bs a → run_reader m (bs ++ rest) = Ok a.
Proof. intros Hm. unfold run_reader. pose proof (Hm [] rest) as Hr. simpl in Hr. by rewrite Hr. Qed.

Lemma run_reader_parses {A} (m : M ByteReader A) P buf a :
  parses m P → bytes_ok buf → run_reader m buf = Ok a →
  ∃ bs rest, buf = bs ++ rest ∧ P a bs.
Proof.
  intros Hm Hok Hrun. unfold run_reader in Hrun.
  destruct (m (Reader (Some buf) 0)) as [res r'] eqn:Heq. simpl in Hrun. subst res.
  destruct (Hm [] buf a r' Hok Heq) as (bs & rest & -> & HP & _). eauto.
Qed.

(** Too little room is an error and changes nothing. *)
Lemma reserve_overflow w n :
  (match w_target w with Some data => length data < w_offset w + n | None => True end)%nat →
  Writer.reserve n w = (Err NoCapacity "byte writer overflow", w).
Proof.
  intros Hlt. unfold Writer.reserve. destruct (w_target w) as [data|]; [|done].
  destruct (Nat.ltb_spec (length data) (w_offset w)); [done|].
  destruct (Nat.ltb_spec (length data - w_offset w) n); [done|lia].
Qed.

Lemma require_short r n :
  (match r_source r with Some data => length data < r_offset r + n | None => True end)%nat →
  Reader.require n r = (Err ProtocolError "truncated input", r).
Proof.
  intros Hlt. unfold Reader.require. destruct (r_source r) as [data|]; [|done].
  destruct (Nat.ltb_spec (length data) (r_offset r)); [done|].
  destruct (Nat.ltb_spec (length data - r_offset r) n); [done|lia].
Qed.

(** Sequencing tactics for codec proofs: split a bind, give the primitive to
    the hint database, leave the ranges to the caller. *)
Ltac emit_steps :=
  repeat first
    [ eapply emits_bind; [solve [eauto with codec] | intros _]
    | solve [eauto with codec] ].

Ltac consume_steps :=
  repeat first
    [ eapply consumes_pass; [apply consumes_check|]
    | eapply consumes_bind; [solve [eauto with codec] |]
    | solve [eauto with codec] ].

#[global] Arguments be_bytes : simpl never.
