(* ===== verification/Types.v ===== *)
(** * Shared vocabulary (types.hpp, security.hpp, group.hpp, wire.hpp)

    Identifiers, the frozen frame-type numbers, message identities, the
    security context a frame is sealed under and the group address space.
    Enumerations whose C++ values are cast from unvalidated bytes are kept as
    integers, because the code range-checks them after the cast. *)

From S2P Require Import Prelude.

Abbreviation NodeId := Z (only parsing).
Abbreviation NetworkId := Z (only parsing).
Abbreviation MonotonicMs := Z (only parsing).

Definition kInvalidNodeId : NodeId := 0.
Definition kBroadcastNodeId : NodeId := UINT64_MAX.
Definition kMaxApplicationPayload : nat := 128.
Definition kMaxEspNowBody : nat := 250.
Definition kAeadTagSize : nat := 16.
Definition kDefaultHopLimit : Z := 10.
Definition kMaxCryptoCounter : Z := 0xFFFFFFFFFFFF.

Record MessageId := mkMessageId { session : Z; sequence : Z }.
#[global] Instance MessageId_eq_dec : EqDecision MessageId.
Proof. solve_decision. Defined.

Record MessageKey := mkMessageKey { mk_origin : NodeId; mk_id : MessageId }.
#[global] Instance MessageKey_eq_dec : EqDecision MessageKey.
Proof. solve_decision. Defined.

(** [enum class DeliveryClass] *)
Module DeliveryClass.
Definition BestEffort : Z := 0.
Definition Reliable : Z := 1.
Definition Applied : Z := 2.
End DeliveryClass.

(** [enum class Priority] *)
Module Priority.
Definition Bulk : Z := 0.
Definition Normal : Z := 1.
Definition Management : Z := 2.
Definition Urgent : Z := 3.
End Priority.

(** [enum class FrameType]: the values are frozen on the wire. *)
Module FrameType.
Definition Discover : Z := 1.
Definition Offer : Z := 2.
Definition BootstrapAuth : Z := 3.
Definition MembershipResult : Z := 4.
Definition BootstrapChunk : Z := 5.
Definition BootstrapReply : Z := 6.
Definition MembershipQuery : Z := 7.
Definition Data : Z := 16.
Definition HopAccept : Z := 17.
Definition EndReceipt : Z := 18.
Definition AppResult : Z := 19.
Definition Busy : Z := 20.
Definition Service : Z := 21.
Definition Control : Z := 22.
Definition TimeSync : Z := 23.
Definition ChannelNotice : Z := 24.
Definition GroupData : Z := 25.
Definition GroupReport : Z := 26.
Definition RouteUpdate : Z := 32.
Definition RouteWithdraw : Z := 33.
Definition SeqnoRequest : Z := 34.
Definition RouteRequest : Z := 35.
Definition NeighborProbe : Z := 40.
Definition NeighborResult : Z := 41.
Definition Diagnostic : Z := 48.
Definition ControlObject : Z := 49.
Definition ObjectChunk : Z := 50.
Definition ObjectAck : Z := 51.
Definition AppObjectStart : Z := 64.
Definition AppObjectChunk : Z := 65.
Definition AppObjectAck : Z := 66.

(** The enumerators, in the order the [switch] statements list them. *)
Definition all : list Z :=
  [Discover; Offer; BootstrapAuth; MembershipResult; BootstrapChunk;
   BootstrapReply; MembershipQuery; Data; HopAccept; EndReceipt; AppResult;
   Busy; Service; Control; TimeSync; ChannelNotice; GroupData; GroupReport;
   RouteUpdate; RouteWithdraw; SeqnoRequest; RouteRequest; NeighborProbe;
   NeighborResult; Diagnostic; ControlObject; ObjectChunk; ObjectAck;
   AppObjectStart; AppObjectChunk; AppObjectAck].
End FrameType.

(** [enum class SecurityScope] *)
Inductive SecurityScope := Link | EndToEnd | Group | GroupLink.
#[global] Instance SecurityScope_eq_dec : EqDecision SecurityScope.
Proof. solve_decision. Defined.

Definition scope_value (s : SecurityScope) : Z :=
  match s with Link => 0 | EndToEnd => 1 | Group => 2 | GroupLink => 3 end.

(** [struct SecurityContext] *)
Record SecurityContext := mkContext {
  scope : SecurityScope;
  network : NetworkId;
  sender : NodeId;
  receiver : NodeId;
  epoch : Z;
  group_epoch : Z;
  sender_boot : Z;
  group_id : NodeId }.
#[global] Instance SecurityContext_eq_dec : EqDecision SecurityContext.
Proof. solve_decision. Defined.

(** ** Group addresses (group.hpp) *)
Definition kGroupAll : Z := 0xFFFF.
Definition kGroupAddressBase : NodeId := 0xFFFFFFFFFFFF0000.
Definition group_address (group : Z) : NodeId := Z.lor kGroupAddressBase group.
Definition is_group_address (node : NodeId) : bool := bool_decide (kGroupAddressBase < node).
Definition group_of_address (address : NodeId) : Z := u16 (Z.land address 0xFFFF).
Definition reserved_node_id (node : NodeId) : bool :=
  bool_decide (node = kInvalidNodeId) || bool_decide (kGroupAddressBase ≤ node).

Definition kGroupSequenceFlag : Z := Z.shiftl 1 63.
Definition group_seq_bits (sequence : Z) : Z :=
  Z.land sequence (UINT64_MAX - kGroupSequenceFlag).
Definition is_group_sequence (sequence : Z) : bool :=
  negb (bool_decide (Z.land sequence kGroupSequenceFlag = 0)) &&
  negb (bool_decide (group_seq_bits sequence = 0)) &&
  bool_decide (group_seq_bits sequence ≤ UINT32_MAX).
Definition group_stream_seq (sequence : Z) : Z := u32 (group_seq_bits sequence).

(** ** Frame-type predicates *)

Definition kExtensionTypeFirst : Z := 64.
Definition kExtensionTypeLast : Z := 95.
Definition is_extension_type (type : Z) : bool :=
  bool_decide (kExtensionTypeFirst ≤ type) && bool_decide (type ≤ kExtensionTypeLast).

(** [known_frame_type] of wire.cpp; [member_frame_type] of admission.hpp is
    the same [switch]. *)
Definition known_frame_type (value : Z) : bool :=
  bool_decide (value ∈ FrameType.all) || is_extension_type value.

(** [traffic_for] of wire.hpp *)
Definition kTrafficNormal : Z := 0.
Definition kTrafficBulk : Z := 1.
Definition kTrafficUrgent : Z := 2.
Definition traffic_for (priority : Z) : Z :=
  if bool_decide (priority = Priority.Bulk) then kTrafficBulk
  else if bool_decide (priority = Priority.Urgent) then kTrafficUrgent
  else kTrafficNormal.

(** The group address of a nonzero group is a group address and gives the
    group back. *)
Lemma group_address_roundtrip g :
  is_u16 g → g ≠ 0 →
  is_group_address (group_address g) = true ∧ group_of_address (group_address g) = g.
Proof.
  intros [H0 H1] Hne. unfold group_address, group_of_address, is_group_address.
  assert (Hadd : Z.lor kGroupAddressBase g = kGroupAddressBase + g).
  { rewrite <- Z.add_lor_land.
    assert (Z.land kGroupAddressBase g = 0) as ->; [|lia].
    change kGroupAddressBase with (Z.shiftl 0xFFFFFFFFFFFF 16).
    apply Z.bits_inj'. intros i Hi. rewrite Z.land_spec, Z.bits_0, Z.shiftl_spec by lia.
    destruct (Z.lt_ge_cases i 16).
    - by rewrite Z.testbit_neg_r by lia.
    - rewrite <- (Z.mod_small g (2 ^ 16)) by lia.
      rewrite Z.mod_pow2_bits_high by lia. apply andb_false_r. }
  rewrite Hadd. split; [apply bool_decide_eq_true_2; lia|].
  change 0xFFFF with (Z.ones 16). rewrite Z.land_ones by lia.
  unfold wrap. rewrite Z.mod_mod by lia.
  replace (kGroupAddressBase + g) with (g + 0xFFFFFFFFFFFF * 2 ^ 16) by (unfold kGroupAddressBase; lia).
  rewrite Z.mod_add by lia. by apply Z.mod_small.
Qed.
