(* ===== verification/Wire.v ===== *)
(** * The mesh frame format (wire.hpp, wire.cpp)

    [Codec] holds the 88-byte header, its validation and both directions of
    the codec; [Frame] holds the operations that seal, open and forward
    frames against a security provider, which is an interface
    ([SecurityProvider]) with the documented AEAD contract ([AeadLaws]). *)

From S2P Require Import Prelude ByteIO Types.

Definition kMagic : Z := 0x524c.
Definition kMajor : Z := 2.
Definition kMinor : Z := 0.
Definition kHeaderSize : nat := 88.
Definition kFlagEndProtected : Z := 1.

(** [struct Header] *)
Record Header := mkHeader {
  type : Z;
  flags : Z;
  delivery : Z;
  delivery_round : Z;
  hop_remaining : Z;
  minor : Z;
  traffic : Z;
  payload_length : Z;
  h_network : NetworkId;
  origin : NodeId;
  destination : NodeId;
  previous_hop : NodeId;
  next_hop : NodeId;
  message : MessageId;
  remaining_deadline_ms : Z;
  original_lifetime_ms : Z;
  link_epoch : Z;
  end_epoch : Z;
  link_counter : Z;
  end_counter : Z }.

#[global] Instance Header_eq_dec : EqDecision Header.
Proof. solve_decision. Defined.

(** Field widths of [struct Header]; the C++ types enforce them. *)
Record header_typed (h : Header) : Prop := {
  ht_type : is_u8 (type h);
  ht_flags : is_u8 (flags h);
  ht_delivery : is_u8 (delivery h);
  ht_round : is_u8 (delivery_round h);
  ht_hop : is_u8 (hop_remaining h);
  ht_minor : is_u8 (minor h);
  ht_traffic : is_u8 (traffic h);
  ht_length : is_u8 (payload_length h);
  ht_network : is_u64 (h_network h);
  ht_origin : is_u64 (origin h);
  ht_destination : is_u64 (destination h);
  ht_previous : is_u64 (previous_hop h);
  ht_next : is_u64 (next_hop h);
  ht_session : is_u32 (session (message h));
  ht_sequence : is_u64 (sequence (message h));
  ht_remaining : is_u32 (remaining_deadline_ms h);
  ht_lifetime : is_u32 (original_lifetime_ms h);
  ht_link_epoch : is_u32 (link_epoch h);
  ht_end_epoch : is_u32 (end_epoch h);
  ht_link_counter : is_u64 (link_counter h);
  ht_end_counter : is_u64 (end_counter h) }.

Definition end_protected (h : Header) : bool :=
  negb (bool_decide (Z.land (flags h) kFlagEndProtected = 0)).

Module Codec.

Definition broadcast_route_ok (h : Header) : bool :=
  bool_decide (type h = FrameType.RouteUpdate) &&
  bool_decide (next_hop h = kBroadcastNodeId) &&
  bool_decide (destination h = kBroadcastNodeId) &&
  bool_decide (origin h = previous_hop h) &&
  negb (bool_decide (origin h = kBroadcastNodeId)) &&
  bool_decide (hop_remaining h = 1) &&
  bool_decide (delivery h = DeliveryClass.BestEffort) &&
  bool_decide (delivery_round h = 0) &&
  bool_decide (flags h = 0) &&
  bool_decide (end_counter h = 0).

(** [validate_header] *)
Definition validate_header (h : Header) : result unit :=
  guard_err (negb (known_frame_type (type h))) InvalidArgument "unknown frame type";;
  guard_err (bool_decide (DeliveryClass.Applied < delivery h)) InvalidArgument "unknown delivery class";;
  guard_err (bool_decide (h_network h = 0) || bool_decide (UINT32_MAX < h_network h) ||
             bool_decide (origin h = kInvalidNodeId) || bool_decide (destination h = kInvalidNodeId) ||
             bool_decide (previous_hop h = kInvalidNodeId) || bool_decide (next_hop h = kInvalidNodeId))
    InvalidArgument "wire identity field is invalid";;
  guard_err ((bool_decide (next_hop h = kBroadcastNodeId) ||
              (bool_decide (type h = FrameType.RouteUpdate) &&
               bool_decide (destination h = kBroadcastNodeId))) &&
             negb (broadcast_route_ok h))
    ProtocolError "invalid broadcast route header";;
  guard_err (bool_decide (Z.of_nat kMaxApplicationPayload < payload_length h))
    InvalidArgument "payload exceeds v1 limit";;
  guard_err (bool_decide (hop_remaining h = 0) && negb (bool_decide (destination h = next_hop h)))
    InvalidArgument "hop budget exhausted before destination";;
  guard_err (negb (bool_decide (Z.land (flags h) (Z.lnot kFlagEndProtected) = 0)))
    ProtocolError "unknown wire flags";;
  guard_err (bool_decide (kMaxCryptoCounter < link_counter h) ||
             bool_decide (kMaxCryptoCounter < end_counter h))
    InvalidArgument "crypto counter exceeds 48 bits";;
  guard_err (bool_decide (original_lifetime_ms h = 0) ||
             bool_decide (original_lifetime_ms h < remaining_deadline_ms h))
    InvalidArgument "invalid lifetime".

Definition write_fields (h : Header) : M ByteWriter unit :=
  Writer.write_u16 kMagic;;
  Writer.write_u8 kMajor;;
  Writer.write_u8 (minor h);;
  Writer.write_u8 (type h);;
  Writer.write_u8 (flags h);;
  Writer.write_u8 (delivery h);;
  Writer.write_u8 (delivery_round h);;
  Writer.write_u8 (hop_remaining h);;
  Writer.write_u8 (traffic h);;
  Writer.write_u16 (payload_length h);;
  Writer.write_u32 (u32 (h_network h));;
  Writer.write_u64 (origin h);;
  Writer.write_u64 (destination h);;
  Writer.write_u64 (previous_hop h);;
  Writer.write_u64 (next_hop h);;
  Writer.write_u32 (session (message h));;
  Writer.write_u64 (sequence (message h));;
  Writer.write_u32 (remaining_deadline_ms h);;
  Writer.write_u32 (original_lifetime_ms h);;
  Writer.write_u32 (link_epoch h);;
  Writer.write_u32 (end_epoch h);;
  Writer.write_u48 (link_counter h);;
  Writer.write_u48 (end_counter h).

(** [write_header] *)
Definition write_header (h : Header) (output : list Z) : result (list Z) :=
  guard_err (length output <? kHeaderSize)%nat NoCapacity "wire header output too small";;
  guard_err (bool_decide (UINT32_MAX < h_network h)) InvalidArgument "v1 network id exceeds 32 bits";;
  '(written, buf) ← run_writer (write_fields h) output;
  guard_err (negb (written =? kHeaderSize)%nat) InternalError "wire header size mismatch";;
  mret buf.

Definition read_fields : M ByteReader Header :=
  magic ← Reader.read_u16;
  major ← Reader.read_u8;
  mnr ← Reader.read_u8;
  ty ← Reader.read_u8;
  fl ← Reader.read_u8;
  dl ← Reader.read_u8;
  rnd ← Reader.read_u8;
  hop ← Reader.read_u8;
  tr ← Reader.read_u8;
  plen ← Reader.read_u16;
  net ← Reader.read_u32;
  org ← Reader.read_u64;
  dst ← Reader.read_u64;
  prv ← Reader.read_u64;
  nxt ← Reader.read_u64;
  ses ← Reader.read_u32;
  seqn ← Reader.read_u64;
  rem ← Reader.read_u32;
  life ← Reader.read_u32;
  lep ← Reader.read_u32;
  eep ← Reader.read_u32;
  lct ← Reader.read_u48;
  ect ← Reader.read_u48;
  fail_if (negb (bool_decide (magic = kMagic)) || negb (bool_decide (major = kMajor)))
    ProtocolError "unsupported wire header";;
  fail_if (bool_decide (Z.of_nat kMaxApplicationPayload < plen))
    ProtocolError "payload exceeds v1 limit";;
  fail_if (negb (known_frame_type ty)) ProtocolError "unknown frame type";;
  fail_if (bool_decide (DeliveryClass.Applied < dl)) ProtocolError "unknown delivery class";;
  mret (mkHeader ty fl dl rnd hop mnr tr (u8 plen) net org dst prv nxt
          (mkMessageId ses seqn) rem life lep eep lct ect).

(** [read_header] (and [peek_header], which is the same call) *)
Definition read_header (encoded : list Z) : result Header :=
  guard_err (length encoded <? kHeaderSize + kAeadTagSize)%nat ProtocolError "wire frame too short";;
  h ← run_reader read_fields (take kHeaderSize encoded);
  validate_header h;;
  mret h.

Definition aad_fields (h : Header) : M ByteWriter unit :=
  Writer.write_u8 kMajor;;
  Writer.write_u8 (minor h);;
  Writer.write_u8 (type h);;
  Writer.write_u8 (flags h);;
  Writer.write_u8 (delivery h);;
  Writer.write_u32 (u32 (h_network h));;
  Writer.write_u64 (origin h);;
  Writer.write_u64 (destination h);;
  Writer.write_u32 (session (message h));;
  Writer.write_u64 (sequence (message h));;
  Writer.write_u32 (original_lifetime_ms h);;
  Writer.write_u32 (end_epoch h);;
  Writer.write_u48 (end_counter h);;
  Writer.write_u16 (payload_length h).

Definition kEndAadMax : nat := 64.

(** [make_end_aad]: the bytes the end tag authenticates. *)
Definition make_end_aad (h : Header) : result (list Z) :=
  '(length, bytes) ← run_writer (aad_fields h) (replicate kEndAadMax 0);
  mret (take length bytes).

(** [link_context] *)
Definition link_context (h : Header) : SecurityContext :=
  if bool_decide (type h = FrameType.RouteUpdate) && bool_decide (next_hop h = kBroadcastNodeId)
  then mkContext GroupLink (h_network h) (previous_hop h) kBroadcastNodeId
         (link_epoch h) (end_epoch h) 0 0
  else mkContext Link (h_network h) (previous_hop h) (next_hop h) (link_epoch h) 0 0 0.

(** [end_context] *)
Definition end_context (h : Header) : SecurityContext :=
  if bool_decide (type h = FrameType.GroupData)
  then mkContext Group (h_network h) (origin h) kBroadcastNodeId (end_epoch h) 0
         (session (message h)) (destination h)
  else mkContext EndToEnd (h_network h) (origin h) (destination h) (end_epoch h) 0 0 0.

(** ** What is on the wire *)

Definition header_bytes (h : Header) : list Z :=
  be_bytes 2 kMagic ++ [kMajor] ++ [minor h] ++ [type h] ++ [flags h] ++
  [delivery h] ++ [delivery_round h] ++ [hop_remaining h] ++ [traffic h] ++
  be_bytes 2 (payload_length h) ++ be_bytes 4 (h_network h) ++
  be_bytes 8 (origin h) ++ be_bytes 8 (destination h) ++
  be_bytes 8 (previous_hop h) ++ be_bytes 8 (next_hop h) ++
  be_bytes 4 (session (message h)) ++ be_bytes 8 (sequence (message h)) ++
  be_bytes 4 (remaining_deadline_ms h) ++ be_bytes 4 (original_lifetime_ms h) ++
  be_bytes 4 (link_epoch h) ++ be_bytes 4 (end_epoch h) ++
  be_bytes 6 (link_counter h) ++ be_bytes 6 (end_counter h).

Definition aad_bytes (h : Header) : list Z :=
  [kMajor] ++ [minor h] ++ [type h] ++ [flags h] ++ [delivery h] ++
  be_bytes 4 (u32 (h_network h)) ++ be_bytes 8 (origin h) ++ be_bytes 8 (destination h) ++
  be_bytes 4 (session (message h)) ++ be_bytes 8 (sequence (message h)) ++
  be_bytes 4 (original_lifetime_ms h) ++ be_bytes 4 (end_epoch h) ++
  be_bytes 6 (end_counter h) ++ be_bytes 2 (payload_length h).

Lemma length_header_bytes h : length (header_bytes h) = kHeaderSize.
Proof. reflexivity. Qed.

Lemma length_aad_bytes h : length (aad_bytes h) = 53%nat.
Proof. reflexivity. Qed.

(** The checks of [validate_header] as facts. *)
Record header_valid (h : Header) : Prop := {
  hv_type : known_frame_type (type h) = true;
  hv_delivery : delivery h ≤ DeliveryClass.Applied;
  hv_network : h_network h ≠ 0 ∧ h_network h ≤ UINT32_MAX;
  hv_origin : origin h ≠ kInvalidNodeId;
  hv_destination : destination h ≠ kInvalidNodeId;
  hv_previous : previous_hop h ≠ kInvalidNodeId;
  hv_next : next_hop h ≠ kInvalidNodeId;
  hv_broadcast :
    next_hop h = kBroadcastNodeId ∨
      (type h = FrameType.RouteUpdate ∧ destination h = kBroadcastNodeId) →
    broadcast_route_ok h = true;
  hv_length : payload_length h ≤ Z.of_nat kMaxApplicationPayload;
  hv_hop : hop_remaining h = 0 → destination h = next_hop h;
  hv_flags : Z.land (flags h) (Z.lnot kFlagEndProtected) = 0;
  hv_link_counter : link_counter h ≤ kMaxCryptoCounter;
  hv_end_counter : end_counter h ≤ kMaxCryptoCounter;
  hv_lifetime : original_lifetime_ms h ≠ 0;
  hv_deadline : remaining_deadline_ms h ≤ original_lifetime_ms h }.

Lemma validate_header_ok h : validate_header h = Ok tt ↔ header_valid h.
Proof.
  unfold validate_header. rewrite !guard_err_bind, guard_err_iff. bdec.
  split.
  - intros (?&?&?&Hb&?&Hh&?&?&?). destruct_and!. constructor; try done; try lia.
    naive_solver.
  - intros []. split_and!; try done; try lia.
    destruct (broadcast_route_ok h); [by right|left].
    split; [intros Hn; by discriminate hv_broadcast0; left|].
    destruct (decide (type h = FrameType.RouteUpdate)); [right|by left].
    intros Hd. by discriminate hv_broadcast0; right.
Qed.


Lemma emits_write_fields h :
  header_typed h → h_network h ≤ UINT32_MAX →
  link_counter h ≤ kMaxCryptoCounter → end_counter h ≤ kMaxCryptoCounter →
  emits (write_fields h) (header_bytes h).
Proof.
  intros Ht Hn Hl He. unfold write_fields, header_bytes.
  rewrite wrap_id by (destruct (ht_network h Ht); split; [done|unfold UINT32_MAX in *; lia]).
  unfold kMaxCryptoCounter in *. emit_steps.
Qed.

Lemma emits_aad_fields h :
  end_counter h ≤ kMaxCryptoCounter → emits (aad_fields h) (aad_bytes h).
Proof. intros He. unfold aad_fields, aad_bytes, kMaxCryptoCounter in *. emit_steps. Qed.

Lemma make_end_aad_ok h :
  end_counter h ≤ kMaxCryptoCounter → make_end_aad h = Ok (aad_bytes h).
Proof.
  intros He. unfold make_end_aad.
  erewrite run_writer_emits; [|by apply emits_aad_fields|rewrite length_replicate; vm_compute; lia].
  simpl. f_equal.
Qed.

Lemma write_header_ok h output :
  header_typed h → h_network h ≤ UINT32_MAX →
  link_counter h ≤ kMaxCryptoCounter → end_counter h ≤ kMaxCryptoCounter →
  (kHeaderSize ≤ length output)%nat →
  write_header h output = Ok (header_bytes h ++ drop kHeaderSize output).
Proof.
  intros Ht Hn Hl He Hlen. unfold write_header.
  rewrite (proj2 (Nat.ltb_ge _ _) Hlen), bool_decide_eq_false_2 by lia. simpl.
  erewrite run_writer_emits; [|by apply emits_write_fields|done]. done.
Qed.

Lemma consumes_read_fields h :
  header_typed h → header_valid h → consumes read_fields (header_bytes h) h.
Proof.
  intros Ht Hv. unfold read_fields, header_bytes.
  rewrite <- (app_nil_r (be_bytes 6 (end_counter h))).
  pose proof Hv as []. destruct Ht.
  assert (is_u16 kMagic) by (unfold in_range, kMagic; lia).
  assert (is_u16 (payload_length h)) by (eapply in_range_mono; [|done]; lia).
  assert (is_u32 (h_network h)) by (unfold UINT32_MAX, in_range in *; lia).
  assert (in_range 48 (link_counter h)) by (unfold kMaxCryptoCounter, in_range in *; lia).
  assert (in_range 48 (end_counter h)) by (unfold kMaxCryptoCounter, in_range in *; lia).
  repeat (eapply consumes_bind; [solve [eauto with codec]|]).
  repeat (eapply consumes_pass; [apply consumes_check|]); try done.
  - apply bool_decide_eq_false_2. lia.
  - by rewrite hv_type0.
  - apply bool_decide_eq_false_2. lia.
  - rewrite wrap_id by done. destruct h as [? ? ? ? ? ? ? ? ? ? ? ? ? []]. apply consumes_ret.
Qed.

Lemma parses_read_fields :
  parses read_fields (λ h bs,
    bs = header_bytes h ∧ header_typed h ∧
    h_network h ≤ UINT32_MAX).
Proof.
  eapply parses_impl.
  { unfold read_fields.
    repeat (eapply parses_bind; [solve [eauto with codec]|intros ?]).
    eapply parses_ret. }
  intros h bs _ Hh. simpl in Hh.
  repeat match goal with
    | H : ∃ _, _ |- _ => destruct H
    | H : _ ∧ _ |- _ => destruct H
    end; subst.
  bdec.
  rewrite (wrap_id 8) by (unfold in_range, kMaxApplicationPayload in *; lia).
  split; [|split].
  - unfold header_bytes; simpl. rewrite ?app_nil_r. destruct_and!. subst. done.
  - constructor; simpl; try done; unfold in_range, kMaxApplicationPayload in *; lia.
  - simpl. unfold in_range, UINT32_MAX in *. lia.
Qed.

Lemma read_header_bytes h rest :
  header_typed h → header_valid h → (kAeadTagSize ≤ length rest)%nat →
  read_header (header_bytes h ++ rest) = Ok h.
Proof.
  intros Ht Hv Hlen. unfold read_header.
  assert (Hl : (length (header_bytes h ++ rest) <? kHeaderSize + kAeadTagSize)%nat = false).
  { apply Nat.ltb_ge. rewrite length_app, length_header_bytes. lia. }
  rewrite guard_pass, take_app_length' by done.
  rewrite <- (app_nil_r (header_bytes h)).
  rewrite (run_reader_consumes _ _ _ h) by (by apply consumes_read_fields).
  rewrite bind_Ok. by rewrite (proj2 (validate_header_ok h)).
Qed.

Lemma read_header_inv encoded h :
  bytes_ok encoded → read_header encoded = Ok h →
  header_typed h ∧ header_valid h ∧ (kHeaderSize + kAeadTagSize ≤ length encoded)%nat ∧
  take kHeaderSize encoded = header_bytes h.
Proof.
  intros Hok Hread. unfold read_header in Hread.
  apply guard_err_bind in Hread as [Hlen Hread]. apply Nat.ltb_ge in Hlen.
  apply result_bind_inv in Hread as (h' & Hrun & Hread).
  apply result_bind_inv in Hread as ([] & Hval & [= <-]).
  apply (run_reader_parses _ _ _ _ parses_read_fields) in Hrun
    as (bs & rest & Heq & -> & Ht & Hn); [|by apply Forall_take].
  split; [done|]. split; [by apply validate_header_ok|]. split; [done|].
  assert (rest = []) as ->; [|by rewrite app_nil_r in Heq].
  apply (f_equal length) in Heq.
  rewrite length_take, length_app, length_header_bytes in Heq.
  apply nil_length_inv. lia.
Qed.

(** C25: a header the encoder accepts is written to 88 bytes that the decoder
    reads back, field for field, in front of any tail long enough to hold the
    link tag. *)
Theorem header_roundtrip h output tail :
  header_typed h → validate_header h = Ok tt → length output = kHeaderSize →
  (kAeadTagSize ≤ length tail)%nat →
  ∃ buf, write_header h output = Ok buf ∧ length buf = kHeaderSize ∧
    read_header (buf ++ tail) = Ok h.
Proof.
  intros Ht Hv Ho Hlen. apply validate_header_ok in Hv.
  exists (header_bytes h). split; [|split; [done|by apply read_header_bytes]].
  rewrite write_header_ok by (done || lia || apply Hv).
  rewrite drop_ge by lia. by rewrite app_nil_r.
Qed.

(** C26: whatever bytes the decoder accepts are exactly the bytes the encoder
    produces for the header it returned, and that header passes the encoder's
    own validation. *)
Theorem header_canonical encoded h :
  bytes_ok encoded → read_header encoded = Ok h →
  validate_header h = Ok tt ∧
  write_header h (replicate kHeaderSize 0) = Ok (take kHeaderSize encoded).
Proof.
  intros Hok Hread. apply read_header_inv in Hread as (Ht & Hv & Hlen & Heq); [|done].
  split; [by apply validate_header_ok|].
  rewrite write_header_ok, Heq by (done || lia || apply Hv || by rewrite length_replicate).
  rewrite drop_ge by (by rewrite length_replicate). by rewrite app_nil_r.
Qed.

End Codec.

(** A data header from node 1 to node 3 through node 2, and its bytes. *)
Definition sample_header : Header :=
  mkHeader FrameType.Data 1 DeliveryClass.Reliable 0 4 kMinor 0 2 7 1 3 1 2
    (mkMessageId 9 1) 5000 5000 2 2 11 12.

Definition sample_header_bytes : list Z :=
  Eval vm_compute in
    match Codec.write_header sample_header (replicate kHeaderSize 0) with Ok b => b | Err _ _ => [] end.

Lemma header_roundtrip_witness :
  header_typed sample_header ∧ Codec.validate_header sample_header = Ok tt ∧
  ∃ buf, Codec.write_header sample_header (replicate kHeaderSize 0) = Ok buf ∧
    Codec.read_header (buf ++ replicate kAeadTagSize 0) = Ok sample_header.
Proof.
  assert (H1 : header_typed sample_header) by (constructor; vm_compute; intuition congruence).
  assert (H2 : Codec.validate_header sample_header = Ok tt) by (vm_compute; reflexivity).
  split; [exact H1|]. split; [exact H2|].
  destruct (Codec.header_roundtrip sample_header (replicate kHeaderSize 0) (replicate kAeadTagSize 0) H1 H2)
    as (buf & Hw & _ & Hr); [apply length_replicate|rewrite length_replicate; apply Nat.le_refl|].
  exists buf. split; [exact Hw|exact Hr].
Defined.

Lemma header_canonical_witness :
  Codec.read_header (sample_header_bytes ++ replicate kAeadTagSize 0) = Ok sample_header ∧
  Codec.write_header sample_header (replicate kHeaderSize 0) =
    Ok (take kHeaderSize (sample_header_bytes ++ replicate kAeadTagSize 0)).
Proof.
  assert (H1 : bytes_ok (sample_header_bytes ++ replicate kAeadTagSize 0))
    by (apply (bool_decide_unpack _); by vm_compute).
  assert (H2 : Codec.read_header (sample_header_bytes ++ replicate kAeadTagSize 0) = Ok sample_header)
    by (vm_compute; reflexivity).
  split; [exact H2|]. exact (proj2 (Codec.header_canonical _ sample_header H1 H2)).
Defined.
