(* ===== verification/Frame.v ===== *)
(** * Sealing, opening and forwarding frames (wire.cpp, security.hpp)

    Frames carry two nested AEAD layers: the end layer binds origin and
    destination, the link layer is re-made at every hop.  The crypto suite is
    behind [SecurityProvider]; the theorems use only the contract [AeadLaws]
    that security.hpp documents for it, and [NullProvider] shows that the
    contract can be met. *)

From S2P Require Import Prelude ByteIO Types Wire.

(** [class SecurityProvider]: the operations the wire layer calls. *)
Class SecurityProvider (P : Type) := {
  sp_ready : P → bool;
  sp_tx_epoch : SecurityScope → NodeId → Z → M P Z;
  sp_tx_group_link_epochs : Z → Z → M P (Z * Z);
  sp_next_counter : SecurityContext → M P Z;
  sp_seal : SecurityContext → Z → list Z → list Z → M P (list Z * list Z);
  sp_open : SecurityContext → Z → list Z → list Z → list Z → M P (list Z) }.

(** The contract: sealing keeps the length and makes a 16-byte tag, counters
    and epochs have their wire widths, and a provider that is willing to
    receive a counter opens what was sealed under the same context, counter
    and associated data; opening genuine bytes never yields another text. *)
Class AeadLaws (P : Type) `{SecurityProvider P} := {
  sp_fresh : P → SecurityContext → Z → Prop;
  seal_shape ctx c aad pt p ct tag p' :
    sp_seal ctx c aad pt p = (Ok (ct, tag), p') →
    length ct = length pt ∧ length tag = kAeadTagSize;
  open_seal ctx c aad pt p ct tag p' q :
    sp_seal ctx c aad pt p = (Ok (ct, tag), p') → sp_fresh q ctx c →
    ∃ q', sp_open ctx c aad ct tag q = (Ok pt, q');
  open_sealed ctx c aad pt p ct tag p' q pt' q' :
    sp_seal ctx c aad pt p = (Ok (ct, tag), p') →
    sp_open ctx c aad ct tag q = (Ok pt', q') → pt' = pt;
  counter_bound ctx p c p' :
    sp_next_counter ctx p = (Ok c, p') → 0 ≤ c ≤ kMaxCryptoCounter;
  epoch_bound sc peer e p e' p' :
    sp_tx_epoch sc peer e p = (Ok e', p') → is_u32 e → is_u32 e';
  group_epoch_bound b g p b' g' p' :
    sp_tx_group_link_epochs b g p = (Ok (b', g'), p') → is_u32 b → is_u32 g →
    is_u32 b' ∧ is_u32 g' }.

(** [struct PlainFrame], [struct LinkOpenedFrame]: the used prefix of their
    fixed arrays. *)
Record PlainFrame := mkPlain { pf_header : Header; pf_payload : list Z }.
Record LinkOpenedFrame := mkOpened { lo_header : Header; lo_protected : list Z }.

Definition kProtectedMax : nat := kMaxApplicationPayload + kAeadTagSize.

(** Field assignments of the header copies. *)
Definition set_payload_length (v : Z) (h : Header) : Header :=
  mkHeader (type h) (flags h) (delivery h) (delivery_round h) (hop_remaining h) (minor h)
    (traffic h) v (h_network h) (origin h) (destination h) (previous_hop h) (next_hop h)
    (message h) (remaining_deadline_ms h) (original_lifetime_ms h) (link_epoch h) (end_epoch h)
    (link_counter h) (end_counter h).
Definition set_hop (prv nxt hop rem : Z) (h : Header) : Header :=
  mkHeader (type h) (flags h) (delivery h) (delivery_round h) hop (minor h)
    (traffic h) (payload_length h) (h_network h) (origin h) (destination h) prv nxt
    (message h) rem (original_lifetime_ms h) (link_epoch h) (end_epoch h)
    (link_counter h) (end_counter h).
Definition set_epochs (lep eep : Z) (h : Header) : Header :=
  mkHeader (type h) (flags h) (delivery h) (delivery_round h) (hop_remaining h) (minor h)
    (traffic h) (payload_length h) (h_network h) (origin h) (destination h) (previous_hop h)
    (next_hop h) (message h) (remaining_deadline_ms h) (original_lifetime_ms h) lep eep
    (link_counter h) (end_counter h).
Definition set_counters (lct ect : Z) (h : Header) : Header :=
  mkHeader (type h) (flags h) (delivery h) (delivery_round h) (hop_remaining h) (minor h)
    (traffic h) (payload_length h) (h_network h) (origin h) (destination h) (previous_hop h)
    (next_hop h) (message h) (remaining_deadline_ms h) (original_lifetime_ms h)
    (link_epoch h) (end_epoch h) lct ect.
Definition set_link_epoch (v : Z) (h : Header) : Header := set_epochs v (end_epoch h) h.
Definition set_end_epoch (v : Z) (h : Header) : Header := set_epochs (link_epoch h) v h.
Definition set_link_counter (v : Z) (h : Header) : Header := set_counters v (end_counter h) h.
Definition set_end_counter (v : Z) (h : Header) : Header := set_counters (link_counter h) v h.

Module Frame.
Section Ops.
Context {P : Type} `{SecurityProvider P}.

(** [stamp_link_epoch] *)
Definition stamp_link_epoch (h : Header) : M P Header :=
  if bool_decide (next_hop h = kBroadcastNodeId) then
    '(b, g) ← sp_tx_group_link_epochs (link_epoch h) (end_epoch h);
    mret (set_epochs b g h)
  else
    e ← sp_tx_epoch Link (next_hop h) (link_epoch h);
    mret (set_link_epoch e h).

(** [stamp_end_epoch] *)
Definition stamp_end_epoch (h : Header) : M P Header :=
  let context := Codec.end_context h in
  e ← sp_tx_epoch (scope context) (receiver context) (end_epoch h);
  mret (set_end_epoch e h).

(** [wrap_link] *)
Definition wrap_link (h : Header) (link_plaintext : list Z) : M P (list Z) :=
  fail_if (kMaxEspNowBody <? kHeaderSize + length link_plaintext + kAeadTagSize)%nat
    NoCapacity "encoded frame exceeds ESP-NOW v1 body";;
  header ← lift (Codec.write_header h (replicate kHeaderSize 0));
  '(ct, tag) ← sp_seal (Codec.link_context h) (link_counter h) header link_plaintext;
  mret (header ++ ct ++ tag).

(** The end layer shared by [encode_new], [seal_end] and [seal_group]. *)
Definition seal_end_layer (h : Header) (payload : list Z) : M P (list Z) :=
  aad ← lift (Codec.make_end_aad h);
  '(ct, tag) ← sp_seal (Codec.end_context h) (end_counter h) aad payload;
  mret (ct ++ tag).

(** [encode_new]: the encoded frame and, for an end-protected frame, the
    cached envelope. *)
Definition encode_new (input : PlainFrame) : M P (list Z * option LinkOpenedFrame) :=
  p ← getS;
  fail_if (negb (sp_ready p)) InvalidState "security provider is not ready";;
  fail_if (kMaxApplicationPayload <? length (pf_payload input))%nat
    InvalidArgument "application payload too large";;
  let h := set_payload_length (u8 (Z.of_nat (length (pf_payload input)))) (pf_header input) in
  lift (Codec.validate_header h);;
  h ← stamp_link_epoch h;
  fail_if (bool_decide (next_hop h = kBroadcastNodeId) &&
           (bool_decide (link_epoch h = 0) || bool_decide (end_epoch h = 0)))
    AuthRequired "GroupLink epochs unavailable";;
  h ← (if end_protected h then stamp_end_epoch h else mret h);
  lct ← sp_next_counter (Codec.link_context h);
  let h := set_link_counter lct h in
  if end_protected h then
    ect ← sp_next_counter (Codec.end_context h);
    let h := set_end_counter ect h in
    link_plaintext ← seal_end_layer h (pf_payload input);
    output ← wrap_link h link_plaintext;
    mret (output, Some (mkOpened h link_plaintext))
  else
    output ← wrap_link h (pf_payload input);
    mret (output, None).

(** [retry_local] *)
Definition retry_local (sealed : LinkOpenedFrame) (nxt : NodeId) (remaining : Z) : M P (list Z) :=
  let original := lo_header sealed in
  fail_if (negb (end_protected original) ||
           bool_decide (Z.of_nat kMaxApplicationPayload < payload_length original) ||
           negb (bool_decide (Z.of_nat (length (lo_protected sealed)) =
                              payload_length original + Z.of_nat kAeadTagSize)) ||
           bool_decide (nxt = kInvalidNodeId) || bool_decide (remaining = 0))
    InvalidArgument "invalid cached End envelope";;
  let h := set_hop (previous_hop original) nxt (hop_remaining original)
             (Z.min remaining (remaining_deadline_ms original)) original in
  h ← stamp_link_epoch h;
  lct ← sp_next_counter (Codec.link_context h);
  wrap_link (set_link_counter lct h) (lo_protected sealed).

(** [seal_end]: the envelope and the counter and epoch it was sealed under. *)
Definition seal_end (input : PlainFrame) (counter0 epoch0 : Z) (replay : bool)
    : M P (LinkOpenedFrame * Z * Z) :=
  p ← getS;
  fail_if (negb (sp_ready p)) InvalidState "security provider is not ready";;
  fail_if (kMaxApplicationPayload <? length (pf_payload input))%nat
    InvalidArgument "application payload too large";;
  let h := set_payload_length (u8 (Z.of_nat (length (pf_payload input)))) (pf_header input) in
  fail_if (negb (end_protected h)) InvalidArgument "frame is not End protected";;
  let h := if replay then set_end_counter counter0 (set_end_epoch epoch0 h) else h in
  lift (Codec.validate_header h);;
  h ← (if replay then mret h
       else h ← stamp_end_epoch h;
            c ← sp_next_counter (Codec.end_context h);
            mret (set_end_counter c h));
  protected ← seal_end_layer h (pf_payload input);
  mret (mkOpened h protected, end_counter h, end_epoch h).

Definition expected_plain (h : Header) : nat :=
  Z.to_nat (payload_length h) + (if end_protected h then kAeadTagSize else 0).

(** [open_link] *)
Definition open_link (encoded : list Z) (local_node : NodeId) (allow_broadcast_route : bool)
    : M P LinkOpenedFrame :=
  h ← lift (Codec.read_header encoded);
  fail_if (negb (bool_decide (next_hop h = local_node)) &&
           negb (allow_broadcast_route && bool_decide (type h = FrameType.RouteUpdate) &&
                 bool_decide (next_hop h = kBroadcastNodeId) &&
                 negb (bool_decide (local_node = kBroadcastNodeId))))
    AuthorizationFailed "frame is not addressed to this hop";;
  fail_if (bool_decide (next_hop h = kBroadcastNodeId) &&
           (bool_decide (link_epoch h = 0) || bool_decide (end_epoch h = 0)))
    ProtocolError "invalid GroupLink epochs";;
  let plain := expected_plain h in
  fail_if (negb (length encoded =? kHeaderSize + plain + kAeadTagSize)%nat ||
           (kProtectedMax <? plain)%nat)
    ProtocolError "wire length mismatch";;
  let tag := take kAeadTagSize (drop (kHeaderSize + plain) encoded) in
  opened ← sp_open (Codec.link_context h) (link_counter h) (take kHeaderSize encoded)
             (take plain (drop kHeaderSize encoded)) tag;
  mret (mkOpened h opened).

(** Opening the end layer of a protected payload, shared by [open_end] and
    [open_group]. *)
Definition open_end_layer (h : Header) (protected : list Z) : M P (list Z) :=
  let n := Z.to_nat (payload_length h) in
  aad ← lift (Codec.make_end_aad h);
  sp_open (Codec.end_context h) (end_counter h) aad (take n protected)
    (take kAeadTagSize (drop n protected)).

(** [open_end] *)
Definition open_end (input : LinkOpenedFrame) (local_node : NodeId) : M P PlainFrame :=
  let h := lo_header input in
  let size := Z.of_nat (length (lo_protected input)) in
  fail_if (negb (bool_decide (destination h = local_node)))
    AuthorizationFailed "end payload is not addressed to this node";;
  fail_if (bool_decide (type h = FrameType.GroupData))
    AuthorizationFailed "group frame requires open_group";;
  fail_if (bool_decide (Z.of_nat kMaxApplicationPayload < payload_length h) ||
           bool_decide (Z.of_nat kProtectedMax < size))
    ProtocolError "frame field out of range";;
  if negb (end_protected h) then
    fail_if (negb (bool_decide (size = payload_length h)))
      ProtocolError "plain control payload length mismatch";;
    mret (mkPlain h (lo_protected input))
  else
    fail_if (negb (bool_decide (size = payload_length h + Z.of_nat kAeadTagSize)))
      ProtocolError "protected payload length mismatch";;
    payload ← open_end_layer h (lo_protected input);
    mret (mkPlain h payload).

(** [forward] *)
Definition forward (input : LinkOpenedFrame) (local_node nxt : NodeId) (lep remaining : Z)
    : M P (list Z) :=
  let ih := lo_header input in
  fail_if (negb (bool_decide (next_hop ih = local_node)) || bool_decide (destination ih = local_node) ||
           bool_decide (nxt = kInvalidNodeId) || bool_decide (nxt = local_node))
    InvalidState "frame is not forwardable by this node";;
  fail_if (bool_decide (Z.of_nat kMaxApplicationPayload < payload_length ih) ||
           negb (length (lo_protected input) =? expected_plain ih)%nat)
    ProtocolError "frame field out of range";;
  fail_if (bool_decide (hop_remaining ih ≤ 1) || bool_decide (remaining = 0))
    Expired "forwarding budget exhausted";;
  let h := set_link_epoch lep
             (set_hop local_node nxt (hop_remaining ih - 1)
                (Z.min remaining (remaining_deadline_ms ih)) ih) in
  h ← stamp_link_epoch h;
  lct ← sp_next_counter (Codec.link_context h);
  wrap_link (set_link_counter lct h) (lo_protected input).

(** [seal_group] *)
Definition seal_group (input : PlainFrame) (local_node : NodeId) : M P LinkOpenedFrame :=
  p ← getS;
  fail_if (negb (sp_ready p)) InvalidState "security provider is not ready";;
  let ih := pf_header input in
  fail_if (negb (bool_decide (type ih = FrameType.GroupData)) || negb (end_protected ih) ||
           negb (is_group_address (destination ih)) || bool_decide (local_node = kInvalidNodeId) ||
           negb (bool_decide (origin ih = local_node)) ||
           bool_decide (hop_remaining ih = UINT8_MAX) || bool_decide (hop_remaining ih = 0))
    InvalidArgument "not a sealable group frame";;
  fail_if (kMaxApplicationPayload <? length (pf_payload input))%nat
    InvalidArgument "application payload too large";;
  let h := set_link_counter 0
             (set_hop local_node local_node (u8 (hop_remaining ih + 1)) (remaining_deadline_ms ih)
                (set_payload_length (u8 (Z.of_nat (length (pf_payload input)))) ih)) in
  lift (Codec.validate_header h);;
  h ← stamp_end_epoch h;
  c ← sp_next_counter (Codec.end_context h);
  let h := set_end_counter c h in
  protected ← seal_end_layer h (pf_payload input);
  mret (mkOpened h protected).

(** [open_group] *)
Definition open_group (input : LinkOpenedFrame) : M P PlainFrame :=
  let h := lo_header input in
  let size := Z.of_nat (length (lo_protected input)) in
  fail_if (negb (bool_decide (type h = FrameType.GroupData)) || negb (end_protected h) ||
           negb (is_group_address (destination h)))
    AuthorizationFailed "not a group frame";;
  fail_if (bool_decide (Z.of_nat kMaxApplicationPayload < payload_length h) ||
           bool_decide (Z.of_nat kProtectedMax < size) ||
           negb (bool_decide (size = payload_length h + Z.of_nat kAeadTagSize)))
    ProtocolError "protected payload length mismatch";;
  payload ← open_end_layer h (lo_protected input);
  mret (mkPlain h payload).

End Ops.
End Frame.

(** ** Frames in flight *)

(** What every unicast frame satisfies between its link layers. *)
Record frame_ok (f : LinkOpenedFrame) : Prop := {
  fo_typed : header_typed (lo_header f);
  fo_valid : Codec.header_valid (lo_header f);
  fo_unicast : next_hop (lo_header f) ≠ kBroadcastNodeId;
  fo_length : length (lo_protected f) = Frame.expected_plain (lo_header f) }.

(** The end-immutable header fields, as protocol/semantics.json lists them. *)
Definition immutable (h : Header) :=
  (minor h, type h, flags h, delivery h, h_network h, origin h, destination h, message h,
   original_lifetime_ms h, end_epoch h, end_counter h, payload_length h).

(** Two frames carry the same end envelope. *)
Definition same_envelope (f g : LinkOpenedFrame) : Prop :=
  immutable (lo_header f) = immutable (lo_header g) ∧ lo_protected f = lo_protected g.

#[global] Instance same_envelope_equiv : Equivalence same_envelope.
Proof.
  split.
  - by intros f; split.
  - intros f g [? ?]; split; congruence.
  - intros f g k [? ?] [? ?]; split; congruence.
Qed.

Lemma immutable_end h h' :
  immutable h = immutable h' →
  Codec.aad_bytes h = Codec.aad_bytes h' ∧ Codec.end_context h = Codec.end_context h' ∧
  Codec.make_end_aad h = Codec.make_end_aad h'.
Proof.
  unfold immutable, Codec.make_end_aad, Codec.aad_bytes, Codec.aad_fields, Codec.end_context.
  intros [= -> -> -> -> -> -> -> -> -> -> -> ->]. done.
Qed.

Lemma expected_plain_max h :
  Codec.header_valid h → (Frame.expected_plain h ≤ kProtectedMax)%nat.
Proof.
  intros Hv. pose proof (Codec.hv_length h Hv) as Hl.
  unfold Frame.expected_plain, kProtectedMax, kMaxApplicationPayload, kAeadTagSize in *.
  destruct (end_protected h); lia.
Qed.

Lemma header_wire_ok h output :
  header_typed h → Codec.header_valid h → length output = kHeaderSize →
  Codec.write_header h output = Ok (Codec.header_bytes h).
Proof.
  intros Ht Hv Ho. rewrite Codec.write_header_ok by (done || apply Hv || lia).
  rewrite drop_ge by lia. by rewrite app_nil_r.
Qed.

Lemma expected_plain_flags h h' :
  payload_length h = payload_length h' → flags h = flags h' →
  Frame.expected_plain h = Frame.expected_plain h'.
Proof. unfold Frame.expected_plain, end_protected. by intros -> ->. Qed.

(** Stamping a link epoch on a unicast header only changes that epoch. *)
Section Delivery.
Context {P : Type} `{AeadLaws P}.

Lemma stamp_link_unicast h p h' p' :
  next_hop h ≠ kBroadcastNodeId → is_u32 (link_epoch h) →
  Frame.stamp_link_epoch h p = (Ok h', p') →
  ∃ e, h' = set_link_epoch e h ∧ is_u32 e.
Proof.
  intros Hn He. unfold Frame.stamp_link_epoch. rewrite bool_decide_eq_false_2 by done.
  intros (e & p1 & H1 & [= <- <-])%M_bind_inv.
  exists e. split; [done|]. by eapply epoch_bound.
Qed.

Lemma set_link_ok h e c :
  header_typed h → Codec.header_valid h → is_u32 e → 0 ≤ c ≤ kMaxCryptoCounter →
  header_typed (set_link_counter c (set_link_epoch e h)) ∧
  Codec.header_valid (set_link_counter c (set_link_epoch e h)).
Proof.
  intros Ht Hv He Hc. destruct Ht, Hv. split; constructor; simpl; try done; try lia.
  unfold in_range, kMaxCryptoCounter in *; lia.
Qed.

Lemma wrap_link_inv h pt p enc p' :
  header_typed h → Codec.header_valid h → Frame.wrap_link h pt p = (Ok enc, p') →
  ∃ ct tag, sp_seal (Codec.link_context h) (link_counter h) (Codec.header_bytes h) pt p
      = (Ok (ct, tag), p') ∧
    enc = Codec.header_bytes h ++ ct ++ tag.
Proof.
  intros Ht Hv. unfold Frame.wrap_link.
  intros ([] & p1 & Hf & Hrun)%M_bind_inv. apply fail_if_ok in Hf as [_ ->].
  rewrite header_wire_ok in Hrun by (done || by rewrite length_replicate).
  apply M_bind_inv in Hrun as (b & p2 & [= <- <-] & Hrun).
  apply M_bind_inv in Hrun as ([ct tag] & p3 & Hs & [= <- <-]). eauto.
Qed.

(** The receiving hop recovers exactly the header and link plaintext. *)
Lemma wrap_open f p enc p' q :
  frame_ok f → Frame.wrap_link (lo_header f) (lo_protected f) p = (Ok enc, p') →
  sp_fresh q (Codec.link_context (lo_header f)) (link_counter (lo_header f)) →
  ∃ q', Frame.open_link enc (next_hop (lo_header f)) false q = (Ok f, q').
Proof.
  destruct f as [h pt]. simpl. intros [Ht Hv Hu Hl]; simpl in *. intros Hw Hq.
  destruct (wrap_link_inv _ _ _ _ _ Ht Hv Hw) as (ct & tag & Hs & ->).
  pose proof (seal_shape _ _ _ _ _ _ _ _ Hs) as [Hct Htag].
  destruct (open_seal _ _ _ _ _ _ _ _ _ Hs Hq) as [q' Ho].
  exists q'. unfold Frame.open_link.
  rewrite Codec.read_header_bytes by (done || rewrite length_app; lia).
  erewrite M_bind_ok by reflexivity.
  rewrite (bool_decide_eq_true_2 (next_hop h = next_hop h)), (bool_decide_eq_false_2 _ Hu) by done.
  erewrite M_bind_ok by reflexivity.
  erewrite M_bind_ok by reflexivity.
  pose proof (expected_plain_max h Hv) as Hmax.
  rewrite !length_app, Codec.length_header_bytes, Hct, Htag, Hl.
  replace (_ =? _)%nat with true by (symmetry; apply Nat.eqb_eq; lia).
  replace (kProtectedMax <? Frame.expected_plain h)%nat with false
    by (symmetry; by apply Nat.ltb_ge).
  erewrite M_bind_ok by reflexivity.
  rewrite take_app_length' by done.
  rewrite (drop_app_length' (Codec.header_bytes h)) by done.
  rewrite take_app_length' by lia.
  rewrite (app_assoc (Codec.header_bytes h)), drop_app_length'
    by (rewrite length_app, Codec.length_header_bytes; lia).
  rewrite take_ge by lia.
  by erewrite M_bind_ok by exact Ho.
Qed.

(** Opening the end layer depends only on the envelope. *)
Lemma open_end_layer_envelope f g (p : P) :
  same_envelope f g →
  Frame.open_end_layer (lo_header f) (lo_protected f) p =
  Frame.open_end_layer (lo_header g) (lo_protected g) p.
Proof.
  intros [Him Hp]. destruct (immutable_end _ _ Him) as (_ & Hc & Ha).
  unfold Frame.open_end_layer. rewrite Ha, Hc, Hp.
  unfold immutable in Him. by injection Him as _ _ _ _ _ _ _ _ _ _ -> ->.
Qed.

(** ** One hop *)

(** [forward] at the node the frame is addressed to, and the link opening at
    the hop it names, both of which succeeded. *)
Definition hop (f g : LinkOpenedFrame) : Prop :=
  ∃ nxt lep remaining (p : P) enc p' (q : P) q',
    is_u64 nxt ∧ nxt ≠ kBroadcastNodeId ∧ is_u32 lep ∧ is_u32 remaining ∧
    Frame.forward f (next_hop (lo_header f)) nxt lep remaining p = (Ok enc, p') ∧
    Frame.open_link enc nxt false q = (Ok g, q').

(** The frame a forwarder emits, as its receiver will see it. *)
Definition forwarded (f : LinkOpenedFrame) (nxt e rem c : Z) : LinkOpenedFrame :=
  let h := lo_header f in
  mkOpened
    (set_link_counter c (set_link_epoch e
       (set_hop (next_hop h) nxt (hop_remaining h - 1) (Z.min rem (remaining_deadline_ms h)) h)))
    (lo_protected f).

Lemma forwarded_envelope f nxt e rem c : same_envelope (forwarded f nxt e rem c) f.
Proof. by destruct f as [[] ?]. Qed.

Lemma forwarded_ok f nxt e rem c :
  frame_ok f → 1 < hop_remaining (lo_header f) → is_u64 nxt → nxt ≠ kInvalidNodeId →
  nxt ≠ kBroadcastNodeId → is_u32 e → is_u32 rem → 0 ≤ c ≤ kMaxCryptoCounter →
  frame_ok (forwarded f nxt e rem c).
Proof.
  intros [Ht Hv Hu Hl] Hh Hn1 Hn2 Hn3 He Hr Hc.
  pose proof Ht as []. pose proof Hv as [].
  assert (Hb : type (lo_header f) = FrameType.RouteUpdate →
               destination (lo_header f) ≠ kBroadcastNodeId).
  { intros Hty Hd. destruct Hu. unfold Codec.broadcast_route_ok in hv_broadcast.
    specialize (hv_broadcast (or_intror (conj Hty Hd))). rewrite !andb_true_iff, !bool_decide_eq_true in hv_broadcast. tauto. }
  constructor; simpl; [| |done|done].
  - constructor; simpl; try assumption; unfold in_range, kMaxCryptoCounter in *; lia.
  - constructor; simpl; try assumption; lia.
Qed.

Lemma forward_inv f nxt lep rem p enc p' :
  frame_ok f → is_u64 nxt → nxt ≠ kBroadcastNodeId → is_u32 lep → is_u32 rem →
  Frame.forward f (next_hop (lo_header f)) nxt lep rem p = (Ok enc, p') →
  1 < hop_remaining (lo_header f) ∧ rem ≠ 0 ∧ nxt ≠ kInvalidNodeId ∧
  destination (lo_header f) ≠ next_hop (lo_header f) ∧
  ∃ e c p2, let g := forwarded f nxt e rem c in
    frame_ok g ∧ Frame.wrap_link (lo_header g) (lo_protected g) p2 = (Ok enc, p').
Proof.
  intros Hf Hn1 Hn2 Hlep Hrem Hfwd. unfold Frame.forward in Hfwd.
  apply M_bind_inv in Hfwd as ([] & p1 & H1 & Hfwd). apply fail_if_ok in H1 as [H1 ->].
  apply M_bind_inv in Hfwd as ([] & p1 & H2 & Hfwd). apply fail_if_ok in H2 as [H2 ->].
  apply M_bind_inv in Hfwd as ([] & p1 & H3 & Hfwd). apply fail_if_ok in H3 as [H3 ->].
  bdec. destruct_and!.
  apply M_bind_inv in Hfwd as (h1 & p1 & Hst & Hfwd).
  apply stamp_link_unicast in Hst as (e & -> & He); [|done|done].
  apply M_bind_inv in Hfwd as (c & p2 & Hctr & Hfwd).
  pose proof (counter_bound _ _ _ _ Hctr) as Hc.
  repeat (split; [done || lia|]).
  exists e, c, p2. simpl. split; [|done]. apply forwarded_ok; done || lia.
Qed.

Lemma wrap_open_inv f p enc p' q g q' :
  frame_ok f → Frame.wrap_link (lo_header f) (lo_protected f) p = (Ok enc, p') →
  Frame.open_link enc (next_hop (lo_header f)) false q = (Ok g, q') → g = f.
Proof.
  intros Hf Hw Ho. destruct f as [h pt]; simpl in *. pose proof Hf as [Ht Hv Hu Hl]; simpl in *.
  destruct (wrap_link_inv _ _ _ _ _ Ht Hv Hw) as (ct & tag & Hs & ->).
  pose proof (seal_shape _ _ _ _ _ _ _ _ Hs) as [Hct Htag].
  unfold Frame.open_link in Ho.
  rewrite Codec.read_header_bytes in Ho by (done || rewrite length_app; lia).
  apply M_bind_inv in Ho as (h' & q1 & [= <- <-] & Ho).
  apply M_bind_inv in Ho as ([] & q1 & H1 & Ho). apply fail_if_ok in H1 as [_ ->].
  apply M_bind_inv in Ho as ([] & q1 & H2 & Ho). apply fail_if_ok in H2 as [_ ->].
  apply M_bind_inv in Ho as ([] & q1 & H3 & Ho). apply fail_if_ok in H3 as [_ ->].
  rewrite take_app_length' in Ho by done.
  rewrite (drop_app_length' (Codec.header_bytes h)) in Ho by done.
  rewrite take_app_length' in Ho by lia.
  rewrite (app_assoc (Codec.header_bytes h)), drop_app_length' in Ho
    by (rewrite length_app, Codec.length_header_bytes; lia).
  rewrite take_ge in Ho by lia.
  apply M_bind_inv in Ho as (pt' & q2 & Hop & [= <- <-]).
  by rewrite (open_sealed _ _ _ _ _ _ _ _ _ _ _ Hs Hop).
Qed.

Lemma hop_spec f g :
  frame_ok f → hop f g →
  frame_ok g ∧ same_envelope g f ∧
  hop_remaining (lo_header g) = hop_remaining (lo_header f) - 1 ∧
  1 ≤ hop_remaining (lo_header g) ∧
  remaining_deadline_ms (lo_header g) ≤ remaining_deadline_ms (lo_header f) ∧
  previous_hop (lo_header g) = next_hop (lo_header f).
Proof.
  intros Hf (nxt & lep & rem & p & enc & p' & q & q' & Hn1 & Hn2 & Hlep & Hrem & Hfw & Ho).
  destruct (forward_inv _ _ _ _ _ _ _ Hf Hn1 Hn2 Hlep Hrem Hfw)
    as (Hh & Hr & Hn & Hd & e & c & p2 & Hg & Hw).
  assert (g = forwarded f nxt e rem c) as ->.
  { eapply wrap_open_inv; [exact Hg|exact Hw|exact Ho]. }
  split; [done|]. split; [apply forwarded_envelope|]. simpl. split_and!; lia.
Qed.

(** ** Paths *)

Lemma path_spec n f g :
  frame_ok f → nsteps hop n f g →
  frame_ok g ∧ same_envelope g f ∧
  hop_remaining (lo_header g) = hop_remaining (lo_header f) - Z.of_nat n ∧
  (n ≠ 0%nat → 1 ≤ hop_remaining (lo_header g)) ∧
  remaining_deadline_ms (lo_header g) ≤ remaining_deadline_ms (lo_header f).
Proof.
  intros Hf Hpath. revert Hf.
  induction Hpath as [f|n f g k Hhop _ IH]; intros Hf.
  { split_and!; try done; lia. }
  destruct (hop_spec _ _ Hf Hhop) as (Hg & Henv & Hh & Hh1 & Hd & _).
  destruct (IH Hg) as (Hk & Henv' & Hh' & Hh1' & Hd').
  split; [done|]. split; [by etrans|]. split; [lia|]. split; [|lia].
  intros _. destruct n; [lia|]. by apply Hh1'.
Qed.

(** The hop budget bounds the length of every forwarding path, so no frame
    circulates forever, and the forwarding deadline never grows. *)
Lemma hop_budget n f g :
  frame_ok f → nsteps hop n f g →
  Z.of_nat n < Z.max 1 (hop_remaining (lo_header f)) ∧
  remaining_deadline_ms (lo_header g) ≤ remaining_deadline_ms (lo_header f).
Proof.
  intros Hf Hpath. destruct (path_spec _ _ _ Hf Hpath) as (_ & _ & Hh & Hh1 & Hd).
  split; [|done]. destruct n; [lia|]. specialize (Hh1 ltac:(done)). lia.
Qed.

(** What [encode_new] puts on the air for an end-protected unicast frame. *)
Lemma encode_new_inv input p enc sealed p' :
  header_typed (pf_header input) → next_hop (pf_header input) ≠ kBroadcastNodeId →
  end_protected (pf_header input) = true →
  Frame.encode_new input p = (Ok (enc, sealed), p') →
  ∃ f p1 p2 p3, sealed = Some f ∧ frame_ok f ∧
    Frame.seal_end_layer (lo_header f) (pf_payload input) p1 = (Ok (lo_protected f), p2) ∧
    Frame.wrap_link (lo_header f) (lo_protected f) p3 = (Ok enc, p') ∧
    next_hop (lo_header f) = next_hop (pf_header input) ∧
    payload_length (lo_header f) = Z.of_nat (length (pf_payload input)) ∧
    (type (lo_header f), flags (lo_header f), delivery (lo_header f), h_network (lo_header f),
     origin (lo_header f), destination (lo_header f), message (lo_header f),
     original_lifetime_ms (lo_header f)) =
    (let i := pf_header input in
     (type i, flags i, delivery i, h_network i, origin i, destination i, message i,
      original_lifetime_ms i)).
Proof.
  intros Ht Hu He Hrun. unfold Frame.encode_new in Hrun.
  apply M_bind_inv in Hrun as (p0 & p1 & [= <- <-] & Hrun).
  apply M_bind_inv in Hrun as ([] & p1 & H1 & Hrun). apply fail_if_ok in H1 as [_ ->].
  apply M_bind_inv in Hrun as ([] & p1 & H2 & Hrun). apply fail_if_ok in H2 as [Hlen ->].
  apply Nat.ltb_ge in Hlen. unfold kMaxApplicationPayload in Hlen.
  set (h0 := set_payload_length _ _) in Hrun.
  apply M_bind_inv in Hrun as ([] & p1 & Hv & Hrun). injection Hv as Hv <-.
  apply Codec.validate_header_ok in Hv.
  assert (Ht0 : header_typed h0).
  { destruct Ht. constructor; simpl; try done. by apply wrap_range. }
  apply M_bind_inv in Hrun as (h1 & p1 & Hst & Hrun).
  apply stamp_link_unicast in Hst as (e & -> & Hep); [|done|apply Ht0].
  apply M_bind_inv in Hrun as ([] & p2 & H3 & Hrun). apply fail_if_ok in H3 as [_ ->].
  unfold end_protected in Hrun, He. simpl in Hrun. rewrite He in Hrun.
  apply M_bind_inv in Hrun as (h2 & p2 & Hst & Hrun).
  apply M_bind_inv in Hst as (e2 & p3 & Hst & [= <- <-]).
  apply epoch_bound in Hst; [|apply Ht0].
  apply M_bind_inv in Hrun as (c1 & p4 & Hc1 & Hrun). apply counter_bound in Hc1.
  change (flags (set_end_epoch _ _)) with (flags (pf_header input)) in Hrun.
  rewrite He in Hrun.
  apply M_bind_inv in Hrun as (c2 & p5 & Hc2 & Hrun). apply counter_bound in Hc2.
  set (h := set_end_counter c2 _) in Hrun.
  apply M_bind_inv in Hrun as (prot & p6 & Hse & Hrun).
  apply M_bind_inv in Hrun as (out & p7 & Hw & Hrun). injection Hrun as <- <- <-.
  exists (mkOpened h prot), p5, p6, p6. simpl.
  split; [done|]. split; [|split; [done|split; [done|split; [done|split; [|done]]]]].
  - assert (Hpl : length prot = (length (pf_payload input) + kAeadTagSize)%nat).
    { unfold Frame.seal_end_layer in Hse.
      apply M_bind_inv in Hse as (aad & q1 & _ & Hse).
      apply M_bind_inv in Hse as ([ct tag] & q2 & Hs & [= <- <-]).
      apply seal_shape in Hs as [? ?]. rewrite length_app. lia. }
    destruct Ht0, Hv. constructor; simpl.
    + constructor; simpl; try assumption; unfold in_range, kMaxCryptoCounter in *; lia.
    + constructor; simpl; try assumption; try lia.
      intros [?|Hb]; [by destruct Hu|]. specialize (hv_broadcast (or_intror Hb)).
      unfold Codec.broadcast_route_ok in hv_broadcast. simpl in hv_broadcast.
      rewrite !andb_true_iff, !bool_decide_eq_true in hv_broadcast. tauto.
    + done.
    + unfold Frame.expected_plain, end_protected. simpl. rewrite He, Hpl.
      rewrite wrap_id by (unfold in_range; lia). lia.
  - simpl. rewrite wrap_id by (unfold in_range; lia). done.
Qed.

(** Opening what [seal_end_layer] protected. *)
Lemma open_seal_end_layer h payload p prot p' (q : P) :
  payload_length h = Z.of_nat (length payload) →
  Frame.seal_end_layer h payload p = (Ok prot, p') →
  (∀ out q', Frame.open_end_layer h prot q = (Ok out, q') → out = payload) ∧
  (sp_fresh q (Codec.end_context h) (end_counter h) →
   ∃ q', Frame.open_end_layer h prot q = (Ok payload, q')).
Proof.
  intros Hlen Hs. unfold Frame.seal_end_layer in Hs.
  apply M_bind_inv in Hs as (aad & p1 & Ha & Hs).
  apply M_bind_inv in Hs as ([ct tag] & p2 & Hs & [= <- <-]).
  injection Ha as Ha ->. pose proof (seal_shape _ _ _ _ _ _ _ _ Hs) as [Hct Htag].
  unfold Frame.open_end_layer. rewrite Ha, Hlen, Nat2Z.id, <- Hct.
  rewrite take_app_length' by done. rewrite drop_app_length' by done.
  rewrite take_ge by lia. split.
  - intros out q' Hrun. apply M_bind_inv in Hrun as (aad' & q1 & Hl & Hrun).
    unfold lift in Hl. inversion Hl; subst. by eapply open_sealed.
  - intros Hq. destruct (open_seal _ _ _ _ _ _ _ _ _ Hs Hq) as [q' Ho].
    exists q'. by erewrite M_bind_ok by reflexivity.
Qed.

(** C4: an end-protected unicast frame that the origin encoded, the first hop
    opened and any number of relays forwarded is opened by its destination to
    exactly the origin's payload and end-immutable header fields, whatever the
    relays did to the hop-mutable ones. *)
Theorem end_to_end_delivery input p enc sealed p' q f q' g n (r : P) :
  header_typed (pf_header input) → next_hop (pf_header input) ≠ kBroadcastNodeId →
  end_protected (pf_header input) = true → type (pf_header input) ≠ FrameType.GroupData →
  Frame.encode_new input p = (Ok (enc, sealed), p') →
  Frame.open_link enc (next_hop (pf_header input)) false q = (Ok f, q') →
  nsteps hop n f g →
  sp_fresh r (Codec.end_context (lo_header g)) (end_counter (lo_header g)) →
  ∃ out r', Frame.open_end g (destination (pf_header input)) r = (Ok out, r') ∧
    pf_payload out = pf_payload input ∧
    (let i := pf_header input in let o := pf_header out in
     type o = type i ∧ flags o = flags i ∧ delivery o = delivery i ∧
     h_network o = h_network i ∧ origin o = origin i ∧ destination o = destination i ∧
     message o = message i ∧ original_lifetime_ms o = original_lifetime_ms i).
Proof.
  intros Ht Hu He Hng Henc Hol Hpath Hfresh.
  destruct (encode_new_inv _ _ _ _ _ Ht Hu He Henc)
    as (f0 & p1 & p2 & p3 & _ & Hf0 & Hse & Hw & Hnx & Hpl & Him).
  rewrite <- Hnx in Hol. rewrite (wrap_open_inv _ _ _ _ _ _ _ Hf0 Hw Hol) in *. clear f Hol.
  destruct (path_spec _ _ _ Hf0 Hpath) as (Hg & Henv & _).
  pose proof Henv as [Hi Hp]. destruct (immutable_end _ _ Hi) as (_ & Hctx & _).
  injection Him as Hty Hfl Hdl Hnet Hor Hde Hms Hlf.
  unfold immutable in Hi. injection Hi as _ Ity Ifl Idl Inet Ior Ide Ims Ilf _ Icnt Ipl.
  destruct (open_seal_end_layer _ _ _ _ _ r Hpl Hse) as [_ Hopen].
  rewrite Hctx, Icnt in Hfresh. destruct (Hopen Hfresh) as [r' Ho].
  rewrite <- (open_end_layer_envelope _ _ r Henv) in Ho.
  assert (Heg : end_protected (lo_header g) = true).
  { unfold end_protected in *. by rewrite Ifl, Hfl. }
  pose proof (fo_length _ Hg) as Hgl. unfold Frame.expected_plain in Hgl. rewrite Heg in Hgl.
  pose proof (Codec.hv_length _ (fo_valid _ Hg)) as Hmax.
  pose proof (ht_length _ (fo_typed _ Hg)) as [Hpos _].
  exists (mkPlain (lo_header g) (pf_payload input)), r'. split; [|simpl; split_and!; by etrans].
  unfold Frame.open_end. rewrite Heg. cbn [negb].
  rewrite (bool_decide_eq_true_2 (destination _ = _)) by (by rewrite Ide, Hde).
  rewrite (bool_decide_eq_false_2 (type _ = _)) by (by rewrite Ity, Hty).
  rewrite (bool_decide_eq_false_2 (_ < payload_length _)) by lia.
  rewrite (bool_decide_eq_false_2 (Z.of_nat kProtectedMax < _))
    by (unfold kProtectedMax, kMaxApplicationPayload, kAeadTagSize in *; lia).
  rewrite (bool_decide_eq_true_2 (_ = payload_length _ + _)) by lia.
  do 4 (erewrite M_bind_ok by reflexivity).
  by erewrite M_bind_ok by exact Ho.
Qed.

End Delivery.

(** ** A provider that meets the contract *)

(** Stores the plaintext and a tag made of the counter, so that the contract
    has a model; it is no cipher. *)
Module TagProvider.

Definition tag_of (ctx : SecurityContext) (c : Z) : list Z := be_bytes 16 (c + epoch ctx).

#[export] Instance provider : SecurityProvider Z := {|
  sp_ready _ := true;
  sp_tx_epoch _ _ e := mret e;
  sp_tx_group_link_epochs b g := mret (b, g);
  sp_next_counter _ := λ c,
    if bool_decide (0 ≤ c ≤ kMaxCryptoCounter) then (Ok c, c + 1)
    else (Err CounterExhausted "counter range exhausted", c);
  sp_seal ctx c _ pt := mret (pt, tag_of ctx c);
  sp_open ctx c _ ct tag :=
    if decide (tag = tag_of ctx c) then mret ct
    else throw AuthenticationFailed "tag mismatch" |}.

#[export] Instance laws : AeadLaws Z.
Proof.
  refine {| sp_fresh _ _ _ := True |}; simpl.
  - intros ctx c aad pt p ct tag p' [= <- <- <-]. split; [done|]. apply length_be_bytes.
  - intros ctx c aad pt p ct tag p' q [= <- <- <-] _. rewrite decide_True by done. eauto.
  - intros ctx c aad pt p ct tag p' q pt' q' [= <- <- <-].
    rewrite decide_True by done. by intros [= <- <-].
  - intros ctx p c p'. case_bool_decide; [by intros [= <- <-]|done].
  - by intros sc peer e p e' p' [= <- <-].
  - by intros b g p b' g' p' [= <- <- <-].
Defined.

Definition header (nxt : Z) : Header :=
  mkHeader FrameType.Data 1 DeliveryClass.Reliable 0 4 kMinor 0 0 7 1 3 1 nxt
    (mkMessageId 9 1) 5000 5000 2 2 0 0.
Definition input : PlainFrame := mkPlain (header 2) [104; 105].

(** Origin 1, relay 2, destination 3. *)
Definition first_hop : list Z * option LinkOpenedFrame :=
  Eval vm_compute in
    match Frame.encode_new input 5 with (Ok r, _) => r | _ => ([], None) end.
Definition at_relay : LinkOpenedFrame :=
  Eval vm_compute in
    match Frame.open_link (fst first_hop) 2 false 0 with
    | (Ok f, _) => f | _ => mkOpened (header 2) [] end.
Definition second_hop : list Z :=
  Eval vm_compute in
    match Frame.forward at_relay 2 3 8 4000 40 with (Ok e, _) => e | _ => [] end.
Definition at_destination : LinkOpenedFrame :=
  Eval vm_compute in
    match Frame.open_link second_hop 3 false 0 with
    | (Ok f, _) => f | _ => mkOpened (header 2) [] end.

Lemma typed : header_typed (header 2).
Proof. constructor; vm_compute; intuition congruence. Qed.

Lemma hop_example : hop at_relay at_destination.
Proof.
  exists 3, 8, 4000, 40, second_hop, 41, 0, 0.
  split_and!; vm_compute; intuition congruence.
Qed.

End TagProvider.

#[local] Existing Instances TagProvider.provider TagProvider.laws.

(** The witness: one relay, evaluated. *)
Lemma end_to_end_delivery_witness :
  ∃ out r', Frame.open_end TagProvider.at_destination 3 0 = (Ok out, r') ∧
    pf_payload out = [104; 105].
Proof.
  destruct (end_to_end_delivery TagProvider.input 5 (fst TagProvider.first_hop)
    (snd TagProvider.first_hop) 7 0 TagProvider.at_relay 0 TagProvider.at_destination 1 0)
    as (out & r' & Hout & Hpay & _).
  - apply TagProvider.typed.
  - by vm_compute.
  - by vm_compute.
  - by vm_compute.
  - by vm_compute.
  - by vm_compute.
  - apply nsteps_once, TagProvider.hop_example.
  - done.
  - by exists out, r'.
Defined.

Lemma hop_budget_witness :
  1 < Z.max 1 (hop_remaining (lo_header TagProvider.at_relay)) ∧
  remaining_deadline_ms (lo_header TagProvider.at_destination) ≤ 5000.
Proof.
  apply (hop_budget 1 TagProvider.at_relay TagProvider.at_destination).
  - constructor.
    + constructor; vm_compute; intuition congruence.
    + by apply Codec.validate_header_ok; vm_compute.
    + by vm_compute.
    + by vm_compute.
  - apply nsteps_once, TagProvider.hop_example.
Defined.
