(* ===== verification/FixedContainers.v ===== *)
(** * Bounded containers (fixed_containers.hpp)

    [Queue] is the ring buffer [FixedQueue]; it refines a list bounded by the
    capacity.  [Pool] is the slot pool [FixedPool]; it refines [Slots], a list
    of optional values, which is the interface the route table, the replay
    table and the checkpoint cache are modelled and proved against. *)

From S2P Require Import Prelude.

Local Open Scope nat_scope.

Module Queue.
Section Queue.
Context {T : Type} (dflt : T) (Capacity : nat).

Record FixedQueue := mkQueue {
  items : list T; head : nat; tail : nat; size : nat }.

Definition empty_queue : FixedQueue := mkQueue (replicate Capacity dflt) 0 0 0.

Definition push (value : T) (q : FixedQueue) : bool * FixedQueue :=
  if size q =? Capacity then (false, q)
  else (true, mkQueue (<[tail q := value]> (items q)) (head q)
                ((tail q + 1) mod Capacity) (size q + 1)).

Definition pop (q : FixedQueue) : option T * FixedQueue :=
  if size q =? 0 then (None, q)
  else (items q !! head q, mkQueue (items q) ((head q + 1) mod Capacity) (tail q) (size q - 1)).

Definition drop (q : FixedQueue) : bool * FixedQueue :=
  if size q =? 0 then (false, q)
  else (true, mkQueue (items q) ((head q + 1) mod Capacity) (tail q) (size q - 1)).

Definition front (q : FixedQueue) : option T :=
  if size q =? 0 then None else items q !! head q.
Definition is_empty (q : FixedQueue) : bool := size q =? 0.
Definition full (q : FixedQueue) : bool := size q =? Capacity.
Definition clear (q : FixedQueue) : FixedQueue := mkQueue (items q) 0 0 0.

(** The abstract value: the live elements in FIFO order. *)
Definition contents (q : FixedQueue) : list T :=
  omap (λ i, items q !! ((head q + i) mod Capacity)) (seq 0 (size q)).

Record queue_ok (q : FixedQueue) : Prop := {
  qo_capacity : 0 < Capacity;
  qo_items : length (items q) = Capacity;
  qo_head : head q < Capacity;
  qo_size : size q ≤ Capacity;
  qo_tail : tail q = (head q + size q) mod Capacity }.

(** Operations as a client issues them, with what it observes. *)
Inductive op := Push (x : T) | Pop | Drop | Front | Clear.
Inductive obs := OBool (b : bool) | OItem (x : option T) | ONone.

Definition step (o : op) (q : FixedQueue) : obs * FixedQueue :=
  match o with
  | Push x => let '(b, q') := push x q in (OBool b, q')
  | Pop => let '(x, q') := pop q in (OItem x, q')
  | Drop => let '(b, q') := drop q in (OBool b, q')
  | Front => (OItem (front q), q)
  | Clear => (ONone, clear q)
  end.

(** The specification: a list of at most [Capacity] elements. *)
Definition spec_step (o : op) (l : list T) : obs * list T :=
  match o with
  | Push x => if length l =? Capacity then (OBool false, l) else (OBool true, l ++ [x])
  | Pop => match l with [] => (OItem None, []) | x :: l' => (OItem (Some x), l') end
  | Drop => match l with [] => (OBool false, []) | _ :: l' => (OBool true, l') end
  | Front => (OItem (list.head l), l)
  | Clear => (ONone, [])
  end.

Definition run {S} (f : op → S → obs * S) (os : list op) (s : S) : list obs :=
  fst (fold_left (λ '(out, s) o, let '(r, s') := f o s in (out ++ [r], s')) os ([], s)).

Lemma empty_ok : 0 < Capacity → queue_ok empty_queue.
Proof.
  intros HC. constructor; simpl; try lia; [apply length_replicate|].
  by rewrite Nat.Div0.mod_0_l.
Qed.

Lemma omap_seq_cons (f : nat → option T) n x :
  f 0 = Some x → omap f (seq 0 (S n)) = x :: omap (λ i, f (S i)) (seq 0 n).
Proof.
  intros Hf. cbn [seq]. csimpl. rewrite Hf. f_equal.
  rewrite <- seq_shift. generalize (seq 0 n). intros l.
  induction l as [|i l IH]; csimpl; [done|]. by rewrite IH.
Qed.

Lemma omap_seq_ext (f g : nat → option T) n :
  (∀ i, i < n → f i = g i) → omap f (seq 0 n) = omap g (seq 0 n).
Proof.
  intros Hfg. assert (Hall : Forall (λ i, f i = g i) (seq 0 n)).
  { apply Forall_forall. intros i Hi%elem_of_seq. apply Hfg. lia. }
  induction Hall as [|i l Hi _ IH]; csimpl; [done|]. by rewrite Hi, IH.
Qed.

Lemma length_omap_seq (f : nat → option T) n :
  (∀ i, i < n → is_Some (f i)) → length (omap f (seq 0 n)) = n.
Proof.
  intros Hf. assert (Hall : Forall (λ i, is_Some (f i)) (seq 0 n)).
  { apply Forall_forall. intros i Hi%elem_of_seq. apply Hf. lia. }
  rewrite <- (length_seq n 0) at 2.
  induction Hall as [|i l [x Hx] _ IH]; csimpl; [done|]. rewrite Hx. csimpl. by rewrite IH.
Qed.

Lemma slot_some q i : queue_ok q → is_Some (items q !! ((head q + i) mod Capacity)).
Proof.
  intros []. apply lookup_lt_is_Some. rewrite qo_items0. apply Nat.mod_upper_bound. lia.
Qed.

Lemma length_contents q : queue_ok q → length (contents q) = size q.
Proof. intros Hq. apply length_omap_seq. intros i _. by apply slot_some. Qed.

Lemma mod_shift a i : 0 < Capacity → ((a + 1) mod Capacity + i) mod Capacity = (a + S i) mod Capacity.
Proof.
  intros HC. rewrite Nat.Div0.add_mod_idemp_l. f_equal. lia.
Qed.

Lemma mod_wrap a :
  0 < Capacity → a < 2 * Capacity →
  a mod Capacity = if a <? Capacity then a else a - Capacity.
Proof.
  intros HC Ha. destruct (Nat.ltb_spec a Capacity); [by apply Nat.mod_small|].
  symmetry. apply Nat.mod_unique with (q := 1); lia.
Qed.

Lemma contents_pop q :
  queue_ok q → size q ≠ 0 →
  ∃ x, items q !! head q = Some x ∧ contents q = x :: contents (snd (drop q)).
Proof.
  intros Hq Hs. pose proof Hq as []. destruct (slot_some q 0 Hq) as [x Hx].
  rewrite Nat.add_0_r, Nat.mod_small in Hx by done. exists x. split; [done|].
  unfold contents, drop. destruct (Nat.eqb_spec (size q) 0); [done|]. simpl.
  destruct (size q) as [|k] eqn:Hk; [done|].
  rewrite (omap_seq_cons _ k x); [|by rewrite Nat.add_0_r, Nat.mod_small].
  f_equal. rewrite Nat.sub_1_r. simpl. apply omap_seq_ext. intros i _. by rewrite mod_shift.
Qed.

Lemma drop_ok q : queue_ok q → queue_ok (snd (drop q)).
Proof.
  intros Hq. pose proof Hq as []. unfold drop.
  destruct (Nat.eqb_spec (size q) 0); simpl; [done|].
  constructor; simpl; try done; [apply Nat.mod_upper_bound; lia|lia|].
  rewrite qo_tail0. destruct (size q) as [|k] eqn:Hk; [done|].
  rewrite Nat.sub_1_r. simpl. rewrite mod_shift by done. done.
Qed.

Lemma contents_push q x :
  queue_ok q → size q ≠ Capacity →
  contents (snd (push x q)) = contents q ++ [x] ∧ queue_ok (snd (push x q)).
Proof.
  intros Hq Hs. pose proof Hq as []. unfold push.
  destruct (Nat.eqb_spec (size q) Capacity); [done|]. simpl.
  assert (Htail : tail q < Capacity) by (rewrite qo_tail0; apply Nat.mod_upper_bound; lia).
  split.
  - unfold contents. simpl. rewrite Nat.add_1_r, seq_S, omap_app. simpl. f_equal.
    + apply omap_seq_ext. intros i Hi. rewrite list_lookup_insert_ne; [done|].
      rewrite qo_tail0. intros Heq.
      rewrite !mod_wrap in Heq by lia.
      destruct (Nat.ltb_spec (head q + size q) Capacity), (Nat.ltb_spec (head q + i) Capacity); lia.
    + rewrite <- qo_tail0, list_lookup_insert_eq by lia. done.
  - constructor; simpl; try done; [by rewrite length_insert|lia|].
    rewrite qo_tail0, Nat.Div0.add_mod_idemp_l. f_equal. lia.
Qed.

Lemma step_refines o q :
  queue_ok q →
  queue_ok (snd (step o q)) ∧
  spec_step o (contents q) = (fst (step o q), contents (snd (step o q))).
Proof.
  intros Hq. pose proof Hq as []. pose proof (length_contents q Hq) as Hlen.
  destruct o; simpl.
  - rewrite Hlen. destruct (Nat.eqb_spec (size q) Capacity) as [He|He].
    + unfold push. by rewrite He, Nat.eqb_refl.
    + destruct (contents_push q x Hq He) as [Hc Ho].
      unfold push in *. destruct (Nat.eqb_spec (size q) Capacity); [done|]. simpl in *.
      by rewrite Hc.
  - destruct (Nat.eq_dec (size q) 0) as [Hz|Hz].
    + unfold pop. rewrite Hz. simpl. split; [done|].
      by rewrite (nil_length_inv (contents q)) by lia.
    + destruct (contents_pop q Hq Hz) as (x & Hx & Hc). rewrite Hc.
      pose proof (drop_ok q Hq). unfold drop, pop in *.
      destruct (Nat.eqb_spec (size q) 0); [done|]. simpl in *. by rewrite Hx.
  - destruct (Nat.eq_dec (size q) 0) as [Hz|Hz].
    + unfold drop. rewrite Hz. simpl. split; [done|].
      by rewrite (nil_length_inv (contents q)) by lia.
    + destruct (contents_pop q Hq Hz) as (x & Hx & Hc). rewrite Hc.
      pose proof (drop_ok q Hq). unfold drop in *.
      destruct (Nat.eqb_spec (size q) 0); [done|]. simpl in *. done.
  - split; [done|]. unfold front. destruct (Nat.eqb_spec (size q) 0) as [Hz|Hz].
    + by rewrite (nil_length_inv (contents q)) by lia.
    + destruct (contents_pop q Hq Hz) as (x & Hx & Hc). by rewrite Hc, Hx.
  - split; [|done]. constructor; simpl; try done; [lia|].
    by rewrite Nat.Div0.mod_0_l.
Qed.

(** The ring buffer is observationally a bounded FIFO: for every sequence of
    operations a client sees what the list specification shows. *)
Lemma queue_refinement os :
  0 < Capacity → run step os empty_queue = run spec_step os [].
Proof.
  intros HC. unfold run.
  assert (Hgen : ∀ os out q, queue_ok q →
    fst (fold_left (λ '(out, s) o, let '(r, s') := step o s in (out ++ [r], s')) os (out, q)) =
    fst (fold_left (λ '(out, s) o, let '(r, s') := spec_step o s in (out ++ [r], s')) os
           (out, contents q))).
  { clear os. induction os as [|o os IH]; intros out q Hq; simpl; [done|].
    destruct (step_refines o q Hq) as [Hok Heq].
    destruct (step o q) as [r q'], (spec_step o (contents q)) as [r' l'].
    simpl in *. injection Heq as -> ->. by apply IH. }
  rewrite Hgen by (by apply empty_ok). f_equal.
Qed.

End Queue.
Arguments FixedQueue : clear implicits.

(** Seven operations on a queue of two slots, wrapping around. *)
Lemma queue_refinement_witness :
  0 < 2 ∧
  run (step 2) [Push 1; Push 2; Push 3; Pop; Push 4; Front; Pop]%Z (empty_queue 0%Z 2) =
  run (spec_step 2) [Push 1; Push 2; Push 3; Pop; Push 4; Front; Pop]%Z [].
Proof. split; [lia|]. apply (queue_refinement 0%Z 2). lia. Defined.

End Queue.

(** ** Slot pools *)

(** The interface: a fixed row of slots, each free or holding a value.  A
    pointer into the pool is the index of its slot. *)
Module Slots.

Abbreviation slots T := (list (option T)).

Section Slots.
Context {T : Type}.

Fixpoint find (predicate : T → bool) (s : slots T) : option nat :=
  match s with
  | [] => None
  | Some x :: s' => if predicate x then Some 0 else S <$> find predicate s'
  | None :: s' => S <$> find predicate s'
  end.

Fixpoint first_free (s : slots T) : option nat :=
  match s with
  | [] => None
  | None :: _ => Some 0
  | Some _ :: s' => S <$> first_free s'
  end.

Definition at_ (i : nat) (s : slots T) : option T := s !! i ≫= id.

Definition allocate (dflt : T) (s : slots T) : option nat * slots T :=
  match first_free s with
  | Some i => (Some i, <[i := Some dflt]> s)
  | None => (None, s)
  end.

(** [release]: false for a foreign pointer or a slot that is not in use. *)
Definition release (i : nat) (s : slots T) : bool * slots T :=
  match s !! i with
  | Some (Some _) => (true, <[i := None]> s)
  | _ => (false, s)
  end.

Definition erase_if (predicate : T → bool) (s : slots T) : nat * slots T :=
  (length (filter (λ o, from_option predicate false o = true) s),
   (λ o, match o with Some x => if predicate x then None else Some x | None => None end) <$> s).

(** [for_each] with a body that assigns through the reference. *)
Definition for_each (f : T → T) (s : slots T) : slots T := option_map f <$> s.

(** Assigning through a pointer returned by [find] or [allocate]. *)
Definition set (i : nat) (x : T) (s : slots T) : slots T := <[i := Some x]> s.

Definition size (s : slots T) : nat := length (filter is_Some s).

Definition clear (s : slots T) : slots T := (λ _, None) <$> s.

Definition live (s : slots T) : list T := omap id s.

Lemma find_Some p s i :
  find p s = Some i →
  ∃ x, s !! i = Some (Some x) ∧ p x = true ∧
    ∀ j y, j < i → s !! j = Some (Some y) → p y = false.
Proof.
  revert i. induction s as [|[x|] s IH]; intros i; simpl; [done| |].
  - destruct (p x) eqn:Hp.
    + intros [= <-]. exists x. split; [done|]. split; [done|]. intros j y Hj. lia.
    + intros (k & Hk & ->)%fmap_Some. destruct (IH k Hk) as (y & ? & ? & Hmin).
      exists y. split; [done|]. split; [done|].
      intros [|j] z Hj Hz; [by injection Hz as <-|]. eapply (Hmin j); [lia|done].
  - intros (k & Hk & ->)%fmap_Some. destruct (IH k Hk) as (y & ? & ? & Hmin).
    exists y. split; [done|]. split; [done|].
    intros [|j] z Hj Hz; [done|]. eapply (Hmin j); [lia|done].
Qed.

Lemma find_None p s :
  find p s = None ↔ ∀ j y, s !! j = Some (Some y) → p y = false.
Proof.
  induction s as [|[x|] s IH]; simpl; [done| |].
  - destruct (p x) eqn:Hp; [|rewrite fmap_None, IH].
    + split; [done|]. intros Hall. rewrite (Hall 0 x) in Hp; done.
    + split; intros Hall; [intros [|j] y Hy; [by injection Hy as <-|by eapply Hall]|].
      intros j y Hy. by apply (Hall (S j)).
  - rewrite fmap_None, IH. split; intros Hall; [intros [|j] y Hy; [done|by eapply Hall]|].
    intros j y Hy. by apply (Hall (S j)).
Qed.

Lemma first_free_Some s i : first_free s = Some i → s !! i = Some None.
Proof.
  revert i. induction s as [|[x|] s IH]; intros i; simpl; [done| |].
  - intros (k & Hk & ->)%fmap_Some. by apply IH.
  - by intros [= <-].
Qed.

Lemma first_free_None s : first_free s = None → ∀ i, s !! i ≠ Some None.
Proof.
  induction s as [|[x|] s IH]; simpl; [done| |done].
  intros Hn%fmap_None [|i]; [done|]. by apply IH.
Qed.

End Slots.
End Slots.

(** Reading a slot. *)
Lemma at_lookup {T} (p : Slots.slots T) i x : Slots.at_ i p = Some x ↔ p !! i = Some (Some x).
Proof. unfold Slots.at_. destruct (p !! i) as [[y|]|]; cbn; naive_solver. Qed.
Lemma at_lt {T} (p : Slots.slots T) i x : Slots.at_ i p = Some x → i < length p.
Proof. unfold Slots.at_. destruct (p !! i) eqn:Hp; [|done]. by apply lookup_lt_Some in Hp. Qed.
Lemma at_set {T} (p : Slots.slots T) i j (v : T) :
  i < length p → Slots.at_ j (Slots.set i v p) = if decide (j = i) then Some v else Slots.at_ j p.
Proof.
  intros Hi. unfold Slots.at_, Slots.set. destruct (decide (j = i)) as [->|Hne].
  - by rewrite list_lookup_insert_eq.
  - by rewrite list_lookup_insert_ne.
Qed.

Module Pool.
Section Pool.
Context {T : Type} (dflt : T) (Capacity : nat).

(** [FixedPool]: the element array and the occupancy flags. *)
Record FixedPool := mkPool { items : list T; used : list bool }.

Definition empty_pool : FixedPool := mkPool (replicate Capacity dflt) (replicate Capacity false).

(** The scans [for (i = 0; i < Capacity; ++i)]. *)
Fixpoint scan (test : nat → bool) (i n : nat) : option nat :=
  match n with
  | O => None
  | S k => if test i then Some i else scan test (S i) k
  end.

Definition is_used (p : FixedPool) (i : nat) : bool := default false (used p !! i).
Definition item (p : FixedPool) (i : nat) : T := default dflt (items p !! i).

Definition find (predicate : T → bool) (p : FixedPool) : option nat :=
  scan (λ i, is_used p i && predicate (item p i)) 0 Capacity.

Definition allocate (p : FixedPool) : option nat * FixedPool :=
  match scan (λ i, negb (is_used p i)) 0 Capacity with
  | Some i => (Some i, mkPool (<[i := dflt]> (items p)) (<[i := true]> (used p)))
  | None => (None, p)
  end.

Definition release (i : nat) (p : FixedPool) : bool * FixedPool :=
  if i <? Capacity then
    if is_used p i then (true, mkPool (<[i := dflt]> (items p)) (<[i := false]> (used p)))
    else (false, p)
  else (false, p).

(** [erase_if], one slot-order pass. *)
Fixpoint erase_loop (predicate : T → bool) (i n erased : nat) (p : FixedPool) : nat * FixedPool :=
  match n with
  | O => (erased, p)
  | S k =>
      if negb (is_used p i) || negb (predicate (item p i)) then erase_loop predicate (S i) k erased p
      else erase_loop predicate (S i) k (S erased)
             (mkPool (<[i := dflt]> (items p)) (<[i := false]> (used p)))
  end.
Definition erase_if (predicate : T → bool) (p : FixedPool) : nat * FixedPool :=
  erase_loop predicate 0 Capacity 0 p.

Fixpoint for_each_loop (f : T → T) (i n : nat) (p : FixedPool) : FixedPool :=
  match n with
  | O => p
  | S k => for_each_loop f (S i) k
             (if is_used p i then mkPool (<[i := f (item p i)]> (items p)) (used p) else p)
  end.
Definition for_each (f : T → T) (p : FixedPool) : FixedPool := for_each_loop f 0 Capacity p.

Definition size (p : FixedPool) : nat := length (filter (λ b, b = true) (used p)).

Definition clear (p : FixedPool) : FixedPool :=
  mkPool (zip_with (λ (b : bool) x, if b then dflt else x) (used p) (items p))
         ((λ _ : bool, false) <$> used p).

Definition at_ (i : nat) (p : FixedPool) : option T :=
  if (Capacity <=? i) || negb (is_used p i) then None else items p !! i.

Record pool_ok (p : FixedPool) : Prop := {
  po_items : length (items p) = Capacity;
  po_used : length (used p) = Capacity }.

(** The slots a pool stands for. *)
Definition view (p : FixedPool) : Slots.slots T :=
  zip_with (λ (b : bool) x, if b then Some x else None) (used p) (items p).

(** ** The pool refines its slots *)

Lemma view_lookup p i :
  view p !! i = (b ← used p !! i; x ← items p !! i; Some (if b : bool then Some x else None)).
Proof. unfold view. by rewrite lookup_zip_with. Qed.

Lemma length_view p : pool_ok p → length (view p) = Capacity.
Proof. intros []. unfold view. rewrite length_zip_with. lia. Qed.

Lemma view_insert p i (b : bool) x :
  pool_ok p → i < Capacity →
  view (mkPool (<[i := x]> (items p)) (<[i := b]> (used p))) =
  <[i := if b then Some x else None]> (view p).
Proof.
  intros [] Hi. unfold view. simpl. symmetry.
  apply (insert_zip_with (λ (b : bool) x, if b then Some x else None)).
Qed.

Lemma pool_ok_insert p i (b : bool) x :
  pool_ok p → pool_ok (mkPool (<[i := x]> (items p)) (<[i := b]> (used p))).
Proof. intros []. constructor; simpl; by rewrite length_insert. Qed.

Lemma view_slot p i :
  pool_ok p → i < Capacity →
  view p !! i = Some (if is_used p i then Some (item p i) else None).
Proof.
  intros [] Hi. rewrite view_lookup. unfold is_used, item.
  destruct (lookup_lt_is_Some_2 (used p) i) as [b Hb]; [lia|].
  destruct (lookup_lt_is_Some_2 (items p) i) as [x Hx]; [lia|].
  by rewrite Hb, Hx.
Qed.

(** A scan over the suffix of a row of slots. *)
Lemma scan_find (pr : T → bool) p i n :
  pool_ok p → i + n = Capacity →
  scan (λ j, is_used p j && pr (item p j)) i n =
  (λ k, i + k) <$> Slots.find pr (drop i (view p)).
Proof.
  intros Hp. revert i. induction n as [|n IH]; intros i Hi; simpl.
  { rewrite drop_ge by (rewrite length_view; [lia|done]). done. }
  rewrite (drop_S (view p) (if is_used p i then Some (item p i) else None) i)
    by (apply view_slot; [done|lia]).
  rewrite (IH (S i)) by lia.
  destruct (is_used p i) eqn:Hu; simpl; [destruct (pr (item p i)); simpl|].
  - f_equal. lia.
  - rewrite <- option_fmap_compose. apply option_fmap_ext. intros k. simpl. lia.
  - rewrite <- option_fmap_compose. apply option_fmap_ext. intros k. simpl. lia.
Qed.

Lemma scan_free p i n :
  pool_ok p → i + n = Capacity →
  scan (λ j, negb (is_used p j)) i n = (λ k, i + k) <$> Slots.first_free (drop i (view p)).
Proof.
  intros Hp. revert i. induction n as [|n IH]; intros i Hi; simpl.
  { rewrite drop_ge by (rewrite length_view; [lia|done]). done. }
  rewrite (drop_S (view p) (if is_used p i then Some (item p i) else None) i)
    by (apply view_slot; [done|lia]).
  rewrite (IH (S i)) by lia.
  destruct (is_used p i) eqn:Hu; simpl.
  - rewrite <- option_fmap_compose. apply option_fmap_ext. intros k. simpl. lia.
  - f_equal. lia.
Qed.

Lemma find_view pr p : pool_ok p → find pr p = Slots.find pr (view p).
Proof.
  intros Hp. unfold find. rewrite scan_find by done. rewrite drop_0. by destruct (Slots.find pr (view p)).
Qed.

Lemma allocate_view p :
  pool_ok p →
  Slots.allocate dflt (view p) = (fst (allocate p), view (snd (allocate p))) ∧
  pool_ok (snd (allocate p)).
Proof.
  intros Hp. unfold allocate, Slots.allocate. rewrite scan_free, drop_0 by done.
  destruct (Slots.first_free (view p)) as [i|] eqn:Hf; simpl; [|done].
  apply Slots.first_free_Some, lookup_lt_Some in Hf. rewrite length_view in Hf by done.
  split; [|by apply pool_ok_insert]. by rewrite view_insert.
Qed.

Lemma release_view i p :
  pool_ok p →
  Slots.release i (view p) = (fst (release i p), view (snd (release i p))) ∧
  pool_ok (snd (release i p)).
Proof.
  intros Hp. unfold release, Slots.release.
  destruct (Nat.ltb_spec i Capacity).
  - rewrite view_slot by done. destruct (is_used p i); simpl; [|done].
    split; [|by apply pool_ok_insert]. by rewrite view_insert.
  - rewrite lookup_ge_None_2 by (rewrite length_view; done). done.
Qed.

Lemma for_each_loop_view f i n p :
  pool_ok p → i + n = Capacity →
  pool_ok (for_each_loop f i n p) ∧
  view (for_each_loop f i n p) = take i (view p) ++ Slots.for_each f (drop i (view p)).
Proof.
  revert i p. induction n as [|n IH]; intros i p Hp Hi; simpl.
  { split; [done|]. rewrite take_ge, drop_ge by (rewrite length_view; [lia|done]).
    by rewrite app_nil_r. }
  set (p' := if is_used p i then _ else p).
  assert (Hp' : pool_ok p').
  { subst p'. destruct (is_used p i); [|done]. destruct Hp; constructor; simpl; [|done].
    by rewrite length_insert. }
  assert (Hv : view p' = <[i := option_map f (if is_used p i then Some (item p i) else None)]> (view p)).
  { subst p'. destruct (is_used p i) eqn:Hu; simpl.
    - rewrite <- (view_insert p i true) by (done || lia). unfold view; simpl.
      f_equal. symmetry. apply list_insert_id. unfold is_used in Hu. by destruct (used p !! i) as [[]|].
    - symmetry. apply list_insert_id. rewrite view_slot by (done || lia). by rewrite Hu. }
  destruct (IH (S i) p' Hp') as [Hok ->]; [lia|]. split; [done|].
  assert (Hlen : i < length (view p)) by (rewrite length_view; [lia|done]).
  rewrite Hv. rewrite (drop_S (view p) _ i (view_slot p i Hp ltac:(lia))). simpl.
  rewrite drop_insert_lt by lia.
  rewrite (take_S_r _ _ (option_map f (if is_used p i then Some (item p i) else None)))
    by (by rewrite list_lookup_insert_eq).
  rewrite take_insert_ge by lia. by rewrite <- app_assoc.
Qed.

Lemma for_each_view f p :
  pool_ok p → pool_ok (for_each f p) ∧ view (for_each f p) = Slots.for_each f (view p).
Proof.
  intros Hp. destruct (for_each_loop_view f 0 Capacity p Hp) as [Hok Hv]; [lia|].
  split; [done|]. unfold for_each. by rewrite Hv.
Qed.

Lemma erase_loop_view pr i n e p :
  pool_ok p → i + n = Capacity →
  pool_ok (snd (erase_loop pr i n e p)) ∧
  fst (erase_loop pr i n e p) = e + fst (Slots.erase_if pr (drop i (view p))) ∧
  view (snd (erase_loop pr i n e p)) = take i (view p) ++ snd (Slots.erase_if pr (drop i (view p))).
Proof.
  revert i e p. induction n as [|n IH]; intros i e p Hp Hi; simpl.
  { split; [done|]. rewrite take_ge, drop_ge by (rewrite length_view; [lia|done]).
    simpl. rewrite app_nil_r. split; [lia|done]. }
  assert (Hlen : i < length (view p)) by (rewrite length_view; [lia|done]).
  pose proof (view_slot p i Hp ltac:(lia)) as Hs.
  rewrite (drop_S (view p) _ i Hs).
  destruct (is_used p i && pr (item p i)) eqn:Hb.
  - apply andb_true_iff in Hb as [Hu Hpr]. rewrite Hu, Hpr. simpl.
    set (p' := mkPool _ _). assert (Hp' : pool_ok p') by (by apply pool_ok_insert).
    assert (Hv : view p' = <[i := None]> (view p)) by (apply (view_insert p i false); [done|lia]).
    destruct (IH (S i) (S e) p' Hp') as (Hok & Hc & ->); [lia|].
    rewrite Hc, Hv, drop_insert_lt by lia. split; [done|].
    rewrite filter_cons_True by done. cbn [length]. split; [simpl; lia|].
    rewrite (take_S_r _ _ None) by (by rewrite list_lookup_insert_eq).
    rewrite take_insert_ge by lia. rewrite <- app_assoc. simpl. by rewrite Hpr.
  - replace (negb (is_used p i) || negb (pr (item p i))) with true
      by (destruct (is_used p i), (pr (item p i)); done).
    destruct (IH (S i) e p Hp) as (Hok & Hc & ->); [lia|].
    rewrite Hc. split; [done|].
    rewrite (take_S_r _ _ _ Hs), <- app_assoc. simpl.
    destruct (is_used p i); simpl in *;
      [rewrite Hb; rewrite filter_cons_False by (simpl; congruence)
      |rewrite filter_cons_False by done]; done.
Qed.

Lemma erase_if_view pr p :
  pool_ok p →
  Slots.erase_if pr (view p) = (fst (erase_if pr p), view (snd (erase_if pr p))) ∧
  pool_ok (snd (erase_if pr p)).
Proof.
  intros Hp. destruct (erase_loop_view pr 0 Capacity 0 p Hp) as (Hok & Hc & Hv); [lia|].
  split; [|done]. unfold erase_if. rewrite Hc, Hv, drop_0. by destruct (Slots.erase_if pr (view p)).
Qed.

Lemma size_view p : pool_ok p → size p = Slots.size (view p).
Proof.
  intros [Hi Hu]. unfold size, Slots.size, view. rewrite <- Hu in Hi. clear Hu.
  revert Hi. generalize (items p). induction (used p) as [|b us IH]; intros [|x xs] Hi;
    csimpl in *; try done.
  injection Hi as Hi. rewrite !filter_cons. destruct b; simpl.
  - rewrite (IH xs Hi). done.
  - rewrite (IH xs Hi). done.
Qed.

Lemma clear_view p : pool_ok p → pool_ok (clear p) ∧ view (clear p) = Slots.clear (view p).
Proof.
  intros [Hi Hu]. unfold clear. split.
  { constructor; simpl; [rewrite length_zip_with|rewrite length_fmap]; lia. }
  unfold view, Slots.clear. simpl. rewrite <- Hu in Hi. clear Hu.
  revert Hi. generalize (items p). induction (used p) as [|b us IH]; intros [|x xs] Hi;
    csimpl in *; try done.
  f_equal. apply IH. lia.
Qed.

(** On every reachable pool, each operation returns what the slot interface
    returns and leaves a pool that stands for the slots the interface leaves. *)
Lemma pool_refinement p :
  pool_ok p →
  (∀ pr, find pr p = Slots.find pr (view p)) ∧
  Slots.allocate dflt (view p) = (fst (allocate p), view (snd (allocate p))) ∧
  (∀ i, Slots.release i (view p) = (fst (release i p), view (snd (release i p)))) ∧
  (∀ pr, Slots.erase_if pr (view p) = (fst (erase_if pr p), view (snd (erase_if pr p)))) ∧
  (∀ f, view (for_each f p) = Slots.for_each f (view p)) ∧
  (∀ i, at_ i p = Slots.at_ i (view p)) ∧
  size p = Slots.size (view p) ∧ view (clear p) = Slots.clear (view p) ∧ pool_ok (clear p) ∧
  pool_ok (snd (allocate p)) ∧ (∀ i, pool_ok (snd (release i p))) ∧
  (∀ pr, pool_ok (snd (erase_if pr p))) ∧ (∀ f, pool_ok (for_each f p)).
Proof.
  intros Hp. split_and!; intros;
    try (by apply find_view); try (by apply allocate_view); try (by apply release_view);
    try (by apply erase_if_view); try (by apply for_each_view);
    try (by apply size_view); try (by apply clear_view).
  unfold at_, Slots.at_. destruct (Nat.leb_spec Capacity i); simpl.
  - rewrite lookup_ge_None_2 by (rewrite length_view; done). done.
  - rewrite view_slot by done. unfold item. destruct (is_used p i); simpl; [|done].
    destruct (lookup_lt_is_Some_2 (items p) i) as [x Hx]; [by rewrite (po_items p Hp)|].
    by rewrite Hx.
Qed.

End Pool.
Arguments FixedPool : clear implicits.

(** A pool of three slots with the middle one in use. *)
Lemma pool_refinement_witness :
  let p := mkPool [0; 7; 0]%Z [false; true; false] in
  pool_ok 3 p ∧ find 0%Z 3 (λ x, bool_decide (x = 7%Z)) p = Slots.find (λ x, bool_decide (x = 7%Z)) (view p) ∧
  view (snd (allocate 0%Z 3 p)) = [Some 0; Some 7; None]%Z.
Proof.
  intros p. assert (Hp : pool_ok 3 p) by (constructor; reflexivity).
  destruct (pool_refinement 0%Z 3 p Hp) as (Hfind & Halloc & _).
  split; [exact Hp|]. split; [apply Hfind|reflexivity].
Defined.
End Pool.
