(* ===== verification/Crc32.v ===== *)
(** * CRC-32/ISO-HDLC (crc32.cpp)

    The checksum of the persisted counter and replay records and of the USB
    frames, as the bitwise loop of the source, and the error-detection fact
    the stores rely on. *)

From S2P Require Import Prelude.

Definition kCrcPolynomial : Z := 0xEDB88320.

(** [0U - (crc & 1U)] selects the polynomial when the low bit is set. *)
Definition crc_shift (crc : Z) : Z :=
  Z.lxor (Z.shiftr crc 1) (Z.land kCrcPolynomial (u32 (0 - Z.land crc 1))).

Definition crc_byte (crc b : Z) : Z :=
  Nat.iter 8 crc_shift (Z.lxor crc b).

Definition crc_register (crc : Z) (data : list Z) : Z := fold_left crc_byte data crc.

Definition crc32_iso_hdlc (data : list Z) : Z :=
  Z.lxor (crc_register 0xFFFFFFFF data) 0xFFFFFFFF.

(** The check value of CRC-32/ISO-HDLC, on the digits 1 to 9. *)
Example crc32_check_value :
  crc32_iso_hdlc [0x31; 0x32; 0x33; 0x34; 0x35; 0x36; 0x37; 0x38; 0x39] = 0xCBF43926.
Proof. by vm_compute. Qed.

(** ** The register update loses no information *)

Lemma range_testbit w x i : 0 ≤ w → in_range w x → w ≤ i → Z.testbit x i = false.
Proof.
  intros Hw Hx Hi. rewrite <- (wrap_id w x Hx). unfold wrap.
  apply Z.mod_pow2_bits_high. lia.
Qed.

Lemma testbit_range w x :
  0 ≤ w → 0 ≤ x → (∀ i, w ≤ i → Z.testbit x i = false) → in_range w x.
Proof.
  intros Hw Hx Hbits. assert (x = wrap w x) as ->; [|by apply wrap_range].
  apply Z.bits_inj'. intros i Hi. unfold wrap. destruct (Z.lt_ge_cases i w).
  - by rewrite Z.mod_pow2_bits_low.
  - rewrite Z.mod_pow2_bits_high by lia. by apply Hbits.
Qed.

Lemma lxor_range w x y : 0 ≤ w → in_range w x → in_range w y → in_range w (Z.lxor x y).
Proof.
  intros Hw Hx Hy. apply testbit_range; [done| |].
  - apply Z.lxor_nonneg. destruct Hx, Hy. lia.
  - intros i Hi. rewrite Z.lxor_spec, !(range_testbit w) by done. done.
Qed.

Lemma lxor_inj_l x y z : Z.lxor x z = Z.lxor y z → x = y.
Proof.
  intros H. apply (f_equal (λ t, Z.lxor t z)) in H.
  by rewrite !Z.lxor_assoc, Z.lxor_nilpotent, !Z.lxor_0_r in H.
Qed.

Definition crc_mask (crc : Z) : Z := Z.land kCrcPolynomial (u32 (0 - Z.land crc 1)).

Lemma crc_mask_cases crc : crc_mask crc = if Z.testbit crc 0 then kCrcPolynomial else 0.
Proof.
  unfold crc_mask. change 1 with (Z.ones 1). rewrite Z.land_ones by lia.
  change (2 ^ 1) with 2. rewrite Z.bit0_odd. rewrite Zmod_odd.
  by destruct (Z.odd crc).
Qed.

Lemma crc_shift_range crc : is_u32 crc → is_u32 (crc_shift crc).
Proof.
  intros [Hlo Hhi]. unfold crc_shift. fold (crc_mask crc). apply lxor_range; [done| |].
  - rewrite Z.shiftr_div_pow2 by lia. change (2 ^ 1) with 2. split.
    + apply Z.div_pos; lia.
    + apply Z.div_lt_upper_bound; lia.
  - rewrite crc_mask_cases. destruct (Z.testbit crc 0); by vm_compute.
Qed.

Lemma crc_shift_inj a b : is_u32 a → is_u32 b → crc_shift a = crc_shift b → a = b.
Proof.
  intros Ha Hb Heq. unfold crc_shift in Heq. fold (crc_mask a) (crc_mask b) in Heq.
  assert (Htop : ∀ x, is_u32 x → Z.testbit (Z.lxor (Z.shiftr x 1) (crc_mask x)) 31 = Z.testbit x 0).
  { intros x Hx. rewrite Z.lxor_spec, Z.shiftr_spec by lia.
    rewrite (range_testbit 32 x) by (done || lia). rewrite crc_mask_cases.
    by destruct (Z.testbit x 0). }
  assert (Hbit : Z.testbit a 0 = Z.testbit b 0) by (rewrite <- !Htop by done; by rewrite Heq).
  rewrite !crc_mask_cases, Hbit in Heq. apply lxor_inj_l in Heq.
  apply Z.bits_inj'. intros i Hi. destruct (Z.eq_dec i 0) as [->|]; [done|].
  replace i with (i - 1 + 1) by lia. rewrite <- !Z.shiftr_spec by lia. by rewrite Heq.
Qed.

Lemma crc_iter_range n crc : is_u32 crc → is_u32 (Nat.iter n crc_shift crc).
Proof. intros. induction n; simpl; [done|]. by apply crc_shift_range. Qed.

Lemma crc_iter_inj n a b :
  is_u32 a → is_u32 b → Nat.iter n crc_shift a = Nat.iter n crc_shift b → a = b.
Proof.
  intros Ha Hb. induction n; simpl; [done|]. intros Heq%crc_shift_inj; [auto| |];
    by apply crc_iter_range.
Qed.

Lemma crc_byte_eq crc b : crc_byte crc b = Nat.iter 8 crc_shift (Z.lxor crc b).
Proof. reflexivity. Qed.

Lemma u8_u32 b : is_u8 b → is_u32 b.
Proof. apply in_range_mono. lia. Qed.

Lemma crc_byte_range crc b : is_u32 crc → is_u8 b → is_u32 (crc_byte crc b).
Proof. intros. apply crc_iter_range, lxor_range; [done|done|by apply u8_u32]. Qed.

Lemma crc_byte_inj_reg a a' b :
  is_u32 a → is_u32 a' → is_u8 b → crc_byte a b = crc_byte a' b → a = a'.
Proof.
  intros Ha Ha' Hb Heq. rewrite !crc_byte_eq in Heq.
  apply (lxor_inj_l _ _ b), (crc_iter_inj 8); [..|exact Heq];
    apply lxor_range; auto using u8_u32; done.
Qed.

Lemma crc_byte_inj_data a b b' :
  is_u32 a → is_u8 b → is_u8 b' → crc_byte a b = crc_byte a b' → b = b'.
Proof.
  intros Ha Hb Hb' Heq. rewrite !crc_byte_eq in Heq.
  apply (lxor_inj_l _ _ a). rewrite !(Z.lxor_comm _ a).
  apply (crc_iter_inj 8); [..|exact Heq]; apply lxor_range; auto using u8_u32; done.
Qed.

Lemma crc_register_range crc data : is_u32 crc → bytes_ok data → is_u32 (crc_register crc data).
Proof.
  intros Hc Hd. revert crc Hc. induction Hd; intros; simpl; [done|].
  apply IHHd. by apply crc_byte_range.
Qed.

Lemma crc_register_inj a b data :
  is_u32 a → is_u32 b → bytes_ok data → crc_register a data = crc_register b data → a = b.
Proof.
  intros Ha Hb Hd. revert a b Ha Hb. induction Hd as [|x l Hx Hl IH]; intros a b Ha Hb; simpl; [done|].
  intros Heq%IH; [by eapply crc_byte_inj_reg| |]; by apply crc_byte_range.
Qed.

Lemma crc_register_split crc pre b post :
  crc_register crc (pre ++ [b] ++ post) = crc_register (crc_byte (crc_register crc pre) b) post.
Proof. unfold crc_register. by rewrite !fold_left_app. Qed.

Lemma crc32_range data : bytes_ok data → is_u32 (crc32_iso_hdlc data).
Proof. intros. apply lxor_range; [done|by apply crc_register_range|done]. Qed.

(** Two messages that differ in one byte, at any position, have
    different checksums, so a record with a damaged byte never verifies. *)
Lemma crc32_detects_byte_change pre b b' post :
  bytes_ok (pre ++ [b] ++ post) → is_u8 b' → b ≠ b' →
  crc32_iso_hdlc (pre ++ [b] ++ post) ≠ crc32_iso_hdlc (pre ++ [b'] ++ post).
Proof.
  intros Hok Hb' Hne Heq. unfold crc32_iso_hdlc in Heq. apply lxor_inj_l in Heq.
  rewrite !crc_register_split in Heq.
  apply Forall_app in Hok as [Hpre Hok]. apply Forall_cons in Hok as [Hb Hpost].
  assert (Hr : is_u32 (crc_register 0xFFFFFFFF pre)) by (by apply crc_register_range).
  apply crc_register_inj in Heq; [|by apply crc_byte_range|by apply crc_byte_range|done].
  apply Hne. by eapply crc_byte_inj_data.
Qed.

(** Proofs about records never compute the checksum. *)
#[global] Opaque crc32_iso_hdlc.
