(* ===== verification/Counter.v ===== *)
(** * Transmit counters (counter_store.hpp, counter_store.cpp)

    A counter is half of an AES-GCM nonce, so no counter may be issued twice
    under one key epoch.  This file models the persisted record and its CRC,
    the store as an interface with its contract ([CounterStore],
    [CounterStoreLaws]), the lease that reserves blocks ahead of issuing
    ([Lease]), the RAM cache of checkpoints of evicted leases ([Cache]), and a
    node that runs any number of leases over one store through evictions,
    failed or torn commits and power cycles ([System]). *)

From S2P Require Import Prelude Types FixedContainers Crc32.

Record CounterRecord := mkCounterRecord {
  cr_context_id : Z; cr_key_epoch : Z; cr_direction : Z; cr_layout : Z;
  cr_reserved : list Z; cr_high_water_exclusive : Z; cr_generation : Z; cr_crc : Z }.

#[global] Instance CounterRecord_eq_dec : EqDecision CounterRecord.
Proof. solve_decision. Defined.

Definition kCounterRecordLayout : Z := 2.

(** The 28 bytes before the [crc] member, as they lie in memory. *)
Definition counter_record_image (r : CounterRecord) : list Z :=
  le_bytes 4 (cr_context_id r) ++ le_bytes 4 (cr_key_epoch r) ++
  [cr_direction r; cr_layout r] ++ cr_reserved r ++
  le_bytes 8 (cr_high_water_exclusive r) ++ le_bytes 4 (cr_generation r).

Definition counter_record_crc (r : CounterRecord) : Z :=
  crc32_iso_hdlc (counter_record_image r).

Definition counter_record_intact (r : CounterRecord) : bool :=
  bool_decide (cr_crc r = counter_record_crc r) &&
  bool_decide (cr_layout r = kCounterRecordLayout).

Definition counter_record_typed (r : CounterRecord) : Prop :=
  is_u32 (cr_key_epoch r) ∧ is_u64 (cr_high_water_exclusive r).

(** [CounterStore]: the abstract class, over the type of store states.
    [restart] is a power cycle followed by opening the store for a boot
    session. *)
Class CounterStore (ST : Type) := {
  store_load : Z → M ST (option CounterRecord);
  store_commit : Z → CounterRecord → M ST unit;
  store_restart : Z → ST → ST }.

(** The durable records of a store after an operation on [slot]: a commit
    that succeeds is durable; one that fails has left the old record, the new
    one, or a torn record that does not verify. *)
Definition commit_outcome (v v' : gmap Z CounterRecord) (slot : Z) (r : CounterRecord) : Prop :=
  v' = v ∨ v' = <[slot := r]> v ∨
  ∃ torn, counter_record_intact torn = false ∧ v' = <[slot := torn]> v.

(** The contract a store keeps.  [store_dead] bounds the epochs whose records
    the store may have dropped; it refuses to commit at or below it. *)
Class CounterStoreLaws (ST : Type) `{CounterStore ST} := {
  store_view : ST → gmap Z CounterRecord;
  store_dead : ST → Z;
  store_ok : ST → Prop;
  load_ok s slot r s' :
    store_ok s → store_load slot s = (r, s') →
    store_ok s' ∧ store_view s' = store_view s ∧ store_dead s' = store_dead s ∧
    (∀ o, r = Ok o → o = store_view s !! slot ∧
      ∀ rec, o = Some rec → counter_record_typed rec);
  commit_ok s slot rec r s' :
    store_ok s → counter_record_typed rec → store_commit slot rec s = (r, s') →
    store_ok s' ∧ store_dead s' = store_dead s ∧
    match r with
    | Ok _ => store_dead s < cr_key_epoch rec ∧ store_view s' = <[slot := rec]> (store_view s)
    | Err _ _ => commit_outcome (store_view s) (store_view s') slot rec
    end;
  restart_ok s e :
    store_ok s → store_ok (store_restart e s) ∧
    store_dead s ≤ store_dead (store_restart e s) ∧
    ∀ slot, store_view (store_restart e s) !! slot = store_view s !! slot ∨
      (store_view (store_restart e s) !! slot = None ∧
       ∀ r, store_view s !! slot = Some r →
         counter_record_intact r = true ∧ cr_key_epoch r ≤ store_dead (store_restart e s)) }.

(** [struct CounterLeaseCheckpoint] *)
Record CounterLeaseCheckpoint := mkCheckpoint {
  cp_slot : Z; cp_context_id : Z; cp_key_epoch : Z; cp_direction : Z;
  cp_cursor : Z; cp_end : Z; cp_generation : Z }.

Definition same_lease_identity (left right : CounterLeaseCheckpoint) : bool :=
  bool_decide (cp_slot left = cp_slot right) &&
  bool_decide (cp_context_id left = cp_context_id right) &&
  bool_decide (cp_key_epoch left = cp_key_epoch right) &&
  bool_decide (cp_direction left = cp_direction right).

(** ** The lease *)
Module Lease.

Record CounterLease := mkLease {
  slot_ : Z; context_id_ : Z; key_epoch_ : Z; direction_ : Z; block_size_ : Z;
  cursor_ : Z; end_ : Z; generation_ : Z; initialized_ : bool }.

Definition new (slot context_id key_epoch direction block_size : Z) : CounterLease :=
  mkLease slot context_id key_epoch direction block_size 0 0 0 false.

Definition set_range (cursor end' : Z) (l : CounterLease) : CounterLease :=
  mkLease (slot_ l) (context_id_ l) (key_epoch_ l) (direction_ l) (block_size_ l)
    cursor end' (generation_ l) (initialized_ l).
Definition set_cursor (cursor : Z) (l : CounterLease) : CounterLease := set_range cursor (end_ l) l.
Definition set_generation (g : Z) (l : CounterLease) : CounterLease :=
  mkLease (slot_ l) (context_id_ l) (key_epoch_ l) (direction_ l) (block_size_ l)
    (cursor_ l) (end_ l) g (initialized_ l).
Definition set_initialized (l : CounterLease) : CounterLease :=
  mkLease (slot_ l) (context_id_ l) (key_epoch_ l) (direction_ l) (block_size_ l)
    (cursor_ l) (end_ l) (generation_ l) true.

Section Lease.
Context {ST : Type} `{CounterStore ST}.

(** The members of the lease and the store it refers to. *)
Definition LM := M (CounterLease * ST).

Definition lease : LM CounterLease := λ s, (Ok (fst s), s).
Definition update (f : CounterLease → CounterLease) : LM unit := λ s, (Ok tt, (f (fst s), snd s)).
Definition on_store {A} (m : M ST A) : LM A :=
  λ s, let '(r, st) := m (snd s) in (r, (fst s, st)).

Definition initialize : LM unit :=
  l ← lease;
  fail_if (bool_decide (block_size_ l = 0)) InvalidArgument "counter block size is zero";;
  found ← on_store (store_load (slot_ l));
  match found with
  | Some record =>
      fail_if (negb (bool_decide (cr_crc record = counter_record_crc record)))
        IntegrityError "counter record integrity check failed";;
      fail_if (negb (bool_decide (cr_layout record = kCounterRecordLayout)))
        IntegrityError "counter record layout is not Wire v2";;
      fail_if (negb (bool_decide (cr_context_id record = context_id_ l)) ||
               negb (bool_decide (cr_direction record = direction_ l)))
        Conflict "counter store context mismatch";;
      fail_if (bool_decide (key_epoch_ l < cr_key_epoch record))
        Conflict "counter store epoch regression";;
      (if bool_decide (cr_key_epoch record = key_epoch_ l) then
         update (set_range (cr_high_water_exclusive record) (cr_high_water_exclusive record))
       else mret tt);;
      update (set_generation (cr_generation record));;
      update set_initialized
  | None => update set_initialized
  end.

Definition checkpoint (l : CounterLease) : CounterLeaseCheckpoint :=
  mkCheckpoint (slot_ l) (context_id_ l) (key_epoch_ l) (direction_ l)
    (cursor_ l) (end_ l) (generation_ l).

Definition resume (c : CounterLeaseCheckpoint) : LM unit :=
  initialize;;
  l ← lease;
  if same_lease_identity (checkpoint l) c && bool_decide (cp_cursor c < cp_end c) &&
     negb (bool_decide (end_ l = 0)) && bool_decide (end_ l = cp_end c) &&
     bool_decide (generation_ l = cp_generation c)
  then update (set_cursor (cp_cursor c))
  else mret tt.

(** The record a reservation writes. *)
Definition next_record (l : CounterLease) : CounterRecord :=
  let r := mkCounterRecord (context_id_ l) (key_epoch_ l) (direction_ l) kCounterRecordLayout
    [0; 0; 0; 0; 0; 0] (u64 (end_ l + block_size_ l)) (u32 (generation_ l + 1)) 0 in
  mkCounterRecord (cr_context_id r) (cr_key_epoch r) (cr_direction r) (cr_layout r)
    (cr_reserved r) (cr_high_water_exclusive r) (cr_generation r) (counter_record_crc r).

(** Re-validation of the persisted record, adopting a newer water mark. *)
Definition revalidate (persisted : CounterRecord) : LM unit :=
  l ← lease;
  fail_if (negb (bool_decide (cr_crc persisted = counter_record_crc persisted)))
    IntegrityError "counter record integrity check failed";;
  fail_if (negb (bool_decide (cr_layout persisted = kCounterRecordLayout)))
    IntegrityError "counter record layout is not Wire v2";;
  fail_if (bool_decide (key_epoch_ l < cr_key_epoch persisted))
    Conflict "counter slot superseded by newer epoch";;
  if bool_decide (cr_key_epoch persisted = key_epoch_ l) &&
     bool_decide (end_ l < cr_high_water_exclusive persisted) then
    update (set_range (cr_high_water_exclusive persisted) (cr_high_water_exclusive persisted));;
    update (set_generation (cr_generation persisted))
  else
    fail_if (bool_decide (cr_key_epoch persisted = key_epoch_ l) &&
             bool_decide (cr_high_water_exclusive persisted < end_ l))
      IntegrityError "counter record rewound".

Definition check_persisted (found : option CounterRecord) : LM unit :=
  match found with Some persisted => revalidate persisted | None => mret tt end.

Definition reserve_block : LM unit :=
  l ← lease;
  fail_if (negb (initialized_ l)) InvalidState "counter lease is not initialized";;
  found ← on_store (store_load (slot_ l));
  check_persisted found;;
  l ← lease;
  fail_if (bool_decide (kMaxCryptoCounter + 1 - block_size_ l < end_ l))
    CounterExhausted "counter range exhausted";;
  on_store (store_commit (slot_ l) (next_record l));;
  update (set_range (end_ l) (cr_high_water_exclusive (next_record l)));;
  update (set_generation (cr_generation (next_record l))).

Definition next : LM Z :=
  l ← lease;
  fail_if (negb (initialized_ l)) InvalidState "counter lease is not initialized";;
  (if bool_decide (cursor_ l = end_ l) then reserve_block else mret tt);;
  l ← lease;
  update (set_cursor (u64 (cursor_ l + 1)));;
  mret (cursor_ l).

End Lease.
End Lease.

(** ** [CounterCheckpointCache] *)
Module Cache.

Record Entry := mkEntry { e_checkpoint : CounterLeaseCheckpoint; e_stamp : Z }.
Record CheckpointCache := mkCache { entries_ : Slots.slots Entry; stamp_ : Z }.

Definition default_entry : Entry := mkEntry (mkCheckpoint 0 0 0 0 0 0 0) 0.
Definition empty (capacity : nat) : CheckpointCache := mkCache (replicate capacity None) 0.

(** The [for_each] that keeps the first entry with the least stamp. *)
Fixpoint oldest_from (i : nat) (s : Slots.slots Entry) (best : option (nat * Z)) : option nat :=
  match s with
  | [] => fst <$> best
  | None :: s' => oldest_from (S i) s' best
  | Some e :: s' =>
      oldest_from (S i) s'
        (match best with
         | None => Some (i, e_stamp e)
         | Some (_, m) => if bool_decide (e_stamp e < m) then Some (i, e_stamp e) else best
         end)
  end.

(** The slot [park] writes, with the slots after any allocation or eviction. *)
Definition park_slot (c : CounterLeaseCheckpoint) (s : Slots.slots Entry)
  : option nat * Slots.slots Entry :=
  match Slots.find (λ e, same_lease_identity (e_checkpoint e) c) s with
  | Some i => (Some i, s)
  | None =>
      match Slots.allocate default_entry s with
      | (Some i, s') => (Some i, s')
      | (None, s') =>
          match oldest_from 0 s' None with
          | None => (None, s')
          | Some o =>
              let '(released, s'') := Slots.release o s' in
              if released then Slots.allocate default_entry s'' else (None, s'')
          end
      end
  end.

Definition park (c : CounterLeaseCheckpoint) (k : CheckpointCache) : CheckpointCache :=
  if bool_decide (cp_end c ≤ cp_cursor c) then k
  else match park_slot c (entries_ k) with
       | (Some i, s) => mkCache (Slots.set i (mkEntry c (u64 (stamp_ k + 1))) s) (u64 (stamp_ k + 1))
       | (None, s) => mkCache s (stamp_ k)
       end.

Definition take (identity : CounterLeaseCheckpoint) (k : CheckpointCache)
  : option CounterLeaseCheckpoint * CheckpointCache :=
  match Slots.find (λ e, same_lease_identity (e_checkpoint e) identity) (entries_ k) with
  | None => (None, k)
  | Some i => (e_checkpoint <$> Slots.at_ i (entries_ k),
               mkCache (snd (Slots.release i (entries_ k))) (stamp_ k))
  end.

Definition clear (k : CheckpointCache) : CheckpointCache :=
  mkCache (Slots.clear (entries_ k)) (stamp_ k).

End Cache.

(** ** What a counter owner holds *)

(** The counters a lease or a parked checkpoint may still issue. *)
Definition cp_holds (c : CounterLeaseCheckpoint) (x : Z) : Prop := cp_cursor c ≤ x < cp_end c.

Section Covered.
Context {ST : Type} `{CounterStoreLaws ST}.

(** The store remembers that the counter may have been issued: its epoch is
    dead, or the slot's record verifies only at or past it.  A record that
    does not verify covers everything, since it stops every reservation. *)
Definition covered (st : ST) (slot e x : Z) : Prop :=
  e ≤ store_dead st ∨
  match store_view st !! slot with
  | None => False
  | Some r => counter_record_intact r = true →
      e < cr_key_epoch r ∨ (e = cr_key_epoch r ∧ x < cr_high_water_exclusive r)
  end.

Definition cov_mono (st st' : ST) : Prop := ∀ slot e x, covered st slot e x → covered st' slot e x.

Record cp_ok (st : ST) (c : CounterLeaseCheckpoint) : Prop := {
  co_lo : 0 ≤ cp_cursor c; co_hi : cp_cursor c ≤ cp_end c;
  co_cov x : cp_holds c x → covered st (cp_slot c) (cp_key_epoch c) x ∧ x ≤ kMaxCryptoCounter }.

Lemma cp_ok_mono st st' c : cov_mono st st' → cp_ok st c → cp_ok st' c.
Proof. intros Hm []. constructor; [done|done|]. intros x Hx. naive_solver. Qed.

Lemma cov_mono_refl st : cov_mono st st.
Proof. by intros ?. Qed.

Lemma cov_mono_same st st' :
  store_view st' = store_view st → store_dead st' = store_dead st → cov_mono st st'.
Proof. unfold cov_mono, covered. by intros -> ->. Qed.

(** A reservation never uncovers a counter. *)
Lemma cov_mono_insert st st' slot r :
  store_dead st' = store_dead st → store_view st' = <[slot := r]> (store_view st) →
  (∀ r0, store_view st !! slot = Some r0 → counter_record_intact r0 = true ∧
     (cr_key_epoch r0 < cr_key_epoch r ∨
      cr_key_epoch r0 = cr_key_epoch r ∧ cr_high_water_exclusive r0 ≤ cr_high_water_exclusive r)) →
  cov_mono st st'.
Proof.
  intros Hd Hv Hr s e x [Hdead|Hc]; [left; lia|]. right. rewrite Hv.
  destruct (decide (s = slot)) as [->|Hne]; [|by rewrite lookup_insert_ne].
  rewrite lookup_insert_eq. destruct (store_view st !! slot) as [r0|]; [|done].
  destruct (Hr r0 eq_refl) as [Hi Hcase]. specialize (Hc Hi). intros _. lia.
Qed.

Lemma cov_mono_torn st st' slot r :
  store_dead st' = store_dead st → store_view st' = <[slot := r]> (store_view st) →
  counter_record_intact r = false → cov_mono st st'.
Proof.
  intros Hd Hv Hr s e x [Hdead|Hc]; [left; lia|]. right. rewrite Hv.
  destruct (decide (s = slot)) as [->|Hne]; [|by rewrite lookup_insert_ne].
  rewrite lookup_insert_eq. congruence.
Qed.

Lemma cov_mono_restart st e : store_ok st → cov_mono st (store_restart e st).
Proof.
  intros Hok. destruct (restart_ok st e Hok) as (_ & Hd & Hv).
  intros s e' x [Hdead|Hc]; [left; lia|].
  destruct (Hv s) as [Heq|[Heq Her]]; unfold covered; rewrite Heq; [by right|left].
  destruct (store_view st !! s) as [r|]; [|done].
  destruct (Her r eq_refl) as [Hi Hle]. specialize (Hc Hi). lia.
Qed.

End Covered.

(** ** The lease operations *)
Section LeaseSpecs.
Import Lease.
Context {ST : Type} `{CounterStoreLaws ST}.

Record same_id (l l' : CounterLease) : Prop := {
  si_slot : slot_ l' = slot_ l; si_epoch : key_epoch_ l' = key_epoch_ l;
  si_block : block_size_ l' = block_size_ l }.

Lemma intact_intro r :
  bool_decide (cr_crc r = counter_record_crc r) = true →
  bool_decide (cr_layout r = kCounterRecordLayout) = true → counter_record_intact r = true.
Proof. unfold counter_record_intact. by intros -> ->. Qed.

Lemma next_record_intact l : counter_record_intact (next_record l) = true.
Proof. apply intact_intro; apply bool_decide_eq_true_2; reflexivity. Qed.

Ltac lease_run H :=
  cbv [mbind M_bind lease on_store update fail_if throw mret M_ret] in H;
  repeat (cbn [fst snd negb] in H; break_in H; simplify_eq);
  cbn [fst snd negb] in H; simplify_eq.

Ltac lease_done :=
  split_and!; first [assumption | reflexivity | lia | by constructor | by left
    | by intros ?; left | by intros ?; right | by right; split; [reflexivity|assumption] | by auto using cov_mono_refl].

Lemma initialize_spec (l : CounterLease) (st : ST) r l' st' :
  store_ok st → initialize (l, st) = (r, (l', st')) →
  store_ok st' ∧ store_view st' = store_view st ∧ store_dead st' = store_dead st ∧ same_id l l' ∧
  (initialized_ l' = true → initialized_ l = true ∨ block_size_ l ≠ 0) ∧
  (cursor_ l' = cursor_ l ∧ end_ l' = end_ l ∨
   cursor_ l' = end_ l' ∧ 0 ≤ end_ l').
Proof.
  intros Hok Hrun. unfold initialize in Hrun.
  destruct (bool_decide (block_size_ l = 0)) eqn:Hb; [lease_run Hrun; lease_done|].
  destruct (store_load (slot_ l) st) as [ld st1] eqn:Hld.
  destruct (load_ok st _ _ _ Hok Hld) as (Hok1 & Hv1 & Hd1 & Hres).
  cbv [mbind M_bind lease on_store update fail_if throw mret M_ret] in Hrun.
  cbn [fst snd] in Hrun. rewrite Hb in Hrun. cbn [fst snd] in Hrun. rewrite Hld in Hrun.
  apply bool_decide_eq_false in Hb.
  destruct ld as [[rec|]|]; [destruct (Hres _ eq_refl) as [_ Hty]; specialize (Hty rec eq_refl); destruct Hty as [_ [? ?]]|..];
  repeat (cbn [fst snd negb] in Hrun; break_in Hrun; simplify_eq); simplify_eq; simpl;
    lease_done.
Qed.

Lemma resume_spec (l : CounterLease) (st : ST) c r l' st' :
  store_ok st → cursor_ l = 0 → end_ l = 0 →
  resume c (l, st) = (r, (l', st')) → cp_ok st c →
  store_ok st' ∧ store_view st' = store_view st ∧ store_dead st' = store_dead st ∧ same_id l l' ∧
  (initialized_ l' = true → initialized_ l = true ∨ block_size_ l ≠ 0) ∧
  0 ≤ cursor_ l' ≤ end_ l' ∧
  (∀ x, cp_holds (checkpoint l') x →
     cp_holds c x ∧ cp_slot c = slot_ l' ∧ cp_key_epoch c = key_epoch_ l').
Proof.
  intros Hok Hc0 He0 Hrun [Hlo Hhi _]. unfold resume in Hrun.
  destruct (initialize (l, st)) as [ri [l1 st1]] eqn:Hi.
  destruct (initialize_spec l st ri l1 st1 Hok Hi) as (Hok1 & Hv & Hd & Hid & Hin & Hr).
  unfold mbind, M_bind in Hrun. rewrite Hi in Hrun. simpl in Hrun.
  assert (Hempty : l' = l1 → 0 ≤ cursor_ l' ≤ end_ l' ∧
    (∀ x, cp_holds (checkpoint l') x →
       cp_holds c x ∧ cp_slot c = slot_ l' ∧ cp_key_epoch c = key_epoch_ l')).
  { intros ->. split; [lia|]. unfold cp_holds, checkpoint; simpl. intros x Hx. lia. }
  destruct ri as [u|]; simpl in Hrun;
    [|simplify_eq; specialize (Hempty eq_refl); tauto].
  destruct (same_lease_identity (checkpoint l1) c && _ && _ && _ && _) eqn:Hg; simpl in Hrun;
    [|unfold mret, M_ret in Hrun; simplify_eq; specialize (Hempty eq_refl); tauto].
  unfold update in Hrun. simplify_eq. simpl. unfold same_lease_identity in Hg. bdec.
  destruct Hg as [[[[Hsame Hlt] _] He] _]. destruct Hsame as [[[Hs _] Hke] _]. simpl in *.
  split_and!; [assumption..|by destruct Hid|assumption|lia|lia|].
  unfold cp_holds, checkpoint; simpl. intros x Hx. split_and!; auto; lia.
Qed.

(** What a reservation checked before it commits. *)
Definition reservable (st : ST) (l : CounterLease) : Prop :=
  ∀ r0, store_view st !! slot_ l = Some r0 → counter_record_intact r0 = true ∧
    (cr_key_epoch r0 < key_epoch_ l ∨
     cr_key_epoch r0 = key_epoch_ l ∧ cr_high_water_exclusive r0 ≤ end_ l).

Lemma revalidate_spec (l : CounterLease) (st : ST) rec r l' st' :
  revalidate rec (l, st) = (r, (l', st')) → cursor_ l = end_ l → 0 ≤ end_ l →
  counter_record_typed rec →
  st' = st ∧ same_id l l' ∧ cursor_ l' = end_ l' ∧ 0 ≤ end_ l' ∧
  (r = Ok tt → store_view st !! slot_ l = Some rec → reservable st l').
Proof.
  intros Hrun Hce Hpos [_ [Hhw _]]. unfold revalidate in Hrun.
  destruct (bool_decide (cr_crc rec = counter_record_crc rec)) eqn:H1;
    [|by lease_run Hrun; split_and!; auto; constructor].
  destruct (bool_decide (cr_layout rec = kCounterRecordLayout)) eqn:H2;
    [|by lease_run Hrun; split_and!; auto; constructor].
  pose proof (intact_intro rec H1 H2) as Hin.
  cbv [mbind M_bind lease on_store update fail_if throw mret M_ret] in Hrun.
  rewrite ?H1, ?H2 in Hrun. cbn [fst snd negb] in Hrun.
  destruct (bool_decide (key_epoch_ l < cr_key_epoch rec)) eqn:H3;
    [by simplify_eq; split_and!; auto; constructor|].
  destruct (bool_decide (cr_key_epoch rec = key_epoch_ l)) eqn:H4;
    [destruct (bool_decide (end_ l < cr_high_water_exclusive rec)) eqn:H5;
     [|destruct (bool_decide (cr_high_water_exclusive rec < end_ l)) eqn:H6]|];
    simpl in Hrun; simplify_eq; (split_and!; [done|by constructor|done|simpl;lia|]);
    intros Hok Hv r0 Hr0; simpl in Hr0; rewrite Hv in Hr0; try done; simplify_eq;
    (split; [done|]); bdec; simpl; lia.
Qed.

Lemma revalidate_opt_spec (l : CounterLease) (st : ST) (o : option CounterRecord) r l' st' :
  check_persisted o (l, st) = (r, (l', st')) →
  cursor_ l = end_ l → 0 ≤ end_ l →
  (∀ rec, o = Some rec → counter_record_typed rec) →
  st' = st ∧ same_id l l' ∧ cursor_ l' = end_ l' ∧ 0 ≤ end_ l' ∧
  (r = Ok tt → o = store_view st !! slot_ l → reservable st l').
Proof.
  intros Hrun Hce Hpos Hty. unfold check_persisted in Hrun. destruct o as [rec|].
  - destruct (revalidate_spec l st rec r l' st' Hrun Hce Hpos (Hty rec eq_refl)) as (?&?&?&?&Hr).
    split_and!; auto.
  - unfold mret, M_ret in Hrun. simplify_eq. split_and!; [done|by constructor|done|done|].
    intros _ Hv r0 Hr0. congruence.
Qed.

(** Once the lease re-validated the record, its commit covers the block it
    takes, and the block was not covered before. *)
Lemma commit_block_spec (st : ST) (l : CounterLease) r st' :
  store_ok st → reservable st l → 0 ≤ end_ l → 0 ≤ block_size_ l → is_u32 (key_epoch_ l) →
  end_ l ≤ kMaxCryptoCounter + 1 - block_size_ l →
  store_commit (slot_ l) (next_record l) st = (r, st') →
  store_ok st' ∧ cov_mono st st' ∧ cr_high_water_exclusive (next_record l) = end_ l + block_size_ l ∧
  (r = Ok tt → ∀ x, end_ l ≤ x < end_ l + block_size_ l →
     ¬ covered st (slot_ l) (key_epoch_ l) x ∧ covered st' (slot_ l) (key_epoch_ l) x).
Proof.
  intros Hok Hres Hend Hbs Hke Hmax Hc.
  assert (Hhw : cr_high_water_exclusive (next_record l) = end_ l + block_size_ l).
  { simpl. apply wrap_id. unfold in_range, kMaxCryptoCounter in *. lia. }
  assert (Hty : counter_record_typed (next_record l)).
  { split; [done|]. rewrite Hhw. unfold in_range, kMaxCryptoCounter in *. lia. }
  destruct (commit_ok st _ _ _ _ Hok Hty Hc) as (Hok' & Hd & Hr).
  assert (Hins : store_view st' = <[slot_ l := next_record l]> (store_view st) → cov_mono st st').
  { intros Hv. apply (cov_mono_insert st st' _ _ Hd Hv). intros r0 Hr0.
    destruct (Hres r0 Hr0) as [Hi Hcase]. split; [done|]. rewrite Hhw. simpl. lia. }
  split; [done|]. split; [|split; [done|]].
  - destruct r as [u|]; [by apply Hins, Hr|]. destruct Hr as [Hv|[Hv|(torn & Ht & Hv)]].
    + by apply cov_mono_same.
    + by apply Hins.
    + by eapply cov_mono_torn.
  - intros -> x Hx. destruct Hr as [Hlt Hv]. simpl in Hlt. split.
    + intros [Hdead|Hcov]; [lia|]. destruct (store_view st !! slot_ l) as [r0|] eqn:Hr0; [|done].
      destruct (Hres r0 Hr0) as [Hi Hcase]. specialize (Hcov Hi). lia.
    + right. rewrite Hv, lookup_insert_eq. intros _. right. rewrite Hhw. simpl. lia.
Qed.

Lemma reserve_spec (l : CounterLease) (st : ST) r l' st' :
  store_ok st → cursor_ l = end_ l → 0 ≤ end_ l → 0 ≤ block_size_ l → is_u32 (key_epoch_ l) →
  reserve_block (l, st) = (r, (l', st')) →
  store_ok st' ∧ cov_mono st st' ∧ same_id l l' ∧ 0 ≤ cursor_ l' ≤ end_ l' ∧
  match r with
  | Ok _ => end_ l' = cursor_ l' + block_size_ l ∧ end_ l' ≤ kMaxCryptoCounter + 1 ∧
      ∀ x, cursor_ l' ≤ x < end_ l' →
        ¬ covered st (slot_ l) (key_epoch_ l) x ∧ covered st' (slot_ l) (key_epoch_ l) x
  | Err _ _ => cursor_ l' = end_ l'
  end.
Proof.
  intros Hok Hce Hpos Hbs Hke Hrun. unfold reserve_block in Hrun.
  cbv [mbind M_bind] in Hrun. cbn [lease fst] in Hrun. unfold fail_if at 1 in Hrun.
  destruct (initialized_ l); [cbn [negb mret M_ret] in Hrun|
    unfold throw in Hrun; simpl in Hrun; simplify_eq; lease_done].
  unfold on_store at 1 in Hrun. cbn [snd fst] in Hrun.
  destruct (store_load (slot_ l) st) as [ld st1] eqn:Hld.
  destruct (load_ok st _ _ _ Hok Hld) as (Hok1 & Hv1 & Hd1 & Hty).
  assert (Hm1 : cov_mono st st1) by (by apply cov_mono_same).
  destruct ld as [o|]; [|simplify_eq; lease_done].
  destruct (Hty o eq_refl) as [Ho Hu].
  destruct (check_persisted o (l, st1)) as [rv [l1 st2]] eqn:Hrv.
  destruct (revalidate_opt_spec l st1 o rv l1 st2 Hrv Hce Hpos Hu) as (-> & [Hs1 He1 Hb1] & Hce1 & Hp1 & Hres).
  destruct rv as [[]|]; [|simplify_eq; lease_done].
  specialize (Hres eq_refl ltac:(by rewrite Hv1)). cbn [lease fst] in Hrun. unfold fail_if at 1 in Hrun.
  destruct (bool_decide (kMaxCryptoCounter + 1 - block_size_ l1 < end_ l1)) eqn:Hmax;
    [unfold throw in Hrun; simplify_eq; lease_done|].
  apply bool_decide_eq_false in Hmax. cbn [mret M_ret] in Hrun.
  unfold on_store at 1 in Hrun. cbn [snd fst] in Hrun.
  destruct (store_commit (slot_ l1) (next_record l1) st1) as [rc st3] eqn:Hc.
  destruct (commit_block_spec st1 l1 rc st3 Hok1 Hres Hp1 ltac:(lia) ltac:(by rewrite He1) ltac:(lia) Hc)
    as (Hok3 & Hm3 & Hhw & Hfresh).
  assert (Hm : cov_mono st st3) by (intros ? ? ? ?; auto).
  destruct rc as [[]|]; [|simplify_eq; lease_done].
  unfold update in Hrun. cbn [fst snd] in Hrun. simplify_eq. simpl in Hhw |- *.
  rewrite Hhw. split_and!; auto; try lia; [by constructor|]. intros x Hx.
  destruct (Hfresh eq_refl x Hx) as [Hn Hy]. rewrite <- Hs1, <- He1. split; [|done].
  intros Hcov. apply Hn. auto.
Qed.

Record lease_ok (st : ST) (l : CounterLease) : Prop := {
  lo_cp : cp_ok st (checkpoint l);
  lo_block : 0 ≤ block_size_ l;
  lo_epoch : is_u32 (key_epoch_ l);
  lo_init : initialized_ l = true → block_size_ l ≠ 0 }.

Lemma lease_ok_mono st st' l : cov_mono st st' → lease_ok st l → lease_ok st' l.
Proof. intros Hm []. constructor; [by eapply cp_ok_mono|done..]. Qed.

Lemma same_id_ok st l l' :
  same_id l l' → (initialized_ l' = true → initialized_ l = true ∨ block_size_ l ≠ 0) →
  lease_ok st l → 0 ≤ cursor_ l' ≤ end_ l' →
  (∀ x, cp_holds (checkpoint l') x → covered st (slot_ l) (key_epoch_ l) x ∧ x ≤ kMaxCryptoCounter) →
  lease_ok st l'.
Proof.
  intros [Hs He Hb] Hi [_ Hbl Hke Hin] Hr Hh.
  constructor; [|lia|by rewrite He|intros ?; rewrite Hb; tauto].
  constructor; simpl; [lia|lia|]. intros x Hx. rewrite Hs, He. by apply Hh.
Qed.

Lemma reserve_init (l : CounterLease) (st : ST) r l' st' :
  reserve_block (l, st) = (r, (l', st')) → initialized_ l' = initialized_ l.
Proof.
  unfold reserve_block, check_persisted, revalidate. intros Hrun. lease_run Hrun; done.
Qed.

(** [next] hands out a counter that the lease held, or one that the store had
    never covered; either way the store covers it afterwards and the lease
    does not hold it any more. *)
Lemma next_spec (l : CounterLease) (st : ST) r l' st' :
  store_ok st → lease_ok st l → next (l, st) = (r, (l', st')) →
  store_ok st' ∧ cov_mono st st' ∧ same_id l l' ∧ lease_ok st' l' ∧
  (∀ x, cp_holds (checkpoint l') x → cp_holds (checkpoint l) x ∨
     ¬ covered st (slot_ l) (key_epoch_ l) x) ∧
  (∀ v, r = Ok v → ¬ cp_holds (checkpoint l') v ∧
     (cp_holds (checkpoint l) v ∨ ¬ covered st (slot_ l) (key_epoch_ l) v) ∧
     covered st' (slot_ l) (key_epoch_ l) v ∧ 0 ≤ v ≤ kMaxCryptoCounter).
Proof.
  intros Hok Hl Hrun. pose proof Hl as [[Hlo Hhi Hcov] Hbs Hke Hin]. simpl in Hlo, Hhi.
  unfold next in Hrun. cbv [mbind M_bind] in Hrun. cbn [lease fst] in Hrun.
  unfold fail_if at 1 in Hrun. destruct (initialized_ l) eqn:Hinit;
    [cbn [negb mret M_ret] in Hrun|unfold throw in Hrun; simpl in Hrun; simplify_eq;
       split_and!; auto using cov_mono_refl; [by constructor|done]].
  destruct (bool_decide (cursor_ l = end_ l)) eqn:Hce.
  - apply bool_decide_eq_true in Hce. destruct (reserve_block (l, st)) as [rr [l1 st1]] eqn:Hr.
    pose proof (reserve_init _ _ _ _ _ Hr) as Hi1.
    destruct (reserve_spec l st rr l1 st1 Hok Hce ltac:(lia) Hbs Hke Hr) as (Hok1 & Hm & Hid & Hrng & Hres).
    destruct rr as [u|]; simpl in Hrun.
    + destruct Hres as (Hlen & Hmax & Hfresh). unfold update, mret, M_ret in Hrun. simpl in Hrun. simplify_eq.
      specialize (Hin eq_refl). unfold kMaxCryptoCounter in *.
      assert (Hw : u64 (cursor_ l1 + 1) = cursor_ l1 + 1) by (apply wrap_id; unfold in_range; lia).
      split_and!; [done|done|by destruct Hid| | |].
      * apply (same_id_ok st' l); [by destruct Hid|auto|by eapply lease_ok_mono| |].
        -- simpl. rewrite Hw. lia.
        -- intros x Hx. unfold cp_holds in Hx. simpl in Hx. rewrite Hw in Hx.
           split; [apply Hfresh; lia|unfold kMaxCryptoCounter; lia].
      * intros x Hx. unfold cp_holds in Hx. simpl in Hx. rewrite Hw in Hx. right. apply Hfresh. lia.
      * intros v [= <-]. unfold cp_holds; simpl. rewrite Hw. split; [lia|].
        destruct (Hfresh (cursor_ l1)) as [Hn Hc]; [lia|]. split_and!; auto; lia.
    + simplify_eq. split_and!; [done|done|done| | |done].
      * apply (same_id_ok st' l); [done|intros ?; left; congruence|by eapply lease_ok_mono|done|].
        intros x Hx. unfold cp_holds in Hx. simpl in Hx. lia.
      * intros x Hx. unfold cp_holds in Hx. simpl in Hx. lia.
  - apply bool_decide_eq_false in Hce. unfold update, mret, M_ret in Hrun. simpl in Hrun. simplify_eq.
    assert (Hmx : ∀ x, cursor_ l ≤ x < end_ l → covered st' (slot_ l) (key_epoch_ l) x ∧ x ≤ kMaxCryptoCounter) by (intros x Hx; apply (Hcov x Hx)).
    assert (Hw : u64 (cursor_ l + 1) = cursor_ l + 1).
    { apply wrap_id. destruct (Hmx (cursor_ l)) as [_ Hm]; [lia|].
      unfold in_range, kMaxCryptoCounter in *. lia. }
    split_and!; [done|apply cov_mono_refl|by constructor| | |].
    + apply (same_id_ok st' l); [by constructor|auto|done|simpl; rewrite Hw; lia|].
      intros x Hx. unfold cp_holds in Hx. simpl in Hx. rewrite Hw in Hx. apply Hmx. lia.
    + intros x Hx. left. unfold cp_holds in *. simpl in *. rewrite Hw in Hx. lia.
    + intros v [= <-]. unfold cp_holds. simpl. rewrite Hw.
      destruct (Hmx (cursor_ l)) as [Hc Hm]; [lia|]. split_and!; auto; lia.
Qed.

End LeaseSpecs.

(** ** The checkpoint cache *)
Section CacheSpecs.
Import Cache.

Lemma release_lookup {T} i (s : Slots.slots T) j (e : T) :
  snd (Slots.release i s) !! j = Some (Some e) → s !! j = Some (Some e) ∧
  (fst (Slots.release i s) = true → j ≠ i).
Proof.
  unfold Slots.release. destruct (s !! i) as [[x|]|] eqn:Hi; simpl; try (intros; split; done).
  destruct (decide (j = i)) as [->|Hne].
  - rewrite list_lookup_insert_eq by (by eapply lookup_lt_Some). done.
  - rewrite list_lookup_insert_ne by done. done.
Qed.

Lemma allocate_lookup {T} (d : T) (s s' : Slots.slots T) r j e :
  Slots.allocate d s = (r, s') → r ≠ Some j → s' !! j = Some (Some e) → s !! j = Some (Some e).
Proof.
  unfold Slots.allocate. destruct (Slots.first_free s) as [i|]; intros ? Hne; simplify_eq; [|done].
  by rewrite list_lookup_insert_ne by congruence.
Qed.

Lemma park_slot_lookup c s r s' j e :
  park_slot c s = (r, s') → r ≠ Some j → s' !! j = Some (Some e) → s !! j = Some (Some e).
Proof.
  unfold park_slot. destruct (Slots.find _ _); [by intros; simplify_eq|].
  destruct (Slots.allocate _ s) as [[a|] s1] eqn:Ha;
    [intros; simplify_eq; by eapply allocate_lookup|].
  assert (H1 : s1 !! j = Some (Some e) → s !! j = Some (Some e)) by (by eapply allocate_lookup).
  destruct (oldest_from 0 s1 None) as [o|]; [|intros; simplify_eq; auto].
  destruct (Slots.release o s1) as [b s2] eqn:Hr.
  assert (H2 : s2 !! j = Some (Some e) → s1 !! j = Some (Some e)).
  { intros Hs. apply (release_lookup o). by rewrite Hr. }
  destruct b; intros; simplify_eq; [|auto].
  apply H1, H2. by eapply allocate_lookup.
Qed.

(** [park] adds the checkpoint at one index and touches no other entry except
    by dropping it. *)
Lemma park_entries c k :
  ∃ i, ∀ j e, entries_ (park c k) !! j = Some (Some e) →
    (j = i ∧ e_checkpoint e = c) ∨ (j ≠ i ∧ entries_ k !! j = Some (Some e)).
Proof.
  unfold park. case_bool_decide.
  { exists (length (entries_ k)). intros j e Hj. right. split; [|done].
    apply lookup_lt_Some in Hj. lia. }
  destruct (park_slot c (entries_ k)) as [[i|] s] eqn:Hp; simpl.
  - exists i. intros j e. unfold Slots.set. destruct (decide (j = i)) as [->|Hne].
    + intros Hj. left. pose proof (lookup_lt_Some _ _ _ Hj) as Hlt. rewrite length_insert in Hlt.
      rewrite list_lookup_insert_eq in Hj by done. by injection Hj as <-.
    + intros Hj. right. split; [done|]. rewrite list_lookup_insert_ne in Hj by done.
      eapply park_slot_lookup; [exact Hp| |done]. congruence.
  - exists (length s). intros j e Hj. right. split; [apply lookup_lt_Some in Hj; lia|].
    by eapply park_slot_lookup.
Qed.

Lemma take_spec id k o k' :
  take id k = (o, k') →
  (∀ j e, entries_ k' !! j = Some (Some e) → entries_ k !! j = Some (Some e)) ∧
  (∀ c, o = Some c → same_lease_identity c id = true ∧
     ∃ j e, entries_ k !! j = Some (Some e) ∧ e_checkpoint e = c ∧
       ∀ e', entries_ k' !! j ≠ Some (Some e')).
Proof.
  unfold take. destruct (Slots.find _ _) as [i|] eqn:Hf; intros ?; simplify_eq; simpl; [|done].
  apply Slots.find_Some in Hf as (e & He & Hid & _). split.
  - intros j e' Hj. by apply release_lookup in Hj as [? _].
  - unfold Slots.at_. rewrite He. simpl. intros c [= <-]. split; [done|].
    exists i, e. split_and!; [done|done|]. intros e' Hj. apply release_lookup in Hj as [_ Hne].
    apply Hne; [|done]. unfold Slots.release. by rewrite He.
Qed.

End CacheSpecs.

(** ** A node: leases, the checkpoint cache and the store *)
Module System.
Section System.
Import Lease.
Context {ST : Type} `{CounterStoreLaws ST} (cache_capacity : nat).

Record World := mkWorld {
  w_store : ST; w_leases : gmap nat CounterLease; w_cache : Cache.CheckpointCache;
  w_issued : list (Z * Z * Z) (* slot, key epoch, counter *) }.

Inductive event :=
  | Open (i : nat) (slot context_id key_epoch direction block_size : Z)
  | Next (i : nat)
  | Evict (i : nat)          (* checkpoint parked, lease dropped *)
  | Drop (i : nat)           (* lease dropped, remainder forfeited *)
  | Reinitialize (i : nat)
  | PowerCycle (boot_session : Z).

(** A new lease continues from a parked checkpoint if the cache has one. *)
Definition open_lease (l : CounterLease) (st : ST) (k : Cache.CheckpointCache)
  : CounterLease * ST * Cache.CheckpointCache :=
  match Cache.take (checkpoint l) k with
  | (Some c, k') => let '(_, (l', st')) := resume c (l, st) in (l', st', k')
  | (None, k') => let '(_, (l', st')) := initialize (l, st) in (l', st', k')
  end.

Definition step (e : event) (w : World) : World :=
  match e with
  | Open i slot context_id key_epoch direction block_size =>
      let '(l, st, k) := open_lease (new slot context_id (u32 key_epoch) direction (u32 block_size))
                           (w_store w) (w_cache w) in
      mkWorld st (<[i := l]> (w_leases w)) k (w_issued w)
  | Next i =>
      match w_leases w !! i with
      | None => w
      | Some l =>
          let '(r, (l', st)) := next (l, w_store w) in
          mkWorld st (<[i := l']> (w_leases w)) (w_cache w)
            (match r with
             | Ok v => (slot_ l, key_epoch_ l, v) :: w_issued w
             | Err _ _ => w_issued w
             end)
      end
  | Evict i =>
      match w_leases w !! i with
      | None => w
      | Some l => mkWorld (w_store w) (delete i (w_leases w)) (Cache.park (checkpoint l) (w_cache w)) (w_issued w)
      end
  | Drop i => mkWorld (w_store w) (delete i (w_leases w)) (w_cache w) (w_issued w)
  | Reinitialize i =>
      match w_leases w !! i with
      | None => w
      | Some l =>
          let '(_, (l', st)) := initialize (l, w_store w) in
          mkWorld st (<[i := l']> (w_leases w)) (w_cache w) (w_issued w)
      end
  | PowerCycle b => mkWorld (store_restart b (w_store w)) ∅ (Cache.empty cache_capacity) (w_issued w)
  end.

Definition start (st : ST) : World := mkWorld st ∅ (Cache.empty cache_capacity) [].
Definition run (es : list event) (st : ST) : World := fold_left (λ w e, step e w) es (start st).

(** Every place a counter can still be issued from. *)
Definition owner (w : World) (k : nat + nat) : option CounterLeaseCheckpoint :=
  match k with
  | inl i => checkpoint <$> w_leases w !! i
  | inr j => Cache.e_checkpoint <$> Slots.at_ j (Cache.entries_ (w_cache w))
  end.

Definition tag (c : CounterLeaseCheckpoint) (x : Z) : Z * Z * Z := (cp_slot c, cp_key_epoch c, x).
Definition covered_tag (st : ST) (t : Z * Z * Z) : Prop := covered st t.1.1 t.1.2 t.2.

Record world_ok (w : World) : Prop := {
  wo_store : store_ok (w_store w);
  wo_lease i l : w_leases w !! i = Some l → lease_ok (w_store w) l;
  wo_owner k c : owner w k = Some c → cp_ok (w_store w) c;
  wo_unique k1 k2 c1 c2 x : owner w k1 = Some c1 → owner w k2 = Some c2 →
    tag c1 x = tag c2 x → cp_holds c1 x → cp_holds c2 x → k1 = k2;
  wo_disjoint k c x : owner w k = Some c → cp_holds c x → tag c x ∉ w_issued w;
  wo_issued t : t ∈ w_issued w → covered_tag (w_store w) t ∧ 0 ≤ t.2 ≤ kMaxCryptoCounter;
  wo_nodup : NoDup (w_issued w) }.

(** One step, seen from the counters: every counter an owner holds afterwards
    was held by one owner before, or (for one owner) is new to the store. *)
Lemma world_ok_step w w' (φ : nat + nat → nat + nat) k0 (t : option (Z * Z * Z)) :
  world_ok w → store_ok (w_store w') → cov_mono (w_store w) (w_store w') →
  (∀ i l, w_leases w' !! i = Some l → lease_ok (w_store w') l) →
  (∀ k c, owner w' k = Some c → cp_ok (w_store w') c) →
  (∀ k1 k2, is_Some (owner w' k1) → is_Some (owner w' k2) → φ k1 = φ k2 → k1 = k2) →
  (∀ k c x, owner w' k = Some c → cp_holds c x →
     (∃ c0, owner w (φ k) = Some c0 ∧ tag c0 x = tag c x ∧ cp_holds c0 x) ∨
     (k = k0 ∧ ¬ covered_tag (w_store w) (tag c x))) →
  w_issued w' = option_list t ++ w_issued w →
  (∀ u, t = Some u → is_Some (owner w' k0) ∧
     (∀ c x, owner w' k0 = Some c → cp_holds c x → tag c x ≠ u) ∧
     ((∃ c0 x, owner w (φ k0) = Some c0 ∧ cp_holds c0 x ∧ u = tag c0 x) ∨
      ¬ covered_tag (w_store w) u) ∧
     covered_tag (w_store w') u ∧ 0 ≤ u.2 ≤ kMaxCryptoCounter) →
  world_ok w'.
Proof.
  intros [Hst Hle Hcp Huq Hdj His Hnd] Hst' Hm Hle' Hcp' Hinj Hhold Hiss Ht.
  assert (Hcovd : ∀ k c x, owner w k = Some c → cp_holds c x → covered_tag (w_store w) (tag c x)).
  { intros k c x Hk Hx. apply (co_cov _ _ (Hcp k c Hk) x Hx). }
  assert (Hnew : ∀ u, t = Some u → u ∉ w_issued w).
  { intros u Hu Hin. destruct (Ht u Hu) as (_ & _ & [(c0 & x & Hk & Hx & ->)|Hn] & _);
      [by apply (Hdj _ _ _ Hk Hx)|]. apply Hn, His, Hin. }
  constructor; [done|done|done|..].
  - intros k1 k2 c1 c2 x H1 H2 Htag Hx1 Hx2.
    destruct (Hhold k1 c1 x H1 Hx1) as [(d1 & Hd1 & Ht1 & Hh1)|[-> Hn1]];
      destruct (Hhold k2 c2 x H2 Hx2) as [(d2 & Hd2 & Ht2 & Hh2)|[-> Hn2]].
    + apply Hinj; [by eexists..|]. eapply (Huq _ _ d1 d2 x); try done. congruence.
    + destruct Hn2. rewrite <- Htag, <- Ht1. by eapply Hcovd.
    + destruct Hn1. rewrite Htag, <- Ht2. by eapply Hcovd.
    + done.
  - intros k c x Hk Hx. rewrite Hiss. intros [Hin|Hin]%elem_of_app.
    + destruct t as [u|]; simpl in Hin; [|by apply not_elem_of_nil in Hin].
      apply list_elem_of_singleton in Hin. destruct (Ht u eq_refl) as ([c' Hc'] & Hk0 & Hsrc & _).
      destruct (decide (k = k0)) as [->|Hne]; [by apply (Hk0 c x Hk Hx)|].
      destruct (Hhold k c x Hk Hx) as [(d & Hd & Htd & Hh)|[-> _]]; [|done].
      destruct Hsrc as [(c0 & y & Hc0 & Hy & Hu)|Hn].
      * assert (φ k = φ k0) as Hφ; [|apply Hne, Hinj; [by eexists|by eexists|done]].
        assert (x = y) as -> by (unfold tag in *; congruence).
        eapply (Huq _ _ d c0 y); try done. congruence.
      * apply Hn. rewrite <- Hin, <- Htd. by eapply Hcovd.
    + destruct (Hhold k c x Hk Hx) as [(d & Hd & Htd & Hh)|[-> Hn]].
      * rewrite <- Htd in Hin. by eapply Hdj.
      * apply Hn, His, Hin.
  - intros u. rewrite Hiss. intros [Hin|Hin]%elem_of_app.
    + destruct t as [v|]; simpl in Hin; [|by apply not_elem_of_nil in Hin].
      apply list_elem_of_singleton in Hin as ->. apply (Ht v eq_refl).
    + destruct (His u Hin) as [Hc Hr]. split; [by apply Hm|done].
  - rewrite Hiss. destruct t as [u|]; simpl; [|done]. apply NoDup_cons. auto.
Qed.

Lemma owner_cache w j c :
  owner w (inr j) = Some c → ∃ e, Cache.entries_ (w_cache w) !! j = Some (Some e) ∧ Cache.e_checkpoint e = c.
Proof.
  simpl. unfold Slots.at_. destruct (Cache.entries_ (w_cache w) !! j) as [[e|]|]; simpl; naive_solver.
Qed.

Lemma owner_cache_intro w j e :
  Cache.entries_ (w_cache w) !! j = Some (Some e) → owner w (inr j) = Some (Cache.e_checkpoint e).
Proof. simpl. unfold Slots.at_. by intros ->. Qed.

Lemma wo_lease_cp w : (∀ i l, w_leases w !! i = Some l → lease_ok (w_store w) l) →
  (∀ j e, Cache.entries_ (w_cache w) !! j = Some (Some e) → cp_ok (w_store w) (Cache.e_checkpoint e)) →
  ∀ k c, owner w k = Some c → cp_ok (w_store w) c.
Proof.
  intros Hl Hc [i|j] c Hk.
  - simpl in Hk. apply fmap_Some in Hk as (l & Hli & ->). by apply (Hl i l).
  - apply owner_cache in Hk as (e & He & <-). by eapply Hc.
Qed.

(** A lease is replaced by one that holds at most what it held before; nothing
    is issued. *)
Lemma world_ok_shrink w st i l' :
  world_ok w → store_ok st → cov_mono (w_store w) st → lease_ok st l' →
  (∀ x, cp_holds (checkpoint l') x →
     ∃ c0, owner w (inl i) = Some c0 ∧ tag c0 x = tag (checkpoint l') x ∧ cp_holds c0 x) →
  world_ok (mkWorld st (<[i := l']> (w_leases w)) (w_cache w) (w_issued w)).
Proof.
  intros Hw Hst Hm Hl' Hh.
  assert (Hle : ∀ i0 l, <[i:=l']> (w_leases w) !! i0 = Some l → lease_ok st l).
  { intros i0 l [[-> <-]|[_ Hi0]]%lookup_insert_Some; [done|].
    eapply lease_ok_mono; [done|]. by apply (wo_lease w Hw i0). }
  apply (world_ok_step w _ id (inl i) None); try done; simpl.
  - apply (wo_lease_cp (mkWorld _ _ _ _)); [done|]. intros j e He. eapply cp_ok_mono; [done|].
    apply (wo_owner w Hw (inr j)). by apply owner_cache_intro.
  - intros [i0|j] c x Hk Hx; [|left; by exists c]. simpl in Hk.
    destruct (decide (i0 = i)) as [->|Hne]; [rewrite lookup_insert_eq in Hk|rewrite lookup_insert_ne in Hk by done].
    + injection Hk as <-. left. by apply Hh.
    + left. by exists c.
Qed.

Lemma world_ok_delete w i :
  world_ok w → world_ok (mkWorld (w_store w) (delete i (w_leases w)) (w_cache w) (w_issued w)).
Proof.
  intros Hw.
  assert (Hle : ∀ i0 l, delete i (w_leases w) !! i0 = Some l → lease_ok (w_store w) l).
  { intros i0 l [_ Hi0]%lookup_delete_Some. by apply (wo_lease w Hw i0). }
  apply (world_ok_step w _ id (inl i) None); try done; simpl; [apply Hw|apply cov_mono_refl|..].
  - apply (wo_lease_cp (mkWorld _ _ _ _)); [done|]. intros j e He. apply (wo_owner w Hw (inr j)). by apply owner_cache_intro.
  - intros [i0|j] c x Hk Hx; left; [|by exists c]. simpl in Hk.
    apply fmap_Some in Hk as (l & [_ Hl]%lookup_delete_Some & ->).
    exists (checkpoint l). simpl. by rewrite Hl.
Qed.

Lemma world_ok_next w i l r l' st :
  world_ok w → w_leases w !! i = Some l → next (l, w_store w) = (r, (l', st)) →
  world_ok (mkWorld st (<[i := l']> (w_leases w)) (w_cache w)
    (match r with Ok v => (slot_ l, key_epoch_ l, v) :: w_issued w | Err _ _ => w_issued w end)).
Proof.
  intros Hw Hi Hn.
  destruct (next_spec l (w_store w) r l' st (wo_store w Hw) (wo_lease w Hw i l Hi) Hn)
    as (Hst & Hm & [Hs He Hb] & Hl' & Hhold & Hv).
  assert (Hle : ∀ i0 l0, <[i:=l']> (w_leases w) !! i0 = Some l0 → lease_ok st l0).
  { intros i0 l0 [[-> <-]|[_ Hi0]]%lookup_insert_Some; [done|].
    eapply lease_ok_mono; [done|]. by apply (wo_lease w Hw i0). }
  assert (Hown : owner w (inl i) = Some (checkpoint l)) by (simpl; by rewrite Hi).
  apply (world_ok_step w _ id (inl i)
    (match r with Ok v => Some (slot_ l, key_epoch_ l, v) | Err _ _ => None end)); try done; simpl.
  - apply (wo_lease_cp (mkWorld _ _ _ _)); [done|]. intros j e Hj. eapply cp_ok_mono; [done|].
    apply (wo_owner w Hw (inr j)). by apply owner_cache_intro.
  - intros [i0|j] c x Hk Hx; [|left; by exists c]. simpl in Hk.
    destruct (decide (i0 = i)) as [->|Hne]; [rewrite lookup_insert_eq in Hk|rewrite lookup_insert_ne in Hk by done].
    + injection Hk as <-. destruct (Hhold x Hx) as [Hx0|Hx0].
      * left. exists (checkpoint l). unfold tag. simpl. by rewrite Hi, Hs, He.
      * right. unfold covered_tag, tag. simpl. by rewrite Hs, He.
    + left. by exists c.
  - by destruct r.
  - intros u Hu. destruct r as [v|]; [|done]. injection Hu as <-. destruct (Hv v eq_refl) as (Hn1 & Hn2 & Hn3 & Hn4).
    rewrite lookup_insert_eq. split; [by eexists|]. split; [|split; [|done]].
    + intros c x [= <-] Hx Heq. unfold tag in Heq. simpl in Heq. congruence.
    + destruct Hn2 as [Hh|Hh]; [left|by right]. exists (checkpoint l), v. by rewrite Hi.
Qed.

Lemma world_ok_evict w i l :
  world_ok w → w_leases w !! i = Some l →
  world_ok (mkWorld (w_store w) (delete i (w_leases w)) (Cache.park (checkpoint l) (w_cache w)) (w_issued w)).
Proof.
  intros Hw Hi. destruct (park_entries (checkpoint l) (w_cache w)) as (j0 & Hpark).
  set (w' := mkWorld _ _ _ _).
  set (φ := λ k : nat + nat, if decide (k = inr j0) then inl i else k).
  assert (Hown : owner w (inl i) = Some (checkpoint l)) by (simpl; by rewrite Hi).
  assert (Hsrc : ∀ k c, owner w' k = Some c → owner w (φ k) = Some c ∧ k ≠ inl i).
  { intros [i0|j] c Hk; unfold φ.
    - simpl in Hk. apply fmap_Some in Hk as (l0 & [Hne Hl]%lookup_delete_Some & ->).
      rewrite decide_False by done. simpl. rewrite Hl. split; [done|congruence].
    - apply owner_cache in Hk as (e & He & <-). split; [|done]. simpl in He.
      destruct (Hpark j e He) as [[-> ->]|[Hne He0]]; [by rewrite decide_True|].
      rewrite decide_False by congruence. by apply owner_cache_intro. }
  apply (world_ok_step w w' φ (inl i) None); try done; simpl; [apply Hw|apply cov_mono_refl|..].
  - intros i0 l0 [_ Hi0]%lookup_delete_Some. by apply (wo_lease w Hw i0).
  - intros k c Hk. apply (wo_owner w Hw (φ k)). by apply Hsrc.
  - intros k1 k2 [c1 H1] [c2 H2]. apply Hsrc in H1 as [_ Hne1]. apply Hsrc in H2 as [_ Hne2].
    unfold φ. repeat case_decide; congruence.
  - intros k c x Hk Hx. left. exists c. by destruct (Hsrc k c Hk).
Qed.

Lemma world_ok_open w i l l' st k :
  world_ok w → cursor_ l = 0 → end_ l = 0 → initialized_ l = false → 0 ≤ block_size_ l → is_u32 (key_epoch_ l) →
  open_lease l (w_store w) (w_cache w) = (l', st, k) →
  world_ok (mkWorld st (<[i := l']> (w_leases w)) k (w_issued w)).
Proof.
  intros Hw Hc0 He0 Hi0 Hbs Hke Hopen. unfold open_lease in Hopen.
  destruct (Cache.take (checkpoint l) (w_cache w)) as [o k'] eqn:Ht.
  destruct (take_spec _ _ _ _ Ht) as [Hsub Htaken].
  assert (Hl0 : lease_ok (w_store w) l).
  { constructor; [|done|done|by rewrite Hi0]. constructor; simpl; [lia|lia|].
    unfold cp_holds. simpl. intros x Hx. lia. }
  assert (Hfacts : ∃ (φ : nat + nat → nat + nat),
    (∀ k1, k1 ≠ inl i → φ k1 = k1) ∧
    (∀ j e, Cache.entries_ k' !! j = Some (Some e) → φ (inl i) ≠ inr j) ∧
    (∀ i0, φ (inl i) = inl i0 → i0 = i) ∧
    k = k' ∧ store_ok st ∧ cov_mono (w_store w) st ∧ lease_ok st l' ∧
    ∀ x, cp_holds (checkpoint l') x → ∃ c0, owner w (φ (inl i)) = Some c0 ∧
      tag c0 x = tag (checkpoint l') x ∧ cp_holds c0 x).
  { destruct o as [c|].
    - destruct (Htaken c eq_refl) as (Hid & j & e & Hj & <- & Hgone).
      pose proof (owner_cache_intro w j e Hj) as Hoj.
      destruct (resume (Cache.e_checkpoint e) (l, w_store w)) as [r [l1 st1]] eqn:Hr.
      destruct (resume_spec l (w_store w) _ r l1 st1 (wo_store w Hw) Hc0 He0 Hr (wo_owner w Hw _ _ Hoj))
        as (Hst & Hv & Hd & Hsame & Hin & Hrng & Hh).
      injection Hopen as -> -> ->.
      exists (λ k1, if decide (k1 = inl i) then inr j else k1).
      rewrite decide_True by done.
      assert (Hm : cov_mono (w_store w) st) by (by apply cov_mono_same).
      split_and!; try done.
      + intros k1 Hk1. by rewrite decide_False.
      + intros j0 e0 Hj0 [= ->]. by apply (Hgone e0).
      + apply (same_id_ok st l); [done|done|by eapply lease_ok_mono|done|].
        intros x Hx. destruct (Hh x Hx) as (Hx0 & Hs & He).
        destruct (co_cov _ _ (wo_owner w Hw _ _ Hoj) x Hx0) as [Hcov Hmax].
        split; [|done]. apply Hm. destruct Hsame as [H1 H2 _]. by rewrite <- H1, <- H2, <- Hs, <- He.
      + intros x Hx. destruct (Hh x Hx) as (Hx0 & Hs & He). exists (Cache.e_checkpoint e).
        split_and!; [done| |done]. unfold tag. simpl. by rewrite Hs, He.
    - destruct (initialize (l, w_store w)) as [r [l1 st1]] eqn:Hr.
      destruct (initialize_spec l (w_store w) r l1 st1 (wo_store w Hw) Hr)
        as (Hst & Hv & Hd & Hsame & Hin & Hrng).
      injection Hopen as -> -> ->. exists id.
      assert (Hm : cov_mono (w_store w) st) by (by apply cov_mono_same).
      assert (Hno : ∀ x, ¬ cp_holds (checkpoint l') x) by (unfold cp_holds; simpl; intros; lia).
      split_and!; try done; [by intros ? [=]| |intros x Hx; by apply Hno in Hx].
      apply (same_id_ok st l); [done|done|by eapply lease_ok_mono|lia|].
      intros x Hx. by apply Hno in Hx. }
  destruct Hfacts as (φ & Hφid & Hφj & Hφi & -> & Hst & Hm & Hl' & Hh).
  assert (Hle : ∀ i0 l0, <[i:=l']> (w_leases w) !! i0 = Some l0 → lease_ok st l0).
  { intros i0 l0 [[-> <-]|[_ Hi]]%lookup_insert_Some; [done|].
    eapply lease_ok_mono; [done|]. by apply (wo_lease w Hw i0). }
  apply (world_ok_step w _ φ (inl i) None); try done; simpl.
  - apply (wo_lease_cp (mkWorld _ _ _ _)); [done|]. intros j e Hj%Hsub. eapply cp_ok_mono; [done|].
    apply (wo_owner w Hw (inr j)). by apply owner_cache_intro.
  - assert (Hdom : ∀ k2, is_Some (owner (mkWorld st (<[i:=l']> (w_leases w)) k' (w_issued w)) k2) →
      k2 ≠ inl i → φ (inl i) ≠ k2).
    { intros [i2|j2] [c Hk2] Hne Heq; [apply Hne; f_equal; by apply Hφi|].
      apply owner_cache in Hk2 as (e & He & _). simpl in He. by eapply Hφj. }
    intros k1 k2 H1 H2 Heq. destruct (decide (k1 = inl i)) as [->|Hk1], (decide (k2 = inl i)) as [->|Hk2].
    + done.
    + rewrite (Hφid k2) in Heq by done. by apply Hdom in Heq.
    + rewrite (Hφid k1) in Heq by done. symmetry in Heq. by apply Hdom in Heq.
    + by rewrite !Hφid in Heq.
  - intros k2 c x Hk Hx. left. destruct (decide (k2 = inl i)) as [->|Hne].
    + simpl in Hk. rewrite lookup_insert_eq in Hk. injection Hk as <-. by apply Hh.
    + exists c. rewrite Hφid by done. split; [|done]. destruct k2 as [i2|j2].
      * simpl in Hk. rewrite lookup_insert_ne in Hk by congruence. done.
      * apply owner_cache in Hk as (e & He & <-). by apply owner_cache_intro, Hsub.
Qed.

Lemma world_ok_power_cycle w b : world_ok w → world_ok (step (PowerCycle b) w).
Proof.
  intros Hw. pose proof (cov_mono_restart (w_store w) b (wo_store w Hw)) as Hm.
  assert (Hnone : ∀ k, owner (step (PowerCycle b) w) k = None).
  { intros [i|j]; simpl; [done|]. unfold Slots.at_.
    destruct (replicate cache_capacity None !! j) as [o|] eqn:Hj; [|done].
    apply lookup_replicate in Hj as [-> _]. done. }
  apply (world_ok_step w _ id (inl 0%nat) None); try done.
  - by apply restart_ok, Hw.
  - intros k c Hk. by rewrite Hnone in Hk.
  - intros k c x Hk. by rewrite Hnone in Hk.
Qed.

Lemma step_ok e w : world_ok w → world_ok (step e w).
Proof.
  intros Hw. destruct e as [i slot ctx ep dir bs|i|i|i|i|b]; [simpl..|by apply world_ok_power_cycle].
  - destruct (open_lease _ _ _) as [[l st] k] eqn:Ho.
    eapply world_ok_open; [done| | | | | |exact Ho]; try done; by apply wrap_range.
  - destruct (w_leases w !! i) as [l|] eqn:Hi; [|done].
    destruct (next (l, w_store w)) as [r [l' st]] eqn:Hn. by apply (world_ok_next w i l).
  - destruct (w_leases w !! i) as [l|] eqn:Hi; [|done]. by apply world_ok_evict.
  - by apply world_ok_delete.
  - destruct (w_leases w !! i) as [l|] eqn:Hi; [|done].
    destruct (initialize (l, w_store w)) as [r [l' st]] eqn:Hn.
    pose proof (wo_lease w Hw i l Hi) as Hl.
    destruct (initialize_spec l (w_store w) r l' st (wo_store w Hw) Hn)
      as (Hst & Hv & Hd & Hid & Hin & Hrng).
    assert (Hm : cov_mono (w_store w) st) by (by apply cov_mono_same).
    assert (Hh : ∀ x, cp_holds (checkpoint l') x → cp_holds (checkpoint l) x)
      by (unfold cp_holds; simpl; intros; lia).
    pose proof (lease_ok_mono _ _ _ Hm Hl) as Hl1. destruct Hl1 as [[Hlo Hhi Hc] _ _ _]. simpl in Hlo, Hhi.
    apply world_ok_shrink; [done|done|done| |].
    + apply (same_id_ok st l); [done|done|by eapply lease_ok_mono|lia|].
      intros x Hx. by apply Hc, Hh.
    + intros x Hx. exists (checkpoint l). destruct Hid as [Hs He _]. unfold tag. simpl.
      rewrite Hi, Hs, He. split_and!; auto.
Qed.

Lemma start_ok st : store_ok st → world_ok (start st).
Proof.
  intros Hst. assert (Hnone : ∀ k, owner (start st) k = None).
  { intros [i|j]; simpl; [done|]. unfold Slots.at_.
    destruct (replicate cache_capacity None !! j) as [o|] eqn:Hj; [|done].
    apply lookup_replicate in Hj as [-> _]. done. }
  constructor; try done; simpl.
  - intros k c Hk. by rewrite Hnone in Hk.
  - intros k1 k2 c1 c2 x Hk. by rewrite Hnone in Hk.
  - intros k c x Hk. by rewrite Hnone in Hk.
  - intros t Ht. by apply not_elem_of_nil in Ht.
  - constructor.
Qed.

Lemma run_ok es st : store_ok st → world_ok (run es st).
Proof.
  intros Hst. unfold run. pose proof (start_ok st Hst) as Hw. revert Hw.
  generalize (start st). induction es as [|e es IH]; intros w Hw; simpl; [done|].
  by apply IH, step_ok.
Qed.

(** C1: whatever a node does (opening, evicting, resuming, dropping and
    re-initialising any number of leases, with commits that fail, land anyway
    or tear the record, and with power cycles at any point), over a store that
    keeps the contract no counter is ever issued twice for one slot and key
    epoch, and every counter issued fits the 48-bit wire field. *)
Theorem counters_never_reissued es st :
  store_ok st →
  NoDup (w_issued (run es st)) ∧
  Forall (λ t, 0 ≤ t.2 ≤ kMaxCryptoCounter) (w_issued (run es st)).
Proof.
  intros Hst. pose proof (run_ok es st Hst) as Hw. split; [apply Hw|].
  apply Forall_forall. intros t Ht. by apply (wo_issued _ Hw).
Qed.

End System.
End System.

(** ** A store with injected faults *)

(** A store of a map and a script that says how the next operations go: the
    NVS adapter seen from the lease. *)
Module FaultStore.

Inductive fault := Fine | Refuse | LandAnyway | Tear.
Record FaultStore := mkFaultStore { records : gmap Z CounterRecord; script : list fault }.

Definition pop_fault (s : FaultStore) : fault * FaultStore :=
  match script s with
  | [] => (Fine, s)
  | f :: fs => (f, mkFaultStore (records s) fs)
  end.

Definition fs_load (slot : Z) : M FaultStore (option CounterRecord) := λ s,
  match pop_fault s with
  | (Fine, s') => (Ok (records s' !! slot), s')
  | (_, s') => (Err StorageFailure "load", s')
  end.

(** A record whose checksum bytes were not written. *)
Definition torn (r : CounterRecord) : CounterRecord :=
  mkCounterRecord (cr_context_id r) (cr_key_epoch r) (cr_direction r) (cr_layout r)
    (cr_reserved r) (cr_high_water_exclusive r) (cr_generation r) (counter_record_crc r + 1).

Definition fs_commit (slot : Z) (r : CounterRecord) : M FaultStore unit := λ s,
  match pop_fault s with
  | (Fine, s') => (Ok tt, mkFaultStore (<[slot := r]> (records s')) (script s'))
  | (Refuse, s') => (Err StorageFailure "commit", s')
  | (LandAnyway, s') => (Err StorageFailure "commit", mkFaultStore (<[slot := r]> (records s')) (script s'))
  | (Tear, s') => (Err StorageFailure "commit", mkFaultStore (<[slot := torn r]> (records s')) (script s'))
  end.

#[global] Instance fault_store : CounterStore FaultStore :=
  { store_load := fs_load; store_commit := fs_commit; store_restart := λ _ s, s }.

Lemma torn_not_intact r : counter_record_intact (torn r) = false.
Proof.
  unfold counter_record_intact. rewrite bool_decide_eq_false_2; [done|].
  change (counter_record_crc (torn r)) with (counter_record_crc r). simpl. lia.
Qed.

Lemma pop_fault_records s f s' : pop_fault s = (f, s') → records s' = records s.
Proof. unfold pop_fault. destruct (script s); by intros [= <- <-]. Qed.

#[global] Program Instance fault_store_laws : CounterStoreLaws FaultStore :=
  { store_view := records; store_dead := λ _, -1;
    store_ok := λ s, map_Forall (λ _, counter_record_typed) (records s) }.
Next Obligation.
  intros s slot r s' Hok Hl. simpl in Hl. unfold fs_load in Hl.
  destruct (pop_fault s) as [f s1] eqn:Hp. apply pop_fault_records in Hp.
  destruct f; simplify_eq; rewrite Hp; split_and!; try done.
  intros ? [= <-]. split; [done|]. intros rec Hrec. by apply (Hok slot).
Qed.
Next Obligation.
  intros s slot rec r s' Hok Hty Hc. simpl in Hc. unfold fs_commit in Hc.
  destruct (pop_fault s) as [f s1] eqn:Hp. apply pop_fault_records in Hp.
  assert (Hke : -1 < cr_key_epoch rec) by (destruct Hty as [[? _] _]; lia).
  unfold commit_outcome. destruct f; simplify_eq; simpl; rewrite ?Hp; split_and!; auto;
    try (apply map_Forall_insert_2; done).
  right. right. exists (torn rec). split; [apply torn_not_intact|done].
Qed.
Next Obligation. intros s e Hok. split_and!; [done|lia|]. intros. by left. Qed.

(** [n] consecutive calls of [next] on one lease. *)
Fixpoint issue (n : nat) (s : Lease.CounterLease * FaultStore)
  : list (result Z) * (Lease.CounterLease * FaultStore) :=
  match n with
  | O => ([], s)
  | S k => let '(r, s1) := Lease.next s in
           let '(rs, s2) := issue k s1 in (r :: rs, s2)
  end.

(** An initialised lease whose slot is free, older, or at its own end. *)
Record settled (l : Lease.CounterLease) (m : gmap Z CounterRecord) : Prop := {
  st_init : Lease.initialized_ l = true;
  st_range : 0 ≤ Lease.cursor_ l ≤ Lease.end_ l;
  st_block : 0 < Lease.block_size_ l < 2 ^ 32;
  st_epoch : is_u32 (Lease.key_epoch_ l);
  st_record r : m !! Lease.slot_ l = Some r →
    counter_record_intact r = true ∧
    (cr_key_epoch r < Lease.key_epoch_ l ∨
     cr_key_epoch r = Lease.key_epoch_ l ∧ cr_high_water_exclusive r = Lease.end_ l) }.

Lemma next_settled l m :
  settled l m → Lease.cursor_ l + Lease.block_size_ l ≤ kMaxCryptoCounter + 1 →
  ∃ l' m', Lease.next (l, mkFaultStore m []) = (Ok (Lease.cursor_ l), (l', mkFaultStore m' [])) ∧
    settled l' m' ∧ Lease.cursor_ l' = Lease.cursor_ l + 1 ∧
    Lease.block_size_ l' = Lease.block_size_ l.
Proof.
  intros [Hi Hr Hb He Hrec] Hmax. unfold Lease.next. cbv [mbind M_bind]. cbn [Lease.lease fst].
  assert (Hw : ∀ x, 0 ≤ x ≤ kMaxCryptoCounter + 1 → u64 x = x)
    by (intros x Hx; apply wrap_id; unfold in_range, kMaxCryptoCounter in *; lia).
  unfold fail_if at 1. rewrite Hi. cbn [negb mret M_ret].
  case_bool_decide as Hce; [|cbn; rewrite Hw by lia; eexists _, m; split; [done|]; split; [|done];
    constructor; simpl; try done; lia].
  unfold Lease.reserve_block. cbv [mbind M_bind]. cbn [Lease.lease fst].
  unfold fail_if at 1. rewrite Hi. cbn [negb mret M_ret]. unfold Lease.on_store at 1. cbn [snd fst].
  assert (Hck : ∃ o, store_load (Lease.slot_ l) (mkFaultStore m []) = (Ok o, mkFaultStore m []) ∧
    Lease.check_persisted o (l, mkFaultStore m []) = (Ok tt, (l, mkFaultStore m []))).
  { exists (m !! Lease.slot_ l). split; [done|]. destruct (m !! Lease.slot_ l) as [r|] eqn:Hm; [|done].
    destruct (Hrec r eq_refl) as (Hint & Hcase). apply andb_true_iff in Hint as [H1 H2].
    cbn. unfold Lease.revalidate. cbv [mbind M_bind fail_if]. cbn [Lease.lease fst].
    rewrite H1, H2. cbn. by repeat (case_bool_decide; cbn; try lia). }
  destruct Hck as (o & -> & ->). cbn [Lease.lease fst]. unfold fail_if at 1.
  rewrite bool_decide_eq_false_2 by lia. cbn [mret M_ret]. unfold Lease.on_store at 1. cbn [fst snd].
  assert (store_commit (Lease.slot_ l) (Lease.next_record l) (mkFaultStore m []) =
    (Ok tt, mkFaultStore (<[Lease.slot_ l := Lease.next_record l]> m) [])) as -> by done.
  cbn. rewrite !(Hw (Lease.end_ l + _)) by lia. rewrite ?Hce.
  eexists _, _. split; [done|]. split; [|done]. constructor; simpl; try done; [lia|].
  intros r. rewrite lookup_insert_eq. intros [= <-]. split; [apply next_record_intact|].
  assert (Hhw : cr_high_water_exclusive (Lease.next_record l) = Lease.end_ l + Lease.block_size_ l)
    by (simpl; apply Hw; lia).
  rewrite Hhw. by right.
Qed.

(** Over a store without faults an initialised lease issues consecutive
    counters, one per call, as long as a block fits below the 48-bit limit. *)
Lemma issue_consecutive n l m :
  settled l m →
  Lease.cursor_ l + Z.of_nat n + Lease.block_size_ l ≤ kMaxCryptoCounter + 1 →
  fst (issue n (l, mkFaultStore m [])) =
  (λ i, Ok (Lease.cursor_ l + Z.of_nat i)) <$> seq 0 n.
Proof.
  revert l m. induction n as [|n IH]; intros l m Hs Hmax; [done|].
  destruct (next_settled l m Hs) as (l' & m' & Hn & Hs' & Hc & Hb); [lia|].
  cbn [issue]. rewrite Hn. specialize (IH l' m' Hs' ltac:(lia)).
  destruct (issue n (l', mkFaultStore m' [])) as [rs s2]. simpl in IH |- *.
  rewrite Z.add_0_r, IH, Hc. f_equal. rewrite <- seq_shift, <- list_fmap_compose.
  apply list_fmap_ext. intros i x _. simpl. f_equal. lia.
Qed.

Lemma issue_consecutive_witness :
  let l := Lease.mkLease 9 5 3 0 4 0 0 0 true in
  settled l ∅ ∧ fst (issue 6 (l, mkFaultStore ∅ [])) = [Ok 0; Ok 1; Ok 2; Ok 3; Ok 4; Ok 5].
Proof.
  intros l. assert (Hs : settled l ∅) by (constructor; simpl; try done; lia).
  split; [exact Hs|]. apply (issue_consecutive 6 l ∅ Hs). vm_compute. discriminate.
Defined.

(** A run with an eviction and resume, a commit that lands although it
    reports an error, and a power cycle. *)
Lemma counters_never_reissued_witness :
  let es := [System.Open 0%nat 7 1 3 0 2; System.Next 0; System.Evict 0%nat; System.Open 1%nat 7 1 3 0 2;
             System.Next 1; System.Next 1; System.PowerCycle 4; System.Open 0%nat 7 1 3 0 2;
             System.Next 0; System.Next 0] in
  let st := mkFaultStore ∅ [Fine; Fine; Fine; Fine; Fine; LandAnyway] in
  store_ok st ∧ NoDup (System.w_issued (System.run 4 es st)) ∧
  System.w_issued (System.run 4 es st) = [(7, 3, 5); (7, 3, 4); (7, 3, 1); (7, 3, 0)].
Proof.
  intros es st. assert (Hok : store_ok st) by exact (map_Forall_empty (M := gmap Z) (λ _, counter_record_typed)).
  split; [exact Hok|]. split; [|by vm_compute].
  apply (System.counters_never_reissued 4%nat es st Hok).
Defined.

End FaultStore.
