(* ===== verification/Replay.v ===== *)
(** * Receive replay protection (replay.hpp, replay.cpp)

    The persisted epoch floor and accepted ceiling, the RAM sliding window and
    the [ReplayGuard] operations over a [ReplayStore], and the proof that a
    frame counter is accepted at most once per security context through window
    reopening, eviction, concurrent windows, failed commits, power cycles and
    the loss or corruption of window records ([System]). *)

From S2P Require Import Prelude Types Crc32.

(** ** Fingerprints *)
Definition kFnvOffset : Z := 1469598103934665603.
Definition kFnvPrime : Z := 1099511628211.

Definition fnv_step (hash byte : Z) : Z := u64 (Z.lxor hash byte * kFnvPrime).

(** One [fnv_add] step per byte of the value, least significant first. *)
Definition fnv_add (hash value : Z) : Z :=
  fold_left (λ h shift, fnv_step h (u8 (Z.shiftr value shift))) [0; 8; 16; 24; 32; 40; 48; 56] hash.

Definition fold (fingerprint : Z) : Z := u32 (Z.lxor fingerprint (Z.shiftr fingerprint 32)).

(** The fields both fingerprints start from. *)
Definition fnv_pair (c : SecurityContext) : Z :=
  fnv_add (fnv_add (fnv_add (fnv_add kFnvOffset (scope_value (scope c))) (network c)) (sender c)) (receiver c).

Definition replay_context_fingerprint (c : SecurityContext) : Z := fnv_add (fnv_pair c) (epoch c).
Definition replay_peer_fingerprint (c : SecurityContext) : Z := fnv_add (fnv_pair c) 0x524c50454c4f4f52.

Definition window_slot (c : SecurityContext) : Z := fold (replay_context_fingerprint c).
Definition floor_slot (c : SecurityContext) : Z := fold (replay_peer_fingerprint c).

(** ** Persisted records *)
Record ReplayWindowRecord := mkWindowRecord {
  wr_context_fingerprint : Z; wr_accepted_ceiling : Z; wr_legacy_bitmap : Z;
  wr_generation : Z; wr_initialized : Z; wr_layout : Z; wr_reserved : list Z; wr_crc : Z }.

Record ReplayFloorRecord := mkFloorRecord {
  fr_peer_fingerprint : Z; fr_generation : Z; fr_minimum_epoch : Z;
  fr_initialized : Z; fr_layout : Z; fr_reserved : list Z; fr_crc : Z }.

#[global] Instance ReplayWindowRecord_eq_dec : EqDecision ReplayWindowRecord.
Proof. solve_decision. Defined.
#[global] Instance ReplayFloorRecord_eq_dec : EqDecision ReplayFloorRecord.
Proof. solve_decision. Defined.

Definition kReplayRecordLayout : Z := 2.
Definition kReplayReservationAhead : Z := 64.

Definition zero_window_record : ReplayWindowRecord := mkWindowRecord 0 0 0 0 0 0 [0; 0; 0; 0; 0; 0] 0.

Definition window_image (r : ReplayWindowRecord) : list Z :=
  le_bytes 8 (wr_context_fingerprint r) ++ le_bytes 8 (wr_accepted_ceiling r) ++
  le_bytes 8 (wr_legacy_bitmap r) ++ le_bytes 4 (wr_generation r) ++
  [wr_initialized r; wr_layout r] ++ wr_reserved r.
Definition window_crc (r : ReplayWindowRecord) : Z := crc32_iso_hdlc (window_image r).

Definition floor_image (r : ReplayFloorRecord) : list Z :=
  le_bytes 8 (fr_peer_fingerprint r) ++ le_bytes 4 (fr_generation r) ++
  le_bytes 4 (fr_minimum_epoch r) ++ [fr_initialized r; fr_layout r] ++ fr_reserved r.
Definition floor_crc (r : ReplayFloorRecord) : Z := crc32_iso_hdlc (floor_image r).

(** The structural tests [floor_state] and [check_window_floor] make. *)
Definition floor_valid (f : ReplayFloorRecord) : bool :=
  bool_decide (fr_crc f = floor_crc f) && negb (bool_decide (fr_initialized f = 0)) &&
  bool_decide (fr_layout f = kReplayRecordLayout).

(** The test [open_context] makes of a loaded window record. *)
Definition window_valid (r : ReplayWindowRecord) : bool :=
  bool_decide (wr_crc r = window_crc r) && negb (bool_decide (wr_initialized r = 0)) &&
  (bool_decide (wr_layout r = 0) || bool_decide (wr_layout r = kReplayRecordLayout)).

(** [ReplayStore]: the abstract class; [rs_restart] is a power cycle. *)
Class ReplayStore (ST : Type) := {
  load_window : Z → M ST (option ReplayWindowRecord);
  commit_window : Z → ReplayWindowRecord → M ST unit;
  load_floor : Z → M ST (option ReplayFloorRecord);
  commit_floor : Z → ReplayFloorRecord → M ST unit;
  rs_restart : ST → ST }.

(** The contract: a commit that succeeds is durable, one that fails has left
    the old record or the new one; a power cycle may also lose or corrupt a
    window record and corrupt a floor, but never loses a floor. *)
Class ReplayStoreLaws (ST : Type) `{ReplayStore ST} := {
  rs_windows : ST → gmap Z ReplayWindowRecord;
  rs_floors : ST → gmap Z ReplayFloorRecord;
  load_window_ok s slot r s' :
    load_window slot s = (r, s') →
    rs_windows s' = rs_windows s ∧ rs_floors s' = rs_floors s ∧
    (∀ o, r = Ok o → o = rs_windows s !! slot);
  load_floor_ok s slot r s' :
    load_floor slot s = (r, s') →
    rs_windows s' = rs_windows s ∧ rs_floors s' = rs_floors s ∧
    (∀ o, r = Ok o → o = rs_floors s !! slot);
  commit_window_ok s slot rec r s' :
    commit_window slot rec s = (r, s') →
    rs_floors s' = rs_floors s ∧
    (rs_windows s' = <[slot := rec]> (rs_windows s) ∨
     is_ok r = false ∧ rs_windows s' = rs_windows s);
  commit_floor_ok s slot rec r s' :
    commit_floor slot rec s = (r, s') →
    rs_windows s' = rs_windows s ∧
    (rs_floors s' = <[slot := rec]> (rs_floors s) ∨
     is_ok r = false ∧ rs_floors s' = rs_floors s);
  rs_restart_ok s slot :
    (rs_windows (rs_restart s) !! slot = rs_windows s !! slot ∨
     ∀ r, rs_windows (rs_restart s) !! slot = Some r → window_valid r = false) ∧
    (rs_floors (rs_restart s) !! slot = rs_floors s !! slot ∨
     ∃ f, rs_floors (rs_restart s) !! slot = Some f ∧ floor_valid f = false) }.

(** ** [ReplayGuard] *)
Module Guard.

Record ReplayGuard := mkGuard {
  reservation_ahead_ : Z; foreign_fingerprint_rejects_ : Z }.

(** [ReplayGuard::Window] *)
Record Window := mkWindow {
  record : ReplayWindowRecord; maximum_counter : Z; bitmap : Z; live : bool;
  slot : Z; epoch : Z; open : bool; peer_fingerprint : Z }.

Definition no_window : Window := mkWindow zero_window_record 0 0 false 0 0 false 0.

Section Guard.
Context {ST : Type} `{ReplayStore ST}.

Definition GM := M (ReplayGuard * ST).

Definition on_store {A} (m : M ST A) : GM A :=
  λ s, let '(r, st) := m (snd s) in (r, (fst s, st)).
Definition guard : GM ReplayGuard := λ s, (Ok (fst s), s).
Definition count_foreign : GM unit := λ s,
  (Ok tt, (mkGuard (reservation_ahead_ (fst s)) (u32 (foreign_fingerprint_rejects_ (fst s) + 1)), snd s)).

Definition floor_state (context : SecurityContext) : GM (option ReplayFloorRecord) :=
  found ← on_store (load_floor (floor_slot context));
  match found with
  | None => mret None
  | Some floor =>
      if floor_valid floor &&
         negb (bool_decide (fr_peer_fingerprint floor = replay_peer_fingerprint context)) then
        count_foreign;;
        throw IntegrityError "replay floor foreign fingerprint"
      else
        fail_if (negb (floor_valid floor) ||
                 negb (bool_decide (fr_peer_fingerprint floor = replay_peer_fingerprint context)))
          IntegrityError "replay epoch floor corrupt";;
        mret (Some floor)
  end.

Definition next_floor (context : SecurityContext) (floor : option ReplayFloorRecord) : ReplayFloorRecord :=
  let next := mkFloorRecord (replay_peer_fingerprint context)
    (match floor with Some f => u32 (fr_generation f + 1) | None => 1 end)
    (Types.epoch context) 1 kReplayRecordLayout [0; 0] 0 in
  mkFloorRecord (fr_peer_fingerprint next) (fr_generation next) (fr_minimum_epoch next)
    (fr_initialized next) (fr_layout next) (fr_reserved next) (floor_crc next).

(** [floor] is [None] when the record was not found. *)
Definition ratchet_floor (context : SecurityContext) (floor : option ReplayFloorRecord) : GM unit :=
  match floor with
  | Some f =>
      if bool_decide (Types.epoch context ≤ fr_minimum_epoch f) then mret tt
      else on_store (commit_floor (floor_slot context) (next_floor context floor))
  | None => on_store (commit_floor (floor_slot context) (next_floor context floor))
  end.

Definition epoch_below (context : SecurityContext) (floor : option ReplayFloorRecord) : bool :=
  match floor with
  | Some f => bool_decide (Types.epoch context < fr_minimum_epoch f)
  | None => false
  end.

Definition check_floor (context : SecurityContext) : GM unit :=
  floor ← floor_state context;
  fail_if (epoch_below context floor) ReplayRejected "REPLAY_EPOCH_STALE";;
  ratchet_floor context floor.

(** The record a context starts from, once its window slot was read. *)
Definition fresh_record (context : SecurityContext) : ReplayWindowRecord :=
  mkWindowRecord (replay_context_fingerprint context) 0 0 0 0 0 [0; 0; 0; 0; 0; 0] 0.

Definition choose_record (context : SecurityContext) (floor : option ReplayFloorRecord)
    (found : option ReplayWindowRecord) : GM ReplayWindowRecord :=
  match found with
  | Some record =>
      fail_if (negb (window_valid record)) IntegrityError "replay window corrupt";;
      if bool_decide (wr_context_fingerprint record = replay_context_fingerprint context) then mret record
      else if (match floor with
               | Some f => bool_decide (Types.epoch context ≤ fr_minimum_epoch f)
               | None => false end) then
        count_foreign;;
        throw ReplayRejected "REPLAY_STATE_LOST"
      else mret (fresh_record context)
  | None =>
      fail_if (match floor with
               | Some f => bool_decide (Types.epoch context = fr_minimum_epoch f)
               | None => false end) ReplayRejected "REPLAY_STATE_LOST";;
      mret (fresh_record context)
  end.

Definition opened_window (context : SecurityContext) (record : ReplayWindowRecord) : Window :=
  let live := negb (bool_decide (wr_initialized record = 0)) in
  mkWindow record
    (if live then wr_accepted_ceiling record else 0)
    (if live then UINT64_MAX else 0) live
    (floor_slot context) (Types.epoch context) true (replay_peer_fingerprint context).

(** On an error the caller's window is the closed one. *)
Definition open_context (context : SecurityContext) : GM Window :=
  floor ← floor_state context;
  fail_if (epoch_below context floor) ReplayRejected "REPLAY_EPOCH_STALE";;
  found ← on_store (load_window (floor_slot context));
  record ← choose_record context floor found;
  ratchet_floor context floor;;
  mret (opened_window context record).

Definition check_window_floor (window : Window) : GM unit :=
  found ← on_store (load_floor (slot window));
  match found with
  | None => throw ReplayRejected "REPLAY_STATE_LOST"
  | Some floor =>
      if floor_valid floor && negb (bool_decide (fr_peer_fingerprint floor = peer_fingerprint window)) then
        count_foreign;;
        throw IntegrityError "replay floor foreign fingerprint"
      else
        fail_if (negb (floor_valid floor) ||
                 negb (bool_decide (fr_peer_fingerprint floor = peer_fingerprint window)))
          IntegrityError "replay epoch floor corrupt";;
        fail_if (bool_decide (epoch window < fr_minimum_epoch floor))
          ReplayRejected "REPLAY_EPOCH_STALE"
  end.

Definition next_window_record (r : ReplayWindowRecord) (ceiling : Z) : ReplayWindowRecord :=
  let next := mkWindowRecord (wr_context_fingerprint r) ceiling 0 (u32 (wr_generation r + 1)) 1
    kReplayRecordLayout ((λ _, 0) <$> wr_reserved r) (wr_crc r) in
  mkWindowRecord (wr_context_fingerprint next) (wr_accepted_ceiling next) (wr_legacy_bitmap next)
    (wr_generation next) (wr_initialized next) (wr_layout next) (wr_reserved next) (window_crc next).

Definition set_record (r : ReplayWindowRecord) (w : Window) : Window :=
  mkWindow r (maximum_counter w) (bitmap w) (live w) (slot w) (epoch w) (open w) (peer_fingerprint w).

(** Another window wrote the slot since this one loaded or committed. *)
Definition superseded (w : Window) (persisted : option ReplayWindowRecord) : bool :=
  if negb (bool_decide (wr_initialized (record w) = 0)) then
    negb (bool_decide (persisted = Some (record w)))
  else match persisted with
       | Some p => bool_decide (wr_context_fingerprint p = wr_context_fingerprint (record w))
       | None => false
       end.

Definition commit_ceiling (window : Window) (ceiling : Z) : GM Window :=
  persisted ← on_store (load_window (slot window));
  fail_if (superseded window persisted) ReplayRejected "REPLAY_WINDOW_SUPERSEDED";;
  on_store (commit_window (slot window) (next_window_record (record window) ceiling));;
  mret (set_record (next_window_record (record window) ceiling) window).

(** The sliding-window step on the RAM window: the new maximum and bitmap, or
    nothing for a counter that was seen or has left the window. *)
Definition slide (w : Window) (counter : Z) : option (Z * Z) :=
  if negb (live w) then Some (counter, 1)
  else if bool_decide (maximum_counter w < counter) then
    let delta := counter - maximum_counter w in
    Some (counter, if bool_decide (64 ≤ delta) then 1
                   else Z.lor (u64 (Z.shiftl (bitmap w) delta)) 1)
  else
    let delta := maximum_counter w - counter in
    if bool_decide (64 ≤ delta) || negb (bool_decide (Z.land (bitmap w) (Z.shiftl 1 delta) = 0))
    then None
    else Some (maximum_counter w, Z.lor (bitmap w) (Z.shiftl 1 delta)).

Definition reserve_to (ahead maximum : Z) : Z :=
  if bool_decide (UINT64_MAX - ahead < maximum) then UINT64_MAX else maximum + ahead.

Definition accept (window : Window) (counter : Z) : GM Window :=
  fail_if (negb (open window)) InvalidState "replay window not open";;
  check_window_floor window;;
  match slide window counter with
  | None => throw ReplayRejected "replayed security counter"
  | Some (maximum, bits) =>
      g ← guard;
      window' ← (if bool_decide (wr_initialized (record window) = 0) ||
                    bool_decide (wr_accepted_ceiling (record window) < maximum)
                 then commit_ceiling window (reserve_to (reservation_ahead_ g) maximum)
                 else mret window);
      mret (mkWindow (record window') maximum bits true (slot window') (epoch window')
              (open window') (peer_fingerprint window'))
  end.

(** The caller's window is closed whatever the status. *)
Definition close_context (window : Window) : GM unit :=
  if open window && live window && negb (bool_decide (wr_initialized (record window) = 0)) &&
     bool_decide (maximum_counter window < wr_accepted_ceiling (record window)) then
    check_window_floor window;;
    commit_ceiling window (maximum_counter window);;
    mret tt
  else mret tt.

End Guard.
End Guard.

(** ** Fingerprint facts *)

(** The inverse of the FNV prime modulo 2^64. *)
Definition kFnvInverse : Z := 14886173955864302971.

Lemma fnv_step_inj h h' b :
  is_u64 h → is_u64 h' → is_u8 b → fnv_step h b = fnv_step h' b → h = h'.
Proof.
  intros Hh Hh' Hb Heq. unfold fnv_step, wrap in Heq.
  assert (Hb64 : is_u64 b) by (eapply in_range_mono; [|done]; lia).
  apply (lxor_inj_l _ _ b).
  assert (Hx : is_u64 (Z.lxor h b)) by (by apply lxor_range).
  assert (Hx' : is_u64 (Z.lxor h' b)) by (by apply lxor_range).
  apply (f_equal (λ t, (t * kFnvInverse) mod 2 ^ 64)) in Heq.
  rewrite !Z.mul_mod_idemp_l, <- !Z.mul_assoc in Heq by lia.
  rewrite <- !(Z.mul_mod_idemp_r _ (kFnvPrime * kFnvInverse)) in Heq by lia.
  assert (Hinv : (kFnvPrime * kFnvInverse) mod 2 ^ 64 = 1) by (by vm_compute).
  rewrite Hinv, !Z.mul_1_r in Heq. by rewrite !Z.mod_small in Heq by assumption.
Qed.

Lemma fnv_add_inj h h' v : is_u64 h → is_u64 h' → fnv_add h v = fnv_add h' v → h = h'.
Proof.
  unfold fnv_add. generalize [0; 8; 16; 24; 32; 40; 48; 56]. intros l. revert h h'.
  induction l as [|s l IH]; intros h h' Hh Hh'; simpl; [done|].
  intros Heq%IH; [|by apply wrap_range..].
  eapply fnv_step_inj; [done|done| |exact Heq]. by apply wrap_range.
Qed.

Lemma fnv_add_range h v : is_u64 (fnv_add h v).
Proof. unfold fnv_add. simpl. by apply wrap_range. Qed.

Lemma fnv_pair_range c : is_u64 (fnv_pair c).
Proof. unfold fnv_pair. apply fnv_add_range. Qed.

#[global] Opaque fnv_add fold.

(** The peer fingerprint and the epoch determine the context fingerprint. *)
Lemma fingerprint_determined c c' :
  replay_peer_fingerprint c = replay_peer_fingerprint c' → Types.epoch c = Types.epoch c' →
  replay_context_fingerprint c = replay_context_fingerprint c'.
Proof.
  unfold replay_peer_fingerprint, replay_context_fingerprint. intros Hp He.
  exact (f_equal2 fnv_add (fnv_add_inj _ _ _ (fnv_pair_range c) (fnv_pair_range c') Hp) He).
Qed.

Section Facts.
Import Guard.
Context {ST : Type} `{ReplayStoreLaws ST}.

Definition same_key (c c' : SecurityContext) : Prop :=
  replay_peer_fingerprint c = replay_peer_fingerprint c' ∧ Types.epoch c = Types.epoch c'.

#[global] Instance same_key_equiv : Equivalence same_key.
Proof.
  unfold same_key. split; [done|by intros c c' [-> ->]|]. intros x y z [-> ->]. done.
Qed.

Lemma same_key_slot c c' : same_key c c' → floor_slot c = floor_slot c'.
Proof. unfold floor_slot. by intros [-> _]. Qed.

Lemma same_key_fp c c' :
  same_key c c' → replay_context_fingerprint c = replay_context_fingerprint c'.
Proof. intros [? ?]. by apply fingerprint_determined. Qed.

(** A counter the durable state keeps from being accepted again. *)
Definition covered (st : ST) (c : SecurityContext) (x : Z) : Prop :=
  match rs_floors st !! floor_slot c with
  | None => False
  | Some f =>
      floor_valid f = false ∨
      fr_peer_fingerprint f = replay_peer_fingerprint c ∧
      (Types.epoch c < fr_minimum_epoch f ∨
       Types.epoch c = fr_minimum_epoch f ∧
       ∀ r, rs_windows st !! floor_slot c = Some r → window_valid r = true →
         wr_context_fingerprint r = replay_context_fingerprint c → x ≤ wr_accepted_ceiling r)
  end.

#[global] Instance covered_proper st : Proper (same_key ==> (=) ==> iff) (covered st).
Proof.
  intros c c' Hk x _ <-. unfold covered. rewrite (same_key_slot c c' Hk), (same_key_fp c c' Hk).
  destruct Hk as [-> ->]. done.
Qed.

(** The floor admits the context's epoch as the current one. *)
Definition floor_at (st : ST) (c : SecurityContext) (m : Z) : Prop :=
  ∃ f, rs_floors st !! floor_slot c = Some f ∧ floor_valid f = true ∧
    fr_peer_fingerprint f = replay_peer_fingerprint c ∧ fr_minimum_epoch f = m.

(** The slot carries the context's own record. *)
Definition keeps_record (st : ST) (c : SecurityContext) : Prop :=
  ∃ r, rs_windows st !! floor_slot c = Some r ∧
    wr_context_fingerprint r = replay_context_fingerprint c.

(** The counters a window would accept without touching the store. *)
Definition unseen (maximum bits x : Z) : Prop :=
  maximum < x ∨ x ≤ maximum ∧ maximum - x < 64 ∧ Z.testbit bits (maximum - x) = false.

Definition free (w : Window) (x : Z) : Prop :=
  open w = true ∧ live w = true ∧ x ≤ wr_accepted_ceiling (record w) ∧
  unseen (maximum_counter w) (bitmap w) x.

Record window_wf (st : ST) (c : SecurityContext) (w : Window) : Prop := {
  ww_slot : slot w = floor_slot c;
  ww_epoch : epoch w = Types.epoch c;
  ww_peer : peer_fingerprint w = replay_peer_fingerprint c;
  ww_fp : wr_context_fingerprint (record w) = replay_context_fingerprint c;
  ww_live : live w = negb (bool_decide (wr_initialized (record w) = 0));
  ww_valid : live w = true → window_valid (record w) = true ∧
    maximum_counter w ≤ wr_accepted_ceiling (record w);
  ww_floor : ∃ m, floor_at st c m ∧ Types.epoch c ≤ m;
  ww_cov x : free w x → covered st c x }.

Lemma floor_at_inj st c m m' : floor_at st c m → floor_at st c m' → m = m'.
Proof. intros (f & Hf & _ & _ & <-) (f' & Hf' & _ & _ & <-). congruence. Qed.

Lemma floor_at_key st c c' m : same_key c c' → floor_at st c m → floor_at st c' m.
Proof. intros Hk. unfold floor_at. rewrite (same_key_slot c c' Hk). destruct Hk as [-> _]. done. Qed.

Lemma keeps_record_key st c c' : same_key c c' → keeps_record st c → keeps_record st c'.
Proof.
  intros Hk. unfold keeps_record. by rewrite (same_key_slot c c' Hk), (same_key_fp c c' Hk).
Qed.

(** Floors only rise. *)
Definition floors_rise (st st' : ST) : Prop :=
  ∀ c m, floor_at st c m → ∃ m', floor_at st' c m' ∧ m ≤ m'.

(** The checksum does not read the checksum field. *)
Lemma floor_crc_field a b m i l z k k' :
  floor_crc (mkFloorRecord a b m i l z k) = floor_crc (mkFloorRecord a b m i l z k').
Proof. reflexivity. Qed.

Lemma window_crc_field a b m g i l z k k' :
  window_crc (mkWindowRecord a b m g i l z k) = window_crc (mkWindowRecord a b m g i l z k').
Proof. reflexivity. Qed.

Lemma next_floor_valid c o : floor_valid (next_floor c o) = true.
Proof.
  unfold floor_valid, next_floor. cbn [fr_crc fr_initialized fr_layout fr_peer_fingerprint
    fr_generation fr_minimum_epoch fr_reserved].
  rewrite (bool_decide_eq_true_2 (_ = floor_crc _)) by apply floor_crc_field. done.
Qed.

Lemma next_window_valid r x : window_valid (next_window_record r x) = true.
Proof.
  unfold window_valid, next_window_record. cbn [wr_crc wr_initialized wr_layout wr_context_fingerprint
    wr_accepted_ceiling wr_legacy_bitmap wr_generation wr_reserved].
  rewrite (bool_decide_eq_true_2 (_ = window_crc _)) by apply window_crc_field. done.
Qed.

Lemma window_valid_init r : window_valid r = true → wr_initialized r ≠ 0.
Proof.
  unfold window_valid. rewrite !andb_true_iff, negb_true_iff, bool_decide_eq_false. tauto.
Qed.

Lemma next_floor_fields c o :
  fr_minimum_epoch (next_floor c o) = Types.epoch c ∧
  fr_peer_fingerprint (next_floor c o) = replay_peer_fingerprint c.
Proof. split; reflexivity. Qed.

Lemma next_window_fields r x :
  wr_context_fingerprint (next_window_record r x) = wr_context_fingerprint r ∧
  wr_accepted_ceiling (next_window_record r x) = x ∧
  wr_initialized (next_window_record r x) = 1.
Proof. split_and!; reflexivity. Qed.

End Facts.

#[global] Opaque floor_valid window_valid replay_peer_fingerprint replay_context_fingerprint
  floor_slot Guard.next_floor Guard.next_window_record.

(** ** The guard operations *)
Section GuardSpecs.
Import Guard.
Context {ST : Type} `{ReplayStoreLaws ST}.

Definition same_views (st st' : ST) : Prop :=
  rs_windows st' = rs_windows st ∧ rs_floors st' = rs_floors st.

Ltac guard_run H :=
  cbv [mbind M_bind fail_if throw mret M_ret count_foreign] in H;
  repeat (cbn [fst snd negb andb orb] in H; break_in H; simplify_eq);
  cbn [fst snd negb andb orb] in H; simplify_eq.

Lemma same_views_refl st : same_views st st.
Proof. done. Qed.

Lemma on_store_inv {A} (m : M ST A) g (st : ST) r s' :
  on_store m (g, st) = (r, s') → ∃ st', m st = (r, st') ∧ s' = (g, st').
Proof. unfold on_store. simpl. destruct (m st). intros. simplify_eq. eauto. Qed.

Lemma floor_state_spec c g (st : ST) r g' st' :
  floor_state c (g, st) = (r, (g', st')) →
  same_views st st' ∧ reservation_ahead_ g' = reservation_ahead_ g ∧
  (∀ o, r = Ok o → o = rs_floors st !! floor_slot c ∧
     ∀ f, o = Some f → floor_valid f = true ∧ fr_peer_fingerprint f = replay_peer_fingerprint c).
Proof.
  unfold floor_state. intros Hrun.
  destruct (load_floor (floor_slot c) st) as [ld st1] eqn:Hl.
  destruct (load_floor_ok _ _ _ _ Hl) as (Hw & Hf & Ho).
  cbv [mbind M_bind on_store] in Hrun. cbn [fst snd] in Hrun. rewrite Hl in Hrun.
  destruct ld as [[f|]|].
  - specialize (Ho _ eq_refl). destruct (floor_valid f) eqn:Hv; [case_bool_decide as Hp|];
      guard_run Hrun; (split; [done|]); (split; [done|]); intros o [= <-]; (split; [done|]);
      by intros ? [= <-].
  - specialize (Ho _ eq_refl). guard_run Hrun. split; [done|]. split; [done|]. intros o [= <-]. done.
  - guard_run Hrun. split; [done|]. split; done.
Qed.

Lemma ratchet_spec c g (st : ST) r g' st' :
  ratchet_floor c (rs_floors st !! floor_slot c) (g, st) = (r, (g', st')) →
  (∀ f, rs_floors st !! floor_slot c = Some f →
     floor_valid f = true ∧ fr_peer_fingerprint f = replay_peer_fingerprint c) →
  reservation_ahead_ g' = reservation_ahead_ g ∧ rs_windows st' = rs_windows st ∧
  (rs_floors st' = rs_floors st ∨
   rs_floors st' = <[floor_slot c := next_floor c (rs_floors st !! floor_slot c)]> (rs_floors st) ∧
   ∀ f, rs_floors st !! floor_slot c = Some f → fr_minimum_epoch f < Types.epoch c) ∧
  (is_ok r = true → ∃ m, floor_at st' c m ∧ Types.epoch c ≤ m).
Proof.
  intros Hrun Hval. unfold ratchet_floor in Hrun.
  assert (Hcommit : ∀ o, o = rs_floors st !! floor_slot c →
    on_store (commit_floor (floor_slot c) (next_floor c o)) (g, st) = (r, (g', st')) →
    reservation_ahead_ g' = reservation_ahead_ g ∧ rs_windows st' = rs_windows st ∧
    (rs_floors st' = rs_floors st ∧ is_ok r = false ∨
     rs_floors st' = <[floor_slot c := next_floor c o]> (rs_floors st))).
  { intros o _ (st1 & Hc & [= <- <-])%on_store_inv.
    destruct (commit_floor_ok _ _ _ _ _ Hc) as [Hw Hf]. split; [done|]. split; [done|]. tauto. }
  assert (Hat : ∀ o, rs_floors st' = <[floor_slot c := next_floor c o]> (rs_floors st) →
    ∃ m, floor_at st' c m ∧ Types.epoch c ≤ m).
  { intros o Hf. exists (Types.epoch c). split; [|lia]. exists (next_floor c o).
    destruct (next_floor_fields c o) as [Hm Hp]. rewrite Hf, lookup_insert_eq.
    split; [done|]. split; [apply next_floor_valid|]. done. }
  destruct (rs_floors st !! floor_slot c) as [f|] eqn:Hs.
  - destruct (Hval f eq_refl) as [Hv Hp]. case_bool_decide as Hle.
    + unfold mret, M_ret in Hrun. simplify_eq. split; [done|]. split; [done|]. split; [by left|].
      intros _. exists (fr_minimum_epoch f). split; [|done]. by exists f.
    + destruct (Hcommit _ eq_refl Hrun) as (Ha & Hw & [[Hf He]|Hf]);
        (split; [done|]); (split; [done|]).
      * split; [by left|]. rewrite He. done.
      * split; [|intros _; by eapply Hat]. right. split; [done|]. intros ? [= <-]. lia.
  - destruct (Hcommit _ eq_refl Hrun) as (Ha & Hw & [[Hf He]|Hf]);
      (split; [done|]); (split; [done|]).
    + split; [by left|]. rewrite He. done.
    + split; [|intros _; by eapply Hat]. right. by split.
Qed.

Lemma check_window_floor_spec w g (st : ST) r g' st' :
  check_window_floor w (g, st) = (r, (g', st')) →
  same_views st st' ∧ reservation_ahead_ g' = reservation_ahead_ g ∧
  (is_ok r = true → ∃ f, rs_floors st !! slot w = Some f ∧ floor_valid f = true ∧
     fr_peer_fingerprint f = peer_fingerprint w ∧ fr_minimum_epoch f ≤ epoch w).
Proof.
  unfold check_window_floor. intros Hrun.
  destruct (load_floor (slot w) st) as [ld st1] eqn:Hl.
  destruct (load_floor_ok _ _ _ _ Hl) as (Hw & Hf & Ho).
  cbv [mbind M_bind on_store] in Hrun. cbn [fst snd] in Hrun. rewrite Hl in Hrun.
  destruct ld as [[f|]|].
  - specialize (Ho _ eq_refl). destruct (floor_valid f) eqn:Hv; [case_bool_decide as Hp|];
      cbv [fail_if throw count_foreign mret M_ret] in Hrun; cbn [negb andb orb fst snd] in Hrun;
      [case_bool_decide as He|..]; simplify_eq; (split; [done|]); (split; [done|]); try done.
    intros _. exists f. split_and!; try done. lia.
  - guard_run Hrun. split; [done|]. split; done.
  - guard_run Hrun. split; [done|]. split; done.
Qed.

(** A ceiling commit compares with the persisted record first; it fails
    without an effect, or writes the new record (and may still report an
    error). *)
Lemma commit_ceiling_spec w x g (st : ST) r g' st' :
  commit_ceiling w x (g, st) = (r, (g', st')) →
  reservation_ahead_ g' = reservation_ahead_ g ∧ rs_floors st' = rs_floors st ∧
  (is_ok r = false ∧ rs_windows st' = rs_windows st ∨
   superseded w (rs_windows st !! slot w) = false ∧
   rs_windows st' = <[slot w := next_window_record (record w) x]> (rs_windows st)) ∧
  (∀ w', r = Ok w' → w' = set_record (next_window_record (record w) x) w).
Proof.
  unfold commit_ceiling. intros Hrun.
  destruct (load_window (slot w) st) as [ld st1] eqn:Hl.
  destruct (load_window_ok _ _ _ _ Hl) as (Hw & Hf & Ho).
  cbv [mbind M_bind] in Hrun. unfold on_store at 1 in Hrun. cbn [fst snd] in Hrun. rewrite Hl in Hrun.
  destruct ld as [o|]; [|simplify_eq; split_and!; auto; done].
  specialize (Ho _ eq_refl). rewrite <- Ho. unfold fail_if in Hrun.
  destruct (superseded w o) eqn:Hs;
    [unfold throw in Hrun; simplify_eq; split_and!; auto; done|].
  cbn [mret M_ret] in Hrun. unfold on_store in Hrun. cbn [fst snd] in Hrun.
  destruct (commit_window (slot w) (next_window_record (record w) x) st1) as [rc st2] eqn:Hc.
  destruct (commit_window_ok _ _ _ _ _ Hc) as [Hf2 Hcase]. rewrite Hw in Hcase.
  destruct rc; simpl in Hrun; unfold mret, M_ret in Hrun; simplify_eq; rewrite Hf2;
    (split; [done|]); (split; [done|]).
  - destruct Hcase as [Hcase|[? _]]; [|done]. split; [by right|]. by intros ? [= <-].
  - split; [|done]. destruct Hcase as [Hcase|[_ Hcase]]; [by right|by left].
Qed.

(** The slide marks the counter, which was unseen, and nothing else. *)
Lemma slide_spec w c m b :
  live w = true → slide w c = Some (m, b) →
  unseen (maximum_counter w) (bitmap w) c ∧ m = Z.max (maximum_counter w) c ∧
  ∀ x, unseen m b x → x ≠ c ∧ unseen (maximum_counter w) (bitmap w) x.
Proof.
  intros Hl. unfold slide. rewrite Hl. cbn [negb]. unfold unseen. case_bool_decide as Hlt.
  - intros Hs. set (d := c - maximum_counter w) in *. injection Hs as <- <-.
    split; [by left|]. split; [lia|]. intros x [Hx|(Hx & H64 & Hbit)]; [split; [lia|left; lia]|].
    case_bool_decide as Hd.
    + destruct (decide (x = c)) as [->|Hne]; [|split; [done|left; lia]].
      by rewrite Z.sub_diag in Hbit.
    + rewrite Z.lor_spec in Hbit. apply orb_false_iff in Hbit as [Hbit H1].
      assert (x ≠ c) as Hne by (intros ->; by rewrite Z.sub_diag in H1). split; [done|].
      destruct (Z.lt_ge_cases (maximum_counter w) x); [by left|]. right. split; [lia|]. split; [lia|].
      unfold wrap in Hbit. rewrite Z.mod_pow2_bits_low, Z.shiftl_spec in Hbit by lia.
      rewrite <- Hbit. f_equal. lia.
  - set (d := maximum_counter w - c) in *. case_bool_decide as Hd; [done|]. cbn [orb].
    case_bool_decide as Hm; [|done]. intros Hs. cbn [negb] in Hs. injection Hs as <- <-.
    rewrite mask_testbit in Hm by lia. split; [right; split; [lia|]; split; [lia|done]|].
    split; [lia|]. intros x [Hx|(Hx & H64 & Hbit)]; [split; [lia|by left]|].
    rewrite Z.lor_spec in Hbit. apply orb_false_iff in Hbit as [Hbit H1].
    split; [|by right]. intros ->. rewrite Z.shiftl_1_l in H1.
    by rewrite Z.pow2_bits_true in H1 by lia.
Qed.

Lemma slide_first w c m b :
  live w = false → slide w c = Some (m, b) → m = c ∧ ∀ x, unseen m b x → x ≠ c.
Proof.
  intros Hl. unfold slide. rewrite Hl. intros [= <- <-]. split; [done|].
  intros x [Hx|(_ & _ & Hb)] ->; [lia|]. by rewrite Z.sub_diag in Hb.
Qed.

End GuardSpecs.

(** ** A receiver: any number of windows over one store *)
Module System.
Section System.
Import Guard.
Context {ST : Type} `{ReplayStoreLaws ST}.

Record World := mkWorld {
  w_guard : ReplayGuard; w_store : ST;
  w_windows : gmap nat (SecurityContext * Window);
  w_accepted : list (SecurityContext * Z) }.

Inductive event :=
  | Open (i : nat) (c : SecurityContext)
  | Check (c : SecurityContext)
  | Accept (i : nat) (counter : Z)
  | Close (i : nat)
  | Drop (i : nat)
  | PowerCycle.

Definition step (e : event) (w : World) : World :=
  match e with
  | Open i c =>
      let '(r, (g, st)) := open_context c (w_guard w, w_store w) in
      mkWorld g st (<[i := (c, match r with Ok win => win | Err _ _ => no_window end)]> (w_windows w))
        (w_accepted w)
  | Check c =>
      let '(_, (g, st)) := check_floor c (w_guard w, w_store w) in
      mkWorld g st (w_windows w) (w_accepted w)
  | Accept i counter =>
      match w_windows w !! i with
      | None => w
      | Some (c, win) =>
          let '(r, (g, st)) := accept win (u64 counter) (w_guard w, w_store w) in
          match r with
          | Ok win' => mkWorld g st (<[i := (c, win')]> (w_windows w)) ((c, u64 counter) :: w_accepted w)
          | Err _ _ => mkWorld g st (w_windows w) (w_accepted w)
          end
      end
  | Close i =>
      match w_windows w !! i with
      | None => w
      | Some (c, win) =>
          let '(_, (g, st)) := close_context win (w_guard w, w_store w) in
          mkWorld g st (<[i := (c, no_window)]> (w_windows w)) (w_accepted w)
      end
  | Drop i => mkWorld (w_guard w) (w_store w) (delete i (w_windows w)) (w_accepted w)
  | PowerCycle => mkWorld (w_guard w) (rs_restart (w_store w)) ∅ (w_accepted w)
  end.

Definition start (ahead : Z) (st : ST) : World := mkWorld (mkGuard (u32 ahead) 0) st ∅ [].
Definition run (ahead : Z) (es : list event) (st : ST) : World :=
  fold_left (λ w e, step e w) es (start ahead st).

Definition tag (p : SecurityContext * Z) : Z * Z * Z :=
  (replay_peer_fingerprint p.1, Types.epoch p.1, p.2).

Definition untouched (w : World) (i : nat) (c : SecurityContext) : Prop :=
  (∀ j c' win, j ≠ i → w_windows w !! j = Some (c', win) → open win = true → ¬ same_key c c') ∧
  (∀ c' x, (c', x) ∈ w_accepted w → ¬ same_key c c').

Record world_ok (w : World) : Prop := {
  wo_ahead : 0 ≤ reservation_ahead_ (w_guard w);
  wo_window i c win : w_windows w !! i = Some (c, win) → open win = true →
    window_wf (w_store w) c win;
  wo_unique i j c c' win win' x : w_windows w !! i = Some (c, win) → w_windows w !! j = Some (c', win') →
    same_key c c' → free win x → free win' x → i = j;
  wo_disjoint i c win x : w_windows w !! i = Some (c, win) → free win x →
    tag (c, x) ∉ (tag <$> w_accepted w);
  wo_accepted c x : (c, x) ∈ w_accepted w → covered (w_store w) c x;
  wo_fresh i c win : w_windows w !! i = Some (c, win) → open win = true → live win = false →
    floor_at (w_store w) c (Types.epoch c) → keeps_record (w_store w) c ∨ untouched w i c;
  wo_nodup : NoDup (tag <$> w_accepted w) }.

Lemma tag_key c c' x y : tag (c, x) = tag (c', y) → same_key c c' ∧ x = y.
Proof. unfold tag, same_key. simpl. intros [= -> -> ->]. done. Qed.

Lemma tag_accepted w c x :
  tag (c, x) ∈ (tag <$> w_accepted w) ↔ ∃ c', same_key c c' ∧ (c', x) ∈ w_accepted w.
Proof.
  rewrite list_elem_of_fmap. split.
  - intros ([c' y] & Ht & Hin). apply tag_key in Ht as [Hk ->]. eauto.
  - intros (c' & [Hp He] & Hin). exists (c', x). split; [|done]. unfold tag. simpl. by rewrite Hp, He.
Qed.

(** The effect of one event on the window at [i], the store and the counters:
    what the window at [i] would accept was its own before, or belongs to
    nobody; the other windows keep their counters. *)
Lemma window_world_ok_step w g st' i c win' (t : option Z) :
  world_ok w → 0 ≤ reservation_ahead_ g →
  floors_rise (w_store w) st' →
  (∀ c' x, (c', x) ∈ w_accepted w → covered (w_store w) c' x → covered st' c' x) →
  (∀ j c' win x, j ≠ i → w_windows w !! j = Some (c', win) → free win x →
     covered (w_store w) c' x → covered st' c' x) →
  (∀ c', floor_at st' c' (Types.epoch c') → keeps_record (w_store w) c' → keeps_record st' c') →
  (open win' = true → window_wf st' c win') →
  (∀ x, free win' x ∨ t = Some x →
     (∃ c0 win, w_windows w !! i = Some (c0, win) ∧ same_key c c0 ∧ free win x) ∨
     (∀ j c' win, j ≠ i → w_windows w !! j = Some (c', win) → same_key c c' → ¬ free win x) ∧
     tag (c, x) ∉ (tag <$> w_accepted w)) →
  (∀ x, t = Some x → open win' = true ∧ live win' = true ∧ ¬ free win' x ∧ covered st' c x) →
  (open win' = true → ∀ j c' win, j ≠ i → w_windows w !! j = Some (c', win) → open win = true →
     same_key c c' → live win = false → floor_at st' c' (Types.epoch c') → keeps_record st' c') →
  (open win' = true → live win' = false → floor_at st' c (Types.epoch c) →
     keeps_record st' c ∨ untouched w i c) →
  world_ok (mkWorld g st' (<[i := (c, win')]> (w_windows w)) (((c,.) <$> option_list t) ++ w_accepted w)).
Proof.
  intros [_ Hww Huq Hdj Hac Hfr Hnd] Hg Hrise Hca Hcf Hkr Hwf' Hsrc Ht Hsec Hself.
  assert (Hother : ∀ j c' win, <[i := (c, win')]> (w_windows w) !! j = Some (c', win) →
    (j = i ∧ c' = c ∧ win = win') ∨ (j ≠ i ∧ w_windows w !! j = Some (c', win))).
  { intros j c' win [[-> Heq]|[Hne Hj]]%lookup_insert_Some; [left|by right]. by simplify_eq. }
  assert (Hnew : ∀ x, t = Some x → tag (c, x) ∉ (tag <$> w_accepted w)).
  { intros x Hx. destruct (Hsrc x (or_intror Hx)) as [(c0 & win & Hi & [Hkp Hke] & Hf)|[_ Hn]]; [|done].
    unfold tag. simpl. rewrite Hkp, Hke. by apply (Hdj i c0 win). }
  constructor; simpl; [done|..].
  - intros j c' win [(-> & -> & ->)|[Hne Hj]]%Hother Ho; [by apply Hwf'|].
    pose proof (Hww _ _ _ Hj Ho) as [W1 W2 W3 W4 W5 W6 (m & Hm & Hle) W8].
    destruct (Hrise _ _ Hm) as (m' & Hm' & Hle'). constructor; [exact W1|exact W2|exact W3|exact W4|exact W5|exact W6|..].
    + exists m'. split; [exact Hm'|lia].
    + intros x Hx. eapply Hcf; eauto.
  - intros j k c1 c2 win1 win2 x Hj Hk Hkey Hx1 Hx2.
    apply Hother in Hj as [(-> & -> & ->)|[Hne1 Hj]];
      apply Hother in Hk as [(-> & -> & ->)|[Hne2 Hk]].
    + done.
    + destruct (Hsrc x (or_introl Hx1)) as [(c0 & win & Hi & Hk0 & Hf)|[Hno _]].
      * symmetry. eapply Huq; [exact Hk|exact Hi| |done|done]. by rewrite <- Hkey.
      * destruct (Hno k c2 win2 Hne2 Hk Hkey Hx2).
    + destruct (Hsrc x (or_introl Hx2)) as [(c0 & win & Hi & Hk0 & Hf)|[Hno _]].
      * eapply Huq; [exact Hj|exact Hi| |done|done]. by rewrite Hkey.
      * destruct (Hno j c1 win1 Hne1 Hj (symmetry Hkey) Hx1).
    + by eapply Huq.
  - intros j c' win x Hj Hx. rewrite fmap_app. intros [Hin|Hin]%elem_of_app.
    + destruct t as [y|]; simpl in Hin; [|by apply not_elem_of_nil in Hin].
      apply list_elem_of_singleton, tag_key in Hin as [Hk ->].
      destruct (Ht y eq_refl) as (_ & _ & Hnf & _).
      apply Hother in Hj as [(-> & -> & ->)|[Hne Hj]]; [done|].
      destruct (Hsrc y (or_intror eq_refl)) as [(c0 & win0 & Hi & Hk0 & Hf)|[Hno _]].
      * apply Hne. eapply Huq; [exact Hj|exact Hi| |done|done]. by rewrite Hk.
      * by apply (Hno j c' win Hne Hj (symmetry Hk)).
    + apply Hother in Hj as [(-> & -> & ->)|[Hne Hj]]; [|by eapply Hdj].
      destruct (Hsrc x (or_introl Hx)) as [(c0 & win0 & Hi & [Hkp Hke] & Hf)|[_ Hno]]; [|done].
      unfold tag in Hin. simpl in Hin. rewrite Hkp, Hke in Hin. by apply (Hdj i c0 win0 x Hi Hf).
  - intros c' x [Hin|Hin]%elem_of_app; [|by apply Hca; [|apply Hac]].
    destruct t as [y|]; simpl in Hin; [|by apply not_elem_of_nil in Hin].
    apply list_elem_of_singleton in Hin. injection Hin as -> ->. by apply Ht.
  - intros j c' win Hj Ho Hl Hat. apply Hother in Hj as [(-> & -> & ->)|[Hne Hj]].
    + destruct (Hself Ho Hl Hat) as [?|[Hu1 Hu2]]; [by left|right]. split.
      * intros k c' win'' Hnk [(-> & _)|[_ Hk]]%Hother; [done|]. by apply Hu1 with k.
      * intros c' x [Hin|Hin]%elem_of_app; [|by eapply Hu2].
        destruct t as [y|]; simpl in Hin; [|by apply not_elem_of_nil in Hin].
        destruct (Ht y eq_refl) as (_ & Hlive & _). congruence.
    + destruct (Hww _ _ _ Hj Ho) as [_ _ _ _ _ _ (m & Hm & Hle) _].
      destruct (Hrise _ _ Hm) as (m' & Hm' & Hle').
      pose proof (floor_at_inj _ _ _ _ Hat Hm') as <-. assert (m = Types.epoch c') as -> by lia.
      destruct (Hfr _ _ _ Hj Ho Hl Hm) as [Hkeep|[Hu1 Hu2]]; [left; by apply Hkr|].
      destruct (decide (open win' = true ∧ same_key c c')) as [[Ho' Hk]|Hno].
      * left. by eapply Hsec.
      * right. split.
        -- intros k c2 win2 Hnk [(-> & -> & ->)|[_ Hk]]%Hother; [|by apply Hu1 with k].
           intros Ho2 Hk. apply Hno. by split.
        -- intros c2 x [Hin|Hin]%elem_of_app; [|by eapply Hu2].
           destruct t as [y|]; simpl in Hin; [|by apply not_elem_of_nil in Hin].
           apply list_elem_of_singleton in Hin. injection Hin as -> ->.
           destruct (Ht y eq_refl) as (Ho' & _). intros Hk. apply Hno. by split.
  - rewrite fmap_app. destruct t as [y|]; simpl; [|done]. apply NoDup_cons. auto.
Qed.

(** ** Effects on the store *)

Lemma covered_same st st' c x : same_views st st' → covered st c x → covered st' c x.
Proof. unfold covered. by intros [-> ->]. Qed.
Lemma floor_at_same st st' c m : same_views st st' → floor_at st c m → floor_at st' c m.
Proof. unfold floor_at. by intros [_ ->]. Qed.
Lemma keeps_same st st' c : same_views st st' → keeps_record st c → keeps_record st' c.
Proof. unfold keeps_record. by intros [-> _]. Qed.

(** A floor commit for [c] above the old minimum. *)
Definition ratcheted (st st' : ST) (c : SecurityContext) : Prop :=
  rs_windows st' = rs_windows st ∧
  rs_floors st' = <[floor_slot c := next_floor c (rs_floors st !! floor_slot c)]> (rs_floors st) ∧
  ∀ f, rs_floors st !! floor_slot c = Some f → floor_valid f = true ∧
    fr_peer_fingerprint f = replay_peer_fingerprint c ∧ fr_minimum_epoch f < Types.epoch c.

Lemma ratcheted_covered st st' c c' x : ratcheted st st' c → covered st c' x → covered st' c' x.
Proof.
  intros (Hw & Hf & Hold) Hc. unfold covered in *. rewrite Hw, Hf.
  destruct (decide (floor_slot c' = floor_slot c)) as [Heq|Hne]; [|by rewrite lookup_insert_ne].
  rewrite Heq in *. rewrite lookup_insert_eq.
  destruct (rs_floors st !! floor_slot c) as [f|] eqn:Hfs; [|done].
  destruct (Hold f eq_refl) as (Hv & Hp & Hm), (next_floor_fields c (Some f)) as [Hnm Hnp].
  destruct Hc as [Hc|[Hc1 Hc2]]; [congruence|]. right. split; [congruence|]. left. lia.
Qed.

Lemma ratcheted_rise st st' c : ratcheted st st' c → floors_rise st st'.
Proof.
  intros (Hw & Hf & Hold) c' m (f & Hfl & Hv & Hp & <-).
  destruct (decide (floor_slot c' = floor_slot c)) as [Heq|Hne].
  - rewrite Heq in Hfl. destruct (Hold f Hfl) as (_ & Hp' & Hm).
    destruct (next_floor_fields c (Some f)) as [Hnm Hnp].
    exists (Types.epoch c). split; [|lia]. exists (next_floor c (Some f)).
    rewrite Hf, Heq, lookup_insert_eq, Hfl. split; [done|]. split; [apply next_floor_valid|].
    split; [congruence|done].
  - exists (fr_minimum_epoch f). split; [|lia]. exists f. by rewrite Hf, lookup_insert_ne.
Qed.

Lemma ratcheted_keeps st st' c c' : ratcheted st st' c → keeps_record st c' → keeps_record st' c'.
Proof. intros (Hw & _). unfold keeps_record. by rewrite Hw. Qed.

(** A window commit for [c] at the current epoch. *)
Record recommitted (st st' : ST) (c : SecurityContext) (rec : ReplayWindowRecord) : Prop := {
  rc_windows : rs_windows st' = <[floor_slot c := rec]> (rs_windows st);
  rc_floors : rs_floors st' = rs_floors st;
  rc_floor : floor_at st c (Types.epoch c);
  rc_fp : wr_context_fingerprint rec = replay_context_fingerprint c;
  rc_valid : window_valid rec = true }.

Lemma recommitted_key st st' c rec c' m :
  recommitted st st' c rec → floor_slot c' = floor_slot c → floor_at st c' m →
  m = Types.epoch c' → same_key c c'.
Proof.
  intros [_ _ (f & Hf & _ & Hp & Hm) _ _] Hs (f' & Hf' & _ & Hp' & Hm') He. unfold same_key. rewrite Hs in Hf'.
  split; congruence.
Qed.

Lemma recommitted_covered st st' c rec c' x :
  recommitted st st' c rec → covered st c' x →
  (same_key c c' → x ≤ wr_accepted_ceiling rec) → covered st' c' x.
Proof.
  intros Hr Hc Hx. pose proof Hr as [Hw Hf (f & Hfl & Hv & Hp & Hm) Hfp Hval].
  unfold covered in *. rewrite Hw, Hf.
  destruct (decide (floor_slot c' = floor_slot c)) as [Heq|Hne]; [|by rewrite lookup_insert_ne].
  rewrite Heq in *. rewrite lookup_insert_eq. rewrite Hfl in *.
  destruct Hc as [Hc|[Hc1 [Hc2|[Hc2 _]]]]; [congruence|right; split; [done|by left]|].
  right. split; [done|]. right. split; [done|]. intros r [= <-] _ _. apply Hx. split; congruence.
Qed.

Lemma recommitted_rise st st' c rec : recommitted st st' c rec → floors_rise st st'.
Proof. intros [_ Hf _ _ _] c' m Hm. exists m. split; [|lia]. unfold floor_at in *. by rewrite Hf. Qed.

Lemma recommitted_keeps st st' c rec c' :
  recommitted st st' c rec → floor_at st' c' (Types.epoch c') → keeps_record st c' → keeps_record st' c'.
Proof.
  intros Hr Hat [r [Hr1 Hr2]].
  assert (Hat0 : floor_at st c' (Types.epoch c')).
  { unfold floor_at in *. by rewrite (rc_floors _ _ _ _ Hr) in Hat. }
  destruct (decide (floor_slot c' = floor_slot c)) as [Heq|Hne].
  - pose proof (recommitted_key _ _ _ _ _ _ Hr Heq Hat0 eq_refl) as Hk.
    exists rec. rewrite (rc_windows _ _ _ _ Hr), Heq, lookup_insert_eq. split; [done|].
    rewrite (rc_fp _ _ _ _ Hr). by apply same_key_fp.
  - exists r. by rewrite (rc_windows _ _ _ _ Hr), lookup_insert_ne.
Qed.

Lemma recommitted_keeps_self st st' c rec : recommitted st st' c rec → keeps_record st' c.
Proof. intros []. exists rec. by rewrite rc_windows0, lookup_insert_eq. Qed.

(** What a passed floor check means for a well-formed window. *)
Lemma current_floor st c win f :
  window_wf st c win → rs_floors st !! slot win = Some f → floor_valid f = true →
  fr_peer_fingerprint f = peer_fingerprint win → fr_minimum_epoch f ≤ epoch win →
  floor_at st c (Types.epoch c).
Proof.
  intros [W1 W2 W3 _ _ _ (m & Hm & Hle) _] Hf Hv Hp He. rewrite W1 in Hf. rewrite W2 in He.
  rewrite W3 in Hp. destruct Hm as (f' & Hf' & _ & _ & <-). exists f. split_and!; try assumption.
  assert (f' = f) as -> by congruence. lia.
Qed.

Section Commit.
Context (w : World) (Hw : world_ok w) (i : nat) (c : SecurityContext) (win : Window).
Hypothesis Hi : w_windows w !! i = Some (c, win).
Hypothesis Hopen : open win = true.
Hypothesis Hfloor : floor_at (w_store w) c (Types.epoch c).
Hypothesis Hsup : superseded win (rs_windows (w_store w) !! slot win) = false.

Lemma live_record : live win = true → rs_windows (w_store w) !! floor_slot c = Some (record win).
Proof.
  intros Hl. destruct (wo_window w Hw i c win Hi Hopen) as [W1 _ _ _ W5 _ _ _].
  unfold superseded in Hsup. rewrite W1, <- W5, Hl in Hsup.
  apply negb_false_iff, bool_decide_eq_true in Hsup. exact Hsup.
Qed.

Lemma fresh_untouched : live win = false → untouched w i c.
Proof.
  intros Hl. pose proof (wo_window w Hw i c win Hi Hopen) as [W1 _ _ W4 W5 _ _ _].
  destruct (wo_fresh w Hw i c win Hi Hopen Hl Hfloor) as [(r & Hr & Hfp)|]; [|done].
  unfold superseded in Hsup. rewrite W1, <- W5, Hl, Hr, W4 in Hsup.
  by apply bool_decide_eq_false in Hsup.
Qed.

(** Below the persisted ceiling of a live window lie all covered counters. *)
Lemma covered_below c' x :
  live win = true → same_key c c' → covered (w_store w) c' x → x ≤ wr_accepted_ceiling (record win).
Proof.
  intros Hl Hk Hc. rewrite <- Hk in Hc. unfold covered in Hc. destruct Hfloor as (f & Hf & Hv & Hp & Hm).
  destruct (wo_window w Hw i c win Hi Hopen) as [_ _ _ W4 _ W6 _ _]. destruct (W6 Hl) as [Hval _].
  rewrite Hf in Hc. destruct Hc as [Hc|[_ [Hc|[_ Hc]]]]; [congruence|lia|].
  by apply (Hc (record win) (live_record Hl)).
Qed.

(** Counters above the ceiling belong to nobody. *)
Lemma above_ceiling x :
  (live win = true → wr_accepted_ceiling (record win) < x) →
  (∀ j c' win', j ≠ i → w_windows w !! j = Some (c', win') → same_key c c' → ¬ free win' x) ∧
  tag (c, x) ∉ (tag <$> w_accepted w).
Proof.
  intros Hx. destruct (live win) eqn:Hl.
  - specialize (Hx eq_refl). split.
    + intros j c' win' Hne Hj Hk Hf.
      pose proof (ww_cov _ _ _ (wo_window w Hw j c' win' Hj (proj1 Hf)) x Hf) as Hc.
      pose proof (covered_below c' x Hl Hk Hc). lia.
    + rewrite tag_accepted. intros (c' & Hk & Hin).
      pose proof (covered_below c' x Hl Hk (wo_accepted w Hw c' x Hin)). lia.
  - destruct (fresh_untouched Hl) as [Hu1 Hu2]. split.
    + intros j c' win' Hne Hj Hk Hf. by apply (Hu1 j c' win' Hne Hj (proj1 Hf)).
    + rewrite tag_accepted. intros (c' & Hk & Hin). by apply (Hu2 c' x Hin).
Qed.

Context (st' : ST) (X : Z).
Hypothesis Hrec : recommitted (w_store w) st' c (next_window_record (record win) X).
Hypothesis Hlow : ∀ x, live win = true → x ≤ wr_accepted_ceiling (record win) → X < x → free win x.

Lemma commit_keeps c' x :
  covered (w_store w) c' x →
  (same_key c c' → live win = true → free win x → False) →
  (same_key c c' → live win = false → False) →
  covered st' c' x.
Proof.
  intros Hc Hd Hu. eapply recommitted_covered; [done|done|]. intros Hk.
  destruct (next_window_fields (record win) X) as (_ & -> & _).
  destruct (live win) eqn:Hl; [|by destruct (Hu Hk)].
  destruct (Z.le_gt_cases x X); [done|]. destruct (Hd Hk eq_refl). apply Hlow; [done| |lia].
  by eapply covered_below.
Qed.

Lemma commit_accepted c' x : (c', x) ∈ w_accepted w → covered (w_store w) c' x → covered st' c' x.
Proof.
  intros Hin Hc. apply commit_keeps; [done| |].
  - intros Hk _ Hf. apply (wo_disjoint w Hw i c win x Hi Hf). rewrite tag_accepted. eauto.
  - intros Hk Hl. destruct (fresh_untouched Hl) as [_ Hu]. by apply (Hu c' x Hin).
Qed.

Lemma commit_others j c' win' x :
  j ≠ i → w_windows w !! j = Some (c', win') → free win' x →
  covered (w_store w) c' x → covered st' c' x.
Proof.
  intros Hne Hj Hf Hc. apply commit_keeps; [done| |].
  - intros Hk _ Hfi. apply Hne. by apply (wo_unique w Hw j i c' c win' win x).
  - intros Hk Hl. destruct (fresh_untouched Hl) as [Hu _]. by apply (Hu j c' win' Hne Hj (proj1 Hf)).
Qed.

End Commit.

(** A step that changes only the store. *)
Lemma world_ok_keep w g st' :
  world_ok w → 0 ≤ reservation_ahead_ g →
  floors_rise (w_store w) st' →
  (∀ c' x, (c', x) ∈ w_accepted w → covered (w_store w) c' x → covered st' c' x) →
  (∀ j c' win x, w_windows w !! j = Some (c', win) → free win x →
     covered (w_store w) c' x → covered st' c' x) →
  (∀ c', floor_at st' c' (Types.epoch c') → keeps_record (w_store w) c' → keeps_record st' c') →
  world_ok (mkWorld g st' (w_windows w) (w_accepted w)).
Proof.
  intros Hw Hg Hrise Hca Hcf Hkr. pose proof Hw as [_ Hww Huq Hdj Hac Hfr Hnd].
  constructor; simpl; try assumption.
  - intros j c' win' Hj Ho. pose proof (Hww _ _ _ Hj Ho) as [W1 W2 W3 W4 W5 W6 (m & Hm & Hle) W8].
    destruct (Hrise _ _ Hm) as (m' & Hm' & Hle').
    constructor; [exact W1|exact W2|exact W3|exact W4|exact W5|exact W6|..].
    + exists m'. split; [exact Hm'|lia].
    + intros x Hx. eapply Hcf; eauto.
  - intros c' x Hin. apply Hca; auto.
  - intros j c' win' Hj Ho Hl Hat.
    destruct (Hww _ _ _ Hj Ho) as [_ _ _ _ _ _ (m & Hm & Hle) _].
    destruct (Hrise _ _ Hm) as (m' & Hm' & Hle').
    pose proof (floor_at_inj _ _ _ _ Hat Hm') as <-. assert (m = Types.epoch c') as -> by lia.
    destruct (Hfr _ _ _ Hj Ho Hl Hm) as [Hkeep|Hu]; [left; by apply Hkr|by right].
Qed.

Definition slid (win : Window) (rec : ReplayWindowRecord) (m b : Z) : Window :=
  mkWindow rec m b true (slot win) (epoch win) (open win) (peer_fingerprint win).

Definition passed_floor (st : ST) (win : Window) : Prop :=
  ∃ f, rs_floors st !! slot win = Some f ∧ floor_valid f = true ∧
    fr_peer_fingerprint f = peer_fingerprint win ∧ fr_minimum_epoch f ≤ epoch win.

Lemma accept_spec win x g (st : ST) r g' st' :
  accept win x (g, st) = (r, (g', st')) →
  reservation_ahead_ g' = reservation_ahead_ g ∧
  (is_ok r = false ∧ same_views st st' ∨
   ∃ m b, open win = true ∧ passed_floor st win ∧ slide win x = Some (m, b) ∧
     (wr_initialized (record win) ≠ 0 ∧ m ≤ wr_accepted_ceiling (record win) ∧ same_views st st' ∧
        r = Ok (slid win (record win) m b) ∨
      (wr_initialized (record win) = 0 ∨ wr_accepted_ceiling (record win) < m) ∧
      superseded win (rs_windows st !! slot win) = false ∧ rs_floors st' = rs_floors st ∧
      rs_windows st' = <[slot win := next_window_record (record win)
                          (reserve_to (reservation_ahead_ g) m)]> (rs_windows st) ∧
      (is_ok r = false ∨
       r = Ok (slid win (next_window_record (record win) (reserve_to (reservation_ahead_ g) m)) m b)))).
Proof.
  intros Hrun. unfold accept in Hrun. cbv [mbind M_bind] in Hrun. unfold fail_if at 1 in Hrun.
  destruct (open win) eqn:Ho; cbn [negb mret M_ret] in Hrun; [|unfold throw in Hrun; simplify_eq; eauto using same_views_refl].
  destruct (check_window_floor win (g, st)) as [rf [g1 st1]] eqn:Hcf.
  destruct (check_window_floor_spec _ _ _ _ _ _ Hcf) as (Hsv & Ha & Hpass).
  destruct rf as [u|]; [|simplify_eq; eauto]. specialize (Hpass eq_refl).
  destruct (slide win x) as [[m b]|] eqn:Hs; [|unfold throw in Hrun; simplify_eq; eauto].
  cbn [guard fst] in Hrun. pose proof Hsv as [Hv1 Hv2].
  assert (Hp : passed_floor st win) by exact Hpass.
  destruct (bool_decide (wr_initialized (record win) = 0) ||
            bool_decide (wr_accepted_ceiling (record win) < m)) eqn:Hneed.
  - destruct (commit_ceiling win (reserve_to (reservation_ahead_ g1) m) (g1, st1)) as [rc [g2 st2]] eqn:Hcc.
    destruct (commit_ceiling_spec _ _ _ _ _ _ _ Hcc) as (Ha2 & Hf2 & Hcase & Hok). rewrite Ha in *.
    apply orb_true_iff in Hneed. rewrite !bool_decide_eq_true in Hneed.
    destruct Hcase as [[Hno Hsame]|[Hsup Hins]].
    + destruct rc; [done|]. simplify_eq. split; [done|]. left. split; [done|].
      split; congruence.
    + assert (Hrest : g' = g2 ∧ st' = st2 ∧ (is_ok r = false ∨ r = Ok (slid win
        (next_window_record (record win) (reserve_to (reservation_ahead_ g) m)) m b))).
      { destruct rc as [w'|]; simplify_eq; [|auto]. unfold mret, M_ret in Hrun. simplify_eq.
        rewrite (Hok _ eq_refl). split_and!; auto. }
      destruct Hrest as (-> & -> & Hr). split; [done|]. right. exists m, b.
      split_and!; auto. right. rewrite <- Hv1, <- Hv2. by split_and!.
  - apply orb_false_iff in Hneed. rewrite !bool_decide_eq_false in Hneed. destruct Hneed as [Hn1 Hn2].
    unfold mret, M_ret in Hrun. simplify_eq. split; [done|]. right. exists m, b.
    split_and!; auto. left. split_and!; auto. lia.
Qed.

Lemma reserve_to_ge ahead m : 0 ≤ ahead → m ≤ UINT64_MAX → m ≤ reserve_to ahead m.
Proof. intros. unfold reserve_to. case_bool_decide; lia. Qed.

(** The window after an accepted counter. *)
Lemma slid_wf st st' c win rec m b :
  window_wf st c win → wr_context_fingerprint rec = wr_context_fingerprint (record win) →
  wr_initialized rec ≠ 0 → window_valid rec = true → m ≤ wr_accepted_ceiling rec →
  floors_rise st st' → (∀ x, free (slid win rec m b) x → covered st' c x) →
  window_wf st' c (slid win rec m b).
Proof.
  intros [W1 W2 W3 W4 W5 W6 (k & Hk & Hle) W8] Hfp Hin Hval Hm Hrise Hc.
  destruct (Hrise _ _ Hk) as (k' & Hk' & Hle').
  constructor; [exact W1|exact W2|exact W3| | |by intros _| |exact Hc].
  - unfold slid. cbn [record]. rewrite Hfp. exact W4.
  - unfold slid. cbn [record live]. by rewrite bool_decide_eq_false_2.
  - exists k'. split; [exact Hk'|lia].
Qed.

Lemma recommitted_intro w i c win st' X :
  world_ok w → w_windows w !! i = Some (c, win) → open win = true → passed_floor (w_store w) win →
  rs_floors st' = rs_floors (w_store w) →
  rs_windows st' = <[slot win := next_window_record (record win) X]> (rs_windows (w_store w)) →
  recommitted (w_store w) st' c (next_window_record (record win) X).
Proof.
  intros Hw Hi Ho (f & Hf & Hv & Hp & He) Hfl Hwin.
  pose proof (wo_window w Hw i c win Hi Ho) as Hwf.
  destruct (next_window_fields (record win) X) as (Hfp & _ & _).
  constructor; [|exact Hfl|by eapply current_floor| |apply next_window_valid].
  - rewrite <- (ww_slot _ _ _ Hwf). exact Hwin.
  - rewrite Hfp. apply (ww_fp _ _ _ Hwf).
Qed.

Lemma recommitted_self st st' c rec x :
  recommitted st st' c rec → x ≤ wr_accepted_ceiling rec → covered st' c x.
Proof.
  intros [Hw Hf (f & Hfl & Hv & Hp & Hm) _ _] Hx. unfold covered. rewrite Hf, Hfl, Hw, lookup_insert_eq.
  right. split; [done|]. right. split; [done|]. by intros r [= <-] _ _.
Qed.

(** A fresh window that shares its key with another open window has lost. *)
Lemma fresh_keeps w i c win j c' win' :
  world_ok w → w_windows w !! i = Some (c, win) → open win = true → same_key c c' →
  j ≠ i → w_windows w !! j = Some (c', win') → open win' = true → live win' = false →
  floor_at (w_store w) c' (Types.epoch c') → keeps_record (w_store w) c'.
Proof.
  intros Hw Hi Ho Hk Hne Hj Ho' Hl Hat.
  destruct (wo_fresh w Hw j c' win' Hj Ho' Hl Hat) as [|[Hu _]]; [done|].
  destruct (Hu i c win (not_eq_sym Hne) Hi Ho (symmetry Hk)).
Qed.

Lemma world_ok_slid w i c win g st' x m b :
  world_ok w → w_windows w !! i = Some (c, win) → open win = true → 0 ≤ reservation_ahead_ g →
  slide win x = Some (m, b) → wr_initialized (record win) ≠ 0 →
  m ≤ wr_accepted_ceiling (record win) → same_views (w_store w) st' →
  world_ok (mkWorld g st' (<[i := (c, slid win (record win) m b)]> (w_windows w)) ((c, x) :: w_accepted w)).
Proof.
  intros Hw Hi Ho Hg Hs Hin Hm Hsv. pose proof (wo_window w Hw i c win Hi Ho) as Hwf.
  assert (Hl : live win = true) by (rewrite (ww_live _ _ _ Hwf); by rewrite bool_decide_eq_false_2).
  destruct (slide_spec win x m b Hl Hs) as (Hxu & Hmax & Hback).
  assert (Hrise : floors_rise (w_store w) st').
  { intros c' k Hk. exists k. split; [by eapply floor_at_same|lia]. }
  assert (Hfx : free win x) by (split_and!; try assumption; lia).
  assert (Hfree : ∀ y, free (slid win (record win) m b) y → y ≠ x ∧ free win y).
  { intros y (_ & _ & Hy & Hun). destruct (Hback y Hun) as [Hne Hun']. by split_and!. }
  apply (window_world_ok_step w g st' i c (slid win (record win) m b) (Some x) Hw Hg Hrise).
  - intros c' y _. by apply covered_same.
  - intros j c' win' y _ _ _. by apply covered_same.
  - intros c' _. by apply keeps_same.
  - intros _. apply (slid_wf (w_store w)); [done|done|done|by apply (ww_valid _ _ _ Hwf)|done|done|].
    intros y Hy. apply (covered_same _ _ _ _ Hsv), (ww_cov _ _ _ Hwf). by apply Hfree.
  - intros y Hy. left. exists c, win. split; [done|]. split; [reflexivity|].
    destruct Hy as [Hy|[= <-]]; [by apply Hfree|done].
  - intros y [= <-]. split; [done|]. split; [done|]. split; [by intros [? _]%Hfree|].
    by apply (covered_same _ _ _ _ Hsv), (ww_cov _ _ _ Hwf).
  - intros _ j c' win' Hne Hj Ho' Hk Hl' Hat. apply (keeps_same _ _ _ Hsv).
    eapply (fresh_keeps w i c win j); try eassumption.
    eapply (floor_at_same st'); [|done]. destruct Hsv; by split.
  - by intros _ [=].
Qed.

Lemma world_ok_committed w i c win g st' x m b :
  world_ok w → w_windows w !! i = Some (c, win) → open win = true → 0 ≤ reservation_ahead_ g →
  slide win x = Some (m, b) → x ≤ UINT64_MAX →
  (wr_initialized (record win) = 0 ∨ wr_accepted_ceiling (record win) < m) →
  passed_floor (w_store w) win → superseded win (rs_windows (w_store w) !! slot win) = false →
  recommitted (w_store w) st' c (next_window_record (record win) (reserve_to (reservation_ahead_ g) m)) →
  let rec := next_window_record (record win) (reserve_to (reservation_ahead_ g) m) in
  world_ok (mkWorld g st' (w_windows w) (w_accepted w)) ∧
  world_ok (mkWorld g st' (<[i := (c, slid win rec m b)]> (w_windows w)) ((c, x) :: w_accepted w)).
Proof.
  intros Hw Hi Ho Hg Hs Hx Hneed (f & Hf & Hv & Hp & He) Hsup Hrec rec.
  pose proof (wo_window w Hw i c win Hi Ho) as Hwf.
  pose proof (current_floor _ _ _ _ Hwf Hf Hv Hp He) as Hat.
  destruct (next_window_fields (record win) (reserve_to (reservation_ahead_ g) m)) as (Hfp & Hcl & Hini).
  fold rec in Hfp, Hcl, Hini, Hrec.
  assert (Hmx : m = x ∧ (live win = true → wr_accepted_ceiling (record win) < x)).
  { destruct (live win) eqn:Hl; [|by destruct (slide_first win x m b Hl Hs)].
    destruct (slide_spec win x m b Hl Hs) as (_ & -> & _). destruct (ww_valid _ _ _ Hwf Hl) as [_ Hmc].
    pose proof (ww_live _ _ _ Hwf) as Hwl. rewrite Hl in Hwl.
    destruct Hneed as [Hn|Hn]; [by rewrite bool_decide_eq_true_2 in Hwl|]. split; [lia|]. intros _. lia. }
  destruct Hmx as [-> Hxc].
  pose proof (reserve_to_ge (reservation_ahead_ g) x Hg Hx) as HX.
  set (X := reserve_to (reservation_ahead_ g) x) in *.
  assert (Hlow : ∀ y, live win = true → y ≤ wr_accepted_ceiling (record win) → X < y → free win y).
  { intros y Hl Hy HXy. specialize (Hxc Hl). lia. }
  pose proof (recommitted_rise _ _ _ _ Hrec) as Hrise.
  pose proof (above_ceiling w Hw i c win Hi Ho Hat Hsup) as Habove.
  assert (Hback : ∀ y, unseen x b y → y ≠ x ∧
    (live win = true → y ≤ wr_accepted_ceiling (record win) → free win y)).
  { intros y Hy. destruct (live win) eqn:Hl.
    - destruct (slide_spec win x x b Hl Hs) as (_ & _ & Hsp). destruct (Hsp y Hy) as [Hne Hun].
      split; [done|]. intros _ Hyc. by split_and!.
    - destruct (slide_first win x x b Hl Hs) as [_ Hsf]. split; [by apply Hsf|done]. }
  pose proof (commit_accepted w Hw i c win Hi Ho Hat Hsup st' X Hrec Hlow) as Hca.
  pose proof (commit_others w Hw i c win Hi Ho Hat Hsup st' X Hrec Hlow) as Hco.
  split.
  - apply (world_ok_keep w g st' Hw Hg Hrise Hca).
    + intros j c' win' y Hj Hy Hc. destruct (decide (j = i)) as [->|Hne]; [|by eapply Hco].
      rewrite Hi in Hj. injection Hj as <- <-. destruct Hy as (_ & Hl & Hyc & _). specialize (Hxc Hl).
      eapply recommitted_covered; [done|done|]. intros _. rewrite Hcl. lia.
    + intros c' Hc'. by eapply recommitted_keeps.
  - apply (window_world_ok_step w g st' i c (slid win rec x b) (Some x) Hw Hg Hrise Hca Hco).
    + intros c' Hc'. by eapply recommitted_keeps.
    + intros _. apply (slid_wf (w_store w)); [done|done|by rewrite Hini|apply (rc_valid _ _ _ _ Hrec)|
        by rewrite Hcl|done|].
      intros y (_ & _ & Hy & _). by eapply recommitted_self.
    + intros y Hy. destruct (decide (live win = true ∧ y ≤ wr_accepted_ceiling (record win))) as [[Hl Hyc]|Hn].
      * left. exists c, win. split; [done|]. split; [reflexivity|].
        destruct Hy as [(_ & _ & _ & Hun)|[= <-]]; [by apply Hback|]. specialize (Hxc Hl). lia.
      * right. apply Habove. intros Hl. destruct (Z.le_gt_cases y (wr_accepted_ceiling (record win))); [|lia].
        destruct Hn. by split.
    + intros y [= <-]. split; [done|]. split; [done|]. split.
      * intros (_ & _ & _ & Hun). by destruct (Hback x Hun).
      * eapply recommitted_self; [done|]. by rewrite Hcl.
    + intros _ j c' win' Hne Hj Ho' Hk Hl' Hat'. eapply keeps_record_key; [exact Hk|].
      by eapply recommitted_keeps_self.
    + by intros _ [=].
Qed.

Lemma rise_same st st' : same_views st st' → floors_rise st st'.
Proof. intros Hsv c m Hm. exists m. split; [by eapply floor_at_same|lia]. Qed.

Lemma world_ok_same w g st' :
  world_ok w → 0 ≤ reservation_ahead_ g → same_views (w_store w) st' →
  world_ok (mkWorld g st' (w_windows w) (w_accepted w)).
Proof.
  intros Hw Hg Hsv. apply world_ok_keep; [done|done|by apply rise_same|..].
  - intros c x _. by apply covered_same.
  - intros j c win x _ _. by apply covered_same.
  - intros c _. by apply keeps_same.
Qed.

Lemma world_ok_accept w i x : world_ok w → world_ok (step (Accept i x) w).
Proof.
  intros Hw. simpl. destruct (w_windows w !! i) as [[c win]|] eqn:Hi; [|done].
  destruct (accept win (u64 x) (w_guard w, w_store w)) as [r [g st']] eqn:Ha.
  destruct (accept_spec _ _ _ _ _ _ _ Ha) as (Hg & Hcase).
  assert (Hg0 : 0 ≤ reservation_ahead_ g) by (rewrite Hg; apply (wo_ahead w Hw)).
  assert (Hx : u64 x ≤ UINT64_MAX) by (pose proof (wrap_range 64 x ltac:(lia)) as [? ?]; unfold UINT64_MAX; lia).
  destruct Hcase as [[Hr Hsv]|(m & b & Ho & Hp & Hs & [(Hin & Hm & Hsv & ->)|(Hn & Hsup & Hf & Hwin & Hr)])].
  - destruct r; [done|]. by apply world_ok_same.
  - by apply world_ok_slid.
  - rewrite <- Hg in Hwin, Hr.
    pose proof (recommitted_intro w i c win st' _ Hw Hi Ho Hp Hf Hwin) as Hrec.
    destruct (world_ok_committed w i c win g st' (u64 x) m b Hw Hi Ho Hg0 Hs Hx Hn Hp Hsup Hrec) as [Hk Ha'].
    destruct Hr as [Hr| ->]; [by destruct r|done].
Qed.

Lemma free_closed x : ¬ free no_window x.
Proof. by intros [? _]. Qed.

(** Closing the window at [i] after a step of the store. *)
Lemma world_ok_close_with w g st' i c :
  world_ok w → 0 ≤ reservation_ahead_ g → floors_rise (w_store w) st' →
  (∀ c' x, (c', x) ∈ w_accepted w → covered (w_store w) c' x → covered st' c' x) →
  (∀ j c' win x, j ≠ i → w_windows w !! j = Some (c', win) → free win x →
     covered (w_store w) c' x → covered st' c' x) →
  (∀ c', floor_at st' c' (Types.epoch c') → keeps_record (w_store w) c' → keeps_record st' c') →
  world_ok (mkWorld g st' (<[i := (c, no_window)]> (w_windows w)) (w_accepted w)).
Proof.
  intros Hw Hg Hrise Hca Hco Hkr.
  apply (window_world_ok_step w g st' i c no_window None Hw Hg Hrise Hca Hco Hkr); try done.
  intros x [Hx|?]; [by apply free_closed in Hx|done].
Qed.

Lemma close_context_spec win g (st : ST) r g' st' :
  close_context win (g, st) = (r, (g', st')) →
  reservation_ahead_ g' = reservation_ahead_ g ∧
  (same_views st st' ∨
   open win = true ∧ live win = true ∧ maximum_counter win < wr_accepted_ceiling (record win) ∧
   passed_floor st win ∧ superseded win (rs_windows st !! slot win) = false ∧
   rs_floors st' = rs_floors st ∧
   rs_windows st' = <[slot win := next_window_record (record win) (maximum_counter win)]> (rs_windows st)).
Proof.
  intros Hrun. unfold close_context in Hrun.
  destruct (open win && live win && _ && _) eqn:Hg; [|unfold mret, M_ret in Hrun; simplify_eq; auto using same_views_refl].
  rewrite !andb_true_iff, bool_decide_eq_true in Hg. destruct Hg as [[[Ho Hl] _] Hlt].
  cbv [mbind M_bind] in Hrun.
  destruct (check_window_floor win (g, st)) as [rf [g1 st1]] eqn:Hcf.
  destruct (check_window_floor_spec _ _ _ _ _ _ Hcf) as ([Hv1 Hv2] & Ha & Hpass).
  destruct rf as [u|]; [|simplify_eq; split; [done|]; left; by split].
  specialize (Hpass eq_refl).
  destruct (commit_ceiling win (maximum_counter win) (g1, st1)) as [rc [g2 st2]] eqn:Hcc.
  destruct (commit_ceiling_spec _ _ _ _ _ _ _ Hcc) as (Ha2 & Hf2 & Hcase & _).
  assert (g' = g2 ∧ st' = st2) as [-> ->] by (destruct rc; unfold mret, M_ret in Hrun; by simplify_eq).
  split; [congruence|]. rewrite Hv1 in Hcase. rewrite Hv2 in Hf2.
  destruct Hcase as [[_ Hsame]|[Hsup Hins]]; [left; by split|]. right. by split_and!.
Qed.

Lemma world_ok_close w i : world_ok w → world_ok (step (Close i) w).
Proof.
  intros Hw. simpl. destruct (w_windows w !! i) as [[c win]|] eqn:Hi; [|done].
  destruct (close_context win (w_guard w, w_store w)) as [r [g st']] eqn:Hc.
  destruct (close_context_spec _ _ _ _ _ _ Hc) as (Hg & Hcase).
  assert (Hg0 : 0 ≤ reservation_ahead_ g) by (rewrite Hg; apply (wo_ahead w Hw)).
  destruct Hcase as [Hsv|(Ho & Hl & Hlt & Hp & Hsup & Hf & Hwin)].
  - apply world_ok_close_with; [done|done|by apply rise_same|..].
    + intros c' x _. by apply covered_same.
    + intros j c' win' x _ _ _. by apply covered_same.
    + intros c' _. by apply keeps_same.
  - pose proof (recommitted_intro w i c win st' _ Hw Hi Ho Hp Hf Hwin) as Hrec.
    pose proof (rc_floor _ _ _ _ Hrec) as Hat.
    assert (Hlow : ∀ x, live win = true → x ≤ wr_accepted_ceiling (record win) →
      maximum_counter win < x → free win x) by (intros x _ Hx1 Hx2; split_and!; try done; by left).
    apply world_ok_close_with; [done|done|by eapply recommitted_rise|..].
    + apply (commit_accepted w Hw i c win Hi Ho Hat Hsup st' _ Hrec Hlow).
    + apply (commit_others w Hw i c win Hi Ho Hat Hsup st' _ Hrec Hlow).
    + intros c' Hc'. by eapply recommitted_keeps.
Qed.

(** The outcome of [floor_state] followed by [ratchet_floor]. *)
Lemma ratchet_effect st c g r g' st' :
  ratchet_floor c (rs_floors st !! floor_slot c) (g, st) = (r, (g', st')) →
  (∀ f, rs_floors st !! floor_slot c = Some f →
     floor_valid f = true ∧ fr_peer_fingerprint f = replay_peer_fingerprint c) →
  reservation_ahead_ g' = reservation_ahead_ g ∧
  (same_views st st' ∨ ratcheted st st' c) ∧
  (is_ok r = true → ∃ m, floor_at st' c m ∧ Types.epoch c ≤ m).
Proof.
  intros Hr Hv. destruct (ratchet_spec _ _ _ _ _ _ Hr Hv) as (Hg & Hw & Hcase & Hok).
  split; [done|]. split; [|done]. destruct Hcase as [Hsame|[Hf Hlt]]; [left; by split|right].
  split; [done|]. split; [done|]. intros f Hfs. destruct (Hv f Hfs) as [? ?]. by split_and!; [..|apply Hlt].
Qed.

Lemma effect_preserves st st' c :
  same_views st st' ∨ ratcheted st st' c →
  floors_rise st st' ∧ (∀ c' x, covered st c' x → covered st' c' x) ∧
  (∀ c', keeps_record st c' → keeps_record st' c').
Proof.
  intros [Hs|Hr]; split_and!.
  - by apply rise_same.
  - intros. by eapply covered_same.
  - intros. by eapply keeps_same.
  - by eapply ratcheted_rise.
  - intros. by eapply ratcheted_covered.
  - intros. by eapply ratcheted_keeps.
Qed.

Lemma check_floor_effect c g (st : ST) r g' st' :
  check_floor c (g, st) = (r, (g', st')) →
  reservation_ahead_ g' = reservation_ahead_ g ∧ (same_views st st' ∨ ratcheted st st' c).
Proof.
  intros Hrun. unfold check_floor in Hrun. cbv [mbind M_bind] in Hrun.
  destruct (floor_state c (g, st)) as [rf [g1 st1]] eqn:Hfs.
  destruct (floor_state_spec _ _ _ _ _ _ Hfs) as (Hsv & Ha & Ho).
  destruct rf as [o|]; [|simplify_eq; auto]. destruct (Ho o eq_refl) as [-> Hv].
  unfold fail_if in Hrun. destruct (epoch_below c _); [unfold throw in Hrun; simplify_eq; auto|].
  cbn [mret M_ret] in Hrun. pose proof Hsv as [Hv1 Hv2]. rewrite <- Hv2 in Hrun, Hv.
  destruct (ratchet_effect _ _ _ _ _ _ Hrun Hv) as (Ha2 & Hcase & _). split; [congruence|].
  destruct Hcase as [[H1 H2]|(H1 & H2 & H3)]; [left; split; congruence|].
  right. unfold ratcheted. by rewrite H1, H2, Hv1, Hv2 in *.
Qed.

Lemma open_context_effect c g (st : ST) r g' st' :
  open_context c (g, st) = (r, (g', st')) →
  reservation_ahead_ g' = reservation_ahead_ g ∧ (same_views st st' ∨ ratcheted st st' c) ∧
  (∀ win, r = Ok win → ∃ rec, win = opened_window c rec ∧
     (∃ m, floor_at st' c m ∧ Types.epoch c ≤ m) ∧
     (rs_windows st !! floor_slot c = Some rec ∧ window_valid rec = true ∧
        wr_context_fingerprint rec = replay_context_fingerprint c ∨
      rec = fresh_record c ∧
        ∀ f, rs_floors st !! floor_slot c = Some f → floor_valid f = true ∧
          fr_peer_fingerprint f = replay_peer_fingerprint c ∧ fr_minimum_epoch f < Types.epoch c)).
Proof.
  intros Hrun. unfold open_context in Hrun. cbv [mbind M_bind] in Hrun.
  destruct (floor_state c (g, st)) as [rf [g1 st1]] eqn:Hfs.
  destruct (floor_state_spec _ _ _ _ _ _ Hfs) as (Hsv & Ha & Ho).
  destruct rf as [o|]; [|simplify_eq; split_and!; auto; done]. destruct (Ho o eq_refl) as [-> Hv].
  unfold fail_if at 1 in Hrun. destruct (epoch_below c _) eqn:Hbelow;
    [unfold throw in Hrun; simplify_eq; split_and!; auto; done|].
  cbn [mret M_ret] in Hrun. pose proof Hsv as [Hv1 Hv2].
  unfold on_store at 1 in Hrun. cbn [fst snd] in Hrun.
  destruct (load_window (floor_slot c) st1) as [ld st2] eqn:Hl.
  destruct (load_window_ok _ _ _ _ Hl) as (Hw2 & Hf2 & Hld).
  assert (Hsv2 : same_views st st2) by (split; congruence).
  destruct ld as [found|]; [|simplify_eq; split_and!; auto; done].
  specialize (Hld _ eq_refl). rewrite Hv1 in Hld.
  destruct (choose_record c (rs_floors st !! floor_slot c) found (g1, st2)) as [rr s3] eqn:Hch.
  assert (Hchoose : snd s3 = st2 ∧ reservation_ahead_ (fst s3) = reservation_ahead_ g1 ∧
    ∀ rec, rr = Ok rec →
      (found = Some rec ∧ window_valid rec = true ∧ wr_context_fingerprint rec = replay_context_fingerprint c ∨
       rec = fresh_record c ∧ ∀ f, rs_floors st !! floor_slot c = Some f → fr_minimum_epoch f < Types.epoch c)).
  { unfold epoch_below in Hbelow. unfold choose_record in Hch. cbv [mbind M_bind fail_if throw mret M_ret count_foreign] in Hch.
    destruct found as [rec|]; [destruct (window_valid rec) eqn:Hval|]; cbn [negb] in Hch;
      repeat (cbn [fst snd] in Hch; first [break_in Hch; simplify_eq | simplify_eq]);
      cbn [fst snd]; split_and!; try done; intros rec' [= <-];
      bdec; first [left; split_and!; first [reflexivity|assumption]
                  |right; (split; [done|]); intros f [= <-]; lia]. }
  destruct s3 as [g3 st3]. cbn [fst snd] in Hchoose. destruct Hchoose as (-> & Ha3 & Hrec).
  destruct rr as [rec|]; [|simplify_eq; split_and!; auto; [congruence|done]].
  destruct (ratchet_floor c (rs_floors st !! floor_slot c) (g3, st2)) as [rt [g4 st4]] eqn:Hrat.
  assert (Hst : g' = g4 ∧ st' = st4 ∧ ∀ win, r = Ok win → is_ok rt = true ∧ win = opened_window c rec).
  { destruct rt; unfold mret, M_ret in Hrun; simplify_eq; split_and!; try done. by intros ? [= <-]. }
  destruct Hst as (-> & -> & Hwin). replace (rs_floors st !! floor_slot c) with (rs_floors st2 !! floor_slot c) in Hrat
    by (by destruct Hsv2 as [_ ->]).
  destruct (ratchet_effect _ _ _ _ _ _ Hrat) as (Ha4 & Hcase & Hok4).
  { destruct Hsv2 as [_ ->]. intros f Hf. by apply Hv. }
  split; [congruence|]. split.
  - destruct Hsv2 as [S1 S2]. destruct Hcase as [[H1 H2]|(H1 & H2 & H3)]; [left; split; congruence|].
    right. unfold ratcheted. by rewrite H1, H2, S1, S2 in *.
  - intros win Hr. destruct (Hwin win Hr) as [Hokt ->]. exists rec. split; [done|]. split; [by apply Hok4|].
    destruct (Hrec rec eq_refl) as [(-> & Hval & Hfp)|[-> Hlt]]; [left; by split_and!|right].
    split; [done|]. intros f Hf. destruct (Hv f Hf). by split_and!; [..|apply Hlt].
Qed.

Lemma world_ok_check w c : world_ok w → world_ok (step (Check c) w).
Proof.
  intros Hw. simpl. destruct (check_floor c (w_guard w, w_store w)) as [r [g st']] eqn:Hc.
  destruct (check_floor_effect _ _ _ _ _ _ Hc) as (Hg & Heff).
  destruct (effect_preserves _ _ _ Heff) as (Hrise & Hcov & Hk).
  apply world_ok_keep; auto. rewrite Hg. apply (wo_ahead w Hw).
Qed.

(** A window reopened from its ceiling would accept nothing at or below it. *)
Lemma reopened_not_free c rec x : window_valid rec = true → ¬ free (opened_window c rec) x.
Proof.
  intros Hv%window_valid_init (_ & _ & Hx & Hun). unfold opened_window in *. cbn in Hx, Hun.
  rewrite bool_decide_eq_false_2 in Hun by done. cbn in Hun.
  destruct Hun as [Hlt|(Hle & H64 & Hbit)]; [lia|].
  change UINT64_MAX with (Z.ones 64) in Hbit. by rewrite Z.ones_spec_low in Hbit by lia.
Qed.

Lemma window_world_ok_open w i c : world_ok w → world_ok (step (Open i c) w).
Proof.
  intros Hw. simpl. destruct (open_context c (w_guard w, w_store w)) as [r [g st']] eqn:Ho.
  destruct (open_context_effect _ _ _ _ _ _ Ho) as (Hg & Heff & Hwin).
  destruct (effect_preserves _ _ _ Heff) as (Hrise & Hcov & Hk).
  assert (Hg0 : 0 ≤ reservation_ahead_ g) by (rewrite Hg; apply (wo_ahead w Hw)).
  destruct r as [win|]; [|by apply world_ok_close_with; eauto].
  destruct (Hwin win eq_refl) as (rec & -> & Hfl & Hsrc).
  destruct Hsrc as [(Hrec & Hval & Hfp)|[-> Hold]].
  - pose proof (window_valid_init rec Hval) as Hini.
    assert (Hfree : ∀ x, ¬ free (opened_window c rec) x) by (intros; by apply reopened_not_free).
    apply (window_world_ok_step w g st' i c (opened_window c rec) None Hw Hg0 Hrise); eauto.
    + intros _. constructor; try reflexivity; [exact Hfp| |exact Hfl|].
      * intros _. split; [exact Hval|]. cbn. by rewrite bool_decide_eq_false_2.
      * intros x Hx. by apply Hfree in Hx.
    + intros x [Hx|?]; [by apply Hfree in Hx|done].
    + done.
    + intros _ j c' win' Hne Hj Ho' Hkey Hl' Hat. apply Hk. exists rec.
      rewrite <- (same_key_slot c c' Hkey), <- (same_key_fp c c' Hkey). done.
    + intros _ Hl. cbn in Hl. by rewrite bool_decide_eq_false_2 in Hl.
  - assert (Hnone : ∀ c' m, same_key c c' → floor_at (w_store w) c' m → m < Types.epoch c).
    { intros c' m Hkey (f & Hf & _ & _ & <-). rewrite <- (same_key_slot c c' Hkey) in Hf. by apply Hold. }
    assert (Hunt : untouched w i c).
    { split.
      - intros j c' win Hne Hj Ho' Hkey.
        destruct (wo_window w Hw j c' win Hj Ho') as [_ _ _ _ _ _ (m & Hm & Hle) _].
        pose proof (Hnone c' m Hkey Hm). destruct Hkey as [_ He]. lia.
      - intros c' x Hin Hkey. pose proof (wo_accepted w Hw c' x Hin) as Hc. rewrite <- Hkey in Hc.
        unfold covered in Hc. destruct (rs_floors (w_store w) !! floor_slot c) as [f|]; [|done].
        destruct (Hold f eq_refl) as (Hv & _ & Hm). destruct Hc as [Hc|[_ Hc]]; [congruence|lia]. }
    apply (window_world_ok_step w g st' i c (opened_window c (fresh_record c)) None Hw Hg0 Hrise); eauto.
    + intros _. constructor; try reflexivity; [by intros [=]|exact Hfl|by intros x (_ & [=] & _)].
    + intros x [(_ & [=] & _)|[=]].
    + done.
    + intros _ j c' win' Hne Hj Ho' Hkey Hl' Hat. destruct Hunt as [Hu _].
      by destruct (Hu j c' win' Hne Hj Ho' Hkey).
Qed.

Lemma window_world_ok_delete w i : world_ok w → world_ok (step (Drop i) w).
Proof.
  intros [Ha Hww Huq Hdj Hac Hfr Hnd].
  assert (Hsub : ∀ j p, delete i (w_windows w) !! j = Some p → w_windows w !! j = Some p)
    by (intros j p [_ Hj]%lookup_delete_Some; done).
  constructor; simpl; try assumption; eauto.
  - intros j c win Hj Ho Hl Hat. destruct (Hfr j c win (Hsub _ _ Hj) Ho Hl Hat) as [?|[Hu1 Hu2]]; [by left|right].
    split; [|done]. simpl. intros k c' win' Hne Hk. apply (Hu1 k c' win' Hne). by apply Hsub.
Qed.

Lemma restart_covered (st : ST) c x : covered st c x → covered (rs_restart st) c x.
Proof.
  unfold covered. intros Hc. destruct (rs_restart_ok st (floor_slot c)) as [Hw Hf].
  destruct Hf as [->|(f & -> & Hf)]; [|by left].
  destruct (rs_floors st !! floor_slot c) as [f|]; [|done].
  destruct Hc as [Hc|[Hp [Hlt|[He Hr]]]]; [by left|right; split; [done|by left]|].
  right. split; [done|]. right. split; [done|]. intros r Hrr Hv.
  destruct Hw as [Hw|Hw]; [rewrite Hw in Hrr; by apply Hr|]. by rewrite (Hw r Hrr) in Hv.
Qed.

Lemma window_world_ok_power_cycle w : world_ok w → world_ok (step PowerCycle w).
Proof.
  intros [Ha Hww Huq Hdj Hac Hfr Hnd]. constructor; simpl; try done.
  intros c x Hin. by apply restart_covered, Hac.
Qed.

Lemma window_step_ok e w : world_ok w → world_ok (step e w).
Proof.
  intros Hw. destruct e; eauto using window_world_ok_open, world_ok_check, world_ok_accept,
    world_ok_close, window_world_ok_delete, window_world_ok_power_cycle.
Qed.

Lemma window_start_ok ahead st : world_ok (start ahead st).
Proof.
  constructor; simpl; try done; [by apply wrap_range| |constructor].
  intros c x Hin. by apply not_elem_of_nil in Hin.
Qed.

Lemma window_run_ok ahead es st : world_ok (run ahead es st).
Proof.
  unfold run. generalize (window_start_ok ahead st). generalize (start ahead st).
  induction es as [|e es IH]; intros w Hw; simpl; [done|]. by apply IH, window_step_ok.
Qed.

(** C2: for every sequence of operations on any number of windows (two windows
    of one context included), with failed commits, evictions, power cycles,
    and power cycles that lose or corrupt window records, a counter is
    accepted at most once per security context. *)
Theorem accepted_at_most_once ahead es st : NoDup (w_accepted (run ahead es st)).
Proof. eapply NoDup_fmap_1, (wo_nodup _ (window_run_ok ahead es st)). Qed.

End System.
End System.

(** ** A store with injected faults *)
Module FaultStore.
Import Guard.

Inductive fault := Fine | Refuse | LandAnyway.

(** [losses]: the window slots each coming power cycle loses. *)
Record FaultStore := mkFaultStore {
  windows : gmap Z ReplayWindowRecord; floors : gmap Z ReplayFloorRecord;
  script : list fault; losses : list (list Z) }.

Definition pop_fault (s : FaultStore) : fault * FaultStore :=
  match script s with
  | [] => (Fine, s)
  | f :: fs => (f, mkFaultStore (windows s) (floors s) fs (losses s))
  end.

Definition faulty_load {A} (get : FaultStore → gmap Z A) (slot : Z) : M FaultStore (option A) := λ s,
  match pop_fault s with
  | (Fine, s') => (Ok (get s' !! slot), s')
  | (_, s') => (Err StorageFailure "load", s')
  end.

Definition faulty_commit (put : FaultStore → FaultStore) : M FaultStore unit := λ s,
  match pop_fault s with
  | (Fine, s') => (Ok tt, put s')
  | (Refuse, s') => (Err StorageFailure "commit", s')
  | (LandAnyway, s') => (Err StorageFailure "commit", put s')
  end.

#[global] Instance fault_store : ReplayStore FaultStore := {
  load_window := faulty_load windows;
  commit_window slot r := faulty_commit (λ s, mkFaultStore (<[slot := r]> (windows s)) (floors s) (script s) (losses s));
  load_floor := faulty_load floors;
  commit_floor slot r := faulty_commit (λ s, mkFaultStore (windows s) (<[slot := r]> (floors s)) (script s) (losses s));
  rs_restart s := mkFaultStore (foldr delete (windows s) (default [] (head (losses s)))) (floors s) (script s) (tail (losses s)) }.

Lemma pop_fault_maps s f s' : pop_fault s = (f, s') → windows s' = windows s ∧ floors s' = floors s.
Proof. unfold pop_fault. destruct (script s); by intros [= <- <-]. Qed.

Lemma foldr_delete_lookup {A} (m : gmap Z A) ks k :
  foldr delete m ks !! k = m !! k ∨ foldr delete m ks !! k = None.
Proof.
  induction ks as [|k' ks IH]; simpl; [by left|].
  destruct (decide (k' = k)) as [->|Hne]; [right; apply lookup_delete_eq|by rewrite lookup_delete_ne].
Qed.

#[global] Program Instance fault_store_laws : ReplayStoreLaws FaultStore :=
  { rs_windows := windows; rs_floors := floors }.
Next Obligation.
  intros s slot r s'. simpl. unfold faulty_load. destruct (pop_fault s) as [f s1] eqn:Hp.
  apply pop_fault_maps in Hp as [Hw Hf]. destruct f; intros; simplify_eq; rewrite Hw, Hf;
    split_and!; try done; by intros ? [= <-].
Qed.
Next Obligation.
  intros s slot r s'. simpl. unfold faulty_load. destruct (pop_fault s) as [f s1] eqn:Hp.
  apply pop_fault_maps in Hp as [Hw Hf]. destruct f; intros; simplify_eq; rewrite Hw, Hf;
    split_and!; try done; by intros ? [= <-].
Qed.
Next Obligation.
  intros s slot rec r s'. simpl. unfold faulty_commit. destruct (pop_fault s) as [f s1] eqn:Hp.
  apply pop_fault_maps in Hp as [Hw Hf]. destruct f; intros; simplify_eq; simpl; rewrite Hw, Hf; auto.
Qed.
Next Obligation.
  intros s slot rec r s'. simpl. unfold faulty_commit. destruct (pop_fault s) as [f s1] eqn:Hp.
  apply pop_fault_maps in Hp as [Hw Hf]. destruct f; intros; simplify_eq; simpl; rewrite Hw, Hf; auto.
Qed.
Next Obligation.
  intros s slot. simpl. split; [|by left].
  destruct (foldr_delete_lookup (windows s) (default [] (head (losses s))) slot) as [->| ->]; [by left|].
  by right.
Qed.

(** An open window whose floor is current and whose record is the persisted
    one, over a store without faults. *)
Record healthy (win : Window) (s : FaultStore) : Prop := {
  hl_script : script s = [];
  hl_open : open win = true;
  hl_live : live win = true → wr_initialized (record win) ≠ 0 ∧
    windows s !! slot win = Some (record win);
  hl_fresh : live win = false → wr_initialized (record win) = 0 ∧
    ∀ r, windows s !! slot win = Some r → wr_context_fingerprint r ≠ wr_context_fingerprint (record win);
  hl_floor : ∃ f, floors s !! slot win = Some f ∧ floor_valid f = true ∧
    fr_peer_fingerprint f = peer_fingerprint win ∧ fr_minimum_epoch f ≤ epoch win }.

Lemma slide_decides win x :
  is_Some (slide win x) ↔ live win = false ∨ unseen (maximum_counter win) (bitmap win) x.
Proof.
  unfold slide, unseen. destruct (live win); simpl; [|split; [by left|by eexists]].
  case_bool_decide as Hlt; [split; [by right; left|by eexists]|].
  case_bool_decide as Hd; simpl.
  { split; [by intros [? ?]|]. intros [?|[?|(_ & ? & _)]]; [done|lia|lia]. }
  case_bool_decide as Hm; rewrite mask_testbit in Hm by lia; simpl.
  - split; [|by eexists]. intros _. right. right. split_and!; [lia|lia|done].
  - split; [by intros [? ?]|]. intros [?|[?|(_ & _ & ?)]]; [done|lia|done].
Qed.

Lemma check_floor_passes win g s :
  healthy win s → check_window_floor win (g, s) = (Ok tt, (g, s)).
Proof.
  intros [Hsc _ _ _ (f & Hf & Hv & Hp & He)]. unfold check_window_floor. cbv [mbind M_bind on_store].
  cbn [fst snd]. cbn. unfold faulty_load, pop_fault. rewrite Hsc, Hf, Hv.
  rewrite (bool_decide_eq_true_2 _ Hp). cbn. unfold fail_if. cbn.
  by rewrite bool_decide_eq_false_2 by lia.
Qed.

Lemma not_superseded win s : healthy win s → superseded win (windows s !! slot win) = false.
Proof.
  intros [_ _ Hl Hf _]. unfold superseded. destruct (live win).
  - destruct (Hl eq_refl) as [Hi Hw]. rewrite bool_decide_eq_false_2 by done. cbn.
    by rewrite bool_decide_eq_true_2.
  - destruct (Hf eq_refl) as [Hi Hw]. rewrite bool_decide_eq_true_2 by done. cbn.
    destruct (windows s !! slot win) as [r|]; [|done]. apply bool_decide_eq_false_2. by apply Hw.
Qed.

(** Over a store without faults the guard accepts exactly the counters the
    window has not seen: every counter of a fresh context, every counter above
    the maximum, and those within the last 64 whose bit is clear. *)
Lemma accept_complete win x g s :
  healthy win s →
  is_ok (fst (accept win x (g, s))) = true ↔
  live win = false ∨ unseen (maximum_counter win) (bitmap win) x.
Proof.
  intros Hh. rewrite <- slide_decides. unfold accept. cbv [mbind M_bind].
  unfold fail_if at 1. rewrite (hl_open _ _ Hh). cbn [negb mret M_ret].
  rewrite (check_floor_passes win g s Hh).
  destruct (slide win x) as [[m b]|]; [|by split; [|intros [? ?]]].
  split; [by eexists|]. intros _. cbn [guard].
  destruct (bool_decide _ || bool_decide _); [|done].
  unfold commit_ceiling. cbv [mbind M_bind]. unfold on_store. cbn [fst snd]. cbn.
  unfold faulty_load, faulty_commit, pop_fault. rewrite (hl_script _ _ Hh). cbn.
  unfold fail_if. rewrite (not_superseded win s Hh). cbn. unfold pop_fault. by rewrite (hl_script _ _ Hh).
Qed.

(** A context of a link from node 5 to node 9 at epoch 3. *)
Definition demo_context : SecurityContext := mkContext Link 1 5 9 3 0 0 0.

Lemma accept_complete_witness :
  let s0 := mkFaultStore ∅ ∅ [] [] in
  let g := mkGuard 64 0 in
  ∃ win s, open_context demo_context (g, s0) = (Ok win, (g, s)) ∧ healthy win s ∧
    is_ok (fst (accept win 17 (g, s))) = true.
Proof.
  intros s0 g.
  pose (s := mkFaultStore ∅ (<[floor_slot demo_context := next_floor demo_context None]> ∅) [] []).
  pose (win := opened_window demo_context (fresh_record demo_context)).
  assert (Hh : healthy win s).
  { constructor; [reflexivity|reflexivity|by intros [=]| |].
    - intros _. split; [reflexivity|]. intros r Hr. exfalso. subst s win. cbn [windows slot opened_window] in Hr.
      rewrite lookup_empty in Hr. discriminate Hr.
    - exists (next_floor demo_context None). destruct (next_floor_fields demo_context None) as [Hm Hp].
      subst s win. cbn [floors slot epoch peer_fingerprint opened_window].
      rewrite lookup_insert_eq, Hm, Hp. split_and!; [done|apply next_floor_valid|done|reflexivity]. }
  exists win, s. split; [by vm_compute|]. split; [exact Hh|].
  apply (accept_complete win 17 g s Hh). left. reflexivity.
Defined.

(** Two windows of one context, a lost window record and a power cycle: of
    twelve deliveries of four counters four are accepted. *)
Lemma accepted_at_most_once_witness :
  let es := [System.Open 0%nat demo_context; System.Accept 0%nat 5; System.Accept 0%nat 5; System.Accept 0%nat 4;
             System.Open 1%nat demo_context; System.Accept 1%nat 4; System.Accept 1%nat 5; System.Accept 1%nat 200;
             System.Accept 0%nat 200; System.PowerCycle; System.Open 2%nat demo_context; System.Accept 2%nat 200;
             System.Accept 2%nat 300; System.Close 2%nat; System.PowerCycle; System.Open 3%nat demo_context;
             System.Accept 3%nat 300; System.Accept 3%nat 5] in
  let w := System.run 64 es (mkFaultStore ∅ ∅ [] [[]; [floor_slot demo_context]]) in
  NoDup (System.w_accepted w) ∧ snd <$> System.w_accepted w = [300; 200; 4; 5].
Proof.
  intros es w. split; [|by vm_compute].
  apply System.accepted_at_most_once.
Defined.

End FaultStore.
