(* ===== verification/GroupReplay.v ===== *)
(** * Group receive replay table (group_replay.hpp, group_replay.cpp)

    RAM-only accept-once state for group frames: one entry per (network,
    sender, context receiver), each with the sender's current epoch and a
    64-counter window; a new pair is refused when the table is full. *)

From S2P Require Import Prelude Types Replay.

Definition kMaxRouteGateways : nat := 4.
Definition kCapacity : nat := 2 * kMaxRouteGateways.
Definition kWindow : Z := 64.

Record Entry := mkEntry {
  e_network : Z; e_sender : Z; e_group : Z; e_epoch : Z;
  e_maximum : Z; e_bitmap : Z; e_used : bool }.

Definition no_entry : Entry := mkEntry 0 0 0 0 0 0 false.

Record GroupReplayTable := mkTable {
  entries_ : list Entry; replays_ : Z; stale_epochs_ : Z; capacity_refusals_ : Z }.

Definition empty_table : GroupReplayTable := mkTable (replicate kCapacity no_entry) 0 0 0.

Definition entry_matches (c : SecurityContext) (e : Entry) : bool :=
  bool_decide (e_network e = network c) && bool_decide (e_sender e = sender c) &&
  bool_decide (e_group e = receiver c).

(** The scan: the matching entry, and the first free slot seen before it. *)
Fixpoint scan (c : SecurityContext) (i : nat) (es : list Entry) (free_slot : option nat)
  : option nat * option nat :=
  match es with
  | [] => (None, free_slot)
  | e :: es' =>
      if negb (e_used e) then
        scan c (S i) es' (match free_slot with None => Some i | _ => free_slot end)
      else if entry_matches c e then (Some i, free_slot)
      else scan c (S i) es' free_slot
  end.

Definition set_entry (i : nat) (e : Entry) (t : GroupReplayTable) : GroupReplayTable :=
  mkTable (<[i := e]> (entries_ t)) (replays_ t) (stale_epochs_ t) (capacity_refusals_ t).

Definition with_window (epoch maximum bitmap : Z) (e : Entry) : Entry :=
  mkEntry (e_network e) (e_sender e) (e_group e) epoch maximum bitmap (e_used e).

(** The accept decision on the entry of the context. *)
Definition accept_entry (i : nat) (e : Entry) (c : SecurityContext) (counter : Z) : M GroupReplayTable unit :=
  if bool_decide (epoch c < e_epoch e) then
    modifyS (λ t, mkTable (entries_ t) (replays_ t) (u32 (stale_epochs_ t + 1)) (capacity_refusals_ t));;
    throw ReplayRejected "GROUP_EPOCH_STALE"
  else if bool_decide (e_epoch e < epoch c) then
    modifyS (set_entry i (with_window (epoch c) counter 1 e))
  else if bool_decide (e_maximum e < counter) then
    let shift := counter - e_maximum e in
    let bits := if bool_decide (kWindow ≤ shift) then 0 else u64 (Z.shiftl (e_bitmap e) shift) in
    modifyS (set_entry i (with_window (e_epoch e) counter (Z.lor bits 1) e))
  else
    let distance := e_maximum e - counter in
    if bool_decide (kWindow ≤ distance) ||
       negb (bool_decide (Z.land (Z.shiftr (e_bitmap e) distance) 1 = 0)) then
      modifyS (λ t, mkTable (entries_ t) (u32 (replays_ t + 1)) (stale_epochs_ t) (capacity_refusals_ t));;
      throw ReplayRejected "GROUP_REPLAY"
    else
      modifyS (set_entry i (with_window (e_epoch e) (e_maximum e)
                              (Z.lor (e_bitmap e) (Z.shiftl 1 distance)) e)).

Definition accept (c : SecurityContext) (counter : Z) : M GroupReplayTable unit :=
  fail_if (negb (bool_decide (scope c = Group)) || bool_decide (kMaxCryptoCounter < counter))
    InvalidArgument "not a group replay context";;
  t ← getS;
  match scan c 0 (entries_ t) None with
  | (Some i, _) =>
      match entries_ t !! i with
      | Some e => accept_entry i e c counter
      | None => throw InternalError "unreachable"
      end
  | (None, None) =>
      modifyS (λ t, mkTable (entries_ t) (replays_ t) (stale_epochs_ t) (u32 (capacity_refusals_ t + 1)));;
      throw NoCapacity "GROUP_REPLAY_TABLE_FULL"
  | (None, Some i) =>
      modifyS (set_entry i (mkEntry (network c) (sender c) (receiver c) (epoch c) counter 1 true))
  end.

Definition size (t : GroupReplayTable) : nat := length (filter (λ e, e_used e = true) (entries_ t)).

Definition clear (t : GroupReplayTable) : GroupReplayTable :=
  mkTable ((λ _, no_entry) <$> entries_ t) (replays_ t) (stale_epochs_ t) (capacity_refusals_ t).

(** ** Accept at most once *)

(** What an authenticated frame is identified by. *)
Definition key (c : SecurityContext) : Z * Z * Z := (network c, sender c, receiver c).
Definition entry_key (e : Entry) : Z * Z * Z := (e_network e, e_sender e, e_group e).

(** The deliveries that were accepted, in order, most recent first. *)
Definition deliver (p : SecurityContext * Z) (s : GroupReplayTable * list (SecurityContext * Z))
  : GroupReplayTable * list (SecurityContext * Z) :=
  let '(r, t) := accept p.1 p.2 s.1 in (t, if is_ok r then p :: s.2 else s.2).
Definition deliver_all (ps : list (SecurityContext * Z)) : GroupReplayTable * list (SecurityContext * Z) :=
  fold_left (λ s p, deliver p s) ps (empty_table, []).

Definition tag (p : SecurityContext * Z) : (Z * Z * Z) * Z * Z := (key p.1, epoch p.1, p.2).

Lemma matches_key c e : entry_matches c e = true ↔ entry_key e = key c.
Proof.
  unfold entry_matches, entry_key, key. rewrite !andb_true_iff, !bool_decide_eq_true.
  split; [by intros [[-> ->] ->]|by intros [= -> -> ->]].
Qed.

Lemma scan_spec c i es fs r f :
  scan c i es fs = (r, f) →
  match r with
  | Some j => ∃ k e, j = (i + k)%nat ∧ es !! k = Some e ∧ e_used e = true ∧ entry_key e = key c
  | None => (∀ k e, es !! k = Some e → e_used e = true → entry_key e ≠ key c) ∧
      (f = fs ∨ ∃ k e, f = Some (i + k)%nat ∧ es !! k = Some e ∧ e_used e = false)
  end.
Proof.
  revert i fs. induction es as [|e es IH]; intros i fs; simpl; [by intros [= <- <-]; split; [|left]|].
  destruct (e_used e) eqn:Hu; simpl.
  - destruct (entry_matches c e) eqn:Hm.
    + intros [= <- <-]. exists 0%nat, e. rewrite matches_key in Hm. split_and!; [lia|done|done|done].
    + intros Hs. specialize (IH _ _ Hs). destruct r as [j|].
      * destruct IH as (k & e' & -> & ?). exists (S k), e'. split; [lia|done].
      * destruct IH as [Hno Hf]. split.
        -- intros [|k] e' Hk Hu'; [|by eapply Hno]. injection Hk as <-. intros Heq.
           apply matches_key in Heq. congruence.
        -- destruct Hf as [->|(k & e' & -> & ?)]; [by left|right]. exists (S k), e'. split; [f_equal; lia|done].
  - intros Hs. specialize (IH _ _ Hs). destruct r as [j|].
    + destruct IH as (k & e' & -> & ?). exists (S k), e'. split; [lia|done].
    + destruct IH as [Hno Hf]. split.
      * intros [|k] e' Hk Hu'; [injection Hk as <-; congruence|by eapply Hno].
      * destruct Hf as [->|(k & e' & -> & ?)].
        -- destruct fs; [by left|right]. exists 0%nat, e. split; [f_equal; lia|done].
        -- right. exists (S k), e'. split; [f_equal; lia|done].
Qed.

Definition seen_by (e : Entry) (ep x : Z) : Prop :=
  ep < e_epoch e ∨ ep = e_epoch e ∧ ¬ unseen (e_maximum e) (e_bitmap e) x.

Record table_ok (t : GroupReplayTable) (acc : list (SecurityContext * Z)) : Prop := {
  to_unique i j e e' : entries_ t !! i = Some e → entries_ t !! j = Some e' →
    e_used e = true → e_used e' = true → entry_key e = entry_key e' → i = j;
  to_seen c x : (c, x) ∈ acc → ∃ i e, entries_ t !! i = Some e ∧ e_used e = true ∧
    entry_key e = key c ∧ seen_by e (epoch c) x;
  to_nodup : NoDup (tag <$> acc) }.

Lemma shift_testbit b d : 0 ≤ d → Z.land (Z.shiftr b d) 1 = 0 ↔ Z.testbit b d = false.
Proof.
  intros Hd. change 1 with (Z.ones 1). rewrite Z.land_ones by lia.
  rewrite <- (Z.add_0_l d) at 2. rewrite <- Z.shiftr_spec by lia.
  change (2 ^ 1) with 2. rewrite Z.bit0_odd, Zmod_odd. by destruct (Z.odd _).
Qed.

(** The four branches of the decision: a refusal keeps the entries; an
    acceptance marks the counter, which was not seen, and forgets nothing. *)
Lemma accept_entry_spec i e c x t r t' :
  accept_entry i e c x t = (r, t') →
  (is_ok r = false ∧ entries_ t' = entries_ t ∧ seen_by e (epoch c) x) ∨
  (is_ok r = true ∧ ∃ e', entries_ t' = <[i := e']> (entries_ t) ∧
     entry_key e' = entry_key e ∧ e_used e' = e_used e ∧
     ¬ seen_by e (epoch c) x ∧ seen_by e' (epoch c) x ∧
     ∀ ep y, seen_by e ep y → seen_by e' ep y).
Proof.
  unfold accept_entry, mbind, M_bind, modifyS, throw, seen_by.
  case_bool_decide as Hst; [intros; simplify_eq; left; split_and!; auto|].
  case_bool_decide as Hnew; [intros; simplify_eq|].
  { right. split; [done|]. eexists. split; [done|]. cbn. split_and!; try done; [lia| |lia].
    right. split; [done|]. unfold unseen. rewrite Z.sub_diag. cbn. lia. }
  assert (epoch c = e_epoch e) as -> by lia. unfold unseen, kWindow.
  case_bool_decide as Hlt; [intros; simplify_eq|].
  { right. split; [done|]. eexists. split; [done|]. cbn. split_and!; try done.
    - lia.
    - right. split; [done|]. rewrite Z.sub_diag, Z.lor_spec. intros [?|(_ & _ & Hb)]; [lia|].
      by rewrite orb_true_r in Hb.
    - intros ep y [?|[-> Hun]]; [by left|right]. split; [done|]. intros [Hy|(Hy & H64 & Hb)]; [lia|].
      rewrite Z.lor_spec in Hb. apply orb_false_iff in Hb as [Hb H1]. apply Hun.
      destruct (Z.lt_ge_cases (e_maximum e) y); [by left|right]. split; [lia|].
      case_bool_decide; [lia|]. split; [lia|]. unfold wrap in Hb.
      rewrite Z.mod_pow2_bits_low, Z.shiftl_spec in Hb by lia. rewrite <- Hb. f_equal. lia. }
  case_bool_decide as Hd; cbn [orb]; [intros; simplify_eq; left; split_and!; auto; right; lia|].
  case_bool_decide as Hm; cbn [negb]; rewrite shift_testbit in Hm by lia.
  2: { intros; simplify_eq. left. split_and!; auto. right. split; [done|]. intros [?|(_ & _ & ?)]; [lia|done]. }
  intros; simplify_eq. right. split; [done|]. eexists. split; [done|]. cbn.
  split_and!; try done.
  - intros [?|[_ Hun]]; [lia|]. apply Hun. right. split_and!; [lia|lia|done].
  - right. split; [done|]. intros [?|(_ & _ & Hb)]; [lia|]. rewrite Z.lor_spec, Z.shiftl_1_l in Hb.
    rewrite Z.pow2_bits_true, orb_true_r in Hb by lia. done.
  - intros ep y [?|[-> Hun]]; [by left|right]. split; [done|]. intros [?|(Hy & H64 & Hb)]; [by apply Hun; left|].
    rewrite Z.lor_spec in Hb. apply orb_false_iff in Hb as [Hb _]. apply Hun. by right.
Qed.

Lemma set_entry_ok t i e e' acc :
  table_ok t acc → entries_ t !! i = Some e → e_used e = true → e_used e' = true →
  entry_key e' = entry_key e → (∀ ep y, seen_by e ep y → seen_by e' ep y) →
  table_ok (set_entry i e' t) acc.
Proof.
  intros [Huq Hseen Hnd] Hi Hu Hu' Hk Hmono. pose proof (lookup_lt_Some _ _ _ Hi) as Hlt.
  assert (Hl : ∀ j e0, <[i := e']> (entries_ t) !! j = Some e0 →
    j = i ∧ e0 = e' ∨ j ≠ i ∧ entries_ t !! j = Some e0).
  { intros j e0 Hj. destruct (decide (j = i)) as [->|Hne]; [left|right].
    - rewrite list_lookup_insert_eq in Hj by done. by injection Hj as <-.
    - by rewrite list_lookup_insert_ne in Hj by done. }
  constructor; [| |done]; simpl.
  - intros j k e1 e2 Hj Hk2 Hu1 Hu2 Hkey.
    destruct (Hl _ _ Hj) as [[-> ->]|[Hne1 Hj']], (Hl _ _ Hk2) as [[-> ->]|[Hne2 Hk']]; try done.
    + by apply (Huq i k e e2); [..|congruence].
    + by apply (Huq j i e1 e); [..|congruence].
    + by apply (Huq j k e1 e2).
  - intros c x Hin. destruct (Hseen c x Hin) as (j & e0 & Hj & Hu0 & Hk0 & Hs).
    destruct (decide (j = i)) as [->|Hne].
    + assert (e0 = e) as -> by congruence. exists i, e'. rewrite list_lookup_insert_eq by done.
      split_and!; auto. congruence.
    + exists j, e0. by rewrite list_lookup_insert_ne by done.
Qed.

Lemma deliver_ok p t acc : table_ok t acc → table_ok (deliver p (t, acc)).1 (deliver p (t, acc)).2.
Proof.
  destruct p as [c x]. intros Hok. unfold deliver. simpl.
  destruct (accept c x t) as [r t'] eqn:Ha. simpl.
  assert (Hsame : is_ok r = false → entries_ t' = entries_ t → table_ok t' (if is_ok r then (c, x) :: acc else acc)).
  { intros -> He. destruct Hok. constructor; rewrite ?He; done. }
  unfold accept, mbind, M_bind, fail_if, throw, getS in Ha.
  destruct (_ || _); [simplify_eq; by apply Hsame|]. cbn [mret M_ret] in Ha.
  destruct (scan c 0 (entries_ t) None) as [[i|] f] eqn:Hs.
  - destruct (scan_spec _ _ _ _ _ _ Hs) as (k & e & -> & Hk & Hu & Hkey). simpl in *. rewrite Hk in Ha.
    destruct (accept_entry_spec _ _ _ _ _ _ _ Ha) as [(Hr & He & _)|(Hr & e' & He & Hke & Hue & Hns & Hsn & Hmono)];
      [by apply Hsame|]. rewrite Hr.
    pose proof (set_entry_ok t k e e' acc Hok Hk Hu ltac:(congruence) Hke Hmono) as [Huq Hseen Hnd].
    simpl in Huq, Hseen. rewrite <- He in Huq, Hseen. constructor; [done| |].
    + intros c' y [[= -> ->]|Hin]%elem_of_cons; [|by apply Hseen]. exists k, e'.
      rewrite He, list_lookup_insert_eq by (by eapply lookup_lt_Some). split_and!; congruence.
    + simpl. apply NoDup_cons. split; [|done]. rewrite list_elem_of_fmap. intros ([c' y] & Htag & Hin).
      unfold tag in Htag. simpl in Htag. injection Htag as Hn He' Hg Hep <-.
      destruct (to_seen _ _ Hok c' x Hin) as (j & e0 & Hj & Hu0 & Hk0 & Hs0).
      assert (entry_key e0 = entry_key e) as Hkk by (rewrite Hk0, Hkey; unfold key; congruence).
      assert (j = k) as -> by (apply (to_unique _ _ Hok j k e0 e); assumption).
      assert (e0 = e) as -> by congruence. apply Hns. by rewrite Hep.
  - destruct (scan_spec _ _ _ _ _ _ Hs) as [Hno Hf].
    destruct f as [i|]; [|unfold modifyS in Ha; simplify_eq; by apply Hsame].
    destruct Hf as [?|(k & e & [= ->] & Hk & Hu)]; [done|]. simpl in Hk.
    unfold modifyS in Ha. simplify_eq. simpl. set (e' := mkEntry _ _ _ _ _ _ _).
    pose proof (lookup_lt_Some _ _ _ Hk) as Hlt. destruct Hok as [Huq Hseen Hnd].
    assert (Hl : ∀ j e0, <[k := e']> (entries_ t) !! j = Some e0 →
      j = k ∧ e0 = e' ∨ j ≠ k ∧ entries_ t !! j = Some e0).
    { intros j e0 Hj. destruct (decide (j = k)) as [->|Hne]; [left|right].
      - rewrite list_lookup_insert_eq in Hj by done. by injection Hj as <-.
      - by rewrite list_lookup_insert_ne in Hj by done. }
    constructor; simpl.
    + intros a b e1 e2 H1 H2 Hu1 Hu2 Hkey.
      destruct (Hl _ _ H1) as [[-> ->]|[Hn1 H1']], (Hl _ _ H2) as [[-> ->]|[Hn2 H2']]; try done.
      * destruct (Hno _ _ H2' Hu2). by rewrite <- Hkey.
      * destruct (Hno _ _ H1' Hu1). by rewrite Hkey.
      * by apply (Huq a b e1 e2).
    + intros c' y [[= -> ->]|Hin]%elem_of_cons.
      * exists k, e'. rewrite list_lookup_insert_eq by done. split_and!; try done.
        right. split; [done|]. unfold unseen. simpl. rewrite Z.sub_diag. intros [?|(_ & _ & ?)]; [lia|done].
      * destruct (Hseen c' y Hin) as (j & e0 & Hj & Hu0 & Hk0 & Hs0). exists j, e0.
        rewrite list_lookup_insert_ne; [done|]. intros ->. congruence.
    + apply NoDup_cons. split; [|done]. rewrite list_elem_of_fmap. intros ([c' y] & Htag & Hin).
      unfold tag in Htag. simpl in Htag. injection Htag as Hn He' Hg Hep <-.
      destruct (Hseen c' x Hin) as (j & e0 & Hj & Hu0 & Hk0 & _). apply (Hno _ _ Hj Hu0).
      rewrite Hk0. unfold key. congruence.
Qed.

Lemma deliver_all_ok ps : table_ok (deliver_all ps).1 (deliver_all ps).2.
Proof.
  unfold deliver_all. assert (H0 : table_ok empty_table []).
  { constructor; [|by intros c x ?%not_elem_of_nil|constructor].
    intros i j e e' Hi _ Hu. simpl in Hi. apply (lookup_replicate_1 kCapacity) in Hi as [-> _]. done. }
  revert H0. generalize empty_table, (@nil (SecurityContext * Z)).
  induction ps as [|p ps IH]; intros t acc Hok; [apply Hok|]. cbn [fold_left].
  pose proof (deliver_ok p t acc Hok). destruct (deliver p (t, acc)). by apply IH.
Qed.

(** C35: over any sequence of authenticated group frames, from any number of
    senders, each (network, sender, receiver, epoch, counter) is accepted at
    most once, whatever the table capacity refuses. *)
Theorem group_accepted_at_most_once ps : NoDup (tag <$> (deliver_all ps).2).
Proof. apply deliver_all_ok. Qed.

Lemma scan_complete c i es fs k e :
  es !! k = Some e → e_used e = true → entry_key e = key c → is_Some (fst (scan c i es fs)).
Proof.
  revert i fs k. induction es as [|e' es IH]; intros i fs k Hk Hu Hkey; [done|]. simpl.
  destruct (e_used e') eqn:Hu'; simpl; [destruct (entry_matches c e') eqn:Hm; [by eexists|]|];
    (destruct k as [|k]; simpl in Hk; simplify_eq; [|by eapply IH]).
  - apply matches_key in Hkey. congruence.
  - congruence.
Qed.

Lemma scan_finds_free c i es fs k e :
  fst (scan c i es fs) = None → es !! k = Some e → e_used e = false → is_Some (snd (scan c i es fs)).
Proof.
  assert (Hkeep : ∀ es i f, is_Some (snd (scan c i es (Some f)))).
  { clear. induction es as [|e es IH]; intros i f; simpl; [by eexists|].
    destruct (e_used e); simpl; [destruct (entry_matches c e); [by eexists|]|]; apply IH. }
  revert i fs k. induction es as [|e' es IH]; intros i fs k Hn Hk Hu; [done|]. simpl in *.
  destruct (e_used e') eqn:Hu'; simpl in *; [destruct (entry_matches c e'); [done|]|].
  - destruct k as [|k]; simpl in Hk; [simplify_eq; congruence|by eapply IH].
  - destruct fs; apply Hkeep.
Qed.

(** In every reachable table an authenticated frame of a known sender is
    accepted exactly when its epoch is newer or its counter is unseen in the
    current epoch, and a frame of a new sender exactly when the table has a
    free entry. *)
Lemma group_accept_decides ps c x :
  let t := (deliver_all ps).1 in
  scope c = Group → x ≤ kMaxCryptoCounter →
  (∀ i e, entries_ t !! i = Some e → e_used e = true → entry_key e = key c →
     is_ok (accept c x t).1 = true ↔ ¬ seen_by e (epoch c) x) ∧
  ((∀ i e, entries_ t !! i = Some e → e_used e = true → entry_key e ≠ key c) →
     is_ok (accept c x t).1 = true ↔ ∃ i e, entries_ t !! i = Some e ∧ e_used e = false).
Proof.
  intros t Hsc Hx. pose proof (deliver_all_ok ps) as Hok. fold t in Hok.
  assert (Hguard : negb (bool_decide (scope c = Group)) || bool_decide (kMaxCryptoCounter < x) = false).
  { rewrite bool_decide_eq_true_2, bool_decide_eq_false_2 by (done || lia). done. }
  unfold accept, mbind, M_bind, fail_if, getS. rewrite Hguard. cbn [mret M_ret].
  destruct (scan c 0 (entries_ t) None) as [r f] eqn:Hs. pose proof (scan_spec _ _ _ _ _ _ Hs) as Hspec. split.
  - intros i e Hi Hu Hkey. destruct (scan_complete c 0 (entries_ t) None i e Hi Hu Hkey) as [j Hj].
    rewrite Hs in Hj. simpl in Hj. subst r. destruct Hspec as (k & e' & -> & Hk & Hu' & Hkey').
    assert (k = i) as -> by (apply (to_unique _ _ Hok k i e' e); congruence).
    assert (e' = e) as -> by congruence. simpl. rewrite Hk.
    destruct (accept_entry i e c x t) as [r t'] eqn:Ha. simpl.
    destruct (accept_entry_spec _ _ _ _ _ _ _ Ha) as [(-> & _ & Hsn)|(-> & _ & _ & _ & _ & Hns & _)]; [|done].
    split; [done|]. by intros [].
  - intros Hno. destruct r as [j|].
    { destruct Hspec as (k & e & -> & Hk & Hu & Hkey). by destruct (Hno k e Hk Hu). }
    destruct f as [i|]; unfold modifyS, throw; simpl.
    + destruct Hspec as [_ [?|(k & e & [= ->] & Hk & Hu)]]; [done|]. split; [intros _; eauto|done].
    + split; [done|]. intros (i & e & Hi & Hu).
      destruct (scan_finds_free c 0 (entries_ t) None i e) as [j Hj]; [by rewrite Hs|done|done|]. by rewrite Hs in Hj.
Qed.

(** A second sender and a replayed, an older and a fresh counter. *)
Definition demo_group (s e : Z) : SecurityContext := mkContext Group 1 s kBroadcastNodeId e 0 0 0.

Lemma group_accept_decides_witness :
  let ps := [(demo_group 5 2, 10); (demo_group 5 2, 9); (demo_group 5 2, 10); (demo_group 6 1, 1)] in
  scope (demo_group 5 2) = Group ∧ 11 ≤ kMaxCryptoCounter ∧
  snd <$> (deliver_all ps).2 = [1; 9; 10] ∧
  is_ok (accept (demo_group 5 2) 11 (deliver_all ps).1).1 = true.
Proof.
  intros ps. split; [reflexivity|]. split; [by vm_compute|]. split; [by vm_compute|].
  destruct (group_accept_decides ps (demo_group 5 2) 11) as [Hk _]; [reflexivity|by vm_compute|].
  eapply (Hk 0%nat); [by vm_compute|reflexivity|reflexivity|].
  intros [H|[_ H]]; vm_compute in H; [discriminate|]. apply H. by left.
Defined.
