(* ===== verification/PeerState.v ===== *)
(** * Bounded per-peer persistent state (peer_state.hpp, peer_state.cpp)

    [BoundedCounterStore] decorates a counter inventory: it sweeps records of
    dead epochs when it opens, refuses commits at or below the sweep witness
    and caps the number of records.  [BoundedReplayStore] caps the replay
    floors.  Both implement the store interfaces the lease and the replay
    guard are proved against, so their theorems apply through the decorators. *)

From S2P Require Import Prelude Types Crc32 FixedContainers Counter Replay.

(** ** The inventory a bounded counter store decorates *)

(** [CounterInventory].  An enumeration gives the slots it visits, in order,
    and its final status. *)
Class CounterInventory (IS : Type) := {
  inv_load : Z → M IS (option CounterRecord);
  inv_commit : Z → CounterRecord → M IS unit;
  inv_enumerate : IS → list Z * (result unit * IS);
  inv_erase : Z → M IS unit;
  inv_load_witness : M IS (option Z);
  inv_commit_witness : Z → M IS unit }.

Class CounterInventoryLaws (IS : Type) `{CounterInventory IS} := {
  inv_view : IS → gmap Z CounterRecord;
  inv_witness : IS → option Z;
  inv_ok : IS → Prop;
  inv_load_ok s slot r s' :
    inv_ok s → inv_load slot s = (r, s') →
    inv_ok s' ∧ inv_view s' = inv_view s ∧ inv_witness s' = inv_witness s ∧
    (∀ o, r = Ok o → o = inv_view s !! slot ∧ ∀ rec, o = Some rec → counter_record_typed rec);
  inv_commit_ok s slot rec r s' :
    inv_ok s → counter_record_typed rec → inv_commit slot rec s = (r, s') →
    inv_ok s' ∧ inv_witness s' = inv_witness s ∧
    match r with
    | Ok _ => inv_view s' = <[slot := rec]> (inv_view s)
    | Err _ _ => commit_outcome (inv_view s) (inv_view s') slot rec
    end;
  inv_enumerate_ok s l r s' :
    inv_ok s → inv_enumerate s = (l, (r, s')) →
    inv_ok s' ∧ inv_view s' = inv_view s ∧ inv_witness s' = inv_witness s ∧
    (is_ok r = true → NoDup l ∧ ∀ slot, slot ∈ l ↔ is_Some (inv_view s !! slot));
  inv_erase_ok s slot r s' :
    inv_ok s → inv_erase slot s = (r, s') →
    inv_ok s' ∧ inv_witness s' = inv_witness s ∧
    (inv_view s' = delete slot (inv_view s) ∨ is_ok r = false ∧ inv_view s' = inv_view s);
  inv_load_witness_ok s r s' :
    inv_ok s → inv_load_witness s = (r, s') →
    inv_ok s' ∧ inv_view s' = inv_view s ∧ inv_witness s' = inv_witness s ∧
    (∀ o, r = Ok o → o = inv_witness s ∧ ∀ w, o = Some w → 0 ≤ w);
  inv_commit_witness_ok s w r s' :
    inv_ok s → 0 ≤ w → inv_commit_witness w s = (r, s') →
    inv_ok s' ∧ inv_view s' = inv_view s ∧
    (inv_witness s' = Some w ∨ is_ok r = false ∧ inv_witness s' = inv_witness s) }.

Module BoundedCounter.

Definition kSweepBatch : nat := 16.
Definition kMaxSweepPasses : nat := Z.to_nat 4096.
Definition kPeerStateCapacityDetail : string := "PEER_STATE_CAPACITY".
Definition kTxEpochWitnessDetail : string := "TX_EPOCH_AT_OR_BELOW_SWEEP_WITNESS".

Record CounterSweepReport := mkReport {
  erased : Z; retained_current : Z; retained_future : Z; retained_unreadable : Z; passes : Z }.

(** [SweepCollector] *)
Record Collector := mkCollector {
  batch : list Z; batch_max_epoch : Z; more : bool;
  current : Z; future : Z; unreadable : Z; c_status : result unit }.
Definition new_collector : Collector := mkCollector [] 0 false 0 0 0 (Ok tt).

Section Store.
Context {IS : Type} `{CounterInventory IS}.

(** The members of [BoundedCounterStore]; [b_open] is [inner_ != nullptr] and
    [b_inner] the inventory behind it. *)
Record Bounded := mkBounded {
  b_inner : IS; b_open : bool; max_records_ : Z; tx_epoch_ : Z; witness_ : Z;
  witness_found_ : bool; records_ : Z; records_known_ : bool;
  capacity_rejects_ : Z; witness_rejects_ : Z;
  report_ : CounterSweepReport; sweep_status_ : result unit }.

Definition visit (tx_epoch slot : Z) (s : Collector * IS) : bool * (Collector * IS) :=
  let '(c, iv) := s in
  let unread := mkCollector (batch c) (batch_max_epoch c) (more c) (current c) (future c)
                  (u32 (unreadable c + 1)) (c_status c) in
  match inv_load slot iv with
  | (Err IntegrityError _, iv') => (true, (unread, iv'))
  | (Err code d, iv') =>
      (false, (mkCollector (batch c) (batch_max_epoch c) (more c) (current c) (future c)
                 (unreadable c) (Err code d), iv'))
  | (Ok None, iv') => (true, (c, iv'))
  | (Ok (Some r), iv') =>
      if negb (counter_record_intact r) then (true, (unread, iv'))
      else if bool_decide (cr_key_epoch r < tx_epoch) then
        if bool_decide (length (batch c) < kSweepBatch)%nat then
          (true, (mkCollector (batch c ++ [slot])
                    (if bool_decide (batch_max_epoch c < cr_key_epoch r) then cr_key_epoch r
                     else batch_max_epoch c)
                    (more c) (current c) (future c) (unreadable c) (c_status c), iv'))
        else (true, (mkCollector (batch c) (batch_max_epoch c) true (current c) (future c)
                       (unreadable c) (c_status c), iv'))
      else if bool_decide (cr_key_epoch r = tx_epoch) then
        (true, (mkCollector (batch c) (batch_max_epoch c) (more c) (u32 (current c + 1)) (future c)
                  (unreadable c) (c_status c), iv'))
      else
        (true, (mkCollector (batch c) (batch_max_epoch c) (more c) (current c) (u32 (future c + 1))
                  (unreadable c) (c_status c), iv'))
  end.

(** The enumeration calls the visitor until it returns false. *)
Fixpoint visit_all (tx_epoch : Z) (slots : list Z) (s : Collector * IS) : Collector * IS :=
  match slots with
  | [] => s
  | slot :: slots' =>
      let '(go, s') := visit tx_epoch slot s in
      if go then visit_all tx_epoch slots' s' else s'
  end.

Definition BM := M Bounded.
Definition this : BM Bounded := λ b, (Ok b, b).
Definition set_inner (iv : IS) (b : Bounded) : Bounded :=
  mkBounded iv (b_open b) (max_records_ b) (tx_epoch_ b) (witness_ b) (witness_found_ b)
    (records_ b) (records_known_ b) (capacity_rejects_ b) (witness_rejects_ b) (report_ b) (sweep_status_ b).
Definition set_witness (w : Z) (found : bool) (b : Bounded) : Bounded :=
  mkBounded (b_inner b) (b_open b) (max_records_ b) (tx_epoch_ b) w found
    (records_ b) (records_known_ b) (capacity_rejects_ b) (witness_rejects_ b) (report_ b) (sweep_status_ b).
Definition set_records (n : Z) (known : bool) (b : Bounded) : Bounded :=
  mkBounded (b_inner b) (b_open b) (max_records_ b) (tx_epoch_ b) (witness_ b) (witness_found_ b)
    n known (capacity_rejects_ b) (witness_rejects_ b) (report_ b) (sweep_status_ b).
Definition set_rejects (cap wit : Z) (b : Bounded) : Bounded :=
  mkBounded (b_inner b) (b_open b) (max_records_ b) (tx_epoch_ b) (witness_ b) (witness_found_ b)
    (records_ b) (records_known_ b) cap wit (report_ b) (sweep_status_ b).
Definition set_report (r : CounterSweepReport) (b : Bounded) : Bounded :=
  mkBounded (b_inner b) (b_open b) (max_records_ b) (tx_epoch_ b) (witness_ b) (witness_found_ b)
    (records_ b) (records_known_ b) (capacity_rejects_ b) (witness_rejects_ b) r (sweep_status_ b).
Definition set_sweep_status (s : result unit) (b : Bounded) : Bounded :=
  mkBounded (b_inner b) (b_open b) (max_records_ b) (tx_epoch_ b) (witness_ b) (witness_found_ b)
    (records_ b) (records_known_ b) (capacity_rejects_ b) (witness_rejects_ b) (report_ b) s.

Definition on_inner {A} (m : M IS A) : BM A :=
  λ b, let '(r, iv) := m (b_inner b) in (r, set_inner iv b).

Definition close : BM unit := modifyS (λ b,
  mkBounded (b_inner b) false 0 0 0 false 0 false (capacity_rejects_ b) (witness_rejects_ b)
    (mkReport 0 0 0 0 0) (Ok tt)).

(** One enumeration of the inventory into a fresh collector. *)
Definition collect : BM Collector := λ b,
  let '(slots, (status, iv)) := inv_enumerate (b_inner b) in
  let '(c, iv') := visit_all (tx_epoch_ b) slots (new_collector, iv) in
  let b' := set_inner iv' b in
  match status with
  | Err code d => (Err code d, b')
  | Ok _ => match c_status c with Err code d => (Err code d, b') | Ok _ => (Ok c, b') end
  end.

Definition raise_witness (batch_max : Z) : BM unit :=
  b ← this;
  if negb (witness_found_ b) || bool_decide (witness_ b < batch_max) then
    on_inner (inv_commit_witness batch_max);;
    modifyS (set_witness batch_max true)
  else mret tt.

Fixpoint erase_batch (slots : list Z) : BM unit :=
  match slots with
  | [] => mret tt
  | slot :: slots' =>
      on_inner (inv_erase slot);;
      modifyS (λ b, set_report (mkReport (u32 (erased (report_ b) + 1)) (retained_current (report_ b))
                 (retained_future (report_ b)) (retained_unreadable (report_ b)) (passes (report_ b))) b);;
      erase_batch slots'
  end.

Definition erase_dead (c : Collector) : BM unit :=
  match batch c with
  | [] => mret tt
  | _ => raise_witness (batch_max_epoch c);; erase_batch (batch c)
  end.

Definition census (c : Collector) (b : Bounded) : Bounded :=
  set_records (u32 (u32 (current c + future c) + unreadable c)) true
    (set_report (mkReport (erased (report_ b)) (current c) (future c) (unreadable c) (passes (report_ b))) b).

(** The passes of [sweep]; [n] bounds them as [kMaxSweepPasses] does. *)
Fixpoint sweep_passes (n : nat) (pass : Z) : BM unit :=
  match n with
  | O => throw InternalError "counter sweep did not converge"
  | S k =>
      modifyS (λ b, set_report (mkReport (erased (report_ b)) (retained_current (report_ b))
                 (retained_future (report_ b)) (retained_unreadable (report_ b)) (pass + 1)) b);;
      c ← collect;
      erase_dead c;;
      if bool_decide (batch c = []) || negb (more c) then modifyS (census c)
      else sweep_passes k (pass + 1)
  end.

Definition sweep : BM unit :=
  modifyS (λ b, set_records (records_ b) false b);;
  sweep_passes kMaxSweepPasses 0.

(** [sweep_status_ = sweep()] *)
Definition record_sweep : BM unit := λ b,
  let '(r, b') := sweep b in (Ok tt, set_sweep_status r b').

Definition open (max_records tx_epoch : Z) : BM unit :=
  close;;
  fail_if (bool_decide (tx_epoch = 0)) InvalidArgument "TX epoch unset";;
  found ← on_inner inv_load_witness;
  if match found with Some w => bool_decide (tx_epoch ≤ w) | None => false end then
    modifyS (λ b, set_rejects (capacity_rejects_ b) (u32 (witness_rejects_ b + 1)) b);;
    throw Conflict kTxEpochWitnessDetail
  else
    modifyS (λ b, mkBounded (b_inner b) true max_records tx_epoch (default 0 found)
               (match found with Some _ => true | None => false end) (records_ b) (records_known_ b)
               (capacity_rejects_ b) (witness_rejects_ b) (report_ b) (sweep_status_ b));;
    record_sweep.

Definition load (slot : Z) : BM (option CounterRecord) :=
  b ← this;
  fail_if (negb (b_open b)) InvalidState "counter store not open";;
  on_inner (inv_load slot).

(** [if (status) ++records_; else if the record landed anyway, ++records_]. *)
Definition commit_new (slot : Z) (record : CounterRecord) : BM unit := λ b,
  let '(r, b1) := on_inner (inv_commit slot record) b in
  match r with
  | Ok _ => (r, set_records (u32 (records_ b1 + 1)) (records_known_ b1) b1)
  | Err _ _ =>
      let '(landed, b2) := on_inner (inv_load slot) b1 in
      match landed with
      | Ok (Some _) => (r, set_records (u32 (records_ b2 + 1)) (records_known_ b2) b2)
      | _ => (r, b2)
      end
  end.

Definition commit (slot : Z) (record : CounterRecord) : BM unit :=
  b ← this;
  fail_if (negb (b_open b)) InvalidState "counter store not open";;
  if witness_found_ b && bool_decide (cr_key_epoch record ≤ witness_ b) then
    modifyS (λ b, set_rejects (capacity_rejects_ b) (u32 (witness_rejects_ b + 1)) b);;
    throw Conflict kTxEpochWitnessDetail
  else
    found ← on_inner (inv_load slot);
    match found with
    | Some _ => on_inner (inv_commit slot record)
    | None =>
        b ← this;
        if negb (records_known_ b) || bool_decide (max_records_ b ≤ records_ b) then
          modifyS (λ b, set_rejects (u32 (capacity_rejects_ b + 1)) (witness_rejects_ b) b);;
          throw NoCapacity kPeerStateCapacityDetail
        else commit_new slot record
    end.

(** The store after a power cycle: a new object opened for the boot session,
    with the configured cap. *)
Definition restart (cap : Z) (session : Z) (b : Bounded) : Bounded :=
  snd (open cap (u32 session) (mkBounded (b_inner b) false 0 0 0 false 0 false 0 0 (mkReport 0 0 0 0 0) (Ok tt))).

End Store.
Arguments Bounded : clear implicits.

(** ** The decorator keeps the store contract *)
Section Laws.
Context {IS : Type} `{CounterInventoryLaws IS}.

Definition bview (b : Bounded IS) : gmap Z CounterRecord := inv_view (b_inner b).
Definition bdead (b : Bounded IS) : Z :=
  if b_open b then (if witness_found_ b then witness_ b else -1)
  else default (-1) (inv_witness (b_inner b)).

Record bounded_ok (b : Bounded IS) : Prop := {
  bo_inner : inv_ok (b_inner b);
  bo_durable w : inv_witness (b_inner b) = Some w → 0 ≤ w;
  bo_witness : b_open b = true → witness_found_ b = true →
    0 ≤ witness_ b ∧ ∃ d, inv_witness (b_inner b) = Some d ∧ witness_ b ≤ d }.

(** The epochs a step may drop records of are dead afterwards. *)
Record dropped (b b' : Bounded IS) : Prop := {
  dr_ok : bounded_ok b';
  dr_open : b_open b' = b_open b;
  dr_epoch : tx_epoch_ b' = tx_epoch_ b;
  dr_dead : bdead b ≤ bdead b';
  dr_view slot : bview b' !! slot = bview b !! slot ∨
    bview b' !! slot = None ∧
    ∀ r, bview b !! slot = Some r → counter_record_intact r = true ∧ cr_key_epoch r ≤ bdead b' }.

Lemma dropped_refl b : bounded_ok b → dropped b b.
Proof. intros Hb. constructor; auto. lia. Qed.

Lemma dropped_trans b1 b2 b3 : dropped b1 b2 → dropped b2 b3 → dropped b1 b3.
Proof.
  intros [O1 P1 E1 D1 V1] [O2 P2 E2 D2 V2]. constructor; [done|congruence|congruence|lia|].
  intros slot. destruct (V1 slot) as [He1|[Hn1 Hr1]].
  - destruct (V2 slot) as [He2|[Hn2 Hr2]]; [left; congruence|right]. rewrite He1 in Hr2. by split.
  - right. split.
    + destruct (V2 slot) as [He2|[Hn2 _]]; congruence.
    + intros r Hr. destruct (Hr1 r Hr). split; [done|lia].
Qed.

(** Same inventory contents and witness, same RAM gate. *)
Lemma dropped_same b b' :
  bounded_ok b → inv_ok (b_inner b') → bview b' = bview b →
  inv_witness (b_inner b') = inv_witness (b_inner b) → b_open b' = b_open b →
  tx_epoch_ b' = tx_epoch_ b → witness_ b' = witness_ b → witness_found_ b' = witness_found_ b →
  dropped b b'.
Proof.
  intros [O1 O2 O3] Hok Hv Hw Ho Ht Hwi Hwf.
  assert (Hd : bdead b' = bdead b) by (unfold bdead; by rewrite Ho, Hw, Hwf, Hwi).
  constructor; [|done|done|lia|].
  - constructor; [done| |]; rewrite ?Hw, ?Ho, ?Hwf, ?Hwi; done.
  - intros slot. left. by rewrite Hv.
Qed.

Definition collected (v : gmap Z CounterRecord) (c : Collector) : Prop :=
  0 ≤ batch_max_epoch c ∧
  ∀ slot, slot ∈ batch c → ∃ r, v !! slot = Some r ∧ counter_record_intact r = true ∧
    cr_key_epoch r ≤ batch_max_epoch c.

Lemma visit_spec tx slot c (iv : IS) go c' iv' :
  inv_ok iv → collected (inv_view iv) c → visit tx slot (c, iv) = (go, (c', iv')) →
  inv_ok iv' ∧ inv_view iv' = inv_view iv ∧ inv_witness iv' = inv_witness iv ∧
  collected (inv_view iv) c'.
Proof.
  intros Hok [Hpos Hc] Hv. unfold visit in Hv. destruct (inv_load slot iv) as [r iv1] eqn:Hl.
  destruct (inv_load_ok _ _ _ _ Hok Hl) as (Hok1 & Hv1 & Hw1 & Hr).
  assert (Hsame : ∀ cc, batch cc = batch c → batch_max_epoch cc = batch_max_epoch c →
    collected (inv_view iv) cc) by (intros cc Hb Hm; unfold collected; by rewrite Hb, Hm).
  destruct r as [[rec|]|code d];
    [|simplify_eq; split_and!; auto|destruct code; simplify_eq; split_and!; auto].
  destruct (counter_record_intact rec) eqn:Hi; cbn [negb] in Hv; [|simplify_eq; split_and!; auto].
  destruct (Hr _ eq_refl) as [Hs Hty]. destruct (Hty _ eq_refl) as [[He0 _] _].
  case_bool_decide as Htx; [|case_bool_decide; simplify_eq; split_and!; auto].
  case_bool_decide as Hlen; simplify_eq; split_and!; auto.
  split; cbn [batch_max_epoch batch]; [case_bool_decide; lia|].
  intros s [Hs'|Hs']%elem_of_app.
  - destruct (Hc s Hs') as (r' & ? & ? & ?). exists r'. split_and!; try done. case_bool_decide; lia.
  - apply list_elem_of_singleton in Hs' as ->. exists rec. split_and!; try done. case_bool_decide; lia.
Qed.

Lemma visit_all_spec tx slots c (iv : IS) c' iv' :
  inv_ok iv → collected (inv_view iv) c → visit_all tx slots (c, iv) = (c', iv') →
  inv_ok iv' ∧ inv_view iv' = inv_view iv ∧ inv_witness iv' = inv_witness iv ∧
  collected (inv_view iv) c'.
Proof.
  revert c iv. induction slots as [|slot slots IH]; intros c iv Hok Hc Hv; cbn [visit_all] in Hv; [by simplify_eq|].
  destruct (visit tx slot (c, iv)) as [go [c1 iv1]] eqn:Hv1.
  destruct (visit_spec _ _ _ _ _ _ _ Hok Hc Hv1) as (Hok1 & He1 & Hw1 & Hc1).
  destruct go; [|by simplify_eq; split_and!]. rewrite <- He1 in Hc1 |- *.
  destruct (IH c1 iv1 Hok1 Hc1 Hv) as (? & ? & ? & ?). split_and!; auto; congruence.
Qed.

Lemma collect_spec b r b' :
  bounded_ok b → collect b = (r, b') →
  dropped b b' ∧ bview b' = bview b ∧ (∀ c, r = Ok c → collected (bview b) c).
Proof.
  intros Hb Hrun. unfold collect in Hrun.
  destruct (inv_enumerate (b_inner b)) as [slots [status iv]] eqn:He.
  destruct (inv_enumerate_ok _ _ _ _ (bo_inner _ Hb) He) as (Hok & Hv & Hw & _).
  destruct (visit_all (tx_epoch_ b) slots (new_collector, iv)) as [c iv'] eqn:Hva.
  assert (Hc0 : collected (inv_view iv) new_collector)
    by (split; [simpl; lia|intros slot Hs; by apply not_elem_of_nil in Hs]).
  destruct (visit_all_spec _ _ _ _ _ _ Hok Hc0 Hva) as (Hok' & Hv' & Hw' & Hc).
  assert (b' = set_inner iv' b ∧ ∀ c0, r = Ok c0 → c0 = c) as [-> Hr].
  { destruct status, (c_status c); simplify_eq; split; try done. by intros ? [= <-]. }
  unfold bview. cbn [b_inner set_inner]. split; [|split; [congruence|]].
  - apply dropped_same; simpl; try done; unfold bview; simpl; congruence.
  - intros c0 ->%Hr. by rewrite Hv in Hc.
Qed.

Lemma raise_witness_spec m b r b' :
  bounded_ok b → b_open b = true → 0 ≤ m → raise_witness m b = (r, b') →
  dropped b b' ∧ bview b' = bview b ∧ (is_ok r = true → m ≤ bdead b').
Proof.
  intros Hb Ho Hm Hrun. pose proof Hb as [O1 O2 O3]. unfold raise_witness, mbind, M_bind, this in Hrun.
  destruct (negb (witness_found_ b) || bool_decide (witness_ b < m)) eqn:Hneed.
  - unfold on_inner in Hrun. destruct (inv_commit_witness m (b_inner b)) as [rw iv] eqn:Hw.
    destruct (inv_commit_witness_ok _ _ _ _ O1 Hm Hw) as (Hok & Hv & Hwit).
    assert (Hdur : ∀ w, inv_witness iv = Some w → 0 ≤ w).
    { intros w Hiw. destruct Hwit as [Hwit|[_ Hwit]]; [congruence|]. apply O2. congruence. }
    assert (Hlow : witness_found_ b = true → witness_ b < m).
    { intros Hf. rewrite Hf in Hneed. cbn in Hneed. by apply bool_decide_eq_true in Hneed. }
    destruct rw as [u|code d]; simpl in Hrun; unfold modifyS in Hrun; simplify_eq.
    + destruct Hwit as [Hwit|[? _]]; [|done]. split; [|split].
      * constructor; try done; unfold bdead, bview; simpl; rewrite ?Ho.
        -- constructor; simpl; [done|done|]. intros _ _. split; [done|]. exists m. by split.
        -- destruct (witness_found_ b) eqn:Hf; [specialize (Hlow eq_refl)|]; lia.
        -- intros slot. left. by rewrite Hv.
      * done.
      * intros _. unfold bdead. simpl. rewrite Ho. lia.
    + split; [|split; [done|done]]. constructor; try done; unfold bdead, bview; simpl; rewrite ?Ho.
      * constructor; simpl; [done|done|]. rewrite Ho. intros _ Hf. destruct (O3 Ho Hf) as (Hw0 & dd & Hd & Hle).
        split; [done|]. destruct Hwit as [Hwit|[_ Hwit]]; [|exists dd; split; [congruence|done]].
        exists m. split; [done|]. specialize (Hlow Hf). lia.
      * lia.
      * intros slot. left. by rewrite Hv.
  - unfold mret, M_ret in Hrun. simplify_eq. split; [by apply dropped_refl|]. split; [done|].
    intros _. apply orb_false_iff in Hneed as [Hf Hlt]. apply negb_false_iff in Hf.
    apply bool_decide_eq_false in Hlt. unfold bdead. rewrite Ho, Hf. lia.
Qed.

Lemma erase_batch_spec slots b r b' :
  bounded_ok b → b_open b = true →
  (∀ slot rec, slot ∈ slots → bview b !! slot = Some rec →
     counter_record_intact rec = true ∧ cr_key_epoch rec ≤ bdead b) →
  erase_batch slots b = (r, b') → dropped b b'.
Proof.
  revert b. induction slots as [|slot slots IH]; intros b Hb Ho Hrec Hrun; simpl in Hrun.
  { unfold mret, M_ret in Hrun. simplify_eq. by apply dropped_refl. }
  unfold mbind, M_bind, on_inner in Hrun.
  destruct (inv_erase slot (b_inner b)) as [re iv] eqn:He.
  destruct (inv_erase_ok _ _ _ _ (bo_inner _ Hb) He) as (Hok & Hw & Hv).
  set (b1 := set_inner iv b) in *.
  assert (Hsub : ∀ k rec, inv_view iv !! k = Some rec → bview b !! k = Some rec).
  { intros k rec Hk. unfold bview. destruct Hv as [Hv|[_ Hv]]; rewrite Hv in Hk; [|done].
    by apply lookup_delete_Some in Hk as [_ ?]. }
  assert (Hd1 : dropped b b1).
  { pose proof Hb as [O1 O2 O3]. assert (Hdd : bdead b1 = bdead b) by (unfold bdead; simpl; by rewrite Hw).
    constructor; try done; [|lia|].
    - constructor; simpl; [done| |]; rewrite ?Hw; done.
    - intros k. unfold bview at 1 3. simpl. destruct Hv as [Hv|[_ Hv]]; rewrite Hv; [|by left].
      destruct (decide (k = slot)) as [->|Hne]; [|left; by rewrite lookup_delete_ne].
      right. split; [by rewrite lookup_delete_eq|]. intros rec Hr. rewrite Hdd.
      apply (Hrec slot rec); [left|done]. }
  destruct re as [u|]; [|by simplify_eq]. unfold modifyS in Hrun.
  match type of Hrun with erase_batch slots ?bb = _ => set (b2 := bb) in * end.
  assert (Hd2 : dropped b1 b2) by (apply dropped_same; try done; apply Hd1).
  eapply dropped_trans; [exact Hd1|]. eapply dropped_trans; [exact Hd2|].
  apply (IH b2); [apply Hd2|done| |done]. intros k rec Hin Hk.
  assert (bdead b2 = bdead b) as -> by (unfold bdead; simpl; by rewrite Hw).
  apply (Hrec k rec); [by right|]. by apply Hsub.
Qed.

Lemma sweep_passes_spec n pass b r b' :
  bounded_ok b → b_open b = true → sweep_passes n pass b = (r, b') → dropped b b'.
Proof.
  revert pass b. induction n as [|n IH]; intros pass b Hb Ho Hrun; cbn [sweep_passes] in Hrun.
  { unfold throw in Hrun. simplify_eq. by apply dropped_refl. }
  cbv [mbind M_bind modifyS] in Hrun.
  match type of Hrun with context [collect ?bb] => set (b0 := bb) in * end.
  assert (Hd0 : dropped b b0) by (apply dropped_same; try done; apply Hb).
  destruct (collect b0) as [rc b1] eqn:Hc.
  destruct (collect_spec _ _ _ (dr_ok _ _ Hd0) Hc) as (Hd1 & Hv1 & Hcol).
  pose proof (dropped_trans _ _ _ Hd0 Hd1) as Hd01.
  destruct rc as [c|]; [|by simplify_eq]. destruct (Hcol c eq_refl) as [Hpos Hbatch].
  assert (Ho1 : b_open b1 = true) by (by rewrite (dr_open _ _ Hd01)).
  destruct (erase_dead c b1) as [re b2] eqn:He.
  assert (Hd2 : dropped b1 b2).
  { unfold erase_dead in He. destruct (batch c) as [|s0 ss] eqn:Hbe.
    { unfold mret, M_ret in He. simplify_eq. by apply dropped_refl, Hd1. }
    cbv [mbind M_bind] in He. destruct (raise_witness (batch_max_epoch c) b1) as [rw b3] eqn:Hrw.
    destruct (raise_witness_spec _ _ _ _ (dr_ok _ _ Hd1) Ho1 Hpos Hrw) as (Hd3 & Hv3 & Hle).
    destruct rw as [u|]; [|by simplify_eq]. specialize (Hle eq_refl).
    eapply dropped_trans; [exact Hd3|]. eapply erase_batch_spec; [apply Hd3|by rewrite (dr_open _ _ Hd3)| |exact He].
    intros slot rec Hin Hs. rewrite Hv3, Hv1 in Hs. destruct (Hbatch slot Hin) as (r' & Hr' & Hi & Hle').
    assert (r' = rec) as -> by congruence. split; [done|lia]. }
  pose proof (dropped_trans _ _ _ Hd01 Hd2) as Hd02.
  destruct re as [u|]; [|by simplify_eq].
  destruct (bool_decide (batch c = []) || negb (more c)).
  - simplify_eq. eapply dropped_trans; [exact Hd02|]. apply dropped_same; try done; apply Hd02.
  - eapply dropped_trans; [exact Hd02|]. eapply IH; [apply Hd02| |exact Hrun].
    by rewrite (dr_open _ _ Hd02).
Qed.

Lemma close_dropped b r b' : bounded_ok b → close b = (r, b') → bounded_ok b' ∧ bview b' = bview b ∧
  bdead b ≤ bdead b' ∧ b_open b' = false ∧ r = Ok tt ∧ inv_witness (b_inner b') = inv_witness (b_inner b).
Proof.
  intros [O1 O2 O3]. unfold close, modifyS. intros [= <- <-]. split_and!; try done.
  unfold bdead. simpl. destruct (b_open b); [|lia]. destruct (witness_found_ b).
  - destruct (O3 eq_refl eq_refl) as (_ & d & -> & Hle). done.
  - destruct (inv_witness (b_inner b)) as [w|] eqn:Hw; [|done]. specialize (O2 w eq_refl). simpl. lia.
Qed.

Lemma open_spec cap tx b r b' :
  bounded_ok b → open cap tx b = (r, b') →
  bounded_ok b' ∧ bdead b ≤ bdead b' ∧
  ∀ slot, bview b' !! slot = bview b !! slot ∨
    bview b' !! slot = None ∧
    ∀ r, bview b !! slot = Some r → counter_record_intact r = true ∧ cr_key_epoch r ≤ bdead b'.
Proof.
  intros Hb Hrun. unfold open in Hrun. cbv [mbind M_bind] in Hrun.
  destruct (close b) as [rc b1] eqn:Hc. destruct (close_dropped _ _ _ Hb Hc) as (Hb1 & Hv1 & Hd1 & Ho1 & -> & Hw1).
  assert (Hstop : ∀ b2, dropped b1 b2 → b' = b2 → bounded_ok b' ∧ bdead b ≤ bdead b' ∧
    ∀ slot, bview b' !! slot = bview b !! slot ∨ bview b' !! slot = None ∧
      ∀ r, bview b !! slot = Some r → counter_record_intact r = true ∧ cr_key_epoch r ≤ bdead b').
  { intros b2 [Ok2 _ _ D2 V2] ->. split; [done|]. split; [lia|]. intros slot. rewrite <- Hv1. apply V2. }
  unfold fail_if in Hrun. destruct (bool_decide (tx = 0)).
  { unfold throw in Hrun. simplify_eq. eapply Hstop; [by apply dropped_refl|done]. }
  cbn [mret M_ret] in Hrun. unfold on_inner in Hrun.
  destruct (inv_load_witness (b_inner b1)) as [rl iv] eqn:Hl.
  destruct (inv_load_witness_ok _ _ _ (bo_inner _ Hb1) Hl) as (Hok & Hv & Hw & Hr).
  set (b2 := set_inner iv b1) in *.
  assert (Hd2 : dropped b1 b2) by (by apply dropped_same; unfold bview; simpl).
  destruct rl as [found|]; [|simplify_eq; by eapply Hstop]. destruct (Hr _ eq_refl) as [Hfound Hpos].
  destruct (match found with Some w => bool_decide (tx ≤ w) | None => false end).
  { unfold modifyS, throw in Hrun. simplify_eq. eapply Hstop; [|done].
    eapply dropped_trans; [exact Hd2|]. apply dropped_same; try done; apply Hd2. }
  unfold modifyS, record_sweep in Hrun.
  match type of Hrun with context [sweep ?bb] => set (b3 := bb) in * end.
  assert (Hb3 : bounded_ok b3).
  { constructor; [apply Hd2|apply (bo_durable _ (dr_ok _ _ Hd2))|]. simpl. intros _ Hf.
    destruct found as [w|]; [|done]. simpl. split; [by apply Hpos|]. exists w. split; [congruence|lia]. }
  assert (Hdd : bdead b1 ≤ bdead b3).
  { unfold bdead. rewrite Ho1. simpl. rewrite <- Hfound. destruct found as [w|]; [|done]. simpl. lia. }
  destruct (sweep b3) as [rs b4] eqn:Hs. injection Hrun as <- <-.
  unfold sweep in Hs. cbv [mbind M_bind modifyS] in Hs.
  match type of Hs with sweep_passes _ _ ?bb = _ => set (b5 := bb) in * end.
  assert (Hd5 : dropped b3 b5) by (apply dropped_same; try done; apply Hb3).
  pose proof (sweep_passes_spec _ _ _ _ _ (dr_ok _ _ Hd5) eq_refl Hs) as Hd4.
  assert (Hd6 : dropped b4 (set_sweep_status rs b4)) by (apply dropped_same; try done; apply Hd4).
  destruct (dropped_trans _ _ _ (dropped_trans _ _ _ Hd5 Hd4) Hd6) as [Ok6 _ _ D6 V6].
  split; [done|]. split; [lia|]. intros slot.
  assert (Hv3 : bview b3 = bview b) by (rewrite <- Hv1; unfold bview; simpl; exact Hv). rewrite <- Hv3. apply V6.
Qed.

(** [on_inner (inv_commit ...)] seen through the decorator. *)
Lemma inner_commit_spec slot rec b r b' :
  bounded_ok b → counter_record_typed rec → on_inner (inv_commit slot rec) b = (r, b') →
  bounded_ok b' ∧ bdead b' = bdead b ∧
  match r with
  | Ok _ => bview b' = <[slot := rec]> (bview b)
  | Err _ _ => commit_outcome (bview b) (bview b') slot rec
  end.
Proof.
  intros [O1 O2 O3] Hty. unfold on_inner. destruct (inv_commit slot rec (b_inner b)) as [rc iv] eqn:Hc.
  intros [= <- <-]. destruct (inv_commit_ok _ _ _ _ _ O1 Hty Hc) as (Hok & Hw & Hr).
  unfold bdead, bview. simpl. rewrite Hw. split_and!; try done. constructor; simpl; rewrite ?Hw; done.
Qed.

Lemma inner_load_spec slot b r b' :
  bounded_ok b → on_inner (inv_load slot) b = (r, b') →
  bounded_ok b' ∧ bview b' = bview b ∧ bdead b' = bdead b ∧ b_open b' = b_open b ∧
  witness_ b' = witness_ b ∧ witness_found_ b' = witness_found_ b ∧
  (∀ o, r = Ok o → o = bview b !! slot ∧ ∀ rec, o = Some rec → counter_record_typed rec).
Proof.
  intros [O1 O2 O3]. unfold on_inner. destruct (inv_load slot (b_inner b)) as [rc iv] eqn:Hc.
  intros [= <- <-]. destruct (inv_load_ok _ _ _ _ O1 Hc) as (Hok & Hv & Hw & Hr).
  unfold bdead, bview. simpl. rewrite Hw. split_and!; try done. constructor; simpl; rewrite ?Hw; done.
Qed.

Lemma records_only b n k : bounded_ok b → bounded_ok (set_records n k b) ∧
  bdead (set_records n k b) = bdead b ∧ bview (set_records n k b) = bview b.
Proof. intros [O1 O2 O3]. split; [by constructor|]. done. Qed.

Lemma commit_new_spec slot rec b r b' :
  bounded_ok b → counter_record_typed rec → commit_new slot rec b = (r, b') →
  bounded_ok b' ∧ bdead b' = bdead b ∧
  match r with
  | Ok _ => bview b' = <[slot := rec]> (bview b)
  | Err _ _ => commit_outcome (bview b) (bview b') slot rec
  end.
Proof.
  intros Hb Hty Hrun. unfold commit_new in Hrun.
  destruct (on_inner (inv_commit slot rec) b) as [rc b1] eqn:Hc.
  destruct (inner_commit_spec _ _ _ _ _ Hb Hty Hc) as (Hb1 & Hd1 & Hr1).
  destruct rc as [u|code d].
  - injection Hrun as <- <-. destruct (records_only b1 (u32 (records_ b1 + 1)) (records_known_ b1) Hb1) as (? & ? & ->).
    split_and!; auto; congruence.
  - destruct (on_inner (inv_load slot) b1) as [landed b2] eqn:Hl.
    destruct (inner_load_spec _ _ _ _ Hb1 Hl) as (Hb2 & Hv2 & Hd2 & _).
    destruct (records_only b2 (u32 (records_ b2 + 1)) (records_known_ b2) Hb2) as (? & Hd3 & Hv3).
    destruct landed as [[o|]|]; injection Hrun as <- <-; rewrite ?Hv3, ?Hd3, Hv2, Hd2; by split_and!.
Qed.

Context (cap : Z).

#[global] Instance bounded_store : CounterStore (Bounded IS) :=
  { store_load := load; store_commit := commit; store_restart := restart cap }.

#[global] Program Instance bounded_store_laws : CounterStoreLaws (Bounded IS) :=
  { store_view := bview; store_dead := bdead; store_ok := bounded_ok }.
Next Obligation.
  intros b slot r b' Hb Hrun. simpl in Hrun. unfold load in Hrun. cbv [mbind M_bind this fail_if] in Hrun.
  destruct (b_open b); cbn [negb] in Hrun; [|unfold throw in Hrun; simplify_eq; by split_and!].
  cbn [mret M_ret] in Hrun. destruct (inner_load_spec _ _ _ _ Hb Hrun) as (? & ? & ? & _ & _ & _ & ?).
  by split_and!.
Qed.
Next Obligation.
  intros b slot rec r b' Hb Hty Hrun. simpl in Hrun. unfold commit in Hrun. cbv [mbind M_bind this fail_if] in Hrun.
  assert (Hkeep : ∀ c d b2, bounded_ok b2 → bdead b2 = bdead b → bview b2 = bview b → r = Err c d → b' = b2 →
    bounded_ok b' ∧ bdead b' = bdead b ∧ match r with
    | Ok _ => bdead b < cr_key_epoch rec ∧ bview b' = <[slot:=rec]> (bview b)
    | Err _ _ => commit_outcome (bview b) (bview b') slot rec end).
  { intros c d b2 H1 H2 H3 -> ->. split_and!; try done. by left. }
  destruct (b_open b) eqn:Ho; cbn [negb] in Hrun; [|unfold throw in Hrun; simplify_eq; by refine (Hkeep _ _ _ _ _ _ eq_refl eq_refl)].
  cbn [mret M_ret] in Hrun. destruct (witness_found_ b && bool_decide (cr_key_epoch rec ≤ witness_ b)) eqn:Hgate.
  { unfold modifyS, throw in Hrun. simplify_eq. refine (Hkeep _ _ _ _ _ _ eq_refl eq_refl); try done. destruct Hb; by constructor. }
  assert (Hlt : bdead b < cr_key_epoch rec).
  { unfold bdead. rewrite Ho. destruct (witness_found_ b); [|destruct Hty as [[? _] _]; lia].
    apply bool_decide_eq_false in Hgate. lia. }
  destruct (on_inner (inv_load slot) b) as [rl b1] eqn:Hl.
  destruct (inner_load_spec _ _ _ _ Hb Hl) as (Hb1 & Hv1 & Hd1 & _).
  assert (Hgo : ∀ r0 b0, bounded_ok b0 ∧ bdead b0 = bdead b1 ∧ match r0 with
    | Ok _ => bview b0 = <[slot:=rec]> (bview b1)
    | Err _ _ => commit_outcome (bview b1) (bview b0) slot rec end → r = r0 → b' = b0 →
    bounded_ok b' ∧ bdead b' = bdead b ∧ match r with
    | Ok _ => bdead b < cr_key_epoch rec ∧ bview b' = <[slot:=rec]> (bview b)
    | Err _ _ => commit_outcome (bview b) (bview b') slot rec end).
  { intros r0 b0 (G1 & G2 & G3) -> ->. rewrite Hv1 in G3. split_and!; [done|congruence|]. by destruct r0. }
  destruct rl as [[ex|]|]; [| |simplify_eq; by refine (Hkeep _ _ _ _ _ _ eq_refl eq_refl)].
  - eapply Hgo; [|done|done]. by eapply inner_commit_spec.
  - destruct (negb (records_known_ b1) || bool_decide (max_records_ b1 ≤ records_ b1)).
    { unfold modifyS, throw in Hrun. simplify_eq. refine (Hkeep _ _ _ _ _ _ eq_refl eq_refl); try done. destruct Hb1; by constructor. }
    eapply Hgo; [|done|done]. by eapply commit_new_spec.
Qed.
Next Obligation.
  intros b e Hb. simpl. unfold restart.
  match goal with |- context [open cap (u32 e) ?bb] => set (b0 := bb); destruct (open cap (u32 e) b0) as [r b'] eqn:Hr end.
  assert (Hb0 : bounded_ok b0) by (destruct Hb as [O1 O2 O3]; by constructor).
  assert (Hd0 : bdead b ≤ bdead b0).
  { destruct (close b) as [rc bc] eqn:Hc. destruct (close_dropped _ _ _ Hb Hc) as (_ & _ & Hd & Hoc & _ & Hwc).
    unfold bdead in Hd at 2. rewrite Hoc, Hwc in Hd. exact Hd. }
  destruct (open_spec _ _ _ _ _ Hb0 Hr) as (Hb' & Hd & Hv). split_and!; [done|simpl; lia|done].
Qed.

(** C24: counters issued through the bounded store, which erases the records
    of dead epochs at every boot, are still never reissued: any run of leases,
    evictions, faults and power cycles, with any boot sessions. *)
Theorem bounded_counters_never_reissued capacity es b :
  bounded_ok b →
  NoDup (Counter.System.w_issued (Counter.System.run (ST := Bounded IS) capacity es b)).
Proof. intros Hb. assert (Hok : store_ok b) by exact Hb. apply (Counter.System.run_ok capacity es b Hok). Qed.

(** The record count never falls below what the inventory holds. *)
Definition count_ok (b : Bounded IS) : Prop :=
  records_known_ b = true → Z.of_nat (size (bview b)) ≤ records_ b.

(** The load that follows a failed commit of a new record succeeds. *)
Definition confirms (slot : Z) (rec : CounterRecord) (b : Bounded IS) : Prop :=
  ∀ b1 rc b2, on_inner (inv_load slot) b = (Ok None, b1) →
    on_inner (inv_commit slot rec) b1 = (rc, b2) → is_ok rc = false →
    ∃ o iv, inv_load slot (b_inner b2) = (Ok o, iv).

Lemma outcome_size v v' slot (rec : CounterRecord) :
  commit_outcome v v' slot rec →
  (v' = v ∨ is_Some (v' !! slot)) ∧
  Z.of_nat (size v') ≤ Z.of_nat (size v) + 1 ∧ (is_Some (v !! slot) → size v' = size v).
Proof.
  assert (Hins : ∀ x : CounterRecord, Z.of_nat (size (<[slot := x]> v)) ≤ Z.of_nat (size v) + 1 ∧
    (is_Some (v !! slot) → size (<[slot := x]> v) = size v)).
  { intros x. destruct (v !! slot) as [y|] eqn:Hs.
    - rewrite map_size_insert_Some by (by eexists). split; [lia|done].
    - rewrite map_size_insert_None by done. split; [lia|by intros [? ?]]. }
  intros [->|[->|(torn & _ & ->)]]; [split; [by left|]; split; [lia|done]|..];
    (split; [right; rewrite lookup_insert_eq; by eexists|]; apply Hins).
Qed.

(** Provided the load that confirms a failed commit succeeds, a commit through
    the bounded store never lets the inventory grow past the cap (or past what
    it already held), and keeps the count, also when the commit fails or lands
    in spite of an error. *)
Lemma commit_within_cap slot rec b r b' :
  bounded_ok b → confirms slot rec b → count_ok b → is_u32 (max_records_ b) →
  counter_record_typed rec → commit slot rec b = (r, b') →
  count_ok b' ∧
  Z.of_nat (size (bview b')) ≤ Z.max (Z.of_nat (size (bview b))) (max_records_ b).
Proof.
  intros Hb Hload Hcount [_ Hmax] Hty Hrun. unfold commit in Hrun. cbv [mbind M_bind this fail_if] in Hrun.
  assert (Hsame : ∀ b2, bview b2 = bview b → records_ b2 = records_ b →
    records_known_ b2 = records_known_ b → b' = b2 → count_ok b' ∧
    Z.of_nat (size (bview b')) ≤ Z.max (Z.of_nat (size (bview b))) (max_records_ b)).
  { intros b2 Hv Hr Hk ->. unfold count_ok. rewrite Hv, Hr, Hk. split; [exact Hcount|lia]. }
  destruct (b_open b); cbn [negb] in Hrun; [|unfold throw in Hrun; simplify_eq; by eapply Hsame].
  cbn [mret M_ret] in Hrun. destruct (witness_found_ b && _);
    [unfold modifyS, throw in Hrun; simplify_eq; by refine (Hsame _ _ _ _ eq_refl)|].
  destruct (on_inner (inv_load slot) b) as [rl b1] eqn:Hl.
  destruct (inner_load_spec _ _ _ _ Hb Hl) as (Hb1 & Hv1 & _ & _ & _ & _ & Hr1).
  assert (Hrec : records_ b1 = records_ b ∧ records_known_ b1 = records_known_ b ∧ max_records_ b1 = max_records_ b).
  { unfold on_inner in Hl. destruct (inv_load slot (b_inner b)). by injection Hl as <- <-. }
  destruct Hrec as (Hrr & Hrk & Hrm).
  destruct rl as [[ex|]|]; [| |simplify_eq; by eapply Hsame].
  - destruct (Hr1 _ eq_refl) as [Hex _]. destruct (inner_commit_spec _ _ _ _ _ Hb1 Hty Hrun) as (_ & _ & Hc).
    assert (Hout : commit_outcome (bview b1) (bview b') slot rec) by (destruct r; [right; left|]; done).
    destruct (outcome_size _ _ _ _ Hout) as (_ & _ & Hsz). rewrite Hv1 in Hsz.
    assert (Hrec' : records_ b' = records_ b1 ∧ records_known_ b' = records_known_ b1).
    { unfold on_inner in Hrun. destruct (inv_commit slot rec (b_inner b1)). by injection Hrun as <- <-. }
    destruct Hrec' as [R1 R2]. unfold count_ok. rewrite R1, R2, Hrr, Hrk, Hsz by (by eexists). split; [exact Hcount|lia].
  - destruct (negb (records_known_ b1) || bool_decide (max_records_ b1 ≤ records_ b1)) eqn:Hfull;
      [unfold modifyS, throw in Hrun; simplify_eq; by refine (Hsame _ _ _ _ eq_refl)|].
    apply orb_false_iff in Hfull as [Hkn Hlt]. apply negb_false_iff in Hkn. apply bool_decide_eq_false in Hlt.
    rewrite Hrk in Hkn. specialize (Hcount Hkn). unfold commit_new in Hrun.
    destruct (on_inner (inv_commit slot rec) b1) as [rc b2] eqn:Hc.
    destruct (inner_commit_spec _ _ _ _ _ Hb1 Hty Hc) as (Hb2 & _ & Hout).
    assert (Hrec2 : records_ b2 = records_ b1 ∧ records_known_ b2 = records_known_ b1).
    { unfold on_inner in Hc. destruct (inv_commit slot rec (b_inner b1)). by injection Hc as <- <-. }
    destruct Hrec2 as [R1 R2].
    assert (Hout' : commit_outcome (bview b) (bview b2) slot rec) by (rewrite <- Hv1; destruct rc; [right; left|]; done).
    destruct (outcome_size _ _ _ _ Hout') as (Hland & Hsz & _).
    assert (Hnw : u32 (records_ b + 1) = records_ b + 1) by (apply wrap_id; split; lia).
    destruct rc as [u|code d].
    + injection Hrun as <- <-. unfold count_ok, bview in *. simpl. rewrite R1, Hrr, Hnw. split; [intros _; lia|lia].
    + destruct (Hload b1 _ b2 Hl Hc eq_refl) as (o & iv & Hlo).
      unfold on_inner in Hrun. rewrite Hlo in Hrun.
      destruct (inv_load_ok _ _ _ _ (bo_inner _ Hb2) Hlo) as (_ & Hv3 & _ & Ho). destruct (Ho o eq_refl) as [-> _].
      fold (bview b2) in Hv3, Hrun. destruct (bview b2 !! slot) as [x|] eqn:Hx; injection Hrun as <- <-;
        unfold count_ok, bview; simpl; rewrite Hv3, R1, Hrr, ?Hnw; (split; [intros _|]).
      1,2: lia.
      all: destruct Hland as [->|[? ?]]; [lia|congruence].
Qed.

End Laws.
End BoundedCounter.

(** ** An inventory with injected faults *)
Module MapInventory.
Import Counter.FaultStore.

Record MapInventory := mkInventory {
  m_records : gmap Z CounterRecord; m_witness : option Z; m_script : list fault }.

Definition pop (s : MapInventory) : fault * MapInventory :=
  match m_script s with
  | [] => (Fine, s)
  | f :: fs => (f, mkInventory (m_records s) (m_witness s) fs)
  end.

Definition faulty {A} (read : MapInventory → result A) (effect torn_effect : MapInventory → MapInventory)
  : M MapInventory A := λ s,
  match pop s with
  | (Fine, s') => (read s', effect s')
  | (Refuse, s') => (Err StorageFailure "inventory", s')
  | (LandAnyway, s') => (Err StorageFailure "inventory", effect s')
  | (Tear, s') => (Err StorageFailure "inventory", torn_effect s')
  end.

Definition put (slot : Z) (r : CounterRecord) (s : MapInventory) : MapInventory :=
  mkInventory (<[slot := r]> (m_records s)) (m_witness s) (m_script s).

#[global] Instance map_inventory : CounterInventory MapInventory := {
  inv_load slot := faulty (λ s, Ok (m_records s !! slot)) id id;
  inv_commit slot r := faulty (λ _, Ok tt) (put slot r) (put slot (torn r));
  inv_enumerate s := (elements (dom (m_records s)), faulty (λ _, Ok tt) id id s);
  inv_erase slot := faulty (λ _, Ok tt)
    (λ s, mkInventory (delete slot (m_records s)) (m_witness s) (m_script s)) id;
  inv_load_witness := faulty (λ s, Ok (m_witness s)) id id;
  inv_commit_witness w := faulty (λ _, Ok tt)
    (λ s, mkInventory (m_records s) (Some w) (m_script s)) id }.

Lemma pop_same s f s' : pop s = (f, s') → m_records s' = m_records s ∧ m_witness s' = m_witness s.
Proof. unfold pop. destruct (m_script s); by intros [= <- <-]. Qed.

Definition map_ok (s : MapInventory) : Prop :=
  map_Forall (λ _, counter_record_typed) (m_records s) ∧ ∀ w, m_witness s = Some w → 0 ≤ w.

Lemma faulty_inv {A} (read : MapInventory → result A) eff teff s r s' :
  faulty read eff teff s = (r, s') →
  ∃ s1, m_records s1 = m_records s ∧ m_witness s1 = m_witness s ∧
    (r = read s1 ∧ s' = eff s1 ∨ is_ok r = false ∧ (s' = s1 ∨ s' = eff s1 ∨ s' = teff s1)).
Proof.
  unfold faulty. destruct (pop s) as [f s1] eqn:Hp. apply pop_same in Hp as [H1 H2].
  intros Hr. exists s1. split; [done|]. split; [done|]. destruct f; injection Hr as <- <-; auto.
Qed.

Lemma map_ok_same s s1 :
  m_records s1 = m_records s → m_witness s1 = m_witness s → map_ok s → map_ok s1.
Proof. unfold map_ok. by intros -> ->. Qed.

Lemma faulty_read {A} (read : MapInventory → result A) s r s' :
  faulty read id id s = (r, s') →
  m_records s' = m_records s ∧ m_witness s' = m_witness s ∧ (is_ok r = true → r = read s').
Proof.
  intros (s1 & H1 & H2 & [[-> ->]|[Hr [->|[->| ->]]]])%faulty_inv; unfold id; split_and!; try done; by rewrite Hr.
Qed.

#[global] Program Instance map_inventory_laws : CounterInventoryLaws MapInventory :=
  { inv_view := m_records; inv_witness := m_witness; inv_ok := map_ok }.
Next Obligation.
  intros s slot r s' Hok (H1 & H2 & Hr)%faulty_read. split; [by eapply map_ok_same|].
  split; [done|]. split; [done|]. intros o ->. specialize (Hr eq_refl). injection Hr as ->. rewrite H1.
  split; [done|]. intros rec Hrec. by apply (proj1 Hok slot).
Qed.
Next Obligation.
  intros s slot rec r s' [Hty Hwt] Hrec (s1 & H1 & H2 & Hcase)%faulty_inv.
  assert (Hput : ∀ x, counter_record_typed x → map_ok (put slot x s1)).
  { intros x Hx. split; simpl; [apply map_Forall_insert_2; [done|by rewrite H1]|by rewrite H2]. }
  unfold commit_outcome. rewrite <- H1.
  destruct Hcase as [[-> ->]|[Hr [->|[->| ->]]]]; [split_and!; auto|..]; (destruct r; [done|]).
  - split_and!; [by eapply map_ok_same|done|by left].
  - split_and!; auto.
  - split_and!; [by apply Hput|done|]. right. right. exists (torn rec). split; [apply torn_not_intact|done].
Qed.
Next Obligation.
  intros s l r s' Hok Hf. simpl in Hf. injection Hf as <- Hf.
  apply faulty_read in Hf as (H1 & H2 & _). split; [by eapply map_ok_same|]. split; [done|]. split; [done|].
  intros _. split; [apply NoDup_elements|]. intros slot. by rewrite elem_of_elements, elem_of_dom.
Qed.
Next Obligation.
  intros s slot r s' [Hty Hwt] (s1 & H1 & H2 & Hcase)%faulty_inv. rewrite <- H1 in *. rewrite <- H2 in *.
  assert (Hdel : map_ok (mkInventory (delete slot (m_records s1)) (m_witness s1) (m_script s1))).
  { split; [by apply map_Forall_delete|done]. }
  destruct Hcase as [[-> ->]|[Hr [->|[->| ->]]]]; split_and!; auto; by split.
Qed.
Next Obligation.
  intros s r s' Hok (H1 & H2 & Hr)%faulty_read. split; [by eapply map_ok_same|]. split; [done|]. split; [done|].
  intros o ->. specialize (Hr eq_refl). injection Hr as ->. rewrite H2. split; [done|]. apply Hok.
Qed.
Next Obligation.
  intros s w r s' [Hty Hwt] Hw (s1 & H1 & H2 & Hcase)%faulty_inv. rewrite <- H1 in *. rewrite <- H2 in *.
  assert (Hnew : map_ok (mkInventory (m_records s1) (Some w) (m_script s1))) by (split; [done|by intros ? [= <-]]).
  destruct Hcase as [[-> ->]|[Hr [->|[->| ->]]]]; split_and!; auto; by split.
Qed.

Import BoundedCounter.

(** A closed store over an inventory. *)
Definition closed (s : MapInventory) : Bounded MapInventory :=
  mkBounded s false 0 0 0 false 0 false 0 0 (mkReport 0 0 0 0 0) (Ok tt).

Lemma closed_ok s : map_ok s → bounded_ok (closed s).
Proof. intros Hs. constructor; [exact Hs|apply Hs|done]. Qed.

Lemma empty_map_ok fs : map_ok (mkInventory ∅ None fs).
Proof. split; [apply map_Forall_empty|done]. Qed.

(** Boot sessions 3 and 5: the sweep of the second boot erases the record of
    epoch 3, a lease that still asks for epoch 3 is refused, epoch 5 starts
    from zero. *)
Lemma bounded_counters_never_reissued_witness :
  let es := [Counter.System.PowerCycle 3; Counter.System.Open 0%nat 7 1 3 0 2;
             Counter.System.Next 0%nat; Counter.System.PowerCycle 5;
             Counter.System.Open 0%nat 7 1 3 0 2; Counter.System.Next 0%nat;
             Counter.System.Open 1%nat 7 1 5 0 2; Counter.System.Next 1%nat] in
  let b := closed (mkInventory ∅ None []) in
  let w := @Counter.System.run _ (bounded_store 8) 4%nat es b in
  bounded_ok b ∧ NoDup (Counter.System.w_issued w) ∧
  Counter.System.w_issued w = [(7, 5, 0); (7, 3, 0)].
Proof.
  intros es b w. assert (Hb : bounded_ok b) by (apply closed_ok, empty_map_ok).
  split; [exact Hb|]. split; [|by vm_compute].
  apply (bounded_counters_never_reissued 8 4%nat es b Hb).
Defined.

Definition demo_record : CounterRecord :=
  Eval vm_compute in Lease.next_record (Lease.mkLease 7 1 5 0 2 0 0 0 true).

(** An open store with room for one record. *)
Definition demo_store (fs : list fault) : Bounded MapInventory :=
  mkBounded (mkInventory ∅ None fs) true 1 5 0 false 0 true 0 0 (mkReport 0 0 0 0 0) (Ok tt).

(** The commit lands although it reports an error; the count still follows. *)
Lemma commit_within_cap_witness :
  let b := demo_store [Fine; LandAnyway] in
  let b' := snd (commit 7 demo_record b) in
  bounded_ok b ∧ confirms 7 demo_record b ∧ count_ok b' ∧ records_ b' = 1.
Proof.
  intros b b'.
  assert (Hb : bounded_ok b) by (constructor; [apply empty_map_ok|done|done]).
  assert (Hty : counter_record_typed demo_record) by (split; by vm_compute).
  assert (Hcf : confirms 7 demo_record b).
  { intros b1 rc b2 H1 H2 _. injection H1 as <-. injection H2 as <- <-. by eexists _, _. }
  assert (Hc : count_ok b) by (intros _; vm_compute; discriminate).
  assert (Hm : is_u32 (max_records_ b)) by (by vm_compute).
  split; [exact Hb|]. split; [exact Hcf|]. split; [|reflexivity].
  apply (commit_within_cap 7 demo_record b (fst (commit 7 demo_record b)) b' Hb Hcf Hc Hm Hty).
  by destruct (commit 7 demo_record b).
Defined.

(** When the confirming load fails as well, the record that landed is not
    counted: the inventory holds one record and the store counts none. *)
Example landed_record_uncounted :
  let b' := snd (commit 7 demo_record (demo_store [Fine; LandAnyway; Refuse])) in
  size (bview b') = 1%nat ∧ records_known_ b' = true ∧ records_ b' = 0.
Proof. by vm_compute. Qed.

End MapInventory.

(** ** The bounded replay store *)

(** [ReplayInventory]: a replay store whose floor slots can be enumerated. *)
Class ReplayInventory (IS : Type) `{ReplayStore IS} := {
  inv_floor_slots : IS → list Z * (result unit * IS) }.

Class ReplayInventoryLaws (IS : Type) `{ReplayInventory IS, !ReplayStoreLaws IS} := {
  inv_floor_slots_ok s l r s' :
    inv_floor_slots s = (l, (r, s')) →
    rs_windows s' = rs_windows s ∧ rs_floors s' = rs_floors s ∧
    (is_ok r = true → NoDup l ∧ ∀ slot, slot ∈ l ↔ is_Some (rs_floors s !! slot)) }.

Module BoundedReplay.
Section Store.
Context {IS : Type} `{ReplayInventory IS}.

Record Bounded := mkBounded {
  b_inner : IS; b_open : bool; max_peers_ : Z; peers_ : Z; peers_known_ : bool;
  capacity_rejects_ : Z; count_status_ : result unit }.

Definition BM := M Bounded.
Definition this : BM Bounded := λ b, (Ok b, b).
Definition set_inner (iv : IS) (b : Bounded) : Bounded :=
  mkBounded iv (b_open b) (max_peers_ b) (peers_ b) (peers_known_ b) (capacity_rejects_ b) (count_status_ b).
Definition set_peers (n : Z) (b : Bounded) : Bounded :=
  mkBounded (b_inner b) (b_open b) (max_peers_ b) n (peers_known_ b) (capacity_rejects_ b) (count_status_ b).
Definition set_rejects (n : Z) (b : Bounded) : Bounded :=
  mkBounded (b_inner b) (b_open b) (max_peers_ b) (peers_ b) (peers_known_ b) n (count_status_ b).

Definition on_inner {A} (m : M IS A) : BM A :=
  λ b, let '(r, iv) := m (b_inner b) in (r, set_inner iv b).

Definition close : BM unit := modifyS (λ b,
  mkBounded (b_inner b) false 0 0 false (capacity_rejects_ b) (Ok tt)).

(** The members [open] sets from the enumeration of the floors. *)
Definition count_floors (max_peers : Z) : BM unit := λ b,
  let '(slots, (status, iv)) := inv_floor_slots (b_inner b) in
  (Ok tt, mkBounded iv true max_peers (if is_ok status then u32 (Z.of_nat (length slots)) else 0)
            (is_ok status) (capacity_rejects_ b) status).

Definition open (max_peers : Z) : BM unit := close;; count_floors max_peers.

Definition not_open : BM unit :=
  b ← this;
  fail_if (negb (b_open b)) InvalidState "replay store not open".

Definition load_window (slot : Z) : BM (option ReplayWindowRecord) :=
  not_open;; on_inner (Replay.load_window slot).

Definition load_floor (slot : Z) : BM (option ReplayFloorRecord) :=
  not_open;; on_inner (Replay.load_floor slot).

Definition commit_window (slot : Z) (record : ReplayWindowRecord) : BM unit :=
  not_open;;
  floor ← on_inner (Replay.load_floor slot);
  match floor with
  | None => throw IntegrityError "replay window without floor"
  | Some _ => on_inner (Replay.commit_window slot record)
  end.

Definition commit_new_floor (slot : Z) (record : ReplayFloorRecord) : BM unit := λ b,
  let '(r, b1) := on_inner (Replay.commit_floor slot record) b in
  match r with
  | Ok _ => (r, set_peers (u32 (peers_ b1 + 1)) b1)
  | Err _ _ =>
      let '(landed, b2) := on_inner (Replay.load_floor slot) b1 in
      match landed with
      | Ok (Some _) => (r, set_peers (u32 (peers_ b2 + 1)) b2)
      | _ => (r, b2)
      end
  end.

Definition commit_floor (slot : Z) (record : ReplayFloorRecord) : BM unit :=
  not_open;;
  found ← on_inner (Replay.load_floor slot);
  match found with
  | Some _ => on_inner (Replay.commit_floor slot record)
  | None =>
      b ← this;
      if negb (peers_known_ b) || bool_decide (max_peers_ b ≤ peers_ b) then
        modifyS (λ b, set_rejects (u32 (capacity_rejects_ b + 1)) b);;
        throw NoCapacity BoundedCounter.kPeerStateCapacityDetail
      else commit_new_floor slot record
  end.

(** A power cycle of the inventory, then a new object opened with the cap. *)
Definition restart (cap : Z) (b : Bounded) : Bounded :=
  snd (open cap (mkBounded (rs_restart (b_inner b)) false 0 0 false 0 (Ok tt))).

End Store.
Arguments Bounded : clear implicits.

Section Laws.
Context {IS : Type} `{ReplayInventoryLaws IS} (cap : Z).

#[global] Instance bounded_replay : ReplayStore (Bounded IS) := {
  Replay.load_window := load_window; Replay.commit_window := commit_window;
  Replay.load_floor := load_floor; Replay.commit_floor := commit_floor;
  rs_restart := restart cap }.

Lemma not_open_spec (b : Bounded IS) r b' : not_open b = (r, b') → b' = b.
Proof.
  unfold not_open, mbind, M_bind, this, fail_if, throw. destruct (negb (b_open b)); by intros [= <- <-].
Qed.

Lemma inner_inv {A} (m : M IS A) (b : Bounded IS) r b' :
  on_inner m b = (r, b') → ∃ iv, m (b_inner b) = (r, iv) ∧ b' = set_inner iv b.
Proof. unfold on_inner. destruct (m (b_inner b)). intros [= <- <-]. eauto. Qed.

#[global] Program Instance bounded_replay_laws : ReplayStoreLaws (Bounded IS) :=
  { rs_windows b := rs_windows (b_inner b); rs_floors b := rs_floors (b_inner b) }.
Next Obligation.
  intros b slot r b' Hrun. simpl in Hrun. unfold load_window, mbind, M_bind in Hrun.
  destruct (not_open b) as [ro b1] eqn:Hn. apply not_open_spec in Hn as ->.
  destruct ro; [|by simplify_eq]. apply inner_inv in Hrun as (iv & Hl & ->). simpl.
  by apply load_window_ok.
Qed.
Next Obligation.
  intros b slot r b' Hrun. simpl in Hrun. unfold load_floor, mbind, M_bind in Hrun.
  destruct (not_open b) as [ro b1] eqn:Hn. apply not_open_spec in Hn as ->.
  destruct ro; [|by simplify_eq]. apply inner_inv in Hrun as (iv & Hl & ->). simpl.
  by apply load_floor_ok.
Qed.
Next Obligation.
  intros b slot rec r b' Hrun. simpl in Hrun. unfold commit_window, mbind, M_bind in Hrun.
  destruct (not_open b) as [ro b1] eqn:Hn. apply not_open_spec in Hn as ->.
  destruct ro; [|simplify_eq; by split; [|right]].
  destruct (on_inner (Replay.load_floor slot) b) as [rl b2] eqn:Hl.
  apply inner_inv in Hl as (iv & Hl & ->). destruct (load_floor_ok _ _ _ _ Hl) as (Hw & Hf & _).
  destruct rl as [[f|]|]; [|unfold throw in Hrun; simplify_eq; simpl; rewrite Hw, Hf; by split; [|right]..].
  apply inner_inv in Hrun as (iv2 & Hc & ->). simpl in *. rewrite <- Hw, <- Hf. by apply commit_window_ok.
Qed.
Next Obligation.
  intros b slot rec r b' Hrun. simpl in Hrun. unfold commit_floor, mbind, M_bind in Hrun.
  destruct (not_open b) as [ro b1] eqn:Hn. apply not_open_spec in Hn as ->.
  destruct ro; [|simplify_eq; by split; [|right]].
  destruct (on_inner (Replay.load_floor slot) b) as [rl b2] eqn:Hl.
  apply inner_inv in Hl as (iv & Hl & ->). destruct (load_floor_ok _ _ _ _ Hl) as (Hw & Hf & _).
  destruct rl as [[f|]|]; [| |simplify_eq; simpl; rewrite Hw, Hf; by split; [|right]].
  - apply inner_inv in Hrun as (iv2 & Hc & ->). simpl in *. rewrite <- Hw, <- Hf. by apply commit_floor_ok.
  - unfold this in Hrun. destruct (_ || _);
      [unfold modifyS, throw in Hrun; simplify_eq; simpl; rewrite Hw, Hf; by split; [|right]|].
    unfold commit_new_floor in Hrun.
    destruct (on_inner (Replay.commit_floor slot rec) (set_inner iv b)) as [rc b3] eqn:Hc.
    apply inner_inv in Hc as (iv2 & Hc & ->). simpl in Hc. apply commit_floor_ok in Hc as (Hw2 & Hf2).
    destruct rc as [u|code d]; [injection Hrun as <- <-; simpl; by rewrite <- Hw, <- Hf|].
    destruct (on_inner (Replay.load_floor slot) (set_inner iv2 (set_inner iv b))) as [landed b4] eqn:Hl2.
    apply inner_inv in Hl2 as (iv3 & Hl2 & ->). simpl in Hl2.
    destruct (load_floor_ok _ _ _ _ Hl2) as (Hw3 & Hf3 & _).
    destruct landed as [[x|]|]; injection Hrun as <- <-; simpl; rewrite Hw3, Hf3, <- Hw, <- Hf; by split.
Qed.
Next Obligation.
  intros b slot. unfold rs_restart, bounded_replay, restart, open, count_floors, mbind, M_bind, close, modifyS. simpl.
  destruct (inv_floor_slots (rs_restart (b_inner b))) as [l [r iv]] eqn:Hs.
  destruct (inv_floor_slots_ok _ _ _ _ Hs) as (Hw & Hf & _). simpl. rewrite Hw, Hf. apply rs_restart_ok.
Qed.

(** Frames received through the capped store are accepted at most once,
    whatever the cap refuses. *)
Lemma bounded_accepted_at_most_once ahead es b :
  NoDup (Replay.System.w_accepted (Replay.System.run (ST := Bounded IS) ahead es b)).
Proof. eapply NoDup_fmap_1, (Replay.System.wo_nodup _ (Replay.System.window_run_ok ahead es b)). Qed.

End Laws.
End BoundedReplay.

(** The faulty replay store of Replay, with its floors enumerated. *)
Module FloorInventory.
Import Replay.FaultStore.

#[global] Instance floor_inventory : ReplayInventory FaultStore := {
  inv_floor_slots s := (fst <$> map_to_list (floors s), (Ok tt, s)) }.

#[global] Instance floor_inventory_laws : ReplayInventoryLaws FaultStore.
Proof.
  split. intros s l r s' [= <- <- <-]. split; [done|]. split; [done|]. intros _. split; [apply NoDup_fst_map_to_list|].
  intros slot. rewrite list_elem_of_fmap. split.
  - intros ([k f] & -> & Hin%elem_of_map_to_list). by exists f.
  - intros [f Hf]. exists (slot, f). split; [done|]. by apply elem_of_map_to_list.
Qed.

Definition capped (cap : Z) : BoundedReplay.Bounded FaultStore :=
  snd (BoundedReplay.open cap (BoundedReplay.mkBounded (mkFaultStore ∅ ∅ [] []) false 0 0 false 0 (Ok tt))).

Definition other_context : SecurityContext := mkContext Link 1 6 9 3 0 0 0.

(** Cap of one peer: the second peer is refused, the first one's counters are
    accepted once. *)
Lemma bounded_accepted_at_most_once_witness :
  let es := [Replay.System.Open 0%nat demo_context; Replay.System.Accept 0%nat 5; Replay.System.Accept 0%nat 5;
             Replay.System.Open 1%nat other_context; Replay.System.Accept 1%nat 5;
             Replay.System.PowerCycle; Replay.System.Open 2%nat demo_context; Replay.System.Accept 2%nat 5;
             Replay.System.Accept 2%nat 70] in
  let w := Replay.System.run (H := BoundedReplay.bounded_replay 1) 64 es (capped 1) in
  NoDup (Replay.System.w_accepted w) ∧ snd <$> Replay.System.w_accepted w = [70; 5].
Proof.
  intros es w. split; [|by vm_compute].
  apply (BoundedReplay.bounded_accepted_at_most_once 1 64 es (capped 1)).
Defined.

End FloorInventory.

(** ** The NVS entry budget (peer_state.hpp) *)

Module Budget.

Definition kNvsEntryBytes : Z := 32.
Definition kNvsEntriesPerPage : Z := 126.
Definition kPeerStateFixedEntries : Z := 3.
Definition kPeerStateBudgetPercent : Z := 80.

Definition nvs_blob_entries (bytes : Z) : Z :=
  u32 (2 + u32 (u64 (bytes + kNvsEntryBytes - 1) / kNvsEntryBytes)).

(** The record sizes are those the layouts assert: 32, 24 and 40 bytes. *)
Definition kPeerStateEntriesPerPeer : Z :=
  u32 (2 * (nvs_blob_entries 32 + nvs_blob_entries 24 + nvs_blob_entries 40)).

(** Entries the peer state may claim of a partition. *)
Definition nvs_budget (total_entries : Z) : Z :=
  let usable := if bool_decide (kNvsEntriesPerPage < total_entries) then total_entries - kNvsEntriesPerPage else 0 in
  u64 (usable * kPeerStateBudgetPercent) / 100.

Definition max_persisted_peers_for_entries (total_entries : Z) : Z :=
  let budget := nvs_budget total_entries in
  if bool_decide (kPeerStateFixedEntries < budget)
  then u32 ((budget - kPeerStateFixedEntries) / kPeerStateEntriesPerPeer) else 0.

Record PeerStateLimits := mkLimits { max_counter_records : Z; max_replay_peers : Z }.

Definition peer_state_limits (max_persisted_peers : Z) : PeerStateLimits :=
  let slots := if bool_decide (0x7FFFFFFF < max_persisted_peers) then 0xFFFFFFFF else u32 (2 * max_persisted_peers) in
  mkLimits slots slots.

(** Entries used by that many counter records, floors and windows. *)
Definition entries_used (l : PeerStateLimits) : Z :=
  kPeerStateFixedEntries + max_counter_records l * nvs_blob_entries 32 +
  max_replay_peers l * (nvs_blob_entries 24 + nvs_blob_entries 40).

(** The record limits derived from a partition's entry count fit its
    budget in the worst case, and one more peer would not. *)
Lemma peer_limits_fit_budget total_entries :
  is_u32 total_entries → kPeerStateFixedEntries < nvs_budget total_entries →
  let n := max_persisted_peers_for_entries total_entries in
  entries_used (peer_state_limits n) ≤ nvs_budget total_entries < entries_used (peer_state_limits (n + 1)).
Proof.
  intros Ht Hb n. unfold n, max_persisted_peers_for_entries, peer_state_limits, entries_used.
  rewrite !(bool_decide_eq_true_2 (kPeerStateFixedEntries < _)) by exact Hb. cbn [max_counter_records max_replay_peers].
  assert (Hmax : nvs_budget total_entries ≤ 2 ^ 32).
  { unfold nvs_budget, in_range, kNvsEntriesPerPage, kPeerStateBudgetPercent in *. case_bool_decide; [|by vm_compute].
    unfold wrap. rewrite Z.mod_small by lia. apply Z.div_le_upper_bound; lia. }
  change kPeerStateEntriesPerPeer with 20. change (nvs_blob_entries 32) with 3. change (nvs_blob_entries 24) with 3.
  change (nvs_blob_entries 40) with 4. unfold kPeerStateFixedEntries in *.
  generalize dependent (nvs_budget total_entries). intros b Hb Hmax.
  pose proof (Z.div_mod (b - 3) 20 ltac:(lia)) as Hd. pose proof (Z.mod_pos_bound (b - 3) 20 ltac:(lia)) as Hm.
  set (q := (b - 3) / 20) in *. clearbody q.
  rewrite (wrap_id 32 q) by (unfold in_range; lia).
  rewrite !bool_decide_eq_false_2 by lia. rewrite !wrap_id by (unfold in_range; lia). lia.
Qed.

Lemma peer_limits_fit_budget_witness :
  let n := max_persisted_peers_for_entries 756 in
  (is_u32 756 ∧ kPeerStateFixedEntries < nvs_budget 756) ∧ n = 25 ∧
  entries_used (peer_state_limits n) ≤ nvs_budget 756 < entries_used (peer_state_limits (n + 1)).
Proof.
  assert (H1 : is_u32 756) by (by vm_compute). assert (H2 : kPeerStateFixedEntries < nvs_budget 756) by (by vm_compute).
  split; [by split|]. split; [by vm_compute|]. exact (peer_limits_fit_budget 756 H1 H2).
Defined.

End Budget.
