(* ===== verification/Routing.v ===== *)
(** * The route table (routing.hpp, routing.cpp)

    The Babel-derived distance-vector table: candidates, feasibility against
    the feasible distance, the committed selection with its switching
    discipline, retraction, expiry and tombstones.  The pool of entries is
    the slot interface of FixedContainers. *)

From S2P Require Import Prelude Types FixedContainers.

Definition kInfiniteRouteMetric : Z := UINT16_MAX.
Definition kRouteCandidatesPerDestination : nat := 3.
Definition kRouteTombstoneDwellMs : Z := 60000.
Definition kRouteHoldDownMs : Z := 500.
Definition kImprovementHoldMs : Z := 10000.
Definition kSwitchHoldMs : Z := 5000.
Definition kSevereBusyMs : Z := 2000.
Definition kImprovementAdGapMs : Z := 2000.
Definition kImprovementJitterMs : Z := 2000.
Definition kBusyLinkCapacity : nat := 32.
(** [profile::kRouteEntries] of the full profile. *)
Definition kMaxRouteEntries : nat := 128.
Definition kScopedLeaseMarginTicks : Z := 2.
Definition kRouteUpdateMaxRecords : Z := (Z.of_nat kMaxApplicationPayload - 1) / 16.

(** ** Sequence numbers and metrics *)

(** Returns (newer, ambiguous). *)
Definition route_sequence_newer (candidate reference : Z) : bool * bool :=
  let delta := u16 (candidate - reference) in
  (negb (bool_decide (delta = 0)) && bool_decide (delta < 0x8000), bool_decide (delta = 0x8000)).

Definition route_metric_add (advertised link_cost : Z) : Z :=
  if bool_decide (advertised = kInfiniteRouteMetric) || bool_decide (link_cost = kInfiniteRouteMetric)
  then kInfiniteRouteMetric
  else
    let sum := u32 (advertised + link_cost) in
    if bool_decide (kInfiniteRouteMetric ≤ sum) then kInfiniteRouteMetric else u16 sum.

(** The lease rules: 64-bit products of 32-bit periods. *)
Definition scoped_lifetime_sufficient (period_ms lifetime_ms refresh_ticks : Z) : bool :=
  negb (bool_decide (period_ms = 0)) && negb (bool_decide (refresh_ticks = 0)) &&
  bool_decide (u64 (u64 (2 * refresh_ticks + kScopedLeaseMarginTicks) * period_ms) ≤ lifetime_ms).

Definition flat_refresh_pages (destinations : Z) : Z :=
  if bool_decide (destinations = 0) then 1
  else u64 (destinations + (kRouteUpdateMaxRecords - 1) - 1) / (kRouteUpdateMaxRecords - 1).

Definition flat_lifetime_sufficient (period_ms lifetime_ms destinations : Z) : bool :=
  negb (bool_decide (period_ms = 0)) &&
  bool_decide (u64 (u64 (flat_refresh_pages destinations + 1) * period_ms) < lifetime_ms).

(** ** Records *)
Record RouteAdvertisement := mkAd {
  ad_destination : NodeId; ad_generation : Z; ad_sequence : Z; ad_metric : Z }.
#[global] Instance RouteAdvertisement_eq_dec : EqDecision RouteAdvertisement.
Proof. solve_decision. Defined.

Record RouteCandidate := mkCandidate {
  c_next_hop : NodeId; c_expires_at_ms : Z; c_sequence : Z; c_metric : Z;
  c_advertised : Z; c_feasible : bool; c_valid : bool }.
Definition no_candidate : RouteCandidate :=
  mkCandidate kInvalidNodeId 0 0 kInfiniteRouteMetric kInfiniteRouteMetric false false.

Record RouteSelection := mkSelection {
  s_destination : NodeId; s_next_hop : NodeId; s_generation : Z;
  s_sequence : Z; s_metric : Z; s_valid : bool }.
Definition no_selection : RouteSelection :=
  mkSelection kInvalidNodeId kInvalidNodeId 0 0 kInfiniteRouteMetric false.

Inductive RouteUpdateResult :=
  | Accepted | Updated | Withdrawn | Infeasible | StaleGeneration | HeldDown | Ignored | NoCapacityResult.

Record FeasibleDistance := mkFD { fd_sequence : Z; fd_metric : Z; fd_valid : bool }.
Definition no_fd : FeasibleDistance := mkFD 0 kInfiniteRouteMetric false.

Record LastSelection := mkLast { l_next_hop : NodeId; l_sequence : Z; l_metric : Z; l_valid : bool }.
Definition no_last : LastSelection := mkLast kInvalidNodeId 0 kInfiniteRouteMetric false.
Definition last_from (s : RouteSelection) : LastSelection :=
  mkLast (s_next_hop s) (s_sequence s) (s_metric s) (s_valid s).
Definition last_to (l : LastSelection) (destination generation : Z) : RouteSelection :=
  mkSelection destination (l_next_hop l) generation (l_sequence l) (l_metric l) (l_valid l).

(** The switching state of an entry, which [evaluate_entry] alone moves. *)
Record Switching := mkSwitching {
  committed_next_hop : NodeId; improvement_next_hop : NodeId;
  improvement_since_ms : Z; switch_hold_until_ms : Z }.
Definition no_switching : Switching := mkSwitching kInvalidNodeId kInvalidNodeId 0 0.

Record Entry := mkEntry {
  destination : NodeId;
  candidates : list RouteCandidate;
  last_selected : LastSelection;
  hold_next_hop : NodeId;
  hold_until_ms : Z;
  tombstone_expires_at_ms : Z;
  switching : Switching;
  improvement_ad_ms : Z;
  generation : Z;
  fd : FeasibleDistance;
  sequence_request_needed : bool;
  announced_up_flag : bool }.

Definition empty_entry : Entry :=
  mkEntry kInvalidNodeId (replicate kRouteCandidatesPerDestination no_candidate) no_last
    kInvalidNodeId 0 0 no_switching 0 0 no_fd false false.

Definition set_destination (d : NodeId) (e : Entry) : Entry :=
  mkEntry d (candidates e) (last_selected e) (hold_next_hop e) (hold_until_ms e)
    (tombstone_expires_at_ms e) (switching e) (improvement_ad_ms e) (generation e) (fd e)
    (sequence_request_needed e) (announced_up_flag e).
Definition set_candidates (cs : list RouteCandidate) (e : Entry) : Entry :=
  mkEntry (destination e) cs (last_selected e) (hold_next_hop e) (hold_until_ms e)
    (tombstone_expires_at_ms e) (switching e) (improvement_ad_ms e) (generation e) (fd e)
    (sequence_request_needed e) (announced_up_flag e).
Definition set_hold (hop : NodeId) (until : Z) (e : Entry) : Entry :=
  mkEntry (destination e) (candidates e) (last_selected e) hop until
    (tombstone_expires_at_ms e) (switching e) (improvement_ad_ms e) (generation e) (fd e)
    (sequence_request_needed e) (announced_up_flag e).
Definition set_tombstone (t : Z) (e : Entry) : Entry :=
  mkEntry (destination e) (candidates e) (last_selected e) (hold_next_hop e) (hold_until_ms e)
    t (switching e) (improvement_ad_ms e) (generation e) (fd e)
    (sequence_request_needed e) (announced_up_flag e).
Definition set_switching (s : Switching) (e : Entry) : Entry :=
  mkEntry (destination e) (candidates e) (last_selected e) (hold_next_hop e) (hold_until_ms e)
    (tombstone_expires_at_ms e) s (improvement_ad_ms e) (generation e) (fd e)
    (sequence_request_needed e) (announced_up_flag e).
Definition set_request (b : bool) (e : Entry) : Entry :=
  mkEntry (destination e) (candidates e) (last_selected e) (hold_next_hop e) (hold_until_ms e)
    (tombstone_expires_at_ms e) (switching e) (improvement_ad_ms e) (generation e) (fd e)
    b (announced_up_flag e).
Definition set_fd (f : FeasibleDistance) (e : Entry) : Entry :=
  mkEntry (destination e) (candidates e) (last_selected e) (hold_next_hop e) (hold_until_ms e)
    (tombstone_expires_at_ms e) (switching e) (improvement_ad_ms e) (generation e) f
    (sequence_request_needed e) (announced_up_flag e).
Definition set_last (l : LastSelection) (ad_ms : Z) (e : Entry) : Entry :=
  mkEntry (destination e) (candidates e) l (hold_next_hop e) (hold_until_ms e)
    (tombstone_expires_at_ms e) (switching e) ad_ms (generation e) (fd e)
    (sequence_request_needed e) (announced_up_flag e).
Definition set_announced (b : bool) (e : Entry) : Entry :=
  mkEntry (destination e) (candidates e) (last_selected e) (hold_next_hop e) (hold_until_ms e)
    (tombstone_expires_at_ms e) (switching e) (improvement_ad_ms e) (generation e) (fd e)
    (sequence_request_needed e) b.

(** The assignments [consider] makes on a newer origin generation. *)
Definition new_generation (g : Z) (e : Entry) : Entry :=
  mkEntry (destination e) ((λ _, no_candidate) <$> candidates e) no_last kInvalidNodeId 0 0
    (mkSwitching kInvalidNodeId kInvalidNodeId (improvement_since_ms (switching e)) 0)
    0 g no_fd false (announced_up_flag e).

(** The generation step of [consider]. *)
Definition renewed (g : Z) (e : Entry) : Entry :=
  if bool_decide (generation e < g) then new_generation g e else e.

Record BusyLink := mkBusy { b_next_hop : NodeId; b_since_ms : Z }.

Record RouteTable := mkTable {
  entries_ : Slots.slots Entry; busy_links_ : Slots.slots BusyLink;
  self_id_ : NodeId; tombstone_dwell_ms_ : Z }.

Definition empty_table : RouteTable :=
  mkTable (replicate kMaxRouteEntries None) (replicate kBusyLinkCapacity None)
    kInvalidNodeId kRouteTombstoneDwellMs.

Definition set_entries (s : Slots.slots Entry) (t : RouteTable) : RouteTable :=
  mkTable s (busy_links_ t) (self_id_ t) (tombstone_dwell_ms_ t).
Definition set_busy (s : Slots.slots BusyLink) (t : RouteTable) : RouteTable :=
  mkTable (entries_ t) s (self_id_ t) (tombstone_dwell_ms_ t).
Definition set_self (self : NodeId) (t : RouteTable) : RouteTable :=
  mkTable (entries_ t) (busy_links_ t) self (tombstone_dwell_ms_ t).
Definition set_tombstone_dwell (lifetime_ms : Z) (t : RouteTable) : RouteTable :=
  mkTable (entries_ t) (busy_links_ t) (self_id_ t)
    (if bool_decide (kRouteTombstoneDwellMs < lifetime_ms) then lifetime_ms else kRouteTombstoneDwellMs).

(** ** Feasibility and selection *)

Definition feasible (e : Entry) (sequence metric : Z) : bool :=
  if negb (fd_valid (fd e)) then negb (bool_decide (metric = kInfiniteRouteMetric))
  else
    let '(newer, ambiguous) := route_sequence_newer sequence (fd_sequence (fd e)) in
    if newer then true
    else if ambiguous then false
    else bool_decide (sequence = fd_sequence (fd e)) && bool_decide (metric < fd_metric (fd e)).

Definition has_candidates (e : Entry) : bool := existsb c_valid (candidates e).

Definition arm_tombstone (dwell now_ms : Z) (e : Entry) : Entry :=
  if negb (has_candidates e) && bool_decide (tombstone_expires_at_ms e = 0)
  then set_tombstone (u64 (now_ms + dwell)) e else e.

(** First index whose candidate passes the test. *)
Fixpoint index_of (test : RouteCandidate → bool) (cs : list RouteCandidate) : option nat :=
  match cs with
  | [] => None
  | c :: cs' => if test c then Some 0%nat else S <$> index_of test cs'
  end.

(** The eviction scan over feasible candidates, worst so far first. *)
Definition worse (committed : NodeId) (worst candidate : RouteCandidate) : bool :=
  let candidate_committed := bool_decide (c_next_hop candidate = committed) in
  let worst_committed := bool_decide (c_next_hop worst = committed) in
  if candidate_committed && negb worst_committed then false
  else if negb candidate_committed && worst_committed then true
  else
    let '(newer, _) := route_sequence_newer (c_sequence candidate) (c_sequence worst) in
    negb newer && (negb (bool_decide (c_sequence candidate = c_sequence worst)) ||
                   bool_decide (c_metric worst < c_metric candidate)).

Fixpoint worst_from (committed : NodeId) (i : nat) (cs : list RouteCandidate)
    (best : nat) (worst : RouteCandidate) : nat :=
  match cs with
  | [] => best
  | c :: cs' => if worse committed worst c then worst_from committed (S i) cs' i c
                else worst_from committed (S i) cs' best worst
  end.

Definition candidate_slot (e : Entry) (next_hop : NodeId) : nat :=
  match index_of (λ c, c_valid c && bool_decide (c_next_hop c = next_hop)) (candidates e) with
  | Some i => i
  | None =>
      match index_of (λ c, negb (c_valid c)) (candidates e) with
      | Some i => i
      | None =>
          match index_of (λ c, negb (c_feasible c) ||
                               negb (feasible e (c_sequence c) (c_advertised c))) (candidates e) with
          | Some i => i
          | None => worst_from (committed_next_hop (switching e)) 0 (candidates e) 0
                      (default no_candidate (head (candidates e)))
          end
      end
  end.

(** The tests [selectable] and [best_candidate] share. *)
Definition usable (e : Entry) (c : RouteCandidate) : bool :=
  c_valid c && c_feasible c && negb (bool_decide (c_metric c = kInfiniteRouteMetric)) &&
  feasible e (c_sequence c) (c_advertised c).

Definition selectable (e : Entry) (hop : NodeId) : option RouteCandidate :=
  if bool_decide (hop = kInvalidNodeId) then None
  else list_find (λ c, (bool_decide (c_next_hop c = hop) && usable e c) = true) (candidates e) ≫= λ p, Some p.2.

Definition prefer (selected candidate : RouteCandidate) : bool :=
  let '(newer, ambiguous) := route_sequence_newer (c_sequence candidate) (c_sequence selected) in
  newer || (negb ambiguous && bool_decide (c_sequence candidate = c_sequence selected) &&
            bool_decide (c_metric candidate < c_metric selected)).

Definition best_step (e : Entry) (exclude : NodeId) (selected : option RouteCandidate)
    (c : RouteCandidate) : option RouteCandidate :=
  if bool_decide (c_next_hop c = exclude) || negb (usable e c) then selected
  else match selected with
       | None => Some c
       | Some s => if prefer s c then Some c else Some s
       end.

Definition best_candidate (e : Entry) (exclude : NodeId) : option RouteCandidate :=
  fold_left (best_step e exclude) (candidates e) None.

Definition chosen (e : Entry) : option RouteCandidate :=
  match selectable e (committed_next_hop (switching e)) with
  | Some c => Some c
  | None => best_candidate e kInvalidNodeId
  end.

Definition select (e : Entry) : RouteSelection :=
  match chosen e with
  | None => no_selection
  | Some c => mkSelection (destination e) (c_next_hop c) (generation e) (c_sequence c) (c_metric c) true
  end.

(** ** The switching discipline *)

Definition busy_link (busy : Slots.slots BusyLink) (next_hop : NodeId) : option BusyLink :=
  Slots.find (λ b, bool_decide (b_next_hop b = next_hop)) busy ≫= λ i, Slots.at_ i busy.

Definition improvement_jitter (self dest : NodeId) : Z :=
  u32 (u64 (u64 (self * 31) + u64 (dest * 17)) mod (kImprovementJitterMs + 1)).

Definition commit_switch (now_ms : Z) (hop : NodeId) (s : Switching) : Switching :=
  mkSwitching hop kInvalidNodeId (improvement_since_ms s) (u64 (now_ms + kSwitchHoldMs)).
Definition drop_improvement (s : Switching) : Switching :=
  mkSwitching (committed_next_hop s) kInvalidNodeId (improvement_since_ms s) (switch_hold_until_ms s).

(** [now_ms - since >= span], on unsigned 64-bit clocks. *)
Definition elapsed (now_ms since span : Z) : bool := bool_decide (span ≤ u64 (now_ms - since)).

Definition evaluate_switching (busy : Slots.slots BusyLink) (self : NodeId) (e : Entry) (now_ms : Z) : Switching :=
  let s := switching e in
  match selectable e (committed_next_hop s) with
  | None =>
      let was_committed := negb (bool_decide (committed_next_hop s = kInvalidNodeId)) in
      match best_candidate e kInvalidNodeId with
      | Some raw =>
          mkSwitching (c_next_hop raw) kInvalidNodeId (improvement_since_ms s)
            (if was_committed then u64 (now_ms + kSwitchHoldMs) else switch_hold_until_ms s)
      | None => mkSwitching kInvalidNodeId kInvalidNodeId (improvement_since_ms s) (switch_hold_until_ms s)
      end
  | Some committed =>
      let held := bool_decide (switch_hold_until_ms s ≤ now_ms) in
      if match busy_link busy (c_next_hop committed) with
         | Some b => elapsed now_ms (b_since_ms b) kSevereBusyMs
         | None => false
         end
      then
        match best_candidate e (c_next_hop committed) with
        | Some alt =>
            if held then
              if match busy_link busy (c_next_hop alt) with
                 | Some b => negb (elapsed now_ms (b_since_ms b) kSevereBusyMs)
                 | None => true
                 end
              then commit_switch now_ms (c_next_hop alt) s
              else s
            else s
        | None => s
        end
      else
        match best_candidate e kInvalidNodeId with
        | None => drop_improvement s
        | Some raw =>
            if bool_decide (c_next_hop raw = c_next_hop committed) then drop_improvement s
            else
              let '(newer, ambiguous) := route_sequence_newer (c_sequence raw) (c_sequence committed) in
              if newer || ambiguous then commit_switch now_ms (c_next_hop raw) s
              else if bool_decide (c_advertised raw < c_advertised committed) then
                (if held then commit_switch now_ms (c_next_hop raw) s else s)
              else if bool_decide (c_metric raw * 5 ≤ c_metric committed * 4) &&
                      bool_decide (1 ≤ c_metric committed - c_metric raw) then
                if negb (bool_decide (improvement_next_hop s = c_next_hop raw)) then
                  mkSwitching (committed_next_hop s) (c_next_hop raw) now_ms (switch_hold_until_ms s)
                else if elapsed now_ms (improvement_since_ms s)
                          (kImprovementHoldMs + improvement_jitter self (destination e)) && held then
                  commit_switch now_ms (c_next_hop raw) s
                else s
              else drop_improvement s
        end
  end.

Definition evaluate_entry (busy : Slots.slots BusyLink) (self : NodeId) (now_ms : Z) (e : Entry) : Entry :=
  set_switching (evaluate_switching busy self e now_ms) e.

(** ** Entry updates *)

(** A retraction: the candidate stays, infeasible, until its lease expires. *)
Definition retract (next_hop : NodeId) (c : RouteCandidate) : RouteCandidate :=
  if c_valid c && bool_decide (c_next_hop c = next_hop) then
    mkCandidate (c_next_hop c) (c_expires_at_ms c) (c_sequence c) kInfiniteRouteMetric
      kInfiniteRouteMetric false (c_valid c)
  else c.

Definition via (next_hop : NodeId) (c : RouteCandidate) : bool :=
  c_valid c && bool_decide (c_next_hop c = next_hop).

Section Ops.
Context (busy : Slots.slots BusyLink) (self : NodeId) (dwell : Z).

Definition request_if_lost (e : Entry) : Entry :=
  if s_valid (select e) then e else set_request true e.

Definition withdraw_entry (next_hop : NodeId) (now_ms : Z) (e : Entry) : bool * Entry :=
  if existsb (via next_hop) (candidates e) then
    let e1 := set_candidates (retract next_hop <$> candidates e) e in
    let e2 := set_hold next_hop (u64 (now_ms + kRouteHoldDownMs)) e1 in
    (true, evaluate_entry busy self now_ms (arm_tombstone dwell now_ms (request_if_lost e2)))
  else (false, e).

(** Candidates replaced by the empty one where the test holds. *)
Definition drop_where (test : RouteCandidate → bool) (cs : list RouteCandidate) : list RouteCandidate :=
  (λ c, if test c then no_candidate else c) <$> cs.

Definition invalidate_entry (next_hop : NodeId) (now_ms : Z) (hold : bool) (e : Entry) : Entry :=
  let removed := existsb (via next_hop) (candidates e) in
  let e1 := set_candidates (drop_where (via next_hop) (candidates e)) e in
  let e2 := if negb hold && bool_decide (hold_next_hop e1 = next_hop)
            then set_hold kInvalidNodeId 0 e1 else e1 in
  if removed then
    let e3 := if hold then set_hold next_hop (u64 (now_ms + kRouteHoldDownMs)) e2 else e2 in
    evaluate_entry busy self now_ms (arm_tombstone dwell now_ms (request_if_lost e3))
  else e2.

Definition lapsed (now_ms : Z) (c : RouteCandidate) : bool :=
  c_valid c && bool_decide (c_expires_at_ms c ≤ now_ms).

Definition expire_entry (now_ms : Z) (e : Entry) : Entry :=
  let removed := existsb (lapsed now_ms) (candidates e) in
  let e1 := set_candidates (drop_where (lapsed now_ms) (candidates e)) e in
  let e2 := arm_tombstone dwell now_ms (if removed then request_if_lost e1 else e1) in
  if removed then evaluate_entry busy self now_ms e2 else e2.

Definition recost (e : Entry) (next_hop : NodeId) (cost : Z) (c : RouteCandidate) : RouteCandidate :=
  if via next_hop c then
    let metric := route_metric_add (c_advertised c) cost in
    mkCandidate (c_next_hop c) (c_expires_at_ms c) (c_sequence c) metric (c_advertised c)
      (negb (bool_decide (metric = kInfiniteRouteMetric)) && feasible e (c_sequence c) (c_advertised c))
      (c_valid c)
  else c.

Definition update_cost_entry (next_hop : NodeId) (cost now_ms : Z) (e : Entry) : Entry :=
  if existsb (via next_hop) (candidates e) then
    evaluate_entry busy self now_ms (set_candidates (recost e next_hop cost <$> candidates e) e)
  else e.

Definition mark_entry (e : Entry) : bool * Entry :=
  let selected := select e in
  if negb (s_valid selected) then (false, e)
  else if negb (fd_valid (fd e)) then
    (true, set_last (last_from selected) (improvement_ad_ms e)
             (set_fd (mkFD (s_sequence selected) (s_metric selected) true) e))
  else
    let '(newer, ambiguous) := route_sequence_newer (s_sequence selected) (fd_sequence (fd e)) in
    let e1 := if newer || (negb ambiguous && bool_decide (s_sequence selected = fd_sequence (fd e)) &&
                           bool_decide (s_metric selected < fd_metric (fd e)))
              then set_fd (mkFD (s_sequence selected) (s_metric selected) (fd_valid (fd e))) e else e in
    (true, set_last (last_from selected) (improvement_ad_ms e1) e1).

(** The candidate an accepted advertisement writes. *)
Definition learned (ad : RouteAdvertisement) (next_hop : NodeId) (link_metric now_ms lifetime_ms : Z)
    (e : Entry) : RouteCandidate :=
  let total := route_metric_add (ad_metric ad) link_metric in
  mkCandidate next_hop (u64 (now_ms + lifetime_ms)) (ad_sequence ad) total (ad_metric ad)
    (negb (bool_decide (total = kInfiniteRouteMetric)) && feasible e (ad_sequence ad) (ad_metric ad)) true.

Definition consider_entry (ad : RouteAdvertisement) (next_hop : NodeId) (link_metric now_ms lifetime_ms : Z)
    (e : Entry) : RouteUpdateResult * Entry :=
  if bool_decide (ad_generation ad < generation e) then (StaleGeneration, e)
  else
    let e1 := renewed (ad_generation ad) e in
    if bool_decide (ad_metric ad = kInfiniteRouteMetric) then
      let '(withdrawn, e2) := withdraw_entry next_hop now_ms e1 in
      (if withdrawn then Withdrawn else Ignored, e2)
    else if bool_decide (next_hop = hold_next_hop e1) && bool_decide (now_ms < hold_until_ms e1) then (HeldDown, e1)
    else
      let c := learned ad next_hop link_metric now_ms lifetime_ms e1 in
      let i := candidate_slot e1 next_hop in
      let existed := match candidates e1 !! i with Some old => via next_hop old | None => false end in
      let e2 := set_tombstone 0 (set_candidates (<[i := c]> (candidates e1)) e1) in
      if c_feasible c then
        (if existed then Updated else Accepted, evaluate_entry busy self now_ms (set_request false e2))
      else
        (Infeasible, evaluate_entry busy self now_ms (set_request (negb (s_valid (select e2))) e2)).

End Ops.

(** ** The table operations *)

Definition is_dest (d : NodeId) (e : Entry) : bool := bool_decide (destination e = d).
Definition find_index (d : NodeId) (t : RouteTable) : option nat := Slots.find (is_dest d) (entries_ t).
Definition find (d : NodeId) (t : RouteTable) : option Entry :=
  find_index d t ≫= λ i, Slots.at_ i (entries_ t).

Definition find_or_allocate (d : NodeId) (t : RouteTable) : option nat * RouteTable :=
  if bool_decide (d = kInvalidNodeId) then (None, t)
  else match find_index d t with
       | Some i => (Some i, t)
       | None =>
           match Slots.allocate empty_entry (entries_ t) with
           | (Some i, s) => (Some i, set_entries (Slots.set i (set_destination d empty_entry) s) t)
           | (None, s) => (None, set_entries s t)
           end
       end.

(** Assigning through a pointer to the entry at [i]. *)
Definition put_entry (i : nat) (e : Entry) (t : RouteTable) : RouteTable :=
  set_entries (Slots.set i e (entries_ t)) t.

Definition consider (ad : RouteAdvertisement) (next_hop : NodeId) (link_metric now_ms lifetime_ms : Z)
    (t : RouteTable) : RouteUpdateResult * RouteTable :=
  if bool_decide (ad_destination ad = kInvalidNodeId) || bool_decide (next_hop = kInvalidNodeId) ||
     bool_decide (link_metric = 0) || bool_decide (lifetime_ms = 0) then (Ignored, t)
  else
    let infinite := bool_decide (ad_metric ad = kInfiniteRouteMetric) in
    let '(slot, t1) := if infinite then (find_index (ad_destination ad) t, t)
                       else find_or_allocate (ad_destination ad) t in
    match slot with
    | None => (if infinite then Ignored else NoCapacityResult, t1)
    | Some i =>
        match Slots.at_ i (entries_ t1) with
        | None => (Ignored, t1)
        | Some e =>
            let '(r, e') := consider_entry (busy_links_ t1) (self_id_ t1) (tombstone_dwell_ms_ t1)
                              ad next_hop link_metric now_ms lifetime_ms e in
            (r, put_entry i e' t1)
        end
    end.

Definition withdraw (d next_hop : NodeId) (now_ms : Z) (t : RouteTable) : bool * RouteTable :=
  match find_index d t with
  | None => (false, t)
  | Some i =>
      match Slots.at_ i (entries_ t) with
      | None => (false, t)
      | Some e =>
          let '(r, e') := withdraw_entry (busy_links_ t) (self_id_ t) (tombstone_dwell_ms_ t) next_hop now_ms e in
          (r, put_entry i e' t)
      end
  end.

(** [entries_.for_each] with a body that updates the entry. *)
Definition each (f : Entry → Entry) (t : RouteTable) : RouteTable :=
  set_entries (Slots.for_each f (entries_ t)) t.

Definition invalidate_next_hop (next_hop : NodeId) (now_ms : Z) (hold : bool) (t : RouteTable) : RouteTable :=
  each (invalidate_entry (busy_links_ t) (self_id_ t) (tombstone_dwell_ms_ t) next_hop now_ms hold) t.

Definition buried (now_ms : Z) (e : Entry) : bool :=
  negb (bool_decide (tombstone_expires_at_ms e = 0)) && bool_decide (tombstone_expires_at_ms e ≤ now_ms).

Definition expire (now_ms : Z) (t : RouteTable) : RouteTable :=
  let t1 := set_entries (snd (Slots.erase_if (buried now_ms) (entries_ t))) t in
  each (expire_entry (busy_links_ t) (self_id_ t) (tombstone_dwell_ms_ t) now_ms) t1.

(** The [deadline] output of [expire], over the entries it leaves. *)
Definition expire_deadline (deadline : Z) (t : RouteTable) : Z :=
  fold_left (λ d e,
    fold_left (λ d c, if c_valid c then Z.min d (c_expires_at_ms c) else d) (candidates e)
      (if bool_decide (tombstone_expires_at_ms e = 0) then d else Z.min d (tombstone_expires_at_ms e)))
    (Slots.live (entries_ t)) deadline.

Fixpoint oldest_tombstone (i : nat) (s : Slots.slots Entry) (best : option (nat * Z)) : option nat :=
  match s with
  | [] => fst <$> best
  | None :: s' => oldest_tombstone (S i) s' best
  | Some e :: s' =>
      oldest_tombstone (S i) s'
        (if bool_decide (tombstone_expires_at_ms e = 0) then best
         else match best with
              | None => Some (i, tombstone_expires_at_ms e)
              | Some (_, m) => if bool_decide (tombstone_expires_at_ms e < m)
                               then Some (i, tombstone_expires_at_ms e) else best
              end)
  end.

Definition reclaim_tombstone (t : RouteTable) : bool * RouteTable :=
  match oldest_tombstone 0 (entries_ t) None with
  | None => (false, t)
  | Some i => let '(r, s) := Slots.release i (entries_ t) in (r, set_entries s t)
  end.

Definition update_link_cost (next_hop : NodeId) (cost now_ms : Z) (t : RouteTable) : bool * RouteTable :=
  if bool_decide (next_hop = kInvalidNodeId) || bool_decide (cost = 0) then (false, t)
  else (existsb (λ e, existsb (via next_hop) (candidates e)) (Slots.live (entries_ t)),
        each (update_cost_entry (busy_links_ t) (self_id_ t) next_hop cost now_ms) t).

Definition note_next_hop_busy (next_hop : NodeId) (since_ms : Z) (t : RouteTable) : RouteTable :=
  if bool_decide (next_hop = kInvalidNodeId) then t
  else match Slots.find (λ b, bool_decide (b_next_hop b = next_hop)) (busy_links_ t) with
       | Some i => set_busy (Slots.set i (mkBusy next_hop since_ms) (busy_links_ t)) t
       | None =>
           match Slots.allocate (mkBusy kInvalidNodeId 0) (busy_links_ t) with
           | (Some i, s) => set_busy (Slots.set i (mkBusy next_hop since_ms) s) t
           | (None, s) => set_busy s t
           end
       end.

Definition clear_next_hop_busy (next_hop : NodeId) (t : RouteTable) : RouteTable :=
  match Slots.find (λ b, bool_decide (b_next_hop b = next_hop)) (busy_links_ t) with
  | Some i => set_busy (snd (Slots.release i (busy_links_ t))) t
  | None => t
  end.

Definition evaluate (now_ms : Z) (t : RouteTable) : RouteTable :=
  each (evaluate_entry (busy_links_ t) (self_id_ t) now_ms) t.

(** The [deadline] output of [evaluate], over the entries it leaves: the next
    moment after [now_ms] at which an evaluation could decide differently. *)
Definition sooner (now_ms deadline at_ : Z) : Z := if bool_decide (now_ms < at_) then Z.min deadline at_ else deadline.
Definition entry_deadline (busy : Slots.slots BusyLink) (self : NodeId) (now_ms deadline : Z) (e : Entry) : Z :=
  let s := switching e in
  let d1 := sooner now_ms deadline (hold_until_ms e) in
  let d2 := sooner now_ms d1 (switch_hold_until_ms s) in
  let d3 := if negb (bool_decide (improvement_next_hop s = kInvalidNodeId))
            then sooner now_ms d2 (u64 (improvement_since_ms s + kImprovementHoldMs +
                                        improvement_jitter self (destination e)))
            else d2 in
  match busy_link busy (committed_next_hop s) with
  | Some b => sooner now_ms d3 (u64 (b_since_ms b + kSevereBusyMs))
  | None => d3
  end.
Definition evaluate_deadline (now_ms deadline : Z) (t : RouteTable) : Z :=
  fold_left (entry_deadline (busy_links_ t) (self_id_ t) now_ms) (Slots.live (entries_ (evaluate now_ms t))) deadline.

Definition best (d : NodeId) (t : RouteTable) : RouteSelection :=
  match find d t with Some e => select e | None => no_selection end.

(** The lease of the candidate the selection names. *)
Definition selected_lease (e : Entry) : option Z :=
  let s := select e in
  if negb (s_valid s) then None
  else list_find (λ c, (via (s_next_hop s) c && bool_decide (c_sequence c = s_sequence s)) = true)
         (candidates e) ≫= λ p, Some (c_expires_at_ms p.2).

Definition selection_expires_at (d : NodeId) (t : RouteTable) : Z :=
  default 0 (find d t ≫= selected_lease).

Definition selection_remaining (d : NodeId) (now_ms : Z) (t : RouteTable) : option Z :=
  expires ← find d t ≫= selected_lease;
  Some (if bool_decide (now_ms < expires) then expires - now_ms else 0).

Definition mark_advertised (d : NodeId) (t : RouteTable) : bool * RouteTable :=
  match find_index d t with
  | None => (false, t)
  | Some i =>
      match Slots.at_ i (entries_ t) with
      | None => (false, t)
      | Some e => let '(r, e') := mark_entry e in (r, put_entry i e' t)
      end
  end.

Definition set_announced_up (d : NodeId) (announced : bool) (t : RouteTable) : RouteTable :=
  match find_index d t with
  | None => t
  | Some i => match Slots.at_ i (entries_ t) with
              | None => t
              | Some e => put_entry i (set_announced announced e) t
              end
  end.
Definition announced_up (d : NodeId) (t : RouteTable) : bool :=
  match find d t with Some e => announced_up_flag e | None => false end.

Definition needs_sequence_request (d : NodeId) (t : RouteTable) : bool :=
  match find d t with Some e => sequence_request_needed e | None => false end.

Definition wanted_sequence (e : Entry) : Z :=
  if fd_valid (fd e) then u16 (fd_sequence (fd e) + 1) else 1.
Definition requested_sequence (d : NodeId) (t : RouteTable) : Z :=
  match find d t with
  | Some e => if sequence_request_needed e then wanted_sequence e else 0
  | None => 0
  end.

Definition request_next_hop (d : NodeId) (attempt : nat) (exclude_a exclude_b : NodeId) (t : RouteTable) : NodeId :=
  match find d t with
  | None => kInvalidNodeId
  | Some e =>
      let s := select e in
      if s_valid s && negb (bool_decide (s_next_hop s = exclude_a)) && negb (bool_decide (s_next_hop s = exclude_b))
      then s_next_hop s
      else
        let hops := c_next_hop <$> List.filter (λ c, c_valid c &&
                      negb (bool_decide (c_next_hop c = exclude_a)) &&
                      negb (bool_decide (c_next_hop c = exclude_b))) (candidates e) in
        default kInvalidNodeId (hops !! (attempt mod length hops)%nat)
  end.

(** [for_each_sequence_request], [for_each_destination], [knows]. *)
Definition for_each_sequence_request (t : RouteTable) : list (NodeId * Z) :=
  (λ e, (destination e, wanted_sequence e)) <$> List.filter sequence_request_needed (Slots.live (entries_ t)).
Definition for_each_destination (t : RouteTable) : list NodeId := destination <$> Slots.live (entries_ t).
Definition knows (d : NodeId) (t : RouteTable) : bool :=
  match find d t with Some _ => true | None => false end.

Definition repair_hint (d : NodeId) (t : RouteTable) : NodeId :=
  match find d t with Some e => hold_next_hop e | None => kInvalidNodeId end.

Definition size (t : RouteTable) : nat := Slots.size (entries_ t).

(** [lost_route] and [for_each_lost]: (destination, generation, sequence). *)
Definition lost (e : Entry) : option (Z * Z * Z) :=
  if s_valid (select e) then None
  else if negb (has_candidates e) && bool_decide (tombstone_expires_at_ms e = 0) then None
  else Some (destination e, generation e, if fd_valid (fd e) then fd_sequence (fd e) else 0).
Definition lost_route (d : NodeId) (t : RouteTable) : option (Z * Z * Z) := find d t ≫= lost.
Definition for_each_lost (t : RouteTable) : list (Z * Z * Z) := omap lost (Slots.live (entries_ t)).
Definition for_each_selected (t : RouteTable) : list RouteSelection :=
  List.filter s_valid (select <$> Slots.live (entries_ t)).

(** [for_each_selected_change]: the entry after the visit, with the (new,
    previous) pair the callback is given. *)
Definition selected_change (now_ms : Z) (e : Entry) : Entry * option (RouteSelection * RouteSelection) :=
  let s := select e in
  let l := last_selected e in
  let changed := negb (eqb (s_valid s) (l_valid l)) ||
    (s_valid s && (negb (bool_decide (s_next_hop s = l_next_hop l)) ||
                   negb (bool_decide (s_sequence s = l_sequence l)) ||
                   negb (bool_decide (s_metric s = l_metric l)))) in
  if negb changed then (e, None)
  else
    let pure_improvement := s_valid s && l_valid l && bool_decide (s_next_hop s = l_next_hop l) &&
      bool_decide (s_sequence s = l_sequence l) && bool_decide (s_metric s < l_metric l) in
    if pure_improvement && negb (bool_decide (improvement_ad_ms e = 0)) &&
       bool_decide (u64 (now_ms - improvement_ad_ms e) < kImprovementAdGapMs) then (e, None)
    else (set_last (last_from s) (if pure_improvement then now_ms else improvement_ad_ms e) e,
          Some (s, last_to l (destination e) (generation e))).

Definition for_each_selected_change (now_ms : Z) (t : RouteTable)
  : RouteTable * list (RouteSelection * RouteSelection) :=
  (each (fst ∘ selected_change now_ms) t, omap (snd ∘ selected_change now_ms) (Slots.live (entries_ t))).

(** ** Selected candidates *)

Lemma selectable_Some e hop c :
  selectable e hop = Some c → c ∈ candidates e ∧ c_next_hop c = hop ∧ usable e c = true.
Proof.
  unfold selectable. case_bool_decide; [done|]. destruct (list_find _ _) as [[i x]|] eqn:Hf; [|done].
  simpl. intros [= ->]. apply list_find_Some in Hf as (Hi & Hp & _).
  apply andb_true_iff in Hp as [Hh Hu]. apply bool_decide_eq_true in Hh.
  split; [by eapply list_elem_of_lookup_2|done].
Qed.

Lemma best_candidate_elem e ex c : best_candidate e ex = Some c → c ∈ candidates e ∧ usable e c = true.
Proof.
  unfold best_candidate. assert (Hbest : ∀ cs acc c0, fold_left (best_step e ex) cs acc = Some c0 →
    acc = Some c0 ∨ (c0 ∈ cs ∧ usable e c0 = true)).
  { induction cs as [|x cs IH]; intros acc c0; simpl; [by left|].
    intros [Hs|[Hin Hu]]%IH; [|right; split; [by right|done]]. unfold best_step in Hs.
    destruct (bool_decide (c_next_hop x = ex)); [by left|]. destruct (usable e x) eqn:Hu; [|by left].
    simpl in Hs. destruct acc as [s|]; [destruct (prefer s x)|]; simplify_eq; [right|by left|right];
      (split; [by left|done]). }
  intros [?|?]%Hbest; done.
Qed.

Lemma chosen_usable e c : chosen e = Some c → c ∈ candidates e ∧ usable e c = true.
Proof.
  unfold chosen. destruct (selectable e _) as [x|] eqn:Hs; [|apply best_candidate_elem].
  intros [= ->]. by apply selectable_Some in Hs as (? & _ & ?).
Qed.

Lemma usable_parts e c :
  usable e c = true → c_valid c = true ∧ c_metric c ≠ kInfiniteRouteMetric ∧
    feasible e (c_sequence c) (c_advertised c) = true.
Proof. unfold usable. rewrite !andb_true_iff, negb_true_iff, bool_decide_eq_false. tauto. Qed.

Lemma select_chosen e :
  s_valid (select e) = true → ∃ c, chosen e = Some c ∧
    select e = mkSelection (destination e) (c_next_hop c) (generation e) (c_sequence c) (c_metric c) true.
Proof. unfold select. destruct (chosen e) as [c|]; [eauto|done]. Qed.

(** ** Lookups through the pool operations *)

Lemma slots_find_set {T} (p : T → bool) (s : Slots.slots T) i x y :
  s !! i = Some (Some x) → p y = p x → Slots.find p (Slots.set i y s) = Slots.find p s.
Proof.
  unfold Slots.set. revert i. induction s as [|[z|] s IH]; intros [|i] Hi Hp; simpl in *; simplify_eq; try done.
  - by rewrite Hp.
  - destruct (p z); [done|]. f_equal. by apply IH.
  - f_equal. by apply IH.
Qed.

Lemma slots_find_for_each {T} (p : T → bool) f (s : Slots.slots T) :
  (∀ x, p (f x) = p x) → Slots.find p (Slots.for_each f s) = Slots.find p s.
Proof.
  intros Hp. unfold Slots.for_each. induction s as [|[x|] s IH]; csimpl; [done| |]; rewrite ?Hp, IH; done.
Qed.

Lemma slots_at_for_each {T} f (s : Slots.slots T) i :
  Slots.at_ i (Slots.for_each f s) = f <$> Slots.at_ i s.
Proof.
  unfold Slots.at_, Slots.for_each. rewrite list_lookup_fmap. by destruct (s !! i) as [[x|]|].
Qed.

Lemma slots_find_at {T} (p : T → bool) (s : Slots.slots T) i :
  Slots.find p s = Some i → ∃ x, s !! i = Some (Some x) ∧ Slots.at_ i s = Some x ∧ p x = true.
Proof.
  intros (x & Hx & Hp & _)%Slots.find_Some. exists x. unfold Slots.at_. by rewrite Hx.
Qed.

(** A value written into a free slot is found unless an earlier slot matches. *)
Lemma slots_find_alloc {T} (p : T → bool) (s : Slots.slots T) i y :
  s !! i = Some None → Slots.find p s = None →
  Slots.find p (Slots.set i y s) = if p y then Some i else None.
Proof.
  unfold Slots.set. revert i. induction s as [|[z|] s IH]; intros [|i] Hi Hn; simpl in *; simplify_eq; try done.
  - destruct (p z); [done|]. apply fmap_None in Hn. rewrite (IH i Hi Hn). by destruct (p y).
  - apply fmap_None in Hn. destruct (p y); [done|]. by rewrite Hn.
  - apply fmap_None in Hn. rewrite (IH i Hi Hn). by destruct (p y).
Qed.

Lemma slots_find_alloc_other {T} (p : T → bool) (s : Slots.slots T) i y :
  s !! i = Some None → p y = false → Slots.find p (Slots.set i y s) = Slots.find p s.
Proof.
  unfold Slots.set. revert i. induction s as [|[z|] s IH]; intros [|i] Hi Hp; simpl in *; simplify_eq; try done.
  - destruct (p z); [done|]. f_equal. by apply IH.
  - by rewrite Hp.
  - f_equal. by apply IH.
Qed.

Lemma slots_find_release {T} (p : T → bool) (s : Slots.slots T) i :
  Slots.find p s ≠ Some i →
  Slots.find p (snd (Slots.release i s)) ≫= (λ k, Slots.at_ k (snd (Slots.release i s))) =
  Slots.find p s ≫= (λ k, Slots.at_ k s).
Proof.
  intros Hne. unfold Slots.release. destruct (s !! i) as [[x|]|] eqn:Hi; [|done|done]. simpl.
  assert (Hf : Slots.find p (<[i:=None]> s) = Slots.find p s ∨ ∃ k, Slots.find p s = Some k ∧ k = i).
  { clear Hne. revert i x Hi. induction s as [|[z|] s IH]; intros [|i] x Hi; simpl in *; simplify_eq.
    - destruct (p x) eqn:Hp; [right; by eexists|]. left. done.
    - destruct (p z); [by left|]. destruct (IH i x Hi) as [->|(k & -> & ->)]; [by left|right; by eexists].
    - destruct (IH i x Hi) as [->|(k & -> & ->)]; [by left|right; by eexists]. }
  destruct Hf as [->|(k & Hk & ->)]; [|done].
  destruct (Slots.find p s) as [k|]; simpl; [|done]. unfold Slots.at_.
  rewrite list_lookup_insert_ne by congruence. done.
Qed.

Lemma slots_erase_lookup {T} (q : T → bool) (s : Slots.slots T) j y :
  snd (Slots.erase_if q s) !! j = Some (Some y) ↔ s !! j = Some (Some y) ∧ q y = false.
Proof.
  unfold Slots.erase_if. simpl. rewrite list_lookup_fmap. destruct (s !! j) as [[x|]|]; simpl.
  - destruct (q x) eqn:Hq; split; [done|intros [? ?]; congruence|intros ?; simplify_eq; done|by intros [? _]].
  - split; [done|by intros [? _]].
  - split; [done|by intros [? _]].
Qed.

(** Erasing keeps the first match if that match is not erased. *)
Lemma slots_find_erase {T} (p q : T → bool) (s : Slots.slots T) :
  (∀ x, Slots.find p s ≫= (λ i, Slots.at_ i s) = Some x → q x = false) →
  Slots.find p (snd (Slots.erase_if q s)) ≫= (λ i, Slots.at_ i (snd (Slots.erase_if q s))) =
  Slots.find p s ≫= (λ i, Slots.at_ i s).
Proof.
  intros Hq. destruct (Slots.find p s) as [i|] eqn:Hf; cbn [mbind option_bind] in *.
  - apply Slots.find_Some in Hf as (x & Hx & Hp & Hmin).
    assert (Hat : Slots.at_ i s = Some x) by (unfold Slots.at_; by rewrite Hx).
    specialize (Hq x Hat). destruct (Slots.find p (snd (Slots.erase_if q s))) as [j|] eqn:Hj; cbn [mbind option_bind].
    + apply Slots.find_Some in Hj as (y & Hy & Hpy & Hminy). apply slots_erase_lookup in Hy as [Hy Hqy].
      assert (j = i) as ->.
      { destruct (Nat.lt_trichotomy i j) as [Hlt|[->|Hlt]]; [|done|].
        - rewrite (Hminy i x Hlt) in Hp; [done|]. by apply slots_erase_lookup.
        - by rewrite (Hmin j y Hlt Hy) in Hpy. }
      rewrite Hat. unfold Slots.at_. rewrite (proj2 (slots_erase_lookup q s i x)); [done|by split].
    + rewrite Slots.find_None in Hj. rewrite (Hj i x) in Hp; [done|]. by apply slots_erase_lookup.
  - assert (Slots.find p (snd (Slots.erase_if q s)) = None) as ->; [|done].
    apply Slots.find_None. intros j y [Hj _]%slots_erase_lookup. rewrite Slots.find_None in Hf. by eapply Hf.
Qed.

(** ** What each operation does to the entry of a destination *)

Lemma find_each f d t :
  (∀ e, destination (f e) = destination e) → find d (each f t) = f <$> find d t.
Proof.
  intros Hf. unfold find, find_index, each. simpl.
  rewrite slots_find_for_each by (intros; unfold is_dest; by rewrite Hf).
  destruct (Slots.find (is_dest d) (entries_ t)) as [i|]; simpl; [apply slots_at_for_each|done].
Qed.

Lemma find_put i e e' d t :
  Slots.at_ i (entries_ t) = Some e → destination e' = destination e →
  find d (put_entry i e' t) = if bool_decide (find_index d t = Some i) then Some e' else find d t.
Proof.
  intros Hi Hd. unfold Slots.at_ in Hi. destruct (entries_ t !! i) as [[x|]|] eqn:Hx; try done. simpl in Hi.
  injection Hi as ->. unfold find, find_index, put_entry. simpl.
  rewrite (slots_find_set _ _ i e e') by (done || unfold is_dest; by rewrite Hd).
  destruct (Slots.find (is_dest d) (entries_ t)) as [j|] eqn:Hf; cbn [mbind option_bind];
    [|by rewrite bool_decide_eq_false_2].
  unfold Slots.at_, Slots.set. case_bool_decide as Hji.
  - injection Hji as ->. rewrite list_lookup_insert_eq; [done|]. by eapply lookup_lt_Some.
  - by rewrite list_lookup_insert_ne by congruence.
Qed.

Lemma find_dest d t e : find d t = Some e → destination e = d.
Proof.
  unfold find, find_index. destruct (Slots.find (is_dest d) (entries_ t)) as [i|] eqn:Hf; [|done]. simpl.
  apply slots_find_at in Hf as (x & _ & Hx & Hp). intros. simplify_eq. by apply bool_decide_eq_true in Hp.
Qed.

Lemma find_index_at d t i : find_index d t = Some i → find d t = Slots.at_ i (entries_ t).
Proof. unfold find. by intros ->. Qed.

Lemma find_index_some d t i :
  find_index d t = Some i → ∃ e, Slots.at_ i (entries_ t) = Some e ∧ destination e = d.
Proof.
  intros Hf. apply slots_find_at in Hf as (e & _ & He & Hp). exists e. split; [done|].
  by apply bool_decide_eq_true in Hp.
Qed.

(** Two destinations never share an entry. *)
Lemma find_index_ne d d' t i : find_index d t = Some i → d ≠ d' → find_index d' t ≠ Some i.
Proof.
  intros (e & He & <-)%find_index_some Hne (e' & He' & <-)%find_index_some. congruence.
Qed.

(** Where a fresh entry lands: the pool's allocated slot held nothing. *)
Lemma slots_allocate_free {T} (x : T) (s : Slots.slots T) i s' :
  Slots.allocate x s = (Some i, s') → s !! i = Some None ∧ s' = Slots.set i x s.
Proof.
  unfold Slots.allocate. destruct (Slots.first_free s) as [j|] eqn:Hf; [|done].
  intros. simplify_eq. split; [|done]. by apply Slots.first_free_Some.
Qed.

Definition fresh_entry (d : NodeId) : Entry := set_destination d empty_entry.

(** Destinations never change once allocated. *)
Lemma evaluate_entry_dest busy self now e : destination (evaluate_entry busy self now e) = destination e.
Proof. done. Qed.

Lemma withdraw_entry_dest busy self dwell nh now e :
  destination (snd (withdraw_entry busy self dwell nh now e)) = destination e.
Proof.
  unfold withdraw_entry. destruct (existsb _ _); [|done]. unfold arm_tombstone, request_if_lost.
  by repeat case_match.
Qed.

Lemma consider_entry_dest busy self dwell ad nh lm now lt e :
  destination (snd (consider_entry busy self dwell ad nh lm now lt e)) = destination e.
Proof.
  unfold consider_entry. case_bool_decide; [done|].
  assert (destination (renewed (ad_generation ad) e) = destination e) as <-.
  { unfold renewed. by case_bool_decide. }
  set (e1 := renewed _ _).
  case_bool_decide.
  - pose proof (withdraw_entry_dest busy self dwell nh now e1) as Hw. by destruct (withdraw_entry _ _ _ _ _ _).
  - destruct (_ && _); [done|]. by destruct (c_feasible _).
Qed.

(** [find_or_allocate] returns the slot of the entry [find] names, or a
    fresh entry for the destination. *)
Lemma find_or_allocate_spec d t i t1 :
  find_or_allocate d t = (Some i, t1) →
  busy_links_ t1 = busy_links_ t ∧ self_id_ t1 = self_id_ t ∧ tombstone_dwell_ms_ t1 = tombstone_dwell_ms_ t ∧
  Slots.at_ i (entries_ t1) = Some (default (fresh_entry d) (find d t)) ∧
  find_index d t1 = Some i ∧ ∀ d', d' ≠ d → find d' t1 = find d' t.
Proof.
  unfold find_or_allocate. case_bool_decide; [done|]. destruct (find_index d t) as [j|] eqn:Hj.
  - intros. simplify_eq. apply find_index_some in Hj as Hat. destruct Hat as (e & He & _).
    rewrite (find_index_at _ _ _ Hj), He. done.
  - destruct (Slots.allocate empty_entry (entries_ t)) as [[k|] s] eqn:Ha; [|done]. intros. simplify_eq.
    apply slots_allocate_free in Ha as [Hfree ->]. unfold find at 1. rewrite Hj. cbn [mbind option_bind default].
    assert (Hset : Slots.set i (set_destination d empty_entry) (Slots.set i empty_entry (entries_ t)) =
                   Slots.set i (fresh_entry d) (entries_ t)) by apply list_insert_insert_eq.
    rewrite Hset. do 3 (split; [done|]). split; [|split].
    + unfold Slots.at_, Slots.set. cbn [entries_ set_entries]. rewrite list_lookup_insert_eq; [done|]. by eapply lookup_lt_Some.
    + unfold find_index. cbn [entries_ set_entries]. rewrite (slots_find_alloc _ _ _ _ Hfree Hj).
      unfold is_dest. by rewrite bool_decide_eq_true_2.
    + intros d' Hd. unfold find, find_index. cbn [entries_ set_entries].
      rewrite (slots_find_alloc_other _ _ _ _ Hfree) by (unfold is_dest; by rewrite bool_decide_eq_false_2).
      destruct (Slots.find _ _) as [j|] eqn:Hf; cbn [mbind option_bind]; [|done].
      unfold Slots.at_, Slots.set. rewrite list_lookup_insert_ne; [done|]. intros ->.
      apply Slots.find_Some in Hf as (x & Hx & _). congruence.
Qed.

(** [consider] leaves a destination's entry alone, or applies
    [consider_entry] to it (to a fresh one if there was none). *)
Lemma consider_find ad nh lm now lt t d :
  find d (snd (consider ad nh lm now lt t)) = find d t ∨
  (d = ad_destination ad ∧ d ≠ kInvalidNodeId ∧ nh ≠ kInvalidNodeId ∧ lm ≠ 0 ∧
   find d (snd (consider ad nh lm now lt t)) =
     Some (snd (consider_entry (busy_links_ t) (self_id_ t) (tombstone_dwell_ms_ t) ad nh lm now lt
                  (default (fresh_entry d) (find d t))))).
Proof.
  unfold consider. destruct (_ || _) eqn:Hg; [by left|].
  repeat setoid_rewrite orb_false_iff in Hg. rewrite !bool_decide_eq_false in Hg. destruct Hg as [[[Hd Hnh] Hlm] Hlt].
  destruct (if bool_decide (ad_metric ad = _) then (find_index _ _, t) else _) as [[i|] t1] eqn:Hst.
  - assert (Hs : busy_links_ t1 = busy_links_ t ∧ self_id_ t1 = self_id_ t ∧
      tombstone_dwell_ms_ t1 = tombstone_dwell_ms_ t ∧
      Slots.at_ i (entries_ t1) = Some (default (fresh_entry (ad_destination ad)) (find (ad_destination ad) t)) ∧
      find_index (ad_destination ad) t1 = Some i ∧ ∀ d', d' ≠ ad_destination ad → find d' t1 = find d' t).
    { case_bool_decide; [|by apply find_or_allocate_spec]. injection Hst as Hst <-.
      apply find_index_some in Hst as Hat. destruct Hat as (e & He & _).
      rewrite (find_index_at _ _ _ Hst), He. done. }
    destruct Hs as (Hb & Hs & Hw & Hat & Hi & Hoth). rewrite Hat, Hb, Hs, Hw.
    destruct (consider_entry _ _ _ _ _ _ _ _ _) as [r e'] eqn:Hc. cbn [snd].
    assert (Hde : destination e' = destination (default (fresh_entry (ad_destination ad)) (find (ad_destination ad) t))).
    { pose proof (consider_entry_dest (busy_links_ t) (self_id_ t) (tombstone_dwell_ms_ t) ad nh lm now lt
        (default (fresh_entry (ad_destination ad)) (find (ad_destination ad) t))) as Hx. by rewrite Hc in Hx. }
    rewrite (find_put _ _ _ d _ Hat Hde). destruct (decide (d = ad_destination ad)) as [->|Hne].
    + right. rewrite bool_decide_eq_true_2 by done. rewrite Hc. done.
    + left. rewrite bool_decide_eq_false_2 by (by eapply find_index_ne). by apply Hoth.
  - left. cbn [snd]. case_bool_decide; [by simplify_eq|]. unfold find_or_allocate in Hst.
    case_bool_decide; [by simplify_eq|]. destruct (find_index (ad_destination ad) t) as [j|]; [done|].
    unfold Slots.allocate in Hst. destruct (Slots.first_free _) as [k|]; simplify_eq. done.
Qed.

Lemma withdraw_find d' nh now t d :
  find d (snd (withdraw d' nh now t)) = find d t ∨
  ∃ e, find d t = Some e ∧ find d (snd (withdraw d' nh now t)) =
     Some (snd (withdraw_entry (busy_links_ t) (self_id_ t) (tombstone_dwell_ms_ t) nh now e)).
Proof.
  unfold withdraw. destruct (find_index d' t) as [i|] eqn:Hi; [|by left].
  destruct (Slots.at_ i (entries_ t)) as [e|] eqn:He; [|by left].
  destruct (withdraw_entry _ _ _ _ _ _) as [r e'] eqn:Hw. cbn [snd].
  pose proof (withdraw_entry_dest (busy_links_ t) (self_id_ t) (tombstone_dwell_ms_ t) nh now e) as Hde.
  rewrite Hw in Hde. cbn [snd] in Hde. rewrite (find_put _ _ _ d _ He Hde). case_bool_decide as Hj; [|by left].
  right. exists e. rewrite (find_index_at _ _ _ Hj), He, Hw. done.
Qed.
