(* ===== verification/RoutingProps.v ===== *)
(** * Discipline of a route entry (routing.hpp, routing.cpp)

    Which candidate a new advertisement displaces, what a lease sweep leaves,
    and how long the committed hop is held against load changes. *)

From S2P Require Import Prelude Types FixedContainers Routing.

(** ** Metrics *)

(** For 16-bit operands [route_metric_add] is addition saturated at the
    infinite metric. *)
Lemma route_metric_add_saturates a b :
  0 ≤ a ≤ kInfiniteRouteMetric → 0 ≤ b ≤ kInfiniteRouteMetric →
  route_metric_add a b = Z.min kInfiniteRouteMetric (a + b).
Proof.
  unfold route_metric_add, kInfiniteRouteMetric, UINT16_MAX, u32, u16, wrap. intros Ha Hb.
  rewrite (Z.mod_small (a + b) (2 ^ 32)) by lia.
  repeat case_bool_decide; cbn [orb]; try lia. rewrite Z.mod_small; lia.
Qed.

(** ** Eviction *)

(** Feasible by its latched flag and by the current feasible distance. *)
Definition live_feasible (e : Entry) (c : RouteCandidate) : bool :=
  c_feasible c && feasible e (c_sequence c) (c_advertised c).

Lemma index_of_Some test cs i :
  index_of test cs = Some i → ∃ c, cs !! i = Some c ∧ test c = true.
Proof.
  revert i. induction cs as [|c cs IH]; intros i; simpl; [done|]. destruct (test c) eqn:Ht.
  - intros [= <-]. by exists c.
  - intros (k & Hk & ->)%fmap_Some. by apply IH.
Qed.

Lemma index_of_None test cs : index_of test cs = None → ∀ c, c ∈ cs → test c = false.
Proof.
  induction cs as [|x cs IH]; simpl; [by intros _ c ?%elem_of_nil|]. destruct (test x) eqn:Ht; [done|].
  intros Hn%fmap_None c [->|Hc]%elem_of_cons; [done|by apply IH].
Qed.

(** The scan returns a candidate of the list, and a committed one only if
    every candidate it passed is committed. *)
Lemma worst_from_spec committed cs i (all : list RouteCandidate) best worst :
  all !! best = Some worst →
  (∀ k c, cs !! k = Some c → all !! (i + k)%nat = Some c) →
  ∃ w, all !! worst_from committed i cs best worst = Some w ∧
    (c_next_hop w = committed → c_next_hop worst = committed ∧ Forall (λ c, c_next_hop c = committed) cs).
Proof.
  revert i best worst. induction cs as [|c cs IH]; intros i best worst Hb Hk; simpl; [by exists worst|].
  assert (Hc : all !! i = Some c) by (rewrite <-(Nat.add_0_r i); by apply Hk).
  assert (Hk' : ∀ k x, cs !! k = Some x → all !! (S i + k)%nat = Some x).
  { intros k x Hx. replace (S i + k)%nat with (i + S k)%nat by lia. by apply Hk. }
  assert (Hw : c_next_hop c ≠ committed → c_next_hop worst = committed → worse committed worst c = true).
  { intros H1 H2. unfold worse. by rewrite (bool_decide_eq_false_2 (c_next_hop c = _)), bool_decide_eq_true_2 by done. }
  assert (Hw' : c_next_hop c = committed → c_next_hop worst ≠ committed → worse committed worst c = false).
  { intros H1 H2. unfold worse. by rewrite (bool_decide_eq_true_2 (c_next_hop c = _)), bool_decide_eq_false_2 by done. }
  destruct (worse committed worst c) eqn:Hwc.
  - destruct (IH (S i) i c Hc Hk') as (w & Hwl & Hall). exists w. split; [done|].
    intros [Hcc Hcs]%Hall. split; [|by constructor].
    destruct (decide (c_next_hop worst = committed)) as [|Hn]; [done|]. discriminate (Hw' Hcc Hn).
  - destruct (IH (S i) best worst Hb Hk') as (w & Hwl & Hall). exists w. split; [done|].
    intros [Hcc Hcs]%Hall. split; [done|]. constructor; [|done].
    destruct (decide (c_next_hop c = committed)) as [|Hn]; [done|]. discriminate (Hw Hn Hcc).
Qed.

(** The slot an advertisement overwrites is the hop's own; failing that a
    free one; failing that one infeasible by its flag or by the current
    feasible distance; and when every candidate is feasible, never the
    committed hop's unless every candidate has that hop. *)
Lemma candidate_slot_order e nh :
  candidates e ≠ [] →
  ∃ old, candidates e !! candidate_slot e nh = Some old ∧
    (via nh old = true ∨
     (∀ c, c ∈ candidates e → via nh c = false) ∧
     (c_valid old = false ∨
      (∀ c, c ∈ candidates e → c_valid c = true) ∧
      (live_feasible e old = false ∨
       (∀ c, c ∈ candidates e → live_feasible e c = true) ∧
       (c_next_hop old = committed_next_hop (switching e) →
        ∀ c, c ∈ candidates e → c_next_hop c = committed_next_hop (switching e))))).
Proof.
  intros Hne. unfold candidate_slot.
  destruct (index_of (λ c, c_valid c && _) _) as [i|] eqn:H1.
  { apply index_of_Some in H1 as (c & Hc & Ht). exists c. split; [done|by left]. }
  pose proof (index_of_None _ _ H1) as Hvia.
  destruct (index_of (λ c, negb (c_valid c)) _) as [i|] eqn:H2.
  { apply index_of_Some in H2 as (c & Hc & Ht). exists c. split; [done|right]. split; [exact Hvia|left].
    by apply negb_true_iff in Ht. }
  pose proof (index_of_None _ _ H2) as Hval.
  assert (Hval' : ∀ c, c ∈ candidates e → c_valid c = true) by (intros c Hc; by apply negb_false_iff, Hval).
  destruct (index_of (λ c, negb (c_feasible c) || _) _) as [i|] eqn:H3.
  { apply index_of_Some in H3 as (c & Hc & Ht). exists c. split; [done|right]. split; [exact Hvia|right].
    split; [done|left]. unfold live_feasible. destruct (c_feasible c), (feasible _ _ _); done. }
  pose proof (index_of_None _ _ H3) as Hfe. destruct (candidates e) as [|c0 cs] eqn:Hcs; [done|].
  destruct (worst_from_spec (committed_next_hop (switching e)) (c0 :: cs) 0 (c0 :: cs) 0 c0) as (w & Hw & Hall); [done|done|].
  exists w. split; [exact Hw|right]. split; [exact Hvia|right]. split; [done|right]. split.
  - intros c Hc. specialize (Hfe c Hc). unfold live_feasible. destruct (c_feasible c), (feasible _ _ _); done.
  - intros Hc c Hin. destruct (Hall Hc) as [_ Hf]. rewrite Forall_forall in Hf. by apply Hf.
Qed.

(** Three feasible candidates, hop 7 committed: the worst other one goes. *)
Definition full_entry : Entry :=
  set_switching (mkSwitching 7 0 0 0)
    (set_candidates [mkCandidate 7 9000 4 90 80 true true; mkCandidate 8 9000 4 60 50 true true;
                     mkCandidate 9 9000 4 70 50 true true] (set_destination 1 empty_entry)).

Lemma candidate_slot_order_witness :
  candidates full_entry ≠ [] ∧ candidate_slot full_entry 5 = 2%nat ∧
  ∃ old, candidates full_entry !! candidate_slot full_entry 5 = Some old ∧ c_next_hop old = 9.
Proof.
  assert (Hne : candidates full_entry ≠ []) by done. split; [done|]. split; [by vm_compute|].
  destruct (candidate_slot_order full_entry 5 Hne) as (old & Hold & _). exists old. split; [exact Hold|].
  assert (Hslot : candidate_slot full_entry 5 = 2%nat) by (by vm_compute). rewrite Hslot in Hold.
  by injection Hold as <-.
Defined.

(** ** Lease sweep *)

Lemma slots_live_elem {T} (x : T) (s : Slots.slots T) : x ∈ Slots.live s ↔ Some x ∈ s.
Proof. unfold Slots.live. rewrite list_elem_of_omap. simpl. split; [by intros (y & Hy & ->)|by exists (Some x)]. Qed.

Lemma live_for_each {T} f (y : T) s : y ∈ Slots.live (Slots.for_each f s) → ∃ x, x ∈ Slots.live s ∧ y = f x.
Proof.
  rewrite slots_live_elem. unfold Slots.for_each. intros (o & Ho & Hin)%list_elem_of_fmap.
  destruct o as [x|]; simplify_eq/=. exists x. by rewrite slots_live_elem.
Qed.

(** A swept entry. *)
Definition swept (now : Z) (e : Entry) : Prop :=
  (∀ c, c ∈ candidates e → c_valid c = true → now < c_expires_at_ms c) ∧
  (has_candidates e = true ∨ tombstone_expires_at_ms e ≠ 0).

Lemma arm_tombstone_spec dwell now e :
  0 < u64 (now + dwell) →
  candidates (arm_tombstone dwell now e) = candidates e ∧
  (has_candidates e = true ∨ tombstone_expires_at_ms (arm_tombstone dwell now e) ≠ 0).
Proof.
  intros Hp. unfold arm_tombstone. destruct (has_candidates e); simpl; [by auto|].
  case_bool_decide; simpl; [|by auto]. split; [done|right]. lia.
Qed.

Lemma expire_entry_swept busy self dwell now e :
  0 < u64 (now + dwell) → swept now (expire_entry busy self dwell now e).
Proof.
  intros Hp. unfold expire_entry. set (e1 := set_candidates _ e). set (e2 := if existsb _ _ then request_if_lost e1 else e1).
  assert (He2 : candidates e2 = drop_where (lapsed now) (candidates e)).
  { unfold e2, request_if_lost. by repeat case_match. }
  assert (Hs : swept now (arm_tombstone dwell now e2)).
  { destruct (arm_tombstone_spec dwell now e2 Hp) as [Hc Ht]. split.
    - rewrite Hc, He2. unfold drop_where. intros c (x & -> & Hx)%list_elem_of_fmap. unfold lapsed.
      destruct (c_valid x) eqn:Hv; simpl; [|by rewrite Hv]. case_bool_decide; simpl; [done|lia].
    - unfold has_candidates. rewrite Hc. exact Ht. }
  clearbody e2. destruct (existsb _ _); exact Hs.
Qed.

(** After [expire] at [now], every remaining entry holds only candidates
    whose lease ends later, and an entry left without candidates has an armed
    tombstone. *)
Lemma expire_leaves_swept_entries now t :
  0 < u64 (now + tombstone_dwell_ms_ t) → Forall (swept now) (Slots.live (entries_ (expire now t))).
Proof.
  intros Hp. apply Forall_forall. intros e (x & _ & ->)%live_for_each. by apply expire_entry_swept.
Qed.

Lemma expire_leaves_swept_entries_witness :
  let t := snd (consider (mkAd 1 0 5 0) 1 10 1000 3000 empty_table) in
  0 < u64 (4000 + tombstone_dwell_ms_ t) ∧ Forall (swept 4000) (Slots.live (entries_ (expire 4000 t))) ∧
  s_valid (best 1 t) = true ∧ s_valid (best 1 (expire 4000 t)) = false.
Proof.
  set (t := snd _). assert (Hp : 0 < u64 (4000 + tombstone_dwell_ms_ t)) by (by vm_compute).
  split; [exact Hp|]. split; [exact (expire_leaves_swept_entries 4000 t Hp)|]. split; by vm_compute.
Defined.

(** ** Damping of load changes *)

(** What congestion does to an entry: link costs move and the switching
    decision is re-evaluated, against whatever busy links are noted. *)
Inductive LoadOp :=
  | LoadCost (next_hop : NodeId) (cost now_ms : Z)
  | LoadEvaluate (now_ms : Z).
Definition load_now (op : LoadOp) : Z := match op with LoadCost _ _ now => now | LoadEvaluate now => now end.
Definition apply_load (self : NodeId) (e : Entry) (b : Slots.slots BusyLink * LoadOp) : Entry :=
  match b.2 with
  | LoadCost nh cost now => update_cost_entry b.1 self nh cost now e
  | LoadEvaluate now => evaluate_entry b.1 self now e
  end.

(** No load makes the committed hop itself unusable. *)
Definition keeps_finite (e : Entry) (op : LoadOp) : Prop :=
  match op with
  | LoadCost nh cost _ => nh = committed_next_hop (switching e) →
      ∀ c, c ∈ candidates e → via nh c = true →
           route_metric_add (c_advertised c) cost ≠ kInfiniteRouteMetric
  | LoadEvaluate _ => True
  end.

Lemma selectable_is_Some e hop c :
  hop ≠ kInvalidNodeId → c ∈ candidates e → c_next_hop c = hop → usable e c = true → is_Some (selectable e hop).
Proof.
  intros Hne Hin Hh Hu. unfold selectable. rewrite bool_decide_eq_false_2 by done.
  destruct (list_find_elem_of (λ c, (bool_decide (c_next_hop c = hop) && usable e c) = true) (candidates e) c Hin) as [[i x] Hx].
  - rewrite bool_decide_eq_true_2 by done. done.
  - rewrite Hx. by eexists.
Qed.

Lemma sequence_newer_same q : route_sequence_newer q q = (false, false).
Proof. unfold route_sequence_newer. rewrite Z.sub_diag. done. Qed.

Lemma held_evaluation busy self now e c :
  selectable e (committed_next_hop (switching e)) = Some c → now < switch_hold_until_ms (switching e) →
  (∀ x, x ∈ candidates e → c_valid x = true → c_sequence x = c_sequence c) →
  let s' := evaluate_switching busy self e now in
  committed_next_hop s' = committed_next_hop (switching e) ∧
  switch_hold_until_ms s' = switch_hold_until_ms (switching e).
Proof.
  intros Hs Hh Hq. unfold evaluate_switching. rewrite Hs. rewrite (bool_decide_eq_false_2 (_ ≤ now)) by lia.
  destruct (match busy_link busy _ with Some _ => _ | None => _ end); [by destruct (best_candidate _ _)|].
  destruct (best_candidate e kInvalidNodeId) as [raw|] eqn:Hb; [|done].
  apply best_candidate_elem in Hb as [Hin Hu]. apply usable_parts in Hu as (Hv & _).
  rewrite (Hq raw Hin Hv), sequence_newer_same. cbn [orb]. rewrite andb_false_r.
  by repeat (case_bool_decide || case_match).
Qed.

(** What load never changes in a candidate. *)
Definition shape (c : RouteCandidate) : NodeId * bool * Z * Z :=
  (c_next_hop c, c_valid c, c_sequence c, c_advertised c).

(** A committed hop in use, every candidate at one sequence. *)
Definition settled (q hold : Z) (e : Entry) : Prop :=
  is_Some (selectable e (committed_next_hop (switching e))) ∧ switch_hold_until_ms (switching e) = hold ∧
  ∀ c, c ∈ candidates e → c_valid c = true → c_sequence c = q.

Lemma settled_evaluate busy self now q hold e :
  settled q hold e → now < hold →
  settled q hold (evaluate_entry busy self now e) ∧
  committed_next_hop (switching (evaluate_entry busy self now e)) = committed_next_hop (switching e).
Proof.
  intros ([c Hc] & Hh & Hq) Hn. destruct (selectable_Some _ _ _ Hc) as (Hin & Hhop & Hu).
  destruct (usable_parts _ _ Hu) as (Hv & _).
  destruct (held_evaluation busy self now e c Hc) as [Hcm Hsw]; [lia|by intros x Hx Hxv; rewrite (Hq x), (Hq c)|].
  split; [|done]. split; [|split; [|done]]; cbn [switching evaluate_entry set_switching]; [|congruence].
  rewrite Hcm. by exists c.
Qed.

Lemma settled_recost nh cost q hold e now :
  settled q hold e → keeps_finite e (LoadCost nh cost now) →
  settled q hold (set_candidates (recost e nh cost <$> candidates e) e).
Proof.
  intros ([c Hc] & Hh & Hq) Hk. destruct (selectable_Some _ _ _ Hc) as (Hin & Hhop & Hu).
  split; [|split; [done|]].
  - cbn [switching set_candidates]. apply (selectable_is_Some _ _ (recost e nh cost c)).
    + intros Hi. unfold selectable in Hc. by rewrite Hi in Hc.
    + cbn [candidates set_candidates]. by apply list_elem_of_fmap_2.
    + unfold recost. by destruct (via nh c).
    + destruct (usable_parts _ _ Hu) as (Hv & Hm & Hf). unfold recost. destruct (via nh c) eqn:Hvia; [|done].
      assert (Hnh : nh = committed_next_hop (switching e)).
      { unfold via in Hvia. rewrite Hv in Hvia. apply bool_decide_eq_true in Hvia. congruence. }
      unfold usable. cbn [c_valid c_feasible c_metric c_sequence c_advertised].
      rewrite Hv, (bool_decide_eq_false_2 (route_metric_add _ _ = _)) by (by apply (Hk Hnh)).
      change (feasible (set_candidates _ e)) with (feasible e). by rewrite Hf.
  - cbn [candidates set_candidates]. intros x (y & -> & Hy)%list_elem_of_fmap. unfold recost.
    destruct (via nh y) eqn:Hvia; [|by apply Hq]. simpl. by apply Hq.
Qed.

Lemma apply_load_shape self e b : shape <$> candidates (apply_load self e b) = shape <$> candidates e.
Proof.
  destruct b as [busy [nh cost now|now]]; [|done]. unfold apply_load. cbn [fst snd].
  unfold update_cost_entry. destruct (existsb _ _); [|done].
  cbn [candidates evaluate_entry set_switching set_candidates]. rewrite <-list_fmap_compose.
  apply list_fmap_ext. intros i c _. unfold compose, recost. by destruct (via nh c).
Qed.

Lemma keeps_finite_shape e e' op :
  shape <$> candidates e' = shape <$> candidates e →
  committed_next_hop (switching e') = committed_next_hop (switching e) →
  keeps_finite e op → keeps_finite e' op.
Proof.
  intros Hs Hc. destruct op as [nh cost now|now]; [|done]. simpl. rewrite Hc. intros Hk Hnh c Hin Hv.
  assert (Hx : shape c ∈ shape <$> candidates e) by (rewrite <-Hs; by apply list_elem_of_fmap_2).
  apply list_elem_of_fmap in Hx as (x & Hx & Hxin). injection Hx as Hh Hvv _ Ha. rewrite Ha. apply Hk; [done|done|].
  unfold via in *. by rewrite <-Hvv, <-Hh.
Qed.

(** While every candidate carries the same origin sequence, no sequence of
    link-cost changes and re-evaluations before [switch_hold_until_ms], under
    any busy reports, moves the committed hop or the selection off it,
    provided its own cost stays finite. *)
Lemma switch_hold_damps self q hold ops e :
  settled q hold e →
  Forall (λ b, load_now b.2 < hold ∧ keeps_finite e b.2) ops →
  committed_next_hop (switching (foldl (apply_load self) e ops)) = committed_next_hop (switching e) ∧
  s_next_hop (select (foldl (apply_load self) e ops)) = committed_next_hop (switching e).
Proof.
  revert e. induction ops as [|b ops IH]; intros e He Hops; simpl.
  - split; [done|]. destruct He as ([c Hc] & _). unfold select, chosen. rewrite Hc.
    by destruct (selectable_Some _ _ _ Hc) as (_ & ? & _).
  - apply Forall_cons in Hops as [[Hn Hk] Hops].
    assert (Hstep : settled q hold (apply_load self e b) ∧
      committed_next_hop (switching (apply_load self e b)) = committed_next_hop (switching e)).
    { destruct b as [busy [nh cost now|now]]; cbn [apply_load load_now fst snd] in *; [|by apply settled_evaluate].
      unfold update_cost_entry. destruct (existsb _ _); [|done].
      by apply (settled_evaluate busy self now q hold (set_candidates _ e)); [apply (settled_recost nh cost q hold e now)|]. }
    destruct Hstep as [Hs Hc]. rewrite <-Hc. apply IH; [done|]. eapply Forall_impl; [exact Hops|].
    intros b' [Hn' Hk']. split; [done|]. eapply keeps_finite_shape; [apply apply_load_shape|exact Hc|exact Hk'].
Qed.

(** Hop 7 committed until 5000: neither a doubled cost nor a severe busy
    report moves it. *)
Definition held_entry : Entry := set_switching (mkSwitching 7 0 0 5000) full_entry.
Definition busy_seven : Slots.slots BusyLink := [Some (mkBusy 7 100); None].

Lemma switch_hold_damps_witness :
  let ops := [(busy_seven, LoadCost 7 200 3000); (busy_seven, LoadEvaluate 4999)] in
  settled 4 5000 held_entry ∧ Forall (λ b, load_now b.2 < 5000 ∧ keeps_finite held_entry b.2) ops ∧
  s_next_hop (select (foldl (apply_load 2) held_entry ops)) = 7 ∧
  s_next_hop (select (evaluate_entry busy_seven 2 5000 held_entry)) = 8.
Proof.
  intros ops. assert (Hs : settled 4 5000 held_entry).
  { split; [by eexists|]. split; [done|]. intros c Hc.
    repeat (apply elem_of_cons in Hc as [->|Hc]; [done|]). by apply elem_of_nil in Hc. }
  assert (Ho : Forall (λ b, load_now b.2 < 5000 ∧ keeps_finite held_entry b.2) ops).
  { unfold ops. constructor; [|constructor; [|constructor]]; cbn [snd load_now keeps_finite]; (split; [lia|try done]).
    intros _ c Hc. repeat (apply elem_of_cons in Hc as [->|Hc]; [done|]). by apply elem_of_nil in Hc. }
  split; [exact Hs|]. split; [exact Ho|]. split; [|by vm_compute].
  exact (proj2 (switch_hold_damps 2 4 5000 ops held_entry Hs Ho)).
Defined.
