(* ===== verification/RoutingNet.v ===== *)
(** * Loop freedom of the route tables (routing.hpp, routing.cpp)

    A network of route tables for one destination [D].  Nodes hear the origin
    directly, advertise their selection (which first tightens the feasible
    distance), deliver any advertisement ever sent, any number of times and
    in any order, and run every other table operation at any moment with any
    clock reading and link cost.  The invariant is the Babel one: whatever a
    node ever advertised is dominated by the feasible distance it still
    remembers, so each selected hop strictly descends in (generation,
    feasible distance).  The runs covered are those in which the origin's
    sequence stays in a half window and no node forgets the feasible distance
    of [D] by collecting its tombstone. *)

From S2P Require Import Prelude Types FixedContainers Routing.

(** ** Ranks *)

Definition in_window (s : Z) : Prop := 0 ≤ s < 0x8000.

Lemma newer_in_window a b :
  in_window a → in_window b → route_sequence_newer a b = (bool_decide (b < a), false).
Proof.
  unfold in_window, route_sequence_newer, u16, wrap. intros Ha Hb.
  assert ((a - b) mod 2 ^ 16 = if decide (b ≤ a) then a - b else a - b + 2 ^ 16) as ->.
  { destruct (decide (b ≤ a)); [apply Z.mod_small; lia|].
    symmetry. apply (Z.mod_unique_pos _ _ (-1)); lia. }
  destruct (decide (b ≤ a)); f_equal; repeat case_bool_decide; simpl; (done || lia).
Qed.

(** A node's rank for the destination: its generation and feasible distance. *)
Definition rank (e : Entry) : Z * FeasibleDistance := (generation e, fd e).

(** Strictly closer to the origin: newer generation, then an advertised
    distance before none, then newer sequence, then smaller metric. *)
Definition closer (a b : Z * FeasibleDistance) : Prop :=
  b.1 < a.1 ∨
  (a.1 = b.1 ∧ fd_valid a.2 = true ∧
   (fd_valid b.2 = false ∨ fd_sequence b.2 < fd_sequence a.2 ∨
    (fd_sequence a.2 = fd_sequence b.2 ∧ fd_metric a.2 < fd_metric b.2))).

Lemma closer_irrefl a : ¬ closer a a.
Proof. unfold closer. destruct (fd_valid a.2); intuition (lia || congruence). Qed.

#[global] Instance closer_trans : Transitive closer.
Proof.
  intros a b c. unfold closer. destruct (fd_valid a.2), (fd_valid b.2), (fd_valid c.2);
    intuition (lia || congruence).
Qed.

Definition no_farther (a b : Z * FeasibleDistance) : Prop := a = b ∨ closer a b.

#[global] Instance no_farther_preorder : PreOrder no_farther.
Proof.
  split; [by left|]. intros a b c [->|Hab] [->|Hbc]; [by left|by right|by right|right; by etrans].
Qed.

(** The rank is at least as close as what was advertised. *)
Definition dominates (r : Z * FeasibleDistance) (ad : RouteAdvertisement) : Prop :=
  ad_generation ad < r.1 ∨
  (r.1 = ad_generation ad ∧ fd_valid r.2 = true ∧
   (ad_sequence ad < fd_sequence r.2 ∨
    (fd_sequence r.2 = ad_sequence ad ∧ fd_metric r.2 ≤ ad_metric ad))).

#[global] Instance dominates_mono : Proper (no_farther ==> eq ==> flip impl) dominates.
Proof.
  intros r r' [->|Hc] ad _ <-; [done|]. unfold flip, impl, dominates, closer in *.
  destruct (fd_valid r.2), (fd_valid r'.2); intuition (lia || congruence).
Qed.

(** ** The entry invariant *)

Section Entries.
Context (D : NodeId) (sent : list (NodeId * RouteAdvertisement)).

Definition heard (g : Z) (c : RouteCandidate) : Prop :=
  c_next_hop c = D ∨ (c_next_hop c, mkAd D g (c_sequence c) (c_advertised c)) ∈ sent.

Definition cand_ok (g : Z) (c : RouteCandidate) : Prop :=
  c_valid c = true → in_window (c_sequence c) ∧
    (c_advertised c = kInfiniteRouteMetric → c_metric c = kInfiniteRouteMetric) ∧
    (c_advertised c ≠ kInfiniteRouteMetric → heard g c).

Definition entry_ok (e : Entry) : Prop :=
  destination e = D ∧ Forall (cand_ok (generation e)) (candidates e) ∧
  (fd_valid (fd e) = true → in_window (fd_sequence (fd e))).

(** What every operation but the advertisement does to an entry. *)
Definition entry_step (e e' : Entry) : Prop :=
  (entry_ok e → entry_ok e') ∧ no_farther (rank e') (rank e).

#[global] Instance entry_step_preorder : PreOrder entry_step.
Proof.
  split; [by split|]. intros a b c [H1 R1] [H2 R2]. split; [by auto|]. by transitivity (rank b).
Qed.

(** Changes that keep generation, feasible distance and candidates. *)
Definition same_core (e e' : Entry) : Prop :=
  destination e' = destination e ∧ candidates e' = candidates e ∧ generation e' = generation e ∧ fd e' = fd e.

Lemma same_core_step e e' : same_core e e' → entry_step e e'.
Proof.
  intros (Hd & Hc & Hg & Hf). unfold entry_step, entry_ok, rank. rewrite Hd, Hc, Hg, Hf. done.
Qed.

Lemma evaluate_step busy self now e : entry_step e (evaluate_entry busy self now e).
Proof. by apply same_core_step. Qed.
Lemma arm_step dwell now e : entry_step e (arm_tombstone dwell now e).
Proof. apply same_core_step. unfold arm_tombstone. by destruct (_ && _). Qed.
Lemma request_step e : entry_step e (request_if_lost e).
Proof. apply same_core_step. unfold request_if_lost. by destruct (s_valid _). Qed.
Lemma hold_step hop until e : entry_step e (set_hold hop until e).
Proof. by apply same_core_step. Qed.

(** Changes of the candidates that keep each one sound. *)
Lemma candidates_step cs e :
  (Forall (cand_ok (generation e)) (candidates e) → Forall (cand_ok (generation e)) cs) →
  entry_step e (set_candidates cs e).
Proof.
  intros Hcs. split; [|reflexivity]. intros (Hd & Hc & Hf). split; [done|]. split; [by apply Hcs|done].
Qed.

Lemma no_candidate_ok g : cand_ok g no_candidate.
Proof. done. Qed.

Lemma drop_where_ok g test cs : Forall (cand_ok g) cs → Forall (cand_ok g) (drop_where test cs).
Proof.
  intros Hcs. apply Forall_fmap. eapply Forall_impl; [done|]. intros c Hc. simpl. by destruct (test c).
Qed.

Lemma retract_ok g nh cs : Forall (cand_ok g) cs → Forall (cand_ok g) (retract nh <$> cs).
Proof.
  intros Hcs. apply Forall_fmap. eapply Forall_impl; [done|]. intros c Hc. simpl. unfold retract.
  destruct (c_valid c && bool_decide (c_next_hop c = nh)) eqn:Hv; [|done].
  apply andb_true_iff in Hv as [Hv _]. intros _. destruct (Hc Hv) as (Hw & _). done.
Qed.

Lemma recost_ok g e nh cost cs : Forall (cand_ok g) cs → Forall (cand_ok g) (recost e nh cost <$> cs).
Proof.
  intros Hcs. apply Forall_fmap. eapply Forall_impl; [done|]. intros c Hc. simpl. unfold recost.
  destruct (via nh c) eqn:Hv; [|done]. intros Hv'. destruct (Hc Hv') as (Hw & _ & Hh). split; [done|].
  split; [|done]. simpl. intros ->. done.
Qed.

Lemma withdraw_step busy self dwell nh now e :
  entry_step e (snd (withdraw_entry busy self dwell nh now e)).
Proof.
  unfold withdraw_entry. destruct (existsb _ _); [|reflexivity]. cbn [snd].
  etrans; [|apply evaluate_step]. etrans; [|apply arm_step]. etrans; [|apply request_step].
  etrans; [|apply hold_step]. apply candidates_step, retract_ok.
Qed.

Lemma invalidate_step busy self dwell nh now hold e :
  entry_step e (invalidate_entry busy self dwell nh now hold e).
Proof.
  unfold invalidate_entry. set (e1 := set_candidates _ e).
  assert (H1 : entry_step e e1) by apply candidates_step, drop_where_ok.
  set (e2 := if negb hold && _ then _ else _).
  assert (H2 : entry_step e e2).
  { unfold e2. destruct (negb hold && _); [etrans; [done|apply hold_step]|done]. }
  clearbody e2. destruct (existsb _ _); [|done].
  etrans; [|apply evaluate_step]. etrans; [|apply arm_step]. etrans; [|apply request_step].
  destruct hold; [etrans; [done|apply hold_step]|done].
Qed.

Lemma expire_step busy self dwell now e : entry_step e (expire_entry busy self dwell now e).
Proof.
  unfold expire_entry. set (e1 := set_candidates _ e).
  assert (H1 : entry_step e e1) by apply candidates_step, drop_where_ok. clearbody e1.
  destruct (existsb _ _).
  - etrans; [|apply evaluate_step]. etrans; [|apply arm_step]. etrans; [done|apply request_step].
  - etrans; [done|apply arm_step].
Qed.

Lemma cost_step busy self nh cost now e : entry_step e (update_cost_entry busy self nh cost now e).
Proof.
  unfold update_cost_entry. destruct (existsb _ _); [|reflexivity].
  etrans; [|apply evaluate_step]. apply candidates_step, recost_ok.
Qed.

Lemma change_step now e : entry_step e (fst (selected_change now e)).
Proof. apply same_core_step. unfold selected_change. by repeat case_match. Qed.

Lemma renewed_step g e : entry_step e (renewed g e).
Proof.
  unfold renewed. case_bool_decide; [|reflexivity]. split; [|right; by left].
  intros (Hd & _ & _). split; [done|]. split; [|done]. apply Forall_fmap, Forall_true. intros c. apply no_candidate_ok.
Qed.

Lemma generation_renewed g e : ¬ g < generation e → generation (renewed g e) = g.
Proof. unfold renewed. intros. case_bool_decide; simpl; lia. Qed.

(** An advertisement heard from the origin, or one that was sent. *)
Definition credible (nh : NodeId) (ad : RouteAdvertisement) : Prop :=
  ad_metric ad = kInfiniteRouteMetric ∨
  (in_window (ad_sequence ad) ∧ ad_destination ad = D ∧ (nh = D ∨ (nh, ad) ∈ sent)).

Lemma consider_step busy self dwell ad nh lm now lt e :
  credible nh ad → entry_step e (snd (consider_entry busy self dwell ad nh lm now lt e)).
Proof.
  intros Hcr. unfold consider_entry. case_bool_decide as Hg; [reflexivity|].
  pose proof (renewed_step (ad_generation ad) e) as H1.
  pose proof (generation_renewed (ad_generation ad) e Hg) as Hgen.
  set (e1 := renewed (ad_generation ad) e) in *. clearbody e1. case_bool_decide as Hinf.
  - pose proof (withdraw_step busy self dwell nh now e1). destruct (withdraw_entry _ _ _ _ _ _). cbn [snd] in *.
    by transitivity e1.
  - destruct (_ && _); [done|]. destruct Hcr as [|(Hw & Hd & Hsent)]; [done|].
    set (c := learned ad nh lm now lt e1). set (e2 := set_candidates _ e1).
    assert (H2 : entry_step e1 e2).
    { apply candidates_step. intros Hcs. apply Forall_insert; [done|]. intros _. split; [done|].
      split; [intros Ha; simpl in Ha; congruence|]. intros _. destruct Hsent as [->|Hin]; [by left|right].
      simpl. rewrite Hgen, <-Hd. by destruct ad. }
    etrans; [exact H1|]. etrans; [exact H2|]. clearbody c e2.
    destruct (c_feasible c); (etrans; [|apply evaluate_step]); by apply same_core_step.
Qed.

(** Advertising: the feasible distance never loosens and covers the
    selection that leaves. *)
Lemma feasible_in_window e s m :
  entry_ok e → in_window s → feasible e s m = true →
  fd_valid (fd e) = false ∧ m ≠ kInfiniteRouteMetric ∨
  fd_valid (fd e) = true ∧
    (fd_sequence (fd e) < s ∨ (s = fd_sequence (fd e) ∧ m < fd_metric (fd e))).
Proof.
  intros (_ & _ & Hf) Hs. unfold feasible. destruct (fd_valid (fd e)); cbn [negb].
  - rewrite (newer_in_window _ _ Hs (Hf eq_refl)). case_bool_decide as Hn; [by right; split; [|left]|].
    rewrite andb_true_iff, !bool_decide_eq_true. intros []. right. split; [done|by right].
  - rewrite negb_true_iff, bool_decide_eq_false. by left.
Qed.

Lemma selection_ok e :
  entry_ok e → s_valid (select e) = true →
  in_window (s_sequence (select e)) ∧
  ∃ c, s_next_hop (select e) = c_next_hop c ∧ s_sequence (select e) = c_sequence c ∧
    s_generation (select e) = generation e ∧ s_destination (select e) = D ∧
    heard (generation e) c ∧ feasible e (c_sequence c) (c_advertised c) = true.
Proof.
  intros Hok (c & Hch & Hsel)%select_chosen. rewrite Hsel. simpl.
  destruct (chosen_usable _ _ Hch) as [Hin Hu]. destruct (usable_parts _ _ Hu) as (Hv & Hm & Hfe).
  destruct Hok as (Hd & Hcs & Hf). rewrite Forall_forall in Hcs.
  destruct (Hcs c Hin Hv) as (Hw & Hinf & Hh). split; [done|]. exists c. do 4 (split; [done|]).
  split; [|done]. apply Hh. intros Ha. by apply Hm, Hinf.
Qed.

Definition ad_of (s : RouteSelection) : RouteAdvertisement :=
  mkAd (s_destination s) (s_generation s) (s_sequence s) (s_metric s).

Lemma mark_step e :
  entry_ok e → fst (mark_entry e) = true →
  s_valid (select e) = true ∧ entry_ok (snd (mark_entry e)) ∧
  no_farther (rank (snd (mark_entry e))) (rank e) ∧
  dominates (rank (snd (mark_entry e))) (ad_of (select e)).
Proof.
  intros Hok. unfold mark_entry. destruct (s_valid (select e)) eqn:Hv; [|done]. cbn [negb]. intros Hm. split; [done|].
  destruct (selection_ok e Hok Hv) as (Hw & c & _ & Hseq & Hgen & _ & _ & Hfe).
  rewrite <-Hseq in Hfe. destruct (feasible_in_window e _ _ Hok Hw Hfe) as [[Hi _]|[Hi Hlt]]; rewrite Hi; cbn [negb] in *.
  - cbn [fst snd]. destruct Hok as (Hd & Hcs & _). split; [by split; [|split]|]. split; [right|]; right; simpl.
    + by rewrite Hi; auto.
    + rewrite Hgen. split; [done|]. split; [done|]. right. split; [done|lia].
  - destruct Hok as (Hd & Hcs & Hf). rewrite (newer_in_window _ _ Hw (Hf Hi)) in *. cbn [fst snd negb andb] in *.
    destruct (bool_decide (fd_sequence (fd e) < s_sequence (select e)) || _) eqn:Hup; cbn [fst snd].
    + apply orb_true_iff in Hup as [Hup|Hup]; [apply bool_decide_eq_true in Hup|
        apply andb_true_iff in Hup as [Hs Hmm]; apply bool_decide_eq_true in Hs, Hmm].
      * split; [by split; [|split]|]. split; [right|]; right; simpl; rewrite ?Hi, ?Hgen; [tauto|]. split; [done|]. split; [done|]. right. split; [done|lia].
      * split; [by split; [|split]|]. split; [right|]; right; simpl; rewrite ?Hi, ?Hgen; [tauto|]. split; [done|]. split; [done|]. right. split; [done|lia].
    + split; [by split; [|split]|]. split; [by left|].
      apply orb_false_iff in Hup as [Hs Hmm]. apply bool_decide_eq_false in Hs. right. simpl. rewrite Hgen, Hi.
      split; [done|]. split; [done|]. right. destruct Hlt as [|[He _]]; [lia|]. split; [done|].
      rewrite He, bool_decide_eq_true_2 in Hmm by done. apply bool_decide_eq_false in Hmm. lia.
Qed.

End Entries.

(** ** The network *)

Record Net := mkNet { tables : NodeId → RouteTable; sent : list (NodeId * RouteAdvertisement) }.
Definition put_table (n : NodeId) (t : RouteTable) (f : NodeId → RouteTable) : NodeId → RouteTable :=
  λ k, if decide (k = n) then t else f k.

Section Network.
Context (D : NodeId).

(** Everything a node does to its table besides learning and advertising a
    finite route to [D]. *)
Inductive local (t : RouteTable) : RouteTable → Prop :=
  | local_other ad nh lm now lt : ad_destination ad ≠ D → local t (snd (consider ad nh lm now lt t))
  | local_retraction ad nh lm now lt :
      ad_metric ad = kInfiniteRouteMetric → local t (snd (consider ad nh lm now lt t))
  | local_withdraw d nh now : local t (snd (withdraw d nh now t))
  | local_invalidate nh now hold : local t (invalidate_next_hop nh now hold t)
  | local_expire now : (∀ e, find D t = Some e → buried now e = false) → local t (expire now t)
  | local_reclaim : oldest_tombstone 0 (entries_ t) None ≠ find_index D t → local t (snd (reclaim_tombstone t))
  | local_cost nh cost now : local t (snd (update_link_cost nh cost now t))
  | local_busy nh since : local t (note_next_hop_busy nh since t)
  | local_idle nh : local t (clear_next_hop_busy nh t)
  | local_evaluate now : local t (evaluate now t)
  | local_change now : local t (fst (for_each_selected_change now t))
  | local_announced d b : local t (set_announced_up d b t)
  | local_mark d : d ≠ D → local t (snd (mark_advertised d t))
  | local_self self : local t (set_self self t)
  | local_dwell ms : local t (set_tombstone_dwell ms t).

Inductive step (net : Net) : Net → Prop :=
  | step_local n t : local (tables net n) t → step net (mkNet (put_table n t (tables net)) (sent net))
  | step_origin n g seq metric lm now lt :
      in_window seq →
      step net (mkNet (put_table n (snd (consider (mkAd D g seq metric) D lm now lt (tables net n))) (tables net))
                  (sent net))
  | step_deliver n m ad lm now lt :
      (m, ad) ∈ sent net →
      step net (mkNet (put_table n (snd (consider ad m lm now lt (tables net n))) (tables net)) (sent net))
  | step_advertise n :
      fst (mark_advertised D (tables net n)) = true →
      step net (mkNet (put_table n (snd (mark_advertised D (tables net n))) (tables net))
                  ((n, ad_of (best D (tables net n))) :: sent net)).

(** No node knows [D] yet and nothing was advertised. *)
Definition initial (net : Net) : Prop := (∀ n, find D (tables net n) = None) ∧ sent net = [].

Definition reachable (net : Net) : Prop := ∃ net0, initial net0 ∧ rtc step net0 net.

(** The next-hop graph the forwarding plane follows toward [D]. *)
Definition edge (net : Net) (n m : NodeId) : Prop :=
  n ≠ D ∧ s_valid (best D (tables net n)) = true ∧ s_next_hop (best D (tables net n)) = m.

(** The entry of a node for [D]; a missing one ranks as a fresh one. *)
Definition entry_of (t : RouteTable) : Entry := default (fresh_entry D) (find D t).

Definition net_ok (net : Net) : Prop :=
  (∀ n, entry_ok D (sent net) (entry_of (tables net n))) ∧
  (∀ m ad, (m, ad) ∈ sent net → in_window (ad_sequence ad) ∧ ad_destination ad = D ∧
     dominates (rank (entry_of (tables net m))) ad).

Lemma fresh_ok snt : entry_ok D snt (fresh_entry D).
Proof. split; [done|]. split; [|done]. by repeat constructor. Qed.

Lemma entry_of_each f t :
  (∀ e, destination (f e) = destination e) → (∀ s e, entry_step D s e (f e)) →
  ∀ s, entry_step D s (entry_of t) (entry_of (each f t)).
Proof.
  intros Hd Hf s. unfold entry_of. rewrite (find_each _ _ _ Hd). destruct (find D t); simpl; [apply Hf|reflexivity].
Qed.

Lemma entry_of_same t t' : find D t' = find D t → ∀ s, entry_step D s (entry_of t) (entry_of t').
Proof. unfold entry_of. by intros ->. Qed.

Lemma consider_local_step ad nh lm now lt t s :
  (ad_destination ad = D → credible D s nh ad) →
  entry_step D s (entry_of t) (entry_of (snd (consider ad nh lm now lt t))).
Proof.
  intros Hc. destruct (consider_find ad nh lm now lt t D) as [He|(Hd & _ & _ & _ & He)]; [by apply entry_of_same|].
  unfold entry_of at 2. rewrite He. cbn [default]. by apply consider_step, Hc.
Qed.

Lemma expire_local_step now t s :
  (∀ e, find D t = Some e → buried now e = false) → entry_step D s (entry_of t) (entry_of (expire now t)).
Proof.
  intros Hb. unfold expire. set (t1 := set_entries _ t). etrans; [|apply entry_of_each; [|intros; apply expire_step]].
  - apply entry_of_same. by apply (slots_find_erase (is_dest D) (buried now) (entries_ t)).
  - intros e. unfold expire_entry, arm_tombstone, request_if_lost. by repeat case_match.
Qed.

Lemma mark_find d t :
  (fst (mark_advertised d t) = false ∧ (∀ d', find d' (snd (mark_advertised d t)) = find d' t)) ∨
  ∃ e, find d t = Some e ∧ fst (mark_advertised d t) = fst (mark_entry e) ∧
    find d (snd (mark_advertised d t)) = Some (snd (mark_entry e)) ∧
    ∀ d', d' ≠ d → find d' (snd (mark_advertised d t)) = find d' t.
Proof.
  unfold mark_advertised. destruct (find_index d t) as [i|] eqn:Hi; [|by left].
  destruct (Slots.at_ i (entries_ t)) as [e|] eqn:He; [|by left].
  assert (Hd : destination (snd (mark_entry e)) = destination e).
  { unfold mark_entry. by repeat case_match. }
  destruct (mark_entry e) as [r e'] eqn:Hm. cbn [snd fst] in *. right. exists e.
  split; [by rewrite (find_index_at _ _ _ Hi)|]. rewrite Hm. split; [done|]. split.
  - rewrite (find_put _ _ _ _ _ He Hd). by rewrite bool_decide_eq_true_2.
  - intros d' Hne. rewrite (find_put _ _ _ _ _ He Hd). rewrite bool_decide_eq_false_2; [done|].
    by eapply find_index_ne.
Qed.

Lemma local_step t t' : local t t' → ∀ s, entry_step D s (entry_of t) (entry_of t').
Proof.
  intros [ad nh lm now lt Hne|ad nh lm now lt Hinf|d nh now|nh now hold|now Hb|Hr|nh cost now|nh since|nh|
          now|now|d b|d Hd|self|ms] s.
  - by apply consider_local_step.
  - apply consider_local_step. by left.
  - destruct (withdraw_find d nh now t D) as [He|(e & He & He')]; [by apply entry_of_same|].
    unfold entry_of. rewrite He, He'. apply withdraw_step.
  - apply entry_of_each; [|intros; apply invalidate_step]. intros e.
    unfold invalidate_entry, arm_tombstone, request_if_lost. by repeat case_match.
  - by apply expire_local_step.
  - unfold reclaim_tombstone. destruct (oldest_tombstone 0 (entries_ t) None) as [i|]; [|reflexivity].
    pose proof (slots_find_release (is_dest D) (entries_ t) i ltac:(intros Hx; by apply Hr)) as Hrel.
    destruct (Slots.release i (entries_ t)) as [r sl]. by apply entry_of_same.
  - unfold update_link_cost. destruct (_ || _); [reflexivity|].
    apply entry_of_each; [|intros; apply cost_step]. intros e. unfold update_cost_entry. by case_match.
  - apply entry_of_same. unfold note_next_hop_busy. repeat case_match; done.
  - apply entry_of_same. unfold clear_next_hop_busy. repeat case_match; done.
  - apply entry_of_each; [done|intros; apply evaluate_step].
  - apply entry_of_each; [|intros; apply change_step]. intros e. simpl. unfold selected_change. by repeat case_match.
  - unfold set_announced_up. destruct (find_index d t) as [i|] eqn:Hi; [|reflexivity].
    destruct (Slots.at_ i (entries_ t)) as [e|] eqn:He; [|reflexivity].
    assert (Hd : destination (set_announced b e) = destination e) by done.
    unfold entry_of. rewrite (find_put _ _ _ D _ He Hd). case_bool_decide as HD; [|reflexivity].
    rewrite (find_index_at _ _ _ HD), He. by apply same_core_step.
  - apply entry_of_same. destruct (mark_find d t) as [[_ Hs]|(e & _ & _ & _ & Hs)]; by apply Hs.
  - by apply entry_of_same.
  - by apply entry_of_same.
Qed.

Lemma entry_ok_mono s s' e : s ⊆ s' → entry_ok D s e → entry_ok D s' e.
Proof.
  intros Hs (Hd & Hc & Hf). split; [done|]. split; [|done]. eapply Forall_impl; [done|].
  intros c Hok Hv. destruct (Hok Hv) as (Hw & Hi & Hh). split; [done|]. split; [done|].
  intros Ha. destruct (Hh Ha) as [|Hin]; [by left|right; by apply Hs].
Qed.

(** A table change that is an [entry_step] keeps the network invariant. *)
Lemma net_ok_put net n t :
  entry_step D (sent net) (entry_of (tables net n)) (entry_of t) → net_ok net →
  net_ok (mkNet (put_table n t (tables net)) (sent net)).
Proof.
  intros [Hok Hr] [He Hs]. split; simpl.
  - intros k. unfold put_table. destruct (decide (k = n)) as [->|]; [by apply Hok|done].
  - intros m ad Hin. destruct (Hs m ad Hin) as (Hw & Hd & Hdom). split; [done|]. split; [done|].
    unfold put_table. destruct (decide (m = n)) as [->|]; [|done]. by rewrite Hr.
Qed.

Lemma net_ok_advertise net n :
  fst (mark_advertised D (tables net n)) = true → net_ok net →
  net_ok (mkNet (put_table n (snd (mark_advertised D (tables net n))) (tables net))
            ((n, ad_of (best D (tables net n))) :: sent net)).
Proof.
  intros Hm [He Hs]. destruct (mark_find D (tables net n)) as [[Hf _]|(e & Hf & Hm' & Hf' & _)]; [congruence|].
  specialize (He n) as Hn. unfold entry_of in Hn. rewrite Hf in Hn. rewrite Hm' in Hm.
  destruct (mark_step D (sent net) e Hn Hm) as (Hv & Hok' & Hr & Hdom).
  assert (Hbest : best D (tables net n) = select e) by (unfold best; by rewrite Hf).
  assert (Hof : entry_of (snd (mark_advertised D (tables net n))) = snd (mark_entry e))
    by (unfold entry_of; by rewrite Hf').
  split; simpl.
  - intros k. eapply (entry_ok_mono (sent net)); [set_solver|]. unfold put_table.
    destruct (decide (k = n)) as [->|]; [by rewrite Hof|done].
  - intros m ad Hin. unfold put_table. apply elem_of_cons in Hin as [Hin|Hin].
    + injection Hin as -> ->. rewrite decide_True by done. rewrite Hof, Hbest.
      destruct (selection_ok D (sent net) e Hn Hv) as (Hw & c & _ & _ & _ & Hd & _). done.
    + destruct (Hs m ad Hin) as (Hw & Hd & Hdm). split; [done|]. split; [done|].
      destruct (decide (m = n)) as [->|]; [|done]. rewrite Hof, Hr.
      unfold entry_of in Hdm. by rewrite Hf in Hdm.
Qed.

Lemma net_ok_step net net' : step net net' → net_ok net → net_ok net'.
Proof.
  intros [n t Hl|n g seq metric lm now lt Hw|n m ad lm now lt Hin|n Hm] Hok.
  - by apply net_ok_put; [apply local_step|].
  - apply net_ok_put; [|done]. apply consider_local_step. intros _. right. by auto.
  - apply net_ok_put; [|done]. apply consider_local_step. intros _.
    destruct Hok as [_ Hs]. destruct (Hs m ad Hin) as (Hw & Hd & _). right. by auto.
  - by apply net_ok_advertise.
Qed.

Lemma net_ok_reachable net : reachable net → net_ok net.
Proof.
  intros (net0 & [Hi Hs] & Hr). assert (Hok : net_ok net0).
  { split; [|rewrite Hs; intros m ad Hin; by apply elem_of_nil in Hin].
    intros n. unfold entry_of. rewrite Hi. apply fresh_ok. }
  clear Hi Hs. induction Hr as [|x y z Hxy _ IH]; [done|]. by eapply IH, net_ok_step.
Qed.

(** A selected hop that is not the origin is strictly closer to it. *)
Lemma edge_descends net n m :
  net_ok net → edge net n m → m = D ∨
  closer (rank (entry_of (tables net m))) (rank (entry_of (tables net n))).
Proof.
  intros [He Hs] (Hn & Hv & Hm). unfold best in Hv, Hm. destruct (find D (tables net n)) as [e|] eqn:Hf; [|done].
  specialize (He n) as Hok. unfold entry_of in Hok. rewrite Hf in Hok. cbn [default] in Hok.
  destruct (selection_ok D (sent net) e Hok Hv) as (Hw & c & Hhop & Hseq & _ & _ & Hh & Hfe).
  rewrite Hseq in Hw. destruct Hh as [HD|Hin]; [left; congruence|]. right.
  rewrite <-Hm, Hhop. destruct (Hs _ _ Hin) as (_ & _ & Hdom).
  assert (Hof : entry_of (tables net n) = e) by (unfold entry_of; by rewrite Hf). rewrite Hof.
  revert Hdom. generalize (rank (entry_of (tables net (c_next_hop c)))). intros r Hdom.
  destruct (feasible_in_window D (sent net) e _ _ Hok Hw Hfe) as [[Hi _]|[Hi Hlt]];
    unfold dominates, closer, rank in *; simpl in *; rewrite Hi; intuition lia.
Qed.

Lemma path_descends net n m :
  net_ok net → tc (edge net) n m → m = D ∨
  closer (rank (entry_of (tables net m))) (rank (entry_of (tables net n))).
Proof.
  intros Hok Hp. induction Hp as [x y Hxy|x y z Hxy Hyz IH]; [by apply edge_descends|].
  destruct (edge_descends net x y Hok Hxy) as [->|Hc].
  - inversion Hyz as [? ? [Hne _]|? ? ? [Hne _]]; done.
  - destruct IH as [->|Hc']; [by left|right]. by etrans.
Qed.

(** C3: in every network state reachable from empty tables, the next hops that
    [best] selects toward [D] contain no cycle. Advertisements may be
    delivered late, repeatedly and in any order, and each node runs every
    table operation at any time with any clock and link cost; the origin's
    sequences stay below 0x8000 and no node collects the tombstone of [D]. *)
Theorem next_hops_loop_free net n : reachable net → ¬ tc (edge net) n n.
Proof.
  intros Hr Hc. destruct (path_descends net n n (net_ok_reachable net Hr) Hc) as [->|Hx].
  - inversion Hc as [? ? [Hne _]|? ? ? [Hne _]]; done.
  - by apply closer_irrefl in Hx.
Qed.

End Network.

(** Node 2 hears origin 1, advertises, and node 3 learns the route from it. *)
Module Chain.

Definition t2 : RouteTable := snd (consider (mkAd 1 0 5 0) 1 10 1000 60000 empty_table).
Definition t2' : RouteTable := snd (mark_advertised 1 t2).
Definition ad2 : RouteAdvertisement := ad_of (best 1 t2).
Definition t3 : RouteTable := snd (consider ad2 2 7 2000 60000 empty_table).
Definition net0 : Net := mkNet (λ _, empty_table) [].
Definition net1 : Net := mkNet (put_table 2 t2 (tables net0)) (sent net0).
Definition net2 : Net := mkNet (put_table 2 t2' (tables net1)) ((2, ad2) :: sent net1).
Definition net3 : Net := mkNet (put_table 3 t3 (tables net2)) (sent net2).

Lemma net3_reachable : reachable 1 net3.
Proof.
  exists net0. split; [split; [intros n; by vm_compute|done]|].
  apply rtc_l with net1; [apply (step_origin 1 net0 2 0 5 0 10 1000 60000); unfold in_window; lia|].
  apply rtc_l with net2; [apply (step_advertise 1 net1 2); by vm_compute|].
  apply rtc_once, (step_deliver 1 net2 3 2 ad2 7 2000 60000). apply list_elem_of_here.
Qed.

Lemma next_hops_loop_free_witness :
  reachable 1 net3 ∧ edge 1 net3 3 2 ∧ edge 1 net3 2 1 ∧ ¬ tc (edge 1 net3) 3 3.
Proof.
  split; [exact net3_reachable|]. split; [split; [done|split; by vm_compute]|].
  split; [split; [done|split; by vm_compute]|].
  exact (next_hops_loop_free 1 net3 3 net3_reachable).
Defined.

End Chain.
