(* ===== verification/Cobs.v ===== *)
(** * COBS framing (usb_codec.hpp, usb_codec.cpp)

    [cobs_encode] with its output buffer and back-patched code bytes,
    [cobs_decode] with its output buffer apart from or on top of its input.
    The reference definitions [enc] and [dec] work on byte lists. *)

From S2P Require Import Prelude.
#[local] Open Scope nat_scope.

(** ** The code *)

(** The loop of [cobs_encode] and the final back-patch: the buffer and
    [length]. *)
Fixpoint encode_loop (input out : list Z) (code_index length : nat) (code : Z) : nat * list Z :=
  match input with
  | [] => (length, <[code_index := code]> out)
  | byte :: rest =>
      if bool_decide (byte = 0%Z) then
        encode_loop rest (<[code_index := code]> out) length (S length) 1%Z
      else
        let out1 := <[length := byte]> out in
        let code1 := u8 (code + 1) in
        if bool_decide (code1 = 255%Z) then
          encode_loop rest (<[code_index := code1]> out1) (S length) (S (S length)) 1%Z
        else encode_loop rest out1 code_index (S length) code1
  end.

Definition cobs_encode (input out : list Z) : result (nat * list Z) :=
  guard_err (length out <? length input + length input / 254 + 1) NoCapacity "cobs output too small";;
  Ok (encode_loop input out 0 1 1%Z).

(** [memmove] of [src] to offset [at_] of the buffer. *)
Definition move_to (at_ : nat) (src buf : list Z) : list Z :=
  take at_ buf ++ src ++ drop (at_ + length src) buf.

(** The loop of [cobs_decode].  With [inplace] the bytes are read from the
    buffer being written, as when [out.data == input.data]. *)
Fixpoint decode_loop (fuel : nat) (inplace : bool) (input : list Z) (size : nat) (out : list Z)
    (out_size index written : nat) : result (nat * list Z) :=
  match fuel with
  | O => Err InternalError "unreachable"
  | S fuel' =>
      if size <=? index then Ok (written, out)
      else
        let src := if inplace then out else input in
        let code := default 0%Z (src !! index) in
        if bool_decide (code = 0%Z) then Err ProtocolError "INVALID_COBS"
        else
          let index1 := S index in
          let next := index1 + Z.to_nat code - 1 in
          if size <? next then Err ProtocolError "INVALID_COBS"
          else
            let chunk := next - index1 in
            let implicit_zero := negb (bool_decide (code = 255%Z)) && (next <? size) in
            if out_size <? written + chunk + (if implicit_zero then 1 else 0)
            then Err NoCapacity "cobs decode overflow"
            else
              let out1 := move_to written (take chunk (drop index1 src)) out in
              let written1 := written + chunk in
              if implicit_zero
              then decode_loop fuel' inplace input size (<[written1 := 0%Z]> out1) out_size next (S written1)
              else decode_loop fuel' inplace input size out1 out_size next written1
  end.

(** [memchr(input, 0)] found nothing. *)
Definition no_zero (bs : list Z) : bool := forallb (λ b, negb (bool_decide (b = 0%Z))) bs.

Definition cobs_decode (input out : list Z) : result (nat * list Z) :=
  guard_err (negb (no_zero input)) ProtocolError "INVALID_COBS";;
  decode_loop (S (length input)) false input (length input) out (length out) 0 0.

(** The first [size] bytes of a buffer decoded onto the buffer itself, with
    [out_size] bytes of it writable. *)
Definition cobs_decode_inplace (buf : list Z) (size out_size : nat) : result (nat * list Z) :=
  guard_err (negb (no_zero (take size buf))) ProtocolError "INVALID_COBS";;
  decode_loop (S size) true [] size buf out_size 0 0.

(** ** Reference definitions *)

(** [blk] is the open block. *)
Fixpoint enc (blk input : list Z) : list Z :=
  match input with
  | [] => Z.of_nat (S (length blk)) :: blk
  | b :: rest =>
      if bool_decide (b = 0%Z) then Z.of_nat (S (length blk)) :: blk ++ enc [] rest
      else if bool_decide (length blk = 253) then 255%Z :: (blk ++ [b]) ++ enc [] rest
      else enc (blk ++ [b]) rest
  end.

(** What the decoder produces, block by block, into [cap] bytes. *)
Fixpoint dec (fuel cap : nat) (bs : list Z) : result (list Z) :=
  match fuel, bs with
  | O, _ => Err InternalError "unreachable"
  | _, [] => Ok []
  | S fuel', code :: rest =>
      if bool_decide (code = 0%Z) then Err ProtocolError "INVALID_COBS"
      else
        let chunk := Z.to_nat code - 1 in
        if length rest <? chunk then Err ProtocolError "INVALID_COBS"
        else
          let tail := drop chunk rest in
          let zero := if negb (bool_decide (code = 255%Z)) && (0 <? length tail) then [0%Z] else [] in
          if cap <? chunk + length zero then Err NoCapacity "cobs decode overflow"
          else y ← dec fuel' (cap - (chunk + length zero)) tail; Ok (take chunk rest ++ zero ++ y)
  end.

(** ** Encoder *)

Definition nonzero (bs : list Z) : Prop := Forall (λ b, b ≠ 0%Z) bs.

Lemma no_zero_nonzero bs : no_zero bs = true ↔ nonzero bs.
Proof.
  unfold no_zero, nonzero.
  induction bs as [|b bs IH]; simpl; [done|]. rewrite andb_true_iff, IH, Forall_cons, negb_true_iff, bool_decide_eq_false.
  done.
Qed.

Lemma enc_bound blk input :
  length blk ≤ 253 →
  S (length blk) ≤ length (enc blk input) ≤
    S (length blk + length input + (length blk + length input) / 254).
Proof.
  revert blk. induction input as [|b rest IH]; intros blk Hb; cbn [enc].
  - cbn [length]. lia.
  - assert (H0 := IH [] ltac:(simpl; lia)). cbn [length Nat.add] in H0. cbn [length].
    case_bool_decide; [|case_bool_decide as Hk].
    + cbn [length]. rewrite length_app.
      pose proof (Nat.Div0.div_le_mono (length rest) (length blk + S (length rest)) 254 ltac:(lia)). lia.
    + cbn [length]. rewrite !length_app. cbn [length]. rewrite Hk.
      replace (253 + S (length rest)) with (length rest + 1 * 254) by lia. rewrite Nat.div_add by lia. lia.
    + specialize (IH (blk ++ [b])). rewrite length_app in IH. cbn [length] in IH.
      replace (length blk + S (length rest)) with (length blk + 1 + length rest) by lia. lia.
Qed.

Lemma enc_bytes blk input :
  length blk ≤ 253 → nonzero blk → bytes_ok blk → bytes_ok input →
  nonzero (enc blk input) ∧ bytes_ok (enc blk input).
Proof.
  revert blk. induction input as [|b rest IH]; intros blk Hb Hnz Hok Hin; cbn [enc].
  - split; constructor; auto; unfold in_range; lia.
  - apply Forall_cons in Hin as [Hbb Hin]. destruct (IH []) as [H1 H2]; [simpl; lia|constructor|constructor|done|].
    case_bool_decide; [|case_bool_decide].
    + split; (constructor; [unfold in_range; lia|by apply Forall_app]).
    + split; (constructor; [unfold in_range; lia|]); apply Forall_app; (split; [|done]); apply Forall_app;
        (split; [done|by constructor]).
    + apply IH; [rewrite length_app; simpl; lia| | |done]; apply Forall_app; (split; [done|by constructor]).
Qed.

Lemma insert_at {A} (n : nat) (pre : list A) x y l :
  n = length pre → <[n := y]> (pre ++ x :: l) = pre ++ y :: l.
Proof. intros ->. rewrite insert_app_r_alt, Nat.sub_diag by lia. done. Qed.

Lemma drop_pred {A} (n : nat) (f : A) free : 1 ≤ n → drop n (f :: free) = drop (n - 1) free.
Proof. destruct n; [lia|]. simpl. by rewrite Nat.sub_0_r. Qed.

(** The buffer written by the loop: the closed blocks, the open block with
    its code slot, the free space. *)
Lemma encode_loop_enc input : ∀ pre x blk free i n code,
  i = length pre → n = length pre + S (length blk) → code = Z.of_nat (S (length blk)) →
  length blk ≤ 253 → length (enc blk input) ≤ S (length blk) + length free →
  encode_loop input (pre ++ x :: blk ++ free) i n code =
  (length pre + length (enc blk input),
   pre ++ enc blk input ++ drop (length (enc blk input) - S (length blk)) free).
Proof.
  induction input as [|b rest IH]; intros pre x blk free i n code -> -> -> Hb Hfree; cbn [encode_loop enc] in *.
  - rewrite insert_at by done. cbn [length]. by rewrite Nat.sub_diag, drop_0.
  - destruct (enc_bound [] rest) as [Hlo _]; [simpl; lia|]. cbn [length] in Hlo.
    assert (Hcode : u8 (Z.of_nat (S (length blk)) + 1) = Z.of_nat (S (S (length blk))))
      by (unfold wrap; rewrite Z.mod_small; lia).
    rewrite Hcode. destruct (decide (b = 0%Z)) as [Hz|Hz].
    + rewrite !bool_decide_eq_true_2 in * by done. cbn [length] in Hfree. rewrite length_app in Hfree.
      destruct free as [|f free]; [simpl in *; lia|]. rewrite insert_at by done.
      replace (pre ++ Z.of_nat (S (length blk)) :: blk ++ f :: free)
        with ((pre ++ Z.of_nat (S (length blk)) :: blk) ++ f :: [] ++ free) by (by rewrite <-app_assoc).
      rewrite IH; rewrite ?length_app; cbn [length] in *; try lia.
      f_equal; [rewrite length_app; lia|]. rewrite length_app.
      replace (S (length blk + length (enc [] rest)) - S (length blk)) with (length (enc [] rest)) by lia.
      rewrite drop_pred by lia. rewrite <-!app_assoc. cbn [app]. by rewrite <-app_assoc.
    + rewrite !(bool_decide_eq_false_2 (b = 0%Z)) in * by done.
      assert (Happ : ∀ f free', <[length pre + S (length blk) := b]> (pre ++ x :: blk ++ f :: free') =
                pre ++ x :: (blk ++ [b]) ++ free').
      { intros f free'. replace (pre ++ x :: blk ++ f :: free') with ((pre ++ x :: blk) ++ f :: free')
          by (by rewrite <-app_assoc). rewrite insert_at by (rewrite length_app; simpl; lia).
        by rewrite <-!app_assoc. }
      destruct (decide (length blk = 253)) as [Hk|Hk].
      * rewrite (bool_decide_eq_true_2 (length blk = 253)) in * by done. rewrite bool_decide_eq_true_2 by lia.
        cbn [length] in Hfree. rewrite !length_app in Hfree. cbn [length] in Hfree.
        destruct free as [|f1 [|f2 free]]; [simpl in *; lia|simpl in *; lia|].
        rewrite Happ, insert_at by done.
        replace (pre ++ Z.of_nat (S (S (length blk))) :: (blk ++ [b]) ++ f2 :: free)
          with ((pre ++ 255%Z :: blk ++ [b]) ++ f2 :: [] ++ free)
          by (rewrite <-app_assoc; cbn [app]; repeat f_equal; lia).
        rewrite IH; rewrite ?length_app; cbn [length]; rewrite ?length_app; cbn [length]; try (cbn [length] in *; lia).
        f_equal; [rewrite ?length_app; cbn [length]; lia|].
        rewrite ?length_app. cbn [length].
        replace (S (length blk + 1 + length (enc [] rest)) - S (length blk)) with (S (length (enc [] rest))) by lia.
        cbn [skipn]. rewrite drop_pred by lia. rewrite <-!app_assoc. cbn [app]. by rewrite <-!app_assoc.
      * rewrite (bool_decide_eq_false_2 (length blk = 253)) in * by done. rewrite bool_decide_eq_false_2 by lia.
        assert (Hl : length (blk ++ [b]) ≤ 253) by (rewrite length_app; simpl; lia).
        destruct (enc_bound (blk ++ [b]) rest Hl) as [Hlo' _]. rewrite length_app in Hlo'. cbn [length] in Hlo'.
        destruct free as [|f free]; [simpl in *; lia|]. rewrite Happ.
        rewrite IH; rewrite ?length_app; cbn [length] in *; try lia. f_equal. f_equal. f_equal.
        replace (length (enc (blk ++ [b]) rest) - S (length blk + 1))
          with (length (enc (blk ++ [b]) rest) - S (length blk) - 1) by lia.
        rewrite <-(drop_pred _ f) by lia. done.
Qed.

(** [cobs_encode] writes [enc] at the front of the output buffer. *)
Lemma cobs_encode_enc input out :
  length input + length input / 254 + 1 ≤ length out →
  cobs_encode input out =
    Ok (length (enc [] input), enc [] input ++ drop (length (enc [] input)) out) ∧
  length (enc [] input) ≤ length input + length input / 254 + 1.
Proof.
  intros Hout. destruct (enc_bound [] input) as [Hlo Hhi]; [simpl; lia|]. cbn [length Nat.add] in *.
  unfold cobs_encode. rewrite guard_pass by (apply Nat.ltb_ge; lia). split; [|lia]. f_equal.
  destruct out as [|x out]; [simpl in *; lia|]. cbn [length] in Hout.
  pose proof (encode_loop_enc input [] x [] out 0 1 1%Z) as He. cbn [app length Nat.add] in He.
  rewrite He; [|done|done|done|lia|lia]. by rewrite drop_pred by lia.
Qed.

(** ** Decoder *)

(** Decoding an encoding, with room for it. *)
Lemma dec_enc input : ∀ fuel cap blk,
  length blk ≤ 253 → length (enc blk input) < fuel → length blk + length input ≤ cap →
  dec fuel cap (enc blk input) = Ok (blk ++ input).
Proof.
  induction input as [|b rest IH]; intros fuel cap blk Hb Hfuel Hcap; cbn [enc] in *.
  - destruct fuel as [|[|fuel]]; [simpl in *; lia|simpl in *; lia|]. cbn [dec].
    rewrite bool_decide_eq_false_2 by lia.
    replace (Z.to_nat (Z.of_nat (S (length blk))) - 1) with (length blk) by lia.
    rewrite (proj2 (Nat.ltb_ge _ _)) by lia. rewrite drop_all. cbn [length]. rewrite andb_false_r. cbn [length].
    rewrite (proj2 (Nat.ltb_ge _ _)) by lia. cbn [dec]. rewrite bind_Ok, firstn_all. done.
  - destruct (enc_bound [] rest) as [Hlo _]; [simpl; lia|]. cbn [length] in *. destruct fuel as [|fuel]; [lia|].
    destruct (decide (b = 0%Z)) as [->|Hz]; [|destruct (decide (length blk = 253)) as [Hk|Hk]].
    + rewrite bool_decide_eq_true_2 in * by done. cbn [length] in Hfuel. rewrite length_app in Hfuel. cbn [dec].
      rewrite bool_decide_eq_false_2 by lia.
      replace (Z.to_nat (Z.of_nat (S (length blk))) - 1) with (length blk) by lia.
      rewrite (proj2 (Nat.ltb_ge _ _)) by (rewrite length_app; lia). rewrite drop_app_length, take_app_length.
      rewrite (bool_decide_eq_false_2 (_ = 255%Z)) by lia. rewrite (proj2 (Nat.ltb_lt 0 _)) by lia. cbn [negb andb length].
      rewrite (proj2 (Nat.ltb_ge _ _)) by lia. rewrite IH by (cbn [length]; lia). by rewrite bind_Ok.
    + rewrite (bool_decide_eq_false_2 (b = 0%Z)), bool_decide_eq_true_2 in * by done. cbn [length] in Hfuel.
      rewrite !length_app in Hfuel. cbn [length] in Hfuel. cbn [dec]. rewrite bool_decide_eq_false_2 by lia.
      replace (Z.to_nat 255 - 1) with (length (blk ++ [b])) by (rewrite length_app; simpl; lia).
      rewrite (proj2 (Nat.ltb_ge _ _)) by (rewrite (length_app (_ ++ _)); lia).
      rewrite drop_app_length, take_app_length. rewrite (bool_decide_eq_true_2 (255%Z = 255%Z)) by done. cbn [negb andb length].
      rewrite (proj2 (Nat.ltb_ge _ _)) by (rewrite length_app; simpl; lia).
      rewrite IH by (rewrite ?length_app; cbn [length]; lia). rewrite bind_Ok. cbn [app]. by rewrite <-app_assoc.
    + rewrite (bool_decide_eq_false_2 (b = 0%Z)), bool_decide_eq_false_2 in * by done.
      rewrite IH; [by rewrite <-app_assoc| | |]; rewrite ?length_app; cbn [length]; lia.
Qed.

Lemma length_move_to at_ src buf : at_ + length src ≤ length buf → length (move_to at_ src buf) = length buf.
Proof. intros. unfold move_to. rewrite !length_app, length_take, length_drop. lia. Qed.

Lemma drop_move_to k at_ src buf :
  at_ + length src ≤ k → at_ + length src ≤ length buf → drop k (move_to at_ src buf) = drop k buf.
Proof.
  intros Hk Hl. unfold move_to. rewrite app_assoc, drop_app_ge by (rewrite length_app, length_take; lia).
  rewrite drop_drop. f_equal. rewrite length_app, length_take. lia.
Qed.

Lemma take_move_to at_ src buf :
  at_ + length src ≤ length buf → take (at_ + length src) (move_to at_ src buf) = take at_ buf ++ src.
Proof.
  intros Hl. unfold move_to. rewrite app_assoc, take_app_le by (rewrite length_app, length_take; lia).
  apply take_ge. rewrite length_app, length_take. lia.
Qed.

Lemma take_S_insert (n : nat) (x : Z) buf :
  n < length buf → take (S n) (<[n := x]> buf) = take n buf ++ [x].
Proof.
  intros Hl. rewrite <-(take_drop n buf) at 1. assert (Hn : n = length (take n buf)) by (rewrite length_take; lia).
  rewrite Hn at 2. rewrite insert_app_r_alt, Nat.sub_diag by lia. destruct (drop n buf) as [|z r] eqn:Hd.
  { apply (f_equal length) in Hd. rewrite length_drop in Hd. simpl in Hd. lia. }
  cbn [insert list_insert]. rewrite take_app_ge by lia. rewrite <-Hn. replace (S n - n) with 1 by lia. done.
Qed.

(** The decoder from any point: [todo] is the unread input; in place, what
    is written stays at or before what is read. *)
Lemma decode_loop_dec inplace input fuel : ∀ size out out_size index written todo,
  out_size ≤ length out → written ≤ out_size → size = index + length todo →
bytes_ok todo →
  (inplace = true → written ≤ index ∧ size ≤ length out) →
  take (length todo) (drop index (if inplace then out else input)) = todo →
  (∃ y out', dec fuel (out_size - written) todo = Ok y ∧
     decode_loop fuel inplace input size out out_size index written = Ok (written + length y, out') ∧
     take (written + length y) out' = take written out ++ y ∧ length out' = length out ∧
     written + length y ≤ out_size) ∨
  (∃ c d, dec fuel (out_size - written) todo = Err c d ∧
     decode_loop fuel inplace input size out out_size index written = Err c d).
Proof.
  induction fuel as [|fuel IH]; intros size out out_size index written todo Hos Hw Hsize Hok Hin Htodo;
    [right; by eexists _, _|].
  destruct todo as [|code rest]; cbn [dec decode_loop length] in *.
  { left. exists [], out. rewrite (proj2 (Nat.leb_le _ _)) by lia. rewrite Nat.add_0_r, app_nil_r. done. }
  set (src := if inplace then out else input) in *.
  assert (Hsrc : ∃ more, drop index src = code :: rest ++ more).
  { destruct (drop index src) as [|c s] eqn:Hd; [done|]. cbn [take] in Htodo. injection Htodo as -> Hr.
    exists (drop (length rest) s). by rewrite <-Hr at 1; rewrite take_drop. }
  destruct Hsrc as [more Hsrc].
  assert (Hcode : src !! index = Some code).
  { rewrite <-(Nat.add_0_r index), <-lookup_drop, Hsrc. done. }
  assert (Hrest : drop (S index) src = rest ++ more).
  { rewrite <-Nat.add_1_r, <-drop_drop, Hsrc. done. }
  rewrite (proj2 (Nat.leb_gt _ _)) by lia. rewrite Hcode. change (default 0%Z (Some code)) with code.
  destruct (decide (code = 0%Z)) as [->|Hnz]; [rewrite !bool_decide_eq_true_2 by done; right; by eexists _, _|].
  rewrite !(bool_decide_eq_false_2 (code = 0%Z)) by done.
  apply Forall_cons in Hok as [[Hc0 Hc1] Hok].
  set (chunk := Z.to_nat code - 1).
  replace (S index + Z.to_nat code - 1) with (S index + chunk) by (unfold chunk; lia).
  replace (S index + chunk - S index) with chunk by lia.
  destruct (decide (length rest < chunk)) as [Hlong|Hlong].
  { rewrite (proj2 (Nat.ltb_lt (length rest) _)), (proj2 (Nat.ltb_lt size _)) by lia. right; by eexists _, _. }
  rewrite (proj2 (Nat.ltb_ge (length rest) _)), (proj2 (Nat.ltb_ge size _)) by lia. rewrite length_drop.
  assert (Hb : (S index + chunk <? size) = (0 <? length rest - chunk)).
  { apply eq_true_iff_eq. rewrite !Nat.ltb_lt. lia. }
  rewrite Hb. set (zb := negb (bool_decide (code = 255%Z)) && (0 <? length rest - chunk)).
  assert (Hz : length (if zb then [0%Z] else []) = if zb then 1 else 0) by (by destruct zb). rewrite Hz.
  assert (Hzb : zb = true → chunk < length rest) by (unfold zb; rewrite andb_true_iff, Nat.ltb_lt; lia).
  rewrite <-(Nat.add_assoc written). set (step := chunk + (if zb then 1 else 0)) in *.
  destruct (decide (out_size < written + step)) as [Hfull|Hfull].
  { rewrite (proj2 (Nat.ltb_lt _ step)), (proj2 (Nat.ltb_lt out_size _)) by lia. right; by eexists _, _. }
  rewrite (proj2 (Nat.ltb_ge _ step)), (proj2 (Nat.ltb_ge out_size _)) by lia.
  rewrite Hrest, take_app_le by lia. set (blk := take chunk rest).
  assert (Hblk : length blk = chunk) by (unfold blk; rewrite length_take; lia).
  set (out1 := move_to written blk out). set (out2 := if zb then <[written + chunk := 0%Z]> out1 else out1).
  assert (Hstep : step = chunk + (if zb then 1 else 0)) by done. clearbody step.
  assert (Hl1 : length out1 = length out) by (unfold out1; apply length_move_to; destruct zb; lia).
  assert (Hl2 : length out2 = length out) by (unfold out2; destruct zb; rewrite ?length_insert; done).
  assert (Ht2 : take (written + step) out2 = take written out ++ blk ++ (if zb then [0%Z] else [])).
  { unfold out2. destruct zb.
    - rewrite Hstep, Nat.add_assoc, Nat.add_1_r, take_S_insert by lia. unfold out1.
      rewrite <-Hblk, take_move_to by lia. by rewrite <-app_assoc.
    - rewrite Hstep, Nat.add_0_r, app_nil_r. unfold out1. rewrite <-Hblk. apply take_move_to. lia. }
  specialize (IH size out2 out_size (S index + chunk) (written + step) (drop chunk rest)).
  rewrite length_drop, Hl2 in IH.
  replace (out_size - (written + step)) with (out_size - written - step) in IH by lia.
  assert (Hloop : (if zb then decode_loop fuel inplace input size (<[written + chunk := 0%Z]> out1) out_size
                    (S index + chunk) (S (written + chunk))
                  else decode_loop fuel inplace input size out1 out_size (S index + chunk) (written + chunk)) =
                 decode_loop fuel inplace input size out2 out_size (S index + chunk) (written + step)).
  { unfold out2. destruct zb; f_equal; lia. }
  rewrite Hloop. destruct IH as [(y & out' & Hy & Hd & Ht & Hl & Hle)|(c & d & Hy & Hd)].
  - done.
  - lia.
  - lia.
  - by apply Forall_drop.
  - intros Hi. destruct (Hin Hi). destruct zb; lia.
  - assert (Hsame : drop (S index + chunk) (if inplace then out2 else input) = drop (S index + chunk) src).
    { unfold src. destruct inplace; [|done]. destruct (Hin eq_refl). unfold out2.
      assert (Hd1 : drop (S index + chunk) out1 = drop (S index + chunk) out)
        by (unfold out1; apply drop_move_to; lia).
      destruct zb; [|exact Hd1]. rewrite drop_insert_lt by lia. exact Hd1. }
    rewrite Hsame, <-drop_drop, Hrest, drop_app_le by lia.
    rewrite take_app_le by (rewrite length_drop; lia). apply take_ge. rewrite length_drop. lia.
  - left. exists (blk ++ (if zb then [0%Z] else []) ++ y), out'. rewrite Hy, Hd, bind_Ok.
    rewrite !length_app, Hz, Hblk. split; [done|].
    replace (written + step + length y) with (written + (chunk + ((if zb then 1 else 0) + length y))) in * by lia.
    split; [done|]. split; [|done]. by rewrite Ht, Ht2, <-!app_assoc.
  - right. exists c, d. rewrite Hy, Hd. done.
Qed.

(** ** Results *)

(** A decoder result as its status, length and decoded bytes. *)
Definition decoded (r : result (nat * list Z)) : result (list Z) :=
  '(n, out) ← r; Ok (take n out).

Lemma cobs_decode_dec input out :
  bytes_ok input → nonzero input →
  (∃ y out', dec (S (length input)) (length out) input = Ok y ∧ cobs_decode input out = Ok (length y, out') ∧
     take (length y) out' = y ∧ length out' = length out ∧ length y ≤ length out) ∨
  (∃ c d, dec (S (length input)) (length out) input = Err c d ∧ cobs_decode input out = Err c d).
Proof.
  intros Hok Hnz. unfold cobs_decode. rewrite guard_pass by (by apply negb_false_iff, no_zero_nonzero).
  pose proof (decode_loop_dec false input (S (length input)) (length input) out (length out) 0 0 input) as Hd.
  rewrite Nat.sub_0_r in Hd. apply Hd; [lia|lia|lia|done|done|]. rewrite drop_0. apply firstn_all.
Qed.

Lemma cobs_decode_inplace_dec buf size out_size :
  bytes_ok (take size buf) → nonzero (take size buf) → size ≤ length buf → out_size ≤ length buf →
  (∃ y out', dec (S size) out_size (take size buf) = Ok y ∧
     cobs_decode_inplace buf size out_size = Ok (length y, out') ∧
     take (length y) out' = y ∧ length out' = length buf ∧ length y ≤ out_size) ∨
  (∃ c d, dec (S size) out_size (take size buf) = Err c d ∧ cobs_decode_inplace buf size out_size = Err c d).
Proof.
  intros Hok Hnz Hs Ho. unfold cobs_decode_inplace. rewrite guard_pass by (by apply negb_false_iff, no_zero_nonzero).
  pose proof (decode_loop_dec true [] (S size) size buf out_size 0 0 (take size buf)) as Hd.
  rewrite Nat.sub_0_r, length_take, Nat.min_l in Hd by lia.
  apply Hd; [lia|lia|lia|done|by intros _; split; [lia|]|]. by rewrite drop_0.
Qed.

(** With the output space the code asks for, encoding succeeds inside the
    buffer, uses at most n + n/254 + 1 bytes, none of them zero, and decodes
    to the input in any buffer that holds it. *)
Lemma cobs_roundtrip input out out2 :
  bytes_ok input → length input + length input / 254 + 1 ≤ length out → length input ≤ length out2 →
  ∃ n out', cobs_encode input out = Ok (n, out') ∧ length out' = length out ∧
    n ≤ length input + length input / 254 + 1 ∧ nonzero (take n out') ∧
    decoded (cobs_decode (take n out') out2) = Ok input.
Proof.
  intros Hok Hout Hout2. destruct (cobs_encode_enc input out Hout) as [He Hn].
  exists (length (enc [] input)), (enc [] input ++ drop (length (enc [] input)) out). split; [exact He|].
  split; [rewrite length_app, length_drop; lia|]. split; [exact Hn|]. rewrite take_app_length.
  destruct (enc_bytes [] input) as [Hnz Hob]; [simpl; lia|constructor|constructor|done|]. split; [done|].
  assert (Hdec := dec_enc input (S (length (enc [] input))) (length out2) [] ltac:(simpl; lia) ltac:(lia) ltac:(simpl; lia)).
  destruct (cobs_decode_dec (enc [] input) out2 Hob Hnz) as [(y & o & Hy & Hd & Ht & _)|(c & d & Hy & _)];
    rewrite Hdec in Hy; [|done].
  injection Hy as <-. rewrite Hd. unfold decoded. rewrite bind_Ok. by rewrite Ht.
Qed.

Lemma cobs_roundtrip_witness :
  let input := [17%Z; 0%Z; 0%Z; 34%Z] in
  let out := replicate 5 170%Z in
  (bytes_ok input ∧ length input + length input / 254 + 1 ≤ length out) ∧
  cobs_encode input out = Ok (5, [2%Z; 17%Z; 1%Z; 2%Z; 34%Z]) ∧
  ∃ n out', cobs_encode input out = Ok (n, out') ∧ decoded (cobs_decode (take n out') (replicate 4 0%Z)) = Ok input.
Proof.
  intros input out. assert (Hok : bytes_ok input) by (apply (bool_decide_unpack _); by vm_compute).
  assert (Ho : length input + length input / 254 + 1 ≤ length out) by (vm_compute; lia).
  assert (Ho2 : length input ≤ length (replicate 4 0%Z)) by (vm_compute; lia).
  split; [done|]. split; [by vm_compute|].
  destruct (cobs_roundtrip input out (replicate 4 0%Z) Hok Ho Ho2) as (n & out' & He & _ & _ & _ & Hd).
  by exists n, out'.
Defined.

(** Decoding onto the input buffer itself gives the same status, length and
    bytes as decoding into a separate buffer of the same size, for every
    input, malformed ones included. *)
Lemma cobs_inplace_equivalent buf size out_size out :
  bytes_ok (take size buf) → size ≤ length buf → out_size ≤ length buf → length out = out_size →
  decoded (cobs_decode_inplace buf size out_size) = decoded (cobs_decode (take size buf) out).
Proof.
  intros Hok Hs Ho <-. assert (Hlen : length (take size buf) = size) by (rewrite length_take; lia).
  destruct (no_zero (take size buf)) eqn:Hnz.
  - apply no_zero_nonzero in Hnz. pose proof (cobs_decode_dec (take size buf) out Hok Hnz) as H1. rewrite Hlen in H1.
    destruct (cobs_decode_inplace_dec buf size (length out) Hok Hnz Hs Ho) as [(y & o & Hy & Hd & Ht & _)|(c & d & Hy & Hd)];
      destruct H1 as [(y' & o' & Hy' & Hd' & Ht' & _)|(c' & d' & Hy' & Hd')]; rewrite Hy in Hy'; simplify_eq;
      rewrite Hd, Hd'; [|done]. unfold decoded. rewrite !bind_Ok. by rewrite Ht, Ht'.
  - unfold cobs_decode_inplace, cobs_decode. rewrite Hnz. done.
Qed.

Lemma cobs_inplace_equivalent_witness :
  let buf := [2%Z; 17%Z; 1%Z; 2%Z; 34%Z; 99%Z] in
  (bytes_ok (take 5 buf) ∧ 5 ≤ length buf) ∧
  decoded (cobs_decode_inplace buf 5 4) = decoded (cobs_decode (take 5 buf) (replicate 4 0%Z)) ∧
  decoded (cobs_decode_inplace buf 5 4) = Ok [17%Z; 0%Z; 0%Z; 34%Z].
Proof.
  intros buf. assert (Hok : bytes_ok (take 5 buf)) by (apply (bool_decide_unpack _); by vm_compute).
  assert (H5 : 5 ≤ length buf) by (vm_compute; lia). assert (H4 : 4 ≤ length buf) by (vm_compute; lia).
  split; [done|]. split; [|by vm_compute].
  exact (cobs_inplace_equivalent buf 5 4 (replicate 4 0%Z) Hok H5 H4 eq_refl).
Defined.
