(* ===== verification/UsbFrame.v ===== *)
(** * USB frames (usb_codec.hpp, usb_codec.cpp)

    [encode_frame], [encode_frame_inplace] and [decode_frame]: the header and
    body, the CRC over them, and the COBS wire form with its delimiter.  A
    [ByteView] is the list of its bytes. *)

From S2P Require Import Prelude ByteIO Crc32 Cobs.
#[local] Open Scope nat_scope.

Definition kHeaderSize : nat := 26.
Definition kCrcSize : nat := 4.
Definition kMaxDecodedFrame : nat := Z.to_nat 4096.
Definition kMaxBodySize : nat := kMaxDecodedFrame - kHeaderSize - kCrcSize.
Definition encoded_frame_bound (decoded : nat) : nat := decoded + decoded / 254 + 2.
Definition kMagic : Z := 0x524C5531.
Definition kProtocolVersion : Z := 2.

Inductive FrameKind :=
  | Hello | HelloAck | DataToMesh | DataFromMesh | DeliveryEvent | HostOps
  | Credit | Diagnostic | Error | KeepAlive.
#[global] Instance FrameKind_eq_dec : EqDecision FrameKind.
Proof. solve_decision. Defined.

Definition kind_byte (k : FrameKind) : Z :=
  match k with
  | Hello => 1 | HelloAck => 2 | DataToMesh => 16 | DataFromMesh => 17 | DeliveryEvent => 18
  | HostOps => 19 | Credit => 32 | Diagnostic => 33 | Error => 34 | KeepAlive => 35
  end%Z.

(** The [switch] of [decode_frame]. *)
Definition kind_of_byte (b : Z) : option FrameKind :=
  match b with
  | 1 => Some Hello | 2 => Some HelloAck | 16 => Some DataToMesh | 17 => Some DataFromMesh
  | 18 => Some DeliveryEvent | 19 => Some HostOps | 32 => Some Credit | 33 => Some Diagnostic
  | 34 => Some Error | 35 => Some KeepAlive | _ => None
  end%Z.

Definition is_control_kind (k : FrameKind) : bool :=
  match k with Hello | HelloAck | Credit | KeepAlive | Error => true | _ => false end.

Record UsbFrame := mkFrame { kind : FrameKind; flags : Z; session : Z; request : Z; body : list Z }.

(** ** Encoding *)

Definition write_header (k : FrameKind) (flags session request : Z) (body_size : nat) : M ByteWriter unit :=
  Writer.write_u32 kMagic;; Writer.write_u8 kProtocolVersion;; Writer.write_u8 (kind_byte k);;
  Writer.write_u16 flags;; Writer.write_u64 session;; Writer.write_u64 request;;
  Writer.write_u16 (u16 (Z.of_nat body_size)).

(** [out.data[encoded++] = 0; written = encoded;] *)
Definition delimit (r : nat * list Z) : nat * list Z := (S (fst r), <[fst r := 0%Z]> (snd r)).

Definition too_large (body_size : nat) : bool :=
  (kMaxBodySize <? body_size) || (Z.to_nat 0xFFFF <? body_size).

(** [write_bytes(body)] and the trailer, computed over the bytes before it. *)
Definition write_crc : M ByteWriter unit :=
  w ← getS; Writer.write_u32 (crc32_iso_hdlc (take (Writer.size w) (default [] (w_target w)))).

Definition encode_frame (k : FrameKind) (flags session request : Z) (body scratch out : list Z)
  : result (nat * list Z) :=
  guard_err (too_large (length body)) InvalidArgument "FRAME_TOO_LARGE";;
  let decoded_need := kHeaderSize + length body + kCrcSize in
  guard_err (length out <? encoded_frame_bound decoded_need) NoCapacity "frame output too small";;
  guard_err (length scratch <? decoded_need) NoCapacity "frame scratch too small";;
  '(size, buf) ← run_writer (write_header k flags session request (length body);; Writer.write_bytes body;; write_crc)
                   (take decoded_need scratch);
  r ← cobs_encode (take size buf) out;
  Ok (delimit r).

(** [buffer.data[at + i] = byte i of crc]. *)
Definition store_crc (at_ : nat) (crc : Z) (buf : list Z) : list Z :=
  <[at_ + 3 := u8 crc]> (<[at_ + 2 := u8 (Z.shiftr crc 8)]>
    (<[at_ + 1 := u8 (Z.shiftr crc 16)]> (<[at_ := u8 (Z.shiftr crc 24)]> buf))).

Definition encode_frame_inplace (k : FrameKind) (flags session request : Z) (buffer : list Z) (body_size : nat)
    (out : list Z) : result (nat * list Z) :=
  guard_err (too_large body_size) InvalidArgument "FRAME_TOO_LARGE";;
  let decoded_need := kHeaderSize + body_size + kCrcSize in
  guard_err ((length buffer <? decoded_need) || (length out <? encoded_frame_bound decoded_need))
    NoCapacity "frame buffer too small";;
  let moved := move_to kHeaderSize (take body_size buffer) buffer in
  '(_, hdr) ← run_writer (write_header k flags session request body_size) (take kHeaderSize moved);
  let framed := hdr ++ drop kHeaderSize moved in
  let crc := crc32_iso_hdlc (take (kHeaderSize + body_size) framed) in
  r ← cobs_encode (take decoded_need (store_crc (kHeaderSize + body_size) crc framed)) out;
  Ok (delimit r).

(** ** Decoding *)

(** A read whose status the code discards leaves its out-parameter at 0. *)
Definition attempt (m : M ByteReader Z) : M ByteReader Z := λ r,
  match m r with (Ok a, r') => (Ok a, r') | (Err _ _, r') => (Ok 0%Z, r') end.

Definition read_magic : M ByteReader unit := λ r,
  match Reader.read_u32 r with
  | (Ok m, r') => if bool_decide (m = kMagic) then (Ok tt, r') else (Err ProtocolError "INVALID_MAGIC", r')
  | (Err _ _, r') => (Err ProtocolError "INVALID_MAGIC", r')
  end.

(** The header up to [body_len]; kind, flags, session, request, body_len. *)
Definition read_header : M ByteReader (FrameKind * Z * Z * Z * Z) :=
  read_magic;;
  version ← attempt Reader.read_u8;
  fail_if (negb (bool_decide (version = kProtocolVersion))) Unsupported "UNSUPPORTED_VERSION";;
  b ← attempt Reader.read_u8;
  k ← lift (match kind_of_byte b with Some k => Ok k | None => Err ProtocolError "UNKNOWN_KIND" end);
  flags ← attempt Reader.read_u16;
  session ← attempt Reader.read_u64;
  request ← attempt Reader.read_u64;
  body_len ← attempt Reader.read_u16;
  mret (k, flags, session, request, body_len).

Definition decode_frame (decoded : list Z) : result UsbFrame :=
  guard_err (length decoded <? kHeaderSize + kCrcSize) ProtocolError "FRAME_TOO_SHORT";;
  guard_err (kMaxDecodedFrame <? length decoded) ProtocolError "FRAME_TOO_LARGE";;
  '(k, flags, session, request, body_len) ← run_reader read_header decoded;
  guard_err (negb (length decoded =? kHeaderSize + Z.to_nat body_len + kCrcSize)) ProtocolError "INVALID_LENGTH";;
  let crc_offset := length decoded - kCrcSize in
  let expected := crc32_iso_hdlc (take crc_offset decoded) in
  let actual := be_value 32 (take kCrcSize (drop crc_offset decoded)) in
  guard_err (negb (bool_decide (expected = actual))) IntegrityError "CRC_MISMATCH";;
  Ok (mkFrame k flags session request (take (Z.to_nat body_len) (drop kHeaderSize decoded))).

(** ** The bytes of a frame *)

Definition frame_ok (f : UsbFrame) : Prop :=
  is_u16 (flags f) ∧ is_u64 (session f) ∧ is_u64 (request f) ∧ bytes_ok (body f) ∧
  length (body f) ≤ kMaxBodySize.
#[global] Instance frame_ok_dec f : Decision (frame_ok f).
Proof. unfold frame_ok. apply _. Defined.

Definition header_bytes (f : UsbFrame) : list Z :=
  be_bytes 4 kMagic ++ [kProtocolVersion] ++ [kind_byte (kind f)] ++ be_bytes 2 (flags f) ++
  be_bytes 8 (session f) ++ be_bytes 8 (request f) ++ be_bytes 2 (u16 (Z.of_nat (length (body f)))).
Definition covered_bytes (f : UsbFrame) : list Z := header_bytes f ++ body f.
Definition decoded_bytes (f : UsbFrame) : list Z :=
  covered_bytes f ++ be_bytes 4 (crc32_iso_hdlc (covered_bytes f)).
Definition wire_bytes (f : UsbFrame) : list Z := enc [] (decoded_bytes f) ++ [0%Z].

Lemma kind_of_kind_byte k : kind_of_byte (kind_byte k) = Some k.
Proof. by destruct k. Qed.
Lemma kind_byte_ok k : is_u8 (kind_byte k).
Proof. by destruct k. Qed.

Lemma length_usb_header f : length (header_bytes f) = kHeaderSize.
Proof. unfold header_bytes. rewrite !length_app, !length_be_bytes. done. Qed.

Lemma length_covered_bytes f : length (covered_bytes f) = kHeaderSize + length (body f).
Proof. unfold covered_bytes. by rewrite length_app, length_usb_header. Qed.

Lemma length_decoded_bytes f : length (decoded_bytes f) = kHeaderSize + length (body f) + kCrcSize.
Proof. unfold decoded_bytes. by rewrite length_app, length_covered_bytes, length_be_bytes. Qed.

Lemma header_bytes_ok f : bytes_ok (header_bytes f).
Proof.
  unfold header_bytes, bytes_ok. repeat apply Forall_app_2; try apply be_bytes_ok;
    (constructor; [|constructor]); [done|apply kind_byte_ok].
Qed.

Lemma covered_bytes_ok f : frame_ok f → bytes_ok (covered_bytes f).
Proof. intros (_ & _ & _ & Hb & _). apply Forall_app_2; [apply header_bytes_ok|done]. Qed.

Lemma decoded_bytes_ok f : frame_ok f → bytes_ok (decoded_bytes f).
Proof. intros Hf. apply Forall_app_2; [by apply covered_bytes_ok|apply be_bytes_ok]. Qed.

Lemma write_header_emits f :
  emits (write_header (kind f) (flags f) (session f) (request f) (length (body f))) (header_bytes f).
Proof. unfold write_header, header_bytes. emit_steps. Qed.

Lemma body_size_ok f : frame_ok f → too_large (length (body f)) = false.
Proof.
  intros (_ & _ & _ & _ & Hb). apply orb_false_iff. rewrite !Nat.ltb_ge. split; [done|].
  assert (kMaxBodySize ≤ Z.to_nat 0xFFFF) by (unfold kMaxBodySize, kMaxDecodedFrame, kHeaderSize, kCrcSize; lia). lia.
Qed.

(** The staged bytes: header, body, checksum. *)
Lemma stage_bytes f buf :
  length buf = kHeaderSize + length (body f) + kCrcSize →
  run_writer (write_header (kind f) (flags f) (session f) (request f) (length (body f));;
              Writer.write_bytes (body f);; write_crc) buf =
  Ok (length (decoded_bytes f), decoded_bytes f).
Proof.
  intros Hl. pose proof (length_usb_header f) as Hh. set (L := length (body f)) in *.
  assert (Hsplit : buf = take kHeaderSize buf ++ take L (drop kHeaderSize buf) ++ drop L (drop kHeaderSize buf))
    by (by rewrite !take_drop).
  set (b1 := take kHeaderSize buf) in *. set (b2 := take L (drop kHeaderSize buf)) in *.
  set (b3 := drop L (drop kHeaderSize buf)) in *.
  assert (Hb1 : length b1 = kHeaderSize) by (unfold b1; rewrite length_take; lia).
  assert (Hb2 : length b2 = L) by (unfold b2; rewrite length_take, length_drop; lia).
  assert (Hb3 : length b3 = kCrcSize) by (unfold b3; rewrite !length_drop; lia).
  rewrite Hsplit. clearbody b1 b2 b3. unfold run_writer.
  erewrite M_bind_ok; [|apply (write_header_emits f [] b1 (b2 ++ b3)); congruence].
  erewrite M_bind_ok; [|refine (emits_bytes (body f) ([] ++ header_bytes f) b2 b3 Hb2)].
  unfold write_crc. erewrite M_bind_ok; [|reflexivity]. cbn [w_target default Writer.size w_offset app].
  unfold default, id. rewrite app_assoc. fold (covered_bytes f). rewrite take_app_length.
  pose proof (emits_u32 (crc32_iso_hdlc (covered_bytes f)) (covered_bytes f) b3 []) as Hw.
  rewrite !app_nil_r in Hw. rewrite Hw by (rewrite length_be_bytes; exact Hb3). done.
Qed.

(** Every encoder ends with the wire form at the front of its output. *)
Lemma wire_of_decoded f out :
  encoded_frame_bound (length (decoded_bytes f)) ≤ length out →
  (r ← cobs_encode (decoded_bytes f) out; Ok (delimit r)) =
  Ok (length (wire_bytes f), wire_bytes f ++ drop (length (wire_bytes f)) out).
Proof.
  unfold encoded_frame_bound. intros Hout. destruct (cobs_encode_enc (decoded_bytes f) out) as [He Hn]; [lia|].
  rewrite He, bind_Ok. unfold delimit, wire_bytes. cbn [fst snd]. set (e := enc [] (decoded_bytes f)) in *.
  rewrite length_app. cbn [length]. destruct (drop (length e) out) as [|x rest] eqn:Hd.
  { apply (f_equal length) in Hd. rewrite length_drop in Hd. simpl in Hd. lia. }
  rewrite insert_at by done. rewrite <-drop_drop, Hd. f_equal. f_equal; [lia|]. cbn [drop]. by rewrite <-app_assoc.
Qed.

Lemma encode_frame_wire f scratch out :
  frame_ok f → kHeaderSize + length (body f) + kCrcSize ≤ length scratch →
  encoded_frame_bound (kHeaderSize + length (body f) + kCrcSize) ≤ length out →
  encode_frame (kind f) (flags f) (session f) (request f) (body f) scratch out =
  Ok (length (wire_bytes f), wire_bytes f ++ drop (length (wire_bytes f)) out).
Proof.
  intros Hf Hs Ho. unfold encode_frame. rewrite guard_pass by (by apply body_size_ok). cbv zeta.
  rewrite guard_pass by (by apply Nat.ltb_ge). rewrite guard_pass by (by apply Nat.ltb_ge).
  rewrite stage_bytes by (rewrite length_take; lia). rewrite bind_Ok, firstn_all.
  apply wire_of_decoded. by rewrite length_decoded_bytes.
Qed.

Lemma consumes_attempt m bs a : consumes m bs a → consumes (attempt m) bs a.
Proof. intros Hm pre rest. unfold attempt. by rewrite Hm. Qed.

Lemma consumes_magic : consumes read_magic (be_bytes 4 kMagic) tt.
Proof. intros pre rest. unfold read_magic. rewrite consumes_u32 by done. done. Qed.

Lemma consumes_lift {A} (a : A) : consumes (lift (Ok a)) [] a.
Proof. exact (consumes_ret a). Qed.

Lemma read_header_consumes f :
  frame_ok f →
  consumes read_header (header_bytes f)
    (kind f, flags f, session f, request f, Z.of_nat (length (body f))).
Proof.
  intros (Hfl & Hs & Hr & _ & Hb). unfold read_header, header_bytes.
  assert (Hlen : is_u16 (Z.of_nat (length (body f)))).
  { unfold kMaxBodySize, kMaxDecodedFrame, kHeaderSize, kCrcSize, in_range in *. lia. }
  rewrite (wrap_id 16) by done.
  eapply consumes_bind; [apply consumes_magic|].
  eapply consumes_bind; [apply consumes_attempt, consumes_u8|].
  eapply consumes_pass; [by apply consumes_check|].
  eapply consumes_bind; [apply consumes_attempt, consumes_u8|]. rewrite kind_of_kind_byte.
  eapply consumes_pass; [apply consumes_lift|].
  eapply consumes_bind; [by apply consumes_attempt, consumes_u16|].
  eapply consumes_bind; [by apply consumes_attempt, consumes_u64|].
  eapply consumes_bind; [by apply consumes_attempt, consumes_u64|].
  rewrite <-(app_nil_r (be_bytes 2 _)).
  eapply consumes_bind; [by apply consumes_attempt, consumes_u16|]. apply consumes_ret.
Qed.

Lemma decode_decoded_bytes f : frame_ok f → decode_frame (decoded_bytes f) = Ok f.
Proof.
  intros Hf. pose proof (length_decoded_bytes f) as Hl. unfold decode_frame. rewrite Hl.
  assert (Hb : length (body f) ≤ kMaxBodySize) by apply Hf.
  rewrite guard_pass by (apply Nat.ltb_ge; lia).
  rewrite guard_pass by (apply Nat.ltb_ge; unfold kMaxBodySize, kMaxDecodedFrame, kHeaderSize, kCrcSize in *; lia).
  assert (Hrun : run_reader read_header (decoded_bytes f) =
    Ok (kind f, flags f, session f, request f, Z.of_nat (length (body f)))).
  { unfold decoded_bytes, covered_bytes. rewrite <-app_assoc. apply run_reader_consumes, read_header_consumes, Hf. }
  rewrite Hrun, bind_Ok, Nat2Z.id.
  rewrite guard_pass by (rewrite Nat.eqb_refl; done). cbv zeta.
  replace (kHeaderSize + length (body f) + kCrcSize - kCrcSize) with (length (covered_bytes f))
    by (rewrite length_covered_bytes; lia).
  unfold decoded_bytes. rewrite take_app_length, drop_app_length.
  rewrite (take_ge (be_bytes _ _)) by (rewrite length_be_bytes; done).
  rewrite be_value_be_bytes by (done || apply crc32_range; by apply covered_bytes_ok).
  rewrite guard_pass by (by rewrite bool_decide_eq_true_2). f_equal. unfold covered_bytes. rewrite <-app_assoc.
  rewrite <-(length_usb_header f), drop_app_length, take_app_length. by destruct f.
Qed.

(** ** Results *)

(** With the buffers the header comment asks for, [encode_frame] succeeds, its
    output is a zero-free segment and one delimiter, and [cobs_decode]
    followed by [decode_frame] returns the frame. *)
Lemma usb_frame_roundtrip f scratch out :
  frame_ok f → kHeaderSize + length (body f) + kCrcSize ≤ length scratch →
  encoded_frame_bound (kHeaderSize + length (body f) + kCrcSize) ≤ length out →
  ∃ n out' w, encode_frame (kind f) (flags f) (session f) (request f) (body f) scratch out = Ok (n, out') ∧
    length out' = length out ∧ take n out' = w ++ [0%Z] ∧ nonzero w ∧
    ∀ buf, kMaxDecodedFrame ≤ length buf → (y ← decoded (cobs_decode w buf); decode_frame y) = Ok f.
Proof.
  intros Hf Hs Ho. exists (length (wire_bytes f)), (wire_bytes f ++ drop (length (wire_bytes f)) out), (enc [] (decoded_bytes f)).
  pose proof (decoded_bytes_ok f Hf) as Hok. pose proof (length_decoded_bytes f) as Hl.
  assert (Hb : length (body f) ≤ kMaxBodySize) by apply Hf.
  split; [by apply encode_frame_wire|]. rewrite take_app_length. split; [|split; [done|]].
  { rewrite <-Hl in Ho. pose proof (wire_of_decoded f out Ho) as Hw. destruct (enc_bound [] (decoded_bytes f)) as [_ Hhi]; [simpl; lia|].
    unfold encoded_frame_bound in Ho. cbn [length Nat.add] in Hhi. rewrite length_app, length_drop. unfold wire_bytes in *.
    rewrite length_app. cbn [length]. lia. }
  destruct (enc_bytes [] (decoded_bytes f)) as [Hnz Hob]; [simpl; lia|constructor|constructor|done|]. split; [done|].
  intros buf Hbuf.
  assert (Hdec := dec_enc (decoded_bytes f) (S (length (enc [] (decoded_bytes f)))) (length buf) []
    ltac:(simpl; lia) ltac:(lia) ltac:(cbn [length]; unfold kMaxBodySize, kMaxDecodedFrame, kHeaderSize, kCrcSize in *; lia)).
  destruct (cobs_decode_dec (enc [] (decoded_bytes f)) buf Hob Hnz) as [(y & o & Hy & Hd & Ht & _)|(c & d & Hy & _)];
    rewrite Hdec in Hy; [|done].
  injection Hy as <-. rewrite Hd. unfold decoded. rewrite bind_Ok, Ht, bind_Ok. by apply decode_decoded_bytes.
Qed.

Definition sample_frame : UsbFrame := mkFrame DataToMesh 3 0xDEADBEEF00 7 [0; 1; 0; 255]%Z.

Lemma usb_frame_roundtrip_witness :
  frame_ok sample_frame ∧
  ∃ n out' w, encode_frame DataToMesh 3 0xDEADBEEF00 7 [0; 1; 0; 255]%Z (replicate 34 0%Z) (replicate 36 0%Z) = Ok (n, out') ∧
    take n out' = w ++ [0%Z] ∧
    (y ← decoded (cobs_decode w (replicate kMaxDecodedFrame 0%Z)); decode_frame y) = Ok sample_frame.
Proof.
  assert (Hf : frame_ok sample_frame) by (apply (bool_decide_unpack _); by vm_compute). split; [done|].
  assert (H1 : kHeaderSize + length (body sample_frame) + kCrcSize ≤ length (replicate 34 0%Z)) by (vm_compute; lia).
  assert (H2 : encoded_frame_bound (kHeaderSize + length (body sample_frame) + kCrcSize) ≤ length (replicate 36 0%Z))
    by (vm_compute; lia).
  destruct (usb_frame_roundtrip sample_frame (replicate 34 0%Z) (replicate 36 0%Z) Hf H1 H2)
    as (n & out' & w & He & _ & Hw & _ & Hd).
  exists n, out', w. split; [exact He|]. split; [exact Hw|]. apply Hd. rewrite length_replicate. lia.
Defined.

Lemma store_crc_bytes pre crc x1 x2 x3 x4 rest n :
  n = length pre → store_crc n crc (pre ++ x1 :: x2 :: x3 :: x4 :: rest) = pre ++ be_bytes 4 crc ++ rest.
Proof.
  intros ->. unfold store_crc.
  replace (length pre) with (length pre + 0) at 4 by lia.
  rewrite !insert_app_r. f_equal. unfold be_bytes. rewrite !land_255. done.
Qed.

(** [encode_frame_inplace] on a buffer that holds the body at offset zero
    writes the same wire form, byte for byte, as [encode_frame] on the body. *)
Lemma encode_inplace_equivalent f slack scratch out :
  frame_ok f → kHeaderSize + kCrcSize ≤ length slack →
  kHeaderSize + length (body f) + kCrcSize ≤ length scratch →
  encoded_frame_bound (kHeaderSize + length (body f) + kCrcSize) ≤ length out →
  encode_frame_inplace (kind f) (flags f) (session f) (request f) (body f ++ slack) (length (body f)) out =
  encode_frame (kind f) (flags f) (session f) (request f) (body f) scratch out.
Proof.
  intros Hf Hsl Hs Ho. rewrite encode_frame_wire by done. unfold encode_frame_inplace.
  rewrite guard_pass by (by apply body_size_ok). cbv zeta.
  rewrite guard_pass by (apply orb_false_iff; rewrite !Nat.ltb_ge, length_app; lia).
  rewrite take_app_length. set (moved := move_to kHeaderSize (body f) (body f ++ slack)).
  assert (Hlm : length moved = length (body f ++ slack)) by (apply length_move_to; rewrite length_app; lia).
  rewrite (run_writer_emits _ _ _ (write_header_emits f)) by
    (rewrite length_usb_header, length_take, Hlm, length_app; lia).
  rewrite bind_Ok, length_usb_header. rewrite drop_ge by (rewrite length_take; lia). rewrite app_nil_r.
  assert (Hdm : drop kHeaderSize moved = body f ++ drop (kHeaderSize + length (body f)) (body f ++ slack)).
  { unfold moved, move_to. rewrite drop_app_ge by (rewrite length_take; lia).
    rewrite length_take, Nat.min_l, Nat.sub_diag by (rewrite length_app; lia). done. }
  rewrite Hdm. set (rest := drop (kHeaderSize + length (body f)) (body f ++ slack)).
  assert (Hr : kCrcSize ≤ length rest) by (unfold rest; rewrite length_drop, length_app; lia).
  clearbody rest. rewrite app_assoc. fold (covered_bytes f).
  rewrite <-(length_covered_bytes f), take_app_length.
  destruct rest as [|x1 [|x2 [|x3 [|x4 rest]]]]; try (unfold kCrcSize in Hr; simpl in Hr; lia).
  rewrite (store_crc_bytes _ _ _ _ _ _ _ _ eq_refl), app_assoc. fold (decoded_bytes f).
  rewrite take_app_le, take_ge by (rewrite length_decoded_bytes, length_covered_bytes; lia).
  apply wire_of_decoded. by rewrite length_decoded_bytes.
Qed.

Lemma encode_inplace_equivalent_witness :
  frame_ok sample_frame ∧
  encode_frame_inplace DataToMesh 3 0xDEADBEEF00 7 ([0; 1; 0; 255] ++ replicate 30 9)%Z 4 (replicate 36 0%Z) =
  encode_frame DataToMesh 3 0xDEADBEEF00 7 [0; 1; 0; 255]%Z (replicate 34 0%Z) (replicate 36 0%Z).
Proof.
  assert (Hf : frame_ok sample_frame) by (apply (bool_decide_unpack _); by vm_compute). split; [done|].
  apply (encode_inplace_equivalent sample_frame (replicate 30 9%Z) (replicate 34 0%Z) (replicate 36 0%Z) Hf);
    vm_compute; lia.
Defined.

(** What acceptance says about the checksum. *)
Lemma decode_frame_crc d f :
  decode_frame d = Ok f →
  kCrcSize ≤ length d ∧
  crc32_iso_hdlc (take (length d - kCrcSize) d) = be_value 32 (take kCrcSize (drop (length d - kCrcSize) d)).
Proof.
  unfold decode_frame. intros [H1 Hd]%guard_err_bind. apply guard_err_bind in Hd as [_ Hd].
  apply result_bind_inv in Hd as ([[[[k fl] se] rq] len] & _ & Hd). apply guard_err_bind in Hd as [_ Hd].
  apply guard_err_bind in Hd as [Hc _]. apply Nat.ltb_ge in H1. split; [lia|].
  by apply negb_false_iff, bool_decide_eq_true in Hc.
Qed.

(** C34: an accepted frame with any one byte changed, in the header, the body
    or the checksum itself, is refused. *)
Theorem decode_frame_detects_damage pre b b' post f :
  bytes_ok (pre ++ [b] ++ post) → is_u8 b' → b ≠ b' →
  decode_frame (pre ++ [b] ++ post) = Ok f → is_ok (decode_frame (pre ++ [b'] ++ post)) = false.
Proof.
  intros Hok Hb' Hne [Hl Hc]%decode_frame_crc. destruct (decode_frame (pre ++ [b'] ++ post)) as [f'|] eqn:Hf'; [|done].
  apply decode_frame_crc in Hf' as [_ Hc']. exfalso.
  assert (Hlen : length (pre ++ [b'] ++ post) = length (pre ++ [b] ++ post)) by (rewrite !length_app; done).
  rewrite Hlen in Hc'. set (n := length (pre ++ [b] ++ post) - kCrcSize) in *.
  assert (Hn : n + kCrcSize = length pre + S (length post)) by (unfold n; rewrite !length_app in *; simpl in *; lia).
  clearbody n. clear Hl Hlen. destruct (decide (length pre < n)) as [Hlt|Hge].
  - (* the damage is under the checksum *)
    assert (Ht : ∀ x, take n (pre ++ [x] ++ post) = pre ++ [x] ++ take (n - length pre - 1) post).
    { intros x. rewrite take_app_ge by lia. f_equal. replace (n - length pre) with (S (n - length pre - 1)) by lia.
      cbn [app take]. by replace (S (n - length pre - 1) - 1) with (n - length pre - 1) by lia. }
    assert (Hdr : drop n (pre ++ [b'] ++ post) = drop n (pre ++ [b] ++ post)).
    { rewrite (drop_app_ge _ ([b'] ++ post)), (drop_app_ge _ ([b] ++ post)) by lia.
      by replace (n - length pre) with (S (n - length pre - 1)) by lia. }
    rewrite Hdr, <-Hc, !Ht in Hc'. symmetry in Hc'. revert Hc'. apply crc32_detects_byte_change; [|done|done].
    rewrite <-Ht. by apply Forall_take.
  - (* the damage is in the checksum *)
    rewrite take_app_le in Hc, Hc' by lia. rewrite Hc in Hc'.
    assert (Hdr : ∀ x, take kCrcSize (drop n (pre ++ [x] ++ post)) = drop n pre ++ [x] ++ post).
    { intros x. rewrite drop_app_le by lia. apply take_ge. rewrite !length_app, length_drop. simpl. lia. }
    rewrite !Hdr in Hc'. apply Forall_app in Hok as [Hp [Hb Hq]%Forall_cons].
    assert (Hbytes : ∀ x, is_u8 x → bytes_ok (drop n pre ++ [x] ++ post)).
    { intros x Hx. apply Forall_app_2; [by apply Forall_drop|by constructor]. }
    assert (H4 : ∀ x, length (drop n pre ++ [x] ++ post) = 4).
    { intros x. rewrite !length_app, length_drop. unfold kCrcSize in *. simpl. lia. }
    destruct (be_bytes_be_value 32 _ ltac:(rewrite (H4 b); lia) (Hbytes b Hb)) as [E1 _].
    destruct (be_bytes_be_value 32 _ ltac:(rewrite (H4 b'); lia) (Hbytes b' Hb')) as [E2 _].
    rewrite H4 in E1, E2. rewrite Hc', E2 in E1. apply app_inv_head in E1. simplify_eq.
Qed.

Definition sample_decoded : list Z := Eval vm_compute in decoded_bytes sample_frame.

Lemma decode_frame_detects_damage_witness :
  decode_frame (take 28 sample_decoded ++ [0%Z] ++ drop 29 sample_decoded) = Ok sample_frame ∧
  is_ok (decode_frame (take 28 sample_decoded ++ [5%Z] ++ drop 29 sample_decoded)) = false.
Proof.
  assert (H1 : bytes_ok (take 28 sample_decoded ++ [0%Z] ++ drop 29 sample_decoded))
    by (apply (bool_decide_unpack _); by vm_compute).
  assert (H2 : is_u8 5) by done. assert (H3 : 0%Z ≠ 5%Z) by done.
  assert (Hd : decode_frame (take 28 sample_decoded ++ [0%Z] ++ drop 29 sample_decoded) = Ok sample_frame)
    by (vm_compute; reflexivity).
  split; [exact Hd|].
  exact (decode_frame_detects_damage (take 28 sample_decoded) 0 5 (drop 29 sample_decoded) sample_frame H1 H2 H3 Hd).
Defined.
