(* ===== verification/UsbStream.v ===== *)
(** * The USB stream decoder and the credit account (usb_codec.hpp, usb_codec.cpp) *)

From S2P Require Import Prelude ByteIO Crc32 Cobs UsbFrame.
#[local] Open Scope nat_scope.

(** ** [StreamDecoder] *)

Definition kMaxPendingEncoded : nat := kMaxDecodedFrame + 64.
Definition kPartialFrameTimeoutMs : Z := 1000.

Module Stream.

Record Decoder := mkDecoder {
  pending_ : list Z; pending_size_ : nat; last_byte_ms_ : Z; discarding_ : bool }.

(** Calls on the [UsbFrameSink]. *)
Inductive Event := OnFrame (f : UsbFrame) | OnError (c : StatusCode) (d : string).

Definition new : Decoder := mkDecoder (replicate kMaxPendingEncoded 0%Z) 0 0 false.

Definition pending (s : Decoder) : nat := pending_size_ s.
Definition discarding (s : Decoder) : bool := discarding_ s.

(** The segment is decoded onto itself.  When decoding fails the bytes left
    in the buffer are dead: [pending_size_] is 0 and every byte is written
    again before it is read, so they are kept as they were. *)
Definition finish_segment (s : Decoder) : Decoder * list Event :=
  match cobs_decode_inplace (pending_ s) (pending_size_ s) kMaxDecodedFrame with
  | Err c d => (mkDecoder (pending_ s) 0 (last_byte_ms_ s) (discarding_ s), [OnError c d])
  | Ok (n, buf) =>
      (mkDecoder buf 0 (last_byte_ms_ s) (discarding_ s),
       [match decode_frame (take n buf) with Ok f => OnFrame f | Err c d => OnError c d end])
  end.

(** One turn of the loop of [push]. *)
Definition push_byte (now_ms : Z) (s : Decoder) (byte : Z) : Decoder * list Event :=
  let s := mkDecoder (pending_ s) (pending_size_ s) now_ms (discarding_ s) in
  if bool_decide (byte = 0%Z) then
    if discarding_ s then (mkDecoder (pending_ s) (pending_size_ s) now_ms false, [])
    else if 0 <? pending_size_ s then finish_segment s
    else (s, [])
  else if discarding_ s then (s, [])
  else if length (pending_ s) <=? pending_size_ s
  then (mkDecoder (pending_ s) 0 now_ms true, [OnError ProtocolError "FRAME_TOO_LARGE"])
  else (mkDecoder (<[pending_size_ s := byte]> (pending_ s)) (S (pending_size_ s)) now_ms (discarding_ s), []).

Fixpoint push (now_ms : Z) (input : list Z) (s : Decoder) : Decoder * list Event :=
  match input with
  | [] => (s, [])
  | b :: rest =>
      let '(s1, ev1) := push_byte now_ms s b in
      let '(s2, ev2) := push now_ms rest s1 in (s2, ev1 ++ ev2)
  end.

Definition poll (now_ms : Z) (s : Decoder) : Decoder * list Event :=
  if (pending_size_ s =? 0) && negb (discarding_ s) then (s, [])
  else if bool_decide (kPartialFrameTimeoutMs ≤ u64 (now_ms - last_byte_ms_ s))%Z then
    (mkDecoder (pending_ s) 0 (last_byte_ms_ s) false,
     if 0 <? pending_size_ s then [OnError ProtocolError "PARTIAL_FRAME_TIMEOUT"] else [])
  else (s, []).

Definition reset (s : Decoder) : Decoder := mkDecoder (pending_ s) 0 (last_byte_ms_ s) false.

(** A run of the decoder: chunks of the byte stream with their arrival times,
    and timer polls. *)
Inductive Op := Push (now_ms : Z) (chunk : list Z) | Poll (now_ms : Z).

Definition apply (op : Op) (s : Decoder) : Decoder * list Event :=
  match op with Push now chunk => push now chunk s | Poll now => poll now s end.

Fixpoint run (ops : list Op) (s : Decoder) : Decoder * list Event :=
  match ops with
  | [] => (s, [])
  | op :: rest =>
      let '(s1, ev1) := apply op s in
      let '(s2, ev2) := run rest s1 in (s2, ev1 ++ ev2)
  end.

(** The bytes of the run, and whether each poll comes within the timeout of
    the last byte. *)
Definition stream (ops : list Op) : list Z :=
  flat_map (λ op, match op with Push _ c => c | Poll _ => [] end) ops.

Fixpoint timely (last : Z) (ops : list Op) : Prop :=
  match ops with
  | [] => True
  | Push now c :: rest => timely (match c with [] => last | _ => now end) rest
  | Poll now :: rest => (u64 (now - last) < kPartialFrameTimeoutMs)%Z ∧ timely last rest
  end.

(** ** Invariant *)

Definition decoder_ok (s : Decoder) : Prop :=
  length (pending_ s) = kMaxPendingEncoded ∧ pending_size_ s ≤ kMaxPendingEncoded ∧
  bytes_ok (take (pending_size_ s) (pending_ s)) ∧ nonzero (take (pending_size_ s) (pending_ s)) ∧
  (discarding_ s = true → pending_size_ s = 0).

(** Decoders that differ only in the time of their last byte. *)
Definition same_bytes (s s' : Decoder) : Prop :=
  pending_ s = pending_ s' ∧ pending_size_ s = pending_size_ s' ∧ discarding_ s = discarding_ s'.

#[global] Instance same_bytes_equiv : Equivalence same_bytes.
Proof.
  split; [by intros s|by intros s s' (? & ? & ?)|]. intros a b c (? & ? & ?) (? & ? & ?). split; [congruence|].
  split; congruence.
Qed.

(** Arrival times do not change what is decoded. *)
Lemma push_byte_same now now' s s' b :
  same_bytes s s' → same_bytes (fst (push_byte now s b)) (fst (push_byte now' s' b)) ∧
  snd (push_byte now s b) = snd (push_byte now' s' b) ∧ last_byte_ms_ (fst (push_byte now s b)) = now.
Proof.
  intros (Hp & Hs & Hd). unfold push_byte, finish_segment. cbn [pending_ pending_size_ discarding_ last_byte_ms_].
  rewrite Hp, Hs, Hd. repeat case_match; done.
Qed.

Lemma push_same now now' input : ∀ s s',
  same_bytes s s' → same_bytes (fst (push now input s)) (fst (push now' input s')) ∧
  snd (push now input s) = snd (push now' input s').
Proof.
  induction input as [|b rest IH]; intros s s' Hs; [done|]. cbn [push].
  destruct (push_byte_same now now' s s' b Hs) as (Hs1 & He1 & _).
  destruct (push_byte now s b) as [s1 ev1], (push_byte now' s' b) as [s1' ev1']. cbn [fst snd] in *.
  destruct (IH s1 s1' Hs1) as [Hs2 He2]. destruct (push now rest s1), (push now' rest s1'). cbn [fst snd] in *.
  split; [done|congruence].
Qed.

Lemma push_last now input s :
  last_byte_ms_ (fst (push now input s)) = match input with [] => last_byte_ms_ s | _ => now end.
Proof.
  destruct input as [|b rest]; [done|]. revert b s. induction rest as [|b' rest IH]; intros b s.
  - cbn [push]. destruct (push_byte_same now now s s b) as (_ & _ & Hl); [done|].
    destruct (push_byte now s b). done.
  - cbn [push] in *. destruct (push_byte now s b) as [s1 ev1]. specialize (IH b' s1).
    destruct (push_byte now s1 b') as [s2 ev2]. destruct (push now rest s2). done.
Qed.

Lemma push_app now a b s :
  push now (a ++ b) s =
  let '(s1, ev1) := push now a s in let '(s2, ev2) := push now b s1 in (s2, ev1 ++ ev2).
Proof.
  revert s. induction a as [|x a IH]; intros s; cbn [push app]; [by destruct (push now b s)|].
  destruct (push_byte now s x) as [s1 ev1]. rewrite IH. destruct (push now a s1) as [s2 ev2].
  destruct (push now b s2) as [s3 ev3]. by rewrite app_assoc.
Qed.

(** A timely run decodes its byte stream, however it is cut. *)
Lemma run_stream ops : ∀ s s', same_bytes s s' → timely (last_byte_ms_ s) ops →
  same_bytes (fst (run ops s)) (fst (push 0 (stream ops) s')) ∧ snd (run ops s) = snd (push 0 (stream ops) s').
Proof.
  induction ops as [|[now c|now] ops IH]; intros s s' Hs Ht; cbn [run stream flat_map] in *; [done| |].
  - rewrite push_app. destruct (push_same now 0 c s s' Hs) as [Hs1 He1]. pose proof (push_last now c s) as Hl.
    cbn [apply timely] in *. rewrite <-Hl in Ht. destruct (push now c s) as [s1 ev1], (push 0 c s') as [s1' ev1'].
    cbn [fst snd] in *. destruct (IH s1 s1' Hs1 Ht) as [Hs2 He2].
    change (flat_map _ ops) with (stream ops). destruct (run ops s1), (push 0 (stream ops) s1').
    cbn [fst snd] in *. split; [done|congruence].
  - destruct Ht as [Hp Ht]. assert (Hpoll : poll now s = (s, [])).
    { unfold poll. destruct (_ && _); [done|]. by rewrite bool_decide_eq_false_2 by lia. }
    cbn [apply]. rewrite Hpoll. destruct (IH s s' Hs Ht) as [Hs2 He2]. change (flat_map _ ops) with (stream ops).
    cbn [app]. destruct (run ops s). done.
Qed.

(** ** Segments *)

Definition ready (s : Decoder) : Prop := pending_size_ s = 0 ∧ discarding_ s = false.

Lemma take_insert_snoc (n : nat) (b : Z) buf bs :
  n < length buf → take n buf = bs → take (S n) (<[n := b]> buf) = bs ++ [b].
Proof. intros Hn <-. by apply take_S_insert. Qed.

(** Bytes of a segment that fits accumulate without any callback. *)
Lemma push_segment now bs : ∀ s, nonzero bs → discarding_ s = false →
  length (pending_ s) = kMaxPendingEncoded → pending_size_ s + length bs ≤ kMaxPendingEncoded →
  ∃ buf, push now bs s = (mkDecoder buf (pending_size_ s + length bs)
                            (match bs with [] => last_byte_ms_ s | _ => now end) false, []) ∧
    length buf = kMaxPendingEncoded ∧
    take (pending_size_ s + length bs) buf = take (pending_size_ s) (pending_ s) ++ bs.
Proof.
  induction bs as [|b bs IH]; intros s Hnz Hd Hl Hfit; cbn [push length] in *.
  { exists (pending_ s). rewrite Nat.add_0_r, app_nil_r, <-Hd. by destruct s. }
  apply Forall_cons in Hnz as [Hb Hnz]. unfold push_byte. cbn [pending_ pending_size_ discarding_ last_byte_ms_].
  rewrite bool_decide_eq_false_2, Hd by done. rewrite (proj2 (Nat.leb_gt _ _)) by lia.
  set (s1 := mkDecoder _ _ _ _). destruct (IH s1 Hnz eq_refl) as (buf & Hp & Hlb & Ht);
    [cbn [pending_ s1]; by rewrite length_insert|cbn [pending_size_ s1]; lia|].
  exists buf. rewrite Hp. cbn [pending_size_ pending_ last_byte_ms_ s1] in *.
  replace (pending_size_ s + S (length bs)) with (S (pending_size_ s) + length bs) by lia.
  split; [by destruct bs|]. split; [done|]. rewrite Ht.
  rewrite (take_insert_snoc _ _ _ (take (pending_size_ s) (pending_ s))) by (done || lia). by rewrite <-app_assoc.
Qed.

Lemma cleared_ok buf now d : length buf = kMaxPendingEncoded → decoder_ok (mkDecoder buf 0 now d).
Proof.
  intros Hl. split; [done|]. cbn [pending_ pending_size_ discarding_]. rewrite take_0.
  split; [lia|]. split; [constructor|]. split; [constructor|done].
Qed.

Lemma decoder_ok_push_byte now s b :
  is_u8 b → decoder_ok s → decoder_ok (fst (push_byte now s b)) ∧ (b = 0%Z → ready (fst (push_byte now s b))).
Proof.
  intros Hb (Hl & Hs & Hok & Hnz & Hd). unfold push_byte, ready. cbn [pending_ pending_size_ discarding_ last_byte_ms_].
  case_bool_decide as Hz; [|split; [|done]].
  - destruct (discarding_ s) eqn:Hdd.
    { rewrite (Hd eq_refl) in *. split; [by apply cleared_ok|done]. }
    destruct (0 <? pending_size_ s) eqn:Hp.
    + unfold finish_segment. cbn [pending_ pending_size_ discarding_ last_byte_ms_].
      assert (Hk : kMaxDecodedFrame ≤ length (pending_ s)) by (rewrite Hl; unfold kMaxPendingEncoded; lia).
      destruct (cobs_decode_inplace_dec (pending_ s) (pending_size_ s) kMaxDecodedFrame Hok Hnz) as
        [(y & out' & _ & -> & _ & Hlo & _)|(c & d & _ & ->)]; [lia|done| |];
        cbn [fst pending_size_ discarding_]; (split; [|done]); apply cleared_ok; congruence.
    + apply Nat.ltb_ge in Hp. cbn [fst pending_size_ discarding_]. split; [|split; [lia|done]].
      repeat split; cbn [pending_ pending_size_ discarding_]; done.
  - destruct (discarding_ s) eqn:Hdd; [by repeat split|].
    destruct (length (pending_ s) <=? pending_size_ s) eqn:Hf; cbn [fst].
    + by apply cleared_ok.
    + apply Nat.leb_gt in Hf. split; cbn [pending_ pending_size_ discarding_]; [by rewrite length_insert|].
      split; [lia|]. rewrite (take_insert_snoc _ _ _ _ Hf eq_refl).
      split; [apply Forall_app_2; [done|by constructor]|]. split; [apply Forall_app_2; [done|by constructor]|done].
Qed.

Lemma decoder_ok_push now input : ∀ s, bytes_ok input → decoder_ok s → decoder_ok (fst (push now input s)).
Proof.
  induction input as [|b rest IH]; intros s Hi Hs; [done|]. apply Forall_cons in Hi as [Hb Hi]. cbn [push].
  destruct (decoder_ok_push_byte now s b Hb Hs) as [H1 _]. destruct (push_byte now s b) as [s1 ev1]. cbn [fst] in *.
  specialize (IH s1 Hi H1). by destruct (push now rest s1).
Qed.

Lemma wire_fits f : frame_ok f → length (enc [] (decoded_bytes f)) ≤ kMaxPendingEncoded ∧
  0 < length (enc [] (decoded_bytes f)).
Proof.
  intros Hf. destruct (enc_bound [] (decoded_bytes f)) as [Hlo Hhi]; [simpl; lia|].
  rewrite length_decoded_bytes in Hhi. cbn [length Nat.add] in *. assert (Hb : length (body f) ≤ kMaxBodySize) by apply Hf.
  assert (Hd : (kHeaderSize + length (body f) + kCrcSize) / 254 ≤ 16).
  { apply Nat.lt_succ_r, Nat.Div0.div_lt_upper_bound. unfold kMaxBodySize, kMaxDecodedFrame, kHeaderSize, kCrcSize in *. lia. }
  unfold kMaxPendingEncoded, kMaxBodySize, kMaxDecodedFrame, kHeaderSize, kCrcSize in *. lia.
Qed.

(** The segment of a valid frame decodes to it. *)
Lemma finish_frame f buf now d :
  frame_ok f → length buf = kMaxPendingEncoded →
  take (length (enc [] (decoded_bytes f))) buf = enc [] (decoded_bytes f) →
  snd (finish_segment (mkDecoder buf (length (enc [] (decoded_bytes f))) now d)) = [OnFrame f].
Proof.
  intros Hf Hlb Ht. destruct (wire_fits f Hf) as [Hfit _]. pose proof (decoded_bytes_ok f Hf) as Hok.
  destruct (enc_bytes [] (decoded_bytes f)) as [Hnz Hob]; [simpl; lia|constructor|constructor|done|].
  assert (Hcap : length (decoded_bytes f) ≤ kMaxDecodedFrame).
  { rewrite length_decoded_bytes. assert (Hb : length (body f) ≤ kMaxBodySize) by apply Hf.
    unfold kMaxBodySize, kMaxDecodedFrame, kHeaderSize, kCrcSize in *. lia. }
  assert (Hdec := dec_enc (decoded_bytes f) (S (length (enc [] (decoded_bytes f)))) kMaxDecodedFrame []
      ltac:(simpl; lia) ltac:(lia) Hcap).
  assert (Hk : kMaxDecodedFrame ≤ length buf) by (rewrite Hlb; unfold kMaxPendingEncoded; lia).
  unfold finish_segment. cbn [pending_ pending_size_ last_byte_ms_ discarding_].
  pose proof (cobs_decode_inplace_dec buf (length (enc [] (decoded_bytes f))) kMaxDecodedFrame) as Hd.
  rewrite Ht, Hdec in Hd.
  destruct Hd as [(y & o & Hy & Hdd & Htt & _)|(c & e & Hy & _)]; [done|done|lia|done| |done].
  injection Hy as <-. rewrite Hdd. cbn [snd]. by rewrite Htt, decode_decoded_bytes.
Qed.

(** A whole frame, from a ready decoder. *)
Lemma push_frame now f s :
  frame_ok f → decoder_ok s → ready s →
  snd (push now (wire_bytes f) s) = [OnFrame f] ∧ decoder_ok (fst (push now (wire_bytes f) s)) ∧
  ready (fst (push now (wire_bytes f) s)).
Proof.
  intros Hf Hs [Hp Hd]. pose proof (decoded_bytes_ok f Hf) as Hok. destruct (wire_fits f Hf) as [Hfit Hpos].
  destruct (enc_bytes [] (decoded_bytes f)) as [Hnz Hob]; [simpl; lia|constructor|constructor|done|].
  unfold wire_bytes. rewrite push_app. pose proof (decoder_ok_push now _ s Hob Hs) as Hs1.
  destruct (push_segment now _ s Hnz Hd ltac:(apply Hs) ltac:(lia)) as (buf & Hpush & Hlb & Ht).
  rewrite Hpush in *. cbn [fst] in Hs1. rewrite Hp in *. rewrite take_0 in Ht. cbn [app Nat.add] in Ht. cbn [push Nat.add].
  set (s1 := mkDecoder buf _ _ _) in *.
  destruct (decoder_ok_push_byte now s1 0%Z ltac:(done) Hs1) as [Hs2 Hr2].
  assert (Hev : snd (push_byte now s1 0) = [OnFrame f]).
  { unfold push_byte. rewrite bool_decide_eq_true_2 by done. unfold s1. cbn [discarding_ pending_size_ pending_].
    rewrite (proj2 (Nat.ltb_lt _ _)) by lia. by apply finish_frame. }
  destruct (push_byte now s1 0) as [s2 ev2]. cbn [fst snd app] in *. subst ev2. cbn [app]. split; [done|]. split; [done|by apply Hr2].
Qed.

Lemma push_frames now fs : ∀ s, Forall frame_ok fs → decoder_ok s → ready s →
  snd (push now (flat_map wire_bytes fs) s) = OnFrame <$> fs.
Proof.
  induction fs as [|f fs IH]; intros s Hfs Hs Hr; [done|]. apply Forall_cons in Hfs as [Hf Hfs].
  cbn [flat_map]. rewrite push_app. destruct (push_frame now f s Hf Hs Hr) as (He & Hs1 & Hr1).
  destruct (push now (wire_bytes f) s) as [s1 ev1]. cbn [fst snd] in *. specialize (IH s1 Hfs Hs1 Hr1).
  destruct (push now (flat_map wire_bytes fs) s1) as [s2 ev2]. cbn [snd] in *. by rewrite He, IH.
Qed.

(** C27: from any well-formed decoder state, whatever bytes precede a
    delimiter, the frames encoded after it reach the sink one by one, in order
    and without any other callback, however the byte stream is cut into chunks
    and as long as no poll comes later than the partial-frame timeout after
    the last byte. *)
Theorem stream_resynchronizes s ops junk fs :
  decoder_ok s → bytes_ok junk → Forall frame_ok fs → timely (last_byte_ms_ s) ops →
  stream ops = junk ++ [0%Z] ++ flat_map wire_bytes fs →
  snd (run ops s) = snd (push 0 (junk ++ [0%Z]) s) ++ (OnFrame <$> fs).
Proof.
  intros Hs Hj Hfs Ht Hstream. destruct (run_stream ops s s) as [_ ->]; [done|done|]. rewrite Hstream, app_assoc, push_app.
  assert (Hjz : decoder_ok (fst (push 0 (junk ++ [0%Z]) s)) ∧ ready (fst (push 0 (junk ++ [0%Z]) s))).
  { split; [apply decoder_ok_push; [apply Forall_app_2; [done|by constructor]|done]|].
    rewrite push_app. pose proof (decoder_ok_push 0 junk s Hj Hs) as H1. destruct (push 0 junk s) as [s1 ev1].
    cbn [fst push] in *. destruct (decoder_ok_push_byte 0 s1 0%Z ltac:(done) H1) as [_ Hr].
    destruct (push_byte 0 s1 0) as [s2 ev2]. by apply Hr. }
  destruct Hjz as [Hok Hr]. destruct (push 0 (junk ++ [0%Z]) s) as [s1 ev1]. cbn [fst snd] in *.
  pose proof (push_frames 0 fs s1 Hfs Hok Hr) as Hf. destruct (push 0 (flat_map wire_bytes fs) s1) as [s2 ev2].
  cbn [snd] in *. by rewrite Hf.
Qed.

(** After any pushes and polls the decoder is well formed (its array
    keeps its length, the buffered segment holds no zero byte and is empty
    while discarding) and has at most [kMaxPendingEncoded] bytes pending. *)
Lemma stream_pending_bounded ops :
  bytes_ok (stream ops) → decoder_ok (fst (run ops new)) ∧ pending (fst (run ops new)) ≤ kMaxPendingEncoded.
Proof.
  assert (Hgen : ∀ s, decoder_ok s → bytes_ok (stream ops) → decoder_ok (fst (run ops s))).
  { induction ops as [|[now c|now] ops IH]; intros s Hs Hb; [done| |]; cbn [run apply].
    - cbn [stream flat_map] in Hb. apply Forall_app in Hb as [Hc Hb].
      pose proof (decoder_ok_push now c s Hc Hs) as H1. destruct (push now c s) as [s1 ev1].
      specialize (IH s1 H1 Hb). by destruct (run ops s1).
    - assert (H1 : decoder_ok (fst (poll now s))).
      { unfold poll. destruct (_ && _); [done|]. case_bool_decide; [|done]. destruct Hs as (Hl & Hz & _).
        by apply cleared_ok. }
      destruct (poll now s) as [s1 ev1]. specialize (IH s1 H1 Hb). by destruct (run ops s1). }
  intros Hb. assert (Hok : decoder_ok (fst (run ops new))).
  { apply Hgen; [|done]. apply cleared_ok, length_replicate. }
  split; [done|]. apply Hok.
Qed.

(** A damaged segment, then two frames cut at an odd place with a poll in
    between: one error, two frames. *)
Definition frame_a : UsbFrame := mkFrame KeepAlive 0 5 1 [].
Definition frame_b : UsbFrame := mkFrame DataFromMesh 1 5 2 [0; 7]%Z.
Definition wire_ab : list Z := Eval vm_compute in [9%Z; 9%Z] ++ [0%Z] ++ flat_map wire_bytes [frame_a; frame_b].
Definition cut_ops : list Op := [Push 100 (take 20 wire_ab); Poll 900; Push 950 (drop 20 wire_ab)].

Lemma stream_resynchronizes_witness :
  decoder_ok new ∧ stream cut_ops = [9%Z; 9%Z] ++ [0%Z] ++ flat_map wire_bytes [frame_a; frame_b] ∧
  snd (run cut_ops new) =
    snd (push 0 ([9%Z; 9%Z] ++ [0%Z]) new) ++ (OnFrame <$> [frame_a; frame_b]).
Proof.
  assert (H1 : decoder_ok new) by (apply cleared_ok, length_replicate).
  assert (H2 : bytes_ok [9%Z; 9%Z]) by (apply (bool_decide_unpack _); by vm_compute).
  assert (H3 : Forall frame_ok [frame_a; frame_b]) by (apply (bool_decide_unpack _); by vm_compute).
  assert (H4 : timely (last_byte_ms_ new) cut_ops) by (split; [by vm_compute|done]).
  assert (H5 : stream cut_ops = [9%Z; 9%Z] ++ [0%Z] ++ flat_map wire_bytes [frame_a; frame_b])
    by (vm_compute; reflexivity).
  split; [exact H1|]. split; [exact H5|].
  exact (stream_resynchronizes new cut_ops [9%Z; 9%Z] [frame_a; frame_b] H1 H2 H3 H4 H5).
Defined.

Lemma stream_pending_bounded_witness :
  bytes_ok (stream cut_ops) ∧ pending (fst (run (take 1 cut_ops) new)) = 17 ∧
  pending (fst (run cut_ops new)) ≤ kMaxPendingEncoded.
Proof.
  assert (H1 : bytes_ok (stream cut_ops)) by (apply (bool_decide_unpack _); by vm_compute).
  split; [exact H1|]. split; [by vm_compute|]. exact (proj2 (stream_pending_bounded cut_ops H1)).
Defined.

End Stream.

(** ** [CumulativeCredit] *)

Module Credit.
#[local] Open Scope Z_scope.

Record Account := mkAccount {
  session_ : Z; grant_frames_ : Z; grant_bytes_ : Z; consumed_frames_ : Z; consumed_bytes_ : Z }.

Definition reset (session : Z) : Account := mkAccount session 0 0 0 0.

Definition update (session grant_frames grant_bytes : Z) : M Account unit := λ a,
  if negb (bool_decide (session = session_ a)) then (Err ProtocolError "CREDIT_SESSION_MISMATCH", a)
  else
    (Ok tt, mkAccount (session_ a)
       (if bool_decide (grant_frames_ a < grant_frames) then grant_frames else grant_frames_ a)
       (if bool_decide (grant_bytes_ a < grant_bytes) then grant_bytes else grant_bytes_ a)
       (consumed_frames_ a) (consumed_bytes_ a)).

Definition consume (decoded_len : Z) : M Account unit := λ a,
  if bool_decide (grant_frames_ a ≤ consumed_frames_ a) || bool_decide (grant_bytes_ a < consumed_bytes_ a) ||
     bool_decide (u64 (grant_bytes_ a - consumed_bytes_ a) < decoded_len)
  then (Err WouldBlock "CREDIT_EXHAUSTED", a)
  else (Ok tt, mkAccount (session_ a) (grant_frames_ a) (grant_bytes_ a)
                 (u64 (consumed_frames_ a + 1)) (u64 (consumed_bytes_ a + decoded_len))).

Definition available_frames (a : Account) : Z := u64 (grant_frames_ a - consumed_frames_ a).
Definition available_bytes (a : Account) : Z := u64 (grant_bytes_ a - consumed_bytes_ a).

Inductive Op := Update (session frames bytes : Z) | Consume (len : Z).
Definition apply (op : Op) : M Account unit :=
  match op with Update s f b => update s f b | Consume n => consume n end.
Fixpoint run (ops : list Op) (a : Account) : list (result unit) * Account :=
  match ops with
  | [] => ([], a)
  | op :: rest => let '(r, a1) := apply op a in let '(rs, a2) := run rest a1 in (r :: rs, a2)
  end.

(** The contract, in unbounded integers: ceilings that only rise and a
    ledger of what was charged. *)
Record Ledger := mkLedger { ceiling_frames : Z; ceiling_bytes : Z; charged : list Z }.
Definition charged_bytes (l : Ledger) : Z := foldr Z.add 0 (charged l).

Definition ledger_apply (session : Z) (op : Op) (l : Ledger) : result unit * Ledger :=
  match op with
  | Update s f b =>
      if bool_decide (s = session)
      then (Ok tt, mkLedger (Z.max (ceiling_frames l) f) (Z.max (ceiling_bytes l) b) (charged l))
      else (Err ProtocolError "CREDIT_SESSION_MISMATCH", l)
  | Consume n =>
      if bool_decide (Z.of_nat (length (charged l)) + 1 ≤ ceiling_frames l) &&
         bool_decide (charged_bytes l + n ≤ ceiling_bytes l)
      then (Ok tt, mkLedger (ceiling_frames l) (ceiling_bytes l) (n :: charged l))
      else (Err WouldBlock "CREDIT_EXHAUSTED", l)
  end.
Fixpoint ledger_run (session : Z) (ops : list Op) (l : Ledger) : list (result unit) * Ledger :=
  match ops with
  | [] => ([], l)
  | op :: rest =>
      let '(r, l1) := ledger_apply session op l in
      let '(rs, l2) := ledger_run session rest l1 in (r :: rs, l2)
  end.

Definition op_ok (op : Op) : Prop :=
  match op with Update s f b => is_u64 s ∧ is_u64 f ∧ is_u64 b | Consume n => is_u64 n end.
#[global] Instance op_ok_dec op : Decision (op_ok op).
Proof. destruct op; unfold op_ok; apply _. Defined.

(** The account holds exactly the ledger, within both ceilings. *)
Definition accounts (session : Z) (a : Account) (l : Ledger) : Prop :=
  a = mkAccount session (ceiling_frames l) (ceiling_bytes l) (Z.of_nat (length (charged l))) (charged_bytes l) ∧
  Z.of_nat (length (charged l)) ≤ ceiling_frames l ∧ 0 ≤ charged_bytes l ≤ ceiling_bytes l ∧
  is_u64 (ceiling_frames l) ∧ is_u64 (ceiling_bytes l).

Lemma accounts_step session op a l :
  op_ok op → accounts session a l →
  fst (apply op a) = fst (ledger_apply session op l) ∧
  accounts session (snd (apply op a)) (snd (ledger_apply session op l)).
Proof.
  intros Hop (-> & Hf & Hb & Hcf & Hcb). destruct op as [s f b|n]; unfold accounts.
  - destruct Hop as (_ & Hfr & Hby). cbn [apply ledger_apply update]. unfold update. cbn [session_].
    case_bool_decide; cbn [negb fst snd]; [|done]. split; [done|].
    cbn [ceiling_frames ceiling_bytes charged grant_frames_ grant_bytes_ consumed_frames_ consumed_bytes_ session_].
    change (charged_bytes (mkLedger _ _ (charged l))) with (charged_bytes l). unfold in_range in *.
    split; [f_equal; case_bool_decide; lia|]. lia.
  - cbn [apply ledger_apply]. unfold consume. cbn [op_ok] in Hop. unfold in_range in *.
    cbn [ceiling_frames ceiling_bytes charged grant_frames_ grant_bytes_ consumed_frames_ consumed_bytes_ session_].
    rewrite (wrap_id 64 (ceiling_bytes l - charged_bytes l)) by (unfold in_range; lia).
    repeat case_bool_decide; cbn [orb andb fst snd]; try lia; (split; [done|]);
      cbn [snd ceiling_frames ceiling_bytes charged]; try (split; [done|lia]).
    cbn [ceiling_frames ceiling_bytes charged length].
    assert (Hn : charged_bytes (mkLedger (ceiling_frames l) (ceiling_bytes l) (n :: charged l)) = n + charged_bytes l) by done.
    rewrite Hn. rewrite !wrap_id by (unfold in_range; lia). split; [f_equal; lia|]. lia.
Qed.

(** C36: for every sequence of grant notices and charges the account returns
    exactly the results of a ledger in unbounded integers whose ceilings are
    the maxima granted in its session, and what it has charged, frames and
    bytes, is within both ceilings: no wrap-around lets a charge through. *)
Theorem credit_refines_ledger session ops :
  Forall op_ok ops →
  let l := ledger_run session ops (mkLedger 0 0 []) in
  fst (run ops (reset session)) = fst l ∧ accounts session (snd (run ops (reset session))) (snd l).
Proof.
  intros Hops. assert (Hgen : ∀ a l, accounts session a l →
    fst (run ops a) = fst (ledger_run session ops l) ∧ accounts session (snd (run ops a)) (snd (ledger_run session ops l))).
  { induction Hops as [|op ops Hop Hops IH]; intros a l Ha; [done|]. cbn [run ledger_run].
    destruct (accounts_step session op a l Hop Ha) as [Hr Ha1]. destruct (apply op a) as [r a1], (ledger_apply session op l) as [r' l1].
    cbn [fst snd] in *. destruct (IH a1 l1 Ha1) as [Hrs Ha2]. destruct (run ops a1), (ledger_run session ops l1).
    cbn [fst snd] in *. split; [congruence|done]. }
  apply Hgen. split; [done|]. cbn. unfold in_range. lia.
Qed.

Lemma credit_refines_ledger_witness :
  let ops := [Consume 10; Update 4 2 100; Consume 60; Update 4 1 90; Consume 41; Consume 40; Update 5 9 900] in
  Forall op_ok ops ∧
  fst (run ops (reset 4)) = fst (ledger_run 4 ops (mkLedger 0 0 [])) ∧
  is_ok <$> fst (run ops (reset 4)) = [false; true; true; true; false; true; false] ∧
  consumed_bytes_ (snd (run ops (reset 4))) = 100.
Proof.
  intros ops. assert (Hops : Forall op_ok ops) by (apply (bool_decide_unpack _); by vm_compute).
  split; [exact Hops|]. split; [exact (proj1 (credit_refines_ledger 4 ops Hops))|]. split; by vm_compute.
Defined.

End Credit.
