(* ===== verification/ObjectAssembler.v ===== *)
(** * Object reassembly (object_assembler.hpp, object_assembler.cpp)

    The storage and the bitmap are the caller's buffers; an inactive
    assembler holds none.  The abstract model is a partial map from offsets
    to bytes. *)

From S2P Require Import Prelude.
#[local] Open Scope nat_scope.

Record ObjectAssembler := mkAssembler {
  storage_ : list Z; bitmap_ : list Z; deadline_ms_ : Z; total_ : nat; cell_ : nat; received_ : Z }.

Definition idle : ObjectAssembler := mkAssembler [] [] 0 0 0 0.

Definition active (a : ObjectAssembler) : bool := negb (total_ a =? 0).
Definition complete (a : ObjectAssembler) : bool := active a && bool_decide (received_ a = Z.of_nat (total_ a)).
Definition expired (now_ms : Z) (a : ObjectAssembler) : bool :=
  active a && negb (bool_decide (deadline_ms_ a = 0%Z)) && bool_decide (deadline_ms_ a ≤ now_ms)%Z.
Definition data (a : ObjectAssembler) : list Z := take (total_ a) (storage_ a).

Definition cells (total cell : nat) : nat := (total + cell - 1) / cell.

Definition begin (storage bitmap : list Z) (total cell : nat) (deadline_ms : Z) : M ObjectAssembler unit := λ a,
  if active a then (Err Busy "assembly active", a)
  else if (total =? 0) || (cell =? 0) || (length storage <? total) ||
          (length bitmap <? (cells total cell + 7) / 8)
  then (Err InvalidArgument "assembly bounds", a)
  else (Ok tt, mkAssembler storage (replicate (length bitmap) 0%Z) deadline_ms total cell 0).

(** [(bitmap[bit / 8] & (1U << (bit % 8))) != 0] and the assignment that sets
    it. *)
Definition bit_mask (bit : nat) : Z := Z.shiftl 1 (Z.of_nat (bit mod 8)).
Definition marked (bm : list Z) (bit : nat) : bool :=
  negb (bool_decide (Z.land (default 0%Z (bm !! (bit / 8))) (bit_mask bit) = 0%Z)).
Definition mark (bm : list Z) (bit : nat) : list Z :=
  <[bit / 8 := Z.lor (default 0%Z (bm !! (bit / 8))) (bit_mask bit)]> bm.

(** The bounds and grid test of [insert]. *)
Definition off_grid (total cell offset len : nat) : bool :=
  (len =? 0) || (total <=? offset) || (total - offset <? len) ||
  (negb (cell =? 1) &&
   (negb (offset mod cell =? 0) || negb (len =? (if total - offset <? cell then total - offset else cell)))).

(** A byte of [chunk] differs from one already held. *)
Fixpoint conflicts (a : ObjectAssembler) (at_ : nat) (chunk : list Z) : bool :=
  match chunk with
  | [] => false
  | b :: rest =>
      (marked (bitmap_ a) (at_ / cell_ a) && negb (bool_decide (default 0%Z (storage_ a !! at_) = b)))
      || conflicts a (S at_) rest
  end.

(** [memcpy] of the chunk to [offset]. *)
Definition copy_at (offset : nat) (chunk buf : list Z) : list Z :=
  take offset buf ++ chunk ++ drop (offset + length chunk) buf.

Definition store_cell (offset : nat) (chunk : list Z) (a : ObjectAssembler) : ObjectAssembler :=
  let bit := offset / cell_ a in
  if marked (bitmap_ a) bit then a
  else mkAssembler (copy_at offset chunk (storage_ a)) (mark (bitmap_ a) bit) (deadline_ms_ a) (total_ a) (cell_ a)
         (u16 (received_ a + Z.of_nat (length chunk))).

Definition store_byte (at_ : nat) (b : Z) (a : ObjectAssembler) : ObjectAssembler :=
  if marked (bitmap_ a) at_ then a
  else mkAssembler (<[at_ := b]> (storage_ a)) (mark (bitmap_ a) at_) (deadline_ms_ a) (total_ a) (cell_ a)
         (u16 (received_ a + 1)).
Fixpoint store_bytes (at_ : nat) (chunk : list Z) (a : ObjectAssembler) : ObjectAssembler :=
  match chunk with
  | [] => a
  | b :: rest => store_bytes (S at_) rest (store_byte at_ b a)
  end.

Definition insert (offset : nat) (chunk : list Z) (now_ms : Z) : M ObjectAssembler unit := λ a,
  if negb (active a) then (Err InvalidState "assembly inactive", a)
  else if expired now_ms a then (Err Expired "assembly expired", a)
  else if off_grid (total_ a) (cell_ a) offset (length chunk) then (Err InvalidArgument "assembly grid", a)
  else if conflicts a offset chunk then (Err Conflict "assembly conflict", a)
  else (Ok tt, if negb (cell_ a =? 1) then store_cell offset chunk a else store_bytes offset chunk a).

(** [reset] clears the caller's buffers and lets go of them. *)
Definition reset (a : ObjectAssembler) : ObjectAssembler * (list Z * list Z) :=
  (idle, (replicate (total_ a) 0%Z ++ drop (total_ a) (storage_ a), replicate (length (bitmap_ a)) 0%Z)).

Section Verify.
(** The digest of discovery_scope.hpp. *)
Context (sha256 : list Z → list Z).

Fixpoint digest_diff (diff : Z) (actual digest : list Z) : Z :=
  match actual, digest with
  | x :: actual', d :: digest' => digest_diff (u8 (Z.lor diff (Z.lxor x d))) actual' digest'
  | _, _ => diff
  end.

Definition verify (digest : list Z) (a : ObjectAssembler) : result unit :=
  guard_err (negb (complete a)) InvalidState "assembly incomplete";;
  guard_err (negb (length digest =? 16) && negb (length digest =? 32)) InvalidArgument "assembly digest length";;
  guard_err (negb (bool_decide (digest_diff 0 (sha256 (data a)) digest = 0%Z)))
    IntegrityError "assembly digest mismatch".
End Verify.

(** ** The abstract assembly *)

Definition chunk_map (offset : nat) (chunk : list Z) : gmap nat Z := map_seq offset chunk.

(** No offset of [c] is held with another byte. *)
Definition agrees (m c : gmap nat Z) : Prop := map_Forall (λ i b, default b (m !! i) = b) c.
#[global] Instance agrees_dec m c : Decision (agrees m c).
Proof. unfold agrees. apply _. Defined.

Definition spec_insert (total cell : nat) (deadline : Z) (offset : nat) (chunk : list Z) (now : Z)
    (m : gmap nat Z) : result unit * gmap nat Z :=
  if negb (bool_decide (deadline = 0%Z)) && bool_decide (deadline ≤ now)%Z then (Err Expired "assembly expired", m)
  else if off_grid total cell offset (length chunk) then (Err InvalidArgument "assembly grid", m)
  else if bool_decide (agrees m (chunk_map offset chunk)) then (Ok tt, m ∪ chunk_map offset chunk)
  else (Err Conflict "assembly conflict", m).

(** ** Bits and copies *)

Lemma marked_testbit bm j : marked bm j = Z.testbit (default 0%Z (bm !! (j / 8))) (Z.of_nat (j mod 8)).
Proof.
  unfold marked, bit_mask. pose proof (mask_testbit (default 0%Z (bm !! (j / 8))) (Z.of_nat (j mod 8)) ltac:(lia)) as Hm.
  case_bool_decide as Hz; simpl; [symmetry; by apply Hm|].
  destruct (Z.testbit _ _); [done|]. exfalso. by apply Hz, Hm.
Qed.

Lemma marked_mark bm k j :
  k / 8 < length bm → marked (mark bm k) j = bool_decide (j = k) || marked bm j.
Proof.
  intros Hk. rewrite !marked_testbit. unfold mark.
  pose proof (Nat.div_mod_eq j 8) as Hj. pose proof (Nat.div_mod_eq k 8) as Hkk.
  destruct (decide (j / 8 = k / 8)) as [He|Hne].
  - rewrite He, list_lookup_insert_eq by done. cbn [default]. unfold id. rewrite Z.lor_spec, orb_comm. f_equal.
    unfold bit_mask. rewrite Z.shiftl_1_l. case_bool_decide as Hjk.
    + subst. apply Z.pow2_bits_true. lia.
    + apply Z.pow2_bits_false. lia.
  - rewrite list_lookup_insert_ne by done. rewrite bool_decide_eq_false_2; [done|]. intros ->. done.
Qed.

Lemma length_mark bm k : length (mark bm k) = length bm.
Proof. apply length_insert. Qed.

Lemma marked_zero n j : marked (replicate n 0%Z) j = false.
Proof.
  rewrite marked_testbit. destruct (replicate n 0%Z !! (j / 8)) as [x|] eqn:Hx; [|apply Z.bits_0].
  apply lookup_replicate in Hx as [-> _]. apply Z.bits_0.
Qed.

Lemma lookup_copy_at offset chunk buf i :
  offset + length chunk ≤ length buf →
  copy_at offset chunk buf !! i =
    if bool_decide (offset ≤ i < offset + length chunk) then chunk !! (i - offset) else buf !! i.
Proof.
  intros Hl. unfold copy_at. case_bool_decide as Hi.
  - rewrite lookup_app_r by (rewrite length_take; lia). rewrite length_take, Nat.min_l by lia.
    by rewrite lookup_app_l by lia.
  - destruct (decide (i < offset)).
    + rewrite lookup_app_l by (rewrite length_take; lia). by rewrite lookup_take_lt.
    + rewrite lookup_app_r by (rewrite length_take; lia). rewrite length_take, Nat.min_l by lia.
      rewrite lookup_app_r by lia. rewrite lookup_drop. f_equal. lia.
Qed.

Lemma chunk_map_lookup offset chunk i :
  chunk_map offset chunk !! i =
    if bool_decide (offset ≤ i < offset + length chunk) then chunk !! (i - offset) else None.
Proof.
  unfold chunk_map. rewrite lookup_map_seq. case_guard; case_bool_decide; [done| |lia|done].
  apply lookup_ge_None. lia.
Qed.

Lemma chunk_map_size offset chunk : size (chunk_map offset chunk) = length chunk.
Proof.
  unfold chunk_map. revert offset. induction chunk as [|b rest IH]; intros offset; [done|].
  rewrite map_seq_cons, map_size_insert_None, IH; [done|]. rewrite lookup_map_seq_None. left. lia.
Qed.

(** ** Refinement *)

Record holds (a : ObjectAssembler) (m : gmap nat Z) : Prop := {
  h_total : 0 < total_ a ∧ (Z.of_nat (total_ a) ≤ UINT16_MAX)%Z;
  h_cell : 0 < cell_ a;
  h_storage : total_ a ≤ length (storage_ a);
  h_bits : ∀ i, i < total_ a → i / cell_ a / 8 < length (bitmap_ a);
  h_map : ∀ i, m !! i = if bool_decide (i < total_ a) && marked (bitmap_ a) (i / cell_ a)
                        then storage_ a !! i else None;
  h_received : received_ a = Z.of_nat (size m) }.

Lemma holds_size a m : holds a m → size m ≤ total_ a.
Proof.
  intros Ha. rewrite <-(size_dom (D := gset nat)), <-(size_set_seq (C := gset nat) 0 (total_ a)).
  apply subseteq_size. intros i [x Hx]%elem_of_dom. apply elem_of_set_seq. rewrite (h_map _ _ Ha) in Hx.
  destruct (decide (i < total_ a)); [lia|]. by rewrite bool_decide_eq_false_2 in Hx.
Qed.

Lemma holds_some a m i : holds a m → i < total_ a →
  (∃ b, m !! i = Some b) ↔ marked (bitmap_ a) (i / cell_ a) = true.
Proof.
  intros Ha Hi. rewrite (h_map _ _ Ha). rewrite bool_decide_eq_true_2 by done. simpl.
  destruct (marked _ _); [|naive_solver]. destruct (lookup_lt_is_Some_2 (storage_ a) i) as [b Hb]; [pose proof (h_storage _ _ Ha); lia|].
  naive_solver.
Qed.

Lemma conflicts_agrees a m chunk : ∀ at_, holds a m → at_ + length chunk ≤ total_ a →
  conflicts a at_ chunk = negb (bool_decide (agrees m (chunk_map at_ chunk))).
Proof.
  induction chunk as [|b rest IH]; intros at_ Ha Hl; cbn [conflicts length] in *; [done|].
  rewrite (IH (S at_) Ha) by lia.
  assert (Hag : agrees m (chunk_map at_ (b :: rest)) ↔ default b (m !! at_) = b ∧ agrees m (chunk_map (S at_) rest)).
  { unfold agrees, chunk_map. rewrite map_seq_cons.
    rewrite map_Forall_insert by (rewrite lookup_map_seq_None; left; lia). done. }
  assert (Hb : (marked (bitmap_ a) (at_ / cell_ a) && negb (bool_decide (default 0%Z (storage_ a !! at_) = b)))
    = negb (bool_decide (default b (m !! at_) = b))).
  { rewrite (h_map _ _ Ha), (bool_decide_eq_true_2 (at_ < _)) by lia. simpl. pose proof (h_storage _ _ Ha).
    destruct (lookup_lt_is_Some_2 (storage_ a) at_) as [x Hx]; [lia|].
    destruct (marked _ _); simpl; [by rewrite Hx|by rewrite bool_decide_eq_true_2]. }
  rewrite Hb, <-negb_andb. f_equal. apply eq_true_iff_eq. rewrite andb_true_iff, !bool_decide_eq_true. symmetry. exact Hag.
Qed.

Lemma union_held (m c : gmap nat Z) : dom c ⊆ dom m → m ∪ c = m.
Proof.
  intros Hd. apply map_eq. intros i. rewrite lookup_union. destruct (m !! i) as [x|] eqn:Hm; [by destruct (c !! i)|].
  destruct (c !! i) as [y|] eqn:Hc; [|done]. apply elem_of_dom_2, Hd, elem_of_dom in Hc as [z Hz]. congruence.
Qed.

Lemma dom_held a m offset chunk : holds a m → offset + length chunk ≤ total_ a →
  (∀ i, offset ≤ i < offset + length chunk → marked (bitmap_ a) (i / cell_ a) = true) →
  m ∪ chunk_map offset chunk = m.
Proof.
  intros Ha Hl Hm. apply union_held. intros i [x Hx]%elem_of_dom. rewrite chunk_map_lookup in Hx.
  case_bool_decide as Hi; [|done]. apply elem_of_dom, (holds_some a m i Ha); [lia|]. by apply Hm.
Qed.

(** Marking one cell and writing its bytes. *)
Lemma holds_mark a m bit offset chunk :
  holds a m → offset + length chunk ≤ total_ a → marked (bitmap_ a) bit = false →
  (∀ i, i < total_ a → i / cell_ a = bit ↔ offset ≤ i < offset + length chunk) → 0 < length chunk →
  holds (mkAssembler (copy_at offset chunk (storage_ a)) (mark (bitmap_ a) bit) (deadline_ms_ a) (total_ a) (cell_ a)
           (u16 (received_ a + Z.of_nat (length chunk)))) (m ∪ chunk_map offset chunk).
Proof.
  intros Ha Hl Hbit Hcell Hlen. pose proof (h_storage _ _ Ha) as Hst.
  assert (Hoff : offset / cell_ a = bit) by (apply Hcell; lia).
  assert (Hdis : m ##ₘ chunk_map offset chunk).
  { apply map_disjoint_spec. intros i x y Hx Hy. rewrite chunk_map_lookup in Hy. case_bool_decide as Hi; [|done].
    assert (Hmk : marked (bitmap_ a) (i / cell_ a) = true) by (apply (holds_some a m i Ha); [lia|by exists x]).
    rewrite (proj2 (Hcell i ltac:(lia)) Hi) in Hmk. congruence. }
  assert (Hmap : ∀ i, (m ∪ chunk_map offset chunk) !! i =
    if bool_decide (i < total_ a) && marked (mark (bitmap_ a) bit) (i / cell_ a)
    then copy_at offset chunk (storage_ a) !! i else None).
  { intros i. rewrite lookup_union, chunk_map_lookup, (h_map _ _ Ha), lookup_copy_at by lia.
    destruct (decide (i < total_ a)) as [Hi|Hi].
    - rewrite (bool_decide_eq_true_2 (i < _)) by done.
      rewrite marked_mark by (rewrite <-Hoff; apply (h_bits _ _ Ha); lia). cbn [andb]. case_bool_decide as Hr.
      + assert (Heq : i / cell_ a = bit) by (by apply Hcell). rewrite Heq, Hbit, bool_decide_eq_true_2 by done.
        cbn [orb]. by destruct (chunk !! (i - offset)).
      + rewrite (bool_decide_eq_false_2 (i / _ = bit)) by (by rewrite Hcell). cbn [orb].
        by destruct (marked (bitmap_ a) (i / cell_ a)), (storage_ a !! i).
    - rewrite (bool_decide_eq_false_2 (i < _)) by done. rewrite bool_decide_eq_false_2 by lia. done. }
  assert (Hsize : size (m ∪ chunk_map offset chunk) = size m + length chunk)
    by (by rewrite map_size_disj_union, chunk_map_size).
  assert (Hbound : size (m ∪ chunk_map offset chunk) ≤ total_ a).
  { rewrite <-(size_dom (D := gset nat)), <-(size_set_seq (C := gset nat) 0 (total_ a)).
    apply subseteq_size. intros i [x Hx]%elem_of_dom. apply elem_of_set_seq. rewrite Hmap in Hx.
    destruct (decide (i < total_ a)); [lia|]. by rewrite bool_decide_eq_false_2 in Hx. }
  pose proof (h_total _ _ Ha) as [Ht0 Ht1]. unfold UINT16_MAX in Ht1. split; cbn [total_ cell_ storage_ bitmap_ received_].
  - apply (h_total _ _ Ha).
  - apply (h_cell _ _ Ha).
  - unfold copy_at. rewrite !length_app, length_take, length_drop. lia.
  - intros i Hi. rewrite length_mark. by apply (h_bits _ _ Ha).
  - exact Hmap.
  - rewrite (h_received _ _ Ha). unfold wrap. rewrite Z.mod_small; lia.
Qed.

Lemma copy_one at_ b buf : at_ < length buf → <[at_ := b]> buf = copy_at at_ [b] buf.
Proof. intros Hl. unfold copy_at. cbn [length]. rewrite Nat.add_1_r. by apply insert_take_drop. Qed.

Lemma holds_byte a m at_ b :
  holds a m → cell_ a = 1 → at_ < total_ a → holds (store_byte at_ b a) (m ∪ {[at_ := b]}).
Proof.
  intros Ha Hc Hat. replace ({[at_ := b]} : gmap nat Z) with (chunk_map at_ [b])
    by (unfold chunk_map; by rewrite map_seq_cons).
  unfold store_byte. destruct (marked (bitmap_ a) at_) eqn:Hm.
  - rewrite (dom_held a); [done|done|simpl; lia|]. intros i Hi. cbn [length] in Hi. rewrite Hc, Nat.div_1_r.
    by replace i with at_ by lia.
  - pose proof (h_storage _ _ Ha). rewrite copy_one by lia. apply (holds_mark a m at_ at_ [b]); cbn [length]; [done|lia|done| |lia].
    intros i Hi. rewrite Hc, Nat.div_1_r. lia.
Qed.

Lemma store_bytes_fields chunk : ∀ at_ a,
  total_ (store_bytes at_ chunk a) = total_ a ∧ cell_ (store_bytes at_ chunk a) = cell_ a ∧
  deadline_ms_ (store_bytes at_ chunk a) = deadline_ms_ a.
Proof.
  induction chunk as [|b rest IH]; intros at_ a; cbn [store_bytes]; [done|].
  destruct (IH (S at_) (store_byte at_ b a)) as (-> & -> & ->). unfold store_byte. by destruct (marked _ _).
Qed.

Lemma holds_bytes chunk : ∀ at_ a m,
  holds a m → cell_ a = 1 → at_ + length chunk ≤ total_ a →
  holds (store_bytes at_ chunk a) (m ∪ chunk_map at_ chunk).
Proof.
  induction chunk as [|b rest IH]; intros at_ a m Ha Hc Hl; cbn [store_bytes length] in *.
  { assert (chunk_map at_ [] = ∅) as -> by done. by rewrite (right_id_L ∅ (∪)). }
  assert (Heq : m ∪ chunk_map at_ (b :: rest) = (m ∪ {[at_ := b]}) ∪ chunk_map (S at_) rest).
  { unfold chunk_map. rewrite map_seq_cons, insert_union_singleton_l. by rewrite map_union_assoc. }
  rewrite Heq. destruct (store_bytes_fields [b] at_ a) as (Ht & Hce & _). cbn [store_bytes] in Ht, Hce.
  apply IH; [by apply holds_byte; [| |lia]|congruence|]. rewrite Ht. lia.
Qed.

(** The grid: a chunk of a cell covers exactly the offsets of that cell. *)
Lemma grid_cell total cell offset len i :
  0 < cell → off_grid total cell offset len = false → cell ≠ 1 → i < total →
  i / cell = offset / cell ↔ offset ≤ i < offset + len.
Proof.
  intros Hc Hg H1 Hi. unfold off_grid in Hg. rewrite !orb_false_iff, andb_false_iff, !orb_false_iff in Hg.
  rewrite !negb_false_iff, Nat.eqb_neq, Nat.leb_gt, Nat.ltb_ge, !Nat.eqb_eq in Hg.
  destruct Hg as [[[Hl Ho] Hs] [He|[Hmod Hlen]]]; [done|].
  pose proof (Nat.div_mod_eq offset cell) as Hd. rewrite Hmod in Hd. pose proof (Nat.div_mod_eq i cell) as Hdi.
  pose proof (Nat.mod_upper_bound i cell ltac:(lia)) as Hu. set (k := offset / cell) in *. set (j := i / cell) in *. clearbody k j.
  destruct (Nat.ltb_spec (total - offset) cell); split; intros Hx; subst; nia.
Qed.

Lemma off_grid_bounds total cell offset len : off_grid total cell offset len = false → 0 < len ∧ offset + len ≤ total.
Proof.
  unfold off_grid. rewrite !orb_false_iff, Nat.eqb_neq, Nat.leb_gt, Nat.ltb_ge. lia.
Qed.

Lemma insert_refines a m offset chunk now :
  holds a m →
  fst (insert offset chunk now a) = fst (spec_insert (total_ a) (cell_ a) (deadline_ms_ a) offset chunk now m) ∧
  holds (snd (insert offset chunk now a)) (snd (spec_insert (total_ a) (cell_ a) (deadline_ms_ a) offset chunk now m)) ∧
  total_ (snd (insert offset chunk now a)) = total_ a ∧ cell_ (snd (insert offset chunk now a)) = cell_ a ∧
  deadline_ms_ (snd (insert offset chunk now a)) = deadline_ms_ a.
Proof.
  intros Ha. pose proof (h_total _ _ Ha) as [Ht _]. unfold insert, spec_insert, expired.
  assert (Hact : active a = true) by (unfold active; apply negb_true_iff, Nat.eqb_neq; lia).
  rewrite Hact. cbn [negb andb]. destruct (_ && _); [done|].
  destruct (off_grid (total_ a) (cell_ a) offset (length chunk)) eqn:Hg; [done|].
  destruct (off_grid_bounds _ _ _ _ Hg) as [Hl Hb]. rewrite (conflicts_agrees a m chunk offset Ha Hb).
  case_bool_decide as Hag; [|done]. cbn [negb fst snd]. split; [done|].
  destruct (cell_ a =? 1) eqn:H1; cbn [negb].
  - apply Nat.eqb_eq in H1. split; [by apply holds_bytes|]. apply store_bytes_fields.
  - apply Nat.eqb_neq in H1. unfold store_cell.
    assert (Hcell := λ i Hi, grid_cell (total_ a) (cell_ a) offset (length chunk) i (h_cell _ _ Ha) Hg H1 Hi).
    destruct (marked (bitmap_ a) (offset / cell_ a)) eqn:Hm.
    + split; [|done]. rewrite (dom_held a); [done|done|done|]. intros i Hi. by rewrite (proj2 (Hcell i ltac:(lia)) Hi).
    + split; [|done]. by apply holds_mark.
Qed.

(** ** Runs *)

Definition Insertion : Type := nat * list Z * Z.

Fixpoint run (ins : list Insertion) (a : ObjectAssembler) : list (result unit) * ObjectAssembler :=
  match ins with
  | [] => ([], a)
  | (offset, chunk, now) :: rest =>
      let '(r, a1) := insert offset chunk now a in
      let '(rs, a2) := run rest a1 in (r :: rs, a2)
  end.

Fixpoint spec_run (total cell : nat) (deadline : Z) (ins : list Insertion) (m : gmap nat Z)
  : list (result unit) * gmap nat Z :=
  match ins with
  | [] => ([], m)
  | (offset, chunk, now) :: rest =>
      let '(r, m1) := spec_insert total cell deadline offset chunk now m in
      let '(rs, m2) := spec_run total cell deadline rest m1 in (r :: rs, m2)
  end.

Lemma run_refines ins : ∀ a m, holds a m →
  fst (run ins a) = fst (spec_run (total_ a) (cell_ a) (deadline_ms_ a) ins m) ∧
  holds (snd (run ins a)) (snd (spec_run (total_ a) (cell_ a) (deadline_ms_ a) ins m)) ∧
  total_ (snd (run ins a)) = total_ a.
Proof.
  induction ins as [|[[offset chunk] now] ins IH]; intros a m Ha; [done|]. cbn [run spec_run].
  destruct (insert_refines a m offset chunk now Ha) as (Hr & Hh & Ht & Hc & Hd).
  destruct (insert offset chunk now a) as [r a1], (spec_insert _ _ _ offset chunk now m) as [r' m1].
  cbn [fst snd] in *. destruct (IH a1 m1 Hh) as (Hrs & Hh2 & Ht2). rewrite Ht, Hc, Hd in *.
  destruct (run ins a1), (spec_run (total_ a) (cell_ a) (deadline_ms_ a) ins m1). cbn [fst snd] in *.
  split; [congruence|]. split; [done|congruence].
Qed.

(** Every offset is held. *)
Definition whole (total : nat) (m : gmap nat Z) : Prop := ∀ i, i < total → is_Some (m !! i).

Lemma holds_whole a m : holds a m → complete a = true ↔ whole (total_ a) m.
Proof.
  intros Ha. pose proof (h_total _ _ Ha) as [Ht _]. unfold complete, active.
  rewrite (proj2 (Nat.eqb_neq _ _)) by lia. cbn [negb andb]. rewrite bool_decide_eq_true, (h_received _ _ Ha).
  assert (Hsub : dom m ⊆@{gset nat} set_seq 0 (total_ a)).
  { intros i [x Hx]%elem_of_dom. apply elem_of_set_seq. rewrite (h_map _ _ Ha) in Hx.
    destruct (decide (i < total_ a)); [lia|]. by rewrite bool_decide_eq_false_2 in Hx. }
  split.
  - intros Hs i Hi. apply elem_of_dom. assert (Hd : dom m = (set_seq 0 (total_ a) : gset nat)).
    { apply set_subseteq_size_eq; [done|]. rewrite size_set_seq, size_dom. lia. }
    rewrite Hd. apply elem_of_set_seq. lia.
  - intros Hw. rewrite <-(size_dom (D := gset nat)). f_equal.
    transitivity (size (set_seq 0 (total_ a) : gset nat)); [|by rewrite size_set_seq].
    f_equal. apply set_eq. intros i. split; [apply Hsub|].
    intros [_ Hi]%elem_of_set_seq. by apply elem_of_dom, Hw.
Qed.

Lemma begin_holds storage bitmap total cell deadline a a' :
  (Z.of_nat total ≤ UINT16_MAX)%Z → begin storage bitmap total cell deadline a = (Ok tt, a') →
  holds a' ∅ ∧ total_ a' = total ∧ cell_ a' = cell ∧ deadline_ms_ a' = deadline.
Proof.
  intros Ht. unfold begin. destruct (active a); [done|]. destruct (_ || _) eqn:Hg; [done|]. intros [= <-].
  rewrite !orb_false_iff, !Nat.eqb_neq, !Nat.ltb_ge in Hg. destruct Hg as [[[H0 Hc] Hs] Hb]. split; [|done].
  split; cbn [total_ cell_ storage_ bitmap_ received_]; [lia|lia|done| |intros i; by rewrite marked_zero, andb_false_r|done].
  intros i Hi. rewrite length_replicate. apply Nat.Div0.div_lt_upper_bound. unfold cells in Hb.
  assert (Hcell : i / cell < (total + cell - 1) / cell).
  { apply Nat.lt_le_trans with (S (i / cell)); [lia|].
    apply Nat.div_le_lower_bound; [lia|]. pose proof (Nat.Div0.mul_div_le i cell). lia. }
  pose proof (Nat.div_mod_eq ((total + cell - 1) / cell + 7) 8). pose proof (Nat.mod_upper_bound ((total + cell - 1) / cell + 7) 8 ltac:(lia)).
  lia.
Qed.

(** C37: after [begin], for every sequence of chunks the results of [insert]
    are those of a partial map from offsets to bytes that refuses late,
    off-grid and conflicting chunks and is then unchanged; [complete] holds
    exactly when every offset is present, the buffer holds the map's bytes and
    [received_] counts them. *)
Theorem assembly_refines_partial_map storage bitmap total cell deadline a a' ins :
  (Z.of_nat total ≤ UINT16_MAX)%Z → begin storage bitmap total cell deadline a = (Ok tt, a') →
  let r := run ins a' in
  let s := spec_run total cell deadline ins ∅ in
  fst r = fst s ∧ (complete (snd r) = true ↔ whole total (snd s)) ∧
  (∀ i b, snd s !! i = Some b → data (snd r) !! i = Some b) ∧ received_ (snd r) = Z.of_nat (size (snd s)).
Proof.
  intros Ht Hb. destruct (begin_holds _ _ _ _ _ _ _ Ht Hb) as (Hh & <- & <- & <-). cbv zeta.
  destruct (run_refines ins a' ∅ Hh) as (Hr & Hh2 & Ht2). set (m := snd (spec_run _ _ _ ins ∅)) in *. clearbody m.
  split; [exact Hr|]. split; [rewrite <-Ht2; by apply holds_whole|]. split; [|apply (h_received _ _ Hh2)].
  intros i b Hi. rewrite (h_map _ _ Hh2) in Hi. unfold data. case_bool_decide; [|done].
  destruct (marked _ _); [|done]. by rewrite lookup_take_lt.
Qed.

(** The grid chunk of an object at cell [k]. *)
Definition slice (cell : nat) (obj : list Z) (k now : nat) : Insertion :=
  (k * cell, take cell (drop (k * cell) obj), Z.of_nat now).

Definition in_time (deadline : Z) (now : nat) : Prop := deadline = 0%Z ∨ (Z.of_nat now < deadline)%Z.

Lemma slice_on_grid cell (obj : list Z) k :
  0 < cell → k * cell < length obj → off_grid (length obj) cell (k * cell) (length (take cell (drop (k * cell) obj))) = false.
Proof.
  intros Hc Hk. rewrite length_take, length_drop. unfold off_grid.
  rewrite !orb_false_iff, andb_false_iff, !orb_false_iff, !negb_false_iff.
  rewrite Nat.eqb_neq, Nat.leb_gt, Nat.ltb_ge, !Nat.eqb_eq. split; [lia|]. right. split; [apply Nat.Div0.mod_mul|].
  destruct (Nat.ltb_spec (length obj - k * cell) cell); lia.
Qed.

(** A map that holds only bytes of the object keeps doing so, and gains the
    slice. *)
Lemma spec_slice cell deadline obj k now (m : gmap nat Z) :
  0 < cell → k * cell < length obj → in_time deadline now → m ⊆ chunk_map 0 obj →
  let '(offset, chunk, t) := slice cell obj k now in
  ∃ m', spec_insert (length obj) cell deadline offset chunk t m = (Ok tt, m') ∧ m ⊆ m' ∧ m' ⊆ chunk_map 0 obj ∧
    ∀ i, i / cell = k → i < length obj → is_Some (m' !! i).
Proof.
  intros Hc Hk Htime Hm. unfold slice, spec_insert.
  assert (He : negb (bool_decide (deadline = 0%Z)) && bool_decide (deadline ≤ Z.of_nat now)%Z = false).
  { destruct Htime as [->|Hlt]; [done|]. apply andb_false_iff. right. apply bool_decide_eq_false. lia. }
  rewrite He, slice_on_grid by done. clear He. set (chunk := take cell (drop (k * cell) obj)).
  assert (Hsub : chunk_map (k * cell) chunk ⊆ chunk_map 0 obj).
  { apply map_subseteq_spec. intros i x. rewrite (chunk_map_lookup (k * cell)).
    case_bool_decide as Hi; [|done]. rewrite chunk_map_lookup. unfold chunk in *.
    rewrite length_take, length_drop in Hi. rewrite lookup_take_lt by lia. rewrite lookup_drop.
    rewrite bool_decide_eq_true_2 by lia. rewrite Nat.sub_0_r. by replace (k * cell + (i - k * cell)) with i by lia. }
  assert (Hag : agrees m (chunk_map (k * cell) chunk)).
  { intros i x Hx. destruct (m !! i) as [y|] eqn:Hy; [|done]. cbn [default]. unfold id.
    eapply lookup_weaken in Hx; [|exact Hsub]. eapply lookup_weaken in Hy; [|exact Hm]. congruence. }
  rewrite bool_decide_eq_true_2 by done. eexists. split; [done|]. split; [apply map_union_subseteq_l|].
  split; [by apply map_union_least|]. intros i Hi Hl. rewrite lookup_union_is_Some. right. rewrite chunk_map_lookup.
  unfold chunk. rewrite length_take, length_drop. pose proof (Nat.div_mod_eq i cell) as Hd.
  pose proof (Nat.mod_upper_bound i cell ltac:(lia)). rewrite Hi in Hd.
  rewrite bool_decide_eq_true_2 by nia. apply lookup_lt_is_Some. rewrite length_take, length_drop. nia.
Qed.

Lemma spec_run_slices cell deadline obj ks : ∀ m : gmap nat Z,
  0 < cell → m ⊆ chunk_map 0 obj →
  Forall (λ p : nat * nat, p.1 * cell < length obj ∧ in_time deadline p.2) ks →
  let s := spec_run (length obj) cell deadline (map (λ p : nat * nat, slice cell obj p.1 p.2) ks) m in
  Forall (λ r, r = Ok tt) (fst s) ∧ m ⊆ snd s ∧ snd s ⊆ chunk_map 0 obj ∧
  ∀ i, i < length obj → i / cell ∈ ks.*1 → is_Some (snd s !! i).
Proof.
  induction ks as [|[k now] ks IH]; intros m Hc Hm Hks; cbn [map spec_run].
  { split; [constructor|]. split; [done|]. split; [done|]. intros i _ Hin. by apply elem_of_nil in Hin. }
  apply Forall_cons in Hks as [[Hk Ht] Hks]. cbn [fst snd] in Hk, Ht.
  pose proof (spec_slice cell deadline obj k now m Hc Hk Ht Hm) as Hs. unfold slice in *. cbn [fst snd].
  destruct Hs as (m1 & He & Hsub1 & Hm1 & Hgain). rewrite He. specialize (IH m1 Hc Hm1 Hks). unfold slice in IH.
  destruct (spec_run _ _ _ _ m1) as [rs m2]. cbn [fst snd] in *. destruct IH as (Hrs & Hsub2 & Hm2 & Hall).
  split; [by constructor|]. split; [by etrans|]. split; [done|].
  intros i Hi [Hik|Hin]%elem_of_cons; [|by apply Hall].
  destruct (Hgain i Hik Hi) as [b Hb]. exists b. by eapply lookup_weaken.
Qed.

(** C38: if every chunk of the object's grid arrives before the deadline, in
    any order and any number of times, each insertion succeeds, the assembly
    ends complete and its data is the object. *)
Theorem assembly_delivers_object storage bitmap cell deadline a a' obj ks :
  (Z.of_nat (length obj) ≤ UINT16_MAX)%Z →
  begin storage bitmap (length obj) cell deadline a = (Ok tt, a') →
  Forall (λ p : nat * nat, p.1 * cell < length obj ∧ in_time deadline p.2) ks →
  (∀ k, k * cell < length obj → k ∈ ks.*1) →
  let r := run (map (λ p : nat * nat, slice cell obj p.1 p.2) ks) a' in
  Forall (λ x, x = Ok tt) (fst r) ∧ complete (snd r) = true ∧ data (snd r) = obj.
Proof.
  intros Ht Hb Hks Hall. cbv zeta. destruct (begin_holds _ _ _ _ _ _ _ Ht Hb) as (Hh & Htot & Hcell & Hdead).
  pose proof (h_cell _ _ Hh) as Hc. rewrite Hcell in Hc.
  set (ins := map (λ p : nat * nat, slice cell obj p.1 p.2) ks).
  destruct (run_refines ins a' ∅ Hh) as (Hr & Hh2 & Ht2).
  destruct (spec_run_slices cell deadline obj ks ∅ Hc (map_empty_subseteq _) Hks) as (Hok & _ & Hsub & Hgain).
  fold ins in Hok, Hsub, Hgain. rewrite Htot, Hcell, Hdead in *. set (m := snd (spec_run _ _ _ ins ∅)) in *. clearbody m.
  assert (Hw : whole (length obj) m).
  { intros i Hi. apply Hgain; [done|]. apply Hall. pose proof (Nat.Div0.mul_div_le i cell). lia. }
  split; [by rewrite Hr|]. split; [apply (holds_whole _ _ Hh2); by rewrite Ht2|].
  pose proof (h_storage _ _ Hh2) as Hst. rewrite Ht2 in Hst. unfold data. rewrite Ht2.
  apply list_eq. intros i. destruct (decide (i < length obj)) as [Hi|Hi].
  - destruct (Hw i Hi) as [x Hx]. rewrite lookup_take_lt by done. pose proof (lookup_weaken _ _ _ _ Hx Hsub) as Ho.
    rewrite chunk_map_lookup, bool_decide_eq_true_2, Nat.sub_0_r in Ho by lia. rewrite Ho.
    rewrite (h_map _ _ Hh2) in Hx. destruct (_ && _) in Hx; [done|done].
  - rewrite lookup_take_ge by lia. symmetry. apply lookup_ge_None. lia.
Qed.

Definition demo_object : list Z := [10; 20; 30; 40; 50]%Z.
Definition demo_order : list (nat * nat) := [(2, 5); (0, 6); (2, 7); (1, 8)].

Lemma assembly_delivers_object_witness :
  ∃ a', begin (replicate 8 0%Z) [0%Z] 5 2 100 idle = (Ok tt, a') ∧
  complete (snd (run (map (λ p : nat * nat, slice 2 demo_object p.1 p.2) demo_order) a')) = true ∧
  data (snd (run (map (λ p : nat * nat, slice 2 demo_object p.1 p.2) demo_order) a')) = demo_object.
Proof.
  eexists. split; [reflexivity|].
  assert (H1 : (Z.of_nat (length demo_object) ≤ UINT16_MAX)%Z) by (by vm_compute).
  assert (H2 : Forall (λ p : nat * nat, p.1 * 2 < length demo_object ∧ in_time 100 p.2) demo_order).
  { repeat (constructor; [split; [vm_compute; lia|right; vm_compute; reflexivity]|]). constructor. }
  assert (H3 : ∀ k, k * 2 < length demo_object → k ∈ demo_order.*1).
  { intros k Hk. change (length demo_object) with 5 in Hk. assert (k = 0 ∨ k = 1 ∨ k = 2) as [ -> | [ -> | -> ] ] by lia;
      apply (bool_decide_unpack _); by vm_compute. }
  exact (proj2 (assembly_delivers_object (replicate 8 0%Z) [0%Z] 2 100 idle _ demo_object demo_order H1 eq_refl H2 H3)).
Defined.

Lemma assembly_refines_partial_map_witness :
  let ins := [(0, [1; 2]%Z, 5%Z); (0, [1; 9]%Z, 6%Z); (1, [2; 3]%Z, 7%Z); (3, [4]%Z, 50%Z)] in
  ∃ a', begin (replicate 4 0%Z) [0%Z] 4 1 40 idle = (Ok tt, a') ∧
  is_ok <$> fst (run ins a') = [true; false; true; false] ∧
  fst (run ins a') = fst (spec_run 4 1 40 ins ∅) ∧ received_ (snd (run ins a')) = 3%Z.
Proof.
  intros ins. eexists. split; [reflexivity|]. split; [by vm_compute|].
  assert (H1 : (Z.of_nat 4 ≤ UINT16_MAX)%Z) by (by vm_compute).
  split; [|by vm_compute].
  exact (proj1 (assembly_refines_partial_map (replicate 4 0%Z) [0%Z] 4 1 40 idle _ ins H1 eq_refl)).
Defined.
