(* ===== verification/Congestion.v ===== *)
(** * Congestion arithmetic (congestion.hpp)

    The scheduling classes, the admission verdicts, the smoothed averages and
    the pure cost functions that couple local congestion to link costs.
    Metrics are 16-bit, delays and percentages 32-bit and counters 64-bit
    unsigned, with the wrap-around of each operation written out; the lemmas
    below give the unbounded formula each function computes. *)

From S2P Require Import Prelude Types Routing.

(** ** Pinned parameters *)

(** [enum class SchedClass] *)
Inductive SchedClass := Management | Urgent | Normal | Bulk.
#[global] Instance SchedClass_eq_dec : EqDecision SchedClass.
Proof. solve_decision. Defined.

Definition kSchedClassCount : nat := 4.
Definition sched_class_index (value : SchedClass) : nat :=
  match value with Management => 0 | Urgent => 1 | Normal => 2 | Bulk => 3 end%nat.
Definition sched_class_weight (value : SchedClass) : Z :=
  match value with Management => 4 | Urgent => 8 | Normal => 4 | Bulk => 1 end.

Definition kFlowDescriptorsMax : nat := 32.
Definition kQueueWatermarkBackgroundPercent : Z := 50.
Definition kQueueWatermarkStopPercent : Z := 80.
Definition kQueueTargetMs : Z := 50.
Definition kQueuePenaltyStepMs : Z := 50.
Definition kQueuePenaltyMaxMultiple : Z := 4.
Definition kRefusalStepWatermarkLowPercent : Z := 50.
Definition kRefusalStepPerTenPercent : Z := 10.
Definition kLinkCostRelaxSnapDivisor : Z := 4.
Definition kExchangeMinAccepts : Z := 4.
Definition kPeerWindowMin : Z := 1.
Definition kPeerWindowInitial : Z := 2.
Definition kPeerWindowMax : Z := 4.
Definition kLinkRtoMinMs : Z := 20.
Definition kLinkRtoMaxMs : Z := 250.
Definition kLinkRtoMargin : Z := 2.
Definition kObservationWindowMs : Z := 2000.
Definition kFeedbackTtlMs : Z := 3000.
Definition kLinkCostRelaxWindowMs : Z := kObservationWindowMs.
Definition kTxFrameFixedCostBytes : Z := 96.

Definition frame_length_class (encoded_size : Z) : Z :=
  if bool_decide (encoded_size ≤ 96) then 0 else if bool_decide (encoded_size ≤ 180) then 1 else 2.

(** [enum class AdmitVerdict]; [Admissible] is its first enumerator. *)
Inductive AdmitVerdict := Admissible | PoolFull | ScopeLimited | OriginLimited | BulkSuspended | ControlFull.
#[global] Instance AdmitVerdict_eq_dec : EqDecision AdmitVerdict.
Proof. solve_decision. Defined.

(** [enum class AirtimeDomain] *)
Inductive AirtimeDomain := Ack | Work | Control | Optimization | Misc.

(** ** Averages and evidence *)

(** Smoothing with factor 1/8; [samples] counts this sample. *)
Definition ewma_add (ewma sample samples : Z) : Z :=
  if bool_decide (samples ≤ 1) then sample
  else if bool_decide (ewma ≤ sample) then u32 (ewma + u32 (sample - ewma) / 8)
  else u32 (ewma - u32 (ewma - sample) / 8).

(** The fields of [ObservationWindow] and [ObservationBucket] that
    [positive_metric_input] reads. *)
Record ObservationWindow := mkWindow {
  last_sample_ms : Z; sources : Z; present : bool; incomplete : bool }.
Record ObservationBucket := mkBucket { current : ObservationWindow; stale : bool }.

Definition kLocalDriverBit : Z := Z.shiftl 1 1.

Definition positive_metric_input (b : ObservationBucket) (now_ms : Z) : bool :=
  if negb (present (current b)) || incomplete (current b) || stale b then false
  else if negb (bool_decide (sources (current b) = kLocalDriverBit)) then false
  else if bool_decide (now_ms < last_sample_ms (current b)) then false
  else bool_decide (u64 (now_ms - last_sample_ms (current b)) ≤ kFeedbackTtlMs).

(** ** Cost functions *)

Definition measured_link_base (nominal work accepts : Z) : Z :=
  if bool_decide (nominal = kInfiniteRouteMetric) then nominal
  else if bool_decide (nominal = 0) then 1
  else if bool_decide (accepts = 0) || bool_decide (work ≤ accepts) then nominal
  else
    let scaled := u64 (nominal * work) in
    let value := u64 (u64 (scaled + accepts) - 1) / accepts in
    if bool_decide (kInfiniteRouteMetric ≤ value) then kInfiniteRouteMetric
    else if bool_decide (value = 0) then 1 else u16 value.

Definition queue_penalty_steps (queue_ms : Z) : Z :=
  let excess := if bool_decide (kQueueTargetMs < queue_ms) then u32 (queue_ms - kQueueTargetMs) else 0 in
  let steps := u64 (u64 (excess + kQueuePenaltyStepMs) - 1) / kQueuePenaltyStepMs in
  if bool_decide (kQueuePenaltyMaxMultiple < steps) then kQueuePenaltyMaxMultiple else u32 steps.

Definition refusal_penalty_steps (occupancy_percent : Z) : Z :=
  if bool_decide (occupancy_percent < kRefusalStepWatermarkLowPercent) then 0
  else
    let steps := u32 (1 + u32 (occupancy_percent - kRefusalStepWatermarkLowPercent) / kRefusalStepPerTenPercent) in
    if bool_decide (kQueuePenaltyMaxMultiple < steps) then kQueuePenaltyMaxMultiple else steps.

Definition refusal_floor_active (occupancy_percent last_refusal_ms now_ms : Z) : bool :=
  bool_decide (kRefusalStepWatermarkLowPercent ≤ occupancy_percent) &&
  negb (bool_decide (last_refusal_ms = 0)) &&
  bool_decide (u64 (now_ms - last_refusal_ms) ≤ kObservationWindowMs).

Definition penalized_cost (base multiple : Z) : Z :=
  if bool_decide (base = kInfiniteRouteMetric) then base
  else if bool_decide (base = 0) then 1
  else
    let total := u64 (base * u64 (1 + multiple)) in
    if bool_decide (kInfiniteRouteMetric ≤ total) then kInfiniteRouteMetric else u16 total.

Definition queue_penalized_cost (base queue_ms : Z) : Z := penalized_cost base (queue_penalty_steps queue_ms).

Definition relax_link_cost (current target base : Z) : Z :=
  let excess := if bool_decide (target < current) then u32 (current - target) else 0 in
  let snap := if bool_decide (0 < base / kLinkCostRelaxSnapDivisor) then base / kLinkCostRelaxSnapDivisor else 1 in
  if bool_decide (excess ≤ snap) then target
  else
    let step := if bool_decide (0 < excess / 2) then excess / 2 else 1 in
    u16 (current - step).

(** ** What the functions compute *)

Lemma ewma_between ewma sample samples :
  is_u32 ewma → is_u32 sample →
  Z.min ewma sample ≤ ewma_add ewma sample samples ≤ Z.max ewma sample.
Proof.
  intros He Hs. unfold ewma_add. destruct He, Hs. repeat case_bool_decide; [lia| |].
  - rewrite (wrap_id 32 (sample - ewma)) by (split; lia).
    pose proof (Z.div_le_mono (sample - ewma) (8 * (sample - ewma)) 8 ltac:(lia) ltac:(lia)) as Hd.
    rewrite (Z.mul_comm 8), Z.div_mul in Hd by lia.
    pose proof (Z.div_pos (sample - ewma) 8 ltac:(lia) ltac:(lia)). rewrite wrap_id by (split; lia). lia.
  - rewrite (wrap_id 32 (ewma - sample)) by (split; lia).
    pose proof (Z.div_le_mono (ewma - sample) (8 * (ewma - sample)) 8 ltac:(lia) ltac:(lia)) as Hd.
    rewrite (Z.mul_comm 8), Z.div_mul in Hd by lia.
    pose proof (Z.div_pos (ewma - sample) 8 ltac:(lia) ltac:(lia)). rewrite wrap_id by (split; lia). lia.
Qed.

Lemma queue_penalty_steps_range queue_ms : is_u32 queue_ms → 0 ≤ queue_penalty_steps queue_ms ≤ kQueuePenaltyMaxMultiple.
Proof.
  intros [Hlo Hhi]. unfold queue_penalty_steps, kQueueTargetMs, kQueuePenaltyStepMs, kQueuePenaltyMaxMultiple.
  set (e := if bool_decide (50 < queue_ms) then _ else 0).
  assert (He : 0 ≤ e < 2 ^ 32). { unfold e. case_bool_decide; [by apply wrap_range|lia]. }
  clearbody e. rewrite (wrap_id 64 (e + 50)) by (split; lia). rewrite (wrap_id 64) by (split; lia).
  pose proof (Z.div_pos (e + 50 - 1) 50 ltac:(lia) ltac:(lia)).
  case_bool_decide; [lia|]. rewrite wrap_id by (split; lia). lia.
Qed.

Lemma refusal_penalty_steps_range occupancy :
  is_u32 occupancy → 0 ≤ refusal_penalty_steps occupancy ≤ kQueuePenaltyMaxMultiple.
Proof.
  intros [Hlo Hhi]. unfold refusal_penalty_steps, kRefusalStepWatermarkLowPercent, kRefusalStepPerTenPercent,
    kQueuePenaltyMaxMultiple. case_bool_decide; [lia|]. rewrite (wrap_id 32 (occupancy - 50)) by (split; lia).
  pose proof (Z.div_pos (occupancy - 50) 10 ltac:(lia) ltac:(lia)).
  pose proof (Z.div_le_upper_bound (occupancy - 50) 10 (2 ^ 31) ltac:(lia) ltac:(lia)).
  rewrite wrap_id by (split; lia). case_bool_decide; lia.
Qed.

(** A measured base is never below the nominal cost and never zero. *)
Lemma measured_link_base_ge nominal work accepts :
  0 < nominal ≤ kInfiniteRouteMetric → is_u32 work → is_u32 accepts →
  nominal ≤ measured_link_base nominal work accepts ≤ kInfiniteRouteMetric.
Proof.
  unfold measured_link_base, kInfiniteRouteMetric, UINT16_MAX. intros Hn [Hw0 Hw] [Ha0 Ha].
  case_bool_decide; [lia|]. case_bool_decide; [lia|].
  destruct (bool_decide (accepts = 0) || _) eqn:Hor; [lia|]. bdec. destruct Hor as [Hz Hlt]. cbv zeta.
  rewrite (wrap_id 64 (nominal * work)) by (split; nia).
  rewrite (wrap_id 64 (nominal * work + accepts)) by (split; nia). rewrite (wrap_id 64) by (split; nia).
  assert (nominal ≤ (nominal * work + accepts - 1) / accepts) by (apply Z.div_le_lower_bound; nia).
  case_bool_decide; [lia|]. case_bool_decide; [lia|]. rewrite wrap_id by (split; lia). lia.
Qed.

Lemma penalized_cost_formula base multiple :
  0 < base ≤ kInfiniteRouteMetric → 0 ≤ multiple ≤ kQueuePenaltyMaxMultiple →
  penalized_cost base multiple = Z.min kInfiniteRouteMetric (base * (1 + multiple)).
Proof.
  unfold penalized_cost, kInfiniteRouteMetric, UINT16_MAX, kQueuePenaltyMaxMultiple. intros Hb Hm.
  case_bool_decide; [nia|]. case_bool_decide; [lia|]. cbv zeta.
  rewrite (wrap_id 64 (1 + multiple)) by (split; lia). rewrite (wrap_id 64) by (split; nia).
  case_bool_decide; [lia|]. rewrite wrap_id by (split; nia). lia.
Qed.

Lemma relax_excess current target :
  is_u16 current → is_u16 target → target ≤ current →
  (if bool_decide (target < current) then u32 (current - target) else 0) = current - target.
Proof. intros [] [] Hle. case_bool_decide; [|lia]. apply wrap_id. split; lia. Qed.

Lemma relax_link_cost_between current target base :
  is_u16 current → is_u16 target → target ≤ current →
  target ≤ relax_link_cost current target base ≤ current ∧
  relax_link_cost current target base - target ≤ (current - target + 1) / 2 ∧
  (target < current → relax_link_cost current target base < current).
Proof.
  intros Hc Ht Hle. unfold relax_link_cost. set (snap := if bool_decide (0 < base / _) then _ else _).
  assert (Hs : 1 ≤ snap) by (unfold snap; case_bool_decide; lia). clearbody snap.
  pose proof (Z.div_pos (current - target + 1) 2 ltac:(lia) ltac:(lia)).
  rewrite relax_excess by done. destruct Hc, Ht. case_bool_decide; [lia|].
  pose proof (Z.div_mod (current - target) 2 ltac:(lia)). pose proof (Z.mod_pos_bound (current - target) 2 ltac:(lia)).
  pose proof (Z.div_mod (current - target + 1) 2 ltac:(lia)). pose proof (Z.mod_pos_bound (current - target + 1) 2 ltac:(lia)).
  rewrite bool_decide_eq_true_2 by lia. rewrite wrap_id by (split; lia). lia.
Qed.

Lemma relax_link_cost_snaps current target base :
  is_u16 current → is_u16 target → target ≤ current ≤ target + 1 → relax_link_cost current target base = target.
Proof.
  intros Hc Ht Hle. unfold relax_link_cost. set (snap := if bool_decide (0 < base / _) then _ else _).
  assert (Hs : 1 ≤ snap) by (unfold snap; case_bool_decide; lia). clearbody snap.
  rewrite relax_excess by (done || lia). rewrite bool_decide_eq_true_2 by lia. done.
Qed.

(** With base 5 the quarter rounded up is 2, yet a residual of 2 is halved. *)
Example relax_snap_is_floored : relax_link_cost 12 10 5 = 11 ∧ (5 + kLinkCostRelaxSnapDivisor - 1) / kLinkCostRelaxSnapDivisor = 2.
Proof. split; reflexivity. Qed.

(** [n] relax steps toward the same target. *)
Fixpoint relax_run (n : nat) (current target base : Z) : Z :=
  match n with O => current | S k => relax_run k (relax_link_cost current target base) target base end.

Lemma relax_run_bound n : ∀ current target base,
  is_u16 current → is_u16 target → target ≤ current ≤ target + 2 ^ Z.of_nat n →
  target ≤ relax_run n current target base ≤ Z.min current (target + 1).
Proof.
  induction n as [|n IH]; intros current target base Hc Ht Hle; cbn [relax_run]; [lia|].
  destruct (relax_link_cost_between current target base Hc Ht ltac:(lia)) as (Hb & Hhalf & _).
  assert ((current - target + 1) / 2 ≤ 2 ^ Z.of_nat n).
  { rewrite Nat2Z.inj_succ, Z.pow_succ_r in Hle by lia. apply Z.lt_succ_r, Z.div_lt_upper_bound; lia. }
  assert (target ≤ relax_run n (relax_link_cost current target base) target base ≤
          Z.min (relax_link_cost current target base) (target + 1)); [|lia].
  apply IH; [split; unfold in_range in *; lia|done|lia].
Qed.

Lemma relax_run_snoc n current target base :
  relax_run (S n) current target base = relax_link_cost (relax_run n current target base) target base.
Proof. revert current. induction n as [|n IH]; intros c; [done|]. cbn [relax_run] in *. by rewrite IH. Qed.

(** Sixteen steps bring any 16-bit excess within one of the target, and one
    more closes it. *)
Lemma relax_run_reaches current target base :
  is_u16 current → is_u16 target → target ≤ current → relax_run 17 current target base = target.
Proof.
  intros Hc Ht Hle. assert (Hb : target ≤ relax_run 16 current target base ≤ Z.min current (target + 1)).
  { apply relax_run_bound; [done|done|]. unfold in_range in *. change (2 ^ Z.of_nat 16) with (2 ^ 16). lia. }
  rewrite relax_run_snoc. apply relax_link_cost_snaps; unfold in_range in *; lia.
Qed.
