(* ===== verification/JobList.v ===== *)
(** * The intrusive job lists of the transmit scheduler (node.hpp, node_scheduler.cpp)

    [TxScheduler::JobList] links jobs of one shared pool through their
    [flow_next] field.  Here the links of all pool slots are one store, a list
    is a record of head, tail and count, and a family of lists that share the
    store refines a family of disjoint sequences of slots.  The scheduler is
    modelled on the sequences. *)

From S2P Require Import Prelude.

Local Open Scope nat_scope.

(** The [flow_next] fields of the pool, by slot. *)
Abbreviation Links := (list (option nat)).
Definition flow_next (links : Links) (job : nat) : option nat := links !! job ≫= id.
Definition set_flow_next (job : nat) (next : option nat) (links : Links) : Links := <[job := next]> links.

(** [struct JobList] *)
Record JobList := mkJobList { head : option nat; tail : option nat; count : nat }.

Definition nil_list : JobList := mkJobList None None 0.
Definition empty (l : JobList) : bool := bool_decide (head l = None).

Definition push_back (job : nat) (l : JobList) (links : Links) : JobList * Links :=
  let links1 := set_flow_next job None links in
  let links2 := match tail l with Some t => set_flow_next t (Some job) links1 | None => links1 end in
  (mkJobList (match head l with None => Some job | Some h => Some h end) (Some job) (count l + 1), links2).

Definition push_front (job : nat) (l : JobList) (links : Links) : JobList * Links :=
  (mkJobList (Some job) (match tail l with None => Some job | Some t => Some t end) (count l + 1),
   set_flow_next job (head l) links).

Definition pop_front (l : JobList) (links : Links) : option nat * JobList * Links :=
  match head l with
  | None => (None, l, links)
  | Some job =>
      let head1 := flow_next links job in
      (Some job, mkJobList head1 (match head1 with None => None | Some _ => tail l end) (count l - 1),
       set_flow_next job None links)
  end.

(** The [unlink_from] loop; [fuel] bounds the chain and is the pool size. *)
Fixpoint unlink_loop (fuel : nat) (job : nat) (previous cursor : option nat) (l : JobList) (links : Links)
  : bool * JobList * Links :=
  match fuel, cursor with
  | S k, Some c =>
      if c =? job then
        let after := flow_next links c in
        let l1 := match previous with None => mkJobList after (tail l) (count l) | Some _ => l end in
        let links1 := match previous with None => links | Some p => set_flow_next p after links end in
        let l2 := if bool_decide (tail l1 = Some c) then mkJobList (head l1) previous (count l1) else l1 in
        (true, mkJobList (head l2) (tail l2) (count l2 - 1), set_flow_next c None links1)
      else unlink_loop k job (Some c) (flow_next links c) l links
  | _, _ => (false, l, links)
  end.

Definition unlink_from (job : nat) (l : JobList) (links : Links) : bool * JobList * Links :=
  unlink_loop (S (length links)) job None (head l) l links.

(** [unlink] tries the lists in turn until one holds the job. *)
Fixpoint unlink (job : nat) (ls : list JobList) (links : Links) : list JobList * Links :=
  match ls with
  | [] => ([], links)
  | l :: rest =>
      let '(found, l1, links1) := unlink_from job l links in
      if found then (l1 :: rest, links1)
      else let '(rest1, links2) := unlink job rest links1 in (l1 :: rest1, links2)
  end.

(** ** One list *)

Record linked (links : Links) (l : JobList) (xs : list nat) : Prop := {
  lk_head : head l = list.head xs;
  lk_tail : tail l = last xs;
  lk_count : count l = length xs;
  lk_nodup : NoDup xs;
  lk_range : Forall (λ x, x < length links) xs;
  lk_next : ∀ i x, xs !! i = Some x → flow_next links x = xs !! S i }.

Lemma flow_next_set links j k v :
  j < length links → flow_next (set_flow_next j v links) k = if decide (k = j) then v else flow_next links k.
Proof.
  intros Hj. unfold flow_next, set_flow_next. destruct (decide (k = j)) as [->|Hne].
  - by rewrite list_lookup_insert_eq.
  - by rewrite list_lookup_insert_ne.
Qed.

(** A list is unaffected by writes outside its slots. *)
Lemma linked_frame links l xs j v :
  j < length links → j ∉ xs → linked links l xs → linked (set_flow_next j v links) l xs.
Proof.
  intros Hj Hout []. split; try done; [by unfold set_flow_next; rewrite length_insert|].
  intros i x Hx. rewrite flow_next_set by done. rewrite decide_False; [auto|].
  intros ->. apply Hout. by apply list_elem_of_lookup_2 in Hx.
Qed.

Lemma linked_nil links : linked links nil_list [].
Proof. split; try done; constructor. Qed.

Lemma push_back_linked links l xs job :
  linked links l xs → job < length links → job ∉ xs →
  linked (snd (push_back job l links)) (fst (push_back job l links)) (xs ++ [job]).
Proof.
  intros Hl Hj Hout. pose proof Hl as []. unfold push_back. cbn [fst snd].
  assert (Hr : Forall (λ x, x < length links) (xs ++ [job])) by (by apply Forall_app_2; [|constructor]).
  split; cbn [head tail count].
  - rewrite lk_head0. by destruct xs.
  - by rewrite last_snoc.
  - rewrite length_app. simpl. lia.
  - apply NoDup_app. split; [done|]. split; [|apply NoDup_singleton]. intros x Hx ->%list_elem_of_singleton. done.
  - destruct (tail l); unfold set_flow_next; by rewrite ?length_insert.
  - rewrite lk_tail0. intros i x Hx. apply lookup_app_Some in Hx as [Hx|[Hge Hx]].
    + assert (Hxj : x ≠ job) by (intros ->; by apply Hout, (list_elem_of_lookup_2 _ i)).
      pose proof (lookup_lt_Some _ _ _ Hx) as Hlt. destruct (last xs) as [t|] eqn:Ht; [|by apply last_None in Ht; subst].
      assert (Htx : t ∈ xs) by (rewrite last_lookup in Ht; by apply (list_elem_of_lookup_2 _ (pred (length xs)))).
      rewrite flow_next_set by (unfold set_flow_next; rewrite length_insert; by apply (proj1 (Forall_forall _ _) lk_range0)).
      rewrite flow_next_set, (decide_False (P := x = job)) by done. rewrite last_lookup in Ht.
      destruct (decide (x = t)) as [->|Hxt].
      * assert (i = pred (length xs)) as -> by (by eapply NoDup_lookup).
        rewrite lookup_app_r by lia. by replace (S (pred (length xs)) - length xs) with 0 by lia.
      * rewrite (lk_next0 i x Hx). rewrite lookup_app_l; [done|].
        destruct (decide (S i = length xs)) as [He|]; [|lia]. replace (pred (length xs)) with i in Ht by lia. congruence.
    + apply list_lookup_singleton_Some in Hx as [Hi <-]. rewrite lookup_ge_None_2 by (rewrite length_app; simpl; lia).
      destruct (last xs) as [t|] eqn:Ht.
      * assert (Htx : t ∈ xs) by (rewrite last_lookup in Ht; by apply (list_elem_of_lookup_2 _ (pred (length xs)))).
        rewrite flow_next_set by (unfold set_flow_next; rewrite length_insert; by apply (proj1 (Forall_forall _ _) lk_range0)).
        rewrite decide_False by (by intros ->). by rewrite flow_next_set, decide_True.
      * by rewrite flow_next_set, decide_True.
Qed.

Lemma push_front_linked links l xs job :
  linked links l xs → job < length links → job ∉ xs →
  linked (snd (push_front job l links)) (fst (push_front job l links)) (job :: xs).
Proof.
  intros Hl Hj Hout. pose proof Hl as []. unfold push_front. cbn [fst snd].
  split; cbn [head tail count]; try done.
  - rewrite lk_tail0. destruct xs as [|y ys]; [done|]. rewrite last_cons_cons. by destruct (last (y :: ys)) eqn:Hy; [|apply last_None in Hy].
  - simpl. lia.
  - by constructor.
  - unfold set_flow_next. rewrite length_insert. by constructor.
  - intros [|i] x Hx; cbn in Hx.
    + injection Hx as <-. rewrite flow_next_set, decide_True by done. rewrite lk_head0. by destruct xs.
    + rewrite flow_next_set by done. rewrite decide_False; [by apply lk_next0|].
      intros ->. by apply Hout, (list_elem_of_lookup_2 _ i).
Qed.

Lemma pop_front_linked links l xs :
  linked links l xs →
  match xs with
  | [] => pop_front l links = (None, l, links)
  | x :: ys => ∃ l' links', pop_front l links = (Some x, l', links') ∧ linked links' l' ys ∧
                 links' = set_flow_next x None links
  end.
Proof.
  intros []. unfold pop_front. destruct xs as [|x ys]; [by rewrite lk_head0|]. rewrite lk_head0. cbn [list.head].
  eexists _, _. split; [done|]. split; [|done].
  apply NoDup_cons in lk_nodup0 as [Hx Hn]. apply Forall_cons in lk_range0 as [Hxl Hr].
  pose proof (lk_next0 0 x eq_refl) as H0. cbn in H0.
  assert (Hys : list.head ys = ys !! 0) by (by destruct ys).
  split; cbn [head tail count]; try done; [by rewrite H0, Hys| | |by unfold set_flow_next; rewrite length_insert|].
  - rewrite H0. destruct ys as [|y ys]; [done|]. by rewrite lk_tail0, last_cons_cons.
  - rewrite lk_count0. simpl. lia.
  - intros i y Hy. rewrite flow_next_set by done. rewrite decide_False; [exact (lk_next0 (S i) y Hy)|].
    intros ->. by apply Hx, (list_elem_of_lookup_2 _ i).
Qed.

(** The loop at position [length ys] of the chain, having passed [ys]. *)
Lemma unlink_loop_absent links l xs job ys zs fuel previous :
  linked links l xs → xs = ys ++ zs → job ∉ zs → length zs < fuel →
  unlink_loop fuel job previous (list.head zs) l links = (false, l, links).
Proof.
  intros Hl. revert ys zs previous. induction fuel as [|k IH]; intros ys zs previous Hxs Hj Hf; [lia|].
  destruct zs as [|z zs]; [done|]. cbn [list.head unlink_loop].
  apply not_elem_of_cons in Hj as [Hz Hj]. rewrite (proj2 (Nat.eqb_neq z job)) by congruence.
  assert (Hn : flow_next links z = list.head zs).
  { rewrite (lk_next _ _ _ Hl (length ys) z); [|by rewrite Hxs, list_lookup_middle].
    rewrite Hxs, lookup_app_r by lia. replace (S (length ys) - length ys) with 1 by lia. by destruct zs. }
  rewrite Hn. apply (IH (ys ++ [z])); [|done|simpl in Hf; lia]. by rewrite <- app_assoc.
Qed.

(** Removing a slot from the middle of a chain: the rest of the chain is
    linked once the predecessor, if any, points past it. *)
Lemma chain_without links links1 ws job zs :
  NoDup (ws ++ job :: zs) →
  (∀ i x, (ws ++ job :: zs) !! i = Some x → flow_next links x = (ws ++ job :: zs) !! S i) →
  (∀ x, x ∈ ws ++ zs → flow_next links1 x = if decide (Some x = last ws) then list.head zs else flow_next links x) →
  ∀ i x, (ws ++ zs) !! i = Some x → flow_next links1 x = (ws ++ zs) !! S i.
Proof.
  intros Hnd Hnext H1 i x Hx. apply NoDup_app in Hnd as (Hw & Hwz & Hz).
  rewrite H1 by (by apply list_elem_of_lookup_2 in Hx). apply lookup_app_Some in Hx as [Hx|[Hge Hx]].
  - pose proof (lookup_lt_Some _ _ _ Hx) as Hlt. destruct (decide (Some x = last ws)) as [He|He].
    + rewrite last_lookup in He. assert (i = pred (length ws)) as -> by (eapply NoDup_lookup; [exact Hw|done|congruence]).
      rewrite lookup_app_r by lia. replace (S (pred (length ws)) - length ws) with 0 by lia. by destruct zs.
    + rewrite (Hnext i x) by (by apply lookup_app_l_Some). destruct (decide (S i < length ws)).
      * by rewrite !lookup_app_l by lia.
      * exfalso. apply He. rewrite last_lookup. by replace (pred (length ws)) with i by lia.
  - rewrite decide_False.
    + rewrite (Hnext (S i) x).
      * rewrite !lookup_app_r by lia. by replace (S (S i) - length ws) with (S (S i - length ws)) by lia.
      * rewrite lookup_app_r by lia. by replace (S i - length ws) with (S (i - length ws)) by lia.
    + intros He. rewrite last_lookup in He. apply (Hwz x); [by apply (list_elem_of_lookup_2 _ (pred (length ws)))|].
      apply list_elem_of_further. by apply list_elem_of_lookup_2 in Hx.
Qed.

(** The tail after removing a slot: the predecessor when the slot was last. *)
Lemma last_without (ws zs : list nat) job :
  NoDup (ws ++ job :: zs) →
  (if bool_decide (last (ws ++ job :: zs) = Some job) then last ws else last (ws ++ job :: zs)) = last (ws ++ zs).
Proof.
  intros (_ & _ & [Hjz _]%NoDup_cons)%NoDup_app. destruct zs as [|z zs].
  - rewrite last_snoc, bool_decide_eq_true_2 by done. by rewrite app_nil_r.
  - rewrite !last_app_cons, last_cons_cons. rewrite bool_decide_eq_false_2; [done|].
    intros Hla. apply Hjz. rewrite last_lookup in Hla. by apply list_elem_of_lookup_2 in Hla.
Qed.

Lemma NoDup_without (ws zs : list nat) job : NoDup (ws ++ job :: zs) → NoDup (ws ++ zs) ∧ job ∉ ws ++ zs.
Proof. rewrite <- Permutation_middle, NoDup_cons. tauto. Qed.

(** The loop's step when the cursor is the job: [ws] was passed. *)
Lemma unlink_loop_here links l job ws zs k :
  linked links l (ws ++ job :: zs) →
  ∃ l' links', unlink_loop (S k) job (last ws) (Some job) l links = (true, l', links') ∧
    linked links' l' (ws ++ zs) ∧
    links' = set_flow_next job None (match last ws with Some p => set_flow_next p (list.head zs) links | None => links end).
Proof.
  intros []. cbn [unlink_loop]. rewrite Nat.eqb_refl. eexists _, _. split; [reflexivity|].
  assert (Hn : flow_next links job = list.head zs).
  { rewrite (lk_next0 (length ws) job); [|by rewrite list_lookup_middle]. rewrite lookup_app_r by lia.
    replace (S (length ws) - length ws) with 1 by lia. by destruct zs. }
  rewrite Hn. split; [|done]. destruct (NoDup_without _ _ _ lk_nodup0) as [Hnd Hj].
  pose proof (last_without _ _ _ lk_nodup0) as Hlast. rewrite <- lk_tail0 in Hlast.
  rewrite <- Permutation_middle, Forall_cons in lk_range0. destruct lk_range0 as [Hrj Hr].
  assert (Hlen : ∀ p (v : option nat) ln, length (set_flow_next p v ln) = length ln) by (intros; apply length_insert).
  assert (Hjx : ∀ x, x ∈ ws ++ zs → x ≠ job) by (by intros x Hx ->).
  pose proof (chain_without links) as Hchain. specialize (Hchain) with (1 := lk_nodup0) (2 := lk_next0).
  destruct (last ws) as [p|] eqn:Hlw.
  - assert (Hp : p ∈ ws) by (rewrite last_lookup in Hlw; by apply list_elem_of_lookup_2 in Hlw).
    assert (Hpl : p < length links) by (apply (proj1 (Forall_forall _ _) Hr); set_solver).
    split; [| | |done|by rewrite !Hlen|].
    + case_bool_decide; cbn [head]; rewrite lk_head0; by destruct ws.
    + cbn [tail]. rewrite <- Hlast. by case_bool_decide.
    + case_bool_decide; cbn [count]; rewrite lk_count0, !length_app; cbn [length]; lia.
    + apply Hchain. intros x Hx. rewrite flow_next_set by (by rewrite Hlen). rewrite decide_False by (by apply Hjx).
      rewrite flow_next_set by done. destruct (decide (x = p)) as [->|Hne]; [by rewrite decide_True|].
      by rewrite decide_False by congruence.
  - apply last_None in Hlw as ->. cbn [app tail head count] in *. split; [| | |done|by rewrite Hlen|].
    + by case_bool_decide.
    + cbn [tail]. rewrite <- Hlast. by case_bool_decide.
    + case_bool_decide; cbn [count]; rewrite lk_count0; cbn [length]; lia.
    + apply Hchain. intros x Hx. rewrite flow_next_set by done. rewrite decide_False by (by apply Hjx). by rewrite decide_False.
Qed.

Lemma unlink_loop_found links l job ws ys zs fuel :
  linked links l (ws ++ ys ++ job :: zs) → job ∉ ys → length ys < fuel →
  ∃ l' links', unlink_loop fuel job (last ws) (list.head (ys ++ job :: zs)) l links = (true, l', links') ∧
    linked links' l' (ws ++ ys ++ zs) ∧
    links' = set_flow_next job None (match last (ws ++ ys) with Some p => set_flow_next p (list.head zs) links | None => links end).
Proof.
  revert ws ys. induction fuel as [|k IH]; intros ws ys Hl Hj Hf; [lia|].
  destruct ys as [|y ys]; [rewrite app_nil_r; by apply unlink_loop_here|]. cbn [app list.head unlink_loop] in *.
  apply not_elem_of_cons in Hj as [Hy Hj]. rewrite (proj2 (Nat.eqb_neq y job)) by congruence.
  assert (Hn : flow_next links y = list.head (ys ++ job :: zs)).
  { rewrite (lk_next _ _ _ Hl (length ws) y); [|by rewrite list_lookup_middle].
    rewrite lookup_app_r by lia. replace (S (length ws) - length ws) with 1 by lia. by destruct ys. }
  rewrite Hn. replace (Some y) with (last (ws ++ [y])) by (by rewrite last_snoc).
  destruct (IH (ws ++ [y]) ys) as (l' & links' & He & Hk & Hs); [by rewrite <- app_assoc|done|simpl in Hf; lia|].
  exists l', links'. split; [done|]. rewrite <- !app_assoc in Hk, Hs. by split.
Qed.

(** ** A family of lists over one store *)

Record family (links : Links) (ls : list JobList) (xss : list (list nat)) : Prop := {
  fm_linked : Forall2 (linked links) ls xss;
  fm_disjoint : NoDup (concat xss) }.

Lemma unlink_from_spec links l xs job :
  linked links l xs →
  ((job ∉ xs) ∧ unlink_from job l links = (false, l, links)) ∨
  (∃ ys zs l' links', xs = ys ++ job :: zs ∧ unlink_from job l links = (true, l', links') ∧
     linked links' l' (ys ++ zs) ∧ length links' = length links ∧
     ∀ l2 xs2, linked links l2 xs2 → xs2 ## xs → linked links' l2 xs2).
Proof.
  intros Hl. pose proof (lk_head _ _ _ Hl) as Hh. unfold unlink_from.
  assert (Hlen : length xs ≤ length links).
  { rewrite <- (length_seq (length links) 0). apply submseteq_length, NoDup_submseteq; [apply Hl|].
    intros x Hx. apply elem_of_seq.
    assert (x < length links) by (exact (proj1 (Forall_forall _ _) (lk_range _ _ _ Hl) x Hx)). lia. }
  destruct (decide (job ∈ xs)) as [Hin|Hout]; [right|left].
  - apply list_elem_of_split in Hin as (ys & zs & ->).
    assert (Hj : job ∉ ys). { destruct (NoDup_without _ _ _ (lk_nodup _ _ _ Hl)) as [_ Hj]. set_solver. }
    rewrite length_app in Hlen. rewrite Hh.
    destruct (unlink_loop_found links l job [] ys zs (S (length links)) Hl Hj) as (l' & links' & He & Hk & Hs); [simpl in *; lia|].
    cbn [last app] in He, Hk, Hs. exists ys, zs, l', links'. split; [done|]. split; [exact He|]. split; [done|].
    pose proof (proj1 (Forall_forall _ _) (lk_range _ _ _ Hl)) as Hr.
    assert (Hset : ∀ a (v : option nat) ln, length (set_flow_next a v ln) = length ln) by (intros; apply length_insert).
    split; [rewrite Hs; destruct (last ys); by rewrite ?Hset|].
    intros l2 xs2 H2 Hd. rewrite Hs. assert (Hjl : job < length links) by (apply Hr; set_solver).
    assert (Hjd : job ∉ xs2) by set_solver.
    destruct (last ys) as [p|] eqn:Hp; [|by apply linked_frame].
    assert (Hpy : p ∈ ys) by (rewrite last_lookup in Hp; by apply list_elem_of_lookup_2 in Hp).
    apply linked_frame; [by rewrite Hset|done|]. apply linked_frame; [apply Hr; set_solver|set_solver|done].
  - split; [done|]. rewrite Hh. apply (unlink_loop_absent links l xs job []); [done|done|done|lia].
Qed.

(** Sequences after [unlink]. *)
Definition spec_unlink (job : nat) (xss : list (list nat)) : list (list nat) := filter (λ x, x ≠ job) <$> xss.

Lemma filter_absent (job : nat) (xs : list nat) : job ∉ xs → filter (λ x, x ≠ job) xs = xs.
Proof.
  induction xs as [|x xs IH]; [done|]. intros [Hx Hj]%not_elem_of_cons. rewrite filter_cons_True by congruence. by rewrite IH.
Qed.

Lemma filter_present (job : nat) (ys zs : list nat) : job ∉ ys → job ∉ zs → filter (λ x, x ≠ job) (ys ++ job :: zs) = ys ++ zs.
Proof. intros Hy Hz. rewrite filter_app, filter_cons_False, !filter_absent by (done || by intros []). done. Qed.

Lemma spec_unlink_absent job xss : job ∉ concat xss → spec_unlink job xss = xss.
Proof.
  induction xss as [|xs xss IH]; [done|]. cbn [concat spec_unlink fmap list_fmap]. rewrite elem_of_app. intros Hj.
  rewrite filter_absent by tauto. f_equal. apply IH. tauto.
Qed.

Lemma unlink_family links job ls : ∀ xss,
  family links ls xss → ∃ ls' links', unlink job ls links = (ls', links') ∧ family links' ls' (spec_unlink job xss) ∧
    length links' = length links ∧ ∀ l2 xs2, linked links l2 xs2 → xs2 ## concat xss → linked links' l2 xs2.
Proof.
  induction ls as [|l ls IH]; intros xss [Hall Hnd]; inversion Hall as [|? xs ? xss' Hl Hls]; subst; cbn [unlink].
  { exists [], links. split; [done|]. split; [by split|]. by split. }
  cbn [concat] in Hnd. apply NoDup_app in Hnd as (Hn1 & Hdis & Hn2).
  destruct (unlink_from_spec links l xs job Hl) as [[Hout ->]|(ys & zs & l1 & links1 & Hxs & -> & Hl1 & Hlen & Hfr)].
  - destruct (IH xss') as (ls2 & links2 & -> & Hfam & Hlen2 & Hfr2); [by split|]. exists (l :: ls2), links2.
    cbn [spec_unlink fmap list_fmap]. rewrite filter_absent by done. fold (spec_unlink job xss').
    split; [done|]. split; [|split; [done|intros l2 xs2 H2 Hd; apply Hfr2; [done|]; cbn [concat] in Hd; set_solver]].
    assert (Hsub : ∀ x, x ∈ concat (spec_unlink job xss') → x ∈ concat xss').
    { intros x. rewrite !elem_of_concat. intros (ws & Hx & Hw). apply list_elem_of_fmap in Hw as (vs & -> & Hv).
      apply list_elem_of_filter in Hx as [_ Hx]. by exists vs. }
    destruct Hfam as [Ha Hn]. split.
    + constructor; [|done]. apply Hfr2; [done|]. intros x Hx. by apply Hdis.
    + cbn [concat]. apply NoDup_app. split; [done|]. split; [|done]. intros x Hx Hx2. by apply (Hdis x Hx), Hsub.
  - subst xs. destruct (NoDup_without _ _ _ Hn1) as [Hnw Hjw]. exists (l1 :: ls), links1. split; [done|].
    cbn [spec_unlink fmap list_fmap]. fold (spec_unlink job xss').
    rewrite spec_unlink_absent by (apply Hdis; set_solver). rewrite filter_present by set_solver.
    split; [|split; [done|intros l2 xs2 H2 Hd; apply Hfr; [done|]; cbn [concat] in Hd; set_solver]]. split.
    + constructor; [done|]. clear IH Hall. assert (Hd2 : ∀ xs2, xs2 ∈ xss' → xs2 ## ys ++ job :: zs).
      { intros xs2 Hin x Hx Hx2. apply (Hdis x Hx2). apply elem_of_concat. by exists xs2. }
      clear Hdis Hn2. induction Hls as [|l2 xs2 ls2 xss2 H2 Hr IH2]; [constructor|].
      constructor; [apply Hfr; [done|apply Hd2; by left]|]. apply IH2. intros xs3 Hin. apply Hd2. by right.
    + cbn [concat]. apply NoDup_app. split; [done|]. split; [|done]. intros x Hx. apply Hdis. set_solver.
Qed.

(** ** Operations on the family *)

Inductive op := PushBack (k job : nat) | PushFront (k job : nat) | PopFront (k : nat) | Unlink (job : nat).

Definition on (k : nat) (ls : list JobList) (f : JobList → JobList * Links) (links : Links) : list JobList * Links :=
  match ls !! k with
  | Some l => let '(l1, links1) := f l in (<[k := l1]> ls, links1)
  | None => (ls, links)
  end.

Definition step (o : op) (s : list JobList * Links) : option nat * (list JobList * Links) :=
  let '(ls, links) := s in
  match o with
  | PushBack k job => (None, on k ls (λ l, push_back job l links) links)
  | PushFront k job => (None, on k ls (λ l, push_front job l links) links)
  | PopFront k =>
      match ls !! k with
      | Some l => let '(r, l1, links1) := pop_front l links in (r, (<[k := l1]> ls, links1))
      | None => (None, s)
      end
  | Unlink job => (None, unlink job ls links)
  end.

Definition spec_on (k : nat) (f : list nat → list nat) (xss : list (list nat)) : list (list nat) :=
  match xss !! k with Some xs => <[k := f xs]> xss | None => xss end.

Definition spec_step (o : op) (xss : list (list nat)) : option nat * list (list nat) :=
  match o with
  | PushBack k job => (None, spec_on k (λ xs, xs ++ [job]) xss)
  | PushFront k job => (None, spec_on k (cons job) xss)
  | PopFront k => (xss !! k ≫= list.head, spec_on k (@list.tail nat) xss)
  | Unlink job => (None, spec_unlink job xss)
  end.

(** A job is pushed only while it is in the pool and on no list. *)
Definition allowed (n : nat) (o : op) (xss : list (list nat)) : bool :=
  match o with
  | PushBack _ job | PushFront _ job => (job <? n) && bool_decide (job ∉ concat xss)
  | _ => true
  end.

Fixpoint run {S} (f : op → S → option nat * S) (os : list op) (s : S) : list (option nat) * S :=
  match os with
  | [] => ([], s)
  | o :: rest => let '(r, s1) := f o s in let '(rs, s2) := run f rest s1 in (r :: rs, s2)
  end.
Fixpoint all_allowed (n : nat) (os : list op) (xss : list (list nat)) : bool :=
  match os with
  | [] => true
  | o :: rest => allowed n o xss && all_allowed n rest (snd (spec_step o xss))
  end.

Lemma family_update links links' ls xss k l xs l' xs' :
  family links ls xss → ls !! k = Some l → xss !! k = Some xs →
  linked links' l' xs' →
  (∀ l2 xs2, linked links l2 xs2 → xs2 ## xs → xs2 ⊆ concat xss → linked links' l2 xs2) →
  (∀ rest, NoDup (xs ++ rest) → rest ⊆ concat xss → NoDup (xs' ++ rest)) →
  family links' (<[k := l']> ls) (<[k := xs']> xss).
Proof.
  intros [Hall Hnd] Hl Hx Hl' Hframe Hnd'. destruct (concat_insert_perm k xs xs' xss Hx) as (rest & Hp & Hp').
  split.
  - apply Forall2_same_length_lookup. split.
    { rewrite !length_insert. by apply Forall2_length in Hall. }
    intros i l2 xs2. destruct (decide (i = k)) as [->|Hne].
    + rewrite !list_lookup_insert_eq by (by eapply lookup_lt_Some). by intros [= <-] [= <-].
    + rewrite !list_lookup_insert_ne by done. intros Hl2 Hx2. pose proof (Forall2_lookup_lr _ _ _ _ _ _ Hall Hl2 Hx2) as H2.
      apply Hframe; [done| |intros x Hin; apply elem_of_concat; exists xs2; split; [done|by apply list_elem_of_lookup_2 in Hx2]].
      intros x Hin Hinx. destruct (concat_insert_perm i xs2 [] xss Hx2) as (rest2 & Hq & Hq').
      rewrite Hq in Hnd. apply NoDup_app in Hnd as (_ & Hd & _). apply (Hd x Hin).
      assert (Hin2 : x ∈ concat (<[i := []]> xss)).
      { apply elem_of_concat. exists xs. split; [done|]. apply list_elem_of_lookup. exists k. by rewrite list_lookup_insert_ne. }
      by rewrite Hq' in Hin2.
  - rewrite Hp'. rewrite Hp in Hnd. apply Hnd'; [done|]. intros x Hin. rewrite Hp. set_solver.
Qed.

Lemma set_length a (v : option nat) links : length (set_flow_next a v links) = length links.
Proof. apply length_insert. Qed.

Lemma not_in_block (job : nat) k xs xss : job ∉ concat xss → xss !! k = Some xs → job ∉ xs.
Proof. intros Hout Hx Hin. apply Hout, elem_of_concat. exists xs. split; [done|]. by apply list_elem_of_lookup_2 in Hx. Qed.

Lemma push_back_family links ls xss k l xs job :
  family links ls xss → ls !! k = Some l → xss !! k = Some xs → linked links l xs →
  job < length links → job ∉ concat xss →
  family (snd (push_back job l links)) (<[k := fst (push_back job l links)]> ls) (<[k := xs ++ [job]]> xss) ∧
  length (snd (push_back job l links)) = length links.
Proof.
  intros Hf Hk Hx Hl Hj Hout. pose proof (not_in_block _ _ _ _ Hout Hx) as Hjx.
  pose proof (push_back_linked links l xs job Hl Hj Hjx) as Hp. pose proof (lk_tail _ _ _ Hl) as Ht.
  split; [|unfold push_back; destruct (tail l); cbn [snd]; by rewrite ?set_length].
  eapply family_update; [done..| |].
  - intros l2 xs2 H2 Hd Hsub. assert (Hj2 : job ∉ xs2) by (intros Hin; by apply Hout, Hsub).
    unfold push_back. cbn [snd]. destruct (tail l) as [t|]; [|by apply linked_frame].
    assert (Htx : t ∈ xs) by (symmetry in Ht; rewrite last_lookup in Ht; by apply list_elem_of_lookup_2 in Ht).
    apply linked_frame; [rewrite set_length; exact (proj1 (Forall_forall _ _) (lk_range _ _ _ Hl) t Htx)|set_solver|].
    by apply linked_frame.
  - intros rest Hnd Hsub. rewrite <- app_assoc, (Permutation_app_comm xs). cbn [app]. rewrite (Permutation_app_comm rest).
    constructor; [set_solver|done].
Qed.

Lemma push_front_family links ls xss k l xs job :
  family links ls xss → ls !! k = Some l → xss !! k = Some xs → linked links l xs →
  job < length links → job ∉ concat xss →
  family (snd (push_front job l links)) (<[k := fst (push_front job l links)]> ls) (<[k := job :: xs]> xss) ∧
  length (snd (push_front job l links)) = length links.
Proof.
  intros Hf Hk Hx Hl Hj Hout. pose proof (not_in_block _ _ _ _ Hout Hx) as Hjx.
  pose proof (push_front_linked links l xs job Hl Hj Hjx) as Hp. split; [|apply set_length].
  eapply family_update; [done..| |].
  - intros l2 xs2 H2 Hd Hsub. apply linked_frame; [done|intros Hin; by apply Hout, Hsub|done].
  - intros rest Hnd Hsub. cbn [app]. constructor; [set_solver|done].
Qed.

Lemma pop_front_family links ls xss k l xs :
  family links ls xss → ls !! k = Some l → xss !! k = Some xs → linked links l xs →
  ∃ l' links', pop_front l links = (list.head xs, l', links') ∧
    family links' (<[k := l']> ls) (<[k := list.tail xs]> xss) ∧ length links' = length links.
Proof.
  intros Hf Hk Hx Hl. pose proof (pop_front_linked links l xs Hl) as Hp. destruct xs as [|x ys].
  - rewrite Hp. cbn [list.head list.tail]. eexists _, _. split; [done|]. rewrite !list_insert_id by done. by split.
  - destruct Hp as (l1 & links1 & -> & Hl1 & Hs). eexists _, _. split; [done|]. cbn [list.tail].
    split; [|rewrite Hs; apply set_length]. eapply family_update; [done..| |].
    + intros l2 xs2 H2 Hd _. rewrite Hs. pose proof (lk_range _ _ _ Hl) as Hr. apply Forall_cons in Hr as [Hr _].
      apply linked_frame; [done|set_solver|done].
    + intros rest Hnd _. cbn [app] in Hnd. by apply NoDup_cons in Hnd as [_ Hnd].
Qed.

Lemma list_step_refines links ls xss o :
  family links ls xss → allowed (length links) o xss = true →
  fst (step o (ls, links)) = fst (spec_step o xss) ∧
  family (snd (snd (step o (ls, links)))) (fst (snd (step o (ls, links)))) (snd (spec_step o xss)) ∧
  length (snd (snd (step o (ls, links)))) = length links.
Proof.
  intros Hf Ha. pose proof Hf as [Hall _].
  assert (Hat : ∀ k l, ls !! k = Some l → ∃ xs, xss !! k = Some xs ∧ linked links l xs).
  { intros k l Hl. exact (Forall2_lookup_l _ _ _ _ _ Hall Hl). }
  assert (Hnone : ∀ k, ls !! k = None → xss !! k = None).
  { intros k Hk%lookup_ge_None. apply lookup_ge_None_2. by rewrite <- (Forall2_length _ _ _ Hall). }
  assert (Hpush : ∀ job, (job <? length links) && bool_decide (job ∉ concat xss) = true →
    job < length links ∧ job ∉ concat xss).
  { intros job [Hj Hout]%andb_true_iff. split; [by apply Nat.ltb_lt|by apply bool_decide_eq_true in Hout]. }
  destruct o as [k job|k job|k|job]; cbn [step spec_step fst snd allowed] in *; unfold on, spec_on.
  - apply Hpush in Ha as [Hj Hout]. split; [done|].
    destruct (ls !! k) as [l|] eqn:Hk; [|rewrite Hnone by done; by split]. destruct (Hat k l Hk) as (xs & Hx & Hl).
    rewrite Hx. pose proof (push_back_family _ _ _ _ _ _ _ Hf Hk Hx Hl Hj Hout) as Hp.
    by destruct (push_back job l links).
  - apply Hpush in Ha as [Hj Hout]. split; [done|].
    destruct (ls !! k) as [l|] eqn:Hk; [|rewrite Hnone by done; by split]. destruct (Hat k l Hk) as (xs & Hx & Hl).
    rewrite Hx. pose proof (push_front_family _ _ _ _ _ _ _ Hf Hk Hx Hl Hj Hout) as Hp.
    by destruct (push_front job l links).
  - destruct (ls !! k) as [l|] eqn:Hk; [|rewrite Hnone by done; by split]. destruct (Hat k l Hk) as (xs & Hx & Hl).
    rewrite Hx. by destruct (pop_front_family _ _ _ _ _ _ Hf Hk Hx Hl) as (l' & links' & -> & Hf' & Hlen).
  - destruct (unlink_family links job ls xss Hf) as (ls' & links' & -> & Hf' & Hlen & _). by split.
Qed.

(** C39: for every sequence of pushes, pops and unlinks in which a job is
    pushed only while on no list, the linked lists return what plain sequences
    return and keep representing them, with head, tail and null links
    consistent and the lists disjoint. *)
Theorem joblist_refinement n m os :
  all_allowed n os (replicate m []) = true →
  let r := run step os (replicate m nil_list, replicate n None) in
  let s := run spec_step os (replicate m []) in
  fst r = fst s ∧ family (snd (snd r)) (fst (snd r)) (snd s).
Proof.
  intros Ha. cbv zeta.
  assert (Hgen : ∀ os links ls xss, family links ls xss → length links = n → all_allowed n os xss = true →
    fst (run step os (ls, links)) = fst (run spec_step os xss) ∧
    family (snd (snd (run step os (ls, links)))) (fst (snd (run step os (ls, links)))) (snd (run spec_step os xss))).
  { clear. intros os. induction os as [|o os IH]; intros links ls xss Hf Hn Ha; [by split|].
    cbn [all_allowed] in Ha. apply andb_true_iff in Ha as [Ho Ha]. rewrite <- Hn in Ho.
    destruct (list_step_refines links ls xss o Hf Ho) as (Hr & Hf1 & Hl1). cbn [run].
    destruct (step o (ls, links)) as [r [ls1 links1]], (spec_step o xss) as [r' xss1]. cbn [fst snd] in *. subst r'.
    destruct (IH links1 ls1 xss1 Hf1 ltac:(lia) Ha) as [Hrs Hfs].
    destruct (run step os (ls1, links1)), (run spec_step os xss1). cbn [fst snd] in *. by rewrite Hrs. }
  apply Hgen; [|by rewrite length_replicate|done]. split.
  - apply Forall2_replicate, linked_nil.
  - clear. induction m; [apply NoDup_nil_2|done].
Qed.

Lemma joblist_refinement_witness :
  let os := [PushBack 0 3; PushBack 0 1; PushFront 0 2; PushBack 1 0; Unlink 1; PopFront 0; PushBack 1 1; PopFront 1] in
  fst (run step os (replicate 2 nil_list, replicate 4 None)) =
    [None; None; None; None; None; Some 2; None; Some 0] ∧
  snd (run spec_step os (replicate 2 [])) = [[3]; [1]] ∧
  family (snd (snd (run step os (replicate 2 nil_list, replicate 4 None))))
    (fst (snd (run step os (replicate 2 nil_list, replicate 4 None)))) [[3]; [1]].
Proof.
  intros os. split; [by vm_compute|]. split; [by vm_compute|].
  exact (proj2 (joblist_refinement 4 2 os eq_refl)).
Defined.
