(* ===== verification/Scheduler.v ===== *)
(** * The transmit scheduler (node.hpp [TxScheduler], node_scheduler.cpp)

    A pool of job slots shared by a reserved control lane and four deficit
    round-robin classes, each a ring of flow descriptors.  A pointer to a job
    is its pool slot, a pointer to a flow a [FlowRef]; job lists are the slot
    sequences that JobList shows the intrusive lists implement, rings are
    bounded FIFO lists and pools are slot lists (FixedContainers). *)

From S2P Require Import Prelude Types Wire FixedContainers Congestion.

(** ** Jobs *)

Inductive JobForm := Plain | Forwarded | Sealed.
#[global] Instance JobForm_eq_dec : EqDecision JobForm.
Proof. solve_decision. Defined.

Inductive JobOwner :=
  | OwnerNone | OriginDelivery | Transit | GatewayService | Config | DiagnosticOwner | AppliedOwner
  | GroupOwner | Bootstrap | AppObject.
#[global] Instance JobOwner_eq_dec : EqDecision JobOwner.
Proof. solve_decision. Defined.

Record TxnHandle := mkTxn { txn_slot : Z; txn_serial : Z }.
#[global] Instance TxnHandle_eq_dec : EqDecision TxnHandle.
Proof. solve_decision. Defined.
Definition kInvalidTxnHandle : TxnHandle := mkTxn 0xFFFFFFFF 0.

(** [struct TxJob]: the union holds one header and the size of one payload,
    plain or protected.  The fields below are those the scheduler reads or
    writes; the others travel with the job. *)
Record TxJob := mkJob {
  form : JobForm; frame_header : Header; frame_size : nat;
  peer : NodeId; deadline_ms : Z; not_before_ms : Z; enqueued_at_ms : Z; tx_cost : Z;
  owner : JobOwner; requires_hop_accept : bool; attempts : Z; physical_attempts : Z;
  priority : Z; window_block_counted : bool; txn : TxnHandle }.
#[global] Instance TxJob_eq_dec : EqDecision TxJob.
Proof. solve_decision. Defined.

Definition zero_header : Header :=
  mkHeader FrameType.Data 0 0 0 0 0 0 0 0 0 0 0 0 (mkMessageId 0 0) 0 0 0 0 0 0.
Definition empty_job : TxJob :=
  mkJob Plain zero_header 0 kInvalidNodeId 0 0 0 0 OwnerNone false 0 0 Priority.Normal false kInvalidTxnHandle.

Definition with_cost (c : Z) (j : TxJob) : TxJob :=
  mkJob (form j) (frame_header j) (frame_size j) (peer j) (deadline_ms j) (not_before_ms j) (enqueued_at_ms j) c
    (owner j) (requires_hop_accept j) (attempts j) (physical_attempts j) (priority j) (window_block_counted j) (txn j).
Definition with_enqueued (t : Z) (j : TxJob) : TxJob :=
  mkJob (form j) (frame_header j) (frame_size j) (peer j) (deadline_ms j) (not_before_ms j) t (tx_cost j)
    (owner j) (requires_hop_accept j) (attempts j) (physical_attempts j) (priority j) (window_block_counted j) (txn j).
Definition with_not_before (t : Z) (j : TxJob) : TxJob :=
  mkJob (form j) (frame_header j) (frame_size j) (peer j) (deadline_ms j) t (enqueued_at_ms j) (tx_cost j)
    (owner j) (requires_hop_accept j) (attempts j) (physical_attempts j) (priority j) (window_block_counted j) (txn j).
Definition with_blocked (b : bool) (j : TxJob) : TxJob :=
  mkJob (form j) (frame_header j) (frame_size j) (peer j) (deadline_ms j) (not_before_ms j) (enqueued_at_ms j) (tx_cost j)
    (owner j) (requires_hop_accept j) (attempts j) (physical_attempts j) (priority j) b (txn j).

Definition kTxQueueCapacity : nat := 32.
Definition kAwaitingHopCapacity : nat := 8.
Definition kControlLaneCapacity : nat := 8.
Definition kControlReserveSlots : nat := 1.
Definition kRouteReserveSlots : nat := 2.
Definition kMaxJobsPerOrigin : nat := 12.
Definition kMaxJobsPerScope : nat := 12.
Definition kQuantumUnit : Z := 64.
Definition kDeficitCap : Z := 1024.
Definition kMaxSelectRounds : nat := 8.
Definition kRrCapacity : nat := kFlowDescriptorsMax + kSchedClassCount.
Definition kTrafficPriorityMask : Z := 0x03.

Definition type_in (types : list Z) (j : TxJob) : bool := bool_decide (type (frame_header j) ∈ types).
Definition object_types : list Z := [FrameType.AppObjectStart; FrameType.AppObjectChunk; FrameType.AppObjectAck].
Definition route_types : list Z := [FrameType.RouteUpdate; FrameType.SeqnoRequest; FrameType.RouteRequest].
Definition is_object (j : TxJob) : bool := type_in object_types j.

Definition control_job (j : TxJob) : bool :=
  bool_decide (form j = Plain) && type_in [FrameType.HopAccept; FrameType.Busy] j.

Definition priority_class (p : Z) : SchedClass :=
  if bool_decide (p = Priority.Urgent) then Urgent
  else if bool_decide (p = Priority.Management) then Management
  else if bool_decide (p = Priority.Bulk) then Bulk else Normal.

Definition classify (j : TxJob) : SchedClass :=
  if type_in [FrameType.GroupData; FrameType.GroupReport] j then priority_class (priority j)
  else if is_object j then Bulk
  else if bool_decide (form j = Forwarded) then
    if type_in [FrameType.EndReceipt; FrameType.AppResult] j then Management
    else
      let hint := Z.land (traffic (frame_header j)) kTrafficPriorityMask in
      if bool_decide (hint = kTrafficBulk) then Bulk
      else if bool_decide (hint = kTrafficUrgent) then Urgent else Normal
  else if type_in [FrameType.Data; FrameType.Service] j then priority_class (priority j)
  else if type_in [FrameType.EndReceipt; FrameType.AppResult] j then Management
  else if type_in route_types j then Management
  else Normal.

Definition airtime_domain (j : TxJob) : AirtimeDomain :=
  if control_job j then Ack else if bool_decide (classify j = Management) then Control else Work.

(** (scope, origin, destination) *)
Definition flow_key (j : TxJob) (self : NodeId) : NodeId * NodeId * NodeId :=
  let h := frame_header j in
  if bool_decide (form j = Forwarded) then (previous_hop h, origin h, destination h)
  else (self, origin h, destination h).

Definition charge_cost (j : TxJob) : TxJob :=
  let fixed := Z.of_nat kHeaderSize + Z.of_nat kAeadTagSize + kTxFrameFixedCostBytes in
  let body :=
    if negb (bool_decide (form j = Plain)) then Z.of_nat (frame_size j)
    else Z.of_nat (frame_size j) + (if end_protected (frame_header j) then Z.of_nat kAeadTagSize else 0) in
  with_cost (u32 (fixed + body)) j.

(** ** Scheduler state *)

Record FlowDesc := mkFlow {
  jobs : list nat; f_scope : NodeId; f_origin : NodeId; f_destination : NodeId;
  sched_class : SchedClass; in_rr : bool; overflow : bool }.
Definition empty_flow : FlowDesc := mkFlow [] kInvalidNodeId kInvalidNodeId kInvalidNodeId Normal false false.

Definition with_jobs (xs : list nat) (f : FlowDesc) : FlowDesc :=
  mkFlow xs (f_scope f) (f_origin f) (f_destination f) (sched_class f) (in_rr f) (overflow f).
Definition with_rr (b : bool) (f : FlowDesc) : FlowDesc :=
  mkFlow (jobs f) (f_scope f) (f_origin f) (f_destination f) (sched_class f) b (overflow f).

(** [FlowDesc*]: a slot of [flows_] or the overflow bucket of a class. *)
Inductive FlowRef := Desc (i : nat) | Over (c : SchedClass).
#[global] Instance FlowRef_eq_dec : EqDecision FlowRef.
Proof. solve_decision. Defined.

(** The counters of [CongestionStats] the scheduler owns. *)
Record SchedStats := mkStats {
  admissions_rejected : Z; bulk_suspended_count : Z; flow_overflow_merged : Z; window_limited : Z }.

Record TxScheduler := mkSched {
  pool_ : Slots.slots TxJob; flows_ : Slots.slots FlowDesc; overflow_ : list FlowDesc;
  control_ : list nat; rr_ : list (list FlowRef); deficit_ : list Z;
  used_ : nat; cursor_ : nat;
  selected_ : option nat; selected_flow_ : option FlowRef; selected_control_ : bool;
  stats_ : SchedStats }.

Definition initial : TxScheduler :=
  mkSched (replicate kTxQueueCapacity None) (replicate kFlowDescriptorsMax None)
    (replicate kSchedClassCount empty_flow) [] (replicate kSchedClassCount []) (replicate kSchedClassCount 0)
    0 0 None None false (mkStats 0 0 0 0).

Definition set_pool (p : Slots.slots TxJob) (s : TxScheduler) : TxScheduler :=
  mkSched p (flows_ s) (overflow_ s) (control_ s) (rr_ s) (deficit_ s) (used_ s) (cursor_ s)
    (selected_ s) (selected_flow_ s) (selected_control_ s) (stats_ s).
Definition set_flows (f : Slots.slots FlowDesc) (o : list FlowDesc) (s : TxScheduler) : TxScheduler :=
  mkSched (pool_ s) f o (control_ s) (rr_ s) (deficit_ s) (used_ s) (cursor_ s)
    (selected_ s) (selected_flow_ s) (selected_control_ s) (stats_ s).
Definition set_control (c : list nat) (s : TxScheduler) : TxScheduler :=
  mkSched (pool_ s) (flows_ s) (overflow_ s) c (rr_ s) (deficit_ s) (used_ s) (cursor_ s)
    (selected_ s) (selected_flow_ s) (selected_control_ s) (stats_ s).
Definition set_rr (r : list (list FlowRef)) (s : TxScheduler) : TxScheduler :=
  mkSched (pool_ s) (flows_ s) (overflow_ s) (control_ s) r (deficit_ s) (used_ s) (cursor_ s)
    (selected_ s) (selected_flow_ s) (selected_control_ s) (stats_ s).
Definition set_deficit (ci : nat) (d : Z) (s : TxScheduler) : TxScheduler :=
  mkSched (pool_ s) (flows_ s) (overflow_ s) (control_ s) (rr_ s) (<[ci := d]> (deficit_ s)) (used_ s) (cursor_ s)
    (selected_ s) (selected_flow_ s) (selected_control_ s) (stats_ s).
Definition set_used (n : nat) (s : TxScheduler) : TxScheduler :=
  mkSched (pool_ s) (flows_ s) (overflow_ s) (control_ s) (rr_ s) (deficit_ s) n (cursor_ s)
    (selected_ s) (selected_flow_ s) (selected_control_ s) (stats_ s).
Definition set_cursor (c : nat) (s : TxScheduler) : TxScheduler :=
  mkSched (pool_ s) (flows_ s) (overflow_ s) (control_ s) (rr_ s) (deficit_ s) (used_ s) c
    (selected_ s) (selected_flow_ s) (selected_control_ s) (stats_ s).
Definition set_selection (j : option nat) (r : option FlowRef) (c : bool) (s : TxScheduler) : TxScheduler :=
  mkSched (pool_ s) (flows_ s) (overflow_ s) (control_ s) (rr_ s) (deficit_ s) (used_ s) (cursor_ s) j r c (stats_ s).
Definition set_stats (t : SchedStats) (s : TxScheduler) : TxScheduler :=
  mkSched (pool_ s) (flows_ s) (overflow_ s) (control_ s) (rr_ s) (deficit_ s) (used_ s) (cursor_ s)
    (selected_ s) (selected_flow_ s) (selected_control_ s) t.

(** Reads and writes through pointers. *)
Definition job_at (s : TxScheduler) (j : nat) : option TxJob := Slots.at_ j (pool_ s).
Definition set_job (j : nat) (v : TxJob) (s : TxScheduler) : TxScheduler := set_pool (Slots.set j v (pool_ s)) s.
Definition get_flow (s : TxScheduler) (r : FlowRef) : option FlowDesc :=
  match r with Desc i => Slots.at_ i (flows_ s) | Over c => overflow_ s !! sched_class_index c end.
Definition put_flow (r : FlowRef) (f : FlowDesc) (s : TxScheduler) : TxScheduler :=
  match r with
  | Desc i => set_flows (Slots.set i f (flows_ s)) (overflow_ s) s
  | Over c => set_flows (flows_ s) (<[sched_class_index c := f]> (overflow_ s)) s
  end.
Definition release_flow (r : FlowRef) (s : TxScheduler) : TxScheduler :=
  match r with Desc i => set_flows (snd (Slots.release i (flows_ s))) (overflow_ s) s | Over _ => s end.

Definition ring (s : TxScheduler) (ci : nat) : list FlowRef := default [] (rr_ s !! ci).
Definition deficit (s : TxScheduler) (ci : nat) : Z := default 0 (deficit_ s !! ci).
Definition set_ring (ci : nat) (q : list FlowRef) (s : TxScheduler) : TxScheduler := set_rr (<[ci := q]> (rr_ s)) s.
Definition ring_push (ci : nat) (r : FlowRef) (s : TxScheduler) : TxScheduler :=
  if (length (ring s ci) =? kRrCapacity)%nat then s else set_ring ci (ring s ci ++ [r]) s.

(** [flow->in_rr = true; ring.push(flow)] *)
Definition relink (ci : nat) (r : FlowRef) (f : FlowDesc) (s : TxScheduler) : TxScheduler :=
  ring_push ci r (put_flow r (with_rr true f) s).

(** ** Read-only operations *)

Definition empty (s : TxScheduler) : bool := (used_ s =? 0)%nat.
Definition full (s : TxScheduler) : bool := (kTxQueueCapacity <=? used_ s)%nat.
Definition free_slots (s : TxScheduler) : nat := kTxQueueCapacity - used_ s.
Definition count_jobs (p : TxJob → bool) (s : TxScheduler) : nat :=
  length (filter (λ j, p j = true) (Slots.live (pool_ s))).
Definition count_owner (o : JobOwner) (s : TxScheduler) : nat := count_jobs (λ j, bool_decide (owner j = o)) s.
Definition count_owner_peer (o : JobOwner) (n : NodeId) (s : TxScheduler) : nat :=
  count_jobs (λ j, bool_decide (owner j = o) && bool_decide (peer j = n)) s.
Definition occupancy_percent (s : TxScheduler) : Z :=
  u32 (Z.of_nat (used_ s) * 100 / Z.of_nat kTxQueueCapacity).
Definition background_reduced (s : TxScheduler) : bool :=
  bool_decide (kQueueWatermarkBackgroundPercent ≤ occupancy_percent s).
Definition bulk_suspended (s : TxScheduler) : bool :=
  bool_decide (kQueueWatermarkStopPercent ≤ occupancy_percent s).
Definition route_maintenance (j : TxJob) : bool := bool_decide (form j = Plain) && type_in route_types j.

Definition origin_count (o : NodeId) (s : TxScheduler) : nat :=
  count_jobs (λ j, negb (route_maintenance j) && bool_decide (origin (frame_header j) = o)) s.
Definition scope_count (n : NodeId) (s : TxScheduler) : nat :=
  count_jobs (λ j, bool_decide (form j = Forwarded) && bool_decide (previous_hop (frame_header j) = n)) s.
Definition control_slot_available (s : TxScheduler) : bool := (length (control_ s) <? kControlLaneCapacity)%nat.
Definition origin_slot_available (o : NodeId) (s : TxScheduler) : bool := (origin_count o s <? kMaxJobsPerOrigin)%nat.

Definition check (self scope o : NodeId) (slots_needed : nat) (s : TxScheduler) : AdmitVerdict :=
  if (free_slots s <? slots_needed + kControlReserveSlots + kRouteReserveSlots)%nat then PoolFull
  else if (kMaxJobsPerOrigin <=? origin_count o s)%nat then OriginLimited
  else if negb (bool_decide (scope = self)) && (kMaxJobsPerScope <=? scope_count scope s)%nat then ScopeLimited
  else Admissible.

(** ** Admission *)

Definition bump_rejected (s : TxScheduler) : TxScheduler :=
  let t := stats_ s in
  set_stats (mkStats (u64 (admissions_rejected t + 1)) (bulk_suspended_count t) (flow_overflow_merged t) (window_limited t)) s.
Definition bump_suspended (s : TxScheduler) : TxScheduler :=
  let t := stats_ s in
  set_stats (mkStats (admissions_rejected t) (u64 (bulk_suspended_count t + 1)) (flow_overflow_merged t) (window_limited t)) s.
Definition bump_merged (s : TxScheduler) : TxScheduler :=
  let t := stats_ s in
  set_stats (mkStats (admissions_rejected t) (bulk_suspended_count t) (u64 (flow_overflow_merged t + 1)) (window_limited t)) s.
Definition bump_limited (s : TxScheduler) : TxScheduler :=
  let t := stats_ s in
  set_stats (mkStats (admissions_rejected t) (bulk_suspended_count t) (flow_overflow_merged t) (u64 (window_limited t + 1))) s.

Definition reject (code : StatusCode) (detail : string) (s : TxScheduler) : result unit * TxScheduler :=
  (Err code detail, bump_rejected s).
Arguments reject _ _%_string _.

(** Moves the job into a fresh slot, charges its cost and stamps the time. *)
Definition store_job (job : TxJob) (now_ms : Z) (s : TxScheduler) : option nat * TxScheduler :=
  match Slots.allocate empty_job (pool_ s) with
  | (None, p) => (None, set_pool p s)
  | (Some i, p) => (Some i, set_pool (Slots.set i (with_enqueued now_ms (charge_cost job)) p) s)
  end.

Definition same_key (cls : SchedClass) (key : NodeId * NodeId * NodeId) (f : FlowDesc) : bool :=
  bool_decide (sched_class f = cls) && bool_decide (f_scope f = fst (fst key)) &&
  bool_decide (f_origin f = snd (fst key)) && bool_decide (f_destination f = snd key).

(** The bucket of a class, marked on first use. *)
Definition overflow_flow (cls : SchedClass) (s : TxScheduler) : FlowRef * TxScheduler :=
  let f := default empty_flow (get_flow s (Over cls)) in
  (Over cls, put_flow (Over cls) (mkFlow (jobs f) (f_scope f) (f_origin f) (f_destination f) cls (in_rr f) true) s).

(** The flow a job joins: the one with its key, a new descriptor, or the
    overflow bucket of the class. *)
Definition join_flow (cls : SchedClass) (key : NodeId * NodeId * NodeId) (s : TxScheduler) : FlowRef * TxScheduler :=
  match Slots.find (same_key cls key) (flows_ s) with
  | Some i => (Desc i, s)
  | None =>
      match Slots.allocate empty_flow (flows_ s) with
      | (Some i, fl) =>
          (Desc i, set_flows (Slots.set i (mkFlow [] (fst (fst key)) (snd (fst key)) (snd key) cls false false) fl)
                     (overflow_ s) s)
      | (None, _) => let '(r, s1) := overflow_flow cls s in (r, bump_merged s1)
      end
  end.

Definition append_job (cls : SchedClass) (r : FlowRef) (i : nat) (s : TxScheduler) : TxScheduler :=
  let f := default empty_flow (get_flow s r) in
  let was_empty := match jobs f with [] => true | _ => false end in
  let f1 := with_jobs (jobs f ++ [i]) f in
  if was_empty && negb (in_rr f)
  then put_flow r (with_rr true f1) (ring_push (sched_class_index cls) r (put_flow r f1 s))
  else put_flow r f1 s.

Definition fresh_work (job : TxJob) : bool := bool_decide (attempts job = 0) && bool_decide (physical_attempts job = 0).

Definition enqueue (job : TxJob) (self : NodeId) (now_ms : Z) : M TxScheduler unit := λ s,
  if (kTxQueueCapacity <=? used_ s)%nat then reject WouldBlock "TX_QUEUE_FULL" s
  else if control_job job then
    if (kControlLaneCapacity <=? length (control_ s))%nat then reject WouldBlock "CONTROL_LANE_FULL" s
    else match store_job job now_ms s with
         | (None, s1) => reject WouldBlock "TX_QUEUE_FULL" s1
         | (Some i, s1) => (Ok tt, set_used (used_ s1 + 1) (set_control (control_ s1 ++ [i]) s1))
         end
  else
    let key := flow_key job self in
    let cls := classify job in
    if bool_decide (txn job = kInvalidTxnHandle) && fresh_work job &&
       (free_slots s <=? kControlReserveSlots + (if route_maintenance job then 0 else kRouteReserveSlots))%nat
    then reject WouldBlock "TX_QUEUE_RESERVED" s
    else if bool_decide (cls = Bulk) && bulk_suspended s then reject Congested "BULK_SUSPENDED_AT_WATERMARK" (bump_suspended s)
    else if negb (bool_decide (cls = Management)) && fresh_work job && (kMaxJobsPerOrigin <=? origin_count (snd (fst key)) s)%nat
    then reject Congested "ORIGIN_QUEUE_CAP" s
    else if negb (bool_decide (cls = Management)) && fresh_work job &&
            (negb (bool_decide (fst (fst key) = self)) && (kMaxJobsPerScope <=? scope_count (fst (fst key)) s)%nat)
    then reject Congested "SCOPE_QUEUE_CAP" s
    else
      let '(r, s1) := join_flow cls key s in
      match store_job job now_ms s1 with
      | (None, s2) => reject WouldBlock "TX_QUEUE_FULL" s2
      | (Some i, s2) => let s3 := append_job cls r i s2 in (Ok tt, set_used (used_ s3 + 1) s3)
      end.

(** ** Selection *)

(** What [select] reads of the node: the pause masks, the object pacing
    moment, the origin deliveries, the exchanges that await a hop accept and
    the windows of the neighbours. *)
Record AwaitingHop := mkAwaiting { a_job : TxJob; busy_deferred : bool }.
Record NodeView := mkView {
  pause_mask_ : Z; sleep_draining_ : bool; object_send_after_ms_ : Z;
  deliveries_ : list (Z * Z); awaiting_hop_ : list AwaitingHop; tx_window_ : NodeId → option Z }.

Definition kDataDispatch : Z := 2.
Definition kSleepDrainMask : Z := 13.
Definition kDeliveryQueued : Z := 3.
Definition kDeliveryWaitingForEndReceipt : Z := 6.
Definition paused (node : NodeView) (bits : Z) : bool :=
  negb (bool_decide (Z.land (Z.lor (pause_mask_ node) (if sleep_draining_ node then kSleepDrainMask else 0)) bits = 0)).

Definition peer_inflight (node : NodeView) (n : NodeId) : nat :=
  length (filter (λ a, peer (a_job a) = n ∧ busy_deferred a = false) (awaiting_hop_ node)).
Definition peer_window (node : NodeView) (n : NodeId) : Z :=
  match tx_window_ node n with
  | None => kPeerWindowMin
  | Some w => if bool_decide (w < kPeerWindowMin) then kPeerWindowMin
              else if bool_decide (kPeerWindowMax < w) then kPeerWindowMax else w
  end.
Definition tx_admitted_now (node : NodeView) (job : TxJob) : bool :=
  if negb (requires_hop_accept job) then true
  else if (kAwaitingHopCapacity <=? length (awaiting_hop_ node))%nat then false
  else bool_decide (Z.of_nat (peer_inflight node (peer job)) < peer_window node (peer job)).

Definition pending_flow (f : FlowDesc) : bool :=
  negb (bool_decide (sched_class f = Bulk)) && match jobs f with [] => false | _ => true end.
Definition foreground_pending (s : TxScheduler) (node : NodeView) : bool :=
  match control_ s with [] => false | _ => true end ||
  existsb pending_flow (Slots.live (flows_ s)) || existsb pending_flow (overflow_ s) ||
  existsb (λ d : Z * Z, negb (bool_decide (fst d = Priority.Bulk)) && bool_decide (kDeliveryQueued ≤ snd d) &&
             bool_decide (snd d ≤ kDeliveryWaitingForEndReceipt)) (deliveries_ node) ||
  existsb (λ a, negb (bool_decide (classify (a_job a) = Bulk))) (awaiting_hop_ node).

(** One iteration of the flow loop of [select].  [fg] is the pair of locals
    [foreground_checked] and [foreground_pending]. *)
Definition visit (ci : nat) (now_ms : Z) (node : NodeView) (fg : option bool) (s : TxScheduler)
  : option nat * option bool * TxScheduler :=
  match ring s ci with
  | [] => (None, fg, s)
  | r :: rest =>
      let f0 := default empty_flow (get_flow s r) in
      let f := with_rr false f0 in
      let s1 := put_flow r f (set_ring ci rest s) in
      match jobs f with
      | [] => (None, fg, if overflow f then s1 else release_flow r s1)
      | j :: js =>
          let head := default empty_job (job_at s1 j) in
          let object := is_object head in
          let fg1 := if object then match fg with None => Some (foreground_pending s1 node) | Some _ => fg end else fg in
          if bool_decide (now_ms < not_before_ms head) ||
             (object && (bool_decide (now_ms < object_send_after_ms_ node) || default false fg1))
          then
            let s2 := if object
                      then set_job j (with_not_before (Z.max (not_before_ms head) (Z.max now_ms (object_send_after_ms_ node))) head) s1
                      else s1 in
            (None, fg1, relink ci r f s2)
          else if negb (tx_admitted_now node head) then
            let s2 := if window_block_counted head then s1 else set_job j (with_blocked true head) (bump_limited s1) in
            (None, fg1, relink ci r f s2)
          else
            let s2 := set_job j (with_blocked false head) s1 in
            if bool_decide (deficit s2 ci < tx_cost head) then (None, fg1, relink ci r f s2)
            else
              let s3 := set_deficit ci (deficit s2 ci - tx_cost head) s2 in
              let f1 := with_jobs js f in
              let s4 := match js with [] => put_flow r f1 s3 | _ => relink ci r f1 s3 end in
              let s5 := set_selection (Some j) (Some r) false s4 in
              (Some j, fg1, if object then s5 else set_cursor ((ci + 1) mod kSchedClassCount) s5)
      end
  end.

Fixpoint scan_ring (n ci : nat) (now_ms : Z) (node : NodeView) (fg : option bool) (s : TxScheduler)
  : option nat * option bool * TxScheduler :=
  match n with
  | O => (None, fg, s)
  | S k => match visit ci now_ms node fg s with
           | (Some j, fg1, s1) => (Some j, fg1, s1)
           | (None, fg1, s1) => scan_ring k ci now_ms node fg1 s1
           end
  end.

Definition class_of_index (ci : nat) : SchedClass :=
  match ci with 0%nat => Management | 1%nat => Urgent | 2%nat => Normal | _ => Bulk end.
Definition grant_quantum (ci : nat) (s : TxScheduler) : TxScheduler :=
  set_deficit ci (Z.min (deficit s ci + kQuantumUnit * sched_class_weight (class_of_index ci)) kDeficitCap) s.

(** The class loop from [offset]; [any] is the local of the round. *)
Fixpoint scan_classes (n offset : nat) (now_ms : Z) (node : NodeView) (any : bool) (fg : option bool) (s : TxScheduler)
  : option nat * bool * option bool * TxScheduler :=
  match n with
  | O => (None, any, fg, s)
  | S k =>
      let ci := ((cursor_ s + offset) mod kSchedClassCount)%nat in
      match ring s ci with
      | [] => scan_classes k (S offset) now_ms node any fg s
      | _ :: _ =>
          let s1 := grant_quantum ci s in
          match scan_ring (length (ring s1 ci)) ci now_ms node fg s1 with
          | (Some j, fg1, s2) => (Some j, true, fg1, s2)
          | (None, fg1, s2) => scan_classes k (S offset) now_ms node true fg1 s2
          end
      end
  end.

Fixpoint rounds (n : nat) (now_ms : Z) (node : NodeView) (fg : option bool) (s : TxScheduler) : option nat * TxScheduler :=
  match n with
  | O => (None, s)
  | S k =>
      match scan_classes kSchedClassCount 0 now_ms node false fg s with
      | (Some j, _, _, s1) => (Some j, s1)
      | (None, any, fg1, s1) => if any then rounds k now_ms node fg1 s1 else (None, s1)
      end
  end.

Definition control_ready (now_ms : Z) (s : TxScheduler) : option (nat * list nat) :=
  match control_ s with
  | j :: rest => if bool_decide (not_before_ms (default empty_job (job_at s j)) ≤ now_ms) then Some (j, rest) else None
  | [] => None
  end.

Definition select (now_ms : Z) (node : NodeView) (s : TxScheduler) : option nat * TxScheduler :=
  match selected_ s with
  | Some _ => (None, s)
  | None =>
      match control_ready now_ms s with
      | Some (j, rest) => (Some j, set_selection (Some j) None true (set_control rest s))
      | None => if paused node kDataDispatch then (None, s) else rounds kMaxSelectRounds now_ms node None s
      end
  end.

(** ** Settling the selection *)

Definition clear_selection (s : TxScheduler) : TxScheduler := set_selection None None false s.

Definition take_selected (s : TxScheduler) : TxJob * TxScheduler :=
  match selected_ s with
  | None => (empty_job, s)
  | Some j =>
      let out := default empty_job (job_at s j) in
      let s1 := set_used (used_ s - 1) (set_pool (snd (Slots.release j (pool_ s))) s) in
      let s2 := match selected_flow_ s1 with
                | Some r =>
                    let f := default empty_flow (get_flow s1 r) in
                    match jobs f with [] => if overflow f then s1 else release_flow r s1 | _ => s1 end
                | None => s1
                end in
      (out, clear_selection s2)
  end.

(** Links a selected flow back into its ring unless it is there. *)
Definition relink_selected (r : FlowRef) (f : FlowDesc) (s : TxScheduler) : TxScheduler :=
  if in_rr f then put_flow r f s
  else put_flow r (with_rr true f) (ring_push (sched_class_index (sched_class f)) r (put_flow r f s)).

Definition requeue_selected (s : TxScheduler) : TxScheduler :=
  match selected_ s with
  | None => s
  | Some j =>
      clear_selection
        (if selected_control_ s then set_control (j :: control_ s) s
         else match selected_flow_ s with
              | Some r => let f := default empty_flow (get_flow s r) in relink_selected r (with_jobs (j :: jobs f) f) s
              | None => s
              end)
  end.

Definition defer_selected (s : TxScheduler) : TxScheduler :=
  match selected_ s with
  | None => s
  | Some j =>
      clear_selection
        (if selected_control_ s then set_control (control_ s ++ [j]) s
         else match selected_flow_ s with
              | Some r =>
                  let f := default empty_flow (get_flow s r) in
                  let ci := sched_class_index (sched_class f) in
                  let refund := Z.min (deficit s ci + tx_cost (default empty_job (job_at s j))) kDeficitCap in
                  relink_selected r (with_jobs (jobs f ++ [j]) f) (set_deficit ci refund s)
              | None => s
              end)
  end.

(** ** Removal *)

(** The first queued slot, other than the selected one, that satisfies the
    predicate. *)
Fixpoint victim_from (i : nat) (pred : TxJob → bool) (sel : option nat) (p : Slots.slots TxJob) : option nat :=
  match p with
  | [] => None
  | Some job :: rest =>
      if negb (bool_decide (sel = Some i)) && pred job then Some i else victim_from (S i) pred sel rest
  | None :: rest => victim_from (S i) pred sel rest
  end.

Definition without (j : nat) (xs : list nat) : list nat := filter (λ x, x ≠ j) xs.

(** [unlink]: at most one list holds the job. *)
Definition unlink (j : nat) (s : TxScheduler) : TxScheduler :=
  let cut f := with_jobs (without j (jobs f)) f in
  set_control (without j (control_ s)) (set_flows (Slots.for_each cut (flows_ s)) (cut <$> overflow_ s) s).

Definition drop_one_if (pred : TxJob → bool) (s : TxScheduler) : option TxJob * TxScheduler :=
  match victim_from 0 pred (selected_ s) (pool_ s) with
  | None => (None, s)
  | Some j =>
      let s1 := unlink j s in
      (job_at s1 j, set_used (used_ s1 - 1) (set_pool (snd (Slots.release j (pool_ s1))) s1))
  end.

Definition clear (s : TxScheduler) : TxScheduler :=
  mkSched (Slots.clear (pool_ s)) (Slots.clear (flows_ s)) ((λ _, empty_flow) <$> overflow_ s) []
    ((λ _, []) <$> rr_ s) ((λ _, 0) <$> deficit_ s) 0 0 None None false (stats_ s).
