(* ===== verification/SchedulerInv.v ===== *)
(** * Well-formedness of the transmit scheduler

    Every live pool slot is in exactly one place (the control lane, one flow
    or the selection), rings hold exactly the flows marked [in_rr], each once
    and in the ring of its class, a flow with jobs is in its ring, a
    descriptor without jobs is released or about to be, and deficits stay in
    their cap.  Every operation preserves this, and none loses or duplicates
    a job. *)

From S2P Require Import Prelude Types Wire FixedContainers Congestion Scheduler.

Local Open Scope nat_scope.

(** ** Slots and places *)

Definition indices {T} (p : Slots.slots T) : list nat := filter (λ i, is_Some (Slots.at_ i p)) (seq 0 (length p)).

Lemma elem_of_indices {T} (p : Slots.slots T) i : i ∈ indices p ↔ is_Some (Slots.at_ i p).
Proof.
  unfold indices. rewrite list_elem_of_filter, elem_of_seq. split; [tauto|]. intros [x Hx]. split; [by exists x|].
  unfold Slots.at_ in Hx. destruct (p !! i) eqn:Hp; [|done]. apply lookup_lt_Some in Hp. lia.
Qed.

Lemma NoDup_indices {T} (p : Slots.slots T) : NoDup (indices p).
Proof. apply NoDup_filter, NoDup_seq. Qed.

(** Writing a live slot keeps the set of live slots; filling a free one adds
    it; releasing one removes it. *)
Lemma indices_set_live {T} (p : Slots.slots T) i v : is_Some (Slots.at_ i p) → indices (Slots.set i v p) ≡ₚ indices p.
Proof.
  intros [x Hx]. apply NoDup_Permutation; [apply NoDup_indices..|]. intros j. rewrite !elem_of_indices, at_set by (by eapply at_lt).
  destruct (decide (j = i)) as [->|]; [|done]. split; intros _; by eexists.
Qed.

Lemma indices_set_free {T} (p : Slots.slots T) i v : p !! i = Some None → indices (Slots.set i v p) ≡ₚ i :: indices p.
Proof.
  intros Hi. assert (Hn : Slots.at_ i p = None) by (unfold Slots.at_; by rewrite Hi).
  apply NoDup_Permutation; [apply NoDup_indices|constructor; [|apply NoDup_indices]|].
  - rewrite elem_of_indices, Hn. by intros [].
  - intros j. rewrite elem_of_cons, !elem_of_indices, at_set by (by eapply lookup_lt_Some).
    destruct (decide (j = i)) as [->|]; [|naive_solver]. split; [by left|by eexists].
Qed.

Lemma indices_release {T} (p : Slots.slots T) i :
  is_Some (Slots.at_ i p) → i :: indices (snd (Slots.release i p)) ≡ₚ indices p.
Proof.
  intros [x Hx]. pose proof (proj1 (at_lookup _ _ _) Hx) as Hp. unfold Slots.release. rewrite Hp. cbn [snd].
  assert (Hat : ∀ j, Slots.at_ j (<[i := None]> p) = if decide (j = i) then None else Slots.at_ j p).
  { intros j. unfold Slots.at_. destruct (decide (j = i)) as [->|].
    - rewrite list_lookup_insert_eq by (by eapply lookup_lt_Some). done.
    - by rewrite list_lookup_insert_ne. }
  symmetry. apply NoDup_Permutation; [apply NoDup_indices|constructor; [|apply NoDup_indices]|].
  - rewrite elem_of_indices, Hat, decide_True by done. by intros [].
  - intros j. rewrite elem_of_cons, !elem_of_indices, Hat. destruct (decide (j = i)) as [->|]; [|naive_solver].
    rewrite Hx. split; [by left|by eexists].
Qed.

(** The job lists of all flows, descriptors first. *)
Definition blocks (s : TxScheduler) : list (list nat) := (from_option jobs [] <$> flows_ s) ++ (jobs <$> overflow_ s).
Definition ref_index (r : FlowRef) : nat :=
  match r with Desc i => i | Over c => kFlowDescriptorsMax + sched_class_index c end.
Definition placed (s : TxScheduler) : list nat := option_list (selected_ s) ++ control_ s ++ concat (blocks s).

(** Sizes of the fixed arrays. *)
Record shape (s : TxScheduler) : Prop := {
  sh_pool : length (pool_ s) = kTxQueueCapacity;
  sh_flows : length (flows_ s) = kFlowDescriptorsMax;
  sh_overflow : length (overflow_ s) = kSchedClassCount;
  sh_rr : length (rr_ s) = kSchedClassCount;
  sh_deficit : length (deficit_ s) = kSchedClassCount }.

Lemma class_index_lt c : sched_class_index c < kSchedClassCount.
Proof. unfold kSchedClassCount. destruct c; simpl; lia. Qed.
Lemma class_index_inj c c' : sched_class_index c = sched_class_index c' → c = c'.
Proof. destruct c, c'; done. Qed.
Lemma class_of_class_index c : class_of_index (sched_class_index c) = c.
Proof. by destruct c. Qed.

Lemma get_put s r f f' r' :
  shape s → get_flow s r = Some f → get_flow (put_flow r f' s) r' = if decide (r' = r) then Some f' else get_flow s r'.
Proof.
  intros Hs Hr. destruct r as [i|c]; cbn [put_flow get_flow] in *.
  - destruct r' as [i'|c']; cbn [get_flow flows_ overflow_ set_flows]; [|by rewrite decide_False].
    rewrite at_set by (by eapply at_lt). destruct (decide (i' = i)) as [->|]; [by rewrite decide_True|by rewrite decide_False by congruence].
  - destruct r' as [i'|c']; cbn [get_flow flows_ overflow_ set_flows]; [by rewrite decide_False|].
    destruct (decide (Over c' = Over c)) as [[= ->]|Hne].
    + by rewrite list_lookup_insert_eq by (by eapply lookup_lt_Some).
    + rewrite list_lookup_insert_ne; [done|]. intros ?%class_index_inj. congruence.
Qed.

Lemma put_put s r f f' : put_flow r f' (put_flow r f s) = put_flow r f' s.
Proof. destruct r; cbn; unfold set_flows, Slots.set; cbn; by rewrite list_insert_insert_eq. Qed.

Lemma shape_put s r f : shape s → shape (put_flow r f s).
Proof. intros []. destruct r; split; cbn; unfold Slots.set; by rewrite ?length_insert. Qed.

Lemma blocks_get s r f : shape s → get_flow s r = Some f → blocks s !! ref_index r = Some (jobs f).
Proof.
  intros Hs Hr. pose proof (sh_flows _ Hs) as Hl. unfold blocks. destruct r as [i|c]; cbn [get_flow ref_index] in *.
  - rewrite lookup_app_l by (rewrite length_fmap; by eapply at_lt). rewrite list_lookup_fmap.
    apply at_lookup in Hr. by rewrite Hr.
  - rewrite lookup_app_r by (rewrite length_fmap; lia). rewrite length_fmap, Hl.
    replace (kFlowDescriptorsMax + sched_class_index c - kFlowDescriptorsMax) with (sched_class_index c) by lia.
    by rewrite list_lookup_fmap, Hr.
Qed.

Lemma blocks_put s r f f' : shape s → get_flow s r = Some f → blocks (put_flow r f' s) = <[ref_index r := jobs f']> (blocks s).
Proof.
  intros Hs Hr. pose proof (sh_flows _ Hs) as Hl. unfold blocks. destruct r as [i|c]; cbn [get_flow put_flow ref_index flows_ overflow_ set_flows] in *.
  - unfold Slots.set. rewrite list_fmap_insert. cbn [from_option]. by rewrite insert_app_l by (rewrite length_fmap; by eapply at_lt).
  - rewrite list_fmap_insert. rewrite insert_app_r_alt by (rewrite length_fmap; lia). rewrite length_fmap, Hl.
    by replace (kFlowDescriptorsMax + sched_class_index c - kFlowDescriptorsMax) with (sched_class_index c) by lia.
Qed.

(** Rewriting the jobs of one flow, up to order. *)
Lemma placed_put s r f f' :
  shape s → get_flow s r = Some f →
  ∃ rest, placed s ≡ₚ jobs f ++ rest ∧ placed (put_flow r f' s) ≡ₚ jobs f' ++ rest.
Proof.
  intros Hs Hr. destruct (concat_insert_perm (ref_index r) (jobs f) (jobs f') (blocks s)) as (rest & Hp & Hp'); [by apply blocks_get|].
  exists (option_list (selected_ s) ++ control_ s ++ rest). unfold placed. rewrite (blocks_put s r f f') by done.
  assert (selected_ (put_flow r f' s) = selected_ s ∧ control_ (put_flow r f' s) = control_ s) as [-> ->] by (by destruct r).
  split; [rewrite Hp|rewrite Hp']; solve_Permutation.
Qed.

(** ** The invariant *)

(** The largest cost [charge_cost] produces: header, two tags, the fixed cost
    and a full payload. *)
Definition kMaxJobCost : Z := 344.

Definition deficit_ok (d : Z) : Prop := (0 ≤ d ≤ kDeficitCap)%Z.

Definition selection_ok (s : TxScheduler) : Prop :=
  match selected_ s with
  | None => selected_flow_ s = None ∧ selected_control_ s = false
  | Some _ =>
      if selected_control_ s then selected_flow_ s = None
      else ∃ r f, selected_flow_ s = Some r ∧ get_flow s r = Some f ∧ (jobs f = [] → in_rr f = false)
  end.

(** [x] is a flow an operation has taken out of its ring and not yet put
    back, [y] are jobs it has taken out of their place. *)
Record sched_inv (x : option FlowRef) (y : list nat) (s : TxScheduler) : Prop := {
  si_shape : shape s;
  si_placed : y ++ placed s ≡ₚ indices (pool_ s);
  si_cost : ∀ j job, job_at s j = Some job → (0 ≤ tx_cost job ≤ kMaxJobCost)%Z;
  si_ring : ∀ ci r, r ∈ ring s ci ↔ ∃ f, get_flow s r = Some f ∧ in_rr f = true ∧ sched_class_index (sched_class f) = ci;
  si_nodup : ∀ ci, NoDup (ring s ci);
  si_linked : ∀ r f, get_flow s r = Some f → jobs f ≠ [] → in_rr f = true ∨ x = Some r;
  si_desc : ∀ i f, get_flow s (Desc i) = Some f →
    overflow f = false ∧ (in_rr f = true ∨ x = Some (Desc i) ∨ selected_flow_ s = Some (Desc i));
  si_over : ∀ c f, get_flow s (Over c) = Some f →
    in_rr f = true ∨ x = Some (Over c) ∨ selected_flow_ s = Some (Over c) → sched_class f = c ∧ overflow f = true;
  si_float : ∀ r, x = Some r → ∃ f, get_flow s r = Some f ∧ in_rr f = false;
  si_selected : selection_ok s;
  si_deficit : Forall deficit_ok (deficit_ s);
  si_cursor : cursor_ s < kSchedClassCount }.

Definition sched_ok (s : TxScheduler) : Prop := sched_inv None [] s ∧ used_ s = length (placed s).

Create HintDb sched.
#[export] Hint Resolve si_shape shape_put : sched.

(** The attributes of a flow that the rings and the selection depend on are
    kept: an overflow bucket outside its ring may still be claimed for its
    class. *)
Record role_kept (x : option FlowRef) (s : TxScheduler) (r : FlowRef) (f f' : FlowDesc) : Prop := {
  rk_rr : in_rr f' = in_rr f;
  rk_class : in_rr f = true → sched_class f' = sched_class f;
  rk_desc : ∀ i, r = Desc i → overflow f' = overflow f;
  rk_over : ∀ c, r = Over c → in_rr f = true ∨ x = Some r ∨ selected_flow_ s = Some r → sched_class f' = c ∧ overflow f' = true }.

Lemma put_fields r f s :
  pool_ (put_flow r f s) = pool_ s ∧ control_ (put_flow r f s) = control_ s ∧ rr_ (put_flow r f s) = rr_ s ∧
  deficit_ (put_flow r f s) = deficit_ s ∧ cursor_ (put_flow r f s) = cursor_ s ∧
  selected_ (put_flow r f s) = selected_ s ∧ selected_flow_ (put_flow r f s) = selected_flow_ s ∧
  selected_control_ (put_flow r f s) = selected_control_ s ∧ used_ (put_flow r f s) = used_ s.
Proof. by destruct r. Qed.

Lemma ring_put r f s ci : ring (put_flow r f s) ci = ring s ci.
Proof. by destruct r. Qed.

Lemma inv_put_role x y y' s r f f' :
  sched_inv x y s → get_flow s r = Some f → role_kept x s r f f' → y ++ jobs f ≡ₚ y' ++ jobs f' →
  (jobs f' ≠ [] → in_rr f = true ∨ x = Some r) →
  (selected_flow_ s = Some r → jobs f' = [] → in_rr f = false) →
  sched_inv x y' (put_flow r f' s).
Proof.
  intros [] Hr [Hrr Hcl Hde Hov] Hy Hlink Hsel. destruct (put_fields r f' s) as (Ep & Ec & Er & Ed & Ecu & Es & Esf & Esc & _).
  assert (Hget : ∀ r', get_flow (put_flow r f' s) r' = if decide (r' = r) then Some f' else get_flow s r').
  { intros r'. by eapply get_put. }
  split.
  - by apply shape_put.
  - destruct (placed_put s r f f') as (rest & Hp & Hp'); [done|done|]. rewrite Hp', Ep, <- si_placed0, Hp.
    rewrite !app_assoc. by rewrite <- Hy.
  - intros j job. unfold job_at. rewrite Ep. apply si_cost0.
  - intros ci r'. rewrite ring_put, si_ring0, Hget. destruct (decide (r' = r)) as [->|Hne]; [|done].
    split; intros (g & Hg & Hgr & Hgc); simplify_eq.
    + exists f'. by rewrite Hrr, Hcl.
    + exists f. rewrite Hrr in Hgr. by rewrite <- Hcl.
  - intros ci. by rewrite ring_put.
  - intros r' g Hg Hj. rewrite Hget in Hg. destruct (decide (r' = r)) as [->|Hne]; [|by eapply si_linked0].
    injection Hg as <-. rewrite Hrr. auto.
  - intros i g Hg. rewrite Hget in Hg. rewrite Esf. destruct (decide (Desc i = r)) as [<-|]; [|by apply si_desc0].
    injection Hg as <-. rewrite Hrr, (Hde i) by done. by apply si_desc0.
  - intros c g Hg. rewrite Hget in Hg. rewrite Esf. destruct (decide (Over c = r)) as [<-|]; [|by apply si_over0].
    injection Hg as <-. rewrite Hrr. by apply Hov.
  - intros r' Hx. destruct (si_float0 r' Hx) as (g & Hg & Hgr). rewrite Hget.
    destruct (decide (r' = r)) as [->|]; [|by exists g]. exists f'. simplify_eq. by rewrite Hrr.
  - unfold selection_ok in *. rewrite Es, Esf, Esc. destruct (selected_ s); [|done]. destruct (selected_control_ s); [done|].
    destruct si_selected0 as (r' & g & Hr' & Hg & Hgj). exists r'. rewrite Hget. destruct (decide (r' = r)) as [->|Hne].
    + exists f'. split; [done|]. split; [done|]. rewrite Hrr. auto.
    + by exists g.
  - by rewrite Ed.
  - by rewrite Ecu.
Qed.

(** Changing only the jobs of a flow. *)
Lemma inv_put x y y' s r f xs :
  sched_inv x y s → get_flow s r = Some f → y ++ jobs f ≡ₚ y' ++ xs →
  (xs ≠ [] → in_rr f = true ∨ x = Some r) → (selected_flow_ s = Some r → xs = [] → in_rr f = false) →
  sched_inv x y' (put_flow r (with_jobs xs f) s).
Proof.
  intros Hi Hr Hy Hl Hs. eapply inv_put_role; [done|done| |done|done|done]. split; [done|done|done|].
  intros c -> H. by apply (si_over _ _ _ Hi c f).
Qed.

(** Setters that touch neither places nor flows nor the selection. *)
Lemma inv_deficit x y s ci d : sched_inv x y s → deficit_ok d → sched_inv x y (set_deficit ci d s).
Proof.
  intros [] Hd. split; try done; [|by apply Forall_insert].
  destruct si_shape0. split; try done. cbn. by rewrite length_insert.
Qed.
Lemma inv_cursor x y s c : sched_inv x y s → c < kSchedClassCount → sched_inv x y (set_cursor c s).
Proof. intros [] Hc. split; try done. by destruct si_shape0. Qed.
Lemma inv_used x y s n : sched_inv x y s → sched_inv x y (set_used n s).
Proof. intros []. split; try done. by destruct si_shape0. Qed.
Lemma inv_stats x y s t : sched_inv x y s → sched_inv x y (set_stats t s).
Proof. intros []. split; try done. by destruct si_shape0. Qed.
Lemma inv_control x y y' s c : sched_inv x y s → y ++ control_ s ≡ₚ y' ++ c → sched_inv x y' (set_control c s).
Proof.
  intros [] Hy. split; try done; [by destruct si_shape0|]. cbn. rewrite <- si_placed0. unfold placed. cbn.
  change (blocks (set_control c s)) with (blocks s). rewrite (app_assoc y'), (Permutation_app_comm y'), <- app_assoc, (app_assoc y').
  rewrite <- Hy. solve_Permutation.
Qed.

Lemma inv_job x y s j job v :
  sched_inv x y s → job_at s j = Some job → tx_cost v = tx_cost job → sched_inv x y (set_job j v s).
Proof.
  intros [] Hj Hc. unfold job_at in Hj. assert (Hlt : j < length (pool_ s)) by (by eapply at_lt). split; try done.
  - destruct si_shape0. split; try done. cbn. unfold Slots.set. by rewrite length_insert.
  - change (placed (set_job j v s)) with (placed s). rewrite si_placed0. symmetry. apply indices_set_live. by rewrite Hj.
  - intros k w. unfold job_at, set_job, set_pool. cbn [pool_]. rewrite at_set by done. destruct (decide (k = j)) as [->|]; [|apply si_cost0].
    intros [= <-]. rewrite Hc. by apply (si_cost0 j).
Qed.
#[export] Hint Resolve inv_used inv_stats inv_cursor inv_deficit : sched.

(** ** Rings *)

Lemma ring_set_ring s ci q ci' :
  shape s → ci < kSchedClassCount → ring (set_ring ci q s) ci' = if decide (ci' = ci) then q else ring s ci'.
Proof.
  intros Hs Hci. unfold ring, set_ring. cbn. destruct (decide (ci' = ci)) as [->|Hne].
  - by rewrite list_lookup_insert_eq by (by rewrite (sh_rr _ Hs)).
  - by rewrite list_lookup_insert_ne.
Qed.

Lemma shape_set_ring s ci q : shape s → shape (set_ring ci q s).
Proof. intros []. split; try done. cbn. by rewrite length_insert. Qed.
#[export] Hint Resolve shape_set_ring : sched.

Lemma get_flow_set_ring s ci q r : get_flow (set_ring ci q s) r = get_flow s r.
Proof. by destruct r. Qed.

Lemma ref_index_lt s r f : shape s → get_flow s r = Some f → ref_index r < kRrCapacity.
Proof.
  intros Hs Hr. unfold kRrCapacity. destruct r as [i|c]; cbn [get_flow ref_index] in *.
  - apply at_lt in Hr. rewrite (sh_flows _ Hs) in Hr. unfold kSchedClassCount. lia.
  - pose proof (class_index_lt c). lia.
Qed.

Lemma ref_index_inj s r r' f f' :
  shape s → get_flow s r = Some f → get_flow s r' = Some f' → ref_index r = ref_index r' → r = r'.
Proof.
  intros Hs Hr Hr' He. destruct r as [i|c], r' as [i'|c']; cbn [get_flow ref_index] in *.
  - congruence.
  - apply at_lt in Hr. rewrite (sh_flows _ Hs) in Hr. lia.
  - apply at_lt in Hr'. rewrite (sh_flows _ Hs) in Hr'. lia.
  - f_equal. apply class_index_inj. lia.
Qed.

(** A flow outside a ring finds room in it. *)
Lemma ring_room x y s ci r f :
  sched_inv x y s → get_flow s r = Some f → in_rr f = false → length (ring s ci) < kRrCapacity.
Proof.
  intros Hi Hr Hf. pose proof (si_shape _ _ _ Hi) as Hs.
  assert (Hsome : ∀ r', r' ∈ r :: ring s ci → is_Some (get_flow s r')).
  { intros r' [->|Hin]%elem_of_cons; [by eexists|]. apply (si_ring _ _ _ Hi) in Hin as (g & Hg & _). by eexists. }
  assert (Hnd : NoDup (ref_index <$> r :: ring s ci)).
  { apply NoDup_fmap_2_strong.
    - intros r1 r2 [f1 H1]%Hsome [f2 H2]%Hsome He. by eapply ref_index_inj.
    - constructor; [|apply (si_nodup _ _ _ Hi)]. intros (g & Hg & Hgr & _)%(si_ring _ _ _ Hi). congruence. }
  assert (Hle : length (ref_index <$> r :: ring s ci) ≤ length (seq 0 kRrCapacity)).
  { apply submseteq_length, NoDup_submseteq; [done|]. intros n (r' & -> & [g Hg]%Hsome)%list_elem_of_fmap.
    apply elem_of_seq. pose proof (ref_index_lt s r' g Hs Hg). lia. }
  rewrite length_fmap, length_seq in Hle. cbn [length] in Hle. lia.
Qed.

Lemma inv_pop y s ci r rest :
  sched_inv None y s → ring s ci = r :: rest →
  ∃ f, get_flow s r = Some f ∧ in_rr f = true ∧ sched_class_index (sched_class f) = ci ∧
    sched_inv (Some r) y (put_flow r (with_rr false f) (set_ring ci rest s)).
Proof.
  intros Hi Hring. pose proof Hi as []. assert (Hin : r ∈ ring s ci) by (rewrite Hring; by left).
  apply si_ring0 in Hin as (f & Hf & Hrr & Hci). exists f. split; [done|]. split; [done|]. split; [done|].
  assert (Hlt : ci < kSchedClassCount) by (subst ci; apply class_index_lt).
  set (s1 := set_ring ci rest s). assert (Hs1 : shape s1) by (by apply shape_set_ring).
  assert (Hget : ∀ r', get_flow (put_flow r (with_rr false f) s1) r' = if decide (r' = r) then Some (with_rr false f) else get_flow s r').
  { intros r'. rewrite (get_put s1 r f) by (done || by unfold s1; rewrite get_flow_set_ring). by unfold s1; rewrite get_flow_set_ring. }
  assert (Hring' : ∀ ci', ring (put_flow r (with_rr false f) s1) ci' = if decide (ci' = ci) then rest else ring s ci').
  { intros ci'. rewrite ring_put. by apply ring_set_ring. }
  destruct (put_fields r (with_rr false f) s1) as (Ep & Ec & Er & Ed & Ecu & Es & Esf & Esc & _).
  pose proof (si_nodup0 ci) as Hnd. rewrite Hring in Hnd. apply NoDup_cons in Hnd as [Hrout Hnd].
  split.
  - by apply shape_put.
  - destruct (placed_put s1 r f (with_rr false f)) as (rs & Hp & Hp'); [done|by unfold s1; rewrite get_flow_set_ring|].
    cbn [jobs with_rr] in Hp'. rewrite Hp', <- Hp, Ep. exact si_placed0.
  - intros j job. unfold job_at. rewrite Ep. apply si_cost0.
  - intros ci' r'. rewrite Hring'. destruct (decide (ci' = ci)) as [->|Hne].
    + split.
      * intros Hin. assert (Hr' : r' ∈ ring s ci) by (rewrite Hring; by right).
        apply si_ring0 in Hr' as (g & Hg & Hgr & Hgc). exists g. rewrite Hget, decide_False; [done|]. by intros ->.
      * intros (g & Hg & Hgr & Hgc). rewrite Hget in Hg. destruct (decide (r' = r)) as [->|Hne]; [by injection Hg as <-|].
        assert (Hr' : r' ∈ ring s ci) by (apply si_ring0; by exists g). rewrite Hring in Hr'. set_solver.
    + rewrite si_ring0. split; intros (g & Hg & Hgr & Hgc).
      * exists g. rewrite Hget, decide_False; [done|]. intros ->. congruence.
      * rewrite Hget in Hg. destruct (decide (r' = r)) as [->|]; [by injection Hg as <-|]. by exists g.
  - intros ci'. rewrite Hring'. by destruct (decide (ci' = ci)).
  - intros r' g Hg Hj. rewrite Hget in Hg. destruct (decide (r' = r)) as [->|]; [by right|].
    destruct (si_linked0 r' g Hg Hj) as [|]; [by left|done].
  - intros i g Hg. rewrite Esf. rewrite Hget in Hg. destruct (decide (Desc i = r)) as [<-|].
    + injection Hg as <-. cbn. split; [by apply (si_desc0 i f)|tauto].
    + destruct (si_desc0 i g Hg) as [? [|[|]]]; naive_solver.
  - intros c g Hg. rewrite Esf. rewrite Hget in Hg. destruct (decide (Over c = r)) as [<-|Hne].
    + injection Hg as <-. cbn. intros _. apply (si_over0 c f Hf). by left.
    + intros H. apply (si_over0 c g Hg). naive_solver.
  - intros r' [= <-]. exists (with_rr false f). by rewrite Hget, decide_True.
  - unfold selection_ok in *. rewrite Es, Esf, Esc. cbn [s1 selected_ selected_flow_ selected_control_ set_ring set_rr].
    destruct (selected_ s); [|done]. destruct (selected_control_ s); [done|].
    destruct si_selected0 as (r' & g & Hr' & Hg & Hgj). exists r'. rewrite Hget. destruct (decide (r' = r)) as [->|Hne].
    + exists (with_rr false f). by split.
    + by exists g.
  - by rewrite Ed.
  - by rewrite Ecu.
Qed.

(** Putting the flow back at the tail of its ring; the mark may be written
    before or after the push. *)
Lemma ring_push_room s ci r : length (ring s ci) < kRrCapacity → ring_push ci r s = set_ring ci (ring s ci ++ [r]) s.
Proof. intros H. unfold ring_push. rewrite (proj2 (Nat.eqb_neq _ _)) by lia. done. Qed.

Lemma put_set_ring r f ci q s : put_flow r f (set_ring ci q s) = set_ring ci q (put_flow r f s).
Proof. by destruct r. Qed.

Lemma inv_link y s r f :
  sched_inv (Some r) y s → get_flow s r = Some f → jobs f ≠ [] →
  sched_inv None y (relink (sched_class_index (sched_class f)) r f s).
Proof.
  intros Hi Hf Hj. pose proof Hi as []. destruct (si_float0 r eq_refl) as (f' & Hf' & Hrr). simplify_eq.
  set (ci := sched_class_index (sched_class f)). assert (Hlt : ci < kSchedClassCount) by apply class_index_lt.
  pose proof (ring_room _ _ _ ci r f Hi Hf Hrr) as Hroom. unfold relink.
  rewrite ring_push_room by (by rewrite ring_put). rewrite ring_put, <- put_set_ring.
  set (s1 := set_ring ci (ring s ci ++ [r]) s). assert (Hs1 : shape s1) by (by apply shape_set_ring).
  assert (Hget : ∀ r', get_flow (put_flow r (with_rr true f) s1) r' = if decide (r' = r) then Some (with_rr true f) else get_flow s r').
  { intros r'. rewrite (get_put s1 r f) by (done || by unfold s1; rewrite get_flow_set_ring). by unfold s1; rewrite get_flow_set_ring. }
  assert (Hring' : ∀ ci', ring (put_flow r (with_rr true f) s1) ci' = if decide (ci' = ci) then ring s ci ++ [r] else ring s ci').
  { intros ci'. rewrite ring_put. by apply ring_set_ring. }
  assert (Hout : ∀ ci', r ∉ ring s ci') by (intros ci' (g & Hg & Hgr & _)%si_ring0; congruence).
  destruct (put_fields r (with_rr true f) s1) as (Ep & Ec & Er & Ed & Ecu & Es & Esf & Esc & _).
  split.
  - by apply shape_put.
  - destruct (placed_put s1 r f (with_rr true f)) as (rs & Hp & Hp'); [done|by unfold s1; rewrite get_flow_set_ring|].
    cbn [jobs with_rr] in Hp'. rewrite Hp', <- Hp, Ep. exact si_placed0.
  - intros j job. unfold job_at. rewrite Ep. apply si_cost0.
  - intros ci' r'. rewrite Hring', Hget. destruct (decide (ci' = ci)) as [->|Hne].
    + rewrite elem_of_app, list_elem_of_singleton, si_ring0. destruct (decide (r' = r)) as [->|Hne'].
      * split; [|by right]. intros _. by exists (with_rr true f).
      * split; [intros [H|]; [done|congruence]|by left].
    + rewrite si_ring0. destruct (decide (r' = r)) as [->|Hne']; [|done]. split; intros (g & Hg & Hgr & Hgc); [congruence|].
      injection Hg as <-. done.
  - intros ci'. rewrite Hring'. destruct (decide (ci' = ci)) as [->|]; [|done]. apply NoDup_app. split; [done|].
    split; [|apply NoDup_singleton]. intros r' Hr' ->%list_elem_of_singleton. by apply (Hout ci).
  - intros r' g Hg Hgj. rewrite Hget in Hg. destruct (decide (r' = r)) as [->|Hne]; [injection Hg as <-; by left|].
    destruct (si_linked0 r' g Hg Hgj) as [|[= ->]]; [by left|done].
  - intros i g Hg. rewrite Esf. rewrite Hget in Hg. destruct (decide (Desc i = r)) as [<-|Hne].
    + injection Hg as <-. cbn. split; [by apply (si_desc0 i f)|tauto].
    + destruct (si_desc0 i g Hg) as [? [|[|]]]; naive_solver.
  - intros c g Hg. rewrite Esf. rewrite Hget in Hg. destruct (decide (Over c = r)) as [<-|Hne].
    + injection Hg as <-. cbn. intros _. apply (si_over0 c f Hf). by right; left.
    + intros H. apply (si_over0 c g Hg). naive_solver.
  - done.
  - unfold selection_ok in *. rewrite Es, Esf, Esc. cbn [s1 selected_ selected_flow_ selected_control_ set_ring set_rr].
    destruct (selected_ s); [|done]. destruct (selected_control_ s); [done|].
    destruct si_selected0 as (r' & g & Hr' & Hg & Hgj). exists r'. rewrite Hget. destruct (decide (r' = r)) as [->|Hne].
    + exists (with_rr true f). split; [done|]. split; [done|]. cbn. done.
    + by exists g.
  - by rewrite Ed.
  - by rewrite Ecu.
Qed.

Lemma inv_float y s r f :
  sched_inv None y s → get_flow s r = Some f → in_rr f = false →
  (∀ c, r = Over c → sched_class f = c ∧ overflow f = true) → sched_inv (Some r) y s.
Proof.
  intros [] Hf Hrr Hov. split; try done.
  - intros r' g Hg Hj. destruct (si_linked0 r' g Hg Hj); [by left|done].
  - intros i g Hg. destruct (si_desc0 i g Hg) as [? [|[|]]]; tauto || done.
  - intros c g Hg [H|[[= ->]|H]]; [apply (si_over0 c g Hg); tauto|by simplify_eq; apply Hov|apply (si_over0 c g Hg); tauto].
  - intros r' [= <-]. by exists f.
Qed.

Lemma inv_unfloat y s r f :
  sched_inv (Some r) y s → get_flow s r = Some f → jobs f = [] → (∀ i, r = Desc i → selected_flow_ s = Some r) →
  sched_inv None y s.
Proof.
  intros [] Hf Hj Hd. split; try done.
  - intros r' g Hg Hgj. destruct (si_linked0 r' g Hg Hgj) as [|[= ->]]; [by left|congruence].
  - intros i g Hg. destruct (si_desc0 i g Hg) as [? [|[[= ->]|]]]; [tauto|split; [done|right; right; by apply (Hd i)]|tauto].
  - intros c g Hg H. apply (si_over0 c g Hg). naive_solver.
Qed.

Lemma get_release s i r' : get_flow (release_flow (Desc i) s) r' = if decide (r' = Desc i) then None else get_flow s r'.
Proof.
  cbn [release_flow]. destruct r' as [i'|c]; cbn [get_flow flows_ overflow_ set_flows]; [|by rewrite decide_False].
  unfold Slots.release, Slots.at_. destruct (flows_ s !! i) as [[g|]|] eqn:Hi; cbn [snd];
    (destruct (decide (Desc i' = Desc i)) as [[= ->]|Hne]; [|try (rewrite list_lookup_insert_ne by congruence); done]).
  - by rewrite list_lookup_insert_eq by (by eapply lookup_lt_Some).
  - by rewrite Hi.
  - by rewrite Hi.
Qed.

Lemma placed_release s i f :
  shape s → get_flow s (Desc i) = Some f → jobs f = [] → placed (release_flow (Desc i) s) = placed s.
Proof.
  intros Hs Hf Hj. unfold placed. cbn [release_flow selected_ control_ set_flows]. do 3 f_equal. unfold blocks.
  cbn [flows_ overflow_ set_flows]. f_equal. cbn [get_flow] in Hf. apply at_lookup in Hf. unfold Slots.release. rewrite Hf. cbn [snd].
  rewrite list_fmap_insert. apply list_insert_id. by rewrite list_lookup_fmap, Hf, <- Hj.
Qed.

Lemma inv_release y s i f :
  sched_inv (Some (Desc i)) y s → get_flow s (Desc i) = Some f → jobs f = [] → selected_flow_ s ≠ Some (Desc i) →
  sched_inv None y (release_flow (Desc i) s).
Proof.
  intros [] Hf Hj Hsel. destruct (si_float0 _ eq_refl) as (f' & Hf' & Hrr). simplify_eq.
  assert (Hkeep : ∀ r' g, get_flow (release_flow (Desc i) s) r' = Some g → get_flow s r' = Some g ∧ r' ≠ Desc i).
  { intros r' g. rewrite get_release. by destruct (decide (r' = Desc i)). }
  split; try done.
  - destruct si_shape0. split; try done. cbn. unfold Slots.release.
    destruct (flows_ s !! i) as [[]|]; cbn [snd]; by rewrite ?length_insert.
  - by rewrite (placed_release s i f).
  - intros ci r'. change (ring (release_flow (Desc i) s) ci) with (ring s ci). rewrite si_ring0. split; intros (g & Hg & Hgr & Hgc).
    + exists g. rewrite get_release, decide_False; [done|]. intros ->. congruence.
    + apply Hkeep in Hg as [Hg _]. by exists g.
  - intros r' g [Hg Hne]%Hkeep Hgj. destruct (si_linked0 r' g Hg Hgj); [by left|congruence].
  - intros i' g [Hg Hne]%Hkeep. destruct (si_desc0 i' g Hg) as [? [|[|]]]; [tauto|congruence|tauto].
  - intros c g [Hg _]%Hkeep H. apply (si_over0 c g Hg). naive_solver.
  - unfold selection_ok in *. cbn [release_flow selected_ selected_flow_ selected_control_ set_flows].
    destruct (selected_ s); [|done]. destruct (selected_control_ s); [done|].
    destruct si_selected0 as (r' & g & Hr' & Hg & Hgj). exists r', g. split; [done|]. split; [|done].
    etrans; [apply get_release|]. rewrite decide_False; [done|]. intros ->. done.
Qed.

(** ** The selection *)

Lemma inv_select x y s j r f :
  sched_inv x (j :: y) s → selected_ s = None → get_flow s r = Some f → (jobs f = [] → in_rr f = false) →
  (∀ c, r = Over c → sched_class f = c ∧ overflow f = true) →
  sched_inv x y (set_selection (Some j) (Some r) false s).
Proof.
  intros [] Hs Hf Hj Hov. unfold selection_ok in si_selected0. rewrite Hs in si_selected0. destruct si_selected0 as [Hsf Hsc].
  split; try done.
  - by destruct si_shape0.
  - rewrite <- si_placed0. unfold placed. rewrite Hs. cbn. change (blocks (set_selection _ _ _ s)) with (blocks s). solve_Permutation.
  - intros i g Hg. destruct (si_desc0 i g Hg) as [? [|[|]]]; [tauto|tauto|congruence].
  - intros c g Hg [H|[H|[= ->]]]; [apply (si_over0 c g Hg); tauto..|].
    change (get_flow s (Over c) = Some g) in Hg. simplify_eq. by apply Hov.
  - unfold selection_ok. cbn. by exists r, f.
Qed.

Lemma inv_select_control y s j :
  sched_inv None (j :: y) s → selected_ s = None → sched_inv None y (set_selection (Some j) None true s).
Proof.
  intros [] Hs. unfold selection_ok in si_selected0. rewrite Hs in si_selected0. destruct si_selected0 as [Hsf Hsc].
  split; try done.
  - by destruct si_shape0.
  - rewrite <- si_placed0. unfold placed. rewrite Hs. cbn. change (blocks (set_selection _ _ _ s)) with (blocks s). solve_Permutation.
  - intros i g Hg. destruct (si_desc0 i g Hg) as [? [|[|]]]; [tauto|tauto|congruence].
  - intros c g Hg H. apply (si_over0 c g Hg). naive_solver.
Qed.

(** Leaving the selection: its flow must be linked or taken over by [x]. *)
Lemma inv_unselect x y s j :
  sched_inv x y s → selected_ s = Some j →
  (∀ i f, selected_flow_ s = Some (Desc i) → get_flow s (Desc i) = Some f → in_rr f = true ∨ x = Some (Desc i)) →
  sched_inv x (j :: y) (clear_selection s).
Proof.
  intros [] Hs Hd. split; try done.
  - by destruct si_shape0.
  - rewrite <- si_placed0. unfold placed. rewrite Hs. cbn. change (blocks (clear_selection s)) with (blocks s). solve_Permutation.
  - intros i g Hg. destruct (si_desc0 i g Hg) as [? [|[|Hsf]]]; [tauto|tauto|]. split; [done|].
    destruct (Hd i g Hsf Hg); tauto.
  - intros c g Hg H. apply (si_over0 c g Hg). naive_solver.
Qed.

(** Opens the invariant under the names the proofs use. *)
Ltac open_inv H :=
  destruct H as [si_shape0 si_placed0 si_cost0 si_ring0 si_nodup0 si_linked0 si_desc0 si_over0 si_float0 si_selected0 si_deficit0 si_cursor0].
Ltac open_shape H := destruct H as [sh_pool0 sh_flows0 sh_overflow0 sh_rr0 sh_deficit0].
