(* ===== verification/SchedulerProps.v ===== *)
(** * The operations of the transmit scheduler preserve its invariant

    Admission, settling and removal; the selection is in SchedulerSelect.
    [load] is the content of the pool up to the two fields the selection loop
    updates in place, and each operation's effect on it is stated exactly. *)

From S2P Require Import Prelude Types Wire FixedContainers Congestion Scheduler SchedulerInv.

Local Open Scope nat_scope.

(** The payload arrays bound the frame sizes. *)
Definition sized (job : TxJob) : bool :=
  match form job with
  | Plain => frame_size job <=? kMaxApplicationPayload
  | _ => frame_size job <=? kMaxApplicationPayload + kAeadTagSize
  end.

Lemma charge_cost_bound job now : sized job = true → (0 ≤ tx_cost (with_enqueued now (charge_cost job)) ≤ kMaxJobCost)%Z.
Proof.
  unfold sized, charge_cost, kMaxApplicationPayload, kAeadTagSize, kHeaderSize, kTxFrameFixedCostBytes, kMaxJobCost.
  intros Hs. cbn [tx_cost with_enqueued with_cost]. set (b := if negb _ then _ else _).
  assert (Hb : (0 ≤ b ≤ 144)%Z).
  { unfold b. destruct (form job); cbn [bool_decide decide negb]; apply Nat.leb_le in Hs.
    - change (bool_decide (Plain = Plain)) with true. cbn [negb]. destruct (end_protected (frame_header job)); lia.
    - change (bool_decide (Forwarded = Plain)) with false. cbn [negb]. lia.
    - change (bool_decide (Sealed = Plain)) with false. cbn [negb]. lia. }
  clearbody b. rewrite wrap_id; [lia|]. split; lia.
Qed.

(** What identifies a queued job: everything but the two fields [select]
    writes on jobs it passes over. *)
Definition ident (job : TxJob) : TxJob := with_blocked false (with_not_before 0 job).
Definition load (p : Slots.slots TxJob) : Slots.slots TxJob := option_map ident <$> p.

Lemma load_set (p : Slots.slots TxJob) j v : load (Slots.set j v p) = <[j := Some (ident v)]> (load p).
Proof. unfold load, Slots.set. by rewrite list_fmap_insert. Qed.

Lemma load_set_same p j job v : Slots.at_ j p = Some job → ident v = ident job → load (Slots.set j v p) = load p.
Proof.
  intros Hj Hv. rewrite load_set, Hv. apply list_insert_id. unfold load. rewrite list_lookup_fmap.
  apply at_lookup in Hj. by rewrite Hj.
Qed.

Lemma load_at p j : Slots.at_ j (load p) = ident <$> Slots.at_ j p.
Proof. unfold load, Slots.at_. rewrite list_lookup_fmap. by destruct (p !! j) as [[]|]. Qed.

Lemma indices_load p p' : load p = load p' → indices p = indices p'.
Proof.
  intros H. assert (Hl : length p = length p').
  { apply (f_equal length) in H. unfold load in H. by rewrite !length_fmap in H. }
  unfold indices. rewrite Hl. apply list_filter_iff. intros i. pose proof (load_at p i) as H1.
  rewrite H, load_at in H1. destruct (Slots.at_ i p), (Slots.at_ i p'); done.
Qed.

Lemma sched_ok_used s : sched_ok s → used_ s = length (indices (pool_ s)).
Proof. intros [Hi ->]. apply Permutation_length. apply (si_placed _ _ _ Hi). Qed.

Lemma sched_ok_intro s : sched_inv None [] s → used_ s = length (indices (pool_ s)) → sched_ok s.
Proof. intros Hi Hu. split; [done|]. rewrite Hu. symmetry. apply Permutation_length. apply (si_placed _ _ _ Hi). Qed.

(** ** Admission *)

Lemma first_free_room {T} (p : Slots.slots T) : length (indices p) < length p → ∃ i, Slots.first_free p = Some i.
Proof.
  intros Hlt. destruct (Slots.first_free p) as [i|] eqn:Hf; [by exists i|]. exfalso.
  assert (Hall : seq 0 (length p) ⊆+ indices p).
  { apply NoDup_submseteq; [apply NoDup_seq|]. intros i [_ Hi]%elem_of_seq. apply elem_of_indices.
    destruct (lookup_lt_is_Some_2 p i) as [[x|] Hx]; [lia|unfold Slots.at_; rewrite Hx; by eexists|].
    by apply (Slots.first_free_None _ Hf) in Hx. }
  apply submseteq_length in Hall. rewrite length_seq in Hall. lia.
Qed.

Lemma store_job_spec x s job now :
  sched_inv x [] s → sized job = true → length (indices (pool_ s)) < kTxQueueCapacity →
  ∃ i, pool_ s !! i = Some None ∧
    store_job job now s = (Some i, set_pool (Slots.set i (with_enqueued now (charge_cost job)) (pool_ s)) s) ∧
    sched_inv x [i] (set_pool (Slots.set i (with_enqueued now (charge_cost job)) (pool_ s)) s).
Proof.
  intros Hi0 Hsz Hlt. open_inv Hi0. rewrite <- (sh_pool _ si_shape0) in Hlt. destruct (first_free_room _ Hlt) as [i Hf].
  pose proof (Slots.first_free_Some _ _ Hf) as Hi. exists i. split; [done|].
  unfold store_job, Slots.allocate. rewrite Hf. split; [unfold Slots.set; by rewrite list_insert_insert_eq|].
  assert (Hil : i < length (pool_ s)) by (by eapply lookup_lt_Some). split; try done.
  - open_shape si_shape0. split; try done. cbn. unfold Slots.set. by rewrite length_insert.
  - cbn [pool_ set_pool]. rewrite indices_set_free by done. rewrite <- si_placed0. done.
  - intros j v. unfold job_at. cbn [pool_ set_pool]. rewrite at_set by done. destruct (decide (j = i)) as [->|]; [|apply si_cost0].
    intros [= <-]. by apply charge_cost_bound.
Qed.

(** The flow a job joins is ready for it: in its ring, or empty and outside. *)
Definition joinable (cls : SchedClass) (r : FlowRef) (s : TxScheduler) : Prop :=
  ∃ f, get_flow s r = Some f ∧ sched_class f = cls ∧
    ((in_rr f = true ∧ sched_inv None [] s) ∨ (in_rr f = false ∧ jobs f = [] ∧ sched_inv (Some r) [] s)).

Lemma joinable_linked cls r s f :
  sched_inv None [] s → get_flow s r = Some f → sched_class f = cls →
  (∀ c, r = Over c → sched_class f = c ∧ overflow f = true) → joinable cls r s.
Proof.
  intros Hi Hf Hc Hov. exists f. split; [done|]. split; [done|]. destruct (in_rr f) eqn:Hrr; [by left|right].
  split; [done|]. split; [|by eapply inv_float].
  destruct (jobs f) eqn:Hj; [done|]. destruct (si_linked _ _ _ Hi r f Hf); by rewrite ?Hj || congruence.
Qed.

Lemma join_new s i cls key :
  sched_inv None [] s → flows_ s !! i = Some None →
  joinable cls (Desc i) (set_flows (Slots.set i (mkFlow [] (fst (fst key)) (snd (fst key)) (snd key) cls false false) (flows_ s)) (overflow_ s) s).
Proof.
  intros Hi0 Hn. open_inv Hi0. set (f := mkFlow _ _ _ _ _ _ _). set (s1 := set_flows _ _ s).
  assert (Hil : i < length (flows_ s)) by (by eapply lookup_lt_Some).
  assert (Hget : ∀ r, get_flow s1 r = if decide (r = Desc i) then Some f else get_flow s r).
  { intros [i'|c]; cbn [get_flow s1 flows_ overflow_ set_flows]; [|by rewrite decide_False]. rewrite at_set by done.
    destruct (decide (i' = i)) as [->|]; [by rewrite decide_True|by rewrite decide_False by congruence]. }
  assert (Hold : get_flow s (Desc i) = None) by (cbn; unfold Slots.at_; by rewrite Hn).
  exists f. rewrite Hget, decide_True by done. split; [done|]. split; [done|]. right. split; [done|]. split; [done|]. split; try done.
  - open_shape si_shape0. split; try done. cbn. unfold Slots.set. by rewrite length_insert.
  - change (pool_ s1) with (pool_ s). rewrite <- si_placed0. unfold placed. cbn [app selected_ control_ s1 set_flows].
    do 2 apply Permutation_app_head. enough (blocks s1 = blocks s) as -> by done. unfold blocks. cbn [flows_ overflow_ s1 set_flows].
    f_equal. unfold Slots.set. rewrite list_fmap_insert. apply list_insert_id. by rewrite list_lookup_fmap, Hn.
  - intros ci r. change (ring s1 ci) with (ring s ci). rewrite si_ring0. split; intros (g & Hg & Hgr & Hgc).
    + exists g. rewrite Hget, decide_False; [done|]. intros ->. congruence.
    + rewrite Hget in Hg. destruct (decide (r = Desc i)); [by injection Hg as <-|]. by exists g.
  - intros r g. rewrite Hget. destruct (decide (r = Desc i)) as [->|]; [by right|]. intros Hg Hj. left.
    by destruct (si_linked0 r g Hg Hj).
  - intros i' g. rewrite Hget. destruct (decide (Desc i' = Desc i)) as [[= ->]|]; [intros [= <-]; tauto|]. intros Hg.
    destruct (si_desc0 i' g Hg) as [? [|[|]]]; tauto || done.
  - intros c g. rewrite Hget, decide_False by done. intros Hg H. apply (si_over0 c g Hg). naive_solver.
  - intros r [= <-]. exists f. by rewrite Hget, decide_True.
  - unfold selection_ok in *. cbn [s1 selected_ selected_flow_ selected_control_ set_flows]. destruct (selected_ s); [|done].
    destruct (selected_control_ s); [done|]. destruct si_selected0 as (r & g & Hr & Hg & Hgj). exists r, g.
    rewrite Hget, decide_False; [done|]. intros ->. congruence.
Qed.

Lemma get_over x y s c : sched_inv x y s → ∃ f, get_flow s (Over c) = Some f.
Proof.
  intros Hi. apply lookup_lt_is_Some. rewrite (sh_overflow _ (si_shape _ _ _ Hi)). apply class_index_lt.
Qed.

Lemma join_flow_spec s cls key :
  sched_inv None [] s →
  joinable cls (fst (join_flow cls key s)) (snd (join_flow cls key s)) ∧
  pool_ (snd (join_flow cls key s)) = pool_ s ∧ used_ (snd (join_flow cls key s)) = used_ s.
Proof.
  intros Hi. unfold join_flow. destruct (Slots.find _ (flows_ s)) as [i|] eqn:Hfind; cbn [fst snd].
  - split; [|done]. apply Slots.find_Some in Hfind as (f & Hf & Hk & _).
    unfold same_key in Hk. rewrite !andb_true_iff, !bool_decide_eq_true in Hk. destruct Hk as [[[Hc _] _] _].
    apply (joinable_linked _ _ _ f); [done|by apply at_lookup|done|done].
  - unfold Slots.allocate. destruct (Slots.first_free (flows_ s)) as [i|] eqn:Hfree; cbn [fst snd].
    + split; [|done]. apply Slots.first_free_Some in Hfree. unfold Slots.set. rewrite list_insert_insert_eq.
      exact (join_new s i cls key Hi Hfree).
    + destruct (get_over _ _ _ cls Hi) as [f Hf]. split; [|done].
      set (f' := mkFlow (jobs f) (f_scope f) (f_origin f) (f_destination f) cls (in_rr f) true).
      assert (Hi' : sched_inv None [] (put_flow (Over cls) f' s)).
      { apply (inv_put_role None [] [] s (Over cls) f f'); try done.
        - split; try done; [intros Hrr; symmetry; apply (si_over _ _ _ Hi cls f Hf); by left|by intros c [= ->]].
        - intros Hj. by apply (si_linked _ _ _ Hi).
        - intros Hs Hj. pose proof (si_selected _ _ _ Hi) as Ho. unfold selection_ok in Ho.
          destruct (selected_ s); [|destruct Ho; congruence]. destruct (selected_control_ s); [congruence|].
          destruct Ho as (r & g & Hr & Hg & Hgj). rewrite Hs in Hr. injection Hr as <-. simplify_eq. by apply Hgj. }
      unfold overflow_flow. rewrite Hf. apply (joinable_linked _ _ _ f').
      * by apply inv_stats.
      * change (get_flow (put_flow (Over cls) f' s) (Over cls) = Some f').
        by rewrite (get_put s (Over cls) f f'), decide_True by eauto with sched.
      * done.
      * by intros c [= <-].
Qed.

Lemma put_ring_push r g ci s : put_flow r g (ring_push ci r s) = ring_push ci r (put_flow r g s).
Proof. unfold ring_push. rewrite ring_put. destruct (_ =? _); [done|]. apply put_set_ring. Qed.

Lemma append_job_spec s cls r f i :
  get_flow s r = Some f → sched_class f = cls →
  (in_rr f = true ∧ sched_inv None [i] s) ∨ (in_rr f = false ∧ jobs f = [] ∧ sched_inv (Some r) [i] s) →
  sched_inv None [] (append_job cls r i s) ∧ pool_ (append_job cls r i s) = pool_ s ∧ used_ (append_job cls r i s) = used_ s.
Proof.
  intros Hf <- Hcase. unfold append_job. rewrite Hf. cbn [default]. unfold id.
  assert (Hne : jobs f ++ [i] ≠ []) by (by destruct (jobs f)).
  destruct Hcase as [[Hrr Hi]|(Hrr & Hj & Hi)]; rewrite Hrr.
  - rewrite andb_false_r. split; [|by destruct r]. apply (inv_put None [i]); [done|done|solve_Permutation|by left|done].
  - rewrite Hj. cbn [andb negb app]. rewrite put_ring_push, put_put.
    assert (Hput : sched_inv (Some r) [] (put_flow r (with_jobs [i] f) s)).
    { apply (inv_put _ [i]); [done|done|by rewrite Hj|by right|done]. }
    pose proof (inv_link [] _ r (with_jobs [i] f) Hput) as Hl. unfold relink in Hl. rewrite put_put in Hl.
    split; [apply Hl; [|done]|].
    + by rewrite (get_put s r f), decide_True by eauto with sched.
    + unfold ring_push. destruct (_ =? _); by destruct r.
Qed.

Lemma ok_stats s t : sched_ok s → sched_ok (set_stats t s).
Proof. intros [Hi Hu]. split; [by apply inv_stats|exact Hu]. Qed.
#[export] Hint Resolve ok_stats : sched.

Lemma sched_ok_insert s s' i job now :
  used_ s = length (indices (pool_ s)) → pool_ s !! i = Some None → sched_inv None [] s' →
  pool_ s' = Slots.set i (with_enqueued now (charge_cost job)) (pool_ s) → used_ s' = used_ s →
  sched_ok (set_used (used_ s' + 1) s').
Proof.
  intros Hu Hi Hinv Hp Hus. apply sched_ok_intro; [by apply inv_used|]. cbn [used_ pool_ set_used].
  rewrite Hp, indices_set_free by done. cbn [length]. lia.
Qed.

(** Admission keeps the scheduler well formed; an accepted job is stored,
    charged and stamped, in a slot that was free, and a refusal leaves the
    pool as it was. *)
Lemma enqueue_spec s job self now :
  sched_ok s → sized job = true →
  sched_ok (snd (enqueue job self now s)) ∧
  match fst (enqueue job self now s) with
  | Ok _ => ∃ i, pool_ s !! i = Some None ∧
              pool_ (snd (enqueue job self now s)) = Slots.set i (with_enqueued now (charge_cost job)) (pool_ s)
  | Err _ _ => pool_ (snd (enqueue job self now s)) = pool_ s
  end.
Proof.
  intros Hok Hsz. pose proof (sched_ok_used _ Hok) as Hu. destruct Hok as [Hi Hlen].
  assert (Hok : sched_ok s) by (by split). unfold enqueue.
  destruct (Nat.leb_spec kTxQueueCapacity (used_ s)) as [|Hroom]; [split; [by apply ok_stats|done]|].
  assert (Hfree : length (indices (pool_ s)) < kTxQueueCapacity) by lia. destruct (control_job job).
  - destruct (_ <=? length (control_ s)); [split; [by apply ok_stats|done]|].
    destruct (store_job_spec None s job now Hi Hsz Hfree) as (i & Hn & -> & Hinv). cbn [fst snd].
    split; [|by exists i]. set (s1 := set_pool _ s) in *.
    apply (sched_ok_insert s (set_control (control_ s1 ++ [i]) s1) i job now); [done|exact Hn| |done|done].
    apply (inv_control _ [i] []); [done|]. solve_Permutation.
  - destruct (bool_decide (txn job = _) && _ && _); [split; [by apply ok_stats|done]|].
    destruct (bool_decide (classify job = Bulk) && _); [split; [by do 2 apply ok_stats|done]|].
    destruct (negb _ && _ && (_ <=? origin_count _ _)); [split; [by apply ok_stats|done]|].
    destruct (negb _ && _ && _); [split; [by apply ok_stats|done]|].
    pose proof (join_flow_spec s (classify job) (flow_key job self) Hi) as ((f & Hf & Hc & Hcase) & Hp & Hus).
    destruct (join_flow _ _ s) as [r s1]. cbn [fst snd] in *.
    assert (Hfree1 : length (indices (pool_ s1)) < kTxQueueCapacity) by (by rewrite Hp).
    assert (Hst : ∃ i, pool_ s1 !! i = Some None ∧
      store_job job now s1 = (Some i, set_pool (Slots.set i (with_enqueued now (charge_cost job)) (pool_ s1)) s1) ∧
      ((in_rr f = true ∧ sched_inv None [i] (set_pool (Slots.set i (with_enqueued now (charge_cost job)) (pool_ s1)) s1)) ∨
       (in_rr f = false ∧ jobs f = [] ∧ sched_inv (Some r) [i] (set_pool (Slots.set i (with_enqueued now (charge_cost job)) (pool_ s1)) s1)))).
    { destruct Hcase as [[Hrr Hi1]|(Hrr & Hj & Hi1)]; destruct (store_job_spec _ s1 job now Hi1 Hsz Hfree1) as (i & ? & ? & ?);
        exists i; tauto. }
    destruct Hst as (i & Hn & -> & Hcase'). set (s2 := set_pool _ s1) in *.
    assert (Hf2 : get_flow s2 r = Some f) by (by destruct r).
    destruct (append_job_spec s2 _ r f i Hf2 Hc Hcase') as (Hinv & Hp3 & Hu3). cbn [fst snd].
    rewrite Hp in Hn. cbn [pool_ s2 set_pool] in Hp3. rewrite Hp in Hp3.
    split; [|exists i; split; [done|exact Hp3]]. eapply (sched_ok_insert s); [done|exact Hn|done|exact Hp3|].
    by rewrite Hu3.
Qed.

(** ** Settling *)

Lemma inv_clear_pool x y s j :
  sched_inv x (j :: y) s → sched_inv x y (set_pool (snd (Slots.release j (pool_ s))) s).
Proof.
  intros Hi. open_inv Hi. assert (Hj : is_Some (Slots.at_ j (pool_ s))).
  { apply elem_of_indices. rewrite <- si_placed0. by left. }
  assert (Hat : ∀ k, Slots.at_ k (snd (Slots.release j (pool_ s))) = if decide (k = j) then None else Slots.at_ k (pool_ s)).
  { destruct Hj as [v Hv]. apply at_lookup in Hv. intros k. unfold Slots.release. rewrite Hv. cbn [snd]. unfold Slots.at_.
    destruct (decide (k = j)) as [->|]; [by rewrite list_lookup_insert_eq by (by eapply lookup_lt_Some)|].
    by rewrite list_lookup_insert_ne. }
  split; try done.
  - open_shape si_shape0. split; try done. cbn. unfold Slots.release. destruct (pool_ s !! j) as [[]|]; cbn [snd]; by rewrite ?length_insert.
  - cbn [pool_ set_pool]. apply (Permutation_cons_inv (a := j)). rewrite indices_release by done. by rewrite <- si_placed0.
  - intros k v. unfold job_at. cbn [pool_ set_pool]. rewrite Hat. destruct (decide (k = j)); [done|]. apply si_cost0.
Qed.

Lemma selected_live s j : sched_ok s → selected_ s = Some j → ∃ job, job_at s j = Some job.
Proof.
  intros [Hi _] Hs. apply elem_of_indices. rewrite <- (si_placed _ _ _ Hi). unfold placed. rewrite Hs. set_solver.
Qed.

Lemma release_length {T} (p : Slots.slots T) j :
  is_Some (Slots.at_ j p) → length (indices (snd (Slots.release j p))) = length (indices p) - 1.
Proof. intros Hj. rewrite <- (indices_release p j) by done. cbn [length]. lia. Qed.

(** The flow of the selection when it has no further jobs: outside its ring. *)
Lemma selected_flow_idle y s j r f :
  sched_inv None y s → selected_ s = Some j → selected_flow_ s = Some r → get_flow s r = Some f → jobs f = [] → in_rr f = false.
Proof.
  intros Hi Hs Hr Hf Hj. pose proof (si_selected _ _ _ Hi) as Ho. unfold selection_ok in Ho. rewrite Hs in Ho.
  destruct (selected_control_ s); [congruence|]. destruct Ho as (r' & g & Hr' & Hg & Hgj). simplify_eq. auto.
Qed.

Lemma selected_over y s c f :
  sched_inv None y s → selected_flow_ s = Some (Over c) → get_flow s (Over c) = Some f → sched_class f = c ∧ overflow f = true.
Proof. intros Hi Hr Hf. apply (si_over _ _ _ Hi c f Hf). tauto. Qed.

Lemma take_selected_spec s j :
  sched_ok s → selected_ s = Some j →
  ∃ job, job_at s j = Some job ∧ fst (take_selected s) = job ∧ sched_ok (snd (take_selected s)) ∧
    pool_ (snd (take_selected s)) = snd (Slots.release j (pool_ s)) ∧ selected_ (snd (take_selected s)) = None.
Proof.
  intros Hok Hs. pose proof (sched_ok_used _ Hok) as Hu. destruct (selected_live s j Hok Hs) as [job Hjob].
  destruct Hok as [Hi _]. exists job. split; [done|]. unfold take_selected. rewrite Hs, Hjob. cbn [fst snd].
  split; [done|]. set (s1 := set_used _ (set_pool _ s)).
  assert (Hlen : used_ s1 = length (indices (pool_ s1))).
  { cbn [s1 used_ pool_ set_used set_pool]. rewrite release_length by (unfold job_at in Hjob; by rewrite Hjob). lia. }
  (* with the flow settled, leaving the selection frees the slot *)
  assert (Hfin : ∀ x, sched_inv x [] s → (∀ i f, selected_flow_ s = Some (Desc i) → get_flow s (Desc i) = Some f → in_rr f = true ∨ x = Some (Desc i)) →
    sched_inv x [] (clear_selection s1)).
  { intros x Hx Hd. apply (inv_unselect x [] s j Hx Hs) in Hd. apply inv_clear_pool in Hd.
    exact (inv_used x [] _ (used_ s - 1) Hd). }
  change (selected_flow_ s1) with (selected_flow_ s). destruct (selected_flow_ s) as [r|] eqn:Hr.
  2: { split; [|done]. apply sched_ok_intro; [|exact Hlen]. by apply Hfin. }
  assert (Hsome : ∃ f, get_flow s r = Some f).
  { pose proof (si_selected _ _ _ Hi) as Ho. unfold selection_ok in Ho. rewrite Hs in Ho. destruct (selected_control_ s); [congruence|].
    destruct Ho as (r' & g & Hr' & Hg & _). exists g. congruence. }
  destruct Hsome as [f Hf]. assert (Hf1 : get_flow s1 r = Some f) by (by destruct r). rewrite Hf1. cbn [default]. unfold id.
  destruct (jobs f) as [|k ks] eqn:Hj.
  - pose proof (selected_flow_idle _ _ _ _ _ Hi Hs Hr Hf Hj) as Hidle. destruct r as [i|c].
    + destruct (si_desc _ _ _ Hi i f Hf) as [-> _]. split; [|done].
      assert (Hfl : sched_inv (Some (Desc i)) [] s) by (by apply (inv_float [] s (Desc i) f)).
      apply sched_ok_intro; [|exact Hlen]. change (sched_inv None [] (release_flow (Desc i) (clear_selection s1))).
      apply (inv_release [] _ i f); [|exact Hf1|done|done]. apply Hfin; [done|]. intros i' f' [= <-] _. by right.
    + destruct (selected_over _ _ _ _ Hi Hr Hf) as [_ ->]. split; [|done].
      apply sched_ok_intro; [|exact Hlen]. by apply Hfin.
  - split; [|done]. apply sched_ok_intro; [|exact Hlen]. apply Hfin; [done|].
    intros i f' [= ->] Hf'. assert (f' = f) as -> by congruence. left. destruct (si_linked _ _ _ Hi (Desc i) f Hf); [by rewrite Hj|done|done].
Qed.

(** Returning the selected job to its flow, at either end. *)
Lemma restore_inv s j r f xs :
  sched_inv None [] s → selected_ s = Some j → selected_flow_ s = Some r → get_flow s r = Some f → j :: jobs f ≡ₚ xs →
  sched_inv None [] (clear_selection (relink_selected r (with_jobs xs f) s)).
Proof.
  intros Hi Hs Hr Hf Hp. assert (Hne : xs ≠ []) by (intros ->; by apply Permutation_nil_r in Hp).
  assert (Hov : ∀ c, r = Over c → sched_class f = c ∧ overflow f = true) by (intros c ->; by eapply selected_over).
  unfold relink_selected. cbn [in_rr with_jobs sched_class]. destruct (in_rr f) eqn:Hrr.
  - replace (clear_selection (put_flow r (with_jobs xs f) s)) with (put_flow r (with_jobs xs f) (clear_selection s)) by (by destruct r).
    assert (Hu : sched_inv None [j] (clear_selection s)).
    { apply inv_unselect; [done|done|]. intros i f' Hr' Hf'. left. rewrite Hr in Hr'. injection Hr' as ->. congruence. }
    apply (inv_put None [j] [] _ r f xs Hu); [by destruct r|done|by left|done].
  - rewrite put_ring_push, put_put.
    replace (clear_selection _) with (relink (sched_class_index (sched_class f)) r (with_jobs xs f) (put_flow r (with_jobs xs f) (clear_selection s))).
    2: { unfold relink. rewrite put_put. unfold ring_push. rewrite !ring_put.
         change (ring (clear_selection s)) with (ring s). destruct (_ =? _); by destruct r. }
    assert (Hu : sched_inv (Some r) [j] (clear_selection s)).
    { apply inv_unselect; [by eapply inv_float|done|]. intros i f' Hr' _. right. congruence. }
    assert (Hfc : get_flow (clear_selection s) r = Some f) by (by destruct r).
    assert (Hput : sched_inv (Some r) [] (put_flow r (with_jobs xs f) (clear_selection s))).
    { apply (inv_put (Some r) [j] [] _ r f xs Hu); [done|done|by right|done]. }
    refine (inv_link [] _ r (with_jobs xs f) Hput _ Hne).
    by rewrite (get_put _ r f), decide_True by eauto with sched.
Qed.

Lemma relink_selected_pool r f s : pool_ (relink_selected r f s) = pool_ s ∧ used_ (relink_selected r f s) = used_ s ∧
  deficit_ (relink_selected r f s) = deficit_ s ∧ cursor_ (relink_selected r f s) = cursor_ s.
Proof.
  unfold relink_selected, ring_push. destruct (in_rr f); [by destruct r|]. destruct (_ =? _); by destruct r.
Qed.

Lemma selection_flow s j :
  sched_ok s → selected_ s = Some j → selected_control_ s = false →
  ∃ r f, selected_flow_ s = Some r ∧ get_flow s r = Some f.
Proof.
  intros [Hi _] Hs Hc. pose proof (si_selected _ _ _ Hi) as Ho. unfold selection_ok in Ho. rewrite Hs, Hc in Ho.
  destruct Ho as (r & f & ? & ? & _). by exists r, f.
Qed.

Lemma control_restore s j c :
  sched_ok s → selected_ s = Some j → selected_control_ s = true → j :: control_ s ≡ₚ c →
  sched_ok (clear_selection (set_control c s)).
Proof.
  intros Hok Hs Hc Hp. pose proof (sched_ok_used _ Hok) as Hu. destruct Hok as [Hi _]. apply sched_ok_intro; [|exact Hu].
  pose proof (si_selected _ _ _ Hi) as Ho. unfold selection_ok in Ho. rewrite Hs, Hc in Ho.
  assert (Hun : sched_inv None [j] (clear_selection s)) by (apply inv_unselect; [done|done|congruence]).
  exact (inv_control None [j] [] (clear_selection s) c Hun Hp).
Qed.

Lemma requeue_selected_spec s :
  sched_ok s → sched_ok (requeue_selected s) ∧ pool_ (requeue_selected s) = pool_ s.
Proof.
  intros Hok. unfold requeue_selected. destruct (selected_ s) as [j|] eqn:Hs; [|done].
  destruct (selected_control_ s) eqn:Hc; [split; [by eapply control_restore|done]|].
  destruct (selection_flow s j Hok Hs Hc) as (r & f & Hr & Hf). rewrite Hr, Hf. cbn [default]. unfold id.
  destruct (relink_selected_pool r (with_jobs (j :: jobs f) f) s) as (Hp & Hu & _). pose proof (sched_ok_used _ Hok) as Hl.
  destruct Hok as [Hi _]. split; [|exact Hp]. apply sched_ok_intro; [by eapply restore_inv|].
  cbn [used_ pool_ clear_selection set_selection]. by rewrite Hu, Hp.
Qed.

Lemma deficit_bounds x y s ci : sched_inv x y s → deficit_ok (deficit s ci).
Proof.
  intros Hi. unfold deficit. destruct (deficit_ s !! ci) as [d|] eqn:Hd; cbn [default]; [|unfold deficit_ok, kDeficitCap; lia].
  exact (Forall_lookup_1 _ _ _ _ (si_deficit _ _ _ Hi) Hd).
Qed.

Lemma defer_selected_spec s :
  sched_ok s → sched_ok (defer_selected s) ∧ pool_ (defer_selected s) = pool_ s.
Proof.
  intros Hok. unfold defer_selected. destruct (selected_ s) as [j|] eqn:Hs; [|done].
  destruct (selected_control_ s) eqn:Hc; [split; [eapply control_restore; [done|done|done|solve_Permutation]|done]|].
  destruct (selection_flow s j Hok Hs Hc) as (r & f & Hr & Hf). destruct (selected_live s j Hok Hs) as [job Hjob].
  rewrite Hr, Hf, Hjob. cbn [default]. unfold id. set (s1 := set_deficit _ _ s).
  destruct (relink_selected_pool r (with_jobs (jobs f ++ [j]) f) s1) as (Hp & Hu & _). pose proof (sched_ok_used _ Hok) as Hl.
  destruct Hok as [Hi _]. split; [|exact Hp]. apply sched_ok_intro.
  - apply (restore_inv s1 j r f); [|done|done|by destruct r|solve_Permutation].
    apply inv_deficit; [done|]. pose proof (deficit_bounds _ _ _ (sched_class_index (sched_class f)) Hi) as [Hd0 Hd1].
    pose proof (si_cost _ _ _ Hi j job Hjob). unfold deficit_ok, kDeficitCap in *. lia.
  - cbn [used_ pool_ clear_selection set_selection]. by rewrite Hu, Hp.
Qed.

(** ** Removal *)

Lemma without_app j xs ys : without j (xs ++ ys) = without j xs ++ without j ys.
Proof. apply filter_app. Qed.

Lemma without_concat j xss : without j (concat xss) = concat (without j <$> xss).
Proof. induction xss as [|xs xss IH]; [done|]. cbn [concat fmap list_fmap]. by rewrite without_app, IH. Qed.

Lemma without_perm j xs : NoDup xs → j ∈ xs → j :: without j xs ≡ₚ xs.
Proof.
  intros Hn (ys & zs & ->)%list_elem_of_split. rewrite <- Permutation_middle in Hn. apply NoDup_cons in Hn as [Hj Hn].
  assert (Hk : ∀ l, j ∉ l → without j l = l).
  { intros l Hl. unfold without. induction l as [|k l IH]; [done|]. apply not_elem_of_cons in Hl as [? Hl].
    rewrite filter_cons_True by congruence. by rewrite IH. }
  unfold without in *. rewrite filter_app, filter_cons_False by (by intros []). rewrite !Hk by set_solver. apply Permutation_middle.
Qed.

Lemma get_unlink s j r : get_flow (unlink j s) r = (λ f, with_jobs (without j (jobs f)) f) <$> get_flow s r.
Proof.
  destruct r as [i|c]; cbn [get_flow unlink flows_ overflow_ set_control set_flows].
  - unfold Slots.at_, Slots.for_each. rewrite list_lookup_fmap. by destruct (flows_ s !! i) as [[]|].
  - by rewrite list_lookup_fmap.
Qed.

Lemma placed_unlink s j : selected_ s = None → placed (unlink j s) = without j (placed s).
Proof.
  intros Hs. unfold placed, blocks. cbn [unlink selected_ control_ flows_ overflow_ set_control set_flows]. rewrite Hs. cbn [option_list app].
  change (option_list (@None nat)) with (@nil nat). cbn [app]. rewrite without_app, without_concat. do 2 f_equal.
  rewrite fmap_app, <- !list_fmap_compose. f_equal. unfold Slots.for_each. rewrite <- list_fmap_compose.
  apply list_fmap_ext. intros _ [f|] _; done.
Qed.

Lemma unlink_inv s j : sched_inv None [] s → selected_ s = None → j ∈ placed s → sched_inv None [j] (unlink j s).
Proof.
  intros Hi Hs Hj. pose proof (placed_unlink s j Hs) as Hpl.
  assert (Hnd : NoDup (placed s)) by (rewrite (si_placed _ _ _ Hi); apply NoDup_indices).
  open_inv Hi. unfold selection_ok in si_selected0. rewrite Hs in si_selected0. destruct si_selected0 as [Hsf Hsc].
  assert (Hback : ∀ r g, get_flow (unlink j s) r = Some g → ∃ f, get_flow s r = Some f ∧ g = with_jobs (without j (jobs f)) f).
  { intros r g. rewrite get_unlink. intros (f & Hf & ->)%fmap_Some. by exists f. }
  split; try done.
  - open_shape si_shape0. split; try done; cbn; unfold Slots.for_each; by rewrite length_fmap.
  - rewrite Hpl. cbn [app]. rewrite without_perm by done. exact si_placed0.
  - intros ci r. change (ring (unlink j s) ci) with (ring s ci). rewrite si_ring0, get_unlink. split.
    + intros (f & Hf & Hfr & Hfc). rewrite Hf. by eexists.
    + intros (g & (f & Hf & ->)%fmap_Some & Hgr & Hgc). by exists f.
  - intros r g (f & Hf & ->)%Hback Hg. apply (si_linked0 r f Hf). cbn [jobs with_jobs] in Hg. by intros Hn; rewrite Hn in Hg.
  - intros i g (f & Hf & ->)%Hback. exact (si_desc0 i f Hf).
  - intros c g (f & Hf & ->)%Hback. exact (si_over0 c f Hf).
  - unfold selection_ok. cbn [unlink selected_ selected_flow_ selected_control_ set_control set_flows]. by rewrite Hs.
Qed.

Lemma victim_from_spec pred sel p : ∀ i j,
  victim_from i pred sel p = Some j → ∃ k job, j = i + k ∧ p !! k = Some (Some job) ∧ pred job = true ∧ sel ≠ Some j.
Proof.
  induction p as [|[job|] p IH]; intros i j; cbn [victim_from]; [done| |].
  - destruct (negb _ && pred job) eqn:He.
    + intros [= <-]. apply andb_true_iff in He as [Hn Hp]. apply negb_true_iff, bool_decide_eq_false in Hn.
      exists 0, job. split; [lia|]. done.
    + intros (k & job' & -> & ? & ? & ?)%IH. exists (S k), job'. split; [lia|]. done.
  - intros (k & job' & -> & ? & ? & ?)%IH. exists (S k), job'. split; [lia|]. done.
Qed.

Lemma drop_one_if_spec pred s :
  sched_ok s → selected_ s = None →
  sched_ok (snd (drop_one_if pred s)) ∧ selected_ (snd (drop_one_if pred s)) = None ∧
  match fst (drop_one_if pred s) with
  | None => snd (drop_one_if pred s) = s
  | Some job => pred job = true ∧ ∃ j, job_at s j = Some job ∧
                  pool_ (snd (drop_one_if pred s)) = snd (Slots.release j (pool_ s))
  end.
Proof.
  intros Hok Hs. pose proof (sched_ok_used _ Hok) as Hu. destruct Hok as [Hi Hl]. unfold drop_one_if.
  destruct (victim_from 0 pred (selected_ s) (pool_ s)) as [j|] eqn:Hv; [|split; [exact (conj Hi Hl)|by split]].
  apply victim_from_spec in Hv as (k & job & -> & Hk & Hp & _). cbn [Nat.add]. apply at_lookup in Hk.
  assert (Hin : k ∈ placed s) by (rewrite (si_placed _ _ _ Hi : placed s ≡ₚ _); apply elem_of_indices; by rewrite Hk).
  pose proof (unlink_inv s k Hi Hs Hin) as Hinv. cbn [fst snd].
  change (job_at (unlink k s) k) with (job_at s k). unfold job_at. rewrite Hk. split; [|split; [exact Hs|]].
  - apply sched_ok_intro.
    + apply inv_used. by apply inv_clear_pool in Hinv.
    + cbn [used_ pool_ unlink set_used set_pool set_control set_flows]. rewrite release_length by (by rewrite Hk). lia.
  - split; [done|]. by exists k.
Qed.
