(* ===== verification/SchedulerSelect.v ===== *)
(** * What one selection does

    A pass of [select] either picks the head of a flow that is ready and
    affordable, or leaves the queued work as it was and raises deficits.
    [quiet] is the second outcome, [picked] the first; the loops of [select]
    are characterised by them. *)

From S2P Require Import Prelude Types Wire FixedContainers Congestion Scheduler SchedulerInv SchedulerProps.

Local Open Scope nat_scope.

(** A head job that no hold and no window keeps back. *)
Definition ready (now : Z) (node : NodeView) (foreground : bool) (job : TxJob) : bool :=
  bool_decide (not_before_ms job ≤ now)%Z &&
  negb (is_object job && (bool_decide (now < object_send_after_ms_ node)%Z || foreground)) &&
  tx_admitted_now node job.

(** The head of a flow. *)
Definition head_of (s : TxScheduler) (r : FlowRef) (j : nat) (job : TxJob) : Prop :=
  ∃ f js, get_flow s r = Some f ∧ jobs f = j :: js ∧ job_at s j = Some job.

(** Equal up to the window mark. *)
Definition same_mark (a b : TxJob) : Prop := with_blocked false a = with_blocked false b.

Lemma same_mark_fields a b : same_mark a b →
  not_before_ms a = not_before_ms b ∧ tx_cost a = tx_cost b ∧ frame_header a = frame_header b ∧ form a = form b ∧
  requires_hop_accept a = requires_hop_accept b ∧ peer a = peer b ∧ ident a = ident b.
Proof.
  unfold same_mark. intros H.
  split_and!; [exact (f_equal not_before_ms H)|exact (f_equal tx_cost H)|exact (f_equal frame_header H)|exact (f_equal form H)
    |exact (f_equal requires_hop_accept H)|exact (f_equal peer H)|exact (f_equal ident H)].
Qed.

Lemma ready_same now node b x y : same_mark x y → ready now node b x = ready now node b y.
Proof.
  intros (H1 & H2 & H3 & H4 & H5 & H6 & _)%same_mark_fields. unfold ready, is_object, type_in, tx_admitted_now.
  by rewrite H1, H3, H5, H6.
Qed.

Section Select.
Context (now : Z) (node : NodeView).

(** Nothing is picked: queued work is as before, up to the fields [select]
    writes on jobs that are not ready, and drained flows may be gone. *)
Record quiet (s s' : TxScheduler) : Prop := {
  qt_inv : sched_inv None [] s';
  qt_selected : selected_ s' = None;
  qt_load : load (pool_ s') = load (pool_ s);
  qt_used : used_ s' = used_ s;
  qt_control : control_ s' = control_ s;
  qt_cursor : cursor_ s' = cursor_ s;
  qt_flow : ∀ r f, get_flow s r = Some f → jobs f ≠ [] → get_flow s' r = Some f;
  qt_back : ∀ r f, get_flow s' r = Some f → jobs f ≠ [] → get_flow s r = Some f;
  qt_job : ∀ j job, job_at s j = Some job → ready now node (foreground_pending s node) job = true →
    ∃ job', job_at s' j = Some job' ∧ same_mark job' job }.

(** The head job [j] of flow [r] of class [ci] is picked and charged. *)
Record picked (ci : nat) (r : FlowRef) (j : nat) (job : TxJob) (s s' : TxScheduler) : Prop := {
  pk_inv : sched_inv None [] s';
  pk_selected : selected_ s' = Some j;
  pk_flow : selected_flow_ s' = Some r;
  pk_control : selected_control_ s' = false;
  pk_load : load (pool_ s') = load (pool_ s);
  pk_used : used_ s' = used_ s;
  pk_head : head_of s r j job;
  pk_class : ∀ f, get_flow s r = Some f → sched_class_index (sched_class f) = ci;
  pk_after : ∀ f, get_flow s' r = Some f → sched_class_index (sched_class f) = ci;
  pk_ready : ready now node (foreground_pending s node) job = true;
  pk_afford : (tx_cost job ≤ deficit s ci)%Z;
  pk_deficit : deficit_ s' = <[ci := (deficit s ci - tx_cost job)%Z]> (deficit_ s);
  pk_cursor : cursor_ s' = if is_object job then cursor_ s else (ci + 1) mod kSchedClassCount }.

Lemma quiet_refl s : sched_inv None [] s → selected_ s = None → quiet s s.
Proof. intros Hi Hs. split; try done. intros j job Hj _. by exists job. Qed.

(** What [foreground_pending] reads of the scheduler, through the flows. *)
Lemma existsb_live {T} (p : T → bool) (l : Slots.slots T) :
  existsb p (Slots.live l) = true ↔ ∃ i x, Slots.at_ i l = Some x ∧ p x = true.
Proof.
  rewrite existsb_exists. split.
  - intros (x & Hx & Hp). apply list_elem_of_In in Hx. unfold Slots.live in Hx. apply list_elem_of_omap in Hx as (o & Ho & He).
    apply list_elem_of_lookup in Ho as [i Hi]. exists i, x. split; [|done]. unfold Slots.at_. by rewrite Hi.
  - intros (i & x & Hx & Hp). exists x. split; [|done]. apply list_elem_of_In. unfold Slots.live. apply list_elem_of_omap.
    exists (Some x). split; [|done]. apply at_lookup in Hx. by apply list_elem_of_lookup_2 in Hx.
Qed.

Lemma existsb_lookup {T} (p : T → bool) (l : list T) : existsb p l = true ↔ ∃ i x, l !! i = Some x ∧ p x = true.
Proof.
  rewrite existsb_exists. split.
  - intros (x & [i Hi]%list_elem_of_In%list_elem_of_lookup & Hp). by exists i, x.
  - intros (i & x & Hi & Hp). exists x. split; [|done]. apply list_elem_of_In. by apply list_elem_of_lookup_2 in Hi.
Qed.

Lemma foreground_ext s s' :
  control_ s' = control_ s →
  (∀ r f, get_flow s r = Some f → jobs f ≠ [] → ∃ f', get_flow s' r = Some f' ∧ jobs f' = jobs f ∧ sched_class f' = sched_class f) →
  (∀ r f, get_flow s' r = Some f → jobs f ≠ [] → ∃ f', get_flow s r = Some f' ∧ jobs f' = jobs f ∧ sched_class f' = sched_class f) →
  shape s → shape s' → foreground_pending s' node = foreground_pending s node.
Proof.
  intros Hc H1 H2 Hs Hs'. assert (Hp : ∀ f, pending_flow f = true → jobs f ≠ []).
  { intros f. unfold pending_flow. destruct (jobs f); [by rewrite andb_false_r|done]. }
  assert (Hpe : ∀ f f', jobs f' = jobs f → sched_class f' = sched_class f → pending_flow f' = pending_flow f).
  { intros f f' Hj Hcl. unfold pending_flow. by rewrite Hj, Hcl. }
  assert (Hdir : ∀ a b, (∀ r f, get_flow a r = Some f → jobs f ≠ [] → ∃ f', get_flow b r = Some f' ∧ jobs f' = jobs f ∧ sched_class f' = sched_class f) →
    shape a → (existsb pending_flow (Slots.live (flows_ a)) = true → existsb pending_flow (Slots.live (flows_ b)) = true) ∧
    (existsb pending_flow (overflow_ a) = true → existsb pending_flow (overflow_ b) = true)).
  { intros a b Hab Hsh. split.
    - intros (i & f & Hf & Hpf)%existsb_live. destruct (Hab (Desc i) f Hf (Hp f Hpf)) as (f' & Hf' & Hj & Hcl).
      apply existsb_live. exists i, f'. split; [exact Hf'|]. by rewrite (Hpe f f').
    - intros (i & f & Hf & Hpf)%existsb_lookup. assert (Hi : sched_class_index (class_of_index i) = i).
      { apply lookup_lt_Some in Hf. rewrite (sh_overflow _ Hsh) in Hf. unfold kSchedClassCount in Hf.
        destruct i as [|[|[|[|i]]]]; try done; lia. }
      destruct (Hab (Over (class_of_index i)) f) as (f' & Hf' & Hj & Hcl); [cbn; by rewrite Hi|by apply Hp|].
      apply existsb_lookup. exists i, f'. cbn in Hf'. rewrite Hi in Hf'. split; [done|]. by rewrite (Hpe f f'). }
  destruct (Hdir s s' H1 Hs) as [D1 D2], (Hdir s' s H2 Hs') as [E1 E2]. unfold foreground_pending. rewrite Hc.
  assert (existsb pending_flow (Slots.live (flows_ s')) = existsb pending_flow (Slots.live (flows_ s))) as ->
    by (apply eq_true_iff_eq; tauto).
  by assert (existsb pending_flow (overflow_ s') = existsb pending_flow (overflow_ s)) as -> by (apply eq_true_iff_eq; tauto).
Qed.

Lemma quiet_foreground s s' : sched_inv None [] s → quiet s s' → foreground_pending s' node = foreground_pending s node.
Proof.
  intros Hi Hq. destruct Hq as [qt_inv0 qt_sel0 qt_load0 qt_used0 qt_control0 qt_cursor0 qt_flow0 qt_back0 qt_job0]. apply foreground_ext; [done| | |by eapply si_shape|by eapply si_shape].
  - intros r f Hf Hj. exists f. auto.
  - intros r f Hf Hj. exists f. auto.
Qed.

Lemma quiet_trans s1 s2 s3 : sched_inv None [] s1 → quiet s1 s2 → quiet s2 s3 → quiet s1 s3.
Proof.
  intros Hi H12 H23. pose proof (quiet_foreground _ _ Hi H12) as Hfg. destruct H12, H23. split; try congruence; try done; auto.
  intros j job Hj Hr. destruct (qt_job0 j job Hj Hr) as (job2 & Hj2 & Hm).
  destruct (qt_job1 j job2 Hj2) as (job3 & Hj3 & Hm3); [by rewrite Hfg, (ready_same _ _ _ _ job)|].
  exists job3. split; [done|]. unfold same_mark in *. congruence.
Qed.

Lemma quiet_head s s' r j job :
  quiet s s' → head_of s r j job → ready now node (foreground_pending s node) job = true →
  ∃ job', head_of s' r j job' ∧ same_mark job' job.
Proof.
  intros [] (f & js & Hf & Hj & Hjob) Hr. destruct (qt_job0 j job Hjob Hr) as (job' & Hjob' & Hm). exists job'. split; [|done].
  exists f, js. split; [|done]. apply qt_flow0; [done|]. by rewrite Hj.
Qed.

(** ** One flow *)

Definition fg_ok (fg : option bool) (s : TxScheduler) : Prop := fg = None ∨ fg = Some (foreground_pending s node).

Definition popped (ci : nat) (r : FlowRef) (rest : list FlowRef) (f : FlowDesc) (s : TxScheduler) : TxScheduler :=
  put_flow r (with_rr false f) (set_ring ci rest s).

Lemma with_rr_same f b : in_rr f = b → with_rr b (with_rr false f) = f.
Proof. intros <-. by destruct f. Qed.

Lemma popped_get s ci r rest f r' :
  shape s → get_flow s r = Some f →
  get_flow (popped ci r rest f s) r' = if decide (r' = r) then Some (with_rr false f) else get_flow s r'.
Proof.
  intros Hs Hf. unfold popped. rewrite (get_put _ r f).
  - by rewrite get_flow_set_ring.
  - by apply shape_set_ring.
  - by rewrite get_flow_set_ring.
Qed.

Lemma popped_ring s ci r rest f c :
  shape s → ci < kSchedClassCount → ring (popped ci r rest f s) c = if decide (c = ci) then rest else ring s c.
Proof. intros Hs Hci. unfold popped. rewrite ring_put. by apply ring_set_ring. Qed.

Lemma popped_foreground s ci r rest f :
  shape s → get_flow s r = Some f → foreground_pending (popped ci r rest f s) node = foreground_pending s node.
Proof.
  intros Hs Hf. assert (Hs' : shape (popped ci r rest f s)) by (by apply shape_put, shape_set_ring). apply foreground_ext; try done.
  - by destruct r.
  - intros r' g Hg Hj. rewrite popped_get by done. destruct (decide (r' = r)) as [->|]; [|by exists g].
    eexists. split; [done|]. by simplify_eq.
  - intros r' g Hg Hj. rewrite popped_get in Hg by done. destruct (decide (r' = r)) as [->|]; [|by exists g].
    injection Hg as <-. by exists f.
Qed.

(** Passing over a flow: it goes to the tail of its ring unchanged, and at
    most its head job and the counters are written. *)
Lemma blocked_spec s ci r rest f p t :
  sched_inv None [] s → ring s ci = r :: rest → get_flow s r = Some f → in_rr f = true →
  sched_class_index (sched_class f) = ci → jobs f ≠ [] →
  sched_inv (Some r) [] (set_stats t (set_pool p (popped ci r rest f s))) →
  let s' := relink ci r (with_rr false f) (set_stats t (set_pool p (popped ci r rest f s))) in
  sched_inv None [] s' ∧ (∀ r', get_flow s' r' = get_flow s r') ∧ (∀ c, ring s' c = if decide (c = ci) then rest ++ [r] else ring s c) ∧
  pool_ s' = p ∧ used_ s' = used_ s ∧ control_ s' = control_ s ∧ cursor_ s' = cursor_ s ∧ deficit_ s' = deficit_ s ∧ selected_ s' = selected_ s.
Proof.
  intros Hi Hring Hf Hrr Hci Hj Hinv. set (s2 := set_stats t _) in *. cbv zeta.
  assert (Hlt : ci < kSchedClassCount) by (subst ci; apply class_index_lt). pose proof (si_shape _ _ _ Hi) as Hs.
  assert (Hf2 : get_flow s2 r = Some (with_rr false f)).
  { transitivity (get_flow (popped ci r rest f s) r); [by destruct r|]. by rewrite popped_get, decide_True. }
  assert (Hg2 : ∀ r', get_flow s2 r' = if decide (r' = r) then Some (with_rr false f) else get_flow s r').
  { intros r'. transitivity (get_flow (popped ci r rest f s) r'); [by destruct r'|]. by apply popped_get. }
  assert (Hr2 : ∀ c, ring s2 c = if decide (c = ci) then rest else ring s c) by (intros c; by apply popped_ring).
  pose proof (inv_link [] s2 r (with_rr false f) Hinv Hf2 Hj) as Hlink. cbn [sched_class with_rr] in Hlink. rewrite Hci in Hlink.
  split; [done|]. unfold relink in *. pose proof (ring_room _ _ _ ci r _ Hinv Hf2 eq_refl) as Hroom.
  rewrite ring_push_room by (by rewrite ring_put). rewrite with_rr_same by done.
  assert (Hs2 : shape (put_flow r f s2)) by (apply shape_put; by eapply si_shape).
  split_and!; try (by destruct r).
  - intros r'. rewrite get_flow_set_ring, (get_put s2 r (with_rr false f)) by (done || by eapply si_shape). rewrite Hg2.
    by destruct (decide (r' = r)) as [->|].
  - intros c. rewrite ring_set_ring by done. rewrite !ring_put, !Hr2. destruct (decide (c = ci)); [|done]. by rewrite decide_True.
Qed.

(** The same as a quiet step, when the jobs that are ready keep everything
    but their window mark. *)
Lemma blocked_quiet s ci r rest f p t :
  sched_inv None [] s → selected_ s = None → ring s ci = r :: rest → get_flow s r = Some f → in_rr f = true →
  sched_class_index (sched_class f) = ci → jobs f ≠ [] →
  sched_inv (Some r) [] (set_stats t (set_pool p (popped ci r rest f s))) → load p = load (pool_ s) →
  (∀ j job, job_at s j = Some job → ready now node (foreground_pending s node) job = true →
    ∃ job', Slots.at_ j p = Some job' ∧ same_mark job' job) →
  let s' := relink ci r (with_rr false f) (set_stats t (set_pool p (popped ci r rest f s))) in
  quiet s s' ∧ deficit_ s' = deficit_ s ∧ (∀ c, ring s' c = if decide (c = ci) then rest ++ [r] else ring s c).
Proof.
  intros Hi Hsel Hring Hf Hrr Hci Hj Hinv Hload Hmark.
  destruct (blocked_spec s ci r rest f p t Hi Hring Hf Hrr Hci Hj Hinv) as (H1 & H2 & H3 & H4 & H5 & H6 & H7 & H8 & H9).
  cbv zeta in *. split; [|done]. split; [done|congruence|congruence|done|done|done| | |].
  - intros r' g Hg _. by rewrite (H2 r').
  - intros r' g Hg _. by rewrite (H2 r') in Hg.
  - intros j job Hjob Hr. unfold job_at. rewrite H4. by apply Hmark.
Qed.

Lemma set_same s : set_stats (stats_ s) (set_pool (pool_ s) s) = s.
Proof. by destruct s. Qed.

(** The outcome of a visit of flow [r] that picks nothing. *)
Definition passed (ci : nat) (r : FlowRef) (rest : list FlowRef) (fg' : option bool) (s s' : TxScheduler) : Prop :=
  quiet s s' ∧ deficit_ s' = deficit_ s ∧ fg_ok fg' s ∧ (∀ c, c ≠ ci → ring s' c = ring s c) ∧
  (ring s' ci = rest ∨ ring s' ci = rest ++ [r]) ∧
  (∀ j job, head_of s r j job → ready now node (foreground_pending s node) job = true → (deficit s ci < tx_cost job)%Z).

Lemma passed_blocked s ci r rest f fg' p t :
  sched_inv None [] s → selected_ s = None → ring s ci = r :: rest → get_flow s r = Some f → in_rr f = true →
  sched_class_index (sched_class f) = ci → jobs f ≠ [] → fg_ok fg' s →
  sched_inv (Some r) [] (set_stats t (set_pool p (popped ci r rest f s))) → load p = load (pool_ s) →
  (∀ j job, job_at s j = Some job → ready now node (foreground_pending s node) job = true →
    ∃ job', Slots.at_ j p = Some job' ∧ same_mark job' job) →
  (∀ j job, head_of s r j job → ready now node (foreground_pending s node) job = true → (deficit s ci < tx_cost job)%Z) →
  passed ci r rest fg' s (relink ci r (with_rr false f) (set_stats t (set_pool p (popped ci r rest f s)))).
Proof.
  intros Hi Hsel Hring Hf Hrr Hci Hj Hfg Hinv Hload Hmark Helig.
  destruct (blocked_quiet s ci r rest f p t Hi Hsel Hring Hf Hrr Hci Hj Hinv Hload Hmark) as (Hq & Hd & Hr). cbv zeta in *.
  split; [done|]. split; [done|]. split; [done|]. split; [|split; [|done]].
  - intros c Hc. by rewrite Hr, decide_False.
  - right. by rewrite Hr, decide_True.
Qed.

Lemma passed_drained s ci r rest f fg :
  sched_inv None [] s → selected_ s = None → ring s ci = r :: rest → get_flow s r = Some f → in_rr f = true →
  jobs f = [] → fg_ok fg s → sched_inv (Some r) [] (popped ci r rest f s) → ci < kSchedClassCount →
  passed ci r rest fg s (if overflow f then popped ci r rest f s else release_flow r (popped ci r rest f s)).
Proof.
  intros Hi Hsel Hring Hf Hrr Hj Hfg Hinv Hlt. pose proof (si_shape _ _ _ Hi) as Hs.
  assert (Hsf : selected_flow_ s = None). { pose proof (si_selected _ _ _ Hi) as Ho. unfold selection_ok in Ho. rewrite Hsel in Ho. tauto. }
  assert (Hpf : get_flow (popped ci r rest f s) r = Some (with_rr false f)) by (by rewrite popped_get, decide_True).
  assert (Hno : ∀ j job, head_of s r j job → ready now node (foreground_pending s node) job = true → (deficit s ci < tx_cost job)%Z).
  { intros j job (f' & js & Hf' & Hj' & _). simplify_eq. congruence. }
  assert (Hpr : ∀ c, ring (popped ci r rest f s) c = if decide (c = ci) then rest else ring s c) by (intros c; by apply popped_ring).
  destruct r as [i|c0].
  - destruct (si_desc _ _ _ Hi i f Hf) as [-> _]. split_and!; [|done|done| | |done].
    + split; try done.
      * apply (inv_release [] _ i (with_rr false f)); [done|done|done|]. cbn. by rewrite Hsf.
      * intros r' g Hg Hgj. rewrite get_release, popped_get by done. destruct (decide (r' = Desc i)) as [->|]; [congruence|done].
      * intros r' g Hg _. rewrite get_release, popped_get in Hg by done. by destruct (decide (r' = Desc i)).
      * intros j job Hjob _. by exists job.
    + intros c Hc. change (ring (popped ci (Desc i) rest f s) c = ring s c). by rewrite Hpr, decide_False.
    + left. change (ring (popped ci (Desc i) rest f s) ci = rest). by rewrite Hpr, decide_True.
  - destruct (si_over _ _ _ Hi c0 f Hf (or_introl Hrr)) as [_ ->]. split_and!; [|done|done| | |done].
    + split; try done.
      * by apply (inv_unfloat [] _ (Over c0) (with_rr false f)).
      * intros r' g Hg Hgj. rewrite popped_get by done. destruct (decide (r' = Over c0)) as [->|]; [congruence|done].
      * intros r' g Hg Hgj. rewrite popped_get in Hg by done. destruct (decide (r' = Over c0)) as [->|]; [|done].
        injection Hg as <-. done.
      * intros j job Hjob _. by exists job.
    + intros c Hc. by rewrite Hpr, decide_False.
    + left. by rewrite Hpr, decide_True.
Qed.

(** The pick itself. *)
Lemma picked_spec s ci r rest f j js job (obj : bool) :
  sched_inv None [] s → selected_ s = None → ring s ci = r :: rest → get_flow s r = Some f → in_rr f = true →
  sched_class_index (sched_class f) = ci → jobs f = j :: js → job_at s j = Some job → is_object job = obj →
  ready now node (foreground_pending s node) job = true → (tx_cost job ≤ deficit s ci)%Z →
  sched_inv (Some r) [] (popped ci r rest f s) →
  let s2 := set_job j (with_blocked false job) (popped ci r rest f s) in
  let s3 := set_deficit ci (deficit s2 ci - tx_cost job) s2 in
  let f1 := with_jobs js (with_rr false f) in
  let s4 := match js with [] => put_flow r f1 s3 | _ => relink ci r f1 s3 end in
  let s5 := set_selection (Some j) (Some r) false s4 in
  picked ci r j job s (if obj then s5 else set_cursor ((ci + 1) mod kSchedClassCount) s5).
Proof.
  intros Hi Hsel Hring Hf Hrr Hci Hj Hjob Hobj Hready Haff Hinv. cbv zeta. pose proof (si_shape _ _ _ Hi) as Hs.
  set (s1 := popped ci r rest f s) in *. assert (Hdef : deficit (set_job j (with_blocked false job) s1) ci = deficit s ci) by (by destruct r).
  rewrite Hdef. set (s2 := set_job j _ s1).
  assert (Hf1 : get_flow s1 r = Some (with_rr false f)) by (unfold s1; by rewrite popped_get, decide_True).
  assert (Hj1 : job_at s1 j = Some job) by (by destruct r).
  assert (Hi2 : sched_inv (Some r) [] s2) by (by eapply inv_job).
  assert (Hov : ∀ c, r = Over c → sched_class f = c ∧ overflow f = true) by (intros c ->; apply (si_over _ _ _ Hi c f Hf); by left).
  pose proof (si_cost _ _ _ Hi j job Hjob) as Hcost. pose proof (deficit_bounds _ _ _ ci Hi) as Hdb.
  set (s3 := set_deficit ci _ s2). assert (Hi3 : sched_inv (Some r) [] s3).
  { apply inv_deficit; [done|]. unfold deficit_ok, kMaxJobCost in *. lia. }
  assert (Hf3 : get_flow s3 r = Some (with_rr false f)) by (by destruct r).
  set (f1 := with_jobs js (with_rr false f)). assert (Hs3 : selected_ s3 = None) by (by destruct r).
  assert (Hput : sched_inv (Some r) [j] (put_flow r f1 s3)).
  { apply (inv_put (Some r) [] [j] s3 r (with_rr false f) js Hi3 Hf3); [cbn; by rewrite Hj|by right|done]. }
  assert (Hfp : get_flow (put_flow r f1 s3) r = Some f1) by (rewrite (get_put s3 r (with_rr false f)), decide_True; eauto with sched).
  set (s4 := match js with [] => put_flow r f1 s3 | _ => relink ci r f1 s3 end).
  assert (Hfin : sched_inv None [] (set_selection (Some j) (Some r) false s4)).
  { unfold s4. destruct js as [|k ks].
    - apply (inv_unfloat [] _ r f1); [|by destruct r|done|done]. apply (inv_select (Some r) [] _ j r f1); try done. by destruct r.
    - assert (Hl : sched_inv None [j] (relink ci r f1 s3)).
      { pose proof (inv_link [j] _ r f1 Hput Hfp) as Hl. cbn [sched_class f1 with_jobs with_rr] in Hl. rewrite Hci in Hl.
        unfold relink in *. rewrite put_put in Hl. by apply Hl. }
      apply (inv_select None [] _ j r (with_rr true f1)); try done.
      + unfold relink, ring_push. destruct (_ =? _); by destruct r.
      + unfold relink, ring_push. rewrite ring_put.
        assert (Hg : get_flow (put_flow r (with_rr true f1) s3) r = Some (with_rr true f1))
          by (rewrite (get_put s3 r (with_rr false f)), decide_True; eauto with sched).
        destruct (_ =? _); [done|]. by rewrite get_flow_set_ring. }
  assert (Hfld : pool_ s4 = Slots.set j (with_blocked false job) (pool_ s) ∧ used_ s4 = used_ s ∧
    deficit_ s4 = <[ci := (deficit s ci - tx_cost job)%Z]> (deficit_ s) ∧ cursor_ s4 = cursor_ s).
  { unfold s4. destruct js; [by destruct r|]. unfold relink, ring_push. destruct (_ =? _); by destruct r. }
  destruct Hfld as (Ep & Eu & Ed & Ec).
  assert (Hload : load (pool_ s4) = load (pool_ s)) by (rewrite Ep; by eapply load_set_same).
  assert (Hcl : ∀ g, get_flow s r = Some g → sched_class_index (sched_class g) = ci) by (intros g Hg; by simplify_eq).
  assert (Hhd : head_of s r j job) by (by exists f, js).
  assert (Hcl4 : ∀ g, get_flow s4 r = Some g → sched_class_index (sched_class g) = ci).
  { intros g. unfold s4. destruct js as [|k ks]; [rewrite Hfp; by intros [= <-]|]. unfold relink, ring_push. rewrite ring_put.
    assert (Hg : get_flow (put_flow r (with_rr true f1) s3) r = Some (with_rr true f1))
      by (rewrite (get_put s3 r (with_rr false f)), decide_True; eauto with sched).
    destruct (_ =? _); [|rewrite get_flow_set_ring]; rewrite Hg; by intros [= <-]. }
  assert (Hcl5 : ∀ g, get_flow (set_selection (Some j) (Some r) false s4) r = Some g → sched_class_index (sched_class g) = ci)
    by (intros g Hg; apply Hcl4; by destruct r).
  destruct obj; split; try done; try (by rewrite Hobj).
  apply inv_cursor; [done|]. apply Nat.mod_upper_bound. done.
Qed.

(** A visit that writes the head job, or nothing, and puts the flow back. *)
Section Visit.
Context (s : TxScheduler) (ci : nat) (r : FlowRef) (rest : list FlowRef) (f : FlowDesc) (j : nat) (js : list nat) (job : TxJob).
Context (Hi : sched_inv None [] s) (Hsel : selected_ s = None) (Hring : ring s ci = r :: rest).
Context (Hf : get_flow s r = Some f) (Hrr : in_rr f = true) (Hci : sched_class_index (sched_class f) = ci).
Context (Hj : jobs f = j :: js) (Hjob : job_at s j = Some job).
Context (Hinv : sched_inv (Some r) [] (popped ci r rest f s)).

Lemma visited_pool : pool_ (popped ci r rest f s) = pool_ s.
Proof. by destruct r. Qed.

Lemma visited_jobs : jobs f ≠ [].
Proof. by rewrite Hj. Qed.

Lemma only_head k w : head_of s r k w → k = j ∧ w = job.
Proof. intros (f' & ks & Hf' & Hk & Hw). rewrite Hf in Hf'. injection Hf' as <-. split; congruence. Qed.

(** The head is either not ready or too expensive. *)
Definition passes_head : Prop :=
  ready now node (foreground_pending s node) job = true → (deficit s ci < tx_cost job)%Z.

Lemma pass_write v t fg' :
  tx_cost v = tx_cost job → ident v = ident job → passes_head → fg_ok fg' s →
  (ready now node (foreground_pending s node) job = true → same_mark v job) →
  passed ci r rest fg' s (relink ci r (with_rr false f) (set_stats t (set_pool (Slots.set j v (pool_ s)) (popped ci r rest f s)))).
Proof.
  intros Hc Hid Hp Hfg Hm. pose proof visited_jobs. apply passed_blocked; try done.
  - rewrite <- visited_pool. apply inv_stats. eapply (inv_job (Some r) [] (popped ci r rest f s) j job v); [done|by destruct r|done].
  - by eapply load_set_same.
  - intros k w Hk Hw. rewrite at_set by (by eapply at_lt). destruct (decide (k = j)) as [->|]; [|by exists w].
    exists v. split; [done|]. assert (w = job) as -> by congruence. auto.
  - intros k w [-> ->]%only_head. exact Hp.
Qed.

Lemma pass_keep fg' :
  passes_head → fg_ok fg' s → passed ci r rest fg' s (relink ci r (with_rr false f) (popped ci r rest f s)).
Proof.
  intros Hp Hfg. pose proof visited_jobs. pose proof visited_pool as Hvp. rewrite <- (set_same (popped ci r rest f s)), Hvp.
  apply passed_blocked; try done.
  - rewrite <- Hvp. by rewrite set_same.
  - intros k w Hk _. by exists w.
  - intros k w [-> ->]%only_head. exact Hp.
Qed.
End Visit.

(** The hold test of the loop, with the local [foreground_pending] as the
    loop has it, agrees with [ready]. *)
Lemma held_ready fg s job :
  fg_ok fg s →
  let fg1 := if is_object job then match fg with None => Some (foreground_pending s node) | Some _ => fg end else fg in
  fg_ok fg1 s ∧
  ready now node (foreground_pending s node) job =
    negb (bool_decide (now < not_before_ms job)%Z ||
          is_object job && (bool_decide (now < object_send_after_ms_ node)%Z || default false fg1)) && tx_admitted_now node job.
Proof.
  intros Hfg. cbv zeta. split.
  - destruct (is_object job); [|done]. destruct Hfg as [->|Hsome]; [by right|]. destruct fg; by right.
  - unfold ready. rewrite negb_orb. f_equal. f_equal.
    + rewrite <- bool_decide_not. apply bool_decide_ext. lia.
    + destruct (is_object job); [|done]. by destruct Hfg as [->| ->].
Qed.

Definition visit_post (ci : nat) (r : FlowRef) (rest : list FlowRef) (s : TxScheduler) (out : option nat * option bool * TxScheduler) : Prop :=
  match out with
  | (None, fg', s') => passed ci r rest fg' s s'
  | (Some j, _, s') => ∃ job, picked ci r j job s s'
  end.

Lemma visit_flow_spec ci fg s r rest :
  sched_inv None [] s → selected_ s = None → fg_ok fg s → ring s ci = r :: rest →
  visit_post ci r rest s (visit ci now node fg s).
Proof.
  intros Hi Hsel Hfg Hring. destruct (inv_pop [] s ci r rest Hi Hring) as (f & Hf & Hrr & Hci & Hinv).
  pose proof (si_shape _ _ _ Hi) as Hs. assert (Hlt : ci < kSchedClassCount) by (rewrite <- Hci; apply class_index_lt).
  fold (popped ci r rest f s) in Hinv. unfold visit. rewrite Hring, Hf. change (default empty_flow (Some f)) with f. fold (popped ci r rest f s).
  rewrite popped_foreground by done. cbn [jobs with_rr]. destruct (jobs f) as [|j js] eqn:Hj.
  { exact (passed_drained s ci r rest f fg Hi Hsel Hring Hf Hrr Hj Hfg Hinv Hlt). }
  assert (Hjob : ∃ job, job_at s j = Some job).
  { apply elem_of_indices. rewrite <- (si_placed _ _ _ Hi). destruct (placed_put s r f f Hs Hf) as (rs & Hp & _).
    cbn [app]. rewrite Hp, Hj. by left. }
  destruct Hjob as [job Hjob]. assert (Hj1 : job_at (popped ci r rest f s) j = Some job) by (by destruct r).
  rewrite Hj1. change (default empty_job (Some job)) with job. destruct (held_ready fg s job Hfg) as [Hfg1 Hready]. cbv zeta in Hfg1, Hready.
  set (fg1 := if is_object job then _ else fg) in *.
  assert (Hw : ∀ v (t : SchedStats), set_job j v (popped ci r rest f s) = set_stats (stats_ s) (set_pool (Slots.set j v (pool_ s)) (popped ci r rest f s)))
    by (by destruct r).
  destruct (bool_decide (now < not_before_ms job)%Z ||
    is_object job && (bool_decide (now < object_send_after_ms_ node)%Z || default false fg1)) eqn:Hheld; [|destruct (tx_admitted_now node job) eqn:Hadm; cbn [negb]].
  - (* held *)
    assert (Hskip : passes_head s ci job) by (unfold passes_head; by rewrite Hready).
    destruct (is_object job); cbn [visit_post]; [|by eapply pass_keep]. rewrite Hw by exact (stats_ s).
    eapply pass_write; try done. by rewrite Hready.
  - assert (Hdef : deficit (set_job j (with_blocked false job) (popped ci r rest f s)) ci = deficit s ci) by (by destruct r).
    destruct (bool_decide (deficit (set_job j (with_blocked false job) (popped ci r rest f s)) ci < tx_cost job)%Z) eqn:Hcost;
      cbn [visit_post]; rewrite Hdef in Hcost; [apply bool_decide_eq_true in Hcost|apply bool_decide_eq_false in Hcost].
    + rewrite Hw by exact (stats_ s). eapply pass_write; try done. exact (λ _, Hcost).
    + exists job. apply picked_spec; try done. lia.
  - (* window full *)
    assert (Hskip : passes_head s ci job) by (unfold passes_head; by rewrite Hready).
    destruct (window_block_counted job); cbn [visit_post]; [by eapply pass_keep|]. unfold bump_limited. set (t := mkStats _ _ _ _).
    replace (set_job j _ _) with (set_stats t (set_pool (Slots.set j (with_blocked true job) (pool_ s)) (popped ci r rest f s)))
      by (by destruct r). eapply pass_write; try done.
Qed.
End Select.
