(* ===== verification/SchedulerLive.v ===== *)
(** * Progress of the transmit scheduler

    The loops of [select] end with a pick whenever any flow has a ready head,
    and no class that stays ready is passed over for long. *)

From S2P Require Import Prelude Types Wire FixedContainers Congestion Scheduler SchedulerInv SchedulerProps SchedulerSelect.

Local Open Scope nat_scope.

Section Live.
Context (now : Z) (node : NodeView).

(** Some flow of class [t] has a ready head job. *)
Definition waiting (s : TxScheduler) (t : nat) : Prop :=
  ∃ r f j job, get_flow s r = Some f ∧ sched_class_index (sched_class f) = t ∧ head_of s r j job ∧
    ready now node (foreground_pending s node) job = true.

Lemma waiting_quiet s s' t : sched_inv None [] s → quiet now node s s' → waiting s t → waiting s' t.
Proof.
  intros Hi Hq (r & f & j & job & Hf & Ht & Hh & Hr). destruct (quiet_head _ _ _ _ _ _ _ Hq Hh Hr) as (job' & Hh' & Hm).
  exists r, f, j, job'. split; [|split; [done|split; [done|]]].
  - apply (qt_flow _ _ _ _ Hq); [done|]. destruct Hh as (f' & js & Hf' & Hj & _). assert (f' = f) as -> by congruence. by rewrite Hj.
  - rewrite (quiet_foreground _ _ _ _ Hi Hq). by rewrite (ready_same _ _ _ _ job).
Qed.

Lemma waiting_ring s r f j job :
  sched_inv None [] s → get_flow s r = Some f → head_of s r j job → r ∈ ring s (sched_class_index (sched_class f)).
Proof.
  intros Hi Hf (f' & js & Hf' & Hj & _). assert (f' = f) as -> by congruence.
  apply (si_ring _ _ _ Hi). exists f. split; [done|]. split; [|done].
  destruct (si_linked _ _ _ Hi r f Hf) as [|]; by rewrite ?Hj.
Qed.

Lemma fg_quiet fg s s' : sched_inv None [] s → quiet now node s s' → fg_ok node fg s → fg_ok node fg s'.
Proof. intros Hi Hq [->|Hf]; [by left|right]. by rewrite (quiet_foreground _ _ _ _ Hi Hq). Qed.

(** ** A ring *)

Lemma scan_ring_spec n : ∀ ci fg s,
  sched_inv None [] s → selected_ s = None → fg_ok node fg s → n ≤ length (ring s ci) →
  match scan_ring n ci now node fg s with
  | (None, fg', s') =>
      quiet now node s s' ∧ deficit_ s' = deficit_ s ∧ fg_ok node fg' s' ∧
      ∀ r j job, r ∈ take n (ring s ci) → head_of s r j job → ready now node (foreground_pending s node) job = true →
        (deficit s ci < tx_cost job)%Z
  | (Some j, _, s') => ∃ s0 r job, quiet now node s s0 ∧ deficit_ s0 = deficit_ s ∧ picked now node ci r j job s0 s'
  end.
Proof.
  induction n as [|n IH]; intros ci fg s Hi Hsel Hfg Hn; cbn [scan_ring].
  { split; [by apply quiet_refl|]. split; [done|]. split; [done|]. intros r j job Hin. by rewrite take_0, elem_of_nil in Hin. }
  destruct (ring s ci) as [|r rest] eqn:Hring; [cbn in Hn; lia|]. cbn [length] in Hn.
  pose proof (visit_flow_spec now node ci fg s r rest Hi Hsel Hfg Hring) as Hv.
  destruct (visit ci now node fg s) as [[[j|] fg1] s1]; cbn [visit_post] in Hv.
  { destruct Hv as [job Hp]. exists s, r, job. split; [by apply quiet_refl|]. done. }
  destruct Hv as (Hq & Hd & Hfg1 & _ & Hr & Hhd). pose proof (qt_inv _ _ _ _ Hq) as Hi1.
  assert (Hn1 : n ≤ length (ring s1 ci)) by (destruct Hr as [->| ->]; rewrite ?length_app; lia).
  assert (Htake : take n (ring s1 ci) = take n rest) by (destruct Hr as [->| ->]; [done|by rewrite take_app_le by lia]).
  specialize (IH ci fg1 s1 Hi1 (qt_selected _ _ _ _ Hq) (fg_quiet _ _ _ Hi Hq Hfg1) Hn1).
  assert (Hds : deficit s1 ci = deficit s ci) by (unfold deficit; by rewrite Hd).
  destruct (scan_ring n ci now node fg1 s1) as [[[j|] fg'] s'].
  - destruct IH as (s0 & r0 & job & Hq0 & Hd0 & Hp). exists s0, r0, job. split; [by eapply quiet_trans|]. split; [congruence|done].
  - destruct IH as (Hq' & Hd' & Hfg' & Hall). split; [by eapply quiet_trans|]. split; [congruence|]. split; [done|].
    intros r' j job Hin Hh Hready. cbn [take] in Hin. apply elem_of_cons in Hin as [->|Hin]; [by eapply Hhd|].
    destruct (quiet_head _ _ _ _ _ _ _ Hq Hh Hready) as (job' & Hh' & Hm). rewrite <- Hds.
    destruct (same_mark_fields _ _ Hm) as (_ & <- & _). apply (Hall r' j job'); [by rewrite Htake|done|].
    rewrite (quiet_foreground _ _ _ _ Hi Hq). by rewrite (ready_same _ _ _ _ job).
Qed.

(** ** A round of classes *)

Definition class_at (s : TxScheduler) (o : nat) : nat := (cursor_ s + o) mod kSchedClassCount.

(** At least the smallest quantum, up to the cap. *)
Definition granted (d : Z) : Z := Z.min (d + kQuantumUnit) kDeficitCap.

Lemma class_at_inj s o o' : o < kSchedClassCount → o' < kSchedClassCount → class_at s o = class_at s o' → o = o'.
Proof.
  unfold class_at, kSchedClassCount. intros H H' He.
  pose proof (Nat.div_mod_eq (cursor_ s + o) 4). pose proof (Nat.div_mod_eq (cursor_ s + o') 4). lia.
Qed.

Lemma deficit_set s ci d c : length (deficit_ s) = kSchedClassCount → ci < kSchedClassCount →
  deficit (set_deficit ci d s) c = if decide (c = ci) then d else deficit s c.
Proof.
  intros Hl Hci. unfold deficit. cbn [deficit_ set_deficit]. destruct (decide (c = ci)) as [->|].
  - by rewrite list_lookup_insert_eq by (by rewrite Hl).
  - by rewrite list_lookup_insert_ne.
Qed.

Lemma grant_spec s ci :
  sched_inv None [] s → selected_ s = None → ci < kSchedClassCount →
  quiet now node s (grant_quantum ci s) ∧ (granted (deficit s ci) ≤ deficit (grant_quantum ci s) ci)%Z ∧
  (∀ c, c ≠ ci → deficit (grant_quantum ci s) c = deficit s c) ∧
  (∀ c, (deficit s c ≤ deficit (grant_quantum ci s) c)%Z).
Proof.
  intros Hi Hsel Hci. pose proof (deficit_bounds _ _ _ ci Hi) as [Hd0 Hd1]. unfold grant_quantum.
  assert (Hw : (1 ≤ sched_class_weight (class_of_index ci))%Z) by (destruct (class_of_index ci); cbn; lia).
  set (d := Z.min _ _). assert (Hd : deficit_ok d).
  { unfold d, deficit_ok, kQuantumUnit, kDeficitCap in *. lia. }
  assert (Hget : ∀ c, deficit (set_deficit ci d s) c = if decide (c = ci) then d else deficit s c).
  { intros c. apply deficit_set; [|done]. apply (sh_deficit _ (si_shape _ _ _ Hi)). }
  split; [|split; [|split]].
  - split; try done; [by apply inv_deficit|]. intros j job Hj _. by exists job.
  - rewrite Hget, decide_True by done. unfold d, granted, kQuantumUnit. lia.
  - intros c Hc. by rewrite Hget, decide_False.
  - intros c. rewrite Hget. destruct (decide (c = ci)) as [->|]; [|lia]. unfold d, kQuantumUnit, kDeficitCap in *. lia.
Qed.

(** One class: the grant and the scan of its ring. *)
Lemma class_pass s ci fg :
  sched_inv None [] s → selected_ s = None → fg_ok node fg s → ci < kSchedClassCount →
  match scan_ring (length (ring (grant_quantum ci s) ci)) ci now node fg (grant_quantum ci s) with
  | (None, fg', s') =>
      quiet now node s s' ∧ fg_ok node fg' s' ∧ (∀ c, (deficit s c ≤ deficit s' c)%Z) ∧ (∀ c, c ≠ ci → deficit s' c = deficit s c) ∧
      (waiting s ci → (granted (deficit s ci) ≤ deficit s' ci < kMaxJobCost)%Z)
  | (Some j, _, s') =>
      ∃ s0 r job, quiet now node s s0 ∧ picked now node ci r j job s0 s' ∧ (∀ c, (deficit s c ≤ deficit s0 c)%Z) ∧
        (∀ c, c ≠ ci → deficit s0 c = deficit s c)
  end.
Proof.
  intros Hi Hsel Hfg Hci. destruct (grant_spec s ci Hi Hsel Hci) as (Hqg & Hg & Hgo & Hgm). set (s1 := grant_quantum ci s) in *.
  pose proof (qt_inv _ _ _ _ Hqg) as Hi1.
  pose proof (scan_ring_spec (length (ring s1 ci)) ci fg s1 Hi1 Hsel (fg_quiet _ _ _ Hi Hqg Hfg) (le_n _)) as Hs.
  destruct (scan_ring (length (ring s1 ci)) ci now node fg s1) as [[[j|] fg1] s2].
  - destruct Hs as (s0 & r & job & Hq0 & Hd0 & Hp). exists s0, r, job. split; [by eapply quiet_trans|].
    split; [done|]. split; [intros c; unfold deficit in *; rewrite Hd0; apply Hgm|].
    intros c Hc. unfold deficit in *. rewrite Hd0. by apply Hgo.
  - destruct Hs as (Hq2 & Hd2 & Hfg2 & Hall). rewrite firstn_all in Hall.
    assert (Hds : ∀ c, deficit s2 c = deficit s1 c) by (intros c; unfold deficit; by rewrite Hd2).
    split; [by eapply quiet_trans|]. split; [done|]. split; [intros c; rewrite Hds; apply Hgm|].
    split; [intros c Hc; rewrite Hds; by apply Hgo|].
    intros (r & f & j & job & Hf & Ht & Hh & Hr)%(waiting_quiet s s1 ci Hi Hqg). rewrite Hds. split; [done|].
    apply Z.lt_le_trans with (tx_cost job).
    + apply (Hall r j job); [|done|done]. rewrite <- Ht. by eapply waiting_ring.
    + destruct Hh as (_ & _ & _ & _ & Hjob). by apply (si_cost _ _ _ Hi1 j).
Qed.

Lemma empty_class s ci : sched_inv None [] s → ring s ci = [] → ¬ waiting s ci.
Proof.
  intros Hi Hr (r & f & j & job & Hf & Ht & Hh & _). pose proof (waiting_ring s r f j job Hi Hf Hh) as Hin.
  rewrite Ht, Hr in Hin. by apply elem_of_nil in Hin.
Qed.

Lemma scan_classes_spec n : ∀ offset any fg s,
  sched_inv None [] s → selected_ s = None → fg_ok node fg s → offset + n ≤ kSchedClassCount →
  match scan_classes n offset now node any fg s with
  | (None, any', fg', s') =>
      quiet now node s s' ∧ fg_ok node fg' s' ∧ (any = true → any' = true) ∧
      (∀ c, (deficit s c ≤ deficit s' c)%Z) ∧
      (∀ c, (∀ o, offset ≤ o < offset + n → c ≠ class_at s o) → deficit s' c = deficit s c) ∧
      (∀ o, offset ≤ o < offset + n → waiting s (class_at s o) →
        any' = true ∧ (granted (deficit s (class_at s o)) ≤ deficit s' (class_at s o) < kMaxJobCost)%Z)
  | (Some j, _, _, s') =>
      ∃ s0 o r job, offset ≤ o < offset + n ∧ quiet now node s s0 ∧ picked now node (class_at s o) r j job s0 s' ∧
      (∀ c, (deficit s c ≤ deficit s0 c)%Z) ∧
      (∀ c, (∀ o', offset ≤ o' < offset + n → c ≠ class_at s o') → deficit s0 c = deficit s c) ∧
      (∀ o', offset ≤ o' < o → waiting s (class_at s o') →
        (granted (deficit s (class_at s o')) ≤ deficit s0 (class_at s o') < kMaxJobCost)%Z)
  end.
Proof.
  induction n as [|n IH]; intros offset any fg s Hi Hsel Hfg Hn; cbn [scan_classes].
  { split; [by apply quiet_refl|]. split; [done|]. split; [done|]. split; [done|]. split; [done|]. intros o Ho. lia. }
  fold (class_at s offset). set (ci := class_at s offset).
  assert (Hci : ci < kSchedClassCount) by (by apply Nat.mod_upper_bound).
  destruct (ring s ci) as [|r0 rest] eqn:Hring.
  { pose proof (empty_class s ci Hi Hring) as Hnw. specialize (IH (S offset) any fg s Hi Hsel Hfg ltac:(lia)).
    destruct (scan_classes n (S offset) now node any fg s) as [[[[j|] any'] fg'] s'].
    - destruct IH as (s0 & o & r & job & Ho & Hq & Hp & Hd & Hk & Hw). exists s0, o, r, job. split; [lia|]. split; [done|].
      split; [done|]. split; [done|]. split; [intros c Hc; apply Hk; intros o' Ho'; apply Hc; lia|]. intros o' Ho' Hwt. destruct (decide (o' = offset)) as [->|]; [by apply Hnw in Hwt|apply Hw; [lia|done]].
    - destruct IH as (Hq & Hf & Ha & Hd & Hk & Hw). split; [done|]. split; [done|]. split; [done|]. split; [done|]. split.
      + intros c Hc. apply Hk. intros o Ho. apply Hc. lia.
      + intros o Ho Hwt. destruct (decide (o = offset)) as [->|]; [by apply Hnw in Hwt|apply Hw; [lia|done]]. }
  pose proof (class_pass s ci fg Hi Hsel Hfg Hci) as Hs.
  destruct (scan_ring _ ci now node fg _) as [[[j|] fg1] s2].
  { destruct Hs as (s0 & r & job & Hq0 & Hp & Hd0 & Hk0). exists s0, offset, r, job. split; [lia|]. split; [done|].
    split; [done|]. split; [done|]. split; [|intros o' Ho'; lia]. intros c Hc. apply Hk0. apply Hc. lia. }
  destruct Hs as (Hq & Hfg2 & Hgm & Hgo & Hdone). pose proof (qt_inv _ _ _ _ Hq) as Hi2.
  assert (Hcur : ∀ o, class_at s2 o = class_at s o) by (intros o; unfold class_at; by rewrite (qt_cursor _ _ _ _ Hq)).
  assert (Hother : ∀ o, S offset ≤ o < S offset + n → class_at s o ≠ ci).
  { intros o Ho He. apply (class_at_inj s) in He; unfold kSchedClassCount in *; lia. }
  specialize (IH (S offset) true fg1 s2 Hi2 (qt_selected _ _ _ _ Hq) Hfg2 ltac:(lia)).
  destruct (scan_classes n (S offset) now node true fg1 s2) as [[[[j|] any'] fg'] s'].
  - destruct IH as (s0 & o & r & job & Ho & Hq0 & Hp & Hd & Hk & Hw). exists s0, o, r, job. rewrite Hcur in Hp. split; [lia|].
    split; [by eapply quiet_trans|]. split; [done|]. split; [intros c; etrans; [apply Hgm|]; apply Hd|].
    split; [intros c Hc; rewrite Hk; [apply Hgo, Hc; lia|intros o' Ho'; rewrite Hcur; apply Hc; lia]|].
    intros o' Ho' Hwt. destruct (decide (o' = offset)) as [->|Hne].
    { fold ci. rewrite Hk; [by apply Hdone|]. intros o' Ho2. rewrite Hcur. apply not_eq_sym. by apply Hother. }
    specialize (Hw o' ltac:(lia)). rewrite Hcur in Hw. specialize (Hw (waiting_quiet _ _ _ Hi Hq Hwt)).
    rewrite Hgo in Hw; [done|]. apply Hother. lia.
  - destruct IH as (Hq' & Hf' & Ha & Hd & Hk & Hw). split; [by eapply quiet_trans|]. split; [done|]. split; [by intros _; apply Ha|].
    split; [intros c; etrans; [apply Hgm|]; apply Hd|]. split.
    + intros c Hc. rewrite Hk; [apply Hgo, Hc; lia|]. intros o Ho. rewrite Hcur. apply Hc. lia.
    + intros o Ho Hwt. destruct (decide (o = offset)) as [->|Hne].
      * split; [by apply Ha|]. fold ci. rewrite Hk; [by apply Hdone|]. intros o' Ho'. rewrite Hcur. apply not_eq_sym. by apply Hother.
      * specialize (Hw o ltac:(lia)). rewrite Hcur in Hw. destruct (Hw (waiting_quiet _ _ _ Hi Hq Hwt)) as [Hany Hb].
        split; [done|]. rewrite Hgo in Hb; [done|]. apply Hother. lia.
Qed.

(** ** All rounds *)

(** A pick: some passes without effect on the queued work, then a head is
    taken.  Classes scanned before the picked one in the last round, counted
    from the cursor, have been granted a quantum. *)
Definition picks (s : TxScheduler) (j : nat) (s' : TxScheduler) : Prop :=
  ∃ s0 o r job, o < kSchedClassCount ∧ quiet now node s s0 ∧ picked now node (class_at s o) r j job s0 s' ∧
    (∀ c, (deficit s c ≤ deficit s0 c)%Z) ∧
    (∀ o', o' < o → waiting s (class_at s o') →
      (granted (deficit s (class_at s o')) ≤ deficit s0 (class_at s o') < kMaxJobCost)%Z).

Lemma class_at_surj s t : t < kSchedClassCount → cursor_ s < kSchedClassCount →
  ∃ o, o < kSchedClassCount ∧ class_at s o = t.
Proof.
  unfold class_at, kSchedClassCount. intros Ht Hc. exists ((t + 4 - cursor_ s) mod 4). split; [by apply Nat.mod_upper_bound|].
  rewrite Nat.Div0.add_mod_idemp_r. replace (cursor_ s + (t + 4 - cursor_ s)) with (t + 1 * 4) by lia.
  rewrite Nat.Div0.mod_add. by apply Nat.mod_small.
Qed.

Lemma granted_mono a b : (a ≤ b → granted a ≤ granted b)%Z.
Proof. unfold granted. lia. Qed.

Lemma rounds_spec n : ∀ fg s,
  sched_inv None [] s → selected_ s = None → fg_ok node fg s →
  match rounds n now node fg s with
  | (None, s') =>
      quiet now node s s' ∧ (∀ c, (deficit s c ≤ deficit s' c)%Z) ∧
      ∀ t, 0 < n → t < kSchedClassCount → waiting s t →
        (Z.min (deficit s t + Z.of_nat n * kQuantumUnit) kDeficitCap ≤ deficit s' t < kMaxJobCost)%Z
  | (Some j, s') => picks s j s'
  end.
Proof.
  induction n as [|n IH]; intros fg s Hi Hsel Hfg; cbn [rounds]; [split; [by apply quiet_refl|split; [done|lia]]|].
  pose proof (scan_classes_spec kSchedClassCount 0 false fg s Hi Hsel Hfg ltac:(lia)) as Hs.
  destruct (scan_classes kSchedClassCount 0 now node false fg s) as [[[[j|] any] fg1] s1].
  { destruct Hs as (s0 & o & r & job & Ho & Hq & Hp & Hd & _ & Hw). exists s0, o, r, job. split; [lia|]. split; [done|]. split; [done|].
    split; [done|]. intros o' Ho'. apply Hw. lia. }
  destruct Hs as (Hq & Hfg1 & _ & Hd & _ & Hw). pose proof (qt_inv _ _ _ _ Hq) as Hi1.
  assert (Hw1 : ∀ t, t < kSchedClassCount → waiting s t → any = true ∧ (granted (deficit s t) ≤ deficit s1 t < kMaxJobCost)%Z).
  { intros t Ht Hwt. destruct (class_at_surj s t Ht (si_cursor _ _ _ Hi)) as (o & Ho & <-). apply Hw; [lia|done]. }
  destruct any.
  2: { split; [done|]. split; [done|]. intros t _ Ht Hwt. destruct (Hw1 t Ht Hwt) as [Hf _]. done. }
  destruct n as [|n].
  { cbn [rounds]. split; [done|]. split; [done|]. intros t _ Ht Hwt. destruct (Hw1 t Ht Hwt) as [_ Hb]. unfold granted, kQuantumUnit, kDeficitCap in *. lia. }
  specialize (IH fg1 s1 Hi1 (qt_selected _ _ _ _ Hq) Hfg1). destruct (rounds (S n) now node fg1 s1) as [[j|] s'].
  - destruct IH as (s0 & o & r & job & Ho & Hq0 & Hp & Hd0 & Hg). exists s0, o, r, job. split; [done|]. split; [by eapply quiet_trans|].
    assert (Hcur : ∀ o, class_at s1 o = class_at s o) by (intros o'; unfold class_at; by rewrite (qt_cursor _ _ _ _ Hq)).
    rewrite Hcur in Hp. split; [done|]. split; [intros c; etrans; [apply Hd|apply Hd0]|]. intros o' Ho' Hwt.
    specialize (Hg o' Ho'). rewrite Hcur in Hg. specialize (Hg (waiting_quiet _ _ _ Hi Hq Hwt)).
    split; [|apply Hg]. etrans; [|apply Hg]. apply granted_mono, Hd.
  - destruct IH as (Hq' & Hm' & Hd'). split; [by eapply quiet_trans|]. split; [intros c; etrans; [apply Hd|apply Hm']|].
    intros t _ Ht Hwt. destruct (Hw1 t Ht Hwt) as [_ [Hg Hm]].
    specialize (Hd' t ltac:(lia) Ht (waiting_quiet _ _ _ Hi Hq Hwt)). unfold granted, kQuantumUnit, kDeficitCap in *. lia.
Qed.

(** ** The whole selection *)

Definition select_post (s : TxScheduler) (out : option nat * TxScheduler) : Prop :=
  match out with
  | (None, s') =>
      s' = s ∧ is_Some (selected_ s) ∨
      selected_ s = None ∧ control_ready now s = None ∧
        ((s' = s ∧ paused node kDataDispatch = true) ∨
         (paused node kDataDispatch = false ∧ quiet now node s s' ∧ (∀ c, (deficit s c ≤ deficit s' c)%Z) ∧ ∀ t, ¬ waiting s t))
  | (Some j, s') =>
      selected_ s = None ∧
      match control_ready now s with
      | Some (k, rest) => j = k ∧ s' = set_selection (Some j) None true (set_control rest s)
      | None => paused node kDataDispatch = false ∧ picks s j s'
      end
  end.

Lemma waiting_class s t : waiting s t → t < kSchedClassCount.
Proof. intros (r & f & j & job & _ & <- & _). apply class_index_lt. Qed.

(** A select of a well-formed scheduler that returns nothing had nothing to
    return: eight rounds grant a class 512 bytes, more than a job can cost. *)
Lemma select_spec s : sched_inv None [] s → select_post s (select now node s).
Proof.
  intros Hi. unfold select, select_post. destruct (selected_ s) as [j0|] eqn:Hsel; [left; by split|].
  destruct (control_ready now s) as [[j rest]|] eqn:Hc; [by split|].
  destruct (paused node kDataDispatch) eqn:Hp; [right; split; [done|]; split; [done|]; by left|].
  pose proof (rounds_spec kMaxSelectRounds None s Hi Hsel (or_introl eq_refl)) as Hr.
  destruct (rounds kMaxSelectRounds now node None s) as [[j|] s']; [by split|].
  destruct Hr as (Hq & Hm & Hd). right. split; [done|]. split; [done|]. right. split; [done|]. split; [done|]. split; [done|].
  intros t Hw. pose proof (waiting_class s t Hw) as Ht. specialize (Hd t ltac:(unfold kMaxSelectRounds; lia) Ht Hw).
  pose proof (deficit_bounds _ _ _ t Hi) as [Hd0 _]. unfold kMaxSelectRounds, kQuantumUnit, kDeficitCap, kMaxJobCost in Hd. lia.
Qed.
End Live.
