(* ===== verification/SchedulerRun.v ===== *)
(** * Runs of the transmit scheduler

    Any interleaving of admissions, selections, settlements, removals and
    resets: the scheduler stays well formed, accepted work is neither lost
    nor duplicated, a selection finds work whenever there is some, and a
    class with ready work is served after a bounded number of selections. *)

From S2P Require Import Prelude Types Wire FixedContainers Congestion Scheduler SchedulerInv SchedulerProps SchedulerSelect SchedulerLive.

Local Open Scope nat_scope.

Inductive op :=
  | OEnqueue (job : TxJob) (self : NodeId) (now : Z)
  | OSelect (now : Z) (node : NodeView)
  | OTake | ORequeue | ODefer
  | ODrop (pred : TxJob → bool)
  | OClear.

(** Payloads fit their arrays, and work is removed only between dispatches:
    [drop_one_if] runs while no job is selected, as in every call of the node.
    SchedulerDemo shows what happens otherwise. *)
Definition allowed (o : op) (s : TxScheduler) : bool :=
  match o with
  | OEnqueue job _ _ => sized job
  | ODrop _ => bool_decide (selected_ s = None)
  | _ => true
  end.

(** The jobs that enter, the jobs that leave and the next state. *)
Definition step (o : op) (s : TxScheduler) : list TxJob * list TxJob * TxScheduler :=
  match o with
  | OEnqueue job self now =>
      let '(r, s') := enqueue job self now s in
      (if is_ok r then [with_enqueued now (charge_cost job)] else [], [], s')
  | OSelect now node => ([], [], snd (select now node s))
  | OTake => let '(job, s') := take_selected s in ([], match selected_ s with Some _ => [job] | None => [] end, s')
  | ORequeue => ([], [], requeue_selected s)
  | ODefer => ([], [], defer_selected s)
  | ODrop pred => let '(r, s') := drop_one_if pred s in ([], option_list r, s')
  | OClear => ([], Slots.live (pool_ s), clear s)
  end.

Inductive reachable : list TxJob → list TxJob → TxScheduler → Prop :=
  | reach_init : reachable [] [] initial
  | reach_step a d s o a' d' s' :
      reachable a d s → allowed o s = true → step o s = (a', d', s') → reachable (a' ++ a) (d' ++ d) s'.

(** ** Resets *)

Definition blank (s : TxScheduler) : Prop :=
  shape s ∧ (∀ i, Slots.at_ i (pool_ s) = None) ∧ (∀ i, get_flow s (Desc i) = None) ∧
  (∀ c f, get_flow s (Over c) = Some f → f = empty_flow) ∧ (∀ ci, ring s ci = []) ∧ control_ s = [] ∧
  selected_ s = None ∧ selected_flow_ s = None ∧ selected_control_ s = false ∧ Forall deficit_ok (deficit_ s) ∧
  cursor_ s < kSchedClassCount ∧ used_ s = 0 ∧ concat (blocks s) = [].

Lemma blank_ok s : blank s → sched_ok s.
Proof.
  intros (Hs & Hp & Hd & Hov & Hr & Hc & Hsel & Hsf & Hsc & Hdef & Hcur & Hu & Hb).
  assert (Hpl : placed s = []) by (unfold placed; by rewrite Hsel, Hc, Hb).
  assert (Hget : ∀ r f, get_flow s r = Some f → f = empty_flow).
  { intros [i|c] f Hf; [by rewrite Hd in Hf|by eapply Hov]. }
  split; [|by rewrite Hu, Hpl]. split; try done.
  - rewrite Hpl. apply Permutation_nil_l. destruct (indices (pool_ s)) as [|i l] eqn:Hi; [done|].
    assert (Hin : i ∈ indices (pool_ s)) by (rewrite Hi; by left). apply elem_of_indices in Hin as [x Hx]. by rewrite Hp in Hx.
  - intros j job Hj. unfold job_at in Hj. by rewrite Hp in Hj.
  - intros ci r. rewrite Hr, elem_of_nil. split; [done|]. intros (f & Hf%Hget & Hrr & _). by subst f.
  - intros ci. rewrite Hr. apply NoDup_nil_2.
  - intros r f Hf%Hget Hj. by subst f.
  - intros i f Hf. by rewrite Hd in Hf.
  - intros c f Hf%Hget [H|[H|H]]; [by subst f|done|congruence].
  - unfold selection_ok. by rewrite Hsel.
Qed.

Lemma initial_blank : blank initial.
Proof.
  split; [by split|]. split; [|split; [|split; [|split; [|split_and!; try done]]]].
  - intros i. unfold Slots.at_. cbn [pool_ initial]. destruct (replicate kTxQueueCapacity None !! i) eqn:Hi; [|done].
    by apply lookup_replicate in Hi as [-> _].
  - intros i. cbn [get_flow flows_ initial]. unfold Slots.at_. destruct (replicate kFlowDescriptorsMax None !! i) eqn:Hi; [|done].
    by apply lookup_replicate in Hi as [-> _].
  - intros c f Hf. cbn [get_flow overflow_ initial] in Hf. by apply lookup_replicate in Hf as [-> _].
  - intros ci. unfold ring. cbn [rr_ initial]. destruct (replicate kSchedClassCount [] !! ci) eqn:Hi; [|done].
    by apply lookup_replicate in Hi as [-> _].
  - cbn. repeat (constructor; [unfold deficit_ok, kDeficitCap; lia|]). constructor.
  - cbn. unfold kSchedClassCount. lia.
Qed.

Lemma clear_blank s : shape s → blank (clear s).
Proof.
  intros Hs. open_shape Hs. assert (Hnone : ∀ (T : Type) (l : Slots.slots T) i, Slots.at_ i (Slots.clear l) = None).
  { intros T l i. unfold Slots.at_, Slots.clear. rewrite list_lookup_fmap. by destruct (l !! i). }
  split; [split; cbn; unfold Slots.clear; by rewrite length_fmap|]. split; [intros i; apply Hnone|]. split; [intros i; apply Hnone|].
  split; [|split; [|split_and!; try done]].
  - intros c f. cbn [get_flow overflow_ clear]. rewrite list_lookup_fmap. by destruct (overflow_ s !! _); intros [= <-].
  - intros ci. unfold ring. cbn [rr_ clear]. rewrite list_lookup_fmap. by destruct (rr_ s !! ci).
  - cbn [deficit_ clear]. apply Forall_fmap, Forall_true. intros d. cbn. unfold deficit_ok, kDeficitCap. lia.
  - cbn. unfold kSchedClassCount. lia.
  - unfold blocks. cbn [flows_ overflow_ clear]. unfold Slots.clear. rewrite <- !list_fmap_compose.
    assert (Hz : ∀ (T : Type) (l : list T), concat ((λ _, @nil nat) <$> l) = []) by (intros T l; by induction l).
    rewrite concat_app. change (@concat nat ((λ _, []) <$> flows_ s) ++ concat ((λ _, []) <$> overflow_ s) = []). by rewrite !Hz.
Qed.

(** ** Content of the pool *)

Lemma live_load p : Slots.live (load p) = ident <$> Slots.live p.
Proof. unfold Slots.live, load. induction p as [|[x|] p IH]; cbn; [done| |done]. by f_equal. Qed.

Lemma live_insert (p : Slots.slots TxJob) i v : p !! i = Some None → Slots.live (Slots.set i v p) ≡ₚ v :: Slots.live p.
Proof.
  intros Hi. unfold Slots.live, Slots.set. rewrite insert_take_drop by (by eapply lookup_lt_Some).
  rewrite <- (take_drop_middle p i None Hi) at 3. rewrite !omap_app. cbn. solve_Permutation.
Qed.

Lemma live_release (p : Slots.slots TxJob) i v :
  Slots.at_ i p = Some v → v :: Slots.live (snd (Slots.release i p)) ≡ₚ Slots.live p.
Proof.
  intros Hv%at_lookup. unfold Slots.release. rewrite Hv. cbn [snd]. unfold Slots.live.
  rewrite insert_take_drop by (by eapply lookup_lt_Some). rewrite <- (take_drop_middle p i (Some v) Hv) at 3.
  rewrite !omap_app. cbn. solve_Permutation.
Qed.

Lemma live_length (p : Slots.slots TxJob) : length (Slots.live p) = length (indices p).
Proof.
  assert (Hg : ∀ (q : Slots.slots TxJob) k (h : nat → option TxJob), (∀ i, h (k + i) = Slots.at_ i q) →
    length (filter (λ i, is_Some (h i)) (seq k (length q))) = length (Slots.live q)).
  { induction q as [|o q IH]; intros k h Hh; [done|]. cbn [length seq].
    assert (Hk : h k = Slots.at_ 0 (o :: q)) by (rewrite <- (Hh 0); f_equal; lia).
    assert (IH' := IH (S k) h (λ i, eq_trans (f_equal h (Nat.add_succ_comm k i)) (Hh (S i)))).
    destruct o as [x|].
    - rewrite filter_cons_True by (rewrite Hk; by eexists). cbn. by rewrite IH'.
    - rewrite filter_cons_False by (rewrite Hk; by intros []). cbn. by rewrite IH'. }
  symmetry. by apply (Hg p 0 (λ i, Slots.at_ i p)).
Qed.

(** ** One step *)

(** [a'] enters and [d'] leaves, up to the fields the selection writes. *)
Definition balanced (s : TxScheduler) (a' d' : list TxJob) (s' : TxScheduler) : Prop :=
  (ident <$> a') ++ (ident <$> Slots.live (pool_ s)) ≡ₚ (ident <$> d') ++ (ident <$> Slots.live (pool_ s')).

Lemma balanced_load s s' : load (pool_ s') = load (pool_ s) → balanced s [] [] s'.
Proof. intros H. unfold balanced. cbn. by rewrite <- !live_load, H. Qed.

Lemma ok_load s s' : sched_ok s → sched_inv None [] s' → load (pool_ s') = load (pool_ s) → used_ s' = used_ s → sched_ok s'.
Proof.
  intros Hok Hi Hl Hu. apply sched_ok_intro; [done|]. rewrite (indices_load _ _ Hl), Hu. by apply sched_ok_used.
Qed.

Lemma select_ok now node s :
  sched_ok s → sched_ok (snd (select now node s)) ∧ load (pool_ (snd (select now node s))) = load (pool_ s).
Proof.
  intros Hok. pose proof Hok as [Hi _]. pose proof (select_spec now node s Hi) as Hs.
  destruct (select now node s) as [[j|] s']; cbn [select_post snd] in *.
  - destruct Hs as [Hsel Hs]. unfold control_ready in Hs. destruct (control_ s) as [|k rest] eqn:Hc.
    2: destruct (bool_decide _).
    2: { destruct Hs as [-> ->]. split; [|done]. eapply ok_load; [done| |done|done].
         apply inv_select_control; [|done]. apply (inv_control None [] [k] s rest Hi). by rewrite Hc. }
    all: destruct Hs as (_ & s0 & o & r & job & _ & Hq & Hp & _);
      assert (Hl : load (pool_ s') = load (pool_ s)) by (rewrite (pk_load _ _ _ _ _ _ _ _ Hp); apply (qt_load _ _ _ _ Hq));
      split; [|done]; eapply ok_load; [done|apply (pk_inv _ _ _ _ _ _ _ _ Hp)|done|];
      rewrite (pk_used _ _ _ _ _ _ _ _ Hp); apply (qt_used _ _ _ _ Hq).
  - destruct Hs as [[-> _]|(_ & _ & [[-> _]|(_ & Hq & _)])]; [done|done|].
    split; [|apply (qt_load _ _ _ _ Hq)]. eapply ok_load; [done|apply (qt_inv _ _ _ _ Hq)|apply (qt_load _ _ _ _ Hq)|apply (qt_used _ _ _ _ Hq)].
Qed.

Lemma sched_step_ok s o a' d' s' :
  sched_ok s → allowed o s = true → step o s = (a', d', s') → sched_ok s' ∧ balanced s a' d' s'.
Proof.
  intros Hok Ha Hst. destruct o as [job self now|now node| | | |pred|]; cbn [step allowed] in *.
  - pose proof (enqueue_spec s job self now Hok Ha) as [Hok' He]. destruct (enqueue job self now s) as [[u|c dt] s1]; cbn [fst snd is_ok] in *;
      injection Hst as <- <- <-; (split; [done|]).
    + destruct He as (i & Hi & Hp). unfold balanced. rewrite Hp, live_insert by done. done.
    + by apply balanced_load; rewrite He.
  - injection Hst as <- <- <-. destruct (select_ok now node s Hok) as [Hok' Hl]. split; [done|]. by apply balanced_load.
  - destruct (take_selected s) as [job s1] eqn:Ht. injection Hst as <- <- <-. destruct (selected_ s) as [j|] eqn:Hs.
    + destruct (take_selected_spec s j Hok Hs) as (w & Hw & He & Hok' & Hp & _). rewrite Ht in *. cbn [fst snd] in *. subst w.
      split; [done|]. unfold balanced. rewrite Hp. cbn [fmap list_fmap app]. rewrite <- (live_release (pool_ s) j job) by done. done.
    + unfold take_selected in Ht. rewrite Hs in Ht. injection Ht as <- <-. split; [done|]. by apply balanced_load.
  - injection Hst as <- <- <-. destruct (requeue_selected_spec s Hok) as [Hok' Hp]. split; [done|]. by apply balanced_load; rewrite Hp.
  - injection Hst as <- <- <-. destruct (defer_selected_spec s Hok) as [Hok' Hp]. split; [done|]. by apply balanced_load; rewrite Hp.
  - apply bool_decide_eq_true in Ha. pose proof (drop_one_if_spec pred s Hok Ha) as (Hok' & _ & Hd).
    destruct (drop_one_if pred s) as [[w|] s1]; cbn [fst snd option_list] in *; injection Hst as <- <- <-; (split; [done|]).
    + destruct Hd as (_ & j & Hj & Hp). unfold balanced. rewrite Hp. cbn [fmap list_fmap app]. by rewrite <- (live_release (pool_ s) j w) by done.
    + subst s1. by apply balanced_load.
  - injection Hst as <- <- <-. pose proof Hok as [Hi _]. pose proof (clear_blank s (si_shape _ _ _ Hi)) as Hb. split; [by apply blank_ok|].
    unfold balanced. destruct Hb as (_ & Hp & _). assert (Hl : Slots.live (pool_ (clear s)) = []).
    { apply length_zero_iff_nil. rewrite live_length. destruct (indices (pool_ (clear s))) as [|i l] eqn:Hi2; [done|].
      assert (Hin : i ∈ indices (pool_ (clear s))) by (rewrite Hi2; by left). apply elem_of_indices in Hin as [x Hx]. by rewrite Hp in Hx. }
    rewrite Hl, app_nil_r. done.
Qed.

Lemma reachable_ok a d s :
  reachable a d s → sched_ok s ∧ ident <$> a ≡ₚ (ident <$> d) ++ (ident <$> Slots.live (pool_ s)).
Proof.
  induction 1 as [|a d s o a' d' s' Hr [Hok Hb] Ha Hst]; [split; [apply blank_ok, initial_blank|done]|].
  destruct (sched_step_ok s o a' d' s' Hok Ha Hst) as [Hok' Hb']. split; [done|]. unfold balanced in Hb'.
  rewrite !fmap_app, Hb. rewrite (Permutation_app_comm (ident <$> d)), app_assoc, Hb'. solve_Permutation.
Qed.

(** C30: every scheduler reachable by its operations satisfies the structural
    invariant; in particular [used_] counts the pooled jobs, every pooled job
    sits in exactly one of the control lane, a flow or the selection, and
    every class deficit lies between zero and the cap. *)
Theorem scheduler_well_formed a d s :
  reachable a d s →
  sched_ok s ∧ used_ s = length (Slots.live (pool_ s)) ∧ NoDup (placed s) ∧
  (∀ j, j ∈ placed s ↔ is_Some (job_at s j)) ∧ (∀ ci, (0 ≤ deficit s ci ≤ kDeficitCap)%Z).
Proof.
  intros [Hok _]%reachable_ok. pose proof (sched_ok_used _ Hok) as Hu. pose proof Hok as [Hi _].
  pose proof (si_placed _ _ _ Hi : placed s ≡ₚ indices (pool_ s)) as Hp.
  split; [done|]. split; [by rewrite live_length|]. split; [rewrite Hp; apply NoDup_indices|].
  split; [intros j; rewrite Hp; apply elem_of_indices|]. intros ci. exact (deficit_bounds _ _ _ ci Hi).
Qed.

(** C28: after any sequence of scheduler operations the jobs accepted are, as
    a multiset of identities, the jobs that [take_selected], [drop_one_if] and
    [clear] gave up together with the jobs in the pool: nothing is lost,
    duplicated or altered on the way. *)
Theorem scheduler_keeps_accepted_work a d s :
  reachable a d s → ident <$> a ≡ₚ (ident <$> d) ++ (ident <$> Slots.live (pool_ s)).
Proof. intros Hr. by apply reachable_ok in Hr as [_ Hb]. Qed.

(** In a reachable scheduler with no job selected, if the control lane is
    ready or, data dispatch not being paused, some class has a dispatchable
    head, [select] returns a job of the pool; without ready control work it is
    the head of a flow. The eight deficit rounds are therefore enough for
    every job cost. *)
Lemma select_work_conserving a d s now node :
  reachable a d s → selected_ s = None →
  (is_Some (control_ready now s) ∨ (paused node kDataDispatch = false ∧ ∃ t, waiting now node s t)) →
  ∃ j job, fst (select now node s) = Some j ∧ job_at s j = Some job ∧
    (control_ready now s = None → ∃ r job', head_of s r j job' ∧ ident job' = ident job).
Proof.
  intros [[Hi _] _]%reachable_ok Hsel Hwork. pose proof (select_spec now node s Hi) as Hs.
  destruct (select now node s) as [[j|] s']; cbn [select_post fst] in *.
  2: { destruct Hs as [[_ Hx]|(_ & Hc & [[_ Hp]|(_ & _ & _ & Hno)])].
       - rewrite Hsel in Hx. by destruct Hx.
       - rewrite Hc in Hwork. destruct Hwork as [Hx|[Hx _]]; [by destruct Hx|congruence].
       - rewrite Hc in Hwork. destruct Hwork as [Hx|[_ [t Ht]]]; [by destruct Hx|by apply Hno in Ht]. }
  exists j. destruct Hs as [_ Hs]. destruct (control_ready now s) as [[k rest]|] eqn:Hc.
  - destruct Hs as [-> _]. assert (Hin : k ∈ placed s).
    { unfold control_ready in Hc. destruct (control_ s) as [|k' c] eqn:Hcs; [done|]. destruct (bool_decide _); [|done].
      injection Hc as -> ->. unfold placed. rewrite Hcs. set_solver. }
    rewrite (si_placed _ _ _ Hi : placed s ≡ₚ _) in Hin. apply elem_of_indices in Hin as [job Hj]. by exists job.
  - destruct Hs as (_ & s0 & o & r & job & _ & Hq & Hp & _). destruct (pk_head _ _ _ _ _ _ _ _ Hp) as (f & js & Hf & Hj & Hjob).
    pose proof (f_equal (Slots.at_ j) (qt_load _ _ _ _ Hq)) as Hl. rewrite !load_at in Hl. unfold job_at in Hjob. rewrite Hjob in Hl.
    destruct (Slots.at_ j (pool_ s)) as [job0|] eqn:Hj0; [|done]. exists job0. split; [done|]. split; [done|]. intros _.
    exists r, job0. split; [|done]. exists f, js. split; [|done]. apply (qt_back _ _ _ _ Hq); [done|]. by rewrite Hj.
Qed.

(** ** Bounded waiting of a class *)

(** The class a selection serves, when it is not the control lane. *)
Definition served (now : Z) (node : NodeView) (s : TxScheduler) : option nat :=
  match select now node s with
  | (Some _, s') =>
      match selected_flow_ s' with
      | Some r => (λ f, sched_class_index (sched_class f)) <$> get_flow s' r
      | None => None
      end
  | (None, _) => None
  end.

(** [passed_over t n s s']: a run from [s] to [s'] in which [n] selections served
    other classes while class [t] had ready work, and none served [t]. *)
Inductive passed_over (t : nat) : nat → TxScheduler → TxScheduler → Prop :=
  | po_refl s : passed_over t 0 s s
  | po_other n s s' o :
      passed_over t n s s' → allowed o s' = true → match o with OSelect _ _ | OClear => False | _ => True end →
      passed_over t n s (snd (step o s'))
  | po_none n s s' now node :
      passed_over t n s s' → served now node s' = None → passed_over t n s (snd (select now node s'))
  | po_pick n s s' now node c :
      passed_over t n s s' → waiting now node s' t → served now node s' = Some c → c ≠ t →
      passed_over t (S n) s (snd (select now node s')).

(** Grants still needed to afford any job, and the distance of the cursor. *)
Definition need (d : Z) : nat := Z.to_nat ((kMaxJobCost - d + kQuantumUnit - 1) / kQuantumUnit).
Definition distance (s : TxScheduler) (t : nat) : nat := (t + kSchedClassCount - cursor_ s) mod kSchedClassCount.
Definition potential (t : nat) (s : TxScheduler) : nat := kSchedClassCount * need (deficit s t) + distance s t.

Ltac zdiv := Z.to_euclidean_division_equations; lia.

Lemma need_mono d d' : (d ≤ d')%Z → need d' ≤ need d.
Proof. unfold need, kMaxJobCost, kQuantumUnit. intros H. zdiv. Qed.

Lemma need_grant d d' : (0 ≤ d → granted d ≤ d' < kMaxJobCost → Z.of_nat (need d') + 1 ≤ Z.of_nat (need d))%Z.
Proof. unfold need, granted, kMaxJobCost, kQuantumUnit, kDeficitCap. intros H [H1 H2]. zdiv. Qed.

Lemma need_bound d : (0 ≤ d)%Z → need d ≤ 6.
Proof. unfold need, kMaxJobCost, kQuantumUnit. intros H. zdiv. Qed.

(** What the potential depends on. *)
Definition keeps_turn (s s' : TxScheduler) : Prop := cursor_ s' = cursor_ s ∧ ∀ c, (deficit s c ≤ deficit s' c)%Z.

Lemma keeps_turn_eq s s' : cursor_ s' = cursor_ s → deficit_ s' = deficit_ s → keeps_turn s s'.
Proof. intros Hc Hd. split; [done|]. intros c. unfold deficit. by rewrite Hd. Qed.

Lemma keeps_potential t s s' : keeps_turn s s' → potential t s' ≤ potential t s.
Proof.
  intros [Hc Hd]. unfold potential, distance. rewrite Hc. pose proof (need_mono _ _ (Hd t)). unfold kSchedClassCount. lia.
Qed.

Lemma join_flow_turn cls key s : deficit_ (snd (join_flow cls key s)) = deficit_ s ∧ cursor_ (snd (join_flow cls key s)) = cursor_ s.
Proof.
  unfold join_flow. destruct (Slots.find _ _); [done|]. unfold Slots.allocate. by destruct (Slots.first_free _).
Qed.
Lemma append_job_turn cls r i s : deficit_ (append_job cls r i s) = deficit_ s ∧ cursor_ (append_job cls r i s) = cursor_ s.
Proof. unfold append_job, ring_push. destruct (_ && _); [destruct (_ =? _)|]; by destruct r. Qed.

Lemma enqueue_turn job self now s :
  deficit_ (snd (enqueue job self now s)) = deficit_ s ∧ cursor_ (snd (enqueue job self now s)) = cursor_ s.
Proof.
  unfold enqueue. destruct (_ <=? used_ s); [done|]. destruct (control_job job).
  - destruct (_ <=? length (control_ s)); [done|]. unfold store_job. by destruct (Slots.allocate _ _) as [[i|] p].
  - destruct (bool_decide (txn job = _) && _ && _); [done|]. destruct (bool_decide (classify job = Bulk) && _); [done|].
    destruct (negb _ && _ && (_ <=? origin_count _ _)); [done|]. destruct (negb _ && _ && _); [done|].
    pose proof (join_flow_turn (classify job) (flow_key job self) s) as [Hd Hc].
    destruct (join_flow _ _ s) as [r s1]. cbn [snd] in *. unfold store_job. destruct (Slots.allocate _ (pool_ s1)) as [[i|] p]; [|done].
    cbn [snd]. destruct (append_job_turn (classify job) r i (set_pool (Slots.set i (with_enqueued now (charge_cost job)) p) s1)) as [Hd2 Hc2].
    cbn [deficit_ cursor_ set_used]. by rewrite Hd2, Hc2.
Qed.

Lemma take_turn s : deficit_ (snd (take_selected s)) = deficit_ s ∧ cursor_ (snd (take_selected s)) = cursor_ s.
Proof.
  unfold take_selected. destruct (selected_ s) as [j|]; [|done]. cbn [snd].
  change (selected_flow_ (set_used _ _)) with (selected_flow_ s). destruct (selected_flow_ s) as [r|]; [|done].
  destruct (jobs _); [|done]. destruct (overflow _); [done|]. by destruct r.
Qed.

Lemma defer_turn s : sched_ok s → keeps_turn s (defer_selected s).
Proof.
  intros Hok. unfold defer_selected. destruct (selected_ s) as [j|] eqn:Hs; [|by split].
  destruct (selected_control_ s) eqn:Hc; [by split|]. destruct (selection_flow s j Hok Hs Hc) as (r & f & Hr & Hf).
  destruct (selected_live s j Hok Hs) as [job Hjob]. rewrite Hr, Hf, Hjob.
  change (default empty_flow (Some f)) with f. change (default empty_job (Some job)) with job. destruct Hok as [Hi _].
  set (ci := sched_class_index (sched_class f)). set (s1 := set_deficit ci _ s).
  destruct (relink_selected_pool r (with_jobs (jobs f ++ [j]) f) s1) as (_ & _ & Hd & Hcu). split; [exact Hcu|].
  intros c. transitivity (deficit s1 c); [|unfold deficit; cbn [deficit_ clear_selection set_selection]; by rewrite Hd].
  unfold s1. rewrite deficit_set; [|apply (sh_deficit _ (si_shape _ _ _ Hi))|apply class_index_lt].
  destruct (decide (c = ci)) as [->|]; [|lia]. pose proof (deficit_bounds _ _ _ ci Hi) as [? ?].
  pose proof (si_cost _ _ _ Hi j job Hjob). lia.
Qed.

Lemma other_keeps_turn s o :
  sched_ok s → match o with OSelect _ _ | OClear => False | _ => True end → keeps_turn s (snd (step o s)).
Proof.
  intros Hok Ho. destruct o as [job self now|now node| | | |pred|]; try done; cbn [step].
  - destruct (enqueue_turn job self now s) as [Hd Hc]. destruct (enqueue job self now s). by apply keeps_turn_eq.
  - destruct (take_turn s) as [Hd Hc]. destruct (take_selected s). by apply keeps_turn_eq.
  - unfold requeue_selected. destruct (selected_ s); [|by split]. destruct (selected_control_ s); [by split|].
    destruct (selected_flow_ s) as [r|]; [|by split]. cbn [snd].
    set (f := with_jobs _ _). destruct (relink_selected_pool r f s) as (_ & _ & Hd & Hc). by apply keeps_turn_eq.
  - by apply defer_turn.
  - unfold drop_one_if. destruct (victim_from _ _ _ _); by apply keeps_turn_eq.
Qed.

(** An object is picked only when nothing of another class is queued. *)
Lemma object_pick_class now node ci r j job s0 s' t :
  picked now node ci r j job s0 s' → sched_inv None [] s0 → is_object job = true → waiting now node s0 t → ci = t.
Proof.
  intros Hp Hi Hobj (rt & ft & jt & wt & Hft & Ht & (g & js & Hg & Hgj & _) & _). assert (g = ft) as -> by congruence.
  pose proof (pk_ready _ _ _ _ _ _ _ _ Hp) as Hr. unfold ready in Hr. rewrite Hobj, !andb_true_iff in Hr. destruct Hr as [[_ Hn] _].
  apply negb_true_iff in Hn. cbn [andb] in Hn. apply orb_false_iff in Hn as [_ Hn].
  destruct (pk_head _ _ _ _ _ _ _ _ Hp) as (f & ks & Hf & Hj & _). pose proof (pk_class _ _ _ _ _ _ _ _ Hp f Hf) as Hc.
  assert (Hbulk : ∀ r' g', get_flow s0 r' = Some g' → jobs g' ≠ [] → sched_class g' = Bulk).
  { intros r' g' Hg' Hne. destruct (decide (sched_class g' = Bulk)) as [|Hnb]; [done|]. exfalso.
    assert (Hpe : pending_flow g' = true).
    { unfold pending_flow. rewrite bool_decide_eq_false_2 by done. by destruct (jobs g'). }
    unfold foreground_pending in Hn. rewrite !orb_false_iff in Hn. destruct Hn as [[[[_ Hd] Ho] _] _]. destruct r' as [i|c].
    - assert (He : existsb pending_flow (Slots.live (flows_ s0)) = true) by (apply existsb_live; by exists i, g'). congruence.
    - assert (He : existsb pending_flow (overflow_ s0) = true) by (apply existsb_lookup; by exists (sched_class_index c), g'). congruence. }
  rewrite (Hbulk r f Hf) in Hc by (by rewrite Hj). rewrite (Hbulk rt ft Hft) in Ht by (by rewrite Hgj). congruence.
Qed.

Lemma distance_class s o : cursor_ s < kSchedClassCount → o < kSchedClassCount → distance s (class_at s o) = o.
Proof.
  unfold distance, class_at, kSchedClassCount. intros Hc Ho.
  assert (cursor_ s = 0 ∨ cursor_ s = 1 ∨ cursor_ s = 2 ∨ cursor_ s = 3) as [ -> | [ -> | [ -> | -> ] ] ] by lia;
    assert (o = 0 ∨ o = 1 ∨ o = 2 ∨ o = 3) as [ -> | [ -> | [ -> | -> ] ] ] by lia; done.
Qed.

Lemma distance_after s s' o o' :
  cursor_ s < kSchedClassCount → o < o' < kSchedClassCount → cursor_ s' = (class_at s o + 1) mod kSchedClassCount →
  distance s' (class_at s o') < o'.
Proof.
  unfold distance, class_at, kSchedClassCount. intros Hc Ho ->.
  assert (cursor_ s = 0 ∨ cursor_ s = 1 ∨ cursor_ s = 2 ∨ cursor_ s = 3) as [ -> | [ -> | [ -> | -> ] ] ] by lia;
    assert (o = 0 ∨ o = 1 ∨ o = 2) as [ -> | [ -> | -> ] ] by lia;
    assert (o' = 1 ∨ o' = 2 ∨ o' = 3) as [ -> | [ -> | -> ] ] by lia; try lia; vm_compute; lia.
Qed.

Lemma distance_bound s t : distance s t ≤ 3.
Proof. unfold distance, kSchedClassCount. pose proof (Nat.mod_upper_bound (t + 4 - cursor_ s) 4 ltac:(lia)). lia. Qed.

(** Serving another class brings [t] closer. *)
Lemma picks_potential now node s j s' t c :
  sched_inv None [] s → picks now node s j s' → waiting now node s t → served now node s = Some c → select now node s = (Some j, s') →
  c ≠ t → potential t s' < potential t s.
Proof.
  intros Hi (s0 & o & r & job & Ho & Hq & Hp & Hm & Hg) Hw Hs Hsel Hct. pose proof (qt_inv _ _ _ _ Hq) as Hi0.
  pose proof (pk_inv _ _ _ _ _ _ _ _ Hp) as Hi'. pose proof (deficit_bounds _ _ _ t Hi) as [Hd0 _].
  assert (Hc : class_at s o = c).
  { unfold served in Hs. rewrite Hsel, (pk_flow _ _ _ _ _ _ _ _ Hp) in Hs. apply fmap_Some in Hs as (f & Hf & ->).
    symmetry. by apply (pk_after _ _ _ _ _ _ _ _ Hp). }
  pose proof (waiting_class _ _ _ _ Hw) as Ht. pose proof (si_cursor _ _ _ Hi) as Hcur.
  destruct (class_at_surj s t Ht Hcur) as (ot & Hot & He).
  assert (Hd' : deficit s' t = deficit s0 t).
  { unfold deficit. rewrite (pk_deficit _ _ _ _ _ _ _ _ Hp), list_lookup_insert_ne by congruence. done. }
  assert (Hnobj : is_object job = false).
  { destruct (is_object job) eqn:Hob; [|done]. exfalso. apply Hct. rewrite <- Hc.
    apply (object_pick_class _ _ _ _ _ _ _ _ _ Hp Hi0 Hob). exact (waiting_quiet now node s s0 t Hi Hq Hw). }
  assert (Hcs : cursor_ s' = (class_at s o + 1) mod kSchedClassCount).
  { rewrite (pk_cursor _ _ _ _ _ _ _ _ Hp), Hnobj. done. }
  unfold potential. rewrite Hd'. subst t. rewrite (distance_class s ot) by done. pose proof (distance_bound s' (class_at s ot)).
  destruct (decide (ot < o)) as [Hlt|Hge].
  - specialize (Hg ot Hlt Hw). pose proof (need_grant _ _ Hd0 Hg). unfold kSchedClassCount. lia.
  - assert (o < ot) by (destruct (decide (ot = o)); [congruence|lia]). pose proof (distance_after s s' o ot Hcur ltac:(lia) Hcs).
    pose proof (need_mono _ _ (Hm (class_at s ot))). unfold kSchedClassCount in *. lia.
Qed.

Lemma select_unserved now node s :
  sched_ok s → served now node s = None → keeps_turn s (snd (select now node s)).
Proof.
  intros [Hi _] Hs. pose proof (select_spec now node s Hi) as Hsp. unfold served in Hs.
  destruct (select now node s) as [[j|] s'] eqn:Hsel; cbn [select_post snd] in *.
  - destruct Hsp as [_ Hsp]. destruct (control_ready now s) as [[k rest]|]; [destruct Hsp as [_ ->]; by split|].
    destruct Hsp as (_ & s0 & o & r & job & _ & _ & Hp & _). exfalso. rewrite (pk_flow _ _ _ _ _ _ _ _ Hp) in Hs.
    pose proof (si_selected _ _ _ (pk_inv _ _ _ _ _ _ _ _ Hp)) as Hok. unfold selection_ok in Hok.
    rewrite (pk_selected _ _ _ _ _ _ _ _ Hp), (pk_control _ _ _ _ _ _ _ _ Hp), (pk_flow _ _ _ _ _ _ _ _ Hp) in Hok.
    destruct Hok as (r' & f & [= <-] & Hf & _). by rewrite Hf in Hs.
  - destruct Hsp as [[-> _]|(_ & _ & [[-> _]|(_ & Hq & Hm & _)])]; [by split|by split|]. split; [apply (qt_cursor _ _ _ _ Hq)|done].
Qed.

Lemma select_served now node s t c :
  sched_ok s → waiting now node s t → served now node s = Some c → c ≠ t →
  potential t (snd (select now node s)) < potential t s.
Proof.
  intros [Hi _] Hw Hs Hct. pose proof (select_spec now node s Hi) as Hsp. pose proof Hs as Hs0. unfold served in Hs.
  destruct (select now node s) as [[j|] s'] eqn:Hsel; [|done]. cbn [select_post snd] in *. destruct Hsp as [_ Hsp].
  destruct (control_ready now s) as [[k rest]|]; [destruct Hsp as [_ ->]; done|].
  destruct Hsp as [_ Hp]. by eapply picks_potential.
Qed.

Lemma step_keeps_ok o s : sched_ok s → allowed o s = true → sched_ok (snd (step o s)).
Proof. intros Hok Ha. destruct (step o s) as [[a d] s'] eqn:Hst. by apply (sched_step_ok s o a d s'). Qed.

(** C29: in any run from a reachable scheduler, interleaved with any arrivals
    and departures, at most 27 selections serve other classes while a class
    has a flow whose head job is due and admitted: the deficit round-robin
    starves no class. *)
Theorem class_bounded_wait a d s t n s' :
  reachable a d s → passed_over t n s s' → n ≤ 27.
Proof.
  intros [Hok _]%reachable_ok Hp. assert (Hb : potential t s ≤ 27).
  { unfold potential. pose proof (distance_bound s t). destruct Hok as [Hi _]. pose proof (deficit_bounds _ _ _ t Hi) as [Hd _].
    pose proof (need_bound _ Hd). unfold kSchedClassCount. lia. }
  assert (Hinv : sched_ok s' ∧ n + potential t s' ≤ potential t s); [|lia]. clear Hb.
  induction Hp as [s|n s s' o Hp IH Ha Ho|n s s' now node Hp IH Hs|n s s' now node c Hp IH Hw Hs Hc]; [split; [done|lia]|..];
    destruct (IH Hok) as [Hok' Hle].
  - split; [by apply step_keeps_ok|]. pose proof (keeps_potential t _ _ (other_keeps_turn s' o Hok' Ho)). lia.
  - split; [by apply select_ok|]. pose proof (keeps_potential t _ _ (select_unserved now node s' Hok' Hs)). lia.
  - split; [by apply select_ok|]. pose proof (select_served now node s' t c Hok' Hw Hs Hc). lia.
Qed.

(** ** Reserves and caps at admission *)

Lemma count_insert p s s' i v :
  pool_ s !! i = Some None → pool_ s' = Slots.set i v (pool_ s) → count_jobs p s' ≤ count_jobs p s + 1.
Proof.
  intros Hi Hp. unfold count_jobs. rewrite Hp, live_insert by done. rewrite filter_cons. case_decide; cbn [length]; lia.
Qed.

Lemma enqueue_used s job self now s' :
  sched_ok s → sized job = true → enqueue job self now s = (Ok tt, s') → used_ s' = used_ s + 1.
Proof.
  intros Hok Hsz He. pose proof (enqueue_spec s job self now Hok Hsz) as [Hok' Hs]. rewrite He in *. cbn [fst snd] in *.
  destruct Hs as (i & Hi & Hp). rewrite (sched_ok_used _ Hok'), (sched_ok_used _ Hok), Hp, indices_set_free by done. cbn [length]. lia.
Qed.

(** After [enqueue] accepts a fresh non-control job, the reserved slots are
    still free, the job's origin and upstream hold no more than their shares,
    and a control reply that finds room in its lane is accepted. *)
Lemma admission_keeps_reserves a d s job self now s' :
  reachable a d s → sized job = true → control_job job = false → txn job = kInvalidTxnHandle → fresh_work job = true →
  enqueue job self now s = (Ok tt, s') →
  kControlReserveSlots + (if route_maintenance job then 0 else kRouteReserveSlots) ≤ free_slots s' ∧
  (classify job ≠ Management →
    origin_count (origin (frame_header job)) s' ≤ kMaxJobsPerOrigin ∧
    (form job = Forwarded → previous_hop (frame_header job) ≠ self →
      scope_count (previous_hop (frame_header job)) s' ≤ kMaxJobsPerScope)) ∧
  (∀ reply, control_job reply = true → sized reply = true → control_slot_available s' = true →
    is_ok (fst (enqueue reply self now s')) = true).
Proof.
  intros [Hok _]%reachable_ok Hsz Hcj Htxn Hfr He. pose proof (enqueue_used s job self now s' Hok Hsz He) as Hu.
  pose proof (enqueue_spec s job self now Hok Hsz) as [Hok' Hs]. rewrite He in Hok', Hs. cbn [fst snd] in *.
  destruct Hs as (i & Hi & Hp). unfold enqueue in He. rewrite Hcj, Hfr, bool_decide_eq_true_2 in He by done. cbn [andb] in He.
  destruct (Nat.leb_spec kTxQueueCapacity (used_ s)) as [|Hroom]; [done|].
  destruct (Nat.leb_spec (free_slots s) (kControlReserveSlots + (if route_maintenance job then 0 else kRouteReserveSlots))) as [|Hres]; [done|].
  destruct (bool_decide (classify job = Bulk) && _); [done|]. rewrite !andb_true_r in He.
  assert (Hfree : kControlReserveSlots + (if route_maintenance job then 0 else kRouteReserveSlots) ≤ free_slots s').
  { unfold free_slots in *. rewrite Hu. lia. }
  split; [done|]. split.
  - intros Hm. rewrite bool_decide_eq_false_2 in He by done. cbn [negb andb] in He. unfold flow_key in He.
    assert (Hkey : snd (fst (if bool_decide (form job = Forwarded) then (previous_hop (frame_header job), origin (frame_header job), destination (frame_header job))
      else (self, origin (frame_header job), destination (frame_header job)))) = origin (frame_header job)) by (by destruct (bool_decide _)).
    rewrite Hkey in He. clear Hkey.
    destruct (Nat.leb_spec kMaxJobsPerOrigin (origin_count (origin (frame_header job)) s)) as [|Ho]; [done|]. split.
    + unfold origin_count in *. etrans; [by eapply count_insert|]. lia.
    + intros Hf Hn. rewrite (bool_decide_eq_true_2 (form job = Forwarded)) in He by done. cbn [fst snd] in He.
      rewrite (bool_decide_eq_false_2 (previous_hop (frame_header job) = self)) in He by done.
      cbn [negb andb] in He. destruct (Nat.leb_spec kMaxJobsPerScope (scope_count (previous_hop (frame_header job)) s)) as [|Hsc]; [done|].
      unfold scope_count in *. etrans; [by eapply count_insert|]. lia.
  - intros reply Hc Hrs Hav. unfold enqueue. rewrite Hc. unfold free_slots, kControlReserveSlots in Hfree.
    destruct (Nat.leb_spec kTxQueueCapacity (used_ s')); [lia|]. unfold control_slot_available in Hav. apply Nat.ltb_lt in Hav.
    rewrite (proj2 (Nat.leb_gt _ _)) by lia. pose proof Hok' as [Hi' _].
    destruct (store_job_spec None s' reply now Hi' Hrs) as (k & _ & -> & _); [rewrite <- (sched_ok_used _ Hok'); lia|done].
Qed.
