(* ===== verification/SchedulerDemo.v ===== *)
(** * Concrete schedules

    Runs that exercise the theorems of SchedulerRun, and a run in which one
    bulk flow is never served: within a class the scan passes over a head it
    cannot afford and serves a cheaper one behind it, so a flow of short
    frames keeps the class deficit below the price of a long one. *)

From S2P Require Import Prelude Types Wire FixedContainers Congestion Scheduler SchedulerInv SchedulerProps SchedulerSelect SchedulerLive SchedulerRun.

Local Open Scope nat_scope.

Fixpoint exec (os : list op) (s : TxScheduler) : bool * list TxJob * list TxJob * TxScheduler :=
  match os with
  | [] => (true, [], [], s)
  | o :: rest =>
      let '(a, d, s1) := step o s in
      let '(ok, a', d', s2) := exec rest s1 in (allowed o s && ok, a' ++ a, d' ++ d, s2)
  end.

Lemma exec_reachable os : ∀ s a0 d0 ok a d s',
  reachable a0 d0 s → exec os s = (ok, a, d, s') → ok = true → reachable (a ++ a0) (d ++ d0) s'.
Proof.
  induction os as [|o os IH]; intros s a0 d0 ok a d s' Hr He Hok; cbn [exec] in He; [by injection He as <- <- <- <-|].
  destruct (step o s) as [[a1 d1] s1] eqn:Hst, (exec os s1) as [[[ok1 a2] d2] s2] eqn:Hex.
  injection He as <- <- <- <-. apply andb_true_iff in Hok as [Ha Hok]. rewrite <- !app_assoc.
  eapply IH; [by eapply reach_step|exact Hex|done].
Qed.

Definition demo_header (o fl : Z) : Header :=
  mkHeader FrameType.Data fl 0 0 0 0 0 0 0 o 9 0 0 (mkMessageId 0 0) 0 0 0 0 0 0.
Definition demo_job (o fl : Z) (n : nat) (pr : Z) : TxJob :=
  mkJob Plain (demo_header o fl) n 5 0 0 0 0 OwnerNone false 0 0 pr false kInvalidTxnHandle.
Definition demo_view : NodeView := mkView 0 false 0 [] [] (λ _, None).

(** A long bulk frame behind two short normal ones. *)
Definition long_bulk : TxJob := demo_job 2 1 128 Priority.Bulk.
Definition short_normal : TxJob := demo_job 1 0 0 Priority.Normal.
Definition demo_ops : list op := [OEnqueue long_bulk 7 1; OEnqueue short_normal 7 1; OEnqueue short_normal 7 2].
Definition demo_out : bool * list TxJob * list TxJob * TxScheduler := Eval vm_compute in exec demo_ops initial.
Definition demo_state : TxScheduler := Eval vm_compute in snd demo_out.
Definition demo_accepted : list TxJob := Eval vm_compute in snd (fst (fst demo_out)).

Lemma demo_reachable : reachable demo_accepted [] demo_state.
Proof.
  pose proof (exec_reachable demo_ops initial [] [] true demo_accepted [] demo_state reach_init) as H.
  rewrite !app_nil_r in H. apply H; by vm_compute.
Qed.

Lemma demo_waiting : waiting 3 demo_view demo_state 3.
Proof.
  exists (Desc 0), (mkFlow [0] 7 2 9 Bulk true false), 0, (with_enqueued 1 (charge_cost long_bulk)).
  split; [by vm_compute|]. split; [done|]. split; [|by vm_compute].
  exists (mkFlow [0] 7 2 9 Bulk true false), []. split; [by vm_compute|]. split; [done|]. by vm_compute.
Qed.

Lemma scheduler_well_formed_witness : sched_ok demo_state ∧ used_ demo_state = 3.
Proof. split; [exact (proj1 (scheduler_well_formed _ _ _ demo_reachable))|by vm_compute]. Defined.

Lemma scheduler_keeps_accepted_work_witness :
  length demo_accepted = 3 ∧ ident <$> demo_accepted ≡ₚ (ident <$> []) ++ (ident <$> Slots.live (pool_ demo_state)).
Proof. split; [by vm_compute|exact (scheduler_keeps_accepted_work _ _ _ demo_reachable)]. Defined.

Lemma select_work_conserving_witness : ∃ j job, fst (select 3 demo_view demo_state) = Some j ∧ job_at demo_state j = Some job.
Proof.
  assert (Hw : is_Some (control_ready 3 demo_state) ∨ (paused demo_view kDataDispatch = false ∧ ∃ t, waiting 3 demo_view demo_state t)).
  { right. split; [by vm_compute|]. exists 3. exact demo_waiting. }
  destruct (select_work_conserving _ _ demo_state 3 demo_view demo_reachable eq_refl Hw) as (j & job & Hj & Hjob & _). by exists j, job.
Defined.

Lemma class_bounded_wait_witness :
  served 3 demo_view demo_state = Some 2 ∧ passed_over 3 1 demo_state (snd (select 3 demo_view demo_state)) ∧ 1 ≤ 27.
Proof.
  assert (Hs : served 3 demo_view demo_state = Some 2) by (by vm_compute).
  assert (Hp : passed_over 3 1 demo_state (snd (select 3 demo_view demo_state))).
  { exact (po_pick 3 0 demo_state demo_state 3 demo_view 2 (po_refl 3 demo_state) demo_waiting Hs ltac:(done)). }
  split; [exact Hs|]. split; [exact Hp|]. exact (class_bounded_wait _ _ demo_state 3 1 _ demo_reachable Hp).
Defined.

Lemma admission_keeps_reserves_witness :
  ∃ s', enqueue short_normal 7 3 demo_state = (Ok tt, s') ∧ kControlReserveSlots + kRouteReserveSlots ≤ free_slots s'.
Proof.
  eexists. split; [by vm_compute|].
  exact (proj1 (admission_keeps_reserves _ _ demo_state short_normal 7 3 _ demo_reachable eq_refl eq_refl eq_refl eq_refl ltac:(by vm_compute))).
Defined.

(** ** A bulk flow that is never served *)

Definition short_bulk : TxJob := demo_job 1 0 0 Priority.Bulk.
Definition starve_start : TxScheduler := snd (exec [OEnqueue short_bulk 7 1; OEnqueue long_bulk 7 1] initial).

(** The short flow gains a frame, then one selection is taken; the result is
    the origin of the frame that leaves. *)
Definition starve_round (s : TxScheduler) : option Z * TxScheduler :=
  let s1 := snd (enqueue short_bulk 7 1 s) in
  match select 1 demo_view s1 with
  | (Some _, s2) => let '(job, s3) := take_selected s2 in (Some (origin (frame_header job)), s3)
  | (None, s2) => (None, s2)
  end.
Definition starve_state (n : nat) : TxScheduler := Nat.iter n (λ s, snd (starve_round s)) starve_start.
Definition long_ready (s : TxScheduler) : bool :=
  existsb (λ j, bool_decide (origin (frame_header j) = 2%Z) && tx_admitted_now demo_view j && bool_decide (not_before_ms j ≤ 1)%Z)
    (Slots.live (pool_ s)).
Definition starve_loop : TxScheduler := Eval vm_compute in starve_state 2.

Lemma starve_period : Nat.iter 8 (λ s, snd (starve_round s)) starve_loop = starve_loop.
Proof. by vm_compute. Qed.

Lemma starve_cycle q r : starve_state (r + (8 * q + 2)) = Nat.iter r (λ s, snd (starve_round s)) starve_loop.
Proof.
  unfold starve_state. rewrite Nat.iter_add. f_equal. induction q as [|q IH]; [by vm_compute|].
  replace (8 * S q + 2) with (8 + (8 * q + 2)) by lia. rewrite Nat.iter_add, IH. apply starve_period.
Qed.

(** With two flows of the same class, one of long frames and one of short
    frames refilled after each dispatch, every selection takes the short flow
    although a long frame is due and admitted: the deficit is shared by the
    class and never reaches the price of the long frame. *)
Lemma bulk_flow_starves n :
  fst (starve_round (starve_state n)) = Some 1%Z ∧ long_ready (starve_state n) = true.
Proof.
  destruct (decide (n < 2)) as [Hlt|Hge].
  { assert (n = 0 ∨ n = 1) as [ -> | -> ] by lia; by vm_compute. }
  pose proof (Nat.div_mod_eq (n - 2) 8) as Hd. pose proof (Nat.mod_upper_bound (n - 2) 8 ltac:(lia)) as Hm.
  replace n with ((n - 2) mod 8 + (8 * ((n - 2) / 8) + 2)) by lia. rewrite starve_cycle.
  set (r := (n - 2) mod 8) in *. clearbody r. clear Hd Hge n.
  do 8 (destruct r as [|r]; [by vm_compute|]). lia.
Qed.

(** ** Dropping work during a dispatch *)

(** Two jobs of one flow; the first is selected, the other dropped, and the
    selected one taken: the flow is released while its class ring still has it. *)
Definition dispatching : TxScheduler := snd (select 3 demo_view (snd (exec [OEnqueue short_normal 7 1; OEnqueue short_normal 7 2] initial))).
Definition after_drop : TxScheduler := snd (take_selected (snd (drop_one_if (λ _, true) dispatching))).
Lemma drop_during_dispatch_leaves_ring :
  selected_ dispatching ≠ None ∧ used_ after_drop = 0 ∧ ∃ r, r ∈ mjoin (rr_ after_drop) ∧ get_flow after_drop r = None.
Proof. split; [by vm_compute|]. split; [by vm_compute|]. exists (Desc 0). split; [|by vm_compute]. vm_compute. by left. Qed.
