(* ===== verification/LinkCost.v ===== *)
(** * Link costs and neighbour load (node_congestion.cpp)

    What a node measures about each neighbour and how the measurements become
    the link cost its route table uses: the neighbour table of node.hpp
    [Neighbor], the samples the transmit path records, the busy feedback, the
    periodic [refresh_neighbor_load], and the coupling with the route table
    (Routing) and the scheduler (Scheduler).  The tree-role leases of a
    neighbour are kept by other code and left out. *)

From S2P Require Import Prelude Types Wire FixedContainers Routing Congestion Scheduler.

(** ** Neighbours *)

Definition kNoFeedbackSeq : Z := 0xFFFFFFFF.
Definition kWindowGrowAccepts : Z := 8.
Definition kMetricSourceLocalExchange : Z := Z.shiftl 1 0.
Definition kMetricSourceLocalSojourn : Z := Z.shiftl 1 1.
Definition kCapBusyV1 : Z := Z.shiftl 1 4.
Definition kCapabilitiesValidityMs : Z := 5000.
Definition kNeighborCapacity : nat := 32.

(** [struct Neighbor], its fields grouped by the code that writes them. *)
Record Exchange := mkExchange { exchange_work : Z; exchange_accepts : Z; exchange_window_ms : Z }.
Record Sojourn := mkSojourn {
  queue_sojourn_ewma_ms : Z; sojourn_samples : Z; last_sojourn_ms : Z; sojourn_window_ms : Z }.
Record HopRtt := mkRtt { hop_rtt_ewma_ms : Z; hop_rtt_samples : Z }.
Record Measured := mkMeasured {
  exchange : Exchange; sojourn : Sojourn; rtt : HopRtt; metric_window_dirty : bool; metric_sources : Z }.
Record Busyness := mkBusyness {
  busy_active : bool; busy_since_ms : Z; last_busy_feedback_ms : Z; last_pressure : Z }.
Record Feedback := mkFeedback { feedback_seen : bool; last_feedback_seq : Z }.
Record PeerWindow := mkPeerWindow { tx_window : Z; window_accepts : Z }.
Record Capability := mkCapability {
  busy_capable : bool; cap_features : Z; cap_valid_until_ms : Z; cap_node_boot : Z; last_cap_exchange_ms : Z }.
Record Neighbor := mkNeighbor {
  nb_node : NodeId; nb_generation : Z; metric : Z; link_cost : Z; last_cost_relax_ms : Z;
  consecutive_failures : Z; measured : Measured; busy : Busyness; feedback : Feedback;
  window : PeerWindow; capability : Capability; pull_answer_pending : bool; active : bool }.

Definition no_exchange : Exchange := mkExchange 0 0 0.
Definition no_sojourn : Sojourn := mkSojourn 0 0 0 0.
Definition no_rtt : HopRtt := mkRtt 0 0.
Definition no_busy : Busyness := mkBusyness false 0 0 0.
Definition no_capability : Capability := mkCapability false 0 0 0 0.
Definition empty_neighbor : Neighbor :=
  mkNeighbor kInvalidNodeId 0 1 1 0 0 (mkMeasured no_exchange no_sojourn no_rtt false 0) no_busy
    (mkFeedback false kNoFeedbackSeq) (mkPeerWindow kPeerWindowInitial 0) no_capability false false.

Definition set_cost (cost relax_ms : Z) (n : Neighbor) : Neighbor :=
  mkNeighbor (nb_node n) (nb_generation n) (metric n) cost relax_ms (consecutive_failures n) (measured n) (busy n)
    (feedback n) (window n) (capability n) (pull_answer_pending n) (active n).
Definition set_measured (m : Measured) (n : Neighbor) : Neighbor :=
  mkNeighbor (nb_node n) (nb_generation n) (metric n) (link_cost n) (last_cost_relax_ms n) (consecutive_failures n) m
    (busy n) (feedback n) (window n) (capability n) (pull_answer_pending n) (active n).
Definition set_busy (b : Busyness) (n : Neighbor) : Neighbor :=
  mkNeighbor (nb_node n) (nb_generation n) (metric n) (link_cost n) (last_cost_relax_ms n) (consecutive_failures n)
    (measured n) b (feedback n) (window n) (capability n) (pull_answer_pending n) (active n).
Definition set_feedback (f : Feedback) (n : Neighbor) : Neighbor :=
  mkNeighbor (nb_node n) (nb_generation n) (metric n) (link_cost n) (last_cost_relax_ms n) (consecutive_failures n)
    (measured n) (busy n) f (window n) (capability n) (pull_answer_pending n) (active n).
Definition set_window (w : PeerWindow) (n : Neighbor) : Neighbor :=
  mkNeighbor (nb_node n) (nb_generation n) (metric n) (link_cost n) (last_cost_relax_ms n) (consecutive_failures n)
    (measured n) (busy n) (feedback n) w (capability n) (pull_answer_pending n) (active n).
Definition set_capability (c : Capability) (n : Neighbor) : Neighbor :=
  mkNeighbor (nb_node n) (nb_generation n) (metric n) (link_cost n) (last_cost_relax_ms n) (consecutive_failures n)
    (measured n) (busy n) (feedback n) (window n) c (pull_answer_pending n) (active n).
Definition set_active (b : bool) (n : Neighbor) : Neighbor :=
  mkNeighbor (nb_node n) (nb_generation n) (metric n) (link_cost n) (last_cost_relax_ms n) (consecutive_failures n)
    (measured n) (busy n) (feedback n) (window n) (capability n) (pull_answer_pending n) b.

Definition set_exchange (x : Exchange) (m : Measured) : Measured :=
  mkMeasured x (sojourn m) (rtt m) (metric_window_dirty m) (metric_sources m).
Definition set_sojourn (x : Sojourn) (m : Measured) : Measured :=
  mkMeasured (exchange m) x (rtt m) (metric_window_dirty m) (metric_sources m).
Definition set_rtt (x : HopRtt) (m : Measured) : Measured :=
  mkMeasured (exchange m) (sojourn m) x (metric_window_dirty m) (metric_sources m).
Definition set_dirty (b : bool) (m : Measured) : Measured :=
  mkMeasured (exchange m) (sojourn m) (rtt m) b (metric_sources m).
Definition add_source (bit : Z) (m : Measured) : Measured :=
  mkMeasured (exchange m) (sojourn m) (rtt m) (metric_window_dirty m) (Z.lor (metric_sources m) bit).
Definition on_measured (f : Measured → Measured) (n : Neighbor) : Neighbor := set_measured (f (measured n)) n.

(** ** Samples *)

Definition reset_neighbor_measurement (n : Neighbor) : Neighbor :=
  set_cost (metric n) 0 (set_measured (mkMeasured no_exchange no_sojourn no_rtt false 0) n).

(** The neighbour part of [obs_submission]: a frame goes to the radio. *)
Definition record_submission (job : TxJob) (now_ms : Z) (n : Neighbor) : Neighbor :=
  let m := measured n in
  let s := sojourn m in
  let samples := u32 (sojourn_samples s + 1) in
  let eligible_ms := if is_object job then Z.max (enqueued_at_ms job) (not_before_ms job) else enqueued_at_ms job in
  let s1 := mkSojourn (ewma_add (queue_sojourn_ewma_ms s) (u32 (u64 (now_ms - eligible_ms))) samples) samples now_ms
              (if bool_decide (sojourn_window_ms s = 0) then now_ms else sojourn_window_ms s) in
  let m1 := add_source kMetricSourceLocalSojourn (set_sojourn s1 m) in
  if requires_hop_accept job then
    let x := exchange m1 in
    let x1 := mkExchange (u32 (exchange_work x + 1)) (exchange_accepts x)
                (if bool_decide (exchange_window_ms x = 0) then now_ms else exchange_window_ms x) in
    set_measured (add_source kMetricSourceLocalExchange (set_exchange x1 m1)) n
  else set_measured m1 n.

(** The neighbour part of [obs_hop_result] for an accepted exchange. *)
Definition record_accept (n : Neighbor) : Neighbor :=
  let x := exchange (measured n) in
  on_measured (λ m, add_source kMetricSourceLocalExchange
    (set_exchange (mkExchange (exchange_work x) (u32 (exchange_accepts x + 1)) (exchange_window_ms x)) m)) n.

(** The neighbour part of [finish_hop_accept] after [obs_hop_result]. *)
Definition grow_window (w : PeerWindow) : PeerWindow :=
  let accepts := if bool_decide (window_accepts w < kWindowGrowAccepts) then window_accepts w + 1 else window_accepts w in
  if bool_decide (kWindowGrowAccepts ≤ accepts) && bool_decide (tx_window w < kPeerWindowMax)
  then mkPeerWindow (tx_window w + 1) 0 else mkPeerWindow (tx_window w) accepts.
Definition finish_hop_accept (rtt_sampled : bool) (rtt_ms : Z) (n : Neighbor) : Neighbor :=
  let n1 := if rtt_sampled
            then let r := rtt (measured n) in
                 let samples := u32 (hop_rtt_samples r + 1) in
                 on_measured (set_rtt (mkRtt (ewma_add (hop_rtt_ewma_ms r) rtt_ms samples) samples)) n
            else n in
  set_window (grow_window (window n1)) (set_busy (mkBusyness false 0 0 (last_pressure (busy n1))) n1).

(** An attempt whose outcome stays unknown taints the window. *)
Definition taint_window (n : Neighbor) : Neighbor := on_measured (set_dirty true) n.

(** ** Busy feedback *)

(** Serial-number order on 32-bit sequences: the cast to a signed difference. *)
Definition feedback_stale (f : Feedback) (sequence : Z) : bool :=
  let d := u32 (sequence - last_feedback_seq f) in
  feedback_seen f && (bool_decide (d = 0) || bool_decide (2 ^ 31 ≤ d)).

(** Busy from [now_ms] on, unless it already was. *)
Definition sustain_busy (now_ms : Z) (b : Busyness) : Busyness :=
  mkBusyness true (if busy_active b then busy_since_ms b else now_ms) now_ms (last_pressure b).
Definition set_pressure (p : Z) (b : Busyness) : Busyness :=
  mkBusyness (busy_active b) (busy_since_ms b) (last_busy_feedback_ms b) p.

(** [note_peer_pressure] on the neighbour it found; [None] is a stale report. *)
Definition note_pressure (pressure sequence now_ms : Z) (n : Neighbor) : option Neighbor :=
  if feedback_stale (feedback n) sequence then None
  else
    let n1 := set_busy (set_pressure pressure (busy n)) (set_feedback (mkFeedback true sequence) n) in
    Some (if bool_decide (pressure = 0) then n1 else set_busy (sustain_busy now_ms (busy n1)) n1).

(** [handle_busy]: the capability a well-formed report proves, its ordering. *)
Definition busy_report (sequence now_ms : Z) (n : Neighbor) : bool * Neighbor :=
  let c := capability n in
  let n1 := set_capability (mkCapability true kCapBusyV1 (u64 (now_ms + kCapabilitiesValidityMs)) (cap_node_boot c)
                              (last_cap_exchange_ms c)) n in
  if feedback_stale (feedback n1) sequence then (false, n1) else (true, set_feedback (mkFeedback true sequence) n1).
(** [handle_busy]: a pressure hint. *)
Definition pressure_hint (pressure now_ms : Z) (n : Neighbor) : Neighbor :=
  let n1 := if bool_decide (pressure = 0) then n
            else
              let w := window n in
              set_busy (sustain_busy now_ms (busy n))
                (set_window (mkPeerWindow (if bool_decide (kPeerWindowMin < tx_window w) then tx_window w - 1 else tx_window w) 0) n) in
  set_busy (set_pressure pressure (busy n1)) n1.
(** [handle_busy]: a rejection that matched pending work. *)
Definition busy_reject (pressure now_ms : Z) (n : Neighbor) : Neighbor :=
  set_busy (set_pressure pressure (sustain_busy now_ms (busy n))) (set_window (mkPeerWindow kPeerWindowMin 0) n).

(** ** The node *)

(** The part of [MeshNode] that link costs read and write. *)
Record LoadNode := mkNode {
  in_call_ : bool; started_ : bool; config_node : NodeId; hop_accept_timeout_ms : Z; route_lifetime_ms : Z;
  gateway_scoped : bool;
  neighbors_ : Slots.slots Neighbor; routes_ : RouteTable; scheduler_ : TxScheduler;
  physical_ : option TxJob; awaiting_hop_ : list AwaitingHop;
  last_admission_rejections_ : Z; last_refusal_ms_ : Z; next_poll_ms_ : Z; busy_stale : Z;
  config_revision_ : Z; next_route_advertisement_ms_ : Z }.

Definition set_neighbors (s : Slots.slots Neighbor) (v : LoadNode) : LoadNode :=
  mkNode (in_call_ v) (started_ v) (config_node v) (hop_accept_timeout_ms v) (route_lifetime_ms v) (gateway_scoped v)
    s (routes_ v) (scheduler_ v) (physical_ v) (awaiting_hop_ v) (last_admission_rejections_ v) (last_refusal_ms_ v)
    (next_poll_ms_ v) (busy_stale v) (config_revision_ v) (next_route_advertisement_ms_ v).
Definition set_routes (t : RouteTable) (v : LoadNode) : LoadNode :=
  mkNode (in_call_ v) (started_ v) (config_node v) (hop_accept_timeout_ms v) (route_lifetime_ms v) (gateway_scoped v)
    (neighbors_ v) t (scheduler_ v) (physical_ v) (awaiting_hop_ v) (last_admission_rejections_ v) (last_refusal_ms_ v)
    (next_poll_ms_ v) (busy_stale v) (config_revision_ v) (next_route_advertisement_ms_ v).
Definition set_traffic (s : TxScheduler) (p : option TxJob) (a : list AwaitingHop) (v : LoadNode) : LoadNode :=
  mkNode (in_call_ v) (started_ v) (config_node v) (hop_accept_timeout_ms v) (route_lifetime_ms v) (gateway_scoped v)
    (neighbors_ v) (routes_ v) s p a (last_admission_rejections_ v) (last_refusal_ms_ v)
    (next_poll_ms_ v) (busy_stale v) (config_revision_ v) (next_route_advertisement_ms_ v).
Definition set_refusal (rejections at_ms : Z) (v : LoadNode) : LoadNode :=
  mkNode (in_call_ v) (started_ v) (config_node v) (hop_accept_timeout_ms v) (route_lifetime_ms v) (gateway_scoped v)
    (neighbors_ v) (routes_ v) (scheduler_ v) (physical_ v) (awaiting_hop_ v) rejections at_ms
    (next_poll_ms_ v) (busy_stale v) (config_revision_ v) (next_route_advertisement_ms_ v).
Definition set_poll (at_ms : Z) (v : LoadNode) : LoadNode :=
  mkNode (in_call_ v) (started_ v) (config_node v) (hop_accept_timeout_ms v) (route_lifetime_ms v) (gateway_scoped v)
    (neighbors_ v) (routes_ v) (scheduler_ v) (physical_ v) (awaiting_hop_ v) (last_admission_rejections_ v)
    (last_refusal_ms_ v) at_ms (busy_stale v) (config_revision_ v) (next_route_advertisement_ms_ v).
Definition set_stale (k : Z) (v : LoadNode) : LoadNode :=
  mkNode (in_call_ v) (started_ v) (config_node v) (hop_accept_timeout_ms v) (route_lifetime_ms v) (gateway_scoped v)
    (neighbors_ v) (routes_ v) (scheduler_ v) (physical_ v) (awaiting_hop_ v) (last_admission_rejections_ v)
    (last_refusal_ms_ v) (next_poll_ms_ v) k (config_revision_ v) (next_route_advertisement_ms_ v).
Definition set_revision (k advert_ms : Z) (v : LoadNode) : LoadNode :=
  mkNode (in_call_ v) (started_ v) (config_node v) (hop_accept_timeout_ms v) (route_lifetime_ms v) (gateway_scoped v)
    (neighbors_ v) (routes_ v) (scheduler_ v) (physical_ v) (awaiting_hop_ v) (last_admission_rejections_ v)
    (last_refusal_ms_ v) (next_poll_ms_ v) (busy_stale v) k advert_ms.

Definition find_neighbor (n : NodeId) (v : LoadNode) : option nat :=
  Slots.find (λ x, bool_decide (nb_node x = n)) (neighbors_ v).
Definition neighbor_of (n : NodeId) (v : LoadNode) : option Neighbor :=
  find_neighbor n v ≫= λ i, Slots.at_ i (neighbors_ v).
(** An update through the pointer [find_neighbor] returned, if any. *)
Definition on_neighbor (n : NodeId) (f : Neighbor → Neighbor) (v : LoadNode) : LoadNode :=
  match find_neighbor n v with
  | Some i => match Slots.at_ i (neighbors_ v) with
              | Some x => set_neighbors (Slots.set i (f x) (neighbors_ v)) v
              | None => v
              end
  | None => v
  end.

Definition guarded {A : Type} (f : M LoadNode A) : M LoadNode A := λ v,
  if in_call_ v then (Err Busy "reentrant call", v) else f v.

(** ** Refreshing a neighbour *)

(** Halving per elapsed window, as a shift count computed from the clock. *)
Definition elapsed_windows (now_ms anchor : Z) : Z := u64 (now_ms - anchor) / kObservationWindowMs.
Definition decay (windows value : Z) : Z := if bool_decide (32 ≤ windows) then 0 else Z.shiftr value windows.
Definition advance (anchor windows : Z) : Z := u64 (anchor + u64 (kObservationWindowMs * windows)).

Definition roll_exchange (now_ms : Z) (m : Measured) : Measured :=
  let x := exchange m in
  if bool_decide (exchange_window_ms x = 0) then m
  else
    let k := elapsed_windows now_ms (exchange_window_ms x) in
    if bool_decide (k = 0) then m
    else set_dirty false (set_exchange (mkExchange (decay k (exchange_work x)) (decay k (exchange_accepts x))
                                          (advance (exchange_window_ms x) k)) m).
Definition roll_sojourn (now_ms : Z) (m : Measured) : Measured :=
  let s := sojourn m in
  if bool_decide (sojourn_window_ms s = 0) then m
  else
    let k := elapsed_windows now_ms (sojourn_window_ms s) in
    if bool_decide (k = 0) then m
    else set_sojourn (mkSojourn (decay k (queue_sojourn_ewma_ms s)) (sojourn_samples s) (last_sojourn_ms s)
                        (advance (sojourn_window_ms s) k)) m.
Definition expire_busy (now_ms : Z) (b : Busyness) : Busyness :=
  if busy_active b && bool_decide (kFeedbackTtlMs < u64 (now_ms - last_busy_feedback_ms b))
  then mkBusyness false 0 (last_busy_feedback_ms b) (last_pressure b) else b.
(** The measurements and the busy state of a neighbour, brought up to date. *)
Definition roll (now_ms : Z) (n : Neighbor) : Neighbor :=
  set_busy (expire_busy now_ms (busy n)) (on_measured (λ m, roll_sojourn now_ms (roll_exchange now_ms m)) n).

Definition pending_work (v : LoadNode) (n : NodeId) : Z :=
  let submitted := match physical_ v with
                   | Some job => if requires_hop_accept job && bool_decide (peer job = n) then 1 else 0
                   | None => 0
                   end in
  u32 (submitted + Z.of_nat (length (filter (λ a, peer (a_job a) = n) (awaiting_hop_ v)))).

Definition link_base (pending : Z) (n : Neighbor) : Z :=
  let x := exchange (measured n) in
  let settled := if bool_decide (pending < exchange_work x) then exchange_work x - pending else 0 in
  if bool_decide (kExchangeMinAccepts ≤ exchange_accepts x) then
    let m := measured_link_base (metric n) settled (exchange_accepts x) in
    if negb (metric_window_dirty (measured n)) || bool_decide (metric n ≤ m) then m else metric n
  else metric n.

Definition congestion_multiple (occupancy last_refusal_ms now_ms : Z) (n : Neighbor) : Z :=
  let s := sojourn (measured n) in
  let queue_ms := if negb (bool_decide (last_sojourn_ms s = 0)) && bool_decide (u64 (now_ms - last_sojourn_ms s) ≤ kObservationWindowMs)
                  then queue_sojourn_ewma_ms s else 0 in
  let steps_r := if refusal_floor_active occupancy last_refusal_ms now_ms then refusal_penalty_steps occupancy else 0 in
  if negb (bool_decide (queue_ms = 0)) || negb (bool_decide (steps_r = 0))
  then if bool_decide (steps_r < queue_penalty_steps queue_ms) then queue_penalty_steps queue_ms else steps_r
  else 0.

(** The new cost, and whether a relax step was taken. *)
Definition slew (pending target base now_ms : Z) (n : Neighbor) : Z * bool :=
  if bool_decide (link_cost n ≤ target) then (target, false)
  else if bool_decide (pending = 0) && negb (metric_window_dirty (measured n)) &&
          bool_decide (kLinkCostRelaxWindowMs ≤ u64 (now_ms - last_cost_relax_ms n))
  then (relax_link_cost (link_cost n) target base, true)
  else (link_cost n, false).

Definition link_target (v : LoadNode) (now_ms : Z) (n : Neighbor) : Z :=
  penalized_cost (link_base (pending_work v (nb_node n)) n)
    (congestion_multiple (occupancy_percent (scheduler_ v)) (last_refusal_ms_ v) now_ms n).

Definition refresh_link_cost (v : LoadNode) (now_ms : Z) (n : Neighbor) (t : RouteTable) : Neighbor * RouteTable :=
  let pending := pending_work v (nb_node n) in
  let '(cost, relaxed) := slew pending (link_target v now_ms n) (link_base pending n) now_ms n in
  let n1 := set_cost cost (if relaxed then now_ms else last_cost_relax_ms n) n in
  (n1, if bool_decide (cost = link_cost n) then t else snd (update_link_cost (nb_node n) cost now_ms t)).

(** ** The periodic refresh *)

Definition note_timer (base delay : Z) (poll : Z) : Z :=
  Z.min poll (if bool_decide (UINT64_MAX - delay < base) then UINT64_MAX else base + delay).

Definition neighbor_timers (now_ms : Z) (n : Neighbor) (poll : Z) : Z :=
  let x := exchange (measured n) in
  let s := sojourn (measured n) in
  let p1 := if bool_decide (exchange_window_ms x = 0) then poll else note_timer (exchange_window_ms x) kObservationWindowMs poll in
  let p2 := if bool_decide (sojourn_window_ms s = 0) then p1 else note_timer (sojourn_window_ms s) kObservationWindowMs p1 in
  let p3 := if negb (bool_decide (last_sojourn_ms s = 0)) && bool_decide (u64 (now_ms - last_sojourn_ms s) ≤ kObservationWindowMs)
            then note_timer (last_sojourn_ms s) (kObservationWindowMs + 1) p2 else p2 in
  let p4 := if busy_active (busy n) then note_timer (last_busy_feedback_ms (busy n)) (kFeedbackTtlMs + 1) p3 else p3 in
  if bool_decide (now_ms - Z.min now_ms kLinkCostRelaxWindowMs < last_cost_relax_ms n)
  then note_timer (last_cost_relax_ms n) kLinkCostRelaxWindowMs p4 else p4.

Definition refresh_one (v : LoadNode) (now_ms : Z) (n : Neighbor) (t : RouteTable) (poll : Z) : Neighbor * RouteTable * Z :=
  if negb (active n) then (n, t, poll)
  else
    let n1 := roll now_ms n in
    let t1 := if busy_active (busy n1) then note_next_hop_busy (nb_node n1) (busy_since_ms (busy n1)) t
              else clear_next_hop_busy (nb_node n1) t in
    let '(n2, t2) := refresh_link_cost v now_ms n1 t1 in
    (n2, t2, neighbor_timers now_ms n2 poll).

Fixpoint refresh_each (v : LoadNode) (now_ms : Z) (s : Slots.slots Neighbor) (t : RouteTable) (poll : Z)
  : Slots.slots Neighbor * RouteTable * Z :=
  match s with
  | [] => ([], t, poll)
  | None :: s' => let '(s1, t1, p1) := refresh_each v now_ms s' t poll in (None :: s1, t1, p1)
  | Some n :: s' =>
      let '(n1, t1, p1) := refresh_one v now_ms n t poll in
      let '(s2, t2, p2) := refresh_each v now_ms s' t1 p1 in
      (Some n1 :: s2, t2, p2)
  end.

Definition refresh_neighbor_load (now_ms : Z) (v : LoadNode) : LoadNode :=
  let rejected := admissions_rejected (stats_ (scheduler_ v)) in
  let v1 := if bool_decide (rejected = last_admission_rejections_ v) then v else set_refusal rejected now_ms v in
  let p1 := if negb (bool_decide (last_refusal_ms_ v1 = 0)) && bool_decide (u64 (now_ms - last_refusal_ms_ v1) ≤ kObservationWindowMs)
            then note_timer (last_refusal_ms_ v1) (kObservationWindowMs + 1) (next_poll_ms_ v1) else next_poll_ms_ v1 in
  let '(s, t, p2) := refresh_each v1 now_ms (neighbors_ v1) (routes_ v1) p1 in
  set_poll (evaluate_deadline now_ms p2 t) (set_routes (evaluate now_ms t) (set_neighbors s v1)).

(** ** Membership of the table *)

Definition admitted_neighbor (n : NodeId) (link_metric generation : Z) (scoped : bool) (x : Neighbor) : Neighbor :=
  let m := measured x in
  mkNeighbor n generation link_metric link_metric (last_cost_relax_ms x) 0
    (mkMeasured no_exchange no_sojourn no_rtt (metric_window_dirty m) (metric_sources m)) no_busy
    (feedback x) (mkPeerWindow kPeerWindowInitial 0) no_capability scoped true.

(** The slot of the record, with the generation it keeps: the peer's own, a
    free one, or one whose peer departed. *)
Definition neighbor_slot (n : NodeId) (s : Slots.slots Neighbor) : option (nat * Neighbor) * Slots.slots Neighbor :=
  match Slots.find (λ x, bool_decide (nb_node x = n)) s with
  | Some i => (pair i <$> Slots.at_ i s, s)
  | None =>
      match Slots.allocate empty_neighbor s with
      | (Some i, s1) => (Some (i, empty_neighbor), s1)
      | (None, s1) =>
          match Slots.find (λ x, negb (active x)) s1 with
          | Some i => ((λ x, (i, mkNeighbor (nb_node x) 0 (metric x) (link_cost x) (last_cost_relax_ms x)
                                   (consecutive_failures x) (measured x) (busy x) (mkFeedback false kNoFeedbackSeq)
                                   (window x) (capability x) (pull_answer_pending x) (active x)))
                         <$> Slots.at_ i s1, s1)
          | None => (None, s1)
          end
      end
  end.

Definition consider_direct (n : NodeId) (generation link_metric now_ms lifetime : Z) (t : RouteTable)
  : RouteUpdateResult * RouteTable :=
  let ad := mkAd n generation 0 0 in
  match consider ad n link_metric now_ms lifetime t with
  | (NoCapacityResult, t1) =>
      match reclaim_tombstone t1 with
      | (true, t2) => consider ad n link_metric now_ms lifetime t2
      | (false, t2) => (NoCapacityResult, t2)
      end
  | r => r
  end.

Definition add_neighbor (n : NodeId) (link_metric now_ms : Z) : M LoadNode unit := guarded (λ v,
  if negb (started_ v) || bool_decide (n = kInvalidNodeId) || bool_decide (n = config_node v) ||
     bool_decide (link_metric = 0) || bool_decide (link_metric = kInfiniteRouteMetric)
  then (Err InvalidArgument "invalid neighbor", v)
  else
    match neighbor_slot n (neighbors_ v) with
    | (None, s) => (Err NoCapacity "neighbor table full", set_neighbors s v)
    | (Some (i, x), s) =>
        let x1 := admitted_neighbor n link_metric (nb_generation x) (gateway_scoped v) x in
        let v1 := set_neighbors (Slots.set i x1 s) v in
        match consider_direct n (nb_generation x1) link_metric now_ms (route_lifetime_ms v) (routes_ v1) with
        | (NoCapacityResult, t) =>
            (Err NoCapacity "route table full", set_routes t (set_neighbors (Slots.set i (set_active false x1) s) v1))
        | (_, t) =>
            (Ok tt, set_revision (u32 (config_revision_ v + 1))
                      (if gateway_scoped v then next_route_advertisement_ms_ v else now_ms) (set_routes t v1))
        end
    end).

(** With [drop_neighbor_locked]; the sequence of the node's own record and the
    triggered advertisement are not part of this state. *)
Definition remove_neighbor (n : NodeId) (now_ms : Z) : M LoadNode unit := guarded (λ v,
  match find_neighbor n v with
  | None => (Err NotFound "neighbor not found", v)
  | Some _ =>
      let v1 := on_neighbor n (set_active false) v in
      let t := clear_next_hop_busy n (invalidate_next_hop n now_ms true (routes_ v1)) in
      (Ok tt, set_revision (u32 (config_revision_ v1 + 1)) (next_route_advertisement_ms_ v1) (set_routes t v1))
  end).

(** ** Reports and queries *)

Definition note_peer_stale (n : NodeId) : M LoadNode unit := guarded (λ v,
  (Ok tt, on_neighbor n (λ x,
     let y := reset_neighbor_measurement x in
     let c := capability y in
     set_capability (mkCapability false 0 0 (cap_node_boot c) (last_cap_exchange_ms c)) y) v)).

Definition note_peer_pressure (n : NodeId) (pressure sequence now_ms : Z) : M LoadNode unit := guarded (λ v,
  match neighbor_of n v with
  | Some x =>
      if negb (active x) then (Ok tt, v)
      else match note_pressure pressure sequence now_ms x with
           | None => (Ok tt, set_stale (u64 (busy_stale v + 1)) v)
           | Some y => (Ok tt, on_neighbor n (λ _, y) v)
           end
  | None => (Ok tt, v)
  end).

Definition set_peer_busy_capable (n : NodeId) (capable : bool) (last_clock_ms : Z) : M LoadNode unit := guarded (λ v,
  (Ok tt, on_neighbor n (λ x,
     let c := capability x in
     set_capability (mkCapability capable (if capable then kCapBusyV1 else 0)
                       (if capable then u64 (last_clock_ms + kCapabilitiesValidityMs) else 0)
                       (cap_node_boot c) (last_cap_exchange_ms c)) x) v)).

Definition peer_link_cost (n : NodeId) (v : LoadNode) : Z :=
  match neighbor_of n v with Some x => link_cost x | None => kInfiniteRouteMetric end.
Definition peer_busy_since (n : NodeId) (v : LoadNode) : Z :=
  match neighbor_of n v with
  | Some x => if busy_active (busy x) then Z.max 1 (busy_since_ms (busy x)) else 0
  | None => 0
  end.
Definition peer_busy_capable (n : NodeId) (now_ms : Z) (v : LoadNode) : bool :=
  match neighbor_of n v with
  | Some x => busy_capable (capability x) && bool_decide (now_ms < cap_valid_until_ms (capability x))
  | None => false
  end.
Definition effective_hop_timeout_ms (n : NodeId) (v : LoadNode) : Z :=
  match neighbor_of n v with
  | Some x =>
      let r := rtt (measured x) in
      if bool_decide (hop_rtt_samples r = 0) then hop_accept_timeout_ms v
      else u32 (Z.min kLinkRtoMaxMs (Z.max kLinkRtoMinMs (u64 (hop_rtt_ewma_ms r * kLinkRtoMargin))))
  | None => hop_accept_timeout_ms v
  end.

(** ** Route records of a neighbour *)

(** The generation after the records, and whether a restart shows in them. *)
Definition restart_step (n : NodeId) (state : Z * bool) (ad : RouteAdvertisement) : Z * bool :=
  if bool_decide (ad_destination ad = n) && bool_decide (fst state < ad_generation ad)
  then (ad_generation ad, negb (bool_decide (fst state = 0))) else state.
Definition with_generation (g : Z) (x : Neighbor) : Neighbor :=
  mkNeighbor (nb_node x) g (metric x) (link_cost x) (last_cost_relax_ms x) (consecutive_failures x) (measured x) (busy x)
    (feedback x) (window x) (capability x) (pull_answer_pending x) (active x).

Definition consider_record (self n : NodeId) (cost now_ms lifetime : Z) (t : RouteTable) (ad : RouteAdvertisement) : RouteTable :=
  if bool_decide (ad_destination ad = self) then t else snd (consider ad n cost now_ms lifetime t).

(** The triggered advertisement and the tree roles and group-child leases of
    [note_scoped_update] and [note_flat_group_update] are not part of this
    state, and route costs do not depend on them. *)
Definition apply_route_records (records : list RouteAdvertisement) (n : NodeId) (now_ms : Z) (pairwise : bool) (v : LoadNode)
  : LoadNode :=
  match neighbor_of n v with
  | None => v
  | Some x =>
      if negb (active x) then v
      else
        let '(g, restarted) := fold_left (restart_step n) records (nb_generation x, false) in
        let x1 := with_generation g x in
        let x2 := if restarted && pairwise then reset_neighbor_measurement x1 else x1 in
        let t1 := if restarted then invalidate_next_hop n now_ms false (routes_ v) else routes_ v in
        set_routes (fold_left (consider_record (config_node v) n (link_cost x2) now_ms (route_lifetime_ms v)) records t1)
          (on_neighbor n (λ _, x2) v)
  end.
