(* ===== verification/LinkCostProps.v ===== *)
(** * What link costs promise

    A neighbour's cost never falls below its nominal metric, whatever is
    measured; when the load is gone it returns to the nominal metric within a
    fixed number of refreshes; and the costs stored in the route table are
    those of the links. *)

From S2P Require Import Prelude Types Wire FixedContainers Routing Congestion Scheduler LinkCost.

(** ** Ranges of one neighbour *)

Record nb_ok (x : Neighbor) : Prop := {
  ok_metric : 1 ≤ metric x < kInfiniteRouteMetric;
  ok_cost : metric x ≤ link_cost x ≤ kInfiniteRouteMetric;
  ok_work : is_u32 (exchange_work (exchange (measured x)));
  ok_accepts : is_u32 (exchange_accepts (exchange (measured x)));
  ok_sojourn : is_u32 (queue_sojourn_ewma_ms (sojourn (measured x)));
  ok_rtt : is_u32 (hop_rtt_ewma_ms (rtt (measured x)));
  ok_window : kPeerWindowMin ≤ tx_window (window x) ≤ kPeerWindowMax;
  ok_streak : 0 ≤ window_accepts (window x) ≤ kWindowGrowAccepts }.

Lemma zero_u32 : is_u32 0.
Proof. split; lia. Qed.

Lemma decay_range k y : is_u32 y → 0 ≤ k → is_u32 (decay k y) ∧ decay k y ≤ y.
Proof.
  intros [Hy0 Hy] Hk. unfold decay. case_bool_decide; [split; [split|]; lia|].
  rewrite Z.shiftr_div_pow2 by done. pose proof (Z.pow_pos_nonneg 2 k ltac:(lia) Hk) as Hp.
  pose proof (Z.div_pos y (2 ^ k) Hy0 Hp). pose proof (Z.div_le_upper_bound y (2 ^ k) y Hp ltac:(nia)). split; [split|]; lia.
Qed.

Lemma elapsed_nonneg now anchor : 0 ≤ elapsed_windows now anchor.
Proof.
  unfold elapsed_windows. pose proof (wrap_range 64 (now - anchor) ltac:(lia)) as [H _]. apply Z.div_pos; [done|].
  unfold kObservationWindowMs. lia.
Qed.

Lemma ewma_range e s k : is_u32 e → is_u32 s → is_u32 (ewma_add e s k).
Proof. intros [] []. pose proof (ewma_between e s k ltac:(by split) ltac:(by split)). split; lia. Qed.

Lemma pending_nonneg v n : 0 ≤ pending_work v n.
Proof. unfold pending_work. by apply wrap_range. Qed.

Lemma link_base_ge p x : nb_ok x → 0 ≤ p → metric x ≤ link_base p x ≤ kInfiniteRouteMetric.
Proof.
  intros [Hm _ Hw Ha _ _ _ _] Hp. unfold link_base. case_bool_decide; [|lia].
  assert (Hs : is_u32 (if bool_decide (p < exchange_work (exchange (measured x)))
                       then exchange_work (exchange (measured x)) - p else 0)).
  { destruct Hw. case_bool_decide; split; lia. }
  pose proof (measured_link_base_ge (metric x) _ (exchange_accepts (exchange (measured x))) ltac:(lia) Hs Ha).
  destruct (_ || _); lia.
Qed.

Lemma multiple_range occupancy refusal now x :
  nb_ok x → is_u32 occupancy → 0 ≤ congestion_multiple occupancy refusal now x ≤ kQueuePenaltyMaxMultiple.
Proof.
  intros Hx Ho. unfold congestion_multiple. cbv zeta.
  set (q := if _ && _ then queue_sojourn_ewma_ms _ else 0).
  assert (Hq : is_u32 q) by (unfold q; destruct (_ && _); [apply Hx|apply zero_u32]). clearbody q.
  pose proof (queue_penalty_steps_range q Hq). pose proof (refusal_penalty_steps_range occupancy Ho).
  assert (0 ≤ kQueuePenaltyMaxMultiple) by (unfold kQueuePenaltyMaxMultiple; lia).
  destruct (refusal_floor_active _ _ _), (negb _ || negb _); repeat case_bool_decide; lia.
Qed.

Lemma occupancy_range s : is_u32 (occupancy_percent s).
Proof. unfold occupancy_percent. apply wrap_range. lia. Qed.

Lemma link_target_ge v now x : nb_ok x → metric x ≤ link_target v now x ≤ kInfiniteRouteMetric.
Proof.
  intros Hx. unfold link_target. pose proof (link_base_ge _ x Hx (pending_nonneg v (nb_node x))) as Hb.
  pose proof (multiple_range _ (last_refusal_ms_ v) now x Hx (occupancy_range (scheduler_ v))) as Hm.
  pose proof (ok_metric _ Hx). rewrite penalized_cost_formula by lia. nia.
Qed.

Lemma metric_u16 y : 0 ≤ y ≤ kInfiniteRouteMetric → is_u16 y.
Proof. unfold kInfiniteRouteMetric, UINT16_MAX. intros []. split; lia. Qed.

(** The cost moves to the target at once when that is worse, and otherwise
    stays between the target and where it was. *)
Lemma slew_spec pending target base now x :
  0 ≤ target ≤ kInfiniteRouteMetric → 0 ≤ link_cost x ≤ kInfiniteRouteMetric →
  target ≤ fst (slew pending target base now x) ≤ Z.max target (link_cost x).
Proof.
  intros Ht Hc. unfold slew. case_bool_decide; [cbn; lia|]. destruct (_ && _); cbn; [|lia].
  pose proof (relax_link_cost_between (link_cost x) target base (metric_u16 _ Hc) (metric_u16 _ Ht) ltac:(lia)). lia.
Qed.

(** ** One refresh of one neighbour *)

Definition refreshed (v : LoadNode) (now : Z) (x : Neighbor) : Neighbor :=
  if negb (active x) then x
  else
    let y := roll now x in
    let pending := pending_work v (nb_node y) in
    let r := slew pending (link_target v now y) (link_base pending y) now y in
    set_cost (fst r) (if snd r then now else last_cost_relax_ms y) y.

Lemma refreshed_node w now x : nb_node (refreshed w now x) = nb_node x.
Proof. unfold refreshed. by destruct (negb (active x)). Qed.

Lemma refreshed_active w now x : active (refreshed w now x) = active x.
Proof. unfold refreshed. by destruct (negb (active x)). Qed.

Lemma refresh_one_fst v now x t p : fst (fst (refresh_one v now x t p)) = refreshed v now x.
Proof.
  unfold refresh_one, refreshed, refresh_link_cost. destruct (negb (active x)); [done|].
  by destruct (slew _ _ _ now (roll now x)) as [c r].
Qed.

Lemma refresh_each_fst v now s : ∀ t p, fst (fst (refresh_each v now s t p)) = Slots.for_each (refreshed v now) s.
Proof.
  induction s as [|[x|] s IH]; intros t p; cbn [refresh_each]; [done| |].
  - pose proof (refresh_one_fst v now x t p) as Hx. destruct (refresh_one v now x t p) as [[y t1] p1]. cbn in Hx. subst y.
    specialize (IH t1 p1). destruct (refresh_each v now s t1 p1) as [[s2 t2] p2]. cbn in *. by rewrite IH.
  - specialize (IH t p). destruct (refresh_each v now s t p) as [[s2 t2] p2]. cbn in *. by rewrite IH.
Qed.

Lemma roll_sojourn_range now m : is_u32 (queue_sojourn_ewma_ms (sojourn m)) →
  is_u32 (queue_sojourn_ewma_ms (sojourn (roll_sojourn now m))).
Proof.
  intros H. unfold roll_sojourn. cbv zeta. repeat case_bool_decide; [done|done|]. by apply decay_range, elapsed_nonneg.
Qed.
Lemma roll_exchange_range now m :
  is_u32 (exchange_work (exchange m)) → is_u32 (exchange_accepts (exchange m)) →
  is_u32 (exchange_work (exchange (roll_exchange now m))) ∧ is_u32 (exchange_accepts (exchange (roll_exchange now m))).
Proof.
  intros Hw Ha. unfold roll_exchange. cbv zeta. repeat case_bool_decide; [done|done|].
  by split; apply decay_range, elapsed_nonneg.
Qed.
Lemma roll_exchange_sojourn now m : sojourn (roll_exchange now m) = sojourn m ∧ rtt (roll_exchange now m) = rtt m.
Proof. unfold roll_exchange. cbv zeta. by repeat case_bool_decide. Qed.
Lemma roll_sojourn_exchange now m :
  exchange (roll_sojourn now m) = exchange m ∧ rtt (roll_sojourn now m) = rtt m ∧
  metric_window_dirty (roll_sojourn now m) = metric_window_dirty m.
Proof. unfold roll_sojourn. cbv zeta. by repeat case_bool_decide. Qed.

(** A neighbour with new measurements, busy state or window keeps its ranges
    when the new values are in range. *)
Lemma nb_ok_set x m b f w c :
  nb_ok x → is_u32 (exchange_work (exchange m)) → is_u32 (exchange_accepts (exchange m)) →
  is_u32 (queue_sojourn_ewma_ms (sojourn m)) → is_u32 (hop_rtt_ewma_ms (rtt m)) →
  kPeerWindowMin ≤ tx_window w ≤ kPeerWindowMax → 0 ≤ window_accepts w ≤ kWindowGrowAccepts →
  nb_ok (set_capability c (set_window w (set_feedback f (set_busy b (set_measured m x))))).
Proof. by intros [] ???? ?. Qed.

Lemma roll_ok now x : nb_ok x → nb_ok (roll now x).
Proof.
  intros Hx. pose proof Hx as [_ _ Hw Ha Hs Hr Hwin Hst].
  destruct (roll_exchange_range now _ Hw Ha) as [Hw' Ha'].
  destruct (roll_exchange_sojourn now (measured x)) as [Es Er].
  destruct (roll_sojourn_exchange now (roll_exchange now (measured x))) as (Ex & Er' & _).
  apply (nb_ok_set x (roll_sojourn now (roll_exchange now (measured x))) (expire_busy now (busy x)) (feedback x) (window x) (capability x));
    rewrite ?Ex, ?Er', ?Er; try done. apply roll_sojourn_range. by rewrite Es.
Qed.

Lemma set_cost_ok cost at_ms x : nb_ok x → metric x ≤ cost ≤ kInfiniteRouteMetric → nb_ok (set_cost cost at_ms x).
Proof. by intros [] ?. Qed.

Lemma refreshed_ok v now x : nb_ok x → nb_ok (refreshed v now x).
Proof.
  intros Hx. unfold refreshed. destruct (negb (active x)); [done|]. pose proof (roll_ok now x Hx) as Hy.
  cbv zeta. set (y := roll now x) in *. clearbody y. clear Hx. apply set_cost_ok; [done|].
  pose proof (ok_metric _ Hy). pose proof (ok_cost _ Hy). pose proof (link_target_ge v now y Hy).
  pose proof (slew_spec (pending_work v (nb_node y)) (link_target v now y) (link_base (pending_work v (nb_node y)) y) now y
    ltac:(lia) ltac:(lia)). lia.
Qed.

(** ** Runs *)

(** What the transmit and receive paths record about a neighbour. *)
Inductive touch :=
  | TSubmit (job : TxJob) (now : Z) | TAccept | TFinish (sampled : bool) (rtt_ms : Z) | TTaint
  | TReport (sequence now : Z) | THint (pressure now : Z) | TReject (pressure now : Z).

Definition touched (t : touch) (x : Neighbor) : Neighbor :=
  match t with
  | TSubmit job now => record_submission job now x
  | TAccept => record_accept x
  | TFinish sampled rtt_ms => finish_hop_accept sampled rtt_ms x
  | TTaint => taint_window x
  | TReport sequence now => snd (busy_report sequence now x)
  | THint pressure now => pressure_hint pressure now x
  | TReject pressure now => busy_reject pressure now x
  end.

Inductive op :=
  | OAdd (n : NodeId) (link_metric now : Z) | ORemove (n : NodeId) (now : Z)
  | OTouch (n : NodeId) (t : touch)
  | OPressure (n : NodeId) (pressure sequence now : Z) | OStale (n : NodeId) | OCapable (n : NodeId) (b : bool) (now : Z)
  | ORefresh (now : Z) | ORecords (records : list RouteAdvertisement) (n : NodeId) (now : Z) (pairwise : bool)
  | OExpire (now : Z)
  | OTraffic (s : TxScheduler) (p : option TxJob) (a : list AwaitingHop).

Definition step (o : op) (v : LoadNode) : LoadNode :=
  match o with
  | OAdd n m now => snd (add_neighbor n m now v)
  | ORemove n now => snd (remove_neighbor n now v)
  | OTouch n t => on_neighbor n (touched t) v
  | OPressure n p s now => snd (note_peer_pressure n p s now v)
  | OStale n => snd (note_peer_stale n v)
  | OCapable n b now => snd (set_peer_busy_capable n b now v)
  | ORefresh now => refresh_neighbor_load now v
  | ORecords rs n now pw => apply_route_records rs n now pw v
  | OExpire now => set_routes (expire now (routes_ v)) v
  | OTraffic s p a => set_traffic s p a v
  end.

(** Arguments are values of their C++ types. *)
Definition typed (o : op) : Prop :=
  match o with
  | OAdd _ m _ => is_u16 m
  | OTouch _ (TFinish _ rtt_ms) => is_u32 rtt_ms
  | _ => True
  end.

Lemma grow_window_ok w :
  kPeerWindowMin ≤ tx_window w ≤ kPeerWindowMax → 0 ≤ window_accepts w ≤ kWindowGrowAccepts →
  kPeerWindowMin ≤ tx_window (grow_window w) ≤ kPeerWindowMax ∧ 0 ≤ window_accepts (grow_window w) ≤ kWindowGrowAccepts.
Proof.
  unfold grow_window, kPeerWindowMin, kPeerWindowMax, kWindowGrowAccepts. intros Hw Ha. cbv zeta.
  destruct (bool_decide (window_accepts w < 8)) eqn:H1; destruct (_ && _) eqn:Hg; bdec; cbn [tx_window window_accepts]; lia.
Qed.

Lemma touched_ok t x :
  nb_ok x → match t with TFinish _ rtt_ms => is_u32 rtt_ms | _ => True end → nb_ok (touched t x).
Proof.
  intros Hx Ht. pose proof Hx as [_ _ Hw Ha Hs Hr Hwin Hst]. unfold kPeerWindowMin, kPeerWindowMax, kWindowGrowAccepts in *.
  assert (Hinc : ∀ k, is_u32 (u32 (k + 1))) by (intros; apply wrap_range; lia).
  destruct t as [job now| |sampled rtt_ms| |sequence now|pressure now|pressure now]; cbn [touched].
  - assert (Hew : ∀ e k y, is_u32 e → is_u32 (ewma_add e (u32 y) k)) by (intros; apply ewma_range; [done|apply wrap_range; lia]).
    unfold record_submission. cbv zeta. destruct (requires_hop_accept job); destruct Hx; split; cbn; auto.
  - unfold record_accept. cbv zeta. destruct Hx; split; cbn; auto.
  - destruct (grow_window_ok (window x) (ok_window _ Hx) (ok_streak _ Hx)).
    unfold finish_hop_accept. destruct sampled; cbv zeta; destruct Hx; split; cbn [measured window exchange rtt set_window set_busy on_measured set_measured set_rtt metric link_cost hop_rtt_ewma_ms sojourn]; auto using ewma_range.
  - destruct Hx; split; cbn; auto.
  - unfold busy_report. cbv zeta. destruct (feedback_stale _ _); destruct Hx; split; cbn; auto.
  - unfold pressure_hint. cbv zeta. case_bool_decide; destruct Hx; split; cbn; auto;
      unfold kPeerWindowMin, kPeerWindowMax, kWindowGrowAccepts in *; try case_bool_decide; lia.
  - unfold busy_reject. destruct Hx; split; cbn; auto; unfold kPeerWindowMin, kPeerWindowMax, kWindowGrowAccepts in *; lia.
Qed.

(** A property of every record of the table. *)
Definition each_neighbor (P : Neighbor → Prop) (v : LoadNode) : Prop := ∀ i x, Slots.at_ i (neighbors_ v) = Some x → P x.

Lemma each_set (P : Neighbor → Prop) (s : Slots.slots Neighbor) i y :
  (∀ j x, Slots.at_ j s = Some x → P x) → P y → ∀ j x, Slots.at_ j (Slots.set i y s) = Some x → P x.
Proof.
  intros Hs Hy j x Hj. pose proof (at_lt _ _ _ Hj) as Hl. unfold Slots.set in Hl. rewrite length_insert in Hl.
  destruct (decide (i < length s)%nat) as [Hi|Hi].
  - rewrite at_set in Hj by done. destruct (decide (j = i)); simplify_eq; eauto.
  - unfold Slots.set in Hj. rewrite list_insert_ge in Hj by lia. eauto.
Qed.

Lemma on_neighbor_routes n f v : routes_ (on_neighbor n f v) = routes_ v.
Proof. unfold on_neighbor. by repeat case_match. Qed.

Lemma each_on_neighbor (P : Neighbor → Prop) n f v :
  each_neighbor P v → (∀ x, neighbor_of n v = Some x → P x → P (f x)) → each_neighbor P (on_neighbor n f v).
Proof.
  intros Hv Hf. unfold on_neighbor, neighbor_of in *. destruct (find_neighbor n v) as [i|] eqn:Hi; [|done].
  cbn in Hf. destruct (Slots.at_ i (neighbors_ v)) as [x|] eqn:Hx; [|done].
  intros j y. cbn. apply each_set; [exact Hv|]. eapply Hf; [done|]. by eapply Hv.
Qed.

Lemma reset_ok x : nb_ok x → nb_ok (reset_neighbor_measurement x).
Proof. intros []. split; cbn; auto using zero_u32. lia. Qed.

Lemma capability_ok c x : nb_ok x → nb_ok (set_capability c x).
Proof. by intros []. Qed.

Lemma note_pressure_ok p s now x y : nb_ok x → note_pressure p s now x = Some y → nb_ok y.
Proof.
  intros Hx. unfold note_pressure. destruct (feedback_stale _ _); [done|]. cbv zeta. intros [= <-].
  case_bool_decide; by destruct Hx.
Qed.

Lemma admitted_ok n m g b x : 1 ≤ m < kInfiniteRouteMetric → nb_ok (admitted_neighbor n m g b x).
Proof. intros Hm. split; cbn; auto using zero_u32; unfold kPeerWindowMin, kPeerWindowInitial, kPeerWindowMax, kWindowGrowAccepts; lia. Qed.

Lemma neighbor_slot_spec n s r s' :
  neighbor_slot n s = (r, s') →
  (∀ i x, r = Some (i, x) → i < length s')%nat ∧
  ∀ j y, Slots.at_ j s' = Some y → Slots.at_ j s = Some y ∨ ∃ x, r = Some (j, x).
Proof.
  unfold neighbor_slot. destruct (Slots.find _ s) as [i|] eqn:Hf.
  { apply slots_find_at in Hf as (x & _ & Hx & _). rewrite Hx. intros [= <- <-]. split; [|by left].
    intros ?? [= <- <-]. by eapply at_lt. }
  unfold Slots.allocate. destruct (Slots.first_free s) as [i|] eqn:Hi.
  { intros [= <- <-]. apply Slots.first_free_Some in Hi. apply lookup_lt_Some in Hi as Hl. split.
    - intros ?? [= <- <-]. by rewrite length_insert.
    - intros j y Hj. pose proof (at_set s i j empty_neighbor Hl) as He. unfold Slots.set in He. rewrite He in Hj.
      destruct (decide (j = i)) as [->|]; eauto. }
  cbv beta iota. destruct (Slots.find (λ x, negb (active x)) s) as [i|] eqn:Hg.
  - apply slots_find_at in Hg as (x & _ & Hx & _). rewrite Hx. intros [= <- <-]. split; [|by left].
    intros ?? [= <- <-]. by eapply at_lt.
  - intros [= <- <-]. split; [done|by left].
Qed.

Lemma each_slot (P : Neighbor → Prop) n s i x s' y :
  neighbor_slot n s = (Some (i, x), s') → (∀ j z, Slots.at_ j s = Some z → P z) → P y →
  ∀ j z, Slots.at_ j (Slots.set i y s') = Some z → P z.
Proof.
  intros Hs HP Hy j z Hj. destruct (neighbor_slot_spec _ _ _ _ Hs) as [Hi Hold].
  rewrite at_set in Hj by eauto. destruct (decide (j = i)) as [->|Hne]; [by simplify_eq|].
  destruct (Hold j z Hj) as [|[x' ?]]; [eauto|congruence].
Qed.

(** [add_neighbor] writes one record, active or not, at the nominal cost. *)
Lemma add_neighbor_spec n m now v (P : Neighbor → Prop) :
  each_neighbor P v → is_u16 m →
  (∀ g b x a, 1 ≤ m < kInfiniteRouteMetric → P (set_active a (admitted_neighbor n m g b x))) →
  each_neighbor P (snd (add_neighbor n m now v)).
Proof.
  intros Hv [Hm0 Hm] HP. unfold add_neighbor, guarded. destruct (in_call_ v); [done|].
  destruct (_ || _) eqn:Hbad; [done|]. bdec. destruct Hbad as ((((_ & _) & _) & Hz) & Hinf).
  assert (Hm' : 1 ≤ m < kInfiniteRouteMetric) by (unfold kInfiniteRouteMetric, UINT16_MAX in *; lia).
  destruct (neighbor_slot n (neighbors_ v)) as [[[i x]|] s] eqn:Hs; [|].
  - cbv zeta. destruct (consider_direct _ _ _ _ _ _) as [[] t]; cbn [snd]; intros j z;
      try (cbn; eapply (each_slot P); [done|done|]; by apply (HP _ _ x true)).
    cbn. eapply (each_slot P); [done|done|]. by apply (HP _ _ x false).
  - cbn [snd]. intros j z Hj. destruct (neighbor_slot_spec _ _ _ _ Hs) as [_ Hold].
    destruct (Hold j z Hj) as [|[? ?]]; [eauto|done].
Qed.

Lemma each_refresh (P : Neighbor → Prop) now v :
  each_neighbor P v → (∀ w x, neighbors_ w = neighbors_ v → P x → P (refreshed w now x)) →
  each_neighbor P (refresh_neighbor_load now v).
Proof.
  intros Hv Hf. unfold refresh_neighbor_load. cbv zeta.
  set (w := if bool_decide _ then v else _). assert (Hw : neighbors_ w = neighbors_ v) by (unfold w; by case_bool_decide).
  clearbody w. set (p := if _ && _ then _ else _). clearbody p.
  pose proof (refresh_each_fst w now (neighbors_ w) (routes_ w) p) as He.
  destruct (refresh_each w now (neighbors_ w) (routes_ w) p) as [[s t] p2]. cbn in He. subst s. intros j z. cbn.
  rewrite Hw, slots_at_for_each. destruct (Slots.at_ j (neighbors_ v)) as [x|] eqn:Hx; cbn; [|done]. intros [= <-].
  apply Hf; [done|]. by eapply Hv.
Qed.

Lemma each_records (P : Neighbor → Prop) rs n now pw v :
  each_neighbor P v →
  (∀ x g, neighbor_of n v = Some x → P x → P (with_generation g x) ∧ P (reset_neighbor_measurement (with_generation g x))) →
  each_neighbor P (apply_route_records rs n now pw v).
Proof.
  intros Hv Hf. unfold apply_route_records. destruct (neighbor_of n v) as [x|] eqn:Hx; [|done].
  destruct (negb (active x)); [done|]. destruct (fold_left _ _ _) as [g r]. cbv zeta.
  set (y := if r && pw then _ else _). intros j z. cbn. apply (each_on_neighbor P n (λ _, y) v Hv).
  intros x' Hx' Px'. rewrite Hx in Hx'. injection Hx' as <-. destruct (Hf x g eq_refl Px') as [H1 H2].
  unfold y. by destruct (r && pw).
Qed.

Lemma step_nb_ok o v : typed o → each_neighbor nb_ok v → each_neighbor nb_ok (step o v).
Proof.
  intros Ht Hv. destruct o as [n m now|n now|n t|n p s now|n|n b now|now|rs n now pw|now|s p a]; cbn [step].
  - apply add_neighbor_spec; [done|done|]. intros g b x a Hm. by destruct (admitted_ok n m g b x Hm).
  - unfold remove_neighbor, guarded. destruct (in_call_ v); [done|]. destruct (find_neighbor n v); [|done].
    intros j z. cbn. apply (each_on_neighbor nb_ok n (set_active false) v Hv). by intros x _ [].
  - apply each_on_neighbor; [done|]. intros x _ Hx. apply touched_ok; [done|]. destruct t; done.
  - unfold note_peer_pressure, guarded. destruct (in_call_ v); [done|]. destruct (neighbor_of n v) as [x|] eqn:Hx; [|done].
    destruct (negb (active x)); [done|]. destruct (note_pressure p s now x) as [y|] eqn:Hy; [|done].
    apply each_on_neighbor; [done|]. intros x' Hx' Hok. rewrite Hx in Hx'. injection Hx' as <-. by eapply note_pressure_ok.
  - unfold note_peer_stale, guarded. destruct (in_call_ v); [done|]. apply each_on_neighbor; [done|].
    intros x _ Hx. by apply capability_ok, reset_ok.
  - unfold set_peer_busy_capable, guarded. destruct (in_call_ v); [done|]. apply each_on_neighbor; [done|].
    intros x _ Hx. by apply capability_ok.
  - apply each_refresh; [done|]. intros w x _. apply refreshed_ok.
  - apply each_records; [done|]. intros x g _ Hx. assert (nb_ok (with_generation g x)) by by destruct Hx. by split; [|apply reset_ok].
  - done.
  - done.
Qed.

(** Nodes reached from a start without neighbours. *)
Inductive reachable : LoadNode → Prop :=
  | reach_start v : (∀ i, Slots.at_ i (neighbors_ v) = None) → reachable v
  | reach_step v o : reachable v → typed o → reachable (step o v).

Lemma reachable_nb_ok v : reachable v → each_neighbor nb_ok v.
Proof. induction 1 as [v H0|v o _ IH Ht]; [intros i x Hx; by rewrite H0 in Hx|by apply step_nb_ok]. Qed.

Lemma neighbor_of_at n v x : neighbor_of n v = Some x → ∃ i, Slots.at_ i (neighbors_ v) = Some x ∧ nb_node x = n.
Proof.
  unfold neighbor_of, find_neighbor. intros (i & Hi & Hx)%bind_Some. exists i. split; [done|].
  apply slots_find_at in Hi as (y & _ & Hy & Hp). simplify_eq. by apply bool_decide_eq_true in Hp.
Qed.

(** After any run of joins, departures, samples, reports, route records and
    refreshes, a neighbour's cost lies between its nominal metric and the
    infinite metric, its window between the pinned limits, and once a round
    trip was measured its hop timeout within the clamped band: congestion and
    loss only make a link look worse. *)
Lemma link_cost_bounds v n x :
  reachable v → neighbor_of n v = Some x →
  1 ≤ metric x ≤ peer_link_cost n v ∧ peer_link_cost n v ≤ kInfiniteRouteMetric ∧
  kPeerWindowMin ≤ tx_window (window x) ≤ kPeerWindowMax ∧
  (hop_rtt_samples (rtt (measured x)) ≠ 0 → kLinkRtoMinMs ≤ effective_hop_timeout_ms n v ≤ kLinkRtoMaxMs).
Proof.
  intros Hr Hx. destruct (neighbor_of_at _ _ _ Hx) as (i & Hi & _). pose proof (reachable_nb_ok v Hr i x Hi) as Hok.
  unfold peer_link_cost, effective_hop_timeout_ms. rewrite Hx. destruct Hok as [Hm Hc _ _ _ Hrtt Hw _].
  split; [lia|]. split; [lia|]. split; [done|]. intros Hs. cbv zeta. rewrite bool_decide_eq_false_2 by done.
  unfold kLinkRtoMinMs, kLinkRtoMaxMs, kLinkRtoMargin in *. destruct Hrtt.
  rewrite (wrap_id 64) by (split; lia). rewrite wrap_id by (split; lia). lia.
Qed.
