(* ===== verification/LinkCostRun.v ===== *)
(** * Windows and recovery of link costs

    The computed window roll equals halving once per elapsed window, and the
    cost of a link whose load is gone returns to its nominal metric. *)

From S2P Require Import Prelude Types Wire FixedContainers Routing Congestion Scheduler LinkCost LinkCostProps.

(** ** Window rolls *)

(** The loop the computed roll replaces: one halving per elapsed window. *)
Fixpoint roll_loop (fuel : nat) (now anchor value : Z) : Z * Z :=
  match fuel with
  | O => (anchor, value)
  | S k => if bool_decide (kObservationWindowMs ≤ u64 (now - anchor))
           then roll_loop k now (u64 (anchor + kObservationWindowMs)) (value / 2)
           else (anchor, value)
  end.

Lemma halve_decay k y : is_u32 y → 0 ≤ k → decay k (y / 2) = decay (k + 1) y.
Proof.
  intros [Hy0 Hy] Hk. unfold decay. destruct (decide (32 ≤ k)) as [H1|H1].
  { by rewrite !bool_decide_eq_true_2 by lia. }
  rewrite (bool_decide_eq_false_2 (32 ≤ k)) by done. rewrite Z.shiftr_div_pow2 by done. rewrite Z.div_div by lia.
  change 2 with (2 ^ 1) at 1. rewrite <- Z.pow_add_r, Z.add_comm by lia. case_bool_decide.
  - apply Z.div_small. split; [done|]. replace (k + 1) with 32 by lia. done.
  - by rewrite Z.shiftr_div_pow2 by lia.
Qed.

Lemma decay_0 y : decay 0 y = y.
Proof. unfold decay. rewrite bool_decide_eq_false_2 by lia. apply Z.shiftr_0_r. Qed.

Lemma u64_shift x y : u64 (u64 x + y) = u64 (x + y).
Proof. unfold wrap. apply Z.add_mod_idemp_l. lia. Qed.
Lemma u64_sub x y : u64 (x - u64 y) = u64 (x - y).
Proof. unfold wrap. apply Zminus_mod_idemp_r. Qed.

Lemma advance_shift anchor k : advance anchor k = u64 (anchor + kObservationWindowMs * k).
Proof. unfold advance, wrap. apply Z.add_mod_idemp_r. lia. Qed.

Lemma advance_next anchor k : advance (u64 (anchor + kObservationWindowMs)) k = advance anchor (k + 1).
Proof. rewrite !advance_shift, u64_shift. f_equal. lia. Qed.

Lemma elapsed_next now anchor :
  kObservationWindowMs ≤ u64 (now - anchor) →
  elapsed_windows now anchor = elapsed_windows now (u64 (anchor + kObservationWindowMs)) + 1.
Proof.
  intros Hd. unfold elapsed_windows. rewrite u64_sub. pose proof (wrap_range 64 (now - anchor) ltac:(lia)) as [_ Hr].
  replace (u64 (now - (anchor + kObservationWindowMs))) with (u64 (now - anchor) - kObservationWindowMs).
  { replace (u64 (now - anchor)) with (u64 (now - anchor) - kObservationWindowMs + 1 * kObservationWindowMs) at 1 by lia.
    rewrite Z.div_add by (unfold kObservationWindowMs; lia). done. }
  rewrite <- (wrap_id 64 (u64 (now - anchor) - kObservationWindowMs)) by (unfold kObservationWindowMs in *; split; lia).
  unfold wrap. rewrite Zminus_mod_idemp_l. f_equal. lia.
Qed.

(** The computed roll is that loop, on every clock, and its anchor ends within
    a window of [now]. *)
Lemma window_roll_equivalent now anchor value fuel :
  is_u64 anchor → is_u32 value → (Z.to_nat (elapsed_windows now anchor) ≤ fuel)%nat →
  let k := elapsed_windows now anchor in
  roll_loop fuel now anchor value = (advance anchor k, decay k value) ∧ u64 (now - advance anchor k) < kObservationWindowMs.
Proof.
  revert anchor value. induction fuel as [|fuel IH]; intros anchor value Ha Hv Hf; cbv zeta.
  - pose proof (elapsed_nonneg now anchor). assert (Hk : elapsed_windows now anchor = 0) by lia. rewrite Hk, decay_0.
    rewrite advance_shift, Z.mul_0_r, Z.add_0_r, wrap_id by done. split; [done|].
    pose proof (Z.div_small_iff (u64 (now - anchor)) kObservationWindowMs ltac:(unfold kObservationWindowMs; lia)) as [Hs _].
    destruct (Hs Hk); [lia|unfold kObservationWindowMs in *; lia].
  - cbn [roll_loop]. destruct (bool_decide (kObservationWindowMs ≤ u64 (now - anchor))) eqn:Hd.
    + apply bool_decide_eq_true in Hd. pose proof (elapsed_next now anchor Hd) as He.
      pose proof (elapsed_nonneg now (u64 (anchor + kObservationWindowMs))).
      assert (Hh : is_u32 (value / 2)).
      { destruct Hv. split; [apply Z.div_pos; lia|]. apply Z.div_lt_upper_bound; lia. }
      destruct (IH (u64 (anchor + kObservationWindowMs)) (value / 2)) as [-> Hl]; [apply wrap_range; lia|done|lia|].
      rewrite advance_next, halve_decay, <- He in * by done. done.
    + apply bool_decide_eq_false in Hd. pose proof (wrap_range 64 (now - anchor) ltac:(lia)) as [Hp _].
      assert (Hk : elapsed_windows now anchor = 0) by (apply Z.div_small; lia). rewrite Hk, decay_0.
      rewrite advance_shift, Z.mul_0_r, Z.add_0_r, wrap_id by done. split; [done|lia].
Qed.

(** ** Recovery *)

(** A neighbour whose load stopped: nothing was sampled after [last], and [k]
    refreshes have passed since, each a window after the one before. *)
Record calm (k : nat) (last : Z) (x : Neighbor) : Prop := {
  cl_ok : nb_ok x;
  cl_active : active x = true;
  cl_exchange : let e := exchange (measured x) in
    (0 < exchange_window_ms e ≤ last ∧ exchange_accepts e * 2 ^ Z.of_nat k < 2 ^ 32) ∨
    (exchange_window_ms e = 0 ∧ exchange_work e = 0);
  cl_clean : metric_window_dirty (measured x) = true → k = 0%nat ∧ exchange_window_ms (exchange (measured x)) ≠ 0;
  cl_sojourn : 0 ≤ last_sojourn_ms (sojourn (measured x)) ∧
    last_sojourn_ms (sojourn (measured x)) + kObservationWindowMs * Z.of_nat k ≤ last;
  cl_relax : 0 ≤ last_cost_relax_ms x ≤ last }.

Definition quiet (v : LoadNode) (n : NodeId) : Prop :=
  pending_work v n = 0 ∧ occupancy_percent (scheduler_ v) < kRefusalStepWatermarkLowPercent.

Lemma elapsed_plain now anchor last :
  0 < anchor ≤ last → last + kObservationWindowMs ≤ now < 2 ^ 64 →
  1 ≤ elapsed_windows now anchor ∧ 0 < advance anchor (elapsed_windows now anchor) ≤ now.
Proof.
  unfold elapsed_windows, kObservationWindowMs. intros Ha Hn. rewrite (wrap_id 64 (now - anchor)) by (split; lia).
  pose proof (Z.div_mod (now - anchor) 2000 ltac:(lia)). pose proof (Z.mod_pos_bound (now - anchor) 2000 ltac:(lia)).
  rewrite advance_shift. unfold kObservationWindowMs. rewrite wrap_id by (split; lia). lia.
Qed.

Lemma decay_halves k n y : 1 ≤ k → is_u32 y → y * 2 ^ Z.of_nat n < 2 ^ 32 → decay k y * 2 ^ Z.of_nat (S n) < 2 ^ 32.
Proof.
  intros Hk Hy Hb. rewrite Nat2Z.inj_succ, Z.pow_succ_r by lia.
  replace k with (k - 1 + 1) by lia. rewrite <- halve_decay by (done || lia).
  assert (Hh : is_u32 (y / 2)) by (destruct Hy; split; [apply Z.div_pos|apply Z.div_lt_upper_bound]; lia).
  pose proof (decay_range (k - 1) (y / 2) Hh ltac:(lia)) as [[] ?]. pose proof (Z.mul_div_le y 2 ltac:(lia)).
  pose proof (Z.pow_pos_nonneg 2 (Z.of_nat n) ltac:(lia) ltac:(lia)). nia.
Qed.

Lemma roll_exchange_calm k last now m :
  is_u32 (exchange_accepts (exchange m)) → last + kObservationWindowMs ≤ now < 2 ^ 64 →
  ((0 < exchange_window_ms (exchange m) ≤ last ∧ exchange_accepts (exchange m) * 2 ^ Z.of_nat k < 2 ^ 32) ∨
   (exchange_window_ms (exchange m) = 0 ∧ exchange_work (exchange m) = 0)) →
  (metric_window_dirty m = true → k = 0%nat ∧ exchange_window_ms (exchange m) ≠ 0) →
  let m' := roll_exchange now m in
  ((0 < exchange_window_ms (exchange m') ≤ now ∧ exchange_accepts (exchange m') * 2 ^ Z.of_nat (S k) < 2 ^ 32) ∨
   (exchange_window_ms (exchange m') = 0 ∧ exchange_work (exchange m') = 0)) ∧ metric_window_dirty m' = false.
Proof.
  intros Hu Hn Hx Hd. cbv zeta. unfold roll_exchange. destruct Hx as [[Hw Ha]|[Hw Ha]].
  - rewrite bool_decide_eq_false_2 by lia. destruct (elapsed_plain now _ last Hw Hn) as [He Hadv].
    rewrite bool_decide_eq_false_2 by lia. cbn [exchange metric_window_dirty set_dirty set_exchange exchange_window_ms exchange_accepts].
    split; [|done]. left. split; [done|]. by apply decay_halves.
  - rewrite bool_decide_eq_true_2 by done. split; [by right|]. destruct (metric_window_dirty m); [|done].
    by destruct (Hd eq_refl).
Qed.

Lemma roll_calm k last now x :
  calm k last x → last + kObservationWindowMs ≤ now < 2 ^ 64 →
  calm (S k) now (roll now x) ∧ metric (roll now x) = metric x ∧ link_cost (roll now x) = link_cost x ∧
  nb_node (roll now x) = nb_node x ∧ last_cost_relax_ms (roll now x) ≤ last ∧ metric_window_dirty (measured (roll now x)) = false.
Proof.
  intros [Hok Hact Hx Hc Hs Hr] Hn. destruct (roll_exchange_calm k last now _ (ok_accepts _ Hok) Hn Hx Hc) as [Hx' Hd'].
  destruct (roll_sojourn_exchange now (roll_exchange now (measured x))) as (Ex & _ & Ed).
  destruct (roll_exchange_sojourn now (measured x)) as [Es _].
  assert (El : last_sojourn_ms (sojourn (measured (roll now x))) = last_sojourn_ms (sojourn (measured x))).
  { cbn. unfold roll_sojourn. cbv zeta. rewrite Es. repeat case_bool_decide; cbn; by rewrite ?Es. }
  assert (Edr : metric_window_dirty (measured (roll now x)) = false) by (cbn; by rewrite Ed).
  split; [|by destruct Hr].

  split; [by apply roll_ok|done| | | |].
  - cbn. by rewrite Ex.
  - by rewrite Edr.
  - rewrite El. rewrite Nat2Z.inj_succ. unfold kObservationWindowMs in *. lia.
  - cbn. unfold kObservationWindowMs in *. lia.
Qed.

Lemma measured_idle nominal accepts :
  1 ≤ nominal < kInfiniteRouteMetric → is_u32 accepts → measured_link_base nominal 0 accepts = nominal.
Proof.
  intros Hn [Ha _]. unfold measured_link_base. rewrite (bool_decide_eq_false_2 (nominal = _)) by lia.
  rewrite (bool_decide_eq_false_2 (nominal = 0)) by lia. by rewrite (bool_decide_eq_true_2 (0 ≤ accepts)), orb_true_r.
Qed.

(** Once the window holds fewer than four accepts and the last sample is
    stale, the target is the nominal metric. *)
Lemma calm_target v k now y :
  calm k now y → (30 ≤ k)%nat → quiet v (nb_node y) → now < 2 ^ 64 →
  link_base (pending_work v (nb_node y)) y = metric y ∧ link_target v now y = metric y.
Proof.
  intros [Hok _ Hx Hc Hs _] Hk [Hp Ho] Hn.
  assert (Hb : link_base (pending_work v (nb_node y)) y = metric y).
  { unfold link_base. cbv zeta in *. rewrite Hp. destruct Hx as [[_ Ha]|[_ Hw]].
    - rewrite bool_decide_eq_false_2; [done|]. unfold kExchangeMinAccepts.
      pose proof (Z.pow_le_mono_r 2 30 (Z.of_nat k) ltac:(lia) ltac:(lia)). destruct (ok_accepts _ Hok). nia.
    - rewrite Hw. case_bool_decide; [|done]. rewrite (bool_decide_eq_false_2 (0 < 0)) by lia.
      rewrite (measured_idle (metric y)) by (apply Hok). by destruct (_ || _). }
  split; [done|]. unfold link_target. rewrite Hb.
  assert (Hm : congestion_multiple (occupancy_percent (scheduler_ v)) (last_refusal_ms_ v) now y = 0).
  { unfold congestion_multiple. cbv zeta. unfold refusal_floor_active.
    rewrite (bool_decide_eq_false_2 (kRefusalStepWatermarkLowPercent ≤ _)) by lia.
    cbn [andb]. unfold kObservationWindowMs in *. rewrite (bool_decide_eq_false_2 (u64 _ ≤ _)), andb_false_r; [done|].
    rewrite wrap_id by (split; lia). lia. }
  rewrite Hm. pose proof (ok_metric _ Hok). rewrite penalized_cost_formula by (unfold kQueuePenaltyMaxMultiple; lia). lia.
Qed.

(** A refresh in this state is one relax step toward the nominal metric. *)
Lemma calm_refresh v k last now x :
  calm k last x → last + kObservationWindowMs ≤ now < 2 ^ 64 → quiet v (nb_node x) →
  let z := refreshed v now x in
  calm (S k) now z ∧ metric z = metric x ∧ nb_node z = nb_node x ∧
  ((29 ≤ k)%nat → link_cost z = relax_link_cost (link_cost x) (metric x) (metric x)).
Proof.
  intros Hc Hn Hq. destruct (roll_calm k last now x Hc Hn) as (Hy & Em & El & En & Hr & Hd). cbv zeta.
  unfold refreshed. rewrite (cl_active _ _ _ Hc). cbn [negb]. cbv zeta. set (y := roll now x) in *. rewrite En in *.
  pose proof (refreshed_ok v now x (cl_ok _ _ _ Hc)) as Hz. unfold refreshed in Hz. rewrite (cl_active _ _ _ Hc) in Hz.
  cbn [negb] in Hz. cbv zeta in Hz. fold y in Hz. rewrite En in Hz.
  pose proof Hy as [Hok Ha Hx Hcl Hs Hrel]. destruct Hq as [Hp Ho].
  split; [|split; [done|split; [done|]]].
  - split; try done. cbn. destruct (snd _); [unfold kObservationWindowMs in *; lia|done].
  - intros Hk. destruct (calm_target v (S k) now y Hy ltac:(lia)) as [Hb Ht]; [by rewrite En|lia|].
    rewrite En in Hb. cbn [link_cost set_cost]. rewrite Hb, Ht, Hp, Em. unfold slew. rewrite El, Hd.
    pose proof (ok_cost _ (cl_ok _ _ _ Hc)) as Hcost. pose proof (ok_metric _ (cl_ok _ _ _ Hc)).
    destruct (bool_decide (link_cost x ≤ metric x)) eqn:Hle.
    + apply bool_decide_eq_true in Hle. cbn. assert (link_cost x = metric x) as -> by lia. symmetry.
      apply relax_link_cost_snaps; [apply metric_u16; lia..|lia].
    + rewrite bool_decide_eq_true_2 by done. cbn [negb andb].
      rewrite bool_decide_eq_true_2; [done|]. unfold kLinkCostRelaxWindowMs, kObservationWindowMs in *.
      rewrite wrap_id by (split; lia). lia.
Qed.

(** ** Runs of refreshes *)

Definition refresh_run (times : list Z) (v : LoadNode) : LoadNode := fold_left (λ w t, refresh_neighbor_load t w) times v.

(** Clock readings a window apart, none of them wrapped around. *)
Fixpoint spaced (last : Z) (times : list Z) : Prop :=
  match times with
  | [] => True
  | t :: times' => last + kObservationWindowMs ≤ t < 2 ^ 64 ∧ spaced t times'
  end.

Lemma refresh_neighbor now n v :
  ∃ w, neighbor_of n (refresh_neighbor_load now v) = refreshed w now <$> neighbor_of n v ∧
    (∀ m, pending_work w m = pending_work v m) ∧ scheduler_ w = scheduler_ v.
Proof.
  unfold refresh_neighbor_load. cbv zeta. set (w := if bool_decide _ then v else _).
  assert (Hw : neighbors_ w = neighbors_ v ∧ (∀ m, pending_work w m = pending_work v m) ∧ scheduler_ w = scheduler_ v)
    by (unfold w; by case_bool_decide). clearbody w. destruct Hw as (Hn & Hp & Hs).
  set (p := if _ && _ then _ else _). clearbody p. pose proof (refresh_each_fst w now (neighbors_ w) (routes_ w) p) as He.
  destruct (refresh_each w now (neighbors_ w) (routes_ w) p) as [[s t] p2]. cbn in He. subst s. exists w. split; [|done].
  unfold neighbor_of, find_neighbor. cbn. rewrite Hn, slots_find_for_each by (intros x; by rewrite refreshed_node).
  destruct (Slots.find _ _); cbn; [apply slots_at_for_each|done].
Qed.

Lemma refresh_traffic now v :
  (∀ m, pending_work (refresh_neighbor_load now v) m = pending_work v m) ∧ scheduler_ (refresh_neighbor_load now v) = scheduler_ v.
Proof.
  unfold refresh_neighbor_load. cbv zeta. destruct (refresh_each _ _ _ _ _) as [[s t] p2]. by case_bool_decide.
Qed.

Lemma quiet_ext v w n : (∀ m, pending_work w m = pending_work v m) → scheduler_ w = scheduler_ v → quiet v n → quiet w n.
Proof. unfold quiet. by intros -> ->. Qed.

(** From the thirtieth refresh on the cost is [relax_run] from some cost [c]. *)
Lemma calm_run times : ∀ k last v n x,
  neighbor_of n v = Some x → calm k last x → quiet v n → spaced last times →
  ∃ y c, neighbor_of n (refresh_run times v) = Some y ∧ metric x ≤ c ≤ kInfiniteRouteMetric ∧
    ((29 ≤ k)%nat → c = link_cost x) ∧
    link_cost y = relax_run (k + length times - Nat.max 29 k) c (metric x) (metric x) ∨
    neighbor_of n (refresh_run times v) = Some y ∧ (k + length times < 29)%nat.
Proof.
  induction times as [|t times IH]; intros k last v n x Hx Hc Hq Hs.
  { exists x, (link_cost x). cbn [refresh_run fold_left length]. rewrite Nat.add_0_r.
    destruct (decide (29 ≤ k)%nat); [left|right; split; [done|lia]].
    replace (k - Nat.max 29 k)%nat with 0%nat by lia. cbn [relax_run]. pose proof (ok_cost _ (cl_ok _ _ _ Hc)). split_and!; first [done|lia]. }
  destruct Hs as [Ht Hs]. destruct (neighbor_of_at _ _ _ Hx) as (_ & _ & Hn).
  destruct (refresh_neighbor t n v) as (w & Hw & Hp & Hsch). rewrite Hx in Hw. cbn in Hw.
  destruct (calm_refresh w k last t x Hc Ht) as (Hz & Em & _ & Hl). { rewrite Hn. by apply (quiet_ext v). }
  destruct (refresh_traffic t v) as [Hp' Hs'].
  destruct (IH (S k) t (refresh_neighbor_load t v) n _ Hw Hz) as (y & c & Hy); [by apply (quiet_ext v)|done|].
  cbn [length]. change (refresh_run (t :: times) v) with (refresh_run times (refresh_neighbor_load t v)).
  rewrite Em in Hy. destruct Hy as [(Hy & Hcr & Hck & Hly)|[Hy Hlen]]; [|exists y, c; right; split; [done|lia]].
  destruct (decide (29 ≤ k)%nat) as [Hk|Hk].
  - exists y, (link_cost x). left. pose proof (ok_cost _ (cl_ok _ _ _ Hc)). split_and!; [done|lia|lia|done|].
    rewrite Hly, Hck, Hl by lia. replace (k + S (length times) - Nat.max 29 k)%nat with (S (length times)) by lia.
    by replace (S k + length times - Nat.max 29 (S k))%nat with (length times) by lia.
  - exists y, c. left. split_and!; [done|lia|lia|lia|].
    by replace (k + S (length times) - Nat.max 29 k)%nat with (S k + length times - Nat.max 29 (S k))%nat by lia.
Qed.

Lemma relax_run_done n current target base :
  is_u16 current → is_u16 target → target ≤ current → (17 ≤ n)%nat → relax_run n current target base = target.
Proof.
  intros Hc Ht Hle Hn. induction Hn as [|n _ IH]; [by apply relax_run_reaches|].
  rewrite relax_run_snoc, IH. apply relax_link_cost_snaps; [done..|lia].
Qed.

(** C32: whatever was measured before, once a live neighbour with an open
    exchange window has no pending work and the queue is below the low
    watermark, 46 refreshes spaced a window apart on an unwrapped clock bring
    its link cost to exactly the nominal metric. *)
Theorem link_cost_recovers v n x last times :
  reachable v → neighbor_of n v = Some x → active x = true → quiet v n →
  0 < exchange_window_ms (exchange (measured x)) ≤ last →
  0 ≤ last_sojourn_ms (sojourn (measured x)) ≤ last → 0 ≤ last_cost_relax_ms x ≤ last →
  spaced last times → (46 ≤ length times)%nat →
  peer_link_cost n (refresh_run times v) = metric x.
Proof.
  intros Hr Hx Ha Hq He Hs Hrel Hsp Hlen. destruct (neighbor_of_at _ _ _ Hx) as (i & Hi & _).
  pose proof (reachable_nb_ok v Hr i x Hi) as Hok.
  assert (Hc : calm 0 last x).
  { split; try done.
    - left. split; [done|]. rewrite Z.mul_1_r. apply Hok.
    - intros _. split; [done|lia].
    - lia. }
  destruct (calm_run times 0 last v n x Hx Hc Hq Hsp) as (y & c & [(Hy & Hcr & _ & Hl)|[_ ?]]); [|lia].
  unfold peer_link_cost. rewrite Hy, Hl. pose proof (ok_metric _ Hok).
  apply relax_run_done; [apply metric_u16; lia..|lia|lia].
Qed.

(** ** A dirty flag outside a window *)

Definition latched (x : Neighbor) : Prop :=
  metric_window_dirty (measured x) = true ∧ exchange_window_ms (exchange (measured x)) = 0.

Lemma refreshed_latched w now x : nb_ok x → latched x → latched (refreshed w now x) ∧ link_cost x ≤ link_cost (refreshed w now x).
Proof.
  intros Hok [Hd Hw]. unfold refreshed. destruct (negb (active x)); [done|]. cbv zeta.
  assert (He : roll_exchange now (measured x) = measured x).
  { unfold roll_exchange. cbv zeta. by rewrite bool_decide_eq_true_2. }
  destruct (roll_sojourn_exchange now (roll_exchange now (measured x))) as (Ex & _ & Ed). rewrite He in Ex, Ed.
  split.
  - split; cbn; rewrite He; [by rewrite Ed|by rewrite Ex].
  - cbn [link_cost set_cost]. unfold slew. change (link_cost (roll now x)) with (link_cost x).
    case_bool_decide; [done|]. replace (metric_window_dirty (measured (roll now x))) with true by (cbn; by rewrite He, Ed).
    cbn [negb]. by rewrite andb_false_r.
Qed.

(** If a neighbour's window is marked dirty while no exchange window is open,
    no sequence of refreshes at any times clears the mark or lets the link
    cost fall below where it is. *)
Lemma dirty_window_latches v n x times :
  reachable v → neighbor_of n v = Some x → latched x →
  link_cost x ≤ peer_link_cost n (refresh_run times v) ∧
  ∃ y, neighbor_of n (refresh_run times v) = Some y ∧ metric_window_dirty (measured y) = true.
Proof.
  intros Hr Hx Hl. assert (Hok : nb_ok x) by (destruct (neighbor_of_at _ _ _ Hx) as (i & Hi & _); by eapply reachable_nb_ok).
  clear Hr. revert v x Hx Hl Hok. induction times as [|t times IH]; intros v x Hx Hl Hok.
  { cbn. unfold peer_link_cost. rewrite Hx. split; [done|]. exists x. by destruct Hl. }
  destruct (refresh_neighbor t n v) as (w & Hw & _). rewrite Hx in Hw. cbn in Hw.
  destruct (refreshed_latched w t x Hok Hl) as [Hl' Hc].
  destruct (IH _ _ Hw Hl' (refreshed_ok w t x Hok)) as [IH1 IH2]. split; [|done]. cbn in IH1 |- *. unfold refresh_run in IH1. lia.
Qed.
