(* ===== verification/LinkCostRoutes.v ===== *)
(** * Route costs follow link costs

    Every candidate of the route table is priced at the current cost of the
    link it uses: the refresh, the advertisements and the departures of
    neighbours keep the two tables consistent. *)

From S2P Require Import Prelude Types Wire FixedContainers Routing Congestion Scheduler LinkCost LinkCostProps.

(** ** Priced tables *)

(** [costs n]: the cost of the link to [n], when [n] is a live neighbour. *)
Definition priced (costs : NodeId → option Z) (c : RouteCandidate) : Prop :=
  ∃ k, costs (c_next_hop c) = Some k ∧ c_metric c = route_metric_add (c_advertised c) k.
Definition priced_entry (costs : NodeId → option Z) (e : Entry) : Prop :=
  ∀ c, c ∈ candidates e → c_valid c = true → priced costs c.
Definition priced_table (costs : NodeId → option Z) (t : RouteTable) : Prop :=
  ∀ i e, Slots.at_ i (entries_ t) = Some e → priced_entry costs e.

Lemma priced_same_candidates costs e e' : candidates e' = candidates e → priced_entry costs e → priced_entry costs e'.
Proof. unfold priced_entry. by intros ->. Qed.

Lemma priced_ext costs costs' t : (∀ n, costs n = costs' n) → priced_table costs t → priced_table costs' t.
Proof. intros He Ht i e Hi c Hc Hv. destruct (Ht i e Hi c Hc Hv) as (k & Hk & Hm). exists k. by rewrite <- He. Qed.

Lemma evaluate_candidates b self now e : candidates (evaluate_entry b self now e) = candidates e.
Proof. done. Qed.
Lemma arm_candidates d now e : candidates (arm_tombstone d now e) = candidates e.
Proof. unfold arm_tombstone. by destruct (_ && _). Qed.
Lemma request_candidates e : candidates (request_if_lost e) = candidates e.
Proof. unfold request_if_lost. by destruct (s_valid _). Qed.

(** Replacing candidates by dead ones, or by ones that are priced. *)
Lemma priced_map costs costs' (f : RouteCandidate → RouteCandidate) e cs :
  candidates e = f <$> cs → (∀ c, c ∈ cs → c_valid c = true → priced costs c) →
  (∀ c, c_valid (f c) = true → c_valid c = true ∧ (priced costs c → priced costs' (f c))) → priced_entry costs' e.
Proof.
  intros He Hcs Hf c Hc Hv. rewrite He in Hc. apply list_elem_of_fmap in Hc as (c0 & -> & Hc0).
  destruct (Hf c0 Hv) as [Hv0 Hp]. by apply Hp, Hcs.
Qed.

Lemma route_metric_add_infinite k : route_metric_add kInfiniteRouteMetric k = kInfiniteRouteMetric.
Proof. unfold route_metric_add. by rewrite bool_decide_eq_true_2. Qed.

Lemma retract_priced costs n c : c_valid (retract n c) = true → c_valid c = true ∧ (priced costs c → priced costs (retract n c)).
Proof.
  unfold retract. destruct (c_valid c && _) eqn:Hv; cbn; [|done]. apply andb_true_iff in Hv as [Hv _]. intros _. split; [done|].
  intros (k & Hk & _). exists k. split; [done|]. cbn. by rewrite route_metric_add_infinite.
Qed.

Lemma dropped_priced costs costs' (test : RouteCandidate → bool) c :
  (test c = false → priced costs c → priced costs' c) →
  c_valid (if test c then no_candidate else c) = true →
  c_valid c = true ∧ (priced costs c → priced costs' (if test c then no_candidate else c)).
Proof. intros Ht. destruct (test c); [done|]. auto. Qed.

Lemma withdraw_priced costs b self d n now e :
  priced_entry costs e → priced_entry costs (snd (withdraw_entry b self d n now e)).
Proof.
  intros He. unfold withdraw_entry. destruct (existsb _ _); [|done]. cbn [snd]. cbv zeta.
  eapply (priced_map costs costs (retract n) _ (candidates e)); [|done|apply retract_priced].
  by rewrite evaluate_candidates, arm_candidates, request_candidates.
Qed.

Lemma renewed_priced costs g e : priced_entry costs e → priced_entry costs (renewed g e).
Proof.
  intros He. unfold renewed. case_bool_decide; [|done].
  eapply (priced_map costs costs (λ _, no_candidate) _ (candidates e)); [done|done|]. done.
Qed.

Lemma consider_entry_priced costs b self d ad n k now life e :
  costs n = Some k → priced_entry costs e → priced_entry costs (snd (consider_entry b self d ad n k now life e)).
Proof.
  intros Hk He. unfold consider_entry. case_bool_decide; [done|]. cbv zeta.
  pose proof (renewed_priced costs (ad_generation ad) e He) as Hr. set (e1 := renewed _ e) in *. clearbody e1.
  case_bool_decide.
  { pose proof (withdraw_priced costs b self d n now e1 Hr). by destruct (withdraw_entry b self d n now e1). }
  destruct (_ && _); [done|].
  assert (Hins : ∀ i, priced_entry costs (set_candidates (<[i := learned ad n k now life e1]> (candidates e1)) e1)).
  { intros i c Hc Hv. cbn in Hc. apply list_elem_of_lookup in Hc as (j & Hj).
    destruct (decide (j = i)) as [->|Hne].
    - apply list_lookup_insert_Some in Hj as [(_ & <- & _)|[? _]]; [|done]. exists k. split; [done|]. done.
    - rewrite list_lookup_insert_ne in Hj by done. apply list_elem_of_lookup_2 in Hj. by apply Hr. }
  destruct (c_feasible _); cbn [snd]; intros c; apply Hins.
Qed.

Lemma priced_each costs costs' f t :
  priced_table costs t → (∀ e, priced_entry costs e → priced_entry costs' (f e)) → priced_table costs' (each f t).
Proof.
  intros Ht Hf i e. unfold each. cbn. rewrite slots_at_for_each. intros (e0 & He0 & ->)%fmap_Some. by eapply Hf, Ht.
Qed.

Lemma priced_set_entry costs i e t :
  priced_table costs t → priced_entry costs e → priced_table costs (put_entry i e t).
Proof.
  intros Ht He j e' Hj. cbn in Hj. destruct (decide (i < length (entries_ t))%nat) as [Hi|Hi].
  - rewrite at_set in Hj by done. destruct (decide (j = i)); simplify_eq; [done|]. by eapply Ht.
  - unfold Slots.set in Hj. rewrite list_insert_ge in Hj by lia. by eapply Ht.
Qed.

Lemma priced_fresh costs d : priced_entry costs (set_destination d empty_entry).
Proof. intros c Hc. cbn in Hc. set_unfold in Hc. naive_solver. Qed.

Lemma find_or_allocate_priced costs d t : priced_table costs t → priced_table costs (snd (find_or_allocate d t)).
Proof.
  intros Ht. unfold find_or_allocate. case_bool_decide; [done|]. destruct (find_index d t); [done|].
  destruct (Slots.allocate empty_entry (entries_ t)) as [[i|] s] eqn:Ha; cbn [snd].
  - apply slots_allocate_free in Ha as [_ ->]. unfold Slots.set. rewrite list_insert_insert_eq.
    exact (priced_set_entry costs i _ t Ht (priced_fresh costs d)).
  - unfold Slots.allocate in Ha. destruct (Slots.first_free _); [done|]. by injection Ha as <-.
Qed.

Lemma consider_priced costs ad n k now life t :
  costs n = Some k → priced_table costs t → priced_table costs (snd (consider ad n k now life t)).
Proof.
  intros Hk Ht. unfold consider. destruct (_ || _); [done|]. cbv zeta.
  assert (H1 : priced_table costs
            (snd (if bool_decide (ad_metric ad = kInfiniteRouteMetric) then (find_index (ad_destination ad) t, t)
                  else find_or_allocate (ad_destination ad) t))).
  { case_bool_decide; [done|]. by apply find_or_allocate_priced. }
  destruct (if bool_decide _ then _ else _) as [[i|] t1]; cbn [snd] in *; [|done].
  destruct (Slots.at_ i (entries_ t1)) as [e|] eqn:He; [|done].
  pose proof (consider_entry_priced costs (busy_links_ t1) (self_id_ t1) (tombstone_dwell_ms_ t1) ad n k now life e Hk
    (H1 i e He)) as Hc.
  destruct (consider_entry _ _ _ _ _ _ _ _ e) as [r e']. cbn [snd] in *. by apply priced_set_entry.
Qed.

Lemma evaluate_priced costs now t : priced_table costs t → priced_table costs (evaluate now t).
Proof. intros Ht. unfold evaluate. by eapply priced_each. Qed.

Lemma expire_priced costs now t : priced_table costs t → priced_table costs (expire now t).
Proof.
  intros Ht. unfold expire. cbv zeta. eapply priced_each.
  - intros i e Hi. cbn in Hi. apply at_lookup in Hi. apply slots_erase_lookup in Hi as [Hi _]. apply at_lookup in Hi.
    by eapply Ht.
  - intros e He. unfold expire_entry. cbv zeta.
    eapply (priced_map costs costs (λ c, if lapsed now c then no_candidate else c) _ (candidates e)); [|done|].
    + destruct (existsb _ _); rewrite ?evaluate_candidates, arm_candidates, ?request_candidates; done.
    + intros c. by apply dropped_priced.
Qed.

Lemma reclaim_priced costs t : priced_table costs t → priced_table costs (snd (reclaim_tombstone t)).
Proof.
  intros Ht. unfold reclaim_tombstone. destruct (oldest_tombstone _ _ _) as [i|]; [|done].
  unfold Slots.release. destruct (entries_ t !! i) as [[e|]|] eqn:He; cbn [snd]; [|done|done].
  intros j e' Hj. cbn in Hj. apply at_lookup in Hj. destruct (decide (j = i)) as [->|Hne].
  - rewrite list_lookup_insert_eq in Hj by (by eapply lookup_lt_Some). done.
  - rewrite list_lookup_insert_ne in Hj by done. apply at_lookup in Hj. by eapply Ht.
Qed.

(** Losing a neighbour removes every candidate through it. *)
Definition without (n : NodeId) (costs : NodeId → option Z) (m : NodeId) : option Z := if decide (m = n) then None else costs m.

Lemma invalidate_priced costs n now hold t :
  priced_table costs t → priced_table (without n costs) (invalidate_next_hop n now hold t).
Proof.
  intros Ht. unfold invalidate_next_hop. eapply priced_each; [done|]. intros e He. unfold invalidate_entry. cbv zeta.
  eapply (priced_map costs _ (λ c, if via n c then no_candidate else c) _ (candidates e)); [|done|].
  - destruct (existsb _ _), hold, (negb _ && _); rewrite ?evaluate_candidates, ?arm_candidates, ?request_candidates; done.
  - intros c. destruct (via n c) eqn:Hvia; [done|]. intros Hv. split; [done|]. intros (k & Hk & Hm). exists k. split; [|done].
    unfold via in Hvia. rewrite Hv in Hvia. unfold without. rewrite decide_False; [done|]. intros <-.
    by rewrite bool_decide_eq_true_2 in Hvia.
Qed.

(** A new cost reprices the candidates of its link and of no other. *)
Definition repriced (n : NodeId) (k : Z) (costs : NodeId → option Z) (m : NodeId) : option Z :=
  if decide (m = n) then Some k else costs m.

Lemma recost_priced costs e n k c :
  c_valid (recost e n k c) = true →
  c_valid c = true ∧ (priced costs c → priced (repriced n k costs) (recost e n k c)).
Proof.
  unfold recost. destruct (via n c) eqn:Hvia; cbn; intros Hv; (split; [done|]).
  - intros _. exists k. split; [|done]. unfold via in Hvia. apply andb_true_iff in Hvia as [_ Hn%bool_decide_eq_true].
    cbn. unfold repriced. by rewrite decide_True.
  - intros (k0 & Hk0 & Hm). exists k0. split; [|done]. unfold repriced. rewrite decide_False; [done|]. intros Hn.
    unfold via in Hvia. rewrite Hv, bool_decide_eq_true_2 in Hvia by done. done.
Qed.

Lemma update_cost_priced costs n k now t :
  n ≠ kInvalidNodeId → k ≠ 0 → priced_table costs t → priced_table (repriced n k costs) (snd (update_link_cost n k now t)).
Proof.
  intros Hn Hk Ht. unfold update_link_cost. rewrite !bool_decide_eq_false_2 by done. cbn [orb snd].
  eapply priced_each; [done|]. intros e He. unfold update_cost_entry. destruct (existsb _ _) eqn:Hex.
  - eapply (priced_map costs _ (recost e n k) _ (candidates e)); [done|done|apply recost_priced].
  - intros c Hc Hv. destruct (He c Hc Hv) as (k0 & Hk0 & Hm). exists k0. split; [|done].
    unfold repriced. rewrite decide_False; [done|]. intros Heq. apply not_true_iff_false in Hex. apply Hex.
    apply existsb_exists. exists c. split; [by apply list_elem_of_In|]. unfold via. by rewrite Hv, bool_decide_eq_true_2.
Qed.

(** ** Costs of the neighbour table *)

Definition cost_of (v : LoadNode) (n : NodeId) : option Z :=
  x ← neighbor_of n v; if active x then Some (link_cost x) else None.

(** One record per peer, each of a valid peer. *)
Definition distinct (s : Slots.slots Neighbor) : Prop :=
  ∀ i j x y, Slots.at_ i s = Some x → Slots.at_ j s = Some y → nb_node x = nb_node y → i = j.
Definition named (x : Neighbor) : Prop := nb_ok x ∧ nb_node x ≠ kInvalidNodeId.

Record linked (v : LoadNode) : Prop := {
  lk_named : each_neighbor named v;
  lk_distinct : distinct (neighbors_ v);
  lk_priced : priced_table (cost_of v) (routes_ v) }.

Lemma neighbor_at v i x : distinct (neighbors_ v) → Slots.at_ i (neighbors_ v) = Some x → neighbor_of (nb_node x) v = Some x.
Proof.
  intros Hd Hi. unfold neighbor_of, find_neighbor. destruct (Slots.find _ _) as [j|] eqn:Hj.
  - apply slots_find_at in Hj as (y & _ & Hy & Hp%bool_decide_eq_true). cbn. rewrite Hy. f_equal.
    rewrite (Hd j i y x Hy Hi Hp) in Hy. congruence.
  - apply at_lookup in Hi. pose proof (proj1 (Slots.find_None _ _) Hj i x Hi) as Hp.
    cbv beta in Hp. by rewrite bool_decide_eq_true_2 in Hp.
Qed.

(** A step that keeps the records' peers, costs and activity keeps the prices. *)
Definition same_links (x y : Neighbor) : Prop := nb_node y = nb_node x ∧ link_cost y = link_cost x ∧ active y = active x.

Lemma on_neighbor_of n f v m :
  (∀ x, neighbor_of n v = Some x → nb_node (f x) = nb_node x) →
  neighbor_of m (on_neighbor n f v) = if decide (m = n) then f <$> neighbor_of m v else neighbor_of m v.
Proof.
  intros Hf. unfold on_neighbor. destruct (find_neighbor n v) as [i|] eqn:Hi.
  - pose proof Hi as (x & Hs & Hx & Hp%bool_decide_eq_true)%slots_find_at. rewrite Hx.
    assert (Hfx : nb_node (f x) = nb_node x) by (apply Hf; unfold neighbor_of; by rewrite Hi).
    unfold neighbor_of, find_neighbor. cbn [neighbors_ set_neighbors].
    rewrite (slots_find_set _ _ i x (f x) Hs) by (by rewrite Hfx).
    destruct (decide (m = n)) as [->|Hne].
    + unfold find_neighbor in Hi. rewrite Hi. cbn. rewrite at_set, decide_True by (by eapply at_lt || done). by rewrite Hx.
    + destruct (Slots.find _ _) as [j|] eqn:Hj; [|done]. cbn. apply slots_find_at in Hj as (y & _ & Hy & Hq%bool_decide_eq_true).
      rewrite at_set, decide_False; [done| |by eapply at_lt]. intros ->. congruence.
  - destruct (decide (m = n)) as [->|]; [|done]. unfold neighbor_of. by rewrite Hi.
Qed.

Lemma distinct_set s i x y : distinct s → Slots.at_ i s = Some x → nb_node y = nb_node x → distinct (Slots.set i y s).
Proof.
  intros Hd Hi Hy j k a b Hj Hk Hab. pose proof (at_lt _ _ _ Hi) as Hl. rewrite at_set in Hj, Hk by done.
  destruct (decide (j = i)) as [->|Hji], (decide (k = i)) as [->|Hki]; simplify_eq; try done.
  - apply (Hd i k x b Hi Hk). congruence.
  - apply (Hd j i a x Hj Hi). congruence.
  - by apply (Hd j k a b).
Qed.

Lemma distinct_on_neighbor n f v :
  distinct (neighbors_ v) → (∀ x, neighbor_of n v = Some x → nb_node (f x) = nb_node x) →
  distinct (neighbors_ (on_neighbor n f v)).
Proof.
  intros Hd Hf. unfold on_neighbor. destruct (find_neighbor n v) as [i|] eqn:Hi; [|done].
  destruct (Slots.at_ i (neighbors_ v)) as [x|] eqn:Hx; [|done]. eapply distinct_set; [done|done|].
  apply Hf. unfold neighbor_of. by rewrite Hi.
Qed.

(** The cost of every link after one record was replaced. *)
Lemma cost_on_neighbor n f v m :
  (∀ x, neighbor_of n v = Some x → nb_node (f x) = nb_node x) →
  cost_of (on_neighbor n f v) m =
    if decide (m = n) then (y ← f <$> neighbor_of m v; if active y then Some (link_cost y) else None) else cost_of v m.
Proof. intros Hf. unfold cost_of. rewrite on_neighbor_of by done. by destruct (decide (m = n)). Qed.

Lemma linked_on_neighbor n f v :
  linked v → (∀ x, neighbor_of n v = Some x → named x → named (f x) ∧ same_links x (f x)) → linked (on_neighbor n f v).
Proof.
  intros [Hn Hd Hp] Hf.
  assert (Hnm : ∀ x, neighbor_of n v = Some x → named x).
  { intros x Hx. destruct (neighbor_of_at _ _ _ Hx) as (i & Hi & _). by eapply Hn. }
  assert (Hs : ∀ x, neighbor_of n v = Some x → same_links x (f x)) by (intros x Hx; apply Hf; auto).
  assert (Hk : ∀ x, neighbor_of n v = Some x → nb_node (f x) = nb_node x) by (intros x Hx; by apply Hs).
  split.
  - apply each_on_neighbor; [done|]. intros x Hx Hx'. by apply Hf.
  - by apply distinct_on_neighbor.
  - rewrite on_neighbor_routes. eapply priced_ext; [|done]. intros m. rewrite cost_on_neighbor by done.
    destruct (decide (m = n)) as [->|]; [|done]. unfold cost_of. destruct (neighbor_of n v) as [x|] eqn:Hx; [|done]. cbn.
    destruct (Hs x eq_refl) as (_ & -> & ->). done.
Qed.

(** ** Steps *)

Lemma touched_links t x : same_links x (touched t x).
Proof.
  destruct t as [job now| |[] rtt_ms| |sequence now|pressure now|pressure now]; cbn [touched]; try done.
  - unfold record_submission. cbv zeta. by destruct (requires_hop_accept job).
  - unfold busy_report. cbv zeta. by destruct (feedback_stale _ _).
  - unfold pressure_hint. cbv zeta. by case_bool_decide.
Qed.

Lemma note_pressure_links p s now x y : note_pressure p s now x = Some y → same_links x y.
Proof.
  unfold note_pressure. destruct (feedback_stale _ _); [done|]. cbv zeta. intros [= <-]. by case_bool_decide.
Qed.

Lemma named_links x y : named x → nb_ok y → same_links x y → named y.
Proof. intros [_ Hn] Hok (He & _). split; [done|]. by rewrite He. Qed.

Lemma busy_priced costs n (b : bool) t since :
  priced_table costs t → priced_table costs (if b then note_next_hop_busy n since t else clear_next_hop_busy n t).
Proof.
  intros Ht. destruct b; [unfold note_next_hop_busy|unfold clear_next_hop_busy]; repeat case_match; done.
Qed.

(** One record of the refresh: its link gets the new cost. *)
Lemma refresh_one_priced costs w now x t p :
  named x → priced_table costs t → (active x = true → costs (nb_node x) = Some (link_cost x)) →
  let costs' := if active x then repriced (nb_node x) (link_cost (refreshed w now x)) costs else costs in
  priced_table costs' (snd (fst (refresh_one w now x t p))).
Proof.
  intros [Hok Hn] Ht Hc. cbv zeta. pose proof (ok_cost _ (refreshed_ok w now x Hok)) as Hcost.
  pose proof (ok_metric _ (refreshed_ok w now x Hok)) as Hmet.
  unfold refresh_one, refreshed in *. destruct (active x) eqn:Ha; cbn [negb] in *; [|done]. cbv zeta in *.
  set (y := roll now x) in *. assert (Ey : nb_node y = nb_node x) by done. assert (Ec : link_cost y = link_cost x) by done.
  pose proof (busy_priced costs (nb_node y) (busy_active (busy y)) t (busy_since_ms (busy y)) Ht) as Ht1.
  set (t1 := if busy_active (busy y) then note_next_hop_busy _ _ _ else clear_next_hop_busy _ _) in *. clearbody t1. unfold refresh_link_cost.
  destruct (slew _ _ _ now y) as [cost relaxed] eqn:Hs. cbn [fst snd link_cost set_cost metric] in *.
  destruct (decide (cost = link_cost y)) as [->|Hne].
  - rewrite bool_decide_eq_true_2 by done. eapply priced_ext; [|exact Ht1]. intros m. unfold repriced.
    destruct (decide (m = nb_node x)) as [->|]; [|done]. by rewrite Hc, Ec.
  - rewrite bool_decide_eq_false_2 by done. rewrite <- Ey. apply update_cost_priced; [by rewrite Ey|lia|done].
Qed.

Lemma distinct_tail o s : distinct (o :: s) → distinct s.
Proof. intros Hd i j x y Hi Hj Hxy. by injection (Hd (S i) (S j) x y Hi Hj Hxy). Qed.

Lemma refresh_each_priced w now s : ∀ costs t p,
  (∀ i x, Slots.at_ i s = Some x → named x ∧ (active x = true → costs (nb_node x) = Some (link_cost x))) → distinct s →
  priced_table costs t →
  ∃ costs', priced_table costs' (snd (fst (refresh_each w now s t p))) ∧
    (∀ i x, Slots.at_ i s = Some x → active x = true → costs' (nb_node x) = Some (link_cost (refreshed w now x))) ∧
    (∀ n, (∀ i x, Slots.at_ i s = Some x → active x = true → nb_node x ≠ n) → costs' n = costs n).
Proof.
  induction s as [|o s IH]; intros costs t p Hs Hd Ht; cbn [refresh_each].
  { exists costs. split; [done|]. split; [|done]. intros i x Hi. unfold Slots.at_ in Hi. by destruct i. }
  assert (Hs' : ∀ i x, Slots.at_ i s = Some x → named x ∧ (active x = true → costs (nb_node x) = Some (link_cost x)))
    by (intros i; exact (Hs (S i))).
  apply distinct_tail in Hd as Hd'. destruct o as [x|].
  2: { destruct (IH costs t p Hs' Hd' Ht) as (c' & H1 & H2 & H3). destruct (refresh_each w now s t p) as [[s1 t1] p1].
       exists c'. split; [done|]. split.
       - intros [|i] y Hy; [done|]. by apply (H2 i).
       - intros n Hn. apply H3. intros i. exact (Hn (S i)). }
  destruct (Hs 0%nat x eq_refl) as [Hx Hcx].
  pose proof (refresh_one_priced costs w now x t p Hx Ht Hcx) as H1. cbv zeta in H1.
  set (costs1 := if active x then _ else costs) in H1. destruct (refresh_one w now x t p) as [[x1 t1] p1]. cbn [fst snd] in H1.
  assert (Hother : ∀ i y, Slots.at_ i s = Some y → nb_node y ≠ nb_node x).
  { intros i y Hy Heq. by pose proof (Hd (S i) 0%nat y x Hy eq_refl Heq). }
  assert (Hsame : ∀ m, m ≠ nb_node x → costs1 m = costs m).
  { intros m Hm. unfold costs1, repriced. destruct (active x); [|done]. by rewrite decide_False. }
  destruct (IH costs1 t1 p1) as (c' & H2 & H3 & H4); [|done|done|].
  { intros i y Hy. destruct (Hs' i y Hy) as [Hny Hcy]. split; [done|]. rewrite Hsame; eauto. }
  destruct (refresh_each w now s t1 p1) as [[s2 t2] p2]. exists c'. split; [done|]. split.
  - intros [|i] y Hy Hact; [|by apply (H3 i)]. injection Hy as ->. rewrite H4 by (intros; eauto).
    unfold costs1, repriced. by rewrite Hact, decide_True.
  - intros n Hn. rewrite H4 by (intros i; exact (Hn (S i))). unfold costs1, repriced. destruct (active x) eqn:Ha; [|done].
    rewrite decide_False; [done|]. intros ->. by apply (Hn 0%nat x).
Qed.

Lemma distinct_for_each f s : (∀ x, nb_node (f x) = nb_node x) → distinct s → distinct (Slots.for_each f s).
Proof.
  intros Hf Hd i j x y. rewrite !slots_at_for_each. intros (a & Ha & ->)%fmap_Some (b & Hb & ->)%fmap_Some.
  rewrite !Hf. by apply Hd.
Qed.

Lemma cost_of_at v i x : distinct (neighbors_ v) → Slots.at_ i (neighbors_ v) = Some x →
  cost_of v (nb_node x) = if active x then Some (link_cost x) else None.
Proof. intros Hd Hi. unfold cost_of. by rewrite (neighbor_at v i x Hd Hi). Qed.

Lemma cost_of_absent v n : (∀ i x, Slots.at_ i (neighbors_ v) = Some x → active x = true → nb_node x ≠ n) → cost_of v n = None.
Proof.
  intros Hn. unfold cost_of. destruct (neighbor_of n v) as [x|] eqn:Hx; [|done]. cbn.
  destruct (neighbor_of_at _ _ _ Hx) as (i & Hi & He). destruct (active x) eqn:Ha; [|done]. by destruct (Hn i x Hi Ha).
Qed.

Lemma linked_refresh now v : linked v → linked (refresh_neighbor_load now v).
Proof.
  intros [Hn Hd Hp]. assert (Hn' : each_neighbor named (refresh_neighbor_load now v)).
  { apply each_refresh; [done|]. intros w x _ [Hok Hx]. split; [by apply refreshed_ok|by rewrite refreshed_node]. }
  revert Hn'. unfold refresh_neighbor_load. cbv zeta. set (w := if bool_decide _ then v else _).
  assert (Hw : neighbors_ w = neighbors_ v ∧ routes_ w = routes_ v) by (unfold w; by case_bool_decide).
  clearbody w. destruct Hw as [-> ->]. set (p := if _ && _ then _ else _). clearbody p.
  pose proof (refresh_each_fst w now (neighbors_ v) (routes_ v) p) as He.
  destruct (refresh_each_priced w now (neighbors_ v) (cost_of v) (routes_ v) p) as (c' & H1 & H2 & H3); [|done|done|].
  { intros i x Hi. split; [by eapply Hn|]. intros Ha. by rewrite (cost_of_at v i x Hd Hi), Ha. }
  destruct (refresh_each w now (neighbors_ v) (routes_ v) p) as [[s t] p2]. cbn in He, H1. subst s. intros Hn'.
  assert (Hd' : distinct (Slots.for_each (refreshed w now) (neighbors_ v))).
  { apply distinct_for_each; [apply refreshed_node|done]. }
  split; [exact Hn'|exact Hd'|]. cbn [routes_ set_routes set_poll set_neighbors]. apply evaluate_priced.
  eapply priced_ext; [|exact H1]. intros n. set (v' := set_poll _ _).
  destruct (cost_of v' n) as [k|] eqn:Hk.
  - unfold cost_of in Hk. apply bind_Some in Hk as (y & Hy & Hk). destruct (active y) eqn:Ha; [|done]. injection Hk as <-.
    destruct (neighbor_of_at _ _ _ Hy) as (i & Hi & <-). cbn in Hi. rewrite slots_at_for_each in Hi.
    apply fmap_Some in Hi as (x & Hx & ->). rewrite refreshed_active in Ha. rewrite refreshed_node. by eapply H2.
  - rewrite H3; [apply cost_of_absent|]; intros i x Hi Ha <-.
    all: assert (Hi' : Slots.at_ i (neighbors_ v') = Some (refreshed w now x)) by (cbn; by rewrite slots_at_for_each, Hi).
    all: pose proof (cost_of_at v' i _ Hd' Hi') as Hc; rewrite refreshed_active, refreshed_node, Ha in Hc; congruence.
Qed.

Lemma linked_routes costs t v :
  linked v → (∀ n, costs n = cost_of v n) → priced_table costs t → linked (set_routes t v).
Proof. intros [Hn Hd _] Hc Ht. split; [done|done|]. by eapply priced_ext. Qed.

Lemma records_priced costs self n k now life rs : ∀ t,
  costs n = Some k → priced_table costs t → priced_table costs (fold_left (consider_record self n k now life) rs t).
Proof.
  induction rs as [|ad rs IH]; intros t Hk Ht; [done|]. cbn. apply IH; [done|]. unfold consider_record.
  case_bool_decide; [done|]. by apply consider_priced.
Qed.

(** A record whose peer stays active, at a cost that changed only if every
    candidate through it was dropped. *)
Lemma linked_records rs n now pw v : linked v → linked (apply_route_records rs n now pw v).
Proof.
  intros Hl. pose proof Hl as [Hn Hd Hp]. unfold apply_route_records. destruct (neighbor_of n v) as [x|] eqn:Hx; [|done].
  destruct (active x) eqn:Ha; [|done]. cbn [negb]. destruct (fold_left _ _ _) as [g r]. cbv zeta.
  destruct (neighbor_of_at _ _ _ Hx) as (i & Hi & Hnx). pose proof (Hn i x Hi) as [Hok Hname].
  set (y := if r && pw then _ else _).
  assert (Hy : nb_ok y ∧ nb_node y = n ∧ active y = true ∧ (r = false → link_cost y = link_cost x)).
  { assert (nb_ok (with_generation g x)) by by destruct Hok. unfold y. destruct r, pw; cbn; split_and!; try done; by apply reset_ok. }
  destruct Hy as (Hyok & Hyn & Hya & Hyc).
  assert (Hf : ∀ z, neighbor_of n v = Some z → nb_node ((λ _, y) z) = nb_node z).
  { intros z Hz. rewrite Hx in Hz. injection Hz as <-. by rewrite Hyn. }
  assert (Hcost : ∀ m, repriced n (link_cost y) (cost_of v) m = cost_of (on_neighbor n (λ _, y) v) m).
  { intros m. rewrite cost_on_neighbor by done. unfold repriced. destruct (decide (m = n)) as [->|]; [|done].
    rewrite Hx. cbn. by rewrite Hya. }
  split.
  - intros j z. cbn. apply (each_on_neighbor named n (λ _, y) v Hn). intros _ _ _. split; [done|]. by rewrite Hyn, <- Hnx.
  - cbn. by apply distinct_on_neighbor.
  - cbn [routes_ set_routes]. eapply (priced_ext (repriced n (link_cost y) (cost_of v))); [exact Hcost|].
    apply records_priced; [unfold repriced; by rewrite decide_True|]. destruct r.
    + intros j e Hj c Hc Hv. destruct (invalidate_priced _ n now false _ Hp j e Hj c Hc Hv) as (k & Hk & Hm).
      exists k. split; [|done]. unfold without, repriced in *. by destruct (decide _).
    + eapply priced_ext; [|exact Hp]. intros m. rewrite Hyc by done. unfold repriced. destruct (decide (m = n)) as [->|]; [|done].
      unfold cost_of. rewrite Hx. cbn. by rewrite Ha.
Qed.

Lemma linked_remove n now v : linked v → linked (snd (remove_neighbor n now v)).
Proof.
  intros [Hn Hd Hp]. unfold remove_neighbor, guarded. destruct (in_call_ v); [done|]. destruct (find_neighbor n v); [|done].
  cbn [snd]. cbv zeta. split.
  - intros j z. cbn. apply (each_on_neighbor named n (set_active false) v Hn). intros x _ [[] ?]. by split.
  - cbn. by apply distinct_on_neighbor.
  - cbn [routes_ set_routes set_revision]. apply (busy_priced _ n false _ 0). rewrite on_neighbor_routes.
    eapply priced_ext; [|apply invalidate_priced, Hp]. intros m. unfold without.
    change (cost_of (set_revision _ _ (set_routes _ (on_neighbor n (set_active false) v))) m)
      with (cost_of (on_neighbor n (set_active false) v) m).
    rewrite cost_on_neighbor by done. destruct (decide (m = n)); [|done]. by destruct (neighbor_of m v).
Qed.

Lemma neighbor_slot_none n s s' : neighbor_slot n s = (None, s') → s' = s.
Proof.
  unfold neighbor_slot. destruct (Slots.find _ s) as [i|] eqn:Hf.
  { apply slots_find_at in Hf as (x & _ & Hx & _). by rewrite Hx. }
  unfold Slots.allocate. destruct (Slots.first_free s); [done|]. cbv beta iota.
  destruct (Slots.find (λ x, negb (active x)) s) as [i|] eqn:Hg; [|by intros [= <-]]. apply slots_find_at in Hg as (x & _ & Hx & _). by rewrite Hx.
Qed.

(** The slot [add_neighbor] writes: the only one of the peer, or one that no
    live peer uses; the others are untouched. *)
Lemma neighbor_slot_free n s i x s' :
  distinct s → neighbor_slot n s = (Some (i, x), s') →
  (i < length s')%nat ∧ (∀ j, j ≠ i → Slots.at_ j s' = Slots.at_ j s) ∧
  (∀ z, Slots.at_ i s = Some z → nb_node z = n ∨ active z = false) ∧
  (∀ j z, j ≠ i → Slots.at_ j s = Some z → nb_node z ≠ n).
Proof.
  intros Hd Hs. pose proof (neighbor_slot_spec _ _ _ _ Hs) as [Hi _]. specialize (Hi i x eq_refl). revert Hs Hi.
  unfold neighbor_slot. destruct (Slots.find _ s) as [k|] eqn:Hf.
  { apply slots_find_at in Hf as (y & _ & Hy & Hp%bool_decide_eq_true). rewrite Hy. intros [= -> <- <-] Hi.
    split; [done|]. split; [done|]. split; [intros z Hz; left; congruence|]. intros j z Hj Hz Hzn. apply Hj.
    apply (Hd j i z y Hz Hy). congruence. }
  assert (Hno : ∀ j z, Slots.at_ j s = Some z → nb_node z ≠ n).
  { intros j z Hz%at_lookup. pose proof (proj1 (Slots.find_None _ _) Hf j z Hz) as Hb. by apply bool_decide_eq_false in Hb. }
  unfold Slots.allocate. destruct (Slots.first_free s) as [k|] eqn:Hk.
  { intros [= -> <- <-] Hi. apply Slots.first_free_Some in Hk. split; [done|]. split_and!; [|intros z Hz%at_lookup; congruence|by eauto].
    intros j Hj. unfold Slots.at_. by rewrite list_lookup_insert_ne. }
  cbv beta iota. destruct (Slots.find (λ x, negb (active x)) s) as [k|] eqn:Hg; [|done].
  apply slots_find_at in Hg as (y & _ & Hy & Hp%negb_true_iff). rewrite Hy. intros [= -> <- <-] Hi.
  split; [done|]. split; [done|]. split; [|by eauto]. intros z Hz. right. congruence.
Qed.

Lemma distinct_slot n s i x s' y :
  distinct s → neighbor_slot n s = (Some (i, x), s') → nb_node y = n → distinct (Slots.set i y s').
Proof.
  intros Hd Hs Hy j k a b Hj Hk Hab. destruct (neighbor_slot_free _ _ _ _ _ Hd Hs) as (Hi & Hold & _ & Hne).
  rewrite at_set in Hj, Hk by done. destruct (decide (j = i)) as [->|Hji], (decide (k = i)) as [->|Hki]; simplify_eq; try done.
  - rewrite Hold in Hk by done. by destruct (Hne k b Hki Hk).
  - rewrite Hold in Hj by done. by destruct (Hne j a Hji Hj).
  - rewrite Hold in Hj, Hk by done. by apply (Hd j k a b).
Qed.

Lemma cost_of_slot n v i x s y w m :
  distinct (neighbors_ v) → neighbor_slot n (neighbors_ v) = (Some (i, x), s) → nb_node y = n →
  neighbors_ w = Slots.set i y s → cost_of v n = None →
  cost_of w m = if active y then repriced n (link_cost y) (cost_of v) m else cost_of v m.
Proof.
  intros Hd Hs Hy Hw Hc. destruct (neighbor_slot_free _ _ _ _ _ Hd Hs) as (Hi & Hold & Hself & Hne).
  assert (Hdw : distinct (neighbors_ w)) by (rewrite Hw; by eapply distinct_slot).
  assert (Hiw : Slots.at_ i (neighbors_ w) = Some y) by (rewrite Hw, at_set by done; by rewrite decide_True).
  destruct (decide (m = n)) as [->|Hmn].
  { rewrite <- Hy at 1. rewrite (cost_of_at w i y Hdw Hiw). unfold repriced. rewrite decide_True by done. by rewrite Hc. }
  replace (if active y then repriced n (link_cost y) (cost_of v) m else cost_of v m) with (cost_of v m)
    by (unfold repriced; rewrite decide_False by done; by destruct (active y)).
  destruct (cost_of v m) as [k|] eqn:Hk.
  - unfold cost_of in Hk. apply bind_Some in Hk as (z & Hz & Hk). destruct (active z) eqn:Ha; [|done]. injection Hk as <-.
    destruct (neighbor_of_at _ _ _ Hz) as (j & Hj & <-). assert (Hji : j ≠ i).
    { intros ->. destruct (Hself z Hj); [done|congruence]. }
    assert (Hjw : Slots.at_ j (neighbors_ w) = Some z) by (rewrite Hw, at_set, decide_False by done; by rewrite Hold).
    by rewrite (cost_of_at w j z Hdw Hjw), Ha.
  - apply cost_of_absent. intros j z Hj Ha <-. rewrite Hw, at_set in Hj by done. destruct (decide (j = i)) as [->|Hji].
    { simplify_eq. }
    rewrite Hold in Hj by done. rewrite (cost_of_at v j z Hd Hj), Ha in Hk. done.
Qed.

Lemma consider_entry_room b self d ad n k now life e : fst (consider_entry b self d ad n k now life e) ≠ NoCapacityResult.
Proof.
  unfold consider_entry. case_bool_decide; [done|]. cbv zeta. case_bool_decide.
  { destruct (withdraw_entry _ _ _ _ _ _) as [[] ?]; done. }
  destruct (_ && _); [done|]. destruct (c_feasible _); [|done]. by destruct (match _ with Some _ => _ | None => _ end).
Qed.

(** A full table is left as it was. *)
Lemma consider_full costs ad n k now life t t1 :
  consider ad n k now life t = (NoCapacityResult, t1) → priced_table costs t → priced_table costs t1.
Proof.
  unfold consider. destruct (_ || _); [done|]. cbv zeta. intros Hc Ht.
  assert (H1 : priced_table costs
            (snd (if bool_decide (ad_metric ad = kInfiniteRouteMetric) then (find_index (ad_destination ad) t, t)
                  else find_or_allocate (ad_destination ad) t))).
  { case_bool_decide; [done|]. by apply find_or_allocate_priced. }
  destruct (if bool_decide _ then _ else _) as [[i|] t2] in Hc, H1; cbn [snd] in *; [|by injection Hc as _ <-].
  destruct (Slots.at_ i (entries_ t2)) as [e|]; [|done].
  pose proof (consider_entry_room (busy_links_ t2) (self_id_ t2) (tombstone_dwell_ms_ t2) ad n k now life e) as Hr.
  destruct (consider_entry _ _ _ _ _ _ _ _ e) as [r e']. cbn in Hr. by injection Hc as -> _.
Qed.

Lemma direct_priced costs n g k now life t :
  costs n = None → priced_table costs t →
  let r := consider_direct n g k now life t in
  priced_table (repriced n k costs) (snd r) ∧ (fst r = NoCapacityResult → priced_table costs (snd r)).
Proof.
  intros Hn Ht. cbv zeta.
  assert (Hre : ∀ u, priced_table costs u → priced_table (repriced n k costs) u).
  { intros u Hu i e Hi c Hc Hv. destruct (Hu i e Hi c Hc Hv) as (j & Hj & Hm). exists j. split; [|done].
    unfold repriced. rewrite decide_False; [done|]. intros Heq. by rewrite Heq, Hn in Hj. }
  assert (Hk : repriced n k costs n = Some k) by (unfold repriced; by rewrite decide_True).
  unfold consider_direct. cbv zeta. pose proof (consider_priced _ (mkAd n g 0 0) n k now life t Hk (Hre t Ht)) as H1.
  destruct (consider (mkAd n g 0 0) n k now life t) as [r t1] eqn:Hc. cbn [snd] in H1. destruct r; try done.
  pose proof (consider_full _ _ _ _ _ _ _ _ Hc Ht) as Ht1. pose proof (reclaim_priced _ _ Ht1) as Ht2.
  destruct (reclaim_tombstone t1) as [[] t2]; cbn [snd] in Ht2; [|split; [by apply Hre|done]].
  pose proof (consider_priced _ (mkAd n g 0 0) n k now life t2 Hk (Hre t2 Ht2)) as H2.
  destruct (consider (mkAd n g 0 0) n k now life t2) as [r t3] eqn:Hc2. split; [done|]. cbn. intros ->. by eapply consider_full.
Qed.

Lemma linked_add n m now v : linked v → is_u16 m → cost_of v n = None → linked (snd (add_neighbor n m now v)).
Proof.
  intros [Hn Hd Hp] Hm Hc.
  assert (Hnamed : n ≠ kInvalidNodeId → each_neighbor named (snd (add_neighbor n m now v))).
  { intros Hni. apply add_neighbor_spec; [done|done|]. intros g b x a Hm'. destruct (admitted_ok n m g b x Hm'). by split. }
  revert Hnamed. unfold add_neighbor, guarded. destruct (in_call_ v); [done|]. destruct (_ || _) eqn:Hbad; [done|].
  assert (Hni : n ≠ kInvalidNodeId) by (bdec; tauto). intros Hnamed. specialize (Hnamed Hni).
  destruct (neighbor_slot n (neighbors_ v)) as [[[i x]|] s] eqn:Hs.
  2: { apply neighbor_slot_none in Hs as ->. by destruct v. }
  cbv zeta in *. cbn [routes_ set_neighbors] in *.
  set (x1 := admitted_neighbor n m (nb_generation x) (gateway_scoped v) x) in *.
  pose proof (direct_priced (cost_of v) n (nb_generation x1) m now (route_lifetime_ms v) (routes_ v) Hc Hp) as [H1 H2].
  destruct (consider_direct _ _ _ _ _ _) as [r t]. cbn [fst snd] in H1, H2.
  assert (Hok : ∀ w, neighbors_ w = Slots.set i x1 s → routes_ w = t → each_neighbor named w → linked w).
  { intros w Hw Ht Hnw. split; [done|rewrite Hw; by eapply distinct_slot|]. rewrite Ht. eapply priced_ext; [|exact H1].
    intros p. symmetry. exact (cost_of_slot n v i x s x1 w p Hd Hs eq_refl Hw Hc). }
  destruct r; cbn [snd] in *; try (by apply Hok).
  split; [done|cbn; by eapply distinct_slot|]. eapply priced_ext; [|exact (H2 eq_refl)]. intros p. symmetry.
  by apply (cost_of_slot n v i x s (set_active false x1)).
Qed.

(** ** Runs *)

(** The steps that keep the prices: a peer is added while it is not a live
    neighbour, and measurements are reset while the cost is nominal. *)
Definition keeps_prices (v : LoadNode) (o : op) : Prop :=
  match o with
  | OAdd n _ _ => cost_of v n = None
  | OStale n => ∀ x, neighbor_of n v = Some x → link_cost x = metric x
  | _ => True
  end.

Lemma linked_step o v : typed o → keeps_prices v o → linked v → linked (step o v).
Proof.
  intros Ht Hk Hl. destruct o as [n m now|n now|n t|n p s now|n|n b now|now|rs n now pw|now|s p a]; cbn [step].
  - by apply linked_add.
  - by apply linked_remove.
  - apply linked_on_neighbor; [done|]. intros x _ Hx. pose proof (touched_links t x) as Hs. split; [|done].
    eapply named_links; [done| |done]. apply touched_ok; [apply Hx|]. by destruct t.
  - unfold note_peer_pressure, guarded. destruct (in_call_ v); [done|]. destruct (neighbor_of n v) as [x|] eqn:Hx; [|done].
    destruct (negb (active x)); [done|]. destruct (note_pressure p s now x) as [y|] eqn:Hy; [|by destruct Hl].
    apply linked_on_neighbor; [done|]. intros x' Hx' Hnm. rewrite Hx in Hx'. injection Hx' as <-.
    pose proof (note_pressure_links _ _ _ _ _ Hy) as Hs. split; [|done]. eapply named_links; [done| |done].
    eapply note_pressure_ok; [apply Hnm|done].
  - unfold note_peer_stale, guarded. destruct (in_call_ v); [done|]. apply linked_on_neighbor; [done|].
    intros x Hx Hnm. assert (Hs : same_links x (set_capability
      (mkCapability false 0 0 (cap_node_boot (capability (reset_neighbor_measurement x)))
         (last_cap_exchange_ms (capability (reset_neighbor_measurement x)))) (reset_neighbor_measurement x))).
    { split; [done|]. split; [|done]. cbn. by rewrite (Hk x Hx). }
    split; [|exact Hs]. eapply named_links; [done| |exact Hs]. by apply capability_ok, reset_ok, Hnm.
  - unfold set_peer_busy_capable, guarded. destruct (in_call_ v); [done|]. apply linked_on_neighbor; [done|].
    intros x _ [Hok Hnx]. split; [|done]. split; [by apply capability_ok|done].
  - by apply linked_refresh.
  - by apply linked_records.
  - destruct Hl as [Hn Hd Hp]. split; [done|done|]. by apply expire_priced.
  - by destruct Hl.
Qed.

Inductive priced_run : LoadNode → Prop :=
  | run_start v : (∀ i, Slots.at_ i (neighbors_ v) = None) → (∀ i, Slots.at_ i (entries_ (routes_ v)) = None) → priced_run v
  | run_step v o : priced_run v → typed o → keeps_prices v o → priced_run (step o v).

Lemma priced_run_linked v : priced_run v → linked v.
Proof.
  induction 1 as [v H0 H1|v o _ IH Ht Hk]; [|by apply linked_step].
  split; [intros i x Hi; by rewrite H0 in Hi|intros i j x y Hi; by rewrite H0 in Hi|intros i e Hi; by rewrite H1 in Hi].
Qed.

(** C31: in every run in which peers join while they are not live neighbours
    and measurements are reset only at nominal cost, each valid candidate's
    metric is its advertised metric plus the current cost of its link,
    saturated, and its next hop is a live neighbour. *)
Theorem route_costs_follow_links v i e c :
  priced_run v → Slots.at_ i (entries_ (routes_ v)) = Some e → c ∈ candidates e → c_valid c = true →
  c_metric c = route_metric_add (c_advertised c) (peer_link_cost (c_next_hop c) v) ∧
  ∃ x, neighbor_of (c_next_hop c) v = Some x ∧ active x = true.
Proof.
  intros Hr Hi Hc Hv. destruct (lk_priced _ (priced_run_linked v Hr) i e Hi c Hc Hv) as (k & Hk & Hm).
  unfold cost_of in Hk. apply bind_Some in Hk as (x & Hx & Hk). destruct (active x) eqn:Ha; [|done]. injection Hk as <-.
  unfold peer_link_cost. rewrite Hx. split; [done|]. by exists x.
Qed.
