(* ===== verification/LinkCostDemo.v ===== *)
(** * Link costs on concrete runs

    A node with one neighbour under load, used to show that the hypotheses of
    the link-cost theorems can be met, and two runs in which a cost is kept
    longer than the comments of the code say. *)

From S2P Require Import Prelude Types Wire FixedContainers Routing Congestion Scheduler LinkCost LinkCostProps LinkCostRun LinkCostRoutes.

Definition start : LoadNode :=
  mkNode false true 1 40 30000 false (replicate kNeighborCapacity None) (set_self 1 empty_table) initial None [] 0 0 0 0 0 0.

Lemma start_blank : (∀ i, Slots.at_ i (neighbors_ start) = None) ∧ (∀ i, Slots.at_ i (entries_ (routes_ start)) = None).
Proof.
  split; intros i; unfold Slots.at_; cbn [neighbors_ start routes_ entries_ set_self empty_table].
  - destruct (replicate kNeighborCapacity None !! i) as [o|] eqn:H; [|done]. by apply lookup_replicate in H as [-> _].
  - destruct (replicate kMaxRouteEntries None !! i) as [o|] eqn:H; [|done]. by apply lookup_replicate in H as [-> _].
Qed.

(** A frame to peer 5 that waited 300 ms in the queue. *)
Definition slow_frame (exchange : bool) : TxJob :=
  mkJob Plain zero_header 10 5 60000 0 1000 200 OriginDelivery exchange 0 1 Priority.Normal false kInvalidTxnHandle.

Definition run (os : list op) (v : LoadNode) : LoadNode := fold_left (λ w o, step o w) os v.

Lemma run_reachable os : ∀ v, reachable v → Forall typed os → reachable (run os v).
Proof. induction os as [|o os IH]; intros v Hr Ht; [done|]. inversion Ht; subst. cbn. apply IH; [by constructor|done]. Qed.

(** Peer 5 joins at cost 10, a frame waits, its exchange is counted. *)
Definition busy_ops : list op := [OAdd 5 10 1000; OTouch 5 (TSubmit (slow_frame true) 1300); ORefresh 1400].
Definition busy_node : LoadNode := Eval vm_compute in run busy_ops start.
Definition refresh_times : list Z := (λ k, 4000 + 2000 * Z.of_nat k) <$> seq 0 46.

Ltac typed_ops := repeat (apply Forall_cons; split); try apply Forall_nil; cbn [typed]; done || (split; lia).

Lemma busy_reachable : reachable busy_node.
Proof.
  change busy_node with (run busy_ops start). apply run_reachable; [constructor; apply start_blank|]. typed_ops.
Qed.
Example busy_cost : peer_link_cost 5 busy_node = 50.
Proof. by vm_compute. Qed.

Lemma link_cost_bounds_witness : ∃ x, neighbor_of 5 busy_node = Some x ∧ metric x = 10 ∧ 1 ≤ metric x ≤ peer_link_cost 5 busy_node.
Proof.
  destruct (neighbor_of 5 busy_node) as [x|] eqn:Hx; [|by vm_compute in Hx]. exists x. split; [done|].
  split; [vm_compute in Hx; by injection Hx as <-|]. exact (proj1 (link_cost_bounds busy_node 5 x busy_reachable Hx)).
Defined.

Lemma spaced_times : spaced 2000 refresh_times.
Proof. unfold refresh_times, kObservationWindowMs. cbn. unfold kObservationWindowMs. repeat split; lia. Qed.

Lemma link_cost_recovers_witness : peer_link_cost 5 (refresh_run refresh_times busy_node) = 10.
Proof.
  destruct (neighbor_of 5 busy_node) as [x|] eqn:Hx; [|by vm_compute in Hx].
  assert (Hv : metric x = 10 ∧ active x = true ∧ exchange_window_ms (exchange (measured x)) = 1300 ∧
    last_sojourn_ms (sojourn (measured x)) = 1300 ∧ last_cost_relax_ms x = 0).
  { vm_compute in Hx. injection Hx as <-. by vm_compute. }
  destruct Hv as (Hm & Ha & He & Hs & Hr). rewrite <- Hm.
  apply (link_cost_recovers busy_node 5 x 2000 refresh_times busy_reachable Hx Ha);
    [split; by vm_compute|rewrite He; lia|rewrite Hs; lia|rewrite Hr; lia|exact spaced_times|by vm_compute].
Defined.

Lemma busy_priced_run : priced_run busy_node.
Proof.
  change busy_node with (step (ORefresh 1400) (step (OTouch 5 (TSubmit (slow_frame true) 1300)) (step (OAdd 5 10 1000) start))).
  repeat (apply run_step; [|cbn [typed]; done || (split; lia)|cbn [keeps_prices]; try done]).
  destruct start_blank. by constructor.
Qed.

(** The direct route to peer 5, first entry and first candidate. *)
Definition direct (v : LoadNode) : option RouteCandidate :=
  Slots.at_ 0 (entries_ (routes_ v)) ≫= λ e, candidates e !! 0%nat.

Lemma route_costs_follow_links_witness :
  ∃ c, direct busy_node = Some c ∧ c_metric c = route_metric_add (c_advertised c) (peer_link_cost (c_next_hop c) busy_node).
Proof.
  destruct (Slots.at_ 0 (entries_ (routes_ busy_node))) as [e|] eqn:He; [|by vm_compute in He].
  destruct (candidates e !! 0%nat) as [c|] eqn:Hc; [|vm_compute in He; by injection He as <-].
  exists c. split; [unfold direct; by rewrite He|].
  assert (Hv : c_valid c = true) by (vm_compute in He; injection He as <-; vm_compute in Hc; by injection Hc as <-).
  exact (proj1 (route_costs_follow_links busy_node 0 e c busy_priced_run He (list_elem_of_lookup_2 _ _ _ Hc) Hv)).
Defined.

(** ** A stale report leaves the old price behind *)

(** Resetting the measurements returns the cost to nominal without repricing
    the candidates; the refreshes that follow see no change and leave them. *)
Definition reset_node : LoadNode := run [OStale 5] busy_node.
(** On a concrete node whose link cost rose from 10 to 50, [note_peer_stale]
    returns it to 10, but the direct route keeps metric 50 through 46
    refreshes: the reset reprices no candidate and the refreshes see no change
    of cost. *)
Lemma stale_peer_keeps_old_price :
  peer_link_cost 5 (refresh_run refresh_times reset_node) = 10 ∧
  c_metric <$> direct (refresh_run refresh_times reset_node) = Some 50.
Proof. by vm_compute. Qed.

(** Peer 5, at cost 50, has advertised destination 9; it is then added again
    while it is live, which returns its cost to 10. *)
Definition readded_node : LoadNode := run [ORecords [mkAd 9 1 1 7] 5 1500 true; OAdd 5 10 1600] busy_node.
Definition via_five (d : NodeId) (v : LoadNode) : option Z := c_metric <$> (find d (routes_ v) ≫= λ e, candidates e !! 0%nat).
(** The route to 9 keeps the price of the old cost through 46 refreshes. *)
Lemma readded_peer_keeps_old_price :
  peer_link_cost 5 (refresh_run refresh_times readded_node) = 10 ∧ via_five 9 readded_node = Some 57 ∧
  via_five 9 (refresh_run refresh_times readded_node) = Some 57.
Proof. by vm_compute. Qed.

(** ** A dirty flag without a window *)

(** The frame needs no hop accept, so no exchange window opens; its outcome
    stays unknown.  The cost stays at five times its nominal value. *)
Definition tainted_node : LoadNode :=
  Eval vm_compute in run [OAdd 5 10 1000; OTouch 5 (TSubmit (slow_frame false) 1300); OTouch 5 TTaint; ORefresh 1400] start.
Lemma tainted_reachable : reachable tainted_node.
Proof.
  change tainted_node with (run [OAdd 5 10 1000; OTouch 5 (TSubmit (slow_frame false) 1300); OTouch 5 TTaint; ORefresh 1400] start).
  apply run_reachable; [constructor; apply start_blank|]. typed_ops.
Qed.
Lemma dirty_window_latches_witness : 50 ≤ peer_link_cost 5 (refresh_run refresh_times tainted_node).
Proof.
  destruct (neighbor_of 5 tainted_node) as [x|] eqn:Hx; [|by vm_compute in Hx].
  assert (Hv : link_cost x = 50 ∧ latched x) by (vm_compute in Hx; injection Hx as <-; by vm_compute).
  destruct Hv as [Hc Hl]. rewrite <- Hc.
  exact (proj1 (dirty_window_latches tainted_node 5 x refresh_times tainted_reachable Hx Hl)).
Defined.
