(* ===== verification/Dedup.v ===== *)
(** * Duplicate suppression (node.hpp [DedupEntry], node.cpp, node_receive.cpp)

    The bounded table of frames a node has accepted: its retention times, its
    eviction order, the shares of upstream peers and of terminal pins, and
    the admission of DATA frames at their destination, at a relay and on the
    routed lane.  The outcomes of the calls these handlers make into other
    components (the scheduler, the reply leases, the end-to-end opening) are
    inputs.  The evidence fields a relay keeps for failure reports are left
    out: they do not influence which records are kept. *)

From S2P Require Import Prelude Types FixedContainers.

Definition kMaxMessageLifetimeMs : Z := 30000.
Definition kLateResultTtlMs : Z := 30000.
Definition kTerminalRetentionMs : Z := kMaxMessageLifetimeMs + kLateResultTtlMs.
Definition kDedupHardCapMs : Z := kTerminalRetentionMs.
Definition kTerminalSlackMs : Z := kLateResultTtlMs.
Definition kTransitSlackMs : Z := 5000.

(** [enum class DedupPhase] *)
Inductive DedupPhase := Live | Resolved | Evidence | Terminal.
#[global] Instance DedupPhase_eq_dec : EqDecision DedupPhase.
Proof. solve_decision. Defined.

Record DedupEntry := mkDedup {
  d_key : MessageKey; d_type : Z; d_round : Z; phase : DedupPhase;
  first_seen_ms : Z; expires_at_ms : Z; upstream_peer : NodeId; delivered : bool; forwarded : bool }.
Definition empty_dedup : DedupEntry :=
  mkDedup (mkMessageKey kInvalidNodeId (mkMessageId 0 0)) FrameType.Data 0 Live 0 0 kInvalidNodeId false false.

Definition with_phase (p : DedupPhase) (e : DedupEntry) : DedupEntry :=
  mkDedup (d_key e) (d_type e) (d_round e) p (first_seen_ms e) (expires_at_ms e) (upstream_peer e) (delivered e) (forwarded e).
Definition with_expiry (t : Z) (e : DedupEntry) : DedupEntry :=
  mkDedup (d_key e) (d_type e) (d_round e) (phase e) (first_seen_ms e) t (upstream_peer e) (delivered e) (forwarded e).
Definition with_delivered (e : DedupEntry) : DedupEntry :=
  mkDedup (d_key e) (d_type e) (d_round e) (phase e) (first_seen_ms e) (expires_at_ms e) (upstream_peer e) true (forwarded e).
Definition with_forwarded (upstream : NodeId) (e : DedupEntry) : DedupEntry :=
  mkDedup (d_key e) (d_type e) (d_round e) (phase e) (first_seen_ms e) (expires_at_ms e) upstream (delivered e) true.

(** [struct DedupStats], saturating counters. *)
Record DedupStats := mkDedupStats {
  admitted_terminal : Z; admitted_transit : Z; refused_pool_full : Z; refused_terminal_reserve : Z;
  refused_upstream_cap : Z; evicted_resolved : Z; evicted_evidence : Z; expired : Z }.
Definition saturating_add (counter delta : Z) : Z := if bool_decide (UINT64_MAX - counter < delta) then UINT64_MAX else counter + delta.
Definition saturating_inc (counter : Z) : Z := if bool_decide (counter = UINT64_MAX) then counter else counter + 1.

Inductive Stat := AdmittedTerminal | AdmittedTransit | RefusedPool | RefusedReserve | RefusedUpstream | EvictedResolved | EvictedEvidence | ExpiredStat.
#[global] Instance Stat_eq_dec : EqDecision Stat.
Proof. solve_decision. Defined.
Definition bump_with (f : Z → Z) (which : Stat) (s : DedupStats) : DedupStats :=
  let at_ (w : Stat) (v : Z) := if bool_decide (w = which) then f v else v in
  mkDedupStats (at_ AdmittedTerminal (admitted_terminal s)) (at_ AdmittedTransit (admitted_transit s))
    (at_ RefusedPool (refused_pool_full s)) (at_ RefusedReserve (refused_terminal_reserve s))
    (at_ RefusedUpstream (refused_upstream_cap s)) (at_ EvictedResolved (evicted_resolved s))
    (at_ EvictedEvidence (evicted_evidence s)) (at_ ExpiredStat (expired s)).

Record DedupTable := mkDedupTable { dedup_ : Slots.slots DedupEntry; dedup_stats_ : DedupStats; next_poll_ms_ : Z; expiry_slots_scanned : Z }.

Definition set_dedup (s : Slots.slots DedupEntry) (t : DedupTable) : DedupTable :=
  mkDedupTable s (dedup_stats_ t) (next_poll_ms_ t) (expiry_slots_scanned t).
Definition bump (which : Stat) (t : DedupTable) : DedupTable :=
  mkDedupTable (dedup_ t) (bump_with saturating_inc which (dedup_stats_ t)) (next_poll_ms_ t) (expiry_slots_scanned t).
Definition release_at (i : nat) (t : DedupTable) : DedupTable := set_dedup (snd (Slots.release i (dedup_ t))) t.
Definition put (i : nat) (e : DedupEntry) (t : DedupTable) : DedupTable := set_dedup (Slots.set i e (dedup_ t)) t.

(** ** Lookups and counts *)

Definition same_frame (key : MessageKey) (type round : Z) (e : DedupEntry) : bool :=
  bool_decide (d_key e = key) && bool_decide (d_type e = type) && bool_decide (d_round e = round).
Definition find_dedup (key : MessageKey) (type round : Z) (t : DedupTable) : option nat :=
  Slots.find (same_frame key type round) (dedup_ t).

Definition count_where (p : DedupEntry → bool) (t : DedupTable) : nat := length (filter (λ e, p e = true) (Slots.live (dedup_ t))).
Definition held_by (upstream : NodeId) (e : DedupEntry) : bool :=
  negb (bool_decide (phase e = Terminal)) && bool_decide (upstream_peer e = upstream).
Definition count_transit_upstream (upstream : NodeId) (t : DedupTable) : nat := count_where (held_by upstream) t.
Definition in_phase (p : DedupPhase) (e : DedupEntry) : bool := bool_decide (phase e = p).
Definition count_terminal_pins (t : DedupTable) : nat := count_where (in_phase Terminal) t.
Definition lapsed (now_ms : Z) (e : DedupEntry) : bool := bool_decide (expires_at_ms e ≤ now_ms).

(** [rx_age_ms] is the driver-queue age of the frame being handled. *)
Definition dedup_expiry_for (rx_age_ms : Z) (p : DedupPhase) (deadline_remaining_ms first_seen now_ms : Z) : Z :=
  let claimed := Z.min deadline_remaining_ms kMaxMessageLifetimeMs in
  let remaining := if bool_decide (rx_age_ms < claimed) then claimed - rx_age_ms else 0 in
  let horizon := u64 (now_ms + remaining) in
  let slack := if bool_decide (p = Terminal) then kTerminalSlackMs else kTransitSlackMs in
  Z.min (u64 (first_seen + kDedupHardCapMs)) (u64 (horizon + slack)).

(** ** Eviction *)

(** The first slot that satisfies [p] with the least [rank]. *)
Fixpoint least_from (p : DedupEntry → bool) (rank : DedupEntry → Z) (i : nat) (s : Slots.slots DedupEntry)
  (best : option (nat * Z)) : option (nat * Z) :=
  match s with
  | [] => best
  | None :: s' => least_from p rank (S i) s' best
  | Some e :: s' =>
      let better := p e && match best with None => true | Some (_, r) => bool_decide (rank e < r) end in
      least_from p rank (S i) s' (if better then Some (i, rank e) else best)
  end.
Definition least (p : DedupEntry → bool) (rank : DedupEntry → Z) (t : DedupTable) : option nat :=
  fst <$> least_from p rank 0 (dedup_ t) None.

Definition release_dedup_victim (i : nat) (t : DedupTable) : DedupTable :=
  match Slots.at_ i (dedup_ t) with
  | Some e => bump (if bool_decide (phase e = Resolved) then EvictedResolved else EvictedEvidence) (release_at i t)
  | None => t
  end.

(** Among the records that satisfy [mine]: an expired one, else the Resolved
    one that expires first, else the oldest Evidence. *)
Definition evict_where (mine : DedupEntry → bool) (now_ms : Z) (t : DedupTable) : bool * DedupTable :=
  match Slots.find (λ e, mine e && lapsed now_ms e) (dedup_ t) with
  | Some i => (true, bump ExpiredStat (release_at i t))
  | None =>
      match least (λ e, mine e && in_phase Resolved e) expires_at_ms t with
      | Some i => (true, release_dedup_victim i t)
      | None =>
          match least (λ e, mine e && in_phase Evidence e) first_seen_ms t with
          | Some i => (true, release_dedup_victim i t)
          | None => (false, t)
          end
      end
  end.
Definition evict_dedup_for_admission (now_ms : Z) (t : DedupTable) : bool * DedupTable := evict_where (λ _, true) now_ms t.
Definition evict_dedup_for_upstream (upstream : NodeId) (now_ms : Z) (t : DedupTable) : bool * DedupTable :=
  evict_where (held_by upstream) now_ms t.

(** ** Admission *)

Section Admission.
(** [kDedupCapacity]: a compile-time constant of the resource profile. *)
Variable kDedupCapacity : nat.

Definition kDedupTransitReserve : nat := kDedupCapacity / 8.
Definition kDedupPerUpstreamMax : nat := kDedupCapacity * 3 / 8.
Definition kEvidenceCap : nat := kDedupCapacity / 4.
Definition kDedupTerminalPinMax : nat := kDedupCapacity - kDedupTransitReserve.

Definition initial : DedupTable :=
  mkDedupTable (replicate kDedupCapacity None) (mkDedupStats 0 0 0 0 0 0 0 0) 0 0.

Definition make_room (p : DedupPhase) (upstream : NodeId) (now_ms : Z) (t : DedupTable) : bool * DedupTable :=
  if negb (bool_decide (p = Terminal)) && (kDedupPerUpstreamMax <=? count_transit_upstream upstream t)%nat
  then evict_dedup_for_upstream upstream now_ms t else (true, t).

Definition take_slot (now_ms : Z) (t : DedupTable) : option nat * DedupTable :=
  match Slots.allocate empty_dedup (dedup_ t) with
  | (Some i, s) => (Some i, set_dedup s t)
  | (None, _) =>
      match evict_dedup_for_admission now_ms t with
      | (true, t1) => let '(r, s) := Slots.allocate empty_dedup (dedup_ t1) in (r, set_dedup s t1)
      | (false, t1) => (None, t1)
      end
  end.

Definition allocate_dedup (rx_age_ms : Z) (key : MessageKey) (type round : Z) (p : DedupPhase) (upstream : NodeId)
    (deadline_remaining_ms now_ms : Z) (t : DedupTable) : option nat * DedupTable :=
  match find_dedup key type round t with
  | Some i => (Some i, t)
  | None =>
      match make_room p upstream now_ms t with
      | (false, t1) => (None, bump RefusedUpstream t1)
      | (true, t1) =>
          match take_slot now_ms t1 with
          | (None, t2) => (None, bump RefusedPool t2)
          | (Some i, t2) =>
              let e := mkDedup key type round p now_ms
                         (dedup_expiry_for rx_age_ms p deadline_remaining_ms now_ms now_ms) upstream false false in
              (Some i, bump (if bool_decide (p = Terminal) then AdmittedTerminal else AdmittedTransit) (put i e t2))
          end
      end
  end.

(** ** Later stages of a record *)

(** [resolve_dedup_for_job], for a forwarded job whose acknowledged frame is
    [(key, type, round)]. *)
Definition resolve_dedup_for_job (key : MessageKey) (type round : Z) (t : DedupTable) : DedupTable :=
  match find_dedup key type round t with
  | Some i =>
      match Slots.at_ i (dedup_ t) with
      | Some e => if in_phase Live e then put i (with_phase Resolved e) t else t
      | None => t
      end
  | None => t
  end.

(** The records other than [i] that hold evidence. *)
Fixpoint other_evidence (i j : nat) (s : Slots.slots DedupEntry) : list (nat * Z) :=
  match s with
  | [] => []
  | Some e :: s' =>
      if in_phase Evidence e && negb (j =? i)%nat then (j, first_seen_ms e) :: other_evidence i (S j) s' else other_evidence i (S j) s'
  | None :: s' => other_evidence i (S j) s'
  end.
Definition older (best : option (nat * Z)) (x : nat * Z) : option (nat * Z) :=
  match best with
  | None => Some x
  | Some b => if bool_decide (snd x < snd b) then Some x else Some b
  end.

Definition mark_dedup_evidence (i : nat) (t : DedupTable) : DedupTable :=
  match Slots.at_ i (dedup_ t) with
  | None => t
  | Some e =>
      if in_phase Evidence e then t
      else
        let others := other_evidence i 0 (dedup_ t) in
        let t1 := if (kEvidenceCap <=? length others)%nat then
                    match fold_left older others None with
                    | Some (j, _) => bump EvictedEvidence (release_at j t)
                    | None => t
                    end
                  else t in
        put i (with_phase Evidence e) t1
  end.

(** A failure of forwarded work marks the record it names.  [evident] stands
    for the checks on what the model leaves out: for a failure at this node
    the retained fingerprint and a free report id, for a report from
    downstream the forwarding peer, destination, binding and fingerprint it
    has to match and a place to remember it. *)
Definition report_failure (evident : bool) (key : MessageKey) (type round : Z) (t : DedupTable) : DedupTable :=
  match Slots.find (λ e, same_frame key type round e && forwarded e) (dedup_ t) with
  | Some i =>
      match Slots.at_ i (dedup_ t) with
      | Some e => if negb evident || bool_decide (upstream_peer e = kInvalidNodeId) then t else mark_dedup_evidence i t
      | None => t
      end
  | None => t
  end.

Definition expire_dedup (now_ms : Z) (t : DedupTable) : DedupTable :=
  if (Slots.size (dedup_ t) =? 0)%nat then t
  else
    let poll := fold_left (λ p e, if bool_decide (now_ms < expires_at_ms e) then Z.min p (expires_at_ms e) else p)
                  (Slots.live (dedup_ t)) (next_poll_ms_ t) in
    let '(n, s) := Slots.erase_if (lapsed now_ms) (dedup_ t) in
    mkDedupTable s (bump_with (λ c, saturating_add c (Z.of_nat n)) ExpiredStat (dedup_stats_ t)) poll
      (saturating_add (expiry_slots_scanned t) (Z.of_nat kDedupCapacity)).

(** ** Handlers *)

(** What the calls into other components return while a frame is handled. *)
Record Outside := mkOutside {
  applied_slot : bool;       (* a result slot for an APPLIED frame, or not needed *)
  work_slot : bool;          (* origin slot and transaction deadline *)
  ack_slots : bool;          (* queue slots, control lane, transaction, reply lease probe *)
  end_opens : bool;          (* [wire::open_end] *)
  reply_reserved : bool;     (* receive binding and [reserve_rx_reply] *)
  applied_recorded : bool;   (* the record of an APPLIED frame, or not needed *)
  receipt_queued : bool; accept_queued : bool; forward_queued : bool }.

Inductive Verdict := Duplicate | Refused | Rejected | Delivered | Forwarded.
#[global] Instance Verdict_eq_dec : EqDecision Verdict.
Proof. solve_decision. Defined.

(** The pin an expired terminal record leaves: the last one in slot order. *)
Fixpoint last_slot (p : DedupEntry → bool) (i : nat) (s : Slots.slots DedupEntry) (found : option nat) : option nat :=
  match s with
  | [] => found
  | Some e :: s' => last_slot p (S i) s' (if p e then Some i else found)
  | None :: s' => last_slot p (S i) s' found
  end.

(** The rest of [handle_data] for a frame addressed to this node, after no
    record of it was found. *)
Definition admit_terminal (o : Outside) (rx_age_ms : Z) (key : MessageKey) (round : Z) (upstream : NodeId)
    (remaining_ms now_ms : Z) (t : DedupTable) : Verdict * DedupTable :=
  let expired_pin := last_slot (λ e, in_phase Terminal e && lapsed now_ms e) 0 (dedup_ t) None in
  let terminal_full := (kDedupTerminalPinMax <=? count_terminal_pins t)%nat in
  let terminal_refused := terminal_full && match expired_pin with None => true | Some _ => false end in
  let reclaimable := existsb (λ e, lapsed now_ms e || in_phase Resolved e || in_phase Evidence e) (Slots.live (dedup_ t)) in
  if negb (applied_slot o) then (Refused, t)
  else if terminal_refused || negb (work_slot o) then (Refused, if terminal_refused then bump RefusedReserve t else t)
  else if (length (Slots.live (dedup_ t)) =? kDedupCapacity)%nat && negb reclaimable then (Refused, bump RefusedPool t)
  else if negb (ack_slots o) then (Refused, t)
  else if negb (end_opens o) then (Rejected, t)
  else if negb (reply_reserved o) then (Refused, t)
  else
    let t1 := if terminal_full then match expired_pin with Some i => bump ExpiredStat (release_at i t) | None => t end else t in
    if negb (applied_recorded o) then (Refused, t1) else
    match allocate_dedup rx_age_ms key FrameType.Data round Terminal upstream remaining_ms now_ms t1 with
    | (None, t2) => (Refused, t2)
    | (Some i, t2) =>
        if negb (receipt_queued o && accept_queued o) then (Refused, release_at i t2)
        else match Slots.at_ i (dedup_ t2) with
             | Some e => (Delivered, put i (with_delivered e) t2)
             | None => (Delivered, t2)
             end
    end.

Definition pinned (key : MessageKey) (e : DedupEntry) : bool :=
  bool_decide (d_key e = key) && bool_decide (d_type e = FrameType.Data) && in_phase Terminal e && delivered e.

(** [handle_data] at the frame's destination. *)
Definition handle_terminal (o : Outside) (rx_age_ms : Z) (key : MessageKey) (round : Z) (upstream : NodeId)
    (remaining_ms now_ms : Z) (t : DedupTable) : Verdict * DedupTable :=
  match Slots.find (pinned key) (dedup_ t) with
  | Some i =>
      match Slots.at_ i (dedup_ t) with
      | Some e => (Duplicate, put i (with_expiry (Z.max (expires_at_ms e)
                    (dedup_expiry_for rx_age_ms Terminal remaining_ms (first_seen_ms e) now_ms)) e) t)
      | None => (Duplicate, t)
      end
  | None =>
      match find_dedup key FrameType.Data round t with
      | Some _ => (Duplicate, t)
      | None => admit_terminal o rx_age_ms key round upstream remaining_ms now_ms t
      end
  end.

(** A transit frame once the scheduler and the reply lease admitted it. *)
Definition handle_transit (o : Outside) (rx_age_ms : Z) (key : MessageKey) (type round : Z) (upstream previous_hop : NodeId)
    (remaining_ms now_ms : Z) (t : DedupTable) : Verdict * DedupTable :=
  match find_dedup key type round t with
  | Some _ => (Duplicate, t)
  | None =>
      match allocate_dedup rx_age_ms key type round Live upstream remaining_ms now_ms t with
      | (None, t1) => (Refused, t1)
      | (Some i, t1) =>
          if negb (forward_queued o) then (Refused, release_at i t1)
          else match Slots.at_ i (dedup_ t1) with
               | Some e => (Forwarded, put i (with_forwarded previous_hop e) t1)
               | None => (Forwarded, t1)
               end
      end
  end.

(** A routed frame at its destination, whose record is born Resolved. *)
Definition handle_routed (o : Outside) (rx_age_ms : Z) (key : MessageKey) (type round : Z) (upstream : NodeId)
    (remaining_ms now_ms : Z) (t : DedupTable) : Verdict * DedupTable :=
  match find_dedup key type round t with
  | Some _ => (Duplicate, t)
  | None =>
      match allocate_dedup rx_age_ms key type round Resolved upstream remaining_ms now_ms t with
      | (None, t1) => (Refused, t1)
      | (Some i, t1) =>
          if negb (accept_queued o) then (Refused, release_at i t1)
          else match Slots.at_ i (dedup_ t1) with
               | Some e => (Delivered, put i (with_delivered e) t1)
               | None => (Delivered, t1)
               end
      end
  end.

End Admission.
