(* ===== verification/DedupProps.v ===== *)
(** * What duplicate suppression promises

    Unexpired Live and Terminal records survive every admission, so a DATA
    message is delivered once within its retention, and no class of records
    outgrows its share of the table. *)

From S2P Require Import Prelude Types FixedContainers Routing Dedup.

(** ** Records that survive *)

Definition keeps (P : DedupEntry → Prop) (t t' : DedupTable) : Prop :=
  ∀ i e, Slots.at_ i (dedup_ t) = Some e → P e → Slots.at_ i (dedup_ t') = Some e.
(** Records no admission may evict. *)
Definition protected (now : Z) (e : DedupEntry) : Prop := (phase e = Live ∨ phase e = Terminal) ∧ now < expires_at_ms e.

Lemma keeps_refl P t : keeps P t t.
Proof. by intros i e. Qed.
Lemma keeps_trans P t1 t2 t3 : keeps P t1 t2 → keeps P t2 t3 → keeps P t1 t3.
Proof. intros H1 H2 i e Hi HP. by apply H2; [apply H1|]. Qed.
Lemma keeps_weaken (P Q : DedupEntry → Prop) t t' : (∀ e, Q e → P e) → keeps P t t' → keeps Q t t'.
Proof. intros HPQ Hk i e Hi HQ. apply Hk; auto. Qed.
#[local] Hint Resolve keeps_refl : core.

Lemma release_at_spec i j t :
  Slots.at_ j (dedup_ (release_at i t)) = if decide (j = i) then None else Slots.at_ j (dedup_ t).
Proof.
  unfold release_at, Slots.release. cbn. destruct (dedup_ t !! i) as [[e|]|] eqn:Hi; cbn [snd].
  - unfold Slots.at_. destruct (decide (j = i)) as [->|Hne].
    + by rewrite list_lookup_insert_eq by (by eapply lookup_lt_Some).
    + by rewrite list_lookup_insert_ne.
  - unfold Slots.at_. destruct (decide (j = i)) as [->|]; [by rewrite Hi|done].
  - unfold Slots.at_. destruct (decide (j = i)) as [->|]; [by rewrite Hi|done].
Qed.

Lemma keeps_release P i t : (∀ e, Slots.at_ i (dedup_ t) = Some e → ¬ P e) → keeps P t (release_at i t).
Proof.
  intros Hi j e Hj HP. rewrite release_at_spec. destruct (decide (j = i)) as [->|]; [|done]. by destruct (Hi e Hj).
Qed.

Lemma keeps_put P i v t : (∀ e, Slots.at_ i (dedup_ t) = Some e → ¬ P e) → keeps P t (put i v t).
Proof.
  intros Hi j e Hj HP. cbn. destruct (decide (j = i)) as [->|Hne]; [by destruct (Hi e Hj)|].
  unfold Slots.at_, Slots.set in *. by rewrite list_lookup_insert_ne.
Qed.

Lemma keeps_bump P w t t' : keeps P t t' → keeps P t (bump w t').
Proof. done. Qed.

Lemma lapsed_unprotected now e : lapsed now e = true → ¬ protected now e.
Proof. intros H%bool_decide_eq_true [_ ?]. lia. Qed.
Lemma phase_unprotected now p e : in_phase p e = true → p = Resolved ∨ p = Evidence → ¬ protected now e.
Proof. intros H%bool_decide_eq_true Hp [[?|?] _]; destruct Hp; congruence. Qed.

(** ** Victims *)

Lemma least_from_spec p rank s : ∀ i best j r,
  least_from p rank i s best = Some (j, r) →
  (best = Some (j, r) ∨ ∃ k e, j = (i + k)%nat ∧ Slots.at_ k s = Some e ∧ p e = true ∧ r = rank e) ∧
  (∀ k e, Slots.at_ k s = Some e → p e = true → r ≤ rank e) ∧ (∀ b, best = Some b → r ≤ snd b).
Proof.
  induction s as [|[e|] s IH]; intros i best j r; cbn [least_from].
  - intros ->. split; [by left|]. split; [intros k e Hk; unfold Slots.at_ in Hk; by destruct k|]. by intros b [= <-].
  - cbv zeta. set (better := p e && _). intros H. apply IH in H as (Hfrom & Hmin & Hb).
    assert (Hr : (p e = true → r ≤ rank e) ∧ (∀ b, best = Some b → r ≤ snd b)).
    { destruct better eqn:Hbt; unfold better in Hbt.
      - specialize (Hb _ eq_refl) as Hre. cbn in Hre. split; [done|]. intros [k0 r0] ->. cbn. apply andb_true_iff in Hbt as [_ Hlt].
        apply bool_decide_eq_true in Hlt. lia.
      - split; [|by intros b ->; apply Hb]. intros Hp. rewrite Hp in Hbt. cbn in Hbt. destruct best as [[k0 r0]|]; [|done].
        apply bool_decide_eq_false in Hbt. specialize (Hb _ eq_refl). cbn in Hb. lia. }
    destruct Hr as [Hre Hbest]. split; [|split; [|done]].
    + destruct Hfrom as [Heq|(k & e' & -> & He' & Hp' & ->)].
      * destruct better eqn:Hbt; [|by left]. injection Heq as <- <-. right. exists 0%nat, e.
        unfold better in Hbt. apply andb_true_iff in Hbt as [Hp _]. by rewrite Nat.add_0_r.
      * right. exists (S k), e'. split; [lia|done].
    + intros [|k] e' He' Hp'; [injection He' as <-; by apply Hre|]. by apply (Hmin k e').
  - intros H. apply IH in H as (Hfrom & Hmin & Hb). split; [|split; [|done]].
    + destruct Hfrom as [|(k & e' & -> & He' & Hp' & ->)]; [by left|]. right. exists (S k), e'. split; [lia|done].
    + intros [|k] e' He' Hp'; [done|]. by apply (Hmin k e').
Qed.

(** [least] returns a matching record of least rank. *)
Lemma least_spec p rank t i :
  least p rank t = Some i →
  ∃ e, Slots.at_ i (dedup_ t) = Some e ∧ p e = true ∧
    ∀ j e', Slots.at_ j (dedup_ t) = Some e' → p e' = true → rank e ≤ rank e'.
Proof.
  unfold least. intros ([j r] & H & ->)%fmap_Some. apply least_from_spec in H as ([?|(k & e & -> & He & Hp & ->)] & Hmin & _); [done|].
  exists e. by split_and!.
Qed.

Lemma least_from_none p rank s : ∀ i best, least_from p rank i s best = None →
  best = None ∧ ∀ k e, Slots.at_ k s = Some e → p e = false.
Proof.
  induction s as [|[e|] s IH]; intros i best; cbn [least_from].
  - intros ->. split; [done|]. intros k e Hk. unfold Slots.at_ in Hk. by destruct k.
  - cbv zeta. intros [Hb Hs]%IH. destruct (p e) eqn:Hp; cbn [andb] in Hb.
    + destruct best as [[k0 r0]|]; [|done]. by destruct (bool_decide _).
    + split; [done|]. intros [|k] e' He'; [by injection He' as <-|by apply (Hs k)].
  - intros [Hb Hs]%IH. split; [done|]. intros [|k] e' He'; [done|by apply (Hs k)].
Qed.

(** The documented order of victims: expired, else the Resolved record that
    expires first, else the oldest Evidence. *)
Definition evictable (mine : DedupEntry → bool) (now : Z) (t : DedupTable) (e : DedupEntry) : Prop :=
  mine e = true ∧
  (lapsed now e = true ∨
   ((∀ j x, Slots.at_ j (dedup_ t) = Some x → mine x = true → lapsed now x = false) ∧
    ((phase e = Resolved ∧ ∀ j x, Slots.at_ j (dedup_ t) = Some x → mine x = true → phase x = Resolved → expires_at_ms e ≤ expires_at_ms x) ∨
     (phase e = Evidence ∧ ∀ j x, Slots.at_ j (dedup_ t) = Some x → mine x = true → phase x ≠ Resolved ∧
        (phase x = Evidence → first_seen_ms e ≤ first_seen_ms x))))).

Lemma evict_where_spec mine now t :
  let r := evict_where mine now t in
  if fst r then ∃ i e, Slots.at_ i (dedup_ t) = Some e ∧ evictable mine now t e ∧ dedup_ (snd r) = dedup_ (release_at i t)
  else snd r = t ∧ ∀ j x, Slots.at_ j (dedup_ t) = Some x → mine x = true → protected now x.
Proof.
  cbv zeta. unfold evict_where. destruct (Slots.find _ _) as [i|] eqn:Hf.
  { apply slots_find_at in Hf as (e & _ & He & Hp). apply andb_true_iff in Hp as [Hm Hl]. exists i, e. cbn [fst snd].
    split; [done|]. split; [|done]. split; [done|by left]. }
  assert (Hlive : ∀ j x, Slots.at_ j (dedup_ t) = Some x → mine x = true → lapsed now x = false).
  { intros j x Hx Hm. apply at_lookup in Hx. pose proof (proj1 (Slots.find_None _ _) Hf j x Hx) as Hb. cbv beta in Hb.
    by rewrite Hm in Hb. }
  destruct (least _ expires_at_ms t) as [i|] eqn:Hr.
  { apply least_spec in Hr as (e & He & Hp & Hmin). apply andb_true_iff in Hp as [Hm Hph]. exists i, e. cbn [fst snd].
    split; [done|]. split; [|unfold release_dedup_victim; by rewrite He]. split; [done|]. right. split; [done|]. left.
    apply bool_decide_eq_true in Hph. split; [done|]. intros j x Hx Hmx Hpx. apply (Hmin j x Hx). rewrite Hmx. by apply bool_decide_eq_true. }
  apply fmap_None in Hr. apply least_from_none in Hr as [_ Hr].
  assert (Hnr : ∀ j x, Slots.at_ j (dedup_ t) = Some x → mine x = true → phase x ≠ Resolved).
  { intros j x Hx Hm Hp. specialize (Hr j x Hx). cbv beta in Hr. rewrite Hm in Hr. by apply bool_decide_eq_false in Hr. }
  destruct (least _ first_seen_ms t) as [i|] eqn:Hv.
  { apply least_spec in Hv as (e & He & Hp & Hmin). apply andb_true_iff in Hp as [Hm Hph]. exists i, e. cbn [fst snd].
    split; [done|]. split; [|unfold release_dedup_victim; by rewrite He]. split; [done|]. right. split; [done|]. right.
    apply bool_decide_eq_true in Hph. split; [done|]. intros j x Hx Hmx. split; [by apply (Hnr j)|]. intros Hpx.
    apply (Hmin j x Hx). rewrite Hmx. by apply bool_decide_eq_true. }
  apply fmap_None in Hv. apply least_from_none in Hv as [_ Hv]. cbn [fst snd]. split; [done|]. intros j x Hx Hm.
  specialize (Hv j x Hx). cbv beta in Hv. rewrite Hm in Hv. apply bool_decide_eq_false in Hv.
  pose proof (Hnr j x Hx Hm). pose proof (Hlive j x Hx Hm) as Hl. apply bool_decide_eq_false in Hl.
  split; [destruct (phase x); auto; done|lia].
Qed.

Lemma evictable_unprotected mine now t e : evictable mine now t e → ¬ protected now e.
Proof.
  intros [_ [Hl|[_ [[Hp _]|[Hp _]]]]]; [by apply lapsed_unprotected| |];
    (eapply phase_unprotected; [by apply bool_decide_eq_true|auto]).
Qed.

Lemma keeps_evict mine now t : keeps (protected now) t (snd (evict_where mine now t)).
Proof.
  pose proof (evict_where_spec mine now t) as H. cbv zeta in H. destruct (evict_where mine now t) as [[] t']; cbn [fst snd] in *.
  - destruct H as (i & e & He & Hev & Hd). intros j x Hx HP. rewrite Hd. apply (keeps_release (protected now)); [|done|done].
    intros e' He'. rewrite He in He'. injection He' as <-. by eapply evictable_unprotected.
  - by destruct H as [-> _].
Qed.

(** ** Admission *)

(** Nothing appears at a slot that was not there. *)
Definition within (t t' : DedupTable) : Prop := ∀ j e, Slots.at_ j (dedup_ t') = Some e → Slots.at_ j (dedup_ t) = Some e.

Lemma within_trans t1 t2 t3 : within t1 t2 → within t2 t3 → within t1 t3.
Proof. intros H1 H2 j e H. auto. Qed.
Lemma within_release i t : within t (release_at i t).
Proof. intros j e. rewrite release_at_spec. by destruct (decide (j = i)). Qed.
Lemma within_evict mine now t : within t (snd (evict_where mine now t)).
Proof.
  pose proof (evict_where_spec mine now t) as H. cbv zeta in H. destruct (evict_where mine now t) as [[] t']; cbn [fst snd] in *.
  - destruct H as (i & e & _ & _ & Hd). intros j x Hx. rewrite Hd in Hx. by apply within_release in Hx.
  - destruct H as [-> _]. by intros j x.
Qed.

Lemma allocate_slot t i s :
  Slots.allocate empty_dedup (dedup_ t) = (Some i, s) →
  Slots.at_ i (dedup_ t) = None ∧ Slots.at_ i s = Some empty_dedup ∧ (∀ j, j ≠ i → Slots.at_ j s = Slots.at_ j (dedup_ t)).
Proof.
  intros [Hi ->]%slots_allocate_free. pose proof (lookup_lt_Some _ _ _ Hi) as Hl.
  split; [unfold Slots.at_; by rewrite Hi|]. split; [by rewrite at_set, decide_True|].
  intros j Hj. by rewrite at_set, decide_False.
Qed.

(** The slot a new record gets held nothing that is protected. *)
Lemma take_slot_spec now t r t' :
  take_slot now t = (r, t') →
  keeps (protected now) t t' ∧
  (∀ i, r = Some i → Slots.at_ i (dedup_ t') = Some empty_dedup ∧ (∀ e, Slots.at_ i (dedup_ t) = Some e → ¬ protected now e) ∧
    ∀ j e, j ≠ i → Slots.at_ j (dedup_ t') = Some e → Slots.at_ j (dedup_ t) = Some e).
Proof.
  unfold take_slot. destruct (Slots.allocate empty_dedup (dedup_ t)) as [[i|] s] eqn:Ha.
  { intros [= <- <-]. destruct (allocate_slot _ _ _ Ha) as (Hn & Hi & Ho). split.
    - intros j e Hj _. cbn. rewrite Ho; [done|]. congruence.
    - intros k [= <-]. cbn. split; [done|]. split; [intros e He; congruence|]. intros j e Hj. by rewrite Ho. }
  pose proof (keeps_evict (λ _, true) now t) as Hk. pose proof (within_evict (λ _, true) now t) as Hw.
  fold (evict_dedup_for_admission now t) in *. destruct (evict_dedup_for_admission now t) as [[] t1]; cbn [snd] in *.
  2: { intros [= <- <-]. split; [done|]. done. }
  destruct (Slots.allocate empty_dedup (dedup_ t1)) as [[i|] s1] eqn:Ha1; intros [= <- <-].
  - destruct (allocate_slot _ _ _ Ha1) as (Hn & Hi & Ho). split.
    + eapply keeps_trans; [done|]. intros j e Hj _. cbn. rewrite Ho; [done|]. congruence.
    + intros k [= <-]. cbn. split; [done|]. split; [|intros j e Hj; rewrite Ho by done; apply Hw].
      intros e He HP. rewrite (Hk i e He HP) in Hn. done.
  - split; [|done]. unfold Slots.allocate in Ha1. destruct (Slots.first_free _); [done|]. by injection Ha1 as <-.
Qed.

Lemma make_room_spec cap p up now t b t' :
  make_room cap p up now t = (b, t') → keeps (protected now) t t' ∧ within t t'.
Proof.
  unfold make_room. destruct (_ && _); [|intros [= <- <-]; split; [done|by intros j e]]. intros H.
  pose proof (keeps_evict (held_by up) now t) as Hk. pose proof (within_evict (held_by up) now t) as Hw.
  unfold evict_dedup_for_upstream in H. rewrite H in Hk, Hw. done.
Qed.

Definition new_entry (age : Z) (key : MessageKey) (type round : Z) (p : DedupPhase) (up : NodeId) (rem now : Z) : DedupEntry :=
  mkDedup key type round p now (dedup_expiry_for age p rem now now) up false false.

(** A refused admission evicts at most unprotected records; a successful one
    puts the new record where none of them was. *)
Lemma allocate_spec cap age key type round p up rem now t r t' :
  find_dedup key type round t = None → allocate_dedup cap age key type round p up rem now t = (r, t') →
  keeps (protected now) t t' ∧
  (∀ i, r = Some i → Slots.at_ i (dedup_ t') = Some (new_entry age key type round p up rem now) ∧
    (∀ e, Slots.at_ i (dedup_ t) = Some e → ¬ protected now e) ∧
    ∀ j e, j ≠ i → Slots.at_ j (dedup_ t') = Some e → Slots.at_ j (dedup_ t) = Some e).
Proof.
  intros Hf. unfold allocate_dedup. rewrite Hf. destruct (make_room cap p up now t) as [[] t1] eqn:Hm.
  2: { intros [= <- <-]. apply make_room_spec in Hm as [Hk _]. split; [by apply keeps_bump|done]. }
  apply make_room_spec in Hm as [Hk Hw]. destruct (take_slot now t1) as [[i|] t2] eqn:Ht.
  2: { intros [= <- <-]. apply take_slot_spec in Ht as [Hk2 _]. split; [|done]. apply keeps_bump. by eapply keeps_trans. }
  intros [= <- <-]. apply take_slot_spec in Ht as [Hk2 Hi]. destruct (Hi i eq_refl) as (He & Hfree & Ho).
  pose proof (at_lt _ _ _ He) as Hl. split.
  - eapply keeps_trans; [exact Hk|]. apply keeps_bump. intros j e Hj HP. pose proof (Hk2 j e Hj HP) as H2. cbn.
    rewrite at_set by done. destruct (decide (j = i)) as [->|]; [|done]. by destruct (Hfree e Hj).
  - intros k [= <-]. cbn. rewrite at_set by done. rewrite decide_True by done. split; [done|]. split.
    + intros e Hj HP. apply (Hfree e); [|done]. by apply Hk.
    + intros j e Hj. rewrite at_set by done. rewrite decide_False by done. intros H. by apply Hw, Ho.
Qed.

(** ** Runs *)

Inductive op :=
  | OTerminal (o : Outside) (age : Z) (key : MessageKey) (round : Z) (up : NodeId) (rem : Z)
  | OTransit (o : Outside) (age : Z) (key : MessageKey) (type round : Z) (up : NodeId) (rem : Z)
  | ORouted (o : Outside) (age : Z) (key : MessageKey) (type round : Z) (up : NodeId) (rem : Z)
  | OResolve (key : MessageKey) (type round : Z)
  | OFail (evident : bool) (key : MessageKey) (type round : Z)
  | OExpire.

(** A DATA message handed to the application: when, with which remaining
    lifetime and driver-queue age. *)
Record delivery := mkDelivery { dl_key : MessageKey; dl_at : Z; dl_remaining : Z; dl_age : Z }.

Definition step (cap : nat) (now : Z) (o : op) (t : DedupTable) : list delivery * DedupTable :=
  match o with
  | OTerminal out age key round up rem =>
      let '(r, t') := handle_terminal cap out age key round up rem now t in
      (if bool_decide (r = Delivered) then [mkDelivery key now rem age] else [], t')
  | OTransit out age key type round up rem => ([], snd (handle_transit cap out age key type round up up rem now t))
  | ORouted out age key type round up rem => ([], snd (handle_routed cap out age key type round up rem now t))
  | OResolve key type round => ([], resolve_dedup_for_job key type round t)
  | OFail evident key type round => ([], report_failure cap evident key type round t)
  | OExpire => ([], expire_dedup cap now t)
  end.

Definition pin (now : Z) (e : DedupEntry) : Prop := phase e = Terminal ∧ now < expires_at_ms e.
Definition alive (key : MessageKey) (until : Z) (t : DedupTable) : Prop :=
  ∃ i e, Slots.at_ i (dedup_ t) = Some e ∧ pinned key e = true ∧ until ≤ expires_at_ms e.
(** A record that forwarded a frame is not a terminal pin. *)
Definition relays_unpinned (t : DedupTable) : Prop := ∀ i e, Slots.at_ i (dedup_ t) = Some e → forwarded e = true → phase e ≠ Terminal.

Lemma pin_protected now e : pin now e → protected now e.
Proof. intros [? ?]. split; [by right|done]. Qed.
Lemma keeps_pins now t t' : keeps (protected now) t t' → keeps (pin now) t t'.
Proof. apply keeps_weaken. apply pin_protected. Qed.

Lemma pinned_phase key e : pinned key e = true → phase e = Terminal ∧ d_key e = key.
Proof.
  unfold pinned. intros H. apply andb_true_iff in H as [H _]. apply andb_true_iff in H as [H Hp].
  apply andb_true_iff in H as [Hk _]. apply bool_decide_eq_true in Hk. by apply bool_decide_eq_true in Hp.
Qed.

Lemma keeps_alive now key until t t' : keeps (pin now) t t' → now < until → alive key until t → alive key until t'.
Proof.
  intros Hk Hn (i & e & Hi & Hp & He). exists i, e. split; [|done]. apply Hk; [done|].
  split; [by eapply pinned_phase|lia].
Qed.

(** A fresh record, finished or rolled back. *)
Lemma keeps_finish now i t t' v :
  keeps (protected now) t t' → (∀ e, Slots.at_ i (dedup_ t) = Some e → ¬ protected now e) → keeps (protected now) t (put i v t').
Proof.
  intros Hk Hi j e Hj HP. pose proof (Hk j e Hj HP) as H'. cbn. destruct (decide (j = i)) as [->|Hne]; [by destruct (Hi e Hj)|].
  unfold Slots.at_, Slots.set in *. by rewrite list_lookup_insert_ne.
Qed.
Lemma keeps_rollback now i t t' :
  keeps (protected now) t t' → (∀ e, Slots.at_ i (dedup_ t) = Some e → ¬ protected now e) → keeps (protected now) t (release_at i t').
Proof.
  intros Hk Hi j e Hj HP. pose proof (Hk j e Hj HP) as H'. rewrite release_at_spec.
  destruct (decide (j = i)) as [->|]; [by destruct (Hi e Hj)|done].
Qed.

Lemma transit_keeps cap out age key type round up prev rem now t :
  keeps (protected now) t (snd (handle_transit cap out age key type round up prev rem now t)).
Proof.
  unfold handle_transit. destruct (find_dedup key type round t) eqn:Hf; [done|].
  destruct (allocate_dedup cap age key type round Live up rem now t) as [[i|] t1] eqn:Ha; apply allocate_spec in Ha as [Hk Hi]; try done.
  destruct (Hi i eq_refl) as (He & Hfree & _). destruct (negb _); cbn [snd]; [by apply keeps_rollback|].
  rewrite He. cbn [snd]. by apply keeps_finish.
Qed.

Lemma routed_keeps cap out age key type round up rem now t :
  keeps (protected now) t (snd (handle_routed cap out age key type round up rem now t)).
Proof.
  unfold handle_routed. destruct (find_dedup key type round t) eqn:Hf; [done|].
  destruct (allocate_dedup cap age key type round Resolved up rem now t) as [[i|] t1] eqn:Ha; apply allocate_spec in Ha as [Hk Hi]; try done.
  destruct (Hi i eq_refl) as (He & Hfree & _). destruct (negb _); cbn [snd]; [by apply keeps_rollback|].
  rewrite He. cbn [snd]. by apply keeps_finish.
Qed.

Lemma find_within key type round t t' : within t t' → find_dedup key type round t = None → find_dedup key type round t' = None.
Proof.
  intros Hw Hf. apply Slots.find_None. intros j e Hj. apply (proj1 (Slots.find_None _ _) Hf j). apply at_lookup, Hw. by apply at_lookup.
Qed.

Lemma last_slot_spec p s : ∀ i found k,
  last_slot p i s found = Some k → found = Some k ∨ ∃ j e, k = (i + j)%nat ∧ Slots.at_ j s = Some e ∧ p e = true.
Proof.
  induction s as [|[e|] s IH]; intros i found k; cbn [last_slot]; [by left| |].
  - intros [Hf|(j & e' & -> & He' & Hp)]%IH.
    + destruct (p e) eqn:Hp; [|by left]. injection Hf as <-. right. exists 0%nat, e. by rewrite Nat.add_0_r.
    + right. exists (S j), e'. split; [lia|done].
  - intros [Hf|(j & e' & -> & He' & Hp)]%IH; [by left|]. right. exists (S j), e'. split; [lia|done].
Qed.

(** What the admission at the destination does to the table. *)
Lemma admit_terminal_spec cap out age key round up rem now t :
  find_dedup key FrameType.Data round t = None →
  let r := admit_terminal cap out age key round up rem now t in
  keeps (protected now) t (snd r) ∧ (fst r ≠ Duplicate) ∧
  (fst r = Delivered → ∃ i, Slots.at_ i (dedup_ (snd r)) =
     Some (with_delivered (new_entry age key FrameType.Data round Terminal up rem now))).
Proof.
  intros Hf. cbv zeta. unfold admit_terminal. cbv zeta. set (pin_slot := last_slot _ _ _ _).
  destruct (negb (applied_slot out)); [done|]. destruct (_ || negb (work_slot out)).
  { cbn [fst snd]. split; [|done]. destruct (_ && _); [apply keeps_bump|]; done. }
  destruct (_ && negb _); [split; [apply keeps_bump|]; done|]. destruct (negb (ack_slots out)); [done|]. destruct (negb (end_opens out)); [done|].
  destruct (negb (reply_reserved out)); [done|].
  set (t1 := if _ : bool then _ else t).
  assert (H1 : keeps (protected now) t t1 ∧ within t t1).
  { unfold t1. destruct (_ <=? _)%nat; [|split; [done|by intros j e]].
    destruct pin_slot as [i|] eqn:Hi; [|split; [done|by intros j e]].
    apply last_slot_spec in Hi as [?|(j & e & -> & He & Hp)]; [done|]. apply andb_true_iff in Hp as [_ Hl]. split.
    - apply keeps_bump, keeps_release. intros e' He'. cbn in He'. rewrite He in He'. injection He' as <-. by apply lapsed_unprotected.
    - intros k x Hx. by apply within_release in Hx. }
  clearbody t1. destruct H1 as [Hk1 Hw1]. destruct (negb (applied_recorded out)); [done|]. pose proof (find_within _ _ _ _ _ Hw1 Hf) as Hf1.
  destruct (allocate_dedup cap age key FrameType.Data round Terminal up rem now t1) as [[i|] t2] eqn:Ha; apply allocate_spec in Ha as [Hk Hi]; try done.
  2: { cbn. split; [by eapply keeps_trans|done]. }
  destruct (Hi i eq_refl) as (He & Hfree & _). pose proof (keeps_trans _ _ _ _ Hk1 Hk) as Hk2.
  assert (Hfree' : ∀ e, Slots.at_ i (dedup_ t) = Some e → ¬ protected now e).
  { intros e Hie HP. apply (Hfree e); [by apply Hk1|done]. }
  destruct (negb _); cbn [fst snd]; [split; [by apply keeps_rollback|done]|]. rewrite He. cbn [fst snd].
  split; [by apply keeps_finish|]. split; [done|]. intros _. exists i. cbn. rewrite at_set by (by eapply at_lt). by rewrite decide_True.
Qed.

Lemma resolve_keeps now key type round t : keeps (pin now) t (resolve_dedup_for_job key type round t).
Proof.
  unfold resolve_dedup_for_job. destruct (find_dedup key type round t) as [i|]; [|done].
  destruct (Slots.at_ i (dedup_ t)) as [e|] eqn:He; [|done]. destruct (in_phase Live e) eqn:Hl; [|done].
  apply bool_decide_eq_true in Hl. apply keeps_put. intros x Hx [Hp _]. congruence.
Qed.

Lemma other_evidence_spec i s : ∀ j k f, (k, f) ∈ other_evidence i j s →
  k ≠ i ∧ ∃ d e, k = (j + d)%nat ∧ Slots.at_ d s = Some e ∧ phase e = Evidence ∧ f = first_seen_ms e.
Proof.
  induction s as [|[e|] s IH]; intros j k f; cbn [other_evidence]; [by intros ?%not_elem_of_nil| |].
  - assert (Htail : (k, f) ∈ other_evidence i (S j) s →
      k ≠ i ∧ ∃ d e', k = (j + d)%nat ∧ Slots.at_ d (Some e :: s) = Some e' ∧ phase e' = Evidence ∧ f = first_seen_ms e').
    { intros (Hki & d & e' & -> & H)%IH. split; [done|]. exists (S d), e'. split; [lia|done]. }
    destruct (_ && _) eqn:Hb; [|done]. apply andb_true_iff in Hb as [Hp%bool_decide_eq_true Hj%negb_true_iff].
    apply Nat.eqb_neq in Hj. intros [[= -> ->]|H]%elem_of_cons; [|by apply Htail].
    split; [done|]. exists 0%nat, e. by rewrite Nat.add_0_r.
  - intros (Hki & d & e' & -> & H)%IH. split; [done|]. exists (S d), e'. split; [lia|done].
Qed.

Lemma fold_older l : ∀ b j f, fold_left older l b = Some (j, f) → b = Some (j, f) ∨ (j, f) ∈ l.
Proof.
  induction l as [|x l IH]; intros b j f; cbn [fold_left]; [by left|]. intros [Hb|Hin]%IH; [|right; by right].
  unfold older in Hb. destruct b as [y|]; [case_bool_decide|]; simplify_eq; auto; right; left.
Qed.

(** Evidence is made of a record that is not Terminal, at the cost of at most
    one older piece of evidence. *)
Lemma mark_evidence_spec cap i e t :
  Slots.at_ i (dedup_ t) = Some e →
  mark_dedup_evidence cap i t = t ∨
  ∃ t1, dedup_ (mark_dedup_evidence cap i t) = Slots.set i (with_phase Evidence e) (dedup_ t1) ∧
    (t1 = t ∨ ∃ j x, j ≠ i ∧ Slots.at_ j (dedup_ t) = Some x ∧ phase x = Evidence ∧ dedup_ t1 = dedup_ (release_at j t)).
Proof.
  intros He. unfold mark_dedup_evidence. rewrite He. destruct (in_phase Evidence e); [by left|]. right. cbv zeta.
  destruct (_ <=? _)%nat; [|exists t; split; [done|by left]].
  destruct (fold_left older _ None) as [[j f]|] eqn:Hf; [|exists t; split; [done|by left]].
  apply fold_older in Hf as [?|Hin]; [done|]. apply other_evidence_spec in Hin as (Hji & d & x & -> & Hx & Hp & _). cbn in Hji.
  eexists. split; [done|]. right. exists d, x. by split_and!.
Qed.

Lemma fail_keeps cap now evident key type round t : relays_unpinned t → keeps (pin now) t (report_failure cap evident key type round t).
Proof.
  intros Hr. unfold report_failure. destruct (Slots.find _ _) as [i|] eqn:Hf; [|done].
  apply slots_find_at in Hf as (e & _ & He & Hp). apply andb_true_iff in Hp as [_ Hfw]. rewrite He.
  destruct (_ || _); [done|]. pose proof (Hr i e He Hfw) as Hne. pose proof (at_lt _ _ _ He) as Hl.
  destruct (mark_evidence_spec cap i e t He) as [->|(t1 & Hd & Ht1)]; [done|].
  intros j x Hx [Hpx Hex]. rewrite Hd.
  assert (Hji : j ≠ i) by (intros ->; congruence). unfold Slots.at_, Slots.set. rewrite list_lookup_insert_ne by done.
  fold (Slots.at_ j (dedup_ t1)). destruct Ht1 as [->|(k & y & _ & Hy & Hpy & ->)]; [done|].
  rewrite release_at_spec. rewrite decide_False; [done|]. intros ->. congruence.
Qed.

Lemma expire_keeps cap now t : keeps (protected now) t (expire_dedup cap now t).
Proof.
  unfold expire_dedup. destruct (_ =? _)%nat; [done|]. cbv zeta. destruct (Slots.erase_if (lapsed now) (dedup_ t)) as [n s] eqn:Hs.
  intros i e Hi HP. cbn. apply at_lookup. replace s with (snd (Slots.erase_if (lapsed now) (dedup_ t))) by (by rewrite Hs).
  apply slots_erase_lookup. apply at_lookup in Hi. split; [done|]. destruct (lapsed now e) eqn:Hl; [|done].
  by destruct (lapsed_unprotected now e Hl).
Qed.

(** Repeated frames only ever extend their pin. *)
Lemma terminal_alive cap out age key round up rem now t k until :
  now < until → alive k until t → alive k until (snd (handle_terminal cap out age key round up rem now t)).
Proof.
  intros Hn Hal. unfold handle_terminal. destruct (Slots.find (pinned key) (dedup_ t)) as [i|] eqn:Hf.
  - apply slots_find_at in Hf as (e & _ & He & Hp). rewrite He. cbn [snd]. destruct Hal as (j & x & Hj & Hpx & Hex).
    pose proof (at_lt _ _ _ He) as Hl. destruct (decide (j = i)) as [->|Hne].
    + rewrite He in Hj. injection Hj as <-. eexists i, _. cbn. rewrite at_set by done. rewrite decide_True by done.
      split; [done|]. split; [exact Hpx|]. cbn. lia.
    + exists j, x. split; [|done]. cbn. rewrite at_set by done. by rewrite decide_False.
  - destruct (find_dedup key FrameType.Data round t) as [i|] eqn:Hd; [done|].
    eapply keeps_alive; [|done|done]. apply keeps_pins. by apply admit_terminal_spec.
Qed.

Lemma step_alive cap now o t k until :
  relays_unpinned t → now < until → alive k until t → alive k until (snd (step cap now o t)).
Proof.
  intros Hr Hn Hal. destruct o as [out age key round up rem|out age key type round up rem|out age key type round up rem|key type round|evident key type round|];
    cbn [step].
  - pose proof (terminal_alive cap out age key round up rem now t k until Hn Hal). by destruct (handle_terminal _ _ _ _ _ _ _ _ t).
  - eapply keeps_alive; [|done|done]. apply keeps_pins, transit_keeps.
  - eapply keeps_alive; [|done|done]. apply keeps_pins, routed_keeps.
  - eapply keeps_alive; [|done|done]. apply resolve_keeps.
  - eapply keeps_alive; [|done|done]. by apply fail_keeps.
  - eapply keeps_alive; [|done|done]. apply keeps_pins, expire_keeps.
Qed.

(** ** How records change *)

Inductive evolves (now : Z) (old : option DedupEntry) : DedupEntry → Prop :=
  | ev_same e : old = Some e → evolves now old e
  | ev_terminal age key round up rem : evolves now old (with_delivered (new_entry age key FrameType.Data round Terminal up rem now))
  | ev_transit age key type round up rem : evolves now old (with_forwarded up (new_entry age key type round Live up rem now))
  | ev_routed age key type round up rem : evolves now old (with_delivered (new_entry age key type round Resolved up rem now))
  | ev_refresh e age rem : old = Some e → phase e = Terminal →
      evolves now old (with_expiry (Z.max (expires_at_ms e) (dedup_expiry_for age Terminal rem (first_seen_ms e) now)) e)
  | ev_resolve e : old = Some e → phase e = Live → evolves now old (with_phase Resolved e)
  | ev_evidence e : old = Some e → forwarded e = true → evolves now old (with_phase Evidence e).

Definition changes (now : Z) (t t' : DedupTable) : Prop :=
  ∀ j e, Slots.at_ j (dedup_ t') = Some e → evolves now (Slots.at_ j (dedup_ t)) e.

Lemma changes_within now t t' : within t t' → changes now t t'.
Proof. intros Hw j e H. by apply ev_same, Hw. Qed.

Lemma changes_set now t s t' i v :
  dedup_ t' = Slots.set i v s → (i < length s)%nat → (∀ j e, j ≠ i → Slots.at_ j s = Some e → Slots.at_ j (dedup_ t) = Some e) →
  evolves now (Slots.at_ i (dedup_ t)) v → changes now t t'.
Proof.
  intros Hd Hl Ho Hv j e. rewrite Hd, at_set by done. destruct (decide (j = i)) as [->|Hne]; [by intros [= <-]|].
  intros H. by apply ev_same, Ho.
Qed.

Lemma allocate_within cap age key type round p up rem now t t' :
  find_dedup key type round t = None → allocate_dedup cap age key type round p up rem now t = (None, t') → within t t'.
Proof.
  intros Hf. unfold allocate_dedup. rewrite Hf. destruct (make_room cap p up now t) as [[] t1] eqn:Hm; apply make_room_spec in Hm as [_ Hw].
  2: { by intros [= <-]. }
  destruct (take_slot now t1) as [[i|] t2] eqn:Ht; [done|]. intros [= <-]. eapply within_trans; [done|].
  revert Ht. unfold take_slot. destruct (Slots.allocate _ (dedup_ t1)) as [[i|] s]; [done|].
  pose proof (within_evict (λ _, true) now t1) as He. fold (evict_dedup_for_admission now t1) in He.
  destruct (evict_dedup_for_admission now t1) as [[] t3]; cbn [snd] in He; [|by intros [= <-]].
  destruct (Slots.allocate _ (dedup_ t3)) as [[i|] s3] eqn:Ha; [done|]. intros [= <-].
  unfold Slots.allocate in Ha. destruct (Slots.first_free _); [done|]. by injection Ha as <-.
Qed.

(** The new record of an admission that is finished with [f] or rolled back. *)
Lemma changes_admit cap age key type round p up rem now t i t1 f :
  find_dedup key type round t = None → allocate_dedup cap age key type round p up rem now t = (Some i, t1) →
  (∀ o, evolves now o (f (new_entry age key type round p up rem now))) →
  within t (release_at i t1) ∧ changes now t (put i (f (new_entry age key type round p up rem now)) t1).
Proof.
  intros Hf Ha Hev. apply allocate_spec in Ha as [_ Hi]; [|done]. destruct (Hi i eq_refl) as (He & _ & Ho). split.
  - intros j e. rewrite release_at_spec. destruct (decide (j = i)) as [->|Hne]; [done|]. by apply Ho.
  - eapply changes_set; [done|by eapply at_lt|done|done].
Qed.

(** An admission that may be rolled back or finished with [f]. *)
Lemma admitted_changes cap age key type round p up rem now t f (commit : bool) (r0 r1 : Verdict) :
  find_dedup key type round t = None → (∀ o, evolves now o (f (new_entry age key type round p up rem now))) →
  changes now t (snd (match allocate_dedup cap age key type round p up rem now t with
    | (None, t1) => (r0, t1)
    | (Some i, t1) => if negb commit then (r0, release_at i t1)
                      else match Slots.at_ i (dedup_ t1) with Some e => (r1, put i (f e) t1) | None => (r1, t1) end
    end)).
Proof.
  intros Hf Hev. destruct (allocate_dedup _ _ _ _ _ _ _ _ _ t) as [[i|] t1] eqn:Ha; cbn [snd].
  2: { apply changes_within. by eapply allocate_within. }
  destruct (changes_admit _ _ _ _ _ _ _ _ _ _ _ _ f Hf Ha Hev) as [Hr Hp].
  apply allocate_spec in Ha as [_ Hi]; [|done]. destruct (Hi i eq_refl) as (He & _).
  destruct (negb _); cbn [snd]; [by apply changes_within|]. by rewrite He.
Qed.

Lemma changes_from now t t1 t2 : within t t1 → changes now t1 t2 → changes now t t2.
Proof.
  intros Hw Hc j e Hj. specialize (Hc j e Hj). destruct (Slots.at_ j (dedup_ t1)) as [x|] eqn:Hx.
  - by rewrite (Hw j x Hx).
  - destruct Hc; [done|apply ev_terminal|apply ev_transit|apply ev_routed|done..].
Qed.

Lemma terminal_changes cap out age key round up rem now t :
  changes now t (snd (handle_terminal cap out age key round up rem now t)).
Proof.
  unfold handle_terminal. destruct (Slots.find (pinned key) (dedup_ t)) as [i|] eqn:Hf.
  { apply slots_find_at in Hf as (e & _ & He & Hp). rewrite He. cbn [snd].
    eapply changes_set; [done|by eapply at_lt|done|]. apply ev_refresh; [done|by eapply pinned_phase]. }
  destruct (find_dedup key FrameType.Data round t) eqn:Hd; [by apply changes_within; intros j e|].
  unfold admit_terminal. cbv zeta. set (pin_slot := last_slot _ _ _ _).
  assert (Hsame : ∀ t', dedup_ t' = dedup_ t → changes now t t') by (intros t' Ht'; apply changes_within; intros j e; by rewrite Ht').
  destruct (negb (applied_slot out)); [by apply Hsame|]. destruct (_ || negb (work_slot out)); [apply Hsame; cbn [snd]; by destruct (_ && _)|].
  destruct (_ && negb _); [by apply Hsame|]. destruct (negb (ack_slots out)); [by apply Hsame|].
  destruct (negb (end_opens out)); [by apply Hsame|]. destruct (negb (reply_reserved out)); [by apply Hsame|].
  set (t1 := if _ : bool then _ else t).
  assert (Hw : within t t1).
  { unfold t1. destruct (_ <=? _)%nat; [|by intros j e]. destruct pin_slot; [|by intros j e]. intros j e H. by apply within_release in H. }
  clearbody t1. destruct (negb (applied_recorded out)); [by apply changes_within|]. apply (changes_from _ _ _ _ Hw).
  apply (admitted_changes cap age key FrameType.Data round Terminal up rem now t1 with_delivered); [by eapply find_within|by constructor].
Qed.

Lemma step_changes cap now o t : changes now t (snd (step cap now o t)).
Proof.
  destruct o as [out age key round up rem|out age key type round up rem|out age key type round up rem|key type round|evident key type round|];
    cbn [step].
  - pose proof (terminal_changes cap out age key round up rem now t) as H. by destruct (handle_terminal _ _ _ _ _ _ _ _ t).
  - unfold handle_transit. cbn [snd]. destruct (find_dedup key type round t) eqn:Hf; [by apply changes_within; intros j e|].
    apply (admitted_changes cap age key type round Live up rem now t (with_forwarded up)); [done|by constructor].
  - unfold handle_routed. cbn [snd]. destruct (find_dedup key type round t) eqn:Hf; [by apply changes_within; intros j e|].
    apply (admitted_changes cap age key type round Resolved up rem now t with_delivered); [done|by constructor].
  - cbn [snd]. unfold resolve_dedup_for_job. destruct (find_dedup key type round t) as [i|]; [|by apply changes_within; intros j e].
    destruct (Slots.at_ i (dedup_ t)) as [e|] eqn:He; [|by apply changes_within; intros j e].
    destruct (in_phase Live e) eqn:Hl; [|by apply changes_within; intros j x]. apply bool_decide_eq_true in Hl.
    eapply changes_set; [done|by eapply at_lt|done|]. by apply ev_resolve.
  - cbn [snd]. unfold report_failure. destruct (Slots.find _ _) as [i|] eqn:Hf; [|by apply changes_within; intros j e].
    apply slots_find_at in Hf as (e & _ & He & Hp). apply andb_true_iff in Hp as [_ Hfw]. rewrite He.
    destruct (_ || _); [by apply changes_within; intros j x|].
    destruct (mark_evidence_spec cap i e t He) as [->|(t1 & Hd & Ht1)]; [by apply changes_within; intros j x|].
    assert (Hw : within t t1 ∧ length (dedup_ t1) = length (dedup_ t)).
    { destruct Ht1 as [->|(k & y & _ & _ & _ & Hk)]; [split; [by intros j x|done]|]. split.
      - intros j x Hx. unfold within in *. rewrite Hk in Hx. by apply within_release in Hx.
      - rewrite Hk. unfold release_at, Slots.release. cbn. destruct (dedup_ t !! k) as [[]|]; cbn; by rewrite ?length_insert. }
    eapply changes_set; [exact Hd|destruct Hw as [_ ->]; by eapply at_lt|intros j x _; apply Hw|]. by apply ev_evidence.
  - cbn [snd]. apply changes_within. unfold expire_dedup. destruct (_ =? _)%nat; [by intros j e|]. cbv zeta.
    destruct (Slots.erase_if (lapsed now) (dedup_ t)) as [n s] eqn:Hs. intros j e Hj. cbn in Hj. apply at_lookup in Hj.
    replace s with (snd (Slots.erase_if (lapsed now) (dedup_ t))) in Hj by (by rewrite Hs).
    apply slots_erase_lookup in Hj as [Hj _]. by apply at_lookup.
Qed.

(** ** Exactly-once delivery *)

(** What a table keeps true: relayed records are not pins, and no record is
    retained beyond the cap counted from its first frame. *)
Definition entry_ok (e : DedupEntry) : Prop :=
  (forwarded e = true → phase e ≠ Terminal) ∧ 0 ≤ first_seen_ms e < 2 ^ 63 ∧ expires_at_ms e ≤ first_seen_ms e + kDedupHardCapMs.
Definition entries_ok (t : DedupTable) : Prop := ∀ i e, Slots.at_ i (dedup_ t) = Some e → entry_ok e.

Lemma expiry_cap age p rem seen now : 0 ≤ seen < 2 ^ 63 → dedup_expiry_for age p rem seen now ≤ seen + kDedupHardCapMs.
Proof.
  intros Hs. unfold dedup_expiry_for. cbv zeta. unfold kDedupHardCapMs, kTerminalRetentionMs, kMaxMessageLifetimeMs, kLateResultTtlMs.
  rewrite (wrap_id 64 (seen + _)) by (split; lia). lia.
Qed.

Lemma evolves_ok now o e : 0 ≤ now < 2 ^ 63 → (∀ x, o = Some x → entry_ok x) → evolves now o e → entry_ok e.
Proof.
  intros Hn Ho He. destruct He as [e Hx|age key round up rem|age key type round up rem|age key type round up rem|e age rem Hx Hp|e Hx Hp|e Hx Hf].
  1: by apply Ho.
  1-3: (split; [done|split; [done|by apply expiry_cap]]).
  all: destruct (Ho e Hx) as (H1 & H2 & H3); (split; [by cbn|split; [done|]]); cbn; try done.
  pose proof (expiry_cap age Terminal rem (first_seen_ms e) now H2). lia.
Qed.

Lemma dedup_step_ok cap now o t : 0 ≤ now < 2 ^ 63 → entries_ok t → entries_ok (snd (step cap now o t)).
Proof. intros Hn Ht j e Hj. apply (evolves_ok now (Slots.at_ j (dedup_ t))); [done|intros x Hx; by eapply Ht|by eapply step_changes]. Qed.

Lemma entries_relays t : entries_ok t → relays_unpinned t.
Proof. intros Ht i e Hi. by apply Ht in Hi as [? _]. Qed.

(** Ages and lifetimes are unsigned. *)
Definition frame_typed (o : op) : Prop := match o with OTerminal _ age _ _ _ rem => 0 ≤ age ∧ 0 ≤ rem | _ => True end.

(** Runs with a clock that does not run backwards; the log holds the
    deliveries, latest first. *)
Inductive run (cap : nat) : Z → list delivery → DedupTable → Prop :=
  | run_start : run cap 0 [] (initial cap)
  | run_step clock log t now o ds t' :
      run cap clock log t → clock ≤ now < 2 ^ 63 → frame_typed o → step cap now o t = (ds, t') → run cap now (ds ++ log) t'.

(** The time until which a delivery is pinned: the lifetime the frame had
    left, at most the ceiling, and the slack for late results. *)
Definition pin_until (d : delivery) : Z :=
  dl_at d + Z.max 0 (Z.min (dl_remaining d) kMaxMessageLifetimeMs - dl_age d) + kTerminalSlackMs.

Lemma expiry_pin age rem now key :
  0 ≤ now < 2 ^ 63 → 0 ≤ age → dedup_expiry_for age Terminal rem now now = pin_until (mkDelivery key now rem age).
Proof.
  intros Hn Ha. unfold dedup_expiry_for, pin_until. cbn [dl_at dl_remaining dl_age]. cbv zeta.
  unfold kDedupHardCapMs, kTerminalRetentionMs, kTerminalSlackMs, kMaxMessageLifetimeMs, kLateResultTtlMs.
  rewrite (bool_decide_eq_true_2 (Terminal = Terminal)) by done.
  set (r := if bool_decide (age < Z.min rem 30000) then Z.min rem 30000 - age else 0).
  assert (Hr : r = Z.max 0 (Z.min rem 30000 - age) ∧ 0 ≤ r ≤ 30000) by (unfold r; case_bool_decide; lia).
  destruct Hr as [-> Hr]. rewrite !wrap_id by (split; lia || (rewrite wrap_id by (split; lia); lia)). lia.
Qed.

Lemma delivers cap now o t ds t' d :
  0 ≤ now < 2 ^ 63 → frame_typed o → step cap now o t = (ds, t') → d ∈ ds →
  ds = [d] ∧ dl_at d = now ∧ (∀ until, ¬ alive (dl_key d) until t) ∧ alive (dl_key d) (pin_until d) t'.
Proof.
  intros Hn Ht Hs Hd. destruct o as [out age key round up rem|out age key type round up rem|out age key type round up rem|key type round|evident key type round|];
    cbn [step] in Hs; try (injection Hs as <- _; by apply not_elem_of_nil in Hd).
  destruct (handle_terminal cap out age key round up rem now t) as [r t1] eqn:Hh. injection Hs as <- <-.
  case_bool_decide as Hr; [|by apply not_elem_of_nil in Hd]. apply list_elem_of_singleton in Hd as ->. subst r.
  split; [done|]. split; [done|]. cbn [dl_key]. revert Hh. unfold handle_terminal.
  destruct (Slots.find (pinned key) (dedup_ t)) as [i|] eqn:Hf; [by destruct (Slots.at_ i (dedup_ t))|].
  destruct (find_dedup key FrameType.Data round t) as [i|] eqn:Hd2; [done|]. intros Hh.
  pose proof (admit_terminal_spec cap out age key round up rem now t Hd2) as (_ & _ & Hdel). rewrite Hh in Hdel. split.
  - intros u (i & e & Hi & Hp & _). apply at_lookup in Hi. pose proof (proj1 (Slots.find_None _ _) Hf i e Hi). congruence.
  - destruct (Hdel eq_refl) as [i Hi]. cbn [snd] in Hi. eexists i, _. split; [exact Hi|]. destruct Ht as [Ha _]. split.
    + unfold pinned, in_phase. cbn. by rewrite !bool_decide_eq_true_2.
    + cbn. by rewrite (expiry_pin age rem now key).
Qed.

Lemma run_invariant cap clock log t :
  run cap clock log t →
  0 ≤ clock < 2 ^ 63 ∧ entries_ok t ∧
  ∀ d, d ∈ log → dl_at d ≤ clock ∧ (clock < pin_until d → alive (dl_key d) (pin_until d) t).
Proof.
  induction 1 as [|clock log t now o ds t' _ (Hc & Hok & Hlog) Hn Ht Hs].
  { split; [lia|]. split; [|by intros d ?%not_elem_of_nil]. intros i e Hi. unfold Slots.at_ in Hi. cbn in Hi.
    destruct (replicate cap None !! i) eqn:Hr; [|done]. by apply lookup_replicate in Hr as [-> _]. }
  assert (Hok' : entries_ok t') by (pose proof (dedup_step_ok cap now o t ltac:(lia) Hok) as H; by rewrite Hs in H).
  split; [lia|]. split; [done|]. intros d [Hd|Hd]%elem_of_app.
  - destruct (delivers cap now o t ds t' d ltac:(lia) Ht Hs Hd) as (_ & -> & _ & Hal). split; [lia|done].
  - destruct (Hlog d Hd) as [Hat Hal]. split; [lia|]. intros Hlt.
    pose proof (step_alive cap now o t (dl_key d) (pin_until d) (entries_relays t Hok) Hlt (Hal ltac:(lia))) as H. by rewrite Hs in H.
Qed.

(** C5: in any interleaving of terminal, transit and routed frames,
    resolutions, failure reports and expiries on a clock that does not run
    backwards, two deliveries of the same message are at least as far apart as
    the lifetime the first frame had left (up to the ceiling) plus the 30 s
    slack: no admission pressure evicts the pin that suppresses duplicates. *)
Theorem data_delivered_once cap clock later d2 earlier t d1 :
  run cap clock (later ++ d2 :: earlier) t → d1 ∈ earlier → dl_key d1 = dl_key d2 → pin_until d1 ≤ dl_at d2.
Proof.
  intros Hr H1 Hk. remember (later ++ d2 :: earlier) as log eqn:Hlog. revert later Hlog.
  induction Hr as [|clock log t now o ds t' Hrun IH Hn Ht Hs]; intros later Hlog; [by destruct later|].
  destruct (run_invariant _ _ _ _ Hrun) as (Hc & Hok & Hinv).
  assert (Hds : ds = [] ∨ ∃ d, ds = [d]).
  { destruct ds as [|d ds]; [by left|]. right. exists d. by destruct (delivers cap now o t (d :: ds) t' d ltac:(lia) Ht Hs ltac:(left)) as (-> & _). }
  destruct Hds as [->|[d ->]]; [by apply (IH later)|]. cbn in Hlog. destruct later as [|x later].
  - injection Hlog as -> ->. destruct (delivers cap now o t [d2] t' d2 ltac:(lia) Ht Hs ltac:(left)) as (_ & -> & Hno & _).
    destruct (Hinv d1 H1) as [_ Hal]. destruct (decide (pin_until d1 ≤ now)) as [|Hgt]; [done|].
    exfalso. apply (Hno (pin_until d1)). rewrite <- Hk. apply Hal. lia.
  - injection Hlog as -> ->. by apply (IH later).
Qed.
