(* ===== verification/DedupBounds.v ===== *)
(** * Shares of the duplicate table

    Terminal pins leave the transit reserve free, one upstream peer holds at
    most its share, and evidence stays within its cap, over every run. *)

From S2P Require Import Prelude Types FixedContainers Routing Dedup DedupProps.

(** ** Counting slots *)

Definition cnt (p : DedupEntry → bool) (s : Slots.slots DedupEntry) : nat := length (filter (λ e, p e = true) (Slots.live s)).

Lemma cnt_cons p o s : cnt p (o :: s) = ((match o with Some e => if p e then 1 else 0 | None => 0 end) + cnt p s)%nat.
Proof.
  unfold cnt. destruct o as [e|]; [|done]. unfold Slots.live. cbn [omap list_omap id].
  rewrite filter_cons. destruct (p e) eqn:Hp; [by rewrite decide_True|]. rewrite decide_False; [done|congruence].
Qed.

Lemma cnt_none p n : cnt p (replicate n None) = 0%nat.
Proof. induction n as [|n IH]; [done|]. change (replicate (S n) None) with (@None DedupEntry :: replicate n None). by rewrite cnt_cons, IH. Qed.

Lemma cnt_mono p s' : ∀ s,
  (∀ j e', Slots.at_ j s' = Some e' → p e' = true → ∃ e, Slots.at_ j s = Some e ∧ p e = true) → (cnt p s' ≤ cnt p s)%nat.
Proof.
  induction s' as [|o' s' IH]; intros s H; [unfold cnt; cbn; lia|]. destruct s as [|o s].
  - assert (Hz : ∀ l, (∀ j e', Slots.at_ j l = Some e' → p e' = true → False) → cnt p l = 0%nat).
    { induction l as [|x l IHl]; intros Hl; [done|]. rewrite cnt_cons, IHl by (intros j e'; exact (Hl (S j) e')).
      destruct x as [e|]; [|done]. destruct (p e) eqn:Hp; [|done]. by destruct (Hl 0%nat e eq_refl Hp). }
    rewrite Hz; [lia|]. intros j e' Hj Hp. destruct (H j e' Hj Hp) as (e & He & _). unfold Slots.at_ in He. by destruct j.
  - rewrite !cnt_cons. assert (Ht : (cnt p s' ≤ cnt p s)%nat) by (apply IH; intros j e'; exact (H (S j) e')).
    destruct o' as [e'|]; [|lia]. destruct (p e') eqn:Hp; [|lia]. destruct (H 0%nat e' eq_refl Hp) as (e & He & Hpe).
    destruct o as [x|]; [|done]. injection He as ->. rewrite Hpe. lia.
Qed.

Lemma cnt_remove p s : ∀ i e, s !! i = Some (Some e) → p e = true → cnt p s = S (cnt p (<[i := None]> s)).
Proof.
  induction s as [|o s IH]; intros [|i] e Hi Hp; try done; cbn in Hi.
  - injection Hi as ->. cbn [insert list_insert]. rewrite !cnt_cons, Hp. lia.
  - change (<[S i := None]> (o :: s)) with (o :: <[i := None]> s). rewrite !cnt_cons, (IH i e Hi Hp). lia.
Qed.

Lemma cnt_set p s : ∀ i v, (i < length s)%nat → (cnt p (Slots.set i v s) ≤ cnt p s + (if p v then 1 else 0))%nat.
Proof.
  unfold Slots.set. induction s as [|o s IH]; intros [|i] v Hi; cbn in Hi; [lia|lia| |].
  - cbn [insert list_insert]. rewrite !cnt_cons. lia.
  - change (<[S i := Some v]> (o :: s)) with (o :: <[i := Some v]> s). rewrite !cnt_cons. specialize (IH i v ltac:(lia)). lia.
Qed.

Lemma cnt_within p t t' : within t t' → (cnt p (dedup_ t') ≤ cnt p (dedup_ t))%nat.
Proof. intros Hw. apply cnt_mono. intros j e Hj Hp. exists e. split; [by apply Hw|done]. Qed.

Lemma cnt_release p i e t : Slots.at_ i (dedup_ t) = Some e → p e = true → cnt p (dedup_ t) = S (cnt p (dedup_ (release_at i t))).
Proof.
  intros Hi Hp. apply at_lookup in Hi. unfold release_at, Slots.release. cbn. rewrite Hi. cbn [snd]. by eapply cnt_remove.
Qed.

(** A new record at [i], everything else from before. *)
Lemma cnt_new p i v t t' :
  (i < length (dedup_ t'))%nat → (∀ j e, j ≠ i → Slots.at_ j (dedup_ t') = Some e → Slots.at_ j (dedup_ t) = Some e) →
  (cnt p (dedup_ (put i v t')) ≤ cnt p (dedup_ t) + (if p v then 1 else 0))%nat.
Proof.
  intros Hl Ho. cbn. etransitivity.
  - apply (cnt_mono p _ (Slots.set i v (dedup_ (release_at i t')))). intros j e Hj Hp. exists e. split; [|done].
    rewrite at_set in Hj by done. rewrite at_set.
    + destruct (decide (j = i)); [done|]. by rewrite release_at_spec, decide_False.
    + unfold release_at, Slots.release. cbn. destruct (dedup_ t' !! i) as [[]|]; cbn; by rewrite ?length_insert.
  - etransitivity; [apply cnt_set|].
    + unfold release_at, Slots.release. cbn. destruct (dedup_ t' !! i) as [[]|]; cbn; by rewrite ?length_insert.
    + assert ((cnt p (dedup_ (release_at i t')) ≤ cnt p (dedup_ t))%nat); [|lia]. apply cnt_within. intros j e.
      rewrite release_at_spec. destruct (decide (j = i)); [done|]. by apply Ho.
Qed.

(** ** Shares *)

Record shares (cap : nat) (t : DedupTable) : Prop := {
  sh_pins : (cnt (in_phase Terminal) (dedup_ t) ≤ kDedupTerminalPinMax cap)%nat;
  sh_upstream : ∀ up, (cnt (held_by up) (dedup_ t) ≤ kDedupPerUpstreamMax cap)%nat;
  sh_evidence : (cnt (in_phase Evidence) (dedup_ t) ≤ kEvidenceCap cap)%nat }.

Lemma shares_mono cap t t' :
  (∀ p, (p = in_phase Terminal ∨ p = in_phase Evidence ∨ ∃ up, p = held_by up) → (cnt p (dedup_ t') ≤ cnt p (dedup_ t))%nat) →
  shares cap t → shares cap t'.
Proof.
  intros H [Hp Hu He]. split; [|intros up|]; (etransitivity; [apply H|eauto]); eauto.
Qed.
Lemma shares_within cap t t' : within t t' → shares cap t → shares cap t'.
Proof. intros Hw. apply shares_mono. intros p _. by apply cnt_within. Qed.

Lemma make_room_count cap p up now t t1 :
  make_room cap p up now t = (true, t1) → p ≠ Terminal → (cnt (held_by up) (dedup_ t) ≤ kDedupPerUpstreamMax cap)%nat →
  (cnt (held_by up) (dedup_ t1) < kDedupPerUpstreamMax cap)%nat.
Proof.
  unfold make_room, count_transit_upstream, count_where. fold (cnt (held_by up) (dedup_ t)). intros Hm Hp Hc.
  rewrite bool_decide_eq_false_2 in Hm by done. cbn [negb andb] in Hm.
  destruct (_ <=? _)%nat eqn:Hle; [apply Nat.leb_le in Hle|apply Nat.leb_gt in Hle; by injection Hm as <-].
  pose proof (evict_where_spec (held_by up) now t) as H. cbv zeta in H. unfold evict_dedup_for_upstream in Hm. rewrite Hm in H.
  cbn [fst snd] in H. destruct H as (i & e & He & [Hmine _] & Hd). rewrite Hd. pose proof (cnt_release _ i e t He Hmine). lia.
Qed.

(** The table an admission adds its record to. *)
Lemma allocate_base cap age key type round p up rem now t i t' :
  find_dedup key type round t = None → allocate_dedup cap age key type round p up rem now t = (Some i, t') →
  (i < length (dedup_ t'))%nat ∧
  ∃ t1, within t t1 ∧ (∀ j e, j ≠ i → Slots.at_ j (dedup_ t') = Some e → Slots.at_ j (dedup_ t1) = Some e) ∧
    (p ≠ Terminal → (cnt (held_by up) (dedup_ t) ≤ kDedupPerUpstreamMax cap)%nat → (cnt (held_by up) (dedup_ t1) < kDedupPerUpstreamMax cap)%nat).
Proof.
  intros Hf. unfold allocate_dedup. rewrite Hf. destruct (make_room cap p up now t) as [[] t1] eqn:Hm; [|done].
  destruct (take_slot now t1) as [[k|] t2] eqn:Ht; [|done]. intros [= <- <-]. apply take_slot_spec in Ht as [_ Hi].
  destruct (Hi k eq_refl) as (He & _ & Ho). pose proof (at_lt _ _ _ He) as Hl.
  split; [cbn; unfold Slots.set; by rewrite length_insert|]. exists t1. split; [by apply make_room_spec in Hm as [_ ?]|]. split.
  - intros j e Hj. cbn. rewrite at_set by done. rewrite decide_False by done. by apply Ho.
  - intros Hp. by apply (make_room_count cap p up now t t1 Hm).
Qed.

Lemma shares_admit cap age key type round p up rem now t i t' v :
  find_dedup key type round t = None → allocate_dedup cap age key type round p up rem now t = (Some i, t') →
  shares cap t → phase v = p → upstream_peer v = up → p ≠ Evidence →
  (p = Terminal → (cnt (in_phase Terminal) (dedup_ t) < kDedupTerminalPinMax cap)%nat) → shares cap (put i v t').
Proof.
  intros Hf Ha [Hp Hu He] Hv Hup Hpe Hpin. destruct (allocate_base _ _ _ _ _ _ _ _ _ _ _ _ Hf Ha) as (Hl & t1 & Hw & Ho & Hroom).
  assert (Hq : ∀ q, (cnt q (dedup_ (put i v t')) ≤ cnt q (dedup_ t1) + (if q v then 1 else 0))%nat) by (intros q; by apply cnt_new).
  pose proof (λ q, cnt_within q t t1 Hw) as Hm. split.
  - specialize (Hq (in_phase Terminal)). specialize (Hm (in_phase Terminal)). unfold in_phase at 3 in Hq. rewrite Hv in Hq.
    case_bool_decide as Hpt; [specialize (Hpin Hpt)|]; lia.
  - intros u. specialize (Hq (held_by u)). pose proof (Hm (held_by u)). specialize (Hu u). unfold held_by at 3 in Hq.
    rewrite Hv, Hup in Hq. destruct (decide (u = up)) as [->|Hne].
    + destruct (decide (p = Terminal)) as [->|Hpt]; [rewrite (bool_decide_eq_true_2 (Terminal = Terminal)) in Hq by done; cbn [negb andb] in Hq; lia|]. specialize (Hroom Hpt Hu). destruct (_ && _); lia.
    + rewrite (bool_decide_eq_false_2 (up = u)), andb_false_r in Hq by done. lia.
  - specialize (Hq (in_phase Evidence)). specialize (Hm (in_phase Evidence)). unfold in_phase at 3 in Hq. rewrite Hv in Hq.
    rewrite bool_decide_eq_false_2 in Hq by done. lia.
Qed.

(** A record replaced by one of the same class. *)
Lemma shares_replace cap i e v t :
  Slots.at_ i (dedup_ t) = Some e → (in_phase Terminal v = true → in_phase Terminal e = true) →
  (∀ up, held_by up v = true → held_by up e = true) → (in_phase Evidence v = true → in_phase Evidence e = true) →
  shares cap t → shares cap (put i v t).
Proof.
  intros Hi HT HU HE. apply shares_mono. intros p Hp. apply cnt_mono. intros j x Hj Hpx. cbn in Hj.
  rewrite at_set in Hj by (by eapply at_lt). destruct (decide (j = i)) as [->|]; [|eauto]. injection Hj as <-. exists e.
  split; [done|]. destruct Hp as [->|[->|[up ->]]]; auto.
Qed.

(** ** Evidence *)

Lemma other_evidence_count i s : ∀ j,
  (∀ d e, i = (j + d)%nat → Slots.at_ d s = Some e → phase e ≠ Evidence) → length (other_evidence i j s) = cnt (in_phase Evidence) s.
Proof.
  induction s as [|o s IH]; intros j Hi; [done|]. cbn [other_evidence]. rewrite cnt_cons.
  assert (Ht : length (other_evidence i (S j) s) = cnt (in_phase Evidence) s).
  { apply IH. intros d e Hd He. apply (Hi (S d) e); [lia|done]. }
  destruct o as [e|]; [|done]. destruct (in_phase Evidence e) eqn:He; [|done].
  replace (j =? i)%nat with false; [cbn; by rewrite Ht|]. symmetry. apply Nat.eqb_neq. intros ->.
  apply (Hi 0%nat e); [lia|done|]. by apply bool_decide_eq_true in He.
Qed.

Lemma fold_older_some l b : (0 < length l)%nat ∨ is_Some b → is_Some (fold_left older l b).
Proof.
  revert b. induction l as [|x l IH]; intros b; cbn [fold_left length]; [by intros [?|?]; [lia|]|]. intros _. apply IH. right.
  unfold older. destruct b; [case_bool_decide|]; eauto.
Qed.

Lemma in_phase_other p q e : phase e = p → p ≠ q → in_phase q e = false.
Proof. unfold in_phase. intros -> Hpq. by apply bool_decide_eq_false_2. Qed.

Lemma shares_evidence cap i e t :
  Slots.at_ i (dedup_ t) = Some e → phase e ≠ Terminal → (1 ≤ kEvidenceCap cap)%nat → shares cap t →
  shares cap (mark_dedup_evidence cap i t).
Proof.
  intros He HT Hcap Hs. unfold mark_dedup_evidence. rewrite He. destruct (in_phase Evidence e) eqn:Hev; [done|]. cbv zeta.
  apply bool_decide_eq_false in Hev. pose proof (at_lt _ _ _ He) as Hl.
  assert (Hlen : length (other_evidence i 0 (dedup_ t)) = cnt (in_phase Evidence) (dedup_ t)).
  { apply other_evidence_count. intros d x Hd Hx. cbn in Hd. subst d. congruence. }
  set (t1 := if _ : bool then _ else t).
  assert (H1 : within t t1 ∧ (cnt (in_phase Evidence) (dedup_ t1) < kEvidenceCap cap)%nat ∧ Slots.at_ i (dedup_ t1) = Some e).
  { unfold t1. destruct (_ <=? _)%nat eqn:Hle; [apply Nat.leb_le in Hle|apply Nat.leb_gt in Hle; split; [by intros j x|split; [lia|done]]].
    destruct (fold_older_some (other_evidence i 0 (dedup_ t)) None) as [[j f] Hf]; [left; lia|]. rewrite Hf.
    apply fold_older in Hf as [?|Hin]; [done|]. apply other_evidence_spec in Hin as (Hji & d & x & -> & Hx & Hpx & _). cbn [Nat.add] in *.
    split; [intros k y Hy; by apply within_release in Hy|]. split.
    - pose proof (cnt_release (in_phase Evidence) d x t Hx ltac:(by apply bool_decide_eq_true)) as Hr. pose proof (sh_evidence _ _ Hs).
      change (dedup_ (bump EvictedEvidence (release_at d t))) with (dedup_ (release_at d t)). lia.
    - change (Slots.at_ i (dedup_ (release_at d t)) = Some e). by rewrite release_at_spec, decide_False. }
  clearbody t1. destruct H1 as (Hw & Hc & He1). pose proof (shares_within cap t t1 Hw Hs) as [Hp Hu _].
  pose proof (at_lt _ _ _ He1) as Hl1. split.
  - etransitivity; [|exact Hp]. apply cnt_mono. intros j x Hj Hpx. cbn in Hj. rewrite at_set in Hj by done.
    destruct (decide (j = i)) as [->|]; [|eauto]. injection Hj as <-. done.
  - intros up. etransitivity; [|exact (Hu up)]. apply cnt_mono. intros j x Hj Hpx. cbn in Hj. rewrite at_set in Hj by done.
    destruct (decide (j = i)) as [->|]; [|eauto]. injection Hj as <-. exists e. split; [done|]. unfold held_by in *. cbn in Hpx.
    rewrite bool_decide_eq_false_2 by done. by apply andb_true_iff in Hpx as [_ ->].
  - pose proof (cnt_set (in_phase Evidence) (dedup_ t1) i (with_phase Evidence e) Hl1) as Hset.
    replace (in_phase Evidence (with_phase Evidence e)) with true in Hset by (symmetry; by apply bool_decide_eq_true).
    change (dedup_ (put i (with_phase Evidence e) t1)) with (Slots.set i (with_phase Evidence e) (dedup_ t1)). lia.
Qed.

(** ** Runs *)

Lemma admitted_shares cap age key type round p up rem now t f (commit : bool) (r0 r1 : Verdict) :
  find_dedup key type round t = None → shares cap t → p ≠ Evidence →
  (∀ e, phase (f e) = phase e ∧ (upstream_peer e = up → upstream_peer (f e) = up)) →
  (p = Terminal → (cnt (in_phase Terminal) (dedup_ t) < kDedupTerminalPinMax cap)%nat) →
  shares cap (snd (match allocate_dedup cap age key type round p up rem now t with
    | (None, t1) => (r0, t1)
    | (Some i, t1) => if negb commit then (r0, release_at i t1)
                      else match Slots.at_ i (dedup_ t1) with Some e => (r1, put i (f e) t1) | None => (r1, t1) end
    end)).
Proof.
  intros Hf Hs Hp Hff Hpin. destruct (allocate_dedup _ _ _ _ _ _ _ _ _ t) as [[i|] t1] eqn:Ha; cbn [snd].
  2: { eapply shares_within; [|done]. by eapply allocate_within. }
  pose proof (allocate_spec _ _ _ _ _ _ _ _ _ _ _ _ Hf Ha) as [_ Hi]. destruct (Hi i eq_refl) as (He & _ & Ho).
  destruct (negb _); cbn [snd].
  - eapply shares_within; [|done]. intros j e. rewrite release_at_spec. destruct (decide (j = i)); [done|]. by apply Ho.
  - rewrite He. cbn [snd]. destruct (Hff (new_entry age key type round p up rem now)) as [Hph Hup].
    eapply shares_admit; [exact Hf|exact Ha|done|by rewrite Hph|by apply Hup|done|done].
Qed.

Lemma terminal_shares cap out age key round up rem now t :
  shares cap t → shares cap (snd (handle_terminal cap out age key round up rem now t)).
Proof.
  intros Hs. unfold handle_terminal. destruct (Slots.find (pinned key) (dedup_ t)) as [i|] eqn:Hf.
  { apply slots_find_at in Hf as (e & _ & He & Hp). rewrite He. cbn [snd]. by eapply shares_replace. }
  destruct (find_dedup key FrameType.Data round t) eqn:Hd; [done|].
  unfold admit_terminal. cbv zeta. destruct (negb (applied_slot out)); [done|].
  set (full := (_ <=? count_terminal_pins t)%nat). set (pin_slot := last_slot _ _ _ _).
  destruct (full && _) eqn:Href; cbn [orb].
  { cbn [snd]. eapply shares_within; [|done]. by intros j e. }
  destruct (negb (work_slot out)); [done|]. destruct (_ && negb _); [eapply shares_within; [|done]; by intros j e|].
  destruct (negb (ack_slots out)); [done|]. destruct (negb (end_opens out)); [done|]. destruct (negb (reply_reserved out)); [done|].
  set (t1 := if full then _ else t).
  assert (H1 : within t t1 ∧ (cnt (in_phase Terminal) (dedup_ t1) < kDedupTerminalPinMax cap)%nat).
  { unfold t1. unfold count_terminal_pins, count_where in full. fold (cnt (in_phase Terminal) (dedup_ t)) in full.
    destruct full eqn:Hfull; unfold full in Hfull; [|apply Nat.leb_gt in Hfull; split; [by intros j e|lia]]. cbn [andb] in Href.
    destruct pin_slot as [i|] eqn:Hi; [|done]. apply last_slot_spec in Hi as [?|(j & e & -> & He & Hp)]; [done|].
    apply andb_true_iff in Hp as [Hp _]. split; [intros k x Hx; by apply within_release in Hx|].
    pose proof (cnt_release _ _ _ _ He Hp). pose proof (sh_pins _ _ Hs). cbn [Nat.add].
    change (dedup_ (bump ExpiredStat (release_at j t))) with (dedup_ (release_at j t)). lia. }
  clearbody t1. destruct H1 as [Hw Hc]. destruct (negb (applied_recorded out)); [by eapply shares_within|].
  apply (admitted_shares cap age key FrameType.Data round Terminal up rem now t1 with_delivered); [by eapply find_within|by eapply shares_within|done|done|done].
Qed.

Lemma step_shares cap now o t :
  (1 ≤ kEvidenceCap cap)%nat → entries_ok t → shares cap t → shares cap (snd (step cap now o t)).
Proof.
  intros Hcap Hok Hs.
  destruct o as [out age key round up rem|out age key type round up rem|out age key type round up rem|key type round|evident key type round|];
    cbn [step].
  - pose proof (terminal_shares cap out age key round up rem now t Hs) as H. by destruct (handle_terminal _ _ _ _ _ _ _ _ t).
  - unfold handle_transit. cbn [snd]. destruct (find_dedup key type round t) eqn:Hf; [done|].
    by apply (admitted_shares cap age key type round Live up rem now t (with_forwarded up)).
  - unfold handle_routed. cbn [snd]. destruct (find_dedup key type round t) eqn:Hf; [done|].
    by apply (admitted_shares cap age key type round Resolved up rem now t with_delivered).
  - cbn [snd]. unfold resolve_dedup_for_job. destruct (find_dedup key type round t) as [i|]; [|done].
    destruct (Slots.at_ i (dedup_ t)) as [e|] eqn:He; [|done]. destruct (in_phase Live e) eqn:Hl; [|done].
    apply bool_decide_eq_true in Hl. eapply shares_replace; [done|done| |done|done]. intros up. unfold held_by. cbn. by rewrite Hl.
  - cbn [snd]. unfold report_failure. destruct (Slots.find _ _) as [i|] eqn:Hf; [|done].
    apply slots_find_at in Hf as (e & _ & He & Hp). apply andb_true_iff in Hp as [_ Hfw]. rewrite He. destruct (_ || _); [done|].
    apply (shares_evidence cap i e); [done|by apply (Hok i e He)|done|done].
  - cbn [snd]. eapply shares_within; [|done]. intros j e Hj.
    pose proof (step_changes cap now OExpire t j e Hj) as H. cbn [step snd] in Hj. revert Hj. unfold expire_dedup.
    destruct (_ =? _)%nat; [done|]. cbv zeta. destruct (Slots.erase_if (lapsed now) (dedup_ t)) as [n s] eqn:He. cbn. intros Hj%at_lookup.
    replace s with (snd (Slots.erase_if (lapsed now) (dedup_ t))) in Hj by (by rewrite He).
    apply slots_erase_lookup in Hj as [Hj _]. by apply at_lookup.
Qed.

(** C33: over every run, for capacities of at least four, terminal pins, the
    non-terminal records of each upstream peer and evidence records stay
    within their limits, and no record is retained for longer than the hard
    cap after its first frame. *)
Theorem dedup_shares cap clock log t :
  (4 ≤ cap)%nat → run cap clock log t →
  (count_terminal_pins t ≤ kDedupTerminalPinMax cap)%nat ∧
  (∀ up, (count_transit_upstream up t ≤ kDedupPerUpstreamMax cap)%nat) ∧
  (count_where (in_phase Evidence) t ≤ kEvidenceCap cap)%nat ∧
  ∀ i e, Slots.at_ i (dedup_ t) = Some e → expires_at_ms e ≤ first_seen_ms e + kDedupHardCapMs.
Proof.
  intros Hcap Hr. assert (He : (1 ≤ kEvidenceCap cap)%nat) by (unfold kEvidenceCap; apply Nat.div_le_lower_bound; lia).
  assert (Hs : shares cap t ∧ entries_ok t).
  { induction Hr as [|clock log t now o ds t' Hrun [IH Hok] Hn Ht Hs].
    - split; [|by destruct (run_invariant cap 0 [] (initial cap) (run_start cap)) as (_ & ? & _)].
      split; intros; cbn [dedup_ initial]; rewrite cnt_none; lia.
    - pose proof (step_shares cap now o t He Hok IH) as H1.
      destruct (run_invariant cap clock log t Hrun) as (Hc & _). pose proof (dedup_step_ok cap now o t ltac:(lia) Hok) as H2.
      rewrite Hs in H1, H2. done. }
  destruct Hs as [[Hp Hu Hev] Hok]. split; [exact Hp|]. split; [exact Hu|]. split; [exact Hev|].
  intros i e Hi. by destruct (Hok i e Hi) as (_ & _ & ?).
Qed.

(** ** Refusals *)

Lemma freed_slot i e t : Slots.at_ i (dedup_ t) = Some e → ∃ j s, Slots.allocate empty_dedup (dedup_ (release_at i t)) = (Some j, s).
Proof.
  intros Hi. unfold Slots.allocate. destruct (Slots.first_free _) as [j|] eqn:Hf; [by eauto|]. exfalso.
  apply (Slots.first_free_None _ Hf i). pose proof (at_lt _ _ _ Hi) as Hl. apply at_lookup in Hi.
  unfold release_at, Slots.release. cbn. rewrite Hi. cbn. by apply list_lookup_insert_eq.
Qed.

Lemma evict_frees mine now t t1 : evict_where mine now t = (true, t1) → ∃ j s, Slots.allocate empty_dedup (dedup_ t1) = (Some j, s).
Proof.
  intros H. pose proof (evict_where_spec mine now t) as Hs. cbv zeta in Hs. rewrite H in Hs. cbn [fst snd] in Hs.
  destruct Hs as (i & e & He & _ & ->). by eapply freed_slot.
Qed.

(** No slot: every record of the table is protected. *)
Lemma take_slot_full now t t' :
  take_slot now t = (None, t') → ∀ i, (i < length (dedup_ t))%nat → ∃ e, Slots.at_ i (dedup_ t) = Some e ∧ protected now e.
Proof.
  unfold take_slot. destruct (Slots.allocate empty_dedup (dedup_ t)) as [[k|] s] eqn:Ha; [done|].
  assert (Hfull : Slots.first_free (dedup_ t) = None) by (unfold Slots.allocate in Ha; by destruct (Slots.first_free _)).
  pose proof (evict_where_spec (λ _, true) now t) as Hs. cbv zeta in Hs. unfold evict_dedup_for_admission.
  destruct (evict_where (λ _, true) now t) as [[] t1] eqn:He.
  - destruct (evict_frees _ _ _ _ He) as (j & s1 & ->). done.
  - intros _ i Hi. destruct Hs as [_ Hp]. destruct (Slots.at_ i (dedup_ t)) as [e|] eqn:Hie; [exists e; split; [done|by eapply Hp]|].
    exfalso. apply (Slots.first_free_None _ Hfull i). unfold Slots.at_ in Hie. apply lookup_lt_is_Some in Hi as [o Ho].
    rewrite Ho in *. by destruct o.
Qed.

(** If [allocate_dedup] refuses a frame it has no record of, the records are
    unchanged, and either the upstream peer is at its bound and all it holds
    is unexpired Live work, or every slot holds an unexpired Live or Terminal
    record. *)
Lemma refusals_are_honest cap age key type round p up rem now t t' :
  find_dedup key type round t = None → allocate_dedup cap age key type round p up rem now t = (None, t') →
  dedup_ t' = dedup_ t ∧
  ((p ≠ Terminal ∧ (kDedupPerUpstreamMax cap ≤ count_transit_upstream up t)%nat ∧
    ∀ i e, Slots.at_ i (dedup_ t) = Some e → held_by up e = true → phase e = Live ∧ now < expires_at_ms e) ∨
   (∀ i, (i < length (dedup_ t))%nat → ∃ e, Slots.at_ i (dedup_ t) = Some e ∧ protected now e)).
Proof.
  intros Hf. unfold allocate_dedup. rewrite Hf. unfold make_room.
  destruct (_ && _) eqn:Hb.
  - apply andb_true_iff in Hb as [Hp%negb_true_iff%bool_decide_eq_false Hc%Nat.leb_le]. unfold evict_dedup_for_upstream.
    pose proof (evict_where_spec (held_by up) now t) as Hs. cbv zeta in Hs.
    destruct (evict_where (held_by up) now t) as [[] t1] eqn:He.
    + destruct (evict_frees _ _ _ _ He) as (j & s1 & Ha). unfold take_slot. by rewrite Ha.
    + intros [= <-]. destruct Hs as [Ht1 Hall]. cbn in Ht1. subst t1. split; [done|]. left. split; [done|]. split; [done|].
      intros i e Hi Hm. destruct (Hall i e Hi Hm) as [[Hl|Ht] Hlt]; [done|]. unfold held_by in Hm. by rewrite Ht in Hm.
  - destruct (take_slot now t) as [[k|] t2] eqn:Ht; [done|]. intros [= <-]. split; [|right; by eapply take_slot_full].
    revert Ht. unfold take_slot. destruct (Slots.allocate _ _) as [[k|] s]; [done|].
    pose proof (evict_where_spec (λ _, true) now t) as Hs. cbv zeta in Hs. unfold evict_dedup_for_admission.
    destruct (evict_where (λ _, true) now t) as [[] t1] eqn:He.
    + destruct (evict_frees _ _ _ _ He) as (j & s1 & ->). done.
    + intros [= <-]. destruct Hs as [Hs _]. cbn in Hs. by subst t1.
Qed.

(** ** Concrete runs *)

Fixpoint exec (cap : nat) (os : list (Z * op)) (log : list delivery) (t : DedupTable) : list delivery * DedupTable :=
  match os with
  | [] => (log, t)
  | (now, o) :: rest => let '(ds, t') := step cap now o t in exec cap rest (ds ++ log) t'
  end.
Fixpoint timed (clock : Z) (os : list (Z * op)) : Prop :=
  match os with [] => True | (now, o) :: rest => clock ≤ now < 2 ^ 63 ∧ frame_typed o ∧ timed now rest end.
Definition last_time (clock : Z) (os : list (Z * op)) : Z := default clock (fst <$> last os).

Lemma exec_run cap os : ∀ clock log t,
  run cap clock log t → timed clock os → let r := exec cap os log t in run cap (last_time clock os) (fst r) (snd r).
Proof.
  induction os as [|[now o] os IH]; intros clock log t Hr Ht; [done|]. destruct Ht as (Hn & Hty & Hrest). cbn [exec].
  destruct (step cap now o t) as [ds t'] eqn:Hs. cbv zeta. replace (last_time clock ((now, o) :: os)) with (last_time now os).
  - apply IH; [|done]. by eapply run_step.
  - unfold last_time. destruct os as [|x os]; [done|]. rewrite last_cons_cons. destruct (last (x :: os)) eqn:Hl; [done|].
    by apply last_None in Hl.
Qed.

Definition all_ok : Outside := mkOutside true true true true true true true true true.
Definition demo_key : MessageKey := mkMessageKey 9 (mkMessageId 1 1).
(** A message arrives, arrives again on the next round, and once more after
    its pin expired. *)
Definition demo_ops : list (Z * op) :=
  [(1000, OTerminal all_ok 0 demo_key 0 5 5000); (2000, OTerminal all_ok 0 demo_key 1 5 4000);
   (2000, OTransit all_ok 0 (mkMessageKey 8 (mkMessageId 1 1)) FrameType.Data 0 5 4000); (37000, OExpire); (37000, OTransit all_ok 0 (mkMessageKey 8 (mkMessageId 1 2)) FrameType.Data 0 5 4000); (40000, OTerminal all_ok 0 demo_key 2 5 5000)].
Definition demo_log : list delivery := Eval vm_compute in fst (exec 8 demo_ops [] (initial 8)).
Definition demo_table : DedupTable := Eval vm_compute in snd (exec 8 demo_ops [] (initial 8)).

Lemma demo_run : run 8 40000 demo_log demo_table.
Proof.
  apply (exec_run 8 demo_ops 0 [] (initial 8) (run_start 8)). cbn. repeat split; lia.
Qed.

Lemma data_delivered_once_witness : length demo_log = 2%nat ∧ pin_until (mkDelivery demo_key 1000 5000 0) = 36000 ∧ 36000 ≤ 40000.
Proof.
  split; [done|]. split; [done|].
  exact (data_delivered_once 8 40000 [] (mkDelivery demo_key 40000 5000 0) [mkDelivery demo_key 1000 5000 0] demo_table
    (mkDelivery demo_key 1000 5000 0) demo_run ltac:(left) eq_refl).
Defined.

Lemma dedup_shares_witness : (count_terminal_pins demo_table ≤ 7)%nat ∧ count_transit_upstream 5 demo_table = 1%nat.
Proof.
  split; [|by vm_compute]. exact (proj1 (dedup_shares 8 40000 demo_log demo_table ltac:(lia) demo_run)).
Defined.

(** A table of one slot that holds a live record refuses the next frame. *)
Definition full_table : DedupTable :=
  set_dedup [Some (mkDedup demo_key FrameType.Data 0 Terminal 1000 61000 5 true false)] (initial 1).
Lemma refusals_are_honest_witness :
  fst (allocate_dedup 1 0 demo_key FrameType.Data 1 Terminal 5 1000 2000 full_table) = None ∧
  dedup_ (snd (allocate_dedup 1 0 demo_key FrameType.Data 1 Terminal 5 1000 2000 full_table)) = dedup_ full_table.
Proof.
  split; [by vm_compute|].
  destruct (allocate_dedup 1 0 demo_key FrameType.Data 1 Terminal 5 1000 2000 full_table) as [r t'] eqn:Ha.
  assert (Hr : r = None) by (vm_compute in Ha; by injection Ha as <- _). subst r.
  exact (proj1 (refusals_are_honest 1 0 demo_key FrameType.Data 1 Terminal 5 1000 2000 full_table t' ltac:(by vm_compute) Ha)).
Defined.
