(* ===== verification/ReplyLeases.v ===== *)
(** * Reply leases (reply_peer_leases.{hpp,cpp}, peer_directory.hpp)

    The table of reply-direction peer leases a radio owner keeps: three
    binding entries shared by eight uses.  A token names one use by its slot
    and the serial issued for it. *)

From S2P Require Import Prelude Types.

Definition kExpectedReplyBindingsMax : nat := 3.
Definition kReplyLeaseUsesMax : nat := 8.
Definition kReplyLeaseTtlMs : Z := 1500.
Definition kInvalidBindingId : Z := 0.

Record ReplyBinding := mkBinding { rb_peer : NodeId; rb_id : Z; rb_generation : Z; rb_rx_context_id : Z }.
#[global] Instance ReplyBinding_eq_dec : EqDecision ReplyBinding.
Proof. solve_decision. Defined.
Definition no_binding : ReplyBinding := mkBinding kInvalidNodeId kInvalidBindingId 0 0.

Record ReplyLeaseToken := mkToken { use_slot : N; tk_serial : Z }.
#[global] Instance ReplyLeaseToken_eq_dec : EqDecision ReplyLeaseToken.
Proof. solve_decision. Defined.
Definition kInvalidReplyLeaseToken : ReplyLeaseToken := mkToken 0xFFFFFFFF 0.

Definition next_use_serial (current : Z) : option Z :=
  if bool_decide (current = UINT32_MAX) then None else Some (current + 1).

(** [ExpectedReplyLeases::Entry] and [ExpectedReplyLeases::Use] *)
Record Entry := mkEntry {
  e_binding : ReplyBinding; refcount : Z; holder_mask : Z; deadline_max : Z; e_used : bool; e_retired : bool }.
Record Use := mkUse { u_entry : nat; u_used : bool; u_retired : bool; u_serial : Z; u_deadline : Z }.
Record Leases := mkLeases { entries_ : list Entry; uses_ : list Use; last_now_ : Z; in_call_ : bool }.

Definition free_entry : Entry := mkEntry no_binding 0 0 0 false false.
Definition free_use : Use := mkUse kExpectedReplyBindingsMax false false 0 0.
Definition initial : Leases :=
  mkLeases (replicate kExpectedReplyBindingsMax free_entry) (replicate kReplyLeaseUsesMax free_use) 0 false.

Definition set_entries (es : list Entry) (t : Leases) : Leases := mkLeases es (uses_ t) (last_now_ t) (in_call_ t).
Definition set_uses (us : list Use) (t : Leases) : Leases := mkLeases (entries_ t) us (last_now_ t) (in_call_ t).
Definition set_clock (now : Z) (t : Leases) : Leases := mkLeases (entries_ t) (uses_ t) now (in_call_ t).

Definition with_deadline (d : Z) (x : Entry) : Entry :=
  mkEntry (e_binding x) (refcount x) (holder_mask x) d (e_used x) (e_retired x).
Definition retire_use (u : Use) : Use := mkUse (u_entry u) (u_used u) true (u_serial u) (u_deadline u).
Definition free_of_use (u : Use) : Use := mkUse (u_entry u) false (u_retired u) (u_serial u) (u_deadline u).

(** ** Lookups *)

Definition keyed (id generation : Z) (x : Entry) : bool :=
  e_used x && bool_decide (rb_id (e_binding x) = id) && bool_decide (rb_generation (e_binding x) = generation).
Definition find_entry (id generation : Z) (t : Leases) : option (nat * Entry) :=
  list_find (λ x, keyed id generation x = true) (entries_ t).

(** An index of 32 bits, checked against the size of the array. *)
Definition lookup_u32 {A} (slot : N) (l : list A) : option A :=
  if (N.of_nat (length l) <=? slot)%N then None else l !! N.to_nat slot.
Lemma lookup_u32_eq {A} slot (l : list A) : lookup_u32 slot l = l !! N.to_nat slot.
Proof. unfold lookup_u32. destruct (N.leb_spec (N.of_nat (length l)) slot); [|done]. symmetry. apply lookup_ge_None. lia. Qed.

Definition use_at (slot : N) (t : Leases) : option Use := lookup_u32 slot (uses_ t).
Definition resolve (tok : ReplyLeaseToken) (t : Leases) : option Use :=
  match use_at (use_slot tok) t with
  | Some u => if negb (u_used u) || negb (bool_decide (u_serial u = tk_serial tok)) then None else Some u
  | None => None
  end.

Definition holds (e : nat) (u : Use) : bool := u_used u && (u_entry u =? e)%nat.
(** The maximum [recompute_deadline] stores in entry [e]. *)
Definition deadline_of (e : nat) (us : list Use) : Z :=
  fold_left (λ m u, if holds e u && bool_decide (m < u_deadline u) then u_deadline u else m) us 0.

Definition slot_bit (i : nat) : Z := Z.shiftl 1 (Z.of_nat i).

(** ** acquire *)

Definition bad_identity (b : ReplyBinding) : bool :=
  bool_decide (rb_peer b = kInvalidNodeId) || bool_decide (rb_id b = kInvalidBindingId) ||
  bool_decide (rb_generation b = 0) || bool_decide (rb_rx_context_id b = 0).

(** The slot selection of [acquire]: parks exhausted slots on its way, and
    reports whether it met a retired one. *)
Fixpoint pick_use (i : nat) (us : list Use) (retired_seen : bool) : option (nat * Z) * list Use * bool :=
  match us with
  | [] => (None, [], retired_seen)
  | u :: rest =>
      if u_used u then let '(r, rest', f) := pick_use (S i) rest retired_seen in (r, u :: rest', f)
      else if u_retired u then let '(r, rest', f) := pick_use (S i) rest true in (r, u :: rest', f)
      else match next_use_serial (u_serial u) with
           | None => let '(r, rest', f) := pick_use (S i) rest true in (r, retire_use u :: rest', f)
           | Some serial => (Some (i, serial), us, retired_seen)
           end
  end.

Definition no_use {A} (retired_seen : bool) : result A :=
  if retired_seen then Err CounterExhausted "use serials exhausted" else Err NoCapacity "8 uses live".

Definition first_unused (es : list Entry) : option (nat * Entry) := list_find (λ x, e_used x = false) es.

(** The commit: entry [e] (with contents [x]) takes one more use, slot [i]. *)
Definition commit_use (e : nat) (x : Entry) (i : nat) (serial grant now : Z) (t : Leases) : Leases :=
  let us := match uses_ t !! i with
            | Some u => <[i := mkUse e true (u_retired u) serial grant]> (uses_ t)
            | None => uses_ t
            end in
  let x1 := mkEntry (e_binding x) (u16 (refcount x + 1)) (Z.lor (holder_mask x) (u16 (slot_bit i)))
              (deadline_of e us) (e_used x) (e_retired x) in
  mkLeases (<[e := x1]> (entries_ t)) us now (in_call_ t).

(** The entry of the captured key, or a free one set up for it. *)
Definition choose_entry (captured : ReplyBinding) (t : Leases) : result (nat * Entry) :=
  match find_entry (rb_id captured) (rb_generation captured) t with
  | Some (e, x) =>
      guard_err (e_retired x) Conflict "binding retired";;
      guard_err (negb (bool_decide (e_binding x = captured))) Conflict "binding identity changed";;
      Ok (e, x)
  | None =>
      match first_unused (entries_ t) with
      | None => Err NoCapacity "3 reply bindings live"
      | Some (e, _) => Ok (e, mkEntry captured 0 0 0 true false)
      end
  end.

Definition acquire (captured : ReplyBinding) (deadline now : Z) (t : Leases) : result ReplyLeaseToken * Leases :=
  if in_call_ t then (Err Busy "reentrant acquire", t)
  else if bool_decide (now < last_now_ t) then (Err TimeUncertain "clock regressed", t)
  else if bad_identity captured then (Err InvalidArgument "zero identity field", t)
  else if bool_decide (deadline ≤ now) then (Err InvalidArgument "deadline already passed", t)
  else if bool_decide (UINT64_MAX - kReplyLeaseTtlMs < now) then (Err CounterExhausted "ttl unrepresentable", t)
  else
    let grant := Z.min deadline (now + kReplyLeaseTtlMs) in
    match choose_entry captured t with
    | Err c d => (Err c d, t)
    | Ok (e, x) =>
        let '(pick, us, retired_seen) := pick_use 0 (uses_ t) false in
        let t1 := set_uses us t in
        match pick with
        | None => (no_use retired_seen, t1)
        | Some (i, serial) =>
            if bool_decide (refcount x = UINT16_MAX) then (Err InternalError "entry refcount saturated", t1)
            else (Ok (mkToken (N.of_nat i) serial), commit_use e x i serial grant now t1)
        end
    end.

(** The loop of [probe_acquire], which parks nothing. *)
Fixpoint probe_use (us : list Use) (retired_seen : bool) : bool * bool :=
  match us with
  | [] => (false, retired_seen)
  | u :: rest =>
      if u_used u then probe_use rest retired_seen
      else if u_retired u then probe_use rest true
      else match next_use_serial (u_serial u) with
           | None => probe_use rest true
           | Some _ => (true, retired_seen)
           end
  end.

Definition probe_acquire (captured : ReplyBinding) (deadline now : Z) (t : Leases) : result unit :=
  if in_call_ t then Err Busy "reentrant probe"
  else if bool_decide (now < last_now_ t) then Err TimeUncertain "clock regressed"
  else if bad_identity captured then Err InvalidArgument "zero identity field"
  else if bool_decide (deadline ≤ now) then Err InvalidArgument "deadline already passed"
  else if bool_decide (UINT64_MAX - kReplyLeaseTtlMs < now) then Err CounterExhausted "ttl unrepresentable"
  else
    let entry := snd <$> find_entry (rb_id captured) (rb_generation captured) t in
    match entry with
    | Some x => guard_err (e_retired x) Conflict "binding retired";;
                guard_err (negb (bool_decide (e_binding x = captured))) Conflict "binding identity changed"
    | None => guard_err (forallb e_used (entries_ t)) NoCapacity "3 reply bindings live"
    end;;
    let '(free, retired_seen) := probe_use (uses_ t) false in
    (if free then Ok tt else no_use retired_seen);;
    match entry with
    | Some x => guard_err (bool_decide (refcount x = UINT16_MAX)) InternalError "entry refcount saturated"
    | None => Ok tt
    end.

(** ** release, validate, invalidation *)

(** An entry without uses is recycled at once. *)
Definition recycle (x : Entry) : Entry := mkEntry no_binding (refcount x) (holder_mask x) 0 false false.

Definition release (tok : ReplyLeaseToken) (t : Leases) : result unit * Leases :=
  if in_call_ t then (Err Busy "reentrant release", t)
  else match use_at (use_slot tok) t with
  | None => (Err NotFound "unknown use slot", t)
  | Some u =>
      if negb (u_used u) || negb (bool_decide (u_serial u = tk_serial tok)) then (Err NotFound "stale token", t)
      else match entries_ t !! u_entry u with
      | None => (Err InternalError "use without entry", t)
      | Some x =>
          let i := N.to_nat (use_slot tok) in
          let bit := u16 (slot_bit i) in
          if negb (e_used x) || bool_decide (refcount x = 0) || bool_decide (Z.land (holder_mask x) bit = 0)
          then (Err InternalError "entry link broken", t)
          else
            let us := <[i := free_of_use u]> (uses_ t) in
            let x1 := mkEntry (e_binding x) (u16 (refcount x - 1)) (Z.land (holder_mask x) (u16 (Z.lnot bit)))
                        (deadline_max x) (e_used x) (e_retired x) in
            let x2 := if bool_decide (refcount x1 = 0) then recycle x1 else with_deadline (deadline_of (u_entry u) us) x1 in
            (Ok tt, set_entries (<[u_entry u := x2]> (entries_ t)) (set_uses us t))
      end
  end.

Definition validate (tok : ReplyLeaseToken) (now : Z) (t : Leases) : result unit * Leases :=
  if in_call_ t then (Err Busy "reentrant validate", t)
  else if bool_decide (now < last_now_ t) then (Err TimeUncertain "clock regressed", t)
  else
    let t1 := set_clock now t in
    (match resolve tok t with
     | None => Err NotFound "stale token"
     | Some u =>
         match entries_ t !! u_entry u with
         | None => Err InternalError "use without entry"
         | Some x =>
             if negb (e_used x) || e_retired x then Err Conflict "binding retired"
             else if bool_decide (u_deadline u ≤ now) then Err Expired "use deadline passed"
             else Ok tt
         end
     end, t1).

Definition retire_entry (x : Entry) : Entry :=
  let x1 := mkEntry (e_binding x) (refcount x) (holder_mask x) (deadline_max x) (e_used x) true in
  if bool_decide (refcount x = 0) then recycle x1 else x1.

Definition invalidate_binding (id : Z) (t : Leases) : result unit * Leases :=
  if in_call_ t then (Err Busy "reentrant invalidate_binding", t)
  else (Ok tt, set_entries ((λ x, if e_used x && bool_decide (rb_id (e_binding x) = id) then retire_entry x else x) <$> entries_ t) t).

Definition invalidate_all (t : Leases) : result unit * Leases :=
  if in_call_ t then (Err Busy "reentrant invalidate_all", t)
  else (Ok tt, set_entries ((λ x, if e_used x then retire_entry x else x) <$> entries_ t) t).

(** ** Observers *)

Definition use_binding (tok : ReplyLeaseToken) (t : Leases) : result ReplyBinding :=
  match resolve tok t with
  | None => Err NotFound "stale token"
  | Some u =>
      match entries_ t !! u_entry u with
      | None => Err InternalError "use without entry"
      | Some x => if negb (e_used x) || e_retired x then Err Conflict "binding retired" else Ok (e_binding x)
      end
  end.

Definition holds_binding (id generation : Z) (t : Leases) : bool :=
  match find_entry id generation t with Some (_, x) => bool_decide (0 < refcount x) | None => false end.

Definition live_use_count (t : Leases) : nat := length (filter (λ u, u_used u = true) (uses_ t)).
Definition live_entry_count (t : Leases) : nat := length (filter (λ x, e_used x = true) (entries_ t)).

(** The structural audit of the table: one pass per entry over the uses its
    mask names, then one pass over the uses. *)
Fixpoint audit_mask (e i : nat) (mask : Z) (us : list Use) (popcount max : Z) : option (Z * Z) :=
  match us with
  | [] => Some (popcount, max)
  | u :: rest =>
      if bool_decide (Z.land mask (u16 (slot_bit i)) = 0) then audit_mask e (S i) mask rest popcount max
      else if negb (u_used u) || negb (u_entry u =? e)%nat || bool_decide (u_serial u = 0) then None
      else audit_mask e (S i) mask rest (u16 (popcount + 1)) (if bool_decide (max < u_deadline u) then u_deadline u else max)
  end.

Definition audit_entry (us : list Use) (e : nat) (x : Entry) : bool :=
  if negb (e_used x) then bool_decide (refcount x = 0) && bool_decide (holder_mask x = 0)
  else match audit_mask e 0 (holder_mask x) us 0 0 with
       | None => false
       | Some (popcount, max) =>
           bool_decide (refcount x = popcount) && negb (bool_decide (refcount x = 0)) && bool_decide (deadline_max x = max)
       end.

Definition audit_use (es : list Entry) (i : nat) (u : Use) : bool :=
  if u_retired u && u_used u then false
  else if negb (u_used u) then true
  else if bool_decide (u_serial u = 0) then false
  else match es !! u_entry u with
       | None => false
       | Some x => e_used x && negb (bool_decide (Z.land (holder_mask x) (u16 (slot_bit i)) = 0))
       end.

Definition check_invariants (t : Leases) : bool :=
  forallb id (imap (audit_entry (uses_ t)) (entries_ t)) && forallb id (imap (audit_use (entries_ t)) (uses_ t)).

(** ** The driver release gate *)

Record DriverReleaseEvidence := mkEvidence {
  reply_uses_live : bool; tx_in_flight : bool; fence_or_quarantine : bool; other_lease_hold : bool;
  topology_pin_live : bool; callbacks_drained : bool }.
Definition driver_transfer_allowed (ev : DriverReleaseEvidence) : bool :=
  negb (reply_uses_live ev) && negb (tx_in_flight ev) && negb (fence_or_quarantine ev) && negb (other_lease_hold ev) &&
  callbacks_drained ev.
Definition driver_release_allowed (ev : DriverReleaseEvidence) : bool :=
  driver_transfer_allowed ev && negb (topology_pin_live ev).
