(* ===== verification/ReplyLeasesProps.v ===== *)
(** * Correctness of the reply leases

    The invariant behind the code's own audit, the agreement of the probe
    with the acquisition, and the refinement of the table to a map from
    tokens to leases in which a token names one use forever. *)

From S2P Require Import Prelude Types ReplyLeases.

(** ** The probe *)

Lemma probe_pick us : ∀ i f,
  let '(r, us', f') := pick_use i us f in probe_use us f = (match r with Some _ => true | None => false end, f').
Proof.
  induction us as [|u us IH]; intros i f; cbn [pick_use probe_use]; [done|].
  destruct (u_used u); [|destruct (u_retired u); [|destruct (next_use_serial (u_serial u)) eqn:Hn; [done|]]].
  - specialize (IH (S i) f). by destruct (pick_use (S i) us f) as [[r us'] f'].
  - specialize (IH (S i) true). by destruct (pick_use (S i) us true) as [[r us'] f'].
  - specialize (IH (S i) true). by destruct (pick_use (S i) us true) as [[r us'] f'].
Qed.

Lemma first_unused_forallb es : first_unused es = None ↔ forallb e_used es = true.
Proof.
  unfold first_unused. rewrite list_find_None. induction es as [|x es IH]; [done|]. cbn [forallb].
  rewrite Forall_cons, IH, andb_true_iff. destruct (e_used x); naive_solver.
Qed.

(** Outside a nested call, [probe_acquire] returns the status that [acquire]
    would return on the same table, errors and their details included. *)
Lemma probe_matches_acquire captured deadline now t :
  in_call_ t = false →
  probe_acquire captured deadline now t =
    match fst (acquire captured deadline now t) with Ok _ => Ok tt | Err c d => Err c d end.
Proof.
  intros Hc. unfold probe_acquire, acquire. rewrite Hc. cbv zeta.
  repeat (case_match; [done|]). unfold choose_entry.
  pose proof (probe_pick (uses_ t) 0 false) as Hp. destruct (pick_use 0 (uses_ t) false) as [[pick us] rs]. rewrite Hp.
  destruct (find_entry _ _ t) as [[e x]|]; cbn [fmap option_fmap option_map snd].
  - unfold guard_err. destruct (e_retired x); [done|]. destruct (negb _); [done|]. cbn.
    unfold no_use. by destruct pick as [[i serial]|], (bool_decide (refcount x = UINT16_MAX)), rs.
  - destruct (first_unused (entries_ t)) as [[e x]|] eqn:Hf.
    + replace (forallb e_used (entries_ t)) with false; [cbn; by destruct pick as [[i serial]|]; [|unfold no_use; destruct rs]|].
      symmetry. apply not_true_is_false. intros Hall. apply first_unused_forallb in Hall. congruence.
    + by rewrite (proj1 (first_unused_forallb _) Hf).
Qed.

(** ** Counting the holders of an entry *)

Definition nholds (e : nat) (us : list Use) : Z := Z.of_nat (length (filter (λ u, holds e u = true) us)).
Definition bit_of (us : list Use) (e : nat) (i : Z) : bool :=
  match us !! Z.to_nat i with Some u => holds e u | None => false end.
Definition b2z (b : bool) : Z := if b then 1 else 0.

Lemma nholds_cons e u us : nholds e (u :: us) = b2z (holds e u) + nholds e us.
Proof.
  unfold nholds. rewrite filter_cons. destruct (holds e u); [rewrite decide_True by done; cbn; lia|by rewrite decide_False].
Qed.
Lemma nholds_insert e us : ∀ i u v, us !! i = Some u → nholds e (<[i := v]> us) = nholds e us - b2z (holds e u) + b2z (holds e v).
Proof.
  induction us as [|w us IH]; intros [|i] u v Hi; try done; cbn in Hi.
  - injection Hi as ->. cbn [insert list_insert]. rewrite !nholds_cons. lia.
  - change (<[S i := v]> (w :: us)) with (w :: <[i := v]> us). rewrite !nholds_cons, (IH i u v Hi). lia.
Qed.
Lemma nholds_bounds e us : 0 ≤ nholds e us ≤ Z.of_nat (length us).
Proof. unfold nholds. pose proof (length_filter (λ u, holds e u = true) us). lia. Qed.
Lemma nholds_pos e us : 0 < nholds e us ↔ ∃ i u, us !! i = Some u ∧ holds e u = true.
Proof.
  unfold nholds. split.
  - intros H. destruct (filter (λ u, holds e u = true) us) as [|u l] eqn:Hf; [cbn in H; lia|].
    assert (Hu : u ∈ filter (λ u, holds e u = true) us) by (rewrite Hf; left).
    apply list_elem_of_filter in Hu as [Hh Hin]. apply list_elem_of_lookup in Hin as [i Hi]. eauto.
  - intros (i & u & Hi & Hh). assert (Hu : u ∈ filter (λ u, holds e u = true) us).
    { apply list_elem_of_filter. split; [done|]. by eapply list_elem_of_lookup_2. }
    destruct (filter _ us); [by apply not_elem_of_nil in Hu|cbn; lia].
Qed.

Lemma bit_of_insert us e i v j :
  0 ≤ j → (i < length us)%nat → bit_of (<[i := v]> us) e j = if decide (j = Z.of_nat i) then holds e v else bit_of us e j.
Proof.
  intros Hj Hi. unfold bit_of. destruct (decide (j = Z.of_nat i)) as [->|Hne].
  - rewrite Nat2Z.id. by rewrite list_lookup_insert_eq.
  - rewrite list_lookup_insert_ne; [done|]. intros ->. lia.
Qed.

Lemma deadline_of_insert e us i u v :
  us !! i = Some u → holds e u = false → holds e v = false → deadline_of e (<[i := v]> us) = deadline_of e us.
Proof.
  intros Hi Hu Hv. unfold deadline_of. generalize 0. revert i Hi.
  induction us as [|w us IH]; intros [|i] Hi m; try done; cbn in Hi.
  - injection Hi as ->. cbn [insert list_insert fold_left]. by rewrite Hu, Hv.
  - change (<[S i := v]> (w :: us)) with (w :: <[i := v]> us). cbn [fold_left]. by apply IH.
Qed.

(** ** The invariant *)

Definition counted (us : list Use) (e : nat) (x : Entry) : Prop :=
  refcount x = nholds e us ∧ ∀ i, 0 ≤ i → Z.testbit (holder_mask x) i = bit_of us e i.
Record entry_ok (us : list Use) (e : nat) (x : Entry) : Prop := {
  eo_counted : counted us e x;
  eo_used : e_used x = bool_decide (0 < refcount x);
  eo_deadline : e_used x = true → deadline_max x = deadline_of e us }.
Record use_ok (u : Use) : Prop := {
  uo_serial : 0 ≤ u_serial u ≤ UINT32_MAX;
  uo_used : u_used u = true → (u_entry u < kExpectedReplyBindingsMax)%nat ∧ 0 < u_serial u ∧ u_retired u = false }.
Definition entry_key (x : Entry) : Z * Z := (rb_id (e_binding x), rb_generation (e_binding x)).
Record leases_ok (t : Leases) : Prop := {
  lo_entries : length (entries_ t) = kExpectedReplyBindingsMax;
  lo_uses : length (uses_ t) = kReplyLeaseUsesMax;
  lo_idle : in_call_ t = false;
  lo_entry : ∀ e x, entries_ t !! e = Some x → entry_ok (uses_ t) e x;
  lo_use : ∀ i u, uses_ t !! i = Some u → use_ok u;
  lo_keys : ∀ e x e' x', entries_ t !! e = Some x → entries_ t !! e' = Some x' → e_used x = true → e_used x' = true →
    entry_key x = entry_key x' → e = e' }.

Lemma initial_ok : leases_ok initial.
Proof.
  split; try done.
  - intros e x [-> He]%lookup_replicate. split; [|done|done].
    assert (Hn : ∀ n k, nholds k (replicate n free_use) = 0).
    { induction n as [|n IH]; intros k; [done|]. change (replicate (S n) free_use) with (free_use :: replicate n free_use).
      by rewrite nholds_cons, IH. }
    split; [cbn [uses_ initial refcount free_entry]; by rewrite Hn|]. intros i Hi. cbn [holder_mask free_entry]. rewrite Z.bits_0. unfold bit_of. cbn [uses_ initial].
    destruct (replicate _ _ !! Z.to_nat i) as [u|] eqn:Hu; [|done]. by apply lookup_replicate in Hu as [-> _].
  - intros i u [-> _]%lookup_replicate. by split.
  - intros e x e' x' [-> _]%lookup_replicate. done.
Qed.

(** A use that is held has its entry. *)
Lemma held_entry t i u :
  leases_ok t → uses_ t !! i = Some u → u_used u = true → ∃ x, entries_ t !! u_entry u = Some x ∧ e_used x = true.
Proof.
  intros Ht Hi Hu. destruct (uo_used _ (lo_use _ Ht i u Hi) Hu) as (He & _). rewrite <- (lo_entries _ Ht) in He.
  apply lookup_lt_is_Some in He as [x Hx]. exists x. split; [done|]. pose proof (lo_entry _ Ht _ x Hx) as [[Hc _] Hus _].
  rewrite Hus. apply bool_decide_eq_true. rewrite Hc. apply nholds_pos. exists i, u. split; [done|]. unfold holds.
  by rewrite Hu, Nat.eqb_refl.
Qed.

(** ** Parked slots *)

Definition parked (us us' : list Use) : Prop := Forall2 (λ u v, v = u ∨ (u_used u = false ∧ v = retire_use u)) us us'.

Lemma parked_refl us : parked us us.
Proof. apply Forall2_same_length_lookup_2; [done|]. intros i x y H1 H2. left. congruence. Qed.

Lemma parked_holds us us' : parked us us' → ∀ e,
  nholds e us' = nholds e us ∧ deadline_of e us' = deadline_of e us ∧ ∀ i, bit_of us' e i = bit_of us e i.
Proof.
  intros Hp e.
  assert (Hh : Forall2 (λ u v, holds e v = holds e u ∧ u_deadline v = u_deadline u) us us').
  { eapply Forall2_impl; [exact Hp|]. intros u v [->|[Hu ->]]; [done|]. unfold holds, retire_use. cbn. by rewrite Hu. }
  split_and!.
  - clear Hp. induction Hh as [|u v us us' [H _] _ IH]; [done|]. by rewrite !nholds_cons, IH, H.
  - clear Hp. unfold deadline_of. generalize 0. induction Hh as [|u v us us' [H1 H2] _ IH]; intros m; [done|].
    cbn [fold_left]. rewrite H1, H2. apply IH.
  - intros i. unfold bit_of. destruct (us !! Z.to_nat i) as [u|] eqn:Hu.
    + destruct (Forall2_lookup_l _ _ _ _ _ Hh Hu) as (v & -> & H & _). done.
    + assert (us' !! Z.to_nat i = None) as ->; [|done]. apply lookup_ge_None. rewrite <- (Forall2_length _ _ _ Hh).
      by apply lookup_ge_None.
Qed.

Lemma pick_use_flag us : ∀ i r us' f', pick_use i us true = (r, us', f') → f' = true.
Proof.
  induction us as [|u us IH]; intros i r us' f'; cbn [pick_use]; [by intros [= _ _ <-]|].
  destruct (u_used u), (u_retired u), (next_use_serial (u_serial u)); try by intros [= _ _ <-].
  all: destruct (pick_use (S i) us true) as [[r0 us0] f0] eqn:Hp; intros [= _ _ <-]; by eapply IH.
Qed.

(** What the selection did to the slots it passed. *)
Definition picked (i : nat) (us us' : list Use) (f f' : bool) (r : option (nat * Z)) : Prop :=
  match r with
  | Some (k, serial) => ∃ j u, k = (i + j)%nat ∧ us !! j = Some u ∧ us' !! j = Some u ∧ u_used u = false ∧ u_retired u = false ∧
      serial = u_serial u + 1 ∧ u_serial u ≠ UINT32_MAX
  | None => (f' = false → Forall (λ u, u_used u = true) us) ∧
      (f' = true → f = true ∨ ∃ j u, us !! j = Some u ∧ u_used u = false ∧ (u_retired u = true ∨ u_serial u = UINT32_MAX))
  end.

Lemma picked_cons i u v us us' f0 f f' r :
  picked (S i) us us' f0 f' r →
  (f0 = f ∧ u_used u = true ∨ f0 = true ∧ f' = true ∧ u_used u = false ∧ (u_retired u = true ∨ u_serial u = UINT32_MAX)) →
  picked i (u :: us) (v :: us') f f' r.
Proof.
  intros Hr Hf. destruct r as [[k serial]|]; cbn [picked] in *.
  - destruct Hr as (j & w & -> & H). exists (S j), w. split; [lia|done].
  - destruct Hr as [H1 H2]. destruct Hf as [[-> Hu]|(-> & -> & Hu)].
    + split; [intros Hf'; constructor; auto|]. intros Hf'. destruct (H2 Hf') as [|(j & w & H)]; [by left|]. right. by exists (S j), w.
    + split; [done|]. intros _. right. by exists 0%nat, u.
Qed.

Lemma pick_use_spec us : ∀ i f r us' f', pick_use i us f = (r, us', f') → parked us us' ∧ picked i us us' f f' r.
Proof.
  induction us as [|u us IH]; intros i f r us' f'; cbn [pick_use].
  { intros [= <- <- <-]. split; [constructor|]. split; [constructor|by left]. }
  destruct (u_used u) eqn:Hu; [|destruct (u_retired u) eqn:Hret; [|unfold next_use_serial; case_bool_decide as Hser]].
  1-3: (destruct (pick_use (S i) us _) as [[r0 us0] f0] eqn:Hp; intros [= <- <- <-]; pose proof (IH _ _ _ _ _ Hp) as [Hpk Hr]).
  - split; [constructor; [by left|done]|]. eapply picked_cons; [done|]. by left.
  - split; [constructor; [by left|done]|]. eapply picked_cons; [done|]. right. apply pick_use_flag in Hp as ->. auto.
  - split; [constructor; [by right|done]|]. eapply picked_cons; [done|]. right. apply pick_use_flag in Hp as ->. auto.
  - intros [= <- <- <-]. split; [apply parked_refl|]. exists 0%nat, u. rewrite Nat.add_0_r. by split_and!.
Qed.

(** ** Leases by token *)

Record Lease := mkLease { l_binding : ReplyBinding; l_deadline : Z; l_revoked : bool }.
Definition lease_of (t : Leases) (tok : ReplyLeaseToken) : option Lease :=
  u ← resolve tok t; x ← entries_ t !! u_entry u; Some (mkLease (e_binding x) (u_deadline u) (e_retired x)).

Lemma resolve_Some tok t u :
  resolve tok t = Some u ↔ uses_ t !! N.to_nat (use_slot tok) = Some u ∧ u_used u = true ∧ u_serial u = tk_serial tok.
Proof.
  unfold resolve, use_at. rewrite ?lookup_u32_eq. destruct (uses_ t !! N.to_nat (use_slot tok)) as [v|]; [|split; [done|by intros [? _]]].
  destruct (u_used v) eqn:Hu, (bool_decide_reflect (u_serial v = tk_serial tok)) as [Hs|Hs]; cbn.
  1: split; [intros [= <-]; by split_and!|by intros [[= <-] _]].
  all: (split; [done|]; intros ([= <-] & H1 & H2); congruence).
Qed.

Lemma lease_of_Some t tok l :
  lease_of t tok = Some l ↔ ∃ u x, uses_ t !! N.to_nat (use_slot tok) = Some u ∧ u_used u = true ∧ u_serial u = tk_serial tok ∧
    entries_ t !! u_entry u = Some x ∧ l = mkLease (e_binding x) (u_deadline u) (e_retired x).
Proof.
  unfold lease_of. rewrite bind_Some. split.
  - intros (u & (Hu & Hus & Hs)%resolve_Some & (x & Hx & [= <-])%bind_Some). by exists u, x.
  - intros (u & x & Hu & Hus & Hs & Hx & ->). exists u. split; [by apply resolve_Some|]. by rewrite Hx.
Qed.

Lemma lease_live t tok u :
  leases_ok t → resolve tok t = Some u →
  ∃ x, entries_ t !! u_entry u = Some x ∧ e_used x = true ∧ lease_of t tok = Some (mkLease (e_binding x) (u_deadline u) (e_retired x)).
Proof.
  intros Ht Hr. pose proof Hr as (Hu & Hus & Hs)%resolve_Some. destruct (held_entry t _ u Ht Hu Hus) as (x & Hx & He).
  exists x. split; [done|]. split; [done|]. apply lease_of_Some. by exists u, x.
Qed.
Lemma lease_dead t tok : resolve tok t = None → lease_of t tok = None.
Proof. unfold lease_of. by intros ->. Qed.

Lemma parked_ok us t : leases_ok t → parked (uses_ t) us → leases_ok (set_uses us t).
Proof.
  intros [H1 H2 H3 H4 H5 H6] Hp. split; [done| |done| | |done].
  - cbn. by rewrite <- (Forall2_length _ _ _ Hp).
  - intros e x Hx. destruct (H4 e x Hx) as [[Hc Hm] Hu Hd]. destruct (parked_holds _ _ Hp e) as (Hn & Hdl & Hb).
    split; [|done|]; cbn [uses_ set_uses]; [|by rewrite Hdl]. split; [by rewrite Hn|]. intros i Hi. by rewrite Hb, Hm.
  - intros i v Hv. cbn in Hv. destruct (Forall2_lookup_r _ _ _ _ _ Hp Hv) as (u & Hu & Huv). pose proof (H5 i u Hu) as [Hs Hus].
    destruct Huv as [->|[Hf ->]]; [done|]. split; [done|]. cbn. by rewrite Hf.
Qed.

Lemma parked_lease us t tok : parked (uses_ t) us → lease_of (set_uses us t) tok = lease_of t tok.
Proof.
  intros Hp. unfold lease_of. replace (resolve tok (set_uses us t)) with (resolve tok t); [done|].
  unfold resolve, use_at. rewrite ?lookup_u32_eq. cbn. destruct (uses_ t !! N.to_nat (use_slot tok)) as [u|] eqn:Hu.
  - destruct (Forall2_lookup_l _ _ _ _ _ Hp Hu) as (v & -> & Huv). destruct Huv as [->|[Hf ->]]; [done|]. cbn. by rewrite Hf.
  - assert (us !! N.to_nat (use_slot tok) = None) as ->; [|done]. apply lookup_ge_None.
    rewrite <- (Forall2_length _ _ _ Hp). by apply lookup_ge_None.
Qed.

(** ** Acquisition *)

Definition key_of (b : ReplyBinding) : Z * Z := (rb_id b, rb_generation b).
Lemma keyed_true id gen x : keyed id gen x = true ↔ e_used x = true ∧ entry_key x = (id, gen).
Proof. unfold keyed, entry_key. rewrite !andb_true_iff, !bool_decide_eq_true. naive_solver. Qed.

(** The entry an acquisition works on: its own, or a free one. *)
Record chosen (captured : ReplyBinding) (t : Leases) (e : nat) (x : Entry) : Prop := {
  ch_old : ∃ old, entries_ t !! e = Some old ∧ (old = x ∨ e_used old = false);
  ch_counted : counted (uses_ t) e x;
  ch_binding : e_binding x = captured;
  ch_used : e_used x = true;
  ch_fresh : e_retired x = false;
  ch_key : ∀ e' x', entries_ t !! e' = Some x' → e_used x' = true → entry_key x' = key_of captured → e' = e }.

Lemma choose_entry_spec captured t e x : leases_ok t → choose_entry captured t = Ok (e, x) → chosen captured t e x.
Proof.
  intros Ht. unfold choose_entry, find_entry.
  destruct (list_find _ (entries_ t)) as [[e1 x1]|] eqn:Hf.
  - apply list_find_Some in Hf as (Hx & Hk & _). apply keyed_true in Hk as [Hu Hk].
    intros [Hret H]%guard_err_bind. apply guard_err_bind in H as [Hb [= -> ->]].
    apply negb_false_iff, bool_decide_eq_true in Hb. split; try done.
    + exists x. auto.
    + by apply (lo_entry _ Ht).
    + intros e' x' Hx' Hu' Hk'. apply (lo_keys _ Ht e' x' e x); try done. by rewrite Hk', Hk.
  - apply list_find_None in Hf. unfold first_unused. destruct (list_find _ (entries_ t)) as [[e1 x1]|] eqn:Hn; [|done].
    apply list_find_Some in Hn as (Hx & Hu & _). intros [= <- <-]. split; try done; cbn.
    + exists x1. auto.
    + destruct (lo_entry _ Ht _ _ Hx) as [[Hc Hm] Hus _]. rewrite Hu in Hus. symmetry in Hus. apply bool_decide_eq_false in Hus.
      pose proof (nholds_bounds e1 (uses_ t)). assert (Hz : nholds e1 (uses_ t) = 0) by lia. split; cbn; [by rewrite Hz|].
      intros i Hi. rewrite Z.bits_0. symmetry. unfold bit_of. destruct (uses_ t !! Z.to_nat i) as [u|] eqn:Hui; [|done].
      destruct (holds e1 u) eqn:Hh; [|done]. assert (0 < nholds e1 (uses_ t)); [|lia]. apply nholds_pos. eauto.
    + intros e' x' Hx' Hu' Hk'. exfalso. rewrite Forall_forall in Hf. apply (Hf x').
      * by eapply list_elem_of_lookup_2.
      * by apply keyed_true.
Qed.

Lemma slot_bit_u16 i : (i < kReplyLeaseUsesMax)%nat → u16 (slot_bit i) = 2 ^ Z.of_nat i.
Proof.
  intros Hi. unfold slot_bit. rewrite Z.shiftl_1_l. apply wrap_id. unfold kReplyLeaseUsesMax in Hi. split; [apply Z.pow_nonneg; lia|].
  apply Z.pow_lt_mono_r; lia.
Qed.

Section Commit.
Context (captured : ReplyBinding) (t : Leases) (e : nat) (x : Entry) (i : nat) (u : Use) (serial grant now : Z).
Hypothesis Ht : leases_ok t.
Hypothesis Hch : chosen captured t e x.
Hypothesis Hu : uses_ t !! i = Some u.
Hypothesis Hfree : u_used u = false.
Hypothesis Hlive : u_retired u = false.
Hypothesis Hserial : serial = u_serial u + 1.
Hypothesis Hmax : u_serial u ≠ UINT32_MAX.

Let v : Use := mkUse e true (u_retired u) serial grant.
Let t' : Leases := commit_use e x i serial grant now t.

Lemma commit_len : (i < length (uses_ t))%nat ∧ (e < length (entries_ t))%nat.
Proof. split; [by eapply lookup_lt_Some|]. destruct (ch_old _ _ _ _ Hch) as (old & Ho & _). by eapply lookup_lt_Some. Qed.

Lemma commit_uses : uses_ t' = <[i := v]> (uses_ t).
Proof. unfold t', commit_use. by rewrite Hu. Qed.
Lemma commit_entry : entries_ t' !! e =
  Some (mkEntry captured (refcount x + 1) (Z.lor (holder_mask x) (2 ^ Z.of_nat i)) (deadline_of e (<[i := v]> (uses_ t))) true false).
Proof.
  unfold t', commit_use. rewrite Hu. cbn [entries_]. rewrite list_lookup_insert_eq by apply commit_len. fold v.
  destruct Hch as [_ [Hc _] Hb Hus Hr _]. rewrite Hb, Hus, Hr, slot_bit_u16.
  - rewrite wrap_id; [done|]. pose proof (nholds_bounds e (uses_ t)) as Hn. rewrite (lo_uses _ Ht) in Hn. unfold kReplyLeaseUsesMax in Hn.
    rewrite Hc. split; lia.
  - rewrite <- (lo_uses _ Ht). apply commit_len.
Qed.
Lemma commit_other e' : e' ≠ e → entries_ t' !! e' = entries_ t !! e'.
Proof. intros Hne. unfold t', commit_use. cbn [entries_]. by rewrite list_lookup_insert_ne. Qed.

Lemma old_free k : holds k u = false.
Proof. unfold holds. by rewrite Hfree. Qed.
Lemma new_holds k : holds k v = bool_decide (k = e).
Proof. unfold holds, v. cbn. case_bool_decide as H; [subst; apply Nat.eqb_refl|]. apply Nat.eqb_neq. congruence. Qed.

Lemma commit_counted k y : counted (uses_ t) k y →
  nholds k (uses_ t') = refcount y + b2z (bool_decide (k = e)) ∧
  ∀ j, 0 ≤ j → bit_of (uses_ t') k j = if decide (j = Z.of_nat i) then bool_decide (k = e) else Z.testbit (holder_mask y) j.
Proof.
  intros [Hc Hm]. rewrite commit_uses. split.
  - rewrite (nholds_insert k _ i u v Hu), old_free, new_holds. cbn [b2z]. lia.
  - intros j Hj. rewrite bit_of_insert by (done || apply commit_len). by rewrite new_holds, Hm.
Qed.

Lemma commit_ok : leases_ok t'.
Proof.
  destruct commit_len as [Hil Hel]. split.
  - unfold t', commit_use. cbn. rewrite length_insert. apply Ht.
  - rewrite commit_uses, length_insert. apply Ht.
  - apply (lo_idle _ Ht).
  - intros k y Hy. destruct (decide (k = e)) as [->|Hne].
    + rewrite commit_entry in Hy. injection Hy as <-. destruct (commit_counted e x (ch_counted _ _ _ _ Hch)) as [Hn Hb].
      rewrite bool_decide_eq_true_2 in Hn by done. split; cbn [refcount holder_mask e_used deadline_max].
      * split; cbn [refcount holder_mask]; [by rewrite Hn|]. intros j Hj. rewrite Hb, Z.lor_spec, Z.pow2_bits_eqb by lia.
        rewrite (bool_decide_eq_true_2 (e = e)) by done. destruct (decide (j = Z.of_nat i)) as [->|Hji]; [by rewrite Z.eqb_refl, orb_true_r|].
        replace (Z.of_nat i =? j) with false by (symmetry; apply Z.eqb_neq; congruence). by rewrite orb_false_r.
      * symmetry. apply bool_decide_eq_true. destruct (ch_counted _ _ _ _ Hch) as [-> _]. pose proof (nholds_bounds e (uses_ t)). lia.
      * by rewrite commit_uses.
    + rewrite commit_other in Hy by done. destruct (lo_entry _ Ht k y Hy) as [Hc Hus Hd].
      destruct (commit_counted k y Hc) as [Hn Hb]. rewrite bool_decide_eq_false_2 in Hn by done. cbn [b2z] in Hn. split; [|done|].
      * split; [lia|]. intros j Hj. rewrite Hb by done. destruct (decide (j = Z.of_nat i)) as [->|]; [|done].
        rewrite bool_decide_eq_false_2 by done. destruct Hc as [_ ->]; [|lia]. unfold bit_of. rewrite Nat2Z.id, Hu. apply old_free.
      * intros Hyu. rewrite (Hd Hyu), commit_uses. symmetry. apply (deadline_of_insert k _ i u v Hu (old_free k)).
        rewrite new_holds. by apply bool_decide_eq_false_2.
  - intros j w. rewrite commit_uses. destruct (decide (j = i)) as [->|Hne].
    + rewrite list_lookup_insert_eq by done. intros [= <-]. pose proof (uo_serial _ (lo_use _ Ht i u Hu)). split; cbn; [lia|].
      intros _. rewrite <- (lo_entries _ Ht). split_and!; [done|lia|done].
    + rewrite list_lookup_insert_ne by done. apply (lo_use _ Ht).
  - assert (Hown : ∀ k y, entries_ t' !! k = Some y → e_used y = true → entry_key y = key_of captured → k = e).
    { intros k y Hy Hyu Hyk. destruct (decide (k = e)) as [|Hne]; [done|]. rewrite commit_other in Hy by done. by apply (ch_key _ _ _ _ Hch k y). }
    intros k y k' y' Hy Hy' Hyu Hyu' Hkk. destruct (decide (k = e)) as [->|Hne].
    + rewrite commit_entry in Hy. injection Hy as <-. symmetry. apply (Hown k' y'); [done|done|]. by rewrite <- Hkk.
    + destruct (decide (k' = e)) as [->|Hne'].
      * rewrite commit_entry in Hy'. injection Hy' as <-. by apply (Hown k y).
      * rewrite commit_other in Hy, Hy' by done. by apply (lo_keys _ Ht k y k' y').
Qed.

Lemma commit_lease tok :
  lease_of t' tok = if decide (tok = mkToken (N.of_nat i) serial) then Some (mkLease captured grant false) else lease_of t tok.
Proof.
  destruct commit_len as [Hil Hel]. destruct (decide (N.to_nat (use_slot tok) = i)) as [Hs|Hs].
  - assert (Ho : lease_of t tok = None). { apply lease_dead. unfold resolve, use_at. rewrite ?lookup_u32_eq. by rewrite Hs, Hu, Hfree. }
    destruct (decide (tk_serial tok = serial)) as [Hser|Hser].
    + rewrite decide_True by (destruct tok; cbn in *; f_equal; [by rewrite <- Hs, N2Nat.id|done]).
      apply lease_of_Some. exists v, (mkEntry captured (refcount x + 1) (Z.lor (holder_mask x) (2 ^ Z.of_nat i)) (deadline_of e (<[i := v]> (uses_ t))) true false).
      rewrite Hs, commit_uses, list_lookup_insert_eq by done. split_and!; try done. apply commit_entry.
    + rewrite decide_False by (intros ->; done). rewrite Ho. apply lease_dead. unfold resolve, use_at. rewrite ?lookup_u32_eq.
      rewrite Hs, commit_uses, list_lookup_insert_eq by done. cbn. rewrite bool_decide_eq_false_2; [done|congruence].
  - rewrite decide_False by (intros ->; apply Hs; cbn; lia).
    assert (Hr : resolve tok t' = resolve tok t).
    { unfold resolve, use_at. rewrite ?lookup_u32_eq. rewrite commit_uses, list_lookup_insert_ne by congruence. done. }
    unfold lease_of. rewrite Hr. destruct (resolve tok t) as [w|] eqn:Hw; [|done]. cbn [mbind option_bind].
    destruct (decide (u_entry w = e)) as [He|He]; [|by rewrite commit_other].
    pose proof Hw as (Hwu & Hwus & _)%resolve_Some. destruct (held_entry t _ w Ht Hwu Hwus) as (old & Hold & Hou).
    destruct (ch_old _ _ _ _ Hch) as (old' & Ho' & [->|Hno]); rewrite He in *; [|congruence].
    rewrite commit_entry, Ho'. cbn [mbind option_bind e_binding e_retired]. by destruct Hch as [_ _ -> _ -> _].
Qed.
End Commit.

(** ** Release *)

Lemma clear_bit m i j : 0 ≤ j < 16 → Z.testbit (Z.land m (u16 (Z.lnot (2 ^ Z.of_nat i)))) j = Z.testbit m j && negb (bool_decide (j = Z.of_nat i)).
Proof.
  intros Hj. rewrite Z.land_spec. f_equal. unfold wrap. rewrite Z.mod_pow2_bits_low, Z.lnot_spec, Z.pow2_bits_eqb by lia.
  f_equal. case_bool_decide as H; [subst; apply Z.eqb_refl|]. apply Z.eqb_neq. congruence.
Qed.

Section Release.
Context (t : Leases) (tok : ReplyLeaseToken) (u : Use) (x : Entry).
Hypothesis Ht : leases_ok t.
Hypothesis Hr : resolve tok t = Some u.
Hypothesis Hx : entries_ t !! u_entry u = Some x.

Let i : nat := N.to_nat (use_slot tok).
Let e : nat := u_entry u.
Let us : list Use := <[i := free_of_use u]> (uses_ t).

Lemma rel_use : uses_ t !! i = Some u ∧ u_used u = true ∧ u_serial u = tk_serial tok.
Proof. by apply resolve_Some. Qed.
Lemma rel_holds k : holds k u = bool_decide (k = e).
Proof. destruct rel_use as (_ & Hu & _). unfold holds. rewrite Hu. cbn [andb]. case_bool_decide as H; [subst; apply Nat.eqb_refl|]. apply Nat.eqb_neq. unfold e in H. congruence. Qed.
Lemma rel_free k : holds k (free_of_use u) = false.
Proof. done. Qed.
Lemma rel_lt : (i < kReplyLeaseUsesMax)%nat.
Proof. rewrite <- (lo_uses _ Ht). destruct rel_use as (Hu & _). by eapply lookup_lt_Some. Qed.

Lemma rel_counted k y : counted (uses_ t) k y →
  nholds k us = refcount y - b2z (bool_decide (k = e)) ∧
  ∀ j, 0 ≤ j → bit_of us k j = if decide (j = Z.of_nat i) then false else Z.testbit (holder_mask y) j.
Proof.
  intros [Hc Hm]. destruct rel_use as (Hu & _). unfold us. split.
  - rewrite (nholds_insert k _ i u (free_of_use u) Hu), rel_holds, rel_free. cbn [b2z]. lia.
  - intros j Hj. rewrite bit_of_insert by (done || by eapply lookup_lt_Some). by rewrite rel_free, Hm.
Qed.

(** The link of a live use is intact: the internal errors do not occur. *)
Lemma rel_linked : e_used x = true ∧ 0 < refcount x ≤ 8 ∧ Z.testbit (holder_mask x) (Z.of_nat i) = true.
Proof.
  destruct rel_use as (Hu & Hus & _). destruct (held_entry t i u Ht Hu Hus) as (x' & Hx' & He). rewrite Hx in Hx'. injection Hx' as <-.
  destruct (lo_entry _ Ht _ x Hx) as [[Hc Hm] Heu _]. split; [done|]. split.
  - rewrite He in Heu. symmetry in Heu. apply bool_decide_eq_true in Heu. pose proof (nholds_bounds (u_entry u) (uses_ t)) as Hb.
    rewrite (lo_uses _ Ht) in Hb. unfold kReplyLeaseUsesMax in Hb. lia.
  - rewrite Hm by lia. unfold bit_of. rewrite Nat2Z.id, Hu, rel_holds. by apply bool_decide_eq_true.
Qed.

Let mask : Z := Z.land (holder_mask x) (u16 (Z.lnot (2 ^ Z.of_nat i))).
Let x2 : Entry :=
  if bool_decide (refcount x - 1 = 0) then mkEntry no_binding 0 mask 0 false false
  else mkEntry (e_binding x) (refcount x - 1) mask (deadline_of e us) true (e_retired x).

Lemma release_result : release tok t = (Ok tt, set_entries (<[e := x2]> (entries_ t)) (set_uses us t)).
Proof.
  destruct rel_use as (Hu & Hus & Hs). destruct rel_linked as (He & Hc & Hb). unfold release, use_at. rewrite ?lookup_u32_eq. fold i.
  rewrite (lo_idle _ Ht), Hu, Hus, Hs, (bool_decide_eq_true_2 (tk_serial tok = tk_serial tok)), Hx, He by done. cbn [negb orb].
  rewrite (bool_decide_eq_false_2 (refcount x = 0)) by lia. cbv zeta. fold i. rewrite slot_bit_u16 by apply rel_lt.
  rewrite bool_decide_eq_false_2.
  - cbn [orb]. cbn [refcount]. rewrite (wrap_id 16 (refcount x - 1)) by (split; lia). fold us e mask. unfold x2. f_equal. f_equal.
    case_bool_decide as Hz; [|done]. unfold recycle. cbn. by rewrite Hz.
  - rewrite <- Z.shiftl_1_l, mask_testbit by lia. by rewrite Hb.
Qed.

Lemma rel_mask j : 0 ≤ j → Z.testbit mask j = bit_of us e j.
Proof.
  intros Hj. destruct (lo_entry _ Ht _ x Hx) as [Hcnt _ _]. destruct (rel_counted e x Hcnt) as [_ ->]; [|done].
  destruct (Z.lt_ge_cases j 16).
  - unfold mask. rewrite clear_bit by lia. destruct (decide (j = Z.of_nat i)) as [->|Hne].
    + by rewrite (bool_decide_eq_true_2 (Z.of_nat i = Z.of_nat i)), andb_false_r.
    + by rewrite bool_decide_eq_false_2, andb_true_r.
  - assert (Hz : Z.testbit (holder_mask x) j = false).
    { destruct Hcnt as [_ Hm]. rewrite Hm by lia. unfold bit_of. rewrite (lookup_ge_None_2 (uses_ t)); [done|].
      rewrite (lo_uses _ Ht). unfold kReplyLeaseUsesMax. lia. }
    unfold mask. rewrite Z.land_spec, Hz. by case_match.
Qed.

Lemma release_ok : leases_ok (snd (release tok t)).
Proof.
  rewrite release_result. cbn [snd]. destruct rel_use as (Hu & Hus & _). destruct rel_linked as (He & Hc & _).
  assert (Hel : (e < length (entries_ t))%nat) by (by eapply lookup_lt_Some). split.
  - cbn. rewrite length_insert. apply Ht.
  - cbn [uses_ set_entries set_uses]. unfold us. rewrite length_insert. apply Ht.
  - apply (lo_idle _ Ht).
  - intros k y. cbn [entries_ set_entries uses_ set_uses]. destruct (decide (k = e)) as [->|Hne].
    + rewrite list_lookup_insert_eq by done. intros [= <-]. destruct (lo_entry _ Ht _ x Hx) as [Hcnt _ _].
      destruct (rel_counted e x Hcnt) as [Hn _]. rewrite (bool_decide_eq_true_2 (e = e)) in Hn by done. cbn [b2z] in Hn.
      unfold x2. case_bool_decide as Hz.
      * split; [|done|done]. split; [cbn [refcount]; lia|exact rel_mask].
      * split; [split; [cbn [refcount]; lia|exact rel_mask]| |done]. cbn. symmetry. apply bool_decide_eq_true. lia.
    + rewrite list_lookup_insert_ne by done. intros Hy. destruct (lo_entry _ Ht k y Hy) as [Hcnt Hyu Hd].
      destruct (rel_counted k y Hcnt) as [Hn Hb]. rewrite (bool_decide_eq_false_2 (k = e)) in Hn by done. cbn [b2z] in Hn.
      split; [|done|].
      * split; [lia|]. intros j Hj. rewrite Hb by done. destruct (decide (j = Z.of_nat i)) as [->|]; [|done].
        destruct Hcnt as [_ ->]; [|lia]. unfold bit_of. rewrite Nat2Z.id, Hu, rel_holds. by apply bool_decide_eq_false_2.
      * intros Hyt. rewrite (Hd Hyt). unfold us. symmetry. apply (deadline_of_insert k _ i u _ Hu); [|done].
        rewrite rel_holds. by apply bool_decide_eq_false_2.
  - intros j w. cbn [uses_ set_entries set_uses]. unfold us. destruct (decide (j = i)) as [->|Hne].
    + rewrite list_lookup_insert_eq by (by eapply lookup_lt_Some). intros [= <-]. split; [|done]. apply (lo_use _ Ht i u Hu).
    + rewrite list_lookup_insert_ne by done. apply (lo_use _ Ht).
  - assert (Hold : ∀ k y, <[e := x2]> (entries_ t) !! k = Some y → e_used y = true →
      ∃ y0, entries_ t !! k = Some y0 ∧ e_used y0 = true ∧ entry_key y0 = entry_key y).
    { intros k y. destruct (decide (k = e)) as [->|Hne]; [|rewrite list_lookup_insert_ne by done; eauto].
      rewrite list_lookup_insert_eq by done. intros [= <-]. unfold x2. case_bool_decide; [done|]. intros _. by exists x. }
    intros k y k' y' Hy Hy' Hyu Hyu' Hkk. cbn in Hy, Hy'. destruct (Hold k y Hy Hyu) as (y0 & H1 & H2 & H3).
    destruct (Hold k' y' Hy' Hyu') as (y0' & H1' & H2' & H3'). apply (lo_keys _ Ht k y0 k' y0'); congruence.
Qed.

Lemma release_lease tok' : lease_of (snd (release tok t)) tok' = if decide (tok' = tok) then None else lease_of t tok'.
Proof.
  destruct rel_use as (Hu & Hus & Hs). rewrite release_result. cbn [snd]. set (t' := set_entries _ _).
  assert (Hil : (i < length (uses_ t))%nat) by (by eapply lookup_lt_Some).
  assert (Hel : (e < length (entries_ t))%nat) by (by eapply lookup_lt_Some).
  destruct (decide (N.to_nat (use_slot tok') = i)) as [Hsl|Hsl].
  - assert (Hn : lease_of t' tok' = None).
    { apply lease_dead. unfold resolve, use_at. rewrite ?lookup_u32_eq. rewrite Hsl. cbn. unfold us. by rewrite list_lookup_insert_eq. }
    rewrite Hn. case_decide as Heq; [done|]. symmetry. apply lease_dead. unfold resolve, use_at. rewrite ?lookup_u32_eq. rewrite Hsl, Hu, Hus.
    rewrite bool_decide_eq_false_2; [done|]. intros Hser. apply Heq. destruct tok, tok'; cbn in *. f_equal; [lia|congruence].
  - rewrite decide_False by (intros ->; done).
    assert (Hres : resolve tok' t' = resolve tok' t).
    { unfold resolve, use_at. rewrite ?lookup_u32_eq. cbn. unfold us. by rewrite list_lookup_insert_ne. }
    unfold lease_of. rewrite Hres. destruct (resolve tok' t) as [w|] eqn:Hw; [|done]. cbn [mbind option_bind].
    change (entries_ t') with (<[e := x2]> (entries_ t)). destruct (decide (u_entry w = e)) as [He|He]; [|by rewrite list_lookup_insert_ne].
    rewrite He, list_lookup_insert_eq by done. fold e in Hx. rewrite Hx. cbn [mbind option_bind].
    pose proof Hw as (Hwu & Hwus & _)%resolve_Some. unfold x2. rewrite bool_decide_eq_false_2; [done|]. intros Hz.
    destruct (lo_entry _ Ht _ x Hx) as [Hcnt _ _]. destruct (rel_counted e x Hcnt) as [Hnh _].
    rewrite (bool_decide_eq_true_2 (e = e)) in Hnh by done. cbn [b2z] in Hnh.
    assert (0 < nholds e us); [|lia]. apply nholds_pos. exists (N.to_nat (use_slot tok')), w. unfold us. rewrite list_lookup_insert_ne by done.
    split; [done|]. unfold holds. by rewrite Hwus, He, Nat.eqb_refl.
Qed.
End Release.
