(* ===== verification/ReplyLeasesRun.v ===== *)
(** * What the reply leases promise

    The contract of the lease table as a map from tokens to leases, and the
    proof that every sequence of calls keeps it; the code's structural audit
    never fails. *)

From S2P Require Import Prelude Types ReplyLeases ReplyLeasesProps.

(** ** The contract *)

Record Spec := mkSpec { sp_live : ReplyLeaseToken → option Lease; sp_issued : list ReplyLeaseToken; sp_clock : Z }.
Definition spec_initial : Spec := mkSpec (λ _, None) [] 0.

Inductive call :=
  | CAcquire (captured : ReplyBinding) (deadline now : Z)
  | CRelease (tok : ReplyLeaseToken)
  | CValidate (tok : ReplyLeaseToken) (now : Z)
  | CInvalidate (id : Z)
  | CInvalidateAll.
Inductive reply := RToken (r : result ReplyLeaseToken) | RUnit (r : result unit).

(** Why an acquisition may be refused. *)
Inductive refusal (s : Spec) (b : ReplyBinding) (deadline now : Z) : StatusCode → Prop :=
  | rf_time : now < sp_clock s → refusal s b deadline now TimeUncertain
  | rf_argument : bad_identity b = true ∨ deadline ≤ now → refusal s b deadline now InvalidArgument
  | rf_ttl : UINT64_MAX - kReplyLeaseTtlMs < now → refusal s b deadline now CounterExhausted
  | rf_conflict tok l : sp_live s tok = Some l → key_of (l_binding l) = key_of b → l_revoked l = true ∨ l_binding l ≠ b →
      refusal s b deadline now Conflict
  | rf_bindings keys : NoDup keys → length keys = kExpectedReplyBindingsMax → key_of b ∉ keys →
      (∀ k, k ∈ keys → ∃ tok l, sp_live s tok = Some l ∧ key_of (l_binding l) = k) → refusal s b deadline now NoCapacity
  | rf_uses toks : NoDup toks → length toks = kReplyLeaseUsesMax → (∀ tok, tok ∈ toks → is_Some (sp_live s tok)) →
      refusal s b deadline now NoCapacity
  | rf_serials slot : (∀ k, 1 ≤ k ≤ UINT32_MAX → mkToken slot k ∈ sp_issued s) → refusal s b deadline now CounterExhausted.

Definition update (f : ReplyLeaseToken → option Lease) (tok : ReplyLeaseToken) (l : option Lease) : ReplyLeaseToken → option Lease :=
  λ tok', if decide (tok' = tok) then l else f tok'.
Definition revoke_if (p : ReplyBinding → bool) (l : Lease) : Lease :=
  mkLease (l_binding l) (l_deadline l) (l_revoked l || p (l_binding l)).

Definition validity (l : option Lease) (now : Z) : option StatusCode :=
  match l with
  | None => Some NotFound
  | Some l => if l_revoked l then Some Conflict else if bool_decide (l_deadline l ≤ now) then Some Expired else None
  end.
Definition code_of {A} (r : result A) : option StatusCode := match r with Ok _ => None | Err c _ => Some c end.

Inductive promise (s : Spec) : call → reply → Spec → Prop :=
  | pr_grant b deadline now tok :
      sp_clock s ≤ now < deadline → bad_identity b = false → tok ∉ sp_issued s →
      (∀ tok' l, sp_live s tok' = Some l → key_of (l_binding l) = key_of b → l_binding l = b ∧ l_revoked l = false) →
      promise s (CAcquire b deadline now) (RToken (Ok tok))
        (mkSpec (update (sp_live s) tok (Some (mkLease b (Z.min deadline (now + kReplyLeaseTtlMs)) false))) (tok :: sp_issued s) now)
  | pr_refuse b deadline now c d : refusal s b deadline now c → promise s (CAcquire b deadline now) (RToken (Err c d)) s
  | pr_release tok l : sp_live s tok = Some l →
      promise s (CRelease tok) (RUnit (Ok tt)) (mkSpec (update (sp_live s) tok None) (sp_issued s) (sp_clock s))
  | pr_stale tok d : sp_live s tok = None → promise s (CRelease tok) (RUnit (Err NotFound d)) s
  | pr_validate tok now r : sp_clock s ≤ now → code_of r = validity (sp_live s tok) now →
      promise s (CValidate tok now) (RUnit r) (mkSpec (sp_live s) (sp_issued s) now)
  | pr_validate_time tok now d : now < sp_clock s → promise s (CValidate tok now) (RUnit (Err TimeUncertain d)) s
  | pr_invalidate id :
      promise s (CInvalidate id) (RUnit (Ok tt))
        (mkSpec (λ tok, revoke_if (λ b, bool_decide (rb_id b = id)) <$> sp_live s tok) (sp_issued s) (sp_clock s))
  | pr_invalidate_all :
      promise s CInvalidateAll (RUnit (Ok tt)) (mkSpec (λ tok, revoke_if (λ _, true) <$> sp_live s tok) (sp_issued s) (sp_clock s)).

Inductive promises : Spec → list call → list reply → Spec → Prop :=
  | ps_nil s : promises s [] [] s
  | ps_cons s c r s1 cs rs s2 : promise s c r s1 → promises s1 cs rs s2 → promises s (c :: cs) (r :: rs) s2.

(** ** Calls on the table *)

Definition do_call (c : call) (t : Leases) : reply * Leases :=
  match c with
  | CAcquire b deadline now => let '(r, t') := acquire b deadline now t in (RToken r, t')
  | CRelease tok => let '(r, t') := release tok t in (RUnit r, t')
  | CValidate tok now => let '(r, t') := validate tok now t in (RUnit r, t')
  | CInvalidate id => let '(r, t') := invalidate_binding id t in (RUnit r, t')
  | CInvalidateAll => let '(r, t') := invalidate_all t in (RUnit r, t')
  end.
Fixpoint drive (cs : list call) (t : Leases) : list reply * Leases :=
  match cs with
  | [] => ([], t)
  | c :: cs => let '(r, t1) := do_call c t in let '(rs, t2) := drive cs t1 in (r :: rs, t2)
  end.

(** ** Audit *)

Lemma audit_mask_spec e mask us : ∀ i pop max,
  (i + length us ≤ kReplyLeaseUsesMax)%nat → 0 ≤ pop ≤ Z.of_nat i →
  (∀ j u, us !! j = Some u → Z.testbit mask (Z.of_nat (i + j)) = holds e u ∧ (holds e u = true → u_serial u ≠ 0)) →
  audit_mask e i mask us pop max =
    Some (pop + nholds e us, fold_left (λ m u, if holds e u && bool_decide (m < u_deadline u) then u_deadline u else m) us max).
Proof.
  induction us as [|u us IH]; intros i pop max Hl Hp Hb; cbn [audit_mask].
  { unfold nholds. cbn. by rewrite Z.add_0_r. }
  cbn [length] in Hl. unfold kReplyLeaseUsesMax in *. destruct (Hb 0%nat u eq_refl) as [Hbit Hser]. rewrite Nat.add_0_r in Hbit.
  assert (Hrest : ∀ j w, us !! j = Some w → Z.testbit mask (Z.of_nat (S i + j)) = holds e w ∧ (holds e w = true → u_serial w ≠ 0)).
  { intros j w Hj. replace (S i + j)%nat with (i + S j)%nat by lia. by apply Hb. }
  rewrite slot_bit_u16 by (unfold kReplyLeaseUsesMax; lia). rewrite <- Z.shiftl_1_l, nholds_cons. cbn [fold_left].
  destruct (holds e u) eqn:Hh.
  - rewrite bool_decide_eq_false_2 by (rewrite mask_testbit by lia; by rewrite Hbit).
    pose proof Hh as Hh'. unfold holds in Hh'. apply andb_true_iff in Hh' as [Hu He]. rewrite Hu, He.
    rewrite (bool_decide_eq_false_2 (u_serial u = 0)) by auto. cbn [negb orb andb b2z].
    rewrite wrap_id by (split; lia). rewrite IH by (done || lia). f_equal. f_equal. lia.
  - rewrite bool_decide_eq_true_2 by (by apply mask_testbit; [lia|]). cbn [andb b2z]. rewrite IH by (done || lia). done.
Qed.

Lemma forallb_imap {A} (f : nat → A → bool) l : (∀ i x, l !! i = Some x → f i x = true) → forallb id (imap f l) = true.
Proof.
  intros H. apply forallb_forall. intros b Hb%list_elem_of_In. apply elem_of_lookup_imap in Hb as (i & x & -> & Hi). by apply H.
Qed.

Lemma ok_audit t : leases_ok t → check_invariants t = true.
Proof.
  intros Ht. unfold check_invariants. rewrite !forallb_imap; [done| |].
  - intros i u Hi. unfold audit_use. destruct (lo_use _ Ht i u Hi) as [Hs Hu]. destruct (u_used u) eqn:Hus; [|by rewrite andb_false_r].
    destruct (Hu eq_refl) as (He & Hser & Hret). rewrite Hret. cbn [andb negb]. rewrite bool_decide_eq_false_2 by lia.
    destruct (held_entry t i u Ht Hi Hus) as (x & Hx & Hxu). rewrite Hx, Hxu. cbn [andb].
    destruct (lo_entry _ Ht _ x Hx) as [[_ Hm] _ _]. rewrite slot_bit_u16 by (rewrite <- (lo_uses _ Ht); by eapply lookup_lt_Some).
    rewrite bool_decide_eq_false_2; [done|]. rewrite <- Z.shiftl_1_l, mask_testbit by lia. rewrite Hm by lia. unfold bit_of.
    rewrite Nat2Z.id, Hi. unfold holds. by rewrite Hus, Nat.eqb_refl.
  - intros e x Hx. unfold audit_entry. destruct (lo_entry _ Ht e x Hx) as [[Hc Hm] Hu Hd]. destruct (e_used x) eqn:Hxu; cbn [negb].
    + rewrite audit_mask_spec.
      * fold (deadline_of e (uses_ t)). rewrite Z.add_0_l, <- Hc, <- (Hd eq_refl). symmetry in Hu. apply bool_decide_eq_true in Hu.
        rewrite (bool_decide_eq_false_2 (refcount x = 0)) by lia. by rewrite !bool_decide_eq_true_2.
      * rewrite (lo_uses _ Ht). cbn. lia.
      * cbn. lia.
      * intros j u Hj. cbn [Nat.add]. rewrite Hm by lia. unfold bit_of. rewrite Nat2Z.id, Hj. split; [done|].
        intros Hh. unfold holds in Hh. apply andb_true_iff in Hh as [Hus _]. destruct (uo_used _ (lo_use _ Ht j u Hj) Hus) as (_ & ? & _). lia.
    + symmetry in Hu. apply bool_decide_eq_false in Hu. pose proof (nholds_bounds e (uses_ t)). assert (Hz : refcount x = 0) by lia.
      rewrite Hz. rewrite bool_decide_eq_true_2 by done. cbn [andb]. apply bool_decide_eq_true. apply Z.bits_inj'. intros i Hi.
      rewrite Hm, Z.bits_0 by done. unfold bit_of. destruct (uses_ t !! Z.to_nat i) as [u|] eqn:Hui; [|done].
      destruct (holds e u) eqn:Hh; [|done]. assert (0 < nholds e (uses_ t)); [|lia]. apply nholds_pos. eauto.
Qed.

(** ** Simulation *)

Definition history (t : Leases) (issued : list ReplyLeaseToken) : Prop :=
  ∀ i u, uses_ t !! i = Some u →
    (u_retired u = true → u_serial u = UINT32_MAX) ∧ ∀ k, mkToken (N.of_nat i) k ∈ issued ↔ 1 ≤ k ≤ u_serial u.
Record refines (t : Leases) (s : Spec) : Prop := {
  rf_ok : leases_ok t;
  rf_live : ∀ tok, lease_of t tok = sp_live s tok;
  rf_clock : last_now_ t = sp_clock s;
  rf_history : history t (sp_issued s) }.

Lemma initial_refines : refines initial spec_initial.
Proof.
  split; [apply initial_ok| |done|].
  - intros tok. apply lease_dead. unfold resolve, use_at. rewrite ?lookup_u32_eq. destruct (uses_ initial !! _) as [u|] eqn:Hu; [|done].
    cbn [uses_ initial] in Hu. by apply lookup_replicate in Hu as [-> _].
  - intros i u [-> _]%lookup_replicate. split; [done|]. intros k. cbn. split; [by intros ?%not_elem_of_nil|lia].
Qed.

(** Parking happens at the last serial. *)
Lemma pick_parks us : ∀ i f r us' f' j v,
  pick_use i us f = (r, us', f') → us' !! j = Some v →
  ∃ u, us !! j = Some u ∧ u_serial v = u_serial u ∧ (u_retired v = true → u_retired u = true ∨ u_serial u = UINT32_MAX).
Proof.
  induction us as [|u us IH]; intros i f r us' f' j v; cbn [pick_use]; [intros [= <- <- <-]; by destruct j|].
  destruct (u_used u); [|destruct (u_retired u) eqn:Hr; [|unfold next_use_serial; case_bool_decide as Hser]].
  1-3: (destruct (pick_use (S i) us _) as [[r0 us0] f0] eqn:Hp; intros [= <- <- <-]; destruct j as [|j]; cbn;
        [intros [= <-]; exists u; by auto|intros Hj; by eapply IH]).
  intros [= <- <- <-] Hj. exists v. split; [done|]. auto.
Qed.

Lemma parked_history t issued i f r us' f' :
  pick_use i (uses_ t) f = (r, us', f') → history t issued → history (set_uses us' t) issued.
Proof.
  intros Hp Hh j v Hv. cbn in Hv. destruct (pick_parks _ _ _ _ _ _ _ _ Hp Hv) as (u & Hu & Hs & Hr).
  destruct (Hh j u Hu) as [H1 H2]. rewrite Hs. split; [|done]. intros [H|H]%Hr; auto.
Qed.

Lemma parked_refines t s i f r us' f' : pick_use i (uses_ t) f = (r, us', f') → refines t s → refines (set_uses us' t) s.
Proof.
  intros Hp [Ho Hl Hc Hh]. destruct (pick_use_spec _ _ _ _ _ _ Hp) as [Hpk _].
  split; [by apply parked_ok| |done|by eapply parked_history]. intros tok. by rewrite parked_lease.
Qed.

(** An entry in use is held by some token. *)
Lemma entry_token t e x : leases_ok t → entries_ t !! e = Some x → e_used x = true →
  ∃ tok l, lease_of t tok = Some l ∧ l_binding l = e_binding x ∧ l_revoked l = e_retired x.
Proof.
  intros Ht Hx Hu. destruct (lo_entry _ Ht e x Hx) as [[Hc _] Hus _]. rewrite Hu in Hus. symmetry in Hus. apply bool_decide_eq_true in Hus.
  rewrite Hc in Hus. apply nholds_pos in Hus as (i & u & Hi & Hh). unfold holds in Hh. apply andb_true_iff in Hh as [Huu He].
  apply Nat.eqb_eq in He. exists (mkToken (N.of_nat i) (u_serial u)), (mkLease (e_binding x) (u_deadline u) (e_retired x)).
  split; [|done]. apply lease_of_Some. exists u, x. cbn. rewrite Nat2N.id. by subst e.
Qed.
Lemma token_entry t tok l : leases_ok t → lease_of t tok = Some l →
  ∃ e x, entries_ t !! e = Some x ∧ e_used x = true ∧ l_binding l = e_binding x ∧ l_revoked l = e_retired x.
Proof.
  intros Ht (u & x & Hu & Hus & _ & Hx & ->)%lease_of_Some. destruct (held_entry t _ u Ht Hu Hus) as (x' & Hx' & He).
  rewrite Hx in Hx'. injection Hx' as <-. by exists (u_entry u), x.
Qed.

Lemma choose_refused t s b deadline now c d : refines t s → choose_entry b t = Err c d → refusal s b deadline now c.
Proof.
  intros [Ho Hl _ _]. unfold choose_entry, find_entry. destruct (list_find _ (entries_ t)) as [[e x]|] eqn:Hf.
  - apply list_find_Some in Hf as (Hx & [Hu Hk]%keyed_true & _). destruct (entry_token t e x Ho Hx Hu) as (tok & l & Hlo & Hb & Hr).
    rewrite Hl in Hlo. unfold guard_err. destruct (e_retired x) eqn:Hret.
    { intros [= <- _]. apply (rf_conflict _ _ _ _ tok l); [done|by unfold key_of; rewrite Hb|by left]. }
    destruct (negb _) eqn:Hneg; [|done]. apply negb_true_iff, bool_decide_eq_false in Hneg.
    intros [= <- _]. apply (rf_conflict _ _ _ _ tok l); [done|by unfold key_of; rewrite Hb|right; congruence].
  - apply list_find_None in Hf. destruct (first_unused (entries_ t)) as [[e x]|] eqn:Hn; [done|]. intros [= <- _].
    apply first_unused_forallb in Hn. rewrite forallb_forall in Hn.
    assert (Hall : ∀ e x, entries_ t !! e = Some x → e_used x = true).
    { intros e x Hx. apply Hn. apply list_elem_of_In. by eapply list_elem_of_lookup_2. }
    apply (rf_bindings _ _ _ _ (entry_key <$> entries_ t)).
    + apply NoDup_alt. intros i j k Hi Hj. apply list_lookup_fmap_Some in Hi as (x & -> & Hx). apply list_lookup_fmap_Some in Hj as (y & Hk & Hy).
      apply (lo_keys _ Ho i x j y); eauto.
    + rewrite length_fmap. apply Ho.
    + intros (x & Hkx & Hx)%list_elem_of_fmap. rewrite Forall_forall in Hf. apply (Hf x Hx). apply keyed_true.
      apply list_elem_of_lookup in Hx as [e Hx]. split; [by eapply Hall|done].
    + intros k (x & -> & Hx)%list_elem_of_fmap. apply list_elem_of_lookup in Hx as [e Hx].
      destruct (entry_token t e x Ho Hx (Hall e x Hx)) as (tok & l & Hlo & Hb & _). exists tok, l. rewrite <- Hl. split; [done|].
      unfold key_of, entry_key. by rewrite Hb.
Qed.

Lemma no_use_refused t s b deadline now us rs A c d :
  refines t s → pick_use 0 (uses_ t) false = (None, us, rs) → @no_use A rs = Err c d → refusal s b deadline now c.
Proof.
  intros [Ho Hl _ Hh] Hp. destruct (pick_use_spec _ _ _ _ _ _ Hp) as [_ [Hfull Hex]]. unfold no_use. destruct rs.
  - intros [= <- _]. destruct (Hex eq_refl) as [|(j & u & Hu & _ & Hret)]; [done|]. destruct (Hh j u Hu) as [H1 H2].
    assert (Hmax : u_serial u = UINT32_MAX) by (destruct Hret; auto). apply (rf_serials _ _ _ _ (N.of_nat j)). intros k Hk.
    apply H2. lia.
  - intros [= <- _]. specialize (Hfull eq_refl). rewrite Forall_lookup in Hfull.
    apply (rf_uses _ _ _ _ (imap (λ i u, mkToken (N.of_nat i) (u_serial u)) (uses_ t))).
    + apply NoDup_alt. intros i j tok Hi Hj. rewrite list_lookup_imap in Hi, Hj.
      apply fmap_Some in Hi as (u & _ & ->). apply fmap_Some in Hj as (v & _ & [= Heq _]). lia.
    + rewrite length_imap. apply Ho.
    + intros tok (i & u & -> & Hi)%elem_of_lookup_imap. rewrite <- Hl. pose proof (Hfull i u Hi) as Hu. cbn in Hu.
      destruct (held_entry t i u Ho Hi Hu) as (x & Hx & _). eexists. apply lease_of_Some. exists u, x. cbn. by rewrite Nat2N.id.
Qed.

Lemma acquire_sim b deadline now t s r t' :
  refines t s → acquire b deadline now t = (r, t') → ∃ s', promise s (CAcquire b deadline now) (RToken r) s' ∧ refines t' s'.
Proof.
  intros Hrf. pose proof Hrf as [Ho Hl Hc Hh]. unfold acquire. rewrite (lo_idle _ Ho), Hc. cbv zeta.
  case_bool_decide as Htime; [intros [= <- <-]; exists s; split; [by apply pr_refuse, rf_time|done]|].
  destruct (bad_identity b) eqn:Hbad; [intros [= <- <-]; exists s; split; [by apply pr_refuse, rf_argument; left|done]|].
  case_bool_decide as Hdl; [intros [= <- <-]; exists s; split; [by apply pr_refuse, rf_argument; right|done]|].
  case_bool_decide as Httl; [intros [= <- <-]; exists s; split; [by apply pr_refuse, rf_ttl|done]|].
  destruct (choose_entry b t) as [[e x]|c d] eqn:Hch; [|intros [= <- <-]; exists s; split; [by eapply pr_refuse, choose_refused|done]].
  destruct (pick_use 0 (uses_ t) false) as [[pick us] rs] eqn:Hp. pose proof (parked_refines _ _ _ _ _ _ _ Hp Hrf) as Hrf1.
  destruct pick as [[i serial]|].
  2: { destruct (no_use rs) as [tok|c d] eqn:Hno; [by destruct rs|]. intros [= <- <-]. exists s.
       split; [|done]. apply pr_refuse. exact (no_use_refused t s b deadline now us rs _ c d Hrf Hp Hno). }
  destruct (pick_use_spec _ _ _ _ _ _ Hp) as [Hpk (j & u & -> & _ & Hu & Hus & Hret & -> & Hmax)]. cbn [Nat.add] in *.
  apply choose_entry_spec in Hch; [|done]. pose proof Hrf1 as [Ho1 Hl1 _ Hh1].
  assert (Hch1 : chosen b (set_uses us t) e x).
  { destruct Hch as [H1 [H2 H3] H4 H5 H6 H7]. split; try done. destruct (parked_holds _ _ Hpk e) as (Hn & _ & Hb).
    split; cbn [uses_ set_uses]; [by rewrite Hn|]. intros k Hk. by rewrite Hb, H3. }
  rewrite bool_decide_eq_false_2.
  2: { destruct (ch_counted _ _ _ _ Hch) as [-> _]. pose proof (nholds_bounds e (uses_ t)) as Hn. rewrite (lo_uses _ Ho) in Hn.
       unfold kReplyLeaseUsesMax in Hn. unfold UINT16_MAX. lia. }
  intros [= <- <-]. eexists. split.
  - apply pr_grant; [lia|done| |].
    + intros Hin. apply (Hh1 j u Hu) in Hin. lia.
    + intros tok' l Hlive Hk. rewrite <- Hl in Hlive. destruct (token_entry t tok' l Ho Hlive) as (e' & x' & Hx' & Hu' & Hb' & Hr').
      assert (e' = e) as ->. { apply (ch_key _ _ _ _ Hch e' x'); [done|done|]. unfold entry_key. by rewrite <- Hb'. }
      destruct (ch_old _ _ _ _ Hch) as (old & Hold & Hox). rewrite Hx' in Hold. injection Hold as <-.
      destruct Hox as [->|?]; [|congruence]. rewrite Hb', Hr'. split; apply Hch.
  - set (grant := Z.min _ _). split.
    + by apply (commit_ok b (set_uses us t) e x j u _ grant now).
    + intros tok. rewrite (commit_lease b (set_uses us t) e x j u (u_serial u + 1) grant now Ho1 Hch1 Hu Hus) by done.
      cbn [sp_live]. unfold update. case_decide; [done|]. apply Hl1.
    + done.
    + intros k v. rewrite (commit_uses (set_uses us t) e x j u _ grant now Hu). destruct (decide (k = j)) as [->|Hne].
      * rewrite list_lookup_insert_eq by (by eapply lookup_lt_Some). intros [= <-]. cbn. split; [congruence|]. intros k.
        destruct (Hh1 j u Hu) as [_ Hiff]. rewrite elem_of_cons, Hiff. pose proof (uo_serial _ (lo_use _ Ho1 j u Hu)).
        split; [intros [[= ->]|]; lia|]. intros Hk. destruct (decide (k = u_serial u + 1)) as [->|]; [by left|right; lia].
      * rewrite list_lookup_insert_ne by done. intros Hv. destruct (Hh1 k v Hv) as [H1' H2']. split; [done|]. intros m.
        cbn [sp_issued]. rewrite elem_of_cons, H2'. split; [intros [[= Heq _]|]; [lia|done]|by right].
Qed.

Lemma release_sim tok t s r t' :
  refines t s → release tok t = (r, t') → ∃ s', promise s (CRelease tok) (RUnit r) s' ∧ refines t' s'.
Proof.
  intros Hrf. pose proof Hrf as [Ho Hl Hc Hh]. destruct (resolve tok t) as [u|] eqn:Hr.
  - destruct (lease_live t tok u Ho Hr) as (x & Hx & Hxu & Hlo). pose proof (release_result t tok u x Ho Hr Hx) as Hres.
    pose proof (release_ok t tok u x Ho Hr Hx) as Ho'. pose proof (release_lease t tok u x Ho Hr Hx) as Hl'.
    intros Hrel. rewrite Hrel in *. injection Hres as Hr1 Ht'. subst r. cbn [snd] in *. eexists. split; [eapply pr_release; by rewrite <- Hl|].
    split; [done| | |].
    + intros tok'. rewrite Hl'. cbn [sp_live]. unfold update. destruct (decide (tok' = tok)); [done|apply Hl].
    + by rewrite Ht'.
    + rewrite Ht'. intros i v. cbn. destruct (decide (i = N.to_nat (use_slot tok))) as [->|Hne].
      * apply resolve_Some in Hr as (Hu & _). rewrite list_lookup_insert_eq by (by eapply lookup_lt_Some). intros [= <-]. apply (Hh _ u Hu).
      * rewrite list_lookup_insert_ne by done. apply Hh.
  - unfold release. rewrite (lo_idle _ Ho). pose proof (lease_dead t tok Hr) as Hd. rewrite Hl in Hd.
    unfold resolve in Hr. destruct (use_at (use_slot tok) t) as [u|].
    + destruct (_ || _); [|done]. intros [= <- <-]. exists s. split; [by apply pr_stale|done].
    + intros [= <- <-]. exists s. split; [by apply pr_stale|done].
Qed.

Lemma validate_sim tok now t s r t' :
  refines t s → validate tok now t = (r, t') → ∃ s', promise s (CValidate tok now) (RUnit r) s' ∧ refines t' s'.
Proof.
  intros Hrf. pose proof Hrf as [Ho Hl Hc Hh]. unfold validate. rewrite (lo_idle _ Ho), Hc. cbv zeta.
  case_bool_decide as Hn; [intros [= <- <-]; exists s; split; [by apply pr_validate_time|done]|]. intros [= <- <-]. eexists. split.
  - apply pr_validate; [lia|]. rewrite <- Hl. destruct (resolve tok t) as [u|] eqn:Hr; [|by rewrite (lease_dead t tok Hr)].
    destruct (lease_live t tok u Ho Hr) as (x & -> & -> & ->). cbn. destruct (e_retired x); [done|]. by case_bool_decide.
  - split; [|done|done|done]. destruct Ho as [H1 H2 H3 H4 H5 H6]. by split.
Qed.

Section Invalidate.
Context (p : ReplyBinding → bool) (f : Entry → Entry) (t : Leases).
Hypothesis Hf : ∀ x, f x = if e_used x && p (e_binding x) then retire_entry x else x.
Hypothesis Ht : leases_ok t.

Lemma invalidate_entry e x : entries_ t !! e = Some x →
  f x = mkEntry (e_binding x) (refcount x) (holder_mask x) (deadline_max x) (e_used x) (e_retired x || e_used x && p (e_binding x)).
Proof.
  intros Hx. rewrite Hf. destruct (lo_entry _ Ht e x Hx) as [_ Hu _]. destruct (e_used x) eqn:Hxu; cbn [andb].
  - symmetry in Hu. apply bool_decide_eq_true in Hu. unfold retire_entry. rewrite (bool_decide_eq_false_2 (refcount x = 0)) by lia.
    destruct (p (e_binding x)); [by rewrite orb_true_r, Hxu|]. rewrite orb_false_r. destruct x; cbn in *. by subst.
  - rewrite orb_false_r. destruct x; cbn in *. by subst.
Qed.

Lemma invalidate_ok : leases_ok (set_entries (f <$> entries_ t) t).
Proof.
  assert (Hold : ∀ e y, (f <$> entries_ t) !! e = Some y → ∃ x, entries_ t !! e = Some x ∧ y =
    mkEntry (e_binding x) (refcount x) (holder_mask x) (deadline_max x) (e_used x) (e_retired x || e_used x && p (e_binding x))).
  { intros e y (x & -> & Hx)%list_lookup_fmap_Some. exists x. split; [done|]. by apply (invalidate_entry e). }
  pose proof Ht as [H1 H2 H3 H4 H5 H6]. split; [|done|done| |done|].
  - cbn. by rewrite length_fmap.
  - intros e y (x & Hx & ->)%Hold. destruct (H4 e x Hx) as [Hc Hu Hd]. by split.
  - intros e y e' y' (x & Hx & ->)%Hold (x' & Hx' & ->)%Hold. apply (H6 e x e' x' Hx Hx').
Qed.

Lemma invalidate_lease tok : lease_of (set_entries (f <$> entries_ t) t) tok = revoke_if p <$> lease_of t tok.
Proof.
  destruct (resolve tok t) as [u|] eqn:Hr.
  - destruct (lease_live t tok u Ht Hr) as (x & Hx & Hxu & ->). apply lease_of_Some. apply resolve_Some in Hr as (Hu & Hus & Hs).
    exists u, (f x). cbn. rewrite list_lookup_fmap, Hx. split_and!; try done. rewrite (invalidate_entry _ x Hx), Hxu. done.
  - rewrite (lease_dead t tok Hr). by apply lease_dead.
Qed.
End Invalidate.

Lemma call_sim c t s r t' : refines t s → do_call c t = (r, t') → ∃ s', promise s c r s' ∧ refines t' s'.
Proof.
  intros Hrf. pose proof Hrf as [Ho Hl Hc Hh]. destruct c as [b deadline now|tok|tok now|id|]; cbn [do_call].
  - destruct (acquire b deadline now t) as [r0 t0] eqn:Ha. intros [= <- <-]. by eapply acquire_sim.
  - destruct (release tok t) as [r0 t0] eqn:Ha. intros [= <- <-]. by eapply release_sim.
  - destruct (validate tok now t) as [r0 t0] eqn:Ha. intros [= <- <-]. by eapply validate_sim.
  - unfold invalidate_binding. rewrite (lo_idle _ Ho). intros [= <- <-]. eexists. split; [apply pr_invalidate|]. split; [|intros tok|done|done].
    + by apply (invalidate_ok (λ b, bool_decide (rb_id b = id))).
    + cbn [sp_live]. rewrite <- Hl. by apply (invalidate_lease (λ b, bool_decide (rb_id b = id))).
  - unfold invalidate_all. rewrite (lo_idle _ Ho). intros [= <- <-]. eexists. split; [apply pr_invalidate_all|].
    assert (Hf : ∀ x, (if e_used x then retire_entry x else x) = if e_used x && true then retire_entry x else x) by (intros x; by rewrite andb_true_r).
    split; [|intros tok|done|done].
    + by apply (invalidate_ok (λ _, true)).
    + cbn [sp_live]. rewrite <- Hl. by apply (invalidate_lease (λ _, true)).
Qed.

Lemma drive_sim cs : ∀ t s, refines t s → ∃ s', promises s cs (fst (drive cs t)) s' ∧ refines (snd (drive cs t)) s'.
Proof.
  induction cs as [|c cs IH]; intros t s Hrf; [exists s; split; [constructor|done]|]. cbn [drive].
  destruct (do_call c t) as [r t1] eqn:Hd. destruct (call_sim c t s r t1 Hrf Hd) as (s1 & Hp & Hrf1).
  destruct (IH t1 s1 Hrf1) as (s2 & Hps & Hrf2). destruct (drive cs t1) as [rs t2]. exists s2. split; [by econstructor|done].
Qed.

Lemma promises_nodup s cs rs s' : promises s cs rs s' → NoDup (sp_issued s) → NoDup (sp_issued s').
Proof.
  induction 1 as [|s c r s1 cs rs s2 Hp _ IH]; [done|]. intros Hn. apply IH. destruct Hp; try done. by constructor.
Qed.

(** C22: every sequence of calls on the table returns what the contract of
    [ReplyPeerPort] allows, a partial map from tokens to leases: granted
    tokens are all distinct, a release ends the lease of its token and of no
    other, a stale token changes nothing, validation fails exactly for
    unknown, revoked and overdue leases, and a binding is held exactly while
    one of its leases lives. *)
Theorem reply_leases_refine_contract cs :
  let '(rs, t) := drive cs initial in
  ∃ s, promises spec_initial cs rs s ∧ NoDup (sp_issued s) ∧
    (∀ tok, code_of (use_binding tok t) = (match sp_live s tok with
       | None => Some NotFound | Some l => if l_revoked l then Some Conflict else None end)) ∧
    (∀ tok b, use_binding tok t = Ok b → l_binding <$> sp_live s tok = Some b) ∧
    ∀ id gen, holds_binding id gen t = true ↔ ∃ tok l, sp_live s tok = Some l ∧ key_of (l_binding l) = (id, gen).
Proof.
  destruct (drive_sim cs initial spec_initial initial_refines) as (s & Hps & [Ho Hl _ _]). destruct (drive cs initial) as [rs t].
  cbn [fst snd] in *. exists s. split; [done|]. split; [eapply promises_nodup; [done|constructor]|].
  assert (Hub : ∀ tok, use_binding tok t = match resolve tok t with None => Err NotFound "stale token" | Some u =>
    match lease_of t tok with Some l => if l_revoked l then Err Conflict "binding retired" else Ok (l_binding l) | None => Err InternalError "use without entry" end end).
  { intros tok. unfold use_binding. destruct (resolve tok t) as [u|] eqn:Hr; [|done].
    by destruct (lease_live t tok u Ho Hr) as (x & -> & -> & ->). }
  split; [|split].
  - intros tok. rewrite Hub, <- Hl. destruct (resolve tok t) as [u|] eqn:Hr; [|by rewrite (lease_dead t tok Hr)].
    destruct (lease_live t tok u Ho Hr) as (x & _ & _ & ->). cbn. by destruct (e_retired x).
  - intros tok b. rewrite Hub, <- Hl. destruct (resolve tok t) as [u|]; [|done]. destruct (lease_of t tok) as [l|]; [|done].
    destruct (l_revoked l); [done|]. by intros [= <-].
  - intros id gen. unfold holds_binding, find_entry. destruct (list_find _ (entries_ t)) as [[e x]|] eqn:Hf.
    + apply list_find_Some in Hf as (Hx & [Hu Hk]%keyed_true & _). destruct (lo_entry _ Ho e x Hx) as [_ Hus _]. rewrite <- Hus, Hu.
      split; [|done]. intros _. destruct (entry_token t e x Ho Hx Hu) as (tok & l & Hlo & Hb & _). exists tok, l. rewrite <- Hl.
      split; [done|]. unfold key_of. by rewrite Hb.
    + split; [done|]. intros (tok & l & Hlive & Hk). rewrite <- Hl in Hlive. destruct (token_entry t tok l Ho Hlive) as (e & x & Hx & Hu & Hb & _).
      apply list_find_None in Hf. rewrite Forall_forall in Hf. exfalso. apply (Hf x); [by eapply list_elem_of_lookup_2|].
      apply keyed_true. split; [done|]. unfold entry_key. by rewrite <- Hb.
Qed.

(** [check_invariants] holds after every sequence of calls: reference counts
    are the sizes of the holder bitmaps, links resolve both ways, no retired
    slot is in use and the recorded deadline of an entry is the maximum over
    its uses. *)
Lemma reply_leases_audit_holds cs :
  check_invariants (snd (drive cs initial)) = true ∧
  (live_use_count (snd (drive cs initial)) ≤ kReplyLeaseUsesMax)%nat ∧
  (live_entry_count (snd (drive cs initial)) ≤ kExpectedReplyBindingsMax)%nat.
Proof.
  destruct (drive_sim cs initial spec_initial initial_refines) as (s & _ & [Ho _ _ _]). split; [by apply ok_audit|]. split.
  - rewrite <- (lo_uses _ Ho). apply length_filter.
  - rewrite <- (lo_entries _ Ho). apply length_filter.
Qed.
