(* ===== verification/Transactions.v ===== *)
(** * Admission transactions (node_txn.cpp, node.hpp [TxnSlot], [EventSlot])

    A transaction joins one reply lease with the work an admission created:
    queued jobs and component events.  The last piece of work to finish gives
    the lease back.  The lease table is reached through the class
    [ReplyPort]; the model has a port attached.  A job is its transaction
    handle and where the job is; a component event is its handle and state:
    frames and payloads do not influence when transactions end. *)

From S2P Require Import Prelude Types ReplyLeases ReplyLeasesProps ReplyLeasesRun.

(** ** The port *)

(** [ReplyPeerPort] *)
Class ReplyPort (P : Type) := {
  port_acquire : ReplyBinding → Z → Z → P → result ReplyLeaseToken * P;
  port_release : ReplyLeaseToken → P → result unit * P;
  port_validate : ReplyLeaseToken → Z → P → result unit * P }.

(** What the node relies on: tokens behave as names of leases.  [owner_step]
    is what the owner may do to the table on its own, such as revoking. *)
Class ReplyPortLaws (P : Type) `{ReplyPort P} := {
  port_ok : P → Prop;
  port_lease : P → ReplyLeaseToken → option Lease;
  owner_step : P → P → Prop;
  acquire_granted b deadline now p tok p' :
    port_ok p → port_acquire b deadline now p = (Ok tok, p') →
    port_ok p' ∧ port_lease p tok = None ∧ tok ≠ kInvalidReplyLeaseToken ∧ now < deadline ∧
    ∀ tok', is_Some (port_lease p' tok') ↔ tok' = tok ∨ is_Some (port_lease p tok');
  acquire_refused b deadline now p c d p' :
    port_ok p → port_acquire b deadline now p = (Err c d, p') →
    port_ok p' ∧ ∀ tok, port_lease p' tok = port_lease p tok;
  release_drops tok p r p' :
    port_ok p → port_release tok p = (r, p') →
    port_ok p' ∧ ∀ tok', is_Some (port_lease p' tok') ↔ tok' ≠ tok ∧ is_Some (port_lease p tok');
  validate_reads tok now p r p' :
    port_ok p → port_validate tok now p = (r, p') →
    port_ok p' ∧ ∀ tok', port_lease p' tok' = port_lease p tok';
  owner_keeps p p' :
    port_ok p → owner_step p p' → port_ok p' ∧ ∀ tok, is_Some (port_lease p' tok) ↔ is_Some (port_lease p tok) }.

(** ** State *)

Definition kAdmissionTransactionsMax : nat := 8.
Definition kComponentEventsMax : nat := 8.

Record TxnHandle := mkTxn { tx_slot : N; tx_serial : Z }.
#[global] Instance TxnHandle_eq_dec : EqDecision TxnHandle.
Proof. solve_decision. Defined.
Definition kInvalidTxnHandle : TxnHandle := mkTxn 0xFFFFFFFF 0.

Inductive TxnState := Free | Committed | Closing.
#[global] Instance TxnState_eq_dec : EqDecision TxnState.
Proof. solve_decision. Defined.
Record TxnSlot := mkSlot {
  ts_use : ReplyLeaseToken; ts_deadline : Z; work_refs : Z; ts_state : TxnState; ts_serial : Z; ts_retired : bool }.
Definition free_slot : TxnSlot := mkSlot kInvalidReplyLeaseToken 0 0 Free 0 false.

Inductive EventState := EFree | EQueued | ETaken.
#[global] Instance EventState_eq_dec : EqDecision EventState.
Proof. solve_decision. Defined.
Record EventSlot := mkEvent { ev_txn : TxnHandle; ev_state : EventState; ev_serial : Z; ev_retired : bool }.
Definition free_event : EventSlot := mkEvent kInvalidTxnHandle EFree 0 false.

(** In the scheduler, handed to the driver, or waiting for a hop accept. *)
Inductive Place := InScheduler | WithDriver | AwaitingHop.
#[global] Instance Place_eq_dec : EqDecision Place.
Proof. solve_decision. Defined.
Record Job := mkJob { j_place : Place; j_txn : TxnHandle }.

Section Node.
Context {P : Type} `{ReplyPort P}.

Record Node := mkNode { txn_slots_ : list TxnSlot; event_slots_ : list EventSlot; jobs_ : list Job; port_ : P }.
Definition initial_node (p : P) : Node :=
  mkNode (replicate kAdmissionTransactionsMax free_slot) (replicate kComponentEventsMax free_event) [] p.

Definition set_slots (ss : list TxnSlot) (n : Node) : Node := mkNode ss (event_slots_ n) (jobs_ n) (port_ n).
Definition set_events (es : list EventSlot) (n : Node) : Node := mkNode (txn_slots_ n) es (jobs_ n) (port_ n).
Definition set_jobs (js : list Job) (n : Node) : Node := mkNode (txn_slots_ n) (event_slots_ n) js (port_ n).
Definition set_port (p : P) (n : Node) : Node := mkNode (txn_slots_ n) (event_slots_ n) (jobs_ n) p.
Definition put_slot (i : nat) (s : TxnSlot) (n : Node) : Node := set_slots (<[i := s]> (txn_slots_ n)) n.

(** [(void)reply_peer_port_->release(use)] when there is a use. *)
Definition release_use (use : ReplyLeaseToken) (n : Node) : Node :=
  if bool_decide (use = kInvalidReplyLeaseToken) then n else set_port (snd (port_release use (port_ n))) n.

(** ** Transactions *)

Definition is_free (s : TxnSlot) : bool := bool_decide (ts_state s = Free).

Definition txn_slot_available (n : Node) : bool :=
  existsb (λ s, is_free s && negb (ts_retired s) && match next_use_serial (ts_serial s) with Some _ => true | None => false end)
    (txn_slots_ n).

(** The loop of [begin_txn]: the slot taken and its serial. *)
Fixpoint begin_scan (i : nat) (use : ReplyLeaseToken) (deadline_ms : Z) (ss : list TxnSlot) (retired_seen : bool)
  : option TxnHandle * list TxnSlot * bool :=
  match ss with
  | [] => (None, [], retired_seen)
  | s :: rest =>
      if negb (is_free s) then let '(r, rest', f) := begin_scan (S i) use deadline_ms rest retired_seen in (r, s :: rest', f)
      else if ts_retired s then let '(r, rest', f) := begin_scan (S i) use deadline_ms rest true in (r, s :: rest', f)
      else match next_use_serial (ts_serial s) with
           | None =>
               let s' := mkSlot (ts_use s) (ts_deadline s) (work_refs s) (ts_state s) (ts_serial s) true in
               let '(r, rest', f) := begin_scan (S i) use deadline_ms rest true in (r, s' :: rest', f)
           | Some serial => (Some (mkTxn (N.of_nat i) serial), mkSlot use deadline_ms 0 Committed serial (ts_retired s) :: rest, retired_seen)
           end
  end.
Definition begin_txn (use : ReplyLeaseToken) (deadline_ms : Z) (n : Node) : result TxnHandle * Node :=
  let '(r, ss, retired_seen) := begin_scan 0 use deadline_ms (txn_slots_ n) false in
  (match r with
   | Some h => Ok h
   | None => if retired_seen then Err CounterExhausted "transaction serials exhausted" else Err NoCapacity "8 transactions live"
   end, set_slots ss n).

(** The live slot a handle names. *)
Definition resolve_txn (h : TxnHandle) (n : Node) : option TxnSlot :=
  match lookup_u32 (tx_slot h) (txn_slots_ n) with
  | Some s => if is_free s || negb (bool_decide (ts_serial s = tx_serial h)) then None else Some s
  | None => None
  end.

Definition with_refs (r : Z) (s : TxnSlot) : TxnSlot := mkSlot (ts_use s) (ts_deadline s) r (ts_state s) (ts_serial s) (ts_retired s).
Definition with_state (st : TxnState) (s : TxnSlot) : TxnSlot := mkSlot (ts_use s) (ts_deadline s) (work_refs s) st (ts_serial s) (ts_retired s).
Definition freed (s : TxnSlot) : TxnSlot := mkSlot kInvalidReplyLeaseToken 0 (work_refs s) Free (ts_serial s) (ts_retired s).

Definition join_txn (h : TxnHandle) (n : Node) : Node :=
  match resolve_txn h n with
  | Some s => if bool_decide (work_refs s < UINT8_MAX) then put_slot (N.to_nat (tx_slot h)) (with_refs (work_refs s + 1) s) n else n
  | None => n
  end.

Definition finish_txn_work (h : TxnHandle) (n : Node) : Node :=
  match resolve_txn h n with
  | Some s =>
      let s1 := if bool_decide (0 < work_refs s) then with_refs (work_refs s - 1) s else s in
      if negb (bool_decide (work_refs s1 = 0)) then put_slot (N.to_nat (tx_slot h)) s1 n
      else put_slot (N.to_nat (tx_slot h)) (freed s1) (release_use (ts_use s) n)
  | None => n
  end.

(** [AdmissionReservation::rollback] of an uncommitted reservation. *)
Definition rollback (use : ReplyLeaseToken) (txn : TxnHandle) (n : Node) : Node :=
  if negb (bool_decide (txn = kInvalidTxnHandle)) then
    match resolve_txn txn n with
    | Some s => if bool_decide (work_refs s = 0)
                then put_slot (N.to_nat (tx_slot txn)) (with_refs 0 (freed s)) (release_use use n) else n
    | None => n
    end
  else release_use use n.

(** ** Component events *)

Definition component_event_available (n : Node) : bool :=
  existsb (λ e, bool_decide (ev_state e = EFree) && negb (ev_retired e) &&
                match next_use_serial (ev_serial e) with Some _ => true | None => false end) (event_slots_ n).

Fixpoint publish_scan (txn : TxnHandle) (es : list EventSlot) : bool * list EventSlot :=
  match es with
  | [] => (false, [])
  | e :: rest =>
      if negb (bool_decide (ev_state e = EFree)) || ev_retired e then let '(b, rest') := publish_scan txn rest in (b, e :: rest')
      else match next_use_serial (ev_serial e) with
           | None => let '(b, rest') := publish_scan txn rest in (b, mkEvent (ev_txn e) (ev_state e) (ev_serial e) true :: rest')
           | Some serial => (true, mkEvent txn EQueued serial (ev_retired e) :: rest)
           end
  end.
Definition publish_component_event (txn : TxnHandle) (n : Node) : Node :=
  let '(published, es) := publish_scan txn (event_slots_ n) in
  let n1 := set_events es n in
  if published && negb (bool_decide (txn = kInvalidTxnHandle)) then join_txn txn n1 else n1.

Definition take_component_event (n : Node) : option nat * Node :=
  match list_find (λ e, ev_state e = EQueued) (event_slots_ n) with
  | Some (i, e) => (Some i, set_events (<[i := mkEvent (ev_txn e) ETaken (ev_serial e) (ev_retired e)]> (event_slots_ n)) n)
  | None => (None, n)
  end.
Definition free_of_event (e : EventSlot) : EventSlot := mkEvent (ev_txn e) EFree (ev_serial e) (ev_retired e).
Definition complete_component_event (slot : nat) (serial : Z) (n : Node) : Node :=
  match event_slots_ n !! slot with
  | Some e =>
      if negb (bool_decide (ev_state e = ETaken)) || negb (bool_decide (ev_serial e = serial)) then n
      else finish_txn_work (ev_txn e) (set_events (<[slot := free_of_event e]> (event_slots_ n)) n)
  | None => n
  end.

(** ** Admission *)

(** What [reserve_rx_reply] reads of the frame and the scheduler. *)
Record Gates := mkGates {
  rx_valid : bool; last_clock_ms_ : Z; needs_control_slot : bool; control_slot_available : bool;
  free_slots : nat; pool_slots : nat }.

(** One admission: what it asks for, and which of its enqueues succeeded.  [second] is the second job: whether it was queued and, if it
    was not, whether the admission is undone. *)
Record Admission := mkAdmission {
  ad_gates : Gates; ad_binding : ReplyBinding; ad_deadline : Z;
  ad_first : bool; ad_second : option (bool * bool); ad_event : bool }.

Definition reserve_rx_reply (g : Gates) (b : ReplyBinding) (deadline_ms now_ms : Z) (n : Node)
  : result TxnHandle * ReplyLeaseToken * Node :=
  if negb (rx_valid g) then (Err InvalidArgument "no rx binding", kInvalidReplyLeaseToken, n)
  else if bool_decide (now_ms < last_clock_ms_ g) then (Err TimeUncertain "clock regressed", kInvalidReplyLeaseToken, n)
  else if needs_control_slot g && negb (control_slot_available g) then (Err WouldBlock "CONTROL_LANE_FULL", kInvalidReplyLeaseToken, n)
  else if (free_slots g <? pool_slots g)%nat then (Err WouldBlock "TX_QUEUE_FULL", kInvalidReplyLeaseToken, n)
  else if negb (txn_slot_available n) then (Err NoCapacity "8 transactions live", kInvalidReplyLeaseToken, n)
  else if bool_decide (UINT64_MAX - kReplyLeaseTtlMs < now_ms) then (Err CounterExhausted "ttl unrepresentable", kInvalidReplyLeaseToken, n)
  else
    let deadline := Z.min (now_ms + kReplyLeaseTtlMs) deadline_ms in
    match port_acquire b deadline now_ms (port_ n) with
    | (Err c d, p) => (Err c d, kInvalidReplyLeaseToken, set_port p n)
    | (Ok use, p) => let '(r, n1) := begin_txn use deadline (set_port p n) in (r, use, n1)
    end.

(** A job that was queued joins its transaction. *)
Definition queue_job (h : TxnHandle) (n : Node) : Node := join_txn h (set_jobs (mkJob InScheduler h :: jobs_ n) n).

Definition remove_first (p : Job → bool) (js : list Job) : option (Job * list Job) :=
  match list_find (λ j, p j = true) js with Some (i, j) => Some (j, delete i js) | None => None end.

Definition run_admission (a : Admission) (now_ms : Z) (n : Node) : Node :=
  match reserve_rx_reply (ad_gates a) (ad_binding a) (ad_deadline a) now_ms n with
  | (Err _ _, use, n1) => rollback use kInvalidTxnHandle n1
  | (Ok h, use, n1) =>
      if negb (ad_first a) then rollback use h n1
      else
        let n2 := queue_job h n1 in
        match ad_second a with
        | Some (false, true) =>
            let n3 := match remove_first (λ j, bool_decide (j_place j = InScheduler) && bool_decide (j_txn j = h)) (jobs_ n2) with
                      | Some (j, js) => finish_txn_work (j_txn j) (set_jobs js n2)
                      | None => n2
                      end in
            rollback use h n3
        | second =>
            let n3 := match second with Some (true, _) => queue_job h n2 | _ => n2 end in
            if ad_event a then publish_component_event h n3 else n3
        end
  end.

(** ** The end of a job *)

(** A job that completed or failed; a failed one may report with an
    admission of its own. *)
Definition end_job (h : TxnHandle) (report : option Admission) (now_ms : Z) (n : Node) : Node :=
  let n1 := finish_txn_work h n in
  match report with Some a => run_admission a now_ms n1 | None => n1 end.

(** The loops [while (drop_one_if ...) fail_job] of the sweep: [fuel] jobs in
    the scheduler or waiting for a hop accept. *)
Fixpoint drop_jobs (fuel : nat) (place : Place) (h : TxnHandle) (reports : list (option Admission)) (now_ms : Z) (n : Node)
  : list (option Admission) * Node :=
  match fuel with
  | O => (reports, n)
  | S fuel =>
      match remove_first (λ j, bool_decide (j_place j = place) && bool_decide (j_txn j = h)) (jobs_ n) with
      | None => (reports, n)
      | Some (j, js) => drop_jobs fuel place h (tail reports) now_ms (end_job (j_txn j) (mjoin (head reports)) now_ms (set_jobs js n))
      end
  end.

(** Queued events of a closed transaction are dropped. *)
Fixpoint drop_events (k : nat) (i : nat) (h : TxnHandle) (n : Node) : Node :=
  match k with
  | O => n
  | S k =>
      match event_slots_ n !! i with
      | Some e =>
          if bool_decide (ev_state e = EQueued) && bool_decide (ev_txn e = h)
          then drop_events k (S i) h (finish_txn_work h (set_events (<[i := free_of_event e]> (event_slots_ n)) n))
          else drop_events k (S i) h n
      | None => n
      end
  end.

Definition closes (now_ms : Z) (s : TxnSlot) (n : Node) : bool * Node :=
  if bool_decide (ts_deadline s ≤ now_ms) then (true, n)
  else
    let '(r, p) := port_validate (ts_use s) now_ms (port_ n) in
    (match code_of r with Some Expired | Some Conflict | Some NotFound => true | _ => false end, set_port p n).

Definition sweep_slot (i : nat) (reports : list (option Admission)) (now_ms : Z) (n : Node) : list (option Admission) * Node :=
  match txn_slots_ n !! i with
  | None => (reports, n)
  | Some s =>
      if is_free s then (reports, n)
      else
        let h := mkTxn (N.of_nat i) (ts_serial s) in
        match closes now_ms s n with
        | (false, n1) => (reports, n1)
        | (true, n1) =>
            let n2 := put_slot i (if bool_decide (ts_state s = Committed) then with_state Closing s else s) n1 in
            let '(r3, n3) := drop_jobs (length (jobs_ n2)) InScheduler h reports now_ms n2 in
            let '(r4, n4) := drop_jobs (length (jobs_ n3)) AwaitingHop h r3 now_ms n3 in
            let n5 := drop_events kComponentEventsMax 0 h n4 in
            (r4, match txn_slots_ n5 !! i with
                 | Some s5 => if bool_decide (work_refs s5 = 0)
                              then put_slot i (freed s5) (release_use (ts_use s5) n5) else n5
                 | None => n5
                 end)
        end
  end.

(** [sweep_transactions] of a started node whose clock did not go back. *)
Fixpoint sweep_from (k i : nat) (reports : list (option Admission)) (now_ms : Z) (n : Node) : list (option Admission) * Node :=
  match k with
  | O => (reports, n)
  | S k => let '(r, n1) := sweep_slot i reports now_ms n in sweep_from k (S i) r now_ms n1
  end.
Definition sweep_transactions (reports : list (option Admission)) (now_ms : Z) (n : Node) : Node :=
  snd (sweep_from kAdmissionTransactionsMax 0 reports now_ms n).

(** ** Quiesce *)

Fixpoint release_slots (k i : nat) (n : Node) : Node :=
  match k with
  | O => n
  | S k =>
      release_slots k (S i)
        match txn_slots_ n !! i with
        | Some s => if is_free s then n else put_slot i (with_refs 0 (freed s)) (release_use (ts_use s) n)
        | None => n
        end
  end.

(** The jobs of the scheduler, of the driver and those awaiting a hop accept,
    then the events; [finish_txn_work] does not read the event slots. *)
Definition terminate_all_txn_work (n : Node) : Node :=
  let queued := filter (λ j, j_place j = InScheduler ∧ j_txn j ≠ kInvalidTxnHandle) (jobs_ n) in
  let driver := filter (λ j, j_place j = WithDriver ∧ j_txn j ≠ kInvalidTxnHandle) (jobs_ n) in
  let awaiting := filter (λ j, j_place j = AwaitingHop) (jobs_ n) in
  let n1 := fold_left (λ n j, finish_txn_work (j_txn j) n) (queued ++ driver ++ awaiting) n in
  let n2 := fold_left (λ n e, if bool_decide (ev_state e = EFree) then n else finish_txn_work (ev_txn e) n) (event_slots_ n1)
              (set_events ((λ e, if bool_decide (ev_state e = EFree) then e else free_of_event e) <$> event_slots_ n1) n1) in
  release_slots kAdmissionTransactionsMax 0 n2.
(** [quiesce_for_sleep]: then the queues are torn down. *)
Definition quiesce (n : Node) : Node := set_jobs [] (terminate_all_txn_work n).

(** ** Observers *)

Definition txn_in_flight (n : Node) : nat := length (filter (λ s, is_free s = false) (txn_slots_ n)).
Definition component_events_pending (n : Node) : nat := length (filter (λ e, ev_state e ≠ EFree) (event_slots_ n)).
(** The effective deadline of a job with its own deadline [deadline_ms]. *)
Definition work_deadline (deadline_ms : Z) (h : TxnHandle) (n : Node) : Z :=
  if bool_decide (h = kInvalidTxnHandle) then deadline_ms
  else match resolve_txn h n with
       | None => 0
       | Some s => if bool_decide (deadline_ms < ts_deadline s) then deadline_ms else ts_deadline s
       end.

End Node.
Arguments Node : clear implicits.
