(* ===== verification/TransactionsInv.v ===== *)
(** * The invariant of admission transactions

    Every leased token belongs to exactly one live transaction, and a live
    transaction counts exactly the jobs and events that carry its handle. *)

From S2P Require Import Prelude Types ReplyLeases ReplyLeasesProps ReplyLeasesRun Transactions.

Section Inv.
Context {P : Type} `{ReplyPortLaws P}.
Implicit Types (n : Node P) (h : TxnHandle) (tok : ReplyLeaseToken).

(** ** Leases and live transactions *)

Definition linked n (i : nat) tok : Prop := ∃ s, txn_slots_ n !! i = Some s ∧ is_free s = false ∧ ts_use s = tok.
Record links_ok n : Prop := {
  lk_len : length (txn_slots_ n) = kAdmissionTransactionsMax;
  lk_port : port_ok (port_ n);
  lk_none : port_lease (port_ n) kInvalidReplyLeaseToken = None;
  lk_lease : ∀ tok, is_Some (port_lease (port_ n) tok) ↔ ∃ i, linked n i tok;
  lk_one : ∀ i j tok, linked n i tok → linked n j tok → i = j;
  lk_free : ∀ i s, txn_slots_ n !! i = Some s → is_free s = true → ts_use s = kInvalidReplyLeaseToken }.

Lemma linked_put n i s s' j tok :
  txn_slots_ n !! i = Some s → linked (put_slot i s' n) j tok ↔ if decide (j = i) then is_free s' = false ∧ ts_use s' = tok else linked n j tok.
Proof.
  intros Hi. unfold linked, put_slot. cbn. case_decide as Hj.
  - subst j. rewrite list_lookup_insert_eq by (by eapply lookup_lt_Some). naive_solver.
  - rewrite list_lookup_insert_ne by done. done.
Qed.

(** A slot that keeps its use. *)
Lemma links_same n i s s' :
  links_ok n → txn_slots_ n !! i = Some s → is_free s' = is_free s → ts_use s' = ts_use s → links_ok (put_slot i s' n).
Proof.
  intros [H1 H2 H3 H4 H5 H6] Hi Hf Hu.
  assert (Hl : ∀ j tok, linked (put_slot i s' n) j tok ↔ linked n j tok).
  { intros j tok. rewrite (linked_put n i s s' j tok Hi). case_decide; [|done]. subst j. rewrite Hf, Hu. unfold linked. rewrite Hi. naive_solver. }
  split; [cbn; by rewrite length_insert|done|done| | |].
  - intros tok. rewrite H4. by setoid_rewrite Hl.
  - intros a b tok. rewrite !Hl. apply H5.
  - intros j x. cbn. destruct (decide (j = i)) as [->|Hne].
    + rewrite list_lookup_insert_eq by (by eapply lookup_lt_Some). intros [= <-]. rewrite Hf, Hu. by apply (H6 i).
    + rewrite list_lookup_insert_ne by done. apply H6.
Qed.

Lemma release_use_slots use n : txn_slots_ (release_use use n) = txn_slots_ n ∧ event_slots_ (release_use use n) = event_slots_ n ∧ jobs_ (release_use use n) = jobs_ n.
Proof. unfold release_use. by case_bool_decide. Qed.

(** A live slot that is freed gives its lease back. *)
Lemma links_free n i s s' :
  links_ok n → txn_slots_ n !! i = Some s → is_free s = false → is_free s' = true → ts_use s' = kInvalidReplyLeaseToken →
  links_ok (put_slot i s' (release_use (ts_use s) n)).
Proof.
  intros Hn Hi Hf Hf' Hu'. pose proof Hn as [H1 H2 H3 H4 H5 H6].
  assert (Hlk : linked n i (ts_use s)) by (by exists s).
  assert (Hne : ts_use s ≠ kInvalidReplyLeaseToken).
  { intros Heq. assert (Hs : is_Some (port_lease (port_ n) (ts_use s))) by (apply H4; eauto). rewrite Heq, H3 in Hs. by apply is_Some_None in Hs. }
  unfold release_use. rewrite bool_decide_eq_false_2 by done. destruct (port_release (ts_use s) (port_ n)) as [r p] eqn:Hr. cbn [snd].
  destruct (release_drops _ _ _ _ H2 Hr) as [Hp Hl]. set (n1 := set_port p n).
  assert (Hi1 : txn_slots_ n1 !! i = Some s) by done.
  assert (Hlk' : ∀ j tok, linked (put_slot i s' n1) j tok ↔ linked n j tok ∧ tok ≠ ts_use s).
  { intros j tok. rewrite (linked_put n1 i s s' j tok Hi1). change (linked n1 j tok) with (linked n j tok). case_decide as Hj.
    - subst j. rewrite Hf'. split; [by intros [? _]|]. intros [(x & Hx & _ & Hux) Htok]. rewrite Hi in Hx. injection Hx as <-. done.
    - split; [|by intros [? _]]. intros Hj'. split; [done|]. intros ->. by apply Hj, (H5 j i (ts_use s)). }
  split.
  - cbn. by rewrite length_insert.
  - done.
  - cbn. destruct (port_lease p kInvalidReplyLeaseToken) eqn:Hk; [|done].
    assert (Hs : is_Some (port_lease p kInvalidReplyLeaseToken)) by eauto. apply Hl in Hs as [_ Hs]. rewrite H3 in Hs. by apply is_Some_None in Hs.
  - intros tok. change (port_ (put_slot i s' n1)) with p. rewrite Hl, H4. split.
    + intros [Hne' [j Hj]]. exists j. by apply Hlk'.
    + intros [j [Hj Hne']%Hlk']. eauto.
  - intros a b tok [Ha _]%Hlk' [Hb _]%Hlk'. by apply (H5 a b tok).
  - intros j x. cbn. destruct (decide (j = i)) as [->|Hji].
    + rewrite list_lookup_insert_eq by (by eapply lookup_lt_Some). by intros [= <-].
    + rewrite list_lookup_insert_ne by done. apply H6.
Qed.

Lemma resolve_txn_Some h n s :
  resolve_txn h n = Some s ↔ txn_slots_ n !! N.to_nat (tx_slot h) = Some s ∧ is_free s = false ∧ ts_serial s = tx_serial h.
Proof.
  unfold resolve_txn. rewrite lookup_u32_eq. destruct (txn_slots_ n !! N.to_nat (tx_slot h)) as [x|]; [|split; [done|by intros [? _]]].
  destruct (is_free x) eqn:Hf, (bool_decide_reflect (ts_serial x = tx_serial h)) as [Hs|Hs]; cbn.
  3: split; [intros [= <-]; by split_and!|by intros [[= <-] _]].
  all: (split; [done|]; intros ([= <-] & H1 & H2); congruence).
Qed.

Lemma links_finish h n : links_ok n → links_ok (finish_txn_work h n).
Proof.
  intros Hn. unfold finish_txn_work. destruct (resolve_txn h n) as [s|] eqn:Hr; [|done]. apply resolve_txn_Some in Hr as (Hi & Hf & _).
  cbv zeta. set (s1 := if bool_decide _ then _ else s).
  assert (Hs1 : is_free s1 = is_free s ∧ ts_use s1 = ts_use s) by (unfold s1; by case_bool_decide). destruct Hs1 as [Hf1 Hu1].
  destruct (negb _); [by apply (links_same n _ s s1)|]. by apply (links_free n _ s).
Qed.

(** ** Counting work *)

Definition job_count h (js : list Job) : nat := length (filter (λ j, j_txn j = h) js).
Definition event_count h (es : list EventSlot) : nat := length (filter (λ e, ev_state e ≠ EFree ∧ ev_txn e = h) es).
Definition work_of h n : Z := Z.of_nat (job_count h (jobs_ n) + event_count h (event_slots_ n)).

(** While an operation is under way a transaction may count one piece of
    work too many or too few. *)
Definition owed (debt : option (TxnHandle * Z)) h : Z :=
  match debt with Some (k, d) => if decide (k = h) then d else 0 | None => 0 end.
(** The references a live transaction may hold: at most three, and none only
    while its admission [open] is still under way. *)
Definition bounded (open : option (nat * Z)) (i : nat) (refs : Z) : Prop :=
  match open with Some (k, b) => if decide (k = i) then 0 ≤ refs ≤ b else 1 ≤ refs ≤ 3 | None => 1 ≤ refs ≤ 3 end.

Record counts_ok (open : option (nat * Z)) (debt : option (TxnHandle * Z)) n : Prop := {
  ct_events : length (event_slots_ n) = kComponentEventsMax;
  ct_slot : ∀ i s, txn_slots_ n !! i = Some s →
    0 ≤ ts_serial s ≤ UINT32_MAX ∧ (is_free s = true → work_refs s = 0) ∧
    (is_free s = false → 0 < ts_serial s ∧
       work_refs s = work_of (mkTxn (N.of_nat i) (ts_serial s)) n + owed debt (mkTxn (N.of_nat i) (ts_serial s)) ∧
       bounded open i (work_refs s));
  ct_live : ∀ h, 0 < work_of h n + owed debt h → h = kInvalidTxnHandle ∨ is_Some (resolve_txn h n) }.

Definition txn_inv open debt n : Prop := links_ok n ∧ counts_ok open debt n.

Lemma work_of_frame h n n' : jobs_ n' = jobs_ n → event_slots_ n' = event_slots_ n → work_of h n' = work_of h n.
Proof. unfold work_of. by intros -> ->. Qed.
Lemma work_of_nonneg h n : 0 ≤ work_of h n.
Proof. unfold work_of. lia. Qed.

Lemma handle_eta h : mkTxn (N.of_nat (N.to_nat (tx_slot h))) (tx_serial h) = h.
Proof. destruct h. cbn. by rewrite N2Nat.id. Qed.

Lemma resolve_put h n i s s' :
  txn_slots_ n !! i = Some s →
  resolve_txn h (put_slot i s' n) =
    if decide (N.to_nat (tx_slot h) = i) then (if is_free s' || negb (bool_decide (ts_serial s' = tx_serial h)) then None else Some s')
    else resolve_txn h n.
Proof.
  intros Hi. unfold resolve_txn. rewrite !lookup_u32_eq. cbn. case_decide as Hs.
  - rewrite Hs, list_lookup_insert_eq by (by eapply lookup_lt_Some). done.
  - by rewrite list_lookup_insert_ne.
Qed.

(** Updating the slot of a live transaction without ending it. *)
Lemma counts_put open open' debt debt' n h s s' :
  counts_ok open debt n → resolve_txn h n = Some s → is_free s' = false → ts_serial s' = ts_serial s →
  work_refs s' = work_of h n + owed debt' h → bounded open' (N.to_nat (tx_slot h)) (work_refs s') →
  (∀ i r, i ≠ N.to_nat (tx_slot h) → bounded open i r → bounded open' i r) →
  (∀ h', h' ≠ h → owed debt' h' = owed debt h') →
  counts_ok open' debt' (put_slot (N.to_nat (tx_slot h)) s' n).
Proof.
  intros [He Hs Hl] Hr Hf Hser Href Hb Hbo Hd. pose proof Hr as (Hi & Hfs & Hss)%resolve_txn_Some.
  assert (Hw : ∀ h', work_of h' (put_slot (N.to_nat (tx_slot h)) s' n) = work_of h' n) by done. split; [done| |].
  - intros j x. cbn [txn_slots_ put_slot set_slots]. destruct (decide (j = N.to_nat (tx_slot h))) as [->|Hne].
    + rewrite list_lookup_insert_eq by (by eapply lookup_lt_Some). intros [= <-]. destruct (Hs _ s Hi) as (H1 & _ & H3).
      destruct (H3 Hfs) as (Hpos & _). rewrite Hser. split; [done|]. split; [congruence|]. intros _. split; [done|].
      rewrite Hss, handle_eta, Hw. done.
    + rewrite list_lookup_insert_ne by done. intros Hx. destruct (Hs j x Hx) as (H1 & H2 & H3). split; [done|]. split; [done|].
      intros Hxf. destruct (H3 Hxf) as (Hp & Hwr & Hbd). split; [done|]. rewrite Hw, Hd; [auto|]. intros Heq. apply Hne.
      rewrite <- Heq. cbn. lia.
  - intros h' Hh'. rewrite Hw in Hh'. destruct (decide (h' = h)) as [->|Hne].
    + right. rewrite (resolve_put h n _ s s' Hi), decide_True by done. rewrite Hf, Hser, Hss, (bool_decide_eq_true_2 (tx_serial h = tx_serial h)) by done.
      cbn. eauto.
    + rewrite Hd in Hh' by done. destruct (Hl h' Hh') as [->|[x Hx]]; [by left|]. right. rewrite (resolve_put h' n _ s s' Hi). case_decide as Hsl; [|eauto].
      apply resolve_txn_Some in Hx as (Hx1 & Hx2 & Hx3). rewrite Hsl, Hi in Hx1. injection Hx1 as <-. rewrite Hf, Hser, Hx3.
      rewrite (bool_decide_eq_true_2 (tx_serial h' = tx_serial h')) by done. cbn. eauto.
Qed.

(** Ending a transaction that has no work left. *)
Lemma counts_free open open' debt n n' h s s' :
  counts_ok open debt n → resolve_txn h n = Some s → is_free s' = true → ts_serial s' = ts_serial s → work_refs s' = 0 →
  work_of h n = 0 → txn_slots_ n' = txn_slots_ n → event_slots_ n' = event_slots_ n → jobs_ n' = jobs_ n →
  (∀ i r, i ≠ N.to_nat (tx_slot h) → bounded open i r → bounded open' i r) →
  (∀ h', h' ≠ h → owed debt h' = 0) →
  counts_ok open' None (put_slot (N.to_nat (tx_slot h)) s' n').
Proof.
  intros [He Hs Hl] Hr Hf Hser Href Hw0 Hsl Hev Hjb Hbo Hd. pose proof Hr as (Hi & Hfs & Hss)%resolve_txn_Some.
  assert (Hw : ∀ h', work_of h' (put_slot (N.to_nat (tx_slot h)) s' n') = work_of h' n) by (intros h'; by apply work_of_frame).
  rewrite <- Hsl in Hi. split; [cbn; by rewrite Hev| |].
  - intros j x. cbn [txn_slots_ put_slot set_slots]. destruct (decide (j = N.to_nat (tx_slot h))) as [->|Hne].
    + rewrite list_lookup_insert_eq by (by eapply lookup_lt_Some). intros [= <-]. rewrite Hsl in Hi. destruct (Hs _ s Hi) as (H1 & _ & _).
      rewrite Hser. split; [done|]. split; [done|congruence].
    + rewrite list_lookup_insert_ne by done. rewrite Hsl. intros Hx. destruct (Hs j x Hx) as (H1 & H2 & H3). split; [done|]. split; [done|].
      intros Hxf. destruct (H3 Hxf) as (Hp & Hwr & Hbd). split; [done|]. rewrite Hw. rewrite Hd in Hwr.
      * cbn [owed]. split; [lia|]. auto.
      * intros Heq. apply Hne. rewrite <- Heq. cbn. lia.
  - intros h' Hh'. rewrite Hw in Hh'. cbn [owed] in Hh'. destruct (decide (h' = h)) as [->|Hne]; [lia|].
    destruct (Hl h') as [->|[x Hx]]; [pose proof (Hd h' Hne); lia|by left|]. right. rewrite (resolve_put h' n' _ s s' Hi).
    assert (Hx' : resolve_txn h' n' = Some x) by (unfold resolve_txn in *; by rewrite Hsl).
    case_decide as Hsl'; [|eauto]. apply resolve_txn_Some in Hx' as (Hx1 & Hx2 & Hx3). rewrite Hsl', Hi in Hx1. injection Hx1 as <-.
    exfalso. apply Hne. rewrite <- (handle_eta h'), <- (handle_eta h), Hsl', <- Hx3, <- Hss. done.
Qed.
End Inv.
