(* ===== verification/TransactionsProps.v ===== *)
(** * Operations on transactions keep the invariant *)

From S2P Require Import Prelude Types ReplyLeases ReplyLeasesProps ReplyLeasesRun Transactions TransactionsInv.

Section Props.
Context {P : Type} `{ReplyPortLaws P}.
Implicit Types (n : Node P) (h : TxnHandle) (tok : ReplyLeaseToken).

(** ** Finishing work *)

Lemma owed_one h d h' : h' ≠ h → owed (Some (h, d)) h' = 0.
Proof. intros Hne. cbn. by rewrite decide_False. Qed.
Lemma owed_self h d : owed (Some (h, d)) h = d.
Proof. cbn. by rewrite decide_True. Qed.

(** A handle that is not live is owed nothing by the transactions. *)
Lemma drop_debt open h d n : resolve_txn h n = None → counts_ok open (Some (h, d)) n → (0 < work_of h n → h = kInvalidTxnHandle) → counts_ok open None n.
Proof.
  intros Hr [He Hs Hl] Hw. split; [done| |].
  - intros i s Hi. destruct (Hs i s Hi) as (H1 & H2 & H3). split; [done|]. split; [done|]. intros Hf.
    destruct (H3 Hf) as (H4 & H5 & H6). split; [done|]. split; [|done]. rewrite owed_one in H5; [done|]. intros Heq.
    assert (Hsome : resolve_txn h n = Some s). { apply resolve_txn_Some. rewrite <- Heq. cbn. by rewrite Nat2N.id. } congruence.
  - intros h' Hh'. cbn [owed] in Hh'. destruct (decide (h' = h)) as [->|Hne]; [left; apply Hw; lia|]. apply Hl. rewrite owed_one by done. lia.
Qed.

Lemma finish_inv open h n : txn_inv open (Some (h, 1)) n → txn_inv open None (finish_txn_work h n).
Proof.
  intros [Hl Hc]. split; [by apply links_finish|]. unfold finish_txn_work. destruct (resolve_txn h n) as [s|] eqn:Hr.
  2: { apply (drop_debt open h 1 n Hr Hc). intros Hw. destruct (ct_live _ _ _ Hc h) as [|[x Hx]]; [rewrite owed_self; lia|done|congruence]. }
  pose proof Hr as (Hi & Hf & Hs)%resolve_txn_Some. destruct (ct_slot _ _ _ Hc _ s Hi) as (_ & _ & H3). destruct (H3 Hf) as (_ & Href & Hb).
  rewrite Hs, handle_eta, owed_self in Href. pose proof (work_of_nonneg h n) as Hw. cbv zeta. rewrite (bool_decide_eq_true_2 (0 < work_refs s)) by lia.
  cbn [work_refs with_refs]. case_bool_decide as Hz; cbn [negb].
  - eapply (counts_free open open (Some (h, 1)) n _ h s); try done; try (by apply release_use_slots); [lia|]. intros h' Hne. by apply owed_one.
  - eapply (counts_put open open (Some (h, 1)) None n h s); try done.
    + cbn. lia.
    + unfold bounded in *. cbn [work_refs with_refs]. destruct open as [[k b]|]; [case_decide|]; lia.
    + intros h' Hne. by rewrite owed_one.
Qed.

(** ** Jobs *)

Definition jcount (place : Place) h (js : list Job) : nat := length (filter (λ j, j_place j = place ∧ j_txn j = h) js).
Definition qcount h (es : list EventSlot) : nat := length (filter (λ e, ev_state e = EQueued ∧ ev_txn e = h) es).

Lemma count_zero {A} (Q : A → Prop) `{∀ x, Decision (Q x)} (l : list A) : length (filter Q l) = 0%nat ↔ ∀ x, x ∈ l → ¬ Q x.
Proof.
  induction l as [|y l IH]; [split; [by intros _ x ?%not_elem_of_nil|done]|]. rewrite filter_cons. destruct (decide (Q y)) as [Hy|Hy].
  - split; [done|]. intros Hall. by destruct (Hall y); [left|].
  - rewrite IH. split; [intros Hall x [->|Hx]%elem_of_cons; auto|]. intros Hall x Hx. apply Hall. by right.
Qed.
Lemma filter_delete {A} (Q : A → Prop) `{∀ x, Decision (Q x)} (l : list A) i x :
  l !! i = Some x → length (filter Q l) = (length (filter Q (delete i l)) + if decide (Q x) then 1 else 0)%nat.
Proof.
  revert i. induction l as [|y l IH]; intros [|i] Hi; try done; cbn in Hi.
  - injection Hi as ->. cbn [delete list_delete]. rewrite filter_cons. case_decide; cbn; lia.
  - change (delete (S i) (y :: l)) with (y :: delete i l). rewrite !filter_cons. destruct (decide (Q y)); cbn [length]; rewrite (IH i Hi); lia.
Qed.

Lemma remove_first_spec p (js : list Job) j js' : remove_first p js = Some (j, js') → ∃ i, js !! i = Some j ∧ js' = delete i js ∧ p j = true.
Proof.
  unfold remove_first. destruct (list_find _ js) as [[i x]|] eqn:Hf; [|done]. intros [= <- <-].
  apply list_find_Some in Hf as (Hi & Hp & _). eauto.
Qed.
Lemma remove_first_None p (js : list Job) : remove_first p js = None → ∀ j, j ∈ js → p j = false.
Proof.
  unfold remove_first. destruct (list_find _ js) as [[i x]|] eqn:Hf; [done|]. intros _ j Hj. apply list_find_None in Hf.
  rewrite Forall_forall in Hf. specialize (Hf j Hj). cbn in Hf. by destruct (p j).
Qed.

Lemma work_delete h n i j : jobs_ n !! i = Some j →
  work_of h n = work_of h (set_jobs (delete i (jobs_ n)) n) + if decide (j_txn j = h) then 1 else 0.
Proof.
  intros Hi. unfold work_of, job_count. cbn [jobs_ set_jobs event_slots_]. rewrite (filter_delete (λ j, j_txn j = h) _ i j Hi).
  destruct (decide (j_txn j = h)); lia.
Qed.

(** A change of work of one handle, which is then owed. *)
Lemma counts_work open n n' h d :
  counts_ok open None n → txn_slots_ n' = txn_slots_ n → length (event_slots_ n') = length (event_slots_ n) →
  (∀ h', work_of h' n' = work_of h' n - if decide (h = h') then d else 0) → counts_ok open (Some (h, d)) n'.
Proof.
  intros [He Hs Hl] Hsl Hev Hw.
  assert (Hsum : ∀ h', work_of h' n' + owed (Some (h, d)) h' = work_of h' n) by (intros h'; rewrite Hw; cbn; case_decide; lia).
  split; [by rewrite Hev| |].
  - intros i s. rewrite Hsl. intros Hi. destruct (Hs i s Hi) as (H1 & H2 & H3). split; [done|]. split; [done|]. intros Hf.
    destruct (H3 Hf) as (H4 & H5 & H6). split; [done|]. cbn [owed] in H5. rewrite Hsum. split; [lia|done].
  - intros h'. rewrite Hsum. intros Hh'. destruct (Hl h') as [|[s Hr]]; [cbn; lia|by left|]. right. exists s.
    unfold resolve_txn in *. by rewrite Hsl.
Qed.

Lemma end_inv open n i j : jobs_ n !! i = Some j → txn_inv open None n →
  txn_inv open None (finish_txn_work (j_txn j) (set_jobs (delete i (jobs_ n)) n)).
Proof.
  intros Hi [Hl Hc]. apply finish_inv. split; [by destruct Hl; split|]. apply (counts_work open n _ (j_txn j) 1); [done..|].
  intros h'. rewrite (work_delete h' n i j Hi). lia.
Qed.

(** ** Joining *)

Lemma join_inv k b h n s :
  N.to_nat (tx_slot h) = k → 0 ≤ b < 255 → txn_inv (Some (k, b)) (Some (h, -1)) n → resolve_txn h n = Some s →
  txn_inv (Some (k, b + 1)) None (join_txn h n) ∧ resolve_txn h (join_txn h n) = Some (with_refs (work_refs s + 1) s).
Proof.
  intros Hk Hb [Hl Hc] Hr. pose proof Hr as (Hi & Hf & Hs)%resolve_txn_Some. destruct (ct_slot _ _ _ Hc _ s Hi) as (_ & _ & H3).
  destruct (H3 Hf) as (Hp & Href & Hbd). rewrite Hk in Hbd. cbn [bounded] in Hbd. rewrite decide_True in Hbd by done.
  unfold join_txn. rewrite Hr, bool_decide_eq_true_2 by (unfold UINT8_MAX; lia). split; [split|].
  - by apply (links_same n _ s).
  - eapply (counts_put _ _ (Some (h, -1)) None n h s); try done.
    + cbn [work_refs with_refs owed]. rewrite Hs, handle_eta, owed_self in Href. lia.
    + cbn [bounded work_refs with_refs]. rewrite Hk, decide_True by done. lia.
    + intros i r Hne. rewrite Hk in Hne. cbn [bounded]. by rewrite !decide_False.
    + intros h' Hne. by rewrite owed_one.
  - rewrite (resolve_put h n _ s _ Hi), decide_True by done. cbn [with_refs ts_serial]. rewrite Hs.
    rewrite (bool_decide_eq_true_2 (tx_serial h = tx_serial h)) by done. unfold is_free in *. cbn. by rewrite Hf.
Qed.

Lemma queue_job_inv k b h n s :
  N.to_nat (tx_slot h) = k → 0 ≤ b < 255 → txn_inv (Some (k, b)) None n → resolve_txn h n = Some s →
  txn_inv (Some (k, b + 1)) None (queue_job h n) ∧ resolve_txn h (queue_job h n) = Some (with_refs (work_refs s + 1) s).
Proof.
  intros Hk Hb [Hl Hc] Hr. apply join_inv; [done|done| |done]. split; [by destruct Hl; split|].
  apply (counts_work _ n _ h (-1)); [done..|]. intros h'. unfold work_of, job_count. cbn [jobs_ set_jobs event_slots_].
  rewrite filter_cons. cbn [j_txn]. destruct (decide (h = h')); cbn; lia.
Qed.

(** ** Events *)

Lemma publish_scan_spec txn es b es' :
  publish_scan txn es = (b, es') → length es' = length es ∧
  ∀ h, event_count h es' = (event_count h es + if b then (if decide (txn = h) then 1 else 0) else 0)%nat ∧
       qcount h es' = (qcount h es + if b then (if decide (txn = h) then 1 else 0) else 0)%nat.
Proof.
  revert b es'. induction es as [|e es IH]; intros b es'; cbn [publish_scan]; [intros [= <- <-]; by split|].
  assert (Hkeep : ∀ e' b0 es0, publish_scan txn es = (b0, es0) → ev_state e' = ev_state e → ev_txn e' = ev_txn e →
    length (e' :: es0) = length (e :: es) ∧ ∀ h,
      event_count h (e' :: es0) = (event_count h (e :: es) + if b0 then (if decide (txn = h) then 1 else 0) else 0)%nat ∧
      qcount h (e' :: es0) = (qcount h (e :: es) + if b0 then (if decide (txn = h) then 1 else 0) else 0)%nat).
  { intros e' b0 es0 Hp Hst Htx. destruct (IH b0 es0 Hp) as [Hlen Hcnt]. split; [cbn; by rewrite Hlen|]. intros h.
    destruct (Hcnt h) as [H1 H2]. unfold event_count, qcount in *. rewrite !filter_cons, Hst, Htx.
    destruct (decide (ev_state e ≠ EFree ∧ ev_txn e = h)), (decide (ev_state e = EQueued ∧ ev_txn e = h)); cbn [length]; lia. }
  destruct (bool_decide_reflect (ev_state e = EFree)) as [Hfree|Hbusy]; cbn [negb orb].
  - destruct (ev_retired e) eqn:Hret; [destruct (publish_scan txn es) as [b0 es0] eqn:Hp; intros [= <- <-]; by apply Hkeep|].
    unfold next_use_serial. case_bool_decide as Hser.
    + destruct (publish_scan txn es) as [b0 es0] eqn:Hp. intros [= <- <-]. by apply Hkeep.
    + intros [= <- <-]. split; [done|]. intros h. unfold event_count, qcount. rewrite !filter_cons. cbn [ev_state ev_txn].
      rewrite Hfree. destruct (decide (txn = h)) as [->|Hne].
      * rewrite (decide_True (P := EQueued ≠ EFree ∧ h = h)), (decide_False (P := EFree ≠ EFree ∧ ev_txn e = h)), (decide_True (P := EQueued = EQueued ∧ h = h)),
          (decide_False (P := EFree = EQueued ∧ ev_txn e = h)) by naive_solver. cbn. lia.
      * rewrite (decide_False (P := EQueued ≠ EFree ∧ txn = h)), (decide_False (P := EFree ≠ EFree ∧ ev_txn e = h)), (decide_False (P := EQueued = EQueued ∧ txn = h)),
          (decide_False (P := EFree = EQueued ∧ ev_txn e = h)) by naive_solver. cbn. lia.
  - destruct (publish_scan txn es) as [b0 es0] eqn:Hp. intros [= <- <-]. by apply Hkeep.
Qed.

Lemma publish_inv k b h n s :
  N.to_nat (tx_slot h) = k → 0 ≤ b < 255 → h ≠ kInvalidTxnHandle → txn_inv (Some (k, b)) None n → resolve_txn h n = Some s →
  ∃ b', b ≤ b' ≤ b + 1 ∧ txn_inv (Some (k, b')) None (publish_component_event h n) ∧
    ∃ s', resolve_txn h (publish_component_event h n) = Some s' ∧ work_refs s ≤ work_refs s'.
Proof.
  intros Hk Hb Hh [Hl Hc] Hr. unfold publish_component_event. destruct (publish_scan h (event_slots_ n)) as [pub es] eqn:Hp.
  apply publish_scan_spec in Hp as [Hlen Hcnt]. rewrite (bool_decide_eq_false_2 (h = kInvalidTxnHandle)), andb_true_r by done.
  assert (Hl' : links_ok (set_events es n)) by (by destruct Hl; split). destruct pub.
  - exists (b + 1). split; [lia|]. destruct (join_inv k b h (set_events es n) s) as [Hj Hr']; [done|done| |done|].
    + split; [done|]. apply (counts_work _ n _ h (-1)); [done|done|done|]. intros h'. unfold work_of. cbn [jobs_ set_events event_slots_].
      rewrite (proj1 (Hcnt h')). destruct (decide (h = h')); lia.
    + split; [done|]. eexists. split; [exact Hr'|]. cbn. lia.
  - exists b. split; [lia|]. split; [|by exists s]. split; [done|].
    assert (Hw : ∀ h', work_of h' (set_events es n) = work_of h' n).
    { intros h'. unfold work_of. cbn [jobs_ set_events event_slots_]. rewrite (proj1 (Hcnt h')). by rewrite Nat.add_0_r. }
    destruct Hc as [He Hs Hlv]. split; [cbn; by rewrite Hlen|intros i x; rewrite ?Hw; apply Hs|intros h'; rewrite Hw; apply Hlv].
Qed.
End Props.
