(* ===== verification/TransactionsAdmit.v ===== *)
(** * Admissions keep the invariant of transactions

    Reservation, its rollback, and the whole admission; and what an admission
    does not touch: the work of handles issued before it. *)

From S2P Require Import Prelude Types ReplyLeases ReplyLeasesProps ReplyLeasesRun Transactions TransactionsInv TransactionsProps.

Section Admit.
Context {P : Type} `{ReplyPortLaws P}.
Implicit Types (n : Node P) (h : TxnHandle) (tok : ReplyLeaseToken).

(** ** Beginning a transaction *)

(** Slots that differ in being retired only. *)
Definition same_slot (s s' : TxnSlot) : Prop := s' = mkSlot (ts_use s) (ts_deadline s) (work_refs s) (ts_state s) (ts_serial s) (ts_retired s').
Lemma same_slot_refl s : same_slot s s.
Proof. by destruct s. Qed.
Lemma same_slots_refl ss : Forall2 same_slot ss ss.
Proof. induction ss; constructor; [apply same_slot_refl|done]. Qed.

Definition begun (use : ReplyLeaseToken) (deadline_ms : Z) (i : nat) (ss ss' : list TxnSlot) h : Prop :=
  ∃ j s, h = mkTxn (N.of_nat (i + j)) (ts_serial s + 1) ∧ ss !! j = Some s ∧ is_free s = true ∧ ts_serial s ≠ UINT32_MAX ∧
    Forall2 same_slot (<[j := mkSlot use deadline_ms 0 Committed (ts_serial s + 1) false]> ss) ss'.

Lemma begun_cons use d i s s' ss ss' h : same_slot s s' → begun use d (S i) ss ss' h → begun use d i (s :: ss) (s' :: ss') h.
Proof.
  intros Hss (j & x & -> & Hx & Hf & Hser & Hall). exists (S j), x. split; [do 2 f_equal; lia|]. split; [done|]. split; [done|]. split; [done|].
  change (<[S j := ?v]> (s :: ss)) with (s :: <[j := v]> ss). by constructor.
Qed.

Lemma begin_scan_spec use d ss : ∀ i f r ss' f',
  begin_scan i use d ss f = (r, ss', f') →
  match r with None => Forall2 same_slot ss ss' | Some h => begun use d i ss ss' h end.
Proof.
  induction ss as [|s ss IH]; intros i f r ss' f'; cbn [begin_scan]; [intros [= <- <- <-]; constructor|].
  assert (Hrec : ∀ f0 s' r ss' f', begin_scan (S i) use d ss f0 = (r, ss', f') → same_slot s s' →
    match r with None => Forall2 same_slot (s :: ss) (s' :: ss') | Some h => begun use d i (s :: ss) (s' :: ss') h end).
  { intros f0 s' r0 ss0 f1 Hb Hss. apply IH in Hb. destruct r0; [by apply begun_cons|by constructor]. }
  destruct (is_free s) eqn:Hf; cbn [negb].
  - destruct (ts_retired s) eqn:Hret; [destruct (begin_scan (S i) use d ss true) as [[r0 ss0] f0] eqn:Hb; intros [= <- <- <-]; eapply Hrec; [done|apply same_slot_refl]|].
    unfold next_use_serial. case_bool_decide as Hser.
    + destruct (begin_scan (S i) use d ss true) as [[r0 ss0] f0] eqn:Hb. intros [= <- <- <-]. by eapply Hrec.
    + intros [= <- <- <-]. exists 0%nat, s. rewrite Nat.add_0_r. split; [done|]. split; [done|]. split; [done|]. split; [done|].
      constructor; [by rewrite ?Hret|apply same_slots_refl].
  - destruct (begin_scan (S i) use d ss f) as [[r0 ss0] f0] eqn:Hb. intros [= <- <- <-]. eapply Hrec; [done|apply same_slot_refl].
Qed.

Lemma same_free s s' : same_slot s s' → is_free s' = is_free s ∧ ts_use s' = ts_use s ∧ ts_serial s' = ts_serial s ∧ work_refs s' = work_refs s ∧ ts_deadline s' = ts_deadline s.
Proof. unfold same_slot. by intros ->. Qed.

Lemma same_lookup_r ss ss' i s' : Forall2 same_slot ss ss' → ss' !! i = Some s' → ∃ s, ss !! i = Some s ∧ same_slot s s'.
Proof. intros Hall Hi. by apply (Forall2_lookup_r _ _ _ _ _ Hall Hi). Qed.
Lemma same_lookup_l ss ss' i s : Forall2 same_slot ss ss' → ss !! i = Some s → ∃ s', ss' !! i = Some s' ∧ same_slot s s'.
Proof. intros Hall Hi. by apply (Forall2_lookup_l _ _ _ _ _ Hall Hi). Qed.

Lemma same_inv open debt ss ss' n : Forall2 same_slot ss ss' → txn_inv open debt (set_slots ss n) → txn_inv open debt (set_slots ss' n).
Proof.
  intros Hall [[L1 L2 L3 L4 L5 L6] [C1 C2 C3]]. cbn [txn_slots_ set_slots port_] in *.
  assert (Hlk : ∀ i tok, linked (set_slots ss' n) i tok ↔ linked (set_slots ss n) i tok).
  { intros i tok. unfold linked. cbn. split; intros (s & Hi & Hf & Hu).
    - destruct (same_lookup_r _ _ _ _ Hall Hi) as (x & Hx & (E1 & E2 & _)%same_free). exists x. by rewrite <- E1, <- E2.
    - destruct (same_lookup_l _ _ _ _ Hall Hi) as (x & Hx & (E1 & E2 & _)%same_free). exists x. by rewrite E1, E2. }
  split; split; cbn [txn_slots_ set_slots port_ event_slots_ jobs_]; try done.
  - by rewrite <- (Forall2_length _ _ _ Hall).
  - intros tok. rewrite L4. by setoid_rewrite Hlk.
  - intros i j tok. rewrite !Hlk. apply L5.
  - intros i s' Hi. destruct (same_lookup_r _ _ _ _ Hall Hi) as (x & Hx & (E1 & E2 & _)%same_free). rewrite E1, E2. by apply (L6 i).
  - intros i s' Hi. destruct (same_lookup_r _ _ _ _ Hall Hi) as (x & Hx & (E1 & E2 & E3 & E4 & _)%same_free). rewrite E1, E3, E4. by apply (C2 i).
  - intros h Hh. destruct (C3 h Hh) as [|[s Hs]]; [by left|]. right. apply resolve_txn_Some in Hs as (Hi & Hf & Hser). cbn in Hi.
    destruct (same_lookup_l _ _ _ _ Hall Hi) as (x & Hx & (E1 & E2 & E3 & _)%same_free). exists x. apply resolve_txn_Some. cbn.
    by rewrite E1, E3.
Qed.

Lemma not_invalid i k : (i < kAdmissionTransactionsMax)%nat → 0 < k → mkTxn (N.of_nat i) k ≠ kInvalidTxnHandle.
Proof. intros _ Hk [= _ Heq]. lia. Qed.

Lemma slot_handle i k h : mkTxn (N.of_nat i) k = h → N.to_nat (tx_slot h) = i.
Proof. intros <-. cbn. lia. Qed.

(** A free slot takes over a lease that is not linked yet. *)
Lemma begin_links n p tok j s d serial :
  links_ok n → port_ok p → port_lease (port_ n) tok = None → tok ≠ kInvalidReplyLeaseToken →
  (∀ tok', is_Some (port_lease p tok') ↔ tok' = tok ∨ is_Some (port_lease (port_ n) tok')) →
  txn_slots_ n !! j = Some s → is_free s = true →
  links_ok (put_slot j (mkSlot tok d 0 Committed serial false) (set_port p n)).
Proof.
  intros [L1 L2 L3 L4 L5 L6] Hp Hfresh Hne Hl Hj Hf. set (s1 := mkSlot _ _ _ _ _ _). set (n1 := set_port p n).
  assert (Hlk : ∀ i t, linked (put_slot j s1 n1) i t ↔ (i = j ∧ t = tok) ∨ linked n i t).
  { intros i t. rewrite (linked_put n1 j s s1 i t Hj). change (linked n1 i t) with (linked n i t). case_decide as Hij.
    - subst i. unfold s1. cbn. split; [intros [_ <-]; by left|]. intros [[_ ->]|(x & Hx & Hxf & _)]; [done|]. congruence.
    - split; [by right|]. by intros [[? _]|?]. }
  assert (Hnone : ∀ i, ¬ linked n i tok).
  { intros i Hi. assert (is_Some (port_lease (port_ n) tok)) as [x Hx] by (apply L4; eauto). congruence. }
  split.
  - cbn. by rewrite length_insert.
  - done.
  - cbn. destruct (port_lease p kInvalidReplyLeaseToken) eqn:Hk; [|done].
    assert (is_Some (port_lease p kInvalidReplyLeaseToken)) as [Heq|[x Hx]]%Hl by eauto; congruence.
  - intros t. change (port_ (put_slot j s1 n1)) with p. rewrite Hl, L4. setoid_rewrite Hlk. split.
    + intros [->|[i Hi]]; [exists j; by left|eauto].
    + intros [i [[_ ->]|Hi]]; [by left|eauto].
  - intros a b t [[-> ->]|Ha]%Hlk [[-> Ht]|Hb]%Hlk; [done|by destruct (Hnone b)|subst; by destruct (Hnone a)|by apply (L5 a b t)].
  - intros i x. cbn. destruct (decide (i = j)) as [->|Hij].
    + rewrite list_lookup_insert_eq by (by eapply lookup_lt_Some). by intros [= <-].
    + rewrite list_lookup_insert_ne by done. apply L6.
Qed.

Lemma begin_counts n p tok j s d :
  counts_ok None None n → txn_slots_ n !! j = Some s → is_free s = true → ts_serial s ≠ UINT32_MAX →
  counts_ok (Some (j, 0)) None (put_slot j (mkSlot tok d 0 Committed (ts_serial s + 1) false) (set_port p n)).
Proof.
  intros [C1 C2 C3] Hj Hf Hmax. set (h := mkTxn (N.of_nat j) (ts_serial s + 1)). set (s1 := mkSlot _ _ _ _ _ _).
  assert (Hdead : resolve_txn h n = None).
  { destruct (resolve_txn h n) as [x|] eqn:Hr; [|done]. apply resolve_txn_Some in Hr as (Hx & Hxf & _). cbn in Hx.
    rewrite Nat2N.id, Hj in Hx. injection Hx as <-. congruence. }
  destruct (C2 j s Hj) as (Hs0 & _ & _).
  assert (Hw : work_of h n = 0).
  { pose proof (work_of_nonneg h n). destruct (decide (0 < work_of h n)) as [Hlt|]; [|lia].
    destruct (C3 h) as [Heq|[x Hx]]; [cbn; lia| |congruence]. exfalso. injection Heq as _ Heq. lia. }
  split; [done| |].
  - intros i x. cbn [txn_slots_ put_slot set_slots set_port]. destruct (decide (i = j)) as [->|Hne].
    + rewrite list_lookup_insert_eq by (by eapply lookup_lt_Some). intros [= <-]. cbn. split; [lia|]. split; [done|]. intros _. split; [lia|].
      fold h. rewrite decide_True by done. change (work_of h (put_slot j s1 (set_port p n))) with (work_of h n). lia.
    + rewrite list_lookup_insert_ne by done. intros Hx. destruct (C2 i x Hx) as (E1 & E2 & E3). split; [done|]. split; [done|].
      intros Hxf. destruct (E3 Hxf) as (E4 & E5 & E6). split; [done|]. split; [done|]. cbn [bounded] in *. by rewrite decide_False.
  - intros h' Hh'. cbn [owed] in Hh'. change (work_of h' (put_slot j s1 (set_port p n))) with (work_of h' n) in Hh'.
    destruct (C3 h') as [|[x Hx]]; [cbn; lia|by left|]. right. rewrite (resolve_put h' (set_port p n) j s s1 Hj). case_decide as Hsl; [|eauto].
    apply resolve_txn_Some in Hx as (Hx & Hxf & _). rewrite Hsl, Hj in Hx. injection Hx as <-. congruence.
Qed.

(** ** Reservations *)

Lemma close_open k b n :
  txn_inv (Some (k, b)) None n → (∀ s, txn_slots_ n !! k = Some s → is_free s = false → 1 ≤ work_refs s ≤ 3) → txn_inv None None n.
Proof.
  intros [Hl [C1 C2 C3]] Hk. split; [done|]. split; [done| |done]. intros i s Hi. destruct (C2 i s Hi) as (E1 & E2 & E3).
  split; [done|]. split; [done|]. intros Hf. destruct (E3 Hf) as (E4 & E5 & E6). split; [done|]. split; [done|]. cbn [bounded] in *.
  case_decide; [subst; by apply Hk|done].
Qed.

Lemma rollback_inv k b h n s :
  N.to_nat (tx_slot h) = k → h ≠ kInvalidTxnHandle → txn_inv (Some (k, b)) None n → resolve_txn h n = Some s → work_refs s = 0 →
  txn_inv None None (rollback (ts_use s) h n).
Proof.
  intros Hk Hh [Hl Hc] Hr Hz. unfold rollback. rewrite bool_decide_eq_false_2 by done. cbn [negb]. rewrite Hr, bool_decide_eq_true_2 by done.
  pose proof Hr as (Hi & Hf & Hs)%resolve_txn_Some. split; [by apply (links_free n _ s)|].
  destruct (ct_slot _ _ _ Hc _ s Hi) as (_ & _ & H3). destruct (H3 Hf) as (_ & Href & _). rewrite Hs, handle_eta in Href. cbn [owed] in Href.
  eapply (counts_free (Some (k, b)) None None n _ h s); try done; try (by apply release_use_slots); [lia|].
  intros i r Hne. rewrite Hk in Hne. cbn [bounded]. by rewrite decide_False.
Qed.

Lemma port_frame n p : txn_inv None None n → port_ok p → (∀ tok, is_Some (port_lease p tok) ↔ is_Some (port_lease (port_ n) tok)) →
  txn_inv None None (set_port p n).
Proof.
  intros [[L1 L2 L3 L4 L5 L6] Hc] Hp Hl. split; [|by destruct Hc; split]. split; try done; cbn [port_ set_port].
  - destruct (port_lease p kInvalidReplyLeaseToken) eqn:Hk; [|done].
    assert (is_Some (port_lease p kInvalidReplyLeaseToken)) as Hs%Hl by eauto. rewrite L3 in Hs. by apply is_Some_None in Hs.
  - intros tok. rewrite Hl. apply L4.
Qed.

(** Giving an unlinked lease back. *)
Lemma unlinked_release n p tok :
  txn_inv None None n → port_ok p → port_lease (port_ n) tok = None → tok ≠ kInvalidReplyLeaseToken →
  (∀ tok', is_Some (port_lease p tok') ↔ tok' = tok ∨ is_Some (port_lease (port_ n) tok')) →
  txn_inv None None (release_use tok (set_port p n)).
Proof.
  intros Hn Hp Hfresh Hne Hl. unfold release_use. rewrite bool_decide_eq_false_2 by done.
  destruct (port_release tok (port_ (set_port p n))) as [r p'] eqn:Hr. destruct (release_drops _ _ _ _ Hp Hr) as [Hp' Hl'].
  apply (port_frame n p' Hn Hp'). intros t. rewrite Hl', Hl. split; [by intros [? [?|?]]|]. intros Ht. split; [|by right].
  intros ->. rewrite Hfresh in Ht. by apply is_Some_None in Ht.
Qed.

(** A reservation that succeeded, open with no work yet. *)
Record reserved (now : Z) n h (use : ReplyLeaseToken) n1 : Prop := {
  rs_inv : txn_inv (Some (N.to_nat (tx_slot h), 0)) None n1;
  rs_valid : h ≠ kInvalidTxnHandle;
  rs_slot : ∃ s, resolve_txn h n1 = Some s ∧ work_refs s = 0 ∧ ts_use s = use ∧ now < ts_deadline s;
  rs_begun : ∃ d, begun use d 0 (txn_slots_ n) (txn_slots_ n1) h;
  rs_frame : jobs_ n1 = jobs_ n ∧ event_slots_ n1 = event_slots_ n }.

Lemma begin_reserved now n p tok d h ss :
  txn_inv None None n → port_ok p → port_lease (port_ n) tok = None → tok ≠ kInvalidReplyLeaseToken →
  (∀ tok', is_Some (port_lease p tok') ↔ tok' = tok ∨ is_Some (port_lease (port_ n) tok')) → now < d →
  begun tok d 0 (txn_slots_ n) ss h → reserved now n h tok (set_slots ss (set_port p n)).
Proof.
  intros [Hl Hc] Hp Hfresh Hne Hiff Hd Hb. pose proof Hb as (j & s & -> & Hj & Hf & Hmax & Hall). cbn [Nat.add] in *.
  pose proof (begin_links n p tok j s d (ts_serial s + 1) Hl Hp Hfresh Hne Hiff Hj Hf) as Hl1.
  pose proof (begin_counts n p tok j s d Hc Hj Hf Hmax) as Hc1. destruct (ct_slot _ _ _ Hc j s Hj) as (Hs0 & _).
  assert (Hinv : txn_inv (Some (j, 0)) None (set_slots ss (set_port p n))) by (by eapply same_inv; [exact Hall|split]).
  split.
  - cbn [tx_slot]. by rewrite Nat2N.id.
  - intros [= _ Heq]. lia.
  - assert (Hlk : <[j := mkSlot tok d 0 Committed (ts_serial s + 1) false]> (txn_slots_ n) !! j = Some (mkSlot tok d 0 Committed (ts_serial s + 1) false)).
    { apply list_lookup_insert_eq. by eapply lookup_lt_Some. }
    destruct (same_lookup_l _ _ _ _ Hall Hlk) as (x & Hx & (E1 & E2 & E3 & E4 & E5)%same_free). exists x. cbn in *.
    split; [|by rewrite E2, E4, E5]. apply resolve_txn_Some. cbn. by rewrite Nat2N.id, E1, E3.
  - by exists d.
  - done.
Qed.

Lemma reserve_reply_spec g b deadline now n r use n1 :
  txn_inv None None n → reserve_rx_reply g b deadline now n = (r, use, n1) →
  match r with
  | Err _ _ => txn_inv None None (rollback use kInvalidTxnHandle n1) ∧ Forall2 same_slot (txn_slots_ n) (txn_slots_ n1) ∧
               jobs_ n1 = jobs_ n ∧ event_slots_ n1 = event_slots_ n
  | Ok h => reserved now n h use n1
  end.
Proof.
  intros Hn. assert (Hsame : Forall2 same_slot (txn_slots_ n) (txn_slots_ n)) by apply same_slots_refl.
  unfold reserve_rx_reply. destruct (negb (rx_valid g)); [by intros [= <- <- <-]|]. destruct (bool_decide (now < _)); [by intros [= <- <- <-]|].
  destruct (_ && _); [by intros [= <- <- <-]|]. destruct (_ <? _)%nat; [by intros [= <- <- <-]|]. destruct (negb (txn_slot_available n)); [by intros [= <- <- <-]|].
  case_bool_decide as Httl; [by intros [= <- <- <-]|]. cbv zeta. set (d := Z.min _ _). pose proof Hn as [Hl _].
  destruct (port_acquire b d now (port_ n)) as [[tok|c e] p] eqn:Ha.
  2: { intros [= <- <- <-]. destruct (acquire_refused _ _ _ _ _ _ _ (lk_port _ Hl) Ha) as [Hp Hlp].
       change (rollback kInvalidReplyLeaseToken kInvalidTxnHandle (set_port p n)) with (set_port p n). split; [|done].
       apply port_frame; [done|done|]. intros t. by rewrite Hlp. }
  destruct (acquire_granted _ _ _ _ _ _ (lk_port _ Hl) Ha) as (Hp & Hfresh & Hne & Hd & Hiff).
  unfold begin_txn. destruct (begin_scan 0 tok d (txn_slots_ (set_port p n)) false) as [[o ss] f] eqn:Hb.
  apply begin_scan_spec in Hb. cbn [txn_slots_ set_port] in Hb. destruct o as [h|].
  - intros [= <- <- <-]. by eapply begin_reserved.
  - intros E. assert (Hr : ∃ c e, r = Err c e ∧ use = tok ∧ n1 = set_slots ss (set_port p n)) by (destruct f; injection E as <- <- <-; eauto).
    destruct Hr as (c & e & -> & -> & ->). split; [|done]. change (rollback tok kInvalidTxnHandle ?m) with (release_use tok m).
    pose proof (unlinked_release n p tok Hn Hp Hfresh Hne Hiff) as Hrel. unfold release_use in *. rewrite bool_decide_eq_false_2 in * by done.
    cbn [port_ set_slots set_port] in *. by apply (same_inv None None (txn_slots_ n) ss (set_port _ n)).
Qed.

(** ** Admission *)

Lemma live_refs k b h n s : N.to_nat (tx_slot h) = k → txn_inv (Some (k, b)) None n → resolve_txn h n = Some s → 1 ≤ work_refs s → b ≤ 3 → txn_inv None None n.
Proof.
  intros Hk Hn Hr H1 Hb. apply (close_open k b n Hn). intros x Hx Hf. pose proof Hr as (Hi & Hfs & Hs)%resolve_txn_Some. rewrite Hk in Hi.
  rewrite Hi in Hx. injection Hx as <-. destruct Hn as [_ Hc]. destruct (ct_slot _ _ _ Hc k s Hi) as (_ & _ & H3).
  destruct (H3 Hfs) as (_ & _ & Hbd). cbn [bounded] in Hbd. rewrite decide_True in Hbd by done. lia.
Qed.

(** The job of an admission that is taken back. *)
Lemma undo_inv h n s use :
  txn_inv (Some (N.to_nat (tx_slot h), 1)) None n → h ≠ kInvalidTxnHandle → resolve_txn h n = Some s → work_refs s = 1 →
  jobs_ n = mkJob InScheduler h :: tail (jobs_ n) →
  txn_inv None None (rollback use h (match remove_first (λ j, bool_decide (j_place j = InScheduler) && bool_decide (j_txn j = h)) (jobs_ n) with
                      | Some (j, js) => finish_txn_work (j_txn j) (set_jobs js n)
                      | None => n
                      end)).
Proof.
  intros Hn Hh Hr H1 Hjobs. unfold remove_first. rewrite Hjobs. cbn [list_find].
  rewrite decide_True by (by rewrite !bool_decide_eq_true_2). cbn [j_txn delete list_delete].
  assert (Hj0 : jobs_ n !! 0%nat = Some (mkJob InScheduler h)) by (by rewrite Hjobs).
  pose proof (end_inv _ n 0 _ Hj0 Hn) as Hend. rewrite Hjobs in Hend. cbn [j_txn delete list_delete] in Hend. set (m := finish_txn_work h _) in *.
  assert (Hm : ∃ y, txn_slots_ m !! N.to_nat (tx_slot h) = Some y ∧ is_free y = true).
  { unfold m, finish_txn_work. change (resolve_txn h (set_jobs (tail (jobs_ n)) n)) with (resolve_txn h n). rewrite Hr. cbv zeta.
    rewrite (bool_decide_eq_true_2 (0 < work_refs s)) by lia. cbn [work_refs with_refs]. rewrite bool_decide_eq_true_2 by lia. cbn [negb].
    pose proof Hr as (Hi & _)%resolve_txn_Some. eexists. cbn [put_slot set_slots txn_slots_]. rewrite (proj1 (release_use_slots _ _)).
    rewrite list_lookup_insert_eq by (by eapply lookup_lt_Some). done. }
  destruct Hm as (y & Hy & Hfy). unfold rollback. rewrite bool_decide_eq_false_2 by done. cbn [negb].
  assert (Hdead : resolve_txn h m = None) by (unfold resolve_txn; by rewrite lookup_u32_eq, Hy, Hfy).
  rewrite Hdead. apply (close_open _ 1 m Hend). intros x Hx Hf. congruence.
Qed.

Lemma admit_inv a now n : txn_inv None None n → txn_inv None None (run_admission a now n).
Proof.
  intros Hn. unfold run_admission. destruct (reserve_rx_reply _ _ _ now n) as [[r use] n1] eqn:Hr. apply reserve_reply_spec in Hr; [|done].
  destruct r as [h|c d]; [|by destruct Hr]. destruct Hr as [Hinv Hh (s & Hs & H0' & <- & Hd) _ _].
  destruct (ad_first a); cbn [negb]; [|by apply (rollback_inv (N.to_nat (tx_slot h)) 0 h n1 s)].
  destruct (queue_job_inv _ 0 h n1 s eq_refl ltac:(lia) Hinv Hs) as [Hinv2 Hs2]. rewrite H0' in Hs2. cbv zeta.
  assert (Hrest : ∀ n3 s3 b, 1 ≤ b ≤ 2 → txn_inv (Some (N.to_nat (tx_slot h), b)) None n3 → resolve_txn h n3 = Some s3 → 1 ≤ work_refs s3 →
    txn_inv None None (if ad_event a then publish_component_event h n3 else n3)).
  { intros n3 s3 b Hb Hn3 Hs3 H1. destruct (ad_event a); [|by eapply live_refs; eauto; lia].
    destruct (publish_inv _ b h n3 s3 eq_refl ltac:(lia) Hh Hn3 Hs3) as (b' & Hb' & Hn4 & s4 & Hs4 & H4).
    eapply (live_refs _ b' h _ s4); eauto; lia. }
  assert (Hone : txn_inv None None (if ad_event a then publish_component_event h (queue_job h n1) else queue_job h n1)) by (eapply (Hrest _ _ 1); eauto; cbn; lia).
  destruct (ad_second a) as [[[] []]|]; [| | |done|done].
  1-2: destruct (queue_job_inv _ 1 h _ _ eq_refl ltac:(lia) Hinv2 Hs2) as [Hinv3 Hs3]; eapply (Hrest _ _ 2); eauto; cbn; lia.
  eapply undo_inv; [exact Hinv2|done|exact Hs2|done|].
  unfold queue_job, join_txn. destruct (resolve_txn h _) as [x|]; [destruct (bool_decide (work_refs x < UINT8_MAX))|]; reflexivity.
Qed.
End Admit.
