(* ===== verification/TransactionsSweep.v ===== *)
(** * The transaction sweep

    Dropping the work of a closed transaction terminates and is complete,
    although failed jobs may start reports with transactions of their own. *)

From S2P Require Import Prelude Types ReplyLeases ReplyLeasesProps ReplyLeasesRun Transactions TransactionsInv TransactionsProps TransactionsAdmit.

Section Sweep.
Context {P : Type} `{ReplyPortLaws P}.
Implicit Types (n : Node P) (h : TxnHandle) (tok : ReplyLeaseToken).

(** ** What later operations leave alone *)

Definition issued h n : Prop := ∃ s, txn_slots_ n !! N.to_nat (tx_slot h) = Some s ∧ tx_serial h ≤ ts_serial s.

(** Work of issued handles, except [ex], does not grow, and transactions that
    are due at [now] were there before. *)
Record grows (ex : option TxnHandle) (now : Z) n n' : Prop := {
  g_serial : ∀ i s, txn_slots_ n !! i = Some s → ∃ s', txn_slots_ n' !! i = Some s' ∧ ts_serial s ≤ ts_serial s';
  g_due : ∀ i s', txn_slots_ n' !! i = Some s' → is_free s' = false → ts_deadline s' ≤ now →
    ∃ s, txn_slots_ n !! i = Some s ∧ is_free s = false ∧ ts_serial s = ts_serial s' ∧ ts_deadline s ≤ now;
  g_jobs : ∀ place h, issued h n → ex ≠ Some h → (jcount place h (jobs_ n') ≤ jcount place h (jobs_ n))%nat;
  g_events : ∀ h, issued h n → ex ≠ Some h → (qcount h (event_slots_ n') ≤ qcount h (event_slots_ n))%nat }.

Lemma issued_grows ex now n n' h : grows ex now n n' → issued h n → issued h n'.
Proof. intros [G1 _ _ _] (s & Hs & Hle). destruct (G1 _ s Hs) as (s' & Hs' & Hle'). exists s'. split; [done|lia]. Qed.

Lemma grows_refl ex now n : grows ex now n n.
Proof. split; [intros i s Hs; exists s; split; [done|lia]|eauto 10|done|done]. Qed.
Lemma grows_trans ex now n1 n2 n3 : grows ex now n1 n2 → grows ex now n2 n3 → grows ex now n1 n3.
Proof.
  intros G12 G23. pose proof G12 as [A1 A2 A3 A4]. pose proof G23 as [B1 B2 B3 B4]. split.
  - intros i s Hs. destruct (A1 i s Hs) as (s2 & H2 & L2). destruct (B1 i s2 H2) as (s3 & H3 & L3). exists s3. split; [done|lia].
  - intros i s3 H3 F3 D3. destruct (B2 i s3 H3 F3 D3) as (s2 & H2 & F2 & E2 & D2). destruct (A2 i s2 H2 F2 D2) as (s1 & H1 & F1 & E1 & D1).
    exists s1. split_and!; [done|done|congruence|lia].
  - intros place h Hi Hex. pose proof (issued_grows _ _ _ _ _ G12 Hi). etransitivity; [by apply B3|by apply A3].
  - intros h Hi Hex. pose proof (issued_grows _ _ _ _ _ G12 Hi). etransitivity; [by apply B4|by apply A4].
Qed.
(** A handle that is new needs no exemption. *)
Lemma grows_new h now n n1 n2 : grows None now n n1 → ¬ issued h n → grows (Some h) now n1 n2 → grows None now n n2.
Proof.
  intros G1 Hh G2. assert (G1' : grows (Some h) now n n1) by (destruct G1 as [A1 A2 A3 A4]; split; [done|done|by intros; apply A3|by intros; apply A4]).
  destruct (grows_trans _ _ _ _ _ G1' G2) as [B1 B2 B3 B4]. split; [done|done| |].
  - intros place h' Hi _. apply B3; [done|]. intros [= ->]. done.
  - intros h' Hi _. apply B4; [done|]. intros [= ->]. done.
Qed.
Lemma grows_weaken h now n n' : grows None now n n' → grows (Some h) now n n'.
Proof. intros [A1 A2 A3 A4]. split; [done|done|by intros; apply A3|by intros; apply A4]. Qed.

(** A slot that keeps serial and deadline, or is freed. *)
Lemma grows_put ex now n n0 i s s' :
  txn_slots_ n0 = txn_slots_ n → jobs_ n0 = jobs_ n → event_slots_ n0 = event_slots_ n →
  txn_slots_ n !! i = Some s → ts_serial s' = ts_serial s → (is_free s' = false → is_free s = false ∧ ts_deadline s' = ts_deadline s) →
  grows ex now n (put_slot i s' n0).
Proof.
  intros Hsl Hj He Hi Hser Hf. split.
  - intros k x Hx. cbn. rewrite Hsl. destruct (decide (k = i)) as [->|Hne].
    + exists s'. rewrite list_lookup_insert_eq by (by eapply lookup_lt_Some). split; [done|]. rewrite Hi in Hx. injection Hx as <-. lia.
    + exists x. by rewrite list_lookup_insert_ne.
  - intros k x. cbn. rewrite Hsl. destruct (decide (k = i)) as [->|Hne].
    + rewrite list_lookup_insert_eq by (by eapply lookup_lt_Some). intros [= <-] Hfx Hd. destruct (Hf Hfx) as [Hfs Hds].
      exists s. split_and!; [done|done|done|lia].
    + rewrite list_lookup_insert_ne by done. eauto 10.
  - intros place h _ _. cbn. by rewrite Hj.
  - intros h _ _. cbn. by rewrite He.
Qed.

Lemma grows_finish ex now h n : grows ex now n (finish_txn_work h n).
Proof.
  unfold finish_txn_work. destruct (resolve_txn h n) as [s|] eqn:Hr; [|apply grows_refl]. apply resolve_txn_Some in Hr as (Hi & Hf & _).
  cbv zeta. destruct (release_use_slots (ts_use s) n) as (E1 & E2 & E3). destruct (bool_decide (0 < work_refs s)); destruct (negb _);
    (eapply grows_put; [exact E1 || reflexivity|exact E3 || reflexivity|exact E2 || reflexivity|done|done|done]).
Qed.

Lemma grows_work ex now n n' :
  txn_slots_ n' = txn_slots_ n →
  (∀ place h, ex ≠ Some h → (jcount place h (jobs_ n') ≤ jcount place h (jobs_ n))%nat) →
  (∀ h, ex ≠ Some h → (qcount h (event_slots_ n') ≤ qcount h (event_slots_ n))%nat) → grows ex now n n'.
Proof. intros Hs Hj He. split; rewrite ?Hs; [intros i s Hi; exists s; split; [done|lia]|eauto 10|auto|auto]. Qed.

Lemma grows_join ex now h n : grows ex now n (join_txn h n).
Proof.
  unfold join_txn. destruct (resolve_txn h n) as [s|] eqn:Hr; [|apply grows_refl]. apply resolve_txn_Some in Hr as (Hi & Hf & _).
  case_bool_decide; [|apply grows_refl]. by eapply grows_put.
Qed.

Lemma grows_queue now h n : grows (Some h) now n (queue_job h n).
Proof.
  unfold queue_job. eapply grows_trans; [|apply grows_join]. apply grows_work; [done| |done]. intros place h' Hne.
  unfold jcount. cbn [jobs_ set_jobs]. rewrite filter_cons, decide_False; [done|]. cbn. intros [_ ->]. done.
Qed.

Lemma grows_publish now h n : grows (Some h) now n (publish_component_event h n).
Proof.
  unfold publish_component_event. destruct (publish_scan h (event_slots_ n)) as [b es] eqn:Hp. apply publish_scan_spec in Hp as [_ Hc].
  assert (G : grows (Some h) now n (set_events es n)).
  { apply grows_work; [done|done|]. intros h' Hne. cbn [event_slots_ set_events]. rewrite (proj2 (Hc h')).
    destruct b; [|lia]. rewrite decide_False; [lia|congruence]. }
  destruct (_ && _); [|done]. eapply grows_trans; [exact G|apply grows_join].
Qed.

Lemma grows_rollback ex now use h n : grows ex now n (rollback use h n).
Proof.
  assert (Hrel : ∀ m, grows ex now m (release_use use m)).
  { intros m. destruct (release_use_slots use m) as (E1 & E2 & E3). apply grows_work; [done|by rewrite E3|by rewrite E2]. }
  unfold rollback. destruct (negb _); [|apply Hrel]. destruct (resolve_txn h n) as [s|] eqn:Hr; [|apply grows_refl].
  case_bool_decide; [|apply grows_refl]. apply resolve_txn_Some in Hr as (Hi & _). destruct (release_use_slots use n) as (E1 & E2 & E3). by eapply grows_put.
Qed.

Lemma grows_same ex now n n1 :
  Forall2 same_slot (txn_slots_ n) (txn_slots_ n1) → jobs_ n1 = jobs_ n → event_slots_ n1 = event_slots_ n → grows ex now n n1.
Proof.
  intros Hall Hj He. split.
  - intros i s Hs. destruct (same_lookup_l _ _ _ _ Hall Hs) as (s' & Hs' & (_ & _ & E & _)%same_free). exists s'. split; [done|lia].
  - intros i s' Hs' Hf Hd. destruct (same_lookup_r _ _ _ _ Hall Hs') as (s & Hs & (E1 & _ & E2 & _ & E3)%same_free). exists s.
    split_and!; [done|congruence|done|lia].
  - by rewrite Hj.
  - by rewrite He.
Qed.

(** The handle of a reservation was not issued before, and is not due. *)
Lemma grows_reserved now n h use n1 : reserved now n h use n1 → grows None now n n1 ∧ ¬ issued h n.
Proof.
  intros [_ _ (s1 & Hs1 & _ & _ & Hdue) (d & j & s & -> & Hj & Hf & Hmax & Hall) [Ej Ee]]. cbn [Nat.add] in *. split.
  - apply resolve_txn_Some in Hs1 as (Hs1 & _). cbn in Hs1. rewrite Nat2N.id in Hs1. split.
    + intros i x Hx. destruct (decide (i = j)) as [->|Hne].
      * rewrite Hj in Hx. injection Hx as <-. exists s1. split; [done|].
        assert (Hl : (j < length (txn_slots_ n))%nat) by (by eapply lookup_lt_Some).
        destruct (same_lookup_r _ _ _ _ Hall Hs1) as (y & Hy & (_ & _ & E & _)%same_free). rewrite list_lookup_insert_eq in Hy by done.
        injection Hy as <-. cbn in E. lia.
      * destruct (same_lookup_l _ _ i x Hall) as (y & Hy & (_ & _ & E & _)%same_free); [by rewrite list_lookup_insert_ne|]. exists y. split; [done|lia].
    + intros i x Hx Hxf Hd. destruct (decide (i = j)) as [->|Hne]; [rewrite Hs1 in Hx; injection Hx as <-; lia|].
      destruct (same_lookup_r _ _ _ _ Hall Hx) as (y & Hy & (E1 & _ & E2 & _ & E3)%same_free). rewrite list_lookup_insert_ne in Hy by done.
      exists y. split_and!; [done|congruence|done|lia].
    + by rewrite Ej.
    + by rewrite Ee.
  - intros (x & Hx & Hle). cbn in Hx, Hle. rewrite Nat2N.id, Hj in Hx. injection Hx as <-. lia.
Qed.

Lemma grows_remove ex now n js i j : jobs_ n !! i = Some j → js = delete i (jobs_ n) → grows ex now n (set_jobs js n).
Proof.
  intros Hi ->. apply grows_work; [done| |done]. intros place h _. unfold jcount. cbn [jobs_ set_jobs].
  rewrite (filter_delete _ _ i j Hi). lia.
Qed.

Lemma admit_grows a now n : txn_inv None None n → grows None now n (run_admission a now n).
Proof.
  intros Hn. unfold run_admission. destruct (reserve_rx_reply _ _ _ now n) as [[r use] n1] eqn:Hr. apply reserve_reply_spec in Hr; [|done]. destruct r as [h|c d].
  2: { destruct Hr as (_ & Hall & Hj & He). eapply grows_trans; [by apply grows_same|apply grows_rollback]. }
  apply grows_reserved in Hr as [G1 Hh]. destruct (ad_first a); cbn [negb]; [|eapply grows_trans; [exact G1|apply grows_rollback]].
  apply (grows_new h _ _ _ _ G1 Hh). cbv zeta.
  assert (G2 : grows (Some h) now n1 (queue_job h n1)) by apply grows_queue.
  assert (Hpub : ∀ m, grows (Some h) now n1 m → grows (Some h) now n1 (if ad_event a then publish_component_event h m else m)).
  { intros m Gm. destruct (ad_event a); [|done]. eapply grows_trans; [exact Gm|apply grows_publish]. }
  destruct (ad_second a) as [[[] []]|].
  1-2: apply Hpub; eapply grows_trans; [exact G2|apply grows_queue].
  2,3: by apply Hpub.
  eapply grows_trans; [exact G2|]. eapply grows_trans; [|apply grows_rollback].
  destruct (remove_first _ (jobs_ (queue_job h n1))) as [[j js]|] eqn:Hrm; [|apply grows_refl].
  apply remove_first_spec in Hrm as (i & Hij & Hjs & _). eapply grows_trans; [by eapply grows_remove|apply grows_finish].
Qed.

(** ** Ending jobs and events *)

Lemma filter_insert {A} (Q : A → Prop) `{∀ x, Decision (Q x)} (l : list A) i x y :
  l !! i = Some x →
  (length (filter Q (<[i := y]> l)) + (if decide (Q x) then 1 else 0) = length (filter Q l) + if decide (Q y) then 1 else 0)%nat.
Proof.
  revert i. induction l as [|z l IH]; intros [|i] Hi; try done; cbn in Hi.
  - injection Hi as ->. cbn [insert list_insert]. rewrite !filter_cons. destruct (decide (Q x)), (decide (Q y)); cbn [length]; lia.
  - change (<[S i := y]> (z :: l)) with (z :: <[i := y]> l). rewrite !filter_cons. specialize (IH i Hi). destruct (decide (Q z)); cbn [length]; lia.
Qed.

Lemma end_job_spec n i j report now :
  jobs_ n !! i = Some j → txn_inv None None n →
  let n' := end_job (j_txn j) report now (set_jobs (delete i (jobs_ n)) n) in txn_inv None None n' ∧ grows None now (set_jobs (delete i (jobs_ n)) n) n'.
Proof.
  intros Hi Hn. pose proof (end_inv None n i j Hi Hn) as Hf. cbv zeta. unfold end_job. cbv zeta. destruct report as [a|].
  - split; [by apply admit_inv|]. eapply grows_trans; [apply grows_finish|by apply admit_grows].
  - split; [done|apply grows_finish].
Qed.

Lemma drop_jobs_spec place h now : ∀ fuel reports n,
  txn_inv None None n → issued h n → (jcount place h (jobs_ n) ≤ fuel)%nat →
  let n' := snd (drop_jobs fuel place h reports now n) in
  txn_inv None None n' ∧ grows None now n n' ∧ jcount place h (jobs_ n') = 0%nat.
Proof.
  induction fuel as [|fuel IH]; intros reports n Hn Hh Hc; cbn [drop_jobs]; [cbn; split_and!; [done|apply grows_refl|lia]|].
  destruct (remove_first _ (jobs_ n)) as [[j js]|] eqn:Hrm.
  - apply remove_first_spec in Hrm as (i & Hi & -> & Hp). apply andb_true_iff in Hp as [Hpl%bool_decide_eq_true Htx%bool_decide_eq_true].
    set (n1 := set_jobs (delete i (jobs_ n)) n). destruct (end_job_spec n i j (mjoin (head reports)) now Hi Hn) as [Hn2 G2]. fold n1 in Hn2, G2.
    set (n2 := end_job _ _ _ _) in *. assert (G1 : grows None now n n1) by (by eapply grows_remove).
    pose proof (grows_trans _ _ _ _ _ G1 G2) as G. assert (Hcnt : (jcount place h (jobs_ n2) ≤ fuel)%nat).
    { etransitivity; [apply (g_jobs _ _ _ _ G2); [by eapply issued_grows|done]|]. unfold jcount in *. cbn [n1 jobs_ set_jobs].
      rewrite (filter_delete _ _ i j Hi), decide_True in Hc by done. lia. }
    destruct (IH (tail reports) n2 Hn2 (issued_grows _ _ _ _ _ G Hh) Hcnt) as (Hn' & G' & Hz). split_and!; [done| |done].
    by eapply grows_trans.
  - cbn [snd]. split; [done|]. split; [apply grows_refl|]. apply count_zero. intros j Hin [<- <-]. pose proof (remove_first_None _ _ Hrm j Hin) as Hb. cbn in Hb. by rewrite !bool_decide_eq_true_2 in Hb.
Qed.

Lemma free_event_inv n i e :
  event_slots_ n !! i = Some e → ev_state e ≠ EFree → txn_inv None None n →
  txn_inv None None (finish_txn_work (ev_txn e) (set_events (<[i := free_of_event e]> (event_slots_ n)) n)).
Proof.
  intros Hi He [Hl Hc]. apply finish_inv. split; [by destruct Hl; split|]. apply (counts_work None n _ (ev_txn e) 1); [done|done|cbn; by rewrite length_insert|].
  intros h'. unfold work_of, event_count. cbn [jobs_ set_events event_slots_].
  pose proof (filter_insert (λ e, ev_state e ≠ EFree ∧ ev_txn e = h') (event_slots_ n) i e (free_of_event e) Hi) as Hf. cbv beta in Hf.
  rewrite (decide_False (P := ev_state (free_of_event e) ≠ EFree ∧ _)) in Hf by (by intros [? _]).
  destruct (decide (ev_txn e = h')) as [Heq|Hne].
  - rewrite decide_True in Hf by done. lia.
  - rewrite decide_False in Hf by (by intros [_ ?]). lia.
Qed.

Lemma grows_free_event ex now n i e : event_slots_ n !! i = Some e → grows ex now n (set_events (<[i := free_of_event e]> (event_slots_ n)) n).
Proof.
  intros Hi. apply grows_work; [done|done|]. intros h _. unfold qcount. cbn [event_slots_ set_events].
  pose proof (filter_insert (λ e, ev_state e = EQueued ∧ ev_txn e = h) (event_slots_ n) i e (free_of_event e) Hi) as Hf. cbv beta in Hf.
  rewrite (decide_False (P := ev_state (free_of_event e) = EQueued ∧ _)) in Hf by (by intros [? _]). lia.
Qed.

Lemma finish_txn_frame h n : event_slots_ (finish_txn_work h n) = event_slots_ n ∧ jobs_ (finish_txn_work h n) = jobs_ n.
Proof.
  unfold finish_txn_work. destruct (resolve_txn h n) as [s|]; [|done]. cbv zeta. destruct (negb _); [done|].
  destruct (release_use_slots (ts_use s) n) as (_ & E2 & E3). cbn. by rewrite E2, E3.
Qed.

Lemma drop_events_spec h now : ∀ k i n,
  txn_inv None None n →
  let n' := drop_events k i h n in
  txn_inv None None n' ∧ grows None now n n' ∧ jobs_ n' = jobs_ n ∧
  (∀ j, (j < i)%nat → event_slots_ n' !! j = event_slots_ n !! j) ∧
  (∀ j e, (i ≤ j < i + k)%nat → event_slots_ n' !! j = Some e → ¬ (ev_state e = EQueued ∧ ev_txn e = h)).
Proof.
  induction k as [|k IH]; intros i n Hn; cbn [drop_events]; [split_and!; [done|apply grows_refl|done|done|lia]|].
  destruct (event_slots_ n !! i) as [e|] eqn:Hi.
  2: { split_and!; [done|apply grows_refl|done|done|]. intros j e Hj He. apply lookup_ge_None in Hi. apply lookup_lt_Some in He. lia. }
  destruct (bool_decide (ev_state e = EQueued) && bool_decide (ev_txn e = h)) eqn:Hb.
  - apply andb_true_iff in Hb as [Hq%bool_decide_eq_true Ht%bool_decide_eq_true]. subst h.
    assert (Hnf : ev_state e ≠ EFree) by congruence. pose proof (free_event_inv n i e Hi Hnf Hn) as Hn1. pose proof (grows_free_event None now n i e Hi) as G1.
    set (n1 := finish_txn_work _ _) in *. destruct (finish_txn_frame (ev_txn e) (set_events (<[i := free_of_event e]> (event_slots_ n)) n)) as [Ee Ej]. fold n1 in Ee, Ej.
    destruct (IH (S i) n1 Hn1) as (A1 & A2 & A3 & A4 & A5). split_and!; [done| | | |].
    + eapply grows_trans; [exact G1|]. eapply grows_trans; [apply grows_finish|exact A2].
    + by rewrite A3, Ej.
    + intros j Hj. rewrite A4, Ee by lia. cbn. by rewrite list_lookup_insert_ne by lia.
    + intros j x Hj. destruct (decide (j = i)) as [->|Hne]; [|apply A5; lia]. rewrite A4, Ee by lia. cbn.
      rewrite list_lookup_insert_eq by (by eapply lookup_lt_Some). intros [= <-]. by intros [? _].
  - destruct (IH (S i) n Hn) as (A1 & A2 & A3 & A4 & A5). split_and!; [done|done|done| |].
    + intros j Hj. apply A4. lia.
    + intros j x Hj. destruct (decide (j = i)) as [->|Hne]; [|apply A5; lia]. rewrite A4 by lia. rewrite Hi. intros [= <-] [Hq Ht].
      by rewrite !bool_decide_eq_true_2 in Hb.
Qed.

(** ** One slot, and all of them *)

(** A transaction that is due has only work with the driver, or with a
    component that took its event. *)
Definition settled (now : Z) n (i : nat) : Prop :=
  ∀ s, txn_slots_ n !! i = Some s → is_free s = false → ts_deadline s ≤ now →
  let h := mkTxn (N.of_nat i) (ts_serial s) in
  jcount InScheduler h (jobs_ n) = 0%nat ∧ jcount AwaitingHop h (jobs_ n) = 0%nat ∧ qcount h (event_slots_ n) = 0%nat.

Lemma slot_issued n i s : txn_slots_ n !! i = Some s → issued (mkTxn (N.of_nat i) (ts_serial s)) n.
Proof. intros Hi. exists s. cbn. rewrite Nat2N.id. split; [done|lia]. Qed.

Lemma settled_grows now n n' i : grows None now n n' → settled now n i → settled now n' i.
Proof.
  intros [G1 G2 G3 G4] Hs s' Hi Hf Hd. destruct (G2 i s' Hi Hf Hd) as (s & Hsi & Hsf & Hser & Hsd). destruct (Hs s Hsi Hsf Hsd) as (E1 & E2 & E3).
  rewrite <- Hser. pose proof (slot_issued n i s Hsi) as His. cbv zeta. split_and!.
  - pose proof (G3 InScheduler _ His ltac:(done)). lia.
  - pose proof (G3 AwaitingHop _ His ltac:(done)). lia.
  - pose proof (G4 _ His ltac:(done)). lia.
Qed.

Lemma closes_spec now s n b n1 :
  txn_inv None None n → closes now s n = (b, n1) →
  txn_inv None None n1 ∧ grows None now n n1 ∧ txn_slots_ n1 = txn_slots_ n ∧ (b = false → now < ts_deadline s).
Proof.
  intros Hn. unfold closes. case_bool_decide as Hd; [intros [= <- <-]; split_and!; [done|apply grows_refl|done|done]|].
  destruct (port_validate (ts_use s) now (port_ n)) as [r p] eqn:Hv. intros [= <- <-]. pose proof Hn as [Hl _].
  destruct (validate_reads _ _ _ _ _ (lk_port _ Hl) Hv) as [Hp Hlp]. split_and!; [|by apply grows_work|done|lia].
  apply port_frame; [done|done|]. intros t. by rewrite Hlp.
Qed.

Lemma closing_inv n i s : txn_slots_ n !! i = Some s → is_free s = false → txn_inv None None n →
  txn_inv None None (put_slot i (if bool_decide (ts_state s = Committed) then with_state Closing s else s) n).
Proof.
  intros Hi Hf [Hl Hc]. set (s' := if bool_decide _ then _ else s).
  assert (Hs' : is_free s' = false ∧ ts_use s' = ts_use s ∧ ts_serial s' = ts_serial s ∧ work_refs s' = work_refs s) by (unfold s'; by case_bool_decide).
  destruct Hs' as (E1 & E2 & E3 & E4). split; [apply (links_same n i s s'); [done|done|congruence|done]|].
  set (h := mkTxn (N.of_nat i) (ts_serial s)). assert (Hk : N.to_nat (tx_slot h) = i) by (cbn; lia).
  assert (Hr : resolve_txn h n = Some s) by (apply resolve_txn_Some; by rewrite Hk).
  destruct (ct_slot _ _ _ Hc i s Hi) as (_ & _ & H3). destruct (H3 Hf) as (_ & Href & Hb).
  rewrite <- Hk. apply (counts_put None None None None n h s s'); try done; [by rewrite E4|by rewrite E4, Hk].
Qed.

(** Freeing a slot that is free already. *)
Lemma idle_inv n i s : txn_slots_ n !! i = Some s → is_free s = true → txn_inv None None n → txn_inv None None (put_slot i (freed s) n).
Proof.
  intros Hi Hf [Hl [C1 C2 C3]]. destruct (C2 i s Hi) as (E1 & E2 & _). split.
  { apply (links_same n i s); [done|done|by rewrite Hf|]. cbn. symmetry. by apply (lk_free _ Hl i). }
  split; [done| |].
  - intros j x. cbn [txn_slots_ put_slot set_slots]. destruct (decide (j = i)) as [->|Hne]; [|rewrite list_lookup_insert_ne by done; apply C2].
    rewrite list_lookup_insert_eq by (by eapply lookup_lt_Some). intros [= <-]. split; [done|]. split; [intros _; by apply E2|done].
  - intros h Hh. destruct (C3 h Hh) as [|[x Hx]]; [by left|]. right. rewrite (resolve_put h n i s _ Hi). case_decide as Hsl; [|eauto].
    apply resolve_txn_Some in Hx as (Hx & Hxf & _). rewrite Hsl, Hi in Hx. injection Hx as <-. congruence.
Qed.

Lemma free_if_idle n i s : txn_inv None None n → txn_slots_ n !! i = Some s → work_refs s = 0 → is_free s = true.
Proof.
  intros [_ Hc] Hi Hz. destruct (is_free s) eqn:Hf; [done|]. destruct (ct_slot _ _ _ Hc i s Hi) as (_ & _ & H3).
  destruct (H3 Hf) as (_ & _ & Hb). cbn in Hb. lia.
Qed.

Lemma last_free_spec now n i n' :
  txn_inv None None n →
  n' = match txn_slots_ n !! i with
       | Some s => if bool_decide (work_refs s = 0) then put_slot i (freed s) (release_use (ts_use s) n) else n
       | None => n
       end → txn_inv None None n' ∧ grows None now n n'.
Proof.
  intros Hn ->. destruct (txn_slots_ n !! i) as [s|] eqn:Hi; [|split; [done|apply grows_refl]].
  case_bool_decide as Hz; [|split; [done|apply grows_refl]]. pose proof (free_if_idle n i s Hn Hi Hz) as Hf. pose proof Hn as [Hl _].
  unfold release_use. rewrite (lk_free _ Hl i s Hi Hf), bool_decide_eq_true_2 by done. split; [by apply idle_inv|]. by eapply grows_put.
Qed.

Lemma sweep_slot_spec i reports now n r' n' :
  txn_inv None None n → sweep_slot i reports now n = (r', n') → txn_inv None None n' ∧ grows None now n n' ∧ settled now n' i.
Proof.
  intros Hn. unfold sweep_slot. destruct (txn_slots_ n !! i) as [s|] eqn:Hi; [|intros [= <- <-]; split_and!; [done|apply grows_refl|intros s; congruence]].
  destruct (is_free s) eqn:Hf; [intros [= <- <-]; split_and!; [done|apply grows_refl|intros x Hx; congruence]|]. cbv zeta.
  destruct (closes now s n) as [b n1] eqn:Hc. destruct (closes_spec _ _ _ _ _ Hn Hc) as (Hn1 & G1 & Es & Hnot). destruct b.
  2: { intros [= <- <-]. split_and!; [done|done|]. intros x Hx Hxf Hd. rewrite Es, Hi in Hx. injection Hx as <-. specialize (Hnot eq_refl). lia. }
  set (h := mkTxn (N.of_nat i) (ts_serial s)). set (s2 := if bool_decide (ts_state s = Committed) then with_state Closing s else s).
  assert (Hi1 : txn_slots_ n1 !! i = Some s) by (by rewrite Es).
  pose proof (closing_inv n1 i s Hi1 Hf Hn1) as Hn2. fold s2 in Hn2. set (n2 := put_slot i s2 n1) in *.
  assert (Hs2 : is_free s2 = false ∧ ts_serial s2 = ts_serial s ∧ ts_deadline s2 = ts_deadline s) by (unfold s2; by case_bool_decide).
  destruct Hs2 as (E1 & E2 & E3). assert (G2 : grows None now n1 n2) by (by eapply grows_put).
  assert (Hi2 : txn_slots_ n2 !! i = Some s2) by (apply list_lookup_insert_eq; by eapply lookup_lt_Some).
  assert (Hh2 : issued h n2) by (unfold h; rewrite <- E2; by apply slot_issued).
  destruct (drop_jobs_spec InScheduler h now (length (jobs_ n2)) reports n2 Hn2 Hh2 (length_filter _ _)) as (Hn3 & G3 & Z3).
  destruct (drop_jobs (length (jobs_ n2)) InScheduler h reports now n2) as [r3 n3]. cbn [snd] in *.
  pose proof (issued_grows _ _ _ _ _ G3 Hh2) as Hh3.
  destruct (drop_jobs_spec AwaitingHop h now (length (jobs_ n3)) r3 n3 Hn3 Hh3 (length_filter _ _)) as (Hn4 & G4 & Z4).
  rewrite (surjective_pairing (drop_jobs (length (jobs_ n3)) AwaitingHop h r3 now n3)).
  destruct (drop_jobs (length (jobs_ n3)) AwaitingHop h r3 now n3) as [r4 n4]. cbn [fst snd] in *.
  destruct (drop_events_spec h now kComponentEventsMax 0 n4 Hn4) as (Hn5 & G5 & Ej5 & _ & Hev). set (n5 := drop_events kComponentEventsMax 0 h n4) in *.
  intros [= <- Hn']. symmetry in Hn'. destruct (last_free_spec now n5 i n' Hn5 Hn') as [Hinv' G6].
  assert (G25 : grows None now n2 n5) by (eapply grows_trans; [exact G3|]; eapply grows_trans; [exact G4|exact G5]).
  split_and!; [done| |].
  { eapply grows_trans; [exact G1|]. eapply grows_trans; [exact G2|]. eapply grows_trans; [exact G25|exact G6]. }
  apply (settled_grows now n5 n' i G6). intros x Hx Hxf Hd. destruct (g_due _ _ _ _ G25 i x Hx Hxf Hd) as (y & Hy & _ & Hser & _).
  rewrite Hi2 in Hy. injection Hy as <-. rewrite <- Hser, E2. fold h. cbv zeta. rewrite Ej5. split_and!; [|done|].
  - pose proof (g_jobs _ _ _ _ G4 InScheduler h Hh3 ltac:(done)). lia.
  - apply count_zero. intros e Hin He. apply list_elem_of_lookup in Hin as [j Hj]. apply (Hev j e); [|done|done].
    apply lookup_lt_Some in Hj as Hlt. destruct Hn5 as [_ Hc5]. rewrite (ct_events _ _ _ Hc5) in Hlt. lia.
Qed.

Lemma sweep_from_spec now : ∀ k i reports n,
  txn_inv None None n → (∀ j, (j < i)%nat → settled now n j) →
  let n' := snd (sweep_from k i reports now n) in
  txn_inv None None n' ∧ grows None now n n' ∧ ∀ j, (j < i + k)%nat → settled now n' j.
Proof.
  induction k as [|k IH]; intros i reports n Hn Hs; cbn [sweep_from]; [cbn; rewrite Nat.add_0_r; split_and!; [done|apply grows_refl|done]|].
  destruct (sweep_slot i reports now n) as [r n1] eqn:H1. destruct (sweep_slot_spec _ _ _ _ _ _ Hn H1) as (Hn1 & G1 & S1).
  destruct (IH (S i) r n1 Hn1) as (A1 & A2 & A3).
  - intros j Hj. destruct (decide (j = i)) as [->|Hne]; [done|]. apply (settled_grows now n n1 j G1). apply Hs. lia.
  - split_and!; [done|by eapply grows_trans|]. intros j Hj. apply A3. lia.
Qed.

Lemma sweep_spec reports now n :
  txn_inv None None n → txn_inv None None (sweep_transactions reports now n) ∧ ∀ i, settled now (sweep_transactions reports now n) i.
Proof.
  intros Hn. destruct (sweep_from_spec now kAdmissionTransactionsMax 0 reports n Hn ltac:(lia)) as (A1 & _ & A3).
  split; [done|]. intros i s Hi. destruct A1 as [Hl _]. apply (A3 i); [|done]. apply lookup_lt_Some in Hi. unfold sweep_transactions in Hi.
  rewrite (lk_len _ Hl) in Hi. lia.
Qed.
End Sweep.
