(* ===== verification/TransactionsRun.v ===== *)
(** * Runs of transactions

    Every sequence of admissions, job ends, component events, sweeps,
    quiesces and owner actions keeps leases and transactions in step; the
    owner of espnow_runtime.cpp is an instance of the port. *)

From S2P Require Import Prelude Types ReplyLeases ReplyLeasesProps ReplyLeasesRun Transactions TransactionsInv TransactionsProps TransactionsAdmit TransactionsSweep.

Section Run.
Context {P : Type} `{ReplyPortLaws P}.
Implicit Types (n : Node P) (h : TxnHandle) (tok : ReplyLeaseToken).

Inductive step : Node P → Node P → Prop :=
  | st_admit a now n : step n (run_admission a now n)
  | st_end n i j report now : jobs_ n !! i = Some j → step n (end_job (j_txn j) report now (set_jobs (delete i (jobs_ n)) n))
  | st_move n i j place : jobs_ n !! i = Some j → step n (set_jobs (<[i := mkJob place (j_txn j)]> (jobs_ n)) n)
  | st_origin n : step n (set_jobs (mkJob InScheduler kInvalidTxnHandle :: jobs_ n) n)
  | st_publish n : step n (publish_component_event kInvalidTxnHandle n)
  | st_take n : step n (snd (take_component_event n))
  | st_complete n slot serial : step n (complete_component_event slot serial n)
  | st_sweep n reports now : step n (sweep_transactions reports now n)
  | st_quiesce n : step n (quiesce n)
  | st_owner n p : owner_step (port_ n) p → step n (set_port p n).

Inductive reachable (p0 : P) : Node P → Prop :=
  | rc_start : reachable p0 (initial_node p0)
  | rc_step n n' : reachable p0 n → step n n' → reachable p0 n'.

(** A change of work that leaves every count alone, or changes that of the
    invalid handle only. *)
Lemma work_frame n n' :
  txn_inv None None n → txn_slots_ n' = txn_slots_ n → port_ n' = port_ n → length (event_slots_ n') = length (event_slots_ n) →
  (∀ h, h ≠ kInvalidTxnHandle → work_of h n' = work_of h n) → txn_inv None None n'.
Proof.
  intros [Hl [C1 C2 C3]] Es Ep Ee Hw.
  assert (Hlk : ∀ i tok, linked n' i tok ↔ linked n i tok) by (intros; unfold linked; by rewrite Es).
  split.
  - destruct Hl as [L1 L2 L3 L4 L5 L6]. split; rewrite ?Es, ?Ep; try done.
    + intros tok. rewrite L4. by setoid_rewrite Hlk.
    + intros i j tok. rewrite !Hlk. apply L5.
  - split; [by rewrite Ee| |].
    + intros i s. rewrite Es. intros Hi. destruct (C2 i s Hi) as (E1 & E2 & E3). split; [done|]. split; [done|]. intros Hf.
      destruct (E3 Hf) as (E4 & E5 & E6). split; [done|]. split; [|done]. rewrite Hw; [done|]. intros [= _ Heq]. lia.
    + intros h Hh. destruct (decide (h = kInvalidTxnHandle)) as [->|Hne]; [by left|]. rewrite Hw in Hh by done.
      destruct (C3 h Hh) as [|[s Hs]]; [by left|]. right. exists s. unfold resolve_txn in *. by rewrite Es.
Qed.

Lemma move_inv n i j place : jobs_ n !! i = Some j → txn_inv None None n → txn_inv None None (set_jobs (<[i := mkJob place (j_txn j)]> (jobs_ n)) n).
Proof.
  intros Hi Hn. apply (work_frame n); [done..|]. intros h _. unfold work_of, job_count. cbn [jobs_ set_jobs event_slots_].
  pose proof (filter_insert (λ j, j_txn j = h) (jobs_ n) i j (mkJob place (j_txn j)) Hi) as Hf. cbv beta in Hf. cbn [j_txn] in Hf.
  destruct (decide (j_txn j = h)); lia.
Qed.

Lemma take_inv n : txn_inv None None n → txn_inv None None (snd (take_component_event n)).
Proof.
  intros Hn. unfold take_component_event. destruct (list_find _ (event_slots_ n)) as [[i e]|] eqn:Hf; [|done].
  apply list_find_Some in Hf as (Hi & Hq & _). cbn [snd]. apply (work_frame n); [done..|cbn; by rewrite length_insert|].
  intros h _. unfold work_of, event_count. cbn [jobs_ set_events event_slots_].
  pose proof (filter_insert (λ e, ev_state e ≠ EFree ∧ ev_txn e = h) (event_slots_ n) i e (mkEvent (ev_txn e) ETaken (ev_serial e) (ev_retired e)) Hi) as Hc.
  cbv beta in Hc. cbn [ev_state ev_txn] in Hc. rewrite Hq in Hc. destruct (decide (ev_txn e = h)).
  - rewrite !decide_True in Hc by done. lia.
  - rewrite !decide_False in Hc by (by intros [_ ?]). lia.
Qed.

Lemma publish_invalid_inv n : txn_inv None None n → txn_inv None None (publish_component_event kInvalidTxnHandle n).
Proof.
  intros Hn. unfold publish_component_event. destruct (publish_scan _ (event_slots_ n)) as [b es] eqn:Hp.
  rewrite bool_decide_eq_true_2 by done. cbn [negb]. rewrite andb_false_r. apply publish_scan_spec in Hp as [Hlen Hc].
  apply (work_frame n); [done..|]. intros h Hh. unfold work_of. cbn [jobs_ set_events event_slots_]. rewrite (proj1 (Hc h)).
  destruct b; [rewrite decide_False by done|]; lia.
Qed.

(** ** Quiesce *)

(** What finishing work keeps whatever the counts are. *)
Definition slots_sane n : Prop := ∀ i s, txn_slots_ n !! i = Some s → 0 ≤ ts_serial s ≤ UINT32_MAX ∧ (is_free s = true → work_refs s = 0).

Lemma finish_sane h n : slots_sane n → slots_sane (finish_txn_work h n).
Proof.
  intros Hs. unfold finish_txn_work. destruct (resolve_txn h n) as [s|] eqn:Hr; [|done]. apply resolve_txn_Some in Hr as (Hi & Hf & _).
  pose proof (Hs _ s Hi) as [Hser _]. cbv zeta. set (s1 := if bool_decide _ then _ else s).
  assert (E : is_free s1 = is_free s ∧ ts_serial s1 = ts_serial s) by (unfold s1; by case_bool_decide). destruct E as [E1 E2].
  case_bool_decide as Hz; cbn [negb]; intros j x; cbn [txn_slots_ put_slot set_slots]; rewrite ?(proj1 (release_use_slots _ _));
    (destruct (decide (j = N.to_nat (tx_slot h))) as [->|Hne]; [|rewrite list_lookup_insert_ne by done; apply Hs]);
    rewrite list_lookup_insert_eq by (by eapply lookup_lt_Some); intros [= <-].
  - cbn. by rewrite E2.
  - rewrite E1, E2, Hf. done.
Qed.

Lemma release_slots_spec : ∀ k i n,
  links_ok n → slots_sane n →
  let n' := release_slots k i n in
  links_ok n' ∧ slots_sane n' ∧ event_slots_ n' = event_slots_ n ∧
  (∀ j, (j < i)%nat → txn_slots_ n' !! j = txn_slots_ n !! j) ∧ ∀ j s, (i ≤ j < i + k)%nat → txn_slots_ n' !! j = Some s → is_free s = true.
Proof.
  induction k as [|k IH]; intros i n Hl Hs; cbn [release_slots]; [split_and!; [done..|lia]|].
  set (n1 := match txn_slots_ n !! i with Some _ => _ | None => n end).
  assert (H1 : links_ok n1 ∧ slots_sane n1 ∧ event_slots_ n1 = event_slots_ n ∧ (∀ j, (j < i)%nat → txn_slots_ n1 !! j = txn_slots_ n !! j) ∧
    ∀ s, txn_slots_ n1 !! i = Some s → is_free s = true).
  { unfold n1. destruct (txn_slots_ n !! i) as [s|] eqn:Hi; [|split_and!; [done..|congruence]].
    destruct (is_free s) eqn:Hf; [split_and!; [done..|congruence]|]. destruct (release_use_slots (ts_use s) n) as (E1 & E2 & E3).
    assert (Hlen : (i < length (txn_slots_ n))%nat) by (by eapply lookup_lt_Some). split_and!.
    - by apply (links_free n i s).
    - intros j x. cbn [txn_slots_ put_slot set_slots]. rewrite E1. destruct (decide (j = i)) as [->|Hne]; [|rewrite list_lookup_insert_ne by done; apply Hs].
      rewrite list_lookup_insert_eq by done. intros [= <-]. by destruct (Hs i s Hi).
    - done.
    - intros j Hj. cbn. rewrite E1. apply list_lookup_insert_ne. lia.
    - intros x. cbn. rewrite E1, list_lookup_insert_eq by done. by intros [= <-]. }
  destruct H1 as (A1 & A2 & A3 & A4 & A5). clearbody n1. destruct (IH (S i) n1 A1 A2) as (B1 & B2 & B3 & B4 & B5). split_and!; [done|done|congruence| |].
  - intros j Hj. rewrite B4 by lia. apply A4. lia.
  - intros j s Hj Hjs. destruct (decide (j = i)) as [->|Hne]; [|apply (B5 j); [lia|done]]. rewrite B4 in Hjs by lia. by apply A5.
Qed.

Lemma quiesce_spec n :
  txn_inv None None n →
  txn_inv None None (quiesce n) ∧ (∀ i s, txn_slots_ (quiesce n) !! i = Some s → is_free s = true) ∧
  jobs_ (quiesce n) = [] ∧ (∀ e, e ∈ event_slots_ (quiesce n) → ev_state e = EFree).
Proof.
  intros [Hl Hc]. unfold quiesce, terminate_all_txn_work. cbv zeta. set (work := _ ++ _).
  assert (Hs : slots_sane n) by (intros i s Hi; destruct (ct_slot _ _ _ Hc i s Hi) as (? & ? & _); done).
  assert (H1 : ∀ l m, links_ok m → slots_sane m → let m' := fold_left (λ n j, finish_txn_work (j_txn j) n) l m in
    links_ok m' ∧ slots_sane m' ∧ event_slots_ m' = event_slots_ m).
  { induction l as [|j l IH]; intros m Hm Hsm; [done|]. cbn [fold_left]. destruct (IH (finish_txn_work (j_txn j) m)) as (A & B & C); [by apply links_finish|by apply finish_sane|].
    split_and!; [done|done|]. rewrite C. by apply finish_txn_frame. }
  destruct (H1 work n Hl Hs) as (L1 & S1 & E1). set (n1 := fold_left _ work n) in *.
  set (n1' := set_events _ n1).
  assert (H2 : ∀ l m, links_ok m → slots_sane m → let m' := fold_left (λ n e, if bool_decide (ev_state e = EFree) then n else finish_txn_work (ev_txn e) n) l m in
    links_ok m' ∧ slots_sane m' ∧ event_slots_ m' = event_slots_ m).
  { induction l as [|e l IH]; intros m Hm Hsm; [done|]. cbn [fold_left]. destruct (bool_decide (ev_state e = EFree)); [by apply IH|].
    destruct (IH (finish_txn_work (ev_txn e) m)) as (A & B & C); [by apply links_finish|by apply finish_sane|].
    split_and!; [done|done|]. rewrite C. by apply finish_txn_frame. }
  destruct (H2 (event_slots_ n1) n1') as (L2 & S2 & E2); [by destruct L1; split|done|]. set (n2 := fold_left _ (event_slots_ n1) n1') in *.
  destruct (release_slots_spec kAdmissionTransactionsMax 0 n2 L2 S2) as (L3 & S3 & E3 & _ & F3). set (n3 := release_slots _ 0 n2) in *.
  assert (Hfree : ∀ i s, txn_slots_ n3 !! i = Some s → is_free s = true).
  { intros i s Hi. apply (F3 i s); [|done]. apply lookup_lt_Some in Hi. rewrite (lk_len _ L3) in Hi. lia. }
  assert (Hev : ∀ e, e ∈ event_slots_ n3 → ev_state e = EFree).
  { intros e. rewrite E3, E2. intros (x & -> & _)%list_elem_of_fmap. by case_bool_decide. }
  split; [|done]. split; [by destruct L3; split|]. split.
  - cbn [event_slots_ set_jobs]. rewrite E3, E2. unfold n1'. cbn [event_slots_ set_events]. by rewrite length_fmap, E1, (ct_events _ _ _ Hc).
  - intros i s Hi. destruct (S3 i s Hi) as [A B]. split; [done|]. split; [done|]. intros Hf. rewrite (Hfree i s Hi) in Hf. done.
  - intros h Hh. exfalso. cbn [owed] in Hh. unfold work_of, job_count, event_count in Hh. cbn [jobs_ set_jobs event_slots_] in Hh.
    rewrite (proj2 (count_zero (λ e, ev_state e ≠ EFree ∧ ev_txn e = h) (event_slots_ n3))) in Hh; [cbn in Hh; lia|].
    intros e He [Hne _]. by apply Hne, Hev.
Qed.

(** ** Runs *)

Lemma initial_inv p0 : port_ok p0 → (∀ tok, port_lease p0 tok = None) → txn_inv None None (initial_node p0).
Proof.
  intros Hp Hl. assert (Hslot : ∀ i s, txn_slots_ (initial_node p0) !! i = Some s → s = free_slot) by (by intros i s [-> _]%lookup_replicate).
  split; split; try done.
  - intros tok. cbn [port_ initial_node]. rewrite Hl. split; [by intros ?%is_Some_None|]. intros (i & s & ->%Hslot & Hf & _). done.
  - intros i j tok (s & ->%Hslot & Hf & _). done.
  - by intros i s ->%Hslot.
  - by intros i s ->%Hslot.
Qed.

Lemma step_inv n n' : step n n' → txn_inv None None n → txn_inv None None n'.
Proof.
  intros Hst Hn. destruct Hst as [a now n|n i j report now Hi|n i j place Hi|n|n|n|n slot serial|n reports now|n|n p Hp].
  - by apply admit_inv.
  - by apply end_job_spec.
  - by apply move_inv.
  - apply (work_frame n); [done..|]. intros h Hh. unfold work_of, job_count. cbn [jobs_ set_jobs event_slots_].
    rewrite filter_cons, decide_False by (cbn; congruence). done.
  - by apply publish_invalid_inv.
  - by apply take_inv.
  - unfold complete_component_event. destruct (event_slots_ n !! slot) as [e|] eqn:He; [|done].
    destruct (bool_decide_reflect (ev_state e = ETaken)) as [Ht|]; [|done]. cbn [negb orb]. destruct (negb (bool_decide (ev_serial e = serial))); [done|]. apply free_event_inv; [done|congruence|done].
  - by apply sweep_spec.
  - by apply quiesce_spec.
  - destruct (owner_keeps _ _ (lk_port _ (proj1 Hn)) Hp) as [Hok Hl]. by apply port_frame.
Qed.

Lemma reachable_inv p0 n : port_ok p0 → (∀ tok, port_lease p0 tok = None) → reachable p0 n → txn_inv None None n.
Proof. intros Hp Hl Hr. induction Hr as [|n n' _ IH Hst]; [by apply initial_inv|by eapply step_inv]. Qed.
End Run.
