(* ===== verification/TransactionsLeases.v ===== *)
(** * Transactions over the lease table

    The radio owner (espnow_runtime.cpp) as the port of the node: what the
    node and the lease table guarantee together. *)

From S2P Require Import Prelude Types ReplyLeases ReplyLeasesProps ReplyLeasesRun Transactions TransactionsInv TransactionsProps TransactionsAdmit TransactionsSweep TransactionsRun.

(** ** The owner *)

(** What [reply_acquire] reads of a peer record. *)
Record OwnerPeer := mkPeer {
  driver_registered : bool; release_pending : bool; op_binding_id : Z; op_binding : Z; op_rx_context_id : Z }.
(** The lease table, the peer table, and the security provider's answer to
    [reply_context_current]. *)
Record Owner := mkOwner {
  reply_leases_ : Leases; find_peer : NodeId → option OwnerPeer; reply_context_current : NodeId → Z → result unit }.
Definition set_leases (t : Leases) (o : Owner) : Owner := mkOwner t (find_peer o) (reply_context_current o).

(** The identity a peer record currently stands for. *)
Definition live_binding (peer : NodeId) (record : option OwnerPeer) : ReplyBinding :=
  match record with
  | Some r => if negb (release_pending r) && negb (bool_decide (op_binding_id r = kInvalidBindingId)) && negb (bool_decide (op_binding r = 0))
              then mkBinding peer (op_binding_id r) (op_binding r) (op_rx_context_id r) else no_binding
  | None => no_binding
  end.
Definition mapping_refusal (captured : ReplyBinding) (o : Owner) : option (StatusCode * string) :=
  match reply_context_current o (rb_peer captured) (rb_rx_context_id captured) with
  | Err c d => Some (c, d)
  | Ok _ =>
      let record := find_peer o (rb_peer captured) in
      let live := live_binding (rb_peer captured) record in
      if bool_decide (rb_id live = kInvalidBindingId) || negb (bool_decide (rb_id live = rb_id captured)) ||
         negb (bool_decide (rb_generation live = rb_generation captured)) ||
         bool_decide (rb_rx_context_id captured = 0) || negb (bool_decide (rb_rx_context_id captured = rb_rx_context_id live))
      then Some (Conflict, "binding mapping changed"%string)
      else if negb (match record with Some r => driver_registered r | None => false end)
      then Some (Conflict, "peer driver not pinned"%string)
      else None
  end.

Definition reply_acquire (captured : ReplyBinding) (deadline now : Z) (o : Owner) : result ReplyLeaseToken * Owner :=
  match mapping_refusal captured o with
  | Some (c, d) => (Err c d, o)
  | None => let '(r, t) := acquire captured deadline now (reply_leases_ o) in (r, set_leases t o)
  end.
(** The same call with [probe] set. *)
Definition reply_probe (captured : ReplyBinding) (deadline now : Z) (o : Owner) : result unit :=
  match mapping_refusal captured o with
  | Some (c, d) => Err c d
  | None => probe_acquire captured deadline now (reply_leases_ o)
  end.
Definition reply_release (tok : ReplyLeaseToken) (o : Owner) : result unit * Owner :=
  let '(r, t) := release tok (reply_leases_ o) in (r, set_leases t o).
Definition reply_validate (tok : ReplyLeaseToken) (now : Z) (o : Owner) : result unit * Owner :=
  let '(r, t) := validate tok now (reply_leases_ o) in (r, set_leases t o).

#[global] Instance owner_port : ReplyPort Owner := {
  port_acquire := reply_acquire; port_release := reply_release; port_validate := reply_validate }.

(** Peers come and go: mappings change and bindings are retired. *)
Inductive owner_acts : Owner → Owner → Prop :=
  | oa_mapping o peers ctx : owner_acts o (mkOwner (reply_leases_ o) peers ctx)
  | oa_binding o id : owner_acts o (set_leases (snd (invalidate_binding id (reply_leases_ o))) o)
  | oa_all o : owner_acts o (set_leases (snd (invalidate_all (reply_leases_ o))) o).

Definition owner_ok (o : Owner) : Prop := ∃ s, refines (reply_leases_ o) s.

Lemma owner_granted b deadline now o tok o' :
  owner_ok o → reply_acquire b deadline now o = (Ok tok, o') →
  owner_ok o' ∧ lease_of (reply_leases_ o) tok = None ∧ tok ≠ kInvalidReplyLeaseToken ∧ now < deadline ∧
  ∀ tok', is_Some (lease_of (reply_leases_ o') tok') ↔ tok' = tok ∨ is_Some (lease_of (reply_leases_ o) tok').
Proof.
  intros [s Hs]. unfold reply_acquire. destruct (mapping_refusal b o) as [[? ?]|]; [done|].
  destruct (acquire b deadline now (reply_leases_ o)) as [r t] eqn:Ha. intros [= -> <-].
  destruct (acquire_sim _ _ _ _ _ _ _ Hs Ha) as (s' & Hp & Hs'). inversion Hp as [b0 d0 n0 tok0 Hclk Hbad Hnew _| | | | | | |]; subst.
  destruct Hs as [Ho Hl _ Hh]. pose proof Hs' as [Ho' Hl' _ _]. cbn [reply_leases_ sp_live] in *. split; [by eexists|].
  assert (Hfresh : lease_of (reply_leases_ o) tok = None).
  { destruct (lease_of (reply_leases_ o) tok) as [l|] eqn:Hlo; [|done]. exfalso. apply Hnew.
    apply lease_of_Some in Hlo as (u & x & Hu & Hus & Hser & _). destruct (Hh _ u Hu) as [_ Hiff].
    destruct (uo_used _ (lo_use _ Ho _ u Hu) Hus) as (_ & Hpos & _). rewrite N2Nat.id in Hiff. destruct tok as [sl k]. cbn in *. apply Hiff. lia. }
  assert (Hiff : ∀ tok', is_Some (lease_of t tok') ↔ tok' = tok ∨ is_Some (lease_of (reply_leases_ o) tok')).
  { intros tok'. rewrite Hl', Hl. unfold update. case_decide as Heq; [subst; split; eauto|]. split; [by right|]. by intros [?|?]. }
  split_and!; [done| |lia|done]. intros ->. destruct (proj2 (Hiff kInvalidReplyLeaseToken)) as [l Hlo]; [by left|].
  apply lease_of_Some in Hlo as (u & x & Hu & Hus & Hser & _). destruct (uo_used _ (lo_use _ Ho' _ u Hu) Hus) as (_ & Hpos & _). cbn in Hser. lia.
Qed.

Lemma owner_refused b deadline now o c d o' :
  owner_ok o → reply_acquire b deadline now o = (Err c d, o') →
  owner_ok o' ∧ ∀ tok, lease_of (reply_leases_ o') tok = lease_of (reply_leases_ o) tok.
Proof.
  intros [s Hs]. unfold reply_acquire. destruct (mapping_refusal b o) as [[? ?]|]; [intros [= _ _ <-]; split; [by exists s|done]|].
  destruct (acquire b deadline now (reply_leases_ o)) as [r t] eqn:Ha. intros [= -> <-].
  destruct (acquire_sim _ _ _ _ _ _ _ Hs Ha) as (s' & Hp & Hs'). inversion Hp; subst. split; [by exists s'|]. intros tok. cbn.
  rewrite (rf_live _ _ Hs), (rf_live _ _ Hs'). done.
Qed.

Lemma owner_release_drops tok o r o' :
  owner_ok o → reply_release tok o = (r, o') →
  owner_ok o' ∧ ∀ tok', is_Some (lease_of (reply_leases_ o') tok') ↔ tok' ≠ tok ∧ is_Some (lease_of (reply_leases_ o) tok').
Proof.
  intros [s Hs]. unfold reply_release. destruct (release tok (reply_leases_ o)) as [r0 t] eqn:Ha. intros [= <- <-].
  destruct (release_sim _ _ _ _ _ Hs Ha) as (s' & Hp & Hs'). split; [by exists s'|]. intros tok'. cbn. rewrite (rf_live _ _ Hs), (rf_live _ _ Hs').
  inversion Hp; subst; cbn [sp_live].
  - unfold update. case_decide; [subst; split; [by intros ?%is_Some_None|by intros [? _]]|]. naive_solver.
  - split; [|by intros [_ ?]]. intros [l Hl]. split; [congruence|by exists l].
Qed.

Lemma owner_validate_reads tok now o r o' :
  owner_ok o → reply_validate tok now o = (r, o') →
  owner_ok o' ∧ ∀ tok', lease_of (reply_leases_ o') tok' = lease_of (reply_leases_ o) tok'.
Proof.
  intros [s Hs]. unfold reply_validate. destruct (validate tok now (reply_leases_ o)) as [r0 t] eqn:Ha. intros [= <- <-].
  destruct (validate_sim _ _ _ _ _ _ Hs Ha) as (s' & Hp & Hs'). split; [by exists s'|]. intros tok'. cbn.
  rewrite (rf_live _ _ Hs), (rf_live _ _ Hs'). by inversion Hp.
Qed.

Lemma owner_acts_keeps o o' :
  owner_ok o → owner_acts o o' → owner_ok o' ∧ ∀ tok, is_Some (lease_of (reply_leases_ o') tok) ↔ is_Some (lease_of (reply_leases_ o) tok).
Proof.
  intros [s Hs] Hact.
  assert (Hcall : ∀ c t, snd (do_call c (reply_leases_ o)) = t → (∃ id, c = CInvalidate id) ∨ c = CInvalidateAll →
    ∃ s', refines t s' ∧ ∀ tok, is_Some (lease_of t tok) ↔ is_Some (lease_of (reply_leases_ o) tok)).
  { intros c t Ht Hc. destruct (do_call c (reply_leases_ o)) as [r t0] eqn:Hd. cbn in Ht. subst t0.
    destruct (call_sim _ _ _ _ _ Hs Hd) as (s' & Hp & Hs'). exists s'. split; [done|]. intros tok. rewrite (rf_live _ _ Hs), (rf_live _ _ Hs').
    destruct Hc as [[id ->]| ->]; inversion Hp; subst; cbn [sp_live]; by rewrite fmap_is_Some. }
  destruct Hact as [o pm ctx|o id|o]; [split; [by exists s|done]| |].
  - destruct (Hcall (CInvalidate id) (snd (invalidate_binding id (reply_leases_ o)))) as (s' & Hs' & Hl); [|eauto|split; [by exists s'|done]].
    cbn. by destruct (invalidate_binding id (reply_leases_ o)).
  - destruct (Hcall CInvalidateAll (snd (invalidate_all (reply_leases_ o)))) as (s' & Hs' & Hl); [|eauto|split; [by exists s'|done]].
    cbn. by destruct (invalidate_all (reply_leases_ o)).
Qed.

#[global] Program Instance owner_laws : ReplyPortLaws Owner := {
  port_ok := owner_ok; port_lease := λ o, lease_of (reply_leases_ o); owner_step := owner_acts;
  acquire_granted := owner_granted; acquire_refused := owner_refused; release_drops := owner_release_drops;
  validate_reads := owner_validate_reads; owner_keeps := owner_acts_keeps }.

(** ** Leases and transactions *)

Definition start_owner (peers : NodeId → option OwnerPeer) (ctx : NodeId → Z → result unit) : Owner := mkOwner initial peers ctx.

Lemma start_inv peers ctx n : reachable (start_owner peers ctx) n → txn_inv None None n.
Proof.
  apply reachable_inv; [exists spec_initial; apply initial_refines|]. intros tok. apply (rf_live _ _ initial_refines).
Qed.

(** The values [f] picks from the elements of a list and their positions. *)
Definition picks {A B} (f : nat → A → option B) (l : list A) : list B := omap id (imap f l).

Lemma elem_of_picks {A B} (f : nat → A → option B) l v : v ∈ picks f l ↔ ∃ i x, l !! i = Some x ∧ f i x = Some v.
Proof.
  unfold picks. rewrite list_elem_of_omap. split.
  - intros (o & (i & x & -> & Hi)%elem_of_lookup_imap & Hv). by exists i, x.
  - intros (i & x & Hi & Hv). exists (Some v). split; [|done]. rewrite <- Hv. by apply elem_of_lookup_imap_2.
Qed.
Lemma picks_cons {A B} (f : nat → A → option B) x l : picks f (x :: l) = match f 0%nat x with Some v => v :: picks (f ∘ S) l | None => picks (f ∘ S) l end.
Proof. unfold picks. cbn. by destruct (f 0%nat x). Qed.
Lemma picks_nodup {A B} (f : nat → A → option B) l :
  (∀ i j x y v, l !! i = Some x → l !! j = Some y → f i x = Some v → f j y = Some v → i = j) → NoDup (picks f l).
Proof.
  revert f. induction l as [|x l IH]; intros f Hf; [constructor|]. rewrite picks_cons.
  assert (Hl : NoDup (picks (f ∘ S) l)).
  { apply IH. intros i j y z v Hi Hj Hv Hw. specialize (Hf (S i) (S j) y z v Hi Hj Hv Hw). by injection Hf. }
  destruct (f 0%nat x) as [v|] eqn:Hx; [|done]. constructor; [|done]. intros (j & y & Hj & Hy)%elem_of_picks.
  by specialize (Hf 0%nat (S j) x y v eq_refl Hj Hx Hy).
Qed.
Lemma picks_length {A B} (f : nat → A → option B) (Q : A → Prop) `{∀ x, Decision (Q x)} l :
  (∀ i x, is_Some (f i x) ↔ Q x) → length (picks f l) = length (filter Q l).
Proof.
  revert f. induction l as [|x l IH]; intros f Hf; [done|]. rewrite picks_cons, filter_cons.
  pose proof (IH (f ∘ S) (λ i, Hf (S i))) as Hl. destruct (f 0%nat x) as [v|] eqn:Hx.
  - rewrite decide_True by (apply (Hf 0%nat x); by rewrite Hx). cbn [length]. by rewrite Hl.
  - rewrite decide_False; [done|]. intros [v Hv]%(Hf 0%nat x). congruence.
Qed.

Definition use_tokens (t : Leases) : list ReplyLeaseToken :=
  picks (λ i u, if u_used u then Some (mkToken (N.of_nat i) (u_serial u)) else None) (uses_ t).
Definition txn_tokens (n : Node Owner) : list ReplyLeaseToken :=
  picks (λ _ s, if is_free s then None else Some (ts_use s)) (txn_slots_ n).

Lemma use_token_live t tok : leases_ok t → tok ∈ use_tokens t ↔ is_Some (lease_of t tok).
Proof.
  intros Ht. unfold use_tokens. rewrite elem_of_picks. split.
  - intros (i & u & Hi & Hu). destruct (u_used u) eqn:Hus; [|done]. injection Hu as <-. destruct (held_entry t i u Ht Hi Hus) as (x & Hx & _).
    eexists. apply lease_of_Some. exists u, x. cbn. by rewrite Nat2N.id.
  - intros (l & (u & x & Hu & Hus & Hs & _)%lease_of_Some). exists (N.to_nat (use_slot tok)), u. rewrite Hus, N2Nat.id, Hs. by destruct tok.
Qed.

Lemma tokens_perm n : txn_inv None None n → use_tokens (reply_leases_ (port_ n)) ≡ₚ txn_tokens n.
Proof.
  intros [[L1 L2 L3 L4 L5 L6] _]. destruct L2 as [s Hs]. pose proof (rf_ok _ _ Hs) as Ho. apply NoDup_Permutation.
  - apply picks_nodup. intros i j u v tok Hi Hj Hu Hv. destruct (u_used u), (u_used v); try done. injection Hu as <-. injection Hv as Heq _. lia.
  - apply picks_nodup. intros i j x y tok Hi Hj Hx Hy. destruct (is_free x) eqn:Fx, (is_free y) eqn:Fy; try done. injection Hx as <-. injection Hy as Heq.
    apply (L5 i j (ts_use x)); [by exists x|by exists y].
  - intros tok. rewrite (use_token_live _ _ Ho). change (lease_of (reply_leases_ (port_ n)) tok) with (port_lease (port_ n) tok). rewrite L4.
    unfold txn_tokens. rewrite elem_of_picks. split.
    + intros (i & x & Hi & Hf & Hu). exists i, x. by rewrite Hf, Hu.
    + intros (i & x & Hi & Hx). exists i, x. destruct (is_free x); [done|]. by injection Hx as <-.
Qed.

Lemma lease_txn_count n : txn_inv None None n → live_use_count (reply_leases_ (port_ n)) = txn_in_flight n.
Proof.
  intros Hn. pose proof (tokens_perm n Hn) as Hp. apply Permutation_length in Hp. unfold use_tokens, txn_tokens in Hp.
  rewrite (picks_length _ (λ u, u_used u = true)) in Hp.
  - rewrite (picks_length _ (λ s, is_free s = false)) in Hp; [done|]. intros _ s. destruct (is_free s); [split; [by intros ?%is_Some_None|done]|split; eauto].
  - intros i u. destruct (u_used u); [split; eauto|split; [by intros ?%is_Some_None|done]].
Qed.

(** C21: over every interleaving of admissions, partial failures, job moves
    and ends, component events, sweeps, revocations by the owner and quiesces,
    the live uses of the lease table are as many as the open transactions,
    every live lease is that of exactly one of them, every open transaction
    holds a live lease and counts exactly its jobs and events, every job of a
    transaction runs under the transaction's deadline, and a node without work
    holds no lease. *)
Theorem every_lease_has_its_work peers ctx (n : Node Owner) :
  reachable (start_owner peers ctx) n →
  live_use_count (reply_leases_ (port_ n)) = txn_in_flight n ∧
  (∀ tok, is_Some (lease_of (reply_leases_ (port_ n)) tok) →
     ∃ i, linked n i tok ∧ ∀ j, linked n j tok → j = i) ∧
  (∀ i s, txn_slots_ n !! i = Some s → is_free s = false →
     is_Some (lease_of (reply_leases_ (port_ n)) (ts_use s)) ∧
     1 ≤ work_refs s ∧ work_refs s = work_of (mkTxn (N.of_nat i) (ts_serial s)) n) ∧
  (∀ j d, j ∈ jobs_ n → 0 < d → j_txn j ≠ kInvalidTxnHandle → ∃ s, resolve_txn (j_txn j) n = Some s ∧ work_deadline d (j_txn j) n = Z.min d (ts_deadline s)) ∧
  (jobs_ n = [] → component_events_pending n = 0%nat → live_use_count (reply_leases_ (port_ n)) = 0%nat).
Proof.
  intros Hr. pose proof (start_inv peers ctx n Hr) as Hn. pose proof (lease_txn_count n Hn) as Hcnt. split; [done|]. destruct Hn as [Hl Hc].
  assert (Hwork : ∀ i s, txn_slots_ n !! i = Some s → is_free s = false → 1 ≤ work_refs s ∧ work_refs s = work_of (mkTxn (N.of_nat i) (ts_serial s)) n).
  { intros i s Hi Hf. destruct (ct_slot _ _ _ Hc i s Hi) as (_ & _ & H3). destruct (H3 Hf) as (_ & H4 & H5). cbn [owed bounded] in *. lia. }
  split; [|split; [|split]].
  - intros tok Htok. apply (lk_lease _ Hl) in Htok as [i Hi]. exists i. split; [done|]. intros j Hj. by apply (lk_one _ Hl _ _ tok).
  - intros i s Hi Hf. split; [|by apply Hwork]. apply (lk_lease _ Hl). by exists i, s.
  - intros j d Hj Hd Hne. destruct (ct_live _ _ _ Hc (j_txn j)) as [|[s Hs]]; [|done|].
    + cbn [owed]. unfold work_of, job_count. assert (Hin : j ∈ filter (λ k, j_txn k = j_txn j) (jobs_ n)) by (by apply list_elem_of_filter).
      destruct (filter _ (jobs_ n)); [by apply not_elem_of_nil in Hin|cbn; lia].
    + exists s. split; [done|]. unfold work_deadline. rewrite bool_decide_eq_false_2 by done. rewrite Hs. case_bool_decide; lia.
  - intros Hj He. rewrite Hcnt. unfold txn_in_flight. apply count_zero. intros s Hin Hf. apply list_elem_of_lookup in Hin as [i Hi].
    destruct (Hwork i s Hi Hf) as [H1 H2]. unfold component_events_pending in He. rewrite count_zero in He.
    assert (Hz : event_count (mkTxn (N.of_nat i) (ts_serial s)) (event_slots_ n) = 0%nat) by (apply count_zero; intros e Hin [Hne _]; by apply (He e)).
    unfold work_of, job_count in H2. rewrite Hj, Hz in H2. cbn in H2. lia.
Qed.

(** C23: after a sweep, a transaction that is open although its deadline has
    passed was open before under the same serial, none of its jobs is queued
    or waits for a hop accept, and none of its events is still queued, however
    many failure reports the dropped jobs admit on the way. *)
Theorem sweep_closes_due_transactions peers ctx (n : Node Owner) reports now :
  reachable (start_owner peers ctx) n →
  let n' := sweep_transactions reports now n in
  ∀ i s, txn_slots_ n' !! i = Some s → is_free s = false → ts_deadline s ≤ now →
  let h := mkTxn (N.of_nat i) (ts_serial s) in
  (∀ j, j ∈ jobs_ n' → j_txn j = h → j_place j = WithDriver) ∧
  (∀ e, e ∈ event_slots_ n' → ev_txn e = h → ev_state e ≠ EQueued) ∧
  ∃ s0, txn_slots_ n !! i = Some s0 ∧ is_free s0 = false ∧ ts_serial s0 = ts_serial s.
Proof.
  intros Hr. pose proof (start_inv peers ctx n Hr) as Hn. cbv zeta. intros i s Hi Hf Hd.
  destruct (sweep_from_spec now kAdmissionTransactionsMax 0 reports n Hn ltac:(lia)) as (_ & G & _).
  destruct (sweep_spec reports now n Hn) as [_ Hset]. destruct (Hset i s Hi Hf Hd) as (H1 & H2 & H3).
  pose proof (proj1 (count_zero _ _) H1) as Z1. pose proof (proj1 (count_zero _ _) H2) as Z2. pose proof (proj1 (count_zero _ _) H3) as Z3. split_and!.
  - intros j Hj Ht. destruct (j_place j) eqn:Hp; [by destruct (Z1 j Hj)|done|by destruct (Z2 j Hj)].
  - intros e He Ht Hq. by apply (Z3 e He).
  - destruct (g_due _ _ _ _ G i s Hi Hf Hd) as (s0 & Hs0 & Hf0 & Hser & _). by exists s0.
Qed.

(** In every reachable node [quiesce_for_sleep] gives back every lease use and
    leaves no open transaction, pending event or queued job. *)
Lemma quiesce_returns_every_lease peers ctx (n : Node Owner) :
  reachable (start_owner peers ctx) n →
  live_use_count (reply_leases_ (port_ (quiesce n))) = 0%nat ∧ txn_in_flight (quiesce n) = 0%nat ∧
  component_events_pending (quiesce n) = 0%nat ∧ jobs_ (quiesce n) = [].
Proof.
  intros Hr. destruct (quiesce_spec n (start_inv peers ctx n Hr)) as (Hn & Hfree & Hj & He).
  assert (Hz : txn_in_flight (quiesce n) = 0%nat).
  { apply count_zero. intros s [i Hi]%list_elem_of_lookup Hf. rewrite (Hfree i s Hi) in Hf. done. }
  split_and!; [by rewrite lease_txn_count|done| |done]. apply count_zero. intros e Hin Hne. by apply Hne, He.
Qed.

(** ** A run *)

Definition demo_binding : ReplyBinding := mkBinding 5 1 1 1.
Definition demo_gates : Gates := mkGates true 0 true true 8 2.
Definition demo_admission : Admission := mkAdmission demo_gates demo_binding 9000 true (Some (true, false)) true.
Definition demo_owner : Owner := start_owner (λ _, Some (mkPeer true false 1 1 1)) (λ _ _, Ok ()).
Definition demo_start : Node Owner := initial_node demo_owner.
(** Two jobs and a component event; one job is with the driver when the
    transaction expires. *)
Definition demo_admitted : Node Owner := run_admission demo_admission 1000 demo_start.
Definition demo_driver : Node Owner := set_jobs (<[0%nat := mkJob WithDriver (mkTxn 0 1)]> (jobs_ demo_admitted)) demo_admitted.
Definition demo_swept : Node Owner := sweep_transactions [] 3000 demo_driver.

Lemma demo_driver_reachable : reachable demo_owner demo_driver.
Proof.
  eapply rc_step; [eapply rc_step; [apply rc_start|apply (st_admit demo_admission 1000)]|].
  by apply (st_move demo_admitted 0 (mkJob InScheduler (mkTxn 0 1)) WithDriver).
Qed.

Lemma every_lease_has_its_work_witness : txn_in_flight demo_driver = 1%nat ∧ live_use_count (reply_leases_ (port_ demo_driver)) = txn_in_flight demo_driver.
Proof. split; [by vm_compute|]. exact (proj1 (every_lease_has_its_work _ _ demo_driver demo_driver_reachable)). Defined.

Lemma sweep_closes_due_transactions_witness :
  length (jobs_ demo_driver) = 2%nat ∧ length (jobs_ demo_swept) = 1%nat ∧ ∀ j, j ∈ jobs_ demo_swept → j_txn j = mkTxn 0 1 → j_place j = WithDriver.
Proof.
  split; [by vm_compute|]. split; [by vm_compute|].
  exact (proj1 (sweep_closes_due_transactions _ _ demo_driver [] 3000 demo_driver_reachable 0
    (mkSlot (mkToken 0 1) 2500 1 Closing 1 false) ltac:(by vm_compute) ltac:(by vm_compute) ltac:(by vm_compute))).
Defined.

Lemma quiesce_returns_every_lease_witness :
  live_use_count (reply_leases_ (port_ demo_driver)) = 1%nat ∧ live_use_count (reply_leases_ (port_ (quiesce demo_driver))) = 0%nat.
Proof. split; [by vm_compute|]. exact (proj1 (quiesce_returns_every_lease _ _ demo_driver demo_driver_reachable)). Defined.

Lemma probe_matches_acquire_witness :
  probe_acquire demo_binding 9000 1000 initial = Ok tt ∧ fst (acquire demo_binding 9000 1000 initial) = Ok (mkToken 0 1).
Proof.
  split; [|by vm_compute]. rewrite (probe_matches_acquire demo_binding 9000 1000 initial eq_refl). by vm_compute.
Defined.
