(* ===== verification/SealedSlots.v ===== *)
(** * Sealed slot pairs (sdkv1_store.hpp, sdkv1_store.cpp)

    The dual-slot discipline of the persistent SDK records: a record is
    written unsealed, sealed, and read back; at boot the two slots are
    classified and the newest proven record is adopted.  The storage is an
    interface with its contract ([RecordSlotStorage], [RecordSlotStorageLaws]):
    a write that fails may have stopped after any byte.  SHA-256 is a
    parameter. *)

From S2P Require Import Prelude Types Crc32.

(** ** Bytes at fixed offsets *)

Definition be32 (p : list Z) (off : nat) : Z := be_value 32 (take 4 (drop off p)).
Definition be16 (p : list Z) (off : nat) : Z := be_value 16 (take 2 (drop off p)).
(** Overwrites [length bs] bytes from [off]. *)
Definition splice (off : nat) (bs p : list Z) : list Z := take off p ++ bs ++ drop (off + length bs) p.
Definition put_be32 (off : nat) (value : Z) (p : list Z) : list Z := splice off (be_bytes 4 value) p.

Definition is_erased (data : list Z) : bool :=
  match data with
  | fill :: rest => (bool_decide (fill = 0x00) || bool_decide (fill = 0xFF)) && forallb (λ b, bool_decide (b = fill)) rest
  | [] => false
  end.

Definition kSealPending : Z := 0.
Definition kRecordFormat : Z := 1.
Definition kRecordSchema : Z := 1.
Definition kRecordSealOffset : nat := 12.
Definition kRecordSeqOffset : nat := 16.

(** The seal and the CRC over everything before it. *)
Definition reseal (used_len : nat) (seal : Z) (record : list Z) : list Z :=
  let sealed := put_be32 kRecordSealOffset seal record in
  put_be32 (used_len - 4) (crc32_iso_hdlc (take (used_len - 4) sealed)) sealed.

(** ** The storage port *)

(** [RecordSlotStorage]; [slot_restart] is a power cycle. *)
Class RecordSlotStorage (ST : Type) := {
  slot_read : nat → nat → M ST (list Z);
  slot_write : nat → list Z → M ST unit;
  slot_erase : nat → M ST unit;
  slot_restart : ST → ST }.

(** A whole record landed; what lies behind it in the slot is open. *)
Definition landed (data new : list Z) : Prop := take (length data) new = data.
(** A write stopped after [k] bytes. *)
Definition torn (k : nat) (old data new : list Z) : Prop := new = take k data ++ drop k old.

Class RecordSlotStorageLaws (ST : Type) (size : nat) `{RecordSlotStorage ST} := {
  slots_ok : ST → Prop;
  slot_view : ST → nat → list Z;
  view_shape s slot : slots_ok s → length (slot_view s slot) = size ∧ bytes_ok (slot_view s slot);
  read_law s slot r s' :
    slots_ok s → (slot < 2)%nat → slot_read slot size s = (r, s') →
    slots_ok s' ∧ (∀ k, slot_view s' k = slot_view s k) ∧ (∀ bs, r = Ok bs → bs = slot_view s slot);
  write_law s slot data r s' :
    slots_ok s → (slot < 2)%nat → (length data ≤ size)%nat → bytes_ok data → slot_write slot data s = (r, s') →
    slots_ok s' ∧ (∀ k, k ≠ slot → slot_view s' k = slot_view s k) ∧
    match r with
    | Ok _ => landed data (slot_view s' slot)
    | Err _ _ => landed data (slot_view s' slot) ∨
                 ∃ k, (k ≤ length data)%nat ∧ torn k (slot_view s slot) data (slot_view s' slot)
    end;
  erase_law s slot r s' :
    slots_ok s → (slot < 2)%nat → slot_erase slot s = (r, s') →
    slots_ok s' ∧ (∀ k, k ≠ slot → slot_view s' k = slot_view s k) ∧
    (r = Ok tt → is_erased (slot_view s' slot) = true);
  restart_law s : slots_ok s → slots_ok (slot_restart s) ∧ ∀ k, slot_view (slot_restart s) k = slot_view s k }.

(** ** Formats and slot contents *)

Record SealedRecordFormat := mkFormat {
  magic : Z; seal_committed : Z; slot_bytes : nat; min_len : nat; max_len : nat; sequenced : bool;
  structure : list Z → result unit; semantic : list Z → result unit; schema_max : Z }.

Inductive SlotContent := Empty | Pending | Corrupt | Unsupported_ | Valid.
#[global] Instance SlotContent_eq_dec : EqDecision SlotContent.
Proof. solve_decision. Defined.

(** [classify] after the read: the content, the sequence, and whether the
    sequence is proven. *)
Definition classify_bytes (f : SealedRecordFormat) (raw : list Z) : SlotContent * Z * bool :=
  if is_erased raw then (Empty, 0, false)
  else
    let used_len := Z.to_nat (be16 raw 6) in
    let schema := be32 raw 8 in
    let seal := be32 raw kRecordSealOffset in
    if negb (bool_decide (be32 raw 0 = magic f)) || negb (bool_decide (be16 raw 4 = kRecordFormat)) ||
       (used_len <? min_len f)%nat || (max_len f <? used_len)%nat
    then (Corrupt, 0, false)
    else if negb (bool_decide (seal = seal_committed f))
    then (if bool_decide (seal = kSealPending) then Pending else Corrupt, 0, false)
    else
      let record := take used_len raw in
      if negb (is_ok (structure f record)) then (Corrupt, 0, false)
      else
        let seq := if sequenced f then be32 raw kRecordSeqOffset else 0 in
        let proven := sequenced f in
        if negb (bool_decide (crc32_iso_hdlc (take (used_len - 4) raw) = be32 raw (used_len - 4)))
        then (Corrupt, seq, proven)
        else if bool_decide (schema < kRecordSchema) || bool_decide (schema_max f < schema)
        then (Unsupported_, seq, proven)
        else if negb (is_ok (semantic f record)) then (Corrupt, seq, proven)
        else (Valid, seq, proven).

(** ** The pair *)

Record SealedSlotPair := mkPair {
  scratch_ : list Z;
  slot_reserved_ : list (option StatusCode); slot_unreadable_ : list bool;
  active_seq_ : Z; seq_floor_ : Z; active_slot_ : nat;
  has_active_ : bool; initialized_ : bool; quarantined_ : bool; uncertain_ : bool; stale_sibling_ : bool }.

(** A constructed pair over a scratch buffer of [n] bytes. *)
Definition new_pair (n : nat) : SealedSlotPair :=
  mkPair (replicate n 0) [None; None] [false; false] 0 0 0 false false false false false.

Definition set_scratch (x : list Z) (p : SealedSlotPair) : SealedSlotPair :=
  mkPair x (slot_reserved_ p) (slot_unreadable_ p) (active_seq_ p) (seq_floor_ p) (active_slot_ p)
    (has_active_ p) (initialized_ p) (quarantined_ p) (uncertain_ p) (stale_sibling_ p).
Definition set_floor (x : Z) (p : SealedSlotPair) : SealedSlotPair :=
  mkPair (scratch_ p) (slot_reserved_ p) (slot_unreadable_ p) (active_seq_ p) x (active_slot_ p)
    (has_active_ p) (initialized_ p) (quarantined_ p) (uncertain_ p) (stale_sibling_ p).
Definition set_reserved (i : nat) (x : option StatusCode) (p : SealedSlotPair) : SealedSlotPair :=
  mkPair (scratch_ p) (<[i := x]> (slot_reserved_ p)) (slot_unreadable_ p) (active_seq_ p) (seq_floor_ p) (active_slot_ p)
    (has_active_ p) (initialized_ p) (quarantined_ p) (uncertain_ p) (stale_sibling_ p).
Definition set_unreadable (i : nat) (x : bool) (p : SealedSlotPair) : SealedSlotPair :=
  mkPair (scratch_ p) (slot_reserved_ p) (<[i := x]> (slot_unreadable_ p)) (active_seq_ p) (seq_floor_ p) (active_slot_ p)
    (has_active_ p) (initialized_ p) (quarantined_ p) (uncertain_ p) (stale_sibling_ p).
Definition set_active (slot : nat) (seq : Z) (p : SealedSlotPair) : SealedSlotPair :=
  mkPair (scratch_ p) (slot_reserved_ p) (slot_unreadable_ p) seq (seq_floor_ p) slot
    true (initialized_ p) (quarantined_ p) (uncertain_ p) (stale_sibling_ p).
Definition set_flags (initialized quarantined uncertain stale : bool) (p : SealedSlotPair) : SealedSlotPair :=
  mkPair (scratch_ p) (slot_reserved_ p) (slot_unreadable_ p) (active_seq_ p) (seq_floor_ p) (active_slot_ p)
    (has_active_ p) initialized quarantined uncertain stale.

Section Pair.
Context {ST : Type} `{RecordSlotStorage ST} (sha256 : list Z → list Z) (f : SealedRecordFormat).

Definition PM := M (SealedSlotPair * ST).
Definition pair : PM SealedSlotPair := λ s, (Ok (fst s), s).
Definition update (g : SealedSlotPair → SealedSlotPair) : PM unit := λ s, (Ok tt, (g (fst s), snd s)).
Definition on_storage {A} (m : M ST A) : PM A := λ s, let '(r, st) := m (snd s) in (r, (fst s, st)).

(** A read of a whole slot into the scratch buffer. *)
Definition read_scratch (slot : nat) : PM (list Z) :=
  raw ← on_storage (slot_read slot (slot_bytes f));
  update (λ p, set_scratch (raw ++ drop (slot_bytes f) (scratch_ p)) p);;
  mret raw.

(** What the loop of [initialize] learns about a slot; [None] is an
    unreadable slot. *)
Record Scan := mkScan { sc_content : option SlotContent; sc_seq : Z; sc_digest : list Z; sc_error : result unit }.
Definition scan_slot (slot : nat) (s : SealedSlotPair * ST) : Scan * (SealedSlotPair * ST) :=
  let '(r, (p, st)) := read_scratch slot (set_unreadable slot false (set_reserved slot None (fst s)), snd s) in
  match r with
  | Err c d => (mkScan None 0 [] (Err c d), (set_unreadable slot true p, st))
  | Ok raw =>
      let '(content, seq, proven) := classify_bytes f raw in
      let p1 := if proven && bool_decide (seq_floor_ p < seq) then set_floor seq p else p in
      let p2 := if bool_decide (content = Unsupported_) then set_reserved slot (Some Unsupported) p1 else p1 in
      (mkScan (Some content) seq (sha256 (take (Z.to_nat (be16 raw 6)) raw)) (Ok tt), (p2, st))
  end.

Definition holds_content (c : SlotContent) (s : Scan) : bool := bool_decide (sc_content s = Some c).
Definition unreadable (s : Scan) : bool := match sc_content s with None => true | Some _ => false end.
Definition provably_absent (s : Scan) : bool := holds_content Empty s || holds_content Pending s.
Definition read_error (a b : Scan) : result unit := match sc_error a with Ok _ => sc_error b | e => e end.

Definition quarantine (c : StatusCode) (d : string) (p : SealedSlotPair) : result unit * SealedSlotPair :=
  (Err c d, mkPair (scratch_ p) (slot_reserved_ p) (slot_unreadable_ p) (active_seq_ p) (seq_floor_ p) (active_slot_ p)
              false true true (uncertain_ p) (stale_sibling_ p)).
Definition adopt (slot : nat) (seq : Z) (stale : bool) (p : SealedSlotPair) : SealedSlotPair :=
  set_flags true (quarantined_ p) (uncertain_ p) stale (set_active slot seq p).

(** The decision of [initialize] over the two scans. *)
Definition settle (a b : Scan) (p : SealedSlotPair) : result unit * SealedSlotPair :=
  if unreadable a && unreadable b
  then (match read_error a b with Ok _ => Err StorageFailure "record slots unreadable" | e => e end, p)
  else if holds_content Valid a && holds_content Valid b then
    if sequenced f && negb (bool_decide (sc_seq a = sc_seq b))
    then (Ok tt, if bool_decide (sc_seq a < sc_seq b) then adopt 1 (sc_seq b) true p else adopt 0 (sc_seq a) true p)
    else if negb (bool_decide (sc_digest a = sc_digest b)) then quarantine IntegrityError "record slots diverge" p
    else (Ok tt, adopt 0 (sc_seq a) (stale_sibling_ p) p)
  else if holds_content Valid a || holds_content Valid b then
    let '(slot, own, sibling) := if holds_content Valid a then (0%nat, a, b) else (1%nat, b, a) in
    if negb (provably_absent sibling)
    then (Err IntegrityError "record sibling state unproven",
          set_flags true (quarantined_ p) true (stale_sibling_ p) (set_active slot (sc_seq own) p))
    else (Ok tt, adopt slot (sc_seq own) (holds_content Pending sibling) p)
  else if unreadable a || unreadable b then (read_error a b, p)
  else if holds_content Unsupported_ a || holds_content Unsupported_ b then quarantine Unsupported "record schema unsupported" p
  else if holds_content Corrupt a || holds_content Corrupt b then quarantine IntegrityError "record slots corrupt" p
  else (Ok tt, set_flags true (quarantined_ p) (uncertain_ p) (stale_sibling_ p) p).

(** The members [initialize] clears first. *)
Definition cleared (p : SealedSlotPair) : SealedSlotPair :=
  mkPair (scratch_ p) (slot_reserved_ p) (slot_unreadable_ p) 0 0 0 false false false false false.

Definition initialize : PM unit := λ s,
  let p0 := cleared (fst s) in
  if (length (scratch_ p0) <? slot_bytes f)%nat then (Err InvalidArgument "sealed slot pair setup", (p0, snd s))
  else
    let '(a, s1) := scan_slot 0 (p0, snd s) in
    let '(b, s2) := scan_slot 1 s1 in
    let '(r, p) := settle a b (fst s2) in
    (r, (p, snd s2)).

Definition load_active : PM (list Z) :=
  p ← pair;
  fail_if (negb (has_active_ p)) NotFound "no active record";;
  raw ← read_scratch (active_slot_ p);
  let used_len := Z.to_nat (be16 raw 6) in
  fail_if ((used_len <? min_len f)%nat || (max_len f <? used_len)%nat) IntegrityError "active record changed";;
  mret (take used_len raw).

Definition next_seq : PM Z :=
  p ← pair;
  fail_if (bool_decide (seq_floor_ p = UINT32_MAX)) RecoveryRequired "record sequence exhausted";;
  mret (u32 (seq_floor_ p + 1)).

Definition write_slot (slot used_len : nat) (seq : Z) : PM unit :=
  (if sequenced f then update (λ p, set_scratch (put_be32 kRecordSeqOffset seq (scratch_ p)) p) else mret tt);;
  update (λ p, set_scratch (reseal used_len kSealPending (scratch_ p)) p);;
  p1 ← pair;
  on_storage (slot_write slot (take used_len (scratch_ p1)));;
  update (λ p, set_scratch (reseal used_len (seal_committed f) (scratch_ p)) p);;
  p2 ← pair;
  on_storage (slot_write slot (take used_len (scratch_ p2)));;
  let expected := sha256 (take used_len (scratch_ p2)) in
  raw ← read_scratch slot;
  fail_if (negb (bool_decide (sha256 (take used_len raw) = expected))) StorageFailure "record readback mismatch".

Definition bad_length (used_len : nat) : bool := (used_len <? min_len f)%nat || (max_len f <? used_len)%nat.
Definition refuse_reserved (slot : nat) : PM unit :=
  p ← pair;
  match slot_reserved_ p !! slot with
  | Some (Some code) => throw code "record slot owned by other data"
  | _ => mret tt
  end.

(** The caller has encoded a record into the first [used_len] bytes of the
    scratch buffer. *)
Definition commit_prepared (used_len : nat) : PM unit :=
  p ← pair;
  fail_if (negb (initialized_ p)) InvalidState "record store not initialized";;
  fail_if (quarantined_ p) IntegrityError "record store quarantined";;
  fail_if (uncertain_ p) RecoveryRequired "record store storage uncertain";;
  fail_if (bad_length used_len) InvalidArgument "record length";;
  if negb (sequenced f) then
    refuse_reserved 0;; refuse_reserved 1;;
    write_slot 0 used_len 0;; write_slot 1 used_len 0;;
    update (λ p, set_active 0 (active_seq_ p) p)
  else
    let target := if has_active_ p then (1 - active_slot_ p)%nat else 0%nat in
    refuse_reserved target;;
    seq ← next_seq;
    write_slot target used_len seq;;
    update (λ p, set_floor seq (set_active target seq p)).

Definition commit_twin_prepared (used_len : nat) : PM unit :=
  p ← pair;
  fail_if (negb (initialized_ p)) InvalidState "record store not initialized";;
  fail_if (bad_length used_len) InvalidArgument "record length";;
  seq ← (if sequenced f then next_seq else mret 0);
  write_slot 0 used_len seq;;
  (if sequenced f then update (set_floor seq) else mret tt);;
  write_slot 1 used_len seq;;
  update (λ p, set_flags (initialized_ p) false false false (set_active 0 seq (set_reserved 1 None (set_reserved 0 None p)))).

Definition erase_all : PM unit := λ s,
  let '(first, s1) := on_storage (slot_erase 0) s in
  let '(second, s2) := on_storage (slot_erase 1) s1 in
  match first, second with
  | Err c d, _ => (Err c d, s2)
  | _, Err c d => (Err c d, s2)
  | Ok _, Ok _ => initialize s2
  end.

End Pair.
