(* ===== verification/SealedSlotsProps.v ===== *)
(** * Sealed slot pairs: torn writes and the flash invariant

    Records of a fixed length: what a slot can hold after a write that
    stopped at any byte, and the invariant that ties the two slots, the
    adopted record and the commits whose outcome is unknown. *)

From S2P Require Import Prelude Types Crc32 SealedSlots.

(** ** Reading and overwriting ranges *)

Section Ranges.
Implicit Types v p bs : list Z.

Lemma splice_length off bs p : (off + length bs ≤ length p)%nat → length (splice off bs p) = length p.
Proof. intros. unfold splice. rewrite !length_app, length_take, length_drop. lia. Qed.

Lemma splice_app pre old post bs :
  length bs = length old → splice (length pre) bs (pre ++ old ++ post) = pre ++ bs ++ post.
Proof.
  intros Hl. unfold splice. rewrite take_app_length. f_equal. f_equal.
  rewrite drop_app_ge by lia. replace (length pre + length bs - length pre)%nat with (length bs) by lia.
  rewrite Hl. by rewrite drop_app_length.
Qed.

Lemma be32_at pre bs post : length bs = 4%nat → be32 (pre ++ bs ++ post) (length pre) = be_value 32 bs.
Proof. intros Hl. unfold be32. rewrite drop_app_length. by rewrite take_app_le, take_ge by lia. Qed.

Lemma be16_at pre bs post : length bs = 2%nat → be16 (pre ++ bs ++ post) (length pre) = be_value 16 bs.
Proof. intros Hl. unfold be16. rewrite drop_app_length. by rewrite take_app_le, take_ge by lia. Qed.

Lemma be_value4 c : is_u32 c → be_value 32 (be_bytes 4 c) = c.
Proof. intros [??]. by apply be_value_be_bytes. Qed.

Lemma slice_lookup v n off i : (i < n)%nat → take n (drop off v) !! i = v !! (off + i)%nat.
Proof. intros. by rewrite lookup_take_lt, lookup_drop by lia. Qed.

(** Four bytes are determined by the value they spell. *)
Lemma be32_bytes v off :
  (off + 4 ≤ length v)%nat → bytes_ok v → take 4 (drop off v) = be_bytes 4 (be32 v off) ∧ is_u32 (be32 v off).
Proof.
  intros Hl Hv. assert (Hlen : length (take 4 (drop off v)) = 4%nat) by (rewrite length_take, length_drop; lia).
  destruct (be_bytes_be_value 32 (take 4 (drop off v))) as [H1 H2]; [rewrite Hlen; lia|by apply Forall_take, Forall_drop|].
  rewrite Hlen in H1, H2. split; [by rewrite <- H1 at 1|exact H2].
Qed.

Lemma slice_ext v v' off n :
  (∀ i, (off ≤ i < off + n)%nat → v !! i = v' !! i) → take n (drop off v) = take n (drop off v').
Proof.
  intros He. apply list_eq. intros i. destruct (decide (i < n)%nat).
  - rewrite !slice_lookup by done. apply He. lia.
  - rewrite !lookup_take_ge by lia. done.
Qed.

Lemma torn_lookup k old data new i :
  torn k old data new → (k ≤ length data)%nat → new !! i = if decide (i < k)%nat then data !! i else old !! i.
Proof.
  intros -> Hk. case_decide.
  - rewrite lookup_app_l by (rewrite length_take; lia). by rewrite lookup_take_lt.
  - rewrite lookup_app_r by (rewrite length_take; lia). rewrite length_take, lookup_drop. f_equal. lia.
Qed.

End Ranges.

(** ** The record image *)

(** Head, seal, sequence, body and CRC. *)
Definition unsigned_image (hdr : list Z) (seal q : Z) (b : list Z) : list Z :=
  hdr ++ be_bytes 4 seal ++ be_bytes 4 q ++ b.
Definition image (hdr : list Z) (seal q : Z) (b : list Z) : list Z :=
  unsigned_image hdr seal q b ++ be_bytes 4 (crc32_iso_hdlc (unsigned_image hdr seal q b)).

Definition seal_of (v : list Z) : Z := be32 v kRecordSealOffset.
Definition seq_of (v : list Z) : Z := be32 v kRecordSeqOffset.
Definition head_of (v : list Z) : list Z := take 12 v.
Definition body_of (v : list Z) : list Z := take (length v - 24) (drop 20 v).

Section Image.
Context (L : nat) (HL : (24 ≤ L)%nat).

Lemma split_record p : length p = L →
  ∃ s q c, length s = 4%nat ∧ length q = 4%nat ∧ length c = 4%nat ∧ length (head_of p) = 12%nat ∧
  length (body_of p) = (L - 24)%nat ∧ p = head_of p ++ s ++ q ++ body_of p ++ c.
Proof.
  intros Hl. exists (take 4 (drop 12 p)), (take 4 (drop 16 p)), (drop (L - 4) p). unfold head_of, body_of. rewrite Hl.
  rewrite !length_take, !length_drop. split_and!; try lia.
  rewrite <- (take_drop 12 p) at 1. f_equal.
  rewrite <- (take_drop 4 (drop 12 p)) at 1. f_equal. rewrite drop_drop. change (12 + 4)%nat with 16%nat.
  rewrite <- (take_drop 4 (drop 16 p)) at 1. f_equal. rewrite drop_drop. change (16 + 4)%nat with 20%nat.
  rewrite <- (take_drop (L - 24) (drop 20 p)) at 1. f_equal. rewrite drop_drop. f_equal. lia.
Qed.

Lemma image_length hdr s q b : length hdr = 12%nat → length b = (L - 24)%nat → length (image hdr s q b) = L.
Proof. intros. unfold image, unsigned_image. rewrite !length_app, !length_be_bytes. lia. Qed.

Lemma image_bytes hdr s q b : bytes_ok hdr → bytes_ok b → bytes_ok (image hdr s q b).
Proof.
  intros. unfold image, unsigned_image, bytes_ok. rewrite !Forall_app. split_and!; try done; apply be_bytes_ok.
Qed.

Lemma reseal_record hdr s q b c seal :
  length hdr = 12%nat → length s = 4%nat → length q = 4%nat → length b = (L - 24)%nat → length c = 4%nat →
  reseal L seal (hdr ++ s ++ q ++ b ++ c) =
    let m := hdr ++ be_bytes 4 seal ++ q ++ b in m ++ be_bytes 4 (crc32_iso_hdlc m).
Proof.
  intros Hh Hs Hq Hb Hc. unfold reseal. cbv zeta. unfold put_be32. change kRecordSealOffset with 12%nat. rewrite <- Hh at 1 2.
  rewrite splice_app by (by rewrite length_be_bytes).
  set (m := hdr ++ be_bytes 4 seal ++ q ++ b).
  assert (E : hdr ++ be_bytes 4 seal ++ q ++ b ++ c = m ++ c ++ []) by (unfold m; by rewrite app_nil_r, <- !app_assoc).
  assert (Hm : length m = (L - 4)%nat) by (unfold m; rewrite !length_app, length_be_bytes; lia).
  rewrite E, <- Hm, take_app_length. rewrite splice_app by (by rewrite length_be_bytes). by rewrite app_nil_r.
Qed.

(** The two seals of [write_slot], over what the caller prepared. *)
Lemma prepare_pending p q : length p = L →
  reseal L kSealPending (put_be32 kRecordSeqOffset q p) = image (head_of p) kSealPending q (body_of p).
Proof.
  intros Hl. destruct (split_record p Hl) as (s & q0 & c & Hs & Hq & Hc & Hh & Hb & E). rewrite E at 1.
  unfold put_be32. rewrite (app_assoc (head_of p) s). change kRecordSeqOffset with 16%nat.
  assert (H16 : length (head_of p ++ s) = 16%nat) by (rewrite length_app; lia). rewrite <- H16 at 1.
  rewrite splice_app by (rewrite length_be_bytes; lia). rewrite <- app_assoc.
  by rewrite reseal_record by (rewrite ?length_be_bytes; done).
Qed.

Lemma seal_pending hdr q b : length hdr = 12%nat → length b = (L - 24)%nat →
  ∀ seal, reseal L seal (image hdr kSealPending q b) = image hdr seal q b.
Proof.
  intros Hh Hb seal. unfold image at 1, unsigned_image at 1. rewrite <- !app_assoc.
  by rewrite reseal_record by (rewrite ?length_be_bytes; done).
Qed.

Lemma image_fields hdr s q b : length hdr = 12%nat → length b = (L - 24)%nat → is_u32 s → is_u32 q →
  head_of (image hdr s q b) = hdr ∧ seal_of (image hdr s q b) = s ∧ seq_of (image hdr s q b) = q ∧ body_of (image hdr s q b) = b.
Proof.
  intros Hh Hb Hs Hq. set (c := be_bytes 4 (crc32_iso_hdlc (unsigned_image hdr s q b))).
  assert (E : image hdr s q b = hdr ++ be_bytes 4 s ++ be_bytes 4 q ++ b ++ c) by (unfold image, unsigned_image; by rewrite <- !app_assoc).
  pose proof (image_length hdr s q b Hh Hb) as Hlen. split_and!.
  - unfold head_of. by rewrite E, take_app_le, take_ge by lia.
  - unfold seal_of. change kRecordSealOffset with 12%nat. rewrite E, <- Hh. rewrite be32_at by apply length_be_bytes. by apply be_value4.
  - unfold seq_of. change kRecordSeqOffset with 16%nat. rewrite E, app_assoc.
    assert (H16 : length (hdr ++ be_bytes 4 s) = 16%nat) by (rewrite length_app, length_be_bytes; lia). rewrite <- H16.
    rewrite be32_at by apply length_be_bytes. by apply be_value4.
  - unfold body_of. rewrite Hlen, E. assert (H20 : length (hdr ++ be_bytes 4 s ++ be_bytes 4 q) = 20%nat) by (rewrite !length_app, !length_be_bytes; lia).
    replace (hdr ++ be_bytes 4 s ++ be_bytes 4 q ++ b ++ c) with ((hdr ++ be_bytes 4 s ++ be_bytes 4 q) ++ b ++ c) by (by rewrite <- !app_assoc).
    rewrite <- H20, drop_app_length. by rewrite take_app_le, take_ge by lia.
Qed.

(** A record with a matching CRC is its own image. *)
Lemma image_of v : length v = L → bytes_ok v →
  crc32_iso_hdlc (take (L - 4) v) = be32 v (L - 4) → v = image (head_of v) (seal_of v) (seq_of v) (body_of v).
Proof.
  intros Hl Hv Hcrc. destruct (split_record v Hl) as (s & q & c & Hs & Hq & Hc & Hh & Hb & E).
  destruct (be32_bytes v 12) as [Es _]; [lia|done|]. destruct (be32_bytes v 16) as [Eq _]; [lia|done|]. destruct (be32_bytes v (L - 4)) as [Ec _]; [lia|done|].
  assert (Hs' : s = be_bytes 4 (seal_of v)).
  { unfold seal_of. change kRecordSealOffset with 12%nat. rewrite <- Es, E at 1. rewrite <- Hh at 1. rewrite drop_app_length. by rewrite take_app_le, take_ge by lia. }
  assert (Hq' : q = be_bytes 4 (seq_of v)).
  { unfold seq_of. change kRecordSeqOffset with 16%nat. rewrite <- Eq, E at 1. rewrite app_assoc. assert (H16 : length (head_of v ++ s) = 16%nat) by (rewrite length_app; lia).
    rewrite <- H16 at 1. rewrite drop_app_length. by rewrite take_app_le, take_ge by lia. }
  set (m := head_of v ++ s ++ q ++ body_of v). assert (Em : v = m ++ c) by (unfold m; rewrite <- !app_assoc; exact E).
  assert (Hm : length m = (L - 4)%nat) by (unfold m; rewrite !length_app; lia).
  assert (Et : take (L - 4) v = m) by (rewrite Em, <- Hm; apply take_app_length).
  assert (Hc' : c = be_bytes 4 (crc32_iso_hdlc m)).
  { rewrite <- Et, Hcrc, <- Ec, Em at 1. rewrite <- Hm at 1. by rewrite drop_app_length, take_ge by lia. }
  unfold image. change (unsigned_image _ _ _ _) with (head_of v ++ be_bytes 4 (seal_of v) ++ be_bytes 4 (seq_of v) ++ body_of v).
  rewrite <- Hs', <- Hq'. fold m. rewrite <- Hc'. exact Em.
Qed.

End Image.

(** ** Fixed-length sequenced formats *)

(** Every record of the format fills its slot; the first and last byte of the
    commit seal are neither zero nor all ones, so no prefix of a seal is
    taken for the other seal or for an erased slot. *)
Record fixed_format (f : SealedRecordFormat) (L : nat) : Prop := {
  ff_seq : sequenced f = true;
  ff_min : min_len f = L; ff_max : max_len f = L; ff_slot : slot_bytes f = L;
  ff_len : (24 ≤ L)%nat ∧ Z.of_nat L < 65536;
  ff_seal : is_u32 (seal_committed f);
  ff_first : ∀ b, be_bytes 4 (seal_committed f) !! 0%nat = Some b → b ≠ 0;
  ff_last : ∀ b, be_bytes 4 (seal_committed f) !! 3%nat = Some b → b ≠ 0 ∧ b ≠ 0xFF }.

Section Slots.
Context (f : SealedRecordFormat) (L : nat) (F : fixed_format f L).

Abbreviation C := (seal_committed f).

Lemma seal_bytes v i : length v = L → bytes_ok v → seal_of v = C → (i < 4)%nat → v !! (12 + i)%nat = be_bytes 4 C !! i.
Proof.
  intros Hl Hv Hs Hi. destruct (ff_len _ _ F). destruct (be32_bytes v 12) as [E _]; [lia|done|].
  rewrite <- slice_lookup with (n := 4%nat) by done. unfold seal_of in Hs. change kRecordSealOffset with 12%nat in Hs. by rewrite E, Hs.
Qed.

Lemma seal_byte i : (i < 4)%nat → ∃ b, be_bytes 4 C !! i = Some b.
Proof. intros. apply lookup_lt_is_Some_2. by rewrite length_be_bytes. Qed.

(** ** Classification *)

Lemma classify_unsealed v : length v = L → bytes_ok v → seal_of v ≠ C →
  ∃ c, classify_bytes f v = (c, 0, false) ∧ c ≠ Valid ∧ c ≠ Unsupported_.
Proof.
  intros Hl Hv Hs. unfold classify_bytes. destruct (is_erased v); [by exists Empty|]. cbv zeta. destruct (negb _ || _ || _ || _); [by exists Corrupt|].
  rewrite (bool_decide_eq_false_2 (be32 v kRecordSealOffset = _)) by done. cbn [negb]. case_bool_decide; [by exists Pending|by exists Corrupt].
Qed.

Lemma erased_unsealed v : length v = L → bytes_ok v → is_erased v = true → seal_of v ≠ C.
Proof.
  intros Hl Hv He Hs. destruct (ff_len _ _ F) as [HL _]. destruct (seal_byte 3) as [b3 H3]; [lia|]. destruct (ff_last _ _ F b3 H3) as [Hn0 HnF].
  pose proof (seal_bytes v 3 Hl Hv Hs ltac:(lia)) as E3. rewrite H3 in E3. destruct v as [|fill v']; [done|]. cbn in He, E3.
  apply andb_true_iff in He as [Hf Hall]. rewrite forallb_forall in Hall. specialize (Hall b3). rewrite bool_decide_eq_true in Hall.
  rewrite <- Hall in Hf; [|apply list_elem_of_In; by eapply list_elem_of_lookup_2]. apply orb_true_iff in Hf as [?%bool_decide_eq_true|?%bool_decide_eq_true]; done.
Qed.

Lemma classify_sealed v c q pr : length v = L → bytes_ok v → seal_of v = C → classify_bytes f v = (c, q, pr) →
  c ≠ Empty ∧ c ≠ Pending ∧ (pr = true → q = seq_of v) ∧ (c = Valid ∨ c = Unsupported_ → pr = true) ∧
  (c = Valid → v = image (head_of v) C (seq_of v) (body_of v)).
Proof.
  intros Hl Hv Hs. unfold classify_bytes. destruct (is_erased v) eqn:He; [by destruct (erased_unsealed v Hl Hv He)|]. cbv zeta.
  destruct (negb _ || _ || _ || _) eqn:Hh; [intros [= <- <- <-]; naive_solver|].
  apply orb_false_iff in Hh as [Hh Hmx]. apply orb_false_iff in Hh as [_ Hmn]. apply Nat.ltb_ge in Hmx, Hmn. rewrite (ff_min _ _ F) in Hmn. rewrite (ff_max _ _ F) in Hmx.
  assert (Hu : Z.to_nat (be16 v 6) = L) by lia. rewrite Hu.
  unfold seal_of in Hs. rewrite (bool_decide_eq_true_2 (be32 v kRecordSealOffset = _)) by done. cbn [negb]. rewrite (ff_seq _ _ F).
  case_match; [intros [= <- <- <-]; naive_solver|]. destruct (bool_decide_reflect (crc32_iso_hdlc (take (L - 4) v) = be32 v (L - 4))) as [Hc|]; cbn [negb].
  2: { intros [= <- <- <-]. unfold seq_of. naive_solver. }
  case_match; [intros [= <- <- <-]; unfold seq_of; naive_solver|]. case_match; [intros [= <- <- <-]; unfold seq_of; naive_solver|].
  intros [= <- <- <-]. unfold seq_of. split_and!; try done. intros _. destruct (ff_len _ _ F).
  pose proof (image_of L ltac:(lia) v Hl Hv Hc) as E. unfold seal_of in E. rewrite Hs in E. exact E.
Qed.

(** ** What a slot may hold besides the adopted record *)

Context (hdr : list Z) (Hhdr : length hdr = 12%nat).

(** A body the typed store accepts: sealed under any sequence it is valid. *)
Definition good_body (b : list Z) : Prop :=
  length b = (L - 24)%nat ∧ bytes_ok b ∧ ∀ q, is_u32 q → classify_bytes f (image hdr C q b) = (Valid, q, true).

(** The other slot: unsealed, older than [n], or one of the undecided bodies
    [D] with the next sequence. *)
Definition other_ok (n : Z) (D : list (list Z)) (v : list Z) : Prop :=
  seal_of v = C → head_of v = hdr ∧ (seq_of v < n ∨ (seq_of v = n + 1 ∧ body_of v ∈ D)).

Lemma torn_length k old data new : torn k old data new → (k ≤ length data)%nat → length old = length data → length new = length data.
Proof. intros -> Hk Ho. rewrite length_app, length_take, length_drop. lia. Qed.

(** Phase 1: the unsealed image of a new record. *)
Lemma torn_pending k old new q b n D :
  length old = L → bytes_ok old → bytes_ok new → length b = (L - 24)%nat → is_u32 q →
  (k ≤ L)%nat → torn k old (image hdr kSealPending q b) new → other_ok n D old → other_ok n D new.
Proof.
  intros Hlo Hvo Hvn Hb Hq Hk Ht Ho Hs. destruct (ff_len _ _ F) as [HL _].
  pose proof (image_length L HL hdr kSealPending q b Hhdr Hb) as Hdl. assert (Hln : length new = L) by (rewrite <- Hdl; apply (torn_length k old _ new); [done|lia|lia]).
  assert (Hlk : ∀ i, new !! i = if decide (i < k)%nat then image hdr kSealPending q b !! i else old !! i) by (intros; apply torn_lookup; [done|lia]).
  destruct (decide (12 < k)%nat) as [Hgt|Hle].
  - exfalso. destruct (seal_byte 0) as [b0 H0]; [lia|]. apply (ff_first _ _ F b0 H0). pose proof (seal_bytes new 0 Hln Hvn Hs ltac:(lia)) as E. rewrite H0 in E.
    change (12 + 0)%nat with 12%nat in E. rewrite Hlk, decide_True in E by lia. unfold image, unsigned_image in E. rewrite <- !app_assoc in E.
    rewrite lookup_app_r, Hhdr in E by lia. by injection E as <-.
  - assert (Hsl : ∀ off m, (12 ≤ off)%nat → take m (drop off new) = take m (drop off old)).
    { intros off m Hoff. apply slice_ext. intros i Hi. rewrite Hlk, decide_False by lia. done. }
    assert (Eo : seal_of old = C) by (rewrite <- Hs; unfold seal_of, be32; by rewrite Hsl by (unfold kRecordSealOffset; lia)).
    destruct (Ho Eo) as [Hh Hcase]. assert (En : new = old).
    { apply list_eq. intros i. rewrite Hlk. case_decide; [|done]. rewrite <- (lookup_take_lt old 12) by lia. fold (head_of old). rewrite Hh.
      unfold image, unsigned_image. rewrite <- !app_assoc. by rewrite lookup_app_l by lia. }
    by rewrite En.
Qed.

(** Phase 2: the seal over the landed unsealed image. *)
Lemma torn_sealed k new q b n D :
  bytes_ok new → length b = (L - 24)%nat → bytes_ok b → bytes_ok hdr → is_u32 q → (k ≤ L)%nat →
  torn k (image hdr kSealPending q b) (image hdr C q b) new → q = n + 1 → other_ok n (b :: D) new.
Proof.
  intros Hvn Hb Hbb Hhb Hq Hk Ht Hqn Hs. destruct (ff_len _ _ F) as [HL _].
  pose proof (image_length L HL hdr kSealPending q b Hhdr Hb) as H1. pose proof (image_length L HL hdr C q b Hhdr Hb) as H2.
  assert (Hln : length new = L) by (rewrite <- H2; apply (torn_length k _ _ _ Ht); lia).
  assert (Hag : ∀ i, (i < 12 ∨ 16 ≤ i < L - 4)%nat → new !! i = image hdr C q b !! i).
  { intros i Hi. rewrite (torn_lookup k _ _ _ i Ht) by lia. case_decide; [done|]. unfold image, unsigned_image. rewrite <- !app_assoc.
    destruct Hi as [Hi|Hi]; [by rewrite !lookup_app_l by lia|]. rewrite !(lookup_app_r hdr) by lia. rewrite Hhdr.
    rewrite (lookup_app_r (be_bytes 4 kSealPending)), (lookup_app_r (be_bytes 4 C)) by (rewrite length_be_bytes; lia). rewrite !length_be_bytes.
    rewrite !(app_assoc (be_bytes 4 q) b). rewrite !(lookup_app_l (be_bytes 4 q ++ b)) by (rewrite length_app, length_be_bytes; lia). done. }
  destruct (image_fields L HL hdr C q b Hhdr Hb (ff_seal _ _ F) Hq) as (F1 & F2 & F3 & F4).
  split; [|right; split].
  - unfold head_of in *. change (take 12 new) with (take 12 (drop 0 new)). rewrite <- F1. change (take 12 ?x) with (take 12 (drop 0 x)).
    apply slice_ext. intros i Hi. apply Hag. lia.
  - rewrite <- Hqn, <- F3. unfold seq_of, be32. f_equal. apply slice_ext. intros i Hi. apply Hag. unfold kRecordSeqOffset in Hi. lia.
  - rewrite <- F4 at 1. unfold body_of. rewrite Hln, H2. erewrite slice_ext; [by left|]. intros i Hi. apply Hag. lia.
Qed.

End Slots.
