(* ===== verification/SealedSlotsRun.v ===== *)
(** * Sealed slot pairs: crash safety

    Runs of initialisations, commits, failed writes, failed reads and power
    cycles of a pair with a fixed-length sequenced format. *)

From S2P Require Import Prelude Types Crc32 SealedSlots SealedSlotsProps.

(** The pair may be used: initialised and not impaired. *)
Definition usable (p : SealedSlotPair) : Prop := initialized_ p = true ∧ quarantined_ p = false ∧ uncertain_ p = false.
Definition usable_b (p : SealedSlotPair) : bool := initialized_ p && negb (quarantined_ p) && negb (uncertain_ p).
Lemma usable_iff p : usable_b p = true ↔ usable p.
Proof. unfold usable_b, usable. destruct (initialized_ p), (quarantined_ p), (uncertain_ p); naive_solver. Qed.
Lemma usable_scratch x p : usable (set_scratch x p) ↔ usable p.
Proof. by destruct p. Qed.

Section Run.
Context {ST : Type} {L : nat} `{RecordSlotStorageLaws ST L} (sha256 : list Z → list Z).
Context (f : SealedRecordFormat) (F : fixed_format f L) (hdr : list Z) (Hhdr : length hdr = 12%nat) (Hhb : bytes_ok hdr).

Abbreviation C := (seal_committed f).
Abbreviation good := (good_body f L hdr).
Abbreviation other := (other_ok f hdr).

(** ** The flash *)

(** Slot [A] holds the last committed record, with sequence [n]; with no
    record yet, [A] is the slot that is written second. *)
Record flash (A : nat) (n : Z) (w : option (list Z)) (D : list (list Z)) (st : ST) : Prop := {
  fl_ok : slots_ok st;
  fl_slot : (A < 2)%nat;
  fl_seq : 0 ≤ n ≤ UINT32_MAX;
  fl_doubt : Forall good D;
  fl_active : match w with
              | Some b => 0 < n ∧ slot_view st A = image hdr C n b ∧ good b
              | None => n = 0 ∧ A = 1%nat ∧ seal_of (slot_view st 1) ≠ C
              end;
  fl_other : other n D (slot_view st (1 - A)) }.

Lemma view_len st k : slots_ok st → length (slot_view st k) = L.
Proof. intros. by apply view_shape. Qed.
Lemma view_bytes st k : slots_ok st → bytes_ok (slot_view st k).
Proof. intros. by apply view_shape. Qed.

Lemma flash_same A n w D st st' :
  flash A n w D st → slots_ok st' → (∀ k, slot_view st' k = slot_view st k) → flash A n w D st'.
Proof. intros [? ? ? ? Ha Ho] Hok Hv. split; try done; rewrite ?Hv; [|done]. destruct w; by rewrite ?Hv. Qed.

Lemma read_scratch_spec slot p st r p' st' :
  slots_ok st → (slot < 2)%nat → length (scratch_ p) = L → read_scratch f slot (p, st) = (r, (p', st')) →
  slots_ok st' ∧ (∀ k, slot_view st' k = slot_view st k) ∧
  (∃ x, length x = L ∧ p' = set_scratch x p) ∧ (∀ raw, r = Ok raw → raw = slot_view st slot).
Proof using F. clear Hhdr Hhb.
  intros Hok Hs Hl. unfold read_scratch, mbind, M_bind, on_storage, update, mret, M_ret. cbn. rewrite (ff_slot _ _ F).
  destruct (slot_read slot L st) as [[raw|c d] st1] eqn:Hr; destruct (read_law _ _ _ _ Hok Hs Hr) as (Hok1 & Hv & Hraw); intros [= <- <- <-].
  - specialize (Hraw raw eq_refl). split_and!; [done|done| |by intros ? [= <-]]. eexists. split; [|done].
    rewrite drop_ge, app_nil_r by lia. rewrite Hraw. by apply view_len.
  - split_and!; [done|done| |done]. exists (scratch_ p). split; [done|by destruct p].
Qed.

(** ** Writing a slot *)

Lemma landed_eq data v : length v = length data → landed data v → v = data.
Proof. intros Hl Hd. rewrite <- Hd. by rewrite take_ge by lia. Qed.

Lemma write_slot_spec slot n q b D p st r p' st' :
  slots_ok st → (slot < 2)%nat → length (scratch_ p) = L → head_of (scratch_ p) = hdr → body_of (scratch_ p) = b → good b →
  is_u32 q → q = n + 1 → other n D (slot_view st slot) →
  write_slot sha256 f slot L q (p, st) = (r, (p', st')) →
  slots_ok st' ∧ (∀ k, k ≠ slot → slot_view st' k = slot_view st k) ∧ (∃ x, length x = L ∧ p' = set_scratch x p) ∧
  match r with Ok _ => slot_view st' slot = image hdr C q b | Err _ _ => other n (b :: D) (slot_view st' slot) end.
Proof.
  intros Hok Hs Hl Hh Hb (Hgl & Hgb & Hgv) Hq Hqn Ho. destruct (ff_len _ _ F) as [HL _].
  assert (Hil : ∀ s, length (image hdr s q b) = L) by (intros; by apply image_length).
  assert (Hib : ∀ s, bytes_ok (image hdr s q b)) by (intros; by apply image_bytes).
  assert (Hmono : ∀ v, other n D v → other n (b :: D) v) by (intros v Hv Hsl; destruct (Hv Hsl) as [? [?|[? ?]]]; split; [done|by left|done|right; split; [done|by right]]).
  unfold write_slot. rewrite (ff_seq _ _ F). unfold mbind, M_bind, update, pair, on_storage. cbn [fst snd scratch_ set_scratch].
  rewrite (prepare_pending L HL _ q Hl), Hh, Hb. rewrite (take_ge (image hdr kSealPending q b)) by (rewrite Hil; lia).
  destruct (slot_write slot (image hdr kSealPending q b) st) as [r1 st1] eqn:H1.
  destruct (write_law _ _ _ _ _ Hok Hs ltac:(by rewrite Hil) (Hib _) H1) as (Hok1 & Hv1 & Hr1).
  assert (Hl1 : length (slot_view st1 slot) = L) by (by apply view_len).
  assert (Hp1 : ∀ v, v = image hdr kSealPending q b → other n (b :: D) v).
  { intros v -> Hsl. destruct (image_fields L HL hdr kSealPending q b Hhdr Hgl ltac:(done) Hq) as (_ & F2 & _). rewrite F2 in Hsl.
    destruct (seal_byte f 0) as [b0 Hb0]; [lia|]. exfalso. apply (ff_first _ _ F b0 Hb0). rewrite <- Hsl in Hb0. by injection Hb0 as <-. }
  destruct r1 as [[]|c1 d1].
  2: { intros [= <- <- <-]. split_and!; [done|done|exists (image hdr kSealPending q b); split; [apply Hil|by destruct p]|].
       destruct Hr1 as [Hld|(k & Hk & Ht)]; [apply Hp1, landed_eq; [by rewrite Hil|done]|]. rewrite Hil in Hk.
       apply Hmono. apply (torn_pending f L F hdr Hhdr k (slot_view st slot) _ q b); [by apply view_len|by apply view_bytes|by apply view_bytes|done..]. }
  apply landed_eq in Hr1; [|by rewrite Hil]. cbn [fst snd scratch_ set_scratch]. rewrite (seal_pending L HL hdr q b Hhdr Hgl C).
  rewrite (take_ge (image hdr C q b)) by (rewrite Hil; lia).
  destruct (slot_write slot (image hdr C q b) st1) as [r2 st2] eqn:H2.
  destruct (write_law _ _ _ _ _ Hok1 Hs ltac:(by rewrite Hil) (Hib _) H2) as (Hok2 & Hv2 & Hr2). assert (Hl2 : length (slot_view st2 slot) = L) by (by apply view_len).
  assert (Hvs : ∀ k, k ≠ slot → slot_view st2 k = slot_view st k) by (intros; rewrite Hv2, Hv1; done).
  assert (Hp2 : ∀ v, v = image hdr C q b → other n (b :: D) v).
  { intros v -> _. destruct (image_fields L HL hdr C q b Hhdr Hgl (ff_seal _ _ F) Hq) as (F1 & _ & F3 & F4). rewrite F1, F3, F4. split; [done|]. right. split; [done|by left]. }
  destruct r2 as [[]|c2 d2].
  2: { intros [= <- <- <-]. split_and!; [done|done|exists (image hdr C q b); split; [apply Hil|by destruct p]|].
       destruct Hr2 as [Hld|(k & Hk & Ht)]; [apply Hp2, landed_eq; [by rewrite Hil|done]|]. rewrite Hil in Hk. rewrite Hr1 in Ht.
       apply (torn_sealed f L F hdr Hhdr k _ q b); [by apply view_bytes|done..]. }
  apply landed_eq in Hr2; [|by rewrite Hil]. cbn [fst snd].
  set (pp := set_scratch _ _). assert (Hpp : pp = set_scratch (image hdr C q b) p) by (by destruct p).
  destruct (read_scratch f slot (pp, st2)) as [r3 [p3 st3]] eqn:H3.
  destruct (read_scratch_spec slot pp st2 r3 p3 st3 Hok2 Hs ltac:(rewrite Hpp; apply Hil) H3) as (Hok3 & Hv3 & (x & Hx & Hp3) & Hraw).
  assert (Ep3 : p3 = set_scratch x p) by (rewrite Hp3, Hpp; by destruct p).
  destruct r3 as [raw|c3 d3].
  - specialize (Hraw raw eq_refl). rewrite Hraw, Hr2, (take_ge (image hdr C q b)) by (rewrite Hil; lia). unfold fail_if. rewrite bool_decide_eq_true_2 by done. cbn [negb].
    intros [= <- <- <-]. split_and!; [done|intros; rewrite Hv3; auto|eauto|by rewrite Hv3].
  - intros [= <- <- <-]. split_and!; [done|intros; rewrite Hv3; auto|eauto|]. rewrite Hv3. by apply Hp2.
Qed.

(** ** Initialisation *)

(** RAM fields that a scan may change: scratch, per-slot flags and floor. *)
Definition scanned (p p' : SealedSlotPair) : Prop :=
  length (scratch_ p') = L ∧ active_slot_ p' = active_slot_ p ∧ active_seq_ p' = active_seq_ p ∧ has_active_ p' = has_active_ p ∧
  initialized_ p' = initialized_ p ∧ quarantined_ p' = quarantined_ p ∧ uncertain_ p' = uncertain_ p.

(** What a scan of a slot holding [v] says. *)
Definition seen (v : list Z) (floor : Z) (s : Scan) (floor' : Z) : Prop :=
  match sc_content s with
  | None => floor' = floor
  | Some c => ∃ pr, classify_bytes f v = (c, sc_seq s, pr) ∧ floor' = if pr then Z.max floor (sc_seq s) else floor
  end.

Lemma scan_slot_spec slot p st s p' st' :
  slots_ok st → (slot < 2)%nat → length (scratch_ p) = L → scan_slot sha256 f slot (p, st) = (s, (p', st')) →
  slots_ok st' ∧ (∀ k, slot_view st' k = slot_view st k) ∧ scanned p p' ∧ seen (slot_view st slot) (seq_floor_ p) s (seq_floor_ p').
Proof using F. clear Hhdr Hhb.
  intros Hok Hs Hl. unfold scan_slot. cbn [fst snd]. set (p0 := set_unreadable _ _ _).
  destruct (read_scratch f slot (p0, st)) as [r [p1 st1]] eqn:Hr.
  destruct (read_scratch_spec slot p0 st r p1 st1 Hok Hs ltac:(by destruct p) Hr) as (Hok1 & Hv & (x & Hx & ->) & Hraw).
  destruct r as [raw|c d].
  - rewrite (Hraw raw eq_refl). destruct (classify_bytes f (slot_view st slot)) as [[c q] pr] eqn:Hc. intros [= <- <- <-].
    split_and!; [done|done| |].
    + unfold scanned. case_match; case_match; cbn; done.
    + cbn [sc_content seen sc_seq]. exists pr. split; [done|]. assert (E : ∀ g o, seq_floor_ (if bool_decide (c = Unsupported_) then set_reserved slot o g else g) = seq_floor_ g) by (intros; by case_bool_decide).
      rewrite E. clear E. destruct pr; cbn [andb]; [|done].
      change (seq_floor_ (set_scratch x p0)) with (seq_floor_ p). case_bool_decide; [cbn [seq_floor_ set_floor]; lia|].
      change (seq_floor_ (set_scratch x p0)) with (seq_floor_ p). lia.
  - intros [= <- <- <-]. split_and!; [done|done|by unfold scanned|done].
Qed.

(** RAM agrees with the flash. *)
Definition agrees (p : SealedSlotPair) (A : nat) (n : Z) (w : option (list Z)) : Prop :=
  seq_floor_ p = n ∧ match w with Some _ => has_active_ p = true ∧ active_slot_ p = A ∧ active_seq_ p = n | None => has_active_ p = false end.

Definition absent (s : Scan) : Prop := sc_content s = Some Empty ∨ sc_content s = Some Pending.
Definition pick (a b : Scan) (k : nat) : Scan := match k with O => a | _ => b end.

(** When the outcome is usable, and what was adopted. *)
Lemma settle_usable a b p r p' :
  sequenced f = true → initialized_ p = false → quarantined_ p = false → uncertain_ p = false → has_active_ p = false →
  settle f a b p = (r, p') → usable p' →
  length (scratch_ p') = length (scratch_ p) ∧ seq_floor_ p' = seq_floor_ p ∧
  ((∃ k, (k < 2)%nat ∧ sc_content (pick a b k) = Some Valid ∧
      (absent (pick a b (1 - k)) ∨ (sc_content (pick a b (1 - k)) = Some Valid ∧ sc_seq (pick a b (1 - k)) ≤ sc_seq (pick a b k))) ∧
      has_active_ p' = true ∧ active_slot_ p' = k ∧ active_seq_ p' = sc_seq (pick a b k)) ∨
   (absent a ∧ absent b ∧ has_active_ p' = false)).
Proof using F. clear Hhdr Hhb hdr sha256.
  intros Hsq Hi Hq Hu Ha. unfold settle, unreadable, provably_absent, holds_content, quarantine, adopt, usable, absent. rewrite Hsq.
  destruct (sc_content a) as [[]|] eqn:Ea, (sc_content b) as [[]|] eqn:Eb;
    do 2 (repeat match goal with |- context [bool_decide (@eq (option SlotContent) ?x ?y)] =>
      first [rewrite (bool_decide_eq_true_2 (x = y)) by done | rewrite (bool_decide_eq_false_2 (x = y)) by done] end;
    cbn; rewrite ?Ea, ?Eb); intros Hst (U1 & U2 & U3);
    try (injection Hst as <- <-; cbn in *; congruence ||
         (split; [done|]; split; [done|];
          first [solve [left; exists 0%nat; cbn; rewrite ?Ea, ?Eb; split_and!; try done; try lia; left; naive_solver]
                |solve [left; exists 1%nat; cbn; rewrite ?Ea, ?Eb; split_and!; try done; try lia; left; naive_solver]
                |right; naive_solver])).
  (* both valid *)
  revert Hst. destruct (bool_decide_reflect (sc_seq a = sc_seq b)) as [He|Hne]; cbn.
  - destruct (bool_decide_reflect (sc_digest a = sc_digest b)); cbn; intros Hst; injection Hst as <- <-; cbn in *; [|congruence].
    split; [done|]. split; [done|]. left. exists 0%nat. cbn. split_and!; try done; try lia. right. split; [done|lia].
  - destruct (bool_decide_reflect (sc_seq a < sc_seq b)); intros Hst; injection Hst as <- <-; cbn in *;
      (split; [done|]; split; [done|]; left); [exists 1%nat|exists 0%nat]; cbn; split_and!; try done; try lia; right; (split; [done|lia]).
Qed.

Definition contrib (v : list Z) : Z := let '(_, q, pr) := classify_bytes f v in if pr then q else 0.

Lemma contrib_nonneg st k : slots_ok st → 0 ≤ contrib (slot_view st k).
Proof using F. clear Hhdr Hhb hdr sha256.
  intros Hok. unfold contrib. destruct (classify_bytes f (slot_view st k)) as [[c q] pr] eqn:Hc. destruct pr; [|done].
  destruct (decide (seal_of (slot_view st k) = C)) as [Hs|Hs].
  - destruct (classify_sealed f L F _ c q true (view_len st k Hok) (view_bytes st k Hok) Hs Hc) as (_ & _ & Hq & _). rewrite (Hq eq_refl).
    destruct (ff_len _ _ F). destruct (be32_bytes (slot_view st k) 16) as [_ [? _]]; [by rewrite view_len; [lia|]|by apply view_bytes|done].
  - destruct (classify_unsealed f L _ (view_len st k Hok) (view_bytes st k Hok) Hs) as (c' & Hc' & _). rewrite Hc' in Hc. done.
Qed.

Lemma contrib_unsealed st k : slots_ok st → seal_of (slot_view st k) ≠ C → contrib (slot_view st k) = 0.
Proof using F. clear Hhdr Hhb hdr sha256.
  intros Hok Hs. destruct (classify_unsealed f L _ (view_len st k Hok) (view_bytes st k Hok) Hs) as (c & Hc & _). unfold contrib. by rewrite Hc.
Qed.

(** Nothing undecided is left once the adopted slot was the newest. *)
Lemma flash_stay A n w D st :
  flash A n w D st → (seal_of (slot_view st (1 - A)) = C → seq_of (slot_view st (1 - A)) < n) → flash A n w [] st.
Proof. intros [? ? ? ? ? Ho] Hlt. split; try done. intros Hs. destruct (Ho Hs) as [Hh _]. split; [done|]. left. by apply Hlt. Qed.

(** The other slot holds a committed record with the next sequence. *)
Lemma flash_commit A n w D st st' b :
  flash A n w D st → good b → is_u32 (n + 1) → slots_ok st' → slot_view st' A = slot_view st A →
  slot_view st' (1 - A) = image hdr C (n + 1) b → flash (1 - A) (n + 1) (Some b) [] st'.
Proof.
  intros [_ HA Hn _ Ha _] Hg Hu Hok HvA Hv. destruct (ff_len _ _ F) as [HL _].
  split; [done|lia|unfold in_range, UINT32_MAX in *; lia|constructor|split_and!; [lia|done|done]|].
  replace (1 - (1 - A))%nat with A by lia. rewrite HvA. intros Hs. destruct w as [x|]; [|by destruct Ha as (_ & -> & ?)].
  destruct Ha as (Hpos & Hva & Hgb & _). rewrite Hva. destruct (image_fields L HL hdr C n x Hhdr Hgb (ff_seal _ _ F)) as (F1 & _ & F3 & _).
  { unfold in_range, UINT32_MAX in *. lia. }
  rewrite F1, F3. split; [done|]. left. lia.
Qed.

(** The outcome of a commit is unknown. *)
Lemma flash_doubt A n w D st st' b :
  flash A n w D st → good b → slots_ok st' → slot_view st' A = slot_view st A → other n (b :: D) (slot_view st' (1 - A)) → flash A n w (b :: D) st'.
Proof.
  intros [_ HA Hn HD Ha _] Hg Hok HvA Ho. split; try done; [by constructor|]. destruct w as [x|]; [by rewrite HvA|]. destruct Ha as (? & -> & ?). by rewrite HvA.
Qed.

Lemma active_class A n b D st : flash A n (Some b) D st → classify_bytes f (slot_view st A) = (Valid, n, true).
Proof. intros [_ _ Hn _ (Hp & -> & Hg) _]. apply Hg. unfold in_range, UINT32_MAX in *. lia. Qed.

Lemma other_valid A n w D st q pr : flash A n w D st → classify_bytes f (slot_view st (1 - A)) = (Valid, q, pr) →
  pr = true ∧ q = seq_of (slot_view st (1 - A)) ∧ (q < n ∨ (q = n + 1 ∧ is_u32 q ∧ body_of (slot_view st (1 - A)) ∈ D ∧
    slot_view st (1 - A) = image hdr C (n + 1) (body_of (slot_view st (1 - A))))).
Proof.
  intros [Hok _ _ _ _ Ho] Hc. destruct (decide (seal_of (slot_view st (1 - A)) = C)) as [Hs|Hs].
  - destruct (classify_sealed f L F _ _ _ _ (view_len st _ Hok) (view_bytes st _ Hok) Hs Hc) as (_ & _ & Hq & Hpr & Him).
    specialize (Hpr (or_introl eq_refl)). specialize (Hq Hpr). specialize (Him eq_refl). destruct (Ho Hs) as [Hh Hcase]. split_and!; [done|done|].
    rewrite Hq. destruct Hcase as [?|[Heq Hin]]; [by left|]. right. rewrite Hh, Heq in Him. split_and!; [done| |done|done].
    destruct (ff_len _ _ F). destruct (be32_bytes (slot_view st (1 - A)) 16) as [_ Hu]; [by rewrite view_len; [lia|]|by apply view_bytes|exact Hu].
  - destruct (classify_unsealed f L _ (view_len st _ Hok) (view_bytes st _ Hok) Hs) as (c & Hc' & Hne & _). rewrite Hc' in Hc. by injection Hc as ->.
Qed.

Lemma absent_unsealed st k c q pr : slots_ok st → classify_bytes f (slot_view st k) = (c, q, pr) → c = Empty ∨ c = Pending → seal_of (slot_view st k) ≠ C.
Proof.
  intros Hok Hc He Hs. destruct (classify_sealed f L F _ _ _ _ (view_len st k Hok) (view_bytes st k Hok) Hs Hc) as (H1 & H2 & _). destruct He; done.
Qed.

Definition outcome (a b : Scan) (p' : SealedSlotPair) : Prop :=
  (∃ k, (k < 2)%nat ∧ sc_content (pick a b k) = Some Valid ∧
     (absent (pick a b (1 - k)) ∨ (sc_content (pick a b (1 - k)) = Some Valid ∧ sc_seq (pick a b (1 - k)) ≤ sc_seq (pick a b k))) ∧
     has_active_ p' = true ∧ active_slot_ p' = k ∧ active_seq_ p' = sc_seq (pick a b k)) ∨
  (absent a ∧ absent b ∧ has_active_ p' = false).

Definition scans (st : ST) (a b : Scan) : Prop :=
  ∀ k c, (k < 2)%nat → sc_content (pick a b k) = Some c → ∃ pr, classify_bytes f (slot_view st k) = (c, sc_seq (pick a b k), pr).

Lemma adopt_spec A n w D st a b p' :
  flash A n w D st → scans st a b → outcome a b p' →
  (∀ k, (k < 2)%nat → seq_floor_ p' = Z.max (contrib (slot_view st k)) (contrib (slot_view st (1 - k)))) →
  ∃ A' n' w', flash A' n' w' [] st ∧ agrees p' A' n' w' ∧ (w' = w ∨ ∃ b, b ∈ D ∧ w' = Some b).
Proof.
  intros Hf Hsc Hout Hfl. pose proof (fl_slot _ _ _ _ _ Hf) as HA. pose proof (fl_ok _ _ _ _ _ Hf) as Hok.
  assert (Habs : ∀ k, (k < 2)%nat → absent (pick a b k) → seal_of (slot_view st k) ≠ C).
  { intros k Hk Hab. destruct Hab as [E|E]; destruct (Hsc k _ Hk E) as [pr Hc]; eapply absent_unsealed; eauto. }
  destruct Hout as [(k & Hk & Hval & Hsib & Hact & Hslot & Hseq)|(Ha & Hb & Hact)].
  2: { assert (w = None) as ->.
       { destruct w as [x|]; [|done]. pose proof (active_class _ _ _ _ _ Hf) as Hc. destruct (Hsc A) with (c := Valid) as [pr Hc']; [done| |].
         - destruct A as [|[|]]; [destruct Ha as [E|E]|destruct Hb as [E|E]|lia]; destruct (Hsc _ _ HA E) as [pr Hc']; rewrite Hc in Hc'; done.
         - exfalso. apply (Habs A HA); [by destruct A as [|[|]]; [| |lia]|]. pose proof (classify_unsealed f L _ (view_len st A Hok) (view_bytes st A Hok)) as Hun.
           destruct (decide (seal_of (slot_view st A) = C)) as [|Hn']; [done|]. destruct (Hun Hn') as (c0 & Hc0 & Hne & _). rewrite Hc0 in Hc. by injection Hc as ->. }
       exists A, n, None. destruct (fl_active _ _ _ _ _ Hf) as (-> & -> & Hns). split_and!; [|split; [|done]|by left].
       - apply (flash_stay _ _ _ D); [done|]. intros Hs. exfalso. by apply (Habs 0%nat ltac:(lia) Ha).
       - rewrite (Hfl 0%nat) by lia. rewrite !contrib_unsealed; [done|done|exact Hns|done|apply (Habs 0%nat ltac:(lia) Ha)]. }
  destruct (Hsc k Valid Hk Hval) as [pr Hcv]. destruct (decide (k = A)) as [->|Hne].
  - (* the adopted slot is the last committed one *)
    destruct w as [x|].
    2: { exfalso. destruct (fl_active _ _ _ _ _ Hf) as (_ & -> & Hns). destruct (classify_unsealed f L _ (view_len st 1 Hok) (view_bytes st 1 Hok) Hns) as (c0 & Hc0 & Hn0 & _).
         rewrite Hc0 in Hcv. by injection Hcv as ->. }
    pose proof (active_class _ _ _ _ _ Hf) as Hca. rewrite Hca in Hcv. injection Hcv as Hqe <-. exists A, n, (Some x).
    assert (Hst : (seal_of (slot_view st (1 - A)) = C → seq_of (slot_view st (1 - A)) < n) ∧ contrib (slot_view st (1 - A)) ≤ n).
    { destruct Hsib as [Hab|[Hv2 Hle]].
      - pose proof (Habs (1 - A)%nat ltac:(lia) Hab) as Hun. split; [done|]. rewrite contrib_unsealed by done. apply Hf.
      - destruct (Hsc (1 - A)%nat Valid ltac:(lia) Hv2) as [pr2 Hc2]. destruct (other_valid _ _ _ _ _ _ _ Hf Hc2) as (-> & Hq2 & Hcase).
        unfold contrib. rewrite Hc2. split; [intros _; rewrite <- Hq2|]; lia. }
    destruct Hst as [Hst Hcl]. split_and!; [by apply (flash_stay _ _ _ D)| |by left]. split; [|split_and!; [done|done|congruence]].
    rewrite (Hfl A HA). replace (contrib (slot_view st A)) with n by (unfold contrib; by rewrite Hca). lia.
  - (* the other slot holds a record whose commit was undecided *)
    assert (k = 1 - A)%nat as -> by lia. destruct (other_valid _ _ _ _ _ _ _ Hf Hcv) as (-> & Hq & Hcase).
    assert (Hge : n ≤ sc_seq (pick a b (1 - A)) ∨ w = None).
    { destruct w as [x|]; [left|by right]. pose proof (active_class _ _ _ _ _ Hf) as Hca. replace (1 - (1 - A))%nat with A in Hsib by lia. destruct Hsib as [Hab|[Hv2 Hle]].
      - destruct Hab as [E|E]; destruct (Hsc A _ HA E) as [pr2 Hc2]; rewrite Hca in Hc2; done.
      - destruct (Hsc A _ HA Hv2) as [pr2 Hc2]. rewrite Hca in Hc2. injection Hc2 as Hn2 _. lia. }
    destruct Hcase as [Hlt|(Hq1 & Hu & Hin & Him)].
    { exfalso. destruct Hge as [?| ->]; [lia|]. destruct (fl_active _ _ _ _ _ Hf) as (Hn0 & _). destruct (ff_len _ _ F).
      destruct (be32_bytes (slot_view st (1 - A)) 16) as [_ [Hu _]]; [by rewrite view_len; [lia|]|by apply view_bytes|]. unfold seq_of in Hq. change kRecordSeqOffset with 16%nat in Hq. lia. }
    exists (1 - A)%nat, (n + 1), (Some (body_of (slot_view st (1 - A)))). rewrite Hq1 in Hu. split_and!; [apply (flash_commit _ _ w D st); try done; by apply (proj1 (Forall_forall _ _) (fl_doubt _ _ _ _ _ Hf))| |right; eauto].
    split; [|split_and!; [done|done|congruence]]. rewrite (Hfl (1 - A)%nat ltac:(lia)). replace (1 - (1 - A))%nat with A by lia.
    replace (contrib (slot_view st (1 - A))) with (n + 1) by (unfold contrib; rewrite Hcv; lia).
    assert (contrib (slot_view st A) ≤ n); [|lia]. destruct w as [x|].
    + unfold contrib. by rewrite (active_class _ _ _ _ _ Hf).
    + destruct (fl_active _ _ _ _ _ Hf) as (-> & -> & Hns). by rewrite contrib_unsealed.
Qed.

Lemma seen_content v fl s fl' c : seen v fl s fl' → sc_content s = Some c → ∃ pr, classify_bytes f v = (c, sc_seq s, pr).
Proof using F. clear Hhdr Hhb hdr sha256. unfold seen. intros Hs Hc. rewrite Hc in Hs. destruct Hs as (pr & Hcl & _). eauto. Qed.

Lemma seen_floor st k fl s fl' :
  slots_ok st → seen (slot_view st k) fl s fl' → is_Some (sc_content s) → 0 ≤ fl → fl' = Z.max fl (contrib (slot_view st k)).
Proof using F. clear Hhdr Hhb hdr sha256.
  intros Hok Hs [c Hc] Hfl. unfold seen in Hs. rewrite Hc in Hs. destruct Hs as (pr & Hcl & ->). pose proof (contrib_nonneg st k Hok). unfold contrib in *. rewrite Hcl in *.
  destruct pr; lia.
Qed.

Lemma outcome_readable a b p' : outcome a b p' → is_Some (sc_content a) ∧ is_Some (sc_content b).
Proof using F. clear Hhdr Hhb hdr sha256.
  intros [(k & Hk & Hv & Hs & _)|([Ha|Ha] & [Hb|Hb] & _)]; [|rewrite Ha, Hb; eauto..]. unfold absent in Hs.
  destruct k as [|[|]]; [| |lia]; cbn in *; rewrite Hv; destruct Hs as [[E|E]|[E _]]; rewrite E; eauto.
Qed.

(** What an initialisation learns, whatever the slots hold. *)
Lemma initialize_scans p st r p' st' :
  slots_ok st → length (scratch_ p) = L → initialize sha256 f (p, st) = (r, (p', st')) →
  slots_ok st' ∧ (∀ k, slot_view st' k = slot_view st k) ∧ length (scratch_ p') = L ∧
  (usable p' → ∃ a b, scans st' a b ∧ outcome a b p' ∧
     ∀ k, (k < 2)%nat → seq_floor_ p' = Z.max (contrib (slot_view st' k)) (contrib (slot_view st' (1 - k)))).
Proof using F.
  clear Hhdr Hhb. intros Hok Hl. unfold initialize. cbn [fst snd]. cbv zeta. assert (Hlc : length (scratch_ (cleared p)) = L) by done.
  rewrite Hlc, (ff_slot _ _ F), Nat.ltb_irrefl.
  destruct (scan_slot sha256 f 0 (cleared p, st)) as [a [p1 st1]] eqn:H1.
  destruct (scan_slot_spec 0 _ _ _ _ _ Hok ltac:(lia) Hlc H1) as (Hok1 & Hv1 & S1 & E1).
  destruct (scan_slot sha256 f 1 (p1, st1)) as [b [p2 st2]] eqn:H2.
  destruct (scan_slot_spec 1 _ _ _ _ _ Hok1 ltac:(lia) (proj1 S1) H2) as (Hok2 & Hv2 & S2 & E2). cbn [fst snd].
  destruct (settle f a b p2) as [r0 p0] eqn:Hst. intros [= <- <- <-].
  assert (Hv : ∀ k, slot_view st2 k = slot_view st k) by (intros; by rewrite Hv2, Hv1).
  destruct S1 as (_ & _ & _ & I1 & I2 & I3 & I4). destruct S2 as (Hl2 & _ & _ & J1 & J2 & J3 & J4).
  rewrite Hv1, <- (Hv 1%nat) in E2. rewrite <- (Hv 0%nat) in E1.
  assert (Hlen : length (scratch_ p0) = L).
  { rewrite <- Hl2. revert Hst. unfold settle, quarantine. repeat (case_match; try (by intros [= <- <-])). }
  split_and!; [done|done|done|]. intros Hu. exists a, b.
  destruct (settle_usable a b p2 r0 p0 (ff_seq _ _ F)) as (_ & Hfl & Hout); [rewrite J2, I2|rewrite J3, I3|rewrite J4, I4|rewrite J1, I1|..]; try done.
  split_and!; [|exact Hout|].
  - intros k c Hk Hc. destruct k as [|[|]]; [| |lia]; cbn [pick] in *; eapply seen_content; eauto.
  - destruct (outcome_readable a b p0 Hout) as [Ra Rb]. pose proof (contrib_nonneg st2 0 Hok2). pose proof (contrib_nonneg st2 1 Hok2).
    pose proof (seen_floor st2 0 _ _ _ Hok2 E1 Ra ltac:(done)) as G1. change (seq_floor_ (cleared p)) with 0 in G1.
    pose proof (seen_floor st2 1 _ _ _ Hok2 E2 Rb ltac:(lia)) as G2. rewrite Hfl, G2, G1. intros k Hk. destruct k as [|[|]]; [| |lia]; cbn [Nat.sub]; lia.
Qed.

Lemma pair_initialize_spec A n w D p st r p' st' :
  flash A n w D st → length (scratch_ p) = L → initialize sha256 f (p, st) = (r, (p', st')) →
  flash A n w D st' ∧ length (scratch_ p') = L ∧
  (usable p' → ∃ A' n' w', flash A' n' w' [] st' ∧ agrees p' A' n' w' ∧ (w' = w ∨ ∃ b, b ∈ D ∧ w' = Some b)).
Proof.
  intros Hf Hl Hi. destruct (initialize_scans p st r p' st' (fl_ok _ _ _ _ _ Hf) Hl Hi) as (Hok & Hv & Hl' & Hus).
  assert (Hf' : flash A n w D st') by (by apply (flash_same A n w D st)). split_and!; [done|done|]. intros Hu. destruct (Hus Hu) as (a & b & Hsc & Hout & Hfl).
  by apply (adopt_spec A n w D st' a b p').
Qed.

(** A slot with a damaged record keeps the pair impaired. *)
Lemma initialize_impaired p st r p' st' k c q pr :
  slots_ok st → length (scratch_ p) = L → (k < 2)%nat → classify_bytes f (slot_view st k) = (c, q, pr) → c = Corrupt ∨ c = Unsupported_ →
  initialize sha256 f (p, st) = (r, (p', st')) → ¬ usable p'.
Proof using F.
  clear Hhdr Hhb. intros Hok Hl Hk Hc Hbad Hi Hu. destruct (initialize_scans p st r p' st' Hok Hl Hi) as (_ & Hv & _ & Hus). destruct (Hus Hu) as (a & b & Hsc & Hout & _).
  assert (Hs : ∀ c', sc_content (pick a b k) = Some c' → c' = c).
  { intros c' E. destruct (Hsc k c' Hk E) as [pr' E']. rewrite Hv, Hc in E'. by injection E'. }
  assert (Hcase : sc_content (pick a b k) = Some Valid ∨ absent (pick a b k)).
  { destruct Hout as [(j & Hj & Hval & Hsib & _)|(Ha & Hb & _)].
    - destruct (decide (j = k)) as [->|]; [by left|]. assert (k = 1 - j)%nat as -> by lia. destruct Hsib as [?|[? _]]; [by right|by left].
    - right. by destruct k as [|[|]]; [| |lia]. }
  destruct Hcase as [E|[E|E]]; apply Hs in E; destruct Hbad; congruence.
Qed.

(** An impaired pair refuses commits and touches nothing. *)
Lemma commit_refused p st n r p' st' : ¬ usable p → commit_prepared sha256 f n (p, st) = (r, (p', st')) → (∃ c d, r = Err c d) ∧ p' = p ∧ st' = st.
Proof using.
  clear Hhdr Hhb. intros Hu. unfold commit_prepared, mbind, M_bind, pair, fail_if, throw, mret, M_ret. cbn [fst snd]. unfold usable in Hu.
  destruct (initialized_ p), (quarantined_ p), (uncertain_ p); cbn [negb]; try (intros [= <- <- <-]; eauto; fail). by destruct Hu.
Qed.

(** ** Commit *)

Lemma commit_spec A n w D p st b r p' st' :
  flash A n w D st → (usable p → agrees p A n w) → length (scratch_ p) = L → head_of (scratch_ p) = hdr → body_of (scratch_ p) = b → good b →
  commit_prepared sha256 f L (p, st) = (r, (p', st')) →
  length (scratch_ p') = L ∧
  match r with
  | Ok _ => usable p' ∧ ∃ A', flash A' (n + 1) (Some b) [] st' ∧ agrees p' A' (n + 1) (Some b)
  | Err _ _ => (∃ x, p' = set_scratch x p) ∧ flash A n w (b :: D) st' ∧ (¬ usable p → st' = st)
  end.
Proof.
  intros Hf Hag Hl Hh Hb Hg. unfold commit_prepared. unfold mbind, M_bind, pair, fail_if, throw, mret, M_ret. cbn [fst snd].
  assert (Hsame : flash A n w (b :: D) st).
  { apply (flash_doubt A n w D st); [done|done|apply Hf|done|]. intros Hs. destruct (fl_other _ _ _ _ _ Hf Hs) as [? [?|[? ?]]]; (split; [done|]); [by left|right; split; [done|by right]]. }
  assert (Hself : ∃ x, p = set_scratch x p) by (exists (scratch_ p); by destruct p).
  destruct (initialized_ p) eqn:Hi; cbn [negb]; [|intros [= <- <- <-]; done].
  destruct (quarantined_ p) eqn:Hq; [intros [= <- <- <-]; done|]. destruct (uncertain_ p) eqn:Hu; [intros [= <- <- <-]; done|].
  assert (Hus : usable p) by done. destruct (Hag Hus) as [Hfl Hact].
  destruct (bad_length f L); [intros [= <- <- <-]; done|]. rewrite (ff_seq _ _ F). cbn [negb]. cbv zeta.
  set (target := if has_active_ p then (1 - active_slot_ p)%nat else 0%nat).
  pose proof (fl_slot _ _ _ _ _ Hf) as HA.
  assert (Ht : target = (1 - A)%nat).
  { unfold target. destruct w as [x|]; [destruct Hact as (-> & -> & _); done|]. rewrite Hact. by destruct (fl_active _ _ _ _ _ Hf) as (_ & -> & _). }
  clearbody target. subst target. unfold refuse_reserved, mbind, M_bind, pair, throw, mret, M_ret. cbn [fst snd].
  destruct (slot_reserved_ p !! (1 - A)%nat) as [[code|]|]; [intros [= <- <- <-]; done| |].
  all: unfold next_seq, mbind, M_bind, pair, fail_if, throw, mret, M_ret; cbn [fst snd];
    destruct (bool_decide_reflect (seq_floor_ p = UINT32_MAX)) as [|Hmax]; [intros [= <- <- <-]; done|];
    rewrite Hfl in *; pose proof (fl_seq _ _ _ _ _ Hf) as Hn; rewrite (wrap_id 32) by (unfold in_range, UINT32_MAX in *; lia);
    assert (Hq32 : is_u32 (n + 1)) by (unfold in_range, UINT32_MAX in *; lia);
    destruct (write_slot sha256 f (1 - A) L (n + 1) (p, st)) as [r1 [p1 st1]] eqn:Hw;
    destruct (write_slot_spec (1 - A)%nat n (n + 1) b D p st r1 p1 st1 (fl_ok _ _ _ _ _ Hf) ltac:(lia) Hl Hh Hb Hg Hq32 eq_refl (fl_other _ _ _ _ _ Hf) Hw)
      as (Hok1 & Hv1 & (x & Hx & ->) & Hr1);
    assert (HvA : slot_view st1 A = slot_view st A) by (apply Hv1; lia).
  all: destruct r1 as [[]|c d]; intros [= <- <- <-]; (split; [done|]).
  all: first [split; [done|]; exists (1 - A)%nat; split; [by apply (flash_commit A n w D st)|done] | split_and!; [by eexists|by apply (flash_doubt A n w D st)|done]].
Qed.

(** ** Runs *)

(** What a run tells an observer, newest first: a commit that reported
    success, one that reported an error while the pair was usable, and the
    record an initialisation that left the pair usable adopted. *)
Inductive Event := Committed (b : list Z) | Attempted (b : list Z) | Observed (o : option (list Z)).

(** The values the register may hold. *)
Fixpoint possible (tr : list Event) : list (option (list Z)) :=
  match tr with
  | [] => [None]
  | Committed b :: _ => [Some b]
  | Attempted b :: tr => Some b :: possible tr
  | Observed o :: _ => [o]
  end.

(** The adopted record as a load would find it. *)
Definition adopted (p : SealedSlotPair) (st : ST) : option (list Z) :=
  if has_active_ p then Some (body_of (slot_view st (active_slot_ p))) else None.

Inductive run : list Event → SealedSlotPair → ST → Prop :=
  | run_start st : slots_ok st → seal_of (slot_view st 0) ≠ C → seal_of (slot_view st 1) ≠ C → run [] (new_pair L) st
  | run_power tr p st : run tr p st → run tr (new_pair L) (slot_restart st)
  | run_initialize tr p st r p' st' :
      run tr p st → initialize sha256 f (p, st) = (r, (p', st')) →
      run (if usable_b p' then Observed (adopted p' st') :: tr else tr) p' st'
  | run_commit tr p st x r p' st' :
      run tr p st → length x = L → head_of x = hdr → good (body_of x) →
      commit_prepared sha256 f L (set_scratch x p, st) = (r, (p', st')) →
      run (match r with Ok _ => Committed (body_of x) :: tr | Err _ _ => if usable_b p then Attempted (body_of x) :: tr else tr end) p' st'
  | run_load tr p st r p' st' : run tr p st → load_active f (p, st) = (r, (p', st')) → run tr p' st'.

Definition world_ok (tr : list Event) (p : SealedSlotPair) (st : ST) : Prop :=
  length (scratch_ p) = L ∧ (active_slot_ p < 2)%nat ∧
  ∃ A n w D, flash A n w D st ∧ (usable p → agrees p A n w) ∧ w ∈ possible tr ∧ ∀ b, b ∈ D → Some b ∈ possible tr.

Lemma agrees_adopted p A n w D st : flash A n w D st → agrees p A n w → adopted p st = w.
Proof.
  intros Hf [_ Ha]. unfold adopted. destruct w as [b|]; [|by rewrite Ha]. destruct Ha as (-> & -> & _). f_equal.
  destruct (fl_active _ _ _ _ _ Hf) as (_ & -> & Hg & _). destruct (ff_len _ _ F) as [HL _]. destruct (fl_seq _ _ _ _ _ Hf).
  destruct (image_fields L HL hdr C n b Hhdr Hg (ff_seal _ _ F)) as (_ & _ & _ & E); [unfold in_range, UINT32_MAX in *; lia|exact E].
Qed.

Lemma load_spec p st r p' st' :
  slots_ok st → (active_slot_ p < 2)%nat → length (scratch_ p) = L → load_active f (p, st) = (r, (p', st')) →
  slots_ok st' ∧ (∀ k, slot_view st' k = slot_view st k) ∧ (∃ x, length x = L ∧ p' = set_scratch x p) ∧
  ∀ rec, r = Ok rec → has_active_ p = true ∧ rec = slot_view st (active_slot_ p).
Proof using F. clear Hhdr Hhb.
  intros Hok Hs Hl. unfold load_active, mbind, M_bind, pair, fail_if, throw, mret, M_ret. cbn [fst snd].
  assert (Hself : ∃ x, length x = L ∧ p = set_scratch x p) by (exists (scratch_ p); split; [done|by destruct p]).
  destruct (has_active_ p) eqn:Ha; cbn [negb]; [|by intros [= <- <- <-]].
  destruct (read_scratch f (active_slot_ p) (p, st)) as [r1 [p1 st1]] eqn:Hr. destruct (read_scratch_spec _ _ _ _ _ _ Hok Hs Hl Hr) as (Hok1 & Hv & Hx & Hraw).
  destruct r1 as [raw|c d]; [|by intros [= <- <- <-]]. rewrite (Hraw raw eq_refl). destruct (_ || _) eqn:Hlen; [by intros [= <- <- <-]|].
  intros [= <- <- <-]. split_and!; [done|done|done|]. intros rec [= <-]. split; [done|]. apply orb_false_iff in Hlen as [H1 H2].
  apply Nat.ltb_ge in H1, H2. rewrite (ff_min _ _ F) in H1. rewrite (ff_max _ _ F) in H2. rewrite take_ge; [done|]. rewrite view_len by done. lia.
Qed.

Lemma initialize_slot p st r p' st' : initialize sha256 f (p, st) = (r, (p', st')) → (active_slot_ p' < 2)%nat.
Proof using. clear Hhdr Hhb.
  unfold initialize. cbn [fst snd]. cbv zeta. case_match; [intros [= _ <- _]; cbn; lia|].
  destruct (scan_slot sha256 f 0 _) as [a [p1 st1]] eqn:E1. destruct (scan_slot sha256 f 1 _) as [b [p2 st2]] eqn:E2.
  assert (Hs : ∀ k q s (x : Scan) q' s', scan_slot sha256 f k (q, s) = (x, (q', s')) → active_slot_ q' = active_slot_ q).
  { intros k q s x q' s'. unfold scan_slot. cbn [fst snd]. unfold read_scratch, mbind, M_bind, on_storage, update, mret, M_ret. cbn [fst snd].
    destruct (slot_read _ _ _) as [[raw|c d] s1]; [|by intros [= <- <- <-]]. destruct (classify_bytes f raw) as [[c q0] pr]. intros [= <- <- <-]. by case_match; case_match. }
  apply Hs in E1, E2. cbn [fst snd]. destruct (settle f a b p2) as [r0 p0] eqn:Hst. intros [= _ <- _]. cbn in E1.
  revert Hst. unfold settle, quarantine, adopt. repeat (case_match; simplify_eq; try (intros [= _ <-]; cbn; lia)).
Qed.

Lemma pair_run_ok tr p st : run tr p st → world_ok tr p st.
Proof.
  induction 1 as [st Hok H0s H1s|tr p st _ (Hl & Hs & A & n & w & D & Hf & Hag & Hw & HD)|tr p st r p' st' _ (Hl & Hs & A & n & w & D & Hf & Hag & Hw & HD) Hi
    |tr p st x r p' st' _ (Hl & Hs & A & n & w & D & Hf & Hag & Hw & HD) Hx Hh Hg Hc|tr p st r p' st' _ (Hl & Hs & A & n & w & D & Hf & Hag & Hw & HD) Hld].
  - split; [apply length_replicate|]. split; [cbn; lia|]. exists 1%nat, 0, None, []. split_and!; [|by intros (? & _)|by left|by intros b ?%not_elem_of_nil].
    split; [done|lia|unfold UINT32_MAX; lia|constructor|done|]. by intros ?.
  - split; [apply length_replicate|]. split; [cbn; lia|]. exists A, n, w, D. split_and!; [|by intros (? & _)|done|done].
    destruct (restart_law st (fl_ok _ _ _ _ _ Hf)) as [Hok Hv]. by apply (flash_same A n w D st).
  - destruct (pair_initialize_spec A n w D p st r p' st' Hf Hl Hi) as (Hf' & Hl' & Hus). split; [done|]. split; [by eapply initialize_slot|].
    destruct (usable_b p') eqn:Hb.
    + apply usable_iff in Hb. destruct (Hus Hb) as (A' & n' & w' & Hf2 & Ha2 & Hw2). exists A', n', w', []. rewrite (agrees_adopted _ _ _ _ _ _ Hf2 Ha2).
      split_and!; [done|done|by left|by intros b ?%not_elem_of_nil].
    + exists A, n, w, D. split_and!; [done| |done|done]. intros Hu. apply usable_iff in Hu. congruence.
  - destruct (commit_spec A n w D (set_scratch x p) st (body_of x) r p' st' Hf ltac:(by rewrite usable_scratch) Hx Hh eq_refl Hg Hc) as [Hl' Hr].
    split; [done|]. destruct r as [[]|c d].
    + destruct Hr as (Hu & A' & Hf' & Ha'). split; [destruct Ha' as (_ & _ & -> & _); apply Hf'|].
      exists A', (n + 1), (Some (body_of x)), []. split_and!; [done|done|by left|by intros b ?%not_elem_of_nil].
    + destruct Hr as ((y & ->) & Hf' & Hst). split; [done|]. destruct (usable_b p) eqn:Hb.
      * exists A, n, w, (body_of x :: D). split_and!; [done|done|by right|]. intros b [->|Hb']%elem_of_cons; [by left|right; auto].
      * rewrite Hst; [by exists A, n, w, D|]. rewrite usable_scratch, <- usable_iff. congruence.
  - destruct (load_spec p st r p' st' (fl_ok _ _ _ _ _ Hf) Hs Hl Hld) as (Hok & Hv & (x & Hx & ->) & _). split; [done|]. split; [done|].
    exists A, n, w, D. split_and!; [by apply (flash_same A n w D st)|done|done|done].
Qed.

(** C17: for a format whose records fill their slot, and from flash without a
    committed record: over any sequence of initialisations, commits to one
    slot, loads, failed reads, writes torn after any byte and power cycles,
    whenever the pair is usable the adopted record is the last one whose
    commit reported success, or one whose commit was attempted and failed
    since; and each initialisation that left the pair usable adopted such a
    record, which decides all earlier attempts. *)
Theorem sealed_pair_durable tr p st :
  run tr p st →
  (usable p → adopted p st ∈ possible tr) ∧ ∀ new o old, tr = new ++ Observed o :: old → o ∈ possible old.
Proof.
  intros Hr. split.
  - intros Hu. destruct (pair_run_ok _ _ _ Hr) as (_ & _ & A & n & w & D & Hf & Hag & Hw & _). by rewrite (agrees_adopted _ _ _ _ _ _ Hf (Hag Hu)).
  - induction Hr as [| |tr p st r p' st' Hr IH Hi|tr p st x r p' st' Hr IH|]; try done.
    + by intros [] o old.
    + destruct (usable_b p') eqn:Hb; [|done]. intros [|e new] o old Htr; [injection Htr as <- <-|injection Htr as _ Htr; by eapply IH].
      destruct (pair_run_ok _ _ _ Hr) as (Hl & _ & A & n & w & D & Hf & _ & Hw & HD). destruct (pair_initialize_spec A n w D p st r p' st' Hf Hl Hi) as (_ & _ & Hus).
      apply usable_iff in Hb. destruct (Hus Hb) as (A' & n' & w' & Hf2 & Ha2 & Hw2). rewrite (agrees_adopted _ _ _ _ _ _ Hf2 Ha2). destruct Hw2 as [->|(b & Hin & ->)]; auto.
    + intros [|e new] o old; repeat case_match; try done; intros Htr; first [by eapply IH|injection Htr as _ Htr; by eapply IH].
Qed.
End Run.
