(* ===== verification/LocalRevocation.v ===== *)
(** * The durable removal record (sdkv1_membership.{hpp,cpp}, sdkv1_records.cpp)

    RLV1: the record of a removal this node accepted, its codec, the store
    that keeps it in a sealed slot pair, and the membership hooks that refuse
    while it stands.  [state] and [cause] are the raw bytes of their
    enumerations, since the decoder casts before it validates. *)

From S2P Require Import Prelude Types ByteIO Crc32 SealedSlots.

Definition kLocalRevocationMagic : Z := 0x524C5631.
Definition kLocalRevocationSealCommitted : Z := 0x72564B31.
Definition kLocalRevocationSlotBytes : nat := 108.
Definition kLocalRevocationRecordLen : nat := 108.
Definition kLocalRevocationSchema : Z := 2.
Definition kLocalRevocationHoldoffMs : Z := 600000.
Definition kLocalRevocationHoldoffMinMs : Z := 60000.
Definition kLocalRevocationHoldoffMaxMs : Z := 3600000.

(** [LocalRevocationState], [LocalRevocationCause] *)
Definition Blocked : Z := 1.
Definition Cleaned : Z := 2.
Definition CauseRrs : Z := 1.
Definition CauseLocalMaintenance : Z := 3.

Record LocalRevocationRecord := mkRevocation {
  lr_state : Z; lr_cause : Z; local_node : NodeId; site_id : Z; lr_network : NetworkId;
  removed_generation : Z; rs_epoch_floor : Z; site_epoch_floor : Z; evidence_digest : list Z;
  rls_commit_seq : Z; boot_witness : Z; holdoff_ms : Z }.
#[global] Instance LocalRevocationRecord_eq_dec : EqDecision LocalRevocationRecord.
Proof. solve_decision. Defined.

Definition no_revocation : LocalRevocationRecord :=
  mkRevocation Blocked CauseRrs kInvalidNodeId 0 0 0 0 0 (replicate 32 0) 0 0 kLocalRevocationHoldoffMs.

(** ** Codec *)

Definition id_valid (id : Z) : bool := negb (bool_decide (id = 0)) && negb (bool_decide (id = UINT64_MAX)).
Definition all_zero (bs : list Z) : bool := forallb (λ b, bool_decide (b = 0)) bs.

Definition local_revocation_validate (r : LocalRevocationRecord) : result unit :=
  guard_err ((negb (bool_decide (lr_state r = Blocked)) && negb (bool_decide (lr_state r = Cleaned))) ||
             bool_decide (lr_cause r < CauseRrs) || bool_decide (CauseLocalMaintenance < lr_cause r) ||
             negb (id_valid (local_node r)) || bool_decide (site_id r = 0) || bool_decide (lr_network r = 0) ||
             bool_decide (removed_generation r = 0) || all_zero (evidence_digest r) ||
             bool_decide (holdoff_ms r < kLocalRevocationHoldoffMinMs) || bool_decide (kLocalRevocationHoldoffMaxMs < holdoff_ms r))
    InvalidArgument "rlv1 fields".

Definition write_head (magic : Z) (used_len : nat) (seal schema : Z) : M ByteWriter unit :=
  Writer.write_u32 magic;;
  Writer.write_u16 kRecordFormat;;
  Writer.write_u16 (u16 (Z.of_nat used_len));;
  Writer.write_u32 schema;;
  Writer.write_u32 seal.

Definition finish_crc (used_len : nat) : M ByteWriter unit := λ w,
  if negb (Writer.size w =? used_len - 4)%nat then (Err InternalError "record size drift", w)
  else Writer.write_u32 (crc32_iso_hdlc (take (used_len - 4) (default [] (w_target w)))) w.

Definition write_body (r : LocalRevocationRecord) : M ByteWriter unit :=
  Writer.write_u64 (local_node r);;
  Writer.write_u64 (site_id r);;
  Writer.write_u64 (lr_network r);;
  Writer.write_u32 (removed_generation r);;
  Writer.write_u32 (rs_epoch_floor r);;
  Writer.write_u32 (site_epoch_floor r);;
  Writer.write_u8 (lr_state r);;
  Writer.write_u8 (lr_cause r);;
  Writer.write_u16 0;;
  Writer.write_bytes (evidence_digest r);;
  Writer.write_u32 (rls_commit_seq r);;
  Writer.write_u32 (boot_witness r);;
  Writer.write_u32 (holdoff_ms r).

(** [local_revocation_record_encode] into a buffer [out]. *)
Definition local_revocation_record_encode (r : LocalRevocationRecord) (seal commit_seq : Z) (out : list Z) : result (nat * list Z) :=
  local_revocation_validate r;;
  guard_err (negb (bool_decide (seal = kSealPending)) && negb (bool_decide (seal = kLocalRevocationSealCommitted)))
    InvalidArgument "rlv1 seal value";;
  run_writer
    (write_head kLocalRevocationMagic kLocalRevocationRecordLen seal kLocalRevocationSchema;;
     Writer.write_u32 commit_seq;;
     write_body r;;
     finish_crc kLocalRevocationRecordLen) out.

(** The head every sealed record starts with, over the whole [record]. *)
Definition read_head (record : list Z) (magic seal_committed : Z) (min_len max_len : nat) (schema_max : Z) : M ByteReader unit :=
  got_magic ← Reader.read_u32;
  format ← Reader.read_u16;
  used_len ← Reader.read_u16;
  schema ← Reader.read_u32;
  seal ← Reader.read_u32;
  fail_if (negb (bool_decide (got_magic = magic)) || negb (bool_decide (format = kRecordFormat)) ||
           bool_decide (used_len < Z.of_nat min_len) || bool_decide (Z.of_nat max_len < used_len) ||
           negb (bool_decide (used_len = Z.of_nat (length record)))) ProtocolError "record head";;
  fail_if (negb (bool_decide (seal = seal_committed))) ProtocolError "record uncommitted";;
  fail_if (negb (bool_decide (crc32_iso_hdlc (take (length record - 4) record) = be32 record (length record - 4))))
    IntegrityError "record crc";;
  fail_if (bool_decide (schema < kRecordSchema) || bool_decide (schema_max < schema)) Unsupported "record schema".

Definition read_body : M ByteReader (LocalRevocationRecord * Z) :=
  node ← Reader.read_u64;
  site ← Reader.read_u64;
  network ← Reader.read_u64;
  generation ← Reader.read_u32;
  rs_floor ← Reader.read_u32;
  site_floor ← Reader.read_u32;
  state ← Reader.read_u8;
  cause ← Reader.read_u8;
  reserved ← Reader.read_u16;
  digest ← Reader.read_bytes 32;
  rls ← Reader.read_u32;
  boot ← Reader.read_u32;
  holdoff ← Reader.read_u32;
  mret (mkRevocation state cause node site network generation rs_floor site_floor digest rls boot holdoff, reserved).

Definition read_record (record : list Z) : M ByteReader (LocalRevocationRecord * Z * Z * Z) :=
  read_head record kLocalRevocationMagic kLocalRevocationSealCommitted kLocalRevocationRecordLen kLocalRevocationRecordLen kLocalRevocationSchema;;
  seq ← Reader.read_u32;
  body ← read_body;
  crc ← Reader.read_u32;
  mret (fst body, snd body, seq, crc).

(** A validation error is reported with the code of the decoder. *)
Definition as_protocol_error (r : result unit) : result unit :=
  match r with Ok u => Ok u | Err _ d => Err ProtocolError d end.

(** Before the tags are stored. *)
Definition untagged (r : LocalRevocationRecord) : LocalRevocationRecord :=
  mkRevocation Blocked CauseRrs (local_node r) (site_id r) (lr_network r) (removed_generation r) (rs_epoch_floor r)
    (site_epoch_floor r) (evidence_digest r) (rls_commit_seq r) (boot_witness r) (holdoff_ms r).

(** [local_revocation_record_decode]: the commit sequence, and what the output
    record holds afterwards.  Past the size check only the head can refuse. *)
Definition decode_into (record : list Z) : result Z * LocalRevocationRecord :=
  if negb (length record =? kLocalRevocationRecordLen)%nat then (Err ProtocolError "rlv1 size", no_revocation)
  else match run_reader (read_record record) record with
  | Err c d => (Err c d, no_revocation)
  | Ok (out, reserved, seq, crc) =>
      if negb (bool_decide (crc32_iso_hdlc (take (kLocalRevocationRecordLen - 4) record) = crc))
      then (Err IntegrityError "rlv1 crc", untagged out)
      else if bool_decide (record !! 11%nat = Some kRecordSchema) && negb (bool_decide (holdoff_ms out = kLocalRevocationHoldoffMs))
      then (Err ProtocolError "rlv1 schema 1 holdoff", untagged out)
      else if negb (bool_decide (reserved = 0)) then (Err ProtocolError "rlv1 reserved", untagged out)
      else (as_protocol_error (local_revocation_validate out);; Ok seq, out)
  end.
Definition local_revocation_record_decode (record : list Z) : result unit := fst (decode_into record);; Ok tt.

Definition structure_head (record : list Z) (magic : Z) (min_len max_len : nat) : result unit :=
  guard_err ((length record <? min_len)%nat || (max_len <? length record)%nat) ProtocolError "record bounds";;
  let head := run_reader (m ← Reader.read_u32; fmt ← Reader.read_u16; n ← Reader.read_u16; mret (m, fmt, n)) record in
  match head with
  | Ok (got_magic, format, used_len) =>
      guard_err (negb (bool_decide (got_magic = magic)) || negb (bool_decide (format = kRecordFormat)) ||
                 negb (bool_decide (used_len = Z.of_nat (length record)))) ProtocolError "record head"
  | Err _ _ => Err ProtocolError "record head"
  end.
Definition local_revocation_record_structure (record : list Z) : result unit :=
  structure_head record kLocalRevocationMagic kLocalRevocationRecordLen kLocalRevocationRecordLen;;
  guard_err (negb (bool_decide (record !! 58%nat = Some 0)) || negb (bool_decide (record !! 59%nat = Some 0))) ProtocolError "rlv1 reserved".

Definition kLocalRevocationFormat : SealedRecordFormat :=
  mkFormat kLocalRevocationMagic kLocalRevocationSealCommitted kLocalRevocationSlotBytes
    kLocalRevocationRecordLen kLocalRevocationRecordLen true local_revocation_record_structure
    local_revocation_record_decode kLocalRevocationSchema.

(** ** The store *)

Record LocalRevocationStore := mkStore { pair_ : SealedSlotPair; record_ : LocalRevocationRecord }.
Definition new_store : LocalRevocationStore := mkStore (new_pair kLocalRevocationSlotBytes) no_revocation.

Section Store.
Context {ST : Type} `{RecordSlotStorage ST} (sha256 : list Z → list Z).

Definition SM := M (LocalRevocationStore * ST).
Definition on_pair {A} (m : M (SealedSlotPair * ST) A) : SM A := λ s,
  let '(r, (p, st)) := m (pair_ (fst s), snd s) in (r, (mkStore p (record_ (fst s)), st)).
Definition store : SM LocalRevocationStore := λ s, (Ok (fst s), s).
Definition set_record (r : LocalRevocationRecord) : SM unit := λ s, (Ok tt, (mkStore (pair_ (fst s)) r, snd s)).

(** The classifier of the pair decodes into [record_]; every caller reloads
    or clears it next. *)
Definition reload : SM unit :=
  set_record no_revocation;;
  s ← store;
  if negb (has_active_ (pair_ s)) then mret tt
  else
    record ← on_pair (load_active kLocalRevocationFormat);
    set_record (snd (decode_into record));;
    lift (local_revocation_record_decode record).

(** Both calls are made; an error of the second wins. *)
Definition observe : SM unit := λ s,
  let '(status, s1) := on_pair (SealedSlots.initialize sha256 kLocalRevocationFormat) s in
  let '(loaded, s2) := reload s1 in
  (match loaded with Ok _ => status | e => e end, s2).

Definition initialize : SM unit := observe.

Definition refresh : SM unit :=
  s ← store;
  fail_if (negb (initialized_ (pair_ s))) InvalidState "rlv1 not initialized";;
  observe.

Definition encode (record : LocalRevocationRecord) (seal seq : Z) : SM nat := λ s,
  match local_revocation_record_encode record seal seq (scratch_ (pair_ (fst s))) with
  | Err c d => (Err c d, s)
  | Ok (n, bytes) => (Ok n, (mkStore (set_scratch bytes (pair_ (fst s))) (record_ (fst s)), snd s))
  end.

(** Encode and commit; after an error the store re-reads what landed. *)
Definition put_record (record : LocalRevocationRecord) : SM unit := λ s,
  let '(r, s1) := (used_len ← encode record kSealPending 0;
                   on_pair (commit_prepared sha256 kLocalRevocationFormat used_len)) s in
  match r with
  | Ok _ => reload s1
  | Err c d => (Err c d, snd (refresh s1))
  end.

Definition commit_blocked (record : LocalRevocationRecord) : SM unit :=
  s ← store;
  fail_if (negb (initialized_ (pair_ s))) InvalidState "rlv1 not initialized";;
  fail_if (negb (bool_decide (lr_state record = Blocked))) InvalidArgument "rlv1 not blocked";;
  lift (local_revocation_validate record);;
  let cur := record_ s in
  let same_site := bool_decide (site_id cur = site_id record) in
  let same_membership := bool_decide (local_node cur = local_node record) && same_site && bool_decide (lr_network cur = lr_network record) in
  fail_if (has_active_ (pair_ s) &&
           (negb (bool_decide (local_node cur = local_node record)) ||
            (bool_decide (lr_state cur = Blocked) && negb same_membership) ||
            (same_site && bool_decide (removed_generation record < removed_generation cur))))
    Conflict "rlv1 removal superseded";;
  put_record record.

Definition with_state (st : Z) (r : LocalRevocationRecord) : LocalRevocationRecord :=
  mkRevocation st (lr_cause r) (local_node r) (site_id r) (lr_network r) (removed_generation r) (rs_epoch_floor r)
    (site_epoch_floor r) (evidence_digest r) (rls_commit_seq r) (boot_witness r) (holdoff_ms r).

Definition commit_cleaned : SM unit :=
  s ← store;
  fail_if (negb (initialized_ (pair_ s))) InvalidState "rlv1 not initialized";;
  fail_if (negb (has_active_ (pair_ s)) || negb (bool_decide (lr_state (record_ s) = Blocked))) InvalidState "rlv1 not blocked";;
  put_record (with_state Cleaned (record_ s)).

Definition clear : SM unit := λ s,
  let '(status, s1) := on_pair (erase_all sha256 kLocalRevocationFormat) s in
  let wiped := (mkStore (set_scratch (replicate kLocalRevocationSlotBytes 0) (pair_ (fst s1))) (record_ (fst s1)), snd s1) in
  match status with
  | Err c d => (Err c d, snd (initialize wiped))
  | Ok _ => set_record no_revocation wiped
  end.

End Store.

Definition blocks_membership (s : LocalRevocationStore) (holdoff_elapsed : bool) : bool :=
  if negb (initialized_ (pair_ s)) then true
  else if negb (has_active_ (pair_ s)) then quarantined_ (pair_ s) || uncertain_ (pair_ s)
  else if bool_decide (lr_state (record_ s) = Cleaned) && holdoff_elapsed then false
  else true.

Definition check_join (s : LocalRevocationStore) (site generation : Z) (holdoff_elapsed : bool) : result unit :=
  guard_err (negb (initialized_ (pair_ s))) InvalidState "rlv1 not initialized";;
  guard_err (quarantined_ (pair_ s) || uncertain_ (pair_ s)) StorageFailure "rlv1 gate unprovable";;
  if negb (has_active_ (pair_ s)) then Ok tt
  else
    guard_err (negb (bool_decide (lr_state (record_ s) = Cleaned)) || negb holdoff_elapsed) AuthorizationFailed "rlv1 removal unresolved";;
    guard_err (bool_decide (site = site_id (record_ s)) && bool_decide (generation ≤ removed_generation (record_ s)))
      AuthorizationFailed "rlv1 generation not superseded".
