(* ===== verification/LocalRevocationProps.v ===== *)
(** * The removal record: codec

    The encoder writes the image of the sealed slot pair, the decoder reads
    it back, and the classifier accepts it under every sequence. *)

From S2P Require Import Prelude Types ByteIO Crc32 SealedSlots SealedSlotsProps SealedSlotsRun LocalRevocation.

Definition rlv1_head : list Z :=
  be_bytes 4 kLocalRevocationMagic ++ be_bytes 2 kRecordFormat ++ be_bytes 2 108 ++ be_bytes 4 kLocalRevocationSchema.
Definition rlv1_body (r : LocalRevocationRecord) : list Z :=
  be_bytes 8 (local_node r) ++ be_bytes 8 (site_id r) ++ be_bytes 8 (lr_network r) ++ be_bytes 4 (removed_generation r) ++
  be_bytes 4 (rs_epoch_floor r) ++ be_bytes 4 (site_epoch_floor r) ++ [lr_state r] ++ [lr_cause r] ++ be_bytes 2 0 ++
  evidence_digest r ++ be_bytes 4 (rls_commit_seq r) ++ be_bytes 4 (boot_witness r) ++ be_bytes 4 (holdoff_ms r).

(** The fields at their widths. *)
Record revocation_typed (r : LocalRevocationRecord) : Prop := {
  rt_node : is_u64 (local_node r); rt_site : is_u64 (site_id r); rt_network : is_u64 (lr_network r);
  rt_generation : is_u32 (removed_generation r); rt_rs : is_u32 (rs_epoch_floor r); rt_floor : is_u32 (site_epoch_floor r);
  rt_state : is_u8 (lr_state r); rt_cause : is_u8 (lr_cause r);
  rt_digest : length (evidence_digest r) = 32%nat ∧ bytes_ok (evidence_digest r);
  rt_rls : is_u32 (rls_commit_seq r); rt_boot : is_u32 (boot_witness r); rt_holdoff : is_u32 (holdoff_ms r) }.
(** What the stores hold: typed and accepted by the validator. *)
Definition revocation_ok (r : LocalRevocationRecord) : Prop := revocation_typed r ∧ local_revocation_validate r = Ok tt.

Lemma rlv1_head_length : length rlv1_head = 12%nat.
Proof. reflexivity. Qed.
Lemma rlv1_head_bytes : bytes_ok rlv1_head.
Proof. apply (bool_decide_eq_true_1 (bytes_ok rlv1_head)). by vm_compute. Qed.

Lemma rlv1_body_length r : revocation_typed r → length (rlv1_body r) = 84%nat.
Proof. intros [? ? ? ? ? ? ? ? [Hd _] ? ? ?]. unfold rlv1_body. rewrite !length_app, !length_be_bytes, Hd. reflexivity. Qed.

Lemma rlv1_unsigned_length s q r : revocation_typed r → length (unsigned_image rlv1_head s q (rlv1_body r)) = 104%nat.
Proof. intros Ht. unfold unsigned_image. rewrite !length_app, !length_be_bytes, rlv1_head_length, rlv1_body_length by done. reflexivity. Qed.

Lemma rlv1_body_bytes r : revocation_typed r → bytes_ok (rlv1_body r).
Proof.
  intros [? ? ? ? ? ? ? ? [_ Hd] ? ? ?]. unfold rlv1_body, bytes_ok. rewrite !Forall_app. split_and!; try apply be_bytes_ok; try done; by constructor.
Qed.

Lemma rlv1_fixed : fixed_format kLocalRevocationFormat 108.
Proof.
  split; try reflexivity.
  - split; [cbn; lia|done].
  - by vm_compute.
  - intros b [= <-]. by vm_compute.
  - intros b [= <-]. split; by vm_compute.
Qed.

Lemma emits_body r : emits (write_body r) (rlv1_body r).
Proof. unfold write_body, rlv1_body. emit_steps. Qed.

Lemma emits_head seal : emits (write_head kLocalRevocationMagic kLocalRevocationRecordLen seal kLocalRevocationSchema) (rlv1_head ++ be_bytes 4 seal).
Proof. unfold write_head, rlv1_head. rewrite <- !app_assoc. emit_steps. Qed.

Lemma emits_then m bs (k : unit → M ByteWriter unit) pre old rest :
  emits m bs → length old = length bs →
  (m ≫= k) (Writer (Some (pre ++ old ++ rest)) (length pre)) = k tt (Writer (Some ((pre ++ bs) ++ rest)) (length (pre ++ bs))).
Proof. intros Hm Hl. erewrite M_bind_ok; [|by apply Hm]. by rewrite <- app_assoc. Qed.

Lemma encode_image r seal q out :
  revocation_ok r → seal = kSealPending ∨ seal = kLocalRevocationSealCommitted → length out = 108%nat →
  local_revocation_record_encode r seal q out = Ok (108%nat, image rlv1_head seal q (rlv1_body r)).
Proof.
  intros [Ht Hv] Hseal Hout. unfold local_revocation_record_encode. rewrite Hv, bind_Ok, guard_pass.
  2: { destruct Hseal as [-> | ->]; reflexivity. }
  assert (Hb : length (rlv1_body r) = 84%nat) by (by apply rlv1_body_length).
  set (m := unsigned_image rlv1_head seal q (rlv1_body r)).
  assert (Hm : length m = 104%nat) by (by apply rlv1_unsigned_length).
  assert (Hc : ∀ n (l : list Z), (n ≤ length l)%nat → ∃ l1 l2, l = l1 ++ l2 ∧ length l1 = n ∧ length l2 = (length l - n)%nat).
  { intros n l Hn. exists (take n l), (drop n l). rewrite take_drop, length_take, length_drop. split_and!; [done|lia|done]. }
  destruct (Hc 16%nat out) as (o1 & x1 & -> & Ho1 & Hx1); [lia|]. rewrite length_app in Hout. destruct (Hc 4%nat x1) as (o2 & x2 & -> & Ho2 & Hx2); [lia|].
  rewrite length_app in Hx1. destruct (Hc 84%nat x2) as (o3 & x3 & -> & Ho3 & Hx3); [lia|]. rewrite length_app in Hx2.
  unfold run_writer. change (Writer (Some (o1 ++ o2 ++ o3 ++ x3)) 0) with (Writer (Some ([] ++ o1 ++ (o2 ++ o3 ++ x3))) (length (@nil Z))).
  rewrite (emits_then _ _ _ _ _ _ (emits_head seal)) by (rewrite length_app, length_be_bytes; exact Ho1).
  rewrite (emits_then _ _ _ _ _ _ (emits_u32 q)) by (by rewrite length_be_bytes).
  rewrite (emits_then _ _ _ _ _ _ (emits_body r)) by (by rewrite Hb).
  replace ((([] ++ rlv1_head ++ be_bytes 4 seal) ++ be_bytes 4 q) ++ rlv1_body r) with m by (unfold m, unsigned_image; by rewrite app_nil_l, <- !app_assoc).
  unfold finish_crc. change (kLocalRevocationRecordLen - 4)%nat with 104%nat. unfold Writer.size. cbn [w_offset w_target default]. rewrite Hm, Nat.eqb_refl. cbn [negb]. change (id (m ++ x3)) with (m ++ x3). rewrite take_app_le by lia. rewrite take_ge by lia.
  pose proof (emits_u32 (crc32_iso_hdlc m) m x3 []) as He. rewrite app_nil_r, Hm in He. rewrite He by (rewrite length_be_bytes; lia).
  cbn [w_offset w_target default]. rewrite length_app, Hm, length_be_bytes. done.
Qed.

(** ** Decoding *)

Lemma consumes_body r : revocation_typed r → consumes read_body (rlv1_body r) (r, 0).
Proof.
  intros [? ? ? ? ? ? ? ? [Hd _] ? ? ?]. unfold read_body, rlv1_body. rewrite <- (app_nil_r (be_bytes 4 (holdoff_ms r))).
  assert (is_u16 0) by done. repeat (eapply consumes_bind; [solve [eauto with codec]|]). destruct r. apply consumes_ret.
Qed.

Section Decode.
Context (r : LocalRevocationRecord) (Hr : revocation_ok r) (q : Z) (Hq : is_u32 q).
Let record := image rlv1_head kLocalRevocationSealCommitted q (rlv1_body r).

Lemma record_length : length record = 108%nat.
Proof. unfold record. apply (image_length 108); [lia|reflexivity|]. by rewrite rlv1_body_length by apply Hr. Qed.

Lemma record_unsigned : take 104 record = unsigned_image rlv1_head kLocalRevocationSealCommitted q (rlv1_body r).
Proof.
  unfold record, image. pose proof (rlv1_unsigned_length kLocalRevocationSealCommitted q r (proj1 Hr)). by rewrite take_app_le, take_ge by lia.
Qed.

Lemma crc_u32 : is_u32 (crc32_iso_hdlc (take 104 record)).
Proof.
  apply crc32_range. apply Forall_take. apply image_bytes; [apply rlv1_head_bytes|by apply rlv1_body_bytes, Hr].
Qed.

Lemma record_crc : be32 record 104 = crc32_iso_hdlc (take 104 record).
Proof.
  pose proof crc_u32 as Hu. rewrite record_unsigned in *. unfold record, image. set (m := unsigned_image _ _ _ _) in *.
  assert (Hm : length m = 104%nat) by (by apply rlv1_unsigned_length, Hr).
  rewrite <- Hm, <- (app_nil_r (be_bytes 4 _)). rewrite be32_at by apply length_be_bytes. by apply be_value4.
Qed.

Lemma consumes_head : consumes (read_head record kLocalRevocationMagic kLocalRevocationSealCommitted kLocalRevocationRecordLen kLocalRevocationRecordLen kLocalRevocationSchema)
  (rlv1_head ++ be_bytes 4 kLocalRevocationSealCommitted) tt.
Proof.
  unfold read_head, rlv1_head. rewrite <- !app_assoc. rewrite <- (app_nil_r (be_bytes 4 kLocalRevocationSealCommitted)).
  assert (is_u32 kLocalRevocationMagic) by done. assert (is_u16 kRecordFormat) by done. assert (is_u16 108) by done. assert (is_u32 kLocalRevocationSchema) by done.
  assert (is_u32 kLocalRevocationSealCommitted) by done.
  repeat (eapply consumes_bind; [solve [eauto with codec]|]). rewrite record_length.
  eapply consumes_pass; [apply consumes_check; reflexivity|]. eapply consumes_pass; [apply consumes_check; reflexivity|].
  eapply consumes_pass; [apply consumes_check|apply consumes_check; reflexivity].
  change (108 - 4)%nat with 104%nat. rewrite record_crc. by rewrite bool_decide_eq_true_2.
Qed.

Lemma decode_image : decode_into record = (Ok q, r).
Proof.
  unfold decode_into. rewrite record_length. change (negb _) with false at 1. cbv iota.
  assert (Hc : consumes (read_record record) record (r, 0, q, crc32_iso_hdlc (take 104 record))).
  { unfold read_record. assert (E : record = (rlv1_head ++ be_bytes 4 kLocalRevocationSealCommitted) ++ be_bytes 4 q ++ rlv1_body r ++ be_bytes 4 (crc32_iso_hdlc (take 104 record)) ++ []).
    { rewrite record_unsigned, app_nil_r. unfold record, image, unsigned_image. by rewrite <- !app_assoc. }
    rewrite E at 2. eapply consumes_bind; [apply consumes_head|]. eapply consumes_bind; [by apply consumes_u32|]. eapply consumes_bind; [apply consumes_body, Hr|].
    eapply consumes_bind; [apply consumes_u32, crc_u32|]. apply consumes_ret. }
  assert (E : run_reader (read_record record) record = Ok (r, 0, q, crc32_iso_hdlc (take 104 record))).
  { rewrite <- (app_nil_r record) at 2. by apply run_reader_consumes. }
  rewrite E. change (kLocalRevocationRecordLen - 4)%nat with 104%nat. rewrite bool_decide_eq_true_2 by done. cbn [negb].
  assert (E11 : record !! 11%nat = Some kLocalRevocationSchema) by reflexivity. rewrite E11. destruct Hr as [_ ->]. done.
Qed.

(** The sealed image as its leading fields and the rest. *)
Lemma record_split : ∃ rest, record = be_bytes 4 kLocalRevocationMagic ++ be_bytes 2 kRecordFormat ++ be_bytes 2 108 ++ be_bytes 4 kLocalRevocationSchema ++
  be_bytes 4 kLocalRevocationSealCommitted ++ be_bytes 4 q ++ rest.
Proof. eexists. unfold record, image, unsigned_image, rlv1_head. by rewrite <- !app_assoc. Qed.

Lemma record_reserved i : (i = 58 ∨ i = 59)%nat → record !! i = Some 0.
Proof.
  intros Hi. set (b := rlv1_body r).
  assert (E : record = (rlv1_head ++ be_bytes 4 kLocalRevocationSealCommitted ++ be_bytes 4 q) ++ b ++ be_bytes 4 (crc32_iso_hdlc (take 104 record))).
  { rewrite record_unsigned. unfold record, image, unsigned_image, b. by rewrite <- !app_assoc. }
  rewrite E, lookup_app_r by (rewrite !length_app, !length_be_bytes, rlv1_head_length; lia). rewrite !length_app, !length_be_bytes, rlv1_head_length.
  rewrite lookup_app_l by (unfold b; rewrite rlv1_body_length by apply Hr; lia). unfold b, rlv1_body.
  do 6 (rewrite lookup_app_r by (rewrite length_be_bytes; lia); rewrite length_be_bytes). by destruct Hi as [-> | ->].
Qed.

Lemma record_head_fields :
  run_reader (m ← Reader.read_u32; fmt ← Reader.read_u16; n ← Reader.read_u16; mret (m, fmt, n)) record = Ok (kLocalRevocationMagic, kRecordFormat, 108).
Proof. reflexivity. Qed.

Lemma record_structure : local_revocation_record_structure record = Ok tt.
Proof.
  unfold local_revocation_record_structure, structure_head. rewrite record_length, record_head_fields. rewrite guard_pass by reflexivity. cbv zeta.
  change (negb _ || _ || _) with false at 1. cbn [guard_err]. rewrite bind_Ok. rewrite !record_reserved by lia. reflexivity.
Qed.

Lemma classify_image : classify_bytes kLocalRevocationFormat record = (Valid, q, true).
Proof.
  destruct (image_fields 108 ltac:(lia) rlv1_head kLocalRevocationSealCommitted q (rlv1_body r)) as (_ & Hse & Hsq & _); try done.
  { by rewrite rlv1_body_length by apply Hr. }
  fold record in Hse, Hsq. unfold seal_of in Hse. unfold seq_of in Hsq. unfold classify_bytes. cbv zeta.
  assert (He : is_erased record = false) by reflexivity. rewrite He.
  change (Z.to_nat (be16 record 6)) with 108%nat. change (be32 record 0) with kLocalRevocationMagic. change (be16 record 4) with kRecordFormat.
  change (be32 record 8) with kLocalRevocationSchema. rewrite Hse, Hsq. cbn [magic seal_committed min_len max_len structure semantic sequenced schema_max kLocalRevocationFormat].
  rewrite take_ge by (rewrite record_length; lia). change (108 - 4)%nat with 104%nat. unfold local_revocation_record_decode. rewrite record_structure, decode_image, <- record_crc.
  rewrite (bool_decide_eq_true_2 (be32 record 104 = _)) by done. reflexivity.
Qed.

End Decode.

(** C20: A removal record the validator accepts is encoded, under any commit
    sequence, to 108 bytes that pass the structural check and that the decoder
    reads back to the same record and sequence. *)
Theorem removal_record_roundtrip r q out :
  revocation_ok r → is_u32 q → length out = 108%nat →
  ∃ bytes, local_revocation_record_encode r kLocalRevocationSealCommitted q out = Ok (108%nat, bytes) ∧
    decode_into bytes = (Ok q, r) ∧ local_revocation_record_structure bytes = Ok tt.
Proof.
  intros Hr Hq Ho. eexists. split; [apply encode_image; [done|by right|done]|]. split; [by apply decode_image|by apply record_structure].
Qed.

Lemma revocation_good r : revocation_ok r → good_body kLocalRevocationFormat 108 rlv1_head (rlv1_body r).
Proof.
  intros Hr. split_and!; [by rewrite rlv1_body_length by apply Hr|by apply rlv1_body_bytes, Hr|]. intros q Hq. by apply classify_image.
Qed.

Lemma rlv1_body_inj r1 r2 : revocation_typed r1 → revocation_typed r2 → rlv1_body r1 = rlv1_body r2 → r1 = r2.
Proof.
  intros H1 H2 E. pose proof (run_reader_consumes _ _ [] _ (consumes_body r1 H1)) as E1. rewrite E in E1.
  rewrite (run_reader_consumes _ _ [] _ (consumes_body r2 H2)) in E1. congruence.
Qed.

(** ** What a decode yields *)

(** The value alone of what a reader returns. *)
Lemma parses_value {A B} (m : M ByteReader A) (k : A → M ByteReader B) P (Q : B → Prop) :
  parses m P → (∀ a bs, P a bs → parses (k a) (λ b _, Q b)) → parses (m ≫= k) (λ b _, Q b).
Proof.
  intros Hm Hk pre buf b r' Hok Hrun. apply M_bind_inv in Hrun as (a & r1 & H1 & H2). apply Hm in H1 as (bs1 & rest1 & -> & HP & ->); [|done].
  apply Forall_app in Hok as [Hok1 Hok2]. rewrite (app_assoc pre bs1) in H2. apply (Hk a bs1 HP) in H2 as (bs2 & rest2 & -> & HQ & ->); [|done].
  exists (bs1 ++ bs2), rest2. by rewrite <- !app_assoc.
Qed.

Lemma parses_mret {A} (a : A) (Q : A → Prop) : Q a → parses (mret a) (λ b _, Q b).
Proof. intros HQ. eapply parses_impl; [apply parses_ret|]. by intros ? ? _ [-> _]. Qed.

Ltac value_steps := repeat (eapply parses_value; [solve [eauto with codec]|intros ? ? (? & ?)]).

Lemma parses_typed : parses read_body (λ x _, revocation_typed (fst x)).
Proof. unfold read_body. value_steps. apply parses_mret. split; try done. Qed.

Lemma parses_head record m s a b x : parses (read_head record m s a b x) (λ _ _, True).
Proof. unfold read_head. value_steps. eapply parses_impl; [apply parses_check|done]. Qed.

Lemma parses_record record : parses (read_record record) (λ x _, revocation_typed (fst (fst (fst x)))).
Proof.
  unfold read_record. eapply parses_value; [apply parses_head|]. intros _ _ _. eapply parses_value; [apply parses_u32|]. intros q _ _.
  eapply parses_value; [apply parses_typed|]. intros body bs2 Ht. eapply parses_value; [apply parses_u32|]. intros crc _ _. by apply parses_mret.
Qed.

Lemma no_revocation_typed : revocation_typed no_revocation.
Proof. split; try done. split; [done|]. by repeat constructor. Qed.

Lemma decode_typed record : bytes_ok record → revocation_typed (snd (decode_into record)).
Proof.
  intros Hok. unfold decode_into. case_match; [apply no_revocation_typed|].
  destruct (run_reader (read_record record) record) as [[[[out rv] q] crc]|c d] eqn:Hr; [|apply no_revocation_typed].
  destruct (run_reader_parses _ _ _ _ (parses_record record) Hok Hr) as (_ & _ & _ & Ht). cbn [fst] in Ht. repeat (case_match; [cbn [snd]; by destruct Ht|]). exact Ht.
Qed.
