(* ===== verification/Membership.v ===== *)
(** * Membership hooks (sdkv1_membership.{hpp,cpp})

    The decision whether this node, or a peer, is a member: over the adopted
    identity, site and revocation records, the local removal record and what
    this boot has authenticated.  Of the identity, site and revocation stores
    the hooks read only what is kept here; the certificate check
    [site_matches_identity] is an input. *)

From S2P Require Import Prelude Types SealedSlots LocalRevocation.

(** ** What the hooks read *)

Record StoreHealth := mkHealth { h_initialized : bool; h_quarantined : bool; h_uncertain : bool }.
Definition healthy (h : StoreHealth) : bool := h_initialized h && negb (h_quarantined h) && negb (h_uncertain h).
Definition pair_health (p : SealedSlotPair) : StoreHealth := mkHealth (initialized_ p) (quarantined_ p) (uncertain_ p).

Inductive KeyLocation := KeyNone | NvsPlaintext | EfuseDsBound | SecureElement.
#[global] Instance KeyLocation_eq_dec : EqDecision KeyLocation.
Proof. solve_decision. Defined.
Record IdentityView := mkIdentity { iv_health : StoreHealth; has_identity : bool; node_id : NodeId; key_location : KeyLocation }.

Inductive SiteState := SiteCleared | SiteMember.
#[global] Instance SiteState_eq_dec : EqDecision SiteState.
Proof. solve_decision. Defined.
Record SiteRecord := mkSite {
  sr_state : SiteState; sr_site_id : Z; sr_network : NetworkId; assignment_generation : Z; sr_rs_epoch_floor : Z; sr_boot_witness : Z }.
Record SiteView := mkSiteView { sv_health : StoreHealth; site : SiteRecord }.

Record RevocationSet := mkRevocationSet {
  rv_site_id : Z; rv_network : NetworkId; rv_rs_epoch : Z; rv_site_epoch_floor : Z; entries : list (NodeId * Z) }.
Record RevocationView := mkRevocationView { rv_health : StoreHealth; rv_set : option RevocationSet }.

(** The first entry that names the node decides. *)
Definition revocation_rejects (s : RevocationSet) (node : NodeId) (generation site_epoch : Z) : bool :=
  if bool_decide (site_epoch < rv_site_epoch_floor s) then true
  else match list_find (λ e, e.1 = node) (entries s) with
       | Some (_, (_, min_generation)) => bool_decide (generation < min_generation)
       | None => false
       end.

Definition site_epoch_of (network : NetworkId) : Z := u32 (Z.shiftr network 32).

Inductive MembershipState := Unprovisioned | Discovering | Authenticating | AuthorizedPendingCommit | Member | Revoked.
#[global] Instance MembershipState_eq_dec : EqDecision MembershipState.
Proof. solve_decision. Defined.

(** ** SdkMembershipHooks *)

Record Hooks := mkHooks {
  identity_ : IdentityView; site_ : SiteView; revocations_ : RevocationView; local_revocation_ : LocalRevocationStore;
  peers_ : option (NodeId → NetworkId → option (Z * Z)); boot_ : option (Z → bool);
  site_matches_identity : bool; holdoff_elapsed_ : bool }.

Definition site_matches (s : SiteRecord) (network : NetworkId) : bool :=
  bool_decide (sr_state s = SiteMember) && bool_decide (sr_network s = network).

Definition stores_healthy (h : Hooks) : bool :=
  healthy (iv_health (identity_ h)) && has_identity (identity_ h) && healthy (sv_health (site_ h)) &&
  healthy (rv_health (revocations_ h)) && healthy (pair_health (pair_ (local_revocation_ h))).

Definition self_rejected (h : Hooks) : bool :=
  let s := site (site_ h) in
  match sr_state s, rv_set (revocations_ h) with
  | SiteMember, Some set =>
      if negb (bool_decide (rv_site_id set = sr_site_id s)) || negb (bool_decide (rv_network set = sr_network s)) then false
      else if bool_decide (rv_rs_epoch set < sr_rs_epoch_floor s) then false
      else revocation_rejects set (node_id (identity_ h)) (assignment_generation s) (site_epoch_of (sr_network s))
  | _, _ => false
  end.

Definition floor_lost (h : Hooks) : bool :=
  let s := site (site_ h) in
  match sr_state s with
  | SiteCleared => false
  | SiteMember =>
      match rv_set (revocations_ h) with
      | Some set =>
          if negb (bool_decide (rv_site_id set = sr_site_id s)) || negb (bool_decide (rv_network set = sr_network s)) then true
          else bool_decide (rv_rs_epoch set < sr_rs_epoch_floor s)
      | None => negb (bool_decide (sr_rs_epoch_floor s = 0))
      end
  end.

(** The removed generation of the site the record names. *)
Definition generation_removed (h : Hooks) : bool :=
  let s := site (site_ h) in
  let l := local_revocation_ h in
  has_active_ (pair_ l) && bool_decide (site_id (record_ l) = sr_site_id s) &&
  bool_decide (assignment_generation s ≤ removed_generation (record_ l)).

Definition local_member (h : Hooks) (network : NetworkId) : bool :=
  if negb (stores_healthy h) then false
  else if negb (site_matches (site (site_ h)) network) then false
  else if bool_decide (node_id (identity_ h) = kInvalidNodeId) then false
  else if negb (bool_decide (key_location (identity_ h) = NvsPlaintext)) then false
  else if negb (site_matches_identity h) then false
  else if blocks_membership (local_revocation_ h) (holdoff_elapsed_ h) then false
  else if generation_removed h then false
  else if self_rejected h || floor_lost h then false
  else match boot_ h with Some witness_ok => witness_ok (sr_boot_witness (site (site_ h))) | None => false end.

(** The peer's verified generation and role, if it authenticated this boot. *)
Definition authenticated (peers : option (NodeId → NetworkId → option (Z * Z))) (peer : NodeId) (network : NetworkId) : option (Z * Z) :=
  match peers with Some view => view peer network | None => None end.
Definition peer_rejected (v : RevocationView) (peer : NodeId) (generation : Z) (network : NetworkId) : bool :=
  match rv_set v with Some set => revocation_rejects set peer generation (site_epoch_of network) | None => false end.

Definition known_member (h : Hooks) (peer : NodeId) (network : NetworkId) : bool :=
  if negb (local_member h network) then false
  else match authenticated (peers_ h) peer network with
       | None => false
       | Some (generation, role) =>
           if bool_decide (generation = 0) || bool_decide (role = 0) then false
           else negb (peer_rejected (revocations_ h) peer generation network)
       end.

Definition approve_join (h : Hooks) (node : NodeId) (network : NetworkId) : bool :=
  if negb (stores_healthy h) then false
  else if negb (bool_decide (node = node_id (identity_ h))) then false
  else local_member h network.

(** The state is reported with an error as well. *)
Definition local_state (h : Hooks) (network : NetworkId) : result unit * MembershipState :=
  let l := local_revocation_ h in
  if negb (healthy (pair_health (pair_ l))) then (Err StorageFailure "rlv1 gate unprovable", Revoked)
  else if has_active_ (pair_ l) && blocks_membership l (holdoff_elapsed_ h) then (Ok tt, Revoked)
  else if negb (healthy (iv_health (identity_ h)) && healthy (sv_health (site_ h)) && healthy (rv_health (revocations_ h)))
  then (Err StorageFailure "membership stores unprovable", Revoked)
  else
    let matched := has_identity (identity_ h) && site_matches (site (site_ h)) network in
    if matched && self_rejected h then (Ok tt, Revoked)
    else if matched && floor_lost h then (Err RecoveryRequired "rrs1 floor lost", Revoked)
    else if local_member h network then (Ok tt, Member)
    else (Ok tt, Unprovisioned).

(** ** DevMembershipHooks *)

Record DevHooks := mkDevHooks {
  dv_revocations : RevocationView; dv_local : LocalRevocationStore; dv_peers : option (NodeId → NetworkId → option (Z * Z));
  dv_network : NetworkId; dv_node : NodeId; dv_role : Z; dv_adopted : bool }.

Definition dev_adopt (network : NetworkId) (node : NodeId) (role : Z) (h : DevHooks) : result unit * DevHooks :=
  if bool_decide (network = 0) || bool_decide (node = kInvalidNodeId) || bool_decide (node = kBroadcastNodeId) || bool_decide (role = 0)
  then (Err InvalidArgument "dev membership invalid", h)
  else (Ok tt, mkDevHooks (dv_revocations h) (dv_local h) (dv_peers h) network node role true).
Definition dev_wipe (h : DevHooks) : DevHooks := mkDevHooks (dv_revocations h) (dv_local h) (dv_peers h) 0 kInvalidNodeId 0 false.

Definition dev_gates_healthy (h : DevHooks) : bool := healthy (rv_health (dv_revocations h)) && healthy (pair_health (pair_ (dv_local h))).
Definition dev_self_rejected (h : DevHooks) : bool :=
  match rv_set (dv_revocations h) with
  | Some set => if negb (bool_decide (rv_network set = dv_network h)) then false
                else revocation_rejects set (dv_node h) 0 (site_epoch_of (dv_network h))
  | None => false
  end.
Definition dev_local_member (h : DevHooks) (network : NetworkId) : bool :=
  if negb (dv_adopted h) || negb (bool_decide (network = dv_network h)) then false
  else if negb (dev_gates_healthy h) then false
  else if has_active_ (pair_ (dv_local h)) then false
  else negb (dev_self_rejected h).
Definition dev_known_member (h : DevHooks) (peer : NodeId) (network : NetworkId) : bool :=
  if negb (dev_local_member h network) then false
  else match authenticated (dv_peers h) peer network with
       | None => false
       | Some (generation, role) =>
           if negb (bool_decide (generation = 0)) || bool_decide (role = 0) then false
           else negb (peer_rejected (dv_revocations h) peer generation network)
       end.
Definition dev_approve_join (h : DevHooks) (node : NodeId) (network : NetworkId) : bool := false.
Definition dev_local_state (h : DevHooks) (network : NetworkId) : result unit * MembershipState :=
  if negb (healthy (pair_health (pair_ (dv_local h)))) then (Err StorageFailure "rlv1 gate unprovable", Revoked)
  else if has_active_ (pair_ (dv_local h)) then (Ok tt, Revoked)
  else if negb (healthy (rv_health (dv_revocations h))) then (Err StorageFailure "dev revocation store unprovable", Revoked)
  else if dv_adopted h && bool_decide (network = dv_network h) && dev_self_rejected h then (Ok tt, Revoked)
  else if dev_local_member h network then (Ok tt, Member)
  else (Ok tt, Unprovisioned).

(** ** The answers agree *)

Lemma local_member_open h network :
  local_member h network = true →
  stores_healthy h = true ∧ site_matches (site (site_ h)) network = true ∧ blocks_membership (local_revocation_ h) (holdoff_elapsed_ h) = false ∧
  self_rejected h = false ∧ floor_lost h = false.
Proof.
  unfold local_member. destruct (stores_healthy h), (site_matches _ _), (bool_decide (node_id (identity_ h) = kInvalidNodeId)), (bool_decide (key_location (identity_ h) = NvsPlaintext)), (site_matches_identity h),
    (blocks_membership _ _), (generation_removed h), (self_rejected h), (floor_lost h); done.
Qed.

Lemma dev_local_member_open h network :
  dev_local_member h network = true →
  dv_adopted h = true ∧ network = dv_network h ∧ dev_gates_healthy h = true ∧ has_active_ (pair_ (dv_local h)) = false ∧ dev_self_rejected h = false.
Proof.
  unfold dev_local_member. destruct (dv_adopted h), (bool_decide_reflect (network = dv_network h)), (dev_gates_healthy h), (has_active_ _), (dev_self_rejected h); done.
Qed.

(** The answers of the membership hooks agree: local_state reports Member, and
    then without an error, exactly when local_member holds; approve_join holds
    exactly for this node while it is a member; a node that is not a member
    knows no peer and approves no join. *)
Lemma membership_answers_agree h network :
  (local_state h network = (Ok tt, Member) ↔ local_member h network = true) ∧
  (snd (local_state h network) = Member ↔ local_member h network = true) ∧
  (local_member h network = false → ∀ peer, known_member h peer network = false ∧ approve_join h peer network = false) ∧
  (∀ node, approve_join h node network = true ↔ node = node_id (identity_ h) ∧ local_member h network = true).
Proof.
  assert (Hm : local_member h network = true → local_state h network = (Ok tt, Member)).
  { intros Hm. destruct (local_member_open h network Hm) as (Hh & Hs & Hb & Hr & Hf). unfold local_state. rewrite Hm, Hb, Hr, Hf, Hs. unfold stores_healthy in Hh.
    apply andb_true_iff in Hh as [Hh ->]. apply andb_true_iff in Hh as [Hh ->]. apply andb_true_iff in Hh as [Hh ->]. apply andb_true_iff in Hh as [-> ->]. by destruct (has_active_ _). }
  assert (Hs : snd (local_state h network) = Member → local_member h network = true) by (unfold local_state; by repeat case_match).
  split_and!.
  - split; [intros E; apply Hs; by rewrite E|done].
  - split; [done|intros E; by rewrite Hm].
  - intros E peer. unfold known_member, approve_join. rewrite E. split; [done|]. by repeat case_match.
  - intros node. unfold approve_join. pose proof (local_member_open h network). destruct (stores_healthy h); cbn [negb]; [|naive_solver].
    destruct (bool_decide_reflect (node = node_id (identity_ h))); naive_solver.
Qed.

Lemma dev_answers_agree h network :
  (snd (dev_local_state h network) = Member ↔ dev_local_member h network = true) ∧
  (dev_local_member h network = false → ∀ peer, dev_known_member h peer network = false).
Proof.
  split; [split|].
  - unfold dev_local_state. by repeat case_match.
  - intros Hm. destruct (dev_local_member_open h network Hm) as (Ha & -> & Hg & Hact & Hr). unfold dev_local_state. rewrite Hm, Hact, Hr, Ha. unfold dev_gates_healthy in Hg.
    apply andb_true_iff in Hg as [-> ->]. by rewrite bool_decide_eq_true_2.
  - intros E peer. unfold dev_known_member. by rewrite E.
Qed.
