(* ===== verification/LocalRevocationRun.v ===== *)
(** * The removal record: what the store keeps

    Runs of the store's operations over a storage whose reads and writes may
    fail at any point, power cycles in between. *)

From S2P Require Import Prelude Types ByteIO Crc32 SealedSlots SealedSlotsProps SealedSlotsRun LocalRevocation LocalRevocationProps Membership.

Section Store.
Context {ST : Type} `{RecordSlotStorageLaws ST 108} (sha256 : list Z → list Z).

Abbreviation rlv := kLocalRevocationFormat.
Abbreviation flash := (flash rlv rlv1_head).

(** The bodies the flash may turn out to hold are records with [P]; RAM holds
    the adopted one, or the blocking default when it could not be read. *)
Record store_ok (P : LocalRevocationRecord → Prop) (must : bool) (s : LocalRevocationStore * ST) : Prop := {
  so_scratch : length (scratch_ (pair_ (fst s))) = 108%nat;
  so_slot : (active_slot_ (pair_ (fst s)) < 2)%nat;
  so_record : revocation_typed (record_ (fst s));
  so_flash : ∃ A n w D, flash A n w D (snd s) ∧ (usable (pair_ (fst s)) → agrees (pair_ (fst s)) A n w) ∧
    (∀ b, w = Some b ∨ b ∈ D → ∃ r, b = rlv1_body r ∧ revocation_ok r ∧ P r) ∧
    (must = true → is_Some w) ∧
    (usable (pair_ (fst s)) → has_active_ (pair_ (fst s)) = true →
       record_ (fst s) = no_revocation ∨ (revocation_ok (record_ (fst s)) ∧ w = Some (rlv1_body (record_ (fst s))))) }.

(** The flash alone, for the moments between a change and the reload. *)
Definition base_ok (P : LocalRevocationRecord → Prop) (must : bool) (p : SealedSlotPair) (st : ST) : Prop :=
  length (scratch_ p) = 108%nat ∧ (active_slot_ p < 2)%nat ∧
  ∃ A n w D, flash A n w D st ∧ (usable p → agrees p A n w) ∧
    (∀ b, w = Some b ∨ b ∈ D → ∃ r, b = rlv1_body r ∧ revocation_ok r ∧ P r) ∧ (must = true → is_Some w).

Lemma store_base P m s : store_ok P m s → base_ok P m (pair_ (fst s)) (snd s).
Proof. intros [? ? ? (A & n & w & D & ? & ? & ? & ? & _)]. split_and!; [done|done|]. by exists A, n, w, D. Qed.

Lemma reload_ok P m s r s' : base_ok P m (pair_ (fst s)) (snd s) → reload s = (r, s') → store_ok P m s'.
Proof.
  intros (Hl & Hs & A & n & w & D & Hf & Hag & HP & Hm). unfold reload, set_record, store, on_pair, mbind, M_bind, mret, M_ret. cbn [fst snd pair_ record_].
  destruct s as [[p rec] st]. cbn [fst snd pair_ record_] in *. destruct (has_active_ p) eqn:Ha; cbn [negb].
  2: { intros [= <- <-]. split; [done|done|apply no_revocation_typed|]. exists A, n, w, D. split_and!; try done. cbn [fst pair_]. congruence. }
  cbn [fst snd pair_ record_]. destruct (load_active rlv (p, st)) as [rl [p1 st1]] eqn:Hld.
  destruct (load_spec rlv rlv1_fixed p st rl p1 st1 (fl_ok _ _ _ _ _ _ _ Hf) Hs Hl Hld) as (Hok & Hv & (x & Hx & ->) & Hrec).
  assert (Hf' : flash A n w D st1) by (by apply (flash_same _ _ A n w D st)).
  destruct rl as [raw|c d].
  2: { intros [= <- <-]. split; [done|done|apply no_revocation_typed|]. exists A, n, w, D. split_and!; try done. intros _ _. by left. }
  destruct (Hrec raw eq_refl) as [_ Hraw]. unfold lift. intros [= <- <-].
  split; [done|done|cbn [fst record_]; rewrite Hraw; apply decode_typed, view_shape, Hf|]. exists A, n, w, D. split_and!; try done.
  cbn [fst snd pair_ record_]. rewrite usable_scratch. intros Hu _. right. destruct (Hag Hu) as [_ Hag']. destruct w as [b|]; [|congruence]. destruct Hag' as (_ & HA & _).
  destruct (fl_active _ _ _ _ _ _ _ Hf) as (Hpos & Hva & _). destruct (HP b (or_introl eq_refl)) as (r0 & -> & Hr0 & _).
  rewrite Hraw, HA, Hva. change (seal_committed rlv) with kLocalRevocationSealCommitted. rewrite (decode_image r0 Hr0 n); [done|]. destruct (fl_seq _ _ _ _ _ _ _ Hf). unfold in_range, UINT32_MAX in *. lia.
Qed.

Lemma observe_ok P m s r s' : base_ok P m (pair_ (fst s)) (snd s) → observe sha256 s = (r, s') → store_ok P m s'.
Proof.
  intros (Hl & Hs & A & n & w & D & Hf & Hag & HP & Hm). unfold observe, on_pair. destruct s as [[p rec] st]. cbn [fst snd pair_ record_] in *.
  destruct (SealedSlots.initialize sha256 rlv (p, st)) as [ri [p1 st1]] eqn:Hi. cbn [fst snd].
  destruct (pair_initialize_spec sha256 rlv rlv1_fixed rlv1_head rlv1_head_length A n w D p st ri p1 st1 Hf Hl Hi) as (Hf1 & Hl1 & Hus).
  destruct (reload _) as [rr s2] eqn:Hr. intros [= _ <-]. eapply reload_ok; [|exact Hr]. cbn [fst snd pair_]. split; [done|]. split; [by eapply initialize_slot|].
  destruct (usable_b p1) eqn:Hb.
  - apply usable_iff in Hb. destruct (Hus Hb) as (A' & n' & w' & Hf2 & Ha2 & Hw2). exists A', n', w', []. split_and!; [done|done| |].
    + intros b [->|?%not_elem_of_nil]; [|done]. apply HP. destruct Hw2 as [<-|(b' & Hin & [= <-])]; [by left|by right].
    + intros Hmt. destruct Hw2 as [->|(b' & _ & ->)]; [by apply Hm|by eexists].
  - exists A, n, w, D. split_and!; [done| |done|done]. intros Hu. apply usable_iff in Hu. congruence.
Qed.

Lemma refresh_ok P m s r s' : store_ok P m s → refresh sha256 s = (r, s') → store_ok P m s'.
Proof.
  intros Hs. unfold refresh, store, mbind, M_bind, fail_if, throw, mret, M_ret. destruct (initialized_ _); cbn [negb]; [|by intros [= _ <-]].
  intros Ho. eapply observe_ok; [|exact Ho]. by apply store_base.
Qed.

(** ** Committing *)

(** A commit keeps [P] when the new record has it whenever the pair is
    usable; after success the flash holds exactly the new record. *)
Lemma put_ok P m rec s r s' :
  store_ok P m s → (local_revocation_validate rec = Ok tt → revocation_ok rec ∧ (usable (pair_ (fst s)) → P rec)) →
  put_record sha256 rec s = (r, s') →
  store_ok P m s' ∧ (r = Ok tt → store_ok (λ x, x = rec) true s').
Proof.
  intros Hs Hrec. unfold put_record, encode, mbind, M_bind. destruct (store_base _ _ _ Hs) as (Hl & Hsl & A & n & w & D & Hf & Hag & HP & Hm).
  destruct (local_revocation_validate rec) as [[]|c d] eqn:Hv.
  2: { unfold local_revocation_record_encode. rewrite Hv. cbn. destruct (refresh sha256 s) as [rr s2] eqn:Hr. intros [= <- <-]. split; [by eapply refresh_ok|done]. }
  destruct (Hrec eq_refl) as [Hrk HPr]. rewrite (encode_image rec kSealPending 0 _ Hrk) by (first [by left|exact Hl]). cbn [fst snd pair_ record_].
  set (img := image rlv1_head kSealPending 0 (rlv1_body rec)). pose proof (revocation_good rec Hrk) as Hg. set (p := pair_ (fst s)) in *.
  assert (Hil : length img = 108%nat) by (apply (image_length 108); [lia|reflexivity|apply Hg]).
  destruct (image_fields 108 ltac:(lia) rlv1_head kSealPending 0 (rlv1_body rec) eq_refl (proj1 Hg) ltac:(done) ltac:(done)) as (Fh & _ & _ & Fb).
  unfold on_pair. cbn [fst snd pair_ record_]. destruct (commit_prepared sha256 rlv 108 (set_scratch img p, snd s)) as [rc [p1 st1]] eqn:Hc.
  destruct (commit_spec sha256 rlv rlv1_fixed rlv1_head rlv1_head_length rlv1_head_bytes A n w D (set_scratch img p) (snd s) (rlv1_body rec) rc p1 st1 Hf
    ltac:(by rewrite usable_scratch) Hil Fh Fb Hg Hc) as [Hl1 Hr1].
  destruct rc as [[]|c d].
  - destruct Hr1 as (Hu1 & A' & Hf1 & Ha1). intros Hld. assert (Hsl1 : (active_slot_ p1 < 2)%nat) by (destruct Ha1 as (_ & _ & -> & _); apply Hf1).
    assert (Hx : ∀ b, Some (rlv1_body rec) = Some b ∨ b ∈ [] → b = rlv1_body rec) by (by intros b [[= <-]|?%not_elem_of_nil]).
    assert (HPu : P rec).
    { apply HPr. apply usable_iff. destruct (usable_b p) eqn:Hb; [done|]. exfalso.
      destruct (commit_refused sha256 rlv (set_scratch img p) (snd s) 108 _ _ _ ltac:(rewrite usable_scratch, <- usable_iff; congruence) Hc) as [(? & ? & ?) _]. done. }
    split; [|intros _]; (eapply reload_ok; [|exact Hld]); (split; [done|]; split; [done|]); exists A', (n + 1), (Some (rlv1_body rec)), [];
      (split_and!; [done|done| |eauto]); intros b Hb; exists rec; rewrite (Hx b Hb); done.
  - destruct Hr1 as ((x & ->) & Hf1 & Hst). destruct (refresh sha256 _) as [rr s2] eqn:Hr. intros [= <- <-]. split; [|done]. eapply refresh_ok; [|exact Hr].
    destruct Hs as [_ _ Hty (A0 & n0 & w0 & D0 & G1 & G2 & G3 & G4 & G5)]. fold p in G2, G5. split; [done|done|done|]. cbn [fst snd pair_ record_] in *. destruct (usable_b p) eqn:Hb.
    + apply usable_iff in Hb. destruct (commit_spec sha256 rlv rlv1_fixed rlv1_head rlv1_head_length rlv1_head_bytes A0 n0 w0 D0 (set_scratch img p) (snd s) (rlv1_body rec) _ _ _ G1
        ltac:(by rewrite usable_scratch) Hil Fh Fb Hg Hc) as [_ (_ & Hf2 & _)].
      exists A0, n0, w0, (rlv1_body rec :: D0). split_and!; [done|done| |done|done]. intros b [->|[->|Hin]%elem_of_cons]; [apply G3; by left|exists rec; auto|apply G3; by right].
    + rewrite Hst by (rewrite usable_scratch, <- usable_iff; congruence). by exists A0, n0, w0, D0.
Qed.

(** What RAM says when the pair is usable. *)
Lemma store_record P m s :
  store_ok P m s → usable (pair_ (fst s)) →
  (has_active_ (pair_ (fst s)) = false ∧ m = false) ∨
  (has_active_ (pair_ (fst s)) = true ∧ (record_ (fst s) = no_revocation ∨ (revocation_ok (record_ (fst s)) ∧ P (record_ (fst s))))).
Proof.
  intros [_ _ _ (A & n & w & D & Hf & Hag & HP & Hm & Hrec)] Hu. destruct (Hag Hu) as [_ Ha]. destruct w as [b|].
  - right. destruct Ha as (Ha & _). split; [done|]. destruct (Hrec Hu Ha) as [?|[Hok [= ->]]]; [by left|right]. split; [done|].
    destruct (HP _ (or_introl eq_refl)) as (r & Hb & Hr & HPr). by rewrite (rlv1_body_inj _ r) by (first [apply Hok|apply Hr|done]).
  - left. split; [done|]. destruct m; [|done]. by destruct (Hm eq_refl).
Qed.

Lemma no_revocation_foreign r : local_revocation_validate r = Ok tt → local_node r ≠ local_node no_revocation.
Proof.
  intros Hv E. unfold local_revocation_validate, guard_err, id_valid in Hv. rewrite E in Hv. change (bool_decide (local_node no_revocation = 0)) with true in Hv. cbn in Hv.
  rewrite !orb_true_r in Hv. done.
Qed.

Lemma commit_blocked_ok P m rec s r s' :
  store_ok P m s → revocation_typed rec → (m = false → P rec) →
  (∀ cur, P cur → (site_id cur = site_id rec → removed_generation cur ≤ removed_generation rec) → P rec) →
  commit_blocked sha256 rec s = (r, s') →
  store_ok P m s' ∧ (r = Ok tt → store_ok (λ x, x = rec) true s').
Proof.
  intros Hs Ht Hfresh Hstep. unfold commit_blocked, store, fail_if, throw, lift, mbind, M_bind, mret, M_ret. cbn [fst snd].
  destruct (initialized_ _); cbn [negb]; [|by intros [= <- <-]]. destruct (bool_decide (lr_state rec = Blocked)); cbn [negb]; [|by intros [= <- <-]].
  destruct (local_revocation_validate rec) as [[]|c d] eqn:Hv; [|by intros [= <- <-]]. cbv zeta. destruct (_ && (_ || _ || _)) eqn:Hg; [by intros [= <- <-]|].
  intros Hput. eapply put_ok; [done| |exact Hput]. intros _. split; [done|]. intros Hu.
  destruct (store_record _ _ _ Hs Hu) as [[_ Hm]|[Ha Hrec]]; [by apply Hfresh|]. rewrite Ha in Hg. cbn [andb] in Hg.
  apply orb_false_iff in Hg as [Hg Hgen]. apply orb_false_iff in Hg as [Hnode _]. apply negb_false_iff, bool_decide_eq_true in Hnode.
  destruct Hrec as [E|[Hok HP]]; [rewrite E in Hnode; by destruct (no_revocation_foreign rec)|]. apply (Hstep (record_ (fst s)) HP).
  intros Hsite. rewrite (bool_decide_eq_true_2 (site_id _ = _)) in Hgen by done. apply bool_decide_eq_false in Hgen. lia.
Qed.

Lemma cleaned_typed rec : revocation_typed rec → revocation_typed (with_state Cleaned rec).
Proof. intros []. by split. Qed.

Lemma commit_cleaned_ok P m s r s' :
  store_ok P m s → (∀ cur, P cur → P (with_state Cleaned cur)) → commit_cleaned sha256 s = (r, s') → store_ok P m s'.
Proof.
  intros Hs Hstep. unfold commit_cleaned, store, fail_if, throw, lift, mbind, M_bind, mret, M_ret. cbn [fst snd].
  destruct (initialized_ (pair_ (fst s))) eqn:Hi; cbn [negb]; [|by intros [= <- <-]]. destruct (negb _ || _) eqn:Hg; [by intros [= <- <-]|].
  apply orb_false_iff in Hg as [Hact _]. apply negb_false_iff in Hact. intros Hput. eapply put_ok; [done| |exact Hput].
  intros Hv. split; [split; [apply cleaned_typed, (so_record _ _ _ Hs)|done]|]. intros Hu.
  destruct (store_record _ _ _ Hs Hu) as [[Hn _]|[_ [E|[_ HP]]]]; [congruence| |by apply Hstep]. rewrite E in Hv. by vm_compute in Hv.
Qed.

(** ** Runs *)

Inductive StoreOp := OpInitialize | OpRefresh | OpCommitBlocked (r : LocalRevocationRecord) | OpCommitCleaned | OpPowerCycle.

Definition perform (s : LocalRevocationStore * ST) (op : StoreOp) : LocalRevocationStore * ST :=
  match op with
  | OpInitialize => snd (initialize sha256 s)
  | OpRefresh => snd (refresh sha256 s)
  | OpCommitBlocked r => snd (commit_blocked sha256 r s)
  | OpCommitCleaned => snd (commit_cleaned sha256 s)
  | OpPowerCycle => (new_store, slot_restart (snd s))
  end.
Definition perform_all (ops : list StoreOp) (s : LocalRevocationStore * ST) : LocalRevocationStore * ST := fold_left perform ops s.

Definition op_typed (op : StoreOp) : Prop := match op with OpCommitBlocked r => revocation_typed r | _ => True end.
(** Removals of the same site only: after a cleaned removal the node may join
    another site, whose removal then replaces the record. *)
Definition op_at (site : Z) (op : StoreOp) : Prop := match op with OpCommitBlocked r => site_id r = site | _ => True end.

(** No committed record in either slot. *)
Definition blank (st : ST) : Prop :=
  slots_ok st ∧ seal_of (slot_view st 0) ≠ seal_committed rlv ∧ seal_of (slot_view st 1) ≠ seal_committed rlv.

Lemma store_start_ok P st : blank st → store_ok P false (new_store, st).
Proof.
  intros (Hok & H0s & H1s). split; [done|cbn; lia|apply no_revocation_typed|]. exists 1%nat, 0, None, []. split_and!; try done.
  - split; [done|lia|unfold UINT32_MAX; lia|constructor|done|]. by intros ?.
  - by intros b [?|?%not_elem_of_nil].
Qed.

Lemma power_ok P m s : store_ok P m s → store_ok P m (new_store, slot_restart (snd s)).
Proof.
  intros [_ _ _ (A & n & w & D & Hf & _ & HP & Hm & _)]. split; [done|cbn; lia|apply no_revocation_typed|]. exists A, n, w, D. split_and!; try done; [|by intros (? & _)].
  destruct (restart_law (snd s) (fl_ok _ _ _ _ _ _ _ Hf)) as [Hok Hv]. by apply (flash_same _ _ A n w D (snd s)).
Qed.

Lemma perform_ok P m s op :
  store_ok P m s → op_typed op → (∀ cur, P cur → P (with_state Cleaned cur)) →
  (∀ rec, op = OpCommitBlocked rec → (m = false → P rec) ∧
     ∀ cur, P cur → (site_id cur = site_id rec → removed_generation cur ≤ removed_generation rec) → P rec) →
  store_ok P m (perform s op).
Proof.
  intros Hs Ht Hcl Hb. destruct op as [| |rec| |]; cbn [perform].
  - destruct (initialize sha256 s) as [r s'] eqn:E. eapply observe_ok; [|exact E]. by apply store_base.
  - destruct (refresh sha256 s) as [r s'] eqn:E. by eapply refresh_ok.
  - destruct (commit_blocked sha256 rec s) as [r s'] eqn:E. destruct (Hb rec eq_refl). by eapply commit_blocked_ok.
  - destruct (commit_cleaned sha256 s) as [r s'] eqn:E. by eapply commit_cleaned_ok.
  - by apply power_ok.
Qed.

Lemma run_typed ops s : store_ok (λ _, True) false s → Forall op_typed ops → store_ok (λ _, True) false (perform_all ops s).
Proof. intros Hs Hops. revert s Hs. induction Hops as [|op ops Ht _ IH]; intros s Hs; [done|]. apply IH. by apply perform_ok. Qed.

(** Records at least as severe as [r] for its site. *)
Definition supersedes (r x : LocalRevocationRecord) : Prop := site_id x = site_id r ∧ removed_generation r ≤ removed_generation x.

Lemma run_superseding R ops s :
  store_ok (supersedes R) true s → Forall op_typed ops → Forall (op_at (site_id R)) ops → store_ok (supersedes R) true (perform_all ops s).
Proof.
  intros Hs Hops Hat. revert s Hs. induction Hops as [|op ops Ht _ IH]; intros s Hs; [done|]. inversion_clear Hat as [|? ? Ha Hat']. apply (IH Hat').
  apply perform_ok; [done|done| |].
  - by intros cur [? ?].
  - intros rec ->. split; [done|]. intros cur [Hsite Hge] Hle. cbn in Ha. split; [done|]. specialize (Hle ltac:(congruence)). lia.
Qed.

Lemma supersedes_weaken R s : store_ok (λ x, x = R) true s → store_ok (supersedes R) true s.
Proof.
  intros [? ? ? (A & n & w & D & Hf & Hag & HP & Hm & Hrec)]. split; [done|done|done|]. exists A, n, w, D. split_and!; try done.
  intros b Hb. destruct (HP b Hb) as (r & ? & ? & ->). exists R. by split_and!.
Qed.

(** ** The gates *)

Lemma gate_closed R s g elapsed : store_ok (supersedes R) true s → g ≤ removed_generation R → check_join (fst s) (site_id R) g elapsed ≠ Ok tt.
Proof.
  intros Hs Hg Hok. unfold check_join in Hok. apply guard_err_bind in Hok as [Hi Hok]. apply guard_err_bind in Hok as [Hq Hok].
  apply negb_false_iff in Hi. apply orb_false_iff in Hq as [Hq Hu].
  destruct (store_record _ _ _ Hs) as [[_ Hm]|[Ha Hrec]]; [done|done|]. rewrite Ha in Hok. cbn [negb] in Hok.
  apply guard_err_bind in Hok as [Hst Hok]. apply orb_false_iff in Hst as [Hst _]. destruct Hrec as [E|[_ [Hsite Hge]]]; [by rewrite E in Hst|].
  apply guard_err_ok in Hok. rewrite bool_decide_eq_true_2 in Hok by done. apply bool_decide_eq_false in Hok. lia.
Qed.

Lemma member_closed R s h network :
  store_ok (supersedes R) true s → local_revocation_ h = fst s → sr_site_id (site (site_ h)) = site_id R →
  assignment_generation (site (site_ h)) ≤ removed_generation R → local_member h network = false.
Proof.
  intros Hs Hl Hsite Hg. unfold local_member. destruct (stores_healthy h) eqn:Hh; cbn [negb]; [|done].
  unfold stores_healthy in Hh. apply andb_true_iff in Hh as [_ Hh]. rewrite Hl in Hh. unfold healthy, pair_health in Hh. cbn in Hh. apply usable_iff in Hh.
  do 4 (case_match; [done|]). destruct (blocks_membership _ _) eqn:Hb; [done|].
  assert (generation_removed h = true) as ->; [|done]. unfold generation_removed. rewrite Hl in *.
  destruct (store_record _ _ _ Hs Hh) as [[_ Hm]|[Ha Hrec]]; [done|]. rewrite Ha. destruct Hrec as [E|[_ [Hs' Hge]]].
  - exfalso. revert Hb. unfold blocks_membership. destruct Hh as (-> & _). rewrite Ha, E. cbn [negb]. done.
  - rewrite !bool_decide_eq_true_2 by (congruence || lia). done.
Qed.

(** ** Damaged slots *)

(** A slot that holds a damaged committed record, or one of a newer schema. *)
Definition damaged (st : ST) : Prop :=
  ∃ k c q pr, (k < 2)%nat ∧ classify_bytes rlv (slot_view st k) = (c, q, pr) ∧ (c = Corrupt ∨ c = Unsupported_).

(** The pair is impaired and the flash is still [v]. *)
Record stuck (v : nat → list Z) (s : LocalRevocationStore * ST) : Prop := {
  sk_ok : slots_ok (snd s); sk_view : ∀ k, slot_view (snd s) k = v k;
  sk_scratch : length (scratch_ (pair_ (fst s))) = 108%nat; sk_slot : (active_slot_ (pair_ (fst s)) < 2)%nat;
  sk_record : revocation_typed (record_ (fst s)); sk_unusable : ¬ usable (pair_ (fst s)) }.

Section Damaged.
Context (v : nat → list Z) (Hdam : ∃ k c q pr, (k < 2)%nat ∧ classify_bytes rlv (v k) = (c, q, pr) ∧ (c = Corrupt ∨ c = Unsupported_)).

Lemma reload_stuck s r s' : stuck v s → reload s = (r, s') → stuck v s'.
Proof.
  intros [Hok Hv Hl Hs _ Hu]. unfold reload, set_record, store, on_pair, mbind, M_bind, mret, M_ret. cbn [fst snd pair_ record_].
  destruct s as [[p rec] st]. cbn [fst snd pair_ record_] in *. destruct (has_active_ p) eqn:Ha; cbn [negb]; [|intros [= <- <-]; by split; try apply no_revocation_typed].
  cbn [fst snd pair_ record_]. destruct (load_active rlv (p, st)) as [rl [p1 st1]] eqn:Hld.
  destruct (load_spec rlv rlv1_fixed p st rl p1 st1 Hok Hs Hl Hld) as (Hok1 & Hv1 & (x & Hx & ->) & Hrec).
  assert (Hv' : ∀ k, slot_view st1 k = v k) by (intros; by rewrite Hv1).
  destruct rl as [raw|c d]; [|intros [= <- <-]; by split; try apply no_revocation_typed]. unfold lift. intros [= <- <-]. split; try done. cbn [fst record_].
  destruct (Hrec raw eq_refl) as [_ ->]. by apply decode_typed, view_shape.
Qed.

Lemma observe_stuck s r s' : stuck v s → observe sha256 s = (r, s') → stuck v s'.
Proof.
  intros [Hok Hv Hl Hs Ht Hu]. unfold observe, on_pair. destruct s as [[p rec] st]. cbn [fst snd pair_ record_] in *.
  destruct (SealedSlots.initialize sha256 rlv (p, st)) as [ri [p1 st1]] eqn:Hi. cbn [fst snd]. destruct (reload _) as [rr s2] eqn:Hr. intros [= _ <-].
  destruct (initialize_scans sha256 rlv rlv1_fixed p st ri p1 st1 Hok Hl Hi) as (Hok1 & Hv1 & Hl1 & _). eapply reload_stuck; [|exact Hr].
  split; cbn [fst snd pair_ record_]; try done; [intros; by rewrite Hv1|by eapply initialize_slot|]. destruct Hdam as (k & c & q & pr & Hk & Hc & Hb). rewrite <- Hv in Hc.
  by eapply (initialize_impaired sha256 rlv rlv1_fixed p st ri p1 st1 k).
Qed.

Lemma refresh_stuck s r s' : stuck v s → refresh sha256 s = (r, s') → stuck v s'.
Proof.
  intros Hs. unfold refresh, store, mbind, M_bind, fail_if, throw, mret, M_ret. destruct (initialized_ _); cbn [negb]; [|by intros [= _ <-]]. by apply observe_stuck.
Qed.

Lemma put_stuck rec s r s' : stuck v s → revocation_typed rec → put_record sha256 rec s = (r, s') → stuck v s' ∧ r ≠ Ok tt.
Proof.
  intros Hs Hrec. unfold put_record, encode, mbind, M_bind. destruct (local_revocation_validate rec) as [[]|c d] eqn:Hv.
  2: { unfold local_revocation_record_encode. rewrite Hv. cbn. destruct (refresh sha256 s) as [rr s2] eqn:Hr. intros [= <- <-]. split; [by eapply refresh_stuck|done]. }
  rewrite (encode_image rec kSealPending 0 _ (conj Hrec Hv)) by (first [by left|apply Hs]). unfold on_pair. cbn [fst snd pair_ record_].
  destruct (commit_prepared _ _ _ _) as [rc [p1 st1]] eqn:Hc.
  destruct (commit_refused sha256 rlv _ _ _ _ _ _ (λ Hu, sk_unusable _ _ Hs (proj1 (usable_scratch _ _) Hu)) Hc) as [(c & d & ->) [-> ->]].
  destruct (refresh sha256 _) as [rr s2] eqn:Hr. intros [= <- <-]. split; [|done]. eapply refresh_stuck; [|exact Hr]. destruct Hs. split; try done.
  pose proof (revocation_good rec (conj Hrec Hv)) as Hg. apply (image_length 108); [lia|reflexivity|apply Hg].
Qed.

Lemma blocked_stuck rec s r s' : stuck v s → revocation_typed rec → commit_blocked sha256 rec s = (r, s') → stuck v s' ∧ r ≠ Ok tt.
Proof.
  intros Hs Ht. unfold commit_blocked, store, fail_if, throw, lift, mbind, M_bind, mret, M_ret. cbn [fst snd].
  destruct (initialized_ _); cbn [negb]; [|by intros [= <- <-]]. destruct (bool_decide (lr_state rec = Blocked)); cbn [negb]; [|by intros [= <- <-]].
  destruct (local_revocation_validate rec) as [[]|c d]; [|by intros [= <- <-]]. cbv zeta. destruct (_ && (_ || _ || _)); [by intros [= <- <-]|]. by apply put_stuck.
Qed.

Lemma perform_stuck s op : stuck v s → op_typed op → stuck v (perform s op).
Proof.
  intros Hs Ht. destruct op as [| |rec| |]; cbn [perform].
  - destruct (initialize sha256 s) as [r s'] eqn:E. by eapply observe_stuck.
  - destruct (refresh sha256 s) as [r s'] eqn:E. by eapply refresh_stuck.
  - destruct (commit_blocked sha256 rec s) as [r s'] eqn:E. by eapply blocked_stuck.
  - destruct (commit_cleaned sha256 s) as [r s'] eqn:E. revert E. unfold commit_cleaned, store, fail_if, throw, lift, mbind, M_bind, mret, M_ret. cbn [fst snd].
    destruct (initialized_ (pair_ (fst s))); cbn [negb]; [|by intros [= <- <-]]. destruct (negb _ || _); [by intros [= <- <-]|]. intros E. eapply put_stuck; [exact Hs|apply cleaned_typed, Hs|exact E].
  - destruct (restart_law (snd s) (sk_ok _ _ Hs)) as [Hok Hv]. split; try done; [intros; cbn; rewrite Hv; apply Hs|cbn; lia|apply no_revocation_typed|by intros (? & _)].
Qed.
End Damaged.

Lemma run_stuck ops st : slots_ok st → damaged st → Forall op_typed ops → stuck (slot_view st) (perform_all ops (new_store, st)).
Proof.
  intros Hok Hd Hops. assert (Hs : stuck (slot_view st) (new_store, st)) by (split; try done; [cbn; lia|apply no_revocation_typed|by intros (? & _)]).
  revert Hs. generalize (new_store, st). induction Hops as [|op ops Ht _ IH]; intros s Hs; [done|]. by apply IH, perform_stuck.
Qed.

(** C19: When a slot holds a damaged committed record or one of a newer
    schema, then after any sequence of boots, refreshes, commits and power
    cycles the hooks report no membership, commit_blocked does not succeed,
    and the flash is unchanged. *)
Theorem damaged_record_stays_blocked st ops :
  slots_ok st → damaged st → Forall op_typed ops →
  let s := perform_all ops (new_store, st) in
  (∀ h network, local_revocation_ h = fst s → local_member h network = false) ∧
  (∀ rec, revocation_typed rec → fst (commit_blocked sha256 rec s) ≠ Ok tt) ∧
  (∀ k, slot_view (snd s) k = slot_view st k).
Proof.
  intros Hok Hd Hops s. pose proof (run_stuck ops st Hok Hd Hops) as Hs. fold s in Hs. split_and!; [| |apply Hs].
  - intros h network Hl. unfold local_member. destruct (stores_healthy h) eqn:Hh; [exfalso|done]. unfold stores_healthy in Hh. apply andb_true_iff in Hh as [_ Hh].
    apply (sk_unusable _ _ Hs). rewrite Hl in Hh. by apply usable_iff.
  - intros rec Ht. destruct (commit_blocked sha256 rec s) as [r s'] eqn:E. destruct (blocked_stuck (slot_view st) Hd rec s r s' Hs Ht E) as [_ Hr]. exact Hr.
Qed.

(** ** Clearing *)

(** With both slots erased, an initialisation that reports success found
    nothing. *)
Lemma initialize_erased p st p' st' :
  slots_ok st → length (scratch_ p) = 108%nat → is_erased (slot_view st 0) = true → is_erased (slot_view st 1) = true →
  SealedSlots.initialize sha256 rlv (p, st) = (Ok tt, (p', st')) →
  usable p' ∧ has_active_ p' = false ∧ slots_ok st' ∧ ∀ k, slot_view st' k = slot_view st k.
Proof.
  intros Hok Hl E0 E1. unfold SealedSlots.initialize. cbn [fst snd]. cbv zeta. assert (Hlc : length (scratch_ (cleared p)) = 108%nat) by done. rewrite Hlc.
  change (108 <? slot_bytes rlv)%nat with false. cbv iota.
  destruct (scan_slot sha256 rlv 0 (cleared p, st)) as [a [p1 st1]] eqn:H1.
  destruct (scan_slot_spec sha256 rlv rlv1_fixed 0 _ _ _ _ _ Hok ltac:(lia) Hlc H1) as (Hok1 & Hv1 & S1 & G1).
  destruct (scan_slot sha256 rlv 1 (p1, st1)) as [b [p2 st2]] eqn:H2.
  destruct (scan_slot_spec sha256 rlv rlv1_fixed 1 _ _ _ _ _ Hok1 ltac:(lia) (proj1 S1) H2) as (Hok2 & Hv2 & S2 & G2). rewrite Hv1 in G2. cbn [fst snd].
  assert (Hcl : ∀ v fl s fl', is_erased v = true → seen rlv v fl s fl' → sc_content s = None ∨ sc_content s = Some Empty).
  { intros v fl s fl' He Hs. unfold seen in Hs. destruct (sc_content s); [right|by left]. destruct Hs as (pr & Hc & _). unfold classify_bytes in Hc. rewrite He in Hc. by injection Hc as <-. }
  assert (Herr : ∀ k q t (x : Scan) y, scan_slot sha256 rlv k (q, t) = (x, y) → sc_content x = None → sc_error x ≠ Ok tt).
  { intros k q t x y. unfold scan_slot. cbn [fst snd]. destruct (read_scratch _ _ _) as [[raw|c d] [q1 t1]]; [destruct (classify_bytes _ _) as [[? ?] ?]|]; by intros [= <- _]. }
  pose proof (Herr _ _ _ _ _ H1) as X1. pose proof (Herr _ _ _ _ _ H2) as X2. pose proof (Hcl _ _ _ _ E0 G1) as C1. pose proof (Hcl _ _ _ _ E1 G2) as C2. clear Hcl Herr.
  destruct S1 as (_ & _ & _ & I1 & I2 & I3 & I4). destruct S2 as (_ & _ & _ & J1 & J2 & J3 & J4).
  destruct (settle rlv a b p2) as [r0 p0] eqn:Hst. intros [= -> <- <-]. revert Hst.
  unfold settle, unreadable, holds_content, read_error. destruct C1 as [C1|C1], C2 as [C2|C2]; rewrite C1, C2 in *; cbn [andb orb negb bool_decide].
  4: { intros [= <-]. change (has_active_ (cleared p)) with false in I1. change (quarantined_ (cleared p)) with false in I3. change (uncertain_ (cleared p)) with false in I4.
       split; [|cbn; split_and!; [congruence|done|intros; by rewrite Hv2, Hv1]]. unfold usable. cbn. split_and!; congruence. }
  all: intros Hst; exfalso.
  - destruct (sc_error a) as [[]|]; [by apply X1|]. done.
  - destruct (sc_error a) as [[]|]; [by apply X1|]. done.
  - destruct (sc_error a) as [[]|] eqn:Ea; [|done]. destruct (sc_error b) as [[]|] eqn:Eb; [by apply X2|done].
Qed.

Lemma clear_erases s s' :
  slots_ok (snd s) → length (scratch_ (pair_ (fst s))) = 108%nat → clear sha256 s = (Ok tt, s') →
  blank (snd s') ∧ usable (pair_ (fst s')) ∧ has_active_ (pair_ (fst s')) = false ∧ length (scratch_ (pair_ (fst s'))) = 108%nat.
Proof.
  intros Hok Hl. unfold clear, on_pair, erase_all, on_storage. cbn [fst snd].
  destruct (slot_erase 0 (snd s)) as [r0 st0] eqn:H0e. destruct (erase_law _ 0%nat _ _ Hok ltac:(lia) H0e) as (Hok0 & Hv0 & He0). cbn [fst snd].
  destruct (slot_erase 1 st0) as [r1 st1] eqn:H1e. destruct (erase_law _ 1%nat _ _ Hok0 ltac:(lia) H1e) as (Hok1 & Hv1 & He1).
  destruct r0 as [[]|]; [|by intros [= ? _]]. destruct r1 as [[]|]; [|by intros [= ? _]]. specialize (He0 eq_refl). specialize (He1 eq_refl). rewrite <- (Hv1 0%nat) in He0 by done.
  destruct (SealedSlots.initialize sha256 rlv (pair_ (fst s), st1)) as [ri [p2 st2]] eqn:Hi. destruct ri as [[]|]; [|by intros [= ? _]].
  destruct (initialize_erased _ _ _ _ Hok1 Hl He0 He1 Hi) as (Hu & Ha & Hok2 & Hv2). intros [= <-]. split; [|done]. split; [done|].
  split; (apply (erased_unsealed rlv 108 rlv1_fixed); [by apply view_shape|by apply view_shape|by rewrite Hv2]).
Qed.

(** After a successful clear nothing is left of a removal: the gate is open
    and the flash is blank. *)
Theorem clear_reopens_the_gate s s' site generation elapsed :
  slots_ok (snd s) → length (scratch_ (pair_ (fst s))) = 108%nat → clear sha256 s = (Ok tt, s') →
  record_ (fst s') = no_revocation ∧ blocks_membership (fst s') elapsed = false ∧ check_join (fst s') site generation elapsed = Ok tt ∧
  blank (snd s').
Proof.
  intros Hok Hl Hc. destruct (clear_erases s s' Hok Hl Hc) as (Hb & Hu & Ha & Hl'). pose proof Hu as (Hi & Hq & Hun).
  assert (Hr : record_ (fst s') = no_revocation).
  { revert Hc. unfold clear. destruct (on_pair _ _) as [[[]|c d] s1]; [by intros [= <-]|by intros [= ? _]]. }
  split; [done|]. unfold blocks_membership, check_join. rewrite Hi, Ha, Hq, Hun. by split_and!.
Qed.

(** C18: Once commit_blocked has reported success for a removal, then after
    any sequence of initialisations, refreshes, further removals of the same
    site, cleanings and power cycles, over a storage whose reads fail and
    whose writes tear at any point, the hooks never report the node a member
    of that site with the removed generation or an older one, no join is
    approved, and check_join refuses such a generation. *)
Theorem removal_survives_power_cuts st before R s after :
  blank st → Forall op_typed before → revocation_typed R →
  commit_blocked sha256 R (perform_all before (new_store, st)) = (Ok tt, s) →
  Forall op_typed after → Forall (op_at (site_id R)) after →
  (∀ h network, local_revocation_ h = fst (perform_all after s) → sr_site_id (site (site_ h)) = site_id R →
     assignment_generation (site (site_ h)) ≤ removed_generation R →
     local_member h network = false ∧ ∀ node, approve_join h node network = false) ∧
  ∀ g elapsed, g ≤ removed_generation R → check_join (fst (perform_all after s)) (site_id R) g elapsed ≠ Ok tt.
Proof.
  intros Hb Ht1 HtR Hc Ht2 Hat.
  destruct (commit_blocked_ok _ _ R _ _ _ (run_typed before _ (store_start_ok _ st Hb) Ht1) HtR ltac:(done) ltac:(done) Hc) as [_ Hs].
  pose proof (run_superseding R after s (supersedes_weaken R s (Hs eq_refl)) Ht2 Hat) as Hf. split.
  - intros h network Hl Hsite Hg. pose proof (member_closed R _ h network Hf Hl Hsite Hg) as Hm. split; [done|]. intros node. unfold approve_join. rewrite Hm. by repeat case_match.
  - intros g elapsed Hg. by apply gate_closed.
Qed.
End Store.
