(* ===== verification/SealedSlotsDemo.v ===== *)
(** * A storage with scripted faults

    Two slots and a script with one entry per operation: pass, fail without
    effect, or stop a write after some bytes (the fault model of the
    repository's FaultyRecordStorage test double).  It discharges the storage
    contract and runs the sealed pair and the removal store on concrete
    power cuts. *)

From S2P Require Import Prelude Types ByteIO Crc32 SealedSlots SealedSlotsProps SealedSlotsRun LocalRevocation LocalRevocationProps Membership LocalRevocationRun.

Inductive Fault := Pass | Fails | StopsAfter (k : nat).
Record FaultyStorage (size : nat) := mkFaulty { fs_slots : list (list Z); fs_script : list Fault }.
Arguments mkFaulty {size}. Arguments fs_slots {size}. Arguments fs_script {size}.

Lemma erased_replicate n : (0 < n)%nat → is_erased (replicate n 0xFF) = true.
Proof.
  destruct n as [|n]; [lia|]. intros _. cbn [replicate is_erased]. apply andb_true_iff. split; [done|].
  apply forallb_forall. intros x Hx. apply list_elem_of_In, elem_of_replicate in Hx as [-> _]. by rewrite bool_decide_eq_true.
Qed.

Section Faulty.
Context {size : nat}.
Abbreviation FS := (FaultyStorage size).

Definition fs_view (s : FS) (slot : nat) : list Z := default (replicate size 0xFF) (fs_slots s !! slot).
Definition next_fault (s : FS) : Fault * FS := (default Pass (head (fs_script s)), mkFaulty (fs_slots s) (tail (fs_script s))).

Definition fs_read (slot n : nat) : M FS (list Z) := λ s,
  match next_fault s with
  | (Pass, s') => (Ok (fs_view s' slot), s')
  | (_, s') => (Err StorageFailure "injected read error", s')
  end.
Definition fs_write (slot : nat) (data : list Z) : M FS unit := λ s,
  match next_fault s with
  | (Pass, s') => (Ok tt, mkFaulty (<[slot := data ++ replicate (size - length data) 0xFF]> (fs_slots s')) (fs_script s'))
  | (Fails, s') => (Err StorageFailure "injected write failure", s')
  | (StopsAfter k, s') =>
      let n := Nat.min k (length data) in
      (Err StorageFailure "power cut mid write", mkFaulty (<[slot := take n data ++ drop n (fs_view s' slot)]> (fs_slots s')) (fs_script s'))
  end.
Definition fs_erase (slot : nat) : M FS unit := λ s,
  match next_fault s with
  | (Pass, s') => (Ok tt, mkFaulty (<[slot := replicate size 0xFF]> (fs_slots s')) (fs_script s'))
  | (_, s') => (Err StorageFailure "injected erase failure", s')
  end.

#[export] Instance faulty_storage : RecordSlotStorage FS := {
  slot_read := fs_read; slot_write := fs_write; slot_erase := fs_erase; slot_restart s := s }.

Definition fs_ok (s : FS) : Prop := length (fs_slots s) = 2%nat ∧ Forall (λ v, length v = size ∧ bytes_ok v) (fs_slots s) ∧ (0 < size)%nat.

Lemma fs_shape s slot : fs_ok s → length (fs_view s slot) = size ∧ bytes_ok (fs_view s slot).
Proof.
  intros (_ & Hall & _). unfold fs_view. destruct (fs_slots s !! slot) as [v|] eqn:E; [exact (Forall_lookup_1 _ _ _ _ Hall E)|].
  split; [apply length_replicate|]. by apply Forall_replicate.
Qed.

(** Replacing one slot. *)
Lemma fs_put s slot v sc : fs_ok s → (slot < 2)%nat → length v = size → bytes_ok v →
  let s' := mkFaulty (<[slot := v]> (fs_slots s)) sc in
  fs_ok s' ∧ (∀ k, k ≠ slot → fs_view s' k = fs_view s k) ∧ fs_view s' slot = v.
Proof.
  intros (Hl & Hall & Hp) Hs Hv Hb. cbv zeta. unfold fs_view, fs_ok. cbn [fs_slots]. split_and!; [by rewrite length_insert|by apply Forall_insert|done| |].
  - intros k Hk. by rewrite list_lookup_insert_ne by done.
  - by rewrite list_lookup_insert_eq by lia.
Qed.

#[export] Program Instance faulty_laws : RecordSlotStorageLaws FS size := { slots_ok := fs_ok; slot_view := fs_view }.
Next Obligation. intros s slot. apply fs_shape. Qed.
Next Obligation.
  intros s slot r s' Hok Hs. cbn. unfold fs_read, next_fault. destruct (default Pass (head (fs_script s))); intros [= <- <-]; (split; [done|]); (split; [done|]); by intros ? [= <-].
Qed.
Next Obligation.
  intros s slot data r s' Hok Hs Hd Hb. cbn. unfold fs_write, next_fault. destruct (fs_shape s slot Hok) as [Hl Hvb].
  destruct (default Pass (head (fs_script s))) as [| |k]; intros [= <- <-]; cbn [fs_slots fs_script].
  - destruct (fs_put s slot (data ++ replicate (size - length data) 0xFF) (tail (fs_script s)) Hok Hs) as (H1 & H2 & H3).
    { rewrite length_app, length_replicate. lia. }
    { apply Forall_app. split; [done|]. by apply Forall_replicate. }
    split_and!; [done|done|]. rewrite H3. unfold landed. by rewrite take_app_length.
  - split_and!; [done|done|]. right. exists 0%nat. split; [lia|]. done.
  - set (n := Nat.min k (length data)). change (fs_view (mkFaulty (fs_slots s) (tail (fs_script s))) slot) with (fs_view s slot).
    destruct (fs_put s slot (take n data ++ drop n (fs_view s slot)) (tail (fs_script s)) Hok Hs) as (H1 & H2 & H3).
    { rewrite length_app, length_take, length_drop. lia. }
    { apply Forall_app. split; [by apply Forall_take|by apply Forall_drop]. }
    split_and!; [done|done|]. right. exists n. split; [lia|]. exact H3.
Qed.
Next Obligation.
  intros s slot r s' Hok Hs. cbn. unfold fs_erase, next_fault. destruct (default Pass (head (fs_script s))); intros [= <- <-]; cbn [fs_slots fs_script].
  2,3: by split_and!.
  destruct (fs_put s slot (replicate size 0xFF) (tail (fs_script s)) Hok Hs) as (H1 & H2 & H3); [apply length_replicate|by apply Forall_replicate|].
  split_and!; [done|done|]. intros _. rewrite H3. destruct Hok as (_ & _ & Hp). by apply erased_replicate.
Qed.
Next Obligation. done. Qed.

End Faulty.

(** ** Concrete runs *)

Definition erased_with (script : list Fault) : FaultyStorage 108 := mkFaulty [replicate 108 0xFF; replicate 108 0xFF] script.
(** A removal of generation [g] from site 7. *)
Definition removal (g : Z) : LocalRevocationRecord :=
  mkRevocation Blocked CauseRrs 11 7 0x900000001 g 3 2 (replicate 32 0xA5) 0 5 kLocalRevocationHoldoffMs.
Definition prepared (g : Z) : list Z := image rlv1_head kSealPending 0 (rlv1_body (removal g)).

Lemma erased_blank script : blank (erased_with script).
Proof.
  split_and!; [|by vm_compute..]. split_and!; [done| |cbn; lia]. repeat constructor; cbn [length]; try done; by apply Forall_replicate.
Qed.

Lemma removal_ok g : 0 < g < 2 ^ 32 → revocation_ok (removal g).
Proof.
  intros Hg. split; [split; try done; [unfold removal, in_range; cbn; lia|split; [done|by apply Forall_replicate]]|].
  unfold local_revocation_validate. cbn [removal lr_state lr_cause local_node site_id lr_network removed_generation evidence_digest holdoff_ms].
  rewrite (bool_decide_eq_false_2 (g = 0)) by lia. reflexivity.
Qed.

Lemma prepared_ok g : 0 < g < 2 ^ 32 →
  length (prepared g) = 108%nat ∧ head_of (prepared g) = rlv1_head ∧ good_body kLocalRevocationFormat 108 rlv1_head (body_of (prepared g)) ∧
  body_of (prepared g) = rlv1_body (removal g).
Proof.
  intros Hg. pose proof (revocation_good _ (removal_ok g Hg)) as Hgood.
  destruct (image_fields 108 ltac:(lia) rlv1_head kSealPending 0 (rlv1_body (removal g)) eq_refl (proj1 Hgood) ltac:(done) ltac:(done)) as (F1 & _ & _ & F4).
  unfold prepared. split_and!; [by apply (image_length 108); [lia|reflexivity|apply Hgood]|done|by rewrite F4|done].
Qed.

(** SHA-256 as a parameter: the runs below use the bytes themselves. *)
Definition digest (bs : list Z) : list Z := bs.
Abbreviation rlv := kLocalRevocationFormat.

Lemma triple_eta {A B C} (x : A * (B * C)) : x = (fst x, (fst (snd x), snd (snd x))).
Proof. by destruct x as [? []]. Qed.

(** Boot, commit generation 5, lose power while sealing generation 6, boot. *)
Definition cut_start : FaultyStorage 108 := erased_with [Pass; Pass; Pass; Pass; Pass; Pass; StopsAfter 12].
Definition cut_boot := SealedSlots.initialize digest rlv (new_pair 108, cut_start).
Definition cut_commit := commit_prepared digest rlv 108 (set_scratch (prepared 5) (fst (snd cut_boot)), snd (snd cut_boot)).
Definition cut_attempt := commit_prepared digest rlv 108 (set_scratch (prepared 6) (fst (snd cut_commit)), snd (snd cut_commit)).
Definition cut_reboot := SealedSlots.initialize digest rlv (new_pair 108, slot_restart (snd (snd cut_attempt))).
Definition cut_trace : list Event :=
  [Observed (Some (rlv1_body (removal 5))); Attempted (rlv1_body (removal 6)); Committed (rlv1_body (removal 5)); Observed None].

Abbreviation pair_run := (SealedSlotsRun.run (ST := FaultyStorage 108) (L := 108) digest rlv rlv1_head).

Lemma boot_step tr p st x tr' :
  pair_run tr p st → x = SealedSlots.initialize digest rlv (p, st) →
  (if usable_b (fst (snd x)) then Observed (adopted (fst (snd x)) (snd (snd x))) :: tr else tr) = tr' →
  pair_run tr' (fst (snd x)) (snd (snd x)).
Proof. intros Hr -> <-. eapply run_initialize; [exact Hr|apply triple_eta]. Qed.

Lemma commit_step tr p st g x tr' :
  0 < g < 2 ^ 32 → pair_run tr p st → x = commit_prepared digest rlv 108 (set_scratch (prepared g) p, st) →
  match fst x with Ok _ => Committed (rlv1_body (removal g)) :: tr
  | Err _ _ => if usable_b p then Attempted (rlv1_body (removal g)) :: tr else tr end = tr' →
  pair_run tr' (fst (snd x)) (snd (snd x)).
Proof.
  intros Hg Hr -> <-. destruct (prepared_ok g Hg) as (H1 & H2 & H3 & <-). eapply run_commit; [exact Hr|done|done|done|apply triple_eta].
Qed.

Lemma start_step script : pair_run [] (new_pair 108) (erased_with script).
Proof. destruct (erased_blank script) as (Hok & H0 & H1). by apply run_start. Qed.

Lemma cut_run : pair_run cut_trace (fst (snd cut_reboot)) (snd (snd cut_reboot)).
Proof.
  assert (R1 : pair_run [Observed None] (fst (snd cut_boot)) (snd (snd cut_boot))) by (eapply boot_step; [apply start_step|reflexivity|by vm_compute]).
  assert (R2 : pair_run [Committed (rlv1_body (removal 5)); Observed None] (fst (snd cut_commit)) (snd (snd cut_commit))) by (eapply (commit_step _ _ _ 5); [lia|exact R1|reflexivity|by vm_compute]).
  assert (R3 : pair_run (tail cut_trace) (fst (snd cut_attempt)) (snd (snd cut_attempt))) by (eapply (commit_step _ _ _ 6); [lia|exact R2|reflexivity|by vm_compute]).
  eapply boot_step; [eapply run_power; exact R3|reflexivity|by vm_compute].
Qed.

Lemma sealed_pair_durable_witness :
  adopted (fst (snd cut_reboot)) (snd (snd cut_reboot)) = Some (rlv1_body (removal 5)) ∧
  (usable (fst (snd cut_reboot)) → adopted (fst (snd cut_reboot)) (snd (snd cut_reboot)) ∈ possible cut_trace) ∧
  ∀ new o old, cut_trace = new ++ Observed o :: old → o ∈ possible old.
Proof.
  split; [by vm_compute|]. apply (sealed_pair_durable digest rlv rlv1_fixed rlv1_head rlv1_head_length rlv1_head_bytes). apply cut_run.
Defined.

(** ** Both slots at once *)

(** Three commits leave the newest record in slot 0 and its predecessor in
    slot 1; power is lost between the two phases of slot 0 of a twin commit. *)
Definition twin_start : FaultyStorage 108 := erased_with (replicate 12 Pass ++ [Fails]).
Definition twin_boot := SealedSlots.initialize digest rlv (new_pair 108, twin_start).
Definition twin_5 := commit_prepared digest rlv 108 (set_scratch (prepared 5) (fst (snd twin_boot)), snd (snd twin_boot)).
Definition twin_6 := commit_prepared digest rlv 108 (set_scratch (prepared 6) (fst (snd twin_5)), snd (snd twin_5)).
Definition twin_7 := commit_prepared digest rlv 108 (set_scratch (prepared 7) (fst (snd twin_6)), snd (snd twin_6)).
Definition twin_8 := commit_twin_prepared digest rlv 108 (set_scratch (prepared 8) (fst (snd twin_7)), snd (snd twin_7)).
Definition twin_reboot := SealedSlots.initialize digest rlv (new_pair 108, slot_restart (snd (snd twin_8))).
Definition twin_trace : list Event :=
  [Committed (rlv1_body (removal 7)); Committed (rlv1_body (removal 6)); Committed (rlv1_body (removal 5)); Observed None].

(** A commit of both slots that loses power rolls the pair back: in the run
    below generation 7 is committed, the twin commit of generation 8 stops
    between the two phases of slot 0, and the next boot succeeds with
    generation 6, which is neither. *)
Lemma twin_commit_can_roll_back :
  pair_run twin_trace (fst (snd twin_7)) (snd (snd twin_7)) ∧
  fst twin_8 = Err StorageFailure "injected write failure" ∧
  fst twin_reboot = Ok tt ∧ usable (fst (snd twin_reboot)) ∧
  adopted (fst (snd twin_reboot)) (snd (snd twin_reboot)) = Some (rlv1_body (removal 6)).
Proof.
  split; [|by vm_compute].
  assert (R1 : pair_run [Observed None] (fst (snd twin_boot)) (snd (snd twin_boot))) by (eapply boot_step; [apply start_step|reflexivity|by vm_compute]).
  assert (R2 : pair_run [Committed (rlv1_body (removal 5)); Observed None] (fst (snd twin_5)) (snd (snd twin_5))) by (eapply (commit_step _ _ _ 5); [lia|exact R1|reflexivity|by vm_compute]).
  assert (R3 : pair_run (tail twin_trace) (fst (snd twin_6)) (snd (snd twin_6))) by (eapply (commit_step _ _ _ 6); [lia|exact R2|reflexivity|by vm_compute]).
  eapply (commit_step _ _ _ 7); [lia|exact R3|reflexivity|by vm_compute].
Qed.

(** ** The removal store *)

(** Generation 5 is committed, the cleaned record is torn by a power cut, and
    after the reboot a removal of generation 6 follows. *)
Definition store_start : FaultyStorage 108 := erased_with [Pass; Pass; Pass; Pass; Pass; Pass; Pass; Pass; StopsAfter 12].
Definition store_before := perform_all digest [OpInitialize] (new_store, store_start).
Definition store_after : list StoreOp := [OpCommitCleaned; OpPowerCycle; OpInitialize; OpCommitBlocked (removal 6); OpCommitCleaned].
Definition store_final := perform_all digest store_after (snd (commit_blocked digest (removal 5) store_before)).

Definition good_health : StoreHealth := mkHealth true false false.
(** Hooks of a node whose site record is of generation [g], the hold-off over. *)
Definition hooks_at (g : Z) (l : LocalRevocationStore) : Hooks :=
  mkHooks (mkIdentity good_health true 11 NvsPlaintext) (mkSiteView good_health (mkSite SiteMember 7 0x900000001 g 0 5)) (mkRevocationView good_health None)
    l None (Some (λ _, true)) true true.

Lemma removal_survives_power_cuts_witness :
  record_ (fst store_final) = with_state Cleaned (removal 6) ∧
  local_member (hooks_at 5 (fst store_final)) 0x900000001 = false ∧ local_member (hooks_at 7 (fst store_final)) 0x900000001 = true.
Proof.
  split; [by vm_compute|]. split; [|by vm_compute].
  assert (T : ∀ g, 0 < g < 2 ^ 32 → revocation_typed (removal g)) by (intros; by apply removal_ok).
  assert (Hc : commit_blocked digest (removal 5) (perform_all digest [OpInitialize] (new_store, store_start)) = (Ok tt, snd (commit_blocked digest (removal 5) store_before))) by (by vm_compute).
  assert (H1 : Forall op_typed [OpInitialize]) by (by repeat constructor).
  assert (H2 : Forall op_typed store_after) by (repeat constructor; apply (T 6); lia).
  assert (H3 : Forall (op_at (site_id (removal 5))) store_after) by (by repeat constructor).
  pose proof (removal_survives_power_cuts digest store_start [OpInitialize] (removal 5) (snd (commit_blocked digest (removal 5) store_before)) store_after (erased_blank _) H1 (T 5 ltac:(lia)) Hc H2 H3) as [W _].
  assert (E : local_revocation_ (hooks_at 5 (fst store_final)) = fst (perform_all digest store_after (snd (commit_blocked digest (removal 5) store_before)))) by (by vm_compute).
  assert (G : assignment_generation (site (site_ (hooks_at 5 (fst store_final)))) ≤ removed_generation (removal 5)) by (by vm_compute).
  assert (S : sr_site_id (site (site_ (hooks_at 5 (fst store_final)))) = site_id (removal 5)) by (by vm_compute).
  destruct (W (hooks_at 5 (fst store_final)) 0x900000001 E S G) as [Hm _]. exact Hm.
Defined.

(** The first removal ever is torn after five bytes: the node stays blocked,
    and repeating the commit does not help. *)
Definition torn_store : LocalRevocationStore * FaultyStorage 108 :=
  perform_all digest [OpInitialize; OpCommitBlocked (removal 5)] (new_store, erased_with [Pass; Pass; StopsAfter 5]).
Definition retried : list StoreOp := [OpInitialize; OpRefresh; OpCommitBlocked (removal 5)].

Lemma torn_damaged : damaged (snd torn_store).
Proof. exists 0%nat, Corrupt, 0, false. split_and!; [lia|by vm_compute|by left]. Qed.
Lemma torn_slots_ok : slots_ok (snd torn_store).
Proof.
  split_and!; [by vm_compute| |cbn; lia]. apply (bool_decide_eq_true_1 (Forall (λ v, length v = 108%nat ∧ bytes_ok v) (fs_slots (snd torn_store)))). by vm_compute.
Qed.

Lemma damaged_record_stays_blocked_witness :
  let s := perform_all digest retried (new_store, snd torn_store) in
  initialized_ (pair_ (fst s)) = true ∧ quarantined_ (pair_ (fst s)) = true ∧ fst (commit_blocked digest (removal 5) s) ≠ Ok tt.
Proof.
  split_and!; [by vm_compute..|]. assert (T : revocation_typed (removal 5)) by (apply removal_ok; lia).
  assert (H1 : Forall op_typed retried) by (by repeat constructor).
  destruct (damaged_record_stays_blocked digest (snd torn_store) retried torn_slots_ok torn_damaged H1) as (_ & W & _). exact (W (removal 5) T).
Defined.

Definition clear_final := clear digest store_final.
Lemma clear_reopens_the_gate_witness : blocks_membership (fst (snd clear_final)) false = false ∧ check_join (fst (snd clear_final)) 7 1 false = Ok tt.
Proof.
  assert (E : clear digest store_final = (Ok tt, snd clear_final)) by (by vm_compute).
  assert (K : slots_ok (snd store_final)).
  { split_and!; [by vm_compute| |cbn; lia]. apply (bool_decide_eq_true_1 (Forall (λ v, length v = 108%nat ∧ bytes_ok v) (fs_slots (snd store_final)))). by vm_compute. }
  assert (Hl : length (scratch_ (pair_ (fst store_final))) = 108%nat) by (by vm_compute).
  destruct (clear_reopens_the_gate digest store_final (snd clear_final) 7 1 false K Hl E) as (_ & W1 & W2 & _). split; [exact W1|exact W2].
Defined.

Lemma removal_record_roundtrip_witness :
  ∃ bytes, local_revocation_record_encode (removal 5) kLocalRevocationSealCommitted 9 (replicate 108 0) = Ok (108%nat, bytes) ∧
    decode_into bytes = (Ok 9, removal 5) ∧ local_revocation_record_structure bytes = Ok tt.
Proof. apply (removal_record_roundtrip (removal 5) 9 (replicate 108 0)); [apply removal_ok; lia|done|reflexivity]. Defined.
