(* ===== verification/SessionBank.v ===== *)
(** * The session bank (session_bank.{hpp,cpp})

    The unicast sessions of a node: current contexts in two open-addressed
    tables, superseded receive keys, establishment demands, counters, replay
    windows and lifetimes, all in RAM.  The AEAD is a port ([AeadGcm]), the
    HMAC that picks a slot a parameter, and what the random source returns an
    input.  An unused slot is [None]: the code wipes a slot when it clears its
    flag and reads none that is not in use.  The ports do not call back into
    the bank, so the re-entry flag does not appear. *)

From S2P Require Import Prelude Types.

(** ** Ports *)

(** [struct AeadGcm]: [None] where the port returns false. *)
Class AeadGcm := {
  aead_seal : list Z → list Z → list Z → list Z → option (list Z * list Z);
  aead_open : list Z → list Z → list Z → list Z → list Z → option (list Z) }.

Class AeadGcmLaws `{AeadGcm} := {
  aead_shape key nonce aad pt ct tag :
    aead_seal key nonce aad pt = Some (ct, tag) → length ct = length pt ∧ length tag = 16%nat;
  aead_inverse key nonce aad pt ct tag :
    aead_seal key nonce aad pt = Some (ct, tag) → aead_open key nonce aad ct tag = Some pt }.

(** [keys::aead_nonce]: the low 48 bits of the IV are combined with the counter. *)
Definition kMaxAeadCounter : Z := 2 ^ 48 - 1.
Definition aead_nonce (iv : list Z) (counter : Z) : result (list Z) :=
  if bool_decide (kMaxAeadCounter < counter) then Err CounterExhausted "aead counter above 2^48-1"
  else Ok (take 6 iv ++ zip_with Z.lxor (drop 6 iv) (be_bytes 6 counter)).

(** ** Data *)

Record ContextKeys := mkKeys {
  ck_scope : SecurityScope; ck_network : NetworkId; ck_peer : NodeId; ck_tx_context_id : Z; ck_rx_context_id : Z;
  ck_tx_key : list Z; ck_tx_iv : list Z; ck_rx_key : list Z; ck_rx_iv : list Z; ck_peer_cert_id : list Z; ck_peer_generation : Z }.
Record InstallAttestation := mkAttestation { at_peer_role : Z; at_created_gk_epoch : Z; dev_resume : bool }.

Record SessionBankEntry := mkEntry {
  peer : NodeId; tx_next : Z; rx_max : Z; rx_bitmap : Z;
  tx_key : list Z; rx_key : list Z; tx_iv : list Z; rx_iv : list Z; peer_cert_id : list Z;
  tx_cid : Z; rx_cid : Z; peer_generation : Z; peer_role : Z; created_gk : Z;
  remaining_ms : Z; install_serial : Z; flags : Z }.
Record SessionOverlapEntry := mkOverlap {
  ov_scope : SecurityScope; ov_peer : NodeId; ov_rx_key : list Z; ov_rx_iv : list Z; ov_rx_max : Z; ov_rx_bitmap : Z;
  ov_rx_cid : Z; ov_remaining_ms : Z; ov_install_serial : Z }.
Record DemandEntry := mkDemand { dm_peer : NodeId; dm_hold_ms : Z; dm_scope : SecurityScope }.
Record SessionDemand := mkSessionDemand { sd_scope : SecurityScope; sd_peer : NodeId; sd_deadline_ms : Z }.
Record LocalView := mkLocal { self : NodeId; l_network : NetworkId; gk_epoch : Z; demand_hold_ms : Z }.

Definition kOverlapCapacity : nat := 8.
Definition kDemandCapacity : nat := 8.
Definition kRekeySoftCounter : Z := 2 ^ 32 - 1024.
Definition kMaxUseCounter : Z := 2 ^ 32.
Definition kContextLifetimeMs : Z := 24 * 3600 * 1000.
Definition kOverlapLifetimeMs : Z := 60 * 1000.
Definition kStagingBytes : nat := 250.
Definition kCidRetries : nat := 8.
Definition kRxUnknownGraceMs : Z := 10 * 1000.
Definition kRxUnknownRateMs : Z := 2000.
Definition kFlagSealReserved : Z := 0x01.
Definition kFlagRekeyPending : Z := 0x02.
Definition kFlagPinned : Z := 0x04.
Definition kFlagDevResume : Z := 0x08.

Definition has_flag (f x : Z) : bool := negb (bool_decide (Z.land x f = 0)).

Inductive TxCounterVerdict := Issue | IssueRekeyDue | Refuse.
#[global] Instance TxCounterVerdict_eq_dec : EqDecision TxCounterVerdict.
Proof. solve_decision. Defined.
Definition check_tx_counter (next : Z) : TxCounterVerdict :=
  if bool_decide (next < kRekeySoftCounter) then Issue
  else if bool_decide (next < kMaxUseCounter) then IssueRekeyDue
  else Refuse.
Definition tx_refused (next : Z) : bool := bool_decide (check_tx_counter next = Refuse).
Definition rx_counter_admissible (counter : Z) : bool := bool_decide (counter < kMaxUseCounter).

Inductive ContextState := StateNone | Establishing | Ready | Rekeying.

Definition id_valid (id : Z) : bool := negb (bool_decide (id = kInvalidNodeId)) && negb (bool_decide (id = kBroadcastNodeId)).
Definition unicast_scope (sc : SecurityScope) : bool := bool_decide (sc = Link) || bool_decide (sc = EndToEnd).

(** [check_context_keys] of security.hpp *)
Definition check_context_keys (k : ContextKeys) : result unit :=
  guard_err (negb (bool_decide (ck_scope k = Link)) && negb (bool_decide (ck_scope k = EndToEnd))) Unsupported "SESSION_SCOPE_UNSUPPORTED";;
  guard_err (bool_decide (ck_network k = 0) || bool_decide (ck_peer k = kInvalidNodeId) || bool_decide (ck_peer k = kBroadcastNodeId))
    InvalidArgument "SESSION_IDENTITY_INVALID";;
  guard_err (bool_decide (ck_tx_context_id k = 0) || bool_decide (ck_rx_context_id k = 0)) InvalidArgument "SESSION_CONTEXT_ID_ZERO".

Record SessionBank := mkBank {
  local_ : LocalView; slot_salt_ : list Z; configured_ : bool; last_tick_ : Z; next_expiry_ : Z; expiry_slots_scanned_ : Z;
  install_serial_ : Z; lru_clock_ : Z;
  link_ : list (option SessionBankEntry); end_ : list (option SessionBankEntry); end_lru_ : list Z;
  overlap_ : list (option SessionOverlapEntry); demand_ : list (option DemandEntry);
  last_rx_unknown_demand_ms_ : Z; rx_unknown_demand_started_ : bool }.

Definition set_link t b := mkBank (local_ b) (slot_salt_ b) (configured_ b) (last_tick_ b) (next_expiry_ b) (expiry_slots_scanned_ b)
  (install_serial_ b) (lru_clock_ b) t (end_ b) (end_lru_ b) (overlap_ b) (demand_ b) (last_rx_unknown_demand_ms_ b) (rx_unknown_demand_started_ b).
Definition set_end t b := mkBank (local_ b) (slot_salt_ b) (configured_ b) (last_tick_ b) (next_expiry_ b) (expiry_slots_scanned_ b)
  (install_serial_ b) (lru_clock_ b) (link_ b) t (end_lru_ b) (overlap_ b) (demand_ b) (last_rx_unknown_demand_ms_ b) (rx_unknown_demand_started_ b).
Definition set_lru clock t b := mkBank (local_ b) (slot_salt_ b) (configured_ b) (last_tick_ b) (next_expiry_ b) (expiry_slots_scanned_ b)
  (install_serial_ b) clock (link_ b) (end_ b) t (overlap_ b) (demand_ b) (last_rx_unknown_demand_ms_ b) (rx_unknown_demand_started_ b).
Definition set_overlap t b := mkBank (local_ b) (slot_salt_ b) (configured_ b) (last_tick_ b) (next_expiry_ b) (expiry_slots_scanned_ b)
  (install_serial_ b) (lru_clock_ b) (link_ b) (end_ b) (end_lru_ b) t (demand_ b) (last_rx_unknown_demand_ms_ b) (rx_unknown_demand_started_ b).
Definition set_demand t b := mkBank (local_ b) (slot_salt_ b) (configured_ b) (last_tick_ b) (next_expiry_ b) (expiry_slots_scanned_ b)
  (install_serial_ b) (lru_clock_ b) (link_ b) (end_ b) (end_lru_ b) (overlap_ b) t (last_rx_unknown_demand_ms_ b) (rx_unknown_demand_started_ b).
Definition set_times tick expiry scanned b := mkBank (local_ b) (slot_salt_ b) (configured_ b) tick expiry scanned
  (install_serial_ b) (lru_clock_ b) (link_ b) (end_ b) (end_lru_ b) (overlap_ b) (demand_ b) (last_rx_unknown_demand_ms_ b) (rx_unknown_demand_started_ b).
Definition set_serial x b := mkBank (local_ b) (slot_salt_ b) (configured_ b) (last_tick_ b) (next_expiry_ b) (expiry_slots_scanned_ b)
  x (lru_clock_ b) (link_ b) (end_ b) (end_lru_ b) (overlap_ b) (demand_ b) (last_rx_unknown_demand_ms_ b) (rx_unknown_demand_started_ b).
Definition set_local x b := mkBank x (slot_salt_ b) (configured_ b) (last_tick_ b) (next_expiry_ b) (expiry_slots_scanned_ b)
  (install_serial_ b) (lru_clock_ b) (link_ b) (end_ b) (end_lru_ b) (overlap_ b) (demand_ b) (last_rx_unknown_demand_ms_ b) (rx_unknown_demand_started_ b).
Definition set_rx_unknown ms b := mkBank (local_ b) (slot_salt_ b) (configured_ b) (last_tick_ b) (next_expiry_ b) (expiry_slots_scanned_ b)
  (install_serial_ b) (lru_clock_ b) (link_ b) (end_ b) (end_lru_ b) (overlap_ b) (demand_ b) ms true.

(** Field updates of an entry. *)
Definition with_tx next fl (e : SessionBankEntry) := mkEntry (peer e) next (rx_max e) (rx_bitmap e) (tx_key e) (rx_key e) (tx_iv e) (rx_iv e) (peer_cert_id e)
  (tx_cid e) (rx_cid e) (peer_generation e) (peer_role e) (created_gk e) (remaining_ms e) (install_serial e) fl.
Definition with_window m bits (e : SessionBankEntry) := mkEntry (peer e) (tx_next e) m bits (tx_key e) (rx_key e) (tx_iv e) (rx_iv e) (peer_cert_id e)
  (tx_cid e) (rx_cid e) (peer_generation e) (peer_role e) (created_gk e) (remaining_ms e) (install_serial e) (flags e).
Definition with_life ms serial (e : SessionBankEntry) := mkEntry (peer e) (tx_next e) (rx_max e) (rx_bitmap e) (tx_key e) (rx_key e) (tx_iv e) (rx_iv e) (peer_cert_id e)
  (tx_cid e) (rx_cid e) (peer_generation e) (peer_role e) (created_gk e) ms serial (flags e).
Definition with_flags fl (e : SessionBankEntry) := with_tx (tx_next e) fl e.
Definition ov_with_window m bits (o : SessionOverlapEntry) := mkOverlap (ov_scope o) (ov_peer o) (ov_rx_key o) (ov_rx_iv o) m bits
  (ov_rx_cid o) (ov_remaining_ms o) (ov_install_serial o).

(** ** Lifetimes *)

(** [remaining]: the distance of a low32 deadline from the last tick. *)
Definition remaining (b : SessionBank) (deadline : Z) : Z := u32 (deadline - u32 (last_tick_ b)).
(** The absolute deadline a lifetime ends at. *)
Definition deadline_after (b : SessionBank) (duration : Z) : Z :=
  if bool_decide (UINT64_MAX - last_tick_ b < duration) then UINT64_MAX else last_tick_ b + duration.
(** [expires_after] keeps the earliest deadline. *)
Definition note_expiry (deadline : Z) (b : SessionBank) : SessionBank :=
  set_times (last_tick_ b) (Z.min (next_expiry_ b) deadline) (expiry_slots_scanned_ b) b.
Definition expires_after (b : SessionBank) (duration : Z) : Z * SessionBank :=
  let d := deadline_after b duration in (u32 d, note_expiry d b).

(** A GK birthday is usable in its own epoch and the next. *)
Definition gk_dead (b : SessionBank) (created : Z) : bool :=
  bool_decide (gk_epoch (local_ b) < created) || bool_decide (created + 2 ≤ gk_epoch (local_ b)).
Definition entry_usable (b : SessionBank) (e : SessionBankEntry) : bool :=
  negb (bool_decide (remaining b (remaining_ms e) = 0)) && negb (gk_dead b (created_gk e)).

Definition wiped {A} (t : list (option A)) : list (option A) := (λ _, None) <$> t.
Definition wipe_all (b : SessionBank) : SessionBank :=
  mkBank (local_ b) (replicate 32 0) false (last_tick_ b) UINT64_MAX (expiry_slots_scanned_ b) 0 0
    (wiped (link_ b)) (wiped (end_ b)) ((λ _, 0) <$> end_lru_ b) (wiped (overlap_ b)) (wiped (demand_ b))
    (last_rx_unknown_demand_ms_ b) (rx_unknown_demand_started_ b).
Definition clear := wipe_all.

Definition new_bank (kLinkCapacity kEndCapacity : nat) : SessionBank :=
  mkBank (mkLocal kInvalidNodeId 0 0 8000) (replicate 32 0) false 0 UINT64_MAX 0 0 0
    (replicate kLinkCapacity None) (replicate kEndCapacity None) (replicate kEndCapacity 0)
    (replicate kOverlapCapacity None) (replicate kDemandCapacity None) 0 false.

(** [configure]; [salt] is what the random source returned. *)
Definition configure (local : LocalView) (salt : option (list Z)) (now : Z) : M SessionBank unit :=
  fail_if (negb (id_valid (self local)) || bool_decide (l_network local = 0) || bool_decide (Z.land (l_network local) 0xFFFFFFFF = 0))
    InvalidArgument "session bank view invalid";;
  match salt with
  | None => throw InvalidState "session entropy not ready"
  | Some salt =>
      modifyS (λ b, let w := wipe_all b in
        mkBank local salt true now UINT64_MAX 0 0 (lru_clock_ w) (link_ w) (end_ w) (end_lru_ w) (overlap_ w) (demand_ w) 0 false)
  end.
Definition not_configured : M SessionBank unit :=
  b ← getS; fail_if (negb (configured_ b)) InvalidState "session bank not configured".
Definition reset_membership (local : LocalView) (salt : option (list Z)) (now : Z) : M SessionBank unit :=
  not_configured;; configure local salt now.

(** *** tick *)

(** One slot: [None] when it expires, else the deadline it is due at. *)
Definition due (b : SessionBank) (now deadline : Z) : option Z :=
  let left := remaining b deadline in
  if bool_decide (left ≤ now - last_tick_ b) then None else Some (u64 (last_tick_ b + left)).
(** A pass over a table, with the earliest deadline seen so far. *)
Fixpoint expire {A} (b : SessionBank) (now : Z) (life : A → Z) (t : list (option A)) (next : Z) : list (option A) * Z :=
  match t with
  | [] => ([], next)
  | None :: t => let '(t', n) := expire b now life t next in (None :: t', n)
  | Some x :: t =>
      match due b now (life x) with
      | None => let '(t', n) := expire b now life t next in (None :: t', n)
      | Some d => let '(t', n) := expire b now life t (if bool_decide (d < next) then d else next) in (Some x :: t', n)
      end
  end.

Definition tick (now : Z) : M SessionBank unit :=
  not_configured;;
  b ← getS;
  fail_if (bool_decide (now < last_tick_ b)) InvalidArgument "session clock regressed";;
  if bool_decide (now < next_expiry_ b) then putS (set_times now (next_expiry_ b) (expiry_slots_scanned_ b) b)
  else
    let visited := Z.of_nat (length (link_ b) + length (end_ b) + kOverlapCapacity + kDemandCapacity) in
    let scanned := if bool_decide (UINT64_MAX - visited < expiry_slots_scanned_ b) then UINT64_MAX else expiry_slots_scanned_ b + visited in
    let '(l, n1) := expire b now remaining_ms (link_ b) UINT64_MAX in
    let '(e, n2) := expire b now remaining_ms (end_ b) n1 in
    let '(o, n3) := expire b now ov_remaining_ms (overlap_ b) n2 in
    let '(d, n4) := expire b now dm_hold_ms (demand_ b) n3 in
    putS (set_times now n4 scanned (set_demand d (set_overlap o (set_end e (set_link l b))))).

Definition drop_unusable (b : SessionBank) (t : list (option SessionBankEntry)) : list (option SessionBankEntry) :=
  (λ s, match s with Some e => if entry_usable b e then Some e else None | None => None end) <$> t.
Definition set_gk_epoch (epoch : Z) : M SessionBank unit :=
  not_configured;;
  b ← getS;
  let l := local_ b in
  fail_if (bool_decide (epoch < gk_epoch l)) Conflict "session gk epoch regressed";;
  let b1 := set_local (mkLocal (self l) (l_network l) epoch (demand_hold_ms l)) b in
  if bool_decide (epoch = gk_epoch l) then putS b1
  else putS (set_overlap (wiped (overlap_ b1)) (set_link (drop_unusable b1 (link_ b1)) (set_end (drop_unusable b1 (end_ b1)) b1))).

(** ** Lookup *)

Section Lookup.
Context (hmac : list Z → list Z → list Z).

Definition kSlotLabel : list Z := ((λ a, Z.of_N (Ascii.N_of_ascii a)) <$> String.list_ascii_of_string "RouteLoom/v1/session-slot") ++ [0].
Definition slots (b : SessionBank) (sc : SecurityScope) : list (option SessionBankEntry) :=
  if bool_decide (sc = Link) then link_ b else end_ b.
Definition set_slots (sc : SecurityScope) (t : list (option SessionBankEntry)) (b : SessionBank) : SessionBank :=
  if bool_decide (sc = Link) then set_link t b else set_end t b.

(** [hash_start] without its memo (see [hash_start_memo]). *)
Definition hash_start (b : SessionBank) (sc : SecurityScope) (p : NodeId) : nat :=
  let input := kSlotLabel ++ [scope_value sc] ++ be_bytes 8 (l_network (local_ b)) ++ be_bytes 8 (self (local_ b)) ++ be_bytes 8 p in
  let raw := be_value 32 (take 4 (hmac (slot_salt_ b) input)) in
  let capacity := length (slots b sc) in
  if bool_decide (capacity = 0%nat) then 0%nat else (Z.to_nat raw mod capacity)%nat.

(** The slots in probing order. *)
Definition probe (start capacity : nat) : list nat := (λ step, ((start + step) mod capacity)%nat) <$> seq 0 capacity.
Definition holds (t : list (option SessionBankEntry)) (p : NodeId) (i : nat) : bool :=
  match t !! i with Some (Some e) => bool_decide (peer e = p) | _ => false end.
Definition is_free (t : list (option SessionBankEntry)) (i : nat) : bool :=
  match t !! i with Some (Some _) => false | _ => true end.

Definition find_slot (b : SessionBank) (sc : SecurityScope) (p : NodeId) : option nat :=
  if negb (unicast_scope sc) then None
  else List.find (holds (slots b sc) p) (probe (hash_start b sc p) (length (slots b sc))).
Definition find_current (b : SessionBank) (sc : SecurityScope) (p : NodeId) : option SessionBankEntry :=
  i ← find_slot b sc p; default None (slots b sc !! i).
Definition free_slot (b : SessionBank) (sc : SecurityScope) (p : NodeId) : option nat :=
  List.find (is_free (slots b sc)) (probe (hash_start b sc p) (length (slots b sc))).

(** *** The memo of [hash_start] *)

Record HashStartHint := mkHint { hh_scope : SecurityScope; hh_peer : NodeId; hh_start : nat }.
Definition kHashStartHints : nat := 2.
Definition hash_start_memo (b : SessionBank) (hints : list (option HashStartHint)) (next : nat) (sc : SecurityScope) (p : NodeId) :
    nat * (list (option HashStartHint) * nat) :=
  match List.find (λ h, match h with Some x => bool_decide (hh_scope x = sc) && bool_decide (hh_peer x = p) | None => false end) hints with
  | Some (Some x) => (hh_start x, (hints, next))
  | _ => let start := hash_start b sc p in
         (start, (<[next := Some (mkHint sc p start)]> hints, ((next + 1) mod kHashStartHints)%nat))
  end.

(** ** Demands *)

Definition demand_is (sc : SecurityScope) (p : NodeId) (d : DemandEntry) : bool := bool_decide (dm_scope d = sc) && bool_decide (dm_peer d = p).
Definition demand_pending (b : SessionBank) (sc : SecurityScope) (p : NodeId) : bool :=
  existsb (λ s, match s with Some d => demand_is sc p d | None => false end) (demand_ b).
(** The first slot with [f]. *)
Definition first_slot {A} (f : option A → bool) (t : list (option A)) : option nat := fst <$> list_find (λ s, f s = true) t.
Definition is_none {A} (s : option A) : bool := match s with None => true | Some _ => false end.

Definition record_demand (sc : SecurityScope) (p : NodeId) (b : SessionBank) : SessionBank :=
  let put i := let '(ms, b1) := expires_after b (demand_hold_ms (local_ b)) in set_demand (<[i := Some (mkDemand p ms sc)]> (demand_ b1)) b1 in
  match first_slot (λ s, match s with Some d => demand_is sc p d | None => false end) (demand_ b) with
  | Some i => put i
  | None => match first_slot is_none (demand_ b) with Some i => put i | None => b end
  end.
(** A satisfied demand leaves. *)
Definition drop_demand (sc : SecurityScope) (p : NodeId) (b : SessionBank) : SessionBank :=
  set_demand ((λ s, match s with Some d => if demand_is sc p d then None else Some d | None => None end) <$> demand_ b) b.

Definition take_demand (b : SessionBank) : option SessionDemand * SessionBank :=
  if negb (configured_ b) then (None, b)
  else match first_slot (λ s, negb (is_none s)) (demand_ b) with
  | Some i =>
      match demand_ b !! i with
      | Some (Some d) =>
          let deadline := u64 (last_tick_ b + remaining b (dm_hold_ms d)) in
          (Some (mkSessionDemand (dm_scope d) (dm_peer d) (if bool_decide (deadline < last_tick_ b) then UINT64_MAX else deadline)),
           set_demand (<[i := None]> (demand_ b)) b)
      | _ => (None, b)
      end
  | None => (None, b)
  end.
Definition note_demand (sc : SecurityScope) (p : NodeId) (b : SessionBank) : SessionBank :=
  if negb (configured_ b) || negb (unicast_scope sc) || bool_decide (p = kInvalidNodeId) || bool_decide (p = kBroadcastNodeId) then b
  else record_demand sc p b.
Definition note_rx_unknown (sc : SecurityScope) (p : NodeId) (b : SessionBank) : SessionBank :=
  if negb (configured_ b) || negb (bool_decide (sc = EndToEnd)) || negb (id_valid p) || bool_decide (p = self (local_ b)) then b
  else if rx_unknown_demand_started_ b && bool_decide (u64 (last_tick_ b - last_rx_unknown_demand_ms_ b) < kRxUnknownRateMs) then b
  else if match find_current b sc p with
          | Some e => entry_usable b e && bool_decide (u32 (kContextLifetimeMs - remaining b (remaining_ms e)) < kRxUnknownGraceMs)
          | None => false
          end then b
  else
    let b1 := record_demand sc p b in
    if demand_pending b1 sc p then set_rx_unknown (last_tick_ b1) b1 else b1.

(** ** Context ids *)

Definition uses_cid (id : Z) (s : option SessionBankEntry) : bool := match s with Some e => bool_decide (rx_cid e = id) | None => false end.
Definition ov_uses_cid (id : Z) (s : option SessionOverlapEntry) : bool := match s with Some o => bool_decide (ov_rx_cid o = id) | None => false end.
Definition context_id_live (b : SessionBank) (id : Z) : bool :=
  bool_decide (id = 0) || existsb (uses_cid id) (link_ b) || existsb (uses_cid id) (end_ b) || existsb (ov_uses_cid id) (overlap_ b).
(** [draw n] is what the source returns on attempt [n]. *)
Fixpoint draw_context_id (b : SessionBank) (draw : nat → option (list Z)) (attempt tries : nat) : result Z :=
  match tries with
  | O => Err NoCapacity "session context id unavailable"
  | S tries =>
      match draw attempt with
      | None => Err InvalidState "session entropy not ready"
      | Some raw => let id := be_value 32 raw in if context_id_live b id then draw_context_id b draw (S attempt) tries else Ok id
      end
  end.
Definition allocate_context_id (draw : nat → option (list Z)) : M SessionBank Z :=
  not_configured;; b ← getS; lift (draw_context_id b draw 0 kCidRetries).

(** The wire carries the low half of a network id only. *)
Definition map_network (b : SessionBank) (context_network : NetworkId) : bool :=
  bool_decide (context_network = l_network (local_ b)) || bool_decide (context_network = Z.land (l_network (local_ b)) 0xFFFFFFFF).

(** ** Installing *)

Definition keys_equal (e : SessionBankEntry) (k : ContextKeys) : bool :=
  bool_decide (tx_key e = ck_tx_key k) && bool_decide (rx_key e = ck_rx_key k) && bool_decide (tx_iv e = ck_tx_iv k) && bool_decide (rx_iv e = ck_rx_iv k).
(** [tx_material_equal], [tx_material_match] *)
Definition tx_material_equal (e : SessionBankEntry) (key iv : list Z) : bool := bool_decide (tx_key e = key) && bool_decide (tx_iv e = iv).

(** The scan of one table for the new transmit material and receive id; the
    slot [skip] is the context that is replaced. *)
Fixpoint check_collision (i : nat) (skip : option nat) (key iv : list Z) (rx_id : Z) (t : list (option SessionBankEntry)) : result unit :=
  match t with
  | [] => Ok tt
  | s :: t =>
      match s with
      | Some e =>
          if bool_decide (skip = Some i) then Ok tt
          else
            guard_err (tx_material_equal e key iv) Conflict "session tx nonce domain reused";;
            guard_err (bool_decide (rx_cid e = rx_id)) Conflict "session rx id collision"
      | None => Ok tt
      end;;
      check_collision (S i) skip key iv rx_id t
  end.
Definition check_collisions (b : SessionBank) (sc : SecurityScope) (existing : option nat) (key iv : list Z) (rx_id : Z) : result unit :=
  check_collision 0 (if bool_decide (sc = Link) then existing else None) key iv rx_id (link_ b);;
  check_collision 0 (if bool_decide (sc = Link) then None else existing) key iv rx_id (end_ b);;
  guard_err (existsb (ov_uses_cid rx_id) (overlap_ b)) Conflict "session rx id collision".

(** The guards of [install_verified], before anything changes. *)
Definition install_check (b : SessionBank) (k : ContextKeys) (att : InstallAttestation) : result (option nat) :=
  guard_err (negb (configured_ b)) InvalidState "session bank not configured";;
  check_context_keys k;;
  guard_err (negb (map_network b (ck_network k))) InvalidArgument "session network mismatch";;
  guard_err (bool_decide (ck_peer k = self (local_ b))) InvalidArgument "session self peer";;
  guard_err (gk_dead b (at_created_gk_epoch att)) Conflict "session gk lifetime";;
  guard_err (bool_decide (install_serial_ b = 0xFFFFFFFF)) CounterExhausted "session install serial exhausted";;
  guard_err (bool_decide (length (slots b (ck_scope k)) = 0%nat)) NoCapacity "session table missing";;
  let existing := find_slot b (ck_scope k) (ck_peer k) in
  match find_current b (ck_scope k) (ck_peer k) with
  | Some e =>
      guard_err (bool_decide (tx_cid e = ck_tx_context_id k) && bool_decide (rx_cid e = ck_rx_context_id k) && keys_equal e k) Conflict "session install duplicate";;
      guard_err (tx_material_equal e (ck_tx_key k) (ck_tx_iv k)) Conflict "session tx nonce domain reused"
  | None => Ok tt
  end;;
  check_collisions b (ck_scope k) existing (ck_tx_key k) (ck_tx_iv k) (ck_rx_context_id k);;
  guard_err (bool_decide (existing = None) && bool_decide (free_slot b (ck_scope k) (ck_peer k) = None)) NoCapacity "session table full";;
  Ok existing.

(** The replaced context becomes receive-only, or is dropped when no overlap
    slot is free. *)
Definition demote (sc : SecurityScope) (e : SessionBankEntry) (b : SessionBank) : SessionBank :=
  match first_slot is_none (overlap_ b) with
  | Some i =>
      let left := remaining b (remaining_ms e) in
      let '(ms, b1) := expires_after b (if bool_decide (kOverlapLifetimeMs < left) then kOverlapLifetimeMs else left) in
      set_overlap (<[i := Some (mkOverlap sc (peer e) (rx_key e) (rx_iv e) (rx_max e) (rx_bitmap e) (rx_cid e) ms (install_serial e))]> (overlap_ b1)) b1
  | None => b
  end.

Definition touch_lru (sc : SecurityScope) (i : nat) (b : SessionBank) : SessionBank :=
  if bool_decide (sc = EndToEnd) then let c := u32 (lru_clock_ b + 1) in set_lru c (<[i := c]> (end_lru_ b)) b else b.
Definition put_current (sc : SecurityScope) (i : nat) (e : SessionBankEntry) (b : SessionBank) : SessionBank :=
  set_slots sc (<[i := Some e]> (slots b sc)) b.
Definition next_serial (b : SessionBank) : Z := u32 (install_serial_ b + 1).

Definition fresh_entry (k : ContextKeys) (att : InstallAttestation) (ms serial : Z) : SessionBankEntry :=
  mkEntry (ck_peer k) 0 0 0 (ck_tx_key k) (ck_rx_key k) (ck_tx_iv k) (ck_rx_iv k) (ck_peer_cert_id k)
    (ck_tx_context_id k) (ck_rx_context_id k) (ck_peer_generation k) (at_peer_role att) (at_created_gk_epoch att) ms serial
    (if dev_resume att then kFlagDevResume else 0).

Definition install_verified (k : ContextKeys) (att : InstallAttestation) : M SessionBank unit :=
  b ← getS;
  existing ← lift (install_check b k att);
  let sc := ck_scope k in
  let b1 := match find_current b sc (ck_peer k) with Some e => demote sc e b | None => b end in
  let '(ms, b2) := expires_after b1 kContextLifetimeMs in
  let serial := next_serial b2 in
  let slot := match existing with Some i => Some i | None => free_slot b sc (ck_peer k) end in
  match slot with
  | Some i => putS (drop_demand sc (ck_peer k) (touch_lru sc i (put_current sc i (fresh_entry k att ms serial) (set_serial serial b2))))
  | None => mret tt
  end.
Definition install (k : ContextKeys) : M SessionBank unit :=
  b ← getS; install_verified k (mkAttestation 0 (gk_epoch (local_ b)) false).

(** ** Sleep images *)

Definition export_entry (b : SessionBank) (sc : SecurityScope) (p : NodeId) : result SessionBankEntry :=
  guard_err (negb (configured_ b)) InvalidState "session bank not configured";;
  guard_err (negb (unicast_scope sc) || negb (id_valid p)) InvalidArgument "session export shape";;
  match find_current b sc p with
  | Some e => if entry_usable b e then Ok (with_life (remaining b (remaining_ms e)) (install_serial e) e) else Err NotFound "session export missing"
  | None => Err NotFound "session export missing"
  end.
Definition export_sleep_entry (b : SessionBank) (sc : SecurityScope) (p : NodeId) : result SessionBankEntry :=
  out ← export_entry b sc p;
  guard_err (has_flag kFlagDevResume (flags out)) InvalidArgument "session dev never sleeps";;
  let fl := Z.ldiff (flags out) (Z.lor kFlagPinned kFlagRekeyPending) in
  guard_err (negb (bool_decide (fl = 0))) InvalidArgument "session save flags live";;
  Ok (with_flags fl out).

Definition restore_check (b : SessionBank) (sc : SecurityScope) (p : NodeId) (e : SessionBankEntry) : result nat :=
  guard_err (negb (configured_ b)) InvalidState "session bank not configured";;
  guard_err (negb (unicast_scope sc) || negb (id_valid p) || negb (bool_decide (peer e = p)) || bool_decide (p = self (local_ b)) ||
             bool_decide (tx_cid e = 0) || bool_decide (rx_cid e = 0) || negb (bool_decide (flags e = 0))) InvalidArgument "session restore shape";;
  guard_err (tx_refused (tx_next e)) CounterExhausted "session restore counter exhausted";;
  guard_err (negb (rx_counter_admissible (rx_max e))) InvalidArgument "session restore window";;
  guard_err (bool_decide (remaining_ms e = 0) || bool_decide (kContextLifetimeMs < remaining_ms e)) Conflict "session restore lifetime";;
  guard_err (gk_dead b (created_gk e)) Conflict "session gk lifetime";;
  guard_err (bool_decide (install_serial_ b = 0xFFFFFFFF)) CounterExhausted "session install serial exhausted";;
  guard_err (bool_decide (length (slots b sc) = 0%nat)) NoCapacity "session table missing";;
  guard_err (negb (bool_decide (find_slot b sc p = None))) Conflict "session restore occupied";;
  check_collisions b sc None (tx_key e) (tx_iv e) (rx_cid e);;
  match free_slot b sc p with Some i => Ok i | None => Err NoCapacity "session table full" end.
Definition restore_entry (sc : SecurityScope) (p : NodeId) (e : SessionBankEntry) : M SessionBank unit :=
  b ← getS;
  i ← lift (restore_check b sc p e);
  let serial := next_serial b in
  let '(ms, b1) := expires_after (set_serial serial b) (remaining_ms e) in
  putS (drop_demand sc p (touch_lru sc i (put_current sc i (with_life ms serial e) b1))).

(** ** Retiring *)

Definition wipe_slot (sc : SecurityScope) (i : nat) (b : SessionBank) : SessionBank := set_slots sc (<[i := None]> (slots b sc)) b.
Definition drop_overlaps (f : SessionOverlapEntry → bool) (b : SessionBank) : SessionBank :=
  set_overlap ((λ s, match s with Some o => if f o then None else Some o | None => None end) <$> overlap_ b) b.
Definition retire (sc : SecurityScope) (p : NodeId) : M SessionBank unit :=
  not_configured;;
  fail_if (negb (unicast_scope sc)) Unsupported "session scope";;
  b ← getS;
  let b1 := match find_slot b sc p with Some i => wipe_slot sc i b | None => b end in
  putS (drop_demand sc p (drop_overlaps (λ o, bool_decide (ov_scope o = sc) && bool_decide (ov_peer o = p)) b1)).
Definition retire_all (p : NodeId) : M SessionBank unit := not_configured;; retire Link p;; retire EndToEnd p.

Definition retire_if_older (sc : SecurityScope) (p : NodeId) (min_generation : Z) : M SessionBank bool :=
  b ← getS;
  match find_current b sc p with
  | Some e => if bool_decide (peer_generation e < min_generation) then retire sc p;; mret true else mret false
  | None => mret false
  end.
(** The two flags say which contexts were retired. *)
Definition retire_below_generation (p : NodeId) (min_generation : Z) : M SessionBank (bool * bool) :=
  not_configured;;
  fail_if (negb (id_valid p) || bool_decide (min_generation = 0)) InvalidArgument "readmit generation";;
  link ← retire_if_older Link p min_generation;
  fin ← retire_if_older EndToEnd p min_generation;
  modifyS (drop_overlaps (λ o, bool_decide (ov_peer o = p)));;
  mret (link, fin).

(** The least recently used end context that is neither pinned nor reserved. *)
Fixpoint evict_victim (i : nat) (lru : list Z) (t : list (option SessionBankEntry)) (victim : option nat) : option nat :=
  match t with
  | [] => victim
  | s :: t =>
      let candidate := match s with Some e => negb (has_flag (Z.lor kFlagSealReserved kFlagPinned) (flags e)) | None => false end in
      let older := match victim with Some v => bool_decide (default 0 (lru !! i) < default 0 (lru !! v)) | None => true end in
      evict_victim (S i) lru t (if candidate && older then Some i else victim)
  end.
Definition evict_idle_end : M SessionBank NodeId :=
  not_configured;;
  b ← getS;
  match evict_victim 0 (end_lru_ b) (end_ b) None with
  | Some i => match end_ b !! i with
              | Some (Some e) => retire EndToEnd (peer e);; mret (peer e)
              | _ => throw NotFound "no idle end context"
              end
  | None => throw NotFound "no idle end context"
  end.
Definition set_pinned (sc : SecurityScope) (p : NodeId) (pinned : bool) : M SessionBank unit :=
  not_configured;;
  b ← getS;
  match find_slot b sc p, find_current b sc p with
  | Some i, Some e => putS (put_current sc i (with_flags (if pinned then Z.lor (flags e) kFlagPinned else Z.ldiff (flags e) kFlagPinned) e) b)
  | _, _ => throw NotFound "session not found"
  end.

(** ** Queries *)

Definition tx_ready (b : SessionBank) (e : SessionBankEntry) : bool := entry_usable b e && negb (tx_refused (tx_next e)).
Definition tx_epoch (sc : SecurityScope) (p : NodeId) : M SessionBank Z :=
  not_configured;;
  fail_if (negb (unicast_scope sc)) Unsupported "session scope";;
  fail_if (negb (id_valid p)) InvalidArgument "session peer invalid";;
  b ← getS;
  let demanded := modifyS (record_demand sc p);; throw AuthRequired "session establishment required" in
  match find_current b sc p with
  | Some e => if tx_ready b e then mret (tx_cid e) else demanded
  | None => demanded
  end.
Definition current_rx_epoch (b : SessionBank) (sc : SecurityScope) (p : NodeId) : result Z :=
  guard_err (negb (configured_ b)) InvalidState "session bank not configured";;
  guard_err (negb (unicast_scope sc)) Unsupported "session scope";;
  guard_err (negb (id_valid p)) InvalidArgument "session peer invalid";;
  match find_current b sc p with
  | Some e => if entry_usable b e then Ok (rx_cid e) else Err AuthRequired "session establishment required"
  | None => Err AuthRequired "session establishment required"
  end.
Definition context_state (b : SessionBank) (sc : SecurityScope) (p : NodeId) : ContextState :=
  if negb (configured_ b) then StateNone
  else
    let waiting := if demand_pending b sc p then Establishing else StateNone in
    match find_current b sc p with
    | Some e => if tx_ready b e
                then if has_flag kFlagRekeyPending (flags e) || bool_decide (check_tx_counter (tx_next e) = IssueRekeyDue) then Rekeying else Ready
                else waiting
    | None => waiting
    end.
Definition count_used {A} (t : list (option A)) : nat := length (filter (λ s, is_none s = false) t).
Definition live_count (b : SessionBank) (sc : SecurityScope) : nat :=
  match sc with Link => count_used (link_ b) | EndToEnd => count_used (end_ b) | _ => 0%nat end.
Definition demand_count (b : SessionBank) : nat := count_used (demand_ b).
Definition has_usable (b : SessionBank) (sc : SecurityScope) (p : NodeId) : bool :=
  configured_ b && match find_current b sc p with Some e => tx_ready b e | None => false end.
Definition has_authenticated_rx (b : SessionBank) (sc : SecurityScope) (p : NodeId) (id : Z) : bool :=
  match find_current b sc p with
  | Some e => entry_usable b e && bool_decide (rx_cid e = id) && negb (bool_decide (rx_bitmap e = 0))
  | None => false
  end.
Definition peer_summary (b : SessionBank) (sc : SecurityScope) (p : NodeId) : option (Z * Z) :=
  if negb (configured_ b) then None
  else match find_current b sc p with
  | Some e =>
      if negb (entry_usable b e) then None
      else if (bool_decide (peer_generation e = 0) || bool_decide (peer_role e = 0)) &&
              (negb (has_flag kFlagDevResume (flags e)) || bool_decide (peer_role e = 0)) then None
      else Some (peer_generation e, peer_role e)
  | None => None
  end.
Definition first_live_peer (b : SessionBank) (sc : SecurityScope) : option NodeId :=
  if negb (unicast_scope sc) then None
  else
    i ← first_slot (λ s, match s with Some e => entry_usable b e | None => false end) (slots b sc);
    match slots b sc !! i with Some (Some e) => Some (peer e) | _ => None end.

(** ** Traffic *)

Definition next_counter (c : SecurityContext) : M SessionBank Z :=
  not_configured;;
  fail_if (negb (unicast_scope (scope c))) Unsupported "session scope";;
  b ← getS;
  fail_if (negb (map_network b (network c)) || negb (bool_decide (sender c = self (local_ b))) || negb (id_valid (receiver c)))
    InvalidArgument "session direction invalid";;
  let demanded := modifyS (record_demand (scope c) (receiver c));; throw AuthRequired "session establishment required" in
  match find_slot b (scope c) (receiver c), find_current b (scope c) (receiver c) with
  | Some i, Some e =>
      fail_if (negb (bool_decide (epoch c = tx_cid e))) InvalidArgument "session tx context id stale";;
      if negb (tx_ready b e) then demanded
      else
        fail_if (bool_decide (kMaxCryptoCounter < tx_next e)) CounterExhausted "session counter exhausted";;
        let counter := tx_next e in
        let fl := if bool_decide (check_tx_counter counter = IssueRekeyDue) then Z.lor (flags e) kFlagRekeyPending else flags e in
        putS (touch_lru (scope c) i (put_current (scope c) i (with_tx (u64 (counter + 1)) (Z.lor fl kFlagSealReserved) e) b));;
        mret counter
  | _, _ => demanded
  end.

Context `{AeadGcm}.

(** The guards of [seal]: the slot, its entry and the nonce; [room] is the
    size of the output. *)
Definition seal_check (b : SessionBank) (c : SecurityContext) (counter : Z) (plaintext : list Z) (room : nat) : result (nat * SessionBankEntry * list Z) :=
  guard_err (negb (configured_ b)) InvalidState "session bank not configured";;
  guard_err (negb (unicast_scope (scope c))) Unsupported "session scope";;
  guard_err (negb (map_network b (network c)) || negb (bool_decide (sender c = self (local_ b))) || negb (id_valid (receiver c)))
    InvalidArgument "session direction invalid";;
  match find_slot b (scope c) (receiver c), find_current b (scope c) (receiver c) with
  | Some i, Some e =>
      guard_err (negb (entry_usable b e)) AuthRequired "session establishment required";;
      guard_err (negb (bool_decide (epoch c = tx_cid e)) || negb (bool_decide (counter = u64 (tx_next e - 1))) || negb (has_flag kFlagSealReserved (flags e)))
        InvalidArgument "session seal without reservation";;
      guard_err (room <? length plaintext)%nat NoCapacity "session ciphertext short";;
      nonce ← aead_nonce (tx_iv e) counter;
      Ok (i, e, nonce)
  | _, _ => Err AuthRequired "session establishment required"
  end.
Definition seal (c : SecurityContext) (counter : Z) (aad plaintext : list Z) (room : nat) : M SessionBank (list Z * list Z) :=
  b ← getS;
  found ← lift (seal_check b c counter plaintext room);
  let '(i, e, nonce) := found in
  putS (put_current (scope c) i (with_flags (Z.ldiff (flags e) kFlagSealReserved) e) b);;
  match aead_seal (tx_key e) nonce aad plaintext with
  | Some sealed => mret sealed
  | None => throw InternalError "session aead seal failed"
  end.

(** Where the receive key of a frame is held. *)
Inductive Holder := HCurrent (i : nat) (e : SessionBankEntry) | HOverlap (i : nat) (o : SessionOverlapEntry).
Definition h_key (h : Holder) : list Z := match h with HCurrent _ e => rx_key e | HOverlap _ o => ov_rx_key o end.
Definition h_iv (h : Holder) : list Z := match h with HCurrent _ e => rx_iv e | HOverlap _ o => ov_rx_iv o end.
Definition h_max (h : Holder) : Z := match h with HCurrent _ e => rx_max e | HOverlap _ o => ov_rx_max o end.
Definition h_bitmap (h : Holder) : Z := match h with HCurrent _ e => rx_bitmap e | HOverlap _ o => ov_rx_bitmap o end.

Definition overlap_matches (b : SessionBank) (sc : SecurityScope) (p : NodeId) (id : Z) (s : option SessionOverlapEntry) : bool :=
  match s with
  | Some o => bool_decide (ov_scope o = sc) && bool_decide (ov_peer o = p) && bool_decide (ov_rx_cid o = id) && negb (bool_decide (remaining b (ov_remaining_ms o) = 0))
  | None => false
  end.
Definition find_overlap (b : SessionBank) (sc : SecurityScope) (p : NodeId) (id : Z) : option Holder :=
  i ← first_slot (overlap_matches b sc p id) (overlap_ b);
  match overlap_ b !! i with Some (Some o) => Some (HOverlap i o) | _ => None end.
(** Current first, then the receive-only overlap. *)
Definition find_holder (b : SessionBank) (sc : SecurityScope) (p : NodeId) (id : Z) : option Holder :=
  match find_slot b sc p, find_current b sc p with
  | Some i, Some e => if bool_decide (rx_cid e = id) && entry_usable b e then Some (HCurrent i e) else find_overlap b sc p id
  | _, _ => find_overlap b sc p id
  end.

(** The replay window. *)
Definition replayed (maximum bits counter : Z) : bool :=
  bool_decide (counter ≤ maximum) && (bool_decide (64 ≤ maximum - counter) || Z.testbit bits (maximum - counter)).
Definition slide_window (maximum bits counter : Z) : Z * Z :=
  if bool_decide (maximum < counter) then
    (counter, if bool_decide (64 ≤ counter - maximum) then 1 else Z.lor (u64 (Z.shiftl bits (counter - maximum))) 1)
  else (maximum, Z.lor bits (Z.shiftl 1 (maximum - counter))).

Definition open_check (b : SessionBank) (c : SecurityContext) (counter : Z) (ciphertext : list Z) (room : nat) : result (Holder * list Z) :=
  guard_err (negb (configured_ b)) InvalidState "session bank not configured";;
  guard_err (negb (unicast_scope (scope c))) Unsupported "session scope";;
  guard_err (negb (map_network b (network c)) || negb (bool_decide (receiver c = self (local_ b))) || negb (id_valid (sender c)))
    InvalidArgument "session direction invalid";;
  match find_holder b (scope c) (sender c) (epoch c) with
  | Some h =>
      guard_err (negb (rx_counter_admissible counter)) AuthenticationFailed "session counter forged";;
      guard_err (room <? length ciphertext)%nat NoCapacity "session plaintext short";;
      guard_err (kStagingBytes <? length ciphertext)%nat NoCapacity "session frame oversized";;
      guard_err (replayed (h_max h) (h_bitmap h) counter) ReplayRejected "session replay";;
      nonce ← aead_nonce (h_iv h) counter;
      Ok (h, nonce)
  | None => Err AuthRequired "session unknown context"
  end.
Definition put_window (sc : SecurityScope) (h : Holder) (w : Z * Z) (b : SessionBank) : SessionBank :=
  match h with
  | HCurrent i e => put_current sc i (with_window (fst w) (snd w) e) b
  | HOverlap i o => set_overlap (<[i := Some (ov_with_window (fst w) (snd w) o)]> (overlap_ b)) b
  end.
(** The second lookup of the code finds the context again: the port changes
    nothing in between. *)
Definition open (c : SecurityContext) (counter : Z) (aad ciphertext tag : list Z) (room : nat) : M SessionBank (list Z) :=
  b ← getS;
  found ← lift (open_check b c counter ciphertext room);
  let '(h, nonce) := found in
  match aead_open (h_key h) nonce aad ciphertext tag with
  | None => throw AuthenticationFailed "session tag mismatch"
  | Some plaintext => putS (put_window (scope c) h (slide_window (h_max h) (h_bitmap h) counter) b);; mret plaintext
  end.

End Lookup.
