(* ===== verification/SessionBankProps.v ===== *)
(** * The session bank: lookup and what operations keep

    Probing finds a peer whatever the hash says; every operation that is not
    traffic or an installation only drops contexts. *)

From S2P Require Import Prelude Types SessionBank.

(** ** Tables *)

Definition tb (b : SessionBank) (l : bool) : list (option SessionBankEntry) := if l then link_ b else end_ b.
(** A current context and an overlap at their slots. *)
Definition live (b : SessionBank) (l : bool) (i : nat) (e : SessionBankEntry) : Prop := tb b l !! i = Some (Some e).
Definition ovl (b : SessionBank) (i : nat) (o : SessionOverlapEntry) : Prop := overlap_ b !! i = Some (Some o).
Definition is_link (sc : SecurityScope) : bool := bool_decide (sc = Link).

Lemma slots_tb b sc : slots b sc = tb b (is_link sc).
Proof. unfold slots, tb, is_link. by case_bool_decide. Qed.

Lemma probe_elem start cap i : (i < cap)%nat → i ∈ probe start cap.
Proof.
  intros Hi. unfold probe. apply list_elem_of_fmap. exists ((i + (cap - start mod cap)) mod cap)%nat. split.
  - rewrite Nat.Div0.add_mod_idemp_r. pose proof (Nat.mod_upper_bound start cap ltac:(lia)). rewrite (Nat.div_mod start cap) at 1 by lia.
    replace (cap * (start / cap) + start mod cap + (i + (cap - start mod cap)))%nat with (i + (start / cap + 1) * cap)%nat by nia.
    rewrite Nat.Div0.mod_add. by rewrite Nat.mod_small by lia.
  - apply elem_of_seq. pose proof (Nat.mod_upper_bound (i + (cap - start mod cap)) cap ltac:(lia)). lia.
Qed.

Lemma probe_bound start cap i : i ∈ probe start cap → (i < cap)%nat.
Proof. intros (s & -> & Hs)%list_elem_of_fmap. apply elem_of_seq in Hs. apply Nat.mod_upper_bound. lia. Qed.

Section Lookup.
Context (hmac : list Z → list Z → list Z).

Lemma find_slot_some b sc p i :
  find_slot hmac b sc p = Some i → unicast_scope sc = true ∧ ∃ e, live b (is_link sc) i e ∧ peer e = p ∧ find_current hmac b sc p = Some e.
Proof.
  intros Hf. unfold find_current. rewrite Hf. revert Hf. unfold find_slot. destruct (unicast_scope sc); [|done]. cbn [negb]. intros Hf. apply find_some in Hf as [_ Hh].
  unfold holds in Hh. rewrite slots_tb in Hh |- *. unfold live. cbn [mbind option_bind]. destruct (tb b (is_link sc) !! i) as [[e|]|]; try done. split; [done|].
  exists e. by apply bool_decide_eq_true in Hh.
Qed.

Lemma find_slot_none b sc p i e : find_slot hmac b sc p = None → unicast_scope sc = true → live b (is_link sc) i e → peer e ≠ p.
Proof.
  unfold find_slot. intros Hf Hu Hl Hp. rewrite Hu in Hf. cbn [negb] in Hf. rewrite slots_tb in Hf.
  pose proof (find_none _ _ Hf i) as Hn. unfold holds, live in *. rewrite Hl in Hn. rewrite bool_decide_eq_true_2 in Hn by done.
  discriminate Hn. apply list_elem_of_In, probe_elem. by eapply lookup_lt_Some.
Qed.

Lemma find_current_slot b sc p e : find_current hmac b sc p = Some e → ∃ i, find_slot hmac b sc p = Some i ∧ live b (is_link sc) i e ∧ peer e = p ∧ unicast_scope sc = true.
Proof.
  intros Hc. destruct (find_slot hmac b sc p) as [i|] eqn:Hf; [|unfold find_current in Hc; by rewrite Hf in Hc].
  destruct (find_slot_some b sc p i Hf) as (Hu & e' & Hl & Hp & Hc'). rewrite Hc in Hc'. injection Hc' as <-. eauto.
Qed.

Lemma find_current_none b sc p : find_slot hmac b sc p = None → find_current hmac b sc p = None.
Proof. unfold find_current. by intros ->. Qed.

Lemma free_slot_some b sc p i : free_slot hmac b sc p = Some i → (i < length (slots b sc))%nat ∧ ∀ e, ¬ live b (is_link sc) i e.
Proof.
  unfold free_slot. intros Hf. apply find_some in Hf as [Hin Hh]. apply list_elem_of_In, probe_bound in Hin. split; [done|]. intros e Hl.
  unfold is_free in Hh. rewrite slots_tb in Hh. unfold live in Hl. by rewrite Hl in Hh.
Qed.

(** No two contexts of a table are for one peer. *)
Definition peers_unique (b : SessionBank) : Prop := ∀ l i j e e', live b l i e → live b l j e' → peer e = peer e' → i = j.

(** The hash decides nothing but the order of the walk. *)
Lemma find_current_iff b sc p e :
  peers_unique b → unicast_scope sc = true → find_current hmac b sc p = Some e ↔ ∃ i, live b (is_link sc) i e ∧ peer e = p.
Proof.
  intros Hu Hs. split; [intros (i & _ & Hl & Hp & _)%find_current_slot; eauto|]. intros (i & Hl & Hp).
  destruct (find_slot hmac b sc p) as [j|] eqn:Hf; [|by destruct (find_slot_none b sc p i e Hf Hs Hl)].
  destruct (find_slot_some b sc p j Hf) as (_ & e' & Hl' & Hp' & ->). rewrite (Hu _ _ _ _ _ Hl' Hl ltac:(congruence)) in Hl'. unfold live in *. congruence.
Qed.

End Lookup.

(** The memo answers as the hash does, while its entries do. *)
Definition hints_ok hmac (b : SessionBank) (hints : list (option HashStartHint)) : Prop :=
  ∀ i x, hints !! i = Some (Some x) → hh_start x = hash_start hmac b (hh_scope x) (hh_peer x).

Lemma hash_start_memo_ok hmac b hints next sc p start hints' next' :
  hints_ok hmac b hints → hash_start_memo hmac b hints next sc p = (start, (hints', next')) →
  start = hash_start hmac b sc p ∧ hints_ok hmac b hints'.
Proof.
  intros Hh. unfold hash_start_memo. destruct (List.find _ hints) as [[x|]|] eqn:Hf.
  - intros [= <- <- <-]. apply find_some in Hf as [Hin Hx]. apply andb_true_iff in Hx as [H1%bool_decide_eq_true H2%bool_decide_eq_true].
    apply list_elem_of_In, list_elem_of_lookup in Hin as [i Hi]. rewrite <- H1, <- H2. split; [by eapply Hh|done].
  - intros [= <- <- <-]. split; [done|]. intros i y [(<- & [= <-] & _)|[_ Hy]]%list_lookup_insert_Some; [done|by eapply Hh].
  - intros [= <- <- <-]. split; [done|]. intros i y [(<- & [= <-] & _)|[_ Hy]]%list_lookup_insert_Some; [done|by eapply Hh].
Qed.

(** ** Flags *)

Definition reserved (e : SessionBankEntry) : bool := Z.testbit (flags e) 0.
Lemma has_reserved x : has_flag kFlagSealReserved x = Z.testbit x 0.
Proof.
  unfold has_flag. pose proof (mask_testbit x 0) as Hm. change (Z.shiftl 1 0) with kFlagSealReserved in Hm.
  destruct (Z.testbit x 0) eqn:E; [|by rewrite bool_decide_eq_true_2 by (by apply Hm)]. rewrite bool_decide_eq_false_2; [done|]. intros H0. apply Hm in H0; [congruence|lia].
Qed.

(** ** Operations that only drop contexts *)

Record same (e e' : SessionBankEntry) : Prop := {
  sm_peer : peer e' = peer e; sm_txk : tx_key e' = tx_key e; sm_txi : tx_iv e' = tx_iv e; sm_next : tx_next e' = tx_next e;
  sm_rxk : rx_key e' = rx_key e; sm_rxi : rx_iv e' = rx_iv e; sm_max : rx_max e' = rx_max e; sm_bits : rx_bitmap e' = rx_bitmap e;
  sm_res : reserved e' = reserved e; sm_life : remaining_ms e' = remaining_ms e;
  sm_flags : e' = with_flags (flags e') e; sm_range : is_u32 (flags e) → is_u32 (flags e') }.
Lemma same_refl e : same e e.
Proof. split; try done. by destruct e. Qed.

Definition keeps (b b' : SessionBank) : Prop :=
  (∀ l i e', live b' l i e' → ∃ e, live b l i e ∧ same e e') ∧ (∀ i o, ovl b' i o → ovl b i o).

Lemma keeps_sub b b' : (∀ l i e, live b' l i e → live b l i e) → (∀ i o, ovl b' i o → ovl b i o) → keeps b b'.
Proof. intros H1 H2. split; [|done]. intros l i e' Hl. exists e'. split; [by apply H1|apply same_refl]. Qed.
Lemma bank_keeps_refl b : keeps b b.
Proof. by apply keeps_sub. Qed.
Lemma bank_keeps_trans b1 b2 b3 : keeps b1 b2 → keeps b2 b3 → keeps b1 b3.
Proof.
  intros [H1 H2] [H3 H4]. split; [|auto]. intros l i e3 Hl. destruct (H3 l i e3 Hl) as (e2 & Hl2 & S2). destruct (H1 l i e2 Hl2) as (e1 & Hl1 & S1).
  exists e1. split; [done|]. destruct S1 as [? ? ? ? ? ? ? ? ? ? F1 R1], S2 as [? ? ? ? ? ? ? ? ? ? F2 R2]. split; try congruence; [|auto]. rewrite F2, F1. done.
Qed.
(** Same tables. *)
Lemma keeps_tables b b' : link_ b' = link_ b → end_ b' = end_ b → overlap_ b' = overlap_ b → keeps b b'.
Proof. intros Hl He Ho. apply keeps_sub; [intros []|]; unfold live, tb, ovl; by rewrite ?Hl, ?He, ?Ho. Qed.

Lemma wiped_lookup {A} (t : list (option A)) i x : wiped t !! i = Some (Some x) → False.
Proof. unfold wiped. rewrite list_lookup_fmap. by destruct (t !! i). Qed.

Lemma expire_lookup {A} b now (life : A → Z) t next t' next' i x :
  expire b now life t next = (t', next') → t' !! i = Some (Some x) → t !! i = Some (Some x).
Proof.
  revert next t' next' i. induction t as [|s t IH]; intros next t' next' i; cbn [expire]; [by intros [= <- <-]|].
  assert (Hstep : ∀ n y, (let '(t0, n0) := expire b now life t n in (y :: t0, n0)) = (t', next') → y = None ∨ y = s → t' !! i = Some (Some x) → (s :: t) !! i = Some (Some x)).
  { intros n y. destruct (expire b now life t n) as [t0 n0] eqn:E. intros [= <- <-] Hy Hi. destruct i as [|i]; [cbn in *; destruct Hy as [->| ->]; congruence|]. by eapply IH. }
  destruct s as [y|]; [destruct (due b now (life y))|]; intros He; apply (Hstep _ _ He); auto.
Qed.

(** The next guard of an unfolded operation; a refusal keeps the bank. *)
Ltac bank_unfold :=
  unfold not_configured, fail_if, throw, getS, putS, modifyS, lift, mbind, M_bind, mret, M_ret; cbn [fst snd].
Ltac bank_guard := break_goal; cbn [fst snd]; try apply bank_keeps_refl.

Lemma configure_keeps local salt now b : keeps b (snd (configure local salt now b)).
Proof.
  unfold configure. bank_unfold. bank_guard. destruct salt; [|apply bank_keeps_refl]. cbn [snd].
  apply keeps_sub; [intros [] i e|intros i o]; unfold live, tb, ovl; cbn [link_ end_ overlap_ wipe_all]; by intros ?%wiped_lookup.
Qed.
Lemma clear_keeps b : keeps b (clear b).
Proof. apply keeps_sub; [intros [] i e|intros i o]; unfold live, tb, ovl; cbn [link_ end_ overlap_ wipe_all clear]; by intros ?%wiped_lookup. Qed.

Lemma tick_keeps now b : keeps b (snd (tick now b)).
Proof.
  unfold tick. bank_unfold. do 2 bank_guard. destruct (bool_decide (now < next_expiry_ b)); [by apply keeps_tables|]. cbv zeta.
  destruct (expire b now remaining_ms (link_ b) UINT64_MAX) as [l n1] eqn:E1. destruct (expire b now remaining_ms (end_ b) n1) as [e n2] eqn:E2.
  destruct (expire b now ov_remaining_ms (overlap_ b) n2) as [o n3] eqn:E3. destruct (expire b now dm_hold_ms (demand_ b) n3) as [d n4] eqn:E4. cbn [snd].
  apply keeps_sub; [intros [] i x|intros i x]; unfold live, tb, ovl; cbn; intros Hx; (eapply expire_lookup; [|exact Hx]); eassumption.
Qed.

Lemma drop_unusable_lookup b t i x : drop_unusable b t !! i = Some (Some x) → t !! i = Some (Some x).
Proof. unfold drop_unusable. rewrite list_lookup_fmap. destruct (t !! i) as [[e|]|]; cbn; [case_match|..]; naive_solver. Qed.
Lemma set_gk_epoch_keeps epoch b : keeps b (snd (set_gk_epoch epoch b)).
Proof.
  unfold set_gk_epoch. bank_unfold. do 2 bank_guard. destruct (bool_decide (epoch = _)); [by apply keeps_tables|]. cbn [snd].
  apply keeps_sub; [intros [] i x|intros i x]; unfold live, tb, ovl; cbn; first [by apply drop_unusable_lookup|by intros ?%wiped_lookup].
Qed.

Lemma record_demand_keeps sc p b : keeps b (record_demand sc p b).
Proof. unfold record_demand, expires_after. apply keeps_tables; repeat case_match; done. Qed.
Lemma drop_demand_keeps sc p b : keeps b (drop_demand sc p b).
Proof. by apply keeps_tables. Qed.
Lemma take_demand_keeps b : keeps b (snd (take_demand b)).
Proof. unfold take_demand. apply keeps_tables; repeat case_match; done. Qed.
Lemma note_demand_keeps sc p b : keeps b (note_demand sc p b).
Proof. unfold note_demand. case_match; [apply bank_keeps_refl|apply record_demand_keeps]. Qed.
Lemma note_rx_unknown_keeps hmac sc p b : keeps b (note_rx_unknown hmac sc p b).
Proof.
  unfold note_rx_unknown. destruct (_ || _); [apply bank_keeps_refl|]. destruct (_ && _); [apply bank_keeps_refl|]. case_match; [apply bank_keeps_refl|].
  destruct (demand_pending _ _ _); [|apply record_demand_keeps]. eapply bank_keeps_trans; [apply (record_demand_keeps sc p)|by apply keeps_tables].
Qed.
Lemma tx_epoch_keeps hmac sc p b : keeps b (snd (tx_epoch hmac sc p b)).
Proof. unfold tx_epoch. bank_unfold. repeat bank_guard; apply record_demand_keeps. Qed.

Lemma insert_none_keeps {A} (t : list (option A)) j i x : <[j := None]> t !! i = Some (Some x) → t !! i = Some (Some x).
Proof. intros [(_ & ? & _)|[_ ?]]%list_lookup_insert_Some; done. Qed.
Lemma wipe_slot_keeps sc i b : keeps b (wipe_slot sc i b).
Proof.
  apply keeps_sub; [intros l j e|intros j o]; unfold wipe_slot, set_slots, slots, live, tb, ovl; case_bool_decide; cbn; try done; destruct l; try done; apply insert_none_keeps.
Qed.
Lemma drop_overlaps_keeps f b : keeps b (drop_overlaps f b).
Proof.
  apply keeps_sub; [by intros []|]. intros i o. unfold drop_overlaps, ovl. cbn. rewrite list_lookup_fmap. destruct (overlap_ b !! i) as [[x|]|]; cbn; [case_match|..]; naive_solver.
Qed.
Lemma retire_keeps hmac sc p b : keeps b (snd (retire hmac sc p b)).
Proof.
  unfold retire. bank_unfold. do 2 bank_guard. eapply bank_keeps_trans; [|apply drop_demand_keeps]. eapply bank_keeps_trans; [|apply drop_overlaps_keeps].
  destruct (find_slot hmac b sc p); [apply wipe_slot_keeps|apply bank_keeps_refl].
Qed.

(** Sequencing. *)
Lemma keeps_bind {A B} (m : M SessionBank A) (f : A → M SessionBank B) b :
  keeps b (snd (m b)) → (∀ a b', keeps b' (snd (f a b'))) → keeps b (snd ((m ≫= f) b)).
Proof. intros Hm Hf. unfold mbind, M_bind. destruct (m b) as [[a|c d] b']; [|done]. by eapply bank_keeps_trans; [|apply Hf]. Qed.
Lemma not_configured_keeps b : keeps b (snd (not_configured b)).
Proof. unfold not_configured. bank_unfold. by bank_guard. Qed.
Lemma fail_if_keeps c x d b : keeps b (snd (fail_if c x d b)).
Proof. unfold fail_if. destruct c; apply bank_keeps_refl. Qed.

Lemma retire_all_keeps hmac p b : keeps b (snd (retire_all hmac p b)).
Proof.
  unfold retire_all. apply keeps_bind; [apply not_configured_keeps|]. intros _ b1. apply keeps_bind; [apply retire_keeps|]. intros _ b2. apply retire_keeps.
Qed.
Lemma retire_if_older_keeps hmac sc p g b : keeps b (snd (retire_if_older hmac sc p g b)).
Proof.
  unfold retire_if_older. unfold mbind at 1, M_bind at 1, getS. destruct (find_current hmac b sc p); [|apply bank_keeps_refl]. case_bool_decide; [|apply bank_keeps_refl].
  apply keeps_bind; [apply retire_keeps|]. intros _ b1. apply bank_keeps_refl.
Qed.
Lemma retire_below_generation_keeps hmac p g b : keeps b (snd (retire_below_generation hmac p g b)).
Proof.
  unfold retire_below_generation. apply keeps_bind; [apply not_configured_keeps|]. intros _ b1. apply keeps_bind; [apply fail_if_keeps|]. intros _ b2.
  apply keeps_bind; [apply retire_if_older_keeps|]. intros x b3. apply keeps_bind; [apply retire_if_older_keeps|]. intros y b4. apply keeps_bind; [apply drop_overlaps_keeps|].
  intros _ b5. apply bank_keeps_refl.
Qed.
Lemma evict_idle_end_keeps hmac b : keeps b (snd (evict_idle_end hmac b)).
Proof.
  unfold evict_idle_end. apply keeps_bind; [apply not_configured_keeps|]. intros _ b1. unfold mbind at 1, M_bind at 1, getS.
  destruct (evict_victim _ _ _ _) as [i|]; [|apply bank_keeps_refl]. destruct (end_ b1 !! i) as [[e|]|]; [|apply bank_keeps_refl..]. apply keeps_bind; [apply retire_keeps|]. intros _ b2. apply bank_keeps_refl.
Qed.

(** ** Replacing one context *)

Lemma put_current_live sc i e b l j x :
  live (put_current sc i e b) l j x → (l = is_link sc ∧ j = i ∧ x = e) ∨ (¬ (l = is_link sc ∧ j = i) ∧ live b l j x).
Proof.
  unfold put_current, set_slots, slots, live, tb, is_link. case_bool_decide; cbn; destruct l; cbn; try (intros [(-> & [= ->] & _)|[Hne Hx]]%list_lookup_insert_Some; [by left|right; split; [naive_solver|done]]);
    intros Hx; right; (split; [naive_solver|done]).
Qed.
Lemma put_current_ovl sc i e b j o : ovl (put_current sc i e b) j o ↔ ovl b j o.
Proof. unfold put_current, set_slots, slots, ovl. by case_bool_decide. Qed.
Lemma put_current_at sc i e b : (i < length (slots b sc))%nat → live (put_current sc i e b) (is_link sc) i e.
Proof.
  unfold put_current, set_slots, slots, live, tb, is_link. intros Hi. case_bool_decide; cbn in *; by rewrite list_lookup_insert_eq.
Qed.

Lemma set_pinned_keeps hmac sc p pinned b : keeps b (snd (set_pinned hmac sc p pinned b)).
Proof.
  unfold set_pinned. apply keeps_bind; [apply not_configured_keeps|]. intros _ b1. unfold mbind at 1, M_bind at 1, getS.
  destruct (find_slot hmac b1 sc p) as [i|] eqn:Hf; [|apply bank_keeps_refl]. destruct (find_slot_some hmac b1 sc p i Hf) as (_ & e & Hl & _ & ->). unfold putS. cbn [snd].
  split; [|intros j o; by rewrite put_current_ovl]. intros l j x [(-> & -> & ->)|[_ Hx]]%put_current_live; [|exists x; split; [done|apply same_refl]].
  exists e. split; [done|]. split; try done; [|intros Hr; destruct pinned; [by apply lor_range|by apply ldiff_range]].
  unfold reserved. cbn [flags with_flags with_tx]. destruct pinned; [rewrite Z.lor_spec|rewrite Z.ldiff_spec]; cbn; by rewrite ?orb_false_r, ?andb_true_r.
Qed.
