(* ===== verification/SessionBankRun.v ===== *)
(** * The session bank: nonces and replays

    Runs of all operations of a bank, with the calls of the AEAD port that
    sealed and the frames that were accepted as history. *)

From S2P Require Import Prelude Types SessionBank SessionBankProps.

(** A key with its IV: one nonce domain. *)
Definition Material : Type := list Z * list Z.
Definition txm (e : SessionBankEntry) : Material := (tx_key e, tx_iv e).

(** A receive key is held by a current context or an overlap. *)
Inductive Pos := PCur (l : bool) (i : nat) | POv (i : nat).
Definition held (b : SessionBank) (q : Pos) (m : Material) (maximum bits : Z) : Prop :=
  match q with
  | PCur l i => ∃ e, live b l i e ∧ m = (rx_key e, rx_iv e) ∧ maximum = rx_max e ∧ bits = rx_bitmap e
  | POv i => ∃ o, ovl b i o ∧ m = (ov_rx_key o, ov_rx_iv o) ∧ maximum = ov_rx_max o ∧ bits = ov_rx_bitmap o
  end.

(** Sent: every sealed counter of a live domain is behind, the reserved one
    has not been used. *)
Record tx_ok (b : SessionBank) (S : list (Material * Z)) : Prop := {
  t_unique l i e l' i' e' : live b l i e → live b l' i' e' → txm e = txm e' → l = l' ∧ i = i';
  t_next l i e : live b l i e → 0 ≤ tx_next e ≤ kMaxUseCounter ∧ (reserved e = true → 0 < tx_next e);
  t_used l i e c : live b l i e → (txm e, c) ∈ S → c < tx_next e ∧ (reserved e = true → c ≠ tx_next e - 1);
  t_nodup : NoDup S }.

(** Received: every accepted counter is marked in the window that holds its key. *)
Record rx_ok (b : SessionBank) (A : list (Material * Z)) : Prop := {
  r_unique q m x y q' x' y' : held b q m x y → held b q' m x' y' → q = q';
  r_seen q m x y c : held b q m x y → (m, c) ∈ A → replayed x y c = true;
  r_nodup : NoDup A }.

Lemma tx_ok_sub b b' S :
  (∀ l i e', live b' l i e' → ∃ e, live b l i e ∧ txm e' = txm e ∧ tx_next e' = tx_next e ∧ reserved e' = reserved e) → tx_ok b S → tx_ok b' S.
Proof.
  intros Hsub [Hu Hn Hs Hd]. split; [| | |done].
  - intros l i e l' i' e' (e1 & Hl & E1 & _)%Hsub (e2 & Hl2 & E2 & _)%Hsub Heq. apply (Hu _ _ _ _ _ _ Hl Hl2). congruence.
  - intros l i e (e1 & Hl & _ & -> & ->)%Hsub. by eapply Hn.
  - intros l i e c (e1 & Hl & -> & -> & ->)%Hsub. by eapply Hs.
Qed.
Lemma rx_ok_sub b b' A : (∀ q m x y, held b' q m x y → held b q m x y) → rx_ok b A → rx_ok b' A.
Proof. intros Hsub [Hu Hs Hd]. split; [|intros; eapply Hs; eauto|done]. intros q m x y q' x' y' H1%Hsub H2%Hsub. by eapply Hu. Qed.

Lemma keeps_tx b b' S : keeps b b' → tx_ok b S → tx_ok b' S.
Proof. intros [Hk _]. apply tx_ok_sub. intros l i e' (e & Hl & [])%Hk. exists e. unfold txm. split_and!; congruence. Qed.
Lemma keeps_rx b b' A : keeps b b' → rx_ok b A → rx_ok b' A.
Proof.
  intros [Hk Ho]. apply rx_ok_sub. intros [l i|i] m x y; cbn.
  - intros (e' & (e & Hl & [])%Hk & -> & -> & ->). exists e. split_and!; congruence.
  - intros (o & Hx%Ho & ?). eauto.
Qed.

(** ** The window *)

Lemma slide_window_spec maximum bits c x y :
  slide_window maximum bits c = (x, y) → replayed maximum bits c = false →
  replayed x y c = true ∧ ∀ d, replayed maximum bits d = true → replayed x y d = true.
Proof.
  unfold slide_window, replayed. destruct (bool_decide_reflect (maximum < c)) as [Hlt|Hge]; intros [= <- <-] Hf.
  - split; [rewrite bool_decide_eq_true_2 by lia; rewrite Z.sub_diag; cbn [andb]; apply orb_true_iff; right; destruct (bool_decide (64 ≤ c - maximum)); [done|by rewrite Z.lor_spec, orb_true_r]|].
    intros d [Hd%bool_decide_eq_true Hb]%andb_true_iff. rewrite (bool_decide_eq_true_2 (d ≤ c)) by lia. cbn [andb].
    destruct (bool_decide_reflect (64 ≤ c - d)) as [|Hnear]; [done|]. cbn [orb]. rewrite (bool_decide_eq_false_2 (64 ≤ maximum - d)) in Hb by lia. cbn [orb] in Hb.
    rewrite (bool_decide_eq_false_2 (64 ≤ c - maximum)) by lia. rewrite Z.lor_spec. unfold wrap. rewrite Z.mod_pow2_bits_low by lia. rewrite Z.shiftl_spec by lia.
    replace (c - d - (c - maximum)) with (maximum - d) by lia. by rewrite Hb.
  - rewrite (bool_decide_eq_true_2 (c ≤ maximum)) in * by lia. cbn [andb] in *. apply orb_false_iff in Hf as [Hf _]. rewrite Hf. cbn [orb].
    split; [by rewrite Z.lor_spec, Z.shiftl_1_l, Z.pow2_bits_true, orb_true_r by lia|].
    intros d [Hd Hb]%andb_true_iff. rewrite Hd. cbn [andb]. apply orb_true_iff in Hb as [->|Hb]; [done|]. by rewrite Z.lor_spec, Hb, orb_true_r.
Qed.

Section Traffic.
Context (hmac : list Z → list Z → list Z) `{AeadGcm}.

Lemma touch_lru_live sc i b l j e : live (touch_lru sc i b) l j e ↔ live b l j e.
Proof. unfold touch_lru. by case_bool_decide. Qed.
Lemma touch_lru_ovl sc i b j o : ovl (touch_lru sc i b) j o ↔ ovl b j o.
Proof. unfold touch_lru. by case_bool_decide. Qed.

(** A rewritten context with the same receive side. *)
Lemma put_current_rx sc i e e' b A :
  live b (is_link sc) i e → rx_key e' = rx_key e → rx_iv e' = rx_iv e → rx_max e' = rx_max e → rx_bitmap e' = rx_bitmap e →
  rx_ok b A → rx_ok (put_current sc i e' b) A.
Proof.
  intros Hl E1 E2 E3 E4. apply rx_ok_sub. intros [l j|j] m x y; cbn.
  - intros (f & [(-> & -> & ->)|[_ Hf]]%put_current_live & -> & -> & ->); [|eauto 6]. exists e. rewrite E1, E2, E3, E4. done.
  - intros (o & Ho%put_current_ovl & ?). eauto.
Qed.
(** With the same transmit side. *)
Lemma put_current_tx sc i e e' b S :
  live b (is_link sc) i e → txm e' = txm e → tx_next e' = tx_next e → reserved e' = reserved e → tx_ok b S → tx_ok (put_current sc i e' b) S.
Proof. intros Hl E1 E2 E3. apply tx_ok_sub. intros l j f [(-> & -> & ->)|[_ Hf]]%put_current_live; eauto 6. Qed.
(** With an advanced transmit side. *)
Lemma put_current_tx_advance sc i e e' b S S' :
  live b (is_link sc) i e → txm e' = txm e → 0 ≤ tx_next e' ≤ kMaxUseCounter → (reserved e' = true → 0 < tx_next e') →
  (∀ c, (txm e, c) ∈ S' → c < tx_next e' ∧ (reserved e' = true → c ≠ tx_next e' - 1)) →
  (∀ m c, (m, c) ∈ S' → m ≠ txm e → (m, c) ∈ S) → NoDup S' → tx_ok b S → tx_ok (put_current sc i e' b) S'.
Proof.
  intros Hl E1 En Er Hs Hold Hd [Hu Hn Ho _]. split; [| | |done].
  - intros l1 i1 e1 l2 i2 e2 [(-> & -> & ->)|[Hx H1]]%put_current_live [(-> & -> & ->)|[Hy H2]]%put_current_live Heq; [done| | |by eapply Hu].
    + rewrite E1 in Heq. by eapply Hu.
    + rewrite E1 in Heq. by eapply Hu.
  - intros l1 i1 e1 [(-> & -> & ->)|[_ H1]]%put_current_live; [done|by eapply Hn].
  - intros l1 i1 e1 c [(-> & -> & ->)|[Hne H1]]%put_current_live Hc; [apply Hs; by rewrite <- E1|]. eapply Ho; [exact H1|]. apply Hold; [done|].
    intros Heq. destruct (Hu _ _ _ _ _ _ H1 Hl Heq) as [-> ->]. by apply Hne.
Qed.

(** ** Drawing a counter *)

Lemma tx_ready_bound b e : tx_ready b e = true → tx_next e < kMaxUseCounter.
Proof.
  unfold tx_ready, tx_refused, check_tx_counter. intros [_ Hr]%andb_true_iff. apply negb_true_iff, bool_decide_eq_false in Hr.
  destruct (bool_decide_reflect (tx_next e < kRekeySoftCounter)); [unfold kRekeySoftCounter, kMaxUseCounter in *; lia|]. by destruct (bool_decide_reflect (tx_next e < kMaxUseCounter)).
Qed.

Lemma next_counter_ok c b r b' S A :
  next_counter hmac c b = (r, b') → tx_ok b S → rx_ok b A → tx_ok b' S ∧ rx_ok b' A.
Proof.
  intros Hn Ht Hr. assert (Hk : keeps b b' → tx_ok b' S ∧ rx_ok b' A) by (intros Hk; split; [by eapply keeps_tx|by eapply keeps_rx]). revert Hn.
  unfold next_counter. bank_unfold. destruct (negb (configured_ b)); [intros [= <- <-]; apply Hk, bank_keeps_refl|]. destruct (negb (unicast_scope _)); [intros [= <- <-]; apply Hk, bank_keeps_refl|].
  destruct (_ || _); [intros [= <- <-]; apply Hk, bank_keeps_refl|]. destruct (find_slot hmac b (scope c) (receiver c)) as [i|] eqn:Hf; [|intros [= <- <-]; apply Hk, record_demand_keeps].
  destruct (find_slot_some hmac b _ _ i Hf) as (_ & e & Hl & _ & ->). destruct (negb (bool_decide _)); [intros [= <- <-]; apply Hk, bank_keeps_refl|].
  destruct (tx_ready b e) eqn:Hrdy; cbn [negb]; [|intros [= <- <-]; apply Hk, record_demand_keeps]. destruct (bool_decide (kMaxCryptoCounter < _)); [intros [= <- <-]; apply Hk, bank_keeps_refl|].
  intros [= <- <-]. set (e' := with_tx _ _ e). pose proof (tx_ready_bound b e Hrdy) as Hb. destruct (t_next _ _ Ht _ _ _ Hl) as [[Hn0 _] _].
  assert (En : tx_next e' = tx_next e + 1) by (cbn; apply wrap_id; unfold in_range, kMaxUseCounter in *; lia). split.
  - apply (tx_ok_sub (put_current (scope c) i e' b)); [intros l j f Hx%touch_lru_live; eauto|]. apply (put_current_tx_advance _ _ e e' b S S Hl); try done.
    + rewrite En. lia.
    + rewrite En. lia.
    + intros x Hx. destruct (t_used _ _ Ht _ _ _ _ Hl Hx). rewrite En. lia.
    + apply Ht.
  - apply (rx_ok_sub (put_current (scope c) i e' b)); [|by apply (put_current_rx _ _ e)]. intros [l j|j] m x y; cbn.
    + intros (f & Hx%touch_lru_live & ?). eauto.
    + intros (f & Hx%touch_lru_ovl & ?). eauto.
Qed.

(** ** Sealing *)

(** The call of the port that [seal] makes, if it makes one. *)
Definition seal_call (b : SessionBank) (c : SecurityContext) (counter : Z) (plaintext : list Z) (room : nat) : option (Material * Z) :=
  match seal_check hmac b c counter plaintext room with Ok (_, e, _) => Some (txm e, counter) | Err _ _ => None end.

Lemma seal_check_ok b c counter plaintext room i e nonce :
  seal_check hmac b c counter plaintext room = Ok (i, e, nonce) →
  live b (is_link (scope c)) i e ∧ reserved e = true ∧ counter = u64 (tx_next e - 1) ∧ aead_nonce (tx_iv e) counter = Ok nonce.
Proof.
  unfold seal_check. intros Hs. do 3 (apply guard_err_bind in Hs as [_ Hs]). destruct (find_slot hmac b (scope c) (receiver c)) as [j|] eqn:Hf; [|done].
  destruct (find_slot_some hmac b _ _ j Hf) as (_ & x & Hl & _ & Hc). rewrite Hc in Hs. apply guard_err_bind in Hs as [_ Hs]. apply guard_err_bind in Hs as [Hg Hs].
  apply guard_err_bind in Hs as [_ Hs]. apply result_bind_inv in Hs as (n & Hn & [= <- <- <-]). apply orb_false_iff in Hg as [Hg Hres]. apply orb_false_iff in Hg as [_ Hcnt].
  apply negb_false_iff in Hres, Hcnt. rewrite has_reserved in Hres. apply bool_decide_eq_true in Hcnt. done.
Qed.

Lemma seal_ok c counter aad plaintext room b r b' S A :
  seal hmac c counter aad plaintext room b = (r, b') → tx_ok b S → rx_ok b A →
  tx_ok b' (match seal_call b c counter plaintext room with Some x => x :: S | None => S end) ∧ rx_ok b' A.
Proof.
  intros Hs Ht Hr. unfold seal_call. revert Hs. unfold seal. bank_unfold. destruct (seal_check hmac b c counter plaintext room) as [[[i e] nonce]|cd d] eqn:Hc; [|by intros [= <- <-]].
  destruct (seal_check_ok _ _ _ _ _ _ _ _ Hc) as (Hl & Hres & Hcnt & _). set (e' := with_flags _ e). destruct (t_next _ _ Ht _ _ _ Hl) as [[Hn0 Hn1] Hpos]. specialize (Hpos Hres).
  assert (Hu : counter = tx_next e - 1) by (rewrite Hcnt; apply wrap_id; unfold in_range, kMaxUseCounter in *; lia).
  assert (Hb : b' = put_current (scope c) i e' b → tx_ok b' ((txm e, counter) :: S) ∧ rx_ok b' A).
  { intros ->. split; [|by apply (put_current_rx _ _ e)]. assert (Hf : reserved e' = false) by (unfold reserved, e', with_flags; cbn [flags with_tx]; rewrite Z.ldiff_spec; apply andb_false_r).
    apply (put_current_tx_advance _ _ e e' b S _ Hl); try done; try (rewrite Hf; done).
    - intros x Hx. rewrite Hf. split; [|done]. change (tx_next e') with (tx_next e). apply elem_of_cons in Hx as [[= ->]|Hx]; [lia|]. by destruct (t_used _ _ Ht _ _ _ _ Hl Hx).
    - intros m x [[= -> ->]|Hx]%elem_of_cons; done.
    - constructor; [|apply Ht]. intros Hin. destruct (t_used _ _ Ht _ _ _ _ Hl Hin) as [_ Hne]. by apply Hne. }
  destruct (aead_seal _ _ _ _); intros [= <- <-]; by apply Hb.
Qed.

(** ** Opening *)

Definition open_holder (b : SessionBank) (c : SecurityContext) (counter : Z) (ciphertext : list Z) (room : nat) : option (Material * Z) :=
  match open_check hmac b c counter ciphertext room with Ok (h, _) => Some ((h_key h, h_iv h), counter) | Err _ _ => None end.
Definition h_pos (sc : SecurityScope) (h : Holder) : Pos := match h with HCurrent i _ => PCur (is_link sc) i | HOverlap i _ => POv i end.

Lemma find_holder_held b sc p id h : find_holder hmac b sc p id = Some h → held b (h_pos sc h) (h_key h, h_iv h) (h_max h) (h_bitmap h).
Proof.
  assert (Ho : find_overlap b sc p id = Some h → held b (h_pos sc h) (h_key h, h_iv h) (h_max h) (h_bitmap h)).
  { unfold find_overlap. destruct (first_slot _ _) as [i|]; [|done]. cbn [mbind option_bind]. destruct (overlap_ b !! i) as [[o|]|] eqn:E; [|done..]. intros [= <-]. cbn. by exists o. }
  unfold find_holder. destruct (find_slot hmac b sc p) as [i|] eqn:Hf; [|done]. destruct (find_slot_some hmac b _ _ i Hf) as (_ & e & Hl & _ & ->).
  destruct (_ && _); [|done]. intros [= <-]. cbn. by exists e.
Qed.

Lemma open_check_ok b c counter ciphertext room h nonce :
  open_check hmac b c counter ciphertext room = Ok (h, nonce) →
  held b (h_pos (scope c) h) (h_key h, h_iv h) (h_max h) (h_bitmap h) ∧ replayed (h_max h) (h_bitmap h) counter = false.
Proof.
  unfold open_check. intros Hs. do 3 (apply guard_err_bind in Hs as [_ Hs]). destruct (find_holder hmac b _ _ _) as [x|] eqn:Hf; [|done].
  do 3 (apply guard_err_bind in Hs as [_ Hs]). apply guard_err_bind in Hs as [Hr Hs]. apply result_bind_inv in Hs as (n & _ & [= <- <-]). split; [by apply find_holder_held in Hf|done].
Qed.

Lemma put_window_held sc h x y b q m mx bt :
  held b (h_pos sc h) (h_key h, h_iv h) (h_max h) (h_bitmap h) → held (put_window sc h (x, y) b) q m mx bt →
  (q = h_pos sc h ∧ m = (h_key h, h_iv h) ∧ mx = x ∧ bt = y) ∨ (q ≠ h_pos sc h ∧ held b q m mx bt).
Proof.
  destruct h as [i e|i o]; cbn; destruct q as [l j|j]; cbn.
  - intros _ (f & [(-> & -> & ->)|[Hne Hf]]%put_current_live & -> & -> & ->); [by left|right]. split; [naive_solver|eauto].
  - intros _ (f & Hf%put_current_ovl & ?). right. split; [done|eauto].
  - intros _ (f & Hf & ?). right. split; [done|]. exists f. split; [by destruct l|done].
  - intros _ (f & Hf & Hx). unfold ovl in Hf. cbn in Hf. apply list_lookup_insert_Some in Hf as [(-> & [= <-] & _)|[Hne Hf]]; [by left|right]. split; [naive_solver|eauto].
Qed.
Lemma put_window_live sc h w b l i e' :
  held b (h_pos sc h) (h_key h, h_iv h) (h_max h) (h_bitmap h) → (∀ i e, h = HCurrent i e → live b (is_link sc) i e) → live (put_window sc h w b) l i e' →
  ∃ e, live b l i e ∧ txm e' = txm e ∧ tx_next e' = tx_next e ∧ reserved e' = reserved e.
Proof.
  intros _ Hc. destruct h as [j e|j o]; cbn; [|intros Hl; exists e'; by destruct l]. intros [(-> & -> & ->)|[_ Hl]]%put_current_live; [|eauto]. exists e. by split; [apply Hc|].
Qed.

Lemma find_holder_current b sc p id i e : find_holder hmac b sc p id = Some (HCurrent i e) → live b (is_link sc) i e.
Proof.
  assert (Ho : find_overlap b sc p id ≠ Some (HCurrent i e)).
  { unfold find_overlap. destruct (first_slot _ _) as [j|]; [|done]. cbn [mbind option_bind]. by destruct (overlap_ b !! j) as [[o|]|]. }
  unfold find_holder. destruct (find_slot hmac b sc p) as [j|] eqn:Hf; [|done]. destruct (find_slot_some hmac b _ _ j Hf) as (_ & e1 & Hl & _ & ->).
  destruct (_ && _); [by intros [= <- <-]|done].
Qed.

Lemma find_holder_overlap b sc p id i o : find_holder hmac b sc p id = Some (HOverlap i o) → ovl b i o.
Proof.
  assert (Ho : find_overlap b sc p id = Some (HOverlap i o) → ovl b i o).
  { unfold find_overlap. destruct (first_slot _ _) as [j|]; [|done]. cbn [mbind option_bind]. destruct (overlap_ b !! j) as [[x|]|] eqn:E; [|done..]. by intros [= <- <-]. }
  unfold find_holder. destruct (find_slot hmac b sc p) as [j|]; [|done]. destruct (find_current hmac b sc p); [|done]. by destruct (_ && _).
Qed.

Lemma open_ok c counter aad ciphertext tag room b r b' S A :
  open hmac c counter aad ciphertext tag room b = (r, b') → tx_ok b S → rx_ok b A →
  tx_ok b' S ∧ rx_ok b' (match r, open_holder b c counter ciphertext room with Ok _, Some x => x :: A | _, _ => A end).
Proof.
  intros Hs Ht Hr. unfold open_holder. revert Hs. unfold open. bank_unfold. destruct (open_check hmac b c counter ciphertext room) as [[h nonce]|cd d] eqn:Hc; [|by intros [= <- <-]].
  destruct (open_check_ok _ _ _ _ _ _ _ Hc) as [Hh Hrep]. destruct (aead_open _ _ _ _ _) as [pt|]; [|by intros [= <- <-]]. destruct (slide_window _ _ _) as [x y] eqn:Hsl. intros [= <- <-].
  destruct (slide_window_spec _ _ _ _ _ Hsl Hrep) as [Hnew Hmono]. split.
  - eapply tx_ok_sub; [|exact Ht]. intros l i e' Hl. eapply put_window_live; [exact Hh| |exact Hl]. intros j e ->. unfold open_check in Hc.
    do 3 (apply guard_err_bind in Hc as [_ Hc]). destruct (find_holder hmac b _ _ _) as [z|] eqn:Hf; [|done]. do 4 (apply guard_err_bind in Hc as [_ Hc]).
    apply result_bind_inv in Hc as (n & _ & [= -> _]). by eapply find_holder_current.
  - split.
    + intros q m mx bt q' mx' bt' H1 H2. apply (put_window_held _ _ _ _ _ _ _ _ _ Hh) in H1, H2. destruct H1 as [(-> & -> & -> & ->)|[_ H1]], H2 as [(-> & E & -> & ->)|[_ H2]]; try done.
      * by eapply (r_unique _ _ Hr).
      * subst m. symmetry. by eapply (r_unique _ _ Hr).
      * by eapply (r_unique _ _ Hr).
    + intros q m mx bt d H1 Hd. apply (put_window_held _ _ _ _ _ _ _ _ _ Hh) in H1. destruct H1 as [(-> & -> & -> & ->)|[Hne H1]].
      * apply elem_of_cons in Hd as [[= ->]|Hd]; [done|]. apply Hmono. by eapply (r_seen _ _ Hr).
      * apply elem_of_cons in Hd as [[= -> ->]|Hd]; [|by eapply (r_seen _ _ Hr)]. by destruct Hne; eapply (r_unique _ _ Hr).
    + constructor; [|apply Hr]. intros Hin. pose proof (r_seen _ _ Hr _ _ _ _ _ Hh Hin). congruence.
Qed.
End Traffic.
