(* ===== verification/SessionBankInstall.v ===== *)
(** * The session bank: installing and restoring contexts *)

From S2P Require Import Prelude Types SessionBank SessionBankProps SessionBankRun.

(** ** The collision scan *)

Lemma check_collision_ok i0 skip key iv id t :
  check_collision i0 skip key iv id t = Ok tt →
  ∀ i e, t !! i = Some (Some e) → skip ≠ Some (i0 + i)%nat → (tx_key e, tx_iv e) ≠ (key, iv) ∧ rx_cid e ≠ id.
Proof.
  revert i0. induction t as [|s t IH]; intros i0 Hc i e Hi Hs; [done|]. cbn [check_collision] in Hc. apply result_bind_inv in Hc as ([] & Hh & Ht).
  destruct i as [|i]; [|apply (IH _ Ht i e Hi); by rewrite Nat.add_succ_comm]. injection Hi as ->. rewrite Nat.add_0_r in Hs. rewrite bool_decide_eq_false_2 in Hh by done.
  apply guard_err_bind in Hh as [Hm Hh]. apply guard_err_ok in Hh. apply bool_decide_eq_false in Hh. split; [|done]. intros [= E1 E2]. unfold tx_material_equal in Hm.
  by rewrite E1, E2, !bool_decide_eq_true_2 in Hm.
Qed.

Lemma check_collisions_ok b sc existing key iv id :
  check_collisions b sc existing key iv id = Ok tt →
  (∀ l i e, live b l i e → ¬ (l = is_link sc ∧ existing = Some i) → (tx_key e, tx_iv e) ≠ (key, iv) ∧ rx_cid e ≠ id) ∧
  ∀ i o, ovl b i o → ov_rx_cid o ≠ id.
Proof.
  unfold check_collisions, is_link. intros Hc. apply result_bind_inv in Hc as ([] & H1 & Hc). apply result_bind_inv in Hc as ([] & H2 & H3). split.
  - intros [] i e Hl Hne; [apply (check_collision_ok _ _ _ _ _ _ H1 i e Hl)|apply (check_collision_ok _ _ _ _ _ _ H2 i e Hl)]; cbn [Nat.add]; case_bool_decide; naive_solver.
  - intros i o Ho Hid. apply guard_err_ok in H3. apply not_true_iff_false in H3. apply H3. apply existsb_exists. exists (Some o). split; [|unfold ov_uses_cid; by rewrite bool_decide_eq_true_2].
    apply list_elem_of_In. by eapply list_elem_of_lookup_2.
Qed.

(** ** A new context *)

(** [b'] is [b] with a context [x] at one slot; the context that was there may
    have moved to a free overlap. *)
Record placed (b b' : SessionBank) (l0 : bool) (i0 : nat) (x : SessionBankEntry) : Prop := {
  pl_live l i e : live b' l i e → (l = l0 ∧ i = i0 ∧ e = x) ∨ (¬ (l = l0 ∧ i = i0) ∧ live b l i e);
  pl_ovl : ∃ j0, ∀ j o, ovl b' j o → ovl b j o ∨
    (j = j0 ∧ ∃ e, live b l0 i0 e ∧ ov_rx_key o = rx_key e ∧ ov_rx_iv o = rx_iv e ∧ ov_rx_max o = rx_max e ∧ ov_rx_bitmap o = rx_bitmap e);
  pl_tx l i e : live b l i e → ¬ (l = l0 ∧ i = i0) → txm e ≠ txm x }.

Lemma placed_tx b b' l0 i0 x S :
  placed b b' l0 i0 x → 0 ≤ tx_next x ≤ kMaxUseCounter → reserved x = false → (∀ c, (txm x, c) ∈ S → c < tx_next x) → tx_ok b S → tx_ok b' S.
Proof.
  intros [Hl _ Ht] Hn Hr Hs [Hu Hx Ho Hd]. split; [| | |done].
  - intros l i e l' i' e' [(-> & -> & ->)|[Hn1 H1]]%Hl [(-> & -> & ->)|[Hn2 H2]]%Hl Heq; [done| | |by eapply Hu].
    + by destruct (Ht _ _ _ H2 Hn2).
    + by destruct (Ht _ _ _ H1 Hn1).
  - intros l i e [(-> & -> & ->)|[_ H1]]%Hl; [rewrite Hr; done|by eapply Hx].
  - intros l i e c [(-> & -> & ->)|[_ H1]]%Hl Hc; [rewrite Hr; split; [by apply Hs|done]|by eapply Ho].
Qed.

Lemma placed_rx b b' l0 i0 x A :
  placed b b' l0 i0 x → (∀ q m y z, held b q m y z → m ≠ (rx_key x, rx_iv x)) → (∀ c, ((rx_key x, rx_iv x), c) ∈ A → replayed (rx_max x) (rx_bitmap x) c = true) →
  rx_ok b A → rx_ok b' A.
Proof.
  intros [Hl [j0 Ho] _] Hfresh Hs [Hu Hx Hd].
  (* where a key was held before *)
  assert (Hback : ∀ q m y z, held b' q m y z → (q = PCur l0 i0 ∧ m = (rx_key x, rx_iv x) ∧ y = rx_max x ∧ z = rx_bitmap x) ∨
            (q ≠ PCur l0 i0 ∧ q ≠ POv j0 ∧ held b q m y z) ∨ (q = POv j0 ∧ (held b q m y z ∨ held b (PCur l0 i0) m y z))).
  { intros [l i|i] m y z; cbn.
    - intros (e & [(-> & -> & ->)|[Hne He]]%Hl & -> & -> & ->); [by left|right; left]. split_and!; [naive_solver|done|eauto].
    - intros (o & [Hov|(-> & e & He & E1 & E2 & E3 & E4)]%Ho & -> & -> & ->).
      + destruct (decide (i = j0)) as [->|Hne]; [right; right; split; [done|left; eauto]|right; left]. split_and!; [done|naive_solver|eauto].
      + right; right. split; [done|]. right. exists e. rewrite E1, E2, E3, E4. done. }
  split; [| |done].
  - intros q m y z q' y' z' H1%Hback H2%Hback.
    destruct H1 as [(-> & -> & _)|[(Hn1 & Hn2 & H1)|(-> & H1)]], H2 as [(-> & E & _)|[(Hn3 & Hn4 & H2)|(-> & H2)]]; try done.
    + by destruct (Hfresh _ _ _ _ H2).
    + destruct H2 as [H2|H2]; by destruct (Hfresh _ _ _ _ H2).
    + by destruct (Hfresh _ _ _ _ H1).
    + by eapply Hu.
    + destruct H2 as [H2|H2]; pose proof (Hu _ _ _ _ _ _ _ H1 H2); done.
    + destruct H1 as [H1|H1]; by destruct (Hfresh _ _ _ _ H1).
    + destruct H1 as [H1|H1]; pose proof (Hu _ _ _ _ _ _ _ H1 H2); done.
  - intros q m y z c H1%Hback Hc. destruct H1 as [(-> & -> & -> & ->)|[(_ & _ & H1)|(-> & [H1|H1])]]; [by apply Hs|by eapply Hx..].
Qed.

Section Install.
Context (hmac : list Z → list Z → list Z).

Lemma first_slot_some {A} f (t : list (option A)) i : first_slot f t = Some i → ∃ s, t !! i = Some s ∧ f s = true.
Proof. unfold first_slot. destruct (list_find _ t) as [[j s]|] eqn:E; [|done]. intros [= <-]. apply list_find_Some in E as (H1 & H2 & _). eauto. Qed.

Lemma demote_live sc e b l i x : live (demote sc e b) l i x ↔ live b l i x.
Proof. unfold demote, expires_after. destruct (first_slot _ _); [|done]. by destruct l. Qed.
Lemma demote_ovl sc e b : ∃ j0, ∀ j o, ovl (demote sc e b) j o → ovl b j o ∨
  (j = j0 ∧ ov_rx_key o = rx_key e ∧ ov_rx_iv o = rx_iv e ∧ ov_rx_max o = rx_max e ∧ ov_rx_bitmap o = rx_bitmap e).
Proof.
  unfold demote, expires_after. destruct (first_slot is_none (overlap_ b)) as [j0|]; [|exists 0%nat; auto]. exists j0. intros j o. unfold ovl. cbn.
  intros [(-> & [= <-] & _)|[_ Ho]]%list_lookup_insert_Some; auto 10.
Qed.

(** The outcome of an installation: a refusal, or the new context in place. *)
Lemma install_spec k att b r b' :
  install_verified hmac k att b = (r, b') →
  b' = b ∨ ∃ i x, placed b b' (is_link (ck_scope k)) i x ∧ txm x = (ck_tx_key k, ck_tx_iv k) ∧ tx_next x = 0 ∧ reserved x = false ∧
    (rx_key x, rx_iv x) = (ck_rx_key k, ck_rx_iv k) ∧ peer x = ck_peer k ∧ unicast_scope (ck_scope k) = true ∧
    (find_slot hmac b (ck_scope k) (ck_peer k) = None ∨ find_slot hmac b (ck_scope k) (ck_peer k) = Some i) ∧
    configured_ b = true ∧ gk_dead b (at_created_gk_epoch att) = false ∧ ∃ ms serial, x = fresh_entry k att (u32 ms) (u32 serial).
Proof.
  unfold install_verified. bank_unfold. destruct (install_check hmac b k att) as [existing|c d] eqn:Hc; [|intros [= _ <-]; by left]. cbv zeta. intros Hrun. revert Hc. unfold install_check. intros Hc.
  apply guard_err_bind in Hc as [Hcf%negb_false_iff Hc]. apply result_bind_inv in Hc as ([] & Hk & Hc). do 2 (apply guard_err_bind in Hc as [_ Hc]). apply guard_err_bind in Hc as [Hgk Hc]. do 2 (apply guard_err_bind in Hc as [_ Hc]). cbv zeta in Hc. apply result_bind_inv in Hc as ([] & Hdup & Hc).
  apply result_bind_inv in Hc as ([] & Hcol & Hc). apply guard_err_bind in Hc as [Hcap [= <-]]. apply check_collisions_ok in Hcol as [Hcol _].
  assert (Hus : unicast_scope (ck_scope k) = true).
  { unfold check_context_keys in Hk. apply guard_err_bind in Hk as [Hk _]. unfold unicast_scope. by destruct (bool_decide (ck_scope k = Link)), (bool_decide (ck_scope k = EndToEnd)). }
  set (b1 := match find_current hmac b (ck_scope k) (ck_peer k) with Some e => demote (ck_scope k) e b | None => b end) in *.
  unfold expires_after in Hrun. set (d := deadline_after b1 kContextLifetimeMs) in *. set (x := fresh_entry k att (u32 d) (next_serial (note_expiry d b1))) in *.
  set (slot := match find_slot hmac b (ck_scope k) (ck_peer k) with Some i => Some i | None => free_slot hmac b (ck_scope k) (ck_peer k) end) in *.
  destruct slot as [i|] eqn:Hsl; [|injection Hrun as _ <-; left]. 2: { exfalso. subst slot. destruct (find_slot _ _ _ _); [done|]. by rewrite Hsl in Hcap. }
  injection Hrun as _ <-. right. exists i, x. assert (Hfx : reserved x = false) by (unfold reserved, x; cbn; by destruct (dev_resume att)).
  assert (Hfs : find_slot hmac b (ck_scope k) (ck_peer k) = None ∨ find_slot hmac b (ck_scope k) (ck_peer k) = Some i) by (subst slot; destruct (find_slot _ _ _ _); [right; congruence|by left]).
  split_and!; try done; [|by eexists _, _]. split.
  - intros l j e He. unfold drop_demand in He. change (live (touch_lru (ck_scope k) i (put_current (ck_scope k) i x (set_serial (next_serial (note_expiry d b1)) (note_expiry d b1)))) l j e) in He.
    apply touch_lru_live, put_current_live in He as [?|[Hne He]]; [by left|right; split; [done|]]. change (live b1 l j e) in He. unfold b1 in He.
    destruct (find_current hmac b _ _); [by apply demote_live in He|done].
  - assert (Ho : ∀ j o, ovl (drop_demand (ck_scope k) (ck_peer k) (touch_lru (ck_scope k) i (put_current (ck_scope k) i x (set_serial (next_serial (note_expiry d b1)) (note_expiry d b1))))) j o → ovl b1 j o).
    { intros j o Ho. change (ovl (touch_lru (ck_scope k) i (put_current (ck_scope k) i x (set_serial (next_serial (note_expiry d b1)) (note_expiry d b1)))) j o) in Ho.
      by apply touch_lru_ovl, put_current_ovl in Ho. }
    unfold b1 in Ho. destruct (find_current hmac b (ck_scope k) (ck_peer k)) as [e|] eqn:He; [|exists 0%nat; intros j o Hj; left; by apply Ho].
    apply find_current_slot in He as (i1 & Hf1 & Hl1 & _). assert (i1 = i) as -> by (destruct Hfs; congruence).
    destruct (demote_ovl (ck_scope k) e b) as [j0 Hj0]. exists j0. intros j o Hj%Ho. destruct (Hj0 j o Hj) as [?|(-> & ?)]; [by left|right]. split; [done|]. by exists e.
  - intros l j e He Hne. change (txm x) with (ck_tx_key k, ck_tx_iv k). destruct (Hcol l j e He) as [Hm _]; [|exact Hm]. intros [-> Hs]. apply Hne. split; [done|]. destruct Hfs; congruence.
Qed.

Lemma restore_spec sc p e b r b' :
  restore_entry hmac sc p e b = (r, b') →
  b' = b ∨ ∃ i x, placed b b' (is_link sc) i x ∧ txm x = txm e ∧ tx_next x = tx_next e ∧ tx_next e < kMaxUseCounter ∧ reserved x = false ∧
    (rx_key x, rx_iv x) = (rx_key e, rx_iv e) ∧ rx_max x = rx_max e ∧ rx_bitmap x = rx_bitmap e ∧ peer x = p ∧ unicast_scope sc = true ∧ find_slot hmac b sc p = None ∧
    configured_ b = true ∧ gk_dead b (created_gk e) = false ∧ ∃ ms serial, x = with_life (u32 ms) (u32 serial) e.
Proof.
  unfold restore_entry. bank_unfold. destruct (restore_check hmac b sc p e) as [i|c d] eqn:Hc; [|intros [= _ <-]; by left]. intros Hrun. revert Hc. unfold restore_check. intros Hc.
  apply guard_err_bind in Hc as [Hcf%negb_false_iff Hc]. apply guard_err_bind in Hc as [Hshape Hc]. apply guard_err_bind in Hc as [Hnext Hc]. do 2 (apply guard_err_bind in Hc as [_ Hc]). apply guard_err_bind in Hc as [Hgk Hc]. do 2 (apply guard_err_bind in Hc as [_ Hc]).
  apply guard_err_bind in Hc as [Hocc Hc]. apply result_bind_inv in Hc as ([] & Hcol & Hc). apply check_collisions_ok in Hcol as [Hcol _].
  apply negb_false_iff, bool_decide_eq_true in Hocc. destruct (free_slot hmac b sc p) as [i'|] eqn:Hfree; [|done]. injection Hc as ->.
  apply orb_false_iff in Hshape as [Hshape Hfl]. do 3 (apply orb_false_iff in Hshape as [Hshape _]). apply orb_false_iff in Hshape as [Hshape Hpeer].
  apply orb_false_iff in Hshape as [Hus _]. apply negb_false_iff in Hus, Hpeer, Hfl. apply bool_decide_eq_true in Hpeer, Hfl.
  unfold expires_after in Hrun. set (b1 := set_serial (next_serial b) b) in *. set (d := deadline_after b1 (remaining_ms e)) in *. set (x := with_life (u32 d) (next_serial b) e) in *.
  injection Hrun as _ <-. right. exists i, x. assert (Hn : tx_next e < kMaxUseCounter).
  { unfold tx_refused, check_tx_counter in Hnext. apply bool_decide_eq_false in Hnext. destruct (bool_decide_reflect (tx_next e < kRekeySoftCounter)); [unfold kRekeySoftCounter, kMaxUseCounter in *; lia|].
    by destruct (bool_decide_reflect (tx_next e < kMaxUseCounter)). }
  assert (Hfx : reserved x = false) by (unfold reserved, x; cbn; by rewrite Hfl).
  split_and!; try done; [|by eexists _, _]. split.
  - intros l j y Hy. change (live (touch_lru sc i (put_current sc i x (note_expiry d b1))) l j y) in Hy. by apply touch_lru_live, put_current_live in Hy.
  - exists 0%nat. intros j o Ho. left. change (ovl (touch_lru sc i (put_current sc i x (note_expiry d b1))) j o) in Ho. by apply touch_lru_ovl, put_current_ovl in Ho.
  - intros l j y Hy _. destruct (Hcol l j y Hy) as [Hm _]; [naive_solver|exact Hm].
Qed.

(** ** Peers stay unique *)

Lemma peers_unique_keeps b b' : keeps b b' → peers_unique b → peers_unique b'.
Proof. intros [Hk _] Hu l i j e e' (e1 & H1 & [])%Hk (e2 & H2 & [])%Hk Hp. eapply Hu; [exact H1|exact H2|congruence]. Qed.

Lemma peers_unique_placed b b' l0 i0 x :
  placed b b' l0 i0 x → (∀ i e, live b l0 i e → i ≠ i0 → peer e ≠ peer x) → peers_unique b → peers_unique b'.
Proof.
  intros [Hl _ _] Hx Hu l i j e e' [(-> & -> & ->)|[Hn1 H1]]%Hl [(E & -> & ->)|[Hn2 H2]]%Hl Hp; try done.
  - destruct (decide (j = i0)) as [->|Hj]; [done|]. by destruct (Hx j e' H2 Hj).
  - subst l. destruct (decide (i = i0)) as [->|Hi]; [done|]. by destruct (Hx i e H1 Hi).
  - by eapply Hu.
Qed.
End Install.
