(* ===== verification/SessionBankWorld.v ===== *)
(** * The session bank: every run

    A node's bank over any sequence of operations and reboots, with what its
    AEAD port sealed and the frames it accepted. *)

From S2P Require Import Prelude Types SessionBank SessionBankProps SessionBankRun SessionBankInstall.

(** ** Nonces *)

Lemma zip_lxor_inj (iv xs ys : list Z) :
  length xs = length iv → length ys = length iv → zip_with Z.lxor iv xs = zip_with Z.lxor iv ys → xs = ys.
Proof.
  revert xs ys. induction iv as [|v iv IH]; intros [|x xs] [|y ys] Hx Hy Heq; try done. cbn in *. injection Heq as Hv Heq. f_equal; [|apply IH; [lia|lia|done]].
  rewrite <- (Z.lxor_0_l x), <- (Z.lxor_0_l y), <- (Z.lxor_nilpotent v), !Z.lxor_assoc. by rewrite Hv.
Qed.

(** Two counters of one nonce domain never share a nonce. *)
Lemma aead_nonce_inj iv c d :
  length iv = 12%nat → 0 ≤ c ≤ kMaxAeadCounter → 0 ≤ d ≤ kMaxAeadCounter → aead_nonce iv c = aead_nonce iv d → c = d.
Proof.
  intros Hl Hc Hd. unfold aead_nonce. rewrite !bool_decide_eq_false_2 by lia.
  pose proof (length_be_bytes 6 c) as Lc. pose proof (length_be_bytes 6 d) as Ld. intros Hn. assert (Heq : be_bytes 6 c = be_bytes 6 d).
  { generalize dependent (be_bytes 6 d). generalize dependent (be_bytes 6 c). intros xs Hx ys Hy [= Hn%app_inv_head]. apply zip_lxor_inj in Hn; rewrite ?length_drop; [done|lia..]. } unfold kMaxAeadCounter in *.
  rewrite <- (be_value_be_bytes 64 6 c), <- (be_value_be_bytes 64 6 d) by lia. by rewrite Heq.
Qed.

(** What the port is called with. *)
Definition port_nonce (x : Material * Z) : list Z * result (list Z) := (fst (fst x), aead_nonce (snd (fst x)) (snd x)).

Lemma new_bank_keeps b n m : keeps b (new_bank n m).
Proof.
  apply keeps_sub; [intros [] i e|intros i o]; unfold live, ovl, tb, new_bank; cbn [link_ end_ overlap_]; intros [? _]%lookup_replicate; done.
Qed.
Lemma reset_membership_keeps local salt now b : keeps b (snd (reset_membership local salt now b)).
Proof. unfold reset_membership. apply keeps_bind; [apply not_configured_keeps|]. intros _ b1. apply configure_keeps. Qed.
Lemma allocate_context_id_keeps draw b : keeps b (snd (allocate_context_id draw b)).
Proof. unfold allocate_context_id. apply keeps_bind; [apply not_configured_keeps|]. intros _ b1. apply bank_keeps_refl. Qed.

Create HintDb bank.
#[local] Hint Resolve configure_keeps reset_membership_keeps clear_keeps tick_keeps set_gk_epoch_keeps take_demand_keeps note_demand_keeps
  note_rx_unknown_keeps allocate_context_id_keeps tx_epoch_keeps retire_keeps retire_all_keeps retire_below_generation_keeps evict_idle_end_keeps
  set_pinned_keeps new_bank_keeps : bank.

Section World.
Context (hmac : list Z → list Z → list Z) `{AeadGcm}.

(** The bank, the keys that entered it, the calls that sealed and the frames
    that were accepted. *)
Record World := mkWorld { w_bank : SessionBank; w_tx : list Material; w_rx : list Material; w_sealed : list (Material * Z); w_accepted : list (Material * Z) }.
Definition on_bank (f : SessionBank → SessionBank) (w : World) : World := mkWorld (f (w_bank w)) (w_tx w) (w_rx w) (w_sealed w) (w_accepted w).

Inductive Op :=
  | Configure (local : LocalView) (salt : option (list Z)) (now : Z)
  | ResetMembership (local : LocalView) (salt : option (list Z)) (now : Z)
  | Clear
  | Tick (now : Z)
  | SetGkEpoch (epoch : Z)
  | TakeDemand
  | NoteDemand (sc : SecurityScope) (p : NodeId)
  | NoteRxUnknown (sc : SecurityScope) (p : NodeId)
  | AllocateContextId (draw : nat → option (list Z))
  | TxEpoch (sc : SecurityScope) (p : NodeId)
  | Retire (sc : SecurityScope) (p : NodeId)
  | RetireAll (p : NodeId)
  | RetireBelowGeneration (p : NodeId) (min_generation : Z)
  | EvictIdleEnd
  | SetPinned (sc : SecurityScope) (p : NodeId) (pinned : bool)
  | Reboot
  | Install (k : ContextKeys) (att : InstallAttestation)
  | RestoreEntry (sc : SecurityScope) (p : NodeId) (e : SessionBankEntry)
  | NextCounter (c : SecurityContext)
  | Seal (c : SecurityContext) (counter : Z) (aad plaintext : list Z) (room : nat)
  | Open (c : SecurityContext) (counter : Z) (aad ciphertext tag : list Z) (room : nat).

Definition is_ok {A} (r : result A) : bool := match r with Ok _ => true | Err _ _ => false end.
Definition run_op (op : Op) (w : World) : World :=
  let b := w_bank w in
  match op with
  | Configure local salt now => on_bank (λ b, snd (configure local salt now b)) w
  | ResetMembership local salt now => on_bank (λ b, snd (reset_membership local salt now b)) w
  | Clear => on_bank clear w
  | Tick now => on_bank (λ b, snd (tick now b)) w
  | SetGkEpoch epoch => on_bank (λ b, snd (set_gk_epoch epoch b)) w
  | TakeDemand => on_bank (λ b, snd (take_demand b)) w
  | NoteDemand sc p => on_bank (note_demand sc p) w
  | NoteRxUnknown sc p => on_bank (note_rx_unknown hmac sc p) w
  | AllocateContextId draw => on_bank (λ b, snd (allocate_context_id draw b)) w
  | TxEpoch sc p => on_bank (λ b, snd (tx_epoch hmac sc p b)) w
  | Retire sc p => on_bank (λ b, snd (retire hmac sc p b)) w
  | RetireAll p => on_bank (λ b, snd (retire_all hmac p b)) w
  | RetireBelowGeneration p g => on_bank (λ b, snd (retire_below_generation hmac p g b)) w
  | EvictIdleEnd => on_bank (λ b, snd (evict_idle_end hmac b)) w
  | SetPinned sc p pinned => on_bank (λ b, snd (set_pinned hmac sc p pinned b)) w
  | Reboot => on_bank (λ b, new_bank (length (link_ b)) (length (end_ b))) w
  | Install k att =>
      let '(r, b') := install_verified hmac k att b in
      if is_ok r then mkWorld b' ((ck_tx_key k, ck_tx_iv k) :: w_tx w) ((ck_rx_key k, ck_rx_iv k) :: w_rx w) (w_sealed w) (w_accepted w)
      else on_bank (λ _, b') w
  | RestoreEntry sc p e => on_bank (λ b, snd (restore_entry hmac sc p e b)) w
  | NextCounter c => on_bank (λ b, snd (next_counter hmac c b)) w
  | Seal c counter aad plaintext room =>
      mkWorld (snd (seal hmac c counter aad plaintext room b)) (w_tx w) (w_rx w)
        (match seal_call hmac b c counter plaintext room with Some x => x :: w_sealed w | None => w_sealed w end) (w_accepted w)
  | Open c counter aad ciphertext tag room =>
      let '(r, b') := open hmac c counter aad ciphertext tag room b in
      mkWorld b' (w_tx w) (w_rx w) (w_sealed w)
        (match r, open_holder hmac b c counter ciphertext room with Ok _, Some x => x :: w_accepted w | _, _ => w_accepted w end)
  end.

(** What the callers owe the bank.  [SessionInstaller]: a key is fresh per
    handshake.  A restored image is of a context that was installed, is not
    behind its traffic, and its receive key is not in use. *)
Definition allowed (w : World) (op : Op) : Prop :=
  match op with
  | Install k _ =>
      length (ck_tx_iv k) = 12%nat ∧ (∀ m, m ∈ w_tx w → fst m ≠ ck_tx_key k) ∧ (∀ m, m ∈ w_rx w → fst m ≠ ck_rx_key k)
  | RestoreEntry _ _ e =>
      txm e ∈ w_tx w ∧ (rx_key e, rx_iv e) ∈ w_rx w ∧ 0 ≤ tx_next e ∧
      (∀ c, (txm e, c) ∈ w_sealed w → c < tx_next e) ∧ (∀ c, ((rx_key e, rx_iv e), c) ∈ w_accepted w → replayed (rx_max e) (rx_bitmap e) c = true) ∧
      (∀ q m y z, held (w_bank w) q m y z → m ≠ (rx_key e, rx_iv e))
  | _ => True
  end.
Fixpoint run (ops : list Op) (w : World) : World := match ops with [] => w | op :: ops => run ops (run_op op w) end.
Fixpoint legal (ops : list Op) (w : World) : Prop := match ops with [] => True | op :: ops => allowed w op ∧ legal ops (run_op op w) end.
Definition start (kLinkCapacity kEndCapacity : nat) : World := mkWorld (new_bank kLinkCapacity kEndCapacity) [] [] [] [].

Record world_ok (w : World) : Prop := {
  k_tx : tx_ok (w_bank w) (w_sealed w);
  k_rx : rx_ok (w_bank w) (w_accepted w);
  k_peers : peers_unique (w_bank w);
  k_live l i e : live (w_bank w) l i e → txm e ∈ w_tx w;
  k_held q m y z : held (w_bank w) q m y z → m ∈ w_rx w;
  k_sealed m c : (m, c) ∈ w_sealed w → m ∈ w_tx w ∧ 0 ≤ c < kMaxUseCounter;
  k_accepted m c : (m, c) ∈ w_accepted w → m ∈ w_rx w;
  k_keys m m' : m ∈ w_tx w → m' ∈ w_tx w → fst m = fst m' → m = m';
  k_iv m : m ∈ w_tx w → length (snd m) = 12%nat }.

Lemma keeps_live b b' l i e' : keeps b b' → live b' l i e' → ∃ e, live b l i e ∧ txm e' = txm e.
Proof. intros [Hk _] (e & Hl & [])%Hk. exists e. unfold txm. split; congruence. Qed.
Lemma keeps_held b b' q m y z : keeps b b' → held b' q m y z → held b q m y z.
Proof.
  intros [Hk Ho]. destruct q as [l i|i]; cbn.
  - intros (e' & (e & Hl & [])%Hk & -> & -> & ->). exists e. split_and!; congruence.
  - intros (o & Hx%Ho & ?). eauto.
Qed.

Lemma world_keeps w f : keeps (w_bank w) (f (w_bank w)) → world_ok w → world_ok (on_bank f w).
Proof.
  intros Hk [? ? ? Hl Hh ? ? ? ?]. split; cbn; try done; try (by eapply keeps_tx || by eapply keeps_rx || by eapply peers_unique_keeps).
  - intros l i e He. destruct (keeps_live _ _ _ _ _ Hk He) as (e0 & He0 & ->). by eapply Hl.
  - intros q m y z Hq%(keeps_held _ _ _ _ _ _ Hk). by eapply Hh.
Qed.

(** A context in place of another, or at a free slot. *)
Lemma world_placed w b' l0 i0 x (t r : list Material) :
  placed (w_bank w) b' l0 i0 x → 0 ≤ tx_next x ≤ kMaxUseCounter → reserved x = false →
  (∀ c, (txm x, c) ∈ w_sealed w → c < tx_next x) → (∀ q m y z, held (w_bank w) q m y z → m ≠ (rx_key x, rx_iv x)) →
  (∀ c, ((rx_key x, rx_iv x), c) ∈ w_accepted w → replayed (rx_max x) (rx_bitmap x) c = true) →
  (∀ i e, live (w_bank w) l0 i e → i ≠ i0 → peer e ≠ peer x) →
  txm x ∈ t → (rx_key x, rx_iv x) ∈ r → (∀ m, m ∈ w_tx w → m ∈ t) → (∀ m, m ∈ w_rx w → m ∈ r) →
  (∀ m m', m ∈ t → m' ∈ t → fst m = fst m' → m = m') → (∀ m, m ∈ t → length (snd m) = 12%nat) →
  world_ok w → world_ok (mkWorld b' t r (w_sealed w) (w_accepted w)).
Proof.
  intros Hp Hn Hres Hs Hfresh Ha Hpeer Ht Hr Hst Hsr Hkeys Hiv [Htx Hrx Hpu Hl Hh Hsl Hac _ _]. pose proof Hp as [Hpl [j0 Hpo] _]. split; cbn; try done.
  - by eapply placed_tx.
  - by eapply placed_rx.
  - by eapply peers_unique_placed.
  - intros l i e [(-> & -> & ->)|[_ He]]%Hpl; [done|]. by apply Hst, (Hl l i).
  - intros [l i|i] m y z; cbn.
    + intros (e & [(-> & -> & ->)|[_ He]]%Hpl & -> & -> & ->); [done|]. apply Hsr, (Hh (PCur l i) _ (rx_max e) (rx_bitmap e)). cbn. eauto.
    + intros (o & [Ho|(-> & e & He & E1 & E2 & E3 & E4)]%Hpo & -> & -> & ->); apply Hsr.
      * apply (Hh (POv i) _ (ov_rx_max o) (ov_rx_bitmap o)). cbn. eauto.
      * rewrite E1, E2. apply (Hh (PCur l0 i0) _ (rx_max e) (rx_bitmap e)). cbn. eauto.
  - intros m c Hmc. destruct (Hsl m c Hmc). auto.
  - intros m c Hmc. eauto.
Qed.

(** No other context of the table is for the peer of a slot that was found,
    or of one that was not. *)
Lemma find_slot_peers b sc p i :
  peers_unique b → unicast_scope sc = true → find_slot hmac b sc p = None ∨ find_slot hmac b sc p = Some i →
  ∀ j e, live b (is_link sc) j e → j ≠ i → peer e ≠ p.
Proof.
  intros Hu Hs [Hf|Hf] j e Hl Hj Hp; [by eapply find_slot_none|]. destruct (find_slot_some hmac b sc p i Hf) as (_ & e' & Hl' & Hp' & _).
  apply Hj. eapply (Hu _ _ _ _ _ Hl Hl'). congruence.
Qed.

Lemma install_refused k att b r b' : install_verified hmac k att b = (r, b') → is_ok r = false → b' = b.
Proof.
  unfold install_verified. bank_unfold. destruct (install_check hmac b k att); [|by intros [= <- <-]]. cbv zeta. destruct (expires_after _ _) as [ms b2].
  destruct (match a with Some i => Some i | None => _ end); by intros [= <- <-].
Qed.

Lemma install_world k att w : allowed w (Install k att) → world_ok w → world_ok (run_op (Install k att) w).
Proof.
  intros (Hiv & Hft & Hfr) Hw. cbn [run_op]. destruct (install_verified hmac k att (w_bank w)) as [r b'] eqn:Hi. destruct (is_ok r) eqn:Hr.
  2: { rewrite (install_refused _ _ _ _ _ Hi Hr). by apply (world_keeps w (λ b, b)), Hw; apply bank_keeps_refl. }
  assert (Hkeys : ∀ m m', m ∈ (ck_tx_key k, ck_tx_iv k) :: w_tx w → m' ∈ (ck_tx_key k, ck_tx_iv k) :: w_tx w → fst m = fst m' → m = m').
  { intros m m' [->|Hm]%elem_of_cons [->|Hm']%elem_of_cons E; [done| | |by eapply k_keys]; [by destruct (Hft m' Hm')|by destruct (Hft m Hm)]. }
  assert (Hivs : ∀ m, m ∈ (ck_tx_key k, ck_tx_iv k) :: w_tx w → length (snd m) = 12%nat) by (intros m [->|Hm]%elem_of_cons; [done|by eapply k_iv]).
  destruct (install_spec hmac k att _ r b' Hi) as [->|(i & x & Hp & Etx & En & Eres & Erx & Ep & Hus & Hf & _)].
  - destruct Hw as [? ? ? Hl Hh Hs Ha ? ?]. split; cbn; try done.
    + intros l i e He. apply elem_of_cons. right. by eapply Hl.
    + intros q m y z Hq. apply elem_of_cons. right. by eapply Hh.
    + intros m c Hm. destruct (Hs m c Hm). split; [by apply elem_of_cons; right|done].
    + intros m c Hm. apply elem_of_cons. right. by eapply Ha.
  - apply (world_placed w b' _ _ x _ _ Hp); rewrite ?En, ?Etx, ?Erx; try done.
    + intros c Hc%(k_sealed _ Hw). by destruct (Hft _ (proj1 Hc)).
    + intros q m y z Hq%(k_held _ Hw) ->. by destruct (Hfr _ Hq).
    + intros c Hc%(k_accepted _ Hw). by destruct (Hfr _ Hc).
    + rewrite Ep. apply find_slot_peers; [apply Hw|done|done].
    + by apply elem_of_cons; left.
    + by apply elem_of_cons; left.
    + intros m Hm. by apply elem_of_cons; right.
    + intros m Hm. by apply elem_of_cons; right.
Qed.

Lemma restore_world sc p e w : allowed w (RestoreEntry sc p e) → world_ok w → world_ok (run_op (RestoreEntry sc p e) w).
Proof.
  intros (Ht & Hr & Hpos & Hs & Ha & Hfresh) Hw. cbn [run_op on_bank]. destruct (restore_entry hmac sc p e (w_bank w)) as [r b'] eqn:Hi. unfold on_bank. rewrite Hi. cbn [snd].
  destruct (restore_spec hmac sc p e _ r b' Hi) as [->|(i & x & Hp & Etx & En & Hlt & Eres & Erx & Emax & Ebits & Ep & Hus & Hf & _)].
  - by destruct w.
  - apply (world_placed w b' _ _ x _ _ Hp); rewrite ?En, ?Etx, ?Erx, ?Emax, ?Ebits; try done; try apply Hw; [lia|].
    rewrite Ep. apply find_slot_peers; [apply Hw|done|by left].
Qed.

(** ** Traffic keeps peers and keys in place *)

Definition in_place (b b' : SessionBank) : Prop :=
  (∀ l i e', live b' l i e' → ∃ e, live b l i e ∧ txm e' = txm e ∧ peer e' = peer e) ∧
  (∀ q m y z, held b' q m y z → ∃ y' z', held b q m y' z').
Lemma keeps_in_place b b' : keeps b b' → in_place b b'.
Proof.
  intros Hk. split; [|intros q m y z Hq%(keeps_held _ _ _ _ _ _ Hk); eauto]. destruct Hk as [Hk _]. intros l i e' (e & Hl & [])%Hk. exists e. unfold txm. split_and!; congruence.
Qed.
Lemma put_current_in_place sc i e e' b :
  live b (is_link sc) i e → txm e' = txm e → peer e' = peer e → (rx_key e', rx_iv e') = (rx_key e, rx_iv e) → in_place b (put_current sc i e' b).
Proof.
  intros Hl E1 E2 E3. split.
  - intros l j x [(-> & -> & ->)|[_ Hx]]%put_current_live; eauto.
  - intros [l j|j] m y z; cbn.
    + intros (x & [(-> & -> & ->)|[_ Hx]]%put_current_live & -> & -> & ->); [exists (rx_max e), (rx_bitmap e), e; by rewrite E3|exists (rx_max x), (rx_bitmap x), x; done].
    + intros (o & Ho%put_current_ovl & Hr). exists y, z, o. done.
Qed.
Lemma in_place_lru sc i b b' : in_place b b' → in_place b (touch_lru sc i b').
Proof.
  intros [H1 H2]. split; [intros l j x Hx%touch_lru_live; by apply H1|]. intros [l j|j] m y z; cbn; intros (x & Hx & Hr).
  - apply touch_lru_live in Hx. apply (H2 (PCur l j) m y z). cbn. eauto.
  - apply touch_lru_ovl in Hx. apply (H2 (POv j) m y z). cbn. eauto.
Qed.

Lemma world_in_place w b' S A :
  in_place (w_bank w) b' → tx_ok b' S → rx_ok b' A → (∀ m c, (m, c) ∈ S → m ∈ w_tx w ∧ 0 ≤ c < kMaxUseCounter) → (∀ m c, (m, c) ∈ A → m ∈ w_rx w) →
  world_ok w → world_ok (mkWorld b' (w_tx w) (w_rx w) S A).
Proof.
  intros [Hl Hh] Ht Hr Hs Ha Hw. split; cbn; try done; try apply Hw.
  - intros l i j e e' (e1 & H1 & _ & E1)%Hl (e2 & H2 & _ & E2)%Hl Hp. eapply (k_peers _ Hw); [exact H1|exact H2|congruence].
  - intros l i e (e1 & H1 & -> & _)%Hl. by eapply k_live.
  - intros q m y z (y' & z' & Hq)%Hh. by eapply k_held.
Qed.

Lemma next_counter_in_place c b : in_place b (snd (next_counter hmac c b)).
Proof.
  assert (Hk : ∀ b', keeps b b' → in_place b b') by (intros; by apply keeps_in_place). unfold next_counter. bank_unfold.
  destruct (negb (configured_ b)); [apply Hk, bank_keeps_refl|]. destruct (negb (unicast_scope _)); [apply Hk, bank_keeps_refl|]. destruct (_ || _); [apply Hk, bank_keeps_refl|].
  destruct (find_slot hmac b (scope c) (receiver c)) as [i|] eqn:Hf; [|apply Hk, record_demand_keeps]. destruct (find_slot_some hmac b _ _ i Hf) as (_ & e & Hl & _ & ->).
  destruct (negb (bool_decide _)); [apply Hk, bank_keeps_refl|]. destruct (negb (tx_ready b e)); [apply Hk, record_demand_keeps|]. destruct (bool_decide (kMaxCryptoCounter < _)); [apply Hk, bank_keeps_refl|].
  cbn [snd]. apply in_place_lru, (put_current_in_place _ _ e); done.
Qed.
Lemma seal_in_place c counter aad plaintext room b : in_place b (snd (seal hmac c counter aad plaintext room b)).
Proof.
  unfold seal. bank_unfold. destruct (seal_check hmac b c counter plaintext room) as [[[i e] nonce]|cd d] eqn:Hc; [|apply keeps_in_place, bank_keeps_refl].
  destruct (seal_check_ok _ _ _ _ _ _ _ _ _ Hc) as (Hl & _). destruct (aead_seal _ _ _ _); cbn [snd]; apply (put_current_in_place _ _ e); done.
Qed.
Lemma open_in_place c counter aad ciphertext tag room b : in_place b (snd (open hmac c counter aad ciphertext tag room b)).
Proof.
  unfold open. bank_unfold. destruct (open_check hmac b c counter ciphertext room) as [[h nonce]|cd d] eqn:Hc; [|apply keeps_in_place, bank_keeps_refl].
  destruct (open_check_ok _ _ _ _ _ _ _ _ Hc) as [Hh _]. destruct (aead_open _ _ _ _ _) as [pt|]; [|apply keeps_in_place, bank_keeps_refl]. cbn [snd]. destruct (slide_window _ _ _) as [x y].
  split; [|intros q m my mz Hq; apply (put_window_held _ _ _ _ _ _ _ _ _ Hh) in Hq as [(-> & -> & _)|[_ Hq]]; eauto].
  destruct h as [i e|i o]; cbn [put_window]; [|intros l j f Hf; exists f; by destruct l]. intros l j f [(-> & -> & ->)|[_ Hf]]%put_current_live; [|eauto].
  exists e. split_and!; try done. destruct Hh as (e1 & Hl1 & _). revert Hc. unfold open_check. intros Hc. do 3 (apply guard_err_bind in Hc as [_ Hc]).
  destruct (find_holder hmac b _ _ _) as [z|] eqn:Hf; [|done]. do 4 (apply guard_err_bind in Hc as [_ Hc]). apply result_bind_inv in Hc as (n & _ & [= -> _]). by eapply find_holder_current.
Qed.

Lemma seal_call_ok b c counter plaintext room m d S :
  seal_call hmac b c counter plaintext room = Some (m, d) → tx_ok b S → ∃ l i e, live b l i e ∧ m = txm e ∧ 0 ≤ d < kMaxUseCounter.
Proof.
  unfold seal_call. destruct (seal_check hmac b c counter plaintext room) as [[[i e] nonce]|cd dd] eqn:Hc; [|done]. intros [= <- <-] Ht.
  destruct (seal_check_ok _ _ _ _ _ _ _ _ _ Hc) as (Hl & Hres & -> & _). destruct (t_next _ _ Ht _ _ _ Hl) as [Hn Hp]. specialize (Hp Hres).
  exists (is_link (scope c)), i, e. rewrite wrap_id by (unfold in_range, kMaxUseCounter in *; lia). split_and!; [done..|lia|lia].
Qed.
Lemma open_holder_ok b c counter ciphertext room m d :
  open_holder hmac b c counter ciphertext room = Some (m, d) → ∃ q y z, held b q m y z.
Proof.
  unfold open_holder. destruct (open_check hmac b c counter ciphertext room) as [[h nonce]|cd dd] eqn:Hc; [|done]. intros [= <- <-].
  destruct (open_check_ok _ _ _ _ _ _ _ _ Hc) as [Hh _]. eauto.
Qed.

Lemma run_op_ok op w : allowed w op → world_ok w → world_ok (run_op op w).
Proof.
  intros Ha Hw. destruct op; cbn [run_op]; try (by apply (world_keeps w _), Hw; auto with bank).
  - by apply install_world.
  - by apply restore_world.
  - destruct (next_counter hmac c (w_bank w)) as [r b'] eqn:E. destruct (next_counter_ok hmac _ _ _ _ _ _ E (k_tx _ Hw) (k_rx _ Hw)) as [Ht Hr].
    pose proof (next_counter_in_place c (w_bank w)) as Hp. unfold on_bank. rewrite E in Hp |- *. apply world_in_place; try done; apply Hw.
  - destruct (seal hmac c counter aad plaintext room (w_bank w)) as [r b'] eqn:E. destruct (seal_ok hmac _ _ _ _ _ _ _ _ _ _ E (k_tx _ Hw) (k_rx _ Hw)) as [Ht Hr].
    pose proof (seal_in_place c counter aad plaintext room (w_bank w)) as Hp. rewrite E in Hp. apply world_in_place; try done; try apply Hw.
    intros m d Hm. destruct (seal_call hmac (w_bank w) c counter plaintext room) as [x|] eqn:Hc; [|by apply (k_sealed _ Hw)].
    apply elem_of_cons in Hm as [<-|Hm]; [|by apply (k_sealed _ Hw)]. destruct (seal_call_ok _ _ _ _ _ _ _ _ Hc (k_tx _ Hw)) as (l & i & e & Hl & -> & Hd). split; [by eapply k_live|done].
  - destruct (open hmac c counter aad ciphertext tag room (w_bank w)) as [r b'] eqn:E. destruct (open_ok hmac _ _ _ _ _ _ _ _ _ _ _ E (k_tx _ Hw) (k_rx _ Hw)) as [Ht Hr].
    pose proof (open_in_place c counter aad ciphertext tag room (w_bank w)) as Hp. rewrite E in Hp. apply world_in_place; try done; try apply Hw.
    intros m d Hm. destruct r; [|by eapply (k_accepted _ Hw)]. destruct (open_holder hmac (w_bank w) c counter ciphertext room) as [x|] eqn:Hc; [|by eapply (k_accepted _ Hw)].
    apply elem_of_cons in Hm as [<-|Hm]; [|by eapply (k_accepted _ Hw)]. destruct (open_holder_ok _ _ _ _ _ _ _ Hc) as (q & y & z & Hq). by eapply k_held.
Qed.

Lemma start_ok_world n m : world_ok (start n m).
Proof.
  assert (Hl : ∀ l i e, ¬ live (new_bank n m) l i e) by (intros [] i e; unfold live, tb, new_bank; cbn [link_ end_]; by intros [? _]%lookup_replicate).
  assert (Hh : ∀ q k y z, ¬ held (new_bank n m) q k y z).
  { intros [l i|i] k y z; cbn; [intros (e & He & _); by eapply Hl|]. intros (o & Ho & _). unfold ovl, new_bank in Ho. cbn [overlap_] in Ho. by apply lookup_replicate in Ho as [? _]. }
  split; cbn.
  - split; [intros l i e l' i' e' Hx%Hl|intros l i e Hx%Hl|intros l i e c Hx%Hl|constructor]; done.
  - split; [intros q k y z q' y' z' Hx%Hh|intros q k y z c Hx%Hh|constructor]; done.
  - by intros l i j e e' Hx%Hl.
  - by intros l i e Hx%Hl.
  - by intros q k y z Hx%Hh.
  - by intros k c Hx%not_elem_of_nil.
  - by intros k c Hx%not_elem_of_nil.
  - by intros k k' Hx%not_elem_of_nil.
  - by intros k Hx%not_elem_of_nil.
Qed.
Lemma run_world ops w : legal ops w → world_ok w → world_ok (run ops w).
Proof. revert w. induction ops as [|op ops IH]; intros w; [done|]. intros [Ha Hl] Hw. apply IH; [done|]. by apply run_op_ok. Qed.

(** A sleep image that is restored after the reboot meets what the bank asks
    of a restored context. *)
Lemma sleep_image_allowed ops w sc p e local salt now :
  legal ops w → world_ok w → export_sleep_entry hmac (w_bank (run ops w)) sc p = Ok e →
  legal [Reboot; Configure local salt now; RestoreEntry sc p e] (run ops w).
Proof.
  intros Hl Hw0 He. pose proof (run_world _ _ Hl Hw0) as Hw. cbn [legal]. split_and!; [done..| |done]. unfold export_sleep_entry in He.
  apply result_bind_inv in He as (out & He & Hs). do 2 (apply guard_err_bind in Hs as [_ Hs]). injection Hs as <-. unfold export_entry in He. do 2 (apply guard_err_bind in He as [_ He]).
  destruct (find_current hmac (w_bank (run ops w)) sc p) as [x|] eqn:Hc; [|done]. destruct (entry_usable _ _); [|done]. injection He as <-. apply find_current_slot in Hc as (i & _ & Hx & _).
  assert (Hheld : held (w_bank (run ops w)) (PCur (is_link sc) i) (rx_key x, rx_iv x) (rx_max x) (rx_bitmap x)) by (cbn; eauto).
  cbn [allowed]. split_and!.
  - by apply (k_live _ Hw _ _ _ Hx).
  - by apply (k_held _ Hw _ _ _ _ Hheld).
  - apply (t_next _ _ (k_tx _ Hw) _ _ _ Hx).
  - intros c Hin. by apply (t_used _ _ (k_tx _ Hw) _ _ _ _ Hx).
  - intros c Hin. by apply (r_seen _ _ (k_rx _ Hw) _ _ _ _ _ Hheld).
  - cbn [run_op on_bank w_bank]. intros q m y z Hq%(keeps_held _ _ _ _ _ _ (configure_keeps _ _ _ _)). exfalso. revert Hq. destruct q as [l j|j]; cbn.
    + intros (f & Hf & _). revert Hf. destruct l; unfold live, tb, new_bank; cbn [link_ end_]; by intros [? _]%lookup_replicate.
    + intros (o & Ho & _). unfold ovl, new_bank in Ho. cbn [overlap_] in Ho. by apply lookup_replicate in Ho as [? _].
Qed.

(** Sealed calls of a consistent world have different nonces. *)
Lemma world_nonces w : world_ok w → NoDup (port_nonce <$> w_sealed w).
Proof using.
  intros Hw. apply NoDup_fmap_2_strong; [|apply (t_nodup _ _ (k_tx _ Hw))].
  intros [m c] [m' c'] H1 H2 [= Hkey Hn]. destruct (k_sealed _ Hw _ _ H1) as [Hm Hc], (k_sealed _ Hw _ _ H2) as [Hm' Hc'].
  assert (m = m') as -> by (by apply (k_keys _ Hw)). f_equal. apply (aead_nonce_inj (snd m')); [by apply (k_iv _ Hw)|unfold kMaxUseCounter, kMaxAeadCounter in *; lia..|done].
Qed.

(** C6: in every run of a session bank from empty, through any of its
    operations and reboots, the calls of the AEAD port that seal never repeat
    a nonce under a key. What is asked of the callers is what SessionInstaller
    documents: a transmit or receive key is installed once, and an image that
    is restored is of an installed context, not behind its traffic, with a
    receive key that is not in use. *)
Theorem nonces_never_reused (kLinkCapacity kEndCapacity : nat) (ops : list Op) :
  legal ops (start kLinkCapacity kEndCapacity) → NoDup (port_nonce <$> w_sealed (run ops (start kLinkCapacity kEndCapacity))).
Proof. intros Hl. exact (world_nonces _ (run_world _ _ Hl (start_ok_world _ _))). Qed.

(** C7: in every run of a session bank, with the same duties of the callers, a
    counter is accepted at most once under a receive key: the window follows
    the key into the overlap and into a sleep image. *)
Theorem sessions_accept_once (kLinkCapacity kEndCapacity : nat) (ops : list Op) :
  legal ops (start kLinkCapacity kEndCapacity) → NoDup (w_accepted (run ops (start kLinkCapacity kEndCapacity))).
Proof. intros Hl. pose proof (run_world _ _ Hl (start_ok_world _ _)) as Hw. apply (r_nodup _ _ (k_rx _ Hw)). Qed.
End World.
