(* ===== verification/SessionBankTime.v ===== *)
(** * The session bank: lifetimes

    The bank keeps the low 32 bits of a deadline and scans its tables only
    when the earliest deadline has come.  Every run expires exactly what a
    scan at every tick of 64-bit deadlines would. *)

From S2P Require Import Prelude Types SessionBank SessionBankProps SessionBankRun SessionBankInstall SessionBankWorld.

Inductive Kind := KContext | KOverlap | KDemand.

(** Something of kind [k] with the deadline field [f] is in use. *)
Definition lives (b : SessionBank) (k : Kind) (f : Z) : Prop :=
  match k with
  | KContext => ∃ l i e, live b l i e ∧ remaining_ms e = f
  | KOverlap => ∃ i o, ovl b i o ∧ ov_remaining_ms o = f
  | KDemand => ∃ i d, demand_ b !! i = Some (Some d) ∧ dm_hold_ms d = f
  end.
(** The 64-bit deadline of a field. *)
Definition deadline (b : SessionBank) (f : Z) : Z := last_tick_ b + remaining b f.
Definition lifetime (b : SessionBank) (k : Kind) : Z :=
  match k with KContext => kContextLifetimeMs | KOverlap => kOverlapLifetimeMs | KDemand => demand_hold_ms (local_ b) end.

Record timed (b : SessionBank) : Prop := {
  tm_tick : 0 ≤ last_tick_ b ≤ UINT64_MAX;
  tm_hold : 0 ≤ demand_hold_ms (local_ b) ≤ UINT32_MAX;
  tm_next : next_expiry_ b ≤ UINT64_MAX;
  tm_item k f : lives b k f → next_expiry_ b ≤ deadline b f ≤ UINT64_MAX ∧ remaining b f ≤ lifetime b k }.

Lemma remaining_range b f : 0 ≤ remaining b f ≤ UINT32_MAX.
Proof. unfold remaining, wrap, UINT32_MAX. pose proof (Z.mod_pos_bound (f - u32 (last_tick_ b)) (2 ^ 32) ltac:(lia)). unfold wrap in *. lia. Qed.

Lemma remaining_eq b f d : last_tick_ b ≤ d ≤ last_tick_ b + UINT32_MAX → u32 f = u32 d → remaining b f = d - last_tick_ b.
Proof.
  intros Hd Hf. unfold remaining, wrap, UINT32_MAX in *. rewrite Zminus_mod_idemp_r. rewrite <- Zminus_mod_idemp_l, Hf, Zminus_mod_idemp_l. apply Z.mod_small. lia.
Qed.

(** The clock moves, the deadline stays. *)
Lemma deadline_moves b b' f : last_tick_ b ≤ last_tick_ b' ≤ deadline b f → deadline b' f = deadline b f.
Proof.
  intros Hd. unfold deadline in *. pose proof (remaining_range b f). rewrite (remaining_eq b' f (last_tick_ b + remaining b f)); [lia|lia|].
  unfold remaining, wrap. rewrite Zplus_mod_idemp_r, <- Zplus_mod_idemp_r, Zminus_mod, Zmod_mod, <- Zminus_mod, Zplus_mod_idemp_r. f_equal. lia.
Qed.

Lemma deadline_after_range b dur : 0 ≤ last_tick_ b ≤ UINT64_MAX → 0 ≤ dur →
  last_tick_ b ≤ deadline_after b dur ≤ UINT64_MAX ∧ deadline_after b dur - last_tick_ b ≤ dur.
Proof. unfold deadline_after. intros. destruct (bool_decide_reflect (UINT64_MAX - last_tick_ b < dur)); lia. Qed.

(** ** What an operation other than the clock does *)

(** Whatever is in use was before, or is counted from now and was noted. *)
Record ages (b b' : SessionBank) : Prop := {
  ag_tick : last_tick_ b' = last_tick_ b;
  ag_next : next_expiry_ b' ≤ next_expiry_ b;
  ag_hold : demand_hold_ms (local_ b') = demand_hold_ms (local_ b);
  ag_gk : gk_epoch (local_ b) ≤ gk_epoch (local_ b');
  ag_conf : configured_ b' = configured_ b;
  ag_item k f : lives b' k f → lives b k f ∨
    ∃ dur, 0 ≤ dur ≤ lifetime b k ∧ f = u32 (deadline_after b dur) ∧ next_expiry_ b' ≤ deadline_after b dur }.

Lemma ages_refl b : ages b b.
Proof. split; auto with lia. Qed.
Lemma lifetime_hold b b' k : demand_hold_ms (local_ b') = demand_hold_ms (local_ b) → lifetime b' k = lifetime b k.
Proof. by destruct k. Qed.
Lemma deadline_after_tick b b' dur : last_tick_ b' = last_tick_ b → deadline_after b' dur = deadline_after b dur.
Proof. unfold deadline_after. by intros ->. Qed.
Lemma ages_trans b1 b2 b3 : ages b1 b2 → ages b2 b3 → ages b1 b3.
Proof.
  intros [T1 N1 H1 G1 C1 I1] [T2 N2 H2 G2 C2 I2]. split; try lia; try congruence. intros k f [Hf|(dur & Hd & -> & Hn)]%I2.
  - apply I1 in Hf as [?|(dur & Hd & -> & Hn)]; [by left|right]. exists dur. split_and!; try done; lia.
  - right. rewrite (lifetime_hold b1 b2) in Hd by done. rewrite (deadline_after_tick b1 b2) in * by done. exists dur. done.
Qed.

Lemma ages_timed b b' : ages b b' → timed b → timed b'.
Proof.
  intros [T N Hh _ _ I] [Tk Hd Hn Hi]. assert (Hdl : ∀ f, deadline b' f = deadline b f) by (intros f; unfold deadline, remaining; by rewrite T).
  split; [by rewrite T|by rewrite Hh|lia|]. intros k f Hf. rewrite (lifetime_hold b b') by done. unfold remaining at 1. rewrite T. fold (remaining b f). rewrite Hdl.
  destruct (I k f Hf) as [Hl|(dur & Hr & -> & Hx)]; [destruct (Hi k f Hl); lia|]. destruct (deadline_after_range b dur) as [H1 H2]; [done|lia|].
  assert (dur ≤ UINT32_MAX) by (destruct k; cbn in Hr; unfold kContextLifetimeMs, kOverlapLifetimeMs, UINT32_MAX in *; lia).
  assert (Hrem : remaining b (u32 (deadline_after b dur)) = deadline_after b dur - last_tick_ b) by (apply remaining_eq; [lia|unfold wrap; by rewrite Zmod_mod]).
  unfold deadline. rewrite Hrem. lia.
Qed.

(** The clocks untouched and nothing new. *)
Lemma ages_sub b b' :
  last_tick_ b' = last_tick_ b → next_expiry_ b' = next_expiry_ b → demand_hold_ms (local_ b') = demand_hold_ms (local_ b) → gk_epoch (local_ b) ≤ gk_epoch (local_ b') → configured_ b' = configured_ b →
  (∀ l i e', live b' l i e' → ∃ e, live b l i e ∧ remaining_ms e' = remaining_ms e) →
  (∀ i o', ovl b' i o' → ∃ o, ovl b i o ∧ ov_remaining_ms o' = ov_remaining_ms o) → (∀ i d, demand_ b' !! i = Some (Some d) → demand_ b !! i = Some (Some d)) → ages b b'.
Proof.
  intros T N Hh G C Hl Ho Hd. split; [done|lia|done|done|done|]. intros k f Hf. left. destruct k; cbn in *.
  - destruct Hf as (l & i & e' & (e & He & Ee)%Hl & <-). exists l, i, e. done.
  - destruct Hf as (i & o' & (o & Hx & Eo)%Ho & <-). exists i, o. done.
  - destruct Hf as (i & d & Hx%Hd & <-). eauto.
Qed.
Lemma ages_keeps b b' :
  last_tick_ b' = last_tick_ b → next_expiry_ b' = next_expiry_ b → demand_hold_ms (local_ b') = demand_hold_ms (local_ b) → gk_epoch (local_ b) ≤ gk_epoch (local_ b') → configured_ b' = configured_ b →
  keeps b b' → (∀ i d, demand_ b' !! i = Some (Some d) → demand_ b !! i = Some (Some d)) → ages b b'.
Proof.
  intros T N Hh G C [Hl Ho] Hd. apply ages_sub; try done; [|eauto]. intros l i e' (e & He & [])%Hl. eauto.
Qed.

(** A deadline is noted. *)
Lemma note_expiry_ages b dur : ages b (note_expiry (deadline_after b dur) b).
Proof. split; cbn; [done|lia|done|done|done|]. intros k f Hf. left. by destruct k. Qed.

Lemma record_demand_ages sc p b : 0 ≤ demand_hold_ms (local_ b) → ages b (record_demand sc p b).
Proof.
  intros Hh. unfold record_demand, expires_after.
  set (d := deadline_after b (demand_hold_ms (local_ b))). assert (Hput : ∀ i, ages b (set_demand (<[i := Some (mkDemand p (u32 d) sc)]> (demand_ (note_expiry d b))) (note_expiry d b))).
  { intros i. split; cbn; [done|lia|done|done|done|]. intros [] f; cbn.
    - intros (l & j & e & He & <-). left. exists l, j, e. by destruct l.
    - by left.
    - intros (j & x & [(-> & [= <-] & _)|[_ Hx]]%list_lookup_insert_Some & <-); [right|left; eauto]. exists (demand_hold_ms (local_ b)). cbn. split_and!; [lia|lia|done|lia]. }
  destruct (first_slot _ _); [apply Hput|]. destruct (first_slot _ _); [apply Hput|apply ages_refl].
Qed.
Lemma drop_demand_ages sc p b : ages b (drop_demand sc p b).
Proof.
  apply ages_keeps; try done; [apply drop_demand_keeps|]. intros i d. unfold drop_demand. cbn. rewrite list_lookup_fmap. destruct (demand_ b !! i) as [[x|]|]; cbn; [destruct (demand_is sc p x)|..]; naive_solver.
Qed.
Lemma take_demand_ages b : ages b (snd (take_demand b)).
Proof.
  pose proof (take_demand_keeps b) as Hk. revert Hk. unfold take_demand. destruct (negb (configured_ b)); [intros _; apply ages_refl|].
  destruct (first_slot _ _) as [i|]; [|intros _; apply ages_refl]. destruct (demand_ b !! i) as [[d|]|]; [|intros _; apply ages_refl..].
  intros Hk. apply ages_keeps; try done. intros j x. cbn. apply insert_none_keeps.
Qed.
Lemma note_demand_ages sc p b : 0 ≤ demand_hold_ms (local_ b) → ages b (note_demand sc p b).
Proof. intros. unfold note_demand. case_match; [apply ages_refl|by apply record_demand_ages]. Qed.
Lemma note_rx_unknown_ages hmac sc p b : 0 ≤ demand_hold_ms (local_ b) → ages b (note_rx_unknown hmac sc p b).
Proof.
  intros. unfold note_rx_unknown. destruct (_ || _); [apply ages_refl|]. destruct (_ && _); [apply ages_refl|]. case_match; [apply ages_refl|].
  destruct (demand_pending _ _ _); [|by apply record_demand_ages]. eapply ages_trans; [by apply (record_demand_ages sc p)|]. apply ages_keeps; try done. by apply keeps_tables.
Qed.
Lemma tx_epoch_ages hmac sc p b : 0 ≤ demand_hold_ms (local_ b) → ages b (snd (tx_epoch hmac sc p b)).
Proof. intros. unfold tx_epoch. bank_unfold. repeat (break_goal; cbn [fst snd]; try apply ages_refl); by apply record_demand_ages. Qed.

(** Sequencing. *)
Lemma ages_bind {A B} (m : M SessionBank A) (f : A → M SessionBank B) b :
  ages b (snd (m b)) → (∀ a b', ages b' (snd (f a b'))) → ages b (snd ((m ≫= f) b)).
Proof. intros Hm Hf. unfold mbind, M_bind. destruct (m b) as [[a|c d] b']; [|done]. by eapply ages_trans; [|apply Hf]. Qed.
Lemma not_configured_ages b : ages b (snd (not_configured b)).
Proof. unfold not_configured. bank_unfold. by break_goal; cbn [fst snd]; apply ages_refl. Qed.
Lemma fail_if_ages c x d b : ages b (snd (fail_if c x d b)).
Proof. unfold fail_if. destruct c; apply ages_refl. Qed.

Lemma wipe_slot_ages sc i b : ages b (wipe_slot sc i b).
Proof. apply ages_keeps; [unfold wipe_slot, set_slots; by case_bool_decide..|apply wipe_slot_keeps|]. unfold wipe_slot, set_slots. by case_bool_decide. Qed.
Lemma drop_overlaps_ages f b : ages b (drop_overlaps f b).
Proof. apply ages_keeps; try done. apply drop_overlaps_keeps. Qed.
Lemma retire_ages hmac sc p b : ages b (snd (retire hmac sc p b)).
Proof.
  unfold retire. bank_unfold. do 2 (break_goal; cbn [fst snd]; try apply ages_refl). eapply ages_trans; [|apply drop_demand_ages]. eapply ages_trans; [|apply drop_overlaps_ages].
  destruct (find_slot hmac b sc p); [apply wipe_slot_ages|apply ages_refl].
Qed.
Lemma retire_all_ages hmac p b : ages b (snd (retire_all hmac p b)).
Proof. unfold retire_all. apply ages_bind; [apply not_configured_ages|]. intros _ b1. apply ages_bind; [apply retire_ages|]. intros _ b2. apply retire_ages. Qed.
Lemma retire_if_older_ages hmac sc p g b : ages b (snd (retire_if_older hmac sc p g b)).
Proof.
  unfold retire_if_older. unfold mbind at 1, M_bind at 1, getS. destruct (find_current hmac b sc p); [|apply ages_refl]. case_bool_decide; [|apply ages_refl].
  apply ages_bind; [apply retire_ages|]. intros _ b1. apply ages_refl.
Qed.
Lemma retire_below_generation_ages hmac p g b : ages b (snd (retire_below_generation hmac p g b)).
Proof.
  unfold retire_below_generation. apply ages_bind; [apply not_configured_ages|]. intros _ b1. apply ages_bind; [apply fail_if_ages|]. intros _ b2.
  apply ages_bind; [apply retire_if_older_ages|]. intros x b3. apply ages_bind; [apply retire_if_older_ages|]. intros y b4. apply ages_bind; [apply drop_overlaps_ages|].
  intros _ b5. apply ages_refl.
Qed.
Lemma evict_idle_end_ages hmac b : ages b (snd (evict_idle_end hmac b)).
Proof.
  unfold evict_idle_end. apply ages_bind; [apply not_configured_ages|]. intros _ b1. unfold mbind at 1, M_bind at 1, getS.
  destruct (evict_victim _ _ _ _) as [i|]; [|apply ages_refl]. destruct (end_ b1 !! i) as [[e|]|]; [|apply ages_refl..]. apply ages_bind; [apply retire_ages|]. intros _ b2. apply ages_refl.
Qed.

(** ** Contexts *)

Lemma put_current_ages sc i e e' b : live b (is_link sc) i e → remaining_ms e' = remaining_ms e → ages b (put_current sc i e' b).
Proof.
  intros Hl E. apply ages_sub; try (unfold put_current, set_slots; by case_bool_decide).
  - intros l j x [(-> & -> & ->)|[_ Hx]]%put_current_live; eauto.
  - intros j o Ho%put_current_ovl. eauto.
Qed.
Lemma touch_lru_ages sc i b : ages b (touch_lru sc i b).
Proof. unfold touch_lru. case_bool_decide; [|apply ages_refl]. apply ages_keeps; try done. by apply keeps_tables. Qed.
(** A context counted from now. *)
Lemma put_new_ages sc i x s dur b :
  0 ≤ dur ≤ kContextLifetimeMs → remaining_ms x = u32 (deadline_after b dur) → ages b (put_current sc i x (set_serial s (note_expiry (deadline_after b dur) b))).
Proof.
  intros Hd Hx. set (b1 := set_serial s _). assert (Hb1 : ages b b1) by (eapply ages_trans; [apply (note_expiry_ages b dur)|]; apply ages_keeps; try done; by apply keeps_tables).
  assert (E : last_tick_ (put_current sc i x b1) = last_tick_ b1 ∧ next_expiry_ (put_current sc i x b1) = next_expiry_ b1 ∧ local_ (put_current sc i x b1) = local_ b1 ∧ demand_ (put_current sc i x b1) = demand_ b1 ∧ configured_ (put_current sc i x b1) = configured_ b1)
    by (unfold put_current, set_slots; by case_bool_decide).
  destruct E as (E1 & E2 & E3 & E4 & E5), Hb1 as [T N Hh G C I]. split; [congruence|congruence|by rewrite E3|by rewrite E3|congruence|]. intros k f Hf. rewrite E2. destruct k; cbn in Hf.
  - destruct Hf as (l & j & e & [(-> & -> & ->)|[_ He]]%put_current_live & <-); [right; exists dur; split_and!; try done; try lia; cbn; lia|]. apply (I KContext). cbn. eauto.
  - destruct Hf as (j & o & Ho%put_current_ovl & <-). apply (I KOverlap). cbn. eauto.
  - destruct Hf as (j & d & Hj & <-). rewrite E4 in Hj. apply (I KDemand). cbn. eauto.
Qed.

Lemma demote_ages sc e b : ages b (demote sc e b).
Proof.
  unfold demote, expires_after. destruct (first_slot is_none (overlap_ b)) as [i|]; [|apply ages_refl].
  set (dur := if bool_decide _ then _ else _). assert (Hdur : 0 ≤ dur ≤ kOverlapLifetimeMs).
  { subst dur. pose proof (remaining_range b (remaining_ms e)). destruct (bool_decide_reflect (kOverlapLifetimeMs < remaining b (remaining_ms e))); unfold kOverlapLifetimeMs in *; lia. }
  split; cbn; [done|lia|done|done|done|]. intros [] f; cbn.
  - intros (l & j & x & Hx & <-). left. exists l, j, x. by destruct l.
  - intros (j & o & Ho & <-). unfold ovl in Ho. cbn in Ho. apply list_lookup_insert_Some in Ho as [(-> & [= <-] & _)|[_ Ho]]; [right|left; eauto].
    exists dur. cbn. split_and!; [lia|lia|done|lia].
  - by left.
Qed.

Lemma install_ages hmac k att b : ages b (snd (install_verified hmac k att b)).
Proof.
  unfold install_verified. bank_unfold. destruct (install_check hmac b k att) as [existing|c d]; [|apply ages_refl]. cbv zeta.
  set (b1 := match find_current hmac b (ck_scope k) (ck_peer k) with Some e => demote (ck_scope k) e b | None => b end).
  assert (H1 : ages b b1) by (unfold b1; destruct (find_current _ _ _ _); [apply demote_ages|apply ages_refl]). unfold expires_after.
  destruct (match existing with Some i => Some i | None => _ end) as [i|]; [|apply ages_refl]. cbn [snd].
  eapply ages_trans; [exact H1|]. eapply ages_trans; [|apply drop_demand_ages]. eapply ages_trans; [|apply touch_lru_ages]. apply put_new_ages; [unfold kContextLifetimeMs; lia|done].
Qed.
Lemma restore_ages hmac sc p e b : 0 ≤ remaining_ms e → ages b (snd (restore_entry hmac sc p e b)).
Proof.
  intros Hpos. unfold restore_entry. bank_unfold. destruct (restore_check hmac b sc p e) as [i|c d] eqn:Hc; [|apply ages_refl]. unfold expires_after. cbn [snd].
  assert (Hl : remaining_ms e ≤ kContextLifetimeMs).
  { revert Hc. unfold restore_check. intros Hc. do 4 (apply guard_err_bind in Hc as [_ Hc]). apply guard_err_bind in Hc as [Hg _]. apply orb_false_iff in Hg as [_ Hg].
    apply bool_decide_eq_false in Hg. lia. }
  eapply ages_trans; [|apply drop_demand_ages]. eapply ages_trans; [|apply touch_lru_ages]. apply (put_new_ages sc i _ (next_serial b) (remaining_ms e)); done.
Qed.
Lemma set_pinned_ages hmac sc p pinned b : ages b (snd (set_pinned hmac sc p pinned b)).
Proof.
  unfold set_pinned. apply ages_bind; [apply not_configured_ages|]. intros _ b1. unfold mbind at 1, M_bind at 1, getS.
  destruct (find_slot hmac b1 sc p) as [i|] eqn:Hf; [|apply ages_refl]. destruct (find_slot_some hmac b1 sc p i Hf) as (_ & e & Hl & _ & ->). unfold putS. cbn [snd].
  by apply (put_current_ages _ _ e).
Qed.
Lemma set_gk_epoch_ages epoch b : ages b (snd (set_gk_epoch epoch b)).
Proof.
  pose proof (set_gk_epoch_keeps epoch b) as Hk. revert Hk. unfold set_gk_epoch. bank_unfold. destruct (negb (configured_ b)); cbn [fst snd]; [intros _; apply ages_refl|].
  destruct (bool_decide_reflect (epoch < gk_epoch (local_ b))) as [|Hge]; cbn [fst snd]; [intros _; apply ages_refl|].
  destruct (bool_decide (epoch = _)); intros Hk; apply ages_keeps; try done; cbn; lia.
Qed.
Lemma next_counter_ages hmac c b : 0 ≤ demand_hold_ms (local_ b) → ages b (snd (next_counter hmac c b)).
Proof.
  intros Hh. unfold next_counter. bank_unfold. destruct (negb (configured_ b)); [apply ages_refl|]. destruct (negb (unicast_scope _)); [apply ages_refl|]. destruct (_ || _); [apply ages_refl|].
  destruct (find_slot hmac b (scope c) (receiver c)) as [i|] eqn:Hf; [|by apply record_demand_ages]. destruct (find_slot_some hmac b _ _ i Hf) as (_ & e & Hl & _ & ->).
  destruct (negb (bool_decide _)); [apply ages_refl|]. destruct (negb (tx_ready b e)); [by apply record_demand_ages|]. destruct (bool_decide (kMaxCryptoCounter < _)); [apply ages_refl|].
  cbn [snd]. eapply ages_trans; [|apply touch_lru_ages]. by apply (put_current_ages _ _ e).
Qed.
Lemma seal_ages hmac `{AeadGcm} c counter aad plaintext room b : ages b (snd (seal hmac c counter aad plaintext room b)).
Proof.
  unfold seal. bank_unfold. destruct (seal_check hmac b c counter plaintext room) as [[[i e] nonce]|cd d] eqn:Hc; [|apply ages_refl].
  destruct (seal_check_ok _ _ _ _ _ _ _ _ _ Hc) as (Hl & _). destruct (aead_seal _ _ _ _); cbn [snd]; by apply (put_current_ages _ _ e).
Qed.
Lemma open_ages hmac `{AeadGcm} c counter aad ciphertext tag room b : ages b (snd (open hmac c counter aad ciphertext tag room b)).
Proof.
  unfold open. bank_unfold. destruct (open_check hmac b c counter ciphertext room) as [[h nonce]|cd d] eqn:Hc; [|apply ages_refl].
  destruct (aead_open _ _ _ _ _) as [pt|]; [|apply ages_refl]. cbn [snd]. revert Hc. unfold open_check. intros Hc. do 3 (apply guard_err_bind in Hc as [_ Hc]).
  destruct (find_holder hmac b _ _ _) as [z|] eqn:Hf; [|done]. do 4 (apply guard_err_bind in Hc as [_ Hc]). apply result_bind_inv in Hc as (n & _ & [= -> _]).
  destruct h as [i e|i o]; cbn [put_window]; [apply find_holder_current in Hf; by apply (put_current_ages _ _ e)|]. apply find_holder_overlap in Hf.
  apply ages_sub; try done; [intros l j e He; exists e; by destruct l|]. intros j x. unfold ovl. cbn. intros [(-> & [= <-] & _)|[_ Hx]]%list_lookup_insert_Some; eauto.
Qed.

(** ** The clock *)

Lemma expire_spec {A} b now (life : A → Z) t next t' next' :
  0 ≤ last_tick_ b → (∀ i x, t !! i = Some (Some x) → deadline b (life x) ≤ UINT64_MAX) → expire b now life t next = (t', next') →
  next' ≤ next ∧
  ∀ i x, (t' !! i = Some (Some x) ↔ t !! i = Some (Some x) ∧ now < deadline b (life x)) ∧ (t' !! i = Some (Some x) → next' ≤ deadline b (life x)).
Proof.
  intros Hpos. revert next t' next'. induction t as [|s t IH]; intros next t' next' Hd; cbn [expire]; [intros [= <- <-]; split; [lia|]; naive_solver|].
  assert (Hdt : ∀ i x, t !! i = Some (Some x) → deadline b (life x) ≤ UINT64_MAX) by (intros i x Hx; apply (Hd (S i) x Hx)).
  (* a slot that stays or goes *)
  assert (Hstep : ∀ n y, n ≤ next → (let '(t0, n0) := expire b now life t n in (y :: t0, n0)) = (t', next') →
            (∀ x, y = Some x ↔ s = Some x ∧ now < deadline b (life x)) → (∀ x, y = Some x → n ≤ deadline b (life x)) →
            next' ≤ next ∧ ∀ i x, (t' !! i = Some (Some x) ↔ (s :: t) !! i = Some (Some x) ∧ now < deadline b (life x)) ∧ (t' !! i = Some (Some x) → next' ≤ deadline b (life x))).
  { intros n y Hn. destruct (expire b now life t n) as [t0 n0] eqn:E. intros [= <- <-] Hy Hny. destruct (IH _ _ _ Hdt E) as [Hle Hall]. split; [lia|].
    intros [|i] x; [|apply Hall]. cbn. split; [|intros [= ->]; specialize (Hny x eq_refl); lia]. specialize (Hy x). split; [intros [= ->]|intros [[= ->] ?]; f_equal]; naive_solver. }
  destruct s as [y|]; [|intros He; apply (Hstep next None ltac:(lia) He); naive_solver]. unfold due. pose proof (Hd 0%nat y eq_refl) as Hy. unfold deadline in Hy at 1. pose proof (remaining_range b (life y)).
  destruct (bool_decide_reflect (remaining b (life y) ≤ now - last_tick_ b)) as [Hgone|Hleft]; intros He.
  - apply (Hstep next None ltac:(lia) He); [|done]. intros x. split; [done|]. intros [[= ->] Hx]. unfold deadline in Hx. lia.
  - assert (Hu : u64 (last_tick_ b + remaining b (life y)) = deadline b (life y)) by (unfold deadline; apply wrap_id; unfold in_range, UINT64_MAX in *; lia). rewrite Hu in He.
    assert (Hmin : (if bool_decide (deadline b (life y) < next) then deadline b (life y) else next) ≤ Z.min (deadline b (life y)) next) by (case_bool_decide; lia).
    apply (Hstep _ _ ltac:(etrans; [exact Hmin|apply Z.le_min_r]) He).
    + intros x. split; [|naive_solver]. intros [= <-]. split; [done|]. unfold deadline. lia.
    + intros x [= <-]. lia.
Qed.

(** The tables after a tick hold exactly what is not yet due. *)
Record aged (b b' : SessionBank) (now : Z) : Prop := {
  a_live l i e : live b' l i e ↔ live b l i e ∧ now < deadline b (remaining_ms e);
  a_ovl i o : ovl b' i o ↔ ovl b i o ∧ now < deadline b (ov_remaining_ms o);
  a_demand i d : demand_ b' !! i = Some (Some d) ↔ demand_ b !! i = Some (Some d) ∧ now < deadline b (dm_hold_ms d) }.

Lemma aged_lives b b' now k f : aged b b' now → lives b' k f → lives b k f ∧ now < deadline b f.
Proof.
  intros [Hl Ho Hd]. destruct k; cbn.
  - intros (l & i & e & [He ?]%Hl & <-). eauto 8.
  - intros (i & o & [Hx ?]%Ho & <-). eauto 8.
  - intros (i & d & [Hx ?]%Hd & <-). eauto 8.
Qed.

(** The tables are as before and nothing is due. *)
Lemma aged_same b now b' :
  timed b → now < next_expiry_ b → link_ b' = link_ b → end_ b' = end_ b → overlap_ b' = overlap_ b → demand_ b' = demand_ b → aged b b' now.
Proof.
  intros Ht Hn El Ee Eo Ed. split.
  - intros l i e. unfold live, tb. destruct l; rewrite ?El, ?Ee; (split; [|naive_solver]); intros He; (split; [done|]);
      [pose proof (tm_item _ Ht KContext (remaining_ms e)) as Hi|pose proof (tm_item _ Ht KContext (remaining_ms e)) as Hi]; (destruct Hi; [|lia]); [exists true, i, e|exists false, i, e]; done.
  - intros i o. unfold ovl. rewrite Eo. split; [|naive_solver]. intros He. split; [done|]. destruct (tm_item _ Ht KOverlap (ov_remaining_ms o)); [by exists i, o|lia].
  - intros i d. rewrite Ed. split; [|naive_solver]. intros He. split; [done|]. destruct (tm_item _ Ht KDemand (dm_hold_ms d)); [by exists i, d|lia].
Qed.

Lemma tick_spec now b b' : timed b → tick now b = (Ok tt, b') →
  aged b b' now ∧ last_tick_ b' = now ∧ last_tick_ b ≤ now ∧ local_ b' = local_ b ∧ next_expiry_ b' ≤ UINT64_MAX ∧ ∀ k f, lives b' k f → next_expiry_ b' ≤ deadline b f.
Proof.
  intros Ht. unfold tick. bank_unfold. destruct (negb (configured_ b)); [done|]. destruct (bool_decide_reflect (now < last_tick_ b)) as [|Hclk]; [done|].
  destruct (bool_decide_reflect (now < next_expiry_ b)) as [Hn|Hn].
  - intros [= <-]. assert (Ha : aged b (set_times now (next_expiry_ b) (expiry_slots_scanned_ b) b) now) by (by apply aged_same). split_and!; try done; [lia|apply Ht|].
    intros k f Hf. apply (aged_lives _ _ _ _ _ Ha) in Hf as [Hf _]. cbn. destruct (tm_item _ Ht k f Hf). lia.
  - cbv zeta. destruct (expire b now remaining_ms (link_ b) UINT64_MAX) as [l n1] eqn:E1. destruct (expire b now remaining_ms (end_ b) n1) as [e n2] eqn:E2.
    destruct (expire b now ov_remaining_ms (overlap_ b) n2) as [o n3] eqn:E3. destruct (expire b now dm_hold_ms (demand_ b) n3) as [d n4] eqn:E4. intros [= <-]. destruct (tm_tick _ Ht) as [Hp _].
    assert (Hlive : ∀ q i x, live b q i x → deadline b (remaining_ms x) ≤ UINT64_MAX) by (intros q i x Hx; apply (tm_item _ Ht KContext (remaining_ms x)); by exists q, i, x).
    apply expire_spec in E1 as [N1 A1]; [|done|intros i x; apply (Hlive true)]. apply expire_spec in E2 as [N2 A2]; [|done|intros i x; apply (Hlive false)].
    apply expire_spec in E3 as [N3 A3]; [|done|intros i x Hx; apply (tm_item _ Ht KOverlap (ov_remaining_ms x)); by exists i, x].
    apply expire_spec in E4 as [N4 A4]; [|done|intros i x Hx; apply (tm_item _ Ht KDemand (dm_hold_ms x)); by exists i, x].
    split_and!; try done; [|lia|cbn; lia|].
    + split; [intros [] i x; [apply A1|apply A2]|intros i x; apply A3|intros i x; apply A4].
    + intros [] f; cbn.
      * intros ([] & i & x & Hx & <-); [destruct (A1 i x) as [_ H1]|destruct (A2 i x) as [_ H1]]; specialize (H1 Hx); lia.
      * intros (i & x & Hx & <-). destruct (A3 i x) as [_ H1]. specialize (H1 Hx). lia.
      * intros (i & x & Hx & <-). destruct (A4 i x) as [_ H1]. by specialize (H1 Hx).
Qed.

Lemma tick_timed now b : now ≤ UINT64_MAX → timed b → timed (snd (tick now b)).
Proof.
  intros Hnow Ht. destruct (tick now b) as [[[]|c d] b'] eqn:E.
  - destruct (tick_spec now b b' Ht E) as (Ha & Hl & Hle & Hloc & Hn & Hi). cbn [snd]. pose proof (tm_tick _ Ht). split; [lia|rewrite Hloc; apply Ht|done|].
    intros k f Hf. pose proof (Hi k f Hf). destruct (aged_lives _ _ _ _ _ Ha Hf) as [Hf' Hdue]. destruct (tm_item _ Ht k f Hf') as [Hd Hr].
    pose proof (deadline_moves b b' f ltac:(lia)) as Hm. unfold deadline in Hm, Hd. assert (lifetime b' k = lifetime b k) as -> by (by apply lifetime_hold; rewrite Hloc). unfold deadline in *. lia.
  - replace b' with b; [done|]. revert E. unfold tick. bank_unfold. destruct (negb (configured_ b)); [by intros [= _ _ <-]|].
    destruct (bool_decide (now < last_tick_ b)); [by intros [= _ _ <-]|]. destruct (bool_decide (now < next_expiry_ b)); [done|].
    cbv zeta. by do 4 destruct (expire _ _ _ _ _).
Qed.

(** ** Runs *)

Lemma timed_empty b :
  0 ≤ last_tick_ b ≤ UINT64_MAX → 0 ≤ demand_hold_ms (local_ b) ≤ UINT32_MAX → next_expiry_ b ≤ UINT64_MAX →
  (∀ l i e, ¬ live b l i e) → (∀ i o, ¬ ovl b i o) → (∀ i d, demand_ b !! i ≠ Some (Some d)) → timed b.
Proof. intros ? ? ? Hl Ho Hd. split; try done. intros [] f; cbn; [intros (? & ? & ? & []%Hl & _)|intros (? & ? & []%Ho & _)|intros (? & ? & []%Hd & _)]. Qed.

Lemma new_bank_timed n m : timed (new_bank n m).
Proof.
  apply timed_empty; cbn [last_tick_ new_bank next_expiry_ local_ demand_hold_ms]; try (unfold UINT64_MAX, UINT32_MAX; lia).
  - intros [] i e; unfold live, tb, new_bank; cbn [link_ end_]; by intros [? _]%lookup_replicate.
  - intros i o. unfold ovl, new_bank. cbn [overlap_]. by intros [? _]%lookup_replicate.
  - intros i d. cbn [demand_]. by intros [? _]%lookup_replicate.
Qed.
Lemma clear_timed b : timed b → timed (clear b).
Proof.
  intros [? ? _ _]. apply timed_empty; try done.
  - intros [] i e; unfold live, tb, clear, wipe_all; cbn [link_ end_]; by intros ?%wiped_lookup.
  - intros i o. unfold ovl, clear, wipe_all. cbn [overlap_]. by intros ?%wiped_lookup.
  - intros i d. cbn. by intros ?%wiped_lookup.
Qed.
Lemma configure_timed local salt now b :
  0 ≤ demand_hold_ms local ≤ UINT32_MAX → 0 ≤ now ≤ UINT64_MAX → timed b → timed (snd (configure local salt now b)).
Proof.
  intros Hh Hn Ht. unfold configure. bank_unfold. destruct (_ || _); [done|]. destruct salt; [|done]. cbn [snd]. apply timed_empty; try done.
  - intros [] i e; unfold live, tb, wipe_all; cbn [link_ end_]; by intros ?%wiped_lookup.
  - intros i o. unfold ovl, wipe_all. cbn [overlap_]. by intros ?%wiped_lookup.
  - intros i d. cbn. by intros ?%wiped_lookup.
Qed.
Lemma reset_membership_timed local salt now b :
  0 ≤ demand_hold_ms local ≤ UINT32_MAX → 0 ≤ now ≤ UINT64_MAX → timed b → timed (snd (reset_membership local salt now b)).
Proof.
  intros Hh Hn Ht. pose proof (configure_timed local salt now b Hh Hn Ht) as Hc. unfold reset_membership, not_configured. unfold mbind, M_bind, getS, fail_if. by destruct (negb (configured_ b)).
Qed.

Section Runs.
Context (hmac : list Z → list Z → list Z) `{AeadGcm}.

(** The widths of the arguments. *)
Definition typed (op : Op) : Prop :=
  match op with
  | Configure local _ now | ResetMembership local _ now => 0 ≤ demand_hold_ms local ≤ UINT32_MAX ∧ 0 ≤ now ≤ UINT64_MAX
  | Tick now => 0 ≤ now ≤ UINT64_MAX
  | RestoreEntry _ _ e => 0 ≤ remaining_ms e
  | _ => True
  end.

Lemma run_op_timed op w : typed op → timed (w_bank w) → timed (w_bank (run_op hmac op w)).
Proof.
  intros Hop Ht. assert (Ha : ∀ b', ages (w_bank w) b' → timed b') by (intros; by eapply ages_timed). pose proof (proj1 (tm_hold _ Ht)) as Hh.
  destruct op; cbn [run_op on_bank w_bank typed] in *.
  1: destruct Hop; by apply configure_timed.
  1: destruct Hop; by apply reset_membership_timed.
  1: by apply clear_timed.
  1: destruct Hop; by apply tick_timed.
  12: apply new_bank_timed.
  all: apply Ha.
  - apply set_gk_epoch_ages.
  - apply take_demand_ages.
  - by apply note_demand_ages.
  - by apply note_rx_unknown_ages.
  - unfold allocate_context_id. apply ages_bind; [apply not_configured_ages|]. intros _ b1. apply ages_refl.
  - by apply tx_epoch_ages.
  - apply retire_ages.
  - apply retire_all_ages.
  - apply retire_below_generation_ages.
  - apply evict_idle_end_ages.
  - apply set_pinned_ages.
  - pose proof (install_ages hmac k att (w_bank w)) as Hi. destruct (install_verified hmac k att (w_bank w)) as [r b']. by destruct (is_ok r).
  - by apply restore_ages.
  - by apply next_counter_ages.
  - apply seal_ages.
  - pose proof (open_ages hmac c counter aad ciphertext tag room (w_bank w)) as Hi. by destruct (open _ _ _ _ _ _ _ _) as [r b'].
Qed.
Lemma run_timed ops w : Forall typed ops → timed (w_bank w) → timed (w_bank (run hmac ops w)).
Proof. intros Hops. revert w. induction Hops as [|op ops Hop _ IH]; intros w Ht; [done|]. cbn [run]. apply IH. by apply run_op_timed. Qed.

(** C10: in every reachable bank a successful tick leaves exactly the
    contexts, overlaps and demands that are not yet due, as a scan of 64-bit
    deadlines at each tick would, whether or not it scanned; the deadlines of
    what stays do not move, and none is further away than 24 hours, one minute
    or the demand hold. *)
Theorem tick_expires_exactly (kLinkCapacity kEndCapacity : nat) (ops : list Op) (now : Z) (b' : SessionBank) :
  let b := w_bank (run hmac ops (start kLinkCapacity kEndCapacity)) in
  Forall typed ops → tick now b = (Ok tt, b') →
  aged b b' now ∧ (∀ k f, lives b' k f → deadline b' f = deadline b f) ∧ (∀ k f, lives b k f → deadline b f ≤ last_tick_ b + lifetime b k).
Proof.
  intros b Hops Htick. assert (Ht : timed b) by (apply run_timed; [done|apply new_bank_timed]). destruct (tick_spec now b b' Ht Htick) as (Ha & Hl & Hle & _). split_and!; [done| |].
  - intros k f [_ Hd]%(aged_lives _ _ _ _ _ Ha). apply deadline_moves. lia.
  - intros k f Hf. destruct (tm_item _ Ht k f Hf). unfold deadline. lia.
Qed.
End Runs.
