(* ===== verification/SessionBankChannel.v ===== *)
(** * The session bank: two banks

    A node that seals and a node that opens under matching contexts. *)

From S2P Require Import Prelude Types SessionBank SessionBankProps SessionBankRun SessionBankInstall SessionBankWorld SessionBankTime.

Lemma find_ext {A} (f g : A → bool) l : (∀ x, f x = g x) → List.find f l = List.find g l.
Proof. intros Hx. induction l as [|x l IH]; [done|]. cbn. by rewrite Hx, IH. Qed.

(** A counter above every accepted one stays unseen. *)
Lemma slide_window_unseen maximum bits c x y d :
  slide_window maximum bits c = (x, y) → c < d → replayed maximum bits d = false → replayed x y d = false.
Proof.
  unfold slide_window, replayed. destruct (bool_decide_reflect (maximum < c)) as [Hlt|Hge]; intros [= <- <-] Hd Hr.
  - by rewrite bool_decide_eq_false_2 by lia.
  - destruct (bool_decide_reflect (d ≤ maximum)) as [Hle|]; [|done]. cbn [andb] in *. apply orb_false_iff in Hr as [-> Hr]. cbn [orb]. rewrite Z.lor_spec, Hr. cbn [orb].
    rewrite Z.shiftl_1_l. apply Z.pow2_bits_false. lia.
Qed.

Section Channel.
Context (hmac : list Z → list Z → list Z) `{AeadGcm}.

(** The context of a peer in place of another of the same peer. *)
Lemma find_slot_put b sc i e e' p q :
  live b (is_link sc) i e → peer e' = peer e → find_slot hmac (put_current sc i e' b) q p = find_slot hmac b q p.
Proof.
  intros Hl Hp. unfold find_slot. destruct (negb (unicast_scope q)); [done|].
  assert (Hlen : length (slots (put_current sc i e' b) q) = length (slots b q)).
  { unfold put_current, set_slots, slots. destruct (bool_decide (sc = Link)), (bool_decide (q = Link)); cbn; by rewrite ?length_insert. }
  assert (Hhash : hash_start hmac (put_current sc i e' b) q p = hash_start hmac b q p).
  { unfold hash_start. rewrite Hlen. unfold put_current, set_slots. by destruct (bool_decide (sc = Link)). }
  rewrite Hhash, Hlen. apply find_ext. intros j. unfold holds. rewrite !slots_tb.
  destruct (tb (put_current sc i e' b) (is_link q) !! j) as [[x|]|] eqn:E.
  - destruct (put_current_live sc i e' b _ _ _ E) as [(Eq & -> & ->)|[_ Hx]]; [rewrite Eq|]; [|by rewrite Hx]. rewrite Hl. by rewrite Hp.
  - destruct (tb b (is_link q) !! j) as [[y|]|] eqn:E2; [|done..]. exfalso. destruct (decide (is_link q = is_link sc ∧ j = i)) as [[E3 ->]|Hne].
    + rewrite E3 in E. rewrite <- slots_tb in E. unfold put_current, set_slots, slots in E. unfold live in Hl. rewrite <- slots_tb in Hl. unfold slots in Hl.
      destruct (bool_decide (sc = Link)); cbn in E; rewrite list_lookup_insert_eq in E by (by eapply lookup_lt_Some); done.
    + revert E E2 Hne. unfold put_current, set_slots, slots, tb, is_link. destruct (bool_decide (sc = Link)), (bool_decide (q = Link)); cbn; intros E E2 Hne; try congruence;
        (rewrite list_lookup_insert_ne in E by (intros ->; by apply Hne)); congruence.
  - destruct (tb b (is_link q) !! j) as [[y|]|] eqn:E2; [|done..]. exfalso. apply lookup_ge_None in E. apply lookup_lt_Some in E2. rewrite <- !slots_tb in *. lia.
Qed.
Lemma find_slot_lru b sc i q p : find_slot hmac (touch_lru sc i b) q p = find_slot hmac b q p.
Proof. unfold touch_lru. by destruct (bool_decide (sc = EndToEnd)). Qed.

(** The context that was put is found. *)
Lemma find_current_put b sc i e e' p :
  find_slot hmac b sc p = Some i → find_current hmac b sc p = Some e → peer e' = peer e → find_current hmac (put_current sc i e' b) sc p = Some e'.
Proof.
  intros Hf Hc Hp. apply find_current_slot in Hc as (j & Hj & Hl & _). rewrite Hf in Hj. injection Hj as <-.
  assert (Hf' : find_slot hmac (put_current sc i e' b) sc p = Some i) by (by rewrite (find_slot_put b sc i e e')).
  unfold find_current. rewrite Hf'. cbn [mbind option_bind]. rewrite slots_tb. assert (Hx : live (put_current sc i e' b) (is_link sc) i e') by (apply put_current_at; rewrite slots_tb; by eapply lookup_lt_Some).
  unfold live in Hx. by rewrite Hx.
Qed.

(** ** The two ends *)

Record tx_end (b : SessionBank) (c : SecurityContext) (e : SessionBankEntry) : Prop := {
  te_conf : configured_ b = true; te_scope : unicast_scope (scope c) = true; te_net : map_network b (network c) = true;
  te_self : sender c = self (local_ b); te_peer : id_valid (receiver c) = true; te_epoch : epoch c = tx_cid e;
  te_found : find_current hmac b (scope c) (receiver c) = Some e; te_live : entry_usable b e = true }.
Record rx_end (b : SessionBank) (c : SecurityContext) (f : SessionBankEntry) : Prop := {
  re_conf : configured_ b = true; re_scope : unicast_scope (scope c) = true; re_net : map_network b (network c) = true;
  re_self : receiver c = self (local_ b); re_peer : id_valid (sender c) = true; re_epoch : rx_cid f = epoch c;
  re_found : find_current hmac b (scope c) (sender c) = Some f; re_live : entry_usable b f = true }.

Lemma tx_end_put b c e i e' :
  tx_end b c e → find_slot hmac b (scope c) (receiver c) = Some i → peer e' = peer e → tx_cid e' = tx_cid e → remaining_ms e' = remaining_ms e → created_gk e' = created_gk e →
  tx_end (put_current (scope c) i e' b) c e'.
Proof.
  intros [] Hf E1 E2 E3 E4. assert (He : find_current hmac (put_current (scope c) i e' b) (scope c) (receiver c) = Some e') by (by eapply find_current_put).
  split; try done; try (unfold put_current, set_slots; by destruct (bool_decide (scope c = Link))); [congruence|].
  revert te_live0. unfold entry_usable, remaining, gk_dead. rewrite E3, E4. unfold put_current, set_slots. by destruct (bool_decide (scope c = Link)).
Qed.
Lemma rx_end_put b c e i e' :
  rx_end b c e → find_slot hmac b (scope c) (sender c) = Some i → peer e' = peer e → rx_cid e' = rx_cid e → remaining_ms e' = remaining_ms e → created_gk e' = created_gk e →
  rx_end (put_current (scope c) i e' b) c e'.
Proof.
  intros [] Hf E1 E2 E3 E4. assert (He : find_current hmac (put_current (scope c) i e' b) (scope c) (sender c) = Some e') by (by eapply find_current_put).
  split; try done; try (unfold put_current, set_slots; by destruct (bool_decide (scope c = Link))); [congruence|].
  revert re_live0. unfold entry_usable, remaining, gk_dead. rewrite E3, E4. unfold put_current, set_slots. by destruct (bool_decide (scope c = Link)).
Qed.
Lemma tx_end_lru b c e i : tx_end b c e → tx_end (touch_lru (scope c) i b) c e.
Proof. intros []. unfold touch_lru. destruct (bool_decide (scope c = EndToEnd)); by split. Qed.

(** ** Sending *)

(** A counter is drawn and spent. *)
Definition send (c : SecurityContext) (aad plaintext : list Z) : M SessionBank (Z * list Z * list Z) :=
  n ← next_counter hmac c;
  sealed ← seal hmac c n aad plaintext kStagingBytes;
  mret (n, fst sealed, snd sealed).

Definition drawn (e : SessionBankEntry) : SessionBankEntry :=
  with_tx (u64 (tx_next e + 1)) (Z.lor (if bool_decide (check_tx_counter (tx_next e) = IssueRekeyDue) then Z.lor (flags e) kFlagRekeyPending else flags e) kFlagSealReserved) e.

Lemma next_counter_run b c e i :
  tx_end b c e → find_slot hmac b (scope c) (receiver c) = Some i → tx_next e < kMaxUseCounter →
  next_counter hmac c b = (Ok (tx_next e), touch_lru (scope c) i (put_current (scope c) i (drawn e) b)).
Proof.
  intros [] Hf Hn. unfold next_counter. bank_unfold. rewrite te_conf0, te_scope0. cbn [negb]. rewrite te_net0, te_peer0. rewrite bool_decide_eq_true_2 by done. cbn [negb orb]. rewrite Hf, te_found0.
  rewrite bool_decide_eq_true_2 by done. cbn [negb]. assert (Hr : tx_ready b e = true).
  { unfold tx_ready, tx_refused, check_tx_counter. rewrite te_live0. cbn [andb]. rewrite bool_decide_eq_false_2; [done|]. destruct (bool_decide (tx_next e < kRekeySoftCounter)); [done|]. by rewrite bool_decide_eq_true_2. }
  rewrite Hr. cbn [negb]. rewrite bool_decide_eq_false_2; [done|]. unfold kMaxCryptoCounter, kMaxUseCounter in *. lia.
Qed.

Lemma seal_run b c e i aad plaintext nonce ct tag :
  tx_end b c e → find_slot hmac b (scope c) (receiver c) = Some i → reserved e = true → 0 < tx_next e ≤ kMaxUseCounter → (length plaintext ≤ kStagingBytes)%nat →
  aead_nonce (tx_iv e) (tx_next e - 1) = Ok nonce → aead_seal (tx_key e) nonce aad plaintext = Some (ct, tag) →
  seal hmac c (tx_next e - 1) aad plaintext kStagingBytes b = (Ok (ct, tag), put_current (scope c) i (with_flags (Z.ldiff (flags e) kFlagSealReserved) e) b).
Proof.
  intros [] Hf Hres Hn Hlen Hnonce Hseal. unfold seal. bank_unfold. assert (Hc : seal_check hmac b c (tx_next e - 1) plaintext kStagingBytes = Ok (i, e, nonce)).
  { unfold seal_check. rewrite te_conf0, te_scope0, te_net0, te_peer0. rewrite bool_decide_eq_true_2 by done. cbn [negb orb]. rewrite Hf, te_found0, te_live0. rewrite bool_decide_eq_true_2 by done.
    rewrite wrap_id by (unfold in_range, kMaxUseCounter in *; lia). rewrite bool_decide_eq_true_2 by done. rewrite has_reserved. unfold reserved in Hres. rewrite Hres. cbn [negb orb].
    assert ((kStagingBytes <? length plaintext)%nat = false) as -> by (by apply Nat.ltb_ge). unfold mbind, result_bind in *. cbn. by rewrite Hnonce. }
  rewrite Hc. by rewrite Hseal.
Qed.

Lemma send_run b c e aad plaintext nonce ct tag :
  tx_end b c e → 0 ≤ tx_next e < kMaxUseCounter → (length plaintext ≤ kStagingBytes)%nat →
  aead_nonce (tx_iv e) (tx_next e) = Ok nonce → aead_seal (tx_key e) nonce aad plaintext = Some (ct, tag) →
  ∃ b' e', send c aad plaintext b = (Ok (tx_next e, ct, tag), b') ∧ tx_end b' c e' ∧ txm e' = txm e ∧ tx_next e' = tx_next e + 1.
Proof.
  intros Ht Hn Hlen Hnonce Hseal. destruct (find_current_slot hmac b _ _ _ (te_found _ _ _ Ht)) as (i & Hf & Hl & Hp & _).
  assert (En : tx_next (drawn e) = tx_next e + 1) by (cbn; apply wrap_id; unfold in_range, kMaxUseCounter in *; lia).
  set (b1 := put_current (scope c) i (drawn e) b). assert (H1 : tx_end (touch_lru (scope c) i b1) c (drawn e)) by (by apply tx_end_lru, (tx_end_put b c e)).
  assert (Hf1 : find_slot hmac (touch_lru (scope c) i b1) (scope c) (receiver c) = Some i) by (rewrite find_slot_lru; unfold b1; by rewrite (find_slot_put b (scope c) i e)).
  assert (Hres : reserved (drawn e) = true) by (unfold reserved, drawn; cbn [flags with_tx]; by rewrite Z.lor_spec, orb_true_r).
  set (e' := with_flags (Z.ldiff (flags (drawn e)) kFlagSealReserved) (drawn e)).
  exists (put_current (scope c) i e' (touch_lru (scope c) i b1)), e'. split_and!; [|by apply (tx_end_put _ c (drawn e))|done|done].
  unfold send. unfold mbind, M_bind. rewrite (next_counter_run b c e i) by (try done; lia). replace (tx_next e) with (tx_next (drawn e) - 1) by lia.
  rewrite (seal_run _ c (drawn e) i aad plaintext nonce ct tag); try done; [lia|]. rewrite En. change (tx_iv (drawn e)) with (tx_iv e). by replace (tx_next e + 1 - 1) with (tx_next e) by lia.
Qed.

(** ** Receiving *)

Lemma open_check_run b c f i counter ciphertext nonce :
  rx_end b c f → find_slot hmac b (scope c) (sender c) = Some i → counter < kMaxUseCounter → (length ciphertext ≤ kStagingBytes)%nat →
  aead_nonce (rx_iv f) counter = Ok nonce →
  open_check hmac b c counter ciphertext kStagingBytes =
    if replayed (rx_max f) (rx_bitmap f) counter then Err ReplayRejected "session replay" else Ok (HCurrent i f, nonce).
Proof.
  intros [] Hf Hc Hlen Hnonce. unfold open_check. rewrite re_conf0, re_scope0, re_net0, re_peer0. rewrite bool_decide_eq_true_2 by done. cbn [negb orb]. unfold find_holder. rewrite Hf, re_found0, re_live0.
  rewrite bool_decide_eq_true_2 by done. cbn [andb]. unfold rx_counter_admissible. rewrite (bool_decide_eq_true_2 (counter < kMaxUseCounter)) by done. assert ((kStagingBytes <? length ciphertext)%nat = false) as -> by (by apply Nat.ltb_ge).
  unfold mbind, result_bind in *. cbn [negb guard_err h_max h_bitmap h_iv]. destruct (replayed _ _ _); cbn [guard_err]; [done|]. by rewrite Hnonce.
Qed.

Lemma open_run b c f counter aad ciphertext tag nonce plaintext :
  rx_end b c f → counter < kMaxUseCounter → (length ciphertext ≤ kStagingBytes)%nat → aead_nonce (rx_iv f) counter = Ok nonce →
  replayed (rx_max f) (rx_bitmap f) counter = false → aead_open (rx_key f) nonce aad ciphertext tag = Some plaintext →
  ∃ b' f', open hmac c counter aad ciphertext tag kStagingBytes b = (Ok plaintext, b') ∧ rx_end b' c f' ∧ rx_key f' = rx_key f ∧ rx_iv f' = rx_iv f ∧
    (rx_max f', rx_bitmap f') = slide_window (rx_max f) (rx_bitmap f) counter.
Proof.
  intros Hr Hc Hlen Hnonce Hrep Hopen. destruct (find_current_slot hmac b _ _ _ (re_found _ _ _ Hr)) as (i & Hf & Hl & Hp & _).
  destruct (slide_window (rx_max f) (rx_bitmap f) counter) as [x y] eqn:Hs. exists (put_current (scope c) i (with_window x y f) b), (with_window x y f). split_and!; try done; [|by apply (rx_end_put b c f)].
  unfold open. bank_unfold. rewrite (open_check_run b c f i counter ciphertext nonce) by done. rewrite Hrep. cbn [h_key h_max h_bitmap]. rewrite Hopen. cbn [put_window]. by rewrite Hs.
Qed.

(** ** A stream *)

(** Each frame carries associated data, a payload and whether it arrives. *)
Fixpoint stream (c : SecurityContext) (frames : list (list Z * list Z * bool)) (a b : SessionBank) : result (list (list Z)) :=
  match frames with
  | [] => Ok []
  | (aad, plaintext, arrives) :: frames =>
      match send c aad plaintext a with
      | (Ok (n, ct, tag), a') =>
          if arrives then
            match open hmac c n aad ct tag kStagingBytes b with
            | (Ok got, b') => rest ← stream c frames a' b'; Ok (got :: rest)
            | (Err code detail, _) => Err code detail
            end
          else stream c frames a' b
      | (Err code detail, _) => Err code detail
      end
  end.
Definition arrived (frames : list (list Z * list Z * bool)) : list (list Z) := snd ∘ fst <$> filter (λ f, snd f = true) frames.

(** The contexts of the two ends belong together. *)
Record paired (e f : SessionBankEntry) : Prop := {
  pr_key : rx_key f = tx_key e; pr_iv : rx_iv f = tx_iv e; pr_next : 0 ≤ tx_next e;
  pr_unseen n : tx_next e ≤ n → replayed (rx_max f) (rx_bitmap f) n = false }.

Context (L : AeadGcmLaws) (total : ∀ key nonce aad plaintext, is_Some (aead_seal key nonce aad plaintext)).

Lemma nonce_ok iv n : n < kMaxUseCounter → ∃ nonce, aead_nonce iv n = Ok nonce.
Proof. intros Hn. unfold aead_nonce. rewrite bool_decide_eq_false_2 by (unfold kMaxUseCounter, kMaxAeadCounter in *; lia). eauto. Qed.

Lemma stream_run c frames a b e f :
  tx_end a c e → rx_end b c f → paired e f → tx_next e + Z.of_nat (length frames) ≤ kMaxUseCounter →
  Forall (λ x, (length (snd (fst x)) ≤ kStagingBytes)%nat) frames → stream c frames a b = Ok (arrived frames).
Proof using L total.
  revert a b e f. induction frames as [|[[aad plaintext] arrives] frames IH]; intros a b e f Ht Hr Hp Hn Hlen; [done|]. apply Forall_cons in Hlen as [Hl Hlen]. cbn [fst snd length] in Hl, Hn.
  pose proof (pr_next _ _ Hp) as Hpos. destruct (nonce_ok (tx_iv e) (tx_next e)) as [nonce Hnonce]; [lia|]. destruct (total (tx_key e) nonce aad plaintext) as [[ct tag] Hseal].
  destruct (send_run a c e aad plaintext nonce ct tag Ht ltac:(lia) Hl Hnonce Hseal) as (a' & e' & Hs & Ht' & Em & En). injection Em as Ek Ei. destruct (aead_shape _ _ _ _ _ _ Hseal) as [Hct _].
  cbn [stream]. rewrite Hs. destruct arrives; cbn [arrived].
  - destruct (open_run b c f (tx_next e) aad ct tag nonce plaintext Hr ltac:(lia) ltac:(lia)) as (b' & f' & Ho & Hr' & Ek' & Ei' & Ew); [by rewrite (pr_iv _ _ Hp)|apply Hp; lia| |].
    { rewrite (pr_key _ _ Hp). by eapply aead_inverse. }
    rewrite Ho. rewrite (IH a' b' e' f' Ht' Hr'); [done| |lia|done]. split; [rewrite Ek', Ek; apply Hp|rewrite Ei', Ei; apply Hp|lia|].
    intros n Hge. eapply slide_window_unseen; [symmetry; exact Ew|lia|]. apply Hp. lia.
  - rewrite (IH a' b e' f Ht' Hr); [done| |lia|done]. split; [rewrite Ek; apply Hp|rewrite Ei; apply Hp|lia|]. intros n Hge. apply Hp. lia.
Qed.

(** ** After an installation *)

Lemma put_current_fields sc i x b :
  local_ (put_current sc i x b) = local_ b ∧ last_tick_ (put_current sc i x b) = last_tick_ b ∧ configured_ (put_current sc i x b) = configured_ b.
Proof. unfold put_current, set_slots. by destruct (bool_decide (sc = Link)). Qed.
Lemma touch_lru_fields sc i b : local_ (touch_lru sc i b) = local_ b ∧ last_tick_ (touch_lru sc i b) = last_tick_ b ∧ configured_ (touch_lru sc i b) = configured_ b.
Proof. unfold touch_lru. by destruct (bool_decide (sc = EndToEnd)). Qed.
Lemma demote_fields sc e b : local_ (demote sc e b) = local_ b ∧ last_tick_ (demote sc e b) = last_tick_ b ∧ configured_ (demote sc e b) = configured_ b ∧
  link_ (demote sc e b) = link_ b ∧ end_ (demote sc e b) = end_ b.
Proof. unfold demote, expires_after. by destruct (first_slot _ _). Qed.

Lemma install_live k att b b' :
  install_verified hmac k att b = (Ok tt, b') →
  (∃ i x, live b' (is_link (ck_scope k)) i x ∧ (∃ s, x = fresh_entry k att (u32 (deadline_after b kContextLifetimeMs)) s)) ∧
  local_ b' = local_ b ∧ last_tick_ b' = last_tick_ b ∧ configured_ b' = true ∧ map_network b (ck_network k) = true ∧ gk_dead b (at_created_gk_epoch att) = false ∧
  unicast_scope (ck_scope k) = true ∧ id_valid (ck_peer k) = true.
Proof using hmac.
  unfold install_verified. bank_unfold. destruct (install_check hmac b k att) as [existing|c d] eqn:Hc; [|done]. cbv zeta. intros Hrun. revert Hc. unfold install_check. intros Hc.
  apply guard_err_bind in Hc as [Hconf Hc]. apply result_bind_inv in Hc as ([] & Hk & Hc). apply guard_err_bind in Hc as [Hmap Hc]. apply guard_err_bind in Hc as [_ Hc].
  apply guard_err_bind in Hc as [Hgk Hc]. do 2 (apply guard_err_bind in Hc as [_ Hc]). cbv zeta in Hc. apply result_bind_inv in Hc as ([] & _ & Hc). apply result_bind_inv in Hc as ([] & _ & Hc).
  apply guard_err_bind in Hc as [Hcap [= <-]]. apply negb_false_iff in Hconf, Hmap.
  set (b1 := match find_current hmac b (ck_scope k) (ck_peer k) with Some e => demote (ck_scope k) e b | None => b end) in *.
  assert (Hb1 : local_ b1 = local_ b ∧ last_tick_ b1 = last_tick_ b ∧ configured_ b1 = configured_ b ∧ link_ b1 = link_ b ∧ end_ b1 = end_ b)
    by (unfold b1; destruct (find_current hmac b _ _); [apply demote_fields|done]). destruct Hb1 as (E1 & E2 & E3 & E4 & E5).
  unfold expires_after in Hrun. set (bx := set_serial _ (note_expiry _ b1)) in *. set (x := fresh_entry _ _ _ _) in *.
  assert (Hsl : ∃ i, match find_slot hmac b (ck_scope k) (ck_peer k) with Some i => Some i | None => free_slot hmac b (ck_scope k) (ck_peer k) end = Some i ∧ (i < length (slots bx (ck_scope k)))%nat).
  { assert (Hs : slots bx (ck_scope k) = slots b (ck_scope k)) by (unfold slots, bx; cbn; by rewrite E4, E5). rewrite Hs. destruct (find_slot hmac b (ck_scope k) (ck_peer k)) as [i|] eqn:Hf.
    - exists i. split; [done|]. destruct (find_slot_some hmac b _ _ i Hf) as (_ & e & Hl & _). rewrite slots_tb. by eapply lookup_lt_Some.
    - destruct (free_slot hmac b (ck_scope k) (ck_peer k)) as [i|] eqn:Hfree; [|done]. exists i. split; [done|]. by eapply free_slot_some. }
  destruct Hsl as (i & Hi & Hlen). rewrite Hi in Hrun. injection Hrun as <-. destruct (put_current_fields (ck_scope k) i x bx) as (F1 & F2 & F3).
  destruct (touch_lru_fields (ck_scope k) i (put_current (ck_scope k) i x bx)) as (G1 & G2 & G3). cbn in F1, F2, F3. cbn [local_ last_tick_ configured_ drop_demand set_demand].
  unfold check_context_keys in Hk. apply guard_err_bind in Hk as [Hsc Hk]. apply guard_err_bind in Hk as [Hid _]. apply orb_false_iff in Hid as [Hid Hbc]. apply orb_false_iff in Hid as [_ Hinv].
  split_and!; try congruence.
  - exists i, x. split; [|exists (next_serial (note_expiry (deadline_after b1 kContextLifetimeMs) b1)); unfold x; by rewrite (deadline_after_tick b b1)].
    change (live (touch_lru (ck_scope k) i (put_current (ck_scope k) i x bx)) (is_link (ck_scope k)) i x). apply touch_lru_live. by apply put_current_at.
  - unfold unicast_scope. by destruct (bool_decide (ck_scope k = Link)), (bool_decide (ck_scope k = EndToEnd)).
  - unfold id_valid. by rewrite Hinv, Hbc.
Qed.

(** The new context can be used. *)
Lemma fresh_usable k att b b' s :
  0 ≤ last_tick_ b < UINT64_MAX → local_ b' = local_ b → last_tick_ b' = last_tick_ b → gk_dead b (at_created_gk_epoch att) = false →
  entry_usable b' (fresh_entry k att (u32 (deadline_after b kContextLifetimeMs)) s) = true.
Proof using.
  intros Hl E1 E2 Hgk. unfold entry_usable, gk_dead. cbn [created_gk remaining_ms fresh_entry]. rewrite E1. unfold gk_dead in Hgk. rewrite Hgk. cbn [negb].
  destruct (deadline_after_range b kContextLifetimeMs) as [H1 H2]; [lia|unfold kContextLifetimeMs; lia|].
  assert (H3 : last_tick_ b < deadline_after b kContextLifetimeMs) by (unfold deadline_after, kContextLifetimeMs; destruct (bool_decide_reflect (UINT64_MAX - last_tick_ b < 24 * 3600 * 1000)); lia).
  rewrite (remaining_eq b' _ (deadline_after b kContextLifetimeMs)); [|rewrite E2; unfold kContextLifetimeMs, UINT32_MAX in *; lia|unfold wrap; by rewrite Zmod_mod].
  rewrite bool_decide_eq_false_2 by lia. done.
Qed.

Lemma install_peers_unique k att b r b' : install_verified hmac k att b = (r, b') → peers_unique b → peers_unique b'.
Proof using hmac.
  intros Hi Hu. destruct (install_spec hmac k att b r b' Hi) as [->|(i & x & Hp & _ & _ & _ & _ & Ep & Hus & Hf & _)]; [done|].
  eapply peers_unique_placed; [exact Hp| |done]. rewrite Ep. by apply (find_slot_peers hmac).
Qed.

(** What the handshake gives the two ends belongs together. *)
Record matching (k k' : ContextKeys) (a b : SessionBank) : Prop := {
  mt_scope : ck_scope k' = ck_scope k; mt_network : ck_network k' = ck_network k; mt_peer : ck_peer k = self (local_ b); mt_peer' : ck_peer k' = self (local_ a);
  mt_key : ck_rx_key k' = ck_tx_key k; mt_iv : ck_rx_iv k' = ck_tx_iv k; mt_id : ck_rx_context_id k' = ck_tx_context_id k }.
Definition context_of (k : ContextKeys) (a : SessionBank) : SecurityContext :=
  mkContext (ck_scope k) (ck_network k) (self (local_ a)) (ck_peer k) (ck_tx_context_id k) 0 0 kInvalidNodeId.

(** C11: when two reachable banks have installed matching keys, one of them
    can draw a counter and seal for up to 2^32 frames of at most 250 bytes,
    and each frame that arrives at the other opens to the payload that was
    sealed, in order, whichever frames are lost. The AEAD opens what it sealed
    and does not fail to seal. *)
Theorem installed_sessions_interoperate (nl ne nl' ne' : nat) (opsA opsB : list Op) (k k' : ContextKeys) (att att' : InstallAttestation) (a1 b1 : SessionBank)
    (frames : list (list Z * list Z * bool)) :
  let a := w_bank (run hmac opsA (start nl ne)) in
  let b := w_bank (run hmac opsB (start nl' ne')) in
  legal hmac opsA (start nl ne) → legal hmac opsB (start nl' ne') → 0 ≤ last_tick_ a < UINT64_MAX → 0 ≤ last_tick_ b < UINT64_MAX → matching k k' a b →
  install_verified hmac k att a = (Ok tt, a1) → install_verified hmac k' att' b = (Ok tt, b1) →
  Z.of_nat (length frames) ≤ kMaxUseCounter → Forall (λ x, (length (snd (fst x)) ≤ kStagingBytes)%nat) frames →
  stream (context_of k a) frames a1 b1 = Ok (arrived frames).
Proof using L total.
  intros a b Hla Hlb Hta Htb [] Hia Hib Hn Hlen.
  assert (Ha : peers_unique a) by apply (k_peers _ (run_world hmac _ _ Hla (start_ok_world _ _))). assert (Hb : peers_unique b) by apply (k_peers _ (run_world hmac _ _ Hlb (start_ok_world _ _))).
  apply (install_peers_unique _ _ _ _ _ Hia) in Ha. apply (install_peers_unique _ _ _ _ _ Hib) in Hb.
  apply install_live in Hia as ((i & x & Hx & s & ->) & Lx & Tx & Cx & Mx & Gx & Sx & Px). apply install_live in Hib as ((j & y & Hy & t & ->) & Ly & Ty & Cy & My & Gy & Sy & Py).
  set (e := fresh_entry k att _ s) in *. set (f := fresh_entry k' att' _ t) in *. apply (stream_run _ frames a1 b1 e f); [| | |exact Hn|done].
  - split; cbn; [done|done| |by rewrite Lx|done|done| |by apply fresh_usable].
    + unfold map_network in *. by rewrite Lx.
    + apply find_current_iff; [done|done|]. exists i. split; [exact Hx|done].
  - split; cbn; [done|done| |by rewrite Ly|by rewrite <- mt_peer'0|done| |by apply fresh_usable].
    + unfold map_network in *. rewrite Ly. by rewrite <- mt_network0.
    + apply find_current_iff; [done|done|]. exists j. rewrite <- mt_scope0. split; [exact Hy|done].
  - split; cbn; [done|done|lia|]. intros n Hge. unfold replayed. destruct (bool_decide_reflect (n ≤ 0)); [|done]. assert (n = 0) as -> by lia. done.
Qed.
End Channel.
