(* ===== verification/SessionBankDemo.v ===== *)
(** * The session bank: concrete runs *)

From S2P Require Import Prelude Types SessionBank SessionBankProps SessionBankRun SessionBankInstall SessionBankWorld SessionBankTime SessionBankChannel.

(** A port that authenticates with a polynomial of key, nonce and text. *)
Definition mix (bs : list Z) : Z := fold_left (λ acc x, (acc * 263 + x + 1) mod (2 ^ 61 - 1)) bs 7.
Definition demo_tag (key nonce aad text : list Z) : list Z := be_bytes 16 (mix (key ++ nonce ++ aad ++ [256] ++ text)).
#[local] Instance demo_aead : AeadGcm := {|
  aead_seal key nonce aad text := Some (text, demo_tag key nonce aad text);
  aead_open key nonce aad text tag := if bool_decide (tag = demo_tag key nonce aad text) then Some text else None |}.
Lemma demo_laws : AeadGcmLaws.
Proof.
  split; intros key nonce aad pt ct tag; cbn; intros [= <- <-].
  - done.
  - by rewrite bool_decide_eq_true_2.
Qed.
Definition demo_hmac (key input : list Z) : list Z := be_bytes 32 (mix (key ++ input)).

Definition view (id : NodeId) : LocalView := mkLocal id 0x1234 0 8000.
Definition salt_of (x : Z) : option (list Z) := Some (replicate 32 x).
(** The keys of one direction, by number. *)
Definition key (x : Z) : list Z := replicate 16 x.
Definition iv (x : Z) : list Z := replicate 12 x.
Definition keys (p : NodeId) (tx_id rx_id tx rx : Z) : ContextKeys :=
  mkKeys EndToEnd 0x1234 p tx_id rx_id (key tx) (iv tx) (key rx) (iv rx) (replicate 8 0) 1.
Definition att : InstallAttestation := mkAttestation 1 0 false.
Definition ctx (s r : NodeId) (id : Z) : SecurityContext := mkContext EndToEnd 0x1234 s r id 0 0 kInvalidNodeId.

(** Node 11 has sessions with 22 and 33, draws counters and seals. *)
Definition sealing : list Op :=
  [Configure (view 11) (salt_of 9) 1000; Install (keys 22 5 6 1 2) att; Install (keys 33 7 8 3 4) att;
   NextCounter (ctx 11 22 5); Seal (ctx 11 22 5) 0 [] [1; 2; 3] 250; Seal (ctx 11 22 5) 0 [] [9; 9] 250;
   NextCounter (ctx 11 22 5); Seal (ctx 11 22 5) 1 [] [4] 250; NextCounter (ctx 11 33 7); Seal (ctx 11 33 7) 0 [] [5] 250;
   Install (keys 22 9 10 5 6) att; NextCounter (ctx 11 22 9); Seal (ctx 11 22 9) 0 [] [6] 250].

(** One step of [legal] after its decidable content has been computed. *)
Lemma install_allowed w k a (t r : list Material) :
  w_tx w = t → w_rx w = r → length (ck_tx_iv k) = 12%nat → Forall (λ m, fst m ≠ ck_tx_key k) t → Forall (λ m, fst m ≠ ck_rx_key k) r → allowed w (Install k a).
Proof. intros <- <- Hl Ht Hr. cbn. rewrite Forall_forall in Ht, Hr. eauto. Qed.
Ltac no_fresh := first [done | eapply install_allowed; [vm_compute; reflexivity|vm_compute; reflexivity|reflexivity|vm_compute; repeat constructor; discriminate|vm_compute; repeat constructor; discriminate]].

Lemma nonces_never_reused_witness :
  NoDup (port_nonce <$> w_sealed (run demo_hmac sealing (start 2 4))) ∧ length (w_sealed (run demo_hmac sealing (start 2 4))) = 4%nat.
Proof.
  split; [|vm_compute; reflexivity]. apply (nonces_never_reused demo_hmac 2 4 sealing). cbn [legal sealing]. split_and!; no_fresh.
Defined.

(** Node 22 accepts what 11 sealed, once, also under the replaced key. *)
Definition frame_tag (k counter : Z) (text : list Z) : list Z :=
  match aead_nonce (iv k) counter with Ok nonce => demo_tag (key k) nonce [] text | Err _ _ => [] end.
Definition receiving : list Op :=
  [Configure (view 22) (salt_of 4) 2000; Install (keys 11 6 5 2 1) att;
   Open (ctx 11 22 5) 0 [] [1; 2; 3] (frame_tag 1 0 [1; 2; 3]) 250; Open (ctx 11 22 5) 0 [] [1; 2; 3] (frame_tag 1 0 [1; 2; 3]) 250;
   Install (keys 11 10 9 6 5) att; Open (ctx 11 22 5) 1 [] [4] (frame_tag 1 1 [4]) 250; Open (ctx 11 22 5) 0 [] [1; 2; 3] (frame_tag 1 0 [1; 2; 3]) 250;
   Open (ctx 11 22 9) 0 [] [6] (frame_tag 5 0 [6]) 250; Open (ctx 11 22 5) 2 [] [7] (frame_tag 1 1 [7]) 250].

Lemma sessions_accept_once_witness :
  NoDup (w_accepted (run demo_hmac receiving (start 2 4))) ∧ length (w_accepted (run demo_hmac receiving (start 2 4))) = 3%nat.
Proof.
  split; [|vm_compute; reflexivity]. apply (sessions_accept_once demo_hmac 2 4 receiving). cbn [legal receiving]. split_and!; no_fresh.
Defined.

(** A minute after the replacement the old key is gone; the context stays. *)
Definition ageing : list Op := receiving ++ [Tick 30000; Tick 50000].
Definition aged_bank : SessionBank := snd (tick 62000 (w_bank (run demo_hmac ageing (start 2 4)))).
Lemma tick_expires_exactly_witness :
  aged (w_bank (run demo_hmac ageing (start 2 4))) aged_bank 62000 ∧
  (∀ k f, lives aged_bank k f → deadline aged_bank f = deadline (w_bank (run demo_hmac ageing (start 2 4))) f) ∧
  (∀ k f, lives (w_bank (run demo_hmac ageing (start 2 4))) k f →
     deadline (w_bank (run demo_hmac ageing (start 2 4))) f ≤ last_tick_ (w_bank (run demo_hmac ageing (start 2 4))) + lifetime (w_bank (run demo_hmac ageing (start 2 4))) k).
Proof.
  apply (tick_expires_exactly demo_hmac 2 4 ageing 62000 aged_bank).
  - unfold ageing, receiving. cbn [app]. repeat constructor; unfold typed, UINT64_MAX, UINT32_MAX; cbn; lia.
  - vm_compute. reflexivity.
Defined.
Example aged_counts :
  (count_used (overlap_ (w_bank (run demo_hmac ageing (start 2 4)))), count_used (overlap_ aged_bank), live_count aged_bank EndToEnd) = (1, 0, 1)%nat.
Proof. vm_compute. reflexivity. Qed.

(** Node 11 sends three frames to 22; the second is lost. *)
Definition ops11 : list Op := [Configure (view 11) (salt_of 9) 1000].
Definition ops22 : list Op := [Configure (view 22) (salt_of 4) 2000].
Definition bank11 : SessionBank := w_bank (run demo_hmac ops11 (start 2 4)).
Definition bank22 : SessionBank := w_bank (run demo_hmac ops22 (start 2 4)).
Definition three : list (list Z * list Z * bool) := [([1], [10; 20], true); ([2], [30], false); ([3], [40; 50; 60], true)].
Lemma installed_sessions_interoperate_witness :
  stream demo_hmac (context_of (keys 22 5 6 1 2) bank11) three (snd (install_verified demo_hmac (keys 22 5 6 1 2) att bank11)) (snd (install_verified demo_hmac (keys 11 6 5 2 1) att bank22)) =
    Ok [[10; 20]; [40; 50; 60]].
Proof.
  apply (installed_sessions_interoperate demo_hmac demo_laws (λ _ _ _ _, ltac:(eauto)) 2 4 2 4 ops11 ops22 (keys 22 5 6 1 2) (keys 11 6 5 2 1) att att).
  - by cbn.
  - by cbn.
  - vm_compute. split; congruence.
  - vm_compute. split; congruence.
  - by split.
  - vm_compute. reflexivity.
  - vm_compute. reflexivity.
  - cbn. unfold kMaxUseCounter. lia.
  - unfold three. repeat constructor; cbn; unfold kStagingBytes; lia.
Defined.

(** A new context under the receive id of the one it replaces: what the peer
    still sends under the old key is looked for under the new one, although
    the old key is kept; under another id it opens. *)
Definition straggler (rx_id : Z) : result (list Z) :=
  fst (open demo_hmac (ctx 11 22 5) 1 [] [4] (frame_tag 1 1 [4]) 250
    (w_bank (run demo_hmac [Configure (view 22) (salt_of 4) 2000; Install (keys 11 6 5 2 1) att; Install (keys 11 10 rx_id 6 5) att] (start 2 4)))).
Lemma reused_rx_id_hides_overlap : straggler 5 = Err AuthenticationFailed "session tag mismatch" ∧ straggler 9 = Ok [4].
Proof. split; vm_compute; reflexivity. Qed.
