(* ===== verification/SessionRtc.v ===== *)
(** * Session images over deep sleep (sdkv1_session_rtc.{hpp,cpp})

    The record a sleeping node keeps in RTC memory, its port, the one-shot
    wake, the write-ahead of transmit counters, and the save and restore of
    sdkv1_security_coordinator.cpp that use them.  The port is a class; the
    buffer port, whose power may fail after any byte, is an instance in
    SessionRtcPort.  An image is cleared where the code clears it. *)

From S2P Require Import Prelude Types Crc32 SessionBank.

(** ** The image *)

(** A scope read from an image is the byte that was read. *)
Record RtcSessionContext := mkRtcContext { rc_scope : Z; rc_entry : SessionBankEntry }.
Record RtcSessionImage := mkImage {
  source_boot : Z; im_network : NetworkId; local_generation : Z; site_commit : Z; im_gk_epoch : Z; rs_floor : Z;
  kid_digest : list Z; parent_mac : list Z; parent_binding : Z; count : Z; contexts : list RtcSessionContext }.
Record RtcWakeCheck := mkWake {
  deep_sleep : bool; sleep_marker : bool; trusted_elapsed_ms : Z; next_boot : Z; wk_network : NetworkId;
  wk_generation : Z; wk_commit : Z; wk_gk_epoch : Z; wk_rs_floor : Z; wk_kid_digest : list Z }.

Definition kMagic : Z := 0x524C5443.
Definition kCommitted : Z := 0x52544331.
Definition kLifetime : Z := 24 * 3600 * 1000.
Definition kUseLimit : Z := 2 ^ 32.
Definition kHeader : nat := 70.
Definition kContext : nat := 136.
Definition kRtcSessionRecordSize : nat := 346.
Definition kRtcSessionMaxContexts : nat := 2.

Definition no_mac : list Z := replicate 6 0.
Definition broadcast_mac : list Z := replicate 6 0xFF.
Definition zero_entry : SessionBankEntry :=
  mkEntry 0 0 0 0 (replicate 16 0) (replicate 16 0) (replicate 12 0) (replicate 12 0) (replicate 8 0) 0 0 0 0 0 0 0 0.
Definition zero_image : RtcSessionImage :=
  mkImage 0 0 0 0 0 0 (replicate 16 0) no_mac 0 0 (replicate kRtcSessionMaxContexts (mkRtcContext 0 zero_entry)).

Definition used (im : RtcSessionImage) : list RtcSessionContext := take (Z.to_nat (count im)) (contexts im).

(** [valid]: slot [i] is Link, then EndToEnd. *)
Definition valid_context (im : RtcSessionImage) (i : nat) (c : RtcSessionContext) : bool :=
  let e := rc_entry c in
  negb (negb (bool_decide (rc_scope c = if bool_decide (i = 0%nat) then scope_value Link else scope_value EndToEnd)) ||
        bool_decide (peer e = kInvalidNodeId) || bool_decide (peer e = kBroadcastNodeId) ||
        bool_decide (tx_cid e = 0) || bool_decide (rx_cid e = 0) || negb (bool_decide (flags e = 0)) ||
        bool_decide (remaining_ms e = 0) || bool_decide (kLifetime < remaining_ms e) ||
        bool_decide (created_gk e = 0) || bool_decide (im_gk_epoch im < created_gk e) ||
        bool_decide (2 ≤ im_gk_epoch im - created_gk e) ||
        bool_decide (kUseLimit ≤ tx_next e) || bool_decide (kUseLimit ≤ rx_max e)).
Definition valid (im : RtcSessionImage) : bool :=
  negb (bool_decide (source_boot im = 0) || bool_decide (im_network im = 0) || bool_decide (local_generation im = 0) ||
        bool_decide (site_commit im = 0) || bool_decide (im_gk_epoch im = 0) || bool_decide (parent_binding im = 0) ||
        bool_decide (parent_mac im = no_mac) || bool_decide (parent_mac im = broadcast_mac) ||
        bool_decide (count im = 0) || bool_decide (2 < count im)) &&
  forallb id (imap (valid_context im) (used im)).

(** ** The codec *)

(** [Cursor::put] and [get]. *)
Definition put (v : Z) (n : nat) : list Z := be_bytes n v.
Definition get (n : nat) : M (list Z) Z := λ bs, (Ok (be_value 64 (take n bs)), drop n bs).
Definition get_bytes (n : nat) : M (list Z) (list Z) := λ bs, (Ok (take n bs), drop n bs).

Definition write_context (c : RtcSessionContext) : list Z :=
  let e := rc_entry c in
  put (rc_scope c) 1 ++ put 0 7 ++ put (peer e) 8 ++ put (tx_next e) 8 ++ put (rx_max e) 8 ++ put (rx_bitmap e) 8 ++
  tx_key e ++ rx_key e ++ tx_iv e ++ rx_iv e ++ peer_cert_id e ++
  put (tx_cid e) 4 ++ put (rx_cid e) 4 ++ put (peer_generation e) 4 ++ put (peer_role e) 4 ++
  put (created_gk e) 4 ++ put (remaining_ms e) 4 ++ put (install_serial e) 4 ++ put (flags e) 4.
Definition read_context : M (list Z) RtcSessionContext :=
  sc ← get 1; get 7;;
  p ← get 8; tx ← get 8; rx ← get 8; bits ← get 8;
  tk ← get_bytes 16; rk ← get_bytes 16; ti ← get_bytes 12; ri ← get_bytes 12; cert ← get_bytes 8;
  tc ← get 4; rc ← get 4; gen ← get 4; role ← get 4; gk ← get 4; ms ← get 4; serial ← get 4; fl ← get 4;
  mret (mkRtcContext sc (mkEntry p tx rx bits tk rk ti ri cert tc rc gen role gk ms serial fl)).

Section Codec.
(** The resource profile the firmware was built with. *)
Context (kResourceProfileId : Z).

Definition write_head (im : RtcSessionImage) : list Z :=
  put kMagic 4 ++ put 1 2 ++ put (Z.of_nat kRtcSessionRecordSize) 2 ++ put kCommitted 4 ++
  put (source_boot im) 4 ++ put (im_network im) 8 ++ put (local_generation im) 4 ++ put (site_commit im) 4 ++
  put (im_gk_epoch im) 4 ++ put (rs_floor im) 4 ++ kid_digest im ++ parent_mac im ++
  put (parent_binding im) 4 ++ put (count im) 1 ++ put kResourceProfileId 1 ++ put 0 2.
(** A zeroed buffer is filled from the front; the checksum ends it. *)
Definition rtc_body (im : RtcSessionImage) : list Z :=
  let filled := write_head im ++ concat (write_context <$> used im) in
  filled ++ replicate (kRtcSessionRecordSize - 4 - length filled) 0.
Definition rtc_record (im : RtcSessionImage) : list Z := rtc_body im ++ put (crc32_iso_hdlc (rtc_body im)) 4.
Definition invalid_if (c : bool) : result unit := guard_err c IntegrityError "RTC session invalid".
Definition encode_rtc_session (im : RtcSessionImage) : result (list Z) := invalid_if (negb (valid im));; Ok (rtc_record im).

(** The fields after the commit word, up to the padding of the header. *)
Definition read_head : M (list Z) (list RtcSessionContext → RtcSessionImage) :=
  boot ← get 4; net ← get 8; gen ← get 4; commit ← get 4; gk ← get 4; rs ← get 4;
  kid ← get_bytes 16; mac ← get_bytes 6; binding ← get 4; n ← get 1;
  mret (λ cs, mkImage boot net gen commit gk rs kid mac binding n cs).
(** Bytes that must be zero: the padding of each context in use, and the
    second context when there is only one. *)
Definition padding_zero (im : RtcSessionImage) (bytes : list Z) : bool :=
  forallb (λ i, forallb (λ x, bool_decide (x = 0)) (take 7 (drop (kHeader + i * kContext + 1) bytes))) (seq 0 (Z.to_nat (count im))) &&
  (negb (bool_decide (count im = 1)) ||
   forallb (λ x, bool_decide (x = 0)) (take (kRtcSessionRecordSize - 4 - (kHeader + kContext)) (drop (kHeader + kContext) bytes))).
Definition wake_matches (wake : RtcWakeCheck) (im : RtcSessionImage) : bool :=
  negb (bool_decide (next_boot wake = 0)) && bool_decide (source_boot im + 1 = next_boot wake) &&
  bool_decide (im_network im = wk_network wake) && bool_decide (local_generation im = wk_generation wake) &&
  bool_decide (site_commit im = wk_commit wake) && bool_decide (im_gk_epoch im = wk_gk_epoch wake) &&
  bool_decide (rs_floor im = wk_rs_floor wake) && bool_decide (kid_digest im = wk_kid_digest wake).

Definition with_remaining (ms : Z) (e : SessionBankEntry) : SessionBankEntry := with_life ms (install_serial e) e.
(** The lifetime a context has left; the first [count] contexts age. *)
Definition age_context (elapsed : Z) (c : RtcSessionContext) : RtcSessionContext :=
  mkRtcContext (rc_scope c) (with_remaining (remaining_ms (rc_entry c) - elapsed) (rc_entry c)).
Definition outlived (elapsed : Z) (im : RtcSessionImage) : bool :=
  existsb (λ c, bool_decide (remaining_ms (rc_entry c) ≤ elapsed)) (used im).
Definition age_image (elapsed : Z) (im : RtcSessionImage) : RtcSessionImage :=
  mkImage (source_boot im) (im_network im) (local_generation im) (site_commit im) (im_gk_epoch im) (rs_floor im)
    (kid_digest im) (parent_mac im) (parent_binding im) (count im)
    ((age_context elapsed <$> used im) ++ drop (Z.to_nat (count im)) (contexts im)).

Definition decode_rtc_session (bytes : list Z) (wake : RtcWakeCheck) : result RtcSessionImage :=
  invalid_if (negb (bool_decide (length bytes = kRtcSessionRecordSize)) || negb (deep_sleep wake) || negb (sleep_marker wake) ||
              bool_decide (trusted_elapsed_ms wake = 0));;
  '(magic, format, len, mark) ← fst ((a ← get 4; b ← get 2; c ← get 2; d ← get 4; mret (a, b, c, d)) bytes);
  invalid_if (negb (bool_decide (magic = kMagic)) || negb (bool_decide (format = 1)) ||
              negb (bool_decide (len = Z.of_nat kRtcSessionRecordSize)) || negb (bool_decide (mark = kCommitted)));;
  crc ← fst (get 4 (drop (kRtcSessionRecordSize - 4) bytes));
  invalid_if (negb (bool_decide (crc = crc32_iso_hdlc (take (kRtcSessionRecordSize - 4) bytes))));;
  '(head, profile, pad, c0, c1) ← fst ((h ← read_head; p ← get 1; z ← get 2; a ← read_context; b ← read_context; mret (h, p, z, a, b)) (drop 12 bytes));
  let candidate : RtcSessionImage := head [c0; c1] in
  invalid_if (negb (bool_decide (profile = kResourceProfileId)) || negb (bool_decide (pad = 0)) ||
              bool_decide (count candidate = 0) || bool_decide (2 < count candidate));;
  invalid_if (negb (padding_zero candidate bytes));;
  invalid_if (negb (valid candidate) || negb (wake_matches wake candidate));;
  invalid_if (outlived (trusted_elapsed_ms wake) candidate);;
  Ok (age_image (trusted_elapsed_ms wake) candidate).

End Codec.

(** ** The port *)

(** [class RtcSessionPort]: what is read has the size of a record. *)
Class RtcSessionPort (ST : Type) := {
  rtc_read : M ST (list Z);
  rtc_invalidate : M ST unit;
  rtc_write : list Z → M ST unit }.

(** The commit word of a record. *)
Definition marker (bytes : list Z) : Z := be_value 64 (take 4 (drop 8 bytes)).

(** What the guard and the coordinator keep for sleep.  The image is one
    storage: the coordinator holds a consumed image in it until the parent is
    bound, and the guard borrows it while it is armed ([guarding]). *)
Inductive RestoreState := RestoreIdle | RestoreHolding | RestoreDone | RestoreFailed (code : StatusCode) (detail : string).
#[global] Instance RestoreState_eq_dec : EqDecision RestoreState.
Proof. solve_decision. Defined.
Record Sleeper := mkSleeper {
  sleep_image : RtcSessionImage; guarding : bool; port_set : bool; slot_armed : list bool; restore_state : RestoreState; restore_elapsed_ms : Z }.
Definition new_sleeper : Sleeper := mkSleeper zero_image false false [false; false] RestoreIdle 0.
Definition with_image x s := mkSleeper x (guarding s) (port_set s) (slot_armed s) (restore_state s) (restore_elapsed_ms s).
Definition with_guard x p a s := mkSleeper (sleep_image s) x p a (restore_state s) (restore_elapsed_ms s).
Definition with_restore x ms s := mkSleeper (sleep_image s) (guarding s) (port_set s) (slot_armed s) x ms.

Definition armed (s : Sleeper) : bool := existsb id (slot_armed s).

Section Node.
Context (kResourceProfileId : Z) (hmac : list Z → list Z → list Z) {ST : Type} `{RtcSessionPort ST}.
Abbreviation encode := (encode_rtc_session kResourceProfileId).
Abbreviation decode := (decode_rtc_session kResourceProfileId).

(** The bank, the port and the sleep state. *)
Record Node := mkNode { n_bank : SessionBank; n_port : ST; n_sleep : Sleeper }.
Definition on_bank {A} (m : M SessionBank A) : M Node A := λ n, let '(r, b) := m (n_bank n) in (r, mkNode b (n_port n) (n_sleep n)).
Definition on_port {A} (m : M ST A) : M Node A := λ n, let '(r, p) := m (n_port n) in (r, mkNode (n_bank n) p (n_sleep n)).
Definition get_sleep : M Node Sleeper := λ n, (Ok (n_sleep n), n).
Definition set_sleep (f : Sleeper → Sleeper) : M Node unit := λ n, (Ok tt, mkNode (n_bank n) (n_port n) (f (n_sleep n))).
(** A status that is looked at, or ignored. *)
Definition try {A} (m : M Node A) : M Node (result A) := λ n, let '(r, n') := m n in (Ok r, n').
Definition fail_with {A} (r : result A) : M Node unit := match r with Ok _ => mret tt | Err c d => throw c d end.

(** *** [consume_rtc_session] *)
Definition consume_rtc_session (wake : RtcWakeCheck) : M ST RtcSessionImage :=
  λ p,
  let refuse c d p := match rtc_invalidate p with (Ok _, p') => (Err c d, p') | (Err c' d', p') => (Err c' d', p') end in
  match rtc_read p with
  | (Err c d, p) => refuse c d p
  | (Ok raw, p) =>
      match decode raw wake with
      | Err c d => refuse c d p
      | Ok im => (rtc_invalidate;; raw ← rtc_read; fail_if (bool_decide (marker raw = kCommitted)) StorageFailure "RTC marker not cleared";; mret im) p
      end
  end.

(** *** [advance_rtc_tx] *)
Definition bump (i : nat) (im : RtcSessionImage) : RtcSessionImage :=
  mkImage (source_boot im) (im_network im) (local_generation im) (site_commit im) (im_gk_epoch im) (rs_floor im)
    (kid_digest im) (parent_mac im) (parent_binding im) (count im)
    (alter (λ c, mkRtcContext (rc_scope c) (with_tx (u64 (tx_next (rc_entry c) + 1)) (flags (rc_entry c)) (rc_entry c))) i (contexts im)).
Definition advance_rtc_tx (current : RtcSessionImage) (i : nat) : M ST (RtcSessionImage * Z) :=
  let next := match contexts current !! i with Some c => tx_next (rc_entry c) | None => 0 end in
  fail_if (negb (valid current) || bool_decide (count current ≤ Z.of_nat i) || bool_decide (kUseLimit - 1 ≤ next))
    CounterExhausted "RTC TX counter exhausted";;
  raw ← lift (encode current);
  observed ← rtc_read;
  fail_if (negb (bool_decide (observed = raw))) Conflict "RTC image changed";;
  rtc_invalidate;;
  cleared ← rtc_read;
  fail_if (bool_decide (marker cleared = kCommitted)) StorageFailure "RTC marker not cleared";;
  advanced ← lift (encode (bump i current));
  rtc_write advanced;;
  observed ← rtc_read;
  fail_if (negb (bool_decide (observed = advanced))) StorageFailure "RTC TX readback";;
  mret (bump i current, next).

(** *** [RtcWriteAheadProvider] *)

Definition disarm : M Node unit :=
  s ← get_sleep;
  set_sleep (λ s, with_guard false (port_set s) [false; false] (if guarding s then with_image zero_image s else s));;
  (if port_set s then try (on_port rtc_invalidate);; mret tt else mret tt);;
  set_sleep (λ s, with_guard (guarding s) false (slot_armed s) s).
Definition disarm_slot (i : nat) : M Node unit :=
  set_sleep (λ s, with_guard (guarding s) (port_set s) (<[i := false]> (slot_armed s)) s);;
  s ← get_sleep;
  if armed s then mret tt else disarm.

(** [arm] over the image in the storage. *)
Definition arm : M Node unit :=
  s ← get_sleep;
  fail_if (armed s) InvalidState "write-ahead already armed";;
  match encode (sleep_image s) with
  | Err _ _ => throw InvalidArgument "write-ahead image shape"
  | Ok encoded =>
      on_port (rtc_write encoded);;
      back ← try (on_port rtc_read);
      if bool_decide (back = Ok encoded) then
        set_sleep (λ s, with_guard true true (imap (λ i a, a || bool_decide (Z.of_nat i < count (sleep_image s))) (slot_armed s)) s)
      else try (on_port rtc_invalidate);; throw StorageFailure "write-ahead commit unverified"
  end.

(** The armed slot for a scope and a receiver. *)
Definition guarded_slot (s : Sleeper) (c : SecurityContext) : option nat :=
  if armed s && guarding s then
    List.find (λ i, default false (slot_armed s !! i) &&
      match contexts (sleep_image s) !! i with
      | Some x => bool_decide (rc_scope x = scope_value (scope c)) && bool_decide (peer (rc_entry x) = receiver c)
      | None => false
      end) (seq 0 (Z.to_nat (count (sleep_image s))))
  else None.
Definition guarded_cid (s : Sleeper) (i : nat) : Z := match contexts (sleep_image s) !! i with Some x => tx_cid (rc_entry x) | None => 0 end.

(** The bank draws, then the retained image advances, and both must agree. *)
Definition issue_guarded (c : SecurityContext) (i : nat) : M Node Z :=
  bank_counter ← on_bank (next_counter hmac c);
  s ← get_sleep;
  retained ← try (on_port (advance_rtc_tx (sleep_image s) i));
  (match retained with Ok (im, _) => set_sleep (with_image im) | Err _ _ => mret tt end);;
  if bool_decide (snd <$> (match retained with Ok x => Some x | Err _ _ => None end) = Some bank_counter) then mret bank_counter
  else
    try (on_bank (retire hmac (scope c) (receiver c)));;
    disarm_slot i;;
    match retained with
    | Ok _ => throw InternalError "write-ahead diverged"
    | Err code detail => throw code detail
    end.
Definition guarded_next_counter (c : SecurityContext) : M Node Z :=
  s ← get_sleep;
  match guarded_slot s c with
  | None => on_bank (next_counter hmac c)
  | Some i =>
      live ← try (on_bank (tx_epoch hmac (scope c) (receiver c)));
      if negb (bool_decide (live = Ok (guarded_cid s i))) then disarm_slot i;; on_bank (next_counter hmac c)
      else issue_guarded c i
  end.

(** ** Save and restore of the coordinator *)

(** What the stores say of the membership. *)
Record Membership := mkMembership { mb_network : NetworkId; mb_generation : Z; mb_commit : Z; mb_gk_epoch : Z; mb_rs_floor : Z; mb_kid : list Z }.

(** The image that a save builds from the bank. *)
Definition build_image (boot : Z) (mb : Membership) (parent : NodeId) (mac : list Z) (binding : Z) (b : SessionBank) : result RtcSessionImage :=
  link ← export_sleep_entry hmac b Link parent;
  let second :=
    match first_live_peer b EndToEnd with
    | Some p => match export_sleep_entry hmac b EndToEnd p with Ok e => Some e | Err _ _ => None end
    | None => None
    end in
  let c0 := mkRtcContext (scope_value Link) link in
  let im n c1 := mkImage boot (mb_network mb) (mb_generation mb) (mb_commit mb) (mb_gk_epoch mb) (mb_rs_floor mb) (mb_kid mb) mac binding n [c0; c1] in
  Ok (match second with
      | Some e => im 2 (mkRtcContext (scope_value EndToEnd) e)
      | None => im 1 (mkRtcContext 0 zero_entry)
      end).

(** The contexts whose retained half is lost leave the bank. *)
Fixpoint retire_contexts (l : list (SecurityScope * RtcSessionContext)) : M Node unit :=
  match l with
  | [] => mret tt
  | (sc, x) :: l => try (on_bank (retire hmac sc (peer (rc_entry x))));; retire_contexts l
  end.

(** The end of a save: the image is written, and the guard that tracks an
    older one is armed over it. *)
Definition commit_image (image : RtcSessionImage) (encoded : list Z) : M Node unit :=
  on_port (rtc_write encoded);;
  s ← get_sleep;
  if armed s then
    disarm;;
    set_sleep (with_image image);;
    rearmed ← try arm;
    match rearmed with
    | Ok _ => mret tt
    | Err code detail =>
        retire_contexts (zip [Link; EndToEnd] (used image));;
        set_sleep (with_image zero_image);;
        throw code detail
    end
  else mret tt.

(** [save_sleep_image] of a parked member without work. *)
Definition save_sleep_image (boot : Z) (mb : Membership) (parent : NodeId) (mac : list Z) (binding now : Z) : M Node unit :=
  fail_if (bool_decide (parent = kInvalidNodeId) || bool_decide (parent = kBroadcastNodeId) || bool_decide (binding = 0) ||
           bool_decide (mac = no_mac) || bool_decide (mac = broadcast_mac)) InvalidArgument "sleep save parent shape";;
  on_bank (tick now);;
  n ← getS;
  image ← lift (build_image boot mb parent mac binding (n_bank n));
  encoded ← lift (encode image);
  commit_image image encoded.

Definition fail_restore {A} (code : StatusCode) (detail : string) : M Node A :=
  set_sleep (λ s, with_restore (RestoreFailed code detail) (restore_elapsed_ms s) (with_image zero_image s));; throw code detail.

(** The deduction of time that passed while the image was held. *)
Definition deduct (elapsed : Z) : M Node unit :=
  s ← get_sleep;
  if bool_decide (restore_elapsed_ms s < elapsed) then
    let delta := elapsed - restore_elapsed_ms s in
    if outlived delta (sleep_image s) then fail_restore IntegrityError "sleep restore elapsed"
    else set_sleep (λ s, with_restore (restore_state s) elapsed (with_image (age_image delta (sleep_image s)) s))
  else mret tt.

Definition rtc_parent_warm_ok (im : RtcSessionImage) (observed : list Z) (parent_bound : bool) : bool :=
  negb (bool_decide (count im = 0) || bool_decide (2 < count im) || negb parent_bound) && bool_decide (parent_mac im = observed).
Definition rtc_parent_binding_ok (im : RtcSessionImage) (observed : list Z) (live_binding : Z) : bool :=
  negb (bool_decide (count im = 0) || bool_decide (2 < count im) || bool_decide (live_binding = 0) || negb (bool_decide (parent_binding im = live_binding))) &&
  bool_decide (parent_mac im = observed).

Definition rebase (boot : Z) (im : RtcSessionImage) : RtcSessionImage :=
  mkImage boot (im_network im) (local_generation im) (site_commit im) (im_gk_epoch im) (rs_floor im)
    (kid_digest im) (parent_mac im) (parent_binding im) (count im) (contexts im).
Definition entry_at (im : RtcSessionImage) (i : nat) : SessionBankEntry := match contexts im !! i with Some x => rc_entry x | None => zero_entry end.

(** The installation of a held image and the arming of its guard. *)
Definition install_held (boot : Z) : M Node unit :=
  s ← get_sleep;
  let link := entry_at (sleep_image s) 0 in
  let fin := entry_at (sleep_image s) 1 in
  restored ← try (on_bank (restore_entry hmac Link (peer link) link));
  match restored with
  | Err code detail => fail_restore code detail
  | Ok _ =>
      (if bool_decide (count (sleep_image s) = 2) then try (on_bank (restore_entry hmac EndToEnd (peer fin) fin));; mret tt else mret tt);;
      set_sleep (λ s, with_image (rebase boot (sleep_image s)) s);;
      guarded ← try arm;
      match guarded with
      | Ok _ => set_sleep (with_restore RestoreDone (restore_elapsed_ms s))
      | Err code detail =>
          try (on_bank (retire hmac Link (peer link)));;
          (if bool_decide (count (sleep_image s) = 2) then try (on_bank (retire hmac EndToEnd (peer fin)));; mret tt else mret tt);;
          fail_restore code detail
      end
  end.

(** The three parts of [restore_sleep_image] of an adopted member: the image is
    consumed once and held, ... *)
Definition hold_image (wake : RtcWakeCheck) : M Node unit :=
  s ← get_sleep;
  if bool_decide (restore_state s = RestoreHolding) then mret tt
  else
    consumed ← try (on_port (consume_rtc_session wake));
    match consumed with
    | Err code detail => fail_restore code detail
    | Ok im => set_sleep (λ s, with_restore RestoreHolding (trusted_elapsed_ms wake) (with_image im s))
    end.
(** ... the parent is checked and the image installed.  [observed] is the radio
    address of the parent, once it is bound; [member] and [revoked] are the
    answers of the membership hooks. *)
Definition bind_parent (boot : Z) (observed : NodeId → option (list Z)) (member : bool) (revoked : NodeId → Z → bool) : M Node unit :=
  s ← get_sleep;
  match observed (peer (entry_at (sleep_image s) 0)) with
  | None => throw Busy "sleep restore parent unbound"
  | Some mac =>
      if negb (rtc_parent_warm_ok (sleep_image s) mac true) then fail_restore AuthorizationFailed "sleep restore parent changed"
      else if negb member then fail_restore AuthorizationFailed "sleep restore membership lost"
      else if existsb (λ c, revoked (peer (rc_entry c)) (peer_generation (rc_entry c))) (used (sleep_image s))
      then fail_restore AuthorizationFailed "sleep restore peer revoked"
      else install_held boot
  end.
Definition restore_sleep_image (boot : Z) (wake : RtcWakeCheck) (observed : NodeId → option (list Z)) (member : bool) (revoked : NodeId → Z → bool) : M Node unit :=
  s ← get_sleep;
  match restore_state s with
  | RestoreDone => mret tt
  | RestoreFailed code detail => throw code detail
  | _ =>
      if negb (bool_decide (next_boot wake = boot)) then fail_restore InvalidArgument "sleep restore boot mismatch"
      else hold_image wake;; deduct (trusted_elapsed_ms wake);; bind_parent boot observed member revoked
  end.

(** [on_wake] and [stop_traffic], as far as sessions go. *)
Definition on_wake : M Node unit := disarm.
Definition stop_traffic : M Node unit :=
  on_bank (modifyS clear);; disarm;; set_sleep (λ s, with_restore RestoreIdle (restore_elapsed_ms s) (with_image zero_image s)).
(** [EspNowPowerPort::abort_sleep], as far as the image goes; [parked_] when
    the coordinator was prepared for the sleep. *)
Definition abort_sleep (parked_ : bool) : M Node unit := try (on_port rtc_invalidate);; if parked_ then on_wake else mret tt.

End Node.
