(* ===== verification/SessionRtcProps.v ===== *)
(** * Session images: the record

    What the encoder writes the decoder reads back, and nothing that lacks
    the head of a record is read at all. *)

From S2P Require Import Prelude Types Crc32 SessionBank SessionRtc.

(** ** Reading back *)

(** [m] reads exactly [bs] and returns [v]. *)
Definition takes {A} (m : M (list Z) A) (bs : list Z) (v : A) : Prop := ∀ rest, m (bs ++ rest) = (Ok v, rest).

Lemma takes_bind {A B} (m : M (list Z) A) (k : A → M (list Z) B) bs cs v w : takes m bs v → takes (k v) cs w → takes (m ≫= k) (bs ++ cs) w.
Proof. intros Hm Hk rest. rewrite <- app_assoc. rewrite (M_bind_ok _ _ _ _ _ (Hm _)). apply Hk. Qed.
Lemma takes_ret {A B} (m : M (list Z) A) (g : A → B) bs v : takes m bs v → takes (a ← m; mret (g a)) bs (g v).
Proof. intros Hm rest. by rewrite (M_bind_ok _ _ _ _ _ (Hm _)). Qed.
Lemma takes_get n v : (n ≤ 8)%nat → in_range (8 * Z.of_nat n) v → takes (get n) (put v n) v.
Proof.
  intros Hn Hv rest. unfold get, put. rewrite take_app_length', drop_app_length' by (by rewrite length_be_bytes). rewrite be_value_be_bytes; [done|lia|done].
Qed.
Lemma takes_bytes n bs : length bs = n → takes (get_bytes n) bs bs.
Proof. intros <- rest. unfold get_bytes. by rewrite take_app_length, drop_app_length. Qed.

(** The fields at their widths. *)
Record entry_typed (e : SessionBankEntry) : Prop := {
  et_peer : is_u64 (peer e); et_next : is_u64 (tx_next e); et_max : is_u64 (rx_max e); et_bits : is_u64 (rx_bitmap e);
  et_tk : length (tx_key e) = 16%nat ∧ bytes_ok (tx_key e); et_rk : length (rx_key e) = 16%nat ∧ bytes_ok (rx_key e);
  et_ti : length (tx_iv e) = 12%nat ∧ bytes_ok (tx_iv e); et_ri : length (rx_iv e) = 12%nat ∧ bytes_ok (rx_iv e);
  et_cert : length (peer_cert_id e) = 8%nat ∧ bytes_ok (peer_cert_id e);
  et_tc : is_u32 (tx_cid e); et_rc : is_u32 (rx_cid e); et_gen : is_u32 (peer_generation e); et_role : is_u32 (peer_role e);
  et_gk : is_u32 (created_gk e); et_ms : is_u32 (remaining_ms e); et_serial : is_u32 (install_serial e); et_flags : is_u32 (flags e) }.
Definition context_typed (c : RtcSessionContext) : Prop := is_u8 (rc_scope c) ∧ entry_typed (rc_entry c).
Definition unused_context : RtcSessionContext := mkRtcContext 0 zero_entry.

(** An image with two slots; the second is clear unless it is used. *)
Record image_typed (im : RtcSessionImage) : Prop := {
  it_boot : is_u32 (source_boot im); it_network : is_u64 (im_network im); it_generation : is_u32 (local_generation im); it_commit : is_u32 (site_commit im);
  it_gk : is_u32 (im_gk_epoch im); it_rs : is_u32 (rs_floor im); it_kid : length (kid_digest im) = 16%nat ∧ bytes_ok (kid_digest im);
  it_mac : length (parent_mac im) = 6%nat ∧ bytes_ok (parent_mac im); it_binding : is_u32 (parent_binding im);
  it_slots : ∃ c0 c1, contexts im = [c0; c1] ∧ context_typed c0 ∧ ((count im = 1 ∧ c1 = unused_context) ∨ (count im = 2 ∧ context_typed c1)) }.

Lemma zero_context_typed : context_typed unused_context.
Proof. split; [done|]. split; try done; split; try done; apply (bool_decide_eq_true_1 (bytes_ok _)); by vm_compute. Qed.
Lemma zero_context_bytes : write_context unused_context = replicate kContext 0.
Proof. by vm_compute. Qed.

Ltac take_step := eapply takes_bind; [first [apply takes_get; [lia|done]|apply takes_bytes; tauto]|].
Lemma takes_context c : context_typed c → takes read_context (write_context c) c.
Proof.
  destruct c as [sc [p tx rx bits tk rk ti ri cert tc rc gen role gk ms serial fl]]. unfold read_context, write_context. intros [Hsc []].
  cbn [rc_scope rc_entry peer tx_next rx_max rx_bitmap tx_key rx_key tx_iv rx_iv peer_cert_id tx_cid rx_cid peer_generation peer_role created_gk remaining_ms install_serial flags] in *.
  do 18 take_step.
  apply (takes_ret (get 4) (λ x, mkRtcContext sc (mkEntry p tx rx bits tk rk ti ri cert tc rc gen role gk ms serial x))). by apply takes_get; [lia|].
Qed.
Lemma write_context_length c : context_typed c → length (write_context c) = kContext.
Proof. intros [_ []]. unfold write_context, put. rewrite !length_app, !length_be_bytes. destruct et_tk0 as [-> _], et_rk0 as [-> _], et_ti0 as [-> _], et_ri0 as [-> _], et_cert0 as [-> _]. done. Qed.
Lemma write_context_bytes c : context_typed c → bytes_ok (write_context c).
Proof. intros [_ []]. unfold write_context, put, bytes_ok. rewrite !Forall_app. split_and!; try apply be_bytes_ok; tauto. Qed.
Lemma write_context_padding c rest : take 7 (drop 1 (write_context c ++ rest)) = replicate 7 0.
Proof. unfold write_context, put. rewrite <- !app_assoc. done. Qed.

Section Record_.
Context (kResourceProfileId : Z) (Hprofile : is_u8 kResourceProfileId).

Lemma write_head_length im : image_typed im → length (write_head kResourceProfileId im) = kHeader.
Proof. intros []. unfold write_head, put. rewrite !length_app, !length_be_bytes. destruct it_kid0 as [-> _], it_mac0 as [-> _]. done. Qed.
Lemma write_head_bytes im : image_typed im → bytes_ok (write_head kResourceProfileId im).
Proof. intros []. unfold write_head, put, bytes_ok. rewrite !Forall_app. split_and!; try apply be_bytes_ok; tauto. Qed.

(** Both slots are there in the record, whether or not both are used. *)
Lemma rtc_body_split im c0 c1 : image_typed im → contexts im = [c0; c1] → rtc_body kResourceProfileId im = write_head kResourceProfileId im ++ write_context c0 ++ write_context c1.
Proof.
  intros Ht Hc. pose proof (write_head_length im Ht) as Hh. destruct (it_slots _ Ht) as (x0 & x1 & Hx & H0 & H1). rewrite Hc in Hx. injection Hx as <- <-.
  pose proof (write_context_length c0 H0) as L0. unfold rtc_body, used. rewrite Hc. destruct H1 as [[-> ->]|[-> H1]].
  - change (Z.to_nat 1) with 1%nat. cbn [take fmap list_fmap concat]. rewrite app_nil_r, length_app, Hh, L0, zero_context_bytes, <- app_assoc. done.
  - pose proof (write_context_length c1 H1) as L1. change (Z.to_nat 2) with 2%nat. cbn [take fmap list_fmap concat]. rewrite app_nil_r, !length_app, Hh, L0, L1. cbn [replicate Nat.sub kRtcSessionRecordSize kHeader kContext Nat.add].
    by rewrite app_nil_r.
Qed.
Lemma rtc_body_length im : image_typed im → length (rtc_body kResourceProfileId im) = 342%nat.
Proof.
  intros Ht. destruct (it_slots _ Ht) as (c0 & c1 & Hc & H0 & H1). rewrite (rtc_body_split im c0 c1 Ht Hc), !length_app, write_head_length, write_context_length by done.
  rewrite write_context_length; [done|]. destruct H1 as [[_ ->]|[_ ?]]; [apply zero_context_typed|done].
Qed.
Lemma rtc_body_bytes im : image_typed im → bytes_ok (rtc_body kResourceProfileId im).
Proof.
  intros Ht. destruct (it_slots _ Ht) as (c0 & c1 & Hc & H0 & H1). rewrite (rtc_body_split im c0 c1 Ht Hc). unfold bytes_ok. rewrite !Forall_app.
  split_and!; [by apply write_head_bytes|by apply write_context_bytes|apply write_context_bytes]. destruct H1 as [[_ ->]|[_ ?]]; [apply zero_context_typed|done].
Qed.
Lemma rtc_record_length im : image_typed im → length (rtc_record kResourceProfileId im) = kRtcSessionRecordSize.
Proof. intros Ht. unfold rtc_record, put. by rewrite length_app, length_be_bytes, rtc_body_length. Qed.

Lemma rtc_record_bytes im : image_typed im → bytes_ok (rtc_record kResourceProfileId im).
Proof. intros Ht. unfold rtc_record, put, bytes_ok. rewrite Forall_app. split; [by apply rtc_body_bytes|apply be_bytes_ok]. Qed.

Lemma takes_fst {A} (m : M (list Z) A) bs v rest : takes m bs v → fst (m (bs ++ rest)) = Ok v.
Proof. intros Hm. by rewrite Hm. Qed.

(** The head of a record, up to its commit word, and the rest. *)
Definition head4 : list Z := put kMagic 4 ++ put 1 2 ++ put (Z.of_nat kRtcSessionRecordSize) 2 ++ put kCommitted 4.
Definition fields (im : RtcSessionImage) : list Z :=
  put (source_boot im) 4 ++ put (im_network im) 8 ++ put (local_generation im) 4 ++ put (site_commit im) 4 ++
  put (im_gk_epoch im) 4 ++ put (rs_floor im) 4 ++ kid_digest im ++ parent_mac im ++ put (parent_binding im) 4 ++ put (count im) 1.
Lemma write_head_split im : write_head kResourceProfileId im = head4 ++ fields im ++ put kResourceProfileId 1 ++ put 0 2.
Proof. unfold write_head, head4, fields. by rewrite <- !app_assoc. Qed.

Lemma takes_head4 : takes (a ← get 4; b ← get 2; c ← get 2; d ← get 4; mret (a, b, c, d)) head4 (kMagic, 1, Z.of_nat kRtcSessionRecordSize, kCommitted).
Proof using. unfold head4. do 3 take_step. apply (takes_ret (get 4) (λ d, (kMagic, 1, Z.of_nat kRtcSessionRecordSize, d))). by apply takes_get; [lia|]. Qed.
Lemma count_range im : image_typed im → is_u8 (count im).
Proof. intros Ht. destruct (it_slots _ Ht) as (c0 & c1 & _ & _ & [[-> _]|[-> _]]); done. Qed.
Lemma takes_fields im : image_typed im → takes read_head (fields im) (λ cs, mkImage (source_boot im) (im_network im) (local_generation im) (site_commit im) (im_gk_epoch im) (rs_floor im) (kid_digest im) (parent_mac im) (parent_binding im) (count im) cs).
Proof using.
  intros Ht. pose proof (count_range im Ht). destruct Ht. unfold read_head, fields. do 9 take_step.
  apply (takes_ret (get 1) (λ n, λ cs, mkImage (source_boot im) (im_network im) (local_generation im) (site_commit im) (im_gk_epoch im) (rs_floor im) (kid_digest im) (parent_mac im) (parent_binding im) n cs)).
  by apply takes_get; [lia|].
Qed.

Lemma record_padding im : image_typed im → padding_zero im (rtc_record kResourceProfileId im) = true.
Proof using.
  intros Ht. destruct (it_slots _ Ht) as (c0 & c1 & Hc & H0 & H1). pose proof (write_head_length im Ht) as Lh. pose proof (write_context_length c0 H0) as L0.
  unfold padding_zero, rtc_record. rewrite (rtc_body_split im c0 c1 Ht Hc). set (tail := put _ 4).
  assert (Hd0 : ∀ k, drop (kHeader + k) ((write_head kResourceProfileId im ++ write_context c0 ++ write_context c1) ++ tail) = drop k (write_context c0 ++ write_context c1 ++ tail)).
  { intros k. rewrite <- !app_assoc. rewrite drop_app_ge by lia. by replace (kHeader + k - length (write_head kResourceProfileId im))%nat with k by lia. }
  assert (Hd1 : ∀ k, drop (kHeader + (kContext + k)) ((write_head kResourceProfileId im ++ write_context c0 ++ write_context c1) ++ tail) = drop k (write_context c1 ++ tail)).
  { intros k. rewrite Hd0. rewrite drop_app_ge by lia. by replace (kContext + k - length (write_context c0))%nat with k by lia. }
  assert (P0 : forallb (λ x, bool_decide (x = 0)) (take 7 (drop (kHeader + 0 * kContext + 1) ((write_head kResourceProfileId im ++ write_context c0 ++ write_context c1) ++ tail))) = true).
  { change (kHeader + 0 * kContext + 1)%nat with (kHeader + 1)%nat. by rewrite Hd0, write_context_padding. }
  destruct H1 as [[-> ->]|[-> H1]].
  - change (Z.to_nat 1) with 1%nat. cbn [seq forallb]. rewrite P0. cbn [andb negb orb bool_decide]. rewrite (bool_decide_eq_true_2 (1 = 1)) by done. cbn [negb orb].
    change (kHeader + kContext)%nat with (kHeader + (kContext + 0))%nat at 2. rewrite Hd1. rewrite zero_context_bytes. done.
  - change (Z.to_nat 2) with 2%nat. cbn [seq forallb]. rewrite P0. cbn [andb]. change (kHeader + 1 * kContext + 1)%nat with (kHeader + (kContext + 1))%nat. rewrite Hd1, write_context_padding. done.
Qed.

Definition wake_ok (wake : RtcWakeCheck) (im : RtcSessionImage) : bool :=
  deep_sleep wake && sleep_marker wake && negb (bool_decide (trusted_elapsed_ms wake = 0)) && wake_matches wake im && negb (outlived (trusted_elapsed_ms wake) im).

Lemma decode_record im wake :
  image_typed im → valid im = true →
  decode_rtc_session kResourceProfileId (rtc_record kResourceProfileId im) wake =
    if wake_ok wake im then Ok (age_image (trusted_elapsed_ms wake) im) else Err IntegrityError "RTC session invalid".
Proof using Hprofile.
  intros Ht Hv. pose proof (record_padding im Ht) as Hpad. pose proof (rtc_record_length im Ht) as Hlen. pose proof (rtc_body_length im Ht) as Hbl.
  pose proof (rtc_body_bytes im Ht) as Hbb. unfold decode_rtc_session, wake_ok, invalid_if. rewrite (bool_decide_eq_true_2 (length _ = _)) by done. cbn [negb orb].
  destruct (deep_sleep wake); [|done]. destruct (sleep_marker wake); [|done]. destruct (bool_decide (trusted_elapsed_ms wake = 0)); [done|]. cbn [negb orb andb guard_err].
  destruct (it_slots _ Ht) as (c0 & c1 & Hc & H0 & H1). assert (H1' : context_typed c1) by (destruct H1 as [[_ ->]|[_ ?]]; [apply zero_context_typed|done]).
  assert (Hcnt : bool_decide (count im = 0) = false ∧ bool_decide (2 < count im) = false) by (destruct H1 as [[-> _]|[-> _]]; done). destruct Hcnt as [Hc0 Hc2].
  assert (Hcrc : fst (get 4 (drop (kRtcSessionRecordSize - 4) (rtc_record kResourceProfileId im))) = Ok (crc32_iso_hdlc (rtc_body kResourceProfileId im))).
  { unfold rtc_record. rewrite drop_app_length' by (rewrite Hbl; done). rewrite <- (app_nil_r (put _ 4)). apply takes_fst, takes_get; [lia|]. by apply crc32_range. }
  assert (Htk : take (kRtcSessionRecordSize - 4) (rtc_record kResourceProfileId im) = rtc_body kResourceProfileId im) by (unfold rtc_record; by rewrite take_app_length' by (rewrite Hbl; done)).
  rewrite Hcrc, Htk. assert (Hrec : rtc_record kResourceProfileId im = head4 ++ (fields im ++ put kResourceProfileId 1 ++ put 0 2 ++ write_context c0 ++ write_context c1 ++ put (crc32_iso_hdlc (rtc_body kResourceProfileId im)) 4)).
  { unfold rtc_record. rewrite (rtc_body_split im c0 c1 Ht Hc) at 1. rewrite write_head_split. by rewrite <- !app_assoc. }
  set (raw := rtc_record kResourceProfileId im) in *. set (crc := crc32_iso_hdlc _) in *.
  assert (E1 : fst ((a ← get 4; b ← get 2; c ← get 2; d ← get 4; mret (a, b, c, d)) raw) = Ok (kMagic, 1, Z.of_nat kRtcSessionRecordSize, kCommitted)) by (rewrite Hrec; apply takes_fst, takes_head4).
  rewrite E1, !bind_Ok. rewrite guard_pass by (by rewrite !bool_decide_eq_true_2). rewrite ?bind_Ok. rewrite guard_pass by (by rewrite bool_decide_eq_true_2).
  set (hd := λ cs, mkImage (source_boot im) (im_network im) (local_generation im) (site_commit im) (im_gk_epoch im) (rs_floor im) (kid_digest im) (parent_mac im) (parent_binding im) (count im) cs).
  assert (E2 : fst ((h ← read_head; p ← get 1; z ← get 2; a ← read_context; b ← read_context; mret (h, p, z, a, b)) (drop 12 raw)) = Ok (hd, kResourceProfileId, 0, c0, c1)).
  { rewrite Hrec. rewrite drop_app_length' by done. rewrite !(assoc (++)). rewrite <- (assoc (++) _ (write_context c1)). rewrite <- !(assoc (++)). rewrite !(assoc (++) _ _ (put crc 4)).
    apply takes_fst. eapply takes_bind; [by apply takes_fields|]. eapply takes_bind; [apply takes_get; [lia|done]|]. eapply takes_bind; [by apply takes_get; [lia|]|].
    eapply takes_bind; [by apply takes_context|]. by apply (takes_ret read_context (λ b, (hd, kResourceProfileId, 0, c0, b))), takes_context. }
  assert (Him : hd [c0; c1] = im) by (unfold hd; rewrite <- Hc; by destruct im).
  rewrite E2, bind_Ok, Him. rewrite guard_pass by (rewrite Hc0, Hc2; by rewrite !bool_decide_eq_true_2). rewrite guard_pass by (by rewrite Hpad).
  rewrite Hv. cbn [negb orb]. destruct (wake_matches wake im); [|done]. cbn [negb andb]. destruct (outlived _ im); done.
Qed.

(** What is not the head of a record is not read. *)
Definition undecodable (v : list Z) : Prop := ∀ wake im, decode_rtc_session kResourceProfileId v wake ≠ Ok im.
Lemma decode_head v wake im : decode_rtc_session kResourceProfileId v wake = Ok im → be_value 64 (take 4 v) = kMagic ∧ marker v = kCommitted.
Proof using.
  unfold decode_rtc_session, invalid_if. intros Hd. apply guard_err_bind in Hd as [_ Hd]. apply result_bind_inv in Hd as ([[[a b] c] d] & He & Hd). apply guard_err_bind in Hd as [Hg _].
  unfold get, mbind, M_bind, mret, M_ret in He. cbn [fst] in He. injection He as <- <- <- <-. rewrite !orb_false_iff, !negb_false_iff, !bool_decide_eq_true in Hg.
  destruct Hg as [[[Ha _] _] Hm]. split; [done|]. unfold marker. rewrite !drop_drop in Hm. exact Hm.
Qed.
Lemma no_marker_undecodable v : marker v ≠ kCommitted → undecodable v.
Proof using. intros Hm wake im Hd. by apply decode_head in Hd as [_ ?]. Qed.
Lemma no_magic_undecodable v : length v = kRtcSessionRecordSize → bytes_ok v → v !! 0%nat = Some 0 → undecodable v.
Proof using.
  intros Hl Hb H0 wake im Hd. apply decode_head in Hd as [Hm _]. assert (Hl4 : length (take 4 v) = 4%nat) by (rewrite length_take, Hl; done).
  destruct (be_bytes_be_value 64 (take 4 v)) as [Hx _]; [rewrite Hl4; lia|by apply Forall_take|]. rewrite Hm, Hl4 in Hx.
  apply (f_equal (λ l, l !! 0%nat)) in Hx. rewrite lookup_take_lt, H0 in Hx by lia. done.
Qed.
End Record_.
