(* ===== verification/SessionRtcPort.v ===== *)
(** * Session images: the buffer port

    What the users of an RTC port rely on when power may fail, and
    [BufferRtcSessionPort] as an instance: the bytes of the backing are
    written one after another, and power fails after any of them. *)

From S2P Require Import Prelude Types Crc32 SessionBank SessionRtc SessionRtcProps.

(** The contract.  While power lasts every call succeeds.  A call that is cut
    leaves what was there, nothing that can be read, or what it wrote. *)
Class RtcSessionPortLaws (kResourceProfileId : Z) (ST : Type) `{RtcSessionPort ST} := {
  rtc_ok : ST → Prop;
  rtc_view : ST → list Z;
  rtc_alive : ST → bool;
  read_law st r st' : rtc_ok st → rtc_read st = (r, st') → st' = st ∧ if rtc_alive st then r = Ok (rtc_view st) else is_Some (match r with Ok _ => None | Err c d => Some (c, d) end);
  invalidate_law st r st' : rtc_ok st → rtc_invalidate st = (r, st') →
    rtc_ok st' ∧ (rtc_alive st = false → rtc_alive st' = false ∧ rtc_view st' = rtc_view st) ∧
    match r with
    | Ok _ => rtc_alive st = true ∧ rtc_alive st' = true ∧ undecodable kResourceProfileId (rtc_view st') ∧ marker (rtc_view st') ≠ kCommitted
    | Err _ _ => rtc_alive st' = false ∧ (rtc_view st' = rtc_view st ∨ undecodable kResourceProfileId (rtc_view st'))
    end;
  write_law st img r st' : rtc_ok st → length img = kRtcSessionRecordSize → bytes_ok img → rtc_write img st = (r, st') →
    rtc_ok st' ∧ (rtc_alive st = false → rtc_alive st' = false ∧ rtc_view st' = rtc_view st) ∧
    match r with
    | Ok _ => rtc_alive st = true ∧ rtc_alive st' = true ∧ rtc_view st' = img
    | Err _ _ => rtc_alive st' = false ∧ (rtc_view st' = rtc_view st ∨ undecodable kResourceProfileId (rtc_view st') ∨ rtc_view st' = img)
    end }.

(** ** Byte by byte *)

Definition store (v : list Z) (w : nat * Z) : list Z := <[fst w := snd w]> v.
Definition stores (ws : list (nat * Z)) (v : list Z) : list Z := foldl store v ws.
Fixpoint copy (off : nat) (bs : list Z) : list (nat * Z) :=
  match bs with [] => [] | x :: bs => (off, x) :: copy (S off) bs end.
(** [secure_clear] of the backing, and the order of [write]: the commit word comes last. *)
Definition clear_bytes : list (nat * Z) := copy 0 (replicate kRtcSessionRecordSize 0).
Definition write_bytes (img : list Z) : list (nat * Z) :=
  clear_bytes ++ copy 0 (take 8 img) ++ copy 12 (drop 12 img) ++ copy 8 (take 4 (drop 8 img)).

(** [budget] is the number of bytes that are still written before power fails. *)
Record BufferRtc := mkBufferRtc { backing_ : list Z; budget : nat }.
Definition run_stores (ws : list (nat * Z)) : M BufferRtc unit :=
  λ p, if (length ws <? budget p)%nat then (Ok tt, mkBufferRtc (stores ws (backing_ p)) (budget p - length ws))
       else (Err StorageFailure "power lost", mkBufferRtc (stores (take (budget p) ws) (backing_ p)) 0).
Definition sized (v : list Z) : bool := bool_decide (length v = kRtcSessionRecordSize).
Definition read_backing : M BufferRtc (list Z) :=
  λ p, if (0 <? budget p)%nat then ((fail_if (negb (sized (backing_ p))) InvalidArgument "RTC buffer size";; mret (backing_ p)) p) else (Err StorageFailure "power lost", p).
Definition invalidate_backing : M BufferRtc unit :=
  λ p, (fail_if (negb (sized (backing_ p))) InvalidArgument "RTC buffer size";; run_stores clear_bytes) p.
Definition write_backing (img : list Z) : M BufferRtc unit :=
  λ p, (fail_if (negb (sized (backing_ p)) || negb (sized img)) InvalidArgument "RTC buffer size";; run_stores (write_bytes img)) p.
#[export] Instance buffer_port : RtcSessionPort BufferRtc := {| rtc_read := read_backing; rtc_invalidate := invalidate_backing; rtc_write := write_backing |}.

Lemma stores_app ws ws' v : stores (ws ++ ws') v = stores ws' (stores ws v).
Proof. apply foldl_app. Qed.
Lemma stores_length ws v : length (stores ws v) = length v.
Proof. unfold stores. revert v. induction ws as [|w ws IH]; intros v; [done|]. cbn [foldl]. rewrite IH. apply length_insert. Qed.
Lemma copy_length off bs : length (copy off bs) = length bs.
Proof. revert off. induction bs as [|x bs IH]; intros off; [done|]. cbn. by rewrite IH. Qed.
Lemma copy_splice off bs v : (off + length bs ≤ length v)%nat → stores (copy off bs) v = take off v ++ bs ++ drop (off + length bs) v.
Proof.
  revert off v. induction bs as [|x bs IH]; intros off v Hl; cbn [copy length stores foldl]; [by rewrite Nat.add_0_r, app_nil_l, take_drop|].
  change (foldl store (store v (off, x)) (copy (S off) bs)) with (stores (copy (S off) bs) (store v (off, x))). cbn [length] in Hl. rewrite IH by (unfold store; rewrite length_insert; cbn; lia).
  unfold store. cbn [fst snd]. rewrite (insert_take_drop v off x) by lia. assert (Ht : length (take off v) = off) by (rewrite length_take; lia).
  assert (Hd : drop (S off + length bs) (take off v ++ x :: drop (S off) v) = drop (off + S (length bs)) v).
  { rewrite drop_app_ge by lia. rewrite Ht. replace (S off + length bs - off)%nat with (S (length bs)) by lia. cbn [drop]. rewrite drop_drop. f_equal. lia. }
  rewrite Hd. replace (S off) with (length (take off v) + 1)%nat at 1 by lia. rewrite take_app_add'. 2: done. cbn [take]. rewrite take_0. by rewrite <- app_assoc.
Qed.
Lemma stores_other ws v i : Forall (λ w, fst w ≠ i) ws → stores ws v !! i = v !! i.
Proof.
  unfold stores. intros Hw. revert v. induction Hw as [|w ws Hne _ IH]; intros v; [done|]. cbn [foldl]. rewrite IH. unfold store. by rewrite list_lookup_insert_ne.
Qed.
Lemma stores_zero ws v i : Forall (λ w, snd w = 0) ws → v !! i = Some 0 → stores ws v !! i = Some 0.
Proof.
  unfold stores. intros Hw. revert v. induction Hw as [|w ws Hz _ IH]; intros v Hv; [done|]. cbn [foldl]. apply IH. unfold store. rewrite Hz.
  destruct (decide (fst w = i)) as [->|Hne]; [|by rewrite list_lookup_insert_ne]. rewrite list_lookup_insert_eq; [done|]. by eapply lookup_lt_Some.
Qed.
Lemma stores_bytes ws v : bytes_ok v → Forall (λ w, is_u8 (snd w)) ws → bytes_ok (stores ws v).
Proof. unfold stores. intros Hv Hw. revert v Hv. induction Hw as [|w ws Hz _ IH]; intros v Hv; [done|]. cbn [foldl]. apply IH. by apply Forall_insert. Qed.
Lemma copy_bytes off bs : bytes_ok bs → Forall (λ w, is_u8 (snd w)) (copy off bs).
Proof. intros Hb. revert off. induction Hb as [|x bs Hx _ IH]; intros off; constructor; [done|apply IH]. Qed.
Lemma copy_range off bs : Forall (λ w, (off ≤ fst w < off + length bs)%nat) (copy off bs).
Proof.
  revert off. induction bs as [|x bs IH]; intros off; constructor; [cbn; lia|]. eapply Forall_impl; [apply IH|]. cbn. intros w Hw. lia.
Qed.
Lemma copy_app off bs cs : copy off (bs ++ cs) = copy off bs ++ copy (off + length bs) cs.
Proof. revert off. induction bs as [|x bs IH]; intros off; cbn; [by rewrite Nat.add_0_r|]. rewrite IH. do 2 f_equal. by rewrite Nat.add_succ_comm. Qed.

(** ** Cuts *)

Section Cuts.
Context (kResourceProfileId : Z).
Abbreviation unread := (undecodable kResourceProfileId).

Lemma take_copy n off bs : take n (copy off bs) = copy off (take n bs).
Proof using. revert n off. induction bs as [|x bs IH]; intros [|n] off; [done..|]. cbn. f_equal. apply IH. Qed.
Lemma take_zeros n k : take n (copy 0 (replicate k 0)) = copy 0 (replicate (n `min` k) 0).
Proof using. by rewrite take_copy, take_replicate. Qed.
Lemma stores_clear v n : length v = kRtcSessionRecordSize → (n ≤ kRtcSessionRecordSize)%nat → stores (copy 0 (replicate n 0)) v = replicate n 0 ++ drop n v.
Proof using. intros Hl Hn. rewrite copy_splice by (rewrite length_replicate; lia). rewrite length_replicate. done. Qed.

(** A clear that has begun. *)
Lemma clear_cut v n : length v = kRtcSessionRecordSize → bytes_ok v → let v' := stores (take n clear_bytes) v in v' = v ∨ unread v'.
Proof using.
  intros Hl Hb v'. unfold v', clear_bytes. rewrite take_zeros. destruct (decide (n = 0%nat)) as [->|Hn]; [by left|right].
  rewrite stores_clear by (done || lia). apply no_magic_undecodable.
  - rewrite length_app, length_replicate, length_drop. lia.
  - unfold bytes_ok. rewrite Forall_app. split; [by apply Forall_replicate|by apply Forall_drop].
  - destruct (n `min` kRtcSessionRecordSize)%nat eqn:E; [|done]. unfold kRtcSessionRecordSize in *. lia.
Qed.
Lemma clear_all v : length v = kRtcSessionRecordSize → stores clear_bytes v = replicate kRtcSessionRecordSize 0.
Proof using. intros Hl. unfold clear_bytes. rewrite stores_clear by done. rewrite drop_ge by lia. apply app_nil_r. Qed.

(** The whole write. *)
Lemma write_all v img : length v = kRtcSessionRecordSize → length img = kRtcSessionRecordSize → stores (write_bytes img) v = img.
Proof using.
  intros Hl Hi. unfold write_bytes. rewrite !stores_app, clear_all by done. set (z := replicate kRtcSessionRecordSize 0). assert (Lz : length z = kRtcSessionRecordSize) by apply length_replicate.
  unfold kRtcSessionRecordSize in *. rewrite (copy_splice 0) by (rewrite length_take; lia). rewrite take_0, length_take, Hi. change (0 + 8 `min` 346)%nat with 8%nat. cbn [app].
  set (v1 := take 8 img ++ drop 8 z). assert (L1 : length v1 = 346%nat) by (unfold v1; rewrite length_app, length_take, length_drop; lia).
  rewrite (copy_splice 12) by (rewrite length_drop; lia). rewrite length_drop, Hi. rewrite (drop_ge v1) by lia. rewrite app_nil_r.
  assert (Ht : take 12 v1 = take 8 img ++ take 4 (drop 8 z)) by (unfold v1; rewrite take_app_ge, length_take, Hi by (rewrite length_take; lia); done). rewrite Ht.
  set (v2 := (take 8 img ++ take 4 (drop 8 z)) ++ drop 12 img). assert (L2 : length v2 = 346%nat) by (unfold v2; rewrite !length_app, !length_take, !length_drop; lia).
  rewrite (copy_splice 8) by (rewrite length_take, length_drop; lia). rewrite length_take, length_drop, Hi. change (8 + 4 `min` (346 - 8))%nat with 12%nat.
  assert (Hd : drop 12 v2 = drop 12 img) by (unfold v2; rewrite drop_app_length'; [done|]; rewrite length_app, !length_take, length_drop; lia).
  assert (H8 : take 8 v2 = take 8 img) by (unfold v2; rewrite <- app_assoc, take_app_length'; [done|]; rewrite length_take; lia).
  rewrite Hd, H8. replace (drop 12 img) with (drop 4 (drop 8 img)) by (by rewrite drop_drop). by rewrite take_drop, take_drop.
Qed.

(** The last byte of the commit word is missing. *)
Lemma no_commit v : length v = kRtcSessionRecordSize → bytes_ok v → v !! 11%nat = Some 0 → marker v ≠ kCommitted.
Proof using.
  intros Hl Hb H0 Hm. unfold marker in Hm. assert (Hl4 : length (take 4 (drop 8 v)) = 4%nat) by (rewrite length_take, length_drop, Hl; done).
  destruct (be_bytes_be_value 64 (take 4 (drop 8 v))) as [Hx _]; [rewrite Hl4; lia|by apply Forall_take, Forall_drop|]. rewrite Hm, Hl4 in Hx.
  apply (f_equal (λ l, l !! 3%nat)) in Hx. rewrite lookup_take_lt, lookup_drop in Hx by lia. change (8 + 3)%nat with 11%nat in Hx. rewrite H0 in Hx. done.
Qed.
Lemma write_bytes_length img : length img = kRtcSessionRecordSize → length (write_bytes img) = 692%nat.
Proof using. intros Hi. unfold write_bytes, clear_bytes. rewrite !length_app, !copy_length, length_replicate, !length_take, !length_drop, Hi. done. Qed.
Lemma write_bytes_ok img : bytes_ok img → Forall (λ w, is_u8 (snd w)) (write_bytes img).
Proof using.
  intros Hb. unfold write_bytes, clear_bytes. rewrite !Forall_app. split_and!; apply copy_bytes; [by apply Forall_replicate|by apply Forall_take|by apply Forall_drop|by apply Forall_take, Forall_drop].
Qed.
Lemma write_cut v img n :
  length v = kRtcSessionRecordSize → bytes_ok v → length img = kRtcSessionRecordSize → bytes_ok img → (n < 692)%nat →
  let v' := stores (take n (write_bytes img)) v in v' = v ∨ unread v'.
Proof using.
  intros Hl Hb Hi Hib Hn v'. assert (Hlc : length clear_bytes = 346%nat) by (unfold clear_bytes; rewrite copy_length; apply length_replicate).
  destruct (decide (n ≤ 346)%nat) as [Hle|Hgt]; unfold v', write_bytes.
  - rewrite take_app_le by lia. by apply clear_cut.
  - right. rewrite take_app_ge by lia. rewrite stores_app, clear_all by done. set (rest := copy 0 _ ++ _).
    assert (Hrest : ∃ x init, rest = init ++ [(11%nat, x)] ∧ Forall (λ w, fst w ≠ 11%nat) init ∧ length init = 345%nat).
    { assert (H4 : length (take 4 (drop 8 img)) = 4%nat) by (rewrite length_take, length_drop, Hi; done). destruct (take 4 (drop 8 img)) as [|a [|b [|c [|d [|]]]]] eqn:E4; try done.
      exists d, (copy 0 (take 8 img) ++ copy 12 (drop 12 img) ++ [(8%nat, a); (9%nat, b); (10%nat, c)]). split_and!.
      - unfold rest. cbn [copy]. rewrite <- !app_assoc. done.
      - rewrite !Forall_app. split_and!; [| |by repeat constructor]; (eapply Forall_impl; [apply copy_range|]); intros w; rewrite ?length_take, ?length_drop, ?Hi; cbn; lia.
      - rewrite !length_app, !copy_length, length_take, length_drop, Hi. done. }
    destruct Hrest as (x & init & Hr & Hne & Hli). rewrite Hr, take_app_le by (rewrite Hlc, Hli; lia).
    assert (Lz : length (replicate kRtcSessionRecordSize 0) = kRtcSessionRecordSize) by apply length_replicate.
    apply no_marker_undecodable, no_commit.
    + by rewrite stores_length.
    + apply stores_bytes; [by apply Forall_replicate|]. pose proof (write_bytes_ok img Hib) as Hw. unfold write_bytes in Hw. apply Forall_app in Hw as [_ Hw].
      change (Forall (λ w, is_u8 (snd w)) rest) in Hw. rewrite Hr in Hw. apply Forall_app in Hw as [Hw _]. by apply Forall_take.
    + rewrite stores_other by (by apply Forall_take). apply lookup_replicate_2. unfold kRtcSessionRecordSize. lia.
Qed.

Definition buffer_ok (p : BufferRtc) : Prop := length (backing_ p) = kRtcSessionRecordSize ∧ bytes_ok (backing_ p).
Definition powered (p : BufferRtc) : bool := (0 <? budget p)%nat.

Lemma buffer_read st r st' : buffer_ok st → rtc_read st = (r, st') → st' = st ∧ if powered st then r = Ok (backing_ st) else is_Some (match r with Ok _ => None | Err c d => Some (c, d) end).
Proof using.
  intros [Hl Hb]. change (rtc_read st) with (if powered st then ((fail_if (negb (sized (backing_ st))) InvalidArgument "RTC buffer size";; mret (backing_ st)) st) else (Err StorageFailure "power lost", st)).
  destruct (powered st); [|intros Hr; inversion Hr; eauto]. unfold sized. rewrite bool_decide_eq_true_2 by done. intros Hr. by inversion Hr.
Qed.
Lemma buffer_invalidate st r st' : buffer_ok st → rtc_invalidate st = (r, st') →
  buffer_ok st' ∧ (powered st = false → powered st' = false ∧ backing_ st' = backing_ st) ∧
  match r with
  | Ok _ => powered st = true ∧ powered st' = true ∧ unread (backing_ st') ∧ marker (backing_ st') ≠ kCommitted
  | Err _ _ => powered st' = false ∧ (backing_ st' = backing_ st ∨ unread (backing_ st'))
  end.
Proof using.
  intros [Hl Hb]. change (rtc_invalidate st) with ((fail_if (negb (sized (backing_ st))) InvalidArgument "RTC buffer size";; run_stores clear_bytes) st).
  unfold sized. rewrite bool_decide_eq_true_2 by done. cbn [negb]. change ((fail_if false _ _;; run_stores clear_bytes) st) with (run_stores clear_bytes st). unfold run_stores, buffer_ok, powered.
  assert (Hcl : length clear_bytes = 346%nat) by (unfold clear_bytes; rewrite copy_length; apply length_replicate).
  assert (Hz : Forall (λ w, is_u8 (snd w)) clear_bytes) by (apply copy_bytes; by apply Forall_replicate).
  destruct (Nat.ltb_spec (length clear_bytes) (budget st)) as [Hlt|Hge]; intros [<- <-]%pair_equal_spec; cbn [backing_ budget].
  - rewrite clear_all by done. split_and!; [apply length_replicate|by apply Forall_replicate|intros ?%Nat.ltb_ge; lia|apply Nat.ltb_lt; lia|apply Nat.ltb_lt; lia|apply no_marker_undecodable|]; by vm_compute.
  - split_and!; [by rewrite stores_length|apply stores_bytes; [done|by apply Forall_take]| |done|by apply clear_cut]. intros Hd%Nat.ltb_ge. assert (budget st = 0%nat) as -> by lia. done.
Qed.
Lemma buffer_write st img r st' : buffer_ok st → length img = kRtcSessionRecordSize → bytes_ok img → rtc_write img st = (r, st') →
  buffer_ok st' ∧ (powered st = false → powered st' = false ∧ backing_ st' = backing_ st) ∧
  match r with
  | Ok _ => powered st = true ∧ powered st' = true ∧ backing_ st' = img
  | Err _ _ => powered st' = false ∧ (backing_ st' = backing_ st ∨ unread (backing_ st') ∨ backing_ st' = img)
  end.
Proof using.
  intros [Hl Hb] Hi Hib. change (rtc_write img st) with ((fail_if (negb (sized (backing_ st)) || negb (sized img)) InvalidArgument "RTC buffer size";; run_stores (write_bytes img)) st).
  unfold sized. rewrite !bool_decide_eq_true_2 by done. cbn [negb orb]. change ((fail_if false _ _;; run_stores (write_bytes img)) st) with (run_stores (write_bytes img) st). unfold run_stores, buffer_ok, powered. rewrite write_bytes_length by done.
  destruct (Nat.ltb_spec 692 (budget st)) as [Hlt|Hge]; intros [<- <-]%pair_equal_spec; cbn [backing_ budget].
  - rewrite write_all by done. split_and!; [done|done|intros ?%Nat.ltb_ge; lia|apply Nat.ltb_lt; lia|apply Nat.ltb_lt; lia|done].
  - split_and!; [by rewrite stores_length|apply stores_bytes; [done|]; apply Forall_take, write_bytes_ok, Hib| |done|].
    + intros Hd%Nat.ltb_ge. assert (budget st = 0%nat) as -> by lia. done.
    + destruct (decide (budget st = 692%nat)) as [->|Hne]; [right; right; rewrite take_ge by (rewrite write_bytes_length by done; lia); by apply write_all|].
      destruct (write_cut (backing_ st) img (budget st)) as [?|?]; auto; lia.
Qed.
#[export] Instance buffer_port_laws : RtcSessionPortLaws kResourceProfileId BufferRtc := {|
  rtc_ok := buffer_ok; rtc_view := backing_; rtc_alive := powered;
  read_law := buffer_read; invalidate_law := buffer_invalidate; write_law := buffer_write |}.
End Cuts.
