(* ===== verification/SessionRtcBank.v ===== *)
(** * Session images: the bank between a save and a restore

    How every operation carries the contexts of a bank over: the keys, the
    peer and the counter stay, what has become unusable stays unusable, and
    the fields stay in their widths. *)

From S2P Require Import Prelude Types SessionBank SessionBankProps SessionBankRun SessionBankInstall SessionBankWorld SessionBankTime SessionRtc SessionRtcProps.

Definition rxm (e : SessionBankEntry) : Material := (rx_key e, rx_iv e).
Definition born (b : SessionBank) (e : SessionBankEntry) : Prop := created_gk e ≤ gk_epoch (local_ b).
(** Every context has its widths and is of a group key that has been, in a
    bank that was configured. *)
Definition settled (b : SessionBank) : Prop := ∀ l i e, live b l i e → entry_typed e ∧ born b e ∧ configured_ b = true.

Record carried (b : SessionBank) (e : SessionBankEntry) (b' : SessionBank) (e' : SessionBankEntry) : Prop := {
  ca_txm : txm e' = txm e; ca_rxm : rxm e' = rxm e; ca_peer : peer e' = peer e; ca_cid : tx_cid e' = tx_cid e; ca_next : tx_next e' = tx_next e;
  ca_conf : configured_ b' = configured_ b;
  ca_spent : born b e → entry_usable b e = false → entry_usable b' e' = false;
  ca_born : born b e → born b' e';
  ca_typed : entry_typed e → entry_typed e' }.
Definition carries (b b' : SessionBank) : Prop := ∀ l i e', live b' l i e' → ∃ e, live b l i e ∧ carried b e b' e'.

Lemma carried_trans b1 e1 b2 e2 b3 e3 : carried b1 e1 b2 e2 → carried b2 e2 b3 e3 → carried b1 e1 b3 e3.
Proof. intros [] []. split; try congruence; auto. Qed.
Lemma carries_settled b b' : carries b b' → settled b → settled b'.
Proof. intros Hc Hs l i e' (e & He & [])%Hc. destruct (Hs l i e He) as (? & ? & ?). split_and!; [auto..|congruence]. Qed.
Lemma carries_empty b b' : (∀ l i e, ¬ live b' l i e) → carries b b'.
Proof. intros He l i e []%He. Qed.

(** The clock stands and the group key epoch does not fall. *)
Lemma unusable_stays b b' e e' :
  last_tick_ b' = last_tick_ b → gk_epoch (local_ b) ≤ gk_epoch (local_ b') → remaining_ms e' = remaining_ms e → created_gk e' = created_gk e →
  born b e → entry_usable b e = false → entry_usable b' e' = false.
Proof.
  intros T G Er Ec Hb. unfold entry_usable, remaining, gk_dead, born in *. rewrite T, Er, Ec. intros [->|Hd]%andb_false_iff; [done|]. apply andb_false_iff. right.
  apply negb_false_iff, orb_true_iff in Hd as [Hd%bool_decide_eq_true|Hd%bool_decide_eq_true]; [lia|]. apply negb_false_iff, orb_true_iff. right. apply bool_decide_eq_true. lia.
Qed.
(** A context whose flags or window alone changed. *)
Lemma carried_ages b b' e e' :
  last_tick_ b' = last_tick_ b → gk_epoch (local_ b) ≤ gk_epoch (local_ b') → configured_ b' = configured_ b →
  txm e' = txm e → rxm e' = rxm e → peer e' = peer e → tx_cid e' = tx_cid e → tx_next e' = tx_next e →
  remaining_ms e' = remaining_ms e → created_gk e' = created_gk e → (entry_typed e → entry_typed e') → carried b e b' e'.
Proof. intros T G ? ? ? ? ? ? Er Ec ?. split; try done; [by apply unusable_stays|]. unfold born. lia. Qed.
Lemma typed_flags e fl : is_u32 fl → entry_typed e → entry_typed (with_flags fl e).
Proof. intros Hf []. by split. Qed.
Lemma same_carried b b' e e' : last_tick_ b' = last_tick_ b → gk_epoch (local_ b) ≤ gk_epoch (local_ b') → configured_ b' = configured_ b → same e e' → carried b e b' e'.
Proof.
  intros T G C [? ? ? ? ? ? ? ? ? ? F R]. apply carried_ages; try done; unfold txm, rxm; try congruence; [by rewrite F|by rewrite F|]. intros Ht. rewrite F. apply typed_flags; [apply R, Ht|done].
Qed.
Lemma carries_keeps b b' : keeps b b' → ages b b' → carries b b'.
Proof. intros [Hk _] [T _ _ G C _] l i e' (e & He & Hs)%Hk. exists e. split; [done|]. by apply same_carried. Qed.
Lemma put_current_carries sc i e e' b :
  live b (is_link sc) i e → carried b e b e' → carries b (put_current sc i e' b).
Proof.
  intros Hl Hc l j x Hx. assert (E : local_ (put_current sc i e' b) = local_ b ∧ last_tick_ (put_current sc i e' b) = last_tick_ b ∧ configured_ (put_current sc i e' b) = configured_ b) by (unfold put_current, set_slots; by case_bool_decide).
  destruct E as (E1 & E2 & E3). apply put_current_live in Hx as [(-> & -> & ->)|[_ Hx]].
  - exists e. split; [done|]. destruct Hc as [? ? ? ? ? ? Hs Hb ?]. split; try done; unfold entry_usable, gk_dead, remaining, born in *; by rewrite ?E1, ?E2.
  - exists x. split; [done|]. apply carried_ages; rewrite ?E1; done.
Qed.

(** A tick. *)
Lemma tick_configured now b : configured_ (snd (tick now b)) = configured_ b.
Proof.
  unfold tick. bank_unfold. destruct (negb (configured_ b)); [done|]. destruct (bool_decide (now < last_tick_ b)); [done|]. destruct (bool_decide (now < next_expiry_ b)); [done|].
  cbv zeta. by do 4 destruct (expire _ _ _ _ _).
Qed.
Lemma tick_carries now b : timed b → carries b (snd (tick now b)).
Proof.
  intros Ht. pose proof (tick_keeps now b) as [Hk _]. destruct (tick now b) as [[[]|c d] b'] eqn:E; cbn [snd] in *.
  - destruct (tick_spec now b b' Ht E) as (Ha & Hl & Hle & Hloc & _). pose proof (tick_configured now b) as Hcf. rewrite E in Hcf. cbn [snd] in Hcf. intros l i e' He'. destruct (Hk l i e' He') as (e & He & Hs). exists e. split; [done|].
    destruct Hs as [? ? ? ? ? ? ? ? ? Er F R]. assert (Ec : created_gk e' = created_gk e) by (by rewrite F). assert (Ei : tx_cid e' = tx_cid e) by (by rewrite F). split; unfold txm, rxm, born in *; try congruence.
    + intros _. assert (Hli : lives b' KContext (remaining_ms e')) by (exists l, i, e'; done). destruct (aged_lives _ _ _ _ _ Ha Hli) as [_ Hdue].
      unfold entry_usable, gk_dead. rewrite Ec, Hloc. intros [Hz|Hd]%andb_false_iff; [|apply andb_false_iff; by right].
      apply negb_false_iff, bool_decide_eq_true in Hz. unfold deadline in Hdue. rewrite Er in Hdue. lia.
    + intros Htd. rewrite F. apply typed_flags; [apply R, Htd|done].
  - assert (b' = b) as ->.
    { revert E. unfold tick. bank_unfold. destruct (negb (configured_ b)); [by intros [= _ _ <-]|]. destruct (bool_decide (now < last_tick_ b)); [by intros [= _ _ <-]|].
      destruct (bool_decide (now < next_expiry_ b)); [done|]. cbv zeta. by do 4 destruct (expire _ _ _ _ _). }
    apply carries_keeps; [apply bank_keeps_refl|apply ages_refl].
Qed.

Lemma run_op_carries_empty (b b' : SessionBank) : (∀ l, tb b' l = wiped (tb b l)) → carries b b'.
Proof. intros Hw. apply carries_empty. intros l i e. unfold live. rewrite Hw. by intros ?%wiped_lookup. Qed.
Lemma configure_carries local salt now b : carries b (snd (configure local salt now b)).
Proof.
  assert (Hr : carries b b) by (apply carries_keeps; [apply bank_keeps_refl|apply ages_refl]).
  unfold configure. bank_unfold. destruct (_ || _); [done|]. destruct salt; [|done]. apply run_op_carries_empty. by intros [].
Qed.
Lemma reset_membership_carries local salt now b : carries b (snd (reset_membership local salt now b)).
Proof.
  pose proof (configure_carries local salt now b) as Hc. unfold reset_membership, not_configured. unfold mbind, M_bind, getS, fail_if.
  destruct (negb (configured_ b)); [|done]. apply carries_keeps; [apply bank_keeps_refl|apply ages_refl].
Qed.
Lemma new_bank_carries b n m : carries b (new_bank n m).
Proof. apply carries_empty. intros [] i e; unfold live, tb, new_bank; cbn [link_ end_]; by intros [? _]%lookup_replicate. Qed.

Lemma slide_window_typed x y c mx bt : is_u64 x → is_u64 y → is_u64 c → replayed x y c = false → slide_window x y c = (mx, bt) → is_u64 mx ∧ is_u64 bt.
Proof.
  intros Hx Hy Hc Hr. unfold slide_window. destruct (bool_decide_reflect (x < c)) as [Hlt|Hge]; intros [= <- <-]; (split; [done|]).
  - destruct (bool_decide (64 ≤ c - x)); [done|]. by apply lor_range; [|apply wrap_range|].
  - apply lor_range; [done..|]. unfold replayed in Hr. rewrite (bool_decide_eq_true_2 (c ≤ x)) in Hr by lia. apply orb_false_iff in Hr as [Hn%bool_decide_eq_false _].
    rewrite Z.shiftl_1_l. split; [by apply Z.pow_nonneg|]. apply Z.pow_lt_mono_r; lia.
Qed.

Section Carries.
Context (hmac : list Z → list Z → list Z) `{AeadGcm}.

Lemma seal_carries c counter aad plaintext room b : carries b (snd (seal hmac c counter aad plaintext room b)).
Proof.
  assert (Hr : carries b b) by (apply carries_keeps; [apply bank_keeps_refl|apply ages_refl]).
  unfold seal. bank_unfold. destruct (seal_check hmac b c counter plaintext room) as [[[i e] nonce]|cd d] eqn:Hc; [|done].
  destruct (seal_check_ok _ _ _ _ _ _ _ _ _ Hc) as (Hl & _).
  destruct (aead_seal _ _ _ _); cbn [snd]; (apply (put_current_carries _ _ e); [done|]); (apply carried_ages; try done); intros Ht; (apply typed_flags; [apply ldiff_range, Ht; done|done]).
Qed.
Lemma open_carries c counter aad ciphertext tag room b : 0 ≤ counter → carries b (snd (open hmac c counter aad ciphertext tag room b)).
Proof.
  intros Hpos. assert (Hr : carries b b) by (apply carries_keeps; [apply bank_keeps_refl|apply ages_refl]).
  unfold open. bank_unfold. destruct (open_check hmac b c counter ciphertext room) as [[h nonce]|cd d] eqn:Hc; [|done].
  destruct (open_check_ok _ _ _ _ _ _ _ _ Hc) as [Hh Hrep]. destruct (aead_open _ _ _ _ _) as [pt|]; [|done]. cbn [snd]. destruct (slide_window _ _ _) as [x y] eqn:Hs.
  revert Hc. unfold open_check. intros Hc. do 3 (apply guard_err_bind in Hc as [_ Hc]). destruct (find_holder hmac b _ _ _) as [z|] eqn:Hf; [|done].
  apply guard_err_bind in Hc as [Hadm Hc]. do 3 (apply guard_err_bind in Hc as [_ Hc]). apply result_bind_inv in Hc as (n & _ & [= -> _]).
  destruct h as [i e|i o]; cbn [put_window].
  - apply find_holder_current in Hf. apply (put_current_carries _ _ e); [done|]. apply carried_ages; try done. intros Ht. cbn [h_max h_bitmap] in *.
    assert (Hc : is_u64 counter). { unfold rx_counter_admissible, kMaxUseCounter in Hadm. apply negb_false_iff, bool_decide_eq_true in Hadm. unfold in_range. lia. }
    destruct (slide_window_typed _ _ _ _ _ (et_max _ Ht) (et_bits _ Ht) Hc Hrep Hs). destruct Ht. by split.
  - intros l j e He. exists e. split; [by destruct l|]. by apply carried_ages.
Qed.

(** Drawing a counter: one context advances, or the bank carries over. *)
Lemma next_counter_cases c b r b' :
  0 ≤ demand_hold_ms (local_ b) → next_counter hmac c b = (r, b') →
  (keeps b b' ∧ ages b b' ∧ ∀ n, r ≠ Ok n) ∨
  ∃ i e fl, r = Ok (tx_next e) ∧ b' = touch_lru (scope c) i (put_current (scope c) i (with_tx (u64 (tx_next e + 1)) fl e) b) ∧
    find_slot hmac b (scope c) (receiver c) = Some i ∧ live b (is_link (scope c)) i e ∧ peer e = receiver c ∧
    tx_ready b e = true ∧ (is_u32 (flags e) → is_u32 fl).
Proof.
  intros Hh. assert (Hid : keeps b b ∧ ages b b) by (split; [apply bank_keeps_refl|apply ages_refl]). destruct Hid as [Hk0 Ha0].
  pose proof (record_demand_keeps (scope c) (receiver c) b) as Hk1. pose proof (record_demand_ages (scope c) (receiver c) b Hh) as Ha1.
  unfold next_counter. bank_unfold. destruct (negb (configured_ b)); [intros [= <- <-]; by left|]. destruct (negb (unicast_scope _)); [intros [= <- <-]; by left|].
  destruct (_ || _); [intros [= <- <-]; by left|]. destruct (find_slot hmac b (scope c) (receiver c)) as [i|] eqn:Hf; [|intros [= <- <-]; by left].
  destruct (find_slot_some hmac b _ _ i Hf) as (_ & e & Hl & Hp & ->). destruct (negb (bool_decide _)); [intros [= <- <-]; by left|].
  destruct (tx_ready b e) eqn:Hrdy; cbn [negb]; [|intros [= <- <-]; by left]. destruct (bool_decide (kMaxCryptoCounter < _)); [intros [= <- <-]; by left|].
  intros [= <- <-]. right. exists i, e. eexists _. split_and!; try done. intros Hfl. apply lor_range; [done| |done]. case_bool_decide; [by apply lor_range|done].
Qed.

(** A retired peer has no context left. *)
Lemma retire_peer sc p b j e :
  configured_ b = true → unicast_scope sc = true → peers_unique b → live (snd (retire hmac sc p b)) (is_link sc) j e → peer e ≠ p.
Proof.
  intros Hc Hu Hp. unfold retire. bank_unfold. rewrite Hc, Hu. cbn [negb]. intros Hl Heq. cbn [snd] in Hl.
  set (b1 := match find_slot hmac b sc p with Some i => wipe_slot sc i b | None => b end) in Hl.
  assert (H1 : live b1 (is_link sc) j e) by (by destruct (is_link sc)). unfold b1 in H1. destruct (find_slot hmac b sc p) as [i|] eqn:Hf; [|by eapply (find_slot_none hmac b sc p)].
  destruct (find_slot_some hmac b sc p i Hf) as (_ & e' & Hl' & Hp' & _). pose proof (proj1 (wipe_slot_keeps sc i b) _ _ _ H1) as (e0 & He0 & Hs).
  assert (j = i) as -> by (eapply (Hp _ _ _ _ _ He0 Hl'); destruct Hs; congruence). revert H1. unfold wipe_slot, set_slots, slots, live, tb, is_link. destruct (bool_decide (sc = Link)); cbn;
    intros [(_ & ? & _)|[? _]]%list_lookup_insert_Some; done.
Qed.

(** A new context beside the ones that were there. *)
Lemma placed_carries b b' l0 i0 x l i e' :
  placed b b' l0 i0 x → ages b b' → live b' l i e' → (l = l0 ∧ i = i0 ∧ e' = x) ∨ (¬ (l = l0 ∧ i = i0) ∧ live b l i e' ∧ carried b e' b' e').
Proof. intros [Hp _ _] [T _ _ G C _] [?|[Hne He]]%Hp; [by left|right]. split_and!; [done..|]. by apply carried_ages. Qed.

(** The widths of what the operations are given. *)
Definition keys_typed (k : ContextKeys) (a : InstallAttestation) : Prop :=
  entry_typed (fresh_entry k a 0 0).
Definition op_typed (op : Op) : Prop :=
  typed op ∧ match op with Install k a => keys_typed k a | Open _ counter _ _ _ _ => 0 ≤ counter | _ => True end.
(** Neither an installation nor a draw. *)
Definition plain (op : Op) : bool := match op with Install _ _ | RestoreEntry _ _ _ | NextCounter _ => false | _ => true end.

Lemma run_op_carries op w : plain op = true → op_typed op → timed (w_bank w) → carries (w_bank w) (w_bank (run_op hmac op w)).
Proof.
  intros Hp [Hop Hty] Ht. pose proof (proj1 (tm_hold _ Ht)) as Hh. destruct op; try done; cbn [run_op on_bank w_bank] in *.
  - apply configure_carries.
  - apply reset_membership_carries.
  - apply run_op_carries_empty. by intros [].
  - by apply tick_carries.
  - apply carries_keeps; [apply set_gk_epoch_keeps|apply set_gk_epoch_ages].
  - apply carries_keeps; [apply take_demand_keeps|apply take_demand_ages].
  - apply carries_keeps; [apply note_demand_keeps|by apply note_demand_ages].
  - apply carries_keeps; [apply note_rx_unknown_keeps|by apply note_rx_unknown_ages].
  - apply carries_keeps; [apply allocate_context_id_keeps|]. unfold allocate_context_id. apply ages_bind; [apply not_configured_ages|]. intros _ b1. apply ages_refl.
  - apply carries_keeps; [apply tx_epoch_keeps|by apply tx_epoch_ages].
  - apply carries_keeps; [apply retire_keeps|apply retire_ages].
  - apply carries_keeps; [apply retire_all_keeps|apply retire_all_ages].
  - apply carries_keeps; [apply retire_below_generation_keeps|apply retire_below_generation_ages].
  - apply carries_keeps; [apply evict_idle_end_keeps|apply evict_idle_end_ages].
  - apply carries_keeps; [apply set_pinned_keeps|apply set_pinned_ages].
  - apply new_bank_carries.
  - apply seal_carries.
  - pose proof (open_carries c counter aad ciphertext tag room (w_bank w) Hty) as Hc. by destruct (open _ _ _ _ _ _ _ _) as [r b'].
Qed.
End Carries.
