(* ===== verification/SessionRtcRun.v ===== *)
(** * Session images: runs over deep sleep

    A node's bank, the RTC port and the sleep state over any sequence of bank
    operations, guarded draws, saves, restores, aborted sleeps and power
    cycles.  A power cut is a port call that fails, with a power cycle after
    it: a processor without power runs nothing, and what a step leaves in RAM
    after the cut is gone. *)

From S2P Require Import Prelude Types Crc32 SessionBank SessionBankProps SessionBankRun SessionBankInstall SessionBankWorld SessionBankTime SessionRtc SessionRtcProps SessionRtcPort SessionRtcBank.

Section Run.
Context (kResourceProfileId : Z) (hmac : list Z → list Z → list Z) {AG : AeadGcm} {ST : Type} {RP : RtcSessionPort ST} {RL : RtcSessionPortLaws kResourceProfileId ST}.
Abbreviation Node := (@Node ST).

(** [parked] after a save, until the sleep is aborted; [woken] when the boot
    followed a deep sleep. *)
Record Sys := mkSys { y_world : World; y_port : ST; y_sleep : Sleeper; y_parked : bool; y_woken : bool }.
Definition node_of (s : Sys) : Node := mkNode (w_bank (y_world s)) (y_port s) (y_sleep s).
Definition with_node (n : Node) (s : Sys) : Sys := mkSys (SessionBankWorld.on_bank (λ _, n_bank n) (y_world s)) (n_port n) (n_sleep n) (y_parked s) (y_woken s).
Definition set_parked (p : bool) (s : Sys) : Sys := mkSys (y_world s) (y_port s) (y_sleep s) p (y_woken s).
Definition set_world (w : World) (s : Sys) : Sys := mkSys w (y_port s) (y_sleep s) (y_parked s) (y_woken s).

Inductive Step :=
  | Bank (op : Op)
  | Draw (c : SecurityContext)
  | Save (boot : Z) (mb : Membership) (parent : NodeId) (mac : list Z) (binding now : Z)
  | Restore (boot : Z) (wake : RtcWakeCheck) (observed : NodeId → option (list Z)) (member : bool) (revoked : NodeId → Z → bool)
  | Wake
  | AbortSleep (parked_ : bool)
  | StopTraffic
  | PowerCycle (p : ST) (woken : bool).

Definition step (op : Step) (s : Sys) : Sys :=
  let n := node_of s in
  match op with
  | Bank op => set_world (run_op hmac op (y_world s)) s
  | Draw c => with_node (snd (guarded_next_counter kResourceProfileId hmac c n)) s
  | Save boot mb parent mac binding now =>
      let '(r, n') := save_sleep_image kResourceProfileId hmac boot mb parent mac binding now n in
      set_parked (y_parked s || is_ok r) (with_node n' s)
  | Restore boot wake observed member revoked => with_node (snd (restore_sleep_image kResourceProfileId hmac boot wake observed member revoked n)) s
  | Wake => with_node (snd (on_wake n)) s
  | AbortSleep parked_ => set_parked false (with_node (snd (abort_sleep parked_ n)) s)
  | StopTraffic => with_node (snd (stop_traffic n)) s
  | PowerCycle p woken =>
      mkSys (SessionBankWorld.on_bank (λ b, new_bank (length (link_ b)) (length (end_ b))) (y_world s)) p new_sleeper false woken
  end.
Fixpoint steps (ops : list Step) (s : Sys) : Sys := match ops with [] => s | op :: ops => steps ops (step op s) end.

(** What a caller does after a save: sleep, or abort the sleep before there
    is traffic.  Nothing runs without power; what is in RTC memory is there
    when power returns. *)
Definition traffic (op : Step) : bool :=
  match op with Bank (Seal _ _ _ _ _) | Bank (Open _ _ _ _ _ _) | Draw _ | Restore _ _ _ _ _ => true | _ => false end.
Definition of_bank (op : Op) : bool := match op with Reboot | RestoreEntry _ _ _ | NextCounter _ => false | _ => true end.
Record membership_typed (mb : Membership) : Prop := {
  mt_network : is_u64 (mb_network mb); mt_generation : is_u32 (mb_generation mb); mt_commit : is_u32 (mb_commit mb); mt_gk : is_u32 (mb_gk_epoch mb);
  mt_rs : is_u32 (mb_rs_floor mb); mt_kid : length (mb_kid mb) = 16%nat ∧ bytes_ok (mb_kid mb) }.
Definition may (s : Sys) (op : Step) : Prop :=
  match op with
  | PowerCycle p _ => rtc_ok p ∧ rtc_view p = rtc_view (y_port s)
  | _ =>
      rtc_alive (y_port s) = true ∧ (y_parked s = true → traffic op = false) ∧
      match op with
      | Bank op => of_bank op = true ∧ op_typed op ∧ allowed (y_world s) op
      | Save boot mb _ mac binding now =>
          is_u32 boot ∧ membership_typed mb ∧ length mac = 6%nat ∧ bytes_ok mac ∧ is_u32 binding ∧ 0 ≤ now ≤ UINT64_MAX
      | Restore boot wake _ _ _ => is_u32 boot ∧ 0 ≤ trusted_elapsed_ms wake
      | _ => True
      end
  end.
(** What the reset cause says is so. *)
Definition honest (s : Sys) (op : Step) : Prop :=
  match op with
  | PowerCycle _ woken => woken = true → y_parked s = true
  | Restore _ wake _ _ _ => deep_sleep wake && sleep_marker wake = true → y_woken s = true
  | _ => True
  end.
Fixpoint lawful (ops : list Step) (s : Sys) : Prop := match ops with [] => True | op :: ops => may s op ∧ lawful ops (step op s) end.
Fixpoint truthful (ops : list Step) (s : Sys) : Prop := match ops with [] => True | op :: ops => honest s op ∧ truthful ops (step op s) end.
Definition boot_up (kLinkCapacity kEndCapacity : nat) (p : ST) : Sys := mkSys (start kLinkCapacity kEndCapacity) p new_sleeper false false.

(** ** Images *)

Definition ctx_ok (w : World) (c : RtcSessionContext) : Prop :=
  let e := rc_entry c in txm e ∈ w_tx w ∧ rxm e ∈ w_rx w ∧ ∀ k, (txm e, k) ∈ w_sealed w → k < tx_next e.
(** The two contexts are of different keys. *)
Definition apart (im : RtcSessionImage) : Prop :=
  ∀ i j c d, used im !! i = Some c → used im !! j = Some d → i ≠ j → txm (rc_entry c) ≠ txm (rc_entry d) ∧ rxm (rc_entry c) ≠ rxm (rc_entry d).
Record image_ok (w : World) (im : RtcSessionImage) : Prop := {
  io_typed : image_typed im; io_ctx c : c ∈ used im → ctx_ok w c; io_apart : apart im }.

(** The windows of the image know what was accepted. *)
Definition image_seen (w : World) (im : RtcSessionImage) : Prop :=
  ∀ c k, c ∈ used im → (rxm (rc_entry c), k) ∈ w_accepted w → replayed (rx_max (rc_entry c)) (rx_bitmap (rc_entry c)) k = true.
(** No key of the image is in the bank. *)
Definition unshared (b : SessionBank) (im : RtcSessionImage) : Prop :=
  ∀ c, c ∈ used im → (∀ l i e, live b l i e → txm e ≠ txm (rc_entry c)) ∧ (∀ q m y z, held b q m y z → m ≠ rxm (rc_entry c)).
(** A context of the bank that is in the image sits where its slot says; it
    is in step while the slot is armed, and can send no more when it is not. *)
Definition lockstep (b : SessionBank) (armed : list bool) (im : RtcSessionImage) : Prop :=
  ∀ i c l j e, used im !! i = Some c → live b l j e → txm e = txm (rc_entry c) →
    l = bool_decide (i = 0%nat) ∧ peer e = peer (rc_entry c) ∧ tx_cid e = tx_cid (rc_entry c) ∧ tx_next e ≤ tx_next (rc_entry c) ∧
    if default false (armed !! i) then tx_next e = tx_next (rc_entry c) else entry_usable b e = false.

(** How an image that can be read stands to the bank. *)
Inductive Stage := Gone | Parked | Loose (seen : bool) | Armed (slots : list bool).
Definition kept (w : World) (st : Stage) (im : RtcSessionImage) : Prop :=
  match st with
  | Gone => True
  | Parked => image_seen w im
  | Loose seen => unshared (w_bank w) im ∧ (seen = true → image_seen w im)
  | Armed slots => lockstep (w_bank w) slots im
  end.
Record image_inv (w : World) (st : Stage) (im : RtcSessionImage) : Prop := { ii_ok : image_ok w im; ii_kept : kept w st im }.
Definition moving (st : Stage) : bool := match st with Loose _ | Armed _ => true | _ => false end.

Lemma image_step w w' st im :
  image_inv w st im → settled (w_bank w) →
  (∀ l i e', live (w_bank w') l i e' → (∀ c, c ∈ used im → txm e' ≠ txm (rc_entry c)) ∨ ∃ e, live (w_bank w) l i e ∧ carried (w_bank w) e (w_bank w') e') →
  (∀ q m y z, held (w_bank w') q m y z → (∀ c, c ∈ used im → m ≠ rxm (rc_entry c)) ∨ ∃ q y z, held (w_bank w) q m y z) →
  (∀ m, m ∈ w_tx w → m ∈ w_tx w') → (∀ m, m ∈ w_rx w → m ∈ w_rx w') →
  (∀ m k, (m, k) ∈ w_sealed w' → (m, k) ∈ w_sealed w ∨ moving st = true ∧ ∃ l i e, live (w_bank w) l i e ∧ m = txm e ∧ k < tx_next e) →
  (∀ m k, (m, k) ∈ w_accepted w' → (m, k) ∈ w_accepted w ∨ moving st = true ∧ ∃ q y z, held (w_bank w) q m y z) →
  image_inv w' st im.
Proof using.
  intros [[Ht Hc Ha] Hk] Hset Hl Hh Htx Hrx Hs Hac.
  assert (Hacc : ∀ c k, c ∈ used im → (rxm (rc_entry c), k) ∈ w_accepted w' → st = Parked ∨ (∃ x, st = Loose x) → (rxm (rc_entry c), k) ∈ w_accepted w).
  { intros c k Hc' [?|[Hmv (q & y & z & Hq)]]%Hac Hst; [done|]. destruct Hst as [->|[x ->]]; [done|]. destruct Hk as [Hu _]. by destruct (proj2 (Hu c Hc') _ _ _ _ Hq). }
  split; [split; [done| |done]|].
  - intros c Hin. destruct (Hc c Hin) as (H1 & H2 & H3). split_and!; [auto..|]. intros k [Hx|[Hmv (l & i & e & He & Hm & Hlt)]]%Hs; [auto|].
    destruct st as [| |x|slots]; [done..| |].
    + destruct Hk as [Hu _]. destruct (Hu c Hin) as [Hn _]. by destruct (Hn _ _ _ He).
    + apply list_elem_of_lookup in Hin as [n Hn]. destruct (Hk n c l i e Hn He) as (_ & _ & _ & Hle & _); [done|lia].
  - destruct st as [| |x|slots]; cbn in *; [done| | |].
    + intros c k Hin Hm. apply Hk; [done|]. apply (Hacc c k Hin Hm). by left.
    + destruct Hk as [Hu Hseen]. split.
      * intros c Hin. destruct (Hu c Hin) as [Hu1 Hu2]. split.
        -- intros l i e' [Hf|(e & He & Hca)]%Hl; [by apply Hf|]. rewrite (ca_txm _ _ _ _ Hca). by eapply Hu1.
        -- intros q m y z [Hf|(q' & y' & z' & Hq)]%Hh; [by apply Hf|]. by eapply Hu2.
      * intros Hx c k Hin Hm. apply Hseen; [done..|]. apply (Hacc c k Hin Hm). right. eauto.
    + intros n c l j e' Hn He' Em. apply Hl in He' as [Hf|(e & He & [E1 E2 E3 E3' E4 _ Hsp Hbo Hty])]; [destruct (Hf c); [by eapply list_elem_of_lookup_2|done]|].
      destruct (Hk n c l j e Hn He) as (K1 & K2 & K2' & K3 & K4); [congruence|]. split_and!; [done|congruence|congruence|lia|]. destruct (default false (slots !! n)); [congruence|].
      apply Hsp; [|done]. apply (Hset l j e He).
Qed.
End Run.
