(* ===== verification/SessionRtcInv.v ===== *)
(** * Session images: the invariant of a run

    What can be read from the port is behind no counter that was sealed, and
    stands to the bank as the state of the node says. *)

From S2P Require Import Prelude Types Crc32 SessionBank SessionBankProps SessionBankRun SessionBankInstall SessionBankWorld SessionBankTime SessionRtc SessionRtcProps SessionRtcPort SessionRtcBank SessionRtcRun.

Section Inv.
Context (kResourceProfileId : Z) (Hprofile : is_u8 kResourceProfileId) (hmac : list Z → list Z → list Z) {AG : AeadGcm}.
Context {ST : Type} {RP : RtcSessionPort ST} {RL : RtcSessionPortLaws kResourceProfileId ST}.
Abbreviation Sys := (@Sys ST).
Abbreviation Node := (@Node ST).
Abbreviation unread := (undecodable kResourceProfileId).
Abbreviation may := (may kResourceProfileId).
Abbreviation step := (step kResourceProfileId hmac).
Abbreviation record := (rtc_record kResourceProfileId).

Definition alive (s : Sys) : bool := rtc_alive (y_port s).
Definition port_stage (s : Sys) : Stage :=
  if y_parked s then Parked
  else if negb (alive s) then Gone
  else if armed (y_sleep s) then Armed (slot_armed (y_sleep s)) else Loose (y_woken s).
Definition guard_ok (sl : Sleeper) : Prop :=
  length (slot_armed sl) = 2%nat ∧
  if armed sl then guarding sl = true ∧ port_set sl = true ∧ restore_state sl = RestoreDone ∧ image_typed (sleep_image sl) ∧ valid (sleep_image sl) = true else guarding sl = false ∧ port_set sl = false.

(** The image the port holds, if it holds one. *)
Record port_image (s : Sys) (im : RtcSessionImage) : Prop := {
  pi_view : rtc_view (y_port s) = record im; pi_valid : valid im = true; pi_inv : image_inv (y_world s) (port_stage s) im;
  pi_same slots : port_stage s = Armed slots → sleep_image (y_sleep s) = im }.
Record Inv (s : Sys) : Prop := {
  v_world : world_ok (y_world s);
  v_timed : timed (w_bank (y_world s));
  v_settled : settled (w_bank (y_world s));
  v_ok : rtc_ok (y_port s);
  v_image : unread (rtc_view (y_port s)) ∨ ∃ im, port_image s im;
  v_guard : alive s = true → guard_ok (y_sleep s);
  v_held : alive s = true → restore_state (y_sleep s) = RestoreHolding →
    image_inv (y_world s) (Loose true) (sleep_image (y_sleep s)) ∧ (y_parked s = false → unread (rtc_view (y_port s))) }.

Lemma stage_moving s : y_parked s = false → alive s = true → moving (port_stage s) = true.
Proof using. unfold port_stage. intros -> ->. cbn. by destruct (armed _). Qed.

(** ** The bank moves *)

Lemma inv_world s w' :
  Inv s → world_ok w' → timed (w_bank w') → settled (w_bank w') →
  (∀ l i e', live (w_bank w') l i e' → txm e' ∉ w_tx (y_world s) ∨ ∃ e, live (w_bank (y_world s)) l i e ∧ carried (w_bank (y_world s)) e (w_bank w') e') →
  (∀ q m y z, held (w_bank w') q m y z → m ∉ w_rx (y_world s) ∨ ∃ q y z, held (w_bank (y_world s)) q m y z) →
  (∀ m, m ∈ w_tx (y_world s) → m ∈ w_tx w') → (∀ m, m ∈ w_rx (y_world s) → m ∈ w_rx w') →
  (∀ m k, (m, k) ∈ w_sealed w' → (m, k) ∈ w_sealed (y_world s) ∨
     (y_parked s = false ∧ alive s = true) ∧ ∃ l i e, live (w_bank (y_world s)) l i e ∧ m = txm e ∧ k < tx_next e) →
  (∀ m k, (m, k) ∈ w_accepted w' → (m, k) ∈ w_accepted (y_world s) ∨ (y_parked s = false ∧ alive s = true) ∧ ∃ q y z, held (w_bank (y_world s)) q m y z) →
  Inv (set_world w' s).
Proof using.
  intros [Hw Ht Hset Hok Him Hg Hh] Hw' Ht' Hset' Hl Hhe Htx Hrx Hs Ha.
  assert (Hstep : ∀ st im, (y_parked s = false → alive s = true → moving st = true) → image_inv (y_world s) st im → image_inv w' st im).
  { intros st im Hmv Hi. apply (image_step (y_world s)); try done.
    - intros l i e' [Hn|?]%Hl; [left|by right]. intros c Hc E. apply Hn. rewrite E. by apply (io_ctx _ _ (ii_ok _ _ _ Hi)).
    - intros q m y z [Hn|?]%Hhe; [left|by right]. intros c Hc ->. apply Hn. by apply (io_ctx _ _ (ii_ok _ _ _ Hi)).
    - intros m k [?|[[Hp Hal] ?]]%Hs; [by left|right]. auto.
    - intros m k [?|[[Hp Hal] ?]]%Ha; [by left|right]. auto. }
  split; try done.
  - destruct Him as [?|(im & [Hv Hval Hi Hsame])]; [by left|right]. exists im. split; try done. apply (Hstep (port_stage s)); [apply stage_moving|done].
  - intros Hal Hr. destruct (Hh Hal Hr). split; [by apply Hstep|done].
Qed.

(** Operations of the bank. *)
Lemma plain_held op w : plain op = true → ∀ q m y z, held (w_bank (run_op hmac op w)) q m y z → ∃ q y z, held (w_bank w) q m y z.
Proof using.
  intros Hp q m y z. assert (Hk : ∀ b', in_place (w_bank w) b' → held b' q m y z → ∃ q y z, held (w_bank w) q m y z) by (intros b' [_ Hx] (y' & z' & Hq)%Hx; eauto).
  destruct op; try done; cbn [run_op SessionBankWorld.on_bank w_bank]; try (by apply Hk, keeps_in_place; first [apply configure_keeps|apply reset_membership_keeps|apply clear_keeps|apply tick_keeps|apply set_gk_epoch_keeps|apply take_demand_keeps|apply note_demand_keeps|apply note_rx_unknown_keeps|apply allocate_context_id_keeps|apply tx_epoch_keeps|apply retire_keeps|apply retire_all_keeps|apply retire_below_generation_keeps|apply evict_idle_end_keeps|apply set_pinned_keeps|apply new_bank_keeps]).
  - apply Hk, seal_in_place.
  - pose proof (open_in_place hmac c counter aad ciphertext tag room (w_bank w)) as Hi. destruct (open _ _ _ _ _ _ _ _) as [r b']. by apply Hk.
Qed.

Lemma sealed_after op w : ∀ m k, (m, k) ∈ w_sealed (run_op hmac op w) → (m, k) ∈ w_sealed w ∨
  (∃ c counter aad pt room, op = Seal c counter aad pt room ∧ seal_call hmac (w_bank w) c counter pt room = Some (m, k)).
Proof using.
  intros m k. destruct op; cbn [run_op SessionBankWorld.on_bank w_sealed]; try (intros; by left).
  - destruct (install_verified _ _ _ _) as [r b']. destruct (is_ok r); by left.
  - destruct (seal_call _ _ _ _ _ _) as [x|] eqn:E; [|by left]. intros [<-|?]%elem_of_cons; [right|by left]. rewrite <- E. by eexists _, _, _, _, _.
  - destruct (open _ _ _ _ _ _ _ _) as [r b']. by left.
Qed.
Lemma accepted_after op w : ∀ m k, (m, k) ∈ w_accepted (run_op hmac op w) → (m, k) ∈ w_accepted w ∨
  (∃ c counter aad ct tag room, op = Open c counter aad ct tag room ∧ open_holder hmac (w_bank w) c counter ct room = Some (m, k)).
Proof using.
  intros m k. destruct op; cbn [run_op SessionBankWorld.on_bank w_accepted]; try (intros; by left).
  - destruct (install_verified _ _ _ _) as [r b']. destruct (is_ok r); by left.
  - destruct (open _ _ _ _ _ _ _ _) as [r b']. cbn [w_accepted]. destruct r; [|by left]. destruct (open_holder _ _ _ _ _ _) as [x|] eqn:E; [|by left].
    intros [<-|?]%elem_of_cons; [right|by left]. rewrite <- E. by eexists _, _, _, _, _, _.
Qed.

Lemma sealing_live b c counter pt room m k S : seal_call hmac b c counter pt room = Some (m, k) → tx_ok b S → ∃ l i e, live b l i e ∧ m = txm e ∧ k < tx_next e.
Proof using.
  unfold seal_call. destruct (seal_check hmac b c counter pt room) as [[[i e] nonce]|cd dd] eqn:Hc; [|done]. intros [= <- <-] Ht.
  destruct (seal_check_ok _ _ _ _ _ _ _ _ _ Hc) as (Hl & Hres & -> & _). destruct (t_next _ _ Ht _ _ _ Hl) as [Hn Hp]. specialize (Hp Hres).
  exists (is_link (scope c)), i, e. rewrite wrap_id by (unfold in_range, kMaxUseCounter in *; lia). split_and!; [done..|lia].
Qed.

Lemma typed_life e ms serial : entry_typed e → entry_typed (with_life (u32 ms) (u32 serial) e).
Proof using. intros []. split; try done; by apply wrap_range. Qed.

Lemma install_step s k a : Inv s → allowed (y_world s) (Install k a) → op_typed (Install k a) → Inv (set_world (run_op hmac (Install k a) (y_world s)) s).
Proof using.
  intros Hi Hal Hop. pose proof Hi as [Hw Ht Hset _ _ _ _]. pose proof (install_world hmac k a _ Hal Hw) as Hw'. pose proof (run_op_timed hmac _ _ (proj1 Hop) Ht) as Ht'.
  destruct Hal as (_ & Hft & Hfr). destruct Hop as [_ Hty]. cbn [run_op] in *. pose proof (install_ages hmac k a (w_bank (y_world s))) as Hag.
  destruct (install_verified hmac k a (w_bank (y_world s))) as [r b'] eqn:E. cbn [snd] in Hag.
  set (w' := if is_ok r then mkWorld b' _ _ _ _ else SessionBankWorld.on_bank (λ _, b') (y_world s)) in *.
  assert (Hb : w_bank w' = b') by (unfold w'; by destruct (is_ok r)).
  assert (Hlogs : w_sealed w' = w_sealed (y_world s) ∧ w_accepted w' = w_accepted (y_world s) ∧ (∀ m, m ∈ w_tx (y_world s) → m ∈ w_tx w') ∧ (∀ m, m ∈ w_rx (y_world s) → m ∈ w_rx w')).
  { unfold w'. destruct (is_ok r); split_and!; try done; intros m Hm; by apply elem_of_cons; right. }
  destruct Hlogs as (L1 & L2 & L3 & L4).
  assert (Hcases : (∀ l i e', live b' l i e' → (txm e' = (ck_tx_key k, ck_tx_iv k) ∧ entry_typed e' ∧ born b' e' ∧ configured_ b' = true) ∨ ∃ e, live (w_bank (y_world s)) l i e ∧ carried (w_bank (y_world s)) e b' e') ∧
                   (∀ q m y z, held b' q m y z → m = (ck_rx_key k, ck_rx_iv k) ∨ ∃ q y z, held (w_bank (y_world s)) q m y z)).
  { destruct (install_spec hmac k a _ r b' E) as [->|(i0 & x & Hp & Etx & _ & _ & Erx & _ & _ & _ & Hcf & Hgk & (ms & serial & Hx))].
    - split; [|eauto]. intros l i e' He. right. exists e'. split; [done|]. by apply carried_ages.
    - split.
      + intros l i e' [(-> & -> & ->)|(_ & He & Hc)]%(placed_carries _ _ _ _ _ _ _ _ Hp Hag); [left|right; eauto]. split; [done|]. split_and!.
        * rewrite Hx. exact (typed_life _ ms serial Hty).
        * pose proof (ag_gk _ _ Hag). unfold born. rewrite Hx. cbn [fresh_entry created_gk]. unfold gk_dead in Hgk. apply orb_false_iff in Hgk as [Hgk%bool_decide_eq_false _]. lia.
        * rewrite (ag_conf _ _ Hag). done.
      + destruct Hp as [Hpl [j0 Hpo] _]. intros [l i|i] m y z; cbn.
        * intros (e & [(-> & -> & ->)|[_ He]]%Hpl & -> & _); [by left|right]. exists (PCur l i), (rx_max e), (rx_bitmap e). cbn. eauto.
        * intros (o & [Ho|(-> & e & He & E1 & E2 & _)]%Hpo & -> & _); right; [exists (POv i), (ov_rx_max o), (ov_rx_bitmap o); cbn; eauto|].
          rewrite E1, E2. eexists (PCur _ i0), (rx_max e), (rx_bitmap e). cbn. eauto. }
  destruct Hcases as [Hc1 Hc2]. apply inv_world; rewrite ?Hb, ?L1, ?L2; try done; try (by left).
  - by rewrite <- Hb.
  - intros l i e' [(_ & ?)|(e & He & [])]%Hc1; [done|]. destruct (Hset l i e He) as (? & ? & ?). split_and!; [auto..|congruence].
  - intros l i e' [(E1 & _)|?]%Hc1; [left|by right]. rewrite E1. intros Hm. by destruct (Hft _ Hm).
  - intros q m y z [->|?]%Hc2; [left|by right]. intros Hm. by destruct (Hfr _ Hm).
Qed.

Lemma plain_step s op :
  Inv s → plain op = true → op_typed op → (traffic (ST:=ST) (Bank op) = true → y_parked s = false ∧ alive s = true) → Inv (set_world (run_op hmac op (y_world s)) s).
Proof using.
  intros Hi Hp Hop Htr. pose proof Hi as [Hw Ht Hset _ _ _ _]. pose proof (run_op_carries hmac op (y_world s) Hp Hop Ht) as Hc.
  assert (Hkeys : w_tx (run_op hmac op (y_world s)) = w_tx (y_world s) ∧ w_rx (run_op hmac op (y_world s)) = w_rx (y_world s)).
  { destruct op; try done. cbn [run_op]. by destruct (open _ _ _ _ _ _ _ _). }
  destruct Hkeys as [K1 K2]. apply inv_world; rewrite ?K1, ?K2; try done.
  - apply run_op_ok; [|done]. by destruct op.
  - apply run_op_timed; [apply Hop|done].
  - by eapply carries_settled.
  - intros l i e' He. right. by apply Hc.
  - intros q m y z Hq. right. by eapply plain_held.
  - intros m k [?|(c & counter & aad & pt & room & -> & Hx)]%sealed_after; [by left|right]. split; [by apply Htr|by eapply sealing_live, Hw].
  - intros m k [?|(c & counter & aad & ct & tag & room & -> & Hx)]%accepted_after; [by left|right]. split; [by apply Htr|by eapply open_holder_ok].
Qed.
Lemma bank_step s op : Inv s → may s (Bank op) → Inv (step (Bank op) s).
Proof using.
  intros Hi (Hal & Htr & Hob & Hop & Hall). cbn [SessionRtcRun.step]. destruct (plain op) eqn:Hp; [|destruct op; try done; by apply install_step].
  apply plain_step; try done. intros Ht. split; [|done]. destruct (y_parked s); [|done]. rewrite Ht in Htr. by specialize (Htr eq_refl).
Qed.

(** ** The port and the guard *)

Definition with_port (p : ST) (sl : Sleeper) (s : Sys) : Sys := mkSys (y_world s) p sl (y_parked s) (y_woken s).
Lemma with_node_port s p sl : with_node (mkNode (w_bank (y_world s)) p sl) s = with_port p sl s.
Proof using. unfold with_node, with_port, SessionBankWorld.on_bank. cbn. by destruct (y_world s). Qed.

(** What a step may do to the port: the image is the old one or none, unless
    the new one is said to be in order. *)
Lemma inv_port s p' sl' :
  Inv s → rtc_ok p' → (rtc_alive p' = true → guard_ok sl') →
  (rtc_alive p' = true → restore_state sl' = RestoreHolding → image_inv (y_world s) (Loose true) (sleep_image sl') ∧ (y_parked s = false → unread (rtc_view p'))) →
  unread (rtc_view p') ∨ (rtc_alive p' = false ∧ rtc_view p' = rtc_view (y_port s)) ∨ (∃ im, port_image (with_port p' sl' s) im) →
  Inv (with_port p' sl' s).
Proof using.
  intros [Hw Ht Hset Hok Him Hg Hh] Hok' Hg' Hh' Hcase. split; try done. destruct Hcase as [?|[[Hd Hv]|?]]; [by left| |by right].
  cbn [with_port y_port]. rewrite Hv. destruct Him as [?|(im & [Hv' Hval Hi Hsame])]; [by left|right]. exists im.
  assert (Hst : port_stage (with_port p' sl' s) = if y_parked s then Parked else Gone) by (unfold port_stage, alive; cbn [with_port y_parked y_port]; by rewrite Hd).
  split; [cbn [with_port y_port]; by rewrite Hv|done| |rewrite Hst; by destruct (y_parked s)]. rewrite Hst. destruct Hi as [Hio Hk]. split; [done|]. unfold port_stage in Hk. by destruct (y_parked s).
Qed.

Definition disarmed (sl : Sleeper) : Sleeper := mkSleeper (if guarding sl then zero_image else sleep_image sl) false false [false; false] (restore_state sl) (restore_elapsed_ms sl).
Lemma disarm_eq (n : Node) :
  disarm n = (Ok tt, mkNode (n_bank n) (if port_set (n_sleep n) then snd (rtc_invalidate (n_port n)) else n_port n) (disarmed (n_sleep n))).
Proof using.
  unfold disarm, get_sleep, set_sleep, try, on_port, mbind, M_bind, mret, M_ret, disarmed. destruct n as [b p [im g ps sa rs re]]. cbn.
  destruct ps; cbn; [destruct (rtc_invalidate p) as [[] p']; cbn|]; by destruct g.
Qed.

Lemma guard_cases sl : guard_ok sl → (armed sl = true ∧ guarding sl = true ∧ port_set sl = true ∧ restore_state sl = RestoreDone) ∨ (armed sl = false ∧ guarding sl = false ∧ port_set sl = false).
Proof using. unfold guard_ok. destruct (armed sl); tauto. Qed.

Lemma disarm_step s : Inv s → Inv (with_port (if port_set (y_sleep s) then snd (rtc_invalidate (y_port s)) else y_port s) (disarmed (y_sleep s)) s).
Proof using.
  intros Hi. pose proof Hi as [Hw Ht Hset Hok Him Hg Hh]. set (p' := if port_set _ then _ else _).
  assert (Hlaw : rtc_ok p' ∧ (rtc_alive p' = true → alive s = true) ∧ (if port_set (y_sleep s) then unread (rtc_view p') ∨ (rtc_alive p' = false ∧ rtc_view p' = rtc_view (y_port s)) else p' = y_port s)).
  { unfold p', alive. destruct (port_set (y_sleep s)); [|done]. destruct (rtc_invalidate (y_port s)) as [r q] eqn:E. cbn [snd]. destruct (invalidate_law _ _ _ Hok E) as (H1 & H2 & H3).
    destruct r as [[]|c d]; [destruct H3 as (? & ? & ? & ?); by split_and!; [|intros|left]|]. destruct H3 as [Hd Hv]. split_and!; [done|congruence|]. destruct Hv; auto. }
  destruct Hlaw as (Hok' & Hal & Hv). apply inv_port; try done.
  - intros Ha Hr. cbn [disarmed restore_state sleep_image] in *. destruct (guard_cases _ (Hg (Hal Ha))) as [(_ & _ & _ & Hd)|(_ & -> & Hps)]; [congruence|]. unfold p'. rewrite Hps. by apply Hh; [apply Hal|].
  - destruct (port_set (y_sleep s)) eqn:Hps; [tauto|]. rewrite Hv. clearbody p'. subst p'. destruct (alive s) eqn:Ha; [|right; left; done].
    destruct (guard_cases _ (Hg eq_refl)) as [(_ & _ & ? & _)|(Har & _ & _)]; [congruence|]. destruct Him as [?|(im & [Hv' Hval Hi' Hsame])]; [by left|right; right].
    exists im. assert (Hst : port_stage (with_port (y_port s) (disarmed (y_sleep s)) s) = port_stage s) by (unfold port_stage; cbn [with_port y_parked y_sleep y_woken]; by rewrite Har).
    split; try done; rewrite Hst; [done|]. unfold port_stage. destruct (y_parked s); [done|]. destruct (negb (alive s)); [done|]. by rewrite Har.
Qed.

Lemma wake_step s : Inv s → Inv (step Wake s).
Proof using. intros Hi. cbn [SessionRtcRun.step]. unfold on_wake. rewrite disarm_eq. cbn [snd node_of n_bank n_port n_sleep]. rewrite with_node_port. by apply disarm_step. Qed.

Lemma step_set_bank s b p sl : with_node (mkNode b p sl) s = with_port p sl (set_world (SessionBankWorld.on_bank (λ _, b) (y_world s)) s).
Proof using. done. Qed.

Lemma abort_step s parked_ : Inv s → Inv (step (AbortSleep parked_) s).
Proof using.
  intros Hi. pose proof Hi as [Hw Ht Hset Hok Him Hg Hh]. cbn [SessionRtcRun.step]. destruct (rtc_invalidate (y_port s)) as [r p1] eqn:E.
  assert (Hn : snd (abort_sleep parked_ (node_of s)) = let n := mkNode (w_bank (y_world s)) p1 (y_sleep s) in if parked_ then snd (disarm n) else n).
  { unfold abort_sleep, try, on_port, mbind, M_bind. cbn [node_of n_port n_bank n_sleep]. rewrite E. by destruct parked_. }
  rewrite Hn. clear Hn. destruct (invalidate_law _ _ _ Hok E) as (H1 & H2 & H3).
  assert (Hal : rtc_alive p1 = true → alive s = true) by (unfold alive; destruct (rtc_alive (y_port s)); [done|]; intros; destruct H2; [done|congruence]).
  assert (H0 : Inv (set_parked false (with_port p1 (y_sleep s) s))); [|destruct parked_; cbv zeta; [rewrite disarm_eq; cbn [snd n_bank n_port n_sleep]|]; rewrite with_node_port; [exact (disarm_step _ H0)|exact H0]].
  split; try done.
  - cbn [set_parked with_port y_port]. destruct r as [[]|c d]; [left; tauto|]. destruct H3 as [Hd [Hv|?]]; [|by left]. rewrite Hv. destruct Him as [?|(im & [Hv' Hval [Hio _] _])]; [by left|right].
    exists im. assert (Hst : port_stage (set_parked false (with_port p1 (y_sleep s) s)) = Gone) by (unfold port_stage, alive; cbn; by rewrite Hd).
    split; rewrite ?Hst; try done. cbn [set_parked with_port y_port]. by rewrite Hv.
  - intros Ha. by apply Hg, Hal.
  - intros Ha Hr. destruct (Hh (Hal Ha) Hr) as [Hx _]. split; [done|]. intros _. cbn [set_parked with_port y_port]. unfold alive in Ha. cbn [set_parked with_port y_port] in Ha. destruct r as [[]|c d]; [tauto|]. destruct H3. congruence.
Qed.

Lemma stop_step s : Inv s → Inv (step StopTraffic s).
Proof using.
  intros Hi. cbn [SessionRtcRun.step]. unfold stop_traffic, mbind, M_bind, SessionRtc.on_bank, modifyS. cbn [node_of n_bank n_port n_sleep]. rewrite disarm_eq.
  unfold set_sleep. cbn [snd n_bank n_port n_sleep]. rewrite step_set_bank.
  assert (Hc : Inv (set_world (run_op hmac Clear (y_world s)) s)) by (by apply plain_step). cbn [run_op] in Hc. apply disarm_step in Hc.
  cbn [set_world y_sleep y_port with_port] in Hc. set (p' := if port_set _ then _ else _) in *. set (s1 := with_port p' _ _) in Hc.
  pose proof Hc as [_ _ _ Hok' Him' Hg' _]. change (Inv (with_port p' (with_restore RestoreIdle (restore_elapsed_ms (disarmed (y_sleep s))) (with_image zero_image (disarmed (y_sleep s)))) s1)).
  apply inv_port; try done. destruct Him' as [?|(im & [])]; [by left|right; right]. exists im. split; try done.
  intros slots Hst. exfalso. revert Hst. unfold port_stage. destruct (y_parked _); [done|]. by destruct (negb _).
Qed.

Lemma cycle_step s p woken : Inv s → may s (PowerCycle p woken) → (w_accepted (y_world s) = [] ∨ honest s (PowerCycle p woken)) → Inv (step (PowerCycle p woken) s).
Proof using.
  intros Hi [Hok' Hv'] Hho. pose proof Hi as [Hw Ht Hset Hok Him Hg Hh]. cbn [SessionRtcRun.step]. set (w' := SessionBankWorld.on_bank _ (y_world s)).
  assert (Hnone : (∀ l i e, ¬ live (w_bank w') l i e) ∧ ∀ q m y z, ¬ held (w_bank w') q m y z).
  { assert (Hl : ∀ l i e, ¬ live (w_bank w') l i e) by (intros [] i e; unfold live, tb, w', new_bank; cbn; by intros [? _]%lookup_replicate).
    split; [done|]. intros [l i|i] m y z; cbn; [intros (e & He & _); by eapply Hl|]. intros (o & Ho & _). revert Ho. unfold ovl. cbn [w_bank w' SessionBankWorld.on_bank new_bank overlap_].
    by intros [? _]%lookup_replicate. }
  destruct Hnone as [Hl Hhe]. split; cbn [y_world y_port y_sleep]; try done.
  - apply (world_keeps (y_world s) (λ b, new_bank (length (link_ b)) (length (end_ b)))); [apply new_bank_keeps|done].
  - apply new_bank_timed.
  - by intros l i e ?%Hl.
  - rewrite Hv'. destruct Him as [?|(im & [Hv Hval [[Hty Hcx Hap] Hk] _])]; [by left|right]. exists im. split; cbn [y_port]; try done; [congruence| |].
    + split; [by split|]. unfold port_stage. cbn [y_parked y_sleep y_woken]. destruct (negb (alive _)); [done|]. cbn. split; [|].
      * intros c Hc. split; [intros l i e ?%Hl; done|intros q m y z ?%Hhe; done].
      * intros Hwk c k Hc Hacc. change (w_accepted w') with (w_accepted (y_world s)) in Hacc. destruct Hho as [Hnil|Hho]; [by rewrite Hnil in Hacc; apply not_elem_of_nil in Hacc|]. cbn in Hho. specialize (Hho Hwk).
        unfold port_stage in Hk. rewrite Hho in Hk. by apply Hk.
    + unfold port_stage. cbn. by destruct (negb _).
Qed.
End Inv.
