(* ===== verification/SessionRtcSave.v ===== *)
(** * Session images: saving

    A save writes an image of the bank as it is, and keeps the invariant
    whether it succeeds, is refused, or loses power on the way. *)

From S2P Require Import Prelude Types Crc32 SessionBank SessionBankProps SessionBankRun SessionBankInstall SessionBankWorld SessionBankTime SessionRtc SessionRtcProps SessionRtcPort SessionRtcBank SessionRtcRun SessionRtcInv.

Section Save.
Context (kResourceProfileId : Z) (Hprofile : is_u8 kResourceProfileId) (hmac : list Z → list Z → list Z) {AG : AeadGcm}.
Context {ST : Type} {RP : RtcSessionPort ST} {RL : RtcSessionPortLaws kResourceProfileId ST}.
Abbreviation Sys := (@Sys ST).
Abbreviation Node := (@Node ST).
Abbreviation unread := (undecodable kResourceProfileId).
Abbreviation record := (rtc_record kResourceProfileId).
Abbreviation Inv := (Inv kResourceProfileId).
Abbreviation encode := (encode_rtc_session kResourceProfileId).

Lemma encode_ok im : valid im = true → encode im = Ok (record im).
Proof using. unfold encode_rtc_session, invalid_if. by intros ->. Qed.
Lemma encode_inv im r : encode im = Ok r → valid im = true ∧ r = record im.
Proof using. unfold encode_rtc_session, invalid_if. intros [Hv [= <-]]%guard_err_bind. by apply negb_false_iff in Hv. Qed.

(** ** Arming *)

Definition armed_slots (im : RtcSessionImage) (slots : list bool) : list bool := imap (λ i a, a || bool_decide (Z.of_nat i < count im)) slots.
Lemma arm_spec (n n' : Node) r :
  arm kResourceProfileId n = (r, n') → armed (n_sleep n) = false → image_typed (sleep_image (n_sleep n)) → rtc_ok (n_port n) →
  n_bank n' = n_bank n ∧ rtc_ok (n_port n') ∧
  match r with
  | Ok _ => valid (sleep_image (n_sleep n)) = true ∧ rtc_alive (n_port n') = true ∧ rtc_view (n_port n') = record (sleep_image (n_sleep n)) ∧
            n_sleep n' = with_guard true true (armed_slots (sleep_image (n_sleep n)) (slot_armed (n_sleep n))) (n_sleep n)
  | Err _ _ => n_sleep n' = n_sleep n ∧
      ((valid (sleep_image (n_sleep n)) = false ∧ n_port n' = n_port n) ∨
       (valid (sleep_image (n_sleep n)) = true ∧ rtc_alive (n_port n') = false ∧
        (rtc_view (n_port n') = rtc_view (n_port n) ∨ unread (rtc_view (n_port n')) ∨ rtc_view (n_port n') = record (sleep_image (n_sleep n)))))
  end.
Proof using.
  intros Ha Har Ht Hok. unfold arm, mbind, M_bind, get_sleep, fail_if in Ha. rewrite Har in Ha. unfold mret, M_ret in Ha.
  destruct (encode (sleep_image (n_sleep n))) as [enc|c d] eqn:He.
  2: { injection Ha as <- <-. split_and!; try done. left. split; [|done]. destruct (valid _) eqn:Hv; [|done]. by rewrite encode_ok in He. }
  apply encode_inv in He as [Hv ->]. unfold on_port in Ha. destruct (rtc_write _ (n_port n)) as [rw p1] eqn:Ew.
  destruct (write_law _ _ _ _ Hok (rtc_record_length _ _ Ht) (rtc_record_bytes _ _ Ht) Ew) as (H1 & H2 & H3).
  destruct rw as [[]|c d]; [|injection Ha as <- <-; split_and!; try done; right; tauto]. destruct H3 as (_ & Hal & Hview). unfold try in Ha. cbn [n_port n_bank n_sleep] in Ha.
  destruct (rtc_read p1) as [rr p2] eqn:Er. destruct (read_law _ _ _ H1 Er) as [-> Hr]. rewrite Hal in Hr. subst rr. rewrite Hview in Ha. rewrite bool_decide_eq_true_2 in Ha by done.
  injection Ha as <- <-. done.
Qed.

(** ** The image of a bank *)

Lemma export_ok b sc p e :
  export_sleep_entry hmac b sc p = Ok e → ∃ i x, live b (is_link sc) i x ∧ peer x = p ∧ unicast_scope sc = true ∧
    e = with_flags 0 (with_life (remaining b (remaining_ms x)) (install_serial x) x).
Proof using.
  unfold export_sleep_entry. intros He. apply result_bind_inv in He as (out & He & Hs). apply guard_err_bind in Hs as [_ Hs]. apply guard_err_bind in Hs as [Hfl [= <-]].
  apply negb_false_iff, bool_decide_eq_true in Hfl. rewrite Hfl. unfold export_entry in He. do 2 (apply guard_err_bind in He as [_ He]).
  destruct (find_current hmac b sc p) as [x|] eqn:Hc; [|done]. destruct (entry_usable _ _); [|done]. injection He as <-. apply find_current_slot in Hc as (i & _ & Hl & Hp & Hu). eauto 10.
Qed.

(** What an exported context keeps of the one in the bank. *)
Lemma export_typed b x : entry_typed x → entry_typed (with_flags 0 (with_life (remaining b (remaining_ms x)) (install_serial x) x)).
Proof using. intros []. split; try done. pose proof (remaining_range b (remaining_ms x)). unfold in_range. cbn. unfold UINT32_MAX in *. lia. Qed.

Lemma build_image_ok w boot mb parent mac binding im :
  world_ok w → settled (w_bank w) → is_u32 boot → membership_typed mb → length mac = 6%nat → bytes_ok mac → is_u32 binding →
  build_image hmac boot mb parent mac binding (w_bank w) = Ok im → image_ok w im ∧ image_seen w im.
Proof using.
  intros Hw Hset Hb [] Hm1 Hm2 Hbi. unfold build_image. intros Hbld. apply result_bind_inv in Hbld as (link & Hlink & [= Him]).
  destruct (export_ok _ _ _ _ Hlink) as (i0 & x0 & Hl0 & _ & _ & E0). change (is_link Link) with true in Hl0.
  assert (Hone : ∀ l i x c, live (w_bank w) l i x → rc_entry c = with_flags 0 (with_life (remaining (w_bank w) (remaining_ms x)) (install_serial x) x) →
            ctx_ok w c ∧ entry_typed (rc_entry c) ∧ ∀ k, (rxm (rc_entry c), k) ∈ w_accepted w → replayed (rx_max (rc_entry c)) (rx_bitmap (rc_entry c)) k = true).
  { intros l i x c Hl Hc. unfold ctx_ok. rewrite Hc. assert (Hh : held (w_bank w) (PCur l i) (rxm x) (rx_max x) (rx_bitmap x)) by (exists x; done). split_and!.
    - by apply (k_live _ Hw _ _ _ Hl).
    - by apply (k_held _ Hw _ _ _ _ Hh).
    - intros k Hk. by destruct (t_used _ _ (k_tx _ Hw) _ _ _ _ Hl Hk).
    - by apply export_typed, (Hset _ _ _ Hl).
    - intros k Hk. by apply (r_seen _ _ (k_rx _ Hw) _ _ _ _ _ Hh). }
  set (second := match first_live_peer (w_bank w) EndToEnd with Some p => match export_sleep_entry hmac (w_bank w) EndToEnd p with Ok e => Some e | Err _ _ => None end | None => None end) in Him.
  assert (Hsec : ∀ e, second = Some e → ∃ i x, live (w_bank w) false i x ∧ e = with_flags 0 (with_life (remaining (w_bank w) (remaining_ms x)) (install_serial x) x)).
  { intros e. unfold second. destruct (first_live_peer _ _) as [p|]; [|done]. destruct (export_sleep_entry hmac (w_bank w) EndToEnd p) as [e'|] eqn:E2; [|done]. intros [= ->].
    destruct (export_ok _ _ _ _ E2) as (i & x & Hl & _ & _ & Hx). eauto. }
  destruct (Hone _ _ _ (mkRtcContext (scope_value Link) link) Hl0 E0) as (C0 & T0 & S0). destruct second as [e1|] eqn:Es.
  - destruct (Hsec e1 eq_refl) as (i1 & x1 & Hl1 & E1). destruct (Hone _ _ _ (mkRtcContext (scope_value EndToEnd) e1) Hl1 E1) as (C1 & T1 & S1). rewrite <- Him.
    set (c0 := mkRtcContext (scope_value Link) link) in *. set (c1 := mkRtcContext (scope_value EndToEnd) e1) in *. split; [split|].
    + split; try done. exists c0, c1. split; [done|]. split; [done|]. right. done.
    + intros c [->|[->|[]%not_elem_of_nil]%elem_of_cons]%elem_of_cons; done.
    + assert (Hne : txm link ≠ txm e1 ∧ rxm link ≠ rxm e1).
      { rewrite E0, E1. split; intros Heq.
        - by destruct (t_unique _ _ (k_tx _ Hw) _ _ _ _ _ _ Hl0 Hl1 Heq).
        - assert (Hq0 : held (w_bank w) (PCur true i0) (rxm x0) (rx_max x0) (rx_bitmap x0)) by (exists x0; done).
          assert (Hq1 : held (w_bank w) (PCur false i1) (rxm x0) (rx_max x1) (rx_bitmap x1)) by (exists x1; split_and!; [done|exact Heq|done..]).
          by pose proof (r_unique _ _ (k_rx _ Hw) _ _ _ _ _ _ _ Hq0 Hq1). }
      intros [|[|i]] [|[|j]] c d; cbn; try done; intros [= <-] [= <-] _; cbn; [done|]. destruct Hne. by split; apply not_eq_sym.
    + intros c k [->|[->|[]%not_elem_of_nil]%elem_of_cons]%elem_of_cons; [apply S0|apply S1].
  - rewrite <- Him. set (c0 := mkRtcContext (scope_value Link) link) in *. split; [split|].
    + split; try done. exists c0, unused_context. split; [done|]. split; [done|]. left. done.
    + intros c [->|[]%not_elem_of_nil]%elem_of_cons; done.
    + intros [|i] [|j] c d; cbn; done.
    + intros c k [->|[]%not_elem_of_nil]%elem_of_cons; apply S0.
Qed.

(** ** Retiring what lost its retained half *)

Lemma set_world_id (s : Sys) : set_world (SessionBankWorld.on_bank (λ _, w_bank (y_world s)) (y_world s)) s = s.
Proof using. destruct s as [[] ? ? ? ?]. done. Qed.
Lemma retire_contexts_step l s :
  Inv s → ∃ b', retire_contexts hmac l (node_of s) = (Ok tt, mkNode b' (y_port s) (y_sleep s)) ∧ Inv (set_world (SessionBankWorld.on_bank (λ _, b') (y_world s)) s).
Proof using Hprofile AG.
  revert s. induction l as [|[sc x] l IH]; intros s Hi; cbn [retire_contexts].
  - exists (w_bank (y_world s)). rewrite set_world_id. done.
  - assert (H1 : Inv (set_world (run_op hmac (Retire sc (peer (rc_entry x))) (y_world s)) s)) by (by apply plain_step). destruct (IH _ H1) as (b' & E & Hb'). exists b'. split; [|exact Hb'].
    unfold mbind, M_bind, try, SessionRtc.on_bank. cbn [node_of n_bank]. cbn [run_op] in E. unfold node_of, set_world, SessionBankWorld.on_bank in E. cbn [y_world w_bank y_port y_sleep] in E.
    destruct (retire hmac sc (peer (rc_entry x)) (w_bank (y_world s))) as [r b1]. exact E.
Qed.

(** ** The save *)

(** After the write, or a write that lost power. *)
Lemma written_inv s p' sl' im (b : bool) :
  Inv s → image_ok (y_world s) im → image_seen (y_world s) im → valid im = true → rtc_ok p' →
  (rtc_alive p' = true → guard_ok sl') → (rtc_alive p' = true → restore_state sl' = RestoreHolding → image_inv (y_world s) (Loose true) (sleep_image sl')) →
  rtc_view p' = record im ∨ unread (rtc_view p') ∨ (rtc_view p' = rtc_view (y_port s) ∧ (b = true → y_parked s = true)) →
  rtc_alive p' = false ∨ b = true → Inv (set_parked b (with_port p' sl' s)).
Proof using Hprofile AG.
  intros [Hw Ht Hset Hok Him Hg Hh] Hio Hseen Hval Hok' Hg' Hh' Hview Hb. split; try done.
  2: { intros Ha Hr. split; [by apply Hh'|]. cbn [set_parked y_parked]. intros ->. unfold alive in Ha. cbn [set_parked with_port y_port] in Ha. destruct Hb; congruence. }
  assert (Hst : port_stage kResourceProfileId (set_parked b (with_port p' sl' s)) = if b then Parked else Gone).
  { unfold port_stage, alive. cbn [set_parked with_port y_parked y_port]. destruct b; [done|]. destruct Hb as [->|?]; done. }
  assert (Hnew : ∀ im', rtc_view p' = record im' → valid im' = true → image_ok (y_world s) im' → (b = true → image_seen (y_world s) im') → port_image kResourceProfileId (set_parked b (with_port p' sl' s)) im').
  { intros im' Hv Hval' Hio' Hs'. split; [done|done|rewrite Hst; split; [done|by destruct b; [apply Hs'|]]|rewrite Hst; by destruct b]. }
  cbn [set_parked with_port y_port]. destruct Hview as [Hv|[?|[Hv Hp]]]; [right; exists im; by apply Hnew|by left|]. rewrite Hv. destruct Him as [?|(im' & [Hv' Hval' [Hio' Hk] _])]; [by left|right].
  exists im'. apply Hnew; [congruence|done..|]. intros Hbt. unfold port_stage in Hk. rewrite (Hp Hbt) in Hk. done.
Qed.

Lemma armed_slots_some im : image_typed im → armed (with_guard true true (armed_slots im [false; false]) new_sleeper) = true ∧ length (armed_slots im [false; false]) = 2%nat.
Proof using. intros Ht. destruct (it_slots _ Ht) as (c0 & c1 & _ & _ & [[Hc _]|[Hc _]]); unfold armed_slots, armed; cbn; by rewrite Hc. Qed.

Lemma commit_image_step s im r n' :
  Inv s → image_ok (y_world s) im → image_seen (y_world s) im → valid im = true → alive kResourceProfileId s = true →
  commit_image kResourceProfileId hmac im (record im) (node_of s) = (r, n') → Inv (set_parked (y_parked s || is_ok r) (with_node n' s)).
Proof using Hprofile AG.
  intros Hi Hio Hseen Hval Hal E. pose proof Hi as [Hw Ht Hset Hok Him Hg Hh]. pose proof (io_typed _ _ Hio) as Hty. unfold commit_image, mbind, M_bind, on_port in E. cbn [node_of n_port n_bank n_sleep] in E.
  destruct (rtc_write (record im) (y_port s)) as [rw p1] eqn:Ew. destruct (write_law _ _ _ _ Hok (rtc_record_length _ _ Hty) (rtc_record_bytes _ _ Hty) Ew) as (H1 & H2 & H3).
  destruct rw as [[]|c d].
  2: { injection E as <- <-. rewrite with_node_port. cbn [is_ok]. rewrite orb_false_r. destruct H3 as [Hd Hv]. apply (written_inv s p1 (y_sleep s) im); try done; try congruence; [|by left].
       destruct Hv as [?|[?|?]]; [right; right|right; left|left]; done. }
  destruct H3 as (_ & Hal1 & Hv1). unfold get_sleep in E. cbn [n_sleep] in E. destruct (guard_cases _ (Hg Hal)) as [(Har & Hgu & Hps & Hdone)|(Har & Hgu & Hps)]; rewrite Har in E.
  2: { injection E as <- <-. rewrite with_node_port. cbn [is_ok]. rewrite orb_true_r. apply (written_inv s p1 (y_sleep s) im); try done; [by intros; apply Hg|by intros; apply Hh|by left|by right]. }
  rewrite disarm_eq in E. cbn [n_bank n_port n_sleep] in E. rewrite Hps in E. unfold set_sleep in E. cbn [n_bank n_port n_sleep] in E.
  destruct (rtc_invalidate p1) as [r2 p2] eqn:E2. cbn [snd] in E. destruct (invalidate_law _ _ _ H1 E2) as (I1 & I2 & I3).
  assert (Hv2 : rtc_view p2 = record im ∨ unread (rtc_view p2)) by (destruct r2 as [[]|]; [tauto|]; destruct I3 as [_ [->|?]]; [by left|by right]).
  set (sl1 := with_image im (disarmed (y_sleep s))) in E. unfold try in E. destruct (arm kResourceProfileId (mkNode (w_bank (y_world s)) p2 sl1)) as [ra n2] eqn:Ea.
  destruct (arm_spec _ _ _ Ea eq_refl Hty I1) as (B1 & B2 & B3). cbn [n_bank n_sleep n_port] in B1, B3. change (sleep_image sl1) with im in B3. destruct n2 as [b2 p3 sl2]. cbn [n_bank n_sleep n_port] in *. subst b2.
  destruct ra as [[]|c d].
  - injection E as <- <-. rewrite with_node_port. cbn [is_ok]. rewrite orb_true_r. destruct B3 as (_ & Hal3 & Hv3 & ->). apply (written_inv s p3 _ im); try done; [| |by left|by right].
    + intros _. change (slot_armed sl1) with [false; false]. destruct (armed_slots_some im Hty) as [Hsa Hlen]. split; [done|].
      change (armed (with_guard true true (armed_slots im [false; false]) sl1)) with (armed (with_guard true true (armed_slots im [false; false]) new_sleeper)). rewrite Hsa. split; [done|]. split; [done|]. split; [exact Hdone|]. split; [exact Hty|exact Hval].
    + intros _. change (restore_state (y_sleep s) = RestoreHolding → image_inv (y_world s) (Loose true) im). by rewrite Hdone.
  - destruct B3 as [-> [[? _]|(_ & Hd3 & Hv3)]]; [congruence|].
    assert (Hv3' : rtc_view p3 = record im ∨ unread (rtc_view p3)) by (destruct Hv3 as [->|[?|?]]; [done|by right|by left]).
    assert (Hi2 : Inv (set_parked (y_parked s) (with_port p3 sl1 s))) by (apply (written_inv s p3 sl1 im); try done; try congruence; [destruct Hv3'; auto|by left]).
    destruct (retire_contexts_step (zip [Link; EndToEnd] (used im)) _ Hi2) as (b' & Er & Hi3).
    change (node_of (set_parked (y_parked s) (with_port p3 sl1 s))) with (mkNode (w_bank (y_world s)) p3 sl1) in Er. rewrite Er in E. cbn [set_parked with_port y_port y_sleep n_bank n_port n_sleep] in E.
    injection E as <- <-. cbn [is_ok]. rewrite orb_false_r.
    set (s3 := set_world (SessionBankWorld.on_bank (λ _, b') (y_world s)) (set_parked (y_parked s) (with_port p3 sl1 s))) in *.
    change (Inv (with_port p3 (with_image zero_image sl1) s3)). apply inv_port; try done; try congruence. cbn. destruct Hv3'; [|by left]. right; left. done.
Qed.

Lemma save_step s boot mb parent mac binding now :
  Inv s → may kResourceProfileId s (Save boot mb parent mac binding now) → Inv (step kResourceProfileId hmac (Save boot mb parent mac binding now) s).
Proof using Hprofile AG.
  intros Hi (Hal & _ & Hb & Hmb & Hm1 & Hm2 & Hbi & Hnow). cbn [step]. destruct (save_sleep_image kResourceProfileId hmac boot mb parent mac binding now (node_of s)) as [r n'] eqn:E.
  assert (Hst : ∀ s1 c d, Inv s1 → y_parked s1 = y_parked s → w_sealed (y_world s1) = w_sealed (y_world s) → (Err c d, node_of s1) = (r, n') →
            with_node (node_of s1) s = s1 → Inv (set_parked (y_parked s || is_ok r) (with_node n' s))).
  { intros s1 c d H1 Hp _ [= <- <-] ->. cbn [is_ok]. rewrite orb_false_r, <- Hp. by destruct s1. }
  assert (Hid : with_node (node_of s) s = s) by (unfold with_node, node_of, SessionBankWorld.on_bank; by destruct s as [[] ? ? ? ?]).
  unfold save_sleep_image in E. unfold mbind at 1, M_bind at 1, fail_if, throw in E. destruct (_ || _); [by eapply (Hst s)|]. unfold mret, M_ret in E.
  assert (H1 : Inv (set_world (run_op hmac (Tick now) (y_world s)) s)) by (by apply plain_step). set (s1 := set_world _ s) in H1. pose proof H1 as [Hw1 _ Hset1 _ _ _ _].
  assert (Hn1 : node_of s1 = mkNode (snd (tick now (w_bank (y_world s)))) (y_port s) (y_sleep s)) by done.
  assert (Hwn : ∀ n, with_node n s1 = with_node n s) by done.
  unfold mbind at 1, M_bind at 1, SessionRtc.on_bank in E. cbn [node_of n_bank n_port n_sleep] in E. destruct (tick now (w_bank (y_world s))) as [[[]|c d] b1] eqn:Et; cbn [snd] in Hn1.
  2: { rewrite <- Hn1 in E. by eapply (Hst s1). }
  rewrite <- Hn1 in E. unfold mbind at 1, M_bind at 1, getS in E. unfold mbind at 1, M_bind at 1, lift in E. change (n_bank (node_of s1)) with (w_bank (y_world s1)) in E.
  destruct (build_image hmac boot mb parent mac binding (w_bank (y_world s1))) as [im|c d] eqn:Eb; [|by eapply (Hst s1)].
  unfold mbind at 1, M_bind at 1 in E. destruct (encode im) as [enc|c d] eqn:Ee; [|by eapply (Hst s1)]. apply encode_inv in Ee as [Hv ->].
  destruct (build_image_ok _ _ _ _ _ _ _ Hw1 Hset1 Hb Hmb Hm1 Hm2 Hbi Eb) as [Hio Hseen]. exact (commit_image_step s1 im r n' H1 Hio Hseen Hv Hal E).
Qed.
End Save.
