(* ===== verification/SessionRtcRestore.v ===== *)
(** * Session images: restoring

    The wake consumes the image, holds it until the parent is bound, installs
    it and arms the write-ahead; every way out keeps the invariant. *)

From S2P Require Import Prelude Types Crc32 SessionBank SessionBankProps SessionBankRun SessionBankInstall SessionBankWorld SessionBankTime SessionRtc SessionRtcProps SessionRtcPort SessionRtcBank SessionRtcRun SessionRtcInv SessionRtcSave.

(** ** Ageing *)

Lemma used_age d im : image_typed im → used (age_image d im) = age_context d <$> used im.
Proof.
  intros Ht. destruct (it_slots _ Ht) as (c0 & c1 & Hc & _ & Hn). unfold used at 1. unfold age_image. cbn [count contexts]. unfold used. rewrite Hc.
  destruct Hn as [[-> _]|[-> _]]; done.
Qed.
Lemma age_typed d im : image_typed im → 0 ≤ d → outlived d im = false → image_typed (age_image d im).
Proof.
  intros Ht Hd Ho. destruct (it_slots _ Ht) as (c0 & c1 & Hc & H0 & Hn).
  assert (Hage : ∀ c, c ∈ used im → context_typed c → context_typed (age_context d c)).
  { intros c Hin [Hs Ht']. split; [done|]. assert (Hlt : d < remaining_ms (rc_entry c)).
    { unfold outlived in Ho. apply not_true_iff_false in Ho. rewrite existsb_exists in Ho. destruct (decide (remaining_ms (rc_entry c) ≤ d)) as [Hle|]; [|lia].
      destruct Ho. exists c. split; [by apply list_elem_of_In|by apply bool_decide_eq_true]. }
    destruct Ht'. split; try done. cbn. unfold in_range in *. lia. }
  destruct Ht. split; try done. unfold age_image. cbn [contexts count]. unfold used in *. rewrite Hc in *. destruct Hn as [[Hn ->]|[Hn H1]]; rewrite Hn in *.
  - exists (age_context d c0), unused_context. split; [done|]. split; [|by left]. apply Hage; [by apply elem_of_cons; left|done].
  - exists (age_context d c0), (age_context d c1). split; [done|]. split; [apply Hage; [by apply elem_of_cons; left|done]|right]. split; [done|].
    apply Hage; [apply elem_of_cons; right; by apply elem_of_cons; left|done].
Qed.
Lemma age_inv w st d im : image_inv w st im → 0 ≤ d → outlived d im = false → image_inv w st (age_image d im).
Proof.
  intros [[Ht Hc Ha] Hk] Hd Ho. pose proof (used_age d im Ht) as Hu. assert (Hin : ∀ c, c ∈ used (age_image d im) → ∃ c0, c0 ∈ used im ∧ c = age_context d c0).
  { intros c. rewrite Hu. intros (c0 & -> & ?)%list_elem_of_fmap. eauto. }
  assert (Hlk : ∀ i c, used (age_image d im) !! i = Some c → ∃ c0, used im !! i = Some c0 ∧ c = age_context d c0).
  { intros i c. rewrite Hu, list_lookup_fmap. destruct (used im !! i) as [c0|]; [|done]. intros [= <-]. eauto. }
  split; [split|].
  - by apply age_typed.
  - intros c (c0 & H0 & ->)%Hin. apply (Hc c0 H0).
  - intros i j c e (c0 & H0 & ->)%Hlk (c1 & H1 & ->)%Hlk Hne. apply (Ha i j c0 c1 H0 H1 Hne).
  - destruct st as [| |x|slots]; [done| | |].
    + intros c k (c0 & H0 & ->)%Hin. apply (Hk c0 k H0).
    + destruct Hk as [Hs Hx]. split; [intros c (c0 & H0 & ->)%Hin; apply (Hs c0 H0)|]. intros Hxt c k (c0 & H0 & ->)%Hin. apply (Hx Hxt c0 k H0).
    + intros i c l j e (c0 & H0 & ->)%Hlk. apply (Hk i c0 l j e H0).
Qed.

Section Restore.
Context (kResourceProfileId : Z) (Hprofile : is_u8 kResourceProfileId) (hmac : list Z → list Z → list Z) {AG : AeadGcm}.
Context {ST : Type} {RP : RtcSessionPort ST} {RL : RtcSessionPortLaws kResourceProfileId ST}.
Abbreviation Sys := (@Sys ST).
Abbreviation Node := (@Node ST).
Abbreviation unread := (undecodable kResourceProfileId).
Abbreviation record := (rtc_record kResourceProfileId).
Abbreviation Inv := (Inv kResourceProfileId).
Abbreviation alive := (alive kResourceProfileId).

(** ** The one-shot wake *)

Lemma consume_spec wake p r p' :
  consume_rtc_session kResourceProfileId wake p = (r, p') → rtc_ok p →
  rtc_ok p' ∧ (rtc_alive p' = true → rtc_alive p = true ∧ unread (rtc_view p')) ∧
  (rtc_view p' = rtc_view p ∨ unread (rtc_view p')) ∧
  (∀ im, r = Ok im → rtc_alive p' = true ∧ decode_rtc_session kResourceProfileId (rtc_view p) wake = Ok im).
Proof using.
  intros Hc Hok. unfold consume_rtc_session in Hc. destruct (rtc_read p) as [rr q] eqn:Er. destruct (read_law _ _ _ Hok Er) as [-> Hr].
  assert (Hinv : ∀ ri p1, rtc_invalidate p = (ri, p1) → rtc_ok p1 ∧ (rtc_alive p1 = true → rtc_alive p = true ∧ unread (rtc_view p1)) ∧ (rtc_view p1 = rtc_view p ∨ unread (rtc_view p1)) ∧ (ri = Ok tt → rtc_alive p1 = true ∧ marker (rtc_view p1) ≠ kCommitted)).
  { intros ri p1 Ei. destruct (invalidate_law _ _ _ Hok Ei) as (H1 & H2 & H3). destruct ri as [[]|c d]; [split_and!; tauto|]. destruct H3 as [Hd Hv]. split_and!; [done|congruence|done|done]. }
  destruct rr as [raw|c d].
  2: { destruct (rtc_invalidate p) as [[[]|c' d'] p1] eqn:Ei; injection Hc as <- <-; destruct (Hinv _ _ eq_refl) as (?&?&?&?); by split_and!. }
  destruct (decode_rtc_session kResourceProfileId raw wake) as [im|c d] eqn:Ed.
  2: { destruct (rtc_invalidate p) as [[[]|c' d'] p1] eqn:Ei; injection Hc as <- <-; destruct (Hinv _ _ eq_refl) as (?&?&?&?); by split_and!. }
  assert (raw = rtc_view p) as -> by (destruct (rtc_alive p); [congruence|by destruct Hr]). unfold mbind, M_bind in Hc.
  destruct (rtc_invalidate p) as [[[]|c' d'] p1] eqn:Ei; destruct (Hinv _ _ eq_refl) as (I1 & I2 & I3 & I4); [|injection Hc as <- <-; by split_and!].
  destruct (I4 eq_refl) as [Hal Hm]. destruct (rtc_read p1) as [r2 q2] eqn:Er2. destruct (read_law _ _ _ I1 Er2) as [-> Hr2]. rewrite Hal in Hr2. subst r2.
  unfold fail_if in Hc. rewrite bool_decide_eq_false_2 in Hc by done. injection Hc as <- <-. split_and!; try done. intros im' [= <-]. done.
Qed.

(** ** Installing a held image *)

(** Every context of the bank with a key of the image is where the image
    says, with its counter. *)
Definition homed (b : SessionBank) (im : RtcSessionImage) : Prop :=
  ∀ i c l j e, used im !! i = Some c → live b l j e → txm e = txm (rc_entry c) →
    l = bool_decide (i = 0%nat) ∧ peer e = peer (rc_entry c) ∧ tx_cid e = tx_cid (rc_entry c) ∧ tx_next e = tx_next (rc_entry c).
Lemma unshared_homed b im : unshared b im → homed b im.
Proof using. intros Hu i c l j e Hc He Hm. destruct (Hu c) as [Hn _]; [by eapply list_elem_of_lookup_2|]. by destruct (Hn _ _ _ He). Qed.
Lemma restore_homed b im i c r b' :
  homed b im → apart im → used im !! i = Some c → restore_entry hmac (if bool_decide (i = 0%nat) then Link else EndToEnd) (peer (rc_entry c)) (rc_entry c) b = (r, b') → homed b' im.
Proof using.
  intros Hh Hap Hc Hr. destruct (restore_spec hmac _ _ _ _ _ _ Hr) as [->|(i0 & x & [Hp _ _] & Etx & En & _ & _ & _ & _ & _ & Ep & _ & _ & _ & _ & (ms & serial & Hx))]; [done|].
  intros j c' l k e Hc' He Hm. apply Hp in He as [(-> & -> & ->)|[_ He]]; [|by eapply Hh]. assert (i = j) as <-.
  { destruct (decide (i = j)) as [|Hne]; [done|]. destruct (Hap i j c c' Hc Hc' Hne) as [Hd _]. congruence. }
  rewrite Hc in Hc'. injection Hc' as <-. split_and!; [by case_bool_decide|done|by rewrite Hx|done].
Qed.

(** One context of the image enters the bank. *)
Lemma restore_one w im i c sc :
  image_ok w im → image_seen w im → world_ok w → timed (w_bank w) → settled (w_bank w) → used im !! i = Some c →
  (∀ q m y z, held (w_bank w) q m y z → m ≠ rxm (rc_entry c)) → sc = (if bool_decide (i = 0%nat) then Link else EndToEnd) → homed (w_bank w) im →
  let w' := SessionBankWorld.on_bank (λ b, snd (restore_entry hmac sc (peer (rc_entry c)) (rc_entry c) b)) w in
  world_ok w' ∧ timed (w_bank w') ∧ settled (w_bank w') ∧ homed (w_bank w') im ∧
  (∀ q m y z, held (w_bank w') q m y z → m = rxm (rc_entry c) ∨ ∃ q y z, held (w_bank w) q m y z).
Proof using AG.
  intros [Hty Hcx Hap] Hseen Hw Ht Hset Hc Hheld -> Hho w'. assert (Hin : c ∈ used im) by (by eapply list_elem_of_lookup_2). destruct (Hcx c Hin) as (C1 & C2 & C3).
  assert (Het : entry_typed (rc_entry c)).
  { destruct (it_slots _ Hty) as (c0 & c1 & Hcs & T0 & Hn). unfold used in Hc. rewrite Hcs in Hc. destruct Hn as [[Hn ->]|[Hn T1]]; rewrite Hn in Hc.
    - destruct i as [|[|i]]; cbn in Hc; [|done..]. injection Hc as <-. apply T0.
    - destruct i as [|[|i]]; cbn in Hc; [| |done]; injection Hc as <-; [apply T0|apply T1]. }
  set (sc := if bool_decide (i = 0%nat) then Link else EndToEnd) in *.
  assert (Hall : allowed w (RestoreEntry sc (peer (rc_entry c)) (rc_entry c))).
  { cbn [allowed]. split_and!; [done|done|apply (et_next _ Het)|done|intros k Hk; by apply Hseen|done]. }
  split_and!.
  - by apply (restore_world hmac sc (peer (rc_entry c)) (rc_entry c) w).
  - apply (run_op_timed hmac (RestoreEntry sc (peer (rc_entry c)) (rc_entry c)) w); [apply (et_ms _ Het)|done].
  - pose proof (restore_ages hmac sc (peer (rc_entry c)) (rc_entry c) (w_bank w) (proj1 (et_ms _ Het))) as Hag. cbn [w' SessionBankWorld.on_bank w_bank].
    destruct (restore_entry hmac sc (peer (rc_entry c)) (rc_entry c) (w_bank w)) as [r b'] eqn:E. cbn [snd] in *.
    destruct (restore_spec hmac _ _ _ _ _ _ E) as [->|(i0 & x & Hp & _ & _ & _ & _ & _ & _ & _ & _ & _ & _ & Hcf & Hgk & (ms & serial & Hx))]; [done|].
    intros l j e [(-> & -> & ->)|(_ & He & [])]%(placed_carries _ _ _ _ _ _ _ _ Hp Hag); [|destruct (Hset _ _ _ He) as (? & ? & ?); split_and!; [auto..|congruence]]. rewrite Hx. split_and!; [by apply typed_life| |by rewrite (ag_conf _ _ Hag)].
    pose proof (ag_gk _ _ Hag). unfold born. cbn [with_life created_gk]. unfold gk_dead in Hgk. apply orb_false_iff in Hgk as [Hgk%bool_decide_eq_false _]. lia.
  - cbn [w' SessionBankWorld.on_bank w_bank]. destruct (restore_entry hmac sc (peer (rc_entry c)) (rc_entry c) (w_bank w)) as [r b'] eqn:E. by eapply (restore_homed (w_bank w) im i c).
  - cbn [w' SessionBankWorld.on_bank w_bank]. destruct (restore_entry hmac sc (peer (rc_entry c)) (rc_entry c) (w_bank w)) as [r b'] eqn:E. cbn [snd].
    destruct (restore_spec hmac _ _ _ _ _ _ E) as [->|(i0 & x & [Hpl [j0 Hpo] _] & _ & _ & _ & _ & Erx & _)]; [intros; right; eauto|].
    intros [l j|j] m y z; cbn.
    + intros (e & [(-> & -> & ->)|[_ He]]%Hpl & -> & _); [by left|right]. exists (PCur l j), (rx_max e), (rx_bitmap e). cbn. eauto.
    + intros (o & [Ho|(-> & e & He & E1 & E2 & _)]%Hpo & -> & _); right; [exists (POv j), (ov_rx_max o), (ov_rx_bitmap o); cbn; eauto|].
      rewrite E1, E2. eexists (PCur _ i0), (rx_max e), (rx_bitmap e). cbn. eauto.
Qed.

Lemma restore_refused sc p e b c d b' : restore_entry hmac sc p e b = (Err c d, b') → b' = b.
Proof using. unfold restore_entry. bank_unfold. destruct (restore_check hmac b sc p e); [|by intros [= _ _ <-]]. by destruct (expires_after _ _). Qed.

(** The bank after both contexts were offered to it. *)
Definition both_restored (im : RtcSessionImage) (b : SessionBank) : SessionBank :=
  let b1 := snd (restore_entry hmac Link (peer (entry_at im 0)) (entry_at im 0) b) in
  if bool_decide (count im = 2) then snd (restore_entry hmac EndToEnd (peer (entry_at im 1)) (entry_at im 1) b1) else b1.
Lemma both_restored_ok w im :
  image_inv w (Loose true) im → world_ok w → timed (w_bank w) → settled (w_bank w) →
  let w' := SessionBankWorld.on_bank (both_restored im) w in world_ok w' ∧ timed (w_bank w') ∧ settled (w_bank w') ∧ homed (w_bank w') im.
Proof using AG.
  intros [Hio [Hun Hseen]] Hw Ht Hset w'. specialize (Hseen eq_refl). pose proof (io_typed _ _ Hio) as Hty. destruct (it_slots _ Hty) as (c0 & c1 & Hcs & _ & Hn).
  assert (Hu0 : used im !! 0%nat = Some c0) by (unfold used; rewrite Hcs; by destruct Hn as [[-> _]|[-> _]]).
  assert (He0 : entry_at im 0 = rc_entry c0) by (unfold entry_at; by rewrite Hcs). assert (He1 : entry_at im 1 = rc_entry c1) by (unfold entry_at; by rewrite Hcs).
  destruct (restore_one w im 0 c0 Link Hio Hseen Hw Ht Hset Hu0) as (R1 & R2 & R3 & R4 & R5); [by apply Hun; eapply list_elem_of_lookup_2|done|by apply unshared_homed|].
  set (w1 := SessionBankWorld.on_bank _ w) in R1, R2, R3, R4, R5. destruct Hn as [[Hn ->]|[Hn T1]].
  { assert (w' = w1) as -> by (unfold w', SessionBankWorld.on_bank, both_restored; by rewrite Hn, He0). exact (conj R1 (conj R2 (conj R3 R4))). }
  assert (Hu1 : used im !! 1%nat = Some c1) by (unfold used; by rewrite Hcs, Hn). assert (Hio1 : image_ok w1 im) by (destruct Hio; by split).
  destruct (restore_one w1 im 1 c1 EndToEnd Hio1 Hseen R1 R2 R3 Hu1) as (Q1 & Q2 & Q3 & Q4 & _); [|done|done|].
  2: { set (w2 := SessionBankWorld.on_bank _ w1) in Q1, Q2, Q3, Q4. assert (w' = w2) as -> by (unfold w', SessionBankWorld.on_bank, both_restored; by rewrite Hn, He0, He1). exact (conj Q1 (conj Q2 (conj Q3 Q4))). }
  intros q m y z [->|(q' & y' & z' & Hq)]%R5; [by destruct (io_apart _ _ Hio 0%nat 1%nat c0 c1 Hu0 Hu1)|]. eapply (Hun c1); [by eapply list_elem_of_lookup_2|exact Hq].
Qed.

(** ** Ways out of a restore *)

Definition failed (code : StatusCode) (detail : string) (sl : Sleeper) : Sleeper :=
  with_restore (RestoreFailed code detail) (restore_elapsed_ms sl) (with_image zero_image sl).
(** The sleep state alone changes, and the guard stays off. *)
Lemma sleep_step s sl' :
  Inv s → alive s = true → armed (y_sleep s) = false → guard_ok sl' → armed sl' = false →
  (restore_state sl' = RestoreHolding → image_inv (y_world s) (Loose true) (sleep_image sl') ∧ (y_parked s = false → unread (rtc_view (y_port s)))) →
  Inv (with_port (y_port s) sl' s).
Proof using.
  intros Hi Hal Har Hg' Har' Hh'. pose proof Hi as [_ _ _ Hok Him _ _]. apply inv_port; try done. destruct Him as [?|(im & [Hv Hval Hinv Hsame])]; [by left|right; right]. exists im.
  assert (Hst : port_stage kResourceProfileId (with_port (y_port s) sl' s) = port_stage kResourceProfileId s) by (unfold port_stage; cbn [with_port y_parked y_sleep y_woken]; by rewrite Har, Har').
  split; try done; rewrite Hst; [done|]. unfold port_stage. destruct (y_parked s); [done|]. destruct (negb _); [done|]. by rewrite Har.
Qed.
Lemma fail_step s code detail : Inv s → alive s = true → armed (y_sleep s) = false → Inv (with_port (y_port s) (failed code detail (y_sleep s)) s).
Proof using.
  intros Hi Hal Har. apply sleep_step; try done. pose proof (v_guard _ _ Hi Hal) as [Hl Hg]. split; [done|]. change (armed (failed code detail (y_sleep s))) with (armed (y_sleep s)). rewrite Har in *. done.
Qed.
Lemma rebase_ok w boot im : is_u32 boot → image_ok w im → image_ok w (rebase boot im).
Proof using. intros Hb [[] Hc Ha]. split; [by split|done|done]. Qed.

(** The state after the image has been armed. *)
Lemma installed_inv s im w2 boot p3 :
  Inv s → image_ok (y_world s) im → y_parked s = false → armed (y_sleep s) = false → guarding (y_sleep s) = false → length (slot_armed (y_sleep s)) = 2%nat →
  w2 = SessionBankWorld.on_bank (λ _, w_bank w2) (y_world s) → world_ok w2 → timed (w_bank w2) → settled (w_bank w2) → homed (w_bank w2) im → is_u32 boot →
  valid (rebase boot im) = true → rtc_ok p3 → rtc_alive p3 = true → rtc_view p3 = record (rebase boot im) →
  Inv (with_node (mkNode (w_bank w2) p3 (with_restore RestoreDone (restore_elapsed_ms (y_sleep s))
    (with_guard true true (armed_slots (rebase boot im) (slot_armed (y_sleep s))) (with_image (rebase boot im) (y_sleep s))))) s).
Proof using.
  intros Hi Hio Hpk Har Hgu Hlen Hw2e Hw2 Ht2 Hset2 Hho Hb Hval Hok3 Hal3 Hv3. pose proof (rebase_ok _ boot im Hb Hio) as Hio'. rewrite step_set_bank, <- Hw2e.
  assert (Hsl : slot_armed (y_sleep s) = [false; false]).
  { unfold armed in Har. destruct (slot_armed (y_sleep s)) as [|x [|y [|z l]]]; try done. cbn in Har. by destruct x, y. }
  rewrite Hsl. destruct (armed_slots_some _ (io_typed _ _ Hio')) as [Hsome Hlen']. set (sl := with_restore _ _ _).
  change (armed (with_guard true true (armed_slots (rebase boot im) [false; false]) new_sleeper)) with (armed sl) in Hsome.
  split; cbn [with_port set_world y_world y_port y_sleep]; try done; [|].
  - right. exists (rebase boot im). assert (Hst : port_stage kResourceProfileId (with_port p3 sl (set_world w2 s)) = Armed (slot_armed sl)).
    { unfold port_stage, SessionRtcInv.alive. cbn [with_port set_world y_parked y_port y_sleep]. by rewrite Hpk, Hal3, Hsome. }
    split; try done. rewrite Hst. split; [rewrite Hw2e; destruct Hio'; by split|]. intros i c l j e Hc He Hm. destruct (Hho i c l j e Hc He Hm) as (A1 & A2 & A2' & A3).
    split_and!; [done|done|done|lia|]. assert (Hlt : Z.of_nat i < count im).
    { apply lookup_lt_Some in Hc. unfold used in Hc. rewrite length_take in Hc. change (count (rebase boot im)) with (count im) in Hc. lia. }
    replace (default false (slot_armed sl !! i)) with true; [done|].
    destruct (it_slots _ (io_typed _ _ Hio)) as (c0 & c1 & _ & _ & Hn). assert (Hi2 : (i < 2)%nat) by (destruct Hn as [[Hn _]|[Hn _]]; lia).
    destruct i as [|[|i]]; [..|lia]; cbn; by rewrite bool_decide_eq_true_2 by (cbn in Hlt; lia).
  - intros _. split; [done|]. rewrite Hsome. do 3 (split; [done|]). split; [apply (io_typed _ _ Hio')|exact Hval].
Qed.

(** The image is installed and armed, or nothing of it stays. *)
Lemma install_held_step s boot :
  Inv s → alive s = true → y_parked s = false → restore_state (y_sleep s) = RestoreHolding → is_u32 boot →
  Inv (with_node (snd (install_held kResourceProfileId hmac boot (node_of s))) s).
Proof using Hprofile AG.
  intros Hi Hal Hpk Hhold Hb. pose proof Hi as [Hw Ht Hset Hok Him Hg Hh]. destruct (Hh Hal Hhold) as [Hinv Hun]. specialize (Hun Hpk).
  destruct (guard_cases _ (Hg Hal)) as [(_ & _ & _ & ?)|(Har & Hgu & Hps)]; [congruence|]. set (im := sleep_image (y_sleep s)) in *.
  destruct (both_restored_ok (y_world s) im Hinv Hw Ht Hset) as (Hw2 & Ht2 & Hset2 & Hho). set (w2 := SessionBankWorld.on_bank (both_restored im) (y_world s)) in *.
  unfold install_held, mbind at 1, M_bind at 1, get_sleep. cbv zeta. cbn [node_of n_sleep]. fold im. unfold mbind at 1, M_bind at 1, try at 1, SessionRtc.on_bank at 1. cbn [n_bank n_port n_sleep node_of].
  destruct (restore_entry hmac Link (peer (entry_at im 0)) (entry_at im 0) (w_bank (y_world s))) as [r1 b1] eqn:E1.
  destruct r1 as [[]|c d].
  2: { cbn [snd]. rewrite (restore_refused _ _ _ _ _ _ _ E1). unfold fail_restore, mbind, M_bind, set_sleep, throw. cbn [snd n_bank n_port n_sleep]. rewrite with_node_port. by apply fail_step. }
  set (sl1 := with_image (rebase boot im) (y_sleep s)).
  match goal with |- Inv (with_node (snd ((?m ≫= ?k) ?n)) s) =>
    assert (Hfirst : m n = (Ok tt, mkNode (w_bank w2) (y_port s) (y_sleep s))); [|rewrite (M_bind_ok _ _ _ _ _ Hfirst)] end.
  { unfold w2, SessionBankWorld.on_bank, both_restored. cbn [w_bank]. rewrite E1. cbn [snd]. destruct (bool_decide (count im = 2)); [|done].
    unfold mbind, M_bind, try, SessionRtc.on_bank. cbn [n_bank n_port n_sleep]. destruct (restore_entry hmac EndToEnd (peer (entry_at im 1)) (entry_at im 1) b1) as [r2 b2]. reflexivity. }
  unfold mbind at 1, M_bind at 1, set_sleep at 1. cbn [n_bank n_port n_sleep]. fold im. fold sl1. unfold mbind at 1, M_bind at 1, try at 1.
  destruct (arm kResourceProfileId (mkNode (w_bank w2) (y_port s) sl1)) as [ra n3] eqn:Ea. pose proof (rebase_ok _ boot im Hb (ii_ok _ _ _ Hinv)) as Hio'.
  destruct (arm_spec _ _ _ _ Ea) as (B1 & B2 & B3); [done|apply (io_typed _ _ Hio')|done|]. cbn [n_bank n_sleep n_port] in B1, B3. change (sleep_image sl1) with (rebase boot im) in B3.
  destruct n3 as [b3 p3 sl3]. cbn [n_bank n_sleep n_port] in *. subst b3. pose proof (Hg Hal) as [Hlen _]. destruct ra as [[]|c d].
  - destruct B3 as (Hval & Hal3 & Hv3 & ->). unfold set_sleep. cbn [snd n_bank n_port n_sleep].
    apply (installed_inv s im w2 boot p3); try done. apply Hinv.
  - destruct B3 as [-> Hout]. assert (H2 : Inv (with_port p3 (failed c d sl1) (set_world w2 s))).
    { split; cbn [with_port set_world y_world y_port y_sleep]; try done.
      - destruct Hout as [[_ ->]|(Hval & Hd & [->|[?|Hv]])]; [by left|by left|by left|]. right. exists (rebase boot im).
        assert (Hst : port_stage kResourceProfileId (with_port p3 (failed c d sl1) (set_world w2 s)) = Gone) by (unfold port_stage, SessionRtcInv.alive; cbn [with_port set_world y_parked y_port]; by rewrite Hpk, Hd).
        split; try done; rewrite Hst; [|done]. split; [|done]. destruct Hio'. by split.
      - intros _. split; [done|]. change (armed (failed c d sl1)) with (armed (y_sleep s)). by rewrite Har. }
    set (s2 := with_port p3 (failed c d sl1) (set_world w2 s)) in H2.
    assert (H3 : Inv (set_world (run_op hmac (Retire Link (peer (entry_at im 0))) (y_world s2)) s2)) by (by apply plain_step). set (s3 := set_world _ s2) in H3.
    unfold mbind at 1, M_bind at 1, try at 1, SessionRtc.on_bank at 1. cbn [n_bank n_port n_sleep].
    match goal with |- context [let '(r, b) := ?x in (r, mkNode b p3 sl1)] => replace (let '(r, b) := x in (r, mkNode b p3 sl1)) with (fst x, mkNode (snd x) p3 sl1) by (by destruct x) end.
    destruct (bool_decide (count im = 2)); [|exact H3].
    assert (H4 : Inv (set_world (run_op hmac (Retire EndToEnd (peer (entry_at im 1))) (y_world s3)) s3)) by (by apply plain_step).
    unfold mbind at 1 2, M_bind at 1 2, try, SessionRtc.on_bank. cbn [n_bank n_port n_sleep]. change (w_bank (y_world s3)) with (snd (retire hmac Link (peer (entry_at im 0)) (w_bank w2))) in H4.
    cbn [run_op] in H4. unfold SessionBankWorld.on_bank in H4 at 1. change (w_bank (y_world s3)) with (snd (retire hmac Link (peer (entry_at im 0)) (w_bank w2))) in H4.
    destruct (retire hmac EndToEnd _ _) as [r4 b4]. exact H4.
Qed.

Lemma with_node_id (s : Sys) : with_node (node_of s) s = s.
Proof using. unfold with_node, node_of, SessionBankWorld.on_bank. by destruct s as [[] ? ? ? ?]. Qed.
Lemma fail_restore_eq {A} code detail (s : Sys) : snd (fail_restore (A:=A) code detail (node_of s)) = mkNode (w_bank (y_world s)) (y_port s) (failed code detail (y_sleep s)).
Proof using. done. Qed.

(** A held image: the parent answers, or not. *)
Lemma bind_parent_step s boot observed member revoked :
  Inv s → alive s = true → y_parked s = false → restore_state (y_sleep s) = RestoreHolding → is_u32 boot →
  Inv (with_node (snd (bind_parent kResourceProfileId hmac boot observed member revoked (node_of s))) s).
Proof using Hprofile AG.
  intros Hi Hal Hpk Hhold Hb. destruct (guard_cases _ (v_guard _ _ Hi Hal)) as [(_ & _ & _ & ?)|(Har & _ & _)]; [congruence|].
  assert (Hf : ∀ c d, Inv (with_node (snd (fail_restore (A:=unit) c d (node_of s))) s)) by (intros; rewrite fail_restore_eq, with_node_port; by apply fail_step).
  unfold bind_parent, mbind at 1, M_bind at 1, get_sleep. destruct (observed _) as [mac|]; [|unfold throw; cbn [snd]; by rewrite with_node_id].
  destruct (negb _); [apply Hf|]. destruct (negb member); [apply Hf|]. destruct (existsb _ _); [apply Hf|]. by apply install_held_step.
Qed.

(** The deduction, then the parent. *)
Lemma held_step s el boot observed member revoked :
  Inv s → alive s = true → y_parked s = false → restore_state (y_sleep s) = RestoreHolding → is_u32 boot →
  Inv (with_node (snd ((deduct el;; bind_parent kResourceProfileId hmac boot observed member revoked) (node_of s))) s).
Proof using Hprofile AG.
  intros Hi Hal Hpk Hhold Hb. destruct (guard_cases _ (v_guard _ _ Hi Hal)) as [(_ & _ & _ & ?)|(Har & Hgu & Hps)]; [congruence|].
  destruct (v_held _ _ Hi Hal Hhold) as [Hinv Hun]. pose proof (bind_parent_step s boot observed member revoked Hi Hal Hpk Hhold Hb) as Hrest.
  unfold mbind at 1, M_bind at 1, deduct, mbind at 1, M_bind at 1, get_sleep. cbn [node_of n_sleep].
  destruct (bool_decide_reflect (restore_elapsed_ms (y_sleep s) < el)) as [Hlt|_]; [|exact Hrest].
  set (delta := el - restore_elapsed_ms (y_sleep s)). destruct (outlived delta (sleep_image (y_sleep s))) eqn:Ho.
  { pose proof (fail_step s IntegrityError "sleep restore elapsed" Hi Hal Har) as Hf. rewrite <- with_node_port in Hf. exact Hf. }
  unfold set_sleep. cbn [n_bank n_port n_sleep]. set (sl1 := with_restore _ _ _). assert (Hd : 0 ≤ delta) by lia. pose proof (age_inv _ _ _ _ Hinv Hd Ho) as Haged.
  assert (H1 : Inv (with_port (y_port s) sl1 s)).
  { apply sleep_step; try done. pose proof (v_guard _ _ Hi Hal) as [Hlen Hg]. split; [done|]. change (armed sl1) with (armed (y_sleep s)). rewrite Har in *. done. }
  exact (bind_parent_step _ boot observed member revoked H1 Hal Hpk Hhold Hb).
Qed.

Lemma restore_step s boot wake observed member revoked :
  Inv s → may kResourceProfileId s (Restore boot wake observed member revoked) →
  (w_accepted (y_world s) = [] ∨ honest s (Restore boot wake observed member revoked)) → Inv (step kResourceProfileId hmac (Restore boot wake observed member revoked) s).
Proof using Hprofile AG.
  intros Hi (Hal & Hpk & Hb & Hel) Hho. assert (Hpk' : y_parked s = false) by (destruct (y_parked s); [by specialize (Hpk eq_refl)|done]). clear Hpk. rename Hpk' into Hpk.
  cbn [step]. unfold restore_sleep_image, mbind at 1, M_bind at 1, get_sleep at 1. cbn [node_of n_sleep].
  assert (Hgo : (restore_state (y_sleep s) = RestoreIdle ∨ restore_state (y_sleep s) = RestoreHolding) →
    Inv (with_node (snd ((if negb (bool_decide (next_boot wake = boot)) then fail_restore InvalidArgument "sleep restore boot mismatch"
      else hold_image kResourceProfileId wake;; deduct (trusted_elapsed_ms wake);; bind_parent kResourceProfileId hmac boot observed member revoked) (node_of s))) s)).
  2: { destruct (restore_state (y_sleep s)) eqn:Hst; [apply Hgo; by left|apply Hgo; by right| |]; unfold mret, M_ret, throw; cbn [snd]; by rewrite with_node_id. }
  intros Hst. assert (Har : armed (y_sleep s) = false) by (destruct (guard_cases _ (v_guard _ _ Hi Hal)) as [(_ & _ & _ & ?)|(? & _)]; [destruct Hst; congruence|done]).
  destruct (negb (bool_decide (next_boot wake = boot))); [rewrite fail_restore_eq, with_node_port; by apply fail_step|].
  unfold mbind at 1, M_bind at 1, hold_image, mbind at 1, M_bind at 1, get_sleep. cbn [node_of n_sleep].
  destruct (bool_decide_reflect (restore_state (y_sleep s) = RestoreHolding)) as [Hhold|Hidle]; [exact (held_step s _ boot observed member revoked Hi Hal Hpk Hhold Hb)|].
  unfold mbind at 1, M_bind at 1, try, on_port. cbn [n_bank n_port n_sleep node_of]. destruct (consume_rtc_session kResourceProfileId wake (y_port s)) as [rc p1] eqn:Ec.
  pose proof Hi as [Hw Ht Hset Hok Him Hg Hh]. destruct (consume_spec _ _ _ _ Ec Hok) as (C1 & C2 & C3 & C4). destruct rc as [im|c d].
  - destruct (C4 im eq_refl) as [Hal1 Hdec]. destruct (C2 Hal1) as [_ Hun1]. set (sl1 := with_restore RestoreHolding (trusted_elapsed_ms wake) (with_image im (y_sleep s))).
    assert (H1 : Inv (with_port p1 sl1 s)).
    { apply inv_port; try done; [|intros _ _; split; [|done]|by left].
      - intros _. destruct (Hg Hal) as [Hlen Hgg]. split; [done|]. change (armed sl1) with (armed (y_sleep s)). by rewrite Har in *.
      - change (sleep_image sl1) with im. destruct Him as [Hun|(im0 & [Hv Hval Hinv0 _])]; [by destruct (Hun _ _ Hdec)|].
        rewrite Hv, (decode_record _ Hprofile) in Hdec; [|apply Hinv0|done]. destruct (wake_ok wake im0) eqn:Hwk; [|done]. injection Hdec as <-.
        unfold wake_ok in Hwk. apply andb_true_iff in Hwk as [Hwk Hno%negb_true_iff]. do 2 (apply andb_true_iff in Hwk as [Hwk _]). apply age_inv; [|done|done].
        assert (Hst0 : port_stage kResourceProfileId s = Loose (y_woken s)) by (unfold port_stage, SessionRtcInv.alive; by rewrite Hpk, Hal, Har). rewrite Hst0 in Hinv0. destruct Hinv0 as [Hio [Hu Hseen]]. split; [done|]. split; [done|]. intros _.
        destruct Hho as [Hnil|Hho]; [|by apply Hseen, Hho]. intros k x _ Hk. rewrite Hnil in Hk. by apply not_elem_of_nil in Hk. }
    exact (held_step _ _ boot observed member revoked H1 Hal1 Hpk eq_refl Hb).
  - unfold fail_restore, mbind, M_bind, set_sleep, throw. cbn [snd n_bank n_port n_sleep]. rewrite with_node_port. apply inv_port; try done.
    + intros Hal1. destruct (Hg Hal) as [Hlen Hgg]. split; [done|]. change (armed (with_restore _ _ _)) with (armed (y_sleep s)). by rewrite Har in *.
    + destruct (rtc_alive p1) eqn:Hal1; [left; by apply C2|]. destruct C3; auto.
Qed.
End Restore.
