(* ===== verification/SessionRtcDraw.v ===== *)
(** * Session images: drawing counters under the write-ahead

    A guarded draw advances the retained image before the counter leaves, or
    the context goes. *)

From S2P Require Import Prelude Types Crc32 SessionBank SessionBankProps SessionBankRun SessionBankInstall SessionBankWorld SessionBankTime SessionRtc SessionRtcProps SessionRtcPort SessionRtcBank SessionRtcRun SessionRtcInv SessionRtcSave SessionRtcRestore.

(** ** The advanced image *)

Definition bump_context (c : RtcSessionContext) : RtcSessionContext := mkRtcContext (rc_scope c) (with_tx (u64 (tx_next (rc_entry c) + 1)) (flags (rc_entry c)) (rc_entry c)).
Lemma used_bump i im : image_typed im → used (bump i im) = alter bump_context i (used im).
Proof.
  intros Ht. destruct (it_slots _ Ht) as (c0 & c1 & Hc & _ & Hn). unfold used, bump. cbn [contexts count]. rewrite Hc. destruct Hn as [[-> _]|[-> _]]; by destruct i as [|[|i]].
Qed.
Lemma bump_lookup i im n c' : image_typed im → used (bump i im) !! n = Some c' → ∃ c, used im !! n = Some c ∧ c' = if decide (n = i) then bump_context c else c.
Proof.
  intros Ht. rewrite used_bump by done. destruct (decide (n = i)) as [->|Hne]; [rewrite list_lookup_alter_eq|rewrite list_lookup_alter_ne by done; eauto].
  destruct (used im !! i) as [c|]; [|done]. intros [= <-]. eauto.
Qed.
Lemma bump_elem i im c' : image_typed im → c' ∈ used (bump i im) → ∃ c, c ∈ used im ∧ (c' = c ∨ c' = bump_context c).
Proof.
  intros Ht [n Hn]%list_elem_of_lookup. destruct (bump_lookup i im n c' Ht Hn) as (c & Hc & ->). exists c. split; [by eapply list_elem_of_lookup_2|]. destruct (decide (n = i)); auto.
Qed.
Lemma bump_context_typed c : context_typed c → context_typed (bump_context c).
Proof. intros [Hs []]. split; [done|]. split; try done. by apply wrap_range. Qed.
Lemma bump_typed i im : image_typed im → Z.of_nat i < count im → image_typed (bump i im).
Proof.
  intros Ht Hi. destruct (it_slots _ Ht) as (c0 & c1 & Hc & H0 & Hn). destruct Ht. split; try done. unfold bump. cbn [contexts count]. rewrite Hc. destruct Hn as [[Hn ->]|[Hn H1]]; rewrite Hn in *.
  - assert (i = 0%nat) as -> by lia. exists (bump_context c0), unused_context. split; [done|]. split; [by apply bump_context_typed|by left].
  - destruct i as [|[|i]]; [| |lia]; [exists (bump_context c0), c1|exists c0, (bump_context c1)]; (split; [done|]); (split; [try by apply bump_context_typed|right; split; [done|try by apply bump_context_typed]]); done.
Qed.
Lemma outlived_bump d i im : image_typed im → outlived d (bump i im) = outlived d im.
Proof.
  intros Ht. unfold outlived. rewrite used_bump by done. destruct (it_slots _ Ht) as (c0 & c1 & Hc & _ & Hn). unfold used. rewrite Hc. destruct Hn as [[-> _]|[-> _]]; by destruct i as [|[|i]].
Qed.
Lemma wake_ok_bump wake i im : image_typed im → wake_ok wake (bump i im) = wake_ok wake im.
Proof. intros Ht. unfold wake_ok. by rewrite outlived_bump. Qed.

Section Draw.
Context (kResourceProfileId : Z) (Hprofile : is_u8 kResourceProfileId) (hmac : list Z → list Z → list Z) {AG : AeadGcm}.
Context {ST : Type} {RP : RtcSessionPort ST} {RL : RtcSessionPortLaws kResourceProfileId ST}.
Abbreviation Sys := (@Sys ST).
Abbreviation Node := (@Node ST).
Abbreviation unread := (undecodable kResourceProfileId).
Abbreviation record := (rtc_record kResourceProfileId).
Abbreviation Inv := (Inv kResourceProfileId).
Abbreviation alive := (alive kResourceProfileId).
Abbreviation port_stage := (port_stage kResourceProfileId).

Lemma unread_bump i im : image_typed im → valid im = true → valid (bump i im) = true → Z.of_nat i < count im → unread (record im) → unread (record (bump i im)).
Proof using Hprofile.
  intros Ht Hv Hv' Hi Hu wake im'. specialize (Hu wake). rewrite (decode_record _ Hprofile) in Hu |- *; [|done|done|by apply bump_typed|done].
  rewrite wake_ok_bump by done. destruct (wake_ok wake im); [|done]. by destruct (Hu _ eq_refl).
Qed.

(** What [advance_rtc_tx] leaves in the port. *)
Lemma advance_spec current i p r p' :
  advance_rtc_tx kResourceProfileId current i p = (r, p') → rtc_ok p → image_typed current →
  rtc_ok p' ∧
  match r with
  | Ok (im', k) => rtc_alive p' = true ∧ im' = bump i current ∧ k = tx_next (entry_at current i) ∧ Z.of_nat i < count current ∧ k < kUseLimit - 1 ∧
      rtc_view p = record current ∧ valid (bump i current) = true ∧ rtc_view p' = record (bump i current)
  | Err _ _ => (rtc_alive p' = true → rtc_view p' = rtc_view p ∨ unread (rtc_view p')) ∧
      (rtc_view p' = rtc_view p ∨ unread (rtc_view p') ∨
       (rtc_view p = record current ∧ Z.of_nat i < count current ∧ tx_next (entry_at current i) < kUseLimit - 1 ∧ valid (bump i current) = true ∧ rtc_view p' = record (bump i current)))
  end.
Proof using.
  intros E Hok Ht. unfold advance_rtc_tx in E. cbv zeta in E. unfold mbind, M_bind, fail_if, throw, lift, mret, M_ret in E.
  replace (match contexts current !! i with Some c => tx_next (rc_entry c) | None => 0 end) with (tx_next (entry_at current i)) in E by (unfold entry_at; by destruct (contexts current !! i)).
  destruct (negb (valid current)) eqn:Hv; [injection E as <- <-; auto|]. apply negb_false_iff in Hv. cbn [orb] in E.
  destruct (bool_decide_reflect (count current ≤ Z.of_nat i)) as [|Hi]; [injection E as <- <-; auto|]. cbn [orb] in E.
  destruct (bool_decide_reflect (kUseLimit - 1 ≤ tx_next (entry_at current i))) as [|Hk]; [injection E as <- <-; auto|]. rewrite encode_ok in E by done.
  destruct (rtc_read p) as [rr q] eqn:Er. destruct (read_law _ _ _ Hok Er) as [-> Hr]. destruct rr as [raw|c d]; [|injection E as <- <-; auto].
  assert (raw = rtc_view p) as -> by (destruct (rtc_alive p); [congruence|by destruct Hr]). destruct (bool_decide_reflect (rtc_view p = record current)) as [Hview|]; cbn [negb] in E; [|injection E as <- <-; auto].
  destruct (rtc_invalidate p) as [ri p1] eqn:Ei. destruct (invalidate_law _ _ _ Hok Ei) as (I1 & I2 & I3). destruct ri as [[]|c d]; [|injection E as <- <-; split; [done|]; destruct I3; split; [congruence|tauto]].
  destruct I3 as (_ & Hal1 & Hun1 & Hm1). destruct (rtc_read p1) as [r2 q2] eqn:Er2. destruct (read_law _ _ _ I1 Er2) as [-> Hr2]. rewrite Hal1 in Hr2. subst r2.
  rewrite bool_decide_eq_false_2 in E by done. destruct (encode_rtc_session kResourceProfileId (bump i current)) as [adv|c d] eqn:Ee; [|injection E as <- <-; auto].
  apply encode_inv in Ee as [Hvb ->]. assert (Htb : image_typed (bump i current)) by (apply bump_typed; [done|lia]).
  destruct (rtc_write (record (bump i current)) p1) as [rw p2] eqn:Ew. destruct (write_law _ _ _ _ I1 (rtc_record_length _ _ Htb) (rtc_record_bytes _ _ Htb) Ew) as (W1 & W2 & W3).
  destruct rw as [[]|c d].
  2: { injection E as <- <-. split; [done|]. destruct W3 as [Hd Hvw]. split; [congruence|]. destruct Hvw as [->|[?|Hvw]]; [by right; left|by right; left|right; right]. split_and!; try done; lia. }
  destruct W3 as (_ & Hal2 & Hv2). destruct (rtc_read p2) as [r3 q3] eqn:Er3. destruct (read_law _ _ _ W1 Er3) as [-> Hr3]. rewrite Hal2 in Hr3. subst r3.
  rewrite Hv2, bool_decide_eq_true_2 in E by done. cbn [negb] in E. injection E as <- <-. split_and!; try done; lia.
Qed.

(** ** Which slot a draw is under *)

Lemma slot_scope im n c : valid im = true → used im !! n = Some c → rc_scope c = (if bool_decide (n = 0%nat) then scope_value Link else scope_value EndToEnd) ∧ id_valid (peer (rc_entry c)) = true ∧ tx_next (rc_entry c) < kUseLimit.
Proof using.
  intros Hv Hc. unfold valid in Hv. apply andb_true_iff in Hv as [_ Hv]. rewrite forallb_forall in Hv. specialize (Hv (valid_context im n c)).
  assert (Hin : In (valid_context im n c) (imap (valid_context im) (used im))) by (apply list_elem_of_In, list_elem_of_lookup; exists n; by rewrite list_lookup_imap, Hc).
  specialize (Hv Hin). unfold id, valid_context in Hv. apply negb_true_iff in Hv. apply orb_false_iff in Hv as [Hv _]. apply orb_false_iff in Hv as [Hv Hn]. do 8 (apply orb_false_iff in Hv as [Hv _]).
  apply orb_false_iff in Hv as [Hv Hb]. apply orb_false_iff in Hv as [Hs Hi]. apply negb_false_iff, bool_decide_eq_true in Hs. split_and!; [done| |apply bool_decide_eq_false in Hn; lia].
  unfold id_valid. by rewrite Hi, Hb.
Qed.
Lemma scope_slot sc n : unicast_scope sc = true → is_link sc = bool_decide (n = 0%nat) → scope_value sc = (if bool_decide (n = 0%nat) then scope_value Link else scope_value EndToEnd).
Proof using. unfold unicast_scope, is_link. destruct sc; cbn; try done; by destruct (bool_decide (n = 0%nat)). Qed.
Lemma slot_is_link sc n : scope_value sc = (if bool_decide (n = 0%nat) then scope_value Link else scope_value EndToEnd) → unicast_scope sc = true ∧ is_link sc = bool_decide (n = 0%nat).
Proof using. destruct (bool_decide (n = 0%nat)); by destruct sc. Qed.

(** No armed slot is for the receiver. *)
Lemma unguarded_slot sl c n x :
  guarded_slot sl c = None → armed sl = true → guarding sl = true → used (sleep_image sl) !! n = Some x → default false (slot_armed sl !! n) = true →
  rc_scope x = scope_value (scope c) → peer (rc_entry x) ≠ receiver c.
Proof using.
  unfold guarded_slot. intros Hg Ha Hgd Hx Har Hsc Hp. rewrite Ha, Hgd in Hg. cbn [andb] in Hg. apply (find_none _ _) with (x := n) in Hg.
  - rewrite Har in Hg. cbn [andb] in Hg. unfold used in Hx. assert (Hlt : (n < Z.to_nat (count (sleep_image sl)))%nat) by (apply lookup_lt_Some in Hx; rewrite length_take in Hx; lia).
    rewrite lookup_take_lt in Hx by done. rewrite Hx in Hg. by rewrite !bool_decide_eq_true_2 in Hg.
  - apply lookup_lt_Some in Hx. unfold used in Hx. rewrite length_take in Hx. apply in_seq. lia.
Qed.
Lemma guarded_slot_some sl c i :
  guarded_slot sl c = Some i → armed sl = true ∧ default false (slot_armed sl !! i) = true ∧ Z.of_nat i < count (sleep_image sl) ∧
    ∃ x, contexts (sleep_image sl) !! i = Some x ∧ rc_scope x = scope_value (scope c) ∧ peer (rc_entry x) = receiver c.
Proof using.
  unfold guarded_slot. destruct (armed sl); [|done]. destruct (guarding sl); [|done]. cbn [andb]. intros Hf. apply find_some in Hf as [Hin Hx%andb_true_iff]. apply in_seq in Hin.
  destruct Hx as [Har Hx]. destruct (contexts (sleep_image sl) !! i) as [x|] eqn:Hc; [|done]. apply andb_true_iff in Hx as [H1%bool_decide_eq_true H2%bool_decide_eq_true].
  split_and!; [done|done|lia|eauto].
Qed.

(** ** The bank draws *)

Section Drawn.
Context (w : World) (sc : SecurityScope) (i : nat) (e : SessionBankEntry) (fl : Z).
Context (Hl : live (w_bank w) (is_link sc) i e).
Let e' := with_tx (u64 (tx_next e + 1)) fl e.
Let b' := touch_lru sc i (put_current sc i e' (w_bank w)).
Let w' := SessionBankWorld.on_bank (λ _, b') w.

Lemma drawn_frame : local_ b' = local_ (w_bank w) ∧ last_tick_ b' = last_tick_ (w_bank w) ∧ configured_ b' = configured_ (w_bank w).
Proof using. unfold b', touch_lru, put_current, set_slots. by repeat case_bool_decide. Qed.
Lemma drawn_live l j x : live b' l j x → (l = is_link sc ∧ j = i ∧ x = e') ∨ (¬ (l = is_link sc ∧ j = i) ∧ live (w_bank w) l j x ∧ carried (w_bank w) x b' x).
Proof using.
  destruct drawn_frame as (F1 & F2 & F3). unfold b' at 1. intros [?|[Hne Hx]]%touch_lru_live%put_current_live; [by left|right]. split_and!; [done..|]. apply carried_ages; try done. by rewrite F1.
Qed.
Lemma drawn_held q m y z : held b' q m y z → ∃ q y z, held (w_bank w) q m y z.
Proof using Hl.
  intros Hq. assert (Hp : in_place (w_bank w) b') by (apply in_place_lru; by apply (put_current_in_place _ _ e)). destruct Hp as [_ Hp]. destruct (Hp _ _ _ _ Hq) as (y' & z' & ?). eauto.
Qed.
Lemma drawn_settled : (is_u32 (flags e) → is_u32 fl) → settled (w_bank w) → settled b'.
Proof using Hl.
  intros Hfl Hset l j x Hx. destruct drawn_frame as (F1 & F2 & F3). unfold born. rewrite F1, F3. apply drawn_live in Hx as [(-> & -> & ->)|(_ & Hx & _)]; [|by apply Hset in Hx].
  destruct (Hset _ _ _ Hl) as (Ht & Hb & Hc). split_and!; [|exact Hb|done]. destruct Ht. split; try done; [by apply wrap_range|]. by apply Hfl.
Qed.
(** An image without the drawn key. *)
Lemma drawn_image st im : settled (w_bank w) → st = Gone ∨ (∀ c, c ∈ used im → txm e ≠ txm (rc_entry c)) → image_inv w st im → image_inv w' st im.
Proof using Hl.
  intros Hset [->|Hn] Hi; [destruct Hi as [[]]; by split|]. apply (image_step w); try done; try (by left).
  - intros l j x [(-> & -> & ->)|(_ & Hx & Hc)]%drawn_live; [left; exact Hn|right; eauto].
  - intros q m y z Hq. right. by eapply drawn_held.
Qed.
End Drawn.

(** The entry that a draw uses shares no key with an image it is not guarded by. *)
Lemma free_key s c e i im :
  Inv s → y_parked s = false → alive s = true → guarded_slot (y_sleep s) c = None → find_slot hmac (w_bank (y_world s)) (scope c) (receiver c) = Some i →
  live (w_bank (y_world s)) (is_link (scope c)) i e → tx_ready (w_bank (y_world s)) e = true → port_image kResourceProfileId s im →
  ∀ x, x ∈ used im → txm e ≠ txm (rc_entry x).
Proof using.
  intros Hi Hpk Hal Hgs Hf Hl Hrdy [_ Hval Hinv Hsame] x Hx Hm. destruct (find_slot_some hmac _ _ _ _ Hf) as (Hus & e1 & Hl1 & Hp1 & _). assert (e1 = e) as -> by (unfold live in *; congruence).
  unfold SessionRtcInv.port_stage in Hinv, Hsame. rewrite Hpk, Hal in Hinv, Hsame. cbn [negb] in Hinv, Hsame.
  destruct (guard_cases _ (v_guard _ _ Hi Hal)) as [(Har & Hgu & _)|(Har & _)]; rewrite Har in Hinv, Hsame; [|by destruct (ii_kept _ _ _ Hinv) as [Hu _]; destruct (proj1 (Hu x Hx) _ _ _ Hl)].
  apply list_elem_of_lookup in Hx as [n Hn]. destruct (ii_kept _ _ _ Hinv n x _ _ _ Hn Hl Hm) as (K1 & K2 & _ & _ & K5). specialize (Hsame _ eq_refl).
  destruct (default false (slot_armed (y_sleep s) !! n)) eqn:Hsl; [|unfold tx_ready in Hrdy; by rewrite K5 in Hrdy].
  destruct (slot_scope im n x Hval Hn) as [Hsc _]. rewrite <- Hsame in Hn. eapply (unguarded_slot (y_sleep s) c n x); try done; [|congruence].
  rewrite Hsc. symmetry. by apply scope_slot.
Qed.
Lemma keeps_step s b' :
  Inv s → keeps (w_bank (y_world s)) b' → ages (w_bank (y_world s)) b' → Inv (set_world (SessionBankWorld.on_bank (λ _, b') (y_world s)) s).
Proof using.
  intros Hi Hk Ha. pose proof Hi as [Hw Ht Hset _ _ _ _]. pose proof (carries_keeps _ _ Hk Ha) as Hc.
  apply inv_world; try done; try (by left); [by apply (world_keeps _ (λ _, b'))|by eapply ages_timed|by eapply carries_settled|intros l i e' He; right; by apply Hc|].
  intros q m y z Hq. right. exists q, y, z. by eapply keeps_held.
Qed.
Lemma draw_free s c :
  Inv s → y_parked s = false → (alive s = true → guarded_slot (y_sleep s) c = None) → Inv (set_world (run_op hmac (NextCounter c) (y_world s)) s).
Proof using AG.
  intros Hi Hpk Hgs. pose proof Hi as [Hw Ht Hset Hok Him Hg Hh]. pose proof (run_op_ok hmac (NextCounter c) _ I Hw) as Hw'. pose proof (run_op_timed hmac (NextCounter c) _ I Ht) as Ht'.
  cbn [run_op] in *. destruct (next_counter hmac c (w_bank (y_world s))) as [r b'] eqn:E.
  assert (Hwe : SessionBankWorld.on_bank (λ b, snd (next_counter hmac c b)) (y_world s) = SessionBankWorld.on_bank (λ _, b') (y_world s)) by (unfold SessionBankWorld.on_bank; by rewrite E).
  rewrite Hwe in *. clear Hwe. destruct (next_counter_cases hmac c _ r b' (proj1 (tm_hold _ Ht)) E) as [(Hk & Ha & _)|(i & e & fl & _ & -> & Hf & Hl & _ & Hrdy & Hfl)].
  - by apply keeps_step.
  - split; try done.
    + by apply drawn_settled.
    + destruct Him as [?|(im & Hpi)]; [by left|right]. exists im. pose proof Hpi as [Hv Hval Hinv Hsame]. split; try done. apply drawn_image; try done.
      change (SessionRtcInv.port_stage kResourceProfileId (set_world _ s)) with (port_stage s). destruct (alive s) eqn:Hal; [|left; unfold SessionRtcInv.port_stage; by rewrite Hpk, Hal].
      right. apply (free_key s c e i im); try done. by apply Hgs.
    + intros Hal Hho. destruct (Hh Hal Hho) as [Hinv Hun]. split; [|done]. apply drawn_image; try done. right. intros x Hx. destruct (ii_kept _ _ _ Hinv) as [Hu _]. by eapply (Hu x Hx).
Qed.

(** ** A slot is given up *)

(** The contexts of the bank that share a key with slot [i] can send no more. *)
Definition slot_spent (s : Sys) (i : nat) : Prop :=
  ∀ im x l j e, port_image kResourceProfileId s im → used im !! i = Some x → live (w_bank (y_world s)) l j e → txm e = txm (rc_entry x) → entry_usable (w_bank (y_world s)) e = false.
Definition without (i : nat) (sl : Sleeper) : Sleeper := with_guard (guarding sl) (port_set sl) (<[i := false]> (slot_armed sl)) sl.
Lemma disarm_slot_eq i (n : Node) : snd (disarm_slot i n) =
  if armed (without i (n_sleep n)) then mkNode (n_bank n) (n_port n) (without i (n_sleep n))
  else mkNode (n_bank n) (if port_set (n_sleep n) then snd (rtc_invalidate (n_port n)) else n_port n) (disarmed (n_sleep n)).
Proof using.
  unfold disarm_slot, mbind, M_bind, set_sleep, get_sleep. cbn [n_sleep]. fold (without i (n_sleep n)). destruct (armed (without i (n_sleep n))) eqn:Ha; [done|]. rewrite disarm_eq. done.
Qed.
Lemma disarm_slot_step s i :
  Inv s → y_parked s = false → (alive s = true → armed (y_sleep s) = true ∧ slot_spent s i) → Inv (with_node (snd (disarm_slot i (node_of s))) s).
Proof using.
  intros Hi Hpk Hsp. pose proof Hi as [Hw Ht Hset Hok Him Hg Hh]. rewrite disarm_slot_eq. cbn [node_of n_bank n_port n_sleep]. destruct (armed (without i (y_sleep s))) eqn:Ha; rewrite with_node_port; [|by apply disarm_step].
  apply inv_port; try done.
  - intros Hal. destruct (Hsp Hal) as [Har _]. pose proof (Hg Hal) as [Hlen Hgg]. rewrite Har in Hgg. split; [cbn; by rewrite length_insert|]. by rewrite Ha.
  - destruct Him as [?|(im & Hpi)]; [by left|right]. destruct (alive s) eqn:Hal; [right|by left]. destruct (Hsp eq_refl) as [Har Hspent]. pose proof Hpi as [Hv Hval Hinv Hsame]. exists im.
    assert (Hst : port_stage s = Armed (slot_armed (y_sleep s))) by (unfold SessionRtcInv.port_stage; by rewrite Hpk, Hal, Har).
    assert (Hst' : port_stage (with_port (y_port s) (without i (y_sleep s)) s) = Armed (<[i := false]> (slot_armed (y_sleep s)))).
    { unfold SessionRtcInv.port_stage. change (SessionRtcInv.alive kResourceProfileId (with_port _ _ s)) with (alive s). cbn [with_port y_parked y_sleep]. rewrite Hpk, Hal, Ha. done. }
    split; [done|done| |intros slots _; by apply (Hsame (slot_armed (y_sleep s)))]. rewrite Hst'. rewrite Hst in Hinv. destruct Hinv as [Hio Hk]. split; [done|].
    intros n x l j e Hn He Hm. destruct (Hk n x l j e Hn He Hm) as (K1 & K2 & K3 & K4 & K5). split_and!; [done..|]. destruct (decide (n = i)) as [->|Hne].
    + destruct (<[i := false]> (slot_armed (y_sleep s)) !! i) as [a|] eqn:El; cbn [default]; [|by eapply Hspent]. apply list_lookup_insert_Some in El as [(_ & <- & _)|[? _]]; [by eapply Hspent|done].
    + by rewrite list_lookup_insert_ne by done.
Qed.

(** ** The retained image advances *)

Lemma bump_ok w i im : image_ok w im → Z.of_nat i < count im → tx_next (entry_at im i) < kUseLimit - 1 → image_ok w (bump i im).
Proof using.
  intros [Ht Hc Ha] Hi Hk. assert (Hone : ∀ n c, used im !! n = Some c → n = i → 0 ≤ tx_next (rc_entry c) < kUseLimit - 1).
  { intros n c Hn ->. assert (Hcs : contexts im !! i = Some c) by (unfold used in Hn; rewrite lookup_take_lt in Hn by lia; done). unfold entry_at in Hk. rewrite Hcs in Hk. split; [|done].
    destruct (it_slots _ Ht) as (c0 & c1 & E & T0 & Hcount). rewrite E in Hcs. destruct i as [|[|i]]; cbn in Hcs; [injection Hcs as <-; apply (et_next _ (proj2 T0))| |done].
    injection Hcs as <-. destruct Hcount as [[Hone ->]|[_ T1]]; [done|apply (et_next _ (proj2 T1))]. }
  split; [by apply bump_typed| |].
  - intros c' [n Hn]%list_elem_of_lookup. destruct (bump_lookup i im n c' Ht Hn) as (c & Hc0 & ->). assert (Hin : c ∈ used im) by (by eapply list_elem_of_lookup_2). destruct (Hc c Hin) as (C1 & C2 & C3).
    destruct (decide (n = i)) as [->|Hne]; [|done]. split_and!; [done|done|]. intros k Hks. specialize (C3 k Hks). destruct (Hone i c Hc0 eq_refl). cbn. rewrite wrap_id; [lia|]. unfold in_range, kUseLimit in *. lia.
  - intros n m c d (c0 & H0 & ->)%(bump_lookup _ _ _ _ Ht) (d0 & H1 & ->)%(bump_lookup _ _ _ _ Ht) Hne. destruct (Ha n m c0 d0 H0 H1 Hne). by destruct (decide (n = i)), (decide (m = i)).
Qed.

(** The state after an advance, in a bank that is in step with the new image. *)
Lemma advanced_inv s w' p' i :
  let im := sleep_image (y_sleep s) in
  Inv s → alive s = true → y_parked s = false → armed (y_sleep s) = true →
  w' = SessionBankWorld.on_bank (λ _, w_bank w') (y_world s) → world_ok w' → timed (w_bank w') → settled (w_bank w') → rtc_ok p' → rtc_alive p' = true →
  Z.of_nat i < count im → tx_next (entry_at im i) < kUseLimit - 1 → rtc_view (y_port s) = record im → valid (bump i im) = true → rtc_view p' = record (bump i im) →
  (port_image kResourceProfileId s im → lockstep (w_bank w') (slot_armed (y_sleep s)) (bump i im)) →
  Inv (with_port p' (with_image (bump i im) (y_sleep s)) (set_world w' s)).
Proof using Hprofile.
  intros im Hi Hal Hpk Har Hwe Hw' Ht' Hset' Hok' Hal' Hlt Hk Hv Hvb Hv' Hls. pose proof Hi as [Hw Ht Hset Hok Him Hg Hh]. pose proof (Hg Hal) as [Hlen Hgg]. rewrite Har in Hgg. destruct Hgg as (Hgu & Hps & Hdone & Hty & Hval).
  split; try done.
  - cbn [with_port y_port]. destruct Him as [Hu|(im1 & Hpi)]; [left; rewrite Hv'; apply unread_bump; try done; by rewrite <- Hv|right].
    assert (Hst : port_stage s = Armed (slot_armed (y_sleep s))) by (unfold SessionRtcInv.port_stage; by rewrite Hpk, Hal, Har).
    assert (im1 = im) as -> by (symmetry; by apply (pi_same _ _ _ Hpi _ Hst)). exists (bump i im).
    assert (Hst' : port_stage (with_port p' (with_image (bump i im) (y_sleep s)) (set_world w' s)) = Armed (slot_armed (y_sleep s))).
    { unfold SessionRtcInv.port_stage, SessionRtcInv.alive. cbn [with_port set_world y_parked y_port y_sleep]. rewrite Hpk, Hal'. cbn [negb]. change (armed (with_image (bump i im) (y_sleep s))) with (armed (y_sleep s)). by rewrite Har. }
    split; try done. rewrite Hst'. split; [|by apply Hls]. pose proof (bump_ok _ i im (ii_ok _ _ _ (pi_inv _ _ _ Hpi)) Hlt Hk) as []. rewrite Hwe. by split.
  - intros _. split; [done|]. change (armed (y_sleep (with_port p' (with_image (bump i im) (y_sleep s)) (set_world w' s)))) with (armed (y_sleep s)). rewrite Har. do 3 (split; [done|]). split; [by apply bump_typed|done].
  - intros _ Hx. cbn in Hx. congruence.
Qed.

(** ** Guarded draws *)

Section Guarded.
Context (s : Sys) (c : SecurityContext) (i : nat).
Context (Hi : Inv s) (Hal : alive s = true) (Hpk : y_parked s = false) (Hgs : guarded_slot (y_sleep s) c = Some i).
Let im := sleep_image (y_sleep s).

Lemma slot_context : armed (y_sleep s) = true ∧ default false (slot_armed (y_sleep s) !! i) = true ∧ image_typed im ∧ valid im = true ∧ Z.of_nat i < count im ∧
  ∃ x, used im !! i = Some x ∧ rc_entry x = entry_at im i ∧ peer (rc_entry x) = receiver c ∧ unicast_scope (scope c) = true ∧ is_link (scope c) = bool_decide (i = 0%nat) ∧
    id_valid (receiver c) = true ∧ tx_next (rc_entry x) < kUseLimit ∧ tx_cid (rc_entry x) = guarded_cid (y_sleep s) i.
Proof using Hi Hal Hgs.
  destruct (guarded_slot_some _ _ _ Hgs) as (Har & Hsl & Hlt & x & Hx & Hsc & Hp). pose proof (v_guard _ _ Hi Hal) as [_ Hg]. rewrite Har in Hg. destruct Hg as (_ & _ & _ & Hty & Hval).
  fold im in Hx, Hlt, Hty, Hval. assert (Hu : used im !! i = Some x) by (unfold used; rewrite lookup_take_lt by lia; exact Hx). destruct (slot_scope im i x Hval Hu) as (H1 & H2 & H3).
  destruct (slot_is_link (scope c) i) as [H4 H5]; [congruence|]. split_and!; try done. exists x. unfold entry_at, guarded_cid. fold im. rewrite Hx. split_and!; try done. by rewrite <- Hp.
Qed.

(** Any state of the same guard and image. *)
Lemma slot_of s1 im1 : y_sleep s1 = y_sleep s → y_parked s1 = false → alive s1 = true → port_image kResourceProfileId s1 im1 → im1 = im ∧ port_stage s1 = Armed (slot_armed (y_sleep s)).
Proof using Hi Hal Hgs.
  intros Es Hp1 Ha1 Hpi. destruct slot_context as (Har & _). assert (Hst : port_stage s1 = Armed (slot_armed (y_sleep s))) by (unfold SessionRtcInv.port_stage; by rewrite Hp1, Ha1, Es, Har).
  split; [|done]. pose proof (pi_same _ _ _ Hpi _ Hst) as He. unfold im. by rewrite <- Es.
Qed.

(** When the live epoch is not the guarded one, the guarded context is no longer usable. *)
Lemma other_epoch s1 r b1 :
  tx_epoch hmac (scope c) (receiver c) (w_bank (y_world s)) = (r, b1) → r ≠ Ok (guarded_cid (y_sleep s) i) →
  s1 = set_world (SessionBankWorld.on_bank (λ _, b1) (y_world s)) s → Inv s1 → slot_spent s1 i.
Proof using Hi Hal Hpk Hgs.
  intros Et Hr -> Hi1 im1 x l j e Hpi Hx He Hm. destruct (slot_of (set_world _ s) im1 eq_refl Hpk Hal Hpi) as [-> Hst]. destruct slot_context as (Har & Hsl & Hty & Hval & Hlt & x0 & Hx0 & _ & Hp & Hus & Hil & Hid & Hn & Hcid).
  rewrite Hx in Hx0. injection Hx0 as <-. pose proof (pi_inv _ _ _ Hpi) as Hinv. rewrite Hst in Hinv. destruct (ii_kept _ _ _ Hinv i x l j e Hx He Hm) as (K1 & K2 & K3 & K4 & K5). rewrite Hsl in K5.
  destruct (entry_usable _ e) eqn:Husb; [exfalso|done]. apply Hr. cbn [y_world set_world SessionBankWorld.on_bank w_bank] in He, Husb.
  pose proof (tx_epoch_keeps hmac (scope c) (receiver c) (w_bank (y_world s))) as Hk. pose proof (tx_epoch_ages hmac (scope c) (receiver c) (w_bank (y_world s)) (proj1 (tm_hold _ (v_timed _ _ Hi)))) as Ha. rewrite Et in Hk, Ha. cbn [snd] in Hk, Ha.
  destruct (carries_keeps _ _ Hk Ha l j e He) as (e0 & He0 & Hca). destruct (v_settled _ _ Hi _ _ _ He0) as (_ & Hb0 & Hcf).
  assert (Hu0 : entry_usable (w_bank (y_world s)) e0 = true) by (destruct (entry_usable (w_bank (y_world s)) e0) eqn:Hx0; [done|]; rewrite (ca_spent _ _ _ _ Hca Hb0 Hx0) in Husb; done).
  assert (Hc0 : find_current hmac (w_bank (y_world s)) (scope c) (receiver c) = Some e0).
  { apply find_current_iff; [apply (k_peers _ (v_world _ _ Hi))|done|]. exists j. rewrite Hil, <- K1. split; [done|]. rewrite <- (ca_peer _ _ _ _ Hca). congruence. }
  assert (Hrd : tx_ready (w_bank (y_world s)) e0 = true).
  { unfold tx_ready. rewrite Hu0. cbn [andb]. unfold tx_refused, check_tx_counter. rewrite <- (ca_next _ _ _ _ Hca), K5. destruct (bool_decide (tx_next (rc_entry x) < kRekeySoftCounter)); [done|]. rewrite (bool_decide_eq_true_2 (tx_next (rc_entry x) < kMaxUseCounter)) by (unfold kUseLimit, kMaxUseCounter in *; lia). done. }
  revert Et. unfold tx_epoch. bank_unfold. rewrite Hcf. cbn [negb]. rewrite Hus. cbn [negb]. rewrite Hid. cbn [negb]. rewrite Hc0, Hrd. intros [= <- _]. by rewrite <- Hcid, <- K3, (ca_cid _ _ _ _ Hca).
Qed.

(** The slot that was given up guards nothing. *)
Lemma without_unguarded : guarded_slot (without i (y_sleep s)) c = None.
Proof using Hi Hal Hgs.
  destruct (guarded_slot (without i (y_sleep s)) c) as [n|] eqn:Hn; [exfalso|done]. destruct (guarded_slot_some _ _ _ Hn) as (_ & Hsl & Hlt & y & Hy & Hsy & _).
  destruct slot_context as (_ & _ & Hty & Hval & Hlti & x & Hx & _). destruct (guarded_slot_some _ _ _ Hgs) as (_ & _ & _ & x' & Hx' & Hsx & _).
  change (sleep_image (without i (y_sleep s))) with im in *. assert (Huy : used im !! n = Some y) by (unfold used; by rewrite lookup_take_lt by lia).
  destruct (slot_scope im n y Hval Huy) as [S1 _]. destruct (slot_scope im i x Hval Hx) as [S2 _]. assert (x' = x) as -> by (unfold used in Hx; rewrite lookup_take_lt in Hx by lia; fold im in Hx'; congruence).
  assert (Hni : n = i).
  { destruct (it_slots _ Hty) as (c0 & c1 & _ & _ & Hc). assert (n < 2 ∧ i < 2)%nat by (destruct Hc as [[Hc _]|[Hc _]]; lia). rewrite Hsy in S1. rewrite Hsx in S2. rewrite S1 in S2.
    destruct n as [|[|n]], i as [|[|i']]; try lia; by cbn in S2. }
  subst n. cbn in Hsl. destruct (<[i := false]> (slot_armed (y_sleep s)) !! i) as [a|] eqn:El; [|done]. apply list_lookup_insert_Some in El as [(_ & <- & _)|[? _]]; done.
Qed.

(** The bank has drawn for the guarded receiver: one context moved. *)
Context (i0 : nat) (e : SessionBankEntry) (fl : Z).
Context (Hf : find_slot hmac (w_bank (y_world s)) (scope c) (receiver c) = Some i0) (Hl : live (w_bank (y_world s)) (is_link (scope c)) i0 e) (Hpe : peer e = receiver c).
Let b2 := touch_lru (scope c) i0 (put_current (scope c) i0 (with_tx (u64 (tx_next e + 1)) fl e) (w_bank (y_world s))).

(** Both advanced from the same counter: still in step. *)
Lemma drawn_lockstep : tx_next e = tx_next (entry_at im i) → tx_next (entry_at im i) < kUseLimit - 1 → port_image kResourceProfileId s im → lockstep b2 (slot_armed (y_sleep s)) (bump i im).
Proof using Hi Hal Hpk Hgs Hl Hpe.
  intros Hnx Hkl Hpi n y l j x Hy Hx Hm. destruct slot_context as (Har & Hsl & Hty & Hval & Hlt & x0 & Hx0 & Hent & Hp & Hus & Hil & Hid & Hn & Hcid). destruct (slot_of s im eq_refl Hpk Hal Hpi) as [_ Hst].
  destruct (bump_lookup i im n y Hty Hy) as (y0 & Hy0 & ->). pose proof (pi_inv _ _ _ Hpi) as Hinv. rewrite Hst in Hinv. pose proof (ii_kept _ _ _ Hinv) as Hk. cbn [kept] in Hk.
  assert (Hcounters : 0 ≤ tx_next e < kUseLimit - 1) by (destruct (t_next _ _ (k_tx _ (v_world _ _ Hi)) _ _ _ Hl) as [[? _] _]; lia).
  apply drawn_live in Hx as [(-> & -> & ->)|(Hne & Hx & Hca)].
  - assert (Hm0 : txm e = txm (rc_entry y0)) by (by destruct (decide (n = i))). destruct (Hk n y0 _ _ _ Hy0 Hl Hm0) as (K1 & K2 & K3 & K4 & K5).
    assert (Hni : n = i).
    { destruct (it_slots _ Hty) as (c0 & c1 & _ & _ & Hcnt). apply lookup_lt_Some in Hy0. unfold used in Hy0. rewrite length_take in Hy0. assert (n < 2 ∧ i < 2)%nat by (destruct Hcnt as [[Hcnt _]|[Hcnt _]]; lia).
      rewrite Hil in K1. destruct n as [|[|n]], i as [|[|i']]; try lia; by cbn in K1. }
    subst n. rewrite decide_True by done. rewrite Hx0 in Hy0. injection Hy0 as <-. rewrite Hsl in *. cbn [bump_context rc_entry with_tx tx_next peer tx_cid]. rewrite Hent, <- Hnx in *. split_and!; try done; lia.
  - assert (Hm0 : txm x = txm (rc_entry y0)) by (by destruct (decide (n = i))). destruct (Hk n y0 _ _ _ Hy0 Hx Hm0) as (K1 & K2 & K3 & K4 & K5). destruct (decide (n = i)) as [->|Hni].
    + exfalso. apply Hne. rewrite Hx0 in Hy0. injection Hy0 as <-. split; [congruence|]. rewrite K1, <- Hil in Hx. apply (k_peers _ (v_world _ _ Hi) _ _ _ _ _ Hx Hl). congruence.
    + split_and!; try done. revert K5. destruct (default false (slot_armed (y_sleep s) !! n)); [done|]. intros K5. apply (ca_spent _ _ _ _ Hca); [|done]. apply (v_settled _ _ Hi _ _ _ Hx).
Qed.

(** The drawn context was retired: nothing of the receiver is left. *)
Let w2 := SessionBankWorld.on_bank (λ _, b2) (y_world s).
Let b3 := snd (retire hmac (scope c) (receiver c) b2).
Let w3 := SessionBankWorld.on_bank (λ _, b3) (y_world s).
Context (Hw2 : world_ok w2).

Lemma drawn_gone j x : live b3 (is_link (scope c)) j x → peer x ≠ receiver c.
Proof using Hi Hal Hgs Hl Hw2.
  destruct slot_context as (_ & _ & _ & _ & _ & x0 & _ & _ & _ & Hus & _). apply retire_peer; [|done|apply (k_peers _ Hw2)].
  unfold b2. destruct (drawn_frame (y_world s) (scope c) i0 e fl) as (_ & _ & ->). by destruct (v_settled _ _ Hi _ _ _ Hl) as (_ & _ & ?).
Qed.
Lemma retired_carries : carries (w_bank (y_world s)) b3.
Proof using Hi Hal Hgs Hl Hpe Hw2.
  intros l j x3 Hx3. destruct (retire_keeps hmac (scope c) (receiver c) b2) as [Hk _]. pose proof (retire_ages hmac (scope c) (receiver c) b2) as [T _ _ G C _]. destruct (Hk l j x3 Hx3) as (x2 & Hx2 & Hs).
  apply drawn_live in Hx2 as [(-> & -> & ->)|(_ & Hx & Hca)]; [exfalso; apply (drawn_gone _ _ Hx3); rewrite (sm_peer _ _ Hs); exact Hpe|].
  exists x2. split; [done|]. eapply carried_trans; [exact Hca|]. by apply same_carried.
Qed.
Lemma retired_step : Inv (set_world w3 s).
Proof using Hi Hal Hgs Hl Hpe Hw2.
  pose proof retired_carries as Hc. pose proof Hi as [Hw Ht Hset _ _ _ _].
  assert (Ha : ages (w_bank (y_world s)) b3).
  { eapply ages_trans; [|apply retire_ages]. eapply ages_trans; [|apply touch_lru_ages]. by apply (put_current_ages _ _ e). }
  apply inv_world; try done; try (by left); [by apply (world_keeps w2 (λ _, b3)); [apply retire_keeps|]|by eapply ages_timed|by eapply carries_settled|intros l j x Hx; right; by apply Hc|].
  intros q m y z Hq. right. apply (keeps_held _ _ _ _ _ _ (retire_keeps hmac (scope c) (receiver c) b2)) in Hq. by eapply drawn_held.
Qed.
Lemma retired_lockstep : port_image kResourceProfileId s im → lockstep b3 (slot_armed (y_sleep s)) (bump i im).
Proof using Hi Hal Hpk Hgs Hl Hpe Hw2.
  intros Hpi n y l j x Hy Hx Hm. destruct slot_context as (Har & Hsl & Hty & Hval & Hlt & x0 & Hx0 & Hent & Hp & Hus & Hil & Hid & Hn & Hcid). destruct (slot_of s im eq_refl Hpk Hal Hpi) as [_ Hst].
  destruct (bump_lookup i im n y Hty Hy) as (y0 & Hy0 & ->). pose proof (pi_inv _ _ _ Hpi) as Hinv. rewrite Hst in Hinv. pose proof (ii_kept _ _ _ Hinv) as Hk. cbn [kept] in Hk.
  destruct (retired_carries l j x Hx) as (x1 & Hx1 & Hca). assert (Hm0 : txm x1 = txm (rc_entry y0)) by (rewrite <- (ca_txm _ _ _ _ Hca), Hm; by destruct (decide (n = i))).
  destruct (Hk n y0 _ _ _ Hy0 Hx1 Hm0) as (K1 & K2 & K3 & K4 & K5). destruct Hca as [A1 A2 A3 A4 A5 A6 A7 A8 A9]. destruct (decide (n = i)) as [->|Hni].
  - exfalso. rewrite Hx0 in Hy0. injection Hy0 as <-. subst l. rewrite <- Hil in Hx. apply (drawn_gone _ _ Hx). congruence.
  - split_and!; try congruence; try lia. revert K5. destruct (default false (slot_armed (y_sleep s) !! n)); [congruence|]. intros K5. apply A7; [|done]. apply (v_settled _ _ Hi _ _ _ Hx1).
Qed.
(** Any state over that bank has no context under the slot. *)
Lemma retired_spent s1 : y_world s1 = w3 → y_sleep s1 = y_sleep s ∨ y_sleep s1 = with_image (bump i im) (y_sleep s) → y_parked s1 = false → alive s1 = true → slot_spent s1 i.
Proof using Hi Hal Hgs Hl Hw2.
  intros Ew Es Hp1 Ha1 im1 y l j x Hpi Hy Hx Hm. destruct slot_context as (Har & Hsl & Hty & Hval & Hlt & x0 & Hx0 & Hent & Hp & Hus & Hil & _). exfalso.
  assert (Hst : port_stage s1 = Armed (slot_armed (y_sleep s))) by (unfold SessionRtcInv.port_stage; rewrite Hp1, Ha1; destruct Es as [-> | ->]; cbn [negb]; [by rewrite Har|]; change (armed (with_image (bump i im) (y_sleep s))) with (armed (y_sleep s)); by rewrite Har).
  pose proof (pi_same _ _ _ Hpi _ Hst) as Hsame. pose proof (pi_inv _ _ _ Hpi) as Hinv. rewrite Hst in Hinv. destruct (ii_kept _ _ _ Hinv i y l j x Hy Hx Hm) as (K1 & K2 & _). rewrite Ew in Hx. subst l. rewrite <- Hil in Hx.
  apply (drawn_gone _ _ Hx). rewrite K2. destruct Es as [E|E]; rewrite E in Hsame; [fold im in Hsame; subst im1; congruence|].
  change (sleep_image (with_image (bump i im) (y_sleep s))) with (bump i im) in Hsame. subst im1. destruct (bump_lookup i im i y Hty Hy) as (y0 & Hy0 & ->). rewrite decide_True by done. cbn. congruence.
Qed.
End Guarded.

Lemma disarm_slot_ok i (n : Node) : fst (disarm_slot i n) = Ok tt.
Proof using. unfold disarm_slot, mbind, M_bind, set_sleep, get_sleep. cbn [n_sleep]. destruct (armed _); [done|]. by rewrite disarm_eq. Qed.
(** After a slot is given up, anything that follows starts from there. *)
Lemma disarm_slot_then {A} i (k : M Node A) (n : Node) : (disarm_slot i;; k) n = k (snd (disarm_slot i n)).
Proof using. unfold mbind, M_bind. pose proof (disarm_slot_ok i n) as Hk. destruct (disarm_slot i n) as [r n']. cbn in *. by subst r. Qed.
Lemma node_with (s : Sys) n : node_of (with_node n s) = n.
Proof using. by destruct n. Qed.

(** The end of a guarded draw that the retained image did not follow. *)
Definition lose_image (c : SecurityContext) (i : nat) (code : StatusCode) (detail : string) : M Node Z :=
  try (SessionRtc.on_bank (retire hmac (scope c) (receiver c)));; disarm_slot i;; throw code detail.
Lemma lose_image_step s c i p' sl' b2 code detail :
  let b3 := snd (retire hmac (scope c) (receiver c) b2) in
  Inv (with_port p' sl' (set_world (SessionBankWorld.on_bank (λ _, b3) (y_world s)) s)) → y_parked s = false →
  (rtc_alive p' = true → armed sl' = true ∧ slot_spent (with_port p' sl' (set_world (SessionBankWorld.on_bank (λ _, b3) (y_world s)) s)) i) →
  Inv (with_node (snd (lose_image c i code detail (mkNode b2 p' sl'))) s).
Proof using.
  intros b3 Hi Hpk Hsp. unfold lose_image, mbind at 1, M_bind at 1, try, SessionRtc.on_bank. cbn [n_bank n_port n_sleep]. destruct (retire hmac (scope c) (receiver c) b2) as [rr b3'] eqn:E. cbn [snd] in b3. subst b3.
  rewrite disarm_slot_then. unfold throw. cbn [snd]. exact (disarm_slot_step _ i Hi Hpk Hsp).
Qed.

(** The port after an advance that failed, or lost power. *)
Lemma unmoved_inv s w3 p' i :
  let im := sleep_image (y_sleep s) in
  Inv s → alive s = true → y_parked s = false → armed (y_sleep s) = true → Inv (set_world w3 s) → w3 = SessionBankWorld.on_bank (λ _, w_bank w3) (y_world s) → rtc_ok p' → image_typed im → valid im = true →
  (rtc_alive p' = true → rtc_view p' = rtc_view (y_port s) ∨ unread (rtc_view p')) →
  (rtc_view p' = rtc_view (y_port s) ∨ unread (rtc_view p') ∨
    (rtc_view (y_port s) = record im ∧ Z.of_nat i < count im ∧ tx_next (entry_at im i) < kUseLimit - 1 ∧ valid (bump i im) = true ∧ rtc_view p' = record (bump i im))) →
  Inv (with_port p' (y_sleep s) (set_world w3 s)).
Proof using Hprofile.
  intros im Hi Hal Hpk Har Hi3 Hwe Hok' Hty Hval Hav Hvw. apply inv_port; try done.
  - by intros _; apply (v_guard _ _ Hi).
  - intros _ Hx. destruct (guard_cases _ (v_guard _ _ Hi Hal)) as [(_ & _ & _ & ?)|(? & _)]; congruence.
  - assert (Hst : port_stage s = Armed (slot_armed (y_sleep s))) by (unfold SessionRtcInv.port_stage; by rewrite Hpk, Hal, Har). destruct (rtc_alive p') eqn:Hal'.
    + destruct (Hav eq_refl) as [Hv|?]; [|by left]. destruct (v_image _ _ Hi3) as [Hu|(im1 & Hpi)]; [left; by rewrite Hv|right; right]. exists im1. pose proof Hpi as [Hv1 Hval1 Hinv1 Hsame1].
      assert (Hst' : port_stage (with_port p' (y_sleep s) (set_world w3 s)) = port_stage (set_world w3 s)).
      { unfold SessionRtcInv.port_stage. change (SessionRtcInv.alive kResourceProfileId (with_port p' (y_sleep s) (set_world w3 s))) with (rtc_alive p'). rewrite Hal'. change (SessionRtcInv.alive kResourceProfileId (set_world w3 s)) with (alive s). by rewrite Hal. }
      split; try done; [cbn [with_port y_port]; by rewrite Hv|by rewrite Hst'|by rewrite Hst'].
    + destruct Hvw as [?|[?|(Hv & Hlt & Hk & Hvb & Hv')]]; [by right; left|by left|]. destruct (v_image _ _ Hi) as [Hu|(im1 & Hpi)]; [left; rewrite Hv'; apply unread_bump; try done; by rewrite <- Hv|right; right].
      assert (im1 = im) as -> by (symmetry; by apply (pi_same _ _ _ Hpi _ Hst)). exists (bump i im).
      assert (Hst' : port_stage (with_port p' (y_sleep s) (set_world w3 s)) = Gone) by (unfold SessionRtcInv.port_stage, SessionRtcInv.alive; cbn [with_port set_world y_parked y_port]; by rewrite Hpk, Hal').
      split; try done; rewrite Hst'; [|done]. split; [|done]. pose proof (bump_ok _ i im (ii_ok _ _ _ (pi_inv _ _ _ Hpi)) Hlt Hk) as []. cbn [with_port set_world y_world]. rewrite Hwe. by split.
Qed.

(** The image follows the draw, or the context is retired. *)
Lemma issue_step s c i :
  Inv s → alive s = true → y_parked s = false → guarded_slot (y_sleep s) c = Some i → Inv (with_node (snd (issue_guarded kResourceProfileId hmac c i (node_of s))) s).
Proof using Hprofile AG.
  intros Hi Hal Hpk Hgs. destruct (slot_context s c i Hi Hal Hgs) as (Har & Hsl & Hty & Hval & Hlt & _). unfold issue_guarded, mbind at 1, M_bind at 1, SessionRtc.on_bank at 1. cbn [n_bank n_port n_sleep node_of].
  pose proof (run_op_ok hmac (NextCounter c) _ I (v_world _ _ Hi)) as Hw2. pose proof (run_op_timed hmac (NextCounter c) _ I (v_timed _ _ Hi)) as Ht2. cbn [run_op] in Hw2, Ht2. unfold SessionBankWorld.on_bank in Hw2, Ht2.
  destruct (next_counter hmac c (w_bank (y_world s))) as [r b2] eqn:E. cbn [snd w_bank] in Hw2, Ht2.
  destruct (next_counter_cases hmac c _ r b2 (proj1 (tm_hold _ (v_timed _ _ Hi))) E) as [(Hk & Ha & Hr)|(i0 & e & fl & -> & -> & Hf & Hl & Hpe & Hrdy & Hfl)].
  { destruct r as [k|code d]; [by destruct (Hr k)|]. exact (keeps_step s b2 Hi Hk Ha). }
  set (b2 := touch_lru _ _ _) in *. unfold mbind at 1, M_bind at 1, get_sleep. unfold mbind at 1, M_bind at 1, try at 1, on_port. cbn [n_bank n_port n_sleep].
  destruct (advance_rtc_tx kResourceProfileId (sleep_image (y_sleep s)) i (y_port s)) as [ra p'] eqn:Ead. destruct (advance_spec _ _ _ _ _ Ead (v_ok _ _ Hi) Hty) as [Hok' Had].
  pose proof (retired_step s c i Hi Hal Hgs i0 e fl Hl Hpe Hw2) as Hi3. fold b2 in Hi3.
  set (b3 := snd (retire hmac (scope c) (receiver c) b2)) in *. set (w3 := SessionBankWorld.on_bank (λ _, b3) (y_world s)) in *.
  destruct ra as [[im' k]|code d].
  - destruct Had as (Hal' & -> & -> & _ & Hkl & Hv & Hvb & Hv'). unfold mbind at 1, M_bind at 1, set_sleep. cbn [n_bank n_port n_sleep fmap option_fmap option_map snd].
    destruct (bool_decide_reflect (Some (tx_next (entry_at (sleep_image (y_sleep s)) i)) = Some (tx_next e))) as [[= Heq]|Hne].
    + unfold mret, M_ret. cbn [snd]. apply (advanced_inv s (SessionBankWorld.on_bank (λ _, b2) (y_world s)) p' i); try done.
      * apply (drawn_settled (y_world s)); [done|done|apply Hi].
      * intros Hpi. by apply (drawn_lockstep s c i Hi Hal Hpk Hgs i0 e fl Hl Hpe).
    + apply (lose_image_step s c i p' (with_image (bump i (sleep_image (y_sleep s))) (y_sleep s)) b2); [|done|].
      * apply (advanced_inv s w3 p' i); try done; try apply Hi3. intros Hpi. exact (retired_lockstep s c i Hi Hal Hpk Hgs i0 e fl Hl Hpe Hw2 Hpi).
      * intros _. split; [exact Har|]. by apply (retired_spent s c i Hi Hal Hgs i0 e fl Hl Hw2); [done|right| |].
  - destruct Had as [Hav Hvw]. unfold mbind at 1, M_bind at 1, mret at 1, M_ret at 1. change (bool_decide (snd <$> None = Some (tx_next e))) with false.
    apply (lose_image_step s c i p' (y_sleep s) b2 code d); [|done|intros Ha'; split; [exact Har|]; by apply (retired_spent s c i Hi Hal Hgs i0 e fl Hl Hw2); [done|left| |]].
    exact (unmoved_inv s w3 p' i Hi Hal Hpk Har Hi3 eq_refl Hok' Hty Hval Hav Hvw).
Qed.

Lemma draw_step s c : Inv s → may kResourceProfileId s (Draw c) → Inv (step kResourceProfileId hmac (Draw c) s).
Proof using Hprofile AG.
  intros Hi (Hal & Htr & _). assert (Hpk : y_parked s = false) by (destruct (y_parked s); [by specialize (Htr eq_refl)|done]). clear Htr.
  cbn [step]. unfold guarded_next_counter, mbind at 1, M_bind at 1, get_sleep at 1. cbn [node_of n_sleep]. destruct (guarded_slot (y_sleep s) c) as [i|] eqn:Hgs.
  2: { assert (Hd := draw_free s c Hi Hpk (λ _, Hgs)). cbn [run_op] in Hd. unfold SessionRtc.on_bank. cbn [n_bank n_port n_sleep node_of]. destruct (next_counter hmac c (w_bank (y_world s))) as [r b'] eqn:E.
       unfold SessionBankWorld.on_bank in Hd. rewrite E in Hd. exact Hd. }
  unfold mbind at 1, M_bind at 1, try at 1, SessionRtc.on_bank at 1. cbn [n_bank n_port n_sleep node_of]. destruct (tx_epoch hmac (scope c) (receiver c) (w_bank (y_world s))) as [live b1] eqn:Et.
  set (s1 := set_world (SessionBankWorld.on_bank (λ _, b1) (y_world s)) s).
  assert (Hi1 : Inv s1).
  { pose proof (tx_epoch_keeps hmac (scope c) (receiver c) (w_bank (y_world s))) as Hk. pose proof (tx_epoch_ages hmac (scope c) (receiver c) (w_bank (y_world s)) (proj1 (tm_hold _ (v_timed _ _ Hi)))) as Ha. rewrite Et in Hk, Ha. by apply keeps_step. }
  change (mkNode b1 (y_port s) (y_sleep s)) with (node_of s1).
  destruct (bool_decide_reflect (live = Ok (guarded_cid (y_sleep s) i))) as [Hlive|Hlive]; cbn [negb].
  2: { rewrite disarm_slot_then. destruct (guarded_slot_some _ _ _ Hgs) as (Har & _). pose proof (other_epoch s c i Hi Hal Hpk Hgs s1 live b1 Et Hlive eq_refl Hi1) as Hsp.
       pose proof (disarm_slot_step s1 i Hi1 Hpk (λ _, conj Har Hsp)) as Hi2. set (s2 := with_node (snd (disarm_slot i (node_of s1))) s1) in Hi2.
       assert (Hd : Inv (set_world (run_op hmac (NextCounter c) (y_world s2)) s2)).
       { apply draw_free; [done|done|]. intros _. unfold s2. rewrite disarm_slot_eq. cbn [node_of n_bank n_port n_sleep]. destruct (armed (without i (y_sleep s1))); [|done]. exact (without_unguarded s c i Hi Hal Hgs). }
       cbn [run_op] in Hd. unfold SessionBankWorld.on_bank in Hd. change (w_bank (y_world s2)) with (n_bank (snd (disarm_slot i (node_of s1)))) in Hd. unfold SessionRtc.on_bank.
       destruct (next_counter hmac c (n_bank (snd (disarm_slot i (node_of s1))))) as [r b']. exact Hd. }
  exact (issue_step s1 c i Hi1 Hal Hpk Hgs).
Qed.
End Draw.
