(* ===== verification/SessionRtcSafety.v ===== *)
(** * Session images: every run over deep sleep

    Neither a nonce nor a frame is used again across saves, wakes, aborted
    sleeps and power cuts. *)

From S2P Require Import Prelude Types Crc32 SessionBank SessionBankProps SessionBankRun SessionBankInstall SessionBankWorld SessionBankTime SessionRtc SessionRtcProps SessionRtcPort SessionRtcBank SessionRtcRun SessionRtcInv SessionRtcSave SessionRtcRestore SessionRtcDraw.

Section Safety.
Context (kResourceProfileId : Z) (Hprofile : is_u8 kResourceProfileId) (hmac : list Z → list Z → list Z) {AG : AeadGcm}.
Context {ST : Type} {RP : RtcSessionPort ST} {RL : RtcSessionPortLaws kResourceProfileId ST}.
Abbreviation Sys := (@Sys ST).
Abbreviation Inv := (Inv kResourceProfileId).
Abbreviation step := (step kResourceProfileId hmac).
Abbreviation steps := (steps kResourceProfileId hmac).
Abbreviation may := (may kResourceProfileId).

Lemma sleep_step_ok s op : Inv s → may s op → w_accepted (y_world s) = [] ∨ honest s op → Inv (step op s).
Proof using Hprofile.
  intros Hi Hm Hh. destruct op.
  - by apply bank_step.
  - by apply draw_step.
  - by apply save_step.
  - by apply restore_step.
  - by apply wake_step.
  - by apply abort_step.
  - by apply stop_step.
  - by apply cycle_step.
Qed.

(** A node that starts with nothing it could read in RTC memory. *)
Lemma boot_inv n m p : rtc_ok p → undecodable kResourceProfileId (rtc_view p) → Inv (boot_up n m p).
Proof using.
  intros Hok Hu. split; cbn [boot_up y_world y_port y_sleep]; try done; [apply start_ok_world|apply new_bank_timed| |by left].
  intros [] i e; unfold live, tb, start, new_bank; cbn [w_bank link_ end_]; by intros [? _]%lookup_replicate.
Qed.

(** ** What was accepted does not matter for what is sent *)

Definition forget (w : World) : World := mkWorld (w_bank w) (w_tx w) (w_rx w) (w_sealed w) [].
Definition forgotten (s : Sys) : Sys := set_world (forget (y_world s)) s.
Lemma forget_inv s : Inv s → Inv (forgotten s).
Proof using.
  assert (Hii : ∀ w st im, image_inv w st im → image_inv (forget w) st im).
  { intros w st im [[Ht Hc Ha] Hk]. split; [by split|]. assert (Hs : image_seen (forget w) im) by (intros c k _ Hx; by apply not_elem_of_nil in Hx). destruct st; try done. by destruct Hk. }
  intros [Hw Ht Hset Hok Him Hg Hh]. split; try done.
  - destruct Hw as [Htx Hrx ? ? ? ? ? ? ?]. split; try done; [|by intros m c ?%not_elem_of_nil]. destruct Hrx as [Hu _ _]. split; [done|by intros q m x y c _ ?%not_elem_of_nil|constructor].
  - destruct Him as [?|(im & [])]; [by left|right]. exists im. split; try done. by apply Hii.
  - intros Ha Hr. destruct (Hh Ha Hr). split; [by apply Hii|done].
Qed.
Lemma step_forgets op s : forgotten (step op (forgotten s)) = forgotten (step op s).
Proof using.
  destruct op; try done.
  - unfold forgotten, forget, set_world. cbn [SessionRtcRun.step set_world y_world]. destruct op; try done; cbn [run_op SessionBankWorld.on_bank w_bank w_tx w_rx w_sealed w_accepted y_port y_sleep y_parked y_woken].
    + by destruct (install_verified hmac k att (w_bank (y_world s))) as [[] b'].
    + by destruct (open hmac c counter aad ciphertext tag room (w_bank (y_world s))) as [[] b'].
  - unfold forgotten, forget, set_world. cbn [SessionRtcRun.step]. change (node_of (mkSys _ _ _ _ _)) with (node_of s). by destruct (save_sleep_image _ _ _ _ _ _ _ _ _) as [[] n'].
Qed.
Lemma may_forget op s : may s op → may (forgotten s) op.
Proof using. destruct op; try done. intros (? & ? & ? & ? & ?). split_and!; try done. by destruct op. Qed.

Lemma forget_run ops s : lawful kResourceProfileId hmac ops s → Inv (forgotten s) → Inv (forgotten (steps ops s)).
Proof using Hprofile.
  revert s. induction ops as [|op ops IH]; intros s; [done|]. intros [Hm Hl] Hi. cbn [SessionRtcRun.steps]. apply IH; [done|]. rewrite <- step_forgets. apply forget_inv, sleep_step_ok; [done|by apply may_forget|by left].
Qed.
Lemma full_run ops s : lawful kResourceProfileId hmac ops s → truthful kResourceProfileId hmac ops s → Inv s → Inv (steps ops s).
Proof using Hprofile.
  revert s. induction ops as [|op ops IH]; intros s; [done|]. intros [Hm Hl] [Hh Ht] Hi. cbn [SessionRtcRun.steps]. apply IH; [done..|]. apply sleep_step_ok; auto.
Qed.

(** C8: a node starts with nothing readable in RTC memory and runs any
    sequence of bank operations, guarded counter draws, saves, restores,
    wakes, aborted sleeps, stops and power cycles, over any port that keeps
    the contract; a cut leaves what was there, nothing readable, or what was
    written. If keys are fresh when they are installed and no frame is sent
    between a save and the sleep or its abort, no (key, nonce) pair is sealed
    twice. *)
Theorem sleep_never_reuses_nonces (kLinkCapacity kEndCapacity : nat) (p : ST) (ops : list (Step (ST:=ST))) :
  rtc_ok p → undecodable kResourceProfileId (rtc_view p) → lawful kResourceProfileId hmac ops (boot_up kLinkCapacity kEndCapacity p) →
  NoDup (port_nonce <$> w_sealed (y_world (steps ops (boot_up kLinkCapacity kEndCapacity p)))).
Proof using Hprofile.
  intros Hok Hu Hl. assert (Hi : Inv (forgotten (boot_up kLinkCapacity kEndCapacity p))) by (by apply forget_inv, boot_inv).
  pose proof (v_world _ _ (forget_run _ _ Hl Hi)) as Hw. exact (world_nonces _ Hw).
Qed.

End Safety.
