(* ===== verification/SessionRtcResume.v ===== *)
(** * Session images: the link session survives a sleep

    A save that succeeded, a deep sleep and a wake that the image matches
    put the session with the parent back where it was. *)

From S2P Require Import Prelude Types Crc32 SessionBank SessionBankProps SessionBankRun SessionBankInstall SessionBankWorld SessionBankTime SessionRtc SessionRtcProps SessionRtcPort SessionRtcBank SessionRtcRun SessionRtcInv SessionRtcSave SessionRtcRestore SessionRtcDraw SessionRtcSafety.

Section Fresh.
Context (hmac : list Z → list Z → list Z).

(** A configured bank without contexts. *)
Record fresh_bank (b : SessionBank) : Prop := {
  fb_conf : configured_ b = true; fb_live l i e : ¬ live b l i e; fb_ovl i o : ¬ ovl b i o; fb_serial : install_serial_ b = 0;
  fb_tick : 0 ≤ last_tick_ b ∧ last_tick_ b + kContextLifetimeMs ≤ UINT64_MAX }.

Lemma check_collision_free i skip k v id t : (∀ j e, t !! j ≠ Some (Some e)) → check_collision i skip k v id t = Ok tt.
Proof using.
  revert i. induction t as [|s t IH]; intros i Hn; [done|]. cbn [check_collision]. destruct s as [e|]; [by destruct (Hn 0%nat e)|]. cbn. apply IH. intros j e. apply (Hn (S j) e).
Qed.
Lemma free_slot_fresh b sc p : fresh_bank b → length (slots b sc) ≠ 0%nat → ∃ i, free_slot hmac b sc p = Some i ∧ (i < length (slots b sc))%nat.
Proof using.
  intros Hb Hl. destruct (free_slot hmac b sc p) as [i|] eqn:Hf; [exists i; split; [done|]; by eapply free_slot_some|]. exfalso. unfold free_slot in Hf.
  apply (find_none _ _) with (x := 0%nat) in Hf; [|apply list_elem_of_In, probe_elem; lia]. unfold is_free in Hf. destruct (slots b sc !! 0%nat) as [[e|]|] eqn:E; [|done..].
  rewrite slots_tb in E. by apply (fb_live _ Hb) in E.
Qed.

(** What a context must be to be restored. *)
Record restorable (b : SessionBank) (sc : SecurityScope) (e : SessionBankEntry) : Prop := {
  ra_scope : unicast_scope sc = true; ra_peer : id_valid (peer e) = true; ra_self : peer e ≠ self (local_ b); ra_tx : tx_cid e ≠ 0; ra_rx : rx_cid e ≠ 0; ra_flags : flags e = 0;
  ra_next : tx_next e < kMaxUseCounter; ra_max : rx_max e < kMaxUseCounter; ra_life : 0 < remaining_ms e ≤ kContextLifetimeMs;
  ra_gk : created_gk e ≤ gk_epoch (local_ b) < created_gk e + 2; ra_room : length (slots b sc) ≠ 0%nat }.

Lemma restore_check_fresh b sc e : fresh_bank b → restorable b sc e → ∃ i, restore_check hmac b sc (peer e) e = Ok i ∧ (i < length (slots b sc))%nat.
Proof using.
  intros Hb [Hs Hp Hself Htx Hrx Hfl Hn Hm Hl Hg Hr]. destruct (free_slot_fresh b sc (peer e) Hb Hr) as (i & Hf & Hi). exists i. split; [|done]. unfold restore_check.
  rewrite (fb_conf _ Hb), Hs, Hp. rewrite guard_pass by done. rewrite guard_pass by (rewrite (bool_decide_eq_true_2 (peer e = peer e)), (bool_decide_eq_false_2 (peer e = self (local_ b))), (bool_decide_eq_false_2 (tx_cid e = 0)), (bool_decide_eq_false_2 (rx_cid e = 0)), (bool_decide_eq_true_2 (flags e = 0)) by done; done).
  rewrite guard_pass. 2: { unfold tx_refused, check_tx_counter. destruct (bool_decide (tx_next e < kRekeySoftCounter)); [done|]. by rewrite (bool_decide_eq_true_2 (tx_next e < kMaxUseCounter)). }
  rewrite guard_pass by (unfold rx_counter_admissible; by rewrite bool_decide_eq_true_2).
  rewrite guard_pass by (rewrite !bool_decide_eq_false_2 by lia; done). rewrite guard_pass by (unfold gk_dead; rewrite !bool_decide_eq_false_2 by lia; done).
  rewrite guard_pass by (rewrite bool_decide_eq_false_2 by (rewrite (fb_serial _ Hb); done); done). rewrite guard_pass by (by rewrite bool_decide_eq_false_2).
  assert (Hnone : find_slot hmac b sc (peer e) = None) by (destruct (find_slot hmac b sc (peer e)) as [j|] eqn:E; [|done]; destruct (find_slot_some _ _ _ _ _ E) as (_ & x & Hx & _); by apply (fb_live _ Hb) in Hx).
  rewrite guard_pass by (by rewrite bool_decide_eq_true_2). unfold check_collisions. rewrite (check_collision_free 0 _ _ _ _ (link_ b)) by (intros j x Hx; by apply (fb_live _ Hb true j x)).
  rewrite bind_Ok. rewrite (check_collision_free 0 _ _ _ _ (end_ b)) by (intros j x Hx; by apply (fb_live _ Hb false j x)). rewrite bind_Ok.
  rewrite guard_pass; [by rewrite Hf|]. apply not_true_iff_false. rewrite existsb_exists. intros (s & Hin & Hu). apply list_elem_of_In, list_elem_of_lookup in Hin as [j Hj]. destruct s as [o|]; [|done]. by apply (fb_ovl _ Hb j o).
Qed.

Lemma restore_fresh b sc e :
  fresh_bank b → restorable b sc e →
  ∃ b' e', restore_entry hmac sc (peer e) e b = (Ok tt, b') ∧ find_current hmac b' sc (peer e) = Some e' ∧ e' = with_life (remaining_ms e') (install_serial e') e ∧ remaining b' (remaining_ms e') = remaining_ms e.
Proof using.
  intros Hb Hr. destruct (restore_check_fresh b sc e Hb Hr) as (i & Hc & Hi). unfold restore_entry. bank_unfold. rewrite Hc. unfold expires_after.
  set (b0 := set_serial (next_serial b) b). set (d := deadline_after b0 (remaining_ms e)). set (x := with_life (u32 d) (next_serial b) e). set (b' := drop_demand _ _ _). exists b', x. split; [done|].
  assert (Hlive : live b' (is_link sc) i x).
  { change (live (touch_lru sc i (put_current sc i x (note_expiry d b0))) (is_link sc) i x). apply touch_lru_live, put_current_at. unfold b0, slots in *. by case_bool_decide. }
  assert (Honly : ∀ l j y, live b' l j y → l = is_link sc ∧ j = i).
  { intros l j y Hy. change (live (touch_lru sc i (put_current sc i x (note_expiry d b0))) l j y) in Hy. apply touch_lru_live, put_current_live in Hy as [(-> & -> & _)|[_ Hy]]; [done|]. by apply (fb_live _ Hb) in Hy. }
  split_and!; [|done|].
  - apply find_current_iff; [|apply Hr|]; [|by exists i]. intros l j k y z Hy Hz _. destruct (Honly _ _ _ Hy), (Honly _ _ _ Hz). congruence.
  - assert (Ht : last_tick_ b' = last_tick_ b) by (unfold b', drop_demand, touch_lru, put_current, set_slots, b0; by repeat case_bool_decide).
    destruct (ra_life _ _ _ Hr), (fb_tick _ Hb). assert (Hd : d = last_tick_ b + remaining_ms e) by (unfold d, deadline_after, b0; cbn; rewrite bool_decide_eq_false_2; [done|unfold kContextLifetimeMs, UINT64_MAX in *; lia]).
    rewrite (remaining_eq b' _ (last_tick_ b + remaining_ms e)); [lia|rewrite Ht; unfold kContextLifetimeMs, UINT32_MAX in *; lia|]. cbn. rewrite Hd. unfold wrap. by rewrite Zmod_mod.
Qed.

(** The end session is restored beside the link session. *)
Lemma end_restore_link p e b p' : find_current hmac (snd (restore_entry hmac EndToEnd p e b)) Link p' = find_current hmac b Link p' ∧ last_tick_ (snd (restore_entry hmac EndToEnd p e b)) = last_tick_ b.
Proof using.
  unfold restore_entry. bank_unfold. destruct (restore_check hmac b EndToEnd p e); [|done]. unfold expires_after. done.
Qed.
End Fresh.

(** ** The aged image is still an image *)

Lemma valid_context_age im im' n c d :
  valid_context im n c = true → im_gk_epoch im' = im_gk_epoch im → 0 ≤ d < remaining_ms (rc_entry c) → valid_context im' n (age_context d c) = true.
Proof.
  unfold valid_context. cbv zeta. intros Hv Hg Hd. rewrite Hg. cbn [rc_scope rc_entry age_context with_remaining with_life peer tx_cid rx_cid flags remaining_ms created_gk tx_next rx_max].
  apply negb_true_iff in Hv. apply negb_true_iff. rewrite !orb_false_iff in Hv |- *. destruct Hv as [[[[[[[[[[[[H1 H2] H3] H4] H5] H6] H7] H8] H9] H10] H11] H12] H13].
  apply bool_decide_eq_false in H8. split_and!; try done; apply bool_decide_eq_false; lia.
Qed.
Lemma valid_woken im boot d : image_typed im → valid im = true → boot ≠ 0 → 0 ≤ d → outlived d im = false → valid (rebase boot (age_image d im)) = true.
Proof.
  intros Ht Hv Hb Hd Ho. unfold valid in Hv |- *. apply andb_true_iff in Hv as [Hh Hc]. apply andb_true_iff. split.
  - apply negb_true_iff in Hh. apply negb_true_iff. rewrite !orb_false_iff in Hh |- *. cbn [rebase age_image source_boot im_network local_generation site_commit im_gk_epoch parent_binding parent_mac count]. split_and!; try tauto. by apply bool_decide_eq_false.
  - change (used (rebase boot (age_image d im))) with (used (age_image d im)). rewrite used_age by done. rewrite forallb_forall in Hc |- *.
    intros x [n Hn]%list_elem_of_In%list_elem_of_lookup. rewrite list_lookup_imap, list_lookup_fmap in Hn. destruct (used im !! n) as [c|] eqn:Hu; [|done]. cbn in Hn. injection Hn as <-. unfold id.
    assert (Hin : c ∈ used im) by (by eapply list_elem_of_lookup_2). apply (valid_context_age im); [|done|].
    + apply Hc. apply list_elem_of_In, list_elem_of_lookup. exists n. by rewrite list_lookup_imap, Hu.
    + split; [done|]. unfold outlived in Ho. apply not_true_iff_false in Ho. rewrite existsb_exists in Ho. destruct (decide (remaining_ms (rc_entry c) ≤ d)) as [Hle|]; [|lia].
      destruct Ho. exists c. split; [by apply list_elem_of_In|by apply bool_decide_eq_true].
Qed.

Lemma existsb_never {A} (l : list A) : existsb (λ _, false) l = false.
Proof. by induction l. Qed.

Section Resume.
Context (kResourceProfileId : Z) (Hprofile : is_u8 kResourceProfileId) (hmac : list Z → list Z → list Z) {AG : AeadGcm}.
Context {ST : Type} {RP : RtcSessionPort ST} {RL : RtcSessionPortLaws kResourceProfileId ST}.
Abbreviation Node := (@Node ST).
Abbreviation record := (rtc_record kResourceProfileId).

Lemma consume_ok im wake p r p' :
  rtc_ok p → rtc_view p = record im → image_typed im → valid im = true → wake_ok wake im = true → consume_rtc_session kResourceProfileId wake p = (r, p') → rtc_alive p' = true →
  r = Ok (age_image (trusted_elapsed_ms wake) im) ∧ rtc_ok p'.
Proof using Hprofile.
  intros Hok Hv Ht Hval Hwk E Hal. destruct (consume_spec _ _ _ _ _ E Hok) as (Hok' & Hal' & _). destruct (Hal' Hal) as [Halp _]. split; [|done]. unfold consume_rtc_session in E.
  destruct (rtc_read p) as [rr q] eqn:Er. destruct (read_law _ _ _ Hok Er) as [-> Hr]. rewrite Halp in Hr. subst rr. rewrite Hv, (decode_record _ Hprofile), Hwk in E by done. unfold mbind, M_bind in E.
  destruct (rtc_invalidate p) as [[[]|c d] p1] eqn:Ei; destruct (invalidate_law _ _ _ Hok Ei) as (I1 & _ & I3); [|destruct I3; injection E as _ <-; congruence]. destruct I3 as (_ & Hal1 & _ & Hm).
  destruct (rtc_read p1) as [r2 q2] eqn:Er2. destruct (read_law _ _ _ I1 Er2) as [-> Hr2]. rewrite Hal1 in Hr2. subst r2. unfold fail_if in E. rewrite bool_decide_eq_false_2 in E by done. by injection E as <- _.
Qed.

(** What the wake must meet. *)
Record woken_to (b : SessionBank) (im : RtcSessionImage) (wake : RtcWakeCheck) (observed : NodeId → option (list Z)) : Prop := {
  wt_wake : wake_ok wake im = true; wt_elapsed : 0 ≤ trusted_elapsed_ms wake; wt_boot : is_u32 (next_boot wake); wt_fresh : fresh_bank b; wt_gk : gk_epoch (local_ b) = im_gk_epoch im;
  wt_self : peer (entry_at im 0) ≠ self (local_ b); wt_room : length (link_ b) ≠ 0%nat; wt_parent : observed (peer (entry_at im 0)) = Some (parent_mac im) }.

Lemma valid_first im : image_typed im → valid im = true → ∃ c, used im !! 0%nat = Some c ∧ contexts im !! 0%nat = Some c ∧ valid_context im 0 c = true ∧ entry_typed (rc_entry c).
Proof using.
  intros Ht Hv. destruct (it_slots _ Ht) as (c0 & c1 & Hc & [_ T0] & Hn). exists c0. assert (Hu : used im !! 0%nat = Some c0) by (unfold used; rewrite Hc; by destruct Hn as [[-> _]|[-> _]]).
  split_and!; [done|by rewrite Hc| |done]. unfold valid in Hv. apply andb_true_iff in Hv as [_ Hv]. rewrite forallb_forall in Hv. apply Hv. apply list_elem_of_In, list_elem_of_lookup. exists 0%nat. by rewrite list_lookup_imap, Hu.
Qed.
Lemma image_restorable b im wake observed :
  image_typed im → valid im = true → woken_to b im wake observed → restorable b Link (entry_at (age_image (trusted_elapsed_ms wake) im) 0).
Proof using.
  intros Ht Hv [Hwk Hel Hbt Hfr Hgk Hself Hroom _]. destruct (valid_first im Ht Hv) as (c & Hu & Hc & Hval & Hty).
  assert (He : entry_at (age_image (trusted_elapsed_ms wake) im) 0 = rc_entry (age_context (trusted_elapsed_ms wake) c)).
  { unfold entry_at, age_image. cbn [contexts]. by destruct (used im) as [|x l]; cbn in Hu |- *; [|injection Hu as ->]. }
  assert (He0 : entry_at im 0 = rc_entry c) by (unfold entry_at; by rewrite Hc). rewrite He0 in Hself. rewrite He.
  assert (Hlife : trusted_elapsed_ms wake < remaining_ms (rc_entry c)).
  { unfold wake_ok in Hwk. apply andb_true_iff in Hwk as [_ Ho%negb_true_iff]. unfold outlived in Ho. apply not_true_iff_false in Ho. rewrite existsb_exists in Ho.
    destruct (decide (remaining_ms (rc_entry c) ≤ trusted_elapsed_ms wake)) as [Hle|]; [|lia]. destruct Ho. exists c. split; [apply list_elem_of_In; by eapply list_elem_of_lookup_2|by apply bool_decide_eq_true]. }
  unfold valid_context in Hval. cbv zeta in Hval. apply negb_true_iff in Hval. rewrite !orb_false_iff in Hval. destruct Hval as [[[[[[[[[[[[_ H2] H3] H4] H5] H6] H7] H8] H9] H10] H11] H12] H13].
  apply bool_decide_eq_false in H4, H5, H8, H10, H11, H12, H13. apply negb_false_iff, bool_decide_eq_true in H6.
  split; cbn [rc_entry age_context with_remaining with_life peer tx_cid rx_cid flags remaining_ms created_gk tx_next rx_max]; try done; unfold kMaxUseCounter, kUseLimit, kContextLifetimeMs, kLifetime in *; try lia.
  unfold id_valid. by rewrite H2, H3.
Qed.

(** The link session as it was, less the time that passed. *)
Definition resumed (b : SessionBank) (e : SessionBankEntry) (elapsed : Z) : Prop :=
  ∃ e', find_current hmac b Link (peer e) = Some e' ∧ e' = with_life (remaining_ms e') (install_serial e') e ∧ remaining b (remaining_ms e') = remaining_ms e - elapsed.

Lemma rebase_typed boot im : is_u32 boot → image_typed im → image_typed (rebase boot im).
Proof using. intros Hb []. by split. Qed.
Lemma install_resumes b p im el boot sl r (n' : Node) :
  rtc_ok p → is_u32 boot → image_typed (age_image el im) → valid (rebase boot (age_image el im)) = true → fresh_bank b → restorable b Link (entry_at (age_image el im) 0) →
  entry_at (age_image el im) 0 = with_remaining (remaining_ms (entry_at im 0) - el) (entry_at im 0) → sleep_image sl = age_image el im → armed sl = false → slot_armed sl = [false; false] →
  install_held kResourceProfileId hmac boot (mkNode b p sl) = (r, n') → rtc_alive (n_port n') = true → r = Ok tt ∧ resumed (n_bank n') (entry_at im 0) el.
Proof using.
  intros Hok Hb Hta Hvw Hfr Hra He0 Hsl Har _ E Hal. set (e0 := entry_at (age_image el im) 0) in *. assert (Hp0 : peer e0 = peer (entry_at im 0)) by (by rewrite He0). destruct (restore_fresh hmac b Link e0 Hfr Hra) as (b1 & e' & Er & Hf & Hx & Hrem).
  unfold install_held, mbind at 1, M_bind at 1, get_sleep in E. cbv zeta in E. cbn [n_sleep] in E. rewrite Hsl in E. fold e0 in E. unfold mbind at 1, M_bind at 1, try at 1, SessionRtc.on_bank at 1 in E. cbn [n_bank n_port n_sleep] in E. rewrite Er in E.
  match type of E with ((?m ≫= ?k) ?n) = _ =>
    assert (Hfirst : ∃ b2, m n = (Ok tt, mkNode b2 p sl) ∧ find_current hmac b2 Link (peer e0) = Some e' ∧ last_tick_ b2 = last_tick_ b1); [|destruct Hfirst as (b2 & Hfirst & Hf2 & Ht2); rewrite (M_bind_ok _ _ _ _ _ Hfirst) in E] end.
  { destruct (bool_decide (count (age_image el im) = 2)); [|by exists b1]. destruct (end_restore_link hmac (peer (entry_at (age_image el im) 1)) (entry_at (age_image el im) 1) b1 (peer e0)) as [E1 E2].
    unfold mbind, M_bind, try, SessionRtc.on_bank. cbn [n_bank n_port n_sleep]. destruct (restore_entry hmac EndToEnd _ _ b1) as [r2 b2]. exists b2. cbn [snd] in *. split; [done|]. by rewrite E1. }
  unfold mbind at 1, M_bind at 1, set_sleep at 1 in E. cbn [n_bank n_port n_sleep] in E. rewrite Hsl in E. unfold mbind at 1, M_bind at 1, try at 1 in E. set (sl1 := with_image _ sl) in E.
  destruct (arm kResourceProfileId (mkNode b2 p sl1)) as [ra n3] eqn:Ea. assert (Hty1 : image_typed (sleep_image sl1)) by exact (rebase_typed boot _ Hb Hta).
  destruct (arm_spec _ _ _ _ Ea Har Hty1 Hok) as (B1 & B2 & B3). cbn [n_bank n_sleep n_port] in B1, B3. change (sleep_image sl1) with (rebase boot (age_image el im)) in B3. destruct n3 as [b3 p3 sl3]. cbn [n_bank n_sleep n_port] in *. subst b3.
  destruct ra as [[]|c d].
  - unfold set_sleep in E. injection E as <- <-. split; [done|]. cbn [n_bank]. exists e'. rewrite <- Hp0. split_and!; [done| |].
    + rewrite Hx. rewrite He0. done.
    + unfold remaining in *. rewrite Ht2, Hrem, He0. done.
  - exfalso. destruct B3 as [_ [[? _]|(_ & Hd & _)]]; [congruence|].
    assert (Hport : n_port n' = p3); [|congruence]. unfold fail_restore, mbind, M_bind, try, SessionRtc.on_bank, set_sleep, throw in E. cbn [n_bank n_port n_sleep] in E. destruct (retire hmac Link (peer e0) b2) as [r4 b4].
    destruct (bool_decide (count (age_image el im) = 2)); [cbn [n_bank n_port n_sleep] in E; destruct (retire hmac EndToEnd _ b4) as [r5 b5]|]; by injection E as <- <-.
Qed.
Lemma restore_resumes b p im wake observed r n' :
  rtc_ok p → rtc_view p = record im → image_typed im → valid im = true → next_boot wake ≠ 0 → woken_to b im wake observed →
  restore_sleep_image kResourceProfileId hmac (next_boot wake) wake observed true (λ _ _, false) (mkNode b p new_sleeper) = (r, n') → rtc_alive (n_port n') = true →
  r = Ok tt ∧ resumed (n_bank n') (entry_at im 0) (trusted_elapsed_ms wake).
Proof using Hprofile.
  intros Hok Hv Ht Hval Hb0 Hwt E Hal. pose proof Hwt as [Hwk Hel Hbt Hfr Hgk Hself Hroom Hpar]. set (el := trusted_elapsed_ms wake) in *.
  assert (Ho : outlived el im = false) by (unfold wake_ok in Hwk; apply andb_true_iff in Hwk as [_ Ho%negb_true_iff]; done).
  pose proof (age_typed el im Ht Hel Ho) as Hta. pose proof (valid_woken im (next_boot wake) el Ht Hval Hb0 Hel Ho) as Hvw. pose proof (image_restorable b im wake observed Ht Hval Hwt) as Hra. fold el in Hra.
  unfold restore_sleep_image, mbind at 1, M_bind at 1, get_sleep at 1 in E. cbn [n_sleep new_sleeper restore_state] in E. rewrite (bool_decide_eq_true_2 (next_boot wake = next_boot wake)) in E by done. cbn [negb] in E.
  unfold mbind at 1, M_bind at 1, hold_image, mbind at 1, M_bind at 1, get_sleep in E. cbn [n_sleep new_sleeper restore_state] in E. rewrite (bool_decide_eq_false_2 (RestoreIdle = RestoreHolding)) in E by done.
  unfold mbind at 1, M_bind at 1, try at 1, on_port in E. cbn [n_bank n_port n_sleep] in E. destruct (consume_rtc_session kResourceProfileId wake p) as [rc p1] eqn:Ec.
  destruct (consume_spec _ _ _ _ _ Ec Hok) as (C1 & _ & _ & C4). destruct rc as [im1|c d].
  2: { injection E as _ <-. by destruct (consume_ok im wake p _ p1 Hok Hv Ht Hval Hwk Ec Hal). }
  destruct (C4 im1 eq_refl) as [Hal1 _]. destruct (consume_ok im wake p _ p1 Hok Hv Ht Hval Hwk Ec Hal1) as [[= ->] Hok1]. fold el in E. clear Ec C4.
  unfold set_sleep in E. cbn [n_bank n_port n_sleep] in E. set (sl1 := with_restore _ _ _) in E. unfold mbind at 1, M_bind at 1, deduct, mbind at 1, M_bind at 1, get_sleep in E. cbn [n_sleep] in E.
  change (restore_elapsed_ms sl1) with el in E. rewrite (bool_decide_eq_false_2 (el < el)) in E by lia. unfold mret at 1, M_ret at 1 in E.
  unfold bind_parent, mbind at 1, M_bind at 1, get_sleep in E. cbn [n_sleep] in E. change (sleep_image sl1) with (age_image el im) in E.
  set (e0 := entry_at (age_image el im) 0) in *. assert (He0 : e0 = with_remaining (remaining_ms (entry_at im 0) - el) (entry_at im 0)).
  { destruct (valid_first im Ht Hval) as (c & Hu & Hc & _). unfold e0, entry_at, age_image. rewrite Hc. cbn [contexts]. by destruct (used im) as [|x l]; cbn in Hu |- *; [|injection Hu as ->]. }
  assert (Hp0 : peer e0 = peer (entry_at im 0)) by (by rewrite He0). rewrite Hp0, Hpar in E.
  assert (Hwarm : rtc_parent_warm_ok (age_image el im) (parent_mac im) true = true).
  { unfold rtc_parent_warm_ok. cbn [age_image count parent_mac]. destruct (it_slots _ Ht) as (_ & _ & _ & _ & [[-> _]|[-> _]]); by rewrite (bool_decide_eq_true_2 (parent_mac im = parent_mac im)). }
  rewrite Hwarm in E. cbn [negb] in E. change (existsb _ (used (age_image el im))) with (existsb (λ _, false) (used (age_image el im))) in E. rewrite existsb_never in E.
  exact (install_resumes b p1 im el (next_boot wake) sl1 r n' Hok1 Hbt Hta Hvw Hfr Hra He0 eq_refl eq_refl eq_refl E Hal).
Qed.

(** ** Save, sleep, wake *)

Lemma commit_written s im n' :
  SessionRtcInv.Inv kResourceProfileId s → image_typed im → alive kResourceProfileId s = true → commit_image kResourceProfileId hmac im (record im) (node_of s) = (Ok tt, n') →
  n_bank n' = w_bank (y_world s) ∧ rtc_view (n_port n') = record im.
Proof using Hprofile.
  intros Hi Hty Hal E. pose proof (v_ok _ _ Hi) as Hok. unfold commit_image, mbind, M_bind, on_port in E. cbn [node_of n_port n_bank n_sleep] in E.
  destruct (rtc_write (record im) (y_port s)) as [rw p1] eqn:Ew. destruct (write_law _ _ _ _ Hok (rtc_record_length _ _ Hty) (rtc_record_bytes _ _ Hty) Ew) as (H1 & H2 & H3).
  destruct rw as [[]|c d]; [|done]. destruct H3 as (_ & Hal1 & Hv1). unfold get_sleep in E. cbn [n_sleep] in E. destruct (guard_cases _ (v_guard _ _ Hi Hal)) as [(Har & Hgu & Hps & Hdone)|(Har & _)]; rewrite Har in E; [|by injection E as <-].
  rewrite disarm_eq in E. cbn [n_bank n_port n_sleep] in E. rewrite Hps in E. unfold set_sleep in E. cbn [n_bank n_port n_sleep] in E.
  destruct (rtc_invalidate p1) as [r2 p2] eqn:E2. cbn [snd] in E. destruct (invalidate_law _ _ _ H1 E2) as (I1 & _). set (sl1 := with_image im (disarmed (y_sleep s))) in E. unfold try in E.
  destruct (arm kResourceProfileId (mkNode (w_bank (y_world s)) p2 sl1)) as [ra n2] eqn:Ea. destruct (arm_spec _ _ _ _ Ea eq_refl Hty I1) as (B1 & B2 & B3). destruct ra as [[]|c d].
  - injection E as <-. destruct B3 as (_ & _ & Hv & _). by split.
  - destruct (retire_contexts hmac (zip [Link; EndToEnd] (used im)) n2) as [[[]|] n3]; done.
Qed.

Lemma save_written s boot mb parent mac binding now n' :
  SessionRtcInv.Inv kResourceProfileId s → may kResourceProfileId s (Save boot mb parent mac binding now) → save_sleep_image kResourceProfileId hmac boot mb parent mac binding now (node_of s) = (Ok tt, n') →
  ∃ im, build_image hmac boot mb parent mac binding (n_bank n') = Ok im ∧ image_typed im ∧ valid im = true ∧ rtc_view (n_port n') = record im.
Proof using Hprofile AG.
  intros Hi (Hal & _ & Hb & Hmb & Hm1 & Hm2 & Hbi & Hnow) E. unfold save_sleep_image in E. unfold mbind at 1, M_bind at 1, fail_if, throw in E. destruct (_ || _); [done|]. unfold mret, M_ret in E.
  assert (H1 : SessionRtcInv.Inv kResourceProfileId (set_world (run_op hmac (Tick now) (y_world s)) s)) by (by apply plain_step). set (s1 := set_world _ s) in H1. pose proof H1 as [Hw1 _ Hset1 _ _ _ _].
  assert (Hn1 : node_of s1 = mkNode (snd (tick now (w_bank (y_world s)))) (y_port s) (y_sleep s)) by done.
  unfold mbind at 1, M_bind at 1, SessionRtc.on_bank in E. cbn [node_of n_bank n_port n_sleep] in E. destruct (tick now (w_bank (y_world s))) as [[[]|c d] b1] eqn:Et; cbn [snd] in Hn1; [|done].
  rewrite <- Hn1 in E. unfold mbind at 1, M_bind at 1, getS in E. unfold mbind at 1, M_bind at 1, lift in E. change (n_bank (node_of s1)) with (w_bank (y_world s1)) in E.
  destruct (build_image hmac boot mb parent mac binding (w_bank (y_world s1))) as [im|c d] eqn:Eb; [|done].
  unfold mbind at 1, M_bind at 1 in E. destruct (encode_rtc_session kResourceProfileId im) as [enc|c d] eqn:Ee; [|done]. apply encode_inv in Ee as [Hv ->].
  destruct (build_image_ok _ _ _ _ _ _ _ _ Hw1 Hset1 Hb Hmb Hm1 Hm2 Hbi Eb) as [Hio _]. exists im. destruct (commit_written s1 im n' H1 (io_typed _ _ Hio) Hal E) as [-> Hview]. split_and!; try done. apply Hio.
Qed.

(** The wake that the next boot of the same membership presents. *)
Definition wake_after (boot : Z) (mb : Membership) (elapsed : Z) : RtcWakeCheck :=
  mkWake true true elapsed (boot + 1) (mb_network mb) (mb_generation mb) (mb_commit mb) (mb_gk_epoch mb) (mb_rs_floor mb) (mb_kid mb).

(** Every session that a save can take lives longer than the sleep. *)
Definition outlasts (b : SessionBank) (ms : Z) : Prop := ∀ sc p e, export_sleep_entry hmac b sc p = Ok e → ms < remaining_ms e.

Lemma built_image boot mb parent mac binding b im e :
  build_image hmac boot mb parent mac binding b = Ok im → export_sleep_entry hmac b Link parent = Ok e →
  entry_at im 0 = e ∧ parent_mac im = mac ∧ im_gk_epoch im = mb_gk_epoch mb ∧ ∀ ms, 0 < ms → boot + 1 ≠ 0 → outlasts b ms → wake_ok (wake_after boot mb ms) im = true.
Proof using.
  unfold build_image. intros Hb He. rewrite He, bind_Ok in Hb. injection Hb as <-. set (second := match first_live_peer b EndToEnd with Some p => _ | None => None end).
  split_and!; [by destruct second..|]. intros ms Hms Hbt Hlast. pose proof (Hlast _ _ _ He) as H1.
  assert (H2 : ∀ e2, second = Some e2 → ms < remaining_ms e2).
  { intros e2. unfold second. destruct (first_live_peer b EndToEnd) as [q|]; [|done]. destruct (export_sleep_entry hmac b EndToEnd q) as [e3|] eqn:E3; [|done]. intros [= <-]. by eapply Hlast. }
  unfold wake_ok, wake_matches, outlived. cbn [wake_after deep_sleep sleep_marker trusted_elapsed_ms next_boot wk_network wk_generation wk_commit wk_gk_epoch wk_rs_floor wk_kid_digest].
  rewrite (bool_decide_eq_false_2 (ms = 0)) by lia. rewrite (bool_decide_eq_false_2 (boot + 1 = 0)) by done.
  destruct second as [e2|]; cbn [source_boot im_network local_generation site_commit im_gk_epoch rs_floor kid_digest]; rewrite !bool_decide_eq_true_2 by done.
  - change (used _) with [mkRtcContext 0 e; mkRtcContext 1 e2]. cbn [existsb rc_entry]. specialize (H2 e2 eq_refl). by rewrite !bool_decide_eq_false_2 by lia.
  - change (used _) with [mkRtcContext 0 e]. cbn [existsb rc_entry]. by rewrite bool_decide_eq_false_2 by lia.
Qed.

(** The bank of a boot. *)
Definition boot_bank (kLinkCapacity kEndCapacity : nat) (local : LocalView) (salt : option (list Z)) (now : Z) : SessionBank :=
  snd (configure local salt now (new_bank kLinkCapacity kEndCapacity)).
Lemma boot_bank_fresh kLinkCapacity kEndCapacity local salt now :
  fst (configure local salt now (new_bank kLinkCapacity kEndCapacity)) = Ok tt → 0 ≤ now ∧ now + kContextLifetimeMs ≤ UINT64_MAX →
  let b := boot_bank kLinkCapacity kEndCapacity local salt now in fresh_bank b ∧ local_ b = local ∧ length (link_ b) = kLinkCapacity.
Proof using.
  unfold boot_bank, configure. unfold mbind, M_bind, fail_if, throw. destruct (_ || _); [done|]. unfold mret, M_ret. destruct salt as [salt|]; [|done]. intros _ Hnow.
  cbn [modifyS snd]. unfold wipe_all, new_bank, wiped. cbn [local_ link_ end_ overlap_ configured_ last_tick_ install_serial_]. split_and!; [|done|by rewrite length_fmap, length_replicate].
  split; try done.
  - intros [] i e; unfold live, tb; cbn [link_ end_]; rewrite list_lookup_fmap; by destruct (_ !! i).
  - intros i o. unfold ovl. cbn [overlap_]. rewrite list_lookup_fmap. by destruct (_ !! i).
Qed.

(** C12: from any reachable node whose save returned success, the next boot of
    the same membership that finds the parent at its address within every
    lifetime saved, and keeps power, restores with success: the bank has the
    session with the parent with its keys, counters and window, and the
    lifetime it had less the time asleep. *)
Theorem sleep_resumes_session (kLinkCapacity kEndCapacity : nat) (p : ST) (ops : list (Step (ST:=ST))) boot mb parent mac binding now n1 e :
  let s := steps kResourceProfileId hmac ops (boot_up kLinkCapacity kEndCapacity p) in
  rtc_ok p → undecodable kResourceProfileId (rtc_view p) → lawful kResourceProfileId hmac ops (boot_up kLinkCapacity kEndCapacity p) →
  may kResourceProfileId s (Save boot mb parent mac binding now) → save_sleep_image kResourceProfileId hmac boot mb parent mac binding now (node_of s) = (Ok tt, n1) →
  export_sleep_entry hmac (n_bank n1) Link parent = Ok e →
  ∀ (p2 : ST) kLinkCapacity2 kEndCapacity2 local salt now2 ms observed r n2,
  let b2 := boot_bank kLinkCapacity2 kEndCapacity2 local salt now2 in
  rtc_ok p2 → rtc_view p2 = rtc_view (n_port n1) →
  fst (configure local salt now2 (new_bank kLinkCapacity2 kEndCapacity2)) = Ok tt → 0 ≤ now2 ∧ now2 + kContextLifetimeMs ≤ UINT64_MAX → kLinkCapacity2 ≠ 0%nat →
  gk_epoch local = mb_gk_epoch mb → self local ≠ parent → is_u32 (boot + 1) → 0 < ms → outlasts (n_bank n1) ms → observed parent = Some mac →
  restore_sleep_image kResourceProfileId hmac (boot + 1) (wake_after boot mb ms) observed true (λ _ _, false) (mkNode b2 p2 new_sleeper) = (r, n2) → rtc_alive (n_port n2) = true →
  r = Ok tt ∧ resumed (n_bank n2) e ms.
Proof using Hprofile AG.
  intros s Hok Hu Hl Hm Es He p2 nl ne local salt now2 ms observed r n2 b2 Hok2 Hv2 Hcf Hnow2 Hnl Hgk Hself Hbt Hms Hlast Hpar Er Hal.
  assert (Hi : SessionRtcInv.Inv kResourceProfileId (forgotten s)) by (apply forget_run; [done..|]; by apply forget_inv, boot_inv).
  destruct (save_written (forgotten s) boot mb parent mac binding now n1 Hi (may_forget _ _ _ Hm) Es) as (im & Hb & Hty & Hval & Hw).
  destruct (boot_bank_fresh nl ne local salt now2 Hcf Hnow2) as (Hfr & Hloc & Hlen). destruct Hm as (_ & _ & Hb0 & _). unfold in_range in Hb0.
  destruct (built_image _ _ _ _ _ _ _ _ Hb He) as (E1 & E2 & E3 & E4). destruct (export_ok _ _ _ _ _ He) as (i & x & _ & Hpx & _ & Hx).
  assert (Hpe : peer e = parent) by (by rewrite Hx). rewrite <- E1. apply (restore_resumes b2 p2 im (wake_after boot mb ms) observed r n2); try done; [congruence|cbn; lia|].
  split; [apply E4; [done|lia|done]|cbn; lia|done|done| | | |]; fold b2 in Hloc, Hlen; rewrite ?Hloc, ?Hlen, ?E1, ?E2, ?E3, ?Hpe; done.
Qed.

(** C40: what [encode_rtc_session] returns for an image has the size of a
    record, and [decode_rtc_session] of it is the image with the time asleep
    taken off its lifetimes when the wake check matches and every lifetime is
    longer, and the one error otherwise. *)
Lemma rtc_image_roundtrip (im : RtcSessionImage) (raw : list Z) :
  image_typed im → encode_rtc_session kResourceProfileId im = Ok raw →
  length raw = kRtcSessionRecordSize ∧ bytes_ok raw ∧
  ∀ wake, decode_rtc_session kResourceProfileId raw wake = if wake_ok wake im then Ok (age_image (trusted_elapsed_ms wake) im) else Err IntegrityError "RTC session invalid".
Proof using Hprofile. intros Ht [Hv ->]%encode_inv. split_and!; [by apply rtc_record_length|by apply rtc_record_bytes|]. intros wake. by apply decode_record. Qed.
End Resume.
