(* ===== verification/SessionRtcDemo.v ===== *)
(** * Session images: concrete sleeps *)

From S2P Require Import Prelude Types Crc32 SessionBank SessionBankProps SessionBankRun SessionBankInstall SessionBankWorld SessionBankTime SessionBankDemo SessionRtc SessionRtcProps SessionRtcPort SessionRtcBank SessionRtcRun SessionRtcSave SessionRtcSafety SessionRtcResume.

#[local] Existing Instance demo_aead.
Definition profile : Z := 3.
Definition local11 : LocalView := mkLocal 11 0x1234 1 8000.
Definition link_keys (p : NodeId) (tx_id rx_id tx rx : Z) : ContextKeys :=
  mkKeys Link 0x1234 p tx_id rx_id (key tx) (iv tx) (key rx) (iv rx) (replicate 8 0) 1.
Definition att1 : InstallAttestation := mkAttestation 1 1 false.
Definition lctx (s r : NodeId) (id : Z) : SecurityContext := mkContext Link 0x1234 s r id 0 0 kInvalidNodeId.
Definition mb : Membership := mkMembership 0x1234 1 1 1 0 (replicate 16 7).
Definition mac22 : list Z := [2; 0; 0; 0; 0; 22].
Definition wake_at (boot ms : Z) : RtcWakeCheck := mkWake true true ms boot 0x1234 1 1 1 0 (replicate 16 7).
Definition parent_at (p : NodeId) : option (list Z) := if bool_decide (p = 22) then Some mac22 else None.

Abbreviation St := (@Step BufferRtc).
Definition blank (n : nat) : BufferRtc := mkBufferRtc (replicate kRtcSessionRecordSize 0) n.
Definition after (ops : list St) (p : BufferRtc) : @Sys BufferRtc := steps profile demo_hmac ops (boot_up 2 2 p).
(** The RTC memory as it is, with power for [n] more bytes. *)
Definition kept_memory (s : @Sys BufferRtc) (n : nat) : BufferRtc := mkBufferRtc (backing_ (y_port s)) n.

Definition send (id : Z) (counter : Z) : list St := [Draw (lctx 11 22 id); Bank (Seal (lctx 11 22 id) counter [] [counter] 250)].
Definition hear (id k counter : Z) : St := Bank (Open (lctx 22 11 id) counter [] [counter] (frame_tag k counter [counter]) 250).
Definition rise (boot ms : Z) : list St := [Bank (Configure local11 (salt_of 9) 5000); Restore boot (wake_at boot ms) parent_at true (λ _ _, false)].

(** Power for a boot. *)
Definition charge : nat := 4900.
(** Boot 7: a session, a frame each way, a save. *)
Definition evening : list St :=
  [Bank (Configure local11 (salt_of 9) 1000); Bank (Install (link_keys 22 5 6 1 2) att1)] ++ send 5 0 ++ [hear 6 2 0; Save 7 mb 22 mac22 4 2000].
Definition evening_end : @Sys BufferRtc := Eval vm_compute in after evening (blank charge).
(** Boot 8, after deep sleep: the session goes on, under the write-ahead. *)
Definition at_night : list St := [PowerCycle (kept_memory evening_end charge) true] ++ rise 8 600 ++ send 5 1 ++ [hear 6 2 0; hear 6 2 1] ++ send 5 2.
Definition night_end : @Sys BufferRtc := Eval vm_compute in steps profile demo_hmac at_night evening_end.
(** Boot 9, with the reset cause of a deep sleep that no save came before;
    the power fails while the image is written for the fourth frame, and in
    boot 10 nothing is restored. *)
Definition in_morning : list St := [PowerCycle (kept_memory night_end 2700) true] ++ rise 9 600 ++ send 5 3 ++ [hear 6 2 1; Draw (lctx 11 22 5)].
Definition morning_end : @Sys BufferRtc := Eval vm_compute in steps profile demo_hmac in_morning night_end.
Definition next_day : list St := [PowerCycle (kept_memory morning_end charge) true] ++ rise 10 600 ++ send 5 4.

(** Each step in turn. *)
Ltac by_value := refine (bool_decide_eq_true_1 _ _); vm_compute; reflexivity.
Ltac one_may :=
  match goal with
  | |- is_true _ => by_value
  | |- _ → _ => vm_compute; done
  | |- allowed _ (Install _ _) => eapply install_allowed; [vm_compute; reflexivity|vm_compute; reflexivity|reflexivity|vm_compute; repeat constructor; discriminate|vm_compute; repeat constructor; discriminate]
  | |- allowed _ _ => exact I
  | |- op_typed _ => split; [first [exact I|done|cbn; split_and!; by_value]|first [exact I|by_value|split; first [by_value|split; by_value]]]
  | |- membership_typed _ => split; first [by_value|split; by_value]
  | |- rtc_ok _ => split; by_value
  | |- _ => first [exact I|by_value|vm_compute; reflexivity]
  end.
Ltac all_may := cbn [lawful]; unfold hear; repeat match goal with |- may _ _ _ ∧ _ => split; [cbn [may]; split_and!; one_may|] end; exact I.
Lemma steps_app a b s : steps profile demo_hmac (a ++ b) s = steps profile demo_hmac b (steps profile demo_hmac a s).
Proof. revert s. induction a as [|op a IH]; intros s; [done|]. apply IH. Qed.
Lemma lawful_app a b s t :
  lawful profile demo_hmac a s → steps profile demo_hmac a s = t → lawful profile demo_hmac b t → lawful profile demo_hmac (a ++ b) s.
Proof. intros Ha <-. revert s Ha. induction a as [|op a IH]; intros s; cbn [app lawful]; [done|]. intros [? ?] ?. split; [done|]. by apply IH. Qed.
Lemma evening_lawful : lawful profile demo_hmac evening (boot_up 2 2 (blank charge)) ∧ steps profile demo_hmac evening (boot_up 2 2 (blank charge)) = evening_end.
Proof. split; [unfold evening, send; cbn [app]; all_may|by vm_compute]. Qed.
Lemma night_lawful : lawful profile demo_hmac at_night evening_end ∧ steps profile demo_hmac at_night evening_end = night_end.
Proof. split; [unfold at_night, send, rise; cbn [app]; all_may|by vm_compute]. Qed.
Lemma morning_lawful : lawful profile demo_hmac in_morning night_end ∧ steps profile demo_hmac in_morning night_end = morning_end.
Proof. split; [unfold in_morning, send, rise; cbn [app]; all_may|by vm_compute]. Qed.
Lemma next_day_lawful : lawful profile demo_hmac next_day morning_end.
Proof. unfold next_day, send, rise. cbn [app]. all_may. Qed.

Definition days : list St := evening ++ at_night ++ in_morning ++ next_day.
Lemma days_lawful : lawful profile demo_hmac days (boot_up 2 2 (blank charge)).
Proof.
  destruct evening_lawful as [L1 E1], night_lawful as [L2 E2], morning_lawful as [L3 E3].
  exact (lawful_app _ _ _ _ L1 E1 (lawful_app _ _ _ _ L2 E2 (lawful_app _ _ _ _ L3 E3 next_day_lawful))).
Qed.
Lemma days_end : steps profile demo_hmac days (boot_up 2 2 (blank charge)) = steps profile demo_hmac next_day morning_end.
Proof.
  unfold days. destruct evening_lawful as [_ E1], night_lawful as [_ E2], morning_lawful as [_ E3]. by rewrite !steps_app, E1, E2, E3.
Qed.
Lemma profile_u8 : is_u8 profile.
Proof. by_value. Qed.
Lemma blank_memory_ok : rtc_ok (kResourceProfileId:=profile) (blank charge) ∧ undecodable profile (rtc_view (kResourceProfileId:=profile) (blank charge)).
Proof. split; [split; by_value|]. apply no_marker_undecodable. by vm_compute. Qed.

(** Over the four boots: four frames are sealed, all with counters of their own. *)
Lemma sleep_never_reuses_nonces_witness :
  NoDup (port_nonce <$> w_sealed (y_world (steps profile demo_hmac days (boot_up 2 2 (blank charge))))) ∧
  snd <$> w_sealed (y_world (steps profile demo_hmac next_day morning_end)) = [3; 2; 1; 0].
Proof.
  split; [|vm_compute; reflexivity]. apply (sleep_never_reuses_nonces profile profile_u8 demo_hmac 2 2 (blank charge) days); [apply blank_memory_ok|apply blank_memory_ok|apply days_lawful].
Defined.

(** With the save before it the wake of boot 8 knows what boot 7 accepted. *)
Lemma truthful_app a b s t :
  truthful profile demo_hmac a s → steps profile demo_hmac a s = t → truthful profile demo_hmac b t → truthful profile demo_hmac (a ++ b) s.
Proof. intros Ha <-. revert s Ha. induction a as [|op a IH]; intros s; cbn [app truthful]; [done|]. intros [? ?] ?. split; [done|]. by apply IH. Qed.
Ltac all_honest := cbn [truthful honest]; unfold hear; repeat match goal with |- _ ∧ _ => split; [first [exact I|vm_compute; done]|] end; exact I.
Lemma night_truthful : truthful profile demo_hmac (evening ++ at_night) (boot_up 2 2 (blank charge)).
Proof.
  destruct evening_lawful as [_ E1]. eapply truthful_app; [|exact E1|]; [unfold evening, send|unfold at_night, send, rise]; cbn [app]; all_honest.
Qed.

(** Without the save the image that the write-ahead keeps is restored in boot
    9, counters ahead, windows behind: a frame that boot 8 accepted is
    accepted again. *)
Example unsaved_wake_replays :
  ∃ ops, lawful profile demo_hmac ops (boot_up 2 2 (blank charge)) ∧
    snd <$> w_accepted (y_world (steps profile demo_hmac ops (boot_up 2 2 (blank charge)))) = [1; 1; 0].
Proof.
  destruct evening_lawful as [L1 E1], night_lawful as [L2 E2], morning_lawful as [L3 E3]. exists (evening ++ at_night ++ in_morning).
  split; [exact (lawful_app _ _ _ _ L1 E1 (lawful_app _ _ _ _ L2 E2 L3))|]. rewrite !steps_app, E1, E2, E3. by vm_compute.
Qed.

(** Boot 7 saves, boot 8 wakes 600 ms later: the link session goes on with
    its counters, its window and the lifetime it has left. *)
Definition before_save : list St := take 5 evening.
Definition before_end : @Sys BufferRtc := Eval vm_compute in after before_save (blank charge).
Definition saving : Step (ST:=BufferRtc) := Save 7 mb 22 mac22 4 2000.
Definition saved : result unit * @Node BufferRtc := Eval vm_compute in save_sleep_image profile demo_hmac 7 mb 22 mac22 4 2000 (node_of before_end).
Definition saved_entry : SessionBankEntry := Eval vm_compute in match export_sleep_entry demo_hmac (n_bank (snd saved)) Link 22 with Ok e => e | _ => zero_entry end.
Definition night_port : BufferRtc := Eval vm_compute in mkBufferRtc (backing_ (n_port (snd saved))) charge.
Definition night_bank : SessionBank := Eval vm_compute in boot_bank 2 2 local11 (salt_of 9) 5000.
Definition woken : result unit * @Node BufferRtc :=
  Eval vm_compute in restore_sleep_image profile demo_hmac 8 (wake_after 7 mb 600) parent_at true (λ _ _, false) (mkNode night_bank night_port new_sleeper).
Lemma before_lawful : lawful profile demo_hmac before_save (boot_up 2 2 (blank charge)) ∧ steps profile demo_hmac before_save (boot_up 2 2 (blank charge)) = before_end.
Proof. split; [unfold before_save, evening, send; cbn [app take]; all_may|by vm_compute]. Qed.

Lemma saved_outlasts : outlasts demo_hmac (n_bank (snd saved)) 600.
Proof.
  intros sc p e (i & x & Hl & _ & _ & ->)%export_ok. cbn [remaining_ms with_flags with_life]. unfold live, tb in Hl. destruct (is_link sc); cbn in Hl; destruct i as [|[|i]]; cbn in Hl; try done; injection Hl as <-; vm_compute; reflexivity.
Qed.
Lemma saving_may : may profile before_end saving.
Proof. unfold saving. cbn [may]. split_and!; one_may. Qed.

Lemma sleep_resumes_session_witness : resumed demo_hmac (n_bank (snd woken)) saved_entry 600 ∧ tx_next saved_entry = 1 ∧ rx_max saved_entry = 0.
Proof.
  split; [|split; vm_compute; reflexivity]. destruct before_lawful as [Hl Hs].
  pose proof (sleep_resumes_session profile profile_u8 demo_hmac 2 2 (blank charge) before_save 7 mb 22 mac22 4 2000 (snd saved) saved_entry) as Ht. cbv zeta in Ht. rewrite Hs in Ht.
  refine (proj2 (Ht (proj1 blank_memory_ok) (proj2 blank_memory_ok) Hl saving_may _ _ night_port 2%nat 2%nat local11 (salt_of 9) 5000 600 parent_at (fst woken) (snd woken) _ _ _ _ _ _ _ _ _ saved_outlasts _ _ _)).
  all: first [vm_compute; reflexivity|split; by_value|by_value].
Defined.

Definition saved_image : RtcSessionImage :=
  Eval vm_compute in match build_image demo_hmac 7 mb 22 mac22 4 (n_bank (snd saved)) with Ok im => im | _ => zero_image end.
Definition saved_bytes : list Z := Eval vm_compute in match encode_rtc_session profile saved_image with Ok raw => raw | _ => [] end.
Lemma saved_image_typed : image_typed saved_image.
Proof.
  split; try (split; by_value); try by_value. eexists _, _. split; [reflexivity|]. split; [split; [by_value|]|left; split; reflexivity]. split; first [by_value|split; by_value].
Qed.
(** The image of boot 7 read by boot 8, and refused by boot 9. *)
Lemma rtc_image_roundtrip_witness :
  length saved_bytes = 346%nat ∧ decode_rtc_session profile saved_bytes (wake_after 7 mb 600) = Ok (age_image 600 saved_image) ∧
  decode_rtc_session profile saved_bytes (wake_after 8 mb 600) = Err IntegrityError "RTC session invalid".
Proof.
  assert (He : encode_rtc_session profile saved_image = Ok saved_bytes) by (vm_compute; reflexivity).
  destruct (rtc_image_roundtrip profile profile_u8 saved_image saved_bytes saved_image_typed He) as (Hlen & _ & Hd). split; [exact Hlen|]. rewrite !Hd. split; vm_compute; reflexivity.
Defined.
