(* ===== verification/SiteStore.v ===== *)
(** * The site record and its store (sdkv1_records.cpp, sdkv1_store.cpp)

    RLS1: the membership of a node, with the group keys of its site, in a
    sealed slot pair.  [st_state] is the raw byte of its enumeration.  What
    the certificates say is a parameter ([cert_decode], over COSE). *)

From S2P Require Import Prelude Types ByteIO Crc32 SealedSlots LocalRevocation.

Definition kSiteMagic : Z := 0x524C5331.
Definition kSiteSealCommitted : Z := 0x5173AB1E.
Definition kSiteFixedSize : nat := 196.
Definition kSiteGatewayMax : nat := 4.
Definition kRlcw1CertMax : nat := 256.
Definition kSiteRecordMin : nat := kSiteFixedSize + 4.
Definition kSiteRecordMax : nat := kSiteFixedSize + 2 * kRlcw1CertMax + 4.
Definition kSiteSlotBytes : nat := kSiteRecordMax.
Definition kMemberRoleMask : Z := 7.

(** [SiteState] *)
Definition StCleared : Z := 0.
Definition StMember : Z := 1.

Record SiteRecord := mkSiteRecord {
  st_state : Z; st_site_id : Z; st_network : NetworkId; st_generation : Z; st_rs_floor : Z;
  gk_epoch_current : Z; gk_epoch_next : Z; gk_current : list Z; gk_next : list Z; dams : list Z;
  st_role : Z; gateway_count : Z; st_channel : Z; st_channel_epoch : Z; st_boot_witness : Z;
  gateways : list NodeId; site_cert : list Z; member_cert : list Z }.
#[global] Instance SiteRecord_eq_dec : EqDecision SiteRecord.
Proof. solve_decision. Defined.
Definition zero_key : list Z := replicate 32 0.
Definition no_site : SiteRecord :=
  mkSiteRecord StCleared 0 0 0 0 0 0 zero_key zero_key zero_key 0 0 0 0 0 (replicate kSiteGatewayMax 0) [] [].

(** The claims of a certificate that a site record is checked against. *)
Inductive CertType := CertDevice | CertSite | CertMember.
#[global] Instance CertType_eq_dec : EqDecision CertType.
Proof. solve_decision. Defined.
Record CertClaims := mkClaims {
  ct_type : CertType; ct_issuer : Z; ct_subject : Z; ct_network_low32 : Z; ct_network : NetworkId; ct_role : Z; ct_generation : Z; ct_site_epoch : Z }.

Definition site_epoch (network : NetworkId) : Z := u32 (Z.shiftr network 32).

Section Codec.
Context (cert_decode : list Z → result CertClaims).

Definition tombstone_zero (r : SiteRecord) : bool :=
  bool_decide (st_site_id r = 0) && bool_decide (st_network r = 0) && bool_decide (st_generation r = 0) && bool_decide (st_rs_floor r = 0) &&
  bool_decide (gk_epoch_current r = 0) && bool_decide (gk_epoch_next r = 0) && all_zero (gk_current r) && all_zero (gk_next r) && all_zero (dams r) &&
  bool_decide (st_role r = 0) && bool_decide (gateway_count r = 0) && bool_decide (st_channel r = 0) && bool_decide (st_channel_epoch r = 0) &&
  bool_decide (st_boot_witness r = 0) && bool_decide (length (site_cert r) = 0%nat) && bool_decide (length (member_cert r) = 0%nat) && all_zero (gateways r).

(** The loop over the gateways, from index [i]. *)
Fixpoint check_gateways (i : nat) (count : Z) (ids : list NodeId) : result unit :=
  match ids with
  | [] => Ok tt
  | g :: rest =>
      (if bool_decide (Z.of_nat i < count) then
         guard_err (negb (id_valid g)) InvalidArgument "rls1 gateway id";;
         guard_err (existsb (λ x, bool_decide (x = g)) (take (Z.to_nat count - S i) rest)) InvalidArgument "rls1 gateway duplicated"
       else guard_err (negb (bool_decide (g = 0))) InvalidArgument "rls1 gateway tail");;
      check_gateways (S i) count rest
  end.

Definition check_certs (r : SiteRecord) : result unit :=
  site ← cert_decode (site_cert r);
  member ← cert_decode (member_cert r);
  guard_err (negb (bool_decide (ct_type site = CertSite)) || negb (bool_decide (ct_type member = CertMember)) ||
             negb (bool_decide (ct_subject site = st_site_id r)) || negb (bool_decide (ct_network_low32 site = u32 (Z.land (st_network r) 0xFFFFFFFF))) ||
             negb (bool_decide (ct_site_epoch site = site_epoch (st_network r))) || negb (bool_decide (ct_issuer member = st_site_id r)) ||
             negb (bool_decide (ct_network member = st_network r)) || negb (bool_decide (ct_generation member = st_generation r)) ||
             negb (bool_decide (ct_role member = st_role r))) IntegrityError "rls1 certificate mismatch".

Definition site_validate (r : SiteRecord) : result unit :=
  if bool_decide (st_state r = StCleared) then guard_err (negb (tombstone_zero r)) InvalidArgument "rls1 tombstone not empty"
  else
    guard_err (negb (bool_decide (st_state r = StMember))) InvalidArgument "rls1 state";;
    guard_err (negb (id_valid (st_site_id r)) || bool_decide (st_network r = 0) || bool_decide (Z.land (st_network r) 0xFFFFFFFF = 0) || bool_decide (st_generation r = 0))
      InvalidArgument "rls1 identity";;
    guard_err (bool_decide (gk_epoch_current r = 0) || all_zero (gk_current r) || all_zero (dams r)) InvalidArgument "rls1 keys";;
    (if bool_decide (gk_epoch_next r = 0) then guard_err (negb (all_zero (gk_next r))) InvalidArgument "rls1 gk_next residue"
     else guard_err (bool_decide (gk_epoch_next r ≤ gk_epoch_current r) || all_zero (gk_next r)) InvalidArgument "rls1 gk_next");;
    guard_err (bool_decide (st_role r = 0) || negb (bool_decide (Z.ldiff (st_role r) kMemberRoleMask = 0)) || bool_decide (st_channel r < 1) ||
               bool_decide (14 < st_channel r) || bool_decide (gateway_count r < 1) || bool_decide (Z.of_nat kSiteGatewayMax < gateway_count r))
      InvalidArgument "rls1 fields";;
    check_gateways 0 (gateway_count r) (gateways r);;
    guard_err (bool_decide (length (site_cert r) = 0%nat) || (kRlcw1CertMax <? length (site_cert r))%nat ||
               bool_decide (length (member_cert r) = 0%nat) || (kRlcw1CertMax <? length (member_cert r))%nat) InvalidArgument "rls1 cert lengths";;
    check_certs r.

Definition site_encoded_size (r : SiteRecord) : nat :=
  if (kRlcw1CertMax <? length (site_cert r))%nat || (kRlcw1CertMax <? length (member_cert r))%nat then 0
  else kSiteFixedSize + length (site_cert r) + length (member_cert r) + 4.

Fixpoint write_ids (ids : list NodeId) : M ByteWriter unit :=
  match ids with [] => mret tt | g :: ids => Writer.write_u64 g;; write_ids ids end.
Fixpoint read_ids (n : nat) : M ByteReader (list NodeId) :=
  match n with O => mret [] | S n => g ← Reader.read_u64; gs ← read_ids n; mret (g :: gs) end.

Definition site_body_write (r : SiteRecord) : M ByteWriter unit :=
  Writer.write_u64 (st_site_id r);;
  Writer.write_u64 (st_network r);;
  Writer.write_u32 (st_generation r);;
  Writer.write_u32 (st_rs_floor r);;
  Writer.write_u32 (gk_epoch_current r);;
  Writer.write_u32 (gk_epoch_next r);;
  Writer.write_bytes (gk_current r);;
  Writer.write_bytes (gk_next r);;
  Writer.write_bytes (dams r);;
  Writer.write_u8 (st_state r);;
  Writer.write_u8 (st_role r);;
  Writer.write_u8 (gateway_count r);;
  Writer.write_u8 (st_channel r);;
  Writer.write_u32 (st_channel_epoch r);;
  Writer.write_u32 (st_boot_witness r);;
  write_ids (gateways r);;
  Writer.write_u16 (u16 (Z.of_nat (length (site_cert r))));;
  Writer.write_u16 (u16 (Z.of_nat (length (member_cert r))));;
  Writer.write_bytes (site_cert r);;
  Writer.write_bytes (member_cert r).

Definition reader_left : M ByteReader nat := λ rd, (Ok (Reader.remaining rd), rd).
Definition site_body_read : M ByteReader SiteRecord :=
  site ← Reader.read_u64;
  net ← Reader.read_u64;
  generation ← Reader.read_u32;
  rs ← Reader.read_u32;
  current ← Reader.read_u32;
  next ← Reader.read_u32;
  key ← Reader.read_bytes 32;
  key_next ← Reader.read_bytes 32;
  secret ← Reader.read_bytes 32;
  state ← Reader.read_u8;
  role ← Reader.read_u8;
  n ← Reader.read_u8;
  channel ← Reader.read_u8;
  channel_epoch ← Reader.read_u32;
  witness ← Reader.read_u32;
  ids ← read_ids kSiteGatewayMax;
  site_len ← Reader.read_u16;
  member_len ← Reader.read_u16;
  left ← reader_left;
  fail_if (bool_decide (StMember < state) || bool_decide (Z.of_nat kRlcw1CertMax < site_len) || bool_decide (Z.of_nat kRlcw1CertMax < member_len) ||
           negb (bool_decide (Z.of_nat left = site_len + member_len + 4))) ProtocolError "rls1 structure";;
  sc ← Reader.read_bytes (Z.to_nat site_len);
  mc ← Reader.read_bytes (Z.to_nat member_len);
  mret (mkSiteRecord state site net generation rs current next key key_next secret role n channel channel_epoch witness ids sc mc).

Definition site_record_encode (r : SiteRecord) (seal commit_seq : Z) (out : list Z) : result (nat * list Z) :=
  site_validate r;;
  guard_err (negb (bool_decide (seal = kSealPending)) && negb (bool_decide (seal = kSiteSealCommitted))) InvalidArgument "rls1 seal value";;
  run_writer
    (write_head kSiteMagic (site_encoded_size r) seal kRecordSchema;;
     Writer.write_u32 commit_seq;;
     site_body_write r;;
     finish_crc (site_encoded_size r)) out.

(** A validation error is reported as one of the protocol. *)
Definition protocol_error (r : result unit) : result unit :=
  match r with Err InvalidArgument d => Err ProtocolError d | r => r end.
Definition read_site (record : list Z) : M ByteReader (SiteRecord * Z) :=
  fail_if (length record <? 16)%nat ProtocolError "record head";;
  read_head record kSiteMagic kSiteSealCommitted kSiteRecordMin kSiteRecordMax kRecordSchema;;
  seq ← Reader.read_u32;
  body ← site_body_read;
  mret (body, seq).
Definition site_record_decode (record : list Z) : result (SiteRecord * Z) :=
  '(body, seq) ← run_reader (read_site record) record;
  protocol_error (site_validate body);;
  Ok (body, seq).

Definition site_record_structure (record : list Z) : result unit :=
  structure_head record kSiteMagic kSiteRecordMin kSiteRecordMax;;
  let site_len := be16 record 192 in
  let member_len := be16 record 194 in
  guard_err (bool_decide (StMember < default 0 (record !! 148%nat)) || bool_decide (Z.of_nat kRlcw1CertMax < site_len) || bool_decide (Z.of_nat kRlcw1CertMax < member_len) ||
             negb (bool_decide (Z.of_nat kSiteFixedSize + site_len + member_len + 4 = Z.of_nat (length record)))) ProtocolError "rls1 structure".

Definition kSiteFormat : SealedRecordFormat :=
  mkFormat kSiteMagic kSiteSealCommitted kSiteSlotBytes kSiteRecordMin kSiteRecordMax true site_record_structure
    (λ record, site_record_decode record;; Ok tt) kRecordSchema.
End Codec.

(** ** The store *)

Record SiteStoreHealth := mkSiteHealth {
  hs_initialized : bool; hs_has_site : bool; hs_quarantined : bool; hs_uncertain : bool; hs_load_failed : bool;
  unsupported_mask : Z; read_error_mask : Z; hs_seq_floor : Z }.
Record SiteStore := mkSiteStore {
  spair_ : SealedSlotPair; site_ : SiteRecord; active_load_failed_ : bool; scrub_needed_ : bool; group_write_failed_ : bool;
  group_lifecycle_ : Z; group_lifecycle_exhausted_ : bool }.
Definition new_site_store : SiteStore := mkSiteStore (new_pair kSiteSlotBytes) no_site false false false 0 false.
Definition with_pair p s := mkSiteStore p (site_ s) (active_load_failed_ s) (scrub_needed_ s) (group_write_failed_ s) (group_lifecycle_ s) (group_lifecycle_exhausted_ s).
Definition with_site r s := mkSiteStore (spair_ s) r (active_load_failed_ s) (scrub_needed_ s) (group_write_failed_ s) (group_lifecycle_ s) (group_lifecycle_exhausted_ s).
Definition with_flags_ load scrub failed s := mkSiteStore (spair_ s) (site_ s) load scrub failed (group_lifecycle_ s) (group_lifecycle_exhausted_ s).
Definition with_scrub scrub failed s := with_flags_ (active_load_failed_ s) scrub failed s.

Definition has_site (s : SiteStore) : bool := has_active_ (spair_ s) && bool_decide (st_state (site_ s) = StMember).
Definition group_lifecycle_matches (v : Z) (s : SiteStore) : bool := negb (group_lifecycle_exhausted_ s) && bool_decide (v = group_lifecycle_ s).
Definition slot_unsupported (i : nat) (p : SealedSlotPair) : bool := bool_decide (slot_reserved_ p !! i = Some (Some Unsupported)).
Definition slot_unreadable (i : nat) (p : SealedSlotPair) : bool := bool_decide (slot_unreadable_ p !! i = Some true).
Definition mask_of (a b : bool) : Z := Z.lor (if a then 1 else 0) (if b then 2 else 0).
Definition health (s : SiteStore) : SiteStoreHealth :=
  let p := spair_ s in
  mkSiteHealth (initialized_ p) (has_site s) (quarantined_ p) (uncertain_ p) (active_load_failed_ s)
    (mask_of (slot_unsupported 0 p) (slot_unsupported 1 p)) (mask_of (slot_unreadable 0 p) (slot_unreadable 1 p)) (seq_floor_ p).

Definition high_epoch (r : SiteRecord) : Z := if bool_decide (gk_epoch_next r = 0) then gk_epoch_current r else gk_epoch_next r.

(** [check_member] *)
Definition check_member (s : SiteStore) (r : SiteRecord) : result unit :=
  guard_err (negb (initialized_ (spair_ s))) InvalidState "site store not initialized";;
  guard_err (group_write_failed_ s) RecoveryRequired "group scrub required";;
  guard_err (active_load_failed_ s) StorageFailure "site active record unreadable";;
  guard_err (negb (bool_decide (st_state r = StMember))) InvalidArgument "site commit needs a member record";;
  if has_site s then
    let cur := site_ s in
    guard_err (negb (bool_decide (st_site_id r = st_site_id cur))) Conflict "site changed without removal";;
    guard_err (bool_decide (site_epoch (st_network r) < site_epoch (st_network cur)) ||
               (bool_decide (site_epoch (st_network r) = site_epoch (st_network cur)) && negb (bool_decide (st_network r = st_network cur)))) Conflict "site epoch regressed";;
    guard_err (bool_decide (st_network r = st_network cur) &&
               (bool_decide (high_epoch r < high_epoch cur) ||
                (bool_decide (gk_epoch_current r = gk_epoch_current cur) && negb (bool_decide (gk_current r = gk_current cur))) ||
                (negb (bool_decide (gk_epoch_next r = 0)) && bool_decide (gk_epoch_next r = gk_epoch_next cur) && negb (bool_decide (gk_next r = gk_next cur)))))
      Conflict "group key floor or identity changed";;
    guard_err (bool_decide (st_generation r < st_generation cur) || bool_decide (gk_epoch_current r < gk_epoch_current cur) ||
               bool_decide (st_rs_floor r < st_rs_floor cur) || bool_decide (st_boot_witness r < st_boot_witness cur)) Conflict "site record regressed"
  else Ok tt.

Definition stage_record (epoch : Z) (key : list Z) (r : SiteRecord) : SiteRecord :=
  mkSiteRecord (st_state r) (st_site_id r) (st_network r) (st_generation r) (st_rs_floor r) (gk_epoch_current r) epoch (gk_current r) key (dams r)
    (st_role r) (gateway_count r) (st_channel r) (st_channel_epoch r) (st_boot_witness r) (gateways r) (site_cert r) (member_cert r).
Definition activate_record (epoch witness : Z) (r : SiteRecord) : SiteRecord :=
  mkSiteRecord (st_state r) (st_site_id r) (st_network r) (st_generation r) (st_rs_floor r) epoch 0 (gk_next r) zero_key (dams r)
    (st_role r) (gateway_count r) (st_channel r) (st_channel_epoch r) witness (gateways r) (site_cert r) (member_cert r).
Definition raise_record (floor : Z) (r : SiteRecord) : SiteRecord :=
  mkSiteRecord (st_state r) (st_site_id r) (st_network r) (st_generation r) floor (gk_epoch_current r) (gk_epoch_next r) (gk_current r) (gk_next r) (dams r)
    (st_role r) (gateway_count r) (st_channel r) (st_channel_epoch r) (st_boot_witness r) (gateways r) (site_cert r) (member_cert r).

Section Store.
Context (cert_decode : list Z → result CertClaims) {ST : Type} `{RecordSlotStorage ST} (sha256 : list Z → list Z).
Definition SiteM := M (SiteStore * ST).
Definition store_ : SiteM SiteStore := λ s, (Ok (fst s), s).
Definition set_store (g : SiteStore → SiteStore) : SiteM unit := λ s, (Ok tt, (g (fst s), snd s)).
Definition on_site_pair {A} (m : M (SealedSlotPair * ST) A) : SiteM A := λ s,
  let '(r, (p, st)) := m (spair_ (fst s), snd s) in (r, (with_pair p (fst s), st)).
Definition attempt {A} (m : SiteM A) : SiteM (result A) := λ s, let '(r, s') := m s in (Ok r, s').
Abbreviation fmt := (kSiteFormat cert_decode).

Definition wipe_scratch : SiteM unit := set_store (λ s, with_pair (set_scratch (replicate kSiteSlotBytes 0) (spair_ s)) s).
Definition advance_group_lifecycle (s : SiteStore) : SiteStore :=
  if bool_decide (group_lifecycle_ s = UINT64_MAX)
  then mkSiteStore (spair_ s) (site_ s) (active_load_failed_ s) (scrub_needed_ s) (group_write_failed_ s) (group_lifecycle_ s) true
  else mkSiteStore (spair_ s) (site_ s) (active_load_failed_ s) (scrub_needed_ s) (group_write_failed_ s) (group_lifecycle_ s + 1) (group_lifecycle_exhausted_ s).

Definition initialize : SiteM unit :=
  set_store (λ s, with_flags_ false false false (advance_group_lifecycle s));;
  status ← attempt (on_site_pair (SealedSlots.initialize sha256 fmt));
  set_store (with_site no_site);;
  s ← store_;
  loaded ← (if has_active_ (spair_ s) then
              attempt (record ← on_site_pair (load_active fmt); '(body, _) ← lift (site_record_decode cert_decode record); set_store (with_site body))
            else mret (Ok tt));
  match loaded with
  | Err c d => set_store (λ s, with_site no_site (with_flags_ true (scrub_needed_ s) (group_write_failed_ s) s));; wipe_scratch;; throw c d
  | Ok _ =>
      set_store (λ s, with_scrub (stale_sibling_ (spair_ s) && has_site s) (group_write_failed_ s) s);;
      wipe_scratch;;
      lift status
  end.

Definition encode (r : SiteRecord) : SiteM nat := λ s,
  match site_record_encode cert_decode r kSealPending 0 (scratch_ (spair_ (fst s))) with
  | Err c d => (Err c d, s)
  | Ok (n, bytes) => (Ok n, (with_pair (set_scratch bytes (spair_ (fst s))) (fst s), snd s))
  end.
Definition fingerprint (r : SiteRecord) : SiteM (list Z) := λ s,
  let '(status, s1) := encode r s in
  let digest := match status with Ok n => Ok (sha256 (take n (scratch_ (spair_ (fst s1))))) | Err c d => Err c d end in
  (digest, snd (wipe_scratch s1)).

(** Encode, commit to one slot or to both, wipe the buffer. *)
Definition write_record (twin : bool) (r : SiteRecord) : SiteM unit := λ s,
  let '(status, s1) := (n ← encode r; on_site_pair (if twin then commit_twin_prepared sha256 fmt n else commit_prepared sha256 fmt n)) s in
  (status, snd (wipe_scratch s1)).

Definition commit (r : SiteRecord) : SiteM unit :=
  s ← store_;
  lift (check_member s r);;
  write_record false r;;
  set_store (with_site r).
Definition consolidate (r : SiteRecord) : SiteM unit :=
  s ← store_;
  lift (check_member s r);;
  fail_if (quarantined_ (spair_ s) || uncertain_ (spair_ s)) RecoveryRequired "site store impaired";;
  write_record true r;;
  set_store (with_site r).

Definition group_blocked (s : SiteStore) : bool :=
  negb (has_site s) || scrub_needed_ s || group_write_failed_ s || uncertain_ (spair_ s) || quarantined_ (spair_ s).

Definition stage_group_key (epoch : Z) (key : list Z) : SiteM unit :=
  s ← store_;
  let r := site_ s in
  fail_if (group_blocked s) RecoveryRequired "group store not ready";;
  if bool_decide (epoch = gk_epoch_current r) && bool_decide (key = gk_current r) then mret tt
  else if bool_decide (epoch = gk_epoch_next r) && bool_decide (key = gk_next r) then mret tt
  else
    fail_if (bool_decide (epoch ≤ high_epoch r)) Conflict "group epoch not new";;
    fail_if (all_zero key) Conflict "group key empty";;
    let candidate := stage_record epoch key r in
    status ← attempt (if bool_decide (gk_epoch_next r = 0) then commit candidate
                      else
                        written ← attempt (write_record true candidate);
                        match written with
                        | Ok _ => set_store (λ s, with_scrub false (group_write_failed_ s) (with_site candidate s))
                        | Err c d => set_store (λ s, with_scrub true (group_write_failed_ s) s);; throw c d
                        end);
    match status with
    | Ok _ => mret tt
    | Err c d => set_store (λ s, with_scrub (scrub_needed_ s) true s);; throw c d
    end.

Definition activate_group_key (epoch witness : Z) : SiteM unit :=
  s ← store_;
  let r := site_ s in
  fail_if (group_blocked s) RecoveryRequired "group store not ready";;
  if bool_decide (epoch = gk_epoch_current r) && bool_decide (gk_epoch_next r = 0) && bool_decide (witness ≤ st_boot_witness r) then mret tt
  else
    fail_if (negb (bool_decide (epoch = gk_epoch_next r)) || bool_decide (witness < st_boot_witness r)) Conflict "group activation mismatch";;
    let candidate := activate_record epoch witness r in
    written ← attempt (write_record true candidate);
    match written with
    | Ok _ => set_store (λ s, with_scrub false false (with_site candidate s))
    | Err c d => set_store (with_scrub true true);; throw c d
    end.

Definition finish_group_scrub : SiteM unit :=
  s ← store_;
  fail_if (group_write_failed_ s) RecoveryRequired "group re-read required";;
  if negb (scrub_needed_ s) then mret tt
  else
    let h := health s in
    fail_if (negb (hs_has_site h) || hs_quarantined h || hs_uncertain h || negb (bool_decide (unsupported_mask h = 0)) || negb (bool_decide (read_error_mask h = 0)) ||
             hs_load_failed h || negb (stale_sibling_ (spair_ s)) || negb (bool_decide (hs_seq_floor h = active_seq_ (spair_ s))))
      RecoveryRequired "group scrub floor unproven";;
    write_record true (site_ s);;
    set_store (with_scrub false false).

Definition raise_rs_floor (epoch : Z) : SiteM unit :=
  s ← store_;
  fail_if (negb (initialized_ (spair_ s))) InvalidState "site store not initialized";;
  fail_if (negb (has_site s)) InvalidState "site store has no member record";;
  fail_if (group_write_failed_ s) RecoveryRequired "group scrub required";;
  fail_if (quarantined_ (spair_ s)) IntegrityError "site store quarantined";;
  fail_if (uncertain_ (spair_ s)) RecoveryRequired "site store storage uncertain";;
  fail_if (bool_decide (epoch < st_rs_floor (site_ s))) Conflict "site rs floor regressed";;
  if bool_decide (epoch = st_rs_floor (site_ s)) then mret tt
  else
    write_record false (raise_record epoch (site_ s));;
    set_store (with_site (raise_record epoch (site_ s))).

Definition clear : SiteM unit :=
  set_store advance_group_lifecycle;;
  written ← attempt (write_record true no_site);
  match written with
  | Ok _ => set_store (λ s, with_scrub false false (with_site no_site s))
  | Err c d => set_store (λ s, with_scrub (scrub_needed_ s) true s);; throw c d
  end.

Definition recover (r : SiteRecord) : SiteM unit :=
  s ← store_;
  fail_if (active_load_failed_ s) StorageFailure "site active record unreadable";;
  fail_if (negb (quarantined_ (spair_ s)) && negb (uncertain_ (spair_ s))) InvalidState "site store not impaired";;
  fail_if (negb (bool_decide (st_state r = StMember))) InvalidArgument "site recover needs a member record";;
  set_store advance_group_lifecycle;;
  write_record true r;;
  set_store (λ s, with_scrub false false (with_site r s)).
End Store.

(** * What the operations leave *)

Section Ops.
Context (cert_decode : list Z → result CertClaims) {ST : Type} `{RecordSlotStorage ST} (sha256 : list Z → list Z).
Abbreviation validate := (site_validate cert_decode).
Abbreviation S2 := (SiteStore * ST)%type.

Definition site_ok (s : SiteStore) : Prop := validate (site_ s) = Ok tt.
Lemma no_site_valid : validate no_site = Ok tt.
Proof using. reflexivity. Qed.

(** What validation says of the epochs. *)
Lemma valid_epochs r : validate r = Ok tt → st_state r = StMember →
  gk_epoch_current r ≠ 0 ∧ (gk_epoch_next r = 0 ∨ gk_epoch_current r < gk_epoch_next r).
Proof using.
  unfold site_validate. intros Hv Hm. rewrite Hm in Hv. change (bool_decide (StMember = StCleared)) with false in Hv. cbv iota in Hv.
  apply guard_err_bind in Hv as [_ Hv]. apply guard_err_bind in Hv as [_ Hv]. apply guard_err_bind in Hv as [Hk Hv].
  rewrite !orb_false_iff, bool_decide_eq_false in Hk. split; [tauto|]. destruct (bool_decide_reflect (gk_epoch_next r = 0)); [by left|]. right.
  apply guard_err_bind in Hv as [Hx _]. rewrite orb_false_iff, bool_decide_eq_false in Hx. lia.
Qed.

(** A write touches the pair only, and what it commits was validated. *)
Lemma write_record_spec twin r (s : S2) res s' :
  write_record cert_decode sha256 twin r s = (res, s') → fst s' = with_pair (spair_ (fst s')) (fst s) ∧ (res = Ok tt → validate r = Ok tt).
Proof using.
  unfold write_record, encode, mbind, M_bind. destruct s as [s st]. cbn [fst snd].
  destruct (site_record_encode cert_decode r kSealPending 0 (scratch_ (spair_ s))) as [[n bytes]|c d] eqn:E; cbn.
  - assert (Hv : validate r = Ok tt) by (unfold site_record_encode in E; by apply result_bind_inv in E as ([] & Hv & _)).
    unfold on_site_pair. cbn [fst snd]. destruct (if twin then _ else _) as [r1 [p1 st1]]. intros [= <- <-]. done.
  - intros [= <- <-]. done.
Qed.

Lemma advance_lifecycle_site s : site_ (advance_group_lifecycle s) = site_ s.
Proof using. unfold advance_group_lifecycle. by case_bool_decide. Qed.

Ltac store_unfold := unfold mbind, M_bind, store_, set_store, fail_if, throw, lift, mret, M_ret, attempt; cbn [fst snd].

(** The record after each operation. *)
Lemma site_commit_spec r (s : S2) res s' :
  commit cert_decode sha256 r s = (res, s') →
  (res = Ok tt ∧ fst s' = with_pair (spair_ (fst s')) (with_site r (fst s)) ∧ validate r = Ok tt ∧ check_member (fst s) r = Ok tt) ∨
  (res ≠ Ok tt ∧ fst s' = with_pair (spair_ (fst s')) (fst s)).
Proof using.
  unfold commit. store_unfold. destruct (check_member (fst s) r) as [[]|c d] eqn:Hc; [|intros [= <- <-]; right; split; [done|]; by destruct s as [[]]].
  destruct (write_record cert_decode sha256 false r s) as [rw s1] eqn:Ew. destruct (write_record_spec _ _ _ _ _ Ew) as [H1 H2]. destruct s1 as [s1 st1]. cbn [fst snd] in *.
  destruct rw as [[]|c d]; intros [= <- <-]; [left|by right]. split_and!; [done| |by apply H2|done]. cbn [fst]. rewrite H1 at 1. done.
Qed.
Lemma consolidate_spec r (s : S2) res s' :
  consolidate cert_decode sha256 r s = (res, s') →
  (res = Ok tt ∧ fst s' = with_pair (spair_ (fst s')) (with_site r (fst s)) ∧ validate r = Ok tt ∧ check_member (fst s) r = Ok tt) ∨
  (res ≠ Ok tt ∧ fst s' = with_pair (spair_ (fst s')) (fst s)).
Proof using.
  unfold consolidate. store_unfold. assert (Hid : ∀ x : S2, fst x = with_pair (spair_ (fst x)) (fst x)) by (by intros [[]]).
  destruct (check_member (fst s) r) as [[]|c d] eqn:Hc; [|intros [= <- <-]; by right]. destruct (_ || _); [intros [= <- <-]; by right|].
  destruct (write_record cert_decode sha256 true r s) as [rw s1] eqn:Ew. destruct (write_record_spec _ _ _ _ _ Ew) as [H1 H2]. destruct s1 as [s1 st1]. cbn [fst snd] in *.
  destruct rw as [[]|c d]; intros [= <- <-]; [left|by right]. split_and!; [done| |by apply H2|done]. cbn [fst]. rewrite H1 at 1. done.
Qed.

(** Activation. *)
Lemma activate_spec epoch witness (s : S2) res s' :
  activate_group_key cert_decode sha256 epoch witness s = (res, s') →
  group_lifecycle_ (fst s') = group_lifecycle_ (fst s) ∧
  match res with
  | Ok _ => (site_ (fst s') = site_ (fst s) ∧ epoch = gk_epoch_current (site_ (fst s)) ∧ gk_epoch_next (site_ (fst s)) = 0) ∨
            (site_ (fst s') = activate_record epoch witness (site_ (fst s)) ∧ epoch = gk_epoch_next (site_ (fst s)) ∧ validate (site_ (fst s')) = Ok tt)
  | Err _ _ => site_ (fst s') = site_ (fst s) ∧ (group_write_failed_ (fst s') = true ∨ fst s' = fst s)
  end ∧ (res = Ok tt → has_site (fst s) = true).
Proof using.
  unfold activate_group_key. store_unfold. destruct (group_blocked (fst s)) eqn:Hgb; [intros [= <- <-]; split_and!; try done; by right|].
  assert (Hsite : has_site (fst s) = true) by (unfold group_blocked in Hgb; rewrite !orb_false_iff, negb_false_iff in Hgb; tauto).
  destruct (_ && _ && _) eqn:Hid; [rewrite !andb_true_iff, !bool_decide_eq_true in Hid; intros [= <- <-]; split_and!; try done; left; split_and!; tauto|].
  destruct (_ || _) eqn:Hm; [intros [= <- <-]; split_and!; try done; by right|]. apply orb_false_iff in Hm as [Hm _]. apply negb_false_iff, bool_decide_eq_true in Hm.
  destruct (write_record cert_decode sha256 true _ s) as [rw s1] eqn:Ew. destruct (write_record_spec _ _ _ _ _ Ew) as [H1 H2]. destruct s1 as [s1 st1]. cbn [fst snd] in *. rewrite H1.
  destruct rw as [[]|c d]; intros [= <- <-]; cbn [fst]; split_and!; try done; [right|by left]. split_and!; [done|done|by apply H2].
Qed.

(** Staging. *)
Lemma stage_spec epoch key (s : S2) res s' :
  stage_group_key cert_decode sha256 epoch key s = (res, s') →
  group_lifecycle_ (fst s') = group_lifecycle_ (fst s) ∧
  match res with
  | Ok _ => site_ (fst s') = site_ (fst s) ∨ (site_ (fst s') = stage_record epoch key (site_ (fst s)) ∧ high_epoch (site_ (fst s)) < epoch ∧ validate (site_ (fst s')) = Ok tt)
  | Err _ _ => site_ (fst s') = site_ (fst s)
  end.
Proof using.
  unfold stage_group_key. store_unfold. destruct (group_blocked (fst s)); [by intros [= <- <-]|].
  destruct (_ && _); [intros [= <- <-]; by split; [|left]|]. destruct (_ && _); [intros [= <- <-]; by split; [|left]|].
  destruct (bool_decide_reflect (epoch ≤ high_epoch (site_ (fst s)))) as [|Hh]; [by intros [= <- <-]|]. destruct (all_zero key); [by intros [= <- <-]|].
  destruct (bool_decide _).
  - destruct (commit cert_decode sha256 _ s) as [rc s1] eqn:Ec. destruct (site_commit_spec _ _ _ _ Ec) as [(-> & Hs & Hv & _)|[Hn Hs]]; rewrite ?Hs in *.
    + intros [= <- <-]. rewrite Hs. split; [done|right]. split_and!; [done|lia|done].
    + destruct rc as [[]|c d]; [done|]. destruct s1 as [s1 st1]. cbn [fst snd] in *. intros [= <- <-]. cbn [fst]. by rewrite Hs.
  - destruct (write_record cert_decode sha256 true _ s) as [rw s1] eqn:Ew. destruct (write_record_spec _ _ _ _ _ Ew) as [H1 H2]. destruct s1 as [s1 st1]. cbn [fst snd] in *. rewrite H1.
    destruct rw as [[]|c d]; intros [= <- <-]; cbn [fst]; split; try done. right. split_and!; [done|lia|by apply H2].
Qed.

Lemma scrub_spec (s : S2) res s' : finish_group_scrub cert_decode sha256 s = (res, s') → site_ (fst s') = site_ (fst s) ∧ group_lifecycle_ (fst s') = group_lifecycle_ (fst s).
Proof using.
  unfold finish_group_scrub. store_unfold. destruct (group_write_failed_ (fst s)); [by intros [= <- <-]|]. destruct (negb (scrub_needed_ (fst s))); [by intros [= <- <-]|].
  destruct (_ || _); [by intros [= <- <-]|]. destruct (write_record cert_decode sha256 true _ s) as [rw s1] eqn:Ew. destruct (write_record_spec _ _ _ _ _ Ew) as [H1 _]. destruct s1 as [s1 st1]. cbn [fst snd] in *. rewrite H1.
  destruct rw as [[]|c d]; by intros [= <- <-].
Qed.

(** ** Every operation *)

Inductive SiteOp := SInitialize | SCommit (r : SiteRecord) | SConsolidate (r : SiteRecord) | SRaise (epoch : Z) | SScrub | SClear | SRecover (r : SiteRecord).
Definition site_op (op : SiteOp) : SiteM unit :=
  match op with
  | SInitialize => initialize cert_decode sha256
  | SCommit r => commit cert_decode sha256 r
  | SConsolidate r => consolidate cert_decode sha256 r
  | SRaise epoch => raise_rs_floor cert_decode sha256 epoch
  | SScrub => finish_group_scrub cert_decode sha256
  | SClear => clear cert_decode sha256
  | SRecover r => recover cert_decode sha256 r
  end.

Lemma written_site_ok r (x y : SiteStore) : validate r = Ok tt → site_ y = r → site_ok y.
Proof using. unfold site_ok. by intros ? ->. Qed.

Lemma initialize_site_ok (s : S2) : site_ok (fst (snd (initialize cert_decode sha256 s))).
Proof using.
  unfold initialize, wipe_scratch. store_unfold. destruct (on_site_pair _ _) as [r1 s1]. cbn [fst snd].
  destruct (has_active_ _); [|cbn; apply no_site_valid]. destruct (on_site_pair (load_active _) _) as [[record|c d] s2] eqn:E2; cbn [fst snd]; [|apply no_site_valid].
  destruct (site_record_decode cert_decode record) as [[body seq]|c d] eqn:Ed; cbn [fst snd]; [|apply no_site_valid].
  unfold site_record_decode in Ed. apply result_bind_inv in Ed as ([b q] & _ & Ed). apply result_bind_inv in Ed as ([] & Hv & [= <- <-]).
  unfold protocol_error in Hv. unfold site_ok. cbn. destruct (validate b) as [[]|[] ?]; done.
Qed.

Lemma site_op_ok op (s : S2) : site_ok (fst s) → site_ok (fst (snd (site_op op s))).
Proof using.
  intros Hs. destruct op; cbn [site_op].
  - apply initialize_site_ok.
  - destruct (commit cert_decode sha256 r s) as [res s'] eqn:E. cbn [snd]. destruct (site_commit_spec _ _ _ _ E) as [(_ & -> & Hv & _)|[_ ->]]; done.
  - destruct (consolidate cert_decode sha256 r s) as [res s'] eqn:E. cbn [snd]. destruct (consolidate_spec _ _ _ _ E) as [(_ & -> & Hv & _)|[_ ->]]; done.
  - unfold raise_rs_floor. store_unfold. destruct (negb (initialized_ _)); [done|]. destruct (negb (has_site _)); [done|]. destruct (group_write_failed_ _); [done|].
    destruct (quarantined_ _); [done|]. destruct (uncertain_ _); [done|]. do 2 (destruct (bool_decide _); [done|]). destruct (write_record _ _ _ _ _) as [rw s1] eqn:Ew.
    destruct (write_record_spec _ _ _ _ _ Ew) as [Hx Hy]. destruct s1 as [s1 st1]. cbn [fst snd] in *. destruct rw as [[]|c d]; unfold site_ok; cbn; [by apply Hy|]. by rewrite Hx.
  - destruct (finish_group_scrub cert_decode sha256 s) as [res s'] eqn:E. destruct (scrub_spec _ _ _ E) as [Hx _]. unfold site_ok. cbn [snd]. by rewrite Hx.
  - unfold clear. store_unfold. destruct (write_record _ _ _ _ _) as [rw s1] eqn:Ew. destruct (write_record_spec _ _ _ _ _ Ew) as [Hx _]. cbn [fst snd] in Hx.
    destruct rw as [[]|c d]; cbn; [apply no_site_valid|]. unfold site_ok. cbn. rewrite Hx. cbn. by rewrite advance_lifecycle_site.
  - unfold recover. store_unfold. destruct (active_load_failed_ _); [done|]. destruct (_ && _); [done|]. destruct (negb _); [done|]. cbn [fst snd].
    destruct (write_record _ _ _ _ _) as [rw s1] eqn:Ew. destruct (write_record_spec _ _ _ _ _ Ew) as [Hx Hy]. cbn [fst snd] in Hx.
    destruct rw as [[]|c d]; unfold site_ok; cbn; [by apply Hy|]. rewrite Hx. cbn. by rewrite advance_lifecycle_site.
Qed.
End Ops.
