(* ===== verification/SiteRecordProps.v ===== *)
(** * The site record: encoding and decoding *)

From S2P Require Import Prelude Types ByteIO Crc32 SealedSlots SealedSlotsProps LocalRevocation SiteStore.

(** ** The bytes of a record *)

Definition cat_ids (ids : list NodeId) : list Z := concat (be_bytes 8 <$> ids).
Definition site_fields (r : SiteRecord) : list Z :=
  be_bytes 8 (st_site_id r) ++ be_bytes 8 (st_network r) ++ be_bytes 4 (st_generation r) ++ be_bytes 4 (st_rs_floor r) ++ be_bytes 4 (gk_epoch_current r) ++
  be_bytes 4 (gk_epoch_next r) ++ gk_current r ++ gk_next r ++ dams r.
Definition site_tail (r : SiteRecord) : list Z :=
  [st_state r] ++ [st_role r] ++ [gateway_count r] ++ [st_channel r] ++ be_bytes 4 (st_channel_epoch r) ++ be_bytes 4 (st_boot_witness r) ++ cat_ids (gateways r).
Definition site_lens (r : SiteRecord) : list Z := be_bytes 2 (Z.of_nat (length (site_cert r))) ++ be_bytes 2 (Z.of_nat (length (member_cert r))).
Definition site_head (r : SiteRecord) (seal : Z) : list Z :=
  be_bytes 4 kSiteMagic ++ be_bytes 2 kRecordFormat ++ be_bytes 2 (Z.of_nat (site_encoded_size r)) ++ be_bytes 4 kRecordSchema ++ be_bytes 4 seal.
Definition site_unsigned (r : SiteRecord) (seal seq : Z) : list Z :=
  site_head r seal ++ be_bytes 4 seq ++ site_fields r ++ site_tail r ++ site_lens r ++ site_cert r ++ member_cert r.
Definition site_bytes (r : SiteRecord) (seal seq : Z) : list Z := site_unsigned r seal seq ++ be_bytes 4 (crc32_iso_hdlc (site_unsigned r seal seq)).

(** The widths of the fields. *)
Record site_typed (r : SiteRecord) : Prop := {
  sy_site : is_u64 (st_site_id r); sy_network : is_u64 (st_network r); sy_generation : is_u32 (st_generation r); sy_rs : is_u32 (st_rs_floor r);
  sy_epoch : is_u32 (gk_epoch_current r); sy_next : is_u32 (gk_epoch_next r);
  sy_key : length (gk_current r) = 32%nat ∧ bytes_ok (gk_current r); sy_key_next : length (gk_next r) = 32%nat ∧ bytes_ok (gk_next r); sy_dams : length (dams r) = 32%nat ∧ bytes_ok (dams r);
  sy_state : is_u8 (st_state r); sy_role : is_u8 (st_role r); sy_count : is_u8 (gateway_count r); sy_channel : is_u8 (st_channel r);
  sy_channel_epoch : is_u32 (st_channel_epoch r); sy_witness : is_u32 (st_boot_witness r);
  sy_gateways : length (gateways r) = kSiteGatewayMax ∧ Forall is_u64 (gateways r);
  sy_certs : bytes_ok (site_cert r) ∧ bytes_ok (member_cert r) }.

Lemma cat_ids_length ids : length (cat_ids ids) = (8 * length ids)%nat.
Proof. induction ids as [|g ids IH]; [done|]. unfold cat_ids in *. cbn [fmap list_fmap concat length]. rewrite length_app, length_be_bytes, IH. lia. Qed.
Lemma cat_ids_bytes ids : bytes_ok (cat_ids ids).
Proof. induction ids as [|g ids IH]; [constructor|]. apply Forall_app. split; [apply be_bytes_ok|done]. Qed.
Lemma emits_ids ids : emits (write_ids ids) (cat_ids ids).
Proof. induction ids as [|g ids IH]; [apply emits_ret|]. unfold cat_ids. cbn [write_ids fmap list_fmap concat]. eapply emits_bind; [apply emits_u64|]. intros _. exact IH. Qed.
Lemma consumes_ids n ids : length ids = n → Forall is_u64 ids → consumes (read_ids n) (cat_ids ids) ids.
Proof.
  intros <-. induction 1 as [|g ids Hg Hids IH]; [apply consumes_ret|]. cbn [length read_ids]. unfold cat_ids. cbn [fmap list_fmap concat]. eapply consumes_bind; [by apply consumes_u64|].
  rewrite <- (app_nil_r (concat _)). eapply consumes_bind; [exact IH|]. apply consumes_ret.
Qed.
#[local] Hint Resolve emits_ids consumes_ids : codec.

(** One step of a writer with room, and of a reader. *)
Lemma writes_then m bs (k : unit → M ByteWriter unit) pre x :
  emits m bs → (length bs ≤ length x)%nat → (m ≫= k) (Writer (Some (pre ++ x)) (length pre)) = k tt (Writer (Some ((pre ++ bs) ++ drop (length bs) x)) (length (pre ++ bs))).
Proof.
  intros Hm Hl. rewrite <- (take_drop (length bs) x) at 1. erewrite M_bind_ok; [|apply Hm; rewrite length_take; lia]. by rewrite <- app_assoc.
Qed.
Lemma reads_then {A B} (m : M ByteReader A) (k : A → M ByteReader B) bs a pre rest :
  consumes m bs a → (m ≫= k) (Reader (Some (pre ++ bs ++ rest)) (length pre)) = k a (Reader (Some ((pre ++ bs) ++ rest)) (length (pre ++ bs))).
Proof. intros Hm. erewrite M_bind_ok; [|apply Hm]. by rewrite <- app_assoc. Qed.

Section Record.
Context (cert_decode : list Z → result CertClaims) (r : SiteRecord) (Ht : site_typed r) (Hv : site_validate cert_decode r = Ok tt).

(** A validated record has certificates that fit. *)
Lemma valid_certs : (length (site_cert r) ≤ kRlcw1CertMax)%nat ∧ (length (member_cert r) ≤ kRlcw1CertMax)%nat ∧ st_state r ≤ StMember.
Proof using Hv.
  unfold site_validate in Hv. destruct (bool_decide_reflect (st_state r = StCleared)) as [Hc|_].
  - unfold guard_err in Hv. destruct (tombstone_zero r) eqn:Hz; [|done]. unfold tombstone_zero in Hz. rewrite !andb_true_iff in Hz. destruct Hz as [[[_ ->%bool_decide_eq_true] ->%bool_decide_eq_true] _].
    unfold kRlcw1CertMax, StMember, StCleared in *. lia.
  - pose proof Hv as Hw. apply guard_err_bind in Hw as [Hs Hw]. apply negb_false_iff, bool_decide_eq_true in Hs. do 2 apply guard_err_bind in Hw as [_ Hw]. apply result_bind_inv in Hw as ([] & _ & Hw).
    apply guard_err_bind in Hw as [_ Hw]. apply result_bind_inv in Hw as ([] & _ & Hw). apply guard_err_bind in Hw as [Hl _]. rewrite !orb_false_iff, !Nat.ltb_ge in Hl. split_and!; [tauto..|lia].
Qed.

Lemma encoded_size : site_encoded_size r = (200 + length (site_cert r) + length (member_cert r))%nat ∧ (site_encoded_size r ≤ kSiteRecordMax)%nat.
Proof using Hv.
  destruct valid_certs as (H1 & H2 & _). unfold site_encoded_size. rewrite (proj2 (Nat.ltb_ge _ _) H1), (proj2 (Nat.ltb_ge _ _) H2). cbn [orb]. unfold kSiteFixedSize, kSiteRecordMax, kRlcw1CertMax, kSiteFixedSize in *. lia.
Qed.
Lemma fields_length : length (site_fields r) = 128%nat ∧ length (site_tail r) = 44%nat ∧ length (site_lens r) = 4%nat.
Proof using Ht.
  destruct Ht as [_ _ _ _ _ _ [K1 _] [K2 _] [K3 _] _ _ _ _ _ _ [K4 _] _]. unfold site_fields, site_tail, site_lens. rewrite !length_app, !length_be_bytes, K1, K2, K3, cat_ids_length, K4. done.
Qed.
Lemma unsigned_length seal q : length (site_unsigned r seal q) = (site_encoded_size r - 4)%nat.
Proof using Ht Hv.
  destruct encoded_size as [-> _]. destruct fields_length as (F1 & F2 & F3). unfold site_unsigned, site_head. rewrite !length_app, !length_be_bytes, F1, F2, F3. lia.
Qed.
Lemma len16 : is_u16 (Z.of_nat (length (site_cert r))) ∧ is_u16 (Z.of_nat (length (member_cert r))) ∧ is_u16 (Z.of_nat (site_encoded_size r)).
Proof using Hv.
  destruct valid_certs as (H1 & H2 & _). destruct encoded_size as [_ H3]. unfold in_range, kSiteRecordMax, kRlcw1CertMax, kSiteFixedSize in *. lia.
Qed.

Lemma emits_site : emits (site_body_write r) (site_fields r ++ site_tail r ++ site_lens r ++ site_cert r ++ member_cert r).
Proof using Hv.
  destruct len16 as (H1 & H2 & _). unfold site_body_write, site_fields, site_tail, site_lens. rewrite <- !app_assoc. rewrite !wrap_id by done. emit_steps.
Qed.
Lemma emits_site_head seal : emits (write_head kSiteMagic (site_encoded_size r) seal kRecordSchema) (site_head r seal).
Proof using Hv. destruct len16 as (_ & _ & H3). unfold write_head, site_head. rewrite wrap_id by done. emit_steps. Qed.

Lemma site_encode seal q out : seal = kSealPending ∨ seal = kSiteSealCommitted → (site_encoded_size r ≤ length out)%nat →
  site_record_encode cert_decode r seal q out = Ok (site_encoded_size r, site_bytes r seal q ++ drop (site_encoded_size r) out).
Proof using Ht Hv.
  intros Hseal Hout. unfold site_record_encode. rewrite Hv, bind_Ok, guard_pass. 2: { destruct Hseal as [-> | ->]; reflexivity. }
  destruct encoded_size as [Hsz _]. pose proof (unsigned_length seal q) as Hu. destruct fields_length as (F1 & F2 & F3). unfold run_writer.
  change (Writer (Some out) 0) with (Writer (Some ([] ++ out)) (length (@nil Z))).
  assert (Hh : length (site_head r seal) = 16%nat) by (unfold site_head; by rewrite !length_app, !length_be_bytes).
  rewrite (writes_then _ _ _ _ _ (emits_site_head seal)) by lia. rewrite (writes_then _ _ _ _ _ (emits_u32 q)) by (rewrite length_drop, length_be_bytes; lia).
  rewrite (writes_then _ _ _ _ _ emits_site) by (rewrite !length_drop, length_be_bytes, !length_app; lia). rewrite !drop_drop.
  set (m := (([] ++ site_head r seal) ++ be_bytes 4 q) ++ _). assert (Em : m = site_unsigned r seal q) by (unfold m, site_unsigned; rewrite app_nil_l, <- !app_assoc; done).
  set (n := (_ + _)%nat). assert (En : n = (site_encoded_size r - 4)%nat) by (unfold n; rewrite !length_app, length_be_bytes, Hh, F1, F2, F3; lia). rewrite Em, En. clear m n Em En.
  set (m := site_unsigned r seal q) in *. unfold finish_crc, Writer.size. cbn [w_offset w_target default]. rewrite Hu, Nat.eqb_refl. cbn [negb]. change (id ?x) with x. rewrite <- Hu, take_app_length.
  pose proof (writes_then _ _ mret m (drop (length m) out) (emits_u32 (crc32_iso_hdlc m))) as He. rewrite length_drop, length_be_bytes in He. specialize (He ltac:(lia)).
  assert (Hret : ∀ w, (Writer.write_u32 (crc32_iso_hdlc m) ≫= mret) w = Writer.write_u32 (crc32_iso_hdlc m) w) by (intros w; unfold mbind, M_bind, mret, M_ret; by destruct (Writer.write_u32 _ w) as [[[]|] ?]).
  rewrite Hret in He. rewrite He. unfold mret, M_ret. cbn [w_offset w_target default]. rewrite length_app, length_be_bytes, drop_drop, Hu.
  replace (site_encoded_size r - 4 + 4)%nat with (site_encoded_size r) by lia. done.
Qed.

(** ** Reading it back *)

Context (q : Z) (Hq : is_u32 q).
Abbreviation record := (site_bytes r kSiteSealCommitted q).

Lemma site_bytes_length : length record = site_encoded_size r.
Proof using Ht Hv. unfold site_bytes. rewrite length_app, length_be_bytes, unsigned_length. destruct (encoded_size). lia. Qed.
Lemma unsigned_bytes seal : bytes_ok (site_unsigned r seal q).
Proof using Ht.
  destruct Ht as [_ _ _ _ _ _ [_ K1] [_ K2] [_ K3] S1 S2 S3 S4 _ _ _ [C1 C2]]. unfold site_unsigned, site_head, site_fields, site_tail, site_lens, bytes_ok. rewrite !Forall_app.
  split_and!; try done; try apply be_bytes_ok; try apply cat_ids_bytes; by constructor.
Qed.
Lemma site_crc : crc32_iso_hdlc (take (length record - 4) record) = be32 record (length record - 4).
Proof using Ht Hv.
  rewrite site_bytes_length, <- (unsigned_length kSiteSealCommitted q). unfold site_bytes. rewrite take_app_length, <- (app_nil_r (be_bytes 4 _)) at 1.
  rewrite be32_at by apply length_be_bytes. symmetry. apply be_value4. apply crc32_range, unsigned_bytes.
Qed.

Lemma reads_head : consumes (read_head record kSiteMagic kSiteSealCommitted kSiteRecordMin kSiteRecordMax kRecordSchema) (site_head r kSiteSealCommitted) tt.
Proof using Ht Hv.
  destruct len16 as (_ & _ & Hl). destruct encoded_size as [Hs Hm]. unfold read_head, site_head. rewrite <- (app_nil_r (be_bytes 4 kSiteSealCommitted)).
  assert (is_u32 kSiteMagic) by done. assert (is_u16 kRecordFormat) by done. assert (is_u32 kRecordSchema) by done. assert (is_u32 kSiteSealCommitted) by done.
  repeat (eapply consumes_bind; [solve [eauto with codec]|]). rewrite site_crc, !site_bytes_length.
  eapply consumes_pass; [apply consumes_check|]. { rewrite !orb_false_iff, !negb_false_iff, !bool_decide_eq_true, !bool_decide_eq_false. unfold kSiteRecordMin, kSiteFixedSize in *. split_and!; try done; lia. }
  eapply consumes_pass; [by apply consumes_check|]. eapply consumes_pass; [apply consumes_check; by rewrite bool_decide_eq_true_2|]. by apply consumes_check.
Qed.

Ltac read_step := etransitivity; [apply reads_then; solve [eauto with codec]|]; cbv beta.
Lemma reads_site pre crc : length crc = 4%nat →
  ∃ rd, site_body_read (Reader (Some (pre ++ site_fields r ++ site_tail r ++ site_lens r ++ site_cert r ++ member_cert r ++ crc)) (length pre)) = (Ok r, rd).
Proof using Ht Hv.
  intros Hc. destruct valid_certs as (V1 & V2 & V3). destruct len16 as (L1 & L2 & _). destruct Ht as [? ? ? ? ? ? [K1 _] [K2 _] [K3 _] ? ? ? ? ? ? [K4 K5] _].
  unfold site_body_read, site_fields, site_tail, site_lens. rewrite <- !app_assoc. eexists. do 18 read_step.
  set (p := (_ ++ be_bytes 2 (Z.of_nat (length (member_cert r))))). unfold mbind at 1, M_bind at 1, reader_left, Reader.remaining. cbn [r_source r_offset fmap option_fmap option_map default].
  assert (Hleft : (length (p ++ site_cert r ++ member_cert r ++ crc) - length p)%nat = (length (site_cert r) + length (member_cert r) + 4)%nat) by (rewrite !length_app; lia).
  change (id ?x) with x. rewrite Hleft. unfold mbind at 1, M_bind at 1, fail_if. rewrite bool_decide_eq_false_2 by lia. rewrite !(bool_decide_eq_false_2 (Z.of_nat kRlcw1CertMax < _)) by lia. rewrite bool_decide_eq_true_2 by lia. cbn [negb orb].
  unfold mret at 1, M_ret at 1. rewrite !Nat2Z.id. do 2 read_step. unfold mret, M_ret. by destruct r.
Qed.

Lemma site_decode : site_record_decode cert_decode record = Ok (r, q).
Proof using Ht Hv Hq.
  unfold site_record_decode. assert (Hr : run_reader (read_site record) record = Ok (r, q)).
  { unfold run_reader, read_site. rewrite site_bytes_length. destruct encoded_size as [Hs _]. rewrite (proj2 (Nat.ltb_ge _ _)) by lia. unfold mbind at 1, M_bind at 1, fail_if, mret at 1, M_ret at 1.
    pose proof reads_head as Hh. unfold site_bytes at 2, site_unsigned at 1. rewrite <- !app_assoc. match goal with |- fst (_ (Reader (Some ?l) 0)) = _ => change (Reader (Some l) 0) with (Reader (Some ([] ++ l)) (length (@nil Z))) end.
    erewrite reads_then by exact Hh. erewrite reads_then by (by apply consumes_u32). destruct (reads_site (([] ++ site_head r kSiteSealCommitted) ++ be_bytes 4 q) (be_bytes 4 (crc32_iso_hdlc (site_unsigned r kSiteSealCommitted q)))) as [rd E]; [by rewrite length_be_bytes|].
    by erewrite M_bind_ok by exact E. }
  rewrite Hr, bind_Ok. by rewrite Hv.
Qed.

(** ** The structural check *)

Lemma be_value2 x : is_u16 x → be_value 16 (be_bytes 2 x) = x.
Proof using. intros [? ?]. by apply be_value_be_bytes. Qed.
(** The bytes up to the state, up to the lengths, and after them. *)
Lemma record_parts : ∃ a b c, length a = 148%nat ∧ length b = 43%nat ∧ record = a ++ [st_state r] ++ b ++ be_bytes 2 (Z.of_nat (length (site_cert r))) ++ be_bytes 2 (Z.of_nat (length (member_cert r))) ++ c.
Proof using Ht.
  destruct fields_length as (F1 & _ & _). destruct Ht as [_ _ _ _ _ _ _ _ _ _ _ _ _ _ _ [K4 _] _]. exists (site_head r kSiteSealCommitted ++ be_bytes 4 q ++ site_fields r).
  exists ([st_role r] ++ [gateway_count r] ++ [st_channel r] ++ be_bytes 4 (st_channel_epoch r) ++ be_bytes 4 (st_boot_witness r) ++ cat_ids (gateways r)).
  exists (site_cert r ++ member_cert r ++ be_bytes 4 (crc32_iso_hdlc (site_unsigned r kSiteSealCommitted q))). split_and!.
  - unfold site_head. rewrite !length_app, !length_be_bytes, F1. lia.
  - rewrite !length_app, !length_be_bytes, cat_ids_length, K4. done.
  - unfold site_bytes, site_unsigned at 1, site_lens, site_tail. rewrite <- !app_assoc. reflexivity.
Qed.
Lemma site_structure : site_record_structure record = Ok tt.
Proof using Ht Hv.
  destruct len16 as (L1 & L2 & L3). destruct encoded_size as [Hs Hm]. destruct valid_certs as (V1 & V2 & V3). unfold site_record_structure.
  assert (Hh : structure_head record kSiteMagic kSiteRecordMin kSiteRecordMax = Ok tt).
  { unfold structure_head. rewrite site_bytes_length. rewrite guard_pass.
    2: { rewrite orb_false_iff, !Nat.ltb_ge. unfold kSiteRecordMin, kSiteFixedSize. lia. }
    assert (Hr : run_reader (m ← Reader.read_u32; fmt ← Reader.read_u16; n ← Reader.read_u16; mret (m, fmt, n)) record = Ok (kSiteMagic, kRecordFormat, Z.of_nat (site_encoded_size r))).
    { assert (E : ∃ rest, record = (be_bytes 4 kSiteMagic ++ be_bytes 2 kRecordFormat ++ be_bytes 2 (Z.of_nat (site_encoded_size r)) ++ []) ++ rest) by (eexists; unfold site_bytes, site_unsigned at 1, site_head; rewrite <- !app_assoc; reflexivity).
      destruct E as [rest ->]. apply run_reader_consumes. assert (is_u32 kSiteMagic) by done. assert (is_u16 kRecordFormat) by done. repeat (eapply consumes_bind; [solve [eauto with codec]|]). apply consumes_ret. }
    rewrite Hr. rewrite !bool_decide_eq_true_2 by done. done. }
  rewrite Hh, bind_Ok. destruct record_parts as (a & b & c & La & Lb & E). rewrite site_bytes_length. rewrite E.
  assert (E1 : be16 (a ++ [st_state r] ++ b ++ be_bytes 2 (Z.of_nat (length (site_cert r))) ++ be_bytes 2 (Z.of_nat (length (member_cert r))) ++ c) 192 = Z.of_nat (length (site_cert r))).
  { rewrite (app_assoc [_]), (app_assoc a). replace 192%nat with (length (a ++ [st_state r] ++ b)) by (rewrite !length_app; cbn [length]; lia). rewrite be16_at by apply length_be_bytes. by apply be_value2. }
  assert (E2 : be16 (a ++ [st_state r] ++ b ++ be_bytes 2 (Z.of_nat (length (site_cert r))) ++ be_bytes 2 (Z.of_nat (length (member_cert r))) ++ c) 194 = Z.of_nat (length (member_cert r))).
  { rewrite (app_assoc b), (app_assoc [_]), (app_assoc a). replace 194%nat with (length (a ++ [st_state r] ++ b ++ be_bytes 2 (Z.of_nat (length (site_cert r))))) by (rewrite !length_app, length_be_bytes; cbn [length]; lia).
    rewrite be16_at by apply length_be_bytes. by apply be_value2. }
  rewrite E1, E2. rewrite <- La, lookup_app_r, Nat.sub_diag by lia. cbn [app lookup list_lookup default]. change (id ?x) with x. unfold guard_err.
  rewrite bool_decide_eq_false_2 by lia. rewrite !(bool_decide_eq_false_2 (Z.of_nat kRlcw1CertMax < _)) by lia. rewrite bool_decide_eq_true_2; [done|]. rewrite Hs. unfold kSiteFixedSize. lia.
Qed.
End Record.

(** C16: a record of the right widths that the validator accepts, of any
    certificate lengths, is written under any commit sequence to
    [site_encoded_size] bytes, at most a slot, that the structural check
    accepts and the decoder reads back field for field. *)
Theorem site_record_roundtrip (cert_decode : list Z → result CertClaims) (r : SiteRecord) (q : Z) (out : list Z) :
  site_typed r → site_validate cert_decode r = Ok tt → is_u32 q → (site_encoded_size r ≤ length out)%nat →
  ∃ bytes, site_record_encode cert_decode r kSiteSealCommitted q out = Ok (site_encoded_size r, bytes ++ drop (site_encoded_size r) out) ∧
    length bytes = site_encoded_size r ∧ (site_encoded_size r ≤ kSiteSlotBytes)%nat ∧
    site_record_structure bytes = Ok tt ∧ site_record_decode cert_decode bytes = Ok (r, q).
Proof.
  intros Ht Hv Hq Ho. exists (site_bytes r kSiteSealCommitted q). split_and!; [apply site_encode; [done..|by right|done]|by apply (site_bytes_length cert_decode)|by apply (encoded_size cert_decode)|by apply (site_structure cert_decode)|by apply site_decode].
Qed.
