(* ===== verification/GroupKeys.v ===== *)
(** * Group keys (sdkv1_group_keys.{hpp,cpp}, key_schedule.cpp, kdf.cpp)

    The group key of a site over its life: staged, activated, the previous one
    kept for an overlap.  HMAC-SHA256 is a parameter.  The re-entry flags do
    not appear: no port calls back. *)

From S2P Require Import Prelude Types SealedSlots SiteStore.

(** ** Key schedule *)

Definition kHkdfSha256HashSize : nat := 32.
Definition kHkdfSha256OutputMax : nat := 255 * kHkdfSha256HashSize.
Definition kInfoCapacity : nat := 96.
Definition kAeadKeySize : nat := 16.
Definition kAeadIvSize : nat := 12.
Definition kKeyIvSize : nat := kAeadKeySize + kAeadIvSize.
Definition label_bytes (label : string) : list Z := (λ a, Z.of_N (Ascii.N_of_ascii a)) <$> String.list_ascii_of_string label.
Definition kLabelGroupSalt : list Z := label_bytes "RouteLoom/v1/group".
Definition kLabelBcastLink : list Z := label_bytes "RouteLoom/v1/bcast-link".
Definition kLabelGroupEnd : list Z := label_bytes "RouteLoom/v1/group-end".
Definition kLabelDskMember : list Z := label_bytes "RouteLoom/v1/dsk-member".

(** [struct Info]: the label, a zero byte and the fields; overflow is
    refused where the info is used. *)
Definition info (label fields : list Z) : list Z := label ++ [0] ++ fields.

Section Schedule.
Context (hmac : list Z → list Z → list Z).

Definition hkdf_sha256_extract (salt ikm : list Z) : list Z := hmac salt ikm.
Fixpoint expand_blocks (n : nat) (prk inf previous : list Z) (counter : Z) : list Z :=
  match n with
  | O => []
  | S n => let block := hmac prk (previous ++ inf ++ [counter]) in block ++ expand_blocks n prk inf block (u8 (counter + 1))
  end.
Definition hkdf_sha256_expand (prk inf : list Z) (size : nat) : result (list Z) :=
  guard_err ((size =? 0)%nat || (kHkdfSha256OutputMax <? size)%nat) InvalidArgument "hkdf output length";;
  guard_err (length prk <? kHkdfSha256HashSize)%nat InvalidArgument "hkdf prk shorter than HashLen";;
  Ok (take size (expand_blocks ((size + 31) / 32) prk inf [] 1)).

Definition expand_key_iv (prk inf : list Z) : result (list Z * list Z) :=
  guard_err (kInfoCapacity <? length inf)%nat InternalError "key schedule info overflow";;
  okm ← hkdf_sha256_expand prk inf kKeyIvSize;
  Ok (take kAeadKeySize okm, take kAeadIvSize (drop kAeadKeySize okm)).
Definition expand_secret (prk inf : list Z) : result (list Z) :=
  guard_err (kInfoCapacity <? length inf)%nat InternalError "key schedule info overflow";;
  hkdf_sha256_expand prk inf 32.

Definition group_prk (network : NetworkId) (gk : list Z) : list Z := hkdf_sha256_extract (info kLabelGroupSalt (be_bytes 8 network)) gk.
Definition bcast_info (gk_epoch : Z) (tx : NodeId) (tx_boot : Z) : list Z := info kLabelBcastLink (be_bytes 4 gk_epoch ++ be_bytes 8 tx ++ be_bytes 4 tx_boot).
Definition group_bcast_key (prk : list Z) (gk_epoch : Z) (tx : NodeId) (tx_boot : Z) : result (list Z * list Z) := expand_key_iv prk (bcast_info gk_epoch tx tx_boot).
Definition end_info (gk_epoch : Z) (group : Z) (origin : NodeId) (session : Z) : list Z :=
  info kLabelGroupEnd (be_bytes 4 gk_epoch ++ be_bytes 8 group ++ be_bytes 8 origin ++ be_bytes 4 session).
Definition group_end_key (prk : list Z) (gk_epoch group : Z) (origin : NodeId) (session : Z) : result (list Z * list Z) := expand_key_iv prk (end_info gk_epoch group origin session).
Definition group_dsk_key (prk : list Z) (gk_epoch : Z) : result (list Z) := expand_secret prk (info kLabelDskMember (be_bytes 4 gk_epoch)).
End Schedule.

(** ** GroupKeyState *)

(** What [advance] reads and writes; counters and windows, which it leaves
    alone, are in GroupSecurity. *)
Record KeyPhase := mkPhase {
  lifecycle_ : Z; ksite_id_ : Z; knetwork_ : NetworkId; generation_ : Z; bound_current_ : Z; bound_next_ : Z;
  previous_ : list Z; previous_epoch_ : Z; previous_deadline_ : Z; previous_started_ : Z;
  boot_ : Z; overlap_s_ : Z; started_ : bool; blocked_ : bool; boot_ok_ : bool; pending_ : bool; overlap_known_ : bool }.
Definition new_phase : KeyPhase := mkPhase 0 0 0 0 0 0 zero_key 0 0 0 0 10 false false false false false.
Definition with_previous key epoch dl start k :=
  mkPhase (lifecycle_ k) (ksite_id_ k) (knetwork_ k) (generation_ k) (bound_current_ k) (bound_next_ k) key epoch dl start
    (boot_ k) (overlap_s_ k) (started_ k) (blocked_ k) (boot_ok_ k) (pending_ k) (overlap_known_ k).
Definition with_bound cur next k :=
  mkPhase (lifecycle_ k) (ksite_id_ k) (knetwork_ k) (generation_ k) cur next (previous_ k) (previous_epoch_ k) (previous_deadline_ k) (previous_started_ k)
    (boot_ k) (overlap_s_ k) (started_ k) (blocked_ k) (boot_ok_ k) (pending_ k) (overlap_known_ k).
Definition with_blocked b k :=
  mkPhase (lifecycle_ k) (ksite_id_ k) (knetwork_ k) (generation_ k) (bound_current_ k) (bound_next_ k) (previous_ k) (previous_epoch_ k) (previous_deadline_ k) (previous_started_ k)
    (boot_ k) (overlap_s_ k) (started_ k) b (boot_ok_ k) (pending_ k) (overlap_known_ k).
Definition with_pending b k :=
  mkPhase (lifecycle_ k) (ksite_id_ k) (knetwork_ k) (generation_ k) (bound_current_ k) (bound_next_ k) (previous_ k) (previous_epoch_ k) (previous_deadline_ k) (previous_started_ k)
    (boot_ k) (overlap_s_ k) (started_ k) (blocked_ k) (boot_ok_ k) b (overlap_known_ k).
Definition with_overlap secs known k :=
  mkPhase (lifecycle_ k) (ksite_id_ k) (knetwork_ k) (generation_ k) (bound_current_ k) (bound_next_ k) (previous_ k) (previous_epoch_ k) (previous_deadline_ k) (previous_started_ k)
    (boot_ k) secs (started_ k) (blocked_ k) (boot_ok_ k) (pending_ k) known.

Definition expire (k : KeyPhase) : KeyPhase := with_previous zero_key 0 0 0 k.
Definition bind_epochs (s : SiteStore) (k : KeyPhase) : KeyPhase := with_bound (gk_epoch_current (site_ s)) (gk_epoch_next (site_ s)) k.

Definition ready (k : KeyPhase) (s : SiteStore) : bool :=
  started_ k && negb (blocked_ k) && initialized_ (spair_ s) && has_site s && negb (quarantined_ (spair_ s)) && negb (uncertain_ (spair_ s)) &&
  negb (active_load_failed_ s) && negb (scrub_needed_ s) && negb (group_write_failed_ s) && group_lifecycle_matches (lifecycle_ k) s &&
  bool_decide (st_site_id (site_ s) = ksite_id_ k) && bool_decide (st_network (site_ s) = knetwork_ k) && bool_decide (st_generation (site_ s) = generation_ k) &&
  bool_decide (gk_epoch_current (site_ s) = bound_current_ k) && bool_decide (gk_epoch_next (site_ s) = bound_next_ k).
Definition tx_ready (k : KeyPhase) (s : SiteStore) : bool := ready k s && boot_ok_ k && bool_decide (st_boot_witness (site_ s) ≤ boot_ k).
Definition current (k : KeyPhase) (s : SiteStore) : Z := if ready k s then gk_epoch_current (site_ s) else 0.
Definition knetwork (k : KeyPhase) (s : SiteStore) : NetworkId := if ready k s then st_network (site_ s) else 0.
Definition accepts (epoch : Z) (k : KeyPhase) (s : SiteStore) : bool :=
  ready k s && negb (bool_decide (epoch = 0)) &&
  (bool_decide (epoch = gk_epoch_current (site_ s)) || bool_decide (epoch = gk_epoch_next (site_ s)) || bool_decide (epoch = previous_epoch_ k)).

Definition derive (hmac : list Z → list Z → list Z) (epoch : Z) (k : KeyPhase) (s : SiteStore) : result (list Z) :=
  guard_err (negb (ready k s) || bool_decide (epoch = 0)) AuthRequired "group key unavailable";;
  let r := site_ s in
  if bool_decide (epoch = gk_epoch_current r) then Ok (group_prk hmac (st_network r) (gk_current r))
  else if bool_decide (epoch = gk_epoch_next r) then Ok (group_prk hmac (st_network r) (gk_next r))
  else if bool_decide (epoch = previous_epoch_ k) then Ok (group_prk hmac (st_network r) (previous_ k))
  else Err AuthRequired "group epoch retired".

(** [deadline]: saturates. *)
Definition overlap_deadline (now secs : Z) : Z := if bool_decide (UINT64_MAX - secs * 1000 < now) then UINT64_MAX else now + secs * 1000.

Inductive GroupOp := GStart | GStage | GActivate | GAuthenticatedNext | GTick | GStop.
#[global] Instance GroupOp_eq_dec : EqDecision GroupOp.
Proof. solve_decision. Defined.
Record GroupInput := mkGroupInput { gi_op : GroupOp; gi_epoch : Z; gi_key : list Z; gi_boot : Z; gi_generation : Z; gi_overlap_s : Z }.

Section Advance.
Context (cert_decode : list Z → result CertClaims) {ST : Type} `{RecordSlotStorage ST} (sha256 : list Z → list Z).
Definition KM := M (KeyPhase * (SiteStore * ST)).
Definition phase : KM KeyPhase := λ s, (Ok (fst s), s).
Definition key_store : KM SiteStore := λ s, (Ok (fst (snd s)), s).
Definition set_phase (g : KeyPhase → KeyPhase) : KM unit := λ s, (Ok tt, (g (fst s), snd s)).
Definition on_store {A} (m : SiteM A) : KM A := λ s, let '(r, st) := m (snd s) in (r, (fst s, st)).
Definition attempt_ {A} (m : KM A) : KM (result A) := λ s, let '(r, s') := m s in (Ok r, s').

Definition promote (epoch witness now : Z) : KM unit :=
  s ← key_store;
  fail_if (negb (bool_decide (epoch = gk_epoch_next (site_ s)))) Conflict "next group epoch changed";;
  let old := gk_current (site_ s) in
  let old_epoch := gk_epoch_current (site_ s) in
  status ← attempt_ (on_store (activate_group_key cert_decode sha256 epoch witness));
  match status with
  | Err c d => set_phase (λ k, expire (with_blocked true k));; throw c d
  | Ok _ =>
      s' ← key_store;
      set_phase (λ k, with_pending false (with_previous old old_epoch (overlap_deadline now (overlap_s_ k)) now (bind_epochs s' k)))
  end.

Definition start (boot : Z) : KM unit :=
  k ← phase;
  fail_if (started_ k) InvalidState "group already started";;
  s ← key_store;
  fail_if (negb (initialized_ (spair_ s)) || negb (has_site s) || quarantined_ (spair_ s) || uncertain_ (spair_ s) || active_load_failed_ s ||
           group_write_failed_ s || negb (group_lifecycle_matches (group_lifecycle_ s) s)) RecoveryRequired "site record unavailable";;
  (if scrub_needed_ s then on_store (finish_group_scrub cert_decode sha256) else mret tt);;
  s ← key_store;
  let r := site_ s in
  set_phase (λ k, mkPhase (group_lifecycle_ s) (st_site_id r) (st_network r) (st_generation r) (gk_epoch_current r) (gk_epoch_next r)
    (previous_ k) (previous_epoch_ k) (previous_deadline_ k) (previous_started_ k) boot (overlap_s_ k) true false
    (negb (bool_decide (boot = 0)) && negb (bool_decide (boot = UINT32_MAX)) && bool_decide (st_boot_witness r ≤ boot)) (pending_ k) false).

Definition overlap_ok (secs : Z) : bool := bool_decide (secs = 10) || bool_decide (secs = 60).

Definition stage (i : GroupInput) : KM unit :=
  k ← phase; s ← key_store;
  fail_if (negb (ready k s)) RecoveryRequired "group blocked";;
  fail_if (negb (bool_decide (gi_generation i = st_generation (site_ s))) || negb (overlap_ok (gi_overlap_s i))) Conflict "group update binding";;
  let prior_next := gk_epoch_next (site_ s) in
  status ← attempt_ (on_store (stage_group_key cert_decode sha256 (gi_epoch i) (gi_key i)));
  match status with
  | Ok _ =>
      s ← key_store;
      set_phase (bind_epochs s);;
      if bool_decide (gi_epoch i = gk_epoch_next (site_ s)) then
        set_phase (λ k,
          if negb (bool_decide (gi_epoch i = prior_next)) then with_pending false (with_overlap (gi_overlap_s i) true (expire k))
          else with_overlap (if bool_decide (gi_overlap_s i < overlap_s_ k) then gi_overlap_s i else overlap_s_ k) true k)
      else mret tt
  | Err c d =>
      (if bool_decide (c = Conflict) then mret tt else set_phase (λ k, expire (with_blocked true k)));;
      throw c d
  end.

Definition activate (i : GroupInput) (now : Z) : KM unit :=
  k ← phase; s ← key_store;
  fail_if (negb (ready k s)) RecoveryRequired "group blocked";;
  fail_if (negb (bool_decide (gi_generation i = st_generation (site_ s))) || negb (overlap_ok (gi_overlap_s i))) Conflict "group activation binding";;
  if bool_decide (gi_epoch i = current k s) && bool_decide (gk_epoch_next (site_ s) = 0) then mret tt
  else
    set_phase (λ k, if negb (overlap_known_ k) || bool_decide (gi_overlap_s i < overlap_s_ k) then with_overlap (gi_overlap_s i) (overlap_known_ k) k else k);;
    promote (gi_epoch i) (gi_boot i) now.

Definition authenticated_next (epoch : Z) : KM unit :=
  k ← phase; s ← key_store;
  fail_if (negb (ready k s)) RecoveryRequired "group blocked";;
  fail_if (bool_decide (epoch = 0) || negb (bool_decide (epoch = gk_epoch_next (site_ s)))) Conflict "not a staged group frame";;
  set_phase (with_pending true).

Definition tick_ (now : Z) : KM unit :=
  k ← phase; s ← key_store;
  fail_if (negb (ready k s)) RecoveryRequired "group blocked";;
  (if negb (bool_decide (previous_epoch_ k = 0)) && (bool_decide (previous_deadline_ k ≤ now) || bool_decide (now < previous_started_ k)) then set_phase expire else mret tt);;
  if pending_ k then promote (gk_epoch_next (site_ s)) (boot_ k) now else mret tt.

Definition stop : KM unit :=
  set_phase (λ k, let k := expire k in
    mkPhase (lifecycle_ k) (ksite_id_ k) (knetwork_ k) (generation_ k) (bound_current_ k) (bound_next_ k) (previous_ k) (previous_epoch_ k) (previous_deadline_ k) (previous_started_ k)
      (boot_ k) (overlap_s_ k) false true false false false).

Definition advance (i : GroupInput) (now : Z) : KM unit :=
  match gi_op i with
  | GStart => start (gi_boot i)
  | GStage => stage i
  | GActivate => activate i now
  | GAuthenticatedNext => authenticated_next (gi_epoch i)
  | GTick => tick_ now
  | GStop => stop
  end.
End Advance.

(** *** [GkMemberScopeProvider], for its scope [member] *)
Definition kInvalidScopeRef : Z := 0.
Definition current_generation (member scope : Z) (k : KeyPhase) (s : SiteStore) : option Z :=
  if negb (bool_decide (scope = member)) || bool_decide (member = kInvalidScopeRef) || negb (ready k s) then None
  else if bool_decide (current k s = 0) then None else Some (current k s).
Definition accepted_generation (member scope generation now : Z) (k : KeyPhase) (s : SiteStore) : bool :=
  bool_decide (scope = member) && accepts generation k s && (negb (bool_decide (generation = previous_epoch_ k)) || bool_decide (now < previous_deadline_ k)).
Definition scope_tag (hmac : list Z → list Z → list Z) (member scope generation : Z) (input : list Z) (size : nat) (k : KeyPhase) (s : SiteStore) : result (list Z) :=
  guard_err (negb (bool_decide (scope = member)) || negb (accepts generation k s)) AuthRequired "member scope unavailable";;
  prk ← derive hmac generation k s;
  dsk ← group_dsk_key hmac prk generation;
  Ok (take size (hmac dsk input)).

(** * How the bound epochs move *)

(** The epochs in use: the bound one, and the previous one during an overlap. *)
Definition in_use (k : KeyPhase) (e : Z) : Prop := e = bound_current_ k ∨ (e = previous_epoch_ k ∧ previous_epoch_ k ≠ 0).

(** One step of the phase: the previous key may go, the bound epoch may become
    the previous one, or the phase starts again with what the store has. *)
Inductive turn (k k' : KeyPhase) : Prop :=
  | turn_keep : bound_current_ k' = bound_current_ k → previous_epoch_ k' = previous_epoch_ k ∨ previous_epoch_ k' = 0 → turn k k'
  | turn_promote : bound_current_ k < bound_current_ k' → previous_epoch_ k' = bound_current_ k → turn k k'
  | turn_start : bound_current_ k ≤ bound_current_ k' → previous_epoch_ k' = 0 → turn k k'.
Definition phase_ok (k : KeyPhase) : Prop := started_ k = false → previous_epoch_ k = 0.
(** The boot a started phase works in. *)
Definition boots (boot : Z) (k : KeyPhase) : Prop := started_ k = true → boot_ k = boot.

Section Phase.
Context (cert_decode : list Z → result CertClaims) {ST : Type} `{RecordSlotStorage ST} (sha256 : list Z → list Z).
Abbreviation site_ok := (site_ok cert_decode).

Lemma ready_bound k s : ready k s = true → started_ k = true ∧ blocked_ k = false ∧ has_site s = true ∧ gk_epoch_current (site_ s) = bound_current_ k ∧ gk_epoch_next (site_ s) = bound_next_ k.
Proof using. unfold ready. rewrite !andb_true_iff, !bool_decide_eq_true, !negb_true_iff. tauto. Qed.
Lemma site_epochs s : site_ok s → has_site s = true → gk_epoch_current (site_ s) ≠ 0 ∧ (gk_epoch_next (site_ s) = 0 ∨ gk_epoch_current (site_ s) < gk_epoch_next (site_ s)).
Proof using. intros Hs [_ Hm%bool_decide_eq_true]%andb_true_iff. by apply (valid_epochs cert_decode). Qed.

Ltac key_unfold := unfold mbind, M_bind, phase, key_store, set_phase, on_store, fail_if, throw, lift, mret, M_ret, attempt_; cbn [fst snd].

(** Everything a step of the phase keeps. *)
Record moved (k : KeyPhase) (s : SiteStore) (k' : KeyPhase) (s' : SiteStore) : Prop := {
  mv_site : site_ok s'; mv_phase : phase_ok k'; mv_turn : turn k k';
  mv_started : started_ k' = true → started_ k = true ∧ boot_ k' = boot_ k }.

Lemma moved_refl k s : site_ok s → phase_ok k → moved k s k s.
Proof using. intros ? ?. split; try done. apply turn_keep; auto. Qed.
Lemma moved_store k s s' : site_ok s' → phase_ok k → moved k s k s'.
Proof using. intros ? ?. split; try done. apply turn_keep; auto. Qed.

Lemma promote_moved epoch witness now k s st r k' s' st' :
  promote cert_decode sha256 epoch witness now (k, (s, st)) = (r, (k', (s', st'))) → site_ok s → phase_ok k → started_ k = true → has_site s = true →
  gk_epoch_current (site_ s) = bound_current_ k → moved k s k' s'.
Proof using.
  intros E Hs Hp Hst Hsite Hcur. unfold promote in E. revert E. key_unfold. destruct (bool_decide_reflect (epoch = gk_epoch_next (site_ s))) as [->|]; cbn [negb fst snd]; [|intros [= <- <- <- <-]; by apply moved_refl].
  destruct (activate_group_key cert_decode sha256 (gk_epoch_next (site_ s)) witness (s, st)) as [ra [s1 st1]] eqn:Ea. destruct (activate_spec _ _ _ _ _ _ _ Ea) as (_ & Hspec & _). cbn [fst] in Hspec.
  destruct (site_epochs s Hs Hsite) as [Hc0 Hnext]. destruct ra as [[]|c d]; intros [= <- <- <- <-].
  - destruct Hspec as [(_ & He & Hn)|(Hsite' & _ & Hv)]; [congruence|].
    assert (Hn0 : gk_epoch_next (site_ s) ≠ 0). { intros Hz. rewrite Hsite', Hz in Hv. apply (valid_epochs cert_decode) in Hv as [? _]; [done|]. by apply andb_true_iff in Hsite as [_ ?%bool_decide_eq_true]. }
    split; try done; cbn [with_pending with_previous bind_epochs with_bound bound_current_ previous_epoch_ started_ boot_].
    + unfold phase_ok. cbn. congruence.
    + apply turn_promote; cbn; rewrite ?Hsite'; cbn; lia.
  - destruct Hspec as [Hx _]. split; try done; [unfold SiteStore.site_ok; by rewrite Hx|]. apply turn_keep; [done|by right].
Qed.

Lemma stage_moved i k s st r k' s' st' :
  stage cert_decode sha256 i (k, (s, st)) = (r, (k', (s', st'))) → site_ok s → phase_ok k → moved k s k' s'.
Proof using.
  intros E Hs Hp. unfold stage in E. revert E. key_unfold. destruct (ready k s) eqn:Hr; cbn [negb fst snd]; [|intros [= <- <- <- <-]; by apply moved_refl].
  destruct (ready_bound _ _ Hr) as (Hst & _ & Hsite & Hcur & _). destruct (_ || _); [intros [= <- <- <- <-]; by apply moved_refl|].
  cbn [fst snd]. destruct (stage_group_key cert_decode sha256 (gi_epoch i) (gi_key i) (s, st)) as [ra [s1 st1]] eqn:Ea. destruct (stage_spec _ _ _ _ _ _ _ Ea) as (_ & Hspec). cbn [fst] in Hspec.
  destruct ra as [[]|c d].
  - assert (Hs1 : site_ok s1 ∧ gk_epoch_current (site_ s1) = gk_epoch_current (site_ s)) by (unfold SiteStore.site_ok in *; destruct Hspec as [->|(He & _ & Hv)]; [done|by rewrite He in *]).
    destruct Hs1 as [Hs1 Hc1]. cbn [fst snd]. destruct (bool_decide (gi_epoch i = gk_epoch_next (site_ s1))); [destruct (bool_decide (gi_epoch i = gk_epoch_next (site_ s)))|]; intros [= <- <- <- <-];
      split; try done; apply turn_keep; cbn; rewrite ?Hc1; auto.
  - assert (Hs1 : site_ok s1) by (unfold SiteStore.site_ok in *; by rewrite Hspec). destruct (bool_decide (c = Conflict)); intros [= <- <- <- <-]; [by apply moved_store|].
    split; try done. apply turn_keep; [done|by right].
Qed.

Lemma activate_moved i now k s st r k' s' st' :
  activate cert_decode sha256 i now (k, (s, st)) = (r, (k', (s', st'))) → site_ok s → phase_ok k → moved k s k' s'.
Proof using.
  intros E Hs Hp. unfold activate in E. revert E. key_unfold. destruct (ready k s) eqn:Hr; cbn [negb fst snd]; [|intros [= <- <- <- <-]; by apply moved_refl].
  destruct (ready_bound _ _ Hr) as (Hst & _ & Hsite & Hcur & _). destruct (_ || _); [intros [= <- <- <- <-]; by apply moved_refl|]. destruct (_ && _); [intros [= <- <- <- <-]; by apply moved_refl|].
  cbn [fst snd]. intros E. match type of E with promote _ _ _ _ _ (?x, _) = _ => set (k1 := x) in E end.
  assert (Hk1 : bound_current_ k1 = bound_current_ k ∧ previous_epoch_ k1 = previous_epoch_ k ∧ started_ k1 = started_ k ∧ boot_ k1 = boot_ k) by (unfold k1; by destruct (_ || _)).
  destruct Hk1 as (B1 & B2 & B3 & B4). destruct (promote_moved _ _ _ _ _ _ _ _ _ _ E) as [M1 M2 M3 M4]; try done; [unfold phase_ok; by rewrite B2, B3|congruence..|].
  split; try done; [|rewrite <- B3, <- B4; done]. destruct M3 as [T1 T2|T1 T2|T1 T2]; rewrite ?B1, ?B2 in *; [by apply turn_keep|by apply turn_promote|by apply turn_start].
Qed.

Lemma tick_moved now k s st r k' s' st' :
  tick_ cert_decode sha256 now (k, (s, st)) = (r, (k', (s', st'))) → site_ok s → phase_ok k → moved k s k' s'.
Proof using.
  intros E Hs Hp. unfold tick_ in E. revert E. key_unfold. destruct (ready k s) eqn:Hr; cbn [negb fst snd]; [|intros [= <- <- <- <-]; by apply moved_refl].
  destruct (ready_bound _ _ Hr) as (Hst & _ & Hsite & Hcur & _). intros E.
  set (k1 := if negb (bool_decide (previous_epoch_ k = 0)) && (bool_decide (previous_deadline_ k ≤ now) || bool_decide (now < previous_started_ k)) then expire k else k).
  assert (E1 : (if pending_ k then promote cert_decode sha256 (gk_epoch_next (site_ s)) (boot_ k) now else λ n, (Ok tt, n)) (k1, (s, st)) = (r, (k', (s', st')))) by (unfold k1; by destruct (_ && _)).
  assert (Hk1 : bound_current_ k1 = bound_current_ k ∧ (previous_epoch_ k1 = previous_epoch_ k ∨ previous_epoch_ k1 = 0) ∧ started_ k1 = started_ k ∧ boot_ k1 = boot_ k) by (unfold k1; destruct (_ && _); split_and!; try done; [by right|by left]).
  destruct Hk1 as (B1 & B2 & B3 & B4). assert (Hp1 : phase_ok k1) by (unfold phase_ok; congruence). destruct (pending_ k).
  - destruct (promote_moved _ _ _ _ _ _ _ _ _ _ E1) as [M1 M2 M3 M4]; try done; [congruence..|].
    split; try done; [|rewrite <- B3, <- B4; done]. destruct M3 as [T1 T2|T1 T2|T1 T2]; rewrite ?B1 in *; [|by apply turn_promote|by apply turn_start]. apply turn_keep; [done|]. destruct T2 as [->|]; auto.
  - injection E1 as <- <- <- <-. split; first [done|by apply turn_keep|by rewrite B3, B4].
Qed.

(** Any step. *)
Lemma advance_moved i now k s st r k' s' st' boot :
  advance cert_decode sha256 i now (k, (s, st)) = (r, (k', (s', st'))) → site_ok s → phase_ok k → boots boot k →
  (gi_op i = GStart → gi_boot i = boot ∧ bound_current_ k ≤ gk_epoch_current (site_ s)) →
  site_ok s' ∧ phase_ok k' ∧ turn k k' ∧ boots boot k'.
Proof using.
  intros E Hs Hp Hb Hst. assert (Hm : moved k s k' s' → site_ok s' ∧ phase_ok k' ∧ turn k k' ∧ boots boot k').
  { intros [? ? ? Hx]. split_and!; try done. intros Hy. destruct (Hx Hy) as [Hz ->]. by apply Hb. }
  unfold advance in E. destruct (gi_op i).
  - destruct (Hst eq_refl) as [Hi Hle]. revert E. unfold start. key_unfold. destruct (started_ k) eqn:Hk; [intros [= <- <- <- <-]; by apply Hm, moved_refl|].
    destruct (_ || _); [intros [= <- <- <- <-]; by apply Hm, moved_refl|]. cbn [fst snd]. destruct (scrub_needed_ s).
    + cbn [fst snd]. destruct (finish_group_scrub cert_decode sha256 (s, st)) as [rs [s1 st1]] eqn:Es. destruct (scrub_spec _ _ _ _ _ Es) as [Hx _]. cbn [fst] in Hx.
      assert (Hs1 : site_ok s1) by (unfold SiteStore.site_ok; by rewrite Hx). destruct rs as [[]|c d]; cbn [fst snd]; intros [= <- <- <- <-]; [|by apply Hm, moved_store].
      split_and!; try done; [|by intros _]. apply turn_start; cbn; [by rewrite Hx|by apply Hp].
    + intros [= <- <- <- <-]. split_and!; try done; [|by intros _]. apply turn_start; cbn; [done|by apply Hp].
  - by eapply Hm, stage_moved.
  - by eapply Hm, activate_moved.
  - apply Hm. revert E. unfold authenticated_next. key_unfold. destruct (negb _); [intros [= <- <- <- <-]; by apply moved_refl|]. destruct (_ || _); intros [= <- <- <- <-]; [by apply moved_refl|].
    split; try done. apply turn_keep; auto.
  - by eapply Hm, tick_moved.
  - apply Hm. injection E as <- <- <- <-. split; try done. apply turn_keep; [done|by right].
Qed.
End Phase.
