(* ===== verification/GroupSecurity.v ===== *)
(** * Group traffic (sdkv1_group_security.{hpp,cpp})

    Counters, sealing, opening and replay windows of the group scopes.  Calls
    with a pairwise scope go to the session bank and are not repeated here;
    every operation below is called with a group scope. *)

From S2P Require Import Prelude Types SessionBank SealedSlots SiteStore GroupKeys.

Definition kLinkSenders : nat := 128.
Definition kEndSenders : nat := 8.

Record GroupReplayBank := mkGroupBank { gb_max : Z; gb_bitmap : Z }.
Definition no_bank : GroupReplayBank := mkGroupBank 0 0.
Record GroupReplaySender := mkGroupSender { gs_sender : NodeId; gs_boot : Z; gs_bank0 : GroupReplayBank; gs_bank1 : GroupReplayBank }.
Definition no_sender : GroupReplaySender := mkGroupSender 0 0 no_bank no_bank.

(** The rest of [GroupKeyState]. *)
Record GroupRx := mkGroupRx { link_rx_ : list GroupReplaySender; end_rx_ : list GroupReplaySender; replay_epoch0_ : Z; replay_epoch1_ : Z }.
Definition new_rx : GroupRx := mkGroupRx (replicate kLinkSenders no_sender) (replicate kEndSenders no_sender) 0 0.
(** The last counter that was sealed, with its flag. *)
Record GroupTx := mkGroupTx { link_tx_ : Z; end_tx_ : Z; link_sealed_ : option Z; end_sealed_ : option Z }.
Definition new_tx : GroupTx := mkGroupTx 0 0 None None.

(** The revocation set as far as it decides about group senders: each entry
    with the epoch that readmits its node, 0 for none. *)
Record GroupRevocations := mkGroupRevocations { gr_site_id : Z; gr_network : NetworkId; gr_entries : list (NodeId * Z) }.

Record GroupNode {ST : Type} := mkGroupNode {
  g_keys : KeyPhase; g_store : SiteStore; g_storage : ST; g_rx : GroupRx; g_tx : GroupTx;
  g_self : NodeId; g_revocations : option GroupRevocations; revoked_tx_attempts_ : Z }.
#[global] Arguments GroupNode : clear implicits.

Definition is_end (c : SecurityContext) : bool := bool_decide (scope c = Group).
Definition group_scope (s : SecurityScope) : bool := bool_decide (s = Group) || bool_decide (s = GroupLink).
Definition frame_epoch (c : SecurityContext) : Z := if is_end c then epoch c else group_epoch c.
Definition frame_boot (c : SecurityContext) : Z := if is_end c then sender_boot c else epoch c.

(** [revocation_blocks_group_sender]: the first entry that names the node. *)
Definition revocation_blocks_group_sender (set : GroupRevocations) (node : NodeId) (gk_epoch : Z) : bool :=
  match List.find (λ e, bool_decide (fst e = node)) (gr_entries set) with
  | Some (_, readmit) => bool_decide (readmit = 0) || bool_decide (gk_epoch < readmit)
  | None => false
  end.

(** *** Replay windows *)

Definition window_free (b : GroupReplayBank) (counter : Z) : bool := negb (replayed (gb_max b) (gb_bitmap b) counter).
Definition window_add (b : GroupReplayBank) (counter : Z) : GroupReplayBank :=
  let '(m, bits) := slide_window (gb_max b) (gb_bitmap b) counter in mkGroupBank m bits.

Definition bank_label (rx : GroupRx) (epoch : Z) : option bool :=
  if bool_decide (replay_epoch0_ rx = epoch) then Some false else if bool_decide (replay_epoch1_ rx = epoch) then Some true else None.
Definition bank_of (i : bool) (s : GroupReplaySender) : GroupReplayBank := if i then gs_bank1 s else gs_bank0 s.
Definition set_bank (i : bool) (b : GroupReplayBank) (s : GroupReplaySender) : GroupReplaySender :=
  if i then mkGroupSender (gs_sender s) (gs_boot s) (gs_bank0 s) b else mkGroupSender (gs_sender s) (gs_boot s) b (gs_bank1 s).
Definition replay_ok (rx : GroupRx) (s : GroupReplaySender) (epoch boot counter : Z) : bool :=
  if bool_decide (boot < gs_boot s) then false
  else if bool_decide (gs_boot s < boot) then true
  else match bank_label rx epoch with
       | Some i => window_free (bank_of i s) counter
       | None => true
       end.

Definition table (e : bool) (rx : GroupRx) : list GroupReplaySender := if e then end_rx_ rx else link_rx_ rx.
Definition set_table (e : bool) (t : list GroupReplaySender) (rx : GroupRx) : GroupRx :=
  if e then mkGroupRx (link_rx_ rx) t (replay_epoch0_ rx) (replay_epoch1_ rx) else mkGroupRx t (end_rx_ rx) (replay_epoch0_ rx) (replay_epoch1_ rx).

(** An index into the table: the entry of the sender, or one to take. *)
Fixpoint find_from (p : GroupReplaySender → bool) (i : nat) (t : list GroupReplaySender) : option nat :=
  match t with [] => None | s :: t => if p s then Some i else find_from p (S i) t end.
Definition find_sender (c : SecurityContext) (rx : GroupRx) : option nat := find_from (λ s, bool_decide (gs_sender s = sender c)) 0 (table (is_end c) rx).
Definition live_bank (k : KeyPhase) (st : SiteStore) (rx : GroupRx) (s : GroupReplaySender) : bool :=
  (negb (bool_decide (gb_bitmap (gs_bank0 s) = 0)) && accepts (replay_epoch0_ rx) k st) ||
  (negb (bool_decide (gb_bitmap (gs_bank1 s) = 0)) && accepts (replay_epoch1_ rx) k st).
Definition free_sender (e : bool) (k : KeyPhase) (st : SiteStore) (rx : GroupRx) : option (nat * GroupRx) :=
  match find_from (λ s, bool_decide (gs_sender s = 0)) 0 (table e rx) with
  | Some i => Some (i, rx)
  | None =>
      if e then None
      else match find_from (λ s, negb (live_bank k st rx s)) 0 (link_rx_ rx) with
           | Some i => Some (i, set_table false (<[i := no_sender]> (link_rx_ rx)) rx)
           | None => None
           end
  end.

(** The bank of [epoch]; a new epoch takes a label that is no longer
    accepted, and that bank is cleared in every entry. *)
Definition relabel (epoch : Z) (k : KeyPhase) (st : SiteStore) (rx : GroupRx) : bool * GroupRx :=
  match bank_label rx epoch with
  | Some i => (i, rx)
  | None =>
      let i := accepts (replay_epoch0_ rx) k st in
      let wipe := fmap (M:=list) (set_bank i no_bank) in
      (i, if i then mkGroupRx (wipe (link_rx_ rx)) (wipe (end_rx_ rx)) (replay_epoch0_ rx) epoch
          else mkGroupRx (wipe (link_rx_ rx)) (wipe (end_rx_ rx)) epoch (replay_epoch1_ rx))
  end.
Definition adopt_sender (peer : NodeId) (boot : Z) (s : GroupReplaySender) : GroupReplaySender :=
  if bool_decide (gs_boot s < boot) || bool_decide (gs_sender s = 0) then mkGroupSender peer boot no_bank no_bank
  else mkGroupSender peer (gs_boot s) (gs_bank0 s) (gs_bank1 s).
Definition replay_commit (e : bool) (at_ : nat) (peer : NodeId) (epoch boot counter : Z) (k : KeyPhase) (st : SiteStore) (rx : GroupRx) : GroupRx :=
  let rx1 := set_table e (alter (adopt_sender peer boot) at_ (table e rx)) rx in
  let '(i, rx2) := relabel epoch k st rx1 in
  set_table e (alter (λ s, set_bank i (window_add (bank_of i s) counter) s) at_ (table e rx2)) rx2.

Section Provider.
Context (cert_decode : list Z → result CertClaims) {ST : Type} `{RecordSlotStorage ST} (sha256 : list Z → list Z) (hmac : list Z → list Z → list Z) {AG : AeadGcm}.
Abbreviation Node := (GroupNode ST).
Abbreviation kready n := (ready (g_keys n) (g_store n)).

Definition with_rx (rx : GroupRx) (n : Node) : Node := mkGroupNode _ (g_keys n) (g_store n) (g_storage n) rx (g_tx n) (g_self n) (g_revocations n) (revoked_tx_attempts_ n).
Definition with_gtx (tx : GroupTx) (n : Node) : Node := mkGroupNode _ (g_keys n) (g_store n) (g_storage n) (g_rx n) tx (g_self n) (g_revocations n) (revoked_tx_attempts_ n).
Definition with_attempts (a : Z) (n : Node) : Node := mkGroupNode _ (g_keys n) (g_store n) (g_storage n) (g_rx n) (g_tx n) (g_self n) (g_revocations n) a.
Definition on_keys {A} (m : M (KeyPhase * (SiteStore * ST)) A) : M Node A := λ n,
  let '(r, (k, (s, st))) := m (g_keys n, (g_store n, g_storage n)) in
  (r, mkGroupNode _ k s st (g_rx n) (g_tx n) (g_self n) (g_revocations n) (revoked_tx_attempts_ n)).

Definition revoked_group_sender (n : Node) (node : NodeId) (epoch : Z) : bool :=
  match g_revocations n with
  | Some set =>
      has_site (g_store n) && bool_decide (gr_site_id set = st_site_id (site_ (g_store n))) && bool_decide (gr_network set = st_network (site_ (g_store n))) &&
      revocation_blocks_group_sender set node (if bool_decide (epoch = 0) then current (g_keys n) (g_store n) else epoch)
  | None => false
  end.

Definition allowed_sender (n : Node) (c : SecurityContext) : bool :=
  let r := site_ (g_store n) in
  negb (is_end c) || existsb (λ g, bool_decide (g = sender c)) (take (Z.to_nat (gateway_count r)) (gateways r)).

(** [material]: the checks, then the key. *)
Definition frame_info (c : SecurityContext) : list Z :=
  if is_end c then end_info (epoch c) (group_id c) (sender c) (sender_boot c) else bcast_info (group_epoch c) (sender c) (epoch c).
Definition frame_key (prk : list Z) (c : SecurityContext) : result (list Z * list Z) :=
  if is_end c then group_end_key hmac prk (epoch c) (group_id c) (sender c) (sender_boot c) else group_bcast_key hmac prk (group_epoch c) (sender c) (epoch c).
Definition bound_context (n : Node) (c : SecurityContext) (transmit : bool) : bool :=
  let k := g_keys n in let st := g_store n in
  negb (bool_decide (network c = 0) || negb (bool_decide (network c = u32 (knetwork k st))) || bool_decide (sender c = kInvalidNodeId) || bool_decide (sender c = kBroadcastNodeId) ||
        negb (bool_decide (receiver c = kBroadcastNodeId)) || bool_decide (frame_boot c = 0) || bool_decide (frame_epoch c = 0) ||
        (transmit && (negb (bool_decide (sender c = g_self n)) || negb (tx_ready k st) || negb (bool_decide (frame_epoch c = current k st)) ||
                      (bool_decide (scope c = GroupLink) && negb (bool_decide (frame_boot c = boot_ k)))))).
Definition material (n : Node) (c : SecurityContext) (transmit : bool) : result (list Z * list Z) :=
  guard_err (negb (bound_context n c transmit)) AuthorizationFailed "group context binding";;
  guard_err (is_end c && (negb (is_group_address (group_id c)) || negb (bool_decide (group_epoch c = 0)) || negb (allowed_sender n c))) AuthorizationFailed "group end binding";;
  guard_err (bool_decide (scope c = GroupLink) && (negb (bool_decide (sender_boot c = 0)) || negb (bool_decide (group_id c = 0)))) AuthorizationFailed "group link binding";;
  guard_err (transmit && revoked_group_sender n (sender c) (frame_epoch c)) AuthorizationFailed "group sender revoked";;
  prk ← derive hmac (frame_epoch c) (g_keys n) (g_store n);
  frame_key prk c.

(** *** Reads *)
Definition group_tx_epoch (n : Node) (sc : SecurityScope) (peer : NodeId) : result Z :=
  guard_err (negb (bool_decide (sc = Group)) || negb (bool_decide (peer = kBroadcastNodeId)) || negb (tx_ready (g_keys n) (g_store n))) AuthRequired "group TX unavailable";;
  Ok (current (g_keys n) (g_store n)).
Definition tx_group_link_epochs (n : Node) : result (Z * Z) :=
  guard_err (negb (tx_ready (g_keys n) (g_store n))) AuthRequired "group TX unavailable";;
  Ok (boot_ (g_keys n), current (g_keys n) (g_store n)).

Definition group_context_state (n : Node) : ContextState := if tx_ready (g_keys n) (g_store n) then Ready else StateNone.

(** *** Sending *)
Definition tx_next (e : bool) (tx : GroupTx) : Z := if e then end_tx_ tx else link_tx_ tx.
Definition tx_sealed (e : bool) (tx : GroupTx) : option Z := if e then end_sealed_ tx else link_sealed_ tx.
Definition draw (e : bool) (tx : GroupTx) : GroupTx :=
  if e then mkGroupTx (link_tx_ tx) (u64 (end_tx_ tx + 1)) (link_sealed_ tx) (end_sealed_ tx) else mkGroupTx (u64 (link_tx_ tx + 1)) (end_tx_ tx) (link_sealed_ tx) (end_sealed_ tx).
Definition burn (e : bool) (counter : Z) (tx : GroupTx) : GroupTx :=
  if e then mkGroupTx (link_tx_ tx) (end_tx_ tx) (link_sealed_ tx) (Some counter) else mkGroupTx (link_tx_ tx) (end_tx_ tx) (Some counter) (end_sealed_ tx).

Definition group_next_counter (c : SecurityContext) : M Node Z :=
  n ← getS;
  (if bool_decide (sender c = g_self n) && revoked_group_sender n (g_self n) (frame_epoch c) && negb (bool_decide (revoked_tx_attempts_ n = UINT32_MAX))
   then modifyS (with_attempts (revoked_tx_attempts_ n + 1)) else mret tt);;
  lift (material n c true);;
  let next := tx_next (is_end c) (g_tx n) in
  fail_if (bool_decide (kMaxCryptoCounter < next)) RecoveryRequired "group counter exhausted";;
  modifyS (with_gtx (draw (is_end c) (g_tx n)));;
  mret next.

Definition seal_bounds (n : Node) (c : SecurityContext) (counter : Z) (plaintext : list Z) (room : nat) : bool :=
  let e := is_end c in
  bool_decide (tx_next e (g_tx n) ≤ counter) || match tx_sealed e (g_tx n) with Some x => bool_decide (counter ≤ x) | None => false end ||
  bool_decide (kMaxCryptoCounter < counter) || negb (bool_decide (room = length plaintext)) || (kMaxEspNowBody - kAeadTagSize <? length plaintext)%nat.
Definition group_seal (c : SecurityContext) (counter : Z) (aad plaintext : list Z) (room : nat) : M Node (list Z * list Z) :=
  n ← getS;
  fail_if (seal_bounds n c counter plaintext room) InvalidArgument "group seal bounds";;
  modifyS (with_gtx (burn (is_end c) counter (g_tx n)));;
  '(key, iv) ← lift (material n c true);
  nonce ← lift (aead_nonce iv counter);
  match aead_seal key nonce aad plaintext with
  | Some sealed => mret sealed
  | None => throw IntegrityError "group seal failed"
  end.

(** *** Receiving *)

(** The entry the frame is checked against; a sender without one takes an
    entry before the tag is checked. *)
Definition replay_slot (c : SecurityContext) (counter : Z) : M Node nat :=
  n ← getS;
  match find_sender c (g_rx n) with
  | Some i =>
      match table (is_end c) (g_rx n) !! i with
      | Some s => fail_if (negb (replay_ok (g_rx n) s (frame_epoch c) (frame_boot c) counter)) Conflict "group replay";; mret i
      | None => mret i
      end
  | None =>
      match free_sender (is_end c) (g_keys n) (g_store n) (g_rx n) with
      | Some (i, rx) => modifyS (with_rx rx);; mret i
      | None => throw NoCapacity "group sender table full"
      end
  end.
(** The key, the entry, the tag and the revocation of the sender. *)
Definition open_frame (c : SecurityContext) (counter : Z) (aad ciphertext tag : list Z) : M Node (nat * list Z) :=
  n ← getS;
  '(key, iv) ← lift (material n c false);
  i ← replay_slot c counter;
  nonce ← lift (aead_nonce iv counter);
  match aead_open key nonce aad ciphertext tag with
  | None => throw AuthorizationFailed "group tag invalid"
  | Some plaintext =>
      fail_if (revoked_group_sender n (sender c) (frame_epoch c)) AuthorizationFailed "group sender revoked";;
      mret (i, plaintext)
  end.
Definition group_open (c : SecurityContext) (counter : Z) (aad ciphertext tag : list Z) (room : nat) : M Node (list Z) :=
  fail_if (bool_decide (kMaxCryptoCounter < counter) || negb (bool_decide (room = length ciphertext)) || (kMaxEspNowBody - kAeadTagSize <? length ciphertext)%nat)
    ProtocolError "group open bounds";;
  '(i, plaintext) ← open_frame c counter aad ciphertext tag;
  n ← getS;
  if bool_decide (frame_epoch c = gk_epoch_next (site_ (g_store n))) then
    on_keys (advance cert_decode sha256 (mkGroupInput GAuthenticatedNext (frame_epoch c) zero_key 0 0 10) 0);;
    throw Busy "group promotion pending"
  else
    modifyS (with_rx (replay_commit (is_end c) i (sender c) (frame_epoch c) (frame_boot c) counter (g_keys n) (g_store n) (g_rx n)));;
    mret plaintext.
End Provider.

(** * A sealed frame opens *)

Section Delivery.
Context (cert_decode : list Z → result CertClaims) {ST : Type} `{RecordSlotStorage ST} (sha256 : list Z → list Z) (hmac : list Z → list Z → list Z) `{AeadGcmLaws}.
Abbreviation Node := (GroupNode ST).

(** [m] is ready with the network and current key of [n], knows the sender as
    a gateway if the frame is for a group address, has not revoked it, and has
    an entry in which the counter is new, or can take one. *)
Record hears (n m : Node) (c : SecurityContext) (counter : Z) : Prop := {
  hr_ready : ready (g_keys m) (g_store m) = true;
  hr_site : site_ok cert_decode (g_store m);
  hr_network : st_network (site_ (g_store m)) = st_network (site_ (g_store n));
  hr_epoch : gk_epoch_current (site_ (g_store m)) = gk_epoch_current (site_ (g_store n));
  hr_key : gk_current (site_ (g_store m)) = gk_current (site_ (g_store n));
  hr_gateway : allowed_sender m c = true;
  hr_revoked : revoked_group_sender m (sender c) (frame_epoch c) = false;
  hr_slot : match find_sender c (g_rx m) with
            | Some i => ∀ s, table (is_end c) (g_rx m) !! i = Some s → replay_ok (g_rx m) s (frame_epoch c) (frame_boot c) counter = true
            | None => free_sender (is_end c) (g_keys m) (g_store m) (g_rx m) ≠ None
            end }.

Lemma hears_material n m c counter k : hears n m c counter → material hmac n c true = Ok k → material hmac m c false = Ok k ∧ frame_epoch c = gk_epoch_current (site_ (g_store m)).
Proof using.
  intros [Hr _ Hnet Hep Hk Hg _ _] Hm. unfold material in Hm. apply guard_err_bind in Hm as [Hb Hm]. apply guard_err_bind in Hm as [He Hm]. apply guard_err_bind in Hm as [Hl Hm]. apply guard_err_bind in Hm as [_ Hm].
  apply negb_false_iff in Hb. unfold bound_context in Hb. apply negb_true_iff in Hb. rewrite !orb_false_iff in Hb. destruct Hb as [[[[[[[B1 B2] B3] B4] B5] B6] B7] B8]. cbn [andb] in B8. rewrite !orb_false_iff in B8. destruct B8 as [[[_ T1] T2] _].
  apply negb_false_iff in T1, T2. apply bool_decide_eq_true in T2. unfold tx_ready in T1. rewrite !andb_true_iff in T1. destruct T1 as [[Hrn _] _]. unfold current in T2. rewrite Hrn in T2.
  assert (Kn : knetwork (g_keys m) (g_store m) = knetwork (g_keys n) (g_store n)) by (unfold knetwork; by rewrite Hr, Hrn, Hnet).
  split; [|congruence]. unfold material. assert (Hbm : bound_context m c false = true) by (unfold bound_context; rewrite Kn; cbn [andb]; by rewrite B1, B2, B3, B4, B5, B6, B7).
  rewrite Hbm, Hl, Hg. cbn [negb andb]. assert (Ha : is_end c && (negb (is_group_address (group_id c)) || negb (bool_decide (group_epoch c = 0)) || false) = false).
  { destruct (is_end c); [|done]. cbn [andb] in *. rewrite !orb_false_iff in He |- *. tauto. }
  rewrite Ha. cbn [guard_err]. rewrite !bind_Ok. apply result_bind_inv in Hm as (prk & Hd & Hf). assert (Hdm : derive hmac (frame_epoch c) (g_keys m) (g_store m) = Ok prk).
  { unfold derive in *. rewrite Hrn in Hd. rewrite Hr, B7 in *. cbn [negb orb guard_err] in *. rewrite !bind_Ok in *. rewrite T2 in *. rewrite Hep, Hnet, Hk. by rewrite bool_decide_eq_true_2 in * by done. }
  by rewrite Hdm, bind_Ok.
Qed.

(** C15: a frame sealed by one node opens at another that [hears] it to what
    was sealed: the receiver is ready with a valid site record of the same
    network and current group key, has the sender among its gateways when the
    frame is of the end scope, has not revoked it, and has an entry in which
    the counter is new or can take one. Both derive the same key from the
    network, the current group key and the context, the receiver makes the
    checks of a receiver only, and the bounds of the sender are within those
    of the receiver. The AEAD opens what it sealed. *)
Theorem group_frame_delivered (n m : Node) c counter aad pt room ct tag n' :
  group_seal hmac c counter aad pt room n = (Ok (ct, tag), n') → hears n m c counter →
  fst (group_open cert_decode sha256 hmac c counter aad ct tag (length ct) m) = Ok pt.
Proof using All.
  intros Es Hh. unfold group_seal, mbind, M_bind, getS, fail_if, throw, modifyS, lift, mret, M_ret in Es. destruct (seal_bounds n c counter pt room) eqn:Hsb; [done|].
  destruct (material hmac n c true) as [[key iv]|cd d] eqn:Hm; [|done]. destruct (aead_nonce iv counter) as [nonce|cd d] eqn:Hn; [|done]. destruct (aead_seal key nonce aad pt) as [[ct' tag']|] eqn:Ha; [|done]. injection Es as -> -> _.
  destruct (aead_shape _ _ _ _ _ _ Ha) as [Hl _]. pose proof (aead_inverse _ _ _ _ _ _ Ha) as Ho. destruct (hears_material _ _ _ _ _ Hh Hm) as [Hmm Hce]. destruct Hh as [Hr Hs _ _ _ _ Hrev Hslot].
  unfold seal_bounds in Hsb. rewrite !orb_false_iff in Hsb. destruct Hsb as [[[_ Hb3] _] Hb5].
  unfold group_open, mbind at 1, M_bind at 1, fail_if, throw. rewrite Hb3, Hl, Hb5, (bool_decide_eq_true_2 (length pt = length pt)) by done. cbn [negb orb]. unfold mret, M_ret, mbind at 1, M_bind at 1.
  assert (Hframe : ∃ i m', open_frame hmac c counter aad ct tag m = (Ok (i, pt), m') ∧ g_store m' = g_store m).
  { unfold open_frame, mbind at 1, M_bind at 1, getS, mbind at 1, M_bind at 1, lift. rewrite Hmm. unfold mbind at 1, M_bind at 1. assert (Hsl : ∃ i m', replay_slot c counter m = (Ok i, m') ∧ g_store m' = g_store m).
    { unfold replay_slot, mbind, M_bind, getS, fail_if, throw, modifyS, mret, M_ret. destruct (find_sender c (g_rx m)) as [i|].
      - destruct (table (is_end c) (g_rx m) !! i) as [s|] eqn:Hi; [rewrite (Hslot s eq_refl)|]; by exists i, m.
      - destruct (free_sender _ _ _ _) as [[i rx]|]; [|done]. by eexists i, _. }
    destruct Hsl as (i & m' & -> & Hst). unfold mbind, M_bind. rewrite Hn, Ho. unfold fail_if. rewrite Hrev. by exists i, m'. }
  destruct Hframe as (i & m' & -> & Hst). unfold mbind at 1, M_bind at 1, getS. cbn beta. rewrite Hst. destruct (ready_bound _ _ Hr) as (_ & _ & Hhs & _). destruct (site_epochs cert_decode _ Hs Hhs) as [Hc0 Hx].
  rewrite bool_decide_eq_false_2 by lia. done.
Qed.
End Delivery.
