(* ===== verification/GroupRun.v ===== *)
(** * Group traffic: runs

    A boot of a node as any sequence of operations on its site store, its
    group keys and its group traffic; a life as any sequence of boots; and
    that no life uses a nonce twice. *)

From S2P Require Import Prelude Types SessionBank SealedSlots SiteStore GroupKeys GroupSecurity.

(** An accepted frame: its scope, sender, epoch, boot and counter. *)
Record Frame := mkFrame { f_end : bool; f_sender : NodeId; f_epoch : Z; f_boot : Z; f_counter : Z }.
Definition frame_of (c : SecurityContext) (counter : Z) : Frame := mkFrame (is_end c) (sender c) (frame_epoch c) (frame_boot c) counter.

Section Run.
Context (cert_decode : list Z → result CertClaims) {ST : Type} `{RecordSlotStorage ST} (sha256 : list Z → list Z) (hmac : list Z → list Z → list Z) {AG : AeadGcm}.
Abbreviation Node := (GroupNode ST).

(** The boot number of this boot, what was sealed in all boots, what was
    accepted in this one, and the sessions that earlier boots sealed in:
    all up to [gw_floor]; [gw_top] is the highest so far. *)
Record GroupWorld := mkGroupWorld {
  gw_node : Node; gw_boot : Z; gw_floor : Z; gw_top : Z; gw_sealed : list (list Z * Z); gw_accepted : list Frame }.
Definition with_gnode (n : Node) (w : GroupWorld) : GroupWorld := mkGroupWorld n (gw_boot w) (gw_floor w) (gw_top w) (gw_sealed w) (gw_accepted w).

Inductive GOp :=
  | GSite (op : SiteOp)
  | GKey (i : GroupInput) (now : Z)
  | GSelf (self : NodeId)
  | GRevoke (set : option GroupRevocations)
  | GNext (c : SecurityContext)
  | GSeal (c : SecurityContext) (counter : Z) (aad plaintext : list Z) (room : nat)
  | GOpen (c : SecurityContext) (counter : Z) (aad ciphertext tag : list Z) (room : nat).

(** The call of the AEAD that a seal makes: the input of its key and the counter. *)
Definition seal_use (n : Node) (c : SecurityContext) (counter : Z) (plaintext : list Z) (room : nat) : option (list Z * Z) :=
  if seal_bounds n c counter plaintext room then None
  else match material hmac n c true with Ok _ => Some (frame_info c, counter) | Err _ _ => None end.

Definition on_site (m : SiteM unit) (n : Node) : Node :=
  let '(_, (s, st)) := m (g_store n, g_storage n) in mkGroupNode _ (g_keys n) s st (g_rx n) (g_tx n) (g_self n) (g_revocations n) (revoked_tx_attempts_ n).
Definition gstep (op : GOp) (w : GroupWorld) : GroupWorld :=
  let n := gw_node w in
  match op with
  | GSite op => with_gnode (on_site (site_op cert_decode sha256 op) n) w
  | GKey i now => with_gnode (snd (on_keys (advance cert_decode sha256 i now) n)) w
  | GSelf self => with_gnode (mkGroupNode _ (g_keys n) (g_store n) (g_storage n) (g_rx n) (g_tx n) self (g_revocations n) (revoked_tx_attempts_ n)) w
  | GRevoke set => with_gnode (mkGroupNode _ (g_keys n) (g_store n) (g_storage n) (g_rx n) (g_tx n) (g_self n) set (revoked_tx_attempts_ n)) w
  | GNext c => with_gnode (snd (group_next_counter hmac c n)) w
  | GSeal c counter aad plaintext room =>
      let n' := snd (group_seal hmac c counter aad plaintext room n) in
      match seal_use n c counter plaintext room with
      | Some u => mkGroupWorld n' (gw_boot w) (gw_floor w) (if is_end c then Z.max (gw_top w) (sender_boot c) else gw_top w) (u :: gw_sealed w) (gw_accepted w)
      | None => with_gnode n' w
      end
  | GOpen c counter aad ciphertext tag room =>
      let '(r, n') := group_open cert_decode sha256 hmac c counter aad ciphertext tag room n in
      mkGroupWorld n' (gw_boot w) (gw_floor w) (gw_top w) (gw_sealed w) (if is_ok r then frame_of c counter :: gw_accepted w else gw_accepted w)
  end.
Fixpoint gsteps (ops : list GOp) (w : GroupWorld) : GroupWorld := match ops with [] => w | op :: ops => gsteps ops (gstep op w) end.

(** The next boot: everything in RAM is new; the storage may hold anything. *)
Definition gboot (boot : Z) (st : ST) (self : NodeId) (w : GroupWorld) : GroupWorld :=
  mkGroupWorld (mkGroupNode _ new_phase new_site_store st new_rx new_tx self None 0) boot (gw_top w) (gw_top w) (gw_sealed w) [].
Record GBoot := mkGBoot { gb_boot : Z; gb_storage : ST; gb_self : NodeId; gb_ops : list GOp }.
Definition run_gboot (b : GBoot) (w : GroupWorld) : GroupWorld := gsteps (gb_ops b) (gboot (gb_boot b) (gb_storage b) (gb_self b) w).
Definition factory (st : ST) : GroupWorld := gboot 0 st 0 (mkGroupWorld (mkGroupNode _ new_phase new_site_store st new_rx new_tx 0 None 0) 0 0 0 [] []).
Definition run_gboots (bs : list GBoot) (w : GroupWorld) : GroupWorld := foldl (λ w b, run_gboot b w) w bs.

(** What the owner owes: a start with the boot number of this boot, and in no
    boot a return to an older epoch; contexts at their widths; an end frame
    in a session of its own boot. *)
Record gcontext_typed (c : SecurityContext) : Prop := {
  gt_scope : group_scope (scope c) = true; gt_sender : is_u64 (sender c); gt_epoch : is_u32 (epoch c); gt_gepoch : is_u32 (group_epoch c); gt_boot : is_u32 (sender_boot c); gt_group : is_u64 (group_id c) }.
Definition gmay (w : GroupWorld) (op : GOp) : Prop :=
  match op with
  | GKey i _ => gi_op i = GStart → gi_boot i = gw_boot w ∧ bound_current_ (g_keys (gw_node w)) ≤ gk_epoch_current (site_ (g_store (gw_node w)))
  | GNext c => gcontext_typed c
  | GSeal c counter _ _ _ => gcontext_typed c ∧ is_u64 counter ∧ (is_end c = true → gw_floor w < sender_boot c)
  | GOpen c counter _ _ _ _ => gcontext_typed c ∧ is_u64 counter
  | _ => True
  end.
Fixpoint glawful (ops : list GOp) (w : GroupWorld) : Prop := match ops with [] => True | op :: ops => gmay w op ∧ glawful ops (gstep op w) end.
Fixpoint boots_lawful (bs : list GBoot) (w : GroupWorld) : Prop :=
  match bs with
  | [] => True
  | b :: bs => gw_boot w < gb_boot b ∧ is_u32 (gb_boot b) ∧ glawful (gb_ops b) (gboot (gb_boot b) (gb_storage b) (gb_self b) w) ∧ boots_lawful bs (run_gboot b w)
  end.

(** ** Sealing *)

Lemma be_bytes4_inj a b : is_u32 a → is_u32 b → be_bytes 4 a = be_bytes 4 b → a = b.
Proof using. intros Ha Hb E. rewrite <- (be_value_be_bytes 32 4 a), <- (be_value_be_bytes 32 4 b); [by rewrite E|lia|done|lia|done]. Qed.

Lemma frame_info_inj c d : gcontext_typed c → gcontext_typed d → frame_info c = frame_info d → is_end c = is_end d ∧ frame_boot c = frame_boot d.
Proof using.
  intros [_ _ Tc _ Tc' _] [_ _ Td _ Td' _]. unfold frame_info, frame_boot. destruct (is_end c), (is_end d); intros E; try (split; [done|]).
  - unfold end_info, info in E. rewrite !app_assoc in E. apply app_inj_2 in E as [_ E]; [|done]. by apply be_bytes4_inj.
  - apply (f_equal (λ l, l !! 13%nat)) in E. done.
  - apply (f_equal (λ l, l !! 13%nat)) in E. done.
  - unfold bcast_info, info in E. rewrite !app_assoc in E. apply app_inj_2 in E as [_ E]; [|done]. by apply be_bytes4_inj.
Qed.
End Run.

(** * No nonce twice *)

Section Nonces.
Context (cert_decode : list Z → result CertClaims) {ST : Type} `{RecordSlotStorage ST} (sha256 : list Z → list Z) (hmac : list Z → list Z → list Z) {AG : AeadGcm}.
Abbreviation Node := (GroupNode ST).
Abbreviation GroupWorld := (@GroupWorld ST).
Abbreviation gstep := (gstep cert_decode sha256 hmac).
Abbreviation gsteps := (gsteps cert_decode sha256 hmac).

(** ** What the operations do to a node *)

Lemma seal_node c counter aad pt room (n : Node) :
  snd (group_seal hmac c counter aad pt room n) = if seal_bounds n c counter pt room then n else with_gtx (burn (is_end c) counter (g_tx n)) n.
Proof using.
  unfold group_seal, mbind, M_bind, getS, fail_if, throw, modifyS, lift, mret, M_ret. destruct (seal_bounds n c counter pt room); [done|].
  destruct (material hmac n c true) as [[key iv]|cd d]; [|done]. destruct (aead_nonce iv counter) as [nonce|cd d]; [|done]. by destruct (aead_seal key nonce aad pt).
Qed.
Lemma next_node c (n : Node) :
  let n' := snd (group_next_counter hmac c n) in
  g_keys n' = g_keys n ∧ g_store n' = g_store n ∧ g_rx n' = g_rx n ∧
  (g_tx n' = g_tx n ∨ (g_tx n' = draw (is_end c) (g_tx n) ∧ tx_next (is_end c) (g_tx n) ≤ kMaxCryptoCounter)).
Proof using.
  unfold group_next_counter, mbind, M_bind, getS, fail_if, throw, modifyS, lift, mret, M_ret. destruct (_ && _ && _); cbn [fst snd]; destruct (material hmac n c true) as [[key iv]|cd d]; try (split_and!; by auto);
    destruct (bool_decide_reflect (kMaxCryptoCounter < tx_next (is_end c) (g_tx n))); cbn; split_and!; auto; right; split; [done|lia|done|lia].
Qed.

(** The replay slot takes an entry, or leaves the windows. *)
Lemma slot_node c counter (n : Node) r n' : replay_slot c counter n = (r, n') →
  n' = with_rx (g_rx n') n ∧
  (g_rx n' = g_rx n ∨ ∃ i, find_sender c (g_rx n) = None ∧ free_sender (is_end c) (g_keys n) (g_store n) (g_rx n) = Some (i, g_rx n')).
Proof using.
  unfold replay_slot, mbind, M_bind, getS, fail_if, throw, modifyS, mret, M_ret. assert (Hid : ∀ m : Node, m = with_rx (g_rx m) m) by (by intros []).
  destruct (find_sender c (g_rx n)) as [i|] eqn:Hf.
  - destruct (_ !! i); [destruct (negb _)|]; intros [= <- <-]; split; auto.
  - destruct (free_sender _ _ _ _) as [[i rx]|] eqn:Hfr; intros [= <- <-]; [|by split; auto]. split; [done|]. right. by exists i.
Qed.
Lemma frame_node c counter aad ct tag (n : Node) r n' : open_frame hmac c counter aad ct tag n = (r, n') →
  n' = with_rx (g_rx n') n ∧
  (g_rx n' = g_rx n ∨ is_ok (material hmac n c false) = true ∧ ∃ i, find_sender c (g_rx n) = None ∧ free_sender (is_end c) (g_keys n) (g_store n) (g_rx n) = Some (i, g_rx n')).
Proof using.
  unfold open_frame, mbind at 1, M_bind at 1, getS, mbind at 1, M_bind at 1, lift. assert (Hid : ∀ m : Node, m = with_rx (g_rx m) m) by (by intros []).
  destruct (material hmac n c false) as [[key iv]|cd d]; [|intros [= <- <-]; split; auto]. unfold mbind at 1, M_bind at 1. destruct (replay_slot c counter n) as [rs n1] eqn:Es.
  destruct (slot_node _ _ _ _ _ Es) as [H1 H2]. intros Hx. assert (n' = n1) as ->; [|split; [done|]; destruct H2; auto].
  destruct rs as [i|cd d]; [|by injection Hx as _ <-]. unfold mbind, M_bind in Hx. destruct (aead_nonce iv counter) as [nonce|cd d]; [|by injection Hx as _ <-].
  destruct (aead_open key nonce aad ct tag); [|by injection Hx as _ <-]. unfold fail_if, throw, mret, M_ret in Hx. destruct (revoked_group_sender _ _ _); by injection Hx as _ <-.
Qed.

(** ** The keys and the store *)

Record node_ok (w : GroupWorld) : Prop := {
  no_site_ok : site_ok cert_decode (g_store (gw_node w)); no_phase : phase_ok (g_keys (gw_node w)); no_boots : boots (gw_boot w) (g_keys (gw_node w)) }.

(** A call of [advance]. *)
Lemma keys_step i now (n : Node) boot :
  site_ok cert_decode (g_store n) → phase_ok (g_keys n) → boots boot (g_keys n) →
  (gi_op i = GStart → gi_boot i = boot ∧ bound_current_ (g_keys n) ≤ gk_epoch_current (site_ (g_store n))) →
  let n' := snd (on_keys (advance cert_decode sha256 i now) n) in
  (site_ok cert_decode (g_store n') ∧ phase_ok (g_keys n') ∧ boots boot (g_keys n')) ∧ turn (g_keys n) (g_keys n') ∧ g_rx n' = g_rx n ∧ g_tx n' = g_tx n.
Proof using.
  intros Hs Hp Hb Hst. unfold on_keys. destruct (advance cert_decode sha256 i now (g_keys n, (g_store n, g_storage n))) as [r [k [s st]]] eqn:E.
  destruct (advance_moved _ _ _ _ _ _ _ _ _ _ _ _ E Hs Hp Hb Hst) as (H1 & H2 & H3 & H4). done.
Qed.

Lemma turn_refl k : turn k k.
Proof using. apply turn_keep; auto. Qed.

Lemma open_node c counter aad ct tag room (n : Node) boot r n' :
  group_open cert_decode sha256 hmac c counter aad ct tag room n = (r, n') → site_ok cert_decode (g_store n) → phase_ok (g_keys n) → boots boot (g_keys n) →
  (site_ok cert_decode (g_store n') ∧ phase_ok (g_keys n') ∧ boots boot (g_keys n')) ∧ turn (g_keys n) (g_keys n') ∧ g_tx n' = g_tx n.
Proof using.
  unfold group_open, mbind at 1, M_bind at 1, fail_if, throw. intros E Hs Hp Hb. destruct (_ || _); [injection E as <- <-; split_and!; try done; apply turn_refl|].
  unfold mret, M_ret, mbind at 1, M_bind at 1 in E. destruct (open_frame hmac c counter aad ct tag n) as [rf n1] eqn:Ef. destruct (frame_node _ _ _ _ _ _ _ _ Ef) as [Hn1 _].
  assert (Hk : g_keys n1 = g_keys n ∧ g_store n1 = g_store n ∧ g_tx n1 = g_tx n) by (by rewrite Hn1). destruct Hk as (K1 & K2 & K3).
  destruct rf as [[i pt]|cd d]; [|injection E as <- <-; rewrite K1, K2, K3; split_and!; try done; apply turn_refl].
  unfold mbind at 1, M_bind at 1, getS in E. cbn beta in E. destruct (bool_decide _).
  - set (inp := mkGroupInput _ _ _ _ _ _) in E. unfold mbind, M_bind in E. pose proof (keys_step inp 0 n1 boot) as Hkeys. rewrite K1, K2, K3 in Hkeys. specialize (Hkeys Hs Hp Hb ltac:(done)).
    destruct (on_keys _ n1) as [ra n2]. cbn [snd] in Hkeys. assert (n' = n2) as -> by (by destruct ra; injection E as _ <-). destruct Hkeys as (? & ? & _ & ?). done.
  - injection E as <- <-. cbn. rewrite K1, K2, K3. split_and!; try done. apply turn_refl.
Qed.

Lemma node_step op w : gmay w op → node_ok w → node_ok (gstep op w) ∧ turn (g_keys (gw_node w)) (g_keys (gw_node (gstep op w))).
Proof using.
  intros Hm [Hs Hp Hb]. destruct op; cbn [GroupRun.gstep].
  - unfold on_site. pose proof (site_op_ok cert_decode sha256 op (g_store (gw_node w), g_storage (gw_node w)) Hs) as Hx. destruct (site_op _ _ op _) as [r [s st]]. split; [by split|apply turn_refl].
  - destruct (keys_step i now (gw_node w) (gw_boot w) Hs Hp Hb Hm) as ((? & ? & ?) & ? & _). by split; [split|].
  - split; [by split|apply turn_refl].
  - split; [by split|apply turn_refl].
  - destruct (next_node c (gw_node w)) as (K1 & K2 & _). split; [|cbn; rewrite K1; apply turn_refl]. split; cbn; rewrite ?K1, ?K2; done.
  - rewrite seal_node. destruct (seal_use _ _ _ _ _ _) as [u|]; destruct (seal_bounds _ _ _ _ _); (split; [by split|apply turn_refl]).
  - destruct (group_open _ _ _ _ _ _ _ _ _ (gw_node w)) as [r n'] eqn:E. destruct (open_node _ _ _ _ _ _ _ (gw_boot w) _ _ E Hs Hp Hb) as ((? & ? & ?) & ? & _). by split; [split|].
Qed.

(** ** Counters *)

(** The counter was burnt in this boot. *)
Definition burnt (tx : GroupTx) (e : bool) (k : Z) : Prop := ∃ x, tx_sealed e tx = Some x ∧ k ≤ x.
Definition use_ok (w : GroupWorld) (u : list Z * Z) : Prop :=
  ∃ c, gcontext_typed c ∧ fst u = frame_info c ∧
    if is_end c then frame_boot c ≤ gw_top w ∧ (frame_boot c ≤ gw_floor w ∨ burnt (g_tx (gw_node w)) true (snd u))
    else frame_boot c ≤ gw_boot w ∧ (frame_boot c < gw_boot w ∨ burnt (g_tx (gw_node w)) false (snd u)).
Record tx_ok (w : GroupWorld) : Prop := {
  to_node : node_ok w;
  to_next e : 0 ≤ tx_next e (g_tx (gw_node w)) ≤ kMaxCryptoCounter + 1;
  to_sealed e x : tx_sealed e (g_tx (gw_node w)) = Some x → x < tx_next e (g_tx (gw_node w));
  to_uses u : u ∈ gw_sealed w → use_ok w u;
  to_floor : gw_floor w ≤ gw_top w;
  to_nodup : NoDup (gw_sealed w) }.

Lemma draw_spec e tx : 0 ≤ tx_next e tx ≤ kMaxCryptoCounter →
  (∀ e', tx_next e' (draw e tx) = if Bool.eqb e e' then tx_next e tx + 1 else tx_next e' tx) ∧ ∀ e', tx_sealed e' (draw e tx) = tx_sealed e' tx.
Proof using.
  intros Hr. assert (Hw : u64 (tx_next e tx + 1) = tx_next e tx + 1) by (apply wrap_id; unfold in_range, kMaxCryptoCounter in *; lia).
  destruct e; (split; intros []; cbn in *; done).
Qed.
Lemma burn_spec e k tx : (∀ e', tx_next e' (burn e k tx) = tx_next e' tx) ∧ ∀ e', tx_sealed e' (burn e k tx) = if Bool.eqb e e' then Some k else tx_sealed e' tx.
Proof using. destruct e; split; by intros []. Qed.

(** A use of the log when the counters only grow. *)
Lemma use_grows w w' u :
  (∀ e k, burnt (g_tx (gw_node w)) e k → burnt (g_tx (gw_node w')) e k) → gw_boot w' = gw_boot w → gw_floor w' = gw_floor w → gw_top w ≤ gw_top w' → use_ok w u → use_ok w' u.
Proof using.
  intros Hb Eb Ef Ht (c & Hc & Hi & Hu). exists c. split_and!; [done..|]. rewrite Eb, Ef. destruct (is_end c); destruct Hu as [H1 [H2|H2]]; split; first [lia|by left|right; by apply Hb].
Qed.

Lemma same_tx w w' : tx_ok w → node_ok w' → g_tx (gw_node w') = g_tx (gw_node w) → gw_boot w' = gw_boot w → gw_floor w' = gw_floor w → gw_top w' = gw_top w → gw_sealed w' = gw_sealed w → tx_ok w'.
Proof using.
  intros [H0 H1 H2 H3 H4 H5] Hn Et Eb Ef Ep Es. split; rewrite ?Et, ?Es, ?Ef, ?Ep; try done. intros u Hu. apply (use_grows w); [by rewrite Et|done|done|lia|by apply H3].
Qed.

(** A link frame is sealed under the boot number of the phase. *)
Lemma link_boot (n : Node) c k : gcontext_typed c → material hmac n c true = Ok k → is_end c = false → started_ (g_keys n) = true ∧ frame_boot c = boot_ (g_keys n).
Proof using.
  intros Hc Hmat He. unfold material, bound_context in Hmat. apply guard_err_bind in Hmat as [Hbc _]. apply negb_false_iff, negb_true_iff in Hbc. rewrite !orb_false_iff in Hbc. destruct Hbc as [_ Htx].
  cbn [andb] in Htx. rewrite !orb_false_iff in Htx. destruct Htx as [[[_ Hr] _] Hbt]. apply negb_false_iff in Hr. assert (Hsc : scope c = GroupLink).
  { pose proof (gt_scope _ Hc) as Hs. unfold group_scope in Hs. apply orb_true_iff in Hs as [?|?%bool_decide_eq_true]; [|done]. unfold is_end in He. congruence. }
  rewrite Hsc in Hbt. change (bool_decide (GroupLink = GroupLink)) with true in Hbt. cbn [andb] in Hbt. apply negb_false_iff, bool_decide_eq_true in Hbt.
  unfold tx_ready in Hr. rewrite !andb_true_iff in Hr. destruct Hr as [[Hr _] _]. by apply ready_bound in Hr as (Hst & _).
Qed.

Lemma group_seal_step c counter aad pt room w : gmay w (GSeal c counter aad pt room) → tx_ok w → tx_ok (gstep (GSeal c counter aad pt room) w).
Proof using.
  intros Hm Hw. pose proof (node_step _ _ Hm (to_node _ Hw)) as [Hn _]. destruct Hm as (Hc & Hk & Hfl). pose proof Hw as [_ H1 H2 H3 H4 H5]. revert Hn. cbn [GroupRun.gstep]. rewrite seal_node. unfold seal_use.
  destruct (seal_bounds (gw_node w) c counter pt room) eqn:Hsb; [intros Hn; by apply (same_tx w)|].
  unfold seal_bounds in Hsb. rewrite !orb_false_iff in Hsb. destruct Hsb as [[[[Hb1 Hb2] Hb3] _] _]. apply bool_decide_eq_false in Hb1, Hb3. set (e := is_end c) in *.
  destruct (burn_spec e counter (g_tx (gw_node w))) as [B1 B2]. set (tx' := burn e counter (g_tx (gw_node w))) in *.
  assert (Hgrow : ∀ e' k, burnt (g_tx (gw_node w)) e' k → burnt tx' e' k).
  { intros e' k (x & Hx & Hle). unfold burnt. rewrite B2. destruct (Bool.eqb_spec e e') as [<-|]; [|eauto]. rewrite Hx in Hb2. apply bool_decide_eq_false in Hb2. eexists. split; [done|lia]. }
  assert (Hlt : ∀ e' x, tx_sealed e' tx' = Some x → x < tx_next e' tx').
  { intros e' x. rewrite B1, B2. destruct (Bool.eqb_spec e e') as [<-|]; [|by apply H2]. intros [= <-]. lia. }
  destruct (material hmac (gw_node w) c true) as [[key iv]|cd d] eqn:Hmat; intros Hn.
  - split; cbn [gw_node gw_sealed gw_top gw_floor with_gtx g_tx]; try done.
    + intros e'. by rewrite B1.
    + assert (Hnew : frame_boot c ≤ gw_boot w ∨ e = true).
      { destruct e eqn:He; [by right|left]. destruct (link_boot _ _ _ Hc Hmat He) as [Hst ->]. by rewrite (no_boots _ (to_node _ Hw) Hst). }
      intros u [->|Hu]%elem_of_cons.
      * exists c. split_and!; [done..|]. fold e. assert (Hbu : burnt tx' e counter) by (exists counter; rewrite B2; by destruct e). destruct e eqn:He; cbn [gw_top gw_floor gw_boot gw_node with_gtx g_tx snd].
        -- unfold frame_boot. unfold e in He. rewrite He. split; [lia|by right].
        -- split; [by destruct Hnew|by right].
      * apply (use_grows w); try done; [|by apply H3]. cbn. destruct e; lia.
    + destruct e; lia.
    + constructor; [|done]. intros Hin. destruct (H3 _ Hin) as (d & Hd & Hi & Hu). cbn [fst snd] in *. destruct (frame_info_inj c d Hc Hd Hi) as [He Hb]. fold e in He. rewrite <- He, <- Hb in Hu.
      assert (Hnb : ¬ burnt (g_tx (gw_node w)) e counter). { intros (x & Hx & Hle). rewrite Hx in Hb2. apply bool_decide_eq_false in Hb2. lia. }
      destruct e eqn:Hee; destruct Hu as [_ [Hu|?]]; try done.
      * specialize (Hfl eq_refl). unfold frame_boot in Hu. unfold e in Hee. rewrite Hee in Hu. lia.
      * destruct (link_boot _ _ _ Hc Hmat Hee) as [Hst Hx]. pose proof (no_boots _ (to_node _ Hw) Hst). lia.
  - split; cbn [with_gnode gw_node gw_sealed gw_top gw_floor with_gtx g_tx]; try done.
    + intros e'. by rewrite B1.
    + intros u Hu. apply (use_grows w); try done. by apply H3.
Qed.

Lemma tx_step op w : gmay w op → tx_ok w → tx_ok (gstep op w).
Proof using.
  intros Hm Hw. pose proof (node_step _ _ Hm (to_node _ Hw)) as [Hn _]. destruct op; try (by apply group_seal_step).
  - apply (same_tx w); try done. cbn. unfold on_site. by destruct (site_op _ _ _ _) as [r [s' st]].
  - apply (same_tx w); try done. destruct Hw as [[Hs Hp Hb] _ _ _ _ _]. destruct (keys_step i now (gw_node w) (gw_boot w) Hs Hp Hb Hm) as (_ & _ & _ & Ht). exact Ht.
  - by apply (same_tx w).
  - by apply (same_tx w).
  - destruct (next_node c (gw_node w)) as (_ & _ & _ & [Ht|[Ht Hle]]); [by apply (same_tx w)|]. pose proof Hw as [_ H1 H2 H3 H4 H5].
    destruct (draw_spec (is_end c) (g_tx (gw_node w))) as [D1 D2]; [specialize (H1 (is_end c)); lia|]. split; cbn [GroupRun.gstep with_gnode gw_node gw_sealed gw_top gw_floor]; rewrite ?Ht; try done.
    + intros e. rewrite D1. destruct (Bool.eqb_spec (is_end c) e) as [<-|]; [specialize (H1 (is_end c)); lia|done].
    + intros e x. rewrite D1, D2. intros Hx%H2. destruct (Bool.eqb_spec (is_end c) e) as [<-|]; lia.
    + intros u Hu. apply (use_grows w); try done; [|by apply H3]. cbn. rewrite Ht. intros e k (x & Hx & Hle'). exists x. by rewrite D2.
  - cbn [GroupRun.gstep] in Hn |- *. destruct (group_open _ _ _ _ _ _ _ _ _ (gw_node w)) as [r n'] eqn:E. destruct Hw as [[Hs Hp Hb] ? ? ? ? ?] eqn:Hw'.
    destruct (open_node _ _ _ _ _ _ _ (gw_boot w) _ _ E Hs Hp Hb) as (_ & _ & Ht). by apply (same_tx w).
Qed.
Lemma tx_steps ops w : glawful cert_decode sha256 hmac ops w → tx_ok w → tx_ok (gsteps ops w).
Proof using. revert w. induction ops as [|op ops IH]; intros w; [done|]. intros [Hm Hl] Hw. cbn [GroupRun.gsteps]. apply IH; [done|]. by apply tx_step. Qed.

Lemma gboot_step boot st self w : tx_ok w → gw_boot w < boot → tx_ok (gboot boot st self w).
Proof using.
  intros [_ _ _ H3 H4 H5] Hb. split; try done; [intros []; cbn; unfold kMaxCryptoCounter; lia|by intros []|].
  intros u (c & Hc & Hi & Hu)%H3. exists c. split_and!; [done..|]. cbn. destruct (is_end c); destruct Hu as [Hu _]; split; first [lia|left; lia].
Qed.
Lemma factory_ok st : tx_ok (factory st).
Proof using. split; try done; [intros []; cbn; unfold kMaxCryptoCounter; lia|by intros []|by intros u ?%not_elem_of_nil|constructor]. Qed.

End Nonces.
