(* ===== verification/GroupWindows.v ===== *)
(** * Group traffic: no frame twice in a boot

    The windows of 128 link senders and 8 end senders share two labels, and
    a sender without a live window may lose its entry.  No accepted frame is
    accepted again while senders do not send under an older epoch in a newer
    boot. *)

From S2P Require Import Prelude Types SessionBank SessionBankRun SealedSlots SiteStore GroupKeys GroupSecurity GroupRun.

(** ** Tables *)

Lemma find_from_some p i t j : find_from p i t = Some j → ∃ s, (i ≤ j)%nat ∧ t !! (j - i)%nat = Some s ∧ p s = true.
Proof.
  revert i. induction t as [|s t IH]; intros i; cbn; [done|]. destruct (p s) eqn:Hp; [intros [= <-]; exists s; by rewrite Nat.sub_diag|].
  intros (x & Hle & Hl & Hx)%IH. exists x. split_and!; [lia| |done]. replace (j - i)%nat with (S (j - S i)) by lia. done.
Qed.
Lemma find_from_none p i t j s : find_from p i t = None → t !! j = Some s → p s = false.
Proof.
  revert i j. induction t as [|x t IH]; intros i j; cbn; [done|]. destruct (p x) eqn:Hp; [done|]. intros Hf. destruct j as [|j]; [by intros [= <-]|]. by apply (IH (S i)).
Qed.

Lemma table_set e e' t rx : table e' (set_table e t rx) = if Bool.eqb e e' then t else table e' rx.
Proof. by destruct e, e'. Qed.
Lemma label_set e t rx ep : bank_label (set_table e t rx) ep = bank_label rx ep.
Proof. by destruct e. Qed.
Lemma set_labels e t rx : replay_epoch0_ (set_table e t rx) = replay_epoch0_ rx ∧ replay_epoch1_ (set_table e t rx) = replay_epoch1_ rx.
Proof. by destruct e. Qed.
Lemma set_bank_sender i b s : gs_sender (set_bank i b s) = gs_sender s ∧ gs_boot (set_bank i b s) = gs_boot s.
Proof. by destruct i. Qed.
Lemma bank_of_set i j b s : bank_of j (set_bank i b s) = if Bool.eqb i j then b else bank_of j s.
Proof. by destruct i, j. Qed.

(** ** Windows *)

Definition seen (b : GroupReplayBank) (counter : Z) : Prop := replayed (gb_max b) (gb_bitmap b) counter = true ∧ gb_bitmap b ≠ 0.
Lemma window_fresh k : 0 ≤ k → window_free no_bank k = true.
Proof.
  intros Hk. unfold window_free, replayed, no_bank. cbn [gb_max gb_bitmap]. destruct (bool_decide_reflect (k ≤ 0)); [|done]. assert (k = 0) as -> by lia. done.
Qed.
Lemma lor_bit_nonzero x n : 0 ≤ n → Z.lor x (Z.shiftl 1 n) ≠ 0.
Proof. intros Hn Hz. apply (f_equal (λ z, Z.testbit z n)) in Hz. rewrite Z.lor_spec, Z.shiftl_spec, Z.sub_diag, Z.bits_0 in Hz by done. by rewrite orb_true_r in Hz. Qed.
Lemma window_add_spec b k : 0 ≤ k → window_free b k = true → seen (window_add b k) k ∧ ∀ d, seen b d → seen (window_add b k) d.
Proof.
  intros Hk Hf. unfold window_free in Hf. apply negb_true_iff in Hf. unfold window_add. destruct (slide_window (gb_max b) (gb_bitmap b) k) as [m bits] eqn:E.
  destruct (slide_window_spec _ _ _ _ _ E Hf) as [H1 H2]. assert (Hn : bits ≠ 0).
  { unfold slide_window in E. destruct (bool_decide_reflect (gb_max b < k)) as [Hlt|Hge].
    - injection E as _ <-. destruct (bool_decide _); [done|]. change 1 with (Z.shiftl 1 0). by apply lor_bit_nonzero.
    - injection E as _ <-. apply lor_bit_nonzero. lia. }
  split; [done|]. intros d [Hd _]. split; [by apply H2|done].
Qed.

(** ** The invariant *)

Definition covered (rx : GroupRx) (f : Frame) : Prop :=
  ∃ i s, table (f_end f) rx !! i = Some s ∧ gs_sender s = f_sender f ∧
    (f_boot f < gs_boot s ∨ f_boot f = gs_boot s ∧ ∃ j, bank_label rx (f_epoch f) = Some j ∧ seen (bank_of j s) (f_counter f)).
(** Link senders do not go back to an older epoch when they boot again. *)
Definition in_order (A : list Frame) : Prop :=
  ∀ f g, f ∈ A → g ∈ A → f_end f = false → f_end g = false → f_sender f = f_sender g → f_epoch f < f_epoch g → f_boot f ≤ f_boot g.

Record rx_ok (k : KeyPhase) (rx : GroupRx) (A : list Frame) : Prop := {
  ro_epochs f : f ∈ A → f_sender f ≠ 0 ∧ f_epoch f ≤ bound_current_ k ∧ (previous_epoch_ k ≠ 0 → f_epoch f ≤ previous_epoch_ k ∨ f_epoch f = bound_current_ k);
  ro_prev : previous_epoch_ k ≠ 0 → previous_epoch_ k ≤ bound_current_ k;
  ro_labels : replay_epoch0_ rx ≤ bound_current_ k ∧ replay_epoch1_ rx ≤ bound_current_ k;
  ro_unique e i j s t : table e rx !! i = Some s → table e rx !! j = Some t → gs_sender s = gs_sender t → gs_sender s ≠ 0 → i = j;
  ro_origin e i s : table e rx !! i = Some s → gs_sender s ≠ 0 → ∃ f, f ∈ A ∧ f_end f = e ∧ f_sender f = gs_sender s ∧ f_boot f = gs_boot s;
  ro_seen f : f ∈ A → in_use k (f_epoch f) → covered rx f;
  ro_nodup : NoDup A }.

Lemma rx_turn k k' rx A : turn k k' → rx_ok k rx A → rx_ok k' rx A.
Proof.
  intros Ht [H1 Hpv [L0 L1] H3 H4 H5 H6]. assert (Hle : bound_current_ k ≤ bound_current_ k') by (destruct Ht; lia). split; try done.
  - intros f Hf. destruct (H1 f Hf) as (? & ? & Hp). split_and!; [done|lia|]. intros Hn. destruct Ht as [Eb [Ep|Ep]|Eb Ep|Eb Ep]; [|congruence| |congruence].
    + rewrite Eb, Ep in *. auto.
    + left. rewrite Ep. lia.
  - intros Hn. destruct Ht as [Eb [Ep|Ep]|Eb Ep|Eb Ep]; [|congruence|lia|congruence]. rewrite Eb, Ep in *. auto.
  - lia.
  - intros f Hf Hu. apply H5; [done|]. destruct (H1 f Hf) as (_ & Hfb & _). unfold in_use in *. destruct Ht as [Eb [Ep|Ep]|Eb Ep|Eb Ep].
    + by rewrite Eb, Ep in Hu.
    + rewrite Eb, Ep in Hu. left. tauto.
    + rewrite Ep in Hu. destruct Hu as [Hu|[Hu _]]; [lia|by left].
    + rewrite Ep in Hu. left. destruct Hu as [Hu|[_ Hu]]; [lia|done].
Qed.

Section Step.
Context (cert_decode : list Z → result CertClaims).
Context (k : KeyPhase) (st : SiteStore) (Hready : ready k st = true) (Hsite : site_ok cert_decode st).

Lemma in_use_accepts e : in_use k e → accepts e k st = true.
Proof using cert_decode Hready Hsite.
  intros Hu. destruct (ready_bound _ _ Hready) as (_ & _ & Hs & Hc & _). destruct (site_epochs _ _ Hsite Hs) as [Hc0 _]. unfold accepts. rewrite Hready, Hc. cbn [andb].
  destruct Hu as [->|[-> Hn]].
  - rewrite bool_decide_eq_false_2 by congruence. rewrite (bool_decide_eq_true_2 (bound_current_ k = bound_current_ k)) by done. done.
  - rewrite bool_decide_eq_false_2 by done. rewrite (bool_decide_eq_true_2 (previous_epoch_ k = previous_epoch_ k)) by done. by rewrite !orb_true_r.
Qed.
(** A label is of an epoch in use when it is accepted. *)
Lemma accepted_label e : accepts e k st = true → e ≤ bound_current_ k → in_use k e.
Proof using cert_decode Hready Hsite.
  unfold accepts. rewrite Hready. cbn [andb]. intros [Hn Hx]%andb_true_iff Hle. apply negb_true_iff, bool_decide_eq_false in Hn. destruct (ready_bound _ _ Hready) as (_ & _ & Hs & Hc & _).
  destruct (site_epochs _ _ Hsite Hs) as [Hc0 Hnx]. rewrite !orb_true_iff, !bool_decide_eq_true in Hx. destruct Hx as [[ -> | -> ]| -> ]; [by left| |by right]. destruct Hnx as [?|?]; [congruence|lia].
Qed.

(** An entry that may be taken covers no frame that can come back. *)
Lemma evicted_unused rx A i s f : rx_ok k rx A → in_order A → link_rx_ rx !! i = Some s → live_bank k st rx s = false → gs_sender s ≠ 0 →
  f ∈ A → f_end f = false → f_sender f = gs_sender s → ¬ in_use k (f_epoch f).
Proof using cert_decode Hready Hsite.
  intros [H1 _ _ H3 H4 H5 _] Ho Hs Hlive Hn Hf He Hfs Hu. change (link_rx_ rx) with (table false rx) in Hs.
  assert (Hno : ∀ g, g ∈ A → f_end g = false → f_sender g = gs_sender s → in_use k (f_epoch g) → f_boot g < gs_boot s).
  { intros g Hg Heg Hgs Hug. destruct (H5 g Hg Hug) as (j & t & Ht & Hts & Hc). rewrite Heg in Ht. assert (j = i) as -> by (eapply (H3 false); [done|done|congruence|congruence]).
    rewrite Hs in Ht. injection Ht as <-. destruct Hc as [?|(_ & b & Hb & [_ Hnz])]; [done|]. exfalso. unfold bank_label in Hb. apply orb_false_iff in Hlive as [L0 L1].
    destruct (bool_decide_reflect (replay_epoch0_ rx = f_epoch g)) as [E0|_].
    - injection Hb as <-. rewrite E0, in_use_accepts, andb_true_r in L0 by done. apply negb_false_iff, bool_decide_eq_true in L0. done.
    - destruct (bool_decide_reflect (replay_epoch1_ rx = f_epoch g)) as [E1|_]; [|done]. injection Hb as <-. rewrite E1, in_use_accepts, andb_true_r in L1 by done. apply negb_false_iff, bool_decide_eq_true in L1. done. }
  destruct (H4 false i s Hs Hn) as (g & Hg & Heg & Hgs & Hgb). pose proof (Hno f Hf He Hfs Hu) as Hlt.
  assert (Hge : f_epoch f ≤ f_epoch g). { destruct (decide (f_epoch g < f_epoch f)) as [Hl|]; [|lia]. pose proof (Ho g f Hg Hf Heg He ltac:(congruence) Hl). lia. }
  assert (Hug : in_use k (f_epoch g)). { destruct (H1 g Hg) as (_ & Hgb' & Hgp). destruct Hu as [Hu|[Hu Hp]]; [left; lia|]. destruct (Hgp Hp) as [?|?]; [right; split; [lia|done]|by left]. }
  pose proof (Hno g Hg Heg Hgs Hug). lia.
Qed.

Lemma free_sender_ok e rx A i rx' : rx_ok k rx A → in_order A → free_sender e k st rx = Some (i, rx') →
  rx_ok k rx' A ∧ ∃ s, table e rx' !! i = Some s ∧ gs_sender s = 0.
Proof using cert_decode Hready Hsite.
  intros Hrx Ho. unfold free_sender. destruct (find_from _ 0 (table e rx)) as [j|] eqn:Hf.
  { intros [= <- <-]. split; [done|]. destruct (find_from_some _ _ _ _ Hf) as (s & _ & Hs & Hz). rewrite Nat.sub_0_r in Hs. apply bool_decide_eq_true in Hz. eauto. }
  destruct e; [done|]. destruct (find_from _ 0 (link_rx_ rx)) as [j|] eqn:Hg; [|done]. intros [= <- <-]. destruct (find_from_some _ _ _ _ Hg) as (s & _ & Hs & Hz). rewrite Nat.sub_0_r in Hs. apply negb_true_iff in Hz.
  pose proof (find_from_none _ _ _ _ _ Hf Hs) as Hns. apply bool_decide_eq_false in Hns. pose proof (lookup_lt_Some _ _ _ Hs) as Hlt.
  assert (Hl : ∀ e' x t, table e' (set_table false (<[j := no_sender]> (link_rx_ rx)) rx) !! x = Some t → t = no_sender ∨ (table e' rx !! x = Some t ∧ (e' = false → x ≠ j))).
  { intros e' x t. rewrite table_set. destruct e'; cbn [Bool.eqb table]; [by right|]. intros [(<- & <- & _)|[? ?]]%list_lookup_insert_Some; [by left|]. right. split; [done|]. intros _. congruence. }
  split; [|exists no_sender; split; [by apply list_lookup_insert_eq|done]]. change (rx_ok k (set_table false (<[j := no_sender]> (link_rx_ rx)) rx) A).
  pose proof Hrx as [H1 Hpv H2 H3 H4 H5 H6]. split; try done.
  - intros e' x y a b Ha Hb Heq Hn. apply Hl in Ha as [->|[Ha _]]; [done|]. apply Hl in Hb as [->|[Hb _]]; [cbn in Heq; congruence|]. by eapply H3.
  - intros e' x a Ha Hn. apply Hl in Ha as [->|[Ha _]]; [done|]. by eapply H4.
  - intros f Hfa Hu. destruct (H5 f Hfa Hu) as (x & a & Ha & Has & Hc). exists x, a. rewrite table_set. split_and!; [|done|exact Hc]. destruct (f_end f) eqn:He; cbn [Bool.eqb table]; [done|].
    rewrite list_lookup_insert_ne; [done|]. intros ->. cbn [table] in Ha. rewrite Hs in Ha. injection Ha as <-. by destruct (evicted_unused rx A x s f Hrx Ho Hs Hz Hns Hfa He).
Qed.

(** ** A commit *)

Lemma label_some rx e b : bank_label rx e = Some b → e = if b then replay_epoch1_ rx else replay_epoch0_ rx.
Proof using. unfold bank_label. destruct (bool_decide_reflect (replay_epoch0_ rx = e)); [by intros [= <-]|]. destruct (bool_decide_reflect (replay_epoch1_ rx = e)); [by intros [= <-]|done]. Qed.

(** There are two epochs in use at most. *)
Lemma two_in_use a b c : in_use k a → in_use k b → in_use k c → a = b ∨ a = c ∨ b = c.
Proof using. unfold in_use. intros [->|[-> _]] [->|[-> _]] [->|[-> _]]; auto. Qed.

(** What a new label does: the bank it takes is of no epoch in use. *)
Record relabelled (e : Z) (rx : GroupRx) (i : bool) (rx' : GroupRx) (W : GroupReplaySender → GroupReplaySender) : Prop := {
  rl_label : bank_label rx' e = Some i;
  rl_bound : replay_epoch0_ rx' ≤ bound_current_ k ∧ replay_epoch1_ rx' ≤ bound_current_ k;
  rl_table t : table t rx' = W <$> table t rx;
  rl_same s : gs_sender (W s) = gs_sender s ∧ gs_boot (W s) = gs_boot s;
  rl_bank s : (bank_label rx e = Some i ∧ bank_of i (W s) = bank_of i s) ∨ bank_of i (W s) = no_bank;
  rl_kept e' j s : in_use k e' → bank_label rx e' = Some j → bank_label rx' e' = Some j ∧ bank_of j (W s) = bank_of j s }.
Lemma relabel_spec e rx i rx' :
  (replay_epoch0_ rx ≤ bound_current_ k ∧ replay_epoch1_ rx ≤ bound_current_ k) → in_use k e → e ≤ bound_current_ k → relabel e k st rx = (i, rx') → ∃ W, relabelled e rx i rx' W.
Proof using cert_decode Hready Hsite.
  intros [L0 L1] Hu Hle. unfold relabel. destruct (bank_label rx e) as [b|] eqn:Hl.
  { intros [= <- <-]. exists id. split; try done; [by intros []; rewrite list_fmap_id|]. intros s. by left. }
  assert (Hne : replay_epoch0_ rx ≠ e ∧ replay_epoch1_ rx ≠ e).
  { unfold bank_label in Hl. destruct (bool_decide_reflect (replay_epoch0_ rx = e)); [done|]. by destruct (bool_decide_reflect (replay_epoch1_ rx = e)). }
  destruct Hne as [N0 N1]. destruct (accepts (replay_epoch0_ rx) k st) eqn:Ha; intros [= <- <-].
  - exists (set_bank true no_bank). split; try done; cbn [replay_epoch0_ replay_epoch1_]; [|by intros []|intros s; by right|].
    + unfold bank_label. cbn. by rewrite bool_decide_eq_false_2, bool_decide_eq_true_2.
    + intros e' j s He' Hj. pose proof (label_some _ _ _ Hj) as El. destruct j; [exfalso|].
      * assert (H0 : replay_epoch0_ rx ≠ e') by (unfold bank_label in Hj; by destruct (bool_decide_reflect (replay_epoch0_ rx = e'))). destruct (two_in_use _ _ _ (accepted_label _ Ha L0) Hu He') as [?|[?|?]]; congruence.
      * unfold bank_label. cbn. by rewrite bool_decide_eq_true_2.
  - exists (set_bank false no_bank). split; try done; cbn [replay_epoch0_ replay_epoch1_]; [|by intros []|intros s; by right|].
    + unfold bank_label. cbn. by rewrite bool_decide_eq_true_2.
    + intros e' j s He' Hj. pose proof (label_some _ _ _ Hj) as El. destruct j; [|rewrite <- El, in_use_accepts in Ha by done; done].
      unfold bank_label. cbn. by rewrite bool_decide_eq_false_2, bool_decide_eq_true_2 by congruence.
Qed.

(** The entry a frame is checked against. *)
Definition slot_for (rx : GroupRx) (e : bool) (i : nat) (peer : NodeId) (epoch boot counter : Z) (s : GroupReplaySender) : Prop :=
  table e rx !! i = Some s ∧
  (gs_sender s = peer ∧ replay_ok rx s epoch boot counter = true ∨ gs_sender s = 0 ∧ ∀ j t, table e rx !! j = Some t → gs_sender t ≠ peer).

Lemma slot_new rx A g i s : rx_ok k rx A → in_use k (f_epoch g) → f_sender g ≠ 0 →
  slot_for rx (f_end g) i (f_sender g) (f_epoch g) (f_boot g) (f_counter g) s → g ∉ A.
Proof using.
  intros [_ _ _ H3 _ H5 _] Hu Hn [Hs Hc] Hg. destruct (H5 g Hg Hu) as (j & t & Ht & Hts & Hcov). destruct Hc as [[Hsp Hok]|[_ Hno]]; [|by destruct (Hno _ _ Ht)].
  assert (j = i) as -> by (eapply (H3 (f_end g)); [done|done|congruence|congruence]). rewrite Hs in Ht. injection Ht as <-. unfold replay_ok in Hok.
  destruct (bool_decide_reflect (f_boot g < gs_boot s)) as [|Hnl]; [done|]. destruct Hcov as [?|(Hb & b & Hl & [Hse _])]; [lia|]. rewrite bool_decide_eq_false_2 in Hok by lia. rewrite Hl in Hok.
  unfold window_free in Hok. by rewrite Hse in Hok.
Qed.

Lemma adopt_sender_spec peer boot s : peer ≠ 0 → (gs_sender s = peer ∧ gs_boot s ≤ boot) ∨ gs_sender s = 0 →
  let s1 := adopt_sender peer boot s in
  gs_sender s1 = peer ∧ gs_boot s1 = boot ∧ ((∀ i, bank_of i s1 = no_bank) ∨ (gs_sender s = peer ∧ gs_boot s = boot ∧ ∀ i, bank_of i s1 = bank_of i s)).
Proof using.
  intros Hp Hc. unfold adopt_sender. destruct (bool_decide_reflect (gs_boot s < boot)) as [|Hn]; [cbn; split_and!; try done; left; by intros []|].
  destruct (bool_decide_reflect (gs_sender s = 0)) as [|Hz]; [cbn; split_and!; try done; left; by intros []|]. destruct Hc as [[Hs Hle]|?]; [|done]. cbn. split_and!; [done|lia|]. right. split_and!; [done|lia|]. by intros [].
Qed.

Lemma commit_rx rx A g i s :
  rx_ok k rx A → in_use k (f_epoch g) → f_sender g ≠ 0 → 0 ≤ f_counter g → slot_for rx (f_end g) i (f_sender g) (f_epoch g) (f_boot g) (f_counter g) s →
  rx_ok k (replay_commit (f_end g) i (f_sender g) (f_epoch g) (f_boot g) (f_counter g) k st rx) (g :: A).
Proof using cert_decode Hready Hsite.
  intros Hrx Hu Hn Hk Hslot. pose proof (slot_new rx A g i s Hrx Hu Hn Hslot) as Hnew. pose proof Hrx as [H1 Hpv H2 H3 H4 H5 H6]. destruct Hslot as [Hs Hc]. set (e := f_end g) in *.
  assert (Hle : f_epoch g ≤ bound_current_ k) by (destruct Hu as [->|[-> Hp]]; [lia|by apply Hpv]).
  assert (Hb : (gs_sender s = f_sender g ∧ gs_boot s ≤ f_boot g) ∨ gs_sender s = 0).
  { destruct Hc as [[Hsp Hok]|[? _]]; [left|by right]. split; [done|]. unfold replay_ok in Hok. destruct (bool_decide_reflect (f_boot g < gs_boot s)); [done|lia]. }
  destruct (adopt_sender_spec (f_sender g) (f_boot g) s Hn Hb) as (A1 & A2 & A3). set (s1 := adopt_sender (f_sender g) (f_boot g) s) in *.
  unfold replay_commit. set (rx1 := set_table e (alter (adopt_sender (f_sender g) (f_boot g)) i (table e rx)) rx). destruct (relabel (f_epoch g) k st rx1) as [b rx2] eqn:Er.
  assert (Hl1 : ∀ x, bank_label rx1 x = bank_label rx x) by (intros x; apply label_set). destruct (relabel_spec (f_epoch g) rx1 b rx2) as (W & [R1 R2 R3 R4 R5 R6]); [|done|done|done|].
  { unfold rx1. by destruct (set_labels e (alter (adopt_sender (f_sender g) (f_boot g)) i (table e rx)) rx) as [-> ->]. }
  set (s2 := W s1). set (s3 := set_bank b (window_add (bank_of b s2) (f_counter g)) s2). set (rx3 := set_table e _ rx2).
  assert (Hfree : window_free (bank_of b s2) (f_counter g) = true).
  { destruct (R5 s1) as [[Hlb Hbk]|Hbk]; unfold s2; rewrite Hbk; [|by apply window_fresh]. rewrite Hl1 in Hlb. destruct A3 as [A3|(A3 & A4 & A5)]; [rewrite A3; by apply window_fresh|]. rewrite A5.
    destruct Hc as [[_ Hok]|[? _]]; [|congruence]. unfold replay_ok in Hok. rewrite !bool_decide_eq_false_2 in Hok by lia. by rewrite Hlb in Hok. }
  destruct (window_add_spec _ _ Hk Hfree) as [Wn Wk].
  assert (Hat : table e rx3 !! i = Some s3).
  { unfold rx3. rewrite table_set, Bool.eqb_reflx, list_lookup_alter_eq, R3, list_lookup_fmap. unfold rx1. rewrite table_set, Bool.eqb_reflx, list_lookup_alter_eq, Hs. done. }
  assert (Hother : ∀ e' j, (e', j) ≠ (e, i) → table e' rx3 !! j = W <$> table e' rx !! j).
  { intros e' j Hne. unfold rx3. rewrite table_set. destruct (Bool.eqb_spec e e') as [<-|Hee].
    - rewrite list_lookup_alter_ne by congruence. rewrite R3, list_lookup_fmap. unfold rx1. rewrite table_set, Bool.eqb_reflx, list_lookup_alter_ne by congruence. done.
    - rewrite R3, list_lookup_fmap. unfold rx1. rewrite table_set. by destruct (Bool.eqb_spec e e'). }
  assert (Hs3 : gs_sender s3 = f_sender g ∧ gs_boot s3 = f_boot g). { unfold s3, s2. destruct (set_bank_sender b (window_add (bank_of b (W s1)) (f_counter g)) (W s1)) as [-> ->]. destruct (R4 s1) as [-> ->]. done. }
  destruct Hs3 as [S1 S2].
  assert (Hfrom : ∀ e' j t, table e' rx3 !! j = Some t → (e' = e ∧ j = i ∧ t = s3) ∨ ((e', j) ≠ (e, i) ∧ ∃ t0, table e' rx !! j = Some t0 ∧ gs_sender t = gs_sender t0 ∧ gs_boot t = gs_boot t0)).
  { intros e' j t Ht. destruct (decide ((e', j) = (e, i))) as [[= -> ->]|Hne]; [left; rewrite Hat in Ht; by injection Ht as <-|right]. split; [done|]. rewrite Hother in Ht by done.
    apply fmap_Some in Ht as (t0 & Ht0 & ->). exists t0. destruct (R4 t0). done. }
  assert (Hclash : ∀ j t, table e rx !! j = Some t → gs_sender t = f_sender g → j = i).
  { intros j t Ht Hts. destruct Hc as [[Hsp _]|[_ Hno]]; [|by destruct (Hno _ _ Ht)]. by eapply (H3 e); [done|done|congruence|congruence]. }
  split.
  - intros f [->|Hf]%elem_of_cons; [|by apply H1]. split_and!; [done..|]. intros Hp. destruct Hu as [?|[? _]]; [by right|left; lia].
  - done.
  - unfold rx3. by destruct (set_labels e (alter (λ s, set_bank b (window_add (bank_of b s) (f_counter g)) s) i (table e rx2)) rx2) as [-> ->].
  - intros e' x y a c Ha Hcc Heq Hnz. apply Hfrom in Ha as [(-> & -> & ->)|(Hne1 & a0 & Ha & Ea & _)]; apply Hfrom in Hcc as [(E1 & E2 & E3)|(Hne2 & c0 & Hcc & Ec & _)].
    + done.
    + symmetry. eapply Hclash; [exact Hcc|]. congruence.
    + subst. eapply Hclash; [exact Ha|]. congruence.
    + eapply (H3 e'); [exact Ha|exact Hcc|congruence|congruence].
  - intros e' x a Ha Hnz. apply Hfrom in Ha as [(-> & -> & ->)|(_ & a0 & Ha & Ea & Eb)].
    + exists g. rewrite S1, S2. split_and!; try done. by apply elem_of_cons; left.
    + destruct (H4 e' x a0 Ha ltac:(congruence)) as (f & Hf & F1 & F2 & F3). exists f. split_and!; [by apply elem_of_cons; right|done|congruence|congruence].
  - assert (Hlab : ∀ x, bank_label rx3 x = bank_label rx2 x) by (intros x; apply label_set). intros f [->|Hf]%elem_of_cons Hfu.
    + exists i, s3. split_and!; [done|done|]. right. split; [done|]. exists b. rewrite Hlab. split; [done|]. unfold s3. by rewrite bank_of_set, Bool.eqb_reflx.
    + destruct (H5 f Hf Hfu) as (x & a & Ha & Has & Hcov). destruct (decide ((f_end f, x) = (e, i))) as [[= Ee ->]|Hne].
      * rewrite Ee in Ha. rewrite Hs in Ha. injection Ha as <-. exists i, s3. rewrite Ee. assert (Hsame : f_sender f = f_sender g). { destruct Hb as [[? _]|Hz]; [congruence|]. destruct (H1 f Hf) as [? _]. congruence. }
        split_and!; [done|congruence|]. rewrite S2. destruct Hb as [[_ Hb]|Hz]; [|destruct (H1 f Hf) as [? _]; congruence]. destruct Hcov as [?|(Hfb & j & Hj & Hse)]; [left; lia|].
        destruct A3 as [A3|(_ & A4 & A5)]; [|right; split; [congruence|]].
        -- destruct (decide (gs_boot s < f_boot g)) as [|Hge]; [left; lia|exfalso]. unfold s1, adopt_sender in A3. rewrite bool_decide_eq_false_2 in A3 by lia. rewrite bool_decide_eq_false_2 in A3 by congruence. cbn [orb] in A3.
           destruct Hse as [_ Hnz]. apply Hnz. specialize (A3 j). destruct j; cbn in A3 |- *; by rewrite A3.
        -- exists j. rewrite <- Hl1 in Hj. destruct (R6 (f_epoch f) j s1 Hfu Hj) as [Hj2 Hbj]. rewrite Hlab. split; [done|]. unfold s3. rewrite bank_of_set. destruct (Bool.eqb_spec b j) as [<-|_].
           ++ apply Wk. unfold s2. by rewrite Hbj, A5.
           ++ unfold s2. by rewrite Hbj, A5.
      * exists x, (W a). rewrite Hother, Ha by done. destruct (R4 a) as [-> ->]. split_and!; [done..|]. destruct Hcov as [?|(Hfb & j & Hj & Hse)]; [by left|right]. split; [done|]. exists j. rewrite <- Hl1 in Hj.
        destruct (R6 (f_epoch f) j a Hfu Hj) as [Hj2 Hbj]. rewrite Hlab, Hbj. done.
  - by constructor.
Qed.
End Step.

(** ** A run *)

Section Boot.
Context (cert_decode : list Z → result CertClaims) {ST : Type} `{RecordSlotStorage ST} (sha256 : list Z → list Z) (hmac : list Z → list Z → list Z) {AG : AeadGcm}.
Abbreviation Node := (GroupNode ST).
Abbreviation GroupWorld := (@GroupWorld ST).
Abbreviation gstep := (gstep cert_decode sha256 hmac).
Abbreviation gsteps := (gsteps cert_decode sha256 hmac).
Abbreviation node_ok := (node_ok cert_decode).

Lemma derive_accepts e k s prk : derive hmac e k s = Ok prk → accepts e k s = true.
Proof using.
  unfold derive, accepts. intros Hd. apply guard_err_bind in Hd as [Hg Hd]. apply orb_false_iff in Hg as [->%negb_false_iff ->]. cbn [negb andb].
  destruct (bool_decide (e = gk_epoch_current (site_ s))); [done|]. destruct (bool_decide (e = gk_epoch_next (site_ s))); [done|]. by destruct (bool_decide (e = previous_epoch_ k)).
Qed.
(** A key for a frame: the phase is ready, the sender is named, the epoch accepted. *)
Lemma material_ready (n : Node) c t km : material hmac n c t = Ok km → ready (g_keys n) (g_store n) = true ∧ sender c ≠ 0 ∧ accepts (frame_epoch c) (g_keys n) (g_store n) = true.
Proof using.
  unfold material. intros Hm. apply guard_err_bind in Hm as [Hb Hm]. do 3 apply guard_err_bind in Hm as [_ Hm]. apply result_bind_inv in Hm as (prk & Hd & _).
  pose proof (derive_accepts _ _ _ _ Hd) as Ha. assert (Hr : ready (g_keys n) (g_store n) = true) by (unfold accepts in Ha; by destruct (ready _ _)).
  split_and!; [done| |done]. unfold bound_context in Hb. apply negb_false_iff, negb_true_iff in Hb. rewrite !orb_false_iff in Hb. destruct Hb as [[[[[[_ Hs] _] _] _] _] _]. by apply bool_decide_eq_false in Hs.
Qed.

(** The entry for a frame: its sender's, or a free one. *)
Lemma slot_found c counter (n : Node) A r n' :
  replay_slot c counter n = (r, n') → site_ok cert_decode (g_store n) → ready (g_keys n) (g_store n) = true → sender c ≠ 0 → rx_ok (g_keys n) (g_rx n) A → in_order A →
  rx_ok (g_keys n) (g_rx n') A ∧ ∀ i, r = Ok i → ∃ s, slot_for (g_rx n') (is_end c) i (sender c) (frame_epoch c) (frame_boot c) counter s.
Proof using.
  unfold replay_slot, mbind, M_bind, getS, fail_if, throw, modifyS, mret, M_ret. intros E Hs Hr Hn Hrx Ho. destruct (find_sender c (g_rx n)) as [i|] eqn:Hf.
  - destruct (find_from_some _ _ _ _ Hf) as (s & _ & Hl & Hp). rewrite Nat.sub_0_r in Hl. apply bool_decide_eq_true in Hp. rewrite Hl in E.
    destruct (replay_ok _ _ _ _ _) eqn:Hok; cbn [negb] in E; injection E as <- <-; (split; [done|]); [|done]. intros ? [= <-]. exists s. split; [done|]. by left.
  - destruct (free_sender _ _ _ _) as [[i rx]|] eqn:Hfr; injection E as <- <-; [|done]. destruct (free_sender_ok cert_decode _ _ Hr Hs _ _ _ _ _ Hrx Ho Hfr) as (Hrx' & s & Hl & Hz). split; [done|].
    intros ? [= <-]. exists s. split; [done|]. right. split; [done|]. intros j t Ht. cbn in Ht. assert (Hnone : ∀ j t, table (is_end c) (g_rx n) !! j = Some t → gs_sender t ≠ sender c).
    { intros j' t' Ht'. pose proof (find_from_none _ _ _ _ _ Hf Ht') as Hx. by apply bool_decide_eq_false in Hx. }
    unfold free_sender in Hfr. destruct (find_from _ 0 (table (is_end c) (g_rx n))); [injection Hfr as _ <-; by eapply Hnone|]. destruct (is_end c) eqn:He; [done|].
    destruct (find_from _ 0 (link_rx_ (g_rx n))); [|done]. injection Hfr as _ <-. cbn [table set_table link_rx_] in Ht. apply list_lookup_insert_Some in Ht as [(_ & <- & _)|[_ Ht]]; [cbn; congruence|by eapply Hnone].
Qed.

Lemma frame_found c counter aad ct tag (n : Node) A r n' :
  open_frame hmac c counter aad ct tag n = (r, n') → site_ok cert_decode (g_store n) → rx_ok (g_keys n) (g_rx n) A → in_order A →
  rx_ok (g_keys n) (g_rx n') A ∧ ∀ i pt, r = Ok (i, pt) →
    ready (g_keys n) (g_store n) = true ∧ sender c ≠ 0 ∧ accepts (frame_epoch c) (g_keys n) (g_store n) = true ∧
    ∃ s, slot_for (g_rx n') (is_end c) i (sender c) (frame_epoch c) (frame_boot c) counter s.
Proof using.
  unfold open_frame, mbind at 1, M_bind at 1, getS, mbind at 1, M_bind at 1, lift. intros E Hs Hrx Ho.
  destruct (material hmac n c false) as [[key iv]|cd d] eqn:Hm; [|by injection E as <- <-]. destruct (material_ready _ _ _ _ Hm) as (Hr & Hn & Ha).
  unfold mbind at 1, M_bind at 1 in E. destruct (replay_slot c counter n) as [rs n1] eqn:Es. destruct (slot_found _ _ _ _ _ _ Es Hs Hr Hn Hrx Ho) as [H1 H2].
  destruct rs as [i|cd d]; [|by injection E as <- <-]. unfold mbind, M_bind in E. destruct (aead_nonce iv counter) as [nonce|cd d]; [|by injection E as <- <-].
  destruct (aead_open key nonce aad ct tag) as [p|]; [|by injection E as <- <-]. unfold fail_if, throw, mret, M_ret in E. destruct (revoked_group_sender _ _ _); injection E as <- <-; [done|].
  split; [done|]. intros ? ? [= <- <-]. auto.
Qed.

Lemma open_rx c counter aad ct tag room (n : Node) boot A r n' :
  group_open cert_decode sha256 hmac c counter aad ct tag room n = (r, n') → site_ok cert_decode (g_store n) → phase_ok (g_keys n) → boots boot (g_keys n) → is_u64 counter →
  rx_ok (g_keys n) (g_rx n) A → in_order A → rx_ok (g_keys n') (g_rx n') (if is_ok r then frame_of c counter :: A else A).
Proof using.
  unfold group_open, mbind at 1, M_bind at 1, fail_if, throw. intros E Hs Hp Hb Hk Hrx Ho. destruct (_ || _); [by injection E as <- <-|].
  unfold mret, M_ret, mbind at 1, M_bind at 1 in E. destruct (open_frame hmac c counter aad ct tag n) as [rf n1] eqn:Ef. destruct (frame_node _ _ _ _ _ _ _ _ _ Ef) as [Hn1 _].
  destruct (frame_found _ _ _ _ _ _ _ _ _ Ef Hs Hrx Ho) as [Hrx1 Hok]. assert (K : g_keys n1 = g_keys n ∧ g_store n1 = g_store n) by (by rewrite Hn1). destruct K as [K1 K2].
  destruct rf as [[i pt]|cd d]; [|injection E as <- <-; by rewrite K1]. destruct (Hok i pt eq_refl) as (Hr & Hn & Ha & s & Hslot).
  unfold mbind at 1, M_bind at 1, getS in E. cbn beta in E. rewrite K2 in E. destruct (bool_decide_reflect (frame_epoch c = gk_epoch_next (site_ (g_store n)))) as [Hx|Hx].
  - set (inp := mkGroupInput _ _ _ _ _ _) in E. unfold mbind, M_bind in E. pose proof (keys_step cert_decode sha256 inp 0 n1 boot) as Hkeys. rewrite K1, K2 in Hkeys. specialize (Hkeys Hs Hp Hb ltac:(done)).
    destruct (on_keys _ n1) as [ra n2]. cbn [snd] in Hkeys. destruct Hkeys as (_ & Ht & Hrx2 & _). assert (n' = n2 ∧ is_ok r = false) as [-> ->] by (by destruct ra; injection E as <- <-).
    rewrite Hrx2. by eapply rx_turn.
  - injection E as <- <-. cbn [is_ok with_rx g_keys g_rx]. rewrite K1. destruct (ready_bound _ _ Hr) as (_ & _ & _ & Hc & _).
    apply (commit_rx cert_decode (g_keys n) (g_store n) Hr Hs (g_rx n1) A (frame_of c counter) i s); try done; [|cbn; unfold in_range in Hk; lia].
    unfold accepts in Ha. rewrite !andb_true_iff, !orb_true_iff, negb_true_iff, bool_decide_eq_false, !bool_decide_eq_true in Ha. destruct Ha as [[_ Hz] [[He|?]|He]]; [left; cbn; congruence|done|right; cbn; split; congruence].
Qed.

(** Other operations leave the windows, and accept nothing. *)
Definition receives (op : GOp) : bool := match op with GOpen _ _ _ _ _ _ => true | _ => false end.
Lemma quiet_rx op (w : GroupWorld) : receives op = false → gmay w op → node_ok w → g_rx (gw_node (gstep op w)) = g_rx (gw_node w) ∧ gw_accepted (gstep op w) = gw_accepted w.
Proof using.
  intros Hq Hm [Hs Hp Hb]. destruct op; try done; cbn [GroupRun.gstep].
  - split; [|done]. cbn. unfold on_site. by destruct (site_op _ _ _ _) as [r [s' st]].
  - destruct (keys_step cert_decode sha256 i now (gw_node w) (gw_boot w) Hs Hp Hb Hm) as (_ & _ & Ht & _). done.
  - destruct (next_node hmac c (gw_node w)) as (_ & _ & Ht & _). done.
  - rewrite seal_node. destruct (seal_use _ _ _ _ _ _); by destruct (seal_bounds _ _ _ _ _).
Qed.
Lemma accepted_grows op (w : GroupWorld) : gmay w op → node_ok w → ∀ f, f ∈ gw_accepted w → f ∈ gw_accepted (gstep op w).
Proof using.
  intros Hm Hn f Hf. destruct (receives op) eqn:Hq; [|by rewrite (proj2 (quiet_rx op w Hq Hm Hn))]. destruct op; try done. cbn [GroupRun.gstep]. destruct (group_open _ _ _ _ _ _ _ _ _ _) as [r n'].
  cbn [gw_accepted]. destruct (is_ok r); [by apply elem_of_cons; right|done].
Qed.

Lemma rx_step op (w : GroupWorld) : gmay w op → node_ok w → in_order (gw_accepted w) → rx_ok (g_keys (gw_node w)) (g_rx (gw_node w)) (gw_accepted w) →
  rx_ok (g_keys (gw_node (gstep op w))) (g_rx (gw_node (gstep op w))) (gw_accepted (gstep op w)).
Proof using.
  intros Hm Hn Ho Hrx. destruct (receives op) eqn:Hq.
  - destruct op; try done. destruct Hm as [_ Hk]. destruct Hn as [Hs Hp Hb]. cbn [GroupRun.gstep]. destruct (group_open _ _ _ _ _ _ _ _ _ _) as [r n'] eqn:E. by apply (open_rx _ _ _ _ _ _ _ (gw_boot w) _ _ _ E).
  - destruct (quiet_rx op w Hq Hm Hn) as [-> ->]. destruct (node_step cert_decode sha256 hmac op w Hm Hn) as [_ Ht]. by eapply rx_turn.
Qed.

Lemma accepted_stays ops (w : GroupWorld) : glawful cert_decode sha256 hmac ops w → node_ok w → ∀ f, f ∈ gw_accepted w → f ∈ gw_accepted (gsteps ops w).
Proof using.
  revert w. induction ops as [|op ops IH]; intros w; [done|]. intros [Hm Hl] Hn f Hf. cbn [GroupRun.gsteps]. apply IH; [done|by apply node_step|by apply accepted_grows].
Qed.
Lemma rx_steps ops (w : GroupWorld) : glawful cert_decode sha256 hmac ops w → node_ok w → rx_ok (g_keys (gw_node w)) (g_rx (gw_node w)) (gw_accepted w) → in_order (gw_accepted (gsteps ops w)) →
  NoDup (gw_accepted (gsteps ops w)).
Proof using.
  revert w. induction ops as [|op ops IH]; intros w; [by intros _ _ [_ _ _ _ _ _ ?] _|]. intros [Hm Hl] Hn Hrx. cbn [GroupRun.gsteps]. intros Ho. destruct (node_step cert_decode sha256 hmac op w Hm Hn) as [Hn' _].
  apply IH; try done. apply rx_step; try done. intros f g Hf Hg. apply Ho; (apply accepted_stays; [done..|by apply accepted_grows]).
Qed.

Lemma rx_start boot st self (w : GroupWorld) : rx_ok (g_keys (gw_node (gboot boot st self w))) (g_rx (gw_node (gboot boot st self w))) [].
Proof using.
  cbn. assert (Hz : ∀ e i s, table e new_rx !! i = Some s → gs_sender s = 0) by (by intros [] i s [-> _]%lookup_replicate).
  split; try done; [by intros f ?%not_elem_of_nil|intros e i j s t Ha%Hz|intros e i s Ha%Hz|by intros f ?%not_elem_of_nil|constructor]; congruence.
Qed.

(** C14: in any sequence of store, key and traffic operations after a boot,
    the frames that [group_open] accepts are all different: a label is taken
    only from an epoch that is no longer accepted, and an entry only from a
    sender whose frames cannot come back. It asks that link senders do not go
    back to an older epoch in a newer boot, and that a restarted key phase
    does not go back to an older epoch. *)
Theorem group_frames_accepted_once (boot : Z) (st : ST) (self : NodeId) (w : GroupWorld) (ops : list GOp) :
  let w0 := gboot boot st self w in
  glawful cert_decode sha256 hmac ops w0 → in_order (gw_accepted (gsteps ops w0)) → NoDup (gw_accepted (gsteps ops w0)).
Proof using.
  intros w0 Hl Ho. apply rx_steps; [done| |apply rx_start|done]. split; [apply no_site_valid|by intros _|done].
Qed.
End Boot.
