(* ===== verification/GroupDemo.v ===== *)
(** * Group traffic: concrete runs *)

From S2P Require Import Prelude Types SessionBank SessionBankDemo SealedSlots SealedSlotsDemo SiteStore SiteRecordProps GroupKeys GroupSecurity GroupRun GroupWindows.
#[local] Existing Instance demo_aead.

Abbreviation FS := (FaultyStorage kSiteSlotBytes).
Definition blank_site : FS := mkFaulty [replicate kSiteSlotBytes 0xFF; replicate kSiteSlotBytes 0xFF] [].

(** The certificates of a site and its member, as two bytes. *)
Definition demo_certs (b : list Z) : result CertClaims :=
  if bool_decide (b = [1]) then Ok (mkClaims CertSite 0 0x5151 0x1234 0 0 0 1)
  else if bool_decide (b = [2]) then Ok (mkClaims CertMember 0x5151 11 0 0x100001234 1 1 0)
  else Err ProtocolError "certificate".
Definition demo_sha (b : list Z) : list Z := be_bytes 32 (mix b).
Definition demo_site (epoch k : Z) : SiteRecord :=
  mkSiteRecord StMember 0x5151 0x100001234 1 0 epoch 0 (replicate 32 k) zero_key (replicate 32 9) 1 1 6 0 0 [11; 0; 0; 0] [1] [2].

Definition link_ctx (s : NodeId) (boot epoch : Z) : SecurityContext := mkContext GroupLink 0x1234 s kBroadcastNodeId boot epoch 0 0.
Definition start_in (boot : Z) : GOp := GKey (mkGroupInput GStart 0 zero_key boot 0 0) 0.
Definition next_key (epoch k : Z) : GOp := GKey (mkGroupInput GStage epoch (replicate 32 k) 0 1 10) 100.
Definition activate_in (epoch boot now : Z) : GOp := GKey (mkGroupInput GActivate epoch zero_key boot 1 10) now.

(** Node 11 joins, seals under epochs 1 and 2, and again after a reboot. *)
Definition first_boot : list GOp :=
  [GSite SInitialize; GSite (SCommit (demo_site 1 7)); start_in 5;
   GNext (link_ctx 11 5 1); GSeal (link_ctx 11 5 1) 0 [] [1; 2] 2; GSeal (link_ctx 11 5 1) 0 [] [3; 4] 2;
   GNext (link_ctx 11 5 1); GSeal (link_ctx 11 5 1) 1 [] [5] 1; next_key 2 8; activate_in 2 5 200;
   GNext (link_ctx 11 5 2); GSeal (link_ctx 11 5 2) 2 [] [6] 1].
Definition life1 := run_gboots demo_certs demo_sha demo_hmac [mkGBoot 5 blank_site 11 first_boot] (factory blank_site).
Definition second_boot : list GOp :=
  [GSite SInitialize; start_in 6; GSeal (link_ctx 11 6 2) 0 [] [1] 1; GNext (link_ctx 11 6 2); GSeal (link_ctx 11 6 2) 0 [] [7] 1; GSeal (link_ctx 11 5 2) 0 [] [7] 1].
Definition life : list (@GBoot FS) := [mkGBoot 5 blank_site 11 first_boot; mkGBoot 6 (g_storage (gw_node life1)) 11 second_boot].

(** The owner's obligations, as a computation. *)
Definition fits (w x : Z) : bool := bool_decide (0 ≤ x) && bool_decide (x < 2 ^ w).
Lemma fits_ok w x : fits w x = true → in_range w x.
Proof. unfold fits, in_range. rewrite andb_true_iff, !bool_decide_eq_true. lia. Qed.
Definition typed_ctx (c : SecurityContext) : bool :=
  group_scope (scope c) && fits 64 (sender c) && fits 32 (epoch c) && fits 32 (group_epoch c) && fits 32 (sender_boot c) && fits 64 (group_id c).
Lemma typed_ctx_ok c : typed_ctx c = true → gcontext_typed c.
Proof. unfold typed_ctx. rewrite !andb_true_iff. intros [[[[[? ?] ?] ?] ?] ?]. split; first [done|by apply fits_ok]. Qed.
Definition may_do (w : @GroupWorld FS) (op : GOp) : bool :=
  match op with
  | GKey i _ => negb (bool_decide (gi_op i = GStart)) || bool_decide (gi_boot i = gw_boot w) && bool_decide (bound_current_ (g_keys (gw_node w)) ≤ gk_epoch_current (site_ (g_store (gw_node w))))
  | GNext c => typed_ctx c
  | GSeal c counter _ _ _ => typed_ctx c && fits 64 counter && (negb (is_end c) || bool_decide (gw_floor w < sender_boot c))
  | GOpen c counter _ _ _ _ => typed_ctx c && fits 64 counter
  | _ => true
  end.
Lemma may_do_ok w op : may_do w op = true → gmay w op.
Proof.
  destruct op; cbn; try done.
  - intros [Hn%negb_true_iff|[? ?]%andb_true_iff]%orb_true_iff Hs; [by apply bool_decide_eq_false in Hn|]. rewrite !bool_decide_eq_true in *. done.
  - apply typed_ctx_ok.
  - rewrite !andb_true_iff. intros [[? ?] Hf]. split_and!; [by apply typed_ctx_ok|by apply fits_ok|]. intros He. rewrite He in Hf. by apply bool_decide_eq_true in Hf.
  - rewrite andb_true_iff. intros [? ?]. split; [by apply typed_ctx_ok|by apply fits_ok].
Qed.
Fixpoint all_may (ops : list GOp) (w : @GroupWorld FS) : bool :=
  match ops with [] => true | op :: ops => may_do w op && all_may ops (gstep demo_certs demo_sha demo_hmac op w) end.
Lemma all_may_ok ops w : all_may ops w = true → glawful demo_certs demo_sha demo_hmac ops w.
Proof. revert w. induction ops as [|op ops IH]; intros w; cbn; [done|]. intros [Hm Hl]%andb_true_iff. split; [by apply may_do_ok|by apply IH]. Qed.


(** Node 22 accepts what 11 sealed, each frame once: under epoch 1, under the
    staged epoch after the tick that promotes it, and in the overlap. *)
Definition group_tag (epoch boot counter : Z) (k : Z) (text : list Z) : list Z :=
  match group_bcast_key demo_hmac (group_prk demo_hmac 0x100001234 (replicate 32 k)) epoch 11 boot with
  | Ok (key, iv) => match aead_nonce iv counter with Ok nonce => demo_tag key nonce [] text | Err _ _ => [] end
  | Err _ _ => []
  end.
Definition hear (epoch counter k x : Z) : GOp := GOpen (link_ctx 11 5 epoch) counter [] [x] (group_tag epoch 5 counter k [x]) 1.
Definition tick_at (now : Z) : GOp := GKey (mkGroupInput GTick 0 zero_key 0 0 0) now.
Definition listening : list GOp :=
  [GSite SInitialize; GSite (SCommit (demo_site 1 7)); start_in 3; hear 1 0 7 1; hear 1 0 7 1; hear 1 3 7 4; next_key 2 8;
   hear 2 4 8 5; tick_at 300; hear 2 4 8 5; hear 2 4 8 5; hear 1 3 7 4; hear 1 1 7 2; hear 1 1 7 2; tick_at 20000; hear 1 2 7 3].
Definition listener := gboot 3 blank_site 22 (factory blank_site).

Lemma in_order_decide A :
  bool_decide (Forall (λ f, Forall (λ g, f_end f = false → f_end g = false → f_sender f = f_sender g → f_epoch f < f_epoch g → f_boot f ≤ f_boot g) A) A) = true → in_order A.
Proof. intros Hb%bool_decide_eq_true f g Hf Hg. rewrite Forall_forall in Hb. specialize (Hb f Hf). rewrite Forall_forall in Hb. by apply Hb. Qed.

Lemma group_frames_accepted_once_witness :
  NoDup (gw_accepted (gsteps demo_certs demo_sha demo_hmac listening listener)) ∧
  map f_counter (gw_accepted (gsteps demo_certs demo_sha demo_hmac listening listener)) = [1; 4; 3; 0].
Proof.
  split; [|vm_compute; reflexivity]. apply (group_frames_accepted_once demo_certs demo_sha demo_hmac 3 blank_site 22 (factory blank_site) listening).
  - apply all_may_ok. vm_compute. reflexivity.
  - apply in_order_decide. vm_compute. reflexivity.
Defined.

(** What 11 seals after its first draw, 22 opens. *)
Definition talker := gw_node (gsteps demo_certs demo_sha demo_hmac (take 4 first_boot) (gboot 5 blank_site 11 (factory blank_site))).
Definition hearer := gw_node (gsteps demo_certs demo_sha demo_hmac (take 3 listening) listener).
Lemma group_frame_delivered_witness :
  fst (group_open demo_certs demo_sha demo_hmac (link_ctx 11 5 1) 0 [] [1; 2] (group_tag 1 5 0 7 [1; 2]) 2 hearer) = Ok [1; 2].
Proof.
  apply (group_frame_delivered (H1 := demo_laws) demo_certs demo_sha demo_hmac talker hearer (link_ctx 11 5 1) 0 [] [1; 2] 2 [1; 2] (group_tag 1 5 0 7 [1; 2])
           (snd (group_seal demo_hmac (link_ctx 11 5 1) 0 [] [1; 2] 2 talker))).
  - vm_compute. reflexivity.
  - split; try (vm_compute; reflexivity). vm_compute. discriminate.
Defined.

Lemma demo_site_typed epoch k : is_u32 epoch → is_u8 k → site_typed (demo_site epoch k).
Proof.
  intros He Hk. assert (Hz : bytes_ok zero_key) by (by apply Forall_replicate). split; cbn [demo_site st_site_id st_network st_generation st_rs_floor gk_epoch_current gk_epoch_next gk_current gk_next dams st_role gateway_count st_channel st_channel_epoch st_boot_witness gateways site_cert member_cert st_state];
    try done; [split; [done|by apply Forall_replicate]..|split; [done|repeat constructor; done]|split; repeat constructor; done].
Qed.
Lemma site_record_roundtrip_witness :
  ∃ bytes, site_record_encode demo_certs (demo_site 1 7) kSiteSealCommitted 4 (replicate 712 0) = Ok (202%nat, bytes ++ drop 202 (replicate 712 0)) ∧
    length bytes = 202%nat ∧ site_record_decode demo_certs bytes = Ok (demo_site 1 7, 4).
Proof.
  destruct (site_record_roundtrip demo_certs (demo_site 1 7) 4 (replicate 712 0)) as (bytes & H1 & H2 & _ & _ & H3); [by apply demo_site_typed|by vm_compute|done|vm_compute; lia|].
  exists bytes. split_and!; [exact H1|exact H2|exact H3].
Defined.

(** A commit of a member record replaces the group key as well. *)
Lemma commit_replaces_group_key :
  let run := gsteps demo_certs demo_sha demo_hmac [GSite SInitialize; GSite (SCommit (demo_site 1 7)); GSite (SCommit (demo_site 2 8))] listener in
  site_ (g_store (gw_node run)) = demo_site 2 8.
Proof. vm_compute. reflexivity. Qed.

(** ** A roll back of the site record *)

(** A key is staged, then the revocation floor is raised to 5, which leaves the
    newest record in slot 0.  The activation of the key loses power between
    the two phases of slot 0. *)
Definition floored := gw_node (gsteps demo_certs demo_sha demo_hmac
  [GSite SInitialize; GSite (SCommit (demo_site 1 7)); start_in 5; next_key 2 8; GSite (SRaise 5)] (gboot 5 blank_site 11 (factory blank_site))).
Definition cut_activation :=
  activate_group_key demo_certs demo_sha 2 5 (g_store floored, (mkFaulty (fs_slots (g_storage floored)) [Pass; Fails] : FS)).
Definition after_cut := SiteStore.initialize demo_certs demo_sha (new_site_store, snd (snd cut_activation)).
(** The next boot succeeds with a record whose floor is 0 again, although the
    raise had reported success. *)
Lemma activation_can_roll_back :
  st_rs_floor (site_ (g_store floored)) = 5 ∧ is_ok (fst cut_activation) = false ∧
  fst after_cut = Ok tt ∧ has_site (fst (snd after_cut)) = true ∧ st_rs_floor (site_ (fst (snd after_cut))) = 0.
Proof. by vm_compute. Qed.
